(* ===== verification/_CoqProject ===== *)
-Q . S2P
Prelude.v
Bytes.v
Db.v
Parts.v
GoStrings.v
Netip.v
AddrStore.v
NetblockPlace.v
NetblockRegistry.v
Ipam.v
Policy.v
PolicyAnalysis.v
DualControl.v
Rollout.v
AuditChain.v
Queue.v
Nonce.v
JoinKey.v
Breaker.v
Revocation.v
Trust.v
Attest.v
Jws.v
Bundle.v
Signer.v
ConfigSign.v
NebulaConfig.v
Enrollment.v
EnrollmentSafety.v
Genesis.v
Rotation.v
Reaper.v
CoreApi.v
CoreSafety.v
Heartbeat.v
Fleet.v
Lighthouse.v
Releases.v
Rbac.v
DeviceGroups.v
AdminConfig.v
ConsoleOps.v
AdminQueries.v
AdminAuth.v
Gateway.v
Collector.v
GatewayReg.v
Dashboards.v
IpamConsole.v
SsoPortal.v
HostFs.v
PilotUpdate.v
NebulaUpdate.v
HostState.v
Supervisor.v
PilotAgent.v
