(* ===== verification/Prelude.v ===== *)
(** * Nebula control plane: a verification library

    The program (Go, under src/) is the control plane of a nebula overlay network. Hosts
    present a join credential to the public gateway, which queues a candidate; Core (the
    harbor process) re-verifies it, allocates an overlay address, signs a certificate and
    returns a signed configuration bundle through the queue's one-time result store. Operators
    run the fleet through dual-controlled changes: policy, netblocks, trust configurations,
    rollouts, revocations, and the rotation of the two trust roots. Several Core processes
    share one SQL database; every decision is written to a hash-chained audit log.

    ** How the code is modelled

    A package is a sequence of database calls. Db.v gives the monad they are written in ([M St
    E A]: a clock, a schedule of faults, and what others do before each call) and
    rely-guarantee weakest preconditions ([wpt T R G m Q s]): whatever the faults and the
    others (bounded by [R]) do, [m] only takes [G] steps and ends in [Q]. A transaction is one
    atomic step that an error rolls back (as on SQLite; on Postgres only where the code takes
    a lock, see Db.v; where it matters the statements are steps of their own); a conditional
    UPDATE is one step that returns the rows affected; unique constraints are part of the
    INSERT. Rows are records, tables lists in id order; times are unix nanoseconds in Z,
    64-bit wrap-around is written out where the code computes with it (Bytes.v). Errors are
    constructors of the package's error type ([%w] keeps the sentinel). Code outside the
    repository (SHA-256, HMAC, ECDSA, JSON, PEM and XML codecs, net/url, STS, nebula's
    certificates, KMS) is a parameter with the documented property the theorem needs as a
    hypothesis, and a witness instantiates it. Ghost logs (who consumed what) exist only to
    state theorems. The programs of a host work on files instead: HostFs.v runs them under a
    schedule that says of each file operation whether it succeeds, fails (a write possibly
    half done) or is where the process dies, and [cwp H C X m Q s] says that [m] returns with
    [Q], dies in [C] or is replaced in [X]. Completed operations survive a crash; a disk cache
    that loses them is outside the model.

    ** Files

    - Prelude.v: results, automation, list lemmas. Bytes.v: big-endian bytes, length-prefixed
      fields. Db.v: the monad and its logic. Parts.v: programs on a part of a database.
      GoStrings.v: the strings package.
    - Netip.v: net/netip. AddrStore.v: the shared address tables. NetblockPlace.v and
      NetblockRegistry.v: internal/netblock (placement; registry under concurrency). Ipam.v:
      internal/ipam.
    - Policy.v, PolicyAnalysis.v: internal/policy (compiler; reachability, diff, blast
      radius).
    - DualControl.v: internal/dualcontrol. Rollout.v: internal/rollout.
    - AuditChain.v: internal/store/audit.go. Queue.v: internal/queue. Nonce.v: internal/nonce
      and internal/replay. JoinKey.v: internal/joinkey. Breaker.v: internal/signer's circuit
      breakers. Revocation.v: internal/revocation.
    - Trust.v: internal/awsattest (Core side), internal/cloudtrust, internal/usertrust.
      Attest.v: internal/awsattest (host side, signing and instance metadata). Jws.v:
      internal/jws, internal/ssoassert. Bundle.v: internal/bundle.
    - Signer.v: internal/signer/signer.go. ConfigSign.v: internal/configsign, the config
      signer, its hot swap and the reconciler of each process. NebulaConfig.v:
      internal/nebulaconfig and the render step of internal/bundle, line by line, and what
      rules the text of a configuration carries. Enrollment.v: internal/enrollment, over the
      join keys, the queue's results and the services of the allocator, the signer and the
      bundle sources; EnrollmentSafety.v: its step relation, invariant and theorems, and the
      signer as an implementation of its issuing service; the genesis commands, renewals,
      regroups, heartbeats and edits of the keys are part of what interferes. Genesis.v:
      internal/genesis, the bootstrap ceremony over the registry, the allocator, the signer
      and the enrollments, and the commands of cmd/harbor that mint, rotate and backfill
      control-plane hosts.
    - Rotation.v: internal/ca and internal/configkey, one lifecycle with two gates.
    - Reaper.v: internal/reaper. CoreApi.v: internal/coreapi, the heartbeat, renewal and
      config handlers, with the host's command processor; CoreSafety.v: its theorems.
      Heartbeat.v: internal/heartbeat, the report a host collects from its files. Fleet.v:
      internal/fleet. Lighthouse.v: internal/lighthouse. Releases.v: internal/nebularelease
      and internal/pilotrelease, one catalog.
    - Rbac.v: the permissions of internal/adminapi. DeviceGroups.v: its device groups, single
      and bulk. AdminConfig.v: internal/config and the configuration and approval handlers,
      with the dual-control committers. AdminQueries.v: the paginated lists, device provenance
      and the policy diff. ConsoleOps.v: the lighthouse, rollout, join-key and release
      handlers, over one database whose parts are the packages' tables. AdminAuth.v:
      internal/adminauth and the provider chain of cmd/harbor.
    - Gateway.v: internal/gateway and the gateway's side of internal/collect. Collector.v: the
      pull loop of Core over a lossy network, with the enrollment consumer as its processor.
      GatewayReg.v: internal/gatewayreg, internal/gatewayhealth and the health record.
      Dashboards.v: the gateway, CA and config-key panes of adminapi and internal/auditverify.
      IpamConsole.v: the address-plan handlers of adminapi. SsoPortal.v: the gateway's SSO
      portal.
    - HostFs.v: the files of a host with faults and crashes, its Hoare logic with a crash
      condition, internal/binverify and the replacement of a binary. PilotUpdate.v:
      internal/pilotupdate. NebulaUpdate.v: internal/nebulaupdate. HostState.v:
      internal/enrollclient (renewal, config refresh, finishing an enrollment),
      internal/hostkey and internal/drift. Supervisor.v: internal/supervisor, a state machine
      whose steps are the select branches of the run loop, the fork and its recording apart,
      with the signals it sends, and internal/reconcile. PilotAgent.v: internal/nebulaboot,
      internal/pilotsetup and the agent's own functions in cmd/pilot (first boot, the stats
      port, health, the verified update targets).

    ** What the theorems show

    Each concurrent component has a step relation, an invariant, and a theorem that every
    handler refines the relation under faults and interference; the safety properties follow.
    Address plan: operations run one after another keep the blocks disjoint, canonical and in
    the pool; under any interleaving of statements names stay distinct and rows canonical;
    leases are exclusive, a quarantine is respected, allocation is lowest-free and complete,
    placement is complete. Policy: a host gets exactly its rules, and for single ports and
    hosts of one group the reachability answer equals what the compiled firewalls admit.
    Changes: a quorum of distinct people, of whom the proposer may be one; commit at most
    once; denials are final. Rollouts: canaries are validated, waves only move forward, a
    fleet whose commanded waves become healthy in time completes and is not rolled back.
    Enrollment: the text of a nonce is accepted once and a bundle read once, messages are
    authentic, join keys bound the hosts they admit by the largest limit they had, no route
    signs a reserved group, delivered bundles are recorded, decisions are final. Trust:
    attestations and assertions are bound to the device, what a host signs is accepted for its
    own nonce and key only, configurations match exactly, a host's trusted keys are rooted in
    its pins. Signing: templates stay in the envelope, the rate is bounded across processes,
    cut-over is fail-safe: a config bundle never carries a key set its signature is not
    rooted in, whatever the reconcilers of the processes see. Rotation: one signing key, kept,
    trusted before it signs, retired only through its gate. Audit: append keeps the chain, and
    equal heads mean equal logs or a collision. Revocation: while the enrollments stay as they
    are the control plane is never blocklisted, bulk changes are all or nothing. Genesis: a
    completed ceremony has two operators, two distinct recorded roots and hosts the revocation
    guard protects; seeding succeeds exactly for pools coarser than a /18 (against its
    comment); boot seeding leaves a plan alone. Core: a renewal signs the enrolled identity
    for a key whose possession was proved and records the certificate it returns, self-heal
    fails closed, a heartbeat is recorded under the caller's identity and never confirms a key
    the host could not verify with, the reaper spares the living, the verdict on the fleet
    equals its drill-down.
    Console: every session was vouched for and every handler runs for the identity of a
    session or token stored at that time, tokens neither approve nor come back after
    revocation, a privileged configuration takes two people, bulk regrouping loses no update
    and applies what it previewed, paging lists every device once; its requests only take the
    packages' steps and keep their invariants (eleven mutations, on SQLite), a staged release
    goes to exactly the live hosts that have a binary, a created join key opens, the panes
    agree with the collector, the trust bundle and the metrics, the tamper alarm is exact, and
    editing a description keeps the ranges. Gateway: only vetted candidates are published,
    Core verifies them alike, after a collect cycle a candidate is still queued or its result,
    as captured, is at the gateway, registered gateways can be dialled, a portal's assertion
    is bound to one device and handed out once. Hosts: whatever fails and wherever the process
    dies, the pilot and nebula binaries are complete, executable and pinned, a confirmed pilot
    is kept to return to, a failed update is undone by a startup in which nothing fails and
    not retried while its quarantine lasts, a renewal that succeeds leaves one identity, a
    config refresh is bound to the host and not behind a stored bundle that verifies, drift is
    reverted, and the text of the firewall section carries the rules Core signed and no
    others. The agent keeps one nebula child at a time, runs only the pinned binary, damps
    crash loops, judges an update by the health of the new binary and not of the one it
    replaces, and shuts down in a bounded number of steps; its health signal turns only after
    ninety seconds of failures, the first boot is whole, the first run's identity is kept, and
    a taken stats port never keeps nebula down. Theorems that exhibit an execution where the
    code does not do what its comment says are closed runs of the model with concrete data.

    ** Bounds

    Loops over tables and ranges are structural. The address scans carry the number of
    candidates of the block as fuel and the placement scan the number of slots, and their
    theorems show that failure means no candidate is left. The walk of the device list carries
    one more than the number of heartbeats, and its theorem shows that this is enough for one
    page and for the loop over the pages. Liveness of the rollouts asks for as many
    evaluations, spaced by the time a wave takes to become healthy, as there are waves left.
    The health gate of an update carries two more polls than its timeout has intervals, and
    its theorem shows that it always returns a verdict; a shutdown takes at most seven moves
    of the supervisor's goroutine; the reconciler of the config signer runs over the list of
    its ticks. The walk over the certificates of a CA bundle carries the length of the text,
    and its theorem shows that more changes nothing.

    ** Not modelled

    The enrollment-decision, fleet-health and policy-analysis wrappers of adminapi (one call
    of a modelled operation each) and its routing, the rate limiter (float64 token buckets; a
    parameter of the gateway), the schedule of renewals (floating point jitter around a
    ticker), building and sending the requests of the enrollment client, service installation
    (systemd, launchd, the Windows service manager), the Windows process functions, nebula's
    YAML loader (the theorems are about the rendered text: plain scalars in the template's
    lines), embedded assets, command-line wiring and printing, metrics and tickers, opening
    and migrating databases, TLS configuration and the pinning of peers: input and output
    around the modelled packages, or third-party libraries. *)

From stdpp Require Import prelude strings list gmap pretty.
From Stdlib Require Import ZArith Lia.

(** ** Results

    Go functions returning [(T, error)] are modelled by [result E T]: the error
    value is a constructor of the package's error type, wrapping by [%w] keeps
    the sentinel and drops the formatted text. *)
Inductive result (E A : Type) : Type :=
| Ok (a : A)
| Err (e : E).
Arguments Ok {E A} a.
Arguments Err {E A} e.

#[export] Instance result_eq_dec `{EqDecision E, EqDecision A} : EqDecision (result E A).
Proof. solve_decision. Defined.

Definition is_ok {E A} (r : result E A) : bool :=
  match r with Ok _ => true | Err _ => false end.

(** ** Automation shared by the components *)

Create HintDb ncp.

(** Split every boolean test of the context and of the goal into its
    proposition. *)
Ltac bool_split :=
  repeat match goal with
  | H : _ && _ = true |- _ => apply andb_true_iff in H; destruct H
  | H : _ || _ = false |- _ => apply orb_false_iff in H; destruct H
  | H : negb _ = true |- _ => apply negb_true_iff in H
  | H : negb _ = false |- _ => apply negb_false_iff in H
  | H : bool_decide _ = true |- _ => apply bool_decide_eq_true in H
  | H : bool_decide _ = false |- _ => apply bool_decide_eq_false in H
  | H : (_ <=? _)%Z = true |- _ => apply Z.leb_le in H
  | H : (_ <=? _)%Z = false |- _ => apply Z.leb_gt in H
  | H : (_ <? _)%Z = true |- _ => apply Z.ltb_lt in H
  | H : (_ <? _)%Z = false |- _ => apply Z.ltb_ge in H
  | H : (_ =? _)%Z = true |- _ => apply Z.eqb_eq in H
  | H : (_ =? _)%Z = false |- _ => apply Z.eqb_neq in H
  end.

(** Case analysis on the innermost match or conditional of the goal. *)
Ltac step_match :=
  match goal with
  | |- context [match ?x with _ => _ end] =>
      lazymatch x with
      | context [match _ with _ => _ end] => fail
      | _ => destruct x eqn:?
      end
  end.

(** ** Lists *)

Section lists.
Context {A : Type}.

(** [find_first f l]: the first row of a table (in primary-key order) that
    satisfies [f]; [gorm]'s [First]. *)
Fixpoint find_first (f : A -> bool) (l : list A) : option A :=
  match l with
  | [] => None
  | x :: l => if f x then Some x else find_first f l
  end.

Lemma find_first_Some f l x :
  find_first f l = Some x -> x ∈ l /\ f x = true.
Proof.
  induction l as [|y l IH]; simpl; [done|].
  destruct (f y) eqn:Hf; [intros [= ->]; split; [constructor|done]|].
  intros H. destruct (IH H). split; [by constructor|done].
Qed.

Lemma find_first_None f l :
  find_first f l = None <-> forall x, x ∈ l -> f x = false.
Proof.
  induction l as [|y l IH]; simpl.
  - split; [intros _ x Hx; by apply elem_of_nil in Hx|done].
  - destruct (f y) eqn:Hf.
    + split; [done|]. intros H. rewrite H in Hf; [done|constructor].
    + rewrite IH. split.
      * intros H x [->|Hx]%elem_of_cons; auto.
      * intros H x Hx. apply H. by constructor.
Qed.

Lemma find_first_is_Some f l x :
  x ∈ l -> f x = true -> is_Some (find_first f l).
Proof.
  intros Hx Hf. destruct (find_first f l) eqn:E; [eauto|].
  eapply find_first_None in E; eauto. congruence.
Qed.

Lemma existsb_elem (f : A -> bool) l :
  existsb f l = true <-> exists x, x ∈ l /\ f x = true.
Proof.
  rewrite existsb_exists. setoid_rewrite <- list_elem_of_In. done.
Qed.

Lemma existsb_elem_false (f : A -> bool) l :
  existsb f l = false <-> forall x, x ∈ l -> f x = false.
Proof.
  rewrite <- not_true_iff_false, existsb_elem. split.
  - intros H x Hx. apply not_true_iff_false. intros Hf. eauto.
  - intros H (x & Hx & Hf). rewrite H in Hf; done.
Qed.

Lemma forallb_elem (f : A -> bool) l :
  forallb f l = true <-> forall x, x ∈ l -> f x = true.
Proof.
  rewrite forallb_forall. setoid_rewrite <- list_elem_of_In. done.
Qed.
End lists.

(** Rows of a table whose key is unique. *)
Lemma keyed_unique {A K} (key : A -> K) (l : list A) x y : NoDup (key <$> l) -> x ∈ l -> y ∈ l -> key x = key y -> x = y.
Proof.
  intros Hnd [i Hi]%list_elem_of_lookup [j Hj]%list_elem_of_lookup E. assert (i = j) as ->; [|congruence].
  eapply (NoDup_lookup (key <$> l)); [done| |]; rewrite list_lookup_fmap; [by rewrite Hi|]. rewrite Hj. simpl. congruence.
Qed.
