(* ===== verification/Bytes.v ===== *)
(** * Byte strings and their encodings

    Go byte slices are [string]s here (one [ascii] per byte). The big-endian
    integers and the length-prefixed fields that the audit chain and the queue hash,
    with the facts that make those encodings unambiguous. *)

From S2P Require Import Prelude.
From stdpp Require Import prelude strings.
From Stdlib Require Import ZArith Lia Ascii String.
Open Scope Z_scope.

Definition byte_of (v : Z) : ascii := ascii_of_N (Z.to_N (v mod 256)).
Definition of_byte (c : ascii) : Z := Z.of_N (N_of_ascii c).

(** [binary.BigEndian.PutUint64], for [n] bytes. *)
Fixpoint be (n : nat) (v : Z) : string :=
  match n with
  | O => EmptyString
  | S n => String (byte_of (v / 256 ^ Z.of_nat n)) (be n v)
  end.

Definition be8 (v : Z) : string := be 8 v.

(** [binary.BigEndian.Uint64] *)
Fixpoint of_be (acc : Z) (s : string) : Z :=
  match s with
  | EmptyString => acc
  | String c s => of_be (acc * 256 + of_byte c) s
  end.

(** [uint64(v)] of an [int64], and back. *)
Definition u64 (v : Z) : Z := v mod 2 ^ 64.
Definition i64 (v : Z) : Z := (v + 2 ^ 63) mod 2 ^ 64 - 2 ^ 63.

(** [time.Time.Sub] on unix nanoseconds saturates at the ends of int64. *)
Definition time_sub (t u : Z) : Z := Z.max (- 2 ^ 63) (Z.min (2 ^ 63 - 1) (t - u)).
Definition int64_ok (v : Z) : Prop := - 2 ^ 63 <= v < 2 ^ 63.

(** [len(b)] *)
Definition len (s : string) : Z := Z.of_nat (String.length s).

(** [writeField]: the length, then the bytes. *)
Definition writeField (b : string) : string := be8 (len b) +:+ b.

Lemma of_byte_byte_of v : of_byte (byte_of v) = v mod 256.
Proof.
  unfold of_byte, byte_of. pose proof (Z.mod_pos_bound v 256 ltac:(lia)).
  rewrite N_ascii_embedding by lia. lia.
Qed.

Lemma of_byte_bounds c : 0 <= of_byte c < 256.
Proof. unfold of_byte. pose proof (N_ascii_bounded c). lia. Qed.

Lemma byte_of_of_byte c : byte_of (of_byte c) = c.
Proof.
  unfold byte_of. pose proof (of_byte_bounds c). rewrite Z.mod_small by lia. unfold of_byte.
  rewrite N2Z.id. apply ascii_N_embedding.
Qed.

Lemma be_length n v : String.length (be n v) = n.
Proof. induction n; cbn; congruence. Qed.

Lemma str_app_cons c a b : String c a +:+ b = String c (a +:+ b).
Proof. done. Qed.

Lemma str_app_length a b : String.length (a +:+ b) = (String.length a + String.length b)%nat.
Proof. induction a as [|c a IH]; [done|]. rewrite str_app_cons. cbn. by rewrite IH. Qed.

Lemma str_app_inj a b c d : String.length a = String.length b -> a +:+ c = b +:+ d -> a = b /\ c = d.
Proof.
  revert b. induction a as [|x a IH]; intros [|y b] Hl H; try done.
  rewrite !str_app_cons in H. cbn in Hl. injection H as -> H. destruct (IH b) as [-> ->]; [lia|done|done].
Qed.

Lemma str_app_assoc a b c : (a +:+ b) +:+ c = a +:+ (b +:+ c).
Proof. induction a as [|x a IH]; [done|]. rewrite !str_app_cons. by rewrite IH. Qed.

Lemma str_app_nil a : a +:+ EmptyString = a.
Proof. induction a as [|x a IH]; [done|]. rewrite !str_app_cons. by rewrite IH. Qed.

(** The digits determine the number up to its width. *)
Lemma be_inj n v w : be n v = be n w -> v mod 256 ^ Z.of_nat n = w mod 256 ^ Z.of_nat n.
Proof.
  induction n as [|n IH]; [intros _; cbn; by rewrite !Z.mod_1_r|]. cbn [be]. intros [= Hc Hr].
  apply (f_equal of_byte) in Hc. rewrite !of_byte_byte_of in Hc. specialize (IH Hr).
  rewrite Nat2Z.inj_succ, Z.pow_succ_r, Z.mul_comm by lia.
  assert (0 < 256 ^ Z.of_nat n) by (apply Z.pow_pos_nonneg; lia).
  rewrite !Z.rem_mul_r by lia. congruence.
Qed.

Lemma u64_inj v w : int64_ok v -> int64_ok w -> u64 v = u64 w -> v = w.
Proof.
  unfold int64_ok, u64. intros Hv Hw H.
  pose proof (Z.div_mod v (2 ^ 64) ltac:(lia)). pose proof (Z.div_mod w (2 ^ 64) ltac:(lia)).
  assert (-1 <= v / 2 ^ 64 < 1) by (split; [apply Z.div_le_lower_bound|apply Z.div_lt_upper_bound]; lia).
  assert (-1 <= w / 2 ^ 64 < 1) by (split; [apply Z.div_le_lower_bound|apply Z.div_lt_upper_bound]; lia).
  pose proof (Z.mod_pos_bound v (2 ^ 64) ltac:(lia)). pose proof (Z.mod_pos_bound w (2 ^ 64) ltac:(lia)). lia.
Qed.

Lemma be8_int64_inj v w : int64_ok v -> int64_ok w -> be8 (u64 v) = be8 (u64 w) -> v = w.
Proof.
  intros Hv Hw H. apply be_inj in H. change (256 ^ Z.of_nat 8) with (2 ^ 64) in H. unfold u64 in H.
  rewrite !Z.mod_mod in H by lia. by apply u64_inj.
Qed.

Lemma i64_u64 v : int64_ok v -> i64 (u64 v) = v.
Proof.
  unfold int64_ok, i64, u64. intros Hv. rewrite Z.add_mod_idemp_l by lia. rewrite Z.mod_small by lia. lia.
Qed.

(** Reading back what was written. *)
Lemma of_be_be acc n v : 0 <= v -> of_be acc (be n v) = acc * 256 ^ Z.of_nat n + v mod 256 ^ Z.of_nat n.
Proof.
  intros Hv. revert acc. induction n as [|n IH]; intros acc; [cbn; rewrite Z.mod_1_r; lia|]. cbn [be of_be].
  rewrite IH, of_byte_byte_of. rewrite Nat2Z.inj_succ, Z.pow_succ_r by lia.
  assert (0 < 256 ^ Z.of_nat n) by (apply Z.pow_pos_nonneg; lia).
  rewrite (Z.mul_comm 256). rewrite (Z.rem_mul_r v) by lia. ring.
Qed.

(** A length-prefixed field followed by anything parses back uniquely. *)
Lemma writeField_inj a b c d : len a < 2 ^ 64 -> len b < 2 ^ 64 ->
  writeField a +:+ c = writeField b +:+ d -> a = b /\ c = d.
Proof.
  intros Ha Hb. unfold writeField. rewrite !str_app_assoc. intros H.
  apply str_app_inj in H as [Hl H]; [|unfold be8; by rewrite !be_length].
  apply be_inj in Hl. change (256 ^ Z.of_nat 8) with (2 ^ 64) in Hl. unfold len in *.
  rewrite !Z.mod_small in Hl by lia. apply str_app_inj in H; [done|lia].
Qed.

(** No wrap-around in range. *)
Lemma i64_id v : - 2 ^ 63 <= v < 2 ^ 63 -> i64 v = v.
Proof. intros H. unfold i64. rewrite Z.mod_small; lia. Qed.
