(* ===== verification/Db.v ===== *)
(** * Database programs under faults and interference

    Harbor's packages are sequences of database calls made by one goroutine
    while other goroutines and other Harbor processes use the same tables.
    This file gives the monad the handlers are written in and the
    rely-guarantee logic their theorems are proved with.

    - A call can fail at any time (connection loss, cancelled context): the
      environment's [fault] schedule decides, and every theorem quantifies over it.
    - Between two calls of a handler anybody else may act: the environment's
      [interfere] function transforms the state before each call.
    - A [gorm] transaction is one atomic step: its body runs without
      interference, and an error (or a failed commit) rolls the state back.
      SQLite serialises every transaction on its single connection. On Postgres
      this holds where the code takes an advisory or row lock; some transactions
      take none (dual control's among them), and there two of them may
      interleave unless the file models the statements one by one. *)

From S2P Require Import Prelude.
From stdpp Require Import prelude strings list relations.
From Stdlib Require Import ZArith Lia.

(** ** The monad *)

Record Env (St : Type) : Type := mkEnv {
  clk : nat -> Z;                 (* the time read at each tick, unix nanoseconds *)
  fault : nat -> bool;            (* whether the database call at a tick fails *)
  interfere : nat -> St -> St;    (* what others do before the call at a tick *)
}.
Arguments mkEnv {St}. Arguments clk {St}. Arguments fault {St}. Arguments interfere {St}.

(** The environment a transaction's body sees: same clock and faults, nobody
    else. *)
Definition isolate {St} (env : Env St) : Env St :=
  mkEnv (clk env) (fault env) (fun _ s => s).

(** No faults, no interference, a stopped clock: for concrete runs. *)
Definition quiet {St} (t : Z) : Env St :=
  mkEnv (fun _ => t) (fun _ => false) (fun _ s => s).

Definition M (St E A : Type) : Type := Env St -> nat -> St -> result E A * nat * St.

(** The infrastructure error of a package's error type. *)
Class DbError (E : Type) := db_fault : E.

Section ops.
Context {St E : Type}.

#[global] Instance M_ret : MRet (M St E) := fun A a _ n s => (Ok a, n, s).

#[global] Instance M_bind : MBind (M St E) := fun A B k m env n s =>
  match m env n s with
  | (Ok a, n', s') => k a env n' s'
  | (Err e, n', s') => (Err e, n', s')
  end.

(** [return ..., err] *)
Definition throw {A} (e : E) : M St E A := fun _ n s => (Err e, n, s).

(** [cfg.Now()] *)
Definition now : M St E Z := fun env n s => (Ok (clk env n), S n, s).

(** [x, err := m; if errors.Is(err, ...)]: look at the error instead of
    returning it. *)
Definition attempt {A} (m : M St E A) : M St E (result E A) := fun env n s =>
  match m env n s with (r, n', s') => (Ok r, n', s') end.

(** [_ = m]: the error is dropped. *)
Definition ignore (m : M St E unit) : M St E unit := attempt m ≫= fun _ => mret ().

Context `{!DbError E}.

(** A statement that reads. *)
Definition query {A} (f : St -> A) : M St E A := fun env n s =>
  let s1 := interfere env n s in
  if fault env n then (Err db_fault, S n, s1) else (Ok (f s1), S n, s1).

(** A statement that writes; the pair is what it returns (rows affected, the
    created row, ...) and the new state. *)
Definition exec {A} (f : St -> A * St) : M St E A := fun env n s =>
  let s1 := interfere env n s in
  if fault env n then (Err db_fault, S n, s1)
  else let (a, s2) := f s1 in (Ok a, S n, s2).

(** A statement that writes and may violate a constraint. *)
Definition exec_err {A} (f : St -> result E (A * St)) : M St E A := fun env n s =>
  let s1 := interfere env n s in
  if fault env n then (Err db_fault, S n, s1)
  else match f s1 with
       | Ok (a, s2) => (Ok a, S n, s2)
       | Err e => (Err e, S n, s1)
       end.

(** [db.Transaction(func(tx) error { ... })] *)
Definition tx {A} (m : M St E A) : M St E A := fun env n s =>
  let s0 := interfere env n s in
  if fault env n then (Err db_fault, S n, s0)
  else match m (isolate env) (S n) s0 with
       | (Err e, n', _) => (Err e, n', s0)
       | (Ok a, n', s') =>
           if fault env n' then (Err db_fault, S n', s0) else (Ok a, S n', s')
       end.

(** A step on memory owned by the process and guarded by its mutex: cannot
    fail, others may have acted before it. *)
Definition mem {A} (f : St -> A * St) : M St E A := fun env n s =>
  let (a, s2) := f (interfere env n s) in (Ok a, S n, s2).
End ops.

(** [fmt.Errorf("...: %w", err)] at the boundary of two packages. *)
Definition map_err {St E1 E2 A} (f : E1 -> E2) (m : M St E1 A) : M St E2 A := fun env n s =>
  match m env n s with
  | (Ok a, n', s') => (Ok a, n', s')
  | (Err e, n', s') => (Err (f e), n', s')
  end.

(** [for _, x := range l { ... return err }] *)
Fixpoint for_each {St E A} (l : list A) (f : A -> M St E unit) : M St E unit :=
  match l with
  | [] => mret ()
  | x :: l => _ ← f x; for_each l f
  end.

(** The result and final state of a run without faults and interference. *)
Definition run {St E A} (t : Z) (m : M St E A) (s : St) : result E A * St :=
  match m (quiet t) 0 s with (r, _, s') => (r, s') end.

(** ** Rely-guarantee weakest preconditions *)

Definition stable {St} (R : relation St) (P : St -> Prop) : Prop :=
  forall s s', R s s' -> P s -> P s'.

(** Every interference step of the environment is a step of [R]. *)
Definition respects {St} (R : relation St) (env : Env St) : Prop :=
  forall k s, R s (interfere env k s).

(** One step of the system: somebody else's, or ours. *)
Definition either {St} (R G : relation St) : relation St := fun s s' => R s s' \/ G s s'.

(** From [s], whatever the faults and the others (bounded by [R]) do, with clock
    readings in [T], [m] only moves the state by [G] steps and ends in [Q]. *)
Definition wpt {St E A} (T : Z -> Prop) (R G : relation St) (m : M St E A)
    (Q : result E A -> St -> Prop) (s : St) : Prop :=
  forall env n, respects R env -> (forall k, T (clk env k)) ->
    match m env n s with
    | (r, _, s') => rtc (either R G) s s' /\ Q r s'
    end.

(** At any time. *)
Abbreviation wp := (wpt (fun _ => True)).

(** Alone, with faults: nobody interferes and any step is allowed. *)
Abbreviation solo := (wp eq (fun _ _ => True)).

Section rules.
Context {St E : Type}.
Implicit Types R G : relation St.
Implicit Types T : Z -> Prop.

Lemma wp_ret {A} T R G (a : A) (Q : result E A -> St -> Prop) s :
  Q (Ok a) s -> wpt T R G (mret a) Q s.
Proof. intros H env n _ _. split; [constructor|done]. Qed.

Lemma wp_throw {A} T R G (e : E) (Q : result E A -> St -> Prop) s :
  Q (Err e) s -> wpt T R G (throw e) Q s.
Proof. intros H env n _ _. split; [constructor|done]. Qed.

Lemma wp_mono {A} T R G (m : M St E A) (Q Q' : result E A -> St -> Prop) s :
  wpt T R G m Q' s -> (forall r s', rtc (either R G) s s' -> Q' r s' -> Q r s') -> wpt T R G m Q s.
Proof.
  intros Hm HQ env n HR HT. specialize (Hm env n HR HT).
  destruct (m env n s) as [[r n1] s1]. destruct Hm; auto.
Qed.

(** Fewer interferences, more allowed steps, fewer clock readings. *)
Lemma wp_weaken {A} (T T' : Z -> Prop) R R' G G' (m : M St E A) (Q : result E A -> St -> Prop) s :
  wpt T R G m Q s -> (forall t, T' t -> T t) -> (forall a b, R' a b -> R a b) ->
  (forall a b, either R G a b -> either R' G' a b) -> wpt T' R' G' m Q s.
Proof.
  intros Hm HT HR HG env n HRe HTe.
  specialize (Hm env n (fun k a => HR _ _ (HRe k a)) (fun k => HT _ (HTe k))).
  destruct (m env n s) as [[r n1] s1]. destruct Hm as [Hr HQ]. split; [|done].
  clear -Hr HG. induction Hr; eauto using rtc.
Qed.

Lemma wp_conj {A} T R G (m : M St E A) (Q1 Q2 : result E A -> St -> Prop) s :
  wpt T R G m Q1 s -> wpt T R G m Q2 s -> wpt T R G m (fun r s' => Q1 r s' /\ Q2 r s') s.
Proof.
  intros H1 H2 env n HR HT. specialize (H1 env n HR HT). specialize (H2 env n HR HT).
  destruct (m env n s) as [[r n1] s1]. destruct H1, H2. done.
Qed.

(** A call known only by the steps it takes. *)
Lemma wp_frame {A} T R (K G : relation St) (m : M St E A) (Q : result E A -> St -> Prop) s :
  wpt T R K m (fun _ _ => True) s -> (forall a b, K a b -> G a b) ->
  (forall r s', rtc (either R K) s s' -> Q r s') -> wpt T R G m Q s.
Proof.
  intros Hm HK HQ env n HR HT. specialize (Hm env n HR HT).
  destruct (m env n s) as [[r n1] s1]. destruct Hm as [Hr _]. split; [|by apply HQ].
  clear -Hr HK. induction Hr as [|x y z [Hxy|Hxy] _ IH]; [constructor| |].
  - eapply rtc_l; [by left|done].
  - eapply rtc_l; [right; by apply HK|done].
Qed.

(** The same when the steps are allowed only under an invariant. *)
Lemma wp_frame_inv {A} T R (K G : relation St) (I : St -> Prop) (m : M St E A) (Q : result E A -> St -> Prop) s :
  wpt T R K m (fun _ _ => True) s -> stable R I -> (forall a b, I a -> K a b -> G a b /\ I b) -> I s ->
  (forall r s', I s' -> Q r s') -> wpt T R G m Q s.
Proof.
  intros Hm HI HK HIs HQ env n HR HT. specialize (Hm env n HR HT).
  destruct (m env n s) as [[r n1] s1]. destruct Hm as [Hr _]. cut (rtc (either R G) s s1 /\ I s1); [intros [? ?]; auto|].
  clear -Hr HK HI HIs. induction Hr as [|x y z [Hxy|Hxy] _ IH]; [by split|..].
  - destruct IH; [by eapply HI|]. split; [|done]. eapply rtc_l; [by left|done].
  - destruct (HK _ _ HIs Hxy) as [HG Hy]. destruct IH; [done|]. split; [|done]. eapply rtc_l; [by right|done].
Qed.

Lemma wp_bind {A B} T R G (m : M St E A) (k : A -> M St E B)
    (Q : result E B -> St -> Prop) s :
  wpt T R G m (fun r s' => match r with
                        | Ok a => wpt T R G (k a) Q s'
                        | Err e => Q (Err e) s'
                        end) s ->
  wpt T R G (m ≫= k) Q s.
Proof.
  intros Hm env n HR HT. specialize (Hm env n HR HT). unfold mbind, M_bind.
  destruct (m env n s) as [[[a|e] n1] s1]; [|done].
  destruct Hm as [Hr Hk]. specialize (Hk env n1 HR HT).
  destruct (k a env n1 s1) as [[r2 n2] s2]. destruct Hk. split; [by etrans|done].
Qed.

Lemma wp_bind_assoc {A B C} T R G (m : M St E A) (f : A -> M St E B) (k : B -> M St E C)
    (Q : result E C -> St -> Prop) s :
  wpt T R G (m ≫= fun x => f x ≫= k) Q s -> wpt T R G ((m ≫= f) ≫= k) Q s.
Proof.
  intros H env n HR HT. specialize (H env n HR HT). unfold mbind, M_bind in *.
  destruct (m env n s) as [[[a|e] n1] s1]; done.
Qed.

Lemma wp_attempt {A} T R G (m : M St E A) (Q : result E (result E A) -> St -> Prop) s :
  wpt T R G m (fun r s' => Q (Ok r) s') s -> wpt T R G (attempt m) Q s.
Proof.
  intros Hm env n HR HT. specialize (Hm env n HR HT). unfold attempt.
  destruct (m env n s) as [[r n1] s1]. done.
Qed.

Lemma wp_ignore T R G (m : M St E unit) (Q : result E unit -> St -> Prop) s :
  wpt T R G m (fun _ s' => Q (Ok ()) s') s -> wpt T R G (ignore m) Q s.
Proof.
  intros Hm env n HR HT. specialize (Hm env n HR HT).
  unfold ignore, attempt, mbind, M_bind. destruct (m env n s) as [[r n1] s1]. done.
Qed.

Lemma wp_now T R G (Q : result E Z -> St -> Prop) s :
  (forall t, T t -> Q (Ok t) s) -> wpt T R G now Q s.
Proof. intros H env n _ HT. split; [constructor|auto]. Qed.

Lemma wp_mem {A} T R G (f : St -> A * St) (Q : result E A -> St -> Prop) s :
  (forall s1, R s s1 -> let (a, s2) := f s1 in G s1 s2 /\ Q (Ok a) s2) ->
  wpt T R G (mem f) Q s.
Proof.
  intros H env n HR HT. unfold mem. specialize (H _ (HR n s)).
  destruct (f (interfere env n s)) as [a s2]. destruct H as [HG HQ]. split; [|done].
  eapply rtc_l; [left; apply HR|]. apply rtc_once. by right.
Qed.

(** The rules are also usable by [solo]'s readers through a frame: an
    assertion every step preserves holds at the end. *)
Lemma wp_invariant {A} T R G (m : M St E A) (Q : result E A -> St -> Prop) (I : St -> Prop) s :
  wpt T R G m Q s -> stable R I -> stable G I -> I s ->
  wpt T R G m (fun r s' => Q r s' /\ I s') s.
Proof.
  intros Hm HR HG HI. eapply wp_mono; [exact Hm|]. intros r s' Hs HQ. split; [done|].
  clear -HR HG HI Hs. induction Hs as [|x y z [Hxy|Hxy] _ IH]; eauto.
Qed.

Context `{!DbError E}.

Lemma rtc_either_l R G s s' : R s s' -> rtc (either R G) s s'.
Proof. intros. apply rtc_once. by left. Qed.

Lemma rtc_either_lr R G s s1 s2 : R s s1 -> G s1 s2 -> rtc (either R G) s s2.
Proof. intros. eapply rtc_l; [by left|]. apply rtc_once. by right. Qed.

Lemma wp_query {A} T R G (f : St -> A) (Q : result E A -> St -> Prop) s :
  (forall s1, R s s1 -> Q (Err db_fault) s1 /\ Q (Ok (f s1)) s1) ->
  wpt T R G (query f) Q s.
Proof.
  intros H env n HR HT. unfold query. destruct (H _ (HR n s)).
  destruct (fault env n); split; auto using rtc_either_l.
Qed.

Lemma wp_exec {A} T R G (f : St -> A * St) (Q : result E A -> St -> Prop) s :
  (forall s1, R s s1 ->
     Q (Err db_fault) s1 /\ let (a, s2) := f s1 in G s1 s2 /\ Q (Ok a) s2) ->
  wpt T R G (exec f) Q s.
Proof.
  intros H env n HR HT. unfold exec. destruct (H _ (HR n s)) as [He Ho].
  destruct (fault env n); [split; auto using rtc_either_l|].
  destruct (f (interfere env n s)) as [a s2]. destruct Ho as [HG HQ].
  split; [|done]. by eapply rtc_either_lr.
Qed.

Lemma wp_exec_err {A} T R G (f : St -> result E (A * St)) (Q : result E A -> St -> Prop) s :
  (forall s1, R s s1 ->
     Q (Err db_fault) s1 /\
     match f s1 with
     | Ok (a, s2) => G s1 s2 /\ Q (Ok a) s2
     | Err e => Q (Err e) s1
     end) ->
  wpt T R G (exec_err f) Q s.
Proof.
  intros H env n HR HT. unfold exec_err. destruct (H _ (HR n s)) as [He Ho].
  destruct (fault env n); [split; auto using rtc_either_l|].
  destruct (f (interfere env n s)) as [[a s2]|e]; [|split; auto using rtc_either_l].
  destruct Ho as [HG HQ]. split; [|done]. by eapply rtc_either_lr.
Qed.

Lemma respects_isolate (env : Env St) : respects eq (isolate env).
Proof. intros k s. done. Qed.

(** A transaction's body is reasoned about alone; on success it is one [G]
    step, on an error it did nothing. *)
Lemma wp_tx {A} T R G (m : M St E A) (Q : result E A -> St -> Prop) s :
  (forall s1, R s s1 ->
     Q (Err db_fault) s1 /\
     wpt T eq (fun _ _ => True) m (fun r s2 => match r with
                         | Ok a => G s1 s2 /\ Q (Ok a) s2
                         | Err e => Q (Err e) s1
                         end) s1) ->
  wpt T R G (tx m) Q s.
Proof.
  intros H env n HR HT. unfold tx. destruct (H _ (HR n s)) as [He Ho].
  destruct (fault env n); [split; auto using rtc_either_l|].
  specialize (Ho (isolate env) (S n) (respects_isolate env) HT).
  destruct (m (isolate env) (S n) (interfere env n s)) as [[[a|e] n1] s1].
  - destruct Ho as [_ [HG HQ]]. destruct (fault env n1); [split; auto using rtc_either_l|].
    split; [|done]. by eapply rtc_either_lr.
  - destruct Ho as [_ HQ]. split; auto using rtc_either_l.
Qed.
End rules.

Lemma wp_map_err {St E1 E2 A} (f : E1 -> E2) T (R G : relation St) (m : M St E1 A) (Q : result E2 A -> St -> Prop) s :
  wpt T R G m (fun r s' => Q (match r with Ok a => Ok a | Err e => Err (f e) end) s') s -> wpt T R G (map_err f m) Q s.
Proof.
  intros Hm env n HR HT. specialize (Hm env n HR HT). unfold map_err. by destruct (m env n s) as [[[a|e] n1] s1].
Qed.

(** Name the infrastructure error and reduce the matches on known results. *)
Ltac wp_reduce :=
  repeat match goal with
  | |- context [@db_fault ?E ?I] =>
      let v := eval hnf in (@db_fault E I) in progress change (@db_fault E I) with v
  end;
  cbv beta iota zeta.

(** Symbolic execution of a handler: apply the rule of its first call. *)
Ltac wp_step :=
  wp_reduce;
  lazymatch goal with
  | |- wpt _ _ _ (mbind _ _) _ _ => apply wp_bind
  | |- wpt _ _ _ (mret _) _ _ => apply wp_ret
  | |- wpt _ _ _ (throw _) _ _ => apply wp_throw
  | |- wpt _ _ _ (attempt _) _ _ => apply wp_attempt
  | |- wpt _ _ _ (ignore _) _ _ => apply wp_ignore
  | |- wpt _ _ _ now _ _ => apply wp_now; intros ?t ?Ht
  | |- wpt _ eq _ (query _) _ _ => apply wp_query; intros ? <-; split
  | |- wpt _ eq _ (exec _) _ _ => apply wp_exec; intros ? <-; split
  | |- wpt _ eq _ (exec_err _) _ _ => apply wp_exec_err; intros ? <-; split
  | |- wpt _ eq _ (tx _) _ _ => apply wp_tx; intros ? <-; split
  | |- wpt _ eq _ (mem _) _ _ => apply wp_mem; intros ? <-
  | |- wpt _ _ _ (query _) _ _ => apply wp_query; intros ?s ?HR; split
  | |- wpt _ _ _ (exec _) _ _ => apply wp_exec; intros ?s ?HR; split
  | |- wpt _ _ _ (exec_err _) _ _ => apply wp_exec_err; intros ?s ?HR; split
  | |- wpt _ _ _ (tx _) _ _ => apply wp_tx; intros ?s ?HR; split
  | |- wpt _ _ _ (mem _) _ _ => apply wp_mem; intros ?s ?HR
  | |- wpt _ _ _ (match ?x with _ => _ end) _ _ => destruct x eqn:?
  end;
  wp_reduce.

(** A run without interference is an instance of [solo]. *)
Lemma solo_run {St E A} (m : M St E A) Q s t :
  solo m Q s -> let (r, s') := run t m s in Q r s'.
Proof.
  intros H. unfold run. specialize (H (quiet t) 0%nat (fun _ _ => eq_refl) (fun _ => I)).
  destruct (m (quiet t) 0%nat s) as [[r n] s']. apply H.
Qed.

(** Alone every step is allowed: only the outcome has to be shown. *)
Lemma solo_any {St E A} (m : M St E A) (Q : result E A -> St -> Prop) s :
  (forall r s', Q r s') -> solo m Q s.
Proof.
  intros H env n _ _. destruct (m env n s) as [[r n'] s']. split; [|done].
  apply rtc_once. by right.
Qed.

(** An invariant of all steps is an invariant of every run. *)
Lemma rtc_invariant {St} (R : relation St) (I : St -> Prop) s s' :
  (forall a b, R a b -> I a -> I b) -> rtc R s s' -> I s -> I s'.
Proof. intros HI H. induction H; eauto. Qed.

Lemma rtc_mono {St} (R R' : relation St) s s' :
  (forall a b, R a b -> R' a b) -> rtc R s s' -> rtc R' s s'.
Proof. intros HI H. induction H; eauto using rtc. Qed.
