(* ===== verification/Parts.v ===== *)
(** * Parts of a database

    A command or handler that calls several packages works on one database of which each package
    sees its own tables. A part is a lens; a package's program runs on its part, under the faults,
    the clock and the interference of the whole. *)

From S2P Require Import Prelude Db.
From stdpp Require Import prelude relations.
From Stdlib Require Import ZArith.

Record Lens (W S : Type) : Type := mkLens { view : W -> S; over : S -> W -> W }.
Arguments mkLens {W S}. Arguments view {W S}. Arguments over {W S}.

Class LensOK {W S} (L : Lens W S) : Prop := {
  view_over s w : view L (over L s w) = s;
  over_view w : over L (view L w) w = w;
  over_over s s' w : over L s (over L s' w) = over L s w }.

(** A call of a package on its part. What others do to the rest meanwhile is seen from the next
    call on, before which they act again. *)
Definition inner {W S} (L : Lens W S) (env : Env W) (w : W) : Env S :=
  mkEnv (clk env) (fault env) (fun k s => view L (interfere env k (over L s w))).
Definition within {W S E E' A} (L : Lens W S) (m : M S E A) : M W E' (result E A) := fun env n w =>
  match m (inner L env w) n (view L w) with (r, n', s') => (Ok r, n', over L s' w) end.

Section within.
Context {W S E E' A : Type} (L : Lens W S) `{!LensOK L}.

Lemma wp_within T (R G : relation W) (RS GS : relation S) (m : M S E A) (Q : result E' (result E A) -> W -> Prop) w :
  (forall a b, R a b -> RS (view L a) (view L b)) ->
  (forall a s s', either RS GS s s' -> rtc (either R G) (over L s a) (over L s' a)) ->
  wpt T RS GS m (fun r s' => Q (Ok r) (over L s' w)) (view L w) -> wpt T R G (within L m) Q w.
Proof.
  intros HR Hst Hm env n He HT. unfold within.
  assert (Hi : respects RS (inner L env w)) by (intros k s; cbn; rewrite <- (view_over s w) at 1; apply HR, He).
  specialize (Hm (inner L env w) n Hi HT). destruct (m (inner L env w) n (view L w)) as [[r n'] s']. destruct Hm as [Hs HQ]. split; [|done].
  rewrite <- (over_view w) at 1. clear HQ. induction Hs as [|x y z Hxy _ IH]; [constructor|]. etrans; [by apply Hst|done].
Qed.

(** Alone. *)
Lemma solo_within (m : M S E A) (Q : result E' (result E A) -> W -> Prop) w :
  solo m (fun r s' => Q (Ok r) (over L s' w)) (view L w) -> solo (within L m) Q w.
Proof.
  intros Hm. eapply wp_within; [| |exact Hm]; [by intros a b ->|]. intros a s s' _. apply rtc_once. by right.
Qed.
End within.
