(* ===== verification/GoStrings.v ===== *)
(** * Go's [strings] and [strconv] on byte strings

    A Go string is a sequence of bytes; here a [string] of 8-bit [ascii]s.
    White space and letter case are those of ASCII (the DSLs and identifiers the
    packages read are ASCII; the Unicode tables of the standard library are not
    modelled). *)

From S2P Require Import Prelude.
From stdpp Require Import prelude strings list sorting.
From Stdlib Require Import ZArith Lia Ascii.
Open Scope Z_scope.

Definition newline : ascii := Ascii.ascii_of_nat 10.

(** ** Lexing helpers *)

(** [strings.Split(s, sep)] for a one-byte separator: always at least one
    piece. *)
Fixpoint Split (sep : ascii) (s : string) : list string :=
  match s with
  | "" => [""]
  | String c s =>
      if decide (c = sep) then "" :: Split sep s
      else match Split sep s with
           | [] => [String c ""]
           | w :: ws => String c w :: ws
           end
  end.

Definition is_space (c : ascii) : bool :=
  let n := N_of_ascii c in ((9 <=? n) && (n <=? 13) || (n =? 32))%N.

Fixpoint TrimLeft (s : string) : string :=
  match s with
  | "" => ""
  | String c s' => if is_space c then TrimLeft s' else s
  end.

Fixpoint TrimRight (s : string) : string :=
  match s with
  | "" => ""
  | String c s' =>
      match TrimRight s' with
      | "" => if is_space c then "" else String c ""
      | t => String c t
      end
  end.

Definition TrimSpace (s : string) : string := TrimRight (TrimLeft s).

(** [strings.Fields]: the maximal runs of non-space bytes. [cur] is the field
    being read. *)
Fixpoint fields_go (cur : string) (s : string) : list string :=
  match s with
  | "" => if decide (cur = "") then [] else [cur]
  | String c s =>
      if is_space c
      then (if decide (cur = "") then [] else [cur]) ++ fields_go "" s
      else fields_go (cur +:+ String c "") s
  end.

Definition Fields (s : string) : list string := fields_go "" s.

Fixpoint HasPrefix (s prefix : string) : bool :=
  match prefix, s with
  | "", _ => true
  | String p prefix, String c s => if decide (c = p) then HasPrefix s prefix else false
  | String _ _, "" => false
  end.

Fixpoint drop_chars (n : nat) (s : string) : string :=
  match n, s with
  | O, _ => s
  | S n, String _ s => drop_chars n s
  | S _, "" => ""
  end.

Definition TrimPrefix (s prefix : string) : string :=
  if HasPrefix s prefix then drop_chars (String.length prefix) s else s.

(** [before, after, found := strings.Cut(s, sep)] *)
Fixpoint Cut (sep : ascii) (s : string) : string * string * bool :=
  match s with
  | "" => ("", "", false)
  | String c s' =>
      if decide (c = sep) then ("", s', true)
      else match Cut sep s' with
           | (lo, hi, true) => (String c lo, hi, true)
           | (lo, _, false) => (String c lo, "", false)
           end
  end.

Definition lower_char (c : ascii) : ascii :=
  let n := N_of_ascii c in
  if ((65 <=? n) && (n <=? 90))%N then ascii_of_N (n + 32) else c.

Fixpoint ToLower (s : string) : string :=
  match s with
  | "" => ""
  | String c s => String (lower_char c) (ToLower s)
  end.

(** ** [strconv.Atoi] *)

Definition digit (c : ascii) : option Z :=
  let n := Z.of_N (N_of_ascii c) in
  if (48 <=? n) && (n <=? 57) then Some (n - 48) else None.

Fixpoint digits (acc : Z) (s : string) : option Z :=
  match s with
  | "" => Some acc
  | String c s => match digit c with Some d => digits (acc * 10 + d) s | None => None end
  end.

Definition in_int64 (z : Z) : bool := (- 2 ^ 63 <=? z) && (z <? 2 ^ 63).

(** An optional sign, then at least one digit, within [int]'s range. *)
Definition Atoi (s : string) : option Z :=
  let mag (neg : bool) (s : string) :=
    match s with
    | "" => None
    | _ => match digits 0 s with
           | Some z => let z := if neg then - z else z in
                       if in_int64 z then Some z else None
           | None => None
           end
    end in
  match s with
  | String "-" r => mag true r
  | String "+" r => mag false r
  | _ => mag false s
  end.

(** ** Lemmas *)

Lemma string_app_assoc (a b c : string) : (a +:+ b) +:+ c = a +:+ (b +:+ c).
Proof. induction a as [|x a IH]; [done|]. unfold String.app in *. simpl. by rewrite IH. Qed.

Lemma string_app_nil_r (a : string) : a +:+ "" = a.
Proof. induction a as [|x a IH]; [done|]. unfold String.app in *. simpl. by rewrite IH. Qed.

Lemma string_app_cons c (a b : string) : String c a +:+ b = String c (a +:+ b).
Proof. done. Qed.

(** The characters of a string. *)
Fixpoint chars (s : string) : list ascii :=
  match s with "" => [] | String c s => c :: chars s end.

Lemma chars_app a b : chars (a +:+ b) = chars a ++ chars b.
Proof. induction a as [|x a IH]; [done|]. rewrite string_app_cons. simpl. by rewrite IH. Qed.

Lemma chars_inj a b : chars a = chars b -> a = b.
Proof.
  revert b. induction a as [|x a IH]; intros [|y b]; simpl; try done.
  intros [= -> H]. f_equal. auto.
Qed.

(** A separator outside two prefixes cuts concatenations uniquely. *)
Lemma chars_sep_inj (sep : ascii) l1 l2 r1 r2 :
  sep ∉ l1 -> sep ∉ l2 -> l1 ++ sep :: r1 = l2 ++ sep :: r2 -> l1 = l2 /\ r1 = r2.
Proof.
  revert l2. induction l1 as [|x l1 IH]; intros [|y l2] H1 H2; simpl.
  - by intros [= ->].
  - intros [= <- _]. exfalso. apply H2. by constructor.
  - intros [= -> _]. exfalso. apply H1. by constructor.
  - intros [= -> Heq]. apply not_elem_of_cons in H1 as [_ H1], H2 as [_ H2].
    by destruct (IH l2 H1 H2 Heq) as [-> ->].
Qed.

Lemma string_sep_inj (sep : ascii) a1 a2 b1 b2 :
  sep ∉ chars a1 -> sep ∉ chars a2 ->
  a1 +:+ String sep b1 = a2 +:+ String sep b2 -> a1 = a2 /\ b1 = b2.
Proof.
  intros H1 H2 H%(f_equal chars). rewrite !chars_app in H. simpl in H.
  apply chars_sep_inj in H as [Ha Hb]; [|done..]. auto using chars_inj.
Qed.

Lemma Cut_found sep s lo hi :
  Cut sep s = (lo, hi, true) -> s = lo +:+ String sep hi /\ sep ∉ chars lo.
Proof.
  revert lo hi. induction s as [|c s IH]; intros lo hi; simpl; [done|].
  case_decide as Hc.
  - intros [= <- <-]. subst. split; [done|]. by apply not_elem_of_nil.
  - destruct (Cut sep s) as [[lo' hi'] [|]] eqn:E; [|done].
    intros [= <- <-]. destruct (IH _ _ eq_refl) as [-> Hlo]. split; [done|].
    simpl. rewrite not_elem_of_cons. split; [congruence|done].
Qed.

Lemma Cut_not_found sep s lo hi :
  Cut sep s = (lo, hi, false) -> lo = s /\ hi = "" /\ sep ∉ chars s.
Proof.
  revert lo hi. induction s as [|c s IH]; intros lo hi; simpl.
  - intros [= <- <-]. split_and!; [done..|]. by apply not_elem_of_nil.
  - case_decide as Hc; [done|].
    destruct (Cut sep s) as [[lo' hi'] [|]] eqn:E; [done|].
    intros [= <- <-]. destruct (IH _ _ eq_refl) as (-> & -> & Hs). split_and!; [done..|].
    rewrite not_elem_of_cons. split; [congruence|done].
Qed.

Definition all_digits (s : string) : Prop := Forall (fun c => is_Some (digit c)) (chars s).

Lemma digits_all acc s z : digits acc s = Some z -> all_digits s.
Proof.
  revert acc. induction s as [|c s IH]; intros acc; simpl; [constructor|].
  destruct (digit c) eqn:E; [|done]. intros H. constructor; [eauto|]. eapply IH, H.
Qed.

Lemma digits_nonneg acc s z : 0 <= acc -> digits acc s = Some z -> 0 <= z.
Proof.
  revert acc. induction s as [|c s IH]; intros acc Hacc; simpl; [intros [= <-]; done|].
  unfold digit. destruct (_ && _) eqn:E; [|done]. bool_split.
  intros Hd. eapply IH; [|done]. lia.
Qed.

(** A byte accepted by [Atoi] is a sign or a digit. *)
Definition atoi_char (c : ascii) : Prop := c = "+"%char \/ c = "-"%char \/ is_Some (digit c).

Lemma Atoi_chars s z : Atoi s = Some z -> Forall atoi_char (chars s).
Proof.
  assert (Hmag : forall r b, (match r with
    | "" => None
    | _ => match digits 0 r with
           | Some z => let z := if (b : bool) then - z else z in
                       if in_int64 z then Some z else None
           | None => None
           end end) = Some z -> Forall atoi_char (chars r)).
  { intros r b H. destruct r as [|c r]; [done|].
    destruct (digits 0 (String c r)) eqn:E; [|done].
    apply digits_all in E. eapply Forall_impl; [exact E|]. intros x ?. by right; right. }
  unfold Atoi. destruct s as [|c s]; [done|]. intros H.
  destruct (decide (c = "-"%char)) as [->|Hm].
  { simpl. constructor; [by right; left|]. eapply (Hmag _ true), H. }
  destruct (decide (c = "+"%char)) as [->|Hp].
  { simpl. constructor; [by left|]. eapply (Hmag _ false), H. }
  eapply (Hmag _ false). rewrite <- H.
  destruct c as [[][][][][][][][]]; done.
Qed.

(** ** Sorting *)

(** [sort.Strings]: bytewise order. *)
Definition string_le (a b : string) : Prop := String.leb a b = true.

#[export] Instance string_le_dec a b : Decision (string_le a b).
Proof. unfold string_le. apply _. Defined.

Definition sort_strings (l : list string) : list string := merge_sort string_le l.

Lemma string_leb_cons a s b t : String.leb (String a s) (String b t) = true <->
  (N_of_ascii a < N_of_ascii b)%N \/ (N_of_ascii a = N_of_ascii b /\ String.leb s t = true).
Proof.
  unfold String.leb. cbn. unfold Ascii.compare.
  destruct (N.compare_spec (N_of_ascii a) (N_of_ascii b)); [|split; [by left|done]|split; [done|lia]].
  split; [by right|]. intros [?|[_ ?]]; [lia|done].
Qed.

#[export] Instance string_le_trans : Transitive string_le.
Proof.
  unfold string_le. intros a. induction a as [|x a IH]; intros [|y b] [|z c]; try done.
  rewrite !string_leb_cons. intros [?|[? Hab]] [?|[? Hbc]]; [left; lia..|]. right. split; [lia|by eapply IH].
Qed.

#[export] Instance string_le_total : Total string_le.
Proof. intros a b. apply String.leb_total. Qed.

#[export] Instance string_le_anti : AntiSymm (=) string_le.
Proof. intros a b. apply String.leb_antisym. Qed.

Lemma sort_strings_perm l : sort_strings l ≡ₚ l.
Proof. apply merge_sort_Permutation. Qed.

Lemma sort_strings_sorted l : StronglySorted string_le (sort_strings l).
Proof. apply StronglySorted_merge_sort; apply _. Qed.

(** Sorting forgets the order and nothing else. *)
Lemma sort_strings_ext l l' : l ≡ₚ l' <-> sort_strings l = sort_strings l'.
Proof.
  split.
  - intros H. apply (Sorted_unique string_le); [apply StronglySorted_Sorted, sort_strings_sorted..|].
    by rewrite !sort_strings_perm.
  - intros H. by rewrite <- (sort_strings_perm l), H, sort_strings_perm.
Qed.

(** ** Trimming *)

Lemma TrimRight_idem s : TrimRight (TrimRight s) = TrimRight s.
Proof.
  induction s as [|c s IH]; cbn; [done|]. destruct (TrimRight s) as [|d t] eqn:E; [destruct (is_space c) eqn:Ec; cbn; by rewrite ?Ec|].
  cbn in *. destruct (TrimRight t); [by destruct (is_space d); [|rewrite IH]|by rewrite IH].
Qed.
Lemma TrimLeft_idem s : TrimLeft (TrimLeft s) = TrimLeft s.
Proof. induction s as [|c s IH]; cbn; [done|]. destruct (is_space c) eqn:E; [done|]. cbn. by rewrite E. Qed.
Lemma Trim_commute s : TrimLeft (TrimRight s) = TrimRight (TrimLeft s).
Proof.
  induction s as [|c s IH]; cbn; [done|]. destruct (is_space c) eqn:Ec.
  - rewrite <- IH. destruct (TrimRight s); cbn; [done|by rewrite Ec].
  - cbn. rewrite Ec. destruct (TrimRight s); cbn; by rewrite Ec.
Qed.
Lemma TrimSpace_idem s : TrimSpace (TrimSpace s) = TrimSpace s.
Proof. unfold TrimSpace. by rewrite Trim_commute, TrimLeft_idem, TrimRight_idem. Qed.

(** ** Lines *)

Lemma Split_no_sep sep s x : x ∈ Split sep s -> sep ∉ chars x.
Proof.
  revert x. induction s as [|c s IH]; cbn [Split]; intros x.
  { intros ->%list_elem_of_singleton. cbn. apply not_elem_of_nil. }
  destruct (decide (c = sep)) as [->|Hc].
  { intros [->|Hx]%elem_of_cons; [cbn; apply not_elem_of_nil|by apply IH]. }
  destruct (Split sep s) as [|w ws].
  - intros ->%list_elem_of_singleton. cbn. set_solver.
  - intros [->|Hx]%elem_of_cons; [|apply IH; set_solver]. cbn. assert (sep ∉ chars w) by (apply IH; set_solver). set_solver.
Qed.

Lemma Split_plain sep s : sep ∉ chars s -> Split sep s = [s].
Proof.
  induction s as [|c s IH]; [done|]. cbn [chars Split]. intros [Hc Hs]%not_elem_of_cons. rewrite decide_False by done. by rewrite IH.
Qed.

Lemma Split_app sep a b : sep ∉ chars a -> Split sep (a +:+ String sep b) = a :: Split sep b.
Proof.
  induction a as [|c a IH]; [intros _; change (Split sep (String sep b) = "" :: Split sep b); cbn [Split]; by rewrite decide_True|].
  cbn [chars]. intros [Hc Ha]%not_elem_of_cons.
  rewrite string_app_cons. cbn [Split]. rewrite decide_False by done. by rewrite IH.
Qed.

(** The lines of a text whose lines are joined and ended by a newline. *)
Lemma Split_concat sep l : Forall (fun x => sep ∉ chars x) l -> l <> [] ->
  Split sep (String.concat (String sep "") l +:+ String sep "") = l ++ [""].
Proof.
  induction 1 as [|x l Hx Hl IH]; [done|]. intros _. destruct l as [|y l].
  - cbn [String.concat]. rewrite Split_app by done. done.
  - specialize (IH ltac:(done)). cbn [String.concat] in *. rewrite !string_app_assoc, string_app_cons.
    change ("" +:+ ?z) with z. rewrite Split_app by done. by rewrite IH.
Qed.

Lemma TrimLeft_chars s c : c ∈ chars (TrimLeft s) -> c ∈ chars s.
Proof. induction s as [|d s IH]; cbn; [done|]. destruct (is_space d); [set_solver|done]. Qed.
Lemma TrimRight_chars s c : c ∈ chars (TrimRight s) -> c ∈ chars s.
Proof.
  induction s as [|d s IH]; cbn; [done|]. destruct (TrimRight s); [destruct (is_space d); cbn; set_solver|]. cbn in *. set_solver.
Qed.
Lemma TrimSpace_chars s c : c ∈ chars (TrimSpace s) -> c ∈ chars s.
Proof. intros ?%TrimRight_chars. by apply TrimLeft_chars. Qed.
