(* ===== verification/Netip.v ===== *)
(** * Go's [net/netip]: addresses and prefixes

    The part of the standard library the address-space packages use: IPv4 and
    (zoneless) IPv6 addresses with the zero [Addr], prefixes with the invalid
    zero [Prefix], masking, containment, overlap, successor, and the IPv4 text
    form. An address carries its value as [Z]; a prefix carries [Bits()], which
    is [-1] for an invalid prefix. *)

From S2P Require Import Prelude GoStrings.
From stdpp Require Import prelude strings list pretty.
From Stdlib Require Import ZArith Lia Ascii.
Open Scope Z_scope.

Inductive Addr : Type :=
| AddrZero                 (* netip.Addr{} *)
| Addr4 (v : Z)            (* 0 <= v < 2^32 *)
| Addr6 (v : Z).           (* 0 <= v < 2^128, no zone *)

#[export] Instance Addr_eq_dec : EqDecision Addr.
Proof. solve_decision. Defined.

Definition Is4 (a : Addr) : bool := match a with Addr4 _ => true | _ => false end.

Definition BitLen (a : Addr) : Z :=
  match a with AddrZero => 0 | Addr4 _ => 32 | Addr6 _ => 128 end.

Definition addr_val (a : Addr) : Z :=
  match a with AddrZero => 0 | Addr4 v => v | Addr6 v => v end.

Record Prefix : Type := mkPrefix { p_ip : Addr; p_bits : Z }.

#[export] Instance Prefix_eq_dec : EqDecision Prefix.
Proof. solve_decision. Defined.

(** [netip.Prefix{}] *)
Definition PrefixZero : Prefix := mkPrefix AddrZero (-1).

Definition PrefixFrom (ip : Addr) (bits : Z) : Prefix :=
  mkPrefix ip (if bool_decide (ip <> AddrZero) && (0 <=? bits) && (bits <=? BitLen ip)
               then bits else -1).

Definition IsValid (p : Prefix) : bool := 0 <=? p_bits p.

(** Clear the low [w - b] bits of a [w]-bit value. *)
Definition maskv (w b v : Z) : Z := Z.ldiff v (Z.ones (w - b)).

(** [Addr.Prefix(b)]: mask the address; the zero [Prefix] on an error. *)
Definition addr_prefix (ip : Addr) (b : Z) : Prefix :=
  if b <? 0 then PrefixZero
  else match ip with
       | AddrZero => PrefixZero
       | Addr4 v => if 32 <? b then PrefixZero else PrefixFrom (Addr4 (maskv 32 b v)) b
       | Addr6 v => if 128 <? b then PrefixZero else PrefixFrom (Addr6 (maskv 128 b v)) b
       end.

Definition Masked (p : Prefix) : Prefix := addr_prefix (p_ip p) (p_bits p).

(** Mismatched bits are ones after the xor; shift away the ones that do not
    matter. *)
Definition Contains (p : Prefix) (a : Addr) : bool :=
  if negb (IsValid p) then false
  else if (BitLen (p_ip p) =? 0) || (BitLen a =? 0) || negb (BitLen (p_ip p) =? BitLen a)
  then false
  else Z.shiftr (Z.lxor (addr_val a) (addr_val (p_ip p))) (BitLen a - p_bits p) =? 0.

Definition Overlaps (p o : Prefix) : bool :=
  if negb (IsValid p) || negb (IsValid o) then false
  else if bool_decide (p = o) then true
  else if negb (bool_decide (Is4 (p_ip p) = Is4 (p_ip o))) then false
  else
    let minBits := if p_bits p <? p_bits o then p_bits p else p_bits o in
    if minBits =? 0 then true
    else bool_decide (p_ip (addr_prefix (p_ip p) minBits) = p_ip (addr_prefix (p_ip o) minBits)).

(** The successor; the zero [Addr] past the last address. *)
Definition Next (a : Addr) : Addr :=
  match a with
  | AddrZero => AddrZero
  | Addr4 v => if v + 1 =? 2 ^ 32 then AddrZero else Addr4 (v + 1)
  | Addr6 v => if v + 1 =? 2 ^ 128 then AddrZero else Addr6 (v + 1)
  end.

(** ** Well-formed values *)

Definition addr4_ok (v : Z) : Prop := 0 <= v < 2 ^ 32.

(** A valid IPv4 prefix. *)
Definition valid4 (p : Prefix) : Prop :=
  exists v b, p = mkPrefix (Addr4 v) b /\ addr4_ok v /\ 0 <= b <= 32.

(** A valid IPv4 prefix whose host bits are zero. *)
Definition masked4 (p : Prefix) : Prop :=
  exists v b, p = mkPrefix (Addr4 v) b /\ addr4_ok v /\ 0 <= b <= 32 /\
              v mod 2 ^ (32 - b) = 0.

Definition addr_wf (a : Addr) : Prop :=
  match a with
  | AddrZero => True
  | Addr4 v => addr4_ok v
  | Addr6 v => 0 <= v < 2 ^ 128
  end.

Definition prefix_wf (p : Prefix) : Prop :=
  addr_wf (p_ip p) /\ -1 <= p_bits p <= BitLen (p_ip p) /\ (p_ip p = AddrZero -> p_bits p = -1).

(** ** Arithmetic reading of the bit operations *)

Lemma maskv_eq w b v : 0 <= b <= w -> maskv w b v = v - v mod 2 ^ (w - b).
Proof.
  intros Hb. unfold maskv. rewrite Z.ldiff_ones_r by lia.
  rewrite Z.shiftl_mul_pow2, Z.shiftr_div_pow2 by lia.
  rewrite Z.mod_eq by (apply Z.pow_nonzero; lia). lia.
Qed.

Lemma shiftr_lxor_0 a b k :
  0 <= k -> Z.shiftr (Z.lxor a b) k = 0 <-> a / 2 ^ k = b / 2 ^ k.
Proof.
  intros Hk. rewrite Z.shiftr_lxor, Z.lxor_eq_0_iff.
  rewrite !Z.shiftr_div_pow2 by lia. done.
Qed.

Lemma contains4 v b a :
  0 <= b <= 32 ->
  Contains (mkPrefix (Addr4 v) b) (Addr4 a) = true <-> a / 2 ^ (32 - b) = v / 2 ^ (32 - b).
Proof.
  intros Hb. unfold Contains, IsValid. simpl.
  destruct (0 <=? b) eqn:E; [|bool_split; lia]. simpl.
  rewrite Z.eqb_eq. apply shiftr_lxor_0. lia.
Qed.

Lemma contains4_inv v b a :
  Contains (mkPrefix (Addr4 v) b) a = true -> exists x, a = Addr4 x.
Proof.
  unfold Contains. destruct (negb _); [done|]. destruct a; simpl; try done. eauto.
Qed.

Lemma contains4_not4 v b a : Is4 a = false -> Contains (mkPrefix (Addr4 v) b) a = false.
Proof.
  intros Ha. apply not_true_iff_false. intros [x ->]%contains4_inv. done.
Qed.

(** The addresses of an aligned block are an interval. *)
Lemma contains4_interval v b a :
  0 <= b <= 32 -> v mod 2 ^ (32 - b) = 0 ->
  Contains (mkPrefix (Addr4 v) b) (Addr4 a) = true <-> v <= a < v + 2 ^ (32 - b).
Proof.
  intros Hb Hm. rewrite contains4 by done.
  assert (0 < 2 ^ (32 - b)) by (apply Z.pow_pos_nonneg; lia).
  set (k := 2 ^ (32 - b)) in *.
  pose proof (Z.div_mod v k ltac:(lia)). split.
  - intros Hd. pose proof (Z.div_mod a k ltac:(lia)).
    pose proof (Z.mod_pos_bound a k ltac:(lia)). rewrite Hd in *. lia.
  - intros Ha. symmetry. apply Z.div_unique with (r := a - v); lia.
Qed.

Lemma pow2_split (m n : Z) : 0 <= m <= n -> 2 ^ n = 2 ^ m * 2 ^ (n - m).
Proof. intros. rewrite <- Z.pow_add_r by lia. f_equal. lia. Qed.

Lemma pow2_pos n : 0 <= n -> 0 < 2 ^ n.
Proof. intros. apply Z.pow_pos_nonneg; lia. Qed.

#[export] Hint Resolve pow2_pos : ncp.

Lemma div_pow2_coarser a b m n :
  0 <= m <= n -> a / 2 ^ m = b / 2 ^ m -> a / 2 ^ n = b / 2 ^ n.
Proof.
  intros Hmn H. rewrite (pow2_split m n) by done.
  assert (0 < 2 ^ m) by auto with ncp lia. assert (0 < 2 ^ (n - m)) by (apply pow2_pos; lia).
  rewrite <- !Z.div_div by lia. by rewrite H.
Qed.

Lemma masked_div v k : 0 <= k -> (v - v mod 2 ^ k) / 2 ^ k = v / 2 ^ k.
Proof.
  intros Hk. assert (0 < 2 ^ k) by (by apply pow2_pos).
  rewrite Z.mod_eq by lia. replace (v - (v - 2 ^ k * (v / 2 ^ k))) with (v / 2 ^ k * 2 ^ k) by lia.
  apply Z.div_mul. lia.
Qed.

Lemma masked_eq_div v w k : 0 <= k ->
  v - v mod 2 ^ k = w - w mod 2 ^ k <-> v / 2 ^ k = w / 2 ^ k.
Proof.
  intros Hk. split; intros H.
  - rewrite <- (masked_div v), <- (masked_div w) by done. by rewrite H.
  - assert (0 < 2 ^ k) by (by apply pow2_pos).
    rewrite !Z.mod_eq by lia. rewrite H. lia.
Qed.

(** Two IPv4 prefixes overlap iff they agree on the shorter length. *)
Lemma overlaps4_div v b w c :
  0 <= b <= 32 -> 0 <= c <= 32 -> addr4_ok v -> addr4_ok w ->
  Overlaps (mkPrefix (Addr4 v) b) (mkPrefix (Addr4 w) c) = true <->
  v / 2 ^ (32 - Z.min b c) = w / 2 ^ (32 - Z.min b c).
Proof.
  intros Hb Hc Hv Hw. unfold Overlaps, IsValid; simpl.
  destruct (0 <=? b) eqn:E1, (0 <=? c) eqn:E2; bool_split; try lia. simpl.
  case_bool_decide as Heq; [injection Heq as -> ->; by rewrite Z.min_id|].
  replace (if b <? c then b else c) with (Z.min b c) by (destruct (b <? c) eqn:?; bool_split; lia).
  destruct (Z.min b c =? 0) eqn:E0.
  - bool_split. rewrite E0. unfold addr4_ok in *. change (32 - 0) with 32.
    rewrite !Z.div_small by lia. done.
  - bool_split. unfold addr_prefix.
    destruct (Z.min b c <? 0) eqn:?, (32 <? Z.min b c) eqn:?; bool_split; try lia.
    rewrite !maskv_eq by lia. rewrite bool_decide_eq_true. simpl.
    rewrite <- masked_eq_div by lia. split; congruence.
Qed.

(** Overlap is exactly "some address is in both". *)
Lemma overlaps4_spec p o :
  valid4 p -> valid4 o ->
  Overlaps p o = true <-> exists a, addr4_ok a /\ Contains p (Addr4 a) = true /\ Contains o (Addr4 a) = true.
Proof.
  intros (v & b & -> & Hv & Hb) (w & c & -> & Hw & Hc).
  rewrite overlaps4_div by done. setoid_rewrite contains4; [|done..].
  destruct (Z.le_ge_cases b c) as [Hbc|Hbc].
  - rewrite Z.min_l by done. split.
    + intros H. exists w. done.
    + intros (a & _ & Ha & Ha'). rewrite <- Ha.
      apply div_pow2_coarser with (m := 32 - c); [lia|done].
  - rewrite Z.min_r by done. split.
    + intros H. exists v. done.
    + intros (a & _ & Ha & Ha'). rewrite <- Ha'. symmetry.
      apply div_pow2_coarser with (m := 32 - b); [lia|done].
Qed.

Lemma overlaps_sym p o : Overlaps p o = Overlaps o p.
Proof.
  unfold Overlaps.
  destruct (IsValid p), (IsValid o); simpl; try done.
  rewrite (bool_decide_ext (p = o) (o = p)) by (split; congruence).
  rewrite (bool_decide_ext (Is4 (p_ip p) = Is4 (p_ip o)) (Is4 (p_ip o) = Is4 (p_ip p)))
    by (split; congruence).
  replace (if p_bits o <? p_bits p then p_bits o else p_bits p)
    with (if p_bits p <? p_bits o then p_bits p else p_bits o)
    by (destruct (p_bits p <? p_bits o) eqn:?, (p_bits o <? p_bits p) eqn:?; bool_split; lia).
  do 3 (match goal with |- (if ?c then _ else _) = _ => destruct c; [done|] end).
  apply bool_decide_ext. split; congruence.
Qed.

Lemma valid4_IsValid p : valid4 p -> IsValid p = true.
Proof. intros (v & b & -> & _ & Hb). apply Z.leb_le. simpl. lia. Qed.

Lemma masked4_valid4 p : masked4 p -> valid4 p.
Proof. intros (v & b & -> & ? & ? & ?). by exists v, b. Qed.

Lemma mod_small_pow v b : addr4_ok v -> 0 <= b <= 32 -> addr4_ok (v - v mod 2 ^ (32 - b)).
Proof.
  unfold addr4_ok. intros Hv Hb.
  assert (0 < 2 ^ (32 - b)) by (apply pow2_pos; lia).
  pose proof (Z.mod_pos_bound v (2 ^ (32 - b)) ltac:(lia)).
  pose proof (Z.mod_le v (2 ^ (32 - b)) ltac:(lia) ltac:(lia)). lia.
Qed.

Lemma Masked4_eq v b :
  0 <= b <= 32 -> Masked (mkPrefix (Addr4 v) b) = mkPrefix (Addr4 (v - v mod 2 ^ (32 - b))) b.
Proof.
  intros Hb. unfold Masked, addr_prefix, PrefixFrom; simpl.
  destruct (b <? 0) eqn:?, (32 <? b) eqn:?; bool_split; try lia.
  destruct (0 <=? b) eqn:?, (b <=? 32) eqn:?; bool_split; try lia.
  rewrite maskv_eq by lia. done.
Qed.

Lemma Masked_masked4 p : valid4 p -> masked4 (Masked p).
Proof.
  intros (v & b & -> & Hv & Hb). rewrite Masked4_eq by done.
  eexists _, b. split; [done|]. split; [by apply mod_small_pow|]. split; [done|].
  assert (0 < 2 ^ (32 - b)) by (apply pow2_pos; lia).
  rewrite Z.mod_eq at 1 by lia. rewrite masked_div by lia.
  rewrite Z.mod_eq by lia. lia.
Qed.

Lemma Masked_id p : masked4 p -> Masked p = p.
Proof.
  intros (v & b & -> & Hv & Hb & Hm). rewrite Masked4_eq by done. rewrite Hm.
  by rewrite Z.sub_0_r.
Qed.

Lemma Masked_contains p a : valid4 p -> Contains (Masked p) a = Contains p a.
Proof.
  intros (v & b & -> & Hv & Hb). rewrite Masked4_eq by done.
  destruct a as [|x|x]; rewrite ?contains4_not4 by done; try done.
  apply eq_true_iff_eq. rewrite !contains4 by done. rewrite masked_div by lia. done.
Qed.

Lemma valid4_of_checks p :
  prefix_wf p -> IsValid p = true -> Is4 (p_ip p) = true -> valid4 p.
Proof.
  destruct p as [[|v|v] b]; simpl; try done. intros (Hv & Hb & _) Hval _.
  unfold IsValid in Hval; bool_split; simpl in *. exists v, b. split_and!; done || lia.
Qed.

(** ** Text form (IPv4)

    Only IPv4 prefixes are printed: every caller has checked [Is4]. *)

Definition octet (k v : Z) : Z := Z.land (Z.shiftr v k) 255.

Definition AddrString (a : Addr) : string :=
  match a with
  | Addr4 v => pretty (octet 24 v) +:+ "." +:+ pretty (octet 16 v) +:+ "." +:+
               pretty (octet 8 v) +:+ "." +:+ pretty (octet 0 v)
  | _ => "invalid IP"
  end.

Definition PrefixString (p : Prefix) : string :=
  if IsValid p then AddrString (p_ip p) +:+ "/" +:+ pretty (p_bits p) else "invalid Prefix".

(** [val] and [dig] are the value and the number of digits of the current octet,
    [fs] the octets already read, last first. *)
Fixpoint parse_fields (s : string) (val dig : Z) (fs : list Z) : option (list Z) :=
  match s with
  | "" => if (dig =? 0) || bool_decide (length fs < 3)%nat then None else Some (rev (val :: fs))
  | String c s =>
      match digit c with
      | Some d =>
          if (dig =? 1) && (val =? 0) then None      (* leading zero *)
          else let val := val * 10 + d in
               if 255 <? val then None else parse_fields s val (dig + 1) fs
      | None =>
          if decide (c = "."%char)
          then if (dig =? 0) || bool_decide (length fs = 3%nat) then None
               else parse_fields s 0 0 (val :: fs)
          else None
      end
  end.

Definition ParseAddr (s : string) : option Addr :=
  match parse_fields s 0 0 [] with
  | Some [a; b; c; d] => Some (Addr4 (a * 2 ^ 24 + b * 2 ^ 16 + c * 2 ^ 8 + d))
  | _ => None
  end.

Fixpoint cut_last (sep : ascii) (s : string) : option (string * string) :=
  match s with
  | "" => None
  | String c s =>
      match cut_last sep s with
      | Some (a, b) => Some (String c a, b)
      | None => if decide (c = sep) then Some ("", s) else None
      end
  end.

(** A multi-digit length may not start with a zero or a sign. *)
Definition bits_head_ok (s : string) : bool :=
  match s with
  | String c (String _ _) => match digit c with Some d => negb (d =? 0) | None => false end
  | _ => true
  end.

Definition ParsePrefix (s : string) : option Prefix :=
  match cut_last "/" s with
  | None => None
  | Some (ips, bs) =>
      match ParseAddr ips with
      | None => None
      | Some ip =>
          if negb (bits_head_ok bs) then None
          else match Atoi bs with
               | Some b => if (b <? 0) || (BitLen ip <? b) then None else Some (PrefixFrom ip b)
               | None => None
               end
      end
  end.

Lemma octet_eq k v : 0 <= k -> octet k v = (v / 2 ^ k) mod 256.
Proof.
  intros Hk. unfold octet. change 255 with (Z.ones 8).
  rewrite Z.land_ones, Z.shiftr_div_pow2 by lia. done.
Qed.

Lemma octet_range k v : 0 <= k -> 0 <= octet k v < 256.
Proof. intros Hk. rewrite octet_eq by done. apply Z.mod_pos_bound. lia. Qed.

Lemma octets_join v : addr4_ok v ->
  octet 24 v * 2 ^ 24 + octet 16 v * 2 ^ 16 + octet 8 v * 2 ^ 8 + octet 0 v = v.
Proof.
  unfold addr4_ok. intros Hv. rewrite !octet_eq by lia.
  change (2 ^ 32) with 4294967296 in *. change (2 ^ 24) with 16777216.
  change (2 ^ 16) with 65536. change (2 ^ 8) with 256. change (2 ^ 0) with 1.
  Z.to_euclidean_division_equations. lia.
Qed.

Lemma byte_cases (P : Z -> Prop) : Forall P (seqZ 0 256) -> forall b, 0 <= b < 256 -> P b.
Proof. intros H b Hb. rewrite Forall_forall in H. apply H. apply elem_of_seqZ. lia. Qed.

(** Reading back one printed octet. *)
Lemma parse_octet rest fs : forall b, 0 <= b < 256 ->
  exists dig, dig <> 0 /\ parse_fields (pretty b +:+ rest) 0 0 fs = parse_fields rest b dig fs.
Proof.
  apply byte_cases.
  repeat (constructor; [first [exists 1; split; [done|reflexivity]
                              |exists 2; split; [done|reflexivity]
                              |exists 3; split; [done|reflexivity]]|]).
  constructor.
Qed.

Lemma parse_dot rest b dig fs :
  dig <> 0 -> (length fs < 3)%nat ->
  parse_fields ("." +:+ rest) b dig fs = parse_fields rest 0 0 (b :: fs).
Proof.
  intros Hd Hl. change ("." +:+ rest) with (String "." rest). simpl.
  destruct (dig =? 0) eqn:E; bool_split; [lia|].
  rewrite bool_decide_eq_false_2 by lia. done.
Qed.

Lemma ParseAddr_String v : addr4_ok v -> ParseAddr (AddrString (Addr4 v)) = Some (Addr4 v).
Proof.
  intros Hv. unfold ParseAddr, AddrString.
  pose proof (octet_range 24 v ltac:(lia)). pose proof (octet_range 16 v ltac:(lia)).
  pose proof (octet_range 8 v ltac:(lia)). pose proof (octet_range 0 v ltac:(lia)).
  destruct (parse_octet ("." +:+ pretty (octet 16 v) +:+ "." +:+ pretty (octet 8 v) +:+ "." +:+
              pretty (octet 0 v)) [] (octet 24 v)) as (d1 & Hd1 & ->); [done|].
  rewrite parse_dot by (done || simpl; lia).
  destruct (parse_octet ("." +:+ pretty (octet 8 v) +:+ "." +:+ pretty (octet 0 v))
              [octet 24 v] (octet 16 v)) as (d2 & Hd2 & ->); [done|].
  rewrite parse_dot by (done || simpl; lia).
  destruct (parse_octet ("." +:+ pretty (octet 0 v)) [octet 16 v; octet 24 v] (octet 8 v))
    as (d3 & Hd3 & ->); [done|].
  rewrite parse_dot by (done || simpl; lia).
  rewrite <- (string_app_nil_r (pretty (octet 0 v))).
  destruct (parse_octet "" [octet 8 v; octet 16 v; octet 24 v] (octet 0 v)) as (d4 & Hd4 & ->);
    [done|].
  simpl parse_fields. destruct (d4 =? 0) eqn:E; bool_split; [lia|].
  cbn -[Z.pow]. do 2 f_equal. by apply octets_join.
Qed.

Lemma cut_last_none sep s : sep ∉ chars s -> cut_last sep s = None.
Proof.
  induction s as [|c s IH]; [done|]. simpl. rewrite not_elem_of_cons. intros [Hc Hs].
  rewrite IH by done. case_decide; congruence.
Qed.

Lemma cut_last_app sep a b : sep ∉ chars b -> cut_last sep (a +:+ String sep b) = Some (a, b).
Proof.
  intros Hb. induction a as [|c a IH].
  - change (cut_last sep (String sep b) = Some ("", b)). simpl.
    rewrite cut_last_none by done. by rewrite decide_True.
  - rewrite string_app_cons. simpl. by rewrite IH.
Qed.

(** The printed length of an IPv4 prefix. *)
Lemma pretty_bits : forall b, 0 <= b < 256 ->
  (bool_decide ("/"%char ∈ chars (pretty b)) = false) /\ bits_head_ok (pretty b) = true /\ Atoi (pretty b) = Some b.
Proof.
  apply byte_cases.
  repeat (constructor; [split_and!; vm_compute; reflexivity|]).
  constructor.
Qed.

Lemma ParsePrefix_String p : valid4 p -> ParsePrefix (PrefixString p) = Some p.
Proof.
  intros Hp. unfold PrefixString. rewrite valid4_IsValid by done.
  destruct Hp as (v & b & -> & Hv & Hb). unfold ParsePrefix. cbn [p_ip p_bits].
  destruct (pretty_bits b) as (Hns%bool_decide_eq_false & Hh & Ha); [lia|].
  change ("/" +:+ pretty b) with (String "/" (pretty b)).
  rewrite cut_last_app by done. rewrite ParseAddr_String by done.
  rewrite Hh, Ha. cbn -[Z.ltb].
  destruct (b <? 0) eqn:?, (32 <? b) eqn:?; bool_split; try lia. simpl.
  unfold PrefixFrom; simpl.
  destruct (0 <=? b) eqn:?, (b <=? 32) eqn:?; bool_split; try lia. done.
Qed.

Lemma AddrString_inj v w :
  addr4_ok v -> addr4_ok w -> AddrString (Addr4 v) = AddrString (Addr4 w) -> v = w.
Proof.
  intros Hv Hw H%(f_equal ParseAddr). rewrite !ParseAddr_String in H by done. congruence.
Qed.
