(* ===== verification/AddrStore.v ===== *)
(** * The address-space store

    The tables [netblocks], [devices] and [ip_allocations] with their sequence
    counters, the registry's in-memory cache, the audit log and the two IPAM
    event counters: the state [internal/netblock] and [internal/ipam] share.
    A table is the list of its rows in primary-key order. *)

From S2P Require Import Prelude Db GoStrings Netip.
From stdpp Require Import prelude strings list gmap.
From Stdlib Require Import ZArith Lia.
Open Scope Z_scope.

(** The error values of the two packages, plus [gorm]'s duplicate-key error and
    any other database error. *)
Inductive err : Type :=
| NB_NotFound | NB_Exists | NB_NoName | NB_BadCIDR | NB_OutOfPool | NB_Overlap
| NB_Protected | NB_Stranded | NB_PoolFull | NB_BadPrefixLen | NB_ReservedKind
| NB_SeedKind      (* seed: kind must be reserved or default *)
| NB_GrowKind      (* grow: only named netblocks auto-grow *)
| IP_PoolExhausted | IP_UnknownSubRange | IP_NotAllocated | IP_Contended
| IP_AddrTaken | IP_OutOfPool
| IP_BadPool       (* the pool prefix is not a valid IPv4 prefix *)
| IP_BadSubRange   (* a sub-range is invalid or outside the pool *)
| DuplicatedKey | DbFault.

#[export] Instance err_eq_dec : EqDecision err.
Proof. solve_decision. Defined.

#[export] Instance err_db : DbError err := DbFault.

(** [netblock.Netblock] *)
Record Netblock : Type := mkNetblock {
  nb_id : Z;
  nb_name : string;
  nb_cidr : string;
  nb_kind : string;
  nb_description : string;
  nb_protected : bool;
  nb_created_at : Z;
  nb_created_by : string;
}.

#[export] Instance Netblock_eq_dec : EqDecision Netblock.
Proof. solve_decision. Defined.

(** [ipam.Device] *)
Record Device : Type := mkDevice { dev_id : Z; dev_name : string; dev_created_at : Z }.

(** [ipam.Allocation] *)
Record Allocation : Type := mkAllocation {
  al_id : Z;
  al_ip : string;
  al_device_id : Z;
  al_state : string;
  al_allocated_at : Z;
  al_released_at : Z;
  al_quarantine_until : Z;
  al_netblock_id : Z;
  al_method : string;
}.

(** [netblock.resolverCache] *)
Record resolverCache : Type := mkCache {
  c_byName : gmap string Prefix;
  c_rows : gmap string Netblock;
  c_all : list Prefix;
  c_named : list Prefix;
}.

(** One row of the audit log, without the hash chain. *)
Record AuditEvt : Type := mkAudit {
  au_actor : string; au_action : string; au_target : string; au_details : string;
}.

Record Store : Type := mkStore {
  netblocks : list Netblock;
  nb_seq : Z;
  devices : list Device;
  dev_seq : Z;
  allocs : list Allocation;
  alloc_seq : Z;
  audit_log : list AuditEvt;
  cache : option resolverCache;      (* Registry.cache *)
  gen : Z;                           (* Registry.gen *)
  m_autogrow : list string;          (* ncp_ipam_autogrow_total, one entry per Inc *)
  m_exhausted : list string;         (* ncp_ipam_exhausted_total *)
  heartbeats : list (string * Z);    (* overlay_ip, last_seen: read by the collector *)
}.

Definition empty_store : Store := mkStore [] 1 [] 1 [] 1 [] None 0 [] [] [].

(** Field updates. *)
Definition set_netblocks (l : list Netblock) (s : Store) : Store :=
  mkStore l (nb_seq s) (devices s) (dev_seq s) (allocs s) (alloc_seq s) (audit_log s)
    (cache s) (gen s) (m_autogrow s) (m_exhausted s) (heartbeats s).
Definition set_nb_seq (n : Z) (s : Store) : Store :=
  mkStore (netblocks s) n (devices s) (dev_seq s) (allocs s) (alloc_seq s) (audit_log s)
    (cache s) (gen s) (m_autogrow s) (m_exhausted s) (heartbeats s).
Definition set_devices (l : list Device) (n : Z) (s : Store) : Store :=
  mkStore (netblocks s) (nb_seq s) l n (allocs s) (alloc_seq s) (audit_log s)
    (cache s) (gen s) (m_autogrow s) (m_exhausted s) (heartbeats s).
Definition set_allocs (l : list Allocation) (s : Store) : Store :=
  mkStore (netblocks s) (nb_seq s) (devices s) (dev_seq s) l (alloc_seq s) (audit_log s)
    (cache s) (gen s) (m_autogrow s) (m_exhausted s) (heartbeats s).
Definition set_alloc_seq (n : Z) (s : Store) : Store :=
  mkStore (netblocks s) (nb_seq s) (devices s) (dev_seq s) (allocs s) n (audit_log s)
    (cache s) (gen s) (m_autogrow s) (m_exhausted s) (heartbeats s).
Definition add_audit (e : AuditEvt) (s : Store) : Store :=
  mkStore (netblocks s) (nb_seq s) (devices s) (dev_seq s) (allocs s) (alloc_seq s)
    (audit_log s ++ [e]) (cache s) (gen s) (m_autogrow s) (m_exhausted s) (heartbeats s).
Definition set_cache (c : option resolverCache) (g : Z) (s : Store) : Store :=
  mkStore (netblocks s) (nb_seq s) (devices s) (dev_seq s) (allocs s) (alloc_seq s)
    (audit_log s) c g (m_autogrow s) (m_exhausted s) (heartbeats s).
Definition inc_autogrow (n : string) (s : Store) : Store :=
  mkStore (netblocks s) (nb_seq s) (devices s) (dev_seq s) (allocs s) (alloc_seq s)
    (audit_log s) (cache s) (gen s) (m_autogrow s ++ [n]) (m_exhausted s) (heartbeats s).
Definition inc_exhausted (n : string) (s : Store) : Store :=
  mkStore (netblocks s) (nb_seq s) (devices s) (dev_seq s) (allocs s) (alloc_seq s)
    (audit_log s) (cache s) (gen s) (m_autogrow s) (m_exhausted s ++ [n]) (heartbeats s).
