(* ===== verification/NetblockPlace.v ===== *)
(** * internal/netblock: placement arithmetic

    The pure functions of netblock.go: the aligned slots of a pool, the
    growth-aware [Suggest] and its helpers, and the doubling buddy of a block,
    on [uint32] addresses with their wrap-around. *)

From S2P Require Import Prelude Db GoStrings Netip AddrStore.
From stdpp Require Import prelude strings list.
From Stdlib Require Import ZArith Lia.
Open Scope Z_scope.

Definition MarginBits : Z := 3.
Definition EnvelopeFloor : Z := 24.

Definition u32 (x : Z) : Z := x mod 2 ^ 32.

(** Callers pass IPv4 addresses ([As4] panics otherwise). *)
Definition addrToUint32 (a : Addr) : Z :=
  let v := addr_val a in
  Z.lor (Z.lor (Z.lor (Z.shiftl (octet 24 v) 24) (Z.shiftl (octet 16 v) 16))
               (Z.shiftl (octet 8 v) 8)) (octet 0 v).

Definition uint32ToAddr (v : Z) : Addr :=
  Addr4 (octet 24 v * 2 ^ 24 + octet 16 v * 2 ^ 16 + octet 8 v * 2 ^ 8 + octet 0 v).

(** [prefixInside]: inner is wholly contained in outer. *)
Definition prefixInside (inner outer : Prefix) : bool :=
  (p_bits outer <=? p_bits inner) && Contains outer (p_ip (Masked inner)).

(** [nextSlot]: the next aligned prefix of the same length, the zero prefix when
    the address space wraps. *)
Definition nextSlot (p : Prefix) : Prefix :=
  let addr := p_ip (Masked p) in
  let step := u32 (Z.shiftl 1 (32 - p_bits p)) in
  let v := u32 (addrToUint32 addr + step) in
  if v <? addrToUint32 addr then PrefixZero
  else PrefixFrom (uint32ToAddr v) (p_bits p).

Fixpoint slots_loop (count : nat) (cur : Prefix) : list Prefix :=
  match count with
  | O => []
  | S count =>
      cur :: let next := nextSlot cur in
             if IsValid next then slots_loop count next else []
  end.

(** [slots]: every aligned prefix of length [bits] inside [pool], lowest first. *)
Definition slots (pool : Prefix) (bits : Z) : list Prefix :=
  if (bits <? p_bits pool) || (32 <? bits) then []
  else slots_loop (Z.to_nat (2 ^ (bits - p_bits pool))) (Masked (PrefixFrom (p_ip pool) bits)).

(** [rangeClear]: no reservation inside, no carve overlapping. *)
Definition rangeClear (rng : Prefix) (reserved : list Addr) (carves : list Prefix) : bool :=
  negb (existsb (Contains rng) reserved) &&
  negb (existsb (fun c => IsValid c && Overlaps rng c) carves).

(** [freeSlotsIn]: the lowest free slot of [env] and the number of free slots. *)
Definition freeSlotsIn (env : Prefix) (P : Z) (reserved : list Addr) (carves : list Prefix)
    : Prefix * Z :=
  fold_left (fun acc slot =>
    if rangeClear slot reserved carves
    then (if IsValid (fst acc) then fst acc else slot, snd acc + 1) else acc)
    (slots env P) (PrefixZero, 0).

(** Step 1 and 3 of [Suggest]: the start of the first clear envelope. *)
Definition firstEnvelope (pool : Prefix) (e P : Z) (reserved : list Addr) (carves : list Prefix)
    : option Prefix :=
  match find_first (fun env => rangeClear env reserved carves) (slots pool e) with
  | Some env => Some (Masked (PrefixFrom (p_ip env) P))
  | None => None
  end.

(** Step 2: the envelope with the most free slots, lowest address first. *)
Definition worstFit (pool : Prefix) (E P : Z) (reserved : list Addr) (carves : list Prefix)
    : Prefix * Z :=
  fold_left (fun best env =>
    let '(free, count) := freeSlotsIn env P reserved carves in
    if snd best <? count then (free, count) else best)
    (slots pool E) (PrefixZero, -1).

(** Step 3: relax the margin down to [P]. *)
Fixpoint relaxEnvelope (pool : Prefix) (es : list Z) (P : Z) (reserved : list Addr)
    (carves : list Prefix) : option Prefix :=
  match es with
  | [] => None
  | e :: es =>
      match firstEnvelope pool e P reserved carves with
      | Some p => Some p
      | None => relaxEnvelope pool es P reserved carves
      end
  end.

(** The growth envelope's length: [clamp (P - MarginBits)] between the floor and
    [P]. *)
Definition envelopeBits (pool : Prefix) (P : Z) : Z :=
  let floor := if EnvelopeFloor <? p_bits pool then p_bits pool else EnvelopeFloor in
  let E := P - MarginBits in
  let E := if E <? floor then floor else E in
  if P <? E then P else E.

Definition Suggest (reqPrefixLen : Z) (pool : Prefix) (reserved : list Addr)
    (carves : list Prefix) : result err Prefix :=
  let pool := Masked pool in
  if negb (IsValid pool) || negb (Is4 (p_ip pool)) then Err NB_BadCIDR
  else
    let P := reqPrefixLen in
    if (P <? p_bits pool) || (32 <? P) then Err NB_BadPrefixLen
    else
      let E := envelopeBits pool P in
      match firstEnvelope pool E P reserved carves with
      | Some p => Ok p
      | None =>
          let '(bestFreeSlot, bestCount) := worstFit pool E P reserved carves in
          if (0 <? bestCount) && IsValid bestFreeSlot then Ok bestFreeSlot
          else match relaxEnvelope pool (seqZ (E + 1) (P - E)) P reserved carves with
               | Some p => Ok p
               | None =>
                   match find_first (fun slot => rangeClear slot reserved carves) (slots pool P) with
                   | Some slot => Ok slot
                   | None => Err NB_PoolFull
                   end
               end
      end.

(** [buddyOf]: the sibling that, with [p], completes the prefix one bit
    shorter. *)
Definition buddyOf (p : Prefix) : Prefix :=
  let p := Masked p in
  if p_bits p <=? 0 then PrefixZero
  else
    let parent := Masked (PrefixFrom (p_ip p) (p_bits p - 1)) in
    let step := u32 (Z.shiftl 1 (32 - p_bits p)) in
    if decide (p_ip parent = p_ip p)
    then PrefixFrom (uint32ToAddr (u32 (addrToUint32 (p_ip p) + step))) (p_bits p)
    else PrefixFrom (uint32ToAddr (u32 (addrToUint32 (p_ip p) - step))) (p_bits p).

(** ** The conversions *)

Lemma octet_testbit k v i :
  0 <= k -> 0 <= i -> Z.testbit (octet k v) i = Z.testbit v (i + k) && (i <? 8).
Proof.
  intros Hk Hi. unfold octet. change 255 with (Z.ones 8).
  rewrite Z.land_spec, Z.shiftr_spec by lia. f_equal.
  destruct (i <? 8) eqn:E; bool_split.
  - apply Z.ones_spec_low. lia.
  - apply Z.ones_spec_high. lia.
Qed.

Lemma octet_testbit_shift k v i :
  0 <= k -> 0 <= i ->
  Z.testbit (Z.shiftl (octet k v) k) i = Z.testbit v i && (k <=? i) && (i <? k + 8).
Proof.
  intros Hk Hi. rewrite Z.shiftl_spec by done.
  destruct (Z.le_gt_cases k i).
  - rewrite octet_testbit by lia. rewrite Z.sub_add.
    replace (k <=? i) with true by (symmetry; apply Z.leb_le; lia).
    replace (i - k <? 8) with (i <? k + 8)
      by (destruct (i <? k + 8) eqn:?, (i - k <? 8) eqn:?; bool_split; lia).
    by rewrite andb_true_r.
  - rewrite Z.testbit_neg_r by lia.
    replace (k <=? i) with false by (symmetry; apply Z.leb_gt; lia).
    by rewrite andb_false_r.
Qed.

Lemma addrToUint32_4 v : addr4_ok v -> addrToUint32 (Addr4 v) = v.
Proof.
  unfold addr4_ok. intros Hv. unfold addrToUint32. cbn [addr_val]. apply Z.bits_inj'. intros i Hi.
  rewrite !Z.lor_spec. rewrite <- (Z.shiftl_0_r (octet 0 v)).
  rewrite !octet_testbit_shift by lia.
  destruct (Z.lt_ge_cases i 32).
  - repeat match goal with
    | |- context [?a <=? ?b] => destruct (a <=? b) eqn:?
    | |- context [?a <? ?b] => destruct (a <? b) eqn:?
    end; bool_split; try lia; rewrite ?andb_true_r, ?andb_false_r, ?orb_false_r, ?orb_false_l;
      try done; exfalso; lia.
  - replace (Z.testbit v i) with false; [by rewrite !andb_false_l|]. symmetry.
    destruct (decide (v = 0)) as [->|]; [apply Z.testbit_0_l|].
    apply Z.bits_above_log2; [lia|]. enough (Z.log2 v < 32) by lia.
    apply Z.log2_lt_pow2; lia.
Qed.

Lemma uint32ToAddr_ok v : addr4_ok v -> uint32ToAddr v = Addr4 v.
Proof. intros Hv. unfold uint32ToAddr. by rewrite octets_join. Qed.

Lemma u32_small v : addr4_ok v -> u32 v = v.
Proof. intros Hv. apply Z.mod_small. apply Hv. Qed.

Lemma PrefixFrom4 v b : 0 <= b <= 32 -> PrefixFrom (Addr4 v) b = mkPrefix (Addr4 v) b.
Proof.
  intros Hb. unfold PrefixFrom; simpl.
  destruct (0 <=? b) eqn:?, (b <=? 32) eqn:?; bool_split; try lia. done.
Qed.

(** ** The slots of a pool *)

Lemma mul_gap k q c : 0 < k -> k * q < k * c -> k * q + k <= k * c.
Proof. intros Hk H. assert (q < c) by nia. nia. Qed.

(** The last aligned block below [2^32] ends there. *)
Lemma aligned_end v b :
  0 <= b <= 32 -> addr4_ok v -> v mod 2 ^ (32 - b) = 0 -> v + 2 ^ (32 - b) <= 2 ^ 32.
Proof.
  intros Hb Hv Hm. assert (Hk : 0 < 2 ^ (32 - b)) by (apply pow2_pos; lia).
  pose proof (Z.div_mod v (2 ^ (32 - b)) ltac:(lia)) as Hd. rewrite Hm, Z.add_0_r in Hd.
  assert (2 ^ 32 = 2 ^ (32 - b) * 2 ^ b) as H32 by (rewrite <- Z.pow_add_r by lia; f_equal; lia).
  unfold addr4_ok in Hv. rewrite H32, Hd in *. apply mul_gap; lia.
Qed.

(** Aligned blocks of one size that start below a multiple end below it. *)
Lemma aligned_gap k v w : 0 < k -> v mod k = 0 -> w mod k = 0 -> v < w -> v + k <= w.
Proof.
  intros Hk Hv Hw Hlt.
  pose proof (Z.div_mod v k ltac:(lia)) as H1. pose proof (Z.div_mod w k ltac:(lia)) as H2.
  rewrite Hv in H1. rewrite Hw in H2. rewrite H1, H2, !Z.add_0_r in *. by apply mul_gap.
Qed.

(** The [i]-th aligned block of length [bits] from [v]. *)
Definition slot_at (v bits i : Z) : Prefix := mkPrefix (Addr4 (v + i * 2 ^ (32 - bits))) bits.

Lemma nextSlot4 v b :
  1 <= b <= 32 -> addr4_ok v -> v mod 2 ^ (32 - b) = 0 ->
  nextSlot (mkPrefix (Addr4 v) b) =
    (if v + 2 ^ (32 - b) <? 2 ^ 32 then mkPrefix (Addr4 (v + 2 ^ (32 - b))) b else PrefixZero).
Proof.
  intros Hb Hv Hm. unfold nextSlot. rewrite Masked_id by (exists v, b; split_and!; done || lia).
  cbn [p_ip p_bits]. rewrite addrToUint32_4 by done.
  rewrite Z.shiftl_mul_pow2 by lia. rewrite Z.mul_1_l.
  assert (Hk : 0 < 2 ^ (32 - b) <= 2 ^ 31).
  { split; [apply pow2_pos; lia|]. apply Z.pow_le_mono_r; lia. }
  unfold addr4_ok, u32 in *. rewrite (Z.mod_small (2 ^ (32 - b))) by lia.
  destruct (v + 2 ^ (32 - b) <? 2 ^ 32) eqn:E; bool_split.
  - rewrite Z.mod_small by lia.
    destruct (_ <? v) eqn:?; bool_split; [lia|].
    rewrite uint32ToAddr_ok by (unfold addr4_ok; lia). apply PrefixFrom4. lia.
  - assert (v + 2 ^ (32 - b) = 2 ^ 32) as ->.
    { pose proof (aligned_end v b ltac:(lia) ltac:(done) Hm). lia. }
    rewrite Z.mod_same by lia. destruct (0 <? v) eqn:?; bool_split; [done|].
    assert (v = 0) by lia. subst. lia.
Qed.

Lemma slots_loop_spec b n v :
  0 <= b <= 32 -> (1 <= b \/ (n <= 1)%nat) ->
  addr4_ok v -> v mod 2 ^ (32 - b) = 0 -> v + Z.of_nat n * 2 ^ (32 - b) <= 2 ^ 32 ->
  slots_loop n (mkPrefix (Addr4 v) b) = slot_at v b <$> seqZ 0 (Z.of_nat n).
Proof.
  intros Hb. revert v. induction n as [|n IH]; intros v Hn Hv Hm Hle; [done|].
  rewrite seqZ_cons by lia. cbn [slots_loop fmap list_fmap].
  f_equal; [unfold slot_at; by rewrite Z.add_0_r|].
  destruct n as [|n].
  { destruct (IsValid _); done. }
  assert (0 < 2 ^ (32 - b)) by (apply pow2_pos; lia).
  rewrite nextSlot4 by (done || lia).
  destruct (_ <? 2 ^ 32) eqn:E; bool_split; [|lia].
  rewrite valid4_IsValid by (eexists _, _; split_and!; [done|unfold addr4_ok in *; lia..]).
  rewrite IH; [|lia|unfold addr4_ok in *; lia| |lia].
  - replace (Z.succ 0) with 1 by lia. replace (Z.pred (Z.of_nat (S (S n)))) with (Z.of_nat (S n)) by lia.
    rewrite <- (fmap_add_seqZ 1 0 (Z.of_nat (S n))) at 1. rewrite <- list_fmap_compose.
    apply list_fmap_ext. intros i x Hx. unfold slot_at; simpl. do 2 f_equal. lia.
  - replace (v + 2 ^ (32 - b)) with (v + 1 * 2 ^ (32 - b)) by lia.
    by rewrite Z_mod_plus_full.
Qed.

Section pool.
Context (B pb : Z).
Hypothesis HB : addr4_ok B.
Hypothesis Hpb : 0 <= pb <= 32.
Hypothesis Halign : B mod 2 ^ (32 - pb) = 0.

Let pool := mkPrefix (Addr4 B) pb.

Lemma pool_aligned bits : pb <= bits <= 32 -> B mod 2 ^ (32 - bits) = 0.
Proof.
  intros Hb. assert (0 < 2 ^ (32 - bits)) by (apply pow2_pos; lia).
  assert (0 < 2 ^ (32 - pb)) by (apply pow2_pos; lia).
  apply Z.mod_divide; [lia|]. apply Z.mod_divide in Halign; [|lia].
  etrans; [|exact Halign]. rewrite (pow2_split (32 - bits) (32 - pb)) by lia.
  apply Z.divide_factor_l.
Qed.

Lemma pool_end : B + 2 ^ (32 - pb) <= 2 ^ 32.
Proof. by apply aligned_end. Qed.

Lemma slots_eq bits : pb <= bits <= 32 ->
  slots pool bits = slot_at B bits <$> seqZ 0 (2 ^ (bits - pb)).
Proof.
  intros Hb. unfold slots, pool. cbn [p_bits p_ip].
  destruct (bits <? pb) eqn:?, (32 <? bits) eqn:?; bool_split; try lia. cbn [orb].
  rewrite PrefixFrom4 by lia.
  rewrite Masked_id by (exists B, bits; split_and!; try done; [lia..|by apply pool_aligned]).
  assert (0 < 2 ^ (bits - pb)) by (apply pow2_pos; lia).
  rewrite slots_loop_spec; rewrite ?Z2Nat.id by lia.
  - done.
  - lia.
  - destruct (decide (bits = 0)) as [->|]; [right|left; lia].
    assert (pb = 0) as -> by lia. simpl. lia.
  - done.
  - by apply pool_aligned.
  - rewrite <- Z.pow_add_r by lia. replace (bits - pb + (32 - bits)) with (32 - pb) by lia.
    apply pool_end.
Qed.

(** A prefix is listed iff it is aligned, of that length and inside the pool. *)
Lemma elem_of_slots bits p : pb <= bits <= 32 ->
  p ∈ slots pool bits <->
  exists v, p = mkPrefix (Addr4 v) bits /\ v mod 2 ^ (32 - bits) = 0 /\
            B <= v < B + 2 ^ (32 - pb).
Proof.
  intros Hb. rewrite slots_eq by done. rewrite list_elem_of_fmap.
  assert (0 < 2 ^ (32 - bits)) by (apply pow2_pos; lia).
  assert (0 < 2 ^ (bits - pb)) by (apply pow2_pos; lia).
  assert (2 ^ (32 - pb) = 2 ^ (bits - pb) * 2 ^ (32 - bits)) as Hk
    by (rewrite <- Z.pow_add_r by lia; f_equal; lia).
  pose proof (pool_aligned bits Hb) as Ha.
  pose proof (Z.div_mod B (2 ^ (32 - bits)) ltac:(lia)) as HBd. rewrite Ha in HBd.
  split.
  - intros (i & -> & Hi%elem_of_seqZ). exists (B + i * 2 ^ (32 - bits)). split; [done|].
    split; [by rewrite Z_mod_plus_full|]. nia.
  - intros (v & -> & Hm & Hv). pose proof (Z.div_mod v (2 ^ (32 - bits)) ltac:(lia)) as Hvd.
    rewrite Hm in Hvd.
    set (k := 2 ^ (32 - bits)) in *. set (q := v / k) in *. set (r := B / k) in *.
    exists (q - r). split; [unfold slot_at; fold k; do 2 f_equal; nia|].
    apply elem_of_seqZ. nia.
Qed.

Lemma slots_wf bits p : pb <= bits <= 32 -> p ∈ slots pool bits ->
  exists v, p = mkPrefix (Addr4 v) bits /\ addr4_ok v /\ v mod 2 ^ (32 - bits) = 0 /\
            B <= v /\ v + 2 ^ (32 - bits) <= B + 2 ^ (32 - pb).
Proof.
  intros Hb (v & -> & Hm & Hv)%elem_of_slots; [|done].
  pose proof pool_end. exists v. split; [done|].
  split; [unfold addr4_ok in *; lia|]. split; [done|]. split; [lia|].
  assert (0 < 2 ^ (32 - bits)) by (apply pow2_pos; lia).
  apply aligned_gap; [done|done| |lia].
  rewrite (pow2_split (32 - bits) (32 - pb)) by lia.
  rewrite Z.mul_comm, Z_mod_plus_full. by apply pool_aligned.
Qed.
End pool.

(** Slots of an envelope are slots of the pool, and every slot of the pool lies
    in one envelope. *)
Lemma slots_nested B pb E P env p :
  addr4_ok B -> 0 <= pb <= E -> E <= P <= 32 -> B mod 2 ^ (32 - pb) = 0 ->
  env ∈ slots (mkPrefix (Addr4 B) pb) E -> p ∈ slots env P ->
  p ∈ slots (mkPrefix (Addr4 B) pb) P.
Proof.
  intros HB HE HP Ha Henv Hp.
  apply slots_wf in Henv as (v & -> & Hv & Hm & Hl & Hu); [|done || lia..].
  apply slots_wf in Hp as (w & -> & Hw & Hwm & Hwl & Hwu); [|done || lia..].
  apply elem_of_slots; [done || lia..|]. exists w. split_and!; [done..|lia|].
  assert (0 < 2 ^ (32 - P)) by (apply pow2_pos; lia). lia.
Qed.

Lemma slots_cover B pb E P p :
  addr4_ok B -> 0 <= pb <= E -> E <= P <= 32 -> B mod 2 ^ (32 - pb) = 0 ->
  p ∈ slots (mkPrefix (Addr4 B) pb) P ->
  exists env, env ∈ slots (mkPrefix (Addr4 B) pb) E /\ p ∈ slots env P.
Proof.
  intros HB HE HP Ha Hp.
  apply slots_wf in Hp as (w & -> & Hw & Hwm & Hwl & Hwu); [|done || lia..].
  assert (Hk : 0 < 2 ^ (32 - E)) by (apply pow2_pos; lia).
  pose proof (Z.mod_pos_bound w (2 ^ (32 - E)) ltac:(lia)) as Hmb.
  set (v := w - w mod 2 ^ (32 - E)).
  assert (v mod 2 ^ (32 - E) = 0) as Hvm.
  { unfold v. rewrite Zminus_mod_idemp_r. by rewrite Z.sub_diag, Z.mod_0_l by lia. }
  assert (addr4_ok v) as Hvok by (apply mod_small_pow; [done|lia]).
  assert (B <= v) as HBv.
  { pose proof (pool_aligned B pb ltac:(lia) Ha E ltac:(lia)) as HBa.
    destruct (Z.le_gt_cases B v) as [|Hlt]; [done|].
    pose proof (aligned_gap _ v B Hk Hvm HBa Hlt). unfold v in *. lia. }
  assert (0 < 2 ^ (32 - P)) by (apply pow2_pos; lia).
  exists (mkPrefix (Addr4 v) E). split.
  - apply elem_of_slots; [done || lia..|]. exists v. split_and!; [done..|]. unfold v in *. lia.
  - apply elem_of_slots; [done || lia..|]. exists w. split_and!; [done..| |]; unfold v; lia.
Qed.

(** ** Clear ranges *)

Lemma overlaps_not4 p c : valid4 p -> Is4 (p_ip c) = false -> Overlaps p c = false.
Proof.
  intros (v & b & -> & _ & _) Hc. unfold Overlaps.
  destruct (_ || _); [done|]. rewrite bool_decide_eq_false_2 by (intros <-; done).
  cbn [p_ip Is4]. rewrite Hc. by rewrite bool_decide_eq_false_2.
Qed.

Lemma contains_not4 c a : Is4 (p_ip c) = false -> Contains c (Addr4 a) = false.
Proof.
  destruct c as [[|v|v] b]; [|done|]; intros _; unfold Contains; cbn;
    by destruct (negb _).
Qed.

Lemma contains_invalid c a : IsValid c = false -> Contains c a = false.
Proof. intros H. unfold Contains. by rewrite H. Qed.

(** A clear range shares no address with a reservation or a carve. *)
Lemma rangeClear_spec rng reserved carves :
  valid4 rng -> Forall prefix_wf carves ->
  rangeClear rng reserved carves = true <->
  (forall a, a ∈ reserved -> Contains rng a = false) /\
  (forall c a, c ∈ carves -> addr4_ok a -> Contains rng (Addr4 a) = true -> Contains c (Addr4 a) = false).
Proof.
  intros Hr Hwf. unfold rangeClear.
  rewrite andb_true_iff, !negb_true_iff, !existsb_elem_false.
  apply and_iff_compat_l. split.
  - intros H c a Hc Ha Hin. specialize (H c Hc).
    destruct (IsValid c) eqn:Hval; [|by apply contains_invalid]. cbn [andb] in H.
    destruct (Is4 (p_ip c)) eqn:H4; [|by apply contains_not4].
    apply not_true_iff_false. intros Hin'.
    assert (valid4 c) by (apply valid4_of_checks; [by eapply Forall_forall in Hwf|done..]).
    apply not_true_iff_false in H. apply H. apply overlaps4_spec; eauto.
  - intros H c Hc. destruct (IsValid c) eqn:Hval; [cbn [andb]|done].
    destruct (Is4 (p_ip c)) eqn:H4; [|by apply overlaps_not4].
    assert (valid4 c) by (apply valid4_of_checks; [by eapply Forall_forall in Hwf|done..]).
    apply not_true_iff_false. intros (a & Ha & H1 & H2)%overlaps4_spec; [|done..].
    rewrite H in H2; done.
Qed.

(** Every address of [p] is one of [q]. *)
Definition sub_prefix (p q : Prefix) : Prop := forall a, Contains p a = true -> Contains q a = true.

Lemma rangeClear_mono p q reserved carves :
  valid4 p -> valid4 q -> Forall prefix_wf carves -> sub_prefix p q ->
  rangeClear q reserved carves = true -> rangeClear p reserved carves = true.
Proof.
  intros Hp Hq Hwf Hsub. rewrite !rangeClear_spec by done. intros [Hres Hc]. split.
  - intros a Ha. apply not_true_iff_false. intros Hin%Hsub. rewrite Hres in Hin; done.
  - eauto.
Qed.

Lemma sub_prefix_interval v b w c :
  0 <= b <= 32 -> 0 <= c <= 32 -> v mod 2 ^ (32 - b) = 0 -> w mod 2 ^ (32 - c) = 0 ->
  w <= v -> v + 2 ^ (32 - b) <= w + 2 ^ (32 - c) ->
  sub_prefix (mkPrefix (Addr4 v) b) (mkPrefix (Addr4 w) c).
Proof.
  intros Hb Hc Hv Hw Hl Hu a Ha. destruct (contains4_inv _ _ _ Ha) as [x ->].
  apply contains4_interval in Ha; [|done..]. apply contains4_interval; [done..|]. lia.
Qed.

Section suggest.
Context (B pb : Z) (reserved : list Addr) (carves : list Prefix).
Hypothesis HB : addr4_ok B.
Hypothesis Halign : B mod 2 ^ (32 - pb) = 0.
Hypothesis Hwf : Forall prefix_wf carves.

Let pool := mkPrefix (Addr4 B) pb.
Let clear := fun p => rangeClear p reserved carves.

Lemma slots_masked4 bits p : 0 <= pb <= bits -> bits <= 32 -> p ∈ slots pool bits -> masked4 p.
Proof.
  intros H1 H2 (v & -> & Hv & Hm & _)%slots_wf; [|done || lia..].
  exists v, bits. split_and!; done || lia.
Qed.

Lemma slots_in_env E P env p :
  0 <= pb <= E -> E <= P <= 32 -> env ∈ slots pool E -> p ∈ slots env P -> sub_prefix p env.
Proof.
  intros HE HP Henv Hp.
  apply slots_wf in Henv as (v & -> & Hv & Hm & _); [|done || lia..].
  apply slots_wf in Hp as (w & -> & Hw & Hwm & Hl & Hu); [|done || lia..].
  by apply sub_prefix_interval; try lia.
Qed.

(** The start of an envelope is one of its slots. *)
Lemma env_start E P env :
  0 <= pb <= E -> E <= P <= 32 -> env ∈ slots pool E ->
  Masked (PrefixFrom (p_ip env) P) ∈ slots env P /\
  p_ip (Masked (PrefixFrom (p_ip env) P)) = p_ip env.
Proof.
  intros HE HP Henv. apply slots_wf in Henv as (v & -> & Hv & Hm & _); [|done || lia..].
  cbn [p_ip]. rewrite PrefixFrom4 by lia.
  assert (v mod 2 ^ (32 - P) = 0) as HmP by (eapply (pool_aligned v E); done || lia).
  rewrite Masked_id by (exists v, P; split_and!; done || lia). split; [|done].
  apply elem_of_slots; [done || lia..|]. exists v. split_and!; [done..|lia|].
  assert (0 < 2 ^ (32 - E)) by (apply pow2_pos; lia). lia.
Qed.

Lemma freeSlotsIn_spec env P :
  (forall p, p ∈ slots env P -> IsValid p = true) ->
  freeSlotsIn env P reserved carves =
    (default PrefixZero (find_first clear (slots env P)),
     Z.of_nat (length (List.filter clear (slots env P)))).
Proof.
  intros Hval. unfold freeSlotsIn. revert Hval. generalize (slots env P) as l. intros l Hval.
  assert (Hgen : forall acc, fold_left (fun acc slot =>
      if rangeClear slot reserved carves
      then (if IsValid (fst acc) then fst acc else slot, snd acc + 1) else acc) l acc =
    ((if IsValid (fst acc) then fst acc else default (fst acc) (find_first clear l)),
     snd acc + Z.of_nat (length (List.filter clear l)))).
  { induction l as [|x l IH]; intros [lo c].
    - cbn. destruct (IsValid lo); f_equal; lia.
    - cbn [fold_left find_first List.filter]. unfold clear at 1 3.
      rewrite IH by (intros p Hp; apply Hval; by constructor).
      destruct (rangeClear x reserved carves) eqn:E; cbn [fst snd]; [|done].
      f_equal; [|cbn [length]; lia].
      destruct (IsValid lo) eqn:El; [by rewrite El|].
      by rewrite Hval by constructor. }
  rewrite Hgen. done.
Qed.

Lemma firstEnvelope_Some E P p :
  0 <= pb <= E -> E <= P <= 32 -> firstEnvelope pool E P reserved carves = Some p ->
  exists env, env ∈ slots pool E /\ clear env = true /\ p ∈ slots env P /\ p_ip p = p_ip env /\
              p ∈ slots pool P /\ clear p = true.
Proof.
  intros HE HP. unfold firstEnvelope.
  destruct (find_first _ _) as [env|] eqn:Ef; [|done]. intros [= <-].
  apply find_first_Some in Ef as [Henv Hc]. exists env.
  destruct (env_start E P env) as [Hs Hip]; [done..|].
  assert (Hpp : Masked (PrefixFrom (p_ip env) P) ∈ slots pool P) by (by eapply slots_nested).
  split_and!; try done.
  eapply rangeClear_mono; [..|exact Hc]; [..|done|by eapply slots_in_env];
    apply masked4_valid4; eapply slots_masked4; [..|done| | |done]; lia.
Qed.

Lemma worstFit_inv E P best cnt :
  0 <= pb <= E -> E <= P <= 32 -> worstFit pool E P reserved carves = (best, cnt) ->
  (forall env, env ∈ slots pool E -> snd (freeSlotsIn env P reserved carves) <= cnt) /\
  (cnt = -1 \/ exists env, env ∈ slots pool E /\ (best, cnt) = freeSlotsIn env P reserved carves).
Proof.
  intros HE HP. unfold worstFit. generalize (slots pool E) as l. intros l.
  assert (Hgen : forall init, let r := fold_left (fun best env =>
      let '(free, count) := freeSlotsIn env P reserved carves in
      if snd best <? count then (free, count) else best) l init in
    snd init <= snd r /\
    (forall env, env ∈ l -> snd (freeSlotsIn env P reserved carves) <= snd r) /\
    (r = init \/ exists env, env ∈ l /\ r = freeSlotsIn env P reserved carves)).
  { induction l as [|x l IH]; intros init; cbn [fold_left].
    - split_and!; [lia|intros env Henv; by apply elem_of_nil in Henv|by left].
    - destruct (freeSlotsIn x P reserved carves) as [f c] eqn:Ex.
      destruct (snd init <? c) eqn:Elt; bool_split.
      + destruct (IH (f, c)) as (H1 & H2 & H3). cbn [snd] in H1. split_and!; [lia| |].
        * intros env [->|Henv]%elem_of_cons; [rewrite Ex; cbn [snd]; lia|auto].
        * right. destruct H3 as [->|(env & Henv & ->)].
          -- exists x. split; [constructor|done].
          -- exists env. split; [by constructor|done].
      + destruct (IH init) as (H1 & H2 & H3). split_and!; [lia| |].
        * intros env [->|Henv]%elem_of_cons; [rewrite Ex; cbn [snd]; lia|auto].
        * destruct H3 as [->|(env & Henv & ->)]; [by left|right].
          exists env. split; [by constructor|done]. }
  intros Heq. specialize (Hgen (PrefixZero, -1)). cbn zeta in Hgen. rewrite Heq in Hgen.
  cbn [fst snd] in Hgen. destruct Hgen as (_ & H2 & H3). split; [done|].
  destruct H3 as [[= _ ->]|H3]; [by left|by right].
Qed.

Lemma env_slots_valid E P env :
  0 <= pb <= E -> E <= P <= 32 -> env ∈ slots pool E ->
  forall p, p ∈ slots env P -> IsValid p = true.
Proof.
  intros HE HP Henv p Hp. apply valid4_IsValid, masked4_valid4.
  eapply slots_masked4 with (bits := P); [lia..|by eapply slots_nested].
Qed.

(** A positive count names a clear slot of the pool; no positive count means
    no clear slot. *)
Lemma worstFit_spec E P best cnt :
  0 <= pb <= E -> E <= P <= 32 -> worstFit pool E P reserved carves = (best, cnt) ->
  (0 < cnt -> best ∈ slots pool P /\ clear best = true) /\
  (cnt <= 0 -> forall p, p ∈ slots pool P -> clear p = false).
Proof.
  intros HE HP Heq. destruct (worstFit_inv E P best cnt) as [Hmax Hor]; [done..|]. split.
  - intros Hpos. destruct Hor as [->|(env & Henv & Hf)]; [lia|].
    rewrite freeSlotsIn_spec in Hf by (by eapply env_slots_valid).
    injection Hf as -> ->.
    destruct (find_first clear (slots env P)) as [p|] eqn:Ef.
    + apply find_first_Some in Ef as [Hp Hc]. cbn. split; [by eapply slots_nested|done].
    + exfalso. destruct (List.filter clear (slots env P)) as [|x l] eqn:El; [cbn in Hpos; lia|].
      assert (In x (List.filter clear (slots env P))) as [Hx Hc]%filter_In
        by (rewrite El; by left).
      rewrite find_first_None in Ef. rewrite Ef in Hc; [done|by apply list_elem_of_In].
  - intros Hneg p Hp. destruct (slots_cover B pb E P p) as (env & Henv & Hin); [done..|].
    specialize (Hmax env Henv).
    rewrite freeSlotsIn_spec in Hmax by (by eapply env_slots_valid). cbn [snd] in Hmax.
    apply not_true_iff_false. intros Hc.
    assert (In p (List.filter clear (slots env P))) as Hf
      by (apply filter_In; split; [by apply list_elem_of_In|done]).
    destruct (List.filter clear (slots env P)); [done|cbn in Hmax; lia].
Qed.

(** If no slot of length [P] is clear, no coarser envelope is. *)
Lemma firstEnvelope_None E P :
  0 <= pb <= E -> E <= P <= 32 -> (forall p, p ∈ slots pool P -> clear p = false) ->
  firstEnvelope pool E P reserved carves = None.
Proof.
  intros HE HP Hno. destruct (firstEnvelope pool E P reserved carves) as [p|] eqn:Ef; [|done].
  apply firstEnvelope_Some in Ef as (env & _ & _ & _ & _ & Hp & Hc); [|done..].
  by rewrite Hno in Hc.
Qed.

Lemma relaxEnvelope_None es P :
  0 <= pb -> P <= 32 -> Forall (fun e => pb <= e <= P) es ->
  (forall p, p ∈ slots pool P -> clear p = false) ->
  relaxEnvelope pool es P reserved carves = None.
Proof.
  intros Hpb HP Hes Hno. induction Hes as [|e es He _ IH]; [done|]. cbn [relaxEnvelope].
  by rewrite firstEnvelope_None by (done || lia).
Qed.
End suggest.

(** ** [Suggest] *)

Lemma masked_pool pool :
  prefix_wf pool -> IsValid (Masked pool) = true -> Is4 (p_ip (Masked pool)) = true ->
  exists B pb, Masked pool = mkPrefix (Addr4 B) pb /\ addr4_ok B /\ 0 <= pb <= 32 /\
               B mod 2 ^ (32 - pb) = 0 /\ valid4 pool.
Proof.
  intros Hwf Hv H4.
  assert (valid4 pool) as Hv4.
  { destruct pool as [[|v|v] b]; cbn in *; unfold Masked, addr_prefix in *; cbn [p_ip p_bits] in *;
      destruct (b <? 0) eqn:?; try done.
    - destruct Hwf as (Hok & Hb & _). cbn in *. bool_split.
      exists v, b. split_and!; done || lia.
    - by destruct (128 <? b). }
  destruct (Masked_masked4 pool Hv4) as (B & pb & -> & HB & Hpb & Ha). eauto 10.
Qed.

Lemma envelopeBits_bounds pool P :
  p_bits pool <= P -> p_bits pool <= envelopeBits pool P <= P.
Proof.
  intros H. unfold envelopeBits.
  destruct (EnvelopeFloor <? p_bits pool) eqn:?; repeat case_match; bool_split; unfold EnvelopeFloor in *; lia.
Qed.

(** [Suggest] without its steps 3 and 4. *)
Definition SuggestTwoSteps (reqPrefixLen : Z) (pool : Prefix) (reserved : list Addr)
    (carves : list Prefix) : result err Prefix :=
  let pool := Masked pool in
  if negb (IsValid pool) || negb (Is4 (p_ip pool)) then Err NB_BadCIDR
  else if (reqPrefixLen <? p_bits pool) || (32 <? reqPrefixLen) then Err NB_BadPrefixLen
  else
    let E := envelopeBits pool reqPrefixLen in
    match firstEnvelope pool E reqPrefixLen reserved carves with
    | Some p => Ok p
    | None => let '(best, count) := worstFit pool E reqPrefixLen reserved carves in
              if 0 <? count then Ok best else Err NB_PoolFull
    end.

Lemma suggest_two_steps P pool reserved carves :
  prefix_wf pool -> Forall prefix_wf carves ->
  Suggest P pool reserved carves = SuggestTwoSteps P pool reserved carves.
Proof.
  intros Hwfp Hwf. unfold Suggest, SuggestTwoSteps.
  destruct (negb (IsValid _) || _) eqn:E1; [done|]. bool_split.
  destruct (masked_pool pool) as (B & pb & Heq & HB & Hpb & Ha & _); [done..|].
  rewrite Heq in *. cbn [p_bits].
  destruct ((P <? pb) || (32 <? P)) eqn:E2; [done|]. bool_split.
  pose proof (envelopeBits_bounds (mkPrefix (Addr4 B) pb) P) as HE. cbn [p_bits] in HE.
  specialize (HE ltac:(lia)). set (E := envelopeBits _ P) in *.
  destruct (firstEnvelope _ E P reserved carves); [done|].
  destruct (worstFit _ E P reserved carves) as [best cnt] eqn:Ew.
  destruct (worstFit_spec B pb reserved carves HB Ha E P best cnt) as [Hpos Hneg]; [lia|lia|done|].
  destruct (0 <? cnt) eqn:Ec; bool_split; cbn [andb].
  - destruct (Hpos Ec) as [Hin _].
    rewrite valid4_IsValid; [done|]. apply masked4_valid4.
    eapply (slots_masked4 B pb); [done..| | |exact Hin]; lia.
  - specialize (Hneg Ec). rewrite relaxEnvelope_None by (done || lia || (apply Forall_forall; intros e He%elem_of_seqZ; lia)).
    destruct (find_first _ _) as [p|] eqn:Ef; [|done].
    apply find_first_Some in Ef as [Hp Hc]. by rewrite Hneg in Hc.
Qed.

(** What a result of [Suggest] is: a clear slot of the pool; and if it came from
    step 1, the start of a clear envelope. *)
Lemma suggest_ok P pool reserved carves p :
  prefix_wf pool -> Forall prefix_wf carves ->
  Suggest P pool reserved carves = Ok p ->
  exists B pb, Masked pool = mkPrefix (Addr4 B) pb /\ addr4_ok B /\ 0 <= pb <= P /\ P <= 32 /\
    B mod 2 ^ (32 - pb) = 0 /\ valid4 pool /\
    p ∈ slots (mkPrefix (Addr4 B) pb) P /\ rangeClear p reserved carves = true.
Proof.
  intros Hwfp Hwf. rewrite suggest_two_steps by done. unfold SuggestTwoSteps.
  destruct (negb (IsValid _) || _) eqn:E1; [done|]. bool_split.
  destruct (masked_pool pool) as (B & pb & Heq & HB & Hpb & Ha & Hv4); [done..|].
  rewrite Heq in *. cbn [p_bits].
  destruct ((P <? pb) || (32 <? P)) eqn:E2; [done|]. bool_split.
  pose proof (envelopeBits_bounds (mkPrefix (Addr4 B) pb) P) as HE. cbn [p_bits] in HE.
  specialize (HE ltac:(lia)). set (E := envelopeBits _ P) in *.
  intros Hres. exists B, pb. split_and!; try (done || lia).
  - destruct (firstEnvelope _ E P reserved carves) as [q|] eqn:Ef.
    + injection Hres as <-.
      by apply firstEnvelope_Some in Ef as (env & _ & _ & _ & _ & Hp & Hc); [|done || lia..].
    + destruct (worstFit _ E P reserved carves) as [best cnt] eqn:Ew.
      destruct (0 <? cnt) eqn:Ec; [|done]. injection Hres as <-. bool_split.
      by destruct (worstFit_spec B pb reserved carves HB Ha E P best cnt) as [[] _];
        [lia|lia|done|lia|].
  - destruct (firstEnvelope _ E P reserved carves) as [q|] eqn:Ef.
    + injection Hres as <-.
      by apply firstEnvelope_Some in Ef as (env & _ & _ & _ & _ & Hp & Hc); [|done || lia..].
    + destruct (worstFit _ E P reserved carves) as [best cnt] eqn:Ew.
      destruct (0 <? cnt) eqn:Ec; [|done]. injection Hres as <-. bool_split.
      by destruct (worstFit_spec B pb reserved carves HB Ha E P best cnt) as [[] _];
        [lia|lia|done|lia|].
Qed.

(** A suggested block is placeable: [Suggest] returns a canonical IPv4 block of
    exactly the requested length inside the pool, containing no reserved address
    and sharing no address with a carve. *)
Theorem suggest_sound P pool reserved carves p :
  prefix_wf pool -> Forall prefix_wf carves ->
  Suggest P pool reserved carves = Ok p ->
  masked4 p /\ p_bits p = P /\ prefixInside p (Masked pool) = true /\
  forall a, addr4_ok a -> Contains p (Addr4 a) = true ->
    Contains pool (Addr4 a) = true /\ (Addr4 a ∉ reserved) /\
    forall c, c ∈ carves -> Contains c (Addr4 a) = false.
Proof.
  intros Hwfp Hwf Hs.
  destruct (suggest_ok P pool reserved carves p Hwfp Hwf Hs)
    as (B & pb & Heq & HB & Hpb & HP & Ha & Hv4 & Hin & Hc).
  assert (Hm4 : masked4 p) by (eapply (slots_masked4 B pb); [done..| | |exact Hin]; lia).
  rewrite rangeClear_spec in Hc by auto using masked4_valid4. destruct Hc as [Hres Hcar].
  pose proof Hin as Hin'. apply slots_wf in Hin' as (v & -> & Hv & Hm & Hl & Hu); [|done || lia..].
  assert (Hk : 0 < 2 ^ (32 - P)) by (apply pow2_pos; lia).
  split_and!; try done.
  - unfold prefixInside. rewrite Heq, Masked_id by done. cbn [p_bits p_ip].
    rewrite (proj2 (contains4_interval B pb v ltac:(lia) Ha)) by lia.
    by rewrite (proj2 (Z.leb_le pb P)) by lia.
  - intros a Haok Hac. split_and!.
    + rewrite <- Masked_contains by done. rewrite Heq.
      apply contains4_interval; [lia|done|].
      apply contains4_interval in Hac; [|lia|done]. lia.
    + intros Hr. by rewrite Hres in Hac.
    + intros c Hcc. eauto.
Qed.

(** [Suggest] reports a full pool exactly when there is no room: no aligned
    block of the requested length inside the pool is clear of the carves and of
    the reserved addresses. *)
Theorem suggest_complete P pool reserved carves :
  valid4 pool -> p_bits pool <= P <= 32 -> Forall prefix_wf carves ->
  (Suggest P pool reserved carves = Err NB_PoolFull) <->
  forall v, v mod 2 ^ (32 - P) = 0 -> prefixInside (mkPrefix (Addr4 v) P) (Masked pool) = true ->
    addr4_ok v -> rangeClear (mkPrefix (Addr4 v) P) reserved carves = false.
Proof.
  intros Hv4 HP Hwf.
  assert (Hwfp : prefix_wf pool).
  { destruct Hv4 as (v & b & -> & Hv & Hb). split_and!; cbn; done || lia. }
  destruct (Masked_masked4 pool Hv4) as (B & pb & Heq & HB & Hpb & Ha).
  assert (p_bits pool = pb) as Hbits.
  { destruct Hv4 as (v & b & -> & Hv & Hb). rewrite Masked4_eq in Heq by done. cbn. congruence. }
  rewrite suggest_two_steps by done. unfold SuggestTwoSteps. rewrite Heq.
  rewrite valid4_IsValid by (exists B, pb; split_and!; done || lia). cbn [negb p_ip Is4 orb p_bits].
  destruct (P <? pb) eqn:?, (32 <? P) eqn:?; bool_split; try lia. cbn [orb].
  pose proof (envelopeBits_bounds (mkPrefix (Addr4 B) pb) P) as HE. cbn [p_bits] in HE.
  specialize (HE ltac:(lia)). set (E := envelopeBits _ P) in *.
  assert (Hslot : forall v, addr4_ok v -> v mod 2 ^ (32 - P) = 0 ->
    (prefixInside (mkPrefix (Addr4 v) P) (mkPrefix (Addr4 B) pb) = true) <->
    mkPrefix (Addr4 v) P ∈ slots (mkPrefix (Addr4 B) pb) P).
  { intros v Hv Hm. rewrite elem_of_slots by (done || lia). unfold prefixInside.
    rewrite Masked_id by (exists v, P; split_and!; done || lia). cbn [p_bits p_ip].
    rewrite (proj2 (Z.leb_le pb P)) by lia. cbn [andb].
    rewrite contains4_interval by (done || lia). split.
    - intros Hin. by exists v.
    - intros (w & [= <-] & _ & Hin). done. }
  split.
  - intros Hres. destruct (firstEnvelope _ E P reserved carves); [done|].
    destruct (worstFit _ E P reserved carves) as [best cnt] eqn:Ew.
    destruct (0 <? cnt) eqn:Ec; [done|]. bool_split.
    intros v Hm Hin Hv. apply Hslot in Hin; [|done..].
    eapply (worstFit_spec B pb reserved carves HB Ha E P best cnt); done || lia.
  - intros Hno.
    assert (Hall : forall p, p ∈ slots (mkPrefix (Addr4 B) pb) P -> rangeClear p reserved carves = false).
    { intros p Hp. pose proof Hp as Hp'.
      apply slots_wf in Hp as (v & -> & Hv & Hm & _); [|done || lia..].
      apply Hno; [done| |done]. by apply Hslot. }
    rewrite firstEnvelope_None by (done || lia).
    destruct (worstFit _ E P reserved carves) as [best cnt] eqn:Ew.
    destruct (0 <? cnt) eqn:Ec; [|done]. bool_split.
    destruct (worstFit_spec B pb reserved carves HB Ha E P best cnt) as [[Hb Hc] _];
      [lia|lia|done|done|]. by rewrite Hall in Hc.
Qed.

(** A block of length [b] at [p]'s address. *)
Definition grown (p : Prefix) (b : Z) : Prefix := mkPrefix (p_ip p) b.

(** Room to grow. While some envelope (the block a few bits shorter than the
    request) is clear, the suggested block starts such an envelope: at every length
    from the envelope's to its own it is canonical, inside the pool and clear, so
    it can be doubled in place [MarginBits] times. *)
Theorem suggest_growth P pool reserved carves p env :
  prefix_wf pool -> Forall prefix_wf carves ->
  Suggest P pool reserved carves = Ok p ->
  env ∈ slots (Masked pool) (envelopeBits (Masked pool) P) ->
  rangeClear env reserved carves = true ->
  forall b, envelopeBits (Masked pool) P <= b <= P ->
    masked4 (grown p b) /\ prefixInside (grown p b) (Masked pool) = true /\
    rangeClear (grown p b) reserved carves = true.
Proof.
  intros Hwfp Hwf Hs Henv Hclr b Hb. pose proof Hs as Hs'.
  destruct (suggest_ok P pool reserved carves p Hwfp Hwf Hs)
    as (B & pb & Heq & HB & Hpb & HP & Ha & Hv4 & Hin & Hc).
  rewrite suggest_two_steps in Hs' by done. unfold SuggestTwoSteps in Hs'. rewrite Heq in *.
  pose proof (envelopeBits_bounds (mkPrefix (Addr4 B) pb) P ltac:(cbn; lia)) as HE.
  cbn [p_bits] in HE. set (E := envelopeBits _ P) in *.
  destruct (negb _ || _) in Hs'; [done|]. destruct (_ || _) in Hs'; [done|].
  destruct (firstEnvelope _ E P reserved carves) as [q|] eqn:Ef.
  2:{ unfold firstEnvelope in Ef. destruct (find_first _ _) eqn:Efl; [done|].
      rewrite find_first_None in Efl. by rewrite Efl in Hclr. }
  injection Hs' as ->.
  apply firstEnvelope_Some in Ef as (env' & Henv' & Hclr' & _ & Hip & _); [|done || lia..].
  apply slots_wf in Henv' as (v & -> & Hv & Hm & Hl & Hu); [|done || lia..].
  cbn [p_ip] in Hip. unfold grown. rewrite Hip.
  assert (Hmb : v mod 2 ^ (32 - b) = 0) by (eapply (pool_aligned v E); done || lia).
  assert (Hkb : 0 < 2 ^ (32 - b)) by (apply pow2_pos; lia).
  assert (Hkle : 2 ^ (32 - b) <= 2 ^ (32 - E)) by (apply Z.pow_le_mono_r; lia).
  assert (Hm4 : masked4 (mkPrefix (Addr4 v) b)) by (exists v, b; split_and!; done || lia).
  split_and!; [done| |].
  - unfold prefixInside. rewrite Masked_id by done. cbn [p_ip p_bits].
    rewrite (proj2 (contains4_interval B pb v ltac:(lia) Ha)) by lia.
    by rewrite (proj2 (Z.leb_le pb b)) by lia.
  - eapply rangeClear_mono; [| |done| |exact Hclr'].
    + by apply masked4_valid4.
    + exists v, E. split_and!; done || lia.
    + by apply sub_prefix_interval; try lia.
Qed.

(** ** The doubling buddy *)

(** A block that keeps its address when one bit shorter is a lower half; its
    buddy is the upper half, and the two halves make the grown block. *)
Lemma buddyOf_lower v b :
  1 <= b <= 32 -> addr4_ok v -> v mod 2 ^ (32 - (b - 1)) = 0 ->
  buddyOf (mkPrefix (Addr4 v) b) = mkPrefix (Addr4 (v + 2 ^ (32 - b))) b /\
  addr4_ok (v + 2 ^ (32 - b)) /\ (v + 2 ^ (32 - b)) mod 2 ^ (32 - b) = 0.
Proof.
  intros Hb Hv Hm.
  assert (Hk : 0 < 2 ^ (32 - b)) by (apply pow2_pos; lia).
  assert (H2k : 2 ^ (32 - (b - 1)) = 2 * 2 ^ (32 - b)).
  { replace (32 - (b - 1)) with (Z.succ (32 - b)) by lia. apply Z.pow_succ_r. lia. }
  assert (Hmb : v mod 2 ^ (32 - b) = 0) by (eapply (pool_aligned v (b - 1)); done || lia).
  pose proof (aligned_end v (b - 1) ltac:(lia) Hv Hm) as Hend. rewrite H2k in Hend.
  assert (Hok : addr4_ok (v + 2 ^ (32 - b))) by (unfold addr4_ok in *; lia).
  split_and!; [|done|].
  - unfold buddyOf. rewrite Masked_id by (exists v, b; split_and!; done || lia). cbn [p_ip p_bits].
    destruct (b <=? 0) eqn:?; bool_split; [lia|].
    rewrite PrefixFrom4 by lia.
    rewrite Masked_id by (exists v, (b - 1); split_and!; done || lia). cbn [p_ip].
    rewrite decide_True by done.
    rewrite Z.shiftl_mul_pow2, Z.mul_1_l by lia. rewrite addrToUint32_4 by done.
    rewrite (u32_small (2 ^ (32 - b))) by (unfold addr4_ok in *; lia).
    rewrite u32_small by done. rewrite uint32ToAddr_ok by done. apply PrefixFrom4. lia.
  - replace (v + 2 ^ (32 - b)) with (v + 1 * 2 ^ (32 - b)) by lia. by rewrite Z_mod_plus_full.
Qed.

Lemma grown_halves v b a :
  1 <= b <= 32 -> addr4_ok v -> v mod 2 ^ (32 - (b - 1)) = 0 ->
  Contains (mkPrefix (Addr4 v) (b - 1)) a =
    Contains (mkPrefix (Addr4 v) b) a || Contains (buddyOf (mkPrefix (Addr4 v) b)) a.
Proof.
  intros Hb Hv Hm. destruct (buddyOf_lower v b Hb Hv Hm) as (-> & Hok & Hbm).
  assert (Hmb : v mod 2 ^ (32 - b) = 0) by (eapply (pool_aligned v (b - 1)); done || lia).
  assert (H2k : 2 ^ (32 - (b - 1)) = 2 * 2 ^ (32 - b)).
  { replace (32 - (b - 1)) with (Z.succ (32 - b)) by lia. apply Z.pow_succ_r. lia. }
  destruct a as [|x|x]; rewrite ?contains4_not4 by done; [done| |done].
  apply eq_true_iff_eq. rewrite orb_true_iff.
  rewrite !contains4_interval by (done || lia). rewrite H2k. lia.
Qed.

(** Steps 3 and 4 of [Suggest] (relaxing the envelope, the bare scan) are
    never reached: the function equals its first two steps. *)
Theorem suggest_fallbacks_unreachable P pool reserved carves :
  prefix_wf pool -> Forall prefix_wf carves ->
  Suggest P pool reserved carves = SuggestTwoSteps P pool reserved carves.
Proof. apply suggest_two_steps. Qed.

(** ** A /27 in 10.44.0.0/16 with the control plane and one carve in place *)

Definition place_pool : Prefix := mkPrefix (Addr4 (10 * 2 ^ 24 + 44 * 2 ^ 16)) 16.
Definition place_carves : list Prefix := [mkPrefix (Addr4 (10 * 2 ^ 24 + 44 * 2 ^ 16)) 22].
Definition place_reserved : list Addr := [Addr4 (10 * 2 ^ 24 + 44 * 2 ^ 16 + 4 * 2 ^ 8 + 1)].
Definition place_found : Prefix := mkPrefix (Addr4 (10 * 2 ^ 24 + 44 * 2 ^ 16 + 5 * 2 ^ 8)) 27.

Lemma place_wf : prefix_wf place_pool /\ Forall prefix_wf place_carves.
Proof. split; [|constructor; [|constructor]]; split_and!; cbn; unfold addr4_ok; done || lia. Qed.

Lemma suggest_sound_witness :
  masked4 place_found /\ p_bits place_found = 27 /\ prefixInside place_found (Masked place_pool) = true /\
  forall a, addr4_ok a -> Contains place_found (Addr4 a) = true ->
    Contains place_pool (Addr4 a) = true /\ (Addr4 a ∉ place_reserved) /\
    forall c, c ∈ place_carves -> Contains c (Addr4 a) = false.
Proof.
  apply (suggest_sound 27 place_pool place_reserved place_carves place_found);
    [apply place_wf|apply place_wf|vm_compute; reflexivity].
Defined.

Lemma suggest_complete_witness :
  (Suggest 16 place_pool [] place_carves = Err NB_PoolFull) <->
  forall v, v mod 2 ^ (32 - 16) = 0 -> prefixInside (mkPrefix (Addr4 v) 16) (Masked place_pool) = true ->
    addr4_ok v -> rangeClear (mkPrefix (Addr4 v) 16) [] place_carves = false.
Proof.
  apply (suggest_complete 16 place_pool [] place_carves); [|cbn; lia|apply place_wf].
  exists (10 * 2 ^ 24 + 44 * 2 ^ 16), 16. split_and!; done || (unfold addr4_ok; lia).
Defined.

Lemma suggest_growth_witness :
  masked4 (grown place_found 25) /\ prefixInside (grown place_found 25) (Masked place_pool) = true /\
  rangeClear (grown place_found 25) place_reserved place_carves = true.
Proof.
  apply (suggest_growth 27 place_pool place_reserved place_carves place_found
           (mkPrefix (Addr4 (10 * 2 ^ 24 + 44 * 2 ^ 16 + 5 * 2 ^ 8)) 24));
    [apply place_wf|apply place_wf|vm_compute; reflexivity| |vm_compute; reflexivity|vm_compute; split; discriminate].
  apply list_elem_of_lookup. exists 5%nat. vm_compute. reflexivity.
Defined.

Lemma suggest_fallbacks_unreachable_witness :
  Suggest 27 place_pool place_reserved place_carves = SuggestTwoSteps 27 place_pool place_reserved place_carves.
Proof. apply (suggest_fallbacks_unreachable 27 place_pool place_reserved place_carves); apply place_wf. Defined.
