(* ===== verification/NetblockRegistry.v ===== *)
(** * internal/netblock: the registry of named address blocks

    [Registry] over the [netblocks] table: CRUD with its guards, the auto-grow
    compare-and-swap, resolution by name and the generation-guarded snapshot
    cache. Every operation is a database program of [Db]; the allocation lister
    is an interface ([AllocationLister]) that the IPAM allocator implements. *)

From S2P Require Import Prelude Db GoStrings Netip AddrStore NetblockPlace.
From stdpp Require Import prelude strings list gmap relations.
From Stdlib Require Import ZArith Lia Ascii.
Open Scope Z_scope.

Definition KindReserved : string := "reserved".
Definition KindDefault : string := "default".
Definition KindNamed : string := "named".
Definition NameCentral : string := "central".
Definition NameDefault : string := "default".

(** [Netblock.Prefix]: the stored CIDR parsed and masked; the zero prefix on a
    malformed value. *)
Definition nb_Prefix (n : Netblock) : Prefix :=
  match ParsePrefix (nb_cidr n) with
  | None => PrefixZero
  | Some p => Masked p
  end.

(** The configuration of a [Registry]; its database, cache and generation are in
    [Store]. *)
Record Registry : Type := mkRegistry {
  r_pool : Prefix;
  r_reserved : list Addr;
  r_allocs : option (M Store err (list Addr));
  r_audit : bool;
}.

Definition New (pool : Prefix) (reserved : list Addr)
    (allocs : option (M Store err (list Addr))) (audit : bool) : Registry :=
  mkRegistry (Masked pool) reserved allocs audit.

(** ** Reads *)

(** Newest first: descending primary key. *)
Definition List : M Store err (list Netblock) := query (fun s => rev (netblocks s)).

Definition Count : M Store err Z := query (fun s => Z.of_nat (length (netblocks s))).

Definition named_row (name : string) (n : Netblock) : bool := bool_decide (nb_name n = name).

Definition Get (name : string) : M Store err Netblock :=
  r ← query (fun s => find_first (named_row name) (netblocks s));
  match r with
  | None => throw NB_NotFound
  | Some row => mret row
  end.

(** ** Guards *)

(** The overlap test of [validateCIDR] and [rangeFree] on one row. *)
Definition row_overlaps (rng : Prefix) (excludeName : string) (row : Netblock) : bool :=
  if decide (nb_name row = excludeName) then false
  else let other := nb_Prefix row in IsValid other && Overlaps rng other.

Definition validateCIDR (r : Registry) (cidr : Prefix) (excludeName : string) : M Store err unit :=
  if negb (IsValid cidr) || negb (Is4 (p_ip cidr)) then throw NB_BadCIDR
  else
    let cidr := Masked cidr in
    if negb (prefixInside cidr (r_pool r)) then throw NB_OutOfPool
    else if existsb (Contains cidr) (r_reserved r) then throw NB_Overlap
    else
      rows ← List;
      if existsb (row_overlaps cidr excludeName) rows then throw NB_Overlap else mret ().

(** The allocation [a] is inside the old range and outside the new one. *)
Definition strands (oldRange newRange : Prefix) (a : Addr) : bool :=
  IsValid oldRange && Contains oldRange a && (negb (IsValid newRange) || negb (Contains newRange a)).

Definition checkNoStranded (r : Registry) (oldRange newRange : Prefix) : M Store err unit :=
  match r_allocs r with
  | None => mret ()
  | Some live =>
      addrs ← live;
      if existsb (strands oldRange newRange) addrs then throw NB_Stranded else mret ()
  end.

Definition rangeFree (r : Registry) (rng : Prefix) (excludeName : string) : M Store err bool :=
  if existsb (Contains rng) (r_reserved r) then mret false
  else
    rows ← List;
    if existsb (row_overlaps rng excludeName) rows then mret false
    else match r_allocs r with
         | None => mret true
         | Some live => addrs ← live; mret (negb (existsb (Contains rng) addrs))
         end.

(** ** The cache *)

(** [r.gen] is a [uint64]. *)
Definition invalidate : M Store err unit :=
  mem (fun s => ((), set_cache None ((gen s + 1) mod 2 ^ 64) s)).

(** The loop of [snapshot] over the rows: later rows overwrite earlier ones of
    the same name, malformed rows are skipped. *)
Definition add_row (c : resolverCache) (row : Netblock) : resolverCache :=
  let p := nb_Prefix row in
  if negb (IsValid p) then c
  else mkCache (<[nb_name row := p]> (c_byName c)) (<[nb_name row := row]> (c_rows c))
         (c_all c ++ [p])
         (if decide (nb_kind row = KindNamed) then c_named c ++ [p] else c_named c).

Definition build_cache (rows : list Netblock) : resolverCache :=
  fold_left add_row rows (mkCache ∅ ∅ [] []).

Definition snapshot : M Store err resolverCache :=
  c ← mem (fun s => ((cache s, gen s), s));
  match c with
  | (Some c, _) => mret c
  | (None, startGen) =>
      rows ← List;
      let c := build_cache rows in
      _ ← mem (fun s => ((), if gen s =? startGen then set_cache (Some c) (gen s) s else s));
      mret c
  end.

(** ** Writes *)

(** [db.Create(&row)]: the table's UNIQUE(name), the id from the sequence. *)
Definition create_netblock (row : Netblock) : M Store err Netblock :=
  exec_err (fun s =>
    if existsb (named_row (nb_name row)) (netblocks s) then Err DuplicatedKey
    else
      let row := mkNetblock (nb_seq s) (nb_name row) (nb_cidr row) (nb_kind row)
                   (nb_description row) (nb_protected row) (nb_created_at row)
                   (nb_created_by row) in
      Ok (row, set_nb_seq (nb_seq s + 1) (set_netblocks (netblocks s ++ [row]) s))).

Definition set_cidr (cidr : string) (description : option string) (n : Netblock) : Netblock :=
  mkNetblock (nb_id n) (nb_name n) cidr (nb_kind n) (default (nb_description n) description)
    (nb_protected n) (nb_created_at n) (nb_created_by n).

(** The row the conditional updates select: [name = ? AND cidr = ?]. *)
Definition cas_row (name oldCIDR : string) (n : Netblock) : bool :=
  bool_decide (nb_name n = name) && bool_decide (nb_cidr n = oldCIDR).

(** [UPDATE ... WHERE name = ? AND cidr = ?], returning the rows affected. *)
Definition cas_cidr (name oldCIDR newCIDR : string) (description : option string)
    : M Store err Z :=
  exec (fun s =>
    (Z.of_nat (length (List.filter (cas_row name oldCIDR) (netblocks s))),
     set_netblocks (map (fun n => if cas_row name oldCIDR n then set_cidr newCIDR description n
                                  else n) (netblocks s)) s)).

(** [fmt]'s %q on text without characters to escape (CIDRs and kinds). *)
Definition dquote : string := String (ascii_of_nat 34) EmptyString.
Definition quoted (s : string) : string := dquote +:+ s +:+ dquote.

Definition recordAudit (r : Registry) (actor action target details : string) : M Store err unit :=
  if r_audit r
  then ignore (exec (fun s => ((), add_audit (mkAudit actor action target details) s)))
  else mret ().

Definition Add (r : Registry) (name : string) (cidr : Prefix) (description actor : string)
    : M Store err Netblock :=
  if decide (name = "") then throw NB_NoName
  else if decide (name = NameCentral \/ name = NameDefault) then throw NB_ReservedKind
  else
    _ ← validateCIDR r cidr "";
    t ← now;
    res ← attempt (create_netblock
            (mkNetblock 0 name (PrefixString (Masked cidr)) KindNamed description false t actor));
    match res with
    | Err DuplicatedKey => throw NB_Exists
    | Err e => throw e
    | Ok row => _ ← invalidate; mret row
    end.

Definition Seed (r : Registry) (name : string) (cidr : Prefix) (kind description actor : string)
    : M Store err Netblock :=
  if decide (name = "") then throw NB_NoName
  else if decide (kind <> KindReserved /\ kind <> KindDefault) then throw NB_SeedKind
  else
    ex ← attempt (Get name);
    match ex with
    | Ok existing => mret existing
    | Err NB_NotFound =>
        _ ← validateCIDR r cidr "";
        t ← now;
        res ← attempt (create_netblock
                (mkNetblock 0 name (PrefixString (Masked cidr)) kind description true t actor));
        match res with
        | Err DuplicatedKey => Get name
        | Err e => throw e
        | Ok row =>
            _ ← invalidate;
            _ ← recordAudit r actor "netblock-seed" name
                  ("{" +:+ quoted "cidr" +:+ ":" +:+ quoted (nb_cidr row) +:+ "," +:+
                   quoted "kind" +:+ ":" +:+ quoted kind +:+ "}");
            mret row
        end
    | Err e => throw e
    end.

Definition Update (r : Registry) (name : string) (cidr : Prefix) (description actor : string)
    : M Store err Netblock :=
  row ← Get name;
  if nb_protected row then throw NB_Protected
  else
    _ ← validateCIDR r cidr name;
    _ ← checkNoStranded r (nb_Prefix row) (Masked cidr);
    let oldCIDR := PrefixString (nb_Prefix row) in
    let newCIDR := PrefixString (Masked cidr) in
    affected ← cas_cidr name oldCIDR newCIDR (Some description);
    if affected =? 0 then throw NB_NotFound
    else _ ← invalidate; mret (set_cidr newCIDR (Some description) row).

Definition Remove (r : Registry) (name actor : string) : M Store err unit :=
  row ← Get name;
  if nb_protected row then throw NB_Protected
  else
    _ ← checkNoStranded r (nb_Prefix row) PrefixZero;
    _ ← exec (fun s => ((), set_netblocks
                (List.filter (fun n => negb (named_row name n)) (netblocks s)) s));
    invalidate.

Definition Grow (r : Registry) (name actor : string) : M Store err Prefix :=
  row ← Get name;
  if decide (nb_kind row <> KindNamed) then throw NB_GrowKind
  else
    let cur := nb_Prefix row in
    if p_bits cur <=? 0 then throw NB_PoolFull
    else
      let next := Masked (PrefixFrom (p_ip cur) (p_bits cur - 1)) in
      if decide (p_ip next <> p_ip cur) then throw NB_PoolFull
      else if (p_bits next <? p_bits (r_pool r)) || negb (prefixInside next (r_pool r))
      then throw NB_PoolFull
      else
        let buddy := buddyOf cur in
        free ← rangeFree r buddy name;
        if negb free then throw NB_PoolFull
        else
          affected ← cas_cidr name (PrefixString cur) (PrefixString next) None;
          if affected =? 0 then throw NB_PoolFull
          else
            _ ← invalidate;
            _ ← recordAudit r actor "netblock-autogrow" name
                  ("{" +:+ quoted "cidr" +:+ ":" +:+ quoted (PrefixString next) +:+ "}");
            mret next.

(** ** Resolution *)

Definition Resolve (name : string) : M Store err Prefix :=
  c ← snapshot;
  let name := if decide (name = "") then NameDefault else name in
  match c_byName c !! name with
  | Some p => mret p
  | None =>
      if decide (name <> NameDefault)
      then match c_byName c !! NameDefault with
           | Some p => mret p
           | None => throw NB_NotFound
           end
      else throw NB_NotFound
  end.

(** [ipam.Resolved] *)
Record Resolved : Type := mkResolved {
  res_ID : Z;
  res_Name : string;
  res_CIDR : Prefix;
  res_Named : bool;
  res_Reserved : bool;
}.

Definition resolved_of (row : Netblock) : Resolved :=
  mkResolved (nb_id row) (nb_name row) (nb_Prefix row)
    (bool_decide (nb_kind row = KindNamed)) (bool_decide (nb_kind row = KindReserved)).

Definition ResolveFull (name : string) : M Store err Resolved :=
  c ← snapshot;
  let name := if decide (name = "") then NameDefault else name in
  match c_rows c !! name with
  | Some row => mret (resolved_of row)
  | None =>
      if decide (name <> NameDefault)
      then match c_rows c !! NameDefault with
           | Some def => mret (resolved_of def)
           | None => throw NB_NotFound
           end
      else throw NB_NotFound
  end.

(** Map iteration: the order of the result is not specified. *)
Definition NetblockCIDRs : M Store err (list (string * Prefix)) :=
  c ← snapshot;
  mret (omap (fun kv : string * Netblock =>
          let p := nb_Prefix kv.2 in if IsValid p then Some (kv.1, p) else None)
        (map_to_list (c_rows c))).

Definition carves_of (c : resolverCache) : list Prefix :=
  omap (fun kv : string * Netblock =>
          if decide (nb_kind kv.2 = KindDefault) then None
          else let p := nb_Prefix kv.2 in if IsValid p then Some p else None)
       (map_to_list (c_rows c)).

Definition Carves : M Store err (list Prefix) :=
  c ← snapshot; mret (carves_of c).

Definition allCarves : M Store err (list Prefix) :=
  c ← snapshot; mret (c_all c).

Definition RegistrySuggest (r : Registry) (reqPrefixLen : Z) : M Store err Prefix :=
  carves ← allCarves;
  match Suggest reqPrefixLen (r_pool r) (r_reserved r) carves with
  | Ok p => mret p
  | Err e => throw e
  end.

(** ** The interface to the allocator

    What the stranding guard relies on: the lister is one read that returns the
    live addresses of the allocation table at some reading of the clock. *)

(** [state = 'allocated' OR quarantine_until > now] *)
Definition live_row (t : Z) (a : Allocation) : bool :=
  bool_decide (al_state a = "allocated") || (t <? al_quarantine_until a).

Definition live_at (t : Z) (rows : list Allocation) : list Addr :=
  omap ParseAddr (al_ip <$> List.filter (live_row t) rows).

Class AllocationLister (live : M Store err (list Addr)) : Prop :=
  lister_spec : forall (T : Z -> Prop) (R G : relation Store) Q s,
    (forall s1, R s s1 ->
       Q (Err DbFault) s1 /\ forall t, T t -> Q (Ok (live_at t (allocs s1))) s1) ->
    wpt T R G live Q s.

Class ListerOK (r : Registry) : Prop :=
  lister_ok : forall live, r_allocs r = Some live -> AllocationLister live.

#[export] Instance New_no_lister pool reserved audit : ListerOK (New pool reserved None audit).
Proof. intros live. done. Qed.

#[export] Instance New_lister pool reserved live audit `{!AllocationLister live} :
  ListerOK (New pool reserved (Some live) audit).
Proof. intros l [= <-]. done. Qed.

(** ** The plan invariant *)

(** A stored row: canonical text of a masked IPv4 prefix inside the pool that
    covers no reserved address; protected iff it is not a carved block. *)
Definition row_ok (r : Registry) (n : Netblock) : Prop :=
  nb_protected n = negb (bool_decide (nb_kind n = KindNamed)) /\
  exists p, masked4 p /\ nb_cidr n = PrefixString p /\ prefixInside p (r_pool r) = true /\
            forall a, a ∈ r_reserved r -> Contains p a = false.

Record plan_ok (r : Registry) (rows : list Netblock) : Prop := mkPlanOk {
  po_names : NoDup (nb_name <$> rows);
  po_nonempty : forall n, n ∈ rows -> nb_name n <> "";
  po_rows : forall n, n ∈ rows -> row_ok r n;
  po_disjoint : forall x y, x ∈ rows -> y ∈ rows -> nb_name x <> nb_name y ->
    Overlaps (nb_Prefix x) (nb_Prefix y) = false;
}.

Lemma nb_Prefix_canonical n p : masked4 p -> nb_cidr n = PrefixString p -> nb_Prefix n = p.
Proof.
  intros Hp Hc. unfold nb_Prefix. rewrite Hc, ParsePrefix_String by by apply masked4_valid4.
  by apply Masked_id.
Qed.

Lemma row_ok_prefix r n : row_ok r n -> masked4 (nb_Prefix n) /\ nb_cidr n = PrefixString (nb_Prefix n) /\
  prefixInside (nb_Prefix n) (r_pool r) = true /\
  forall a, a ∈ r_reserved r -> Contains (nb_Prefix n) a = false.
Proof. intros (_ & p & Hp & Hc & Hin & Hr). rewrite (nb_Prefix_canonical n p) by done. done. Qed.

Lemma names_unique rows x y :
  NoDup (nb_name <$> rows) -> x ∈ rows -> y ∈ rows -> nb_name x = nb_name y -> x = y.
Proof. apply keyed_unique. Qed.

Lemma row_overlaps_false rng ex rows :
  existsb (row_overlaps rng ex) rows = false ->
  forall n, n ∈ rows -> nb_name n <> ex -> IsValid (nb_Prefix n) = true ->
    Overlaps rng (nb_Prefix n) = false.
Proof.
  intros H n Hn Hne Hv. rewrite existsb_elem_false in H. specialize (H n Hn).
  unfold row_overlaps in H. rewrite decide_False in H by done. by rewrite Hv in H.
Qed.

Lemma row_ok_valid r n : row_ok r n -> IsValid (nb_Prefix n) = true.
Proof. intros H. apply valid4_IsValid, masked4_valid4, (row_ok_prefix r n H). Qed.

(** What the guards of [validateCIDR] establish of the block to be written. *)
Record fits (r : Registry) (rows : list Netblock) (ex : string) (p : Prefix) : Prop := mkFits {
  fit_masked : masked4 p;
  fit_pool : prefixInside p (r_pool r) = true;
  fit_reserved : forall a, a ∈ r_reserved r -> Contains p a = false;
  fit_clear : existsb (row_overlaps p ex) rows = false;
}.

Definition kind_protected (n : Netblock) : Prop :=
  nb_protected n = negb (bool_decide (nb_kind n = KindNamed)).

Lemma fits_row_ok r rows ex p n :
  fits r rows ex p -> nb_cidr n = PrefixString p -> kind_protected n -> row_ok r n.
Proof. intros [] Hc Hk. split; [done|]. by exists p. Qed.

Lemma plan_ok_insert r rows row p :
  plan_ok r rows -> fits r rows "" p -> nb_cidr row = PrefixString p -> nb_name row <> "" ->
  kind_protected row -> existsb (named_row (nb_name row)) rows = false ->
  plan_ok r (rows ++ [row]).
Proof.
  intros [Hnd Hne Hr Hd] Hf Hc Hn Hk Hfr.
  assert (Hfresh : forall n, n ∈ rows -> nb_name n <> nb_name row).
  { intros n Hin. rewrite existsb_elem_false in Hfr. specialize (Hfr n Hin).
    unfold named_row in Hfr. by bool_split. }
  assert (Hp : nb_Prefix row = p) by (apply nb_Prefix_canonical; [apply Hf|done]).
  assert (Hov : forall n, n ∈ rows -> Overlaps p (nb_Prefix n) = false).
  { intros n Hin. eapply row_overlaps_false; [apply Hf|done|by apply Hne|].
    eapply row_ok_valid. eauto. }
  split.
  - rewrite fmap_app. apply NoDup_app. split_and!; [done| |apply NoDup_singleton].
    intros x (n & Hx & Hin)%list_elem_of_fmap Hx'%list_elem_of_singleton.
    eapply Hfresh; [exact Hin|congruence].
  - intros n [?| ->%list_elem_of_singleton]%elem_of_app; auto.
  - intros n [?| ->%list_elem_of_singleton]%elem_of_app; [auto|]. by eapply fits_row_ok.
  - intros x y [?| ->%list_elem_of_singleton]%elem_of_app [?| ->%list_elem_of_singleton]%elem_of_app Hxy;
      rewrite ?Hp; auto; [|done]. rewrite overlaps_sym. auto.
Qed.

(** Give the row named [name] another block. *)
Definition with_block (name cidr : string) (desc : option string) (rows : list Netblock) : list Netblock :=
  map (fun n => if named_row name n then set_cidr cidr desc n else n) rows.

(** Rewriting the CIDR of one row keeps the plan when the new block fits. *)
Lemma plan_ok_resize r rows name p desc :
  plan_ok r rows -> fits r rows name p -> plan_ok r (with_block name (PrefixString p) desc rows).
Proof.
  intros [Hnd Hne Hr Hd] Hf. unfold with_block. set (f := fun n => if named_row name n then _ else n).
  assert (Hname : forall n, nb_name (f n) = nb_name n).
  { intros n. unfold f. by destruct (named_row name n). }
  assert (Hcas : forall n, f n = n \/
      (nb_Prefix (f n) = p /\ nb_name n = name /\ nb_cidr (f n) = PrefixString p /\
       (kind_protected n -> kind_protected (f n)))).
  { intros n. unfold f. destruct (named_row name n) eqn:E; [right|by left].
    unfold named_row in E. bool_split.
    split_and!; [|done|done|done]. apply nb_Prefix_canonical; [apply Hf|done]. }
  assert (Hov : forall n, n ∈ rows -> nb_name n <> name -> Overlaps p (nb_Prefix n) = false).
  { intros n Hin Hn. eapply row_overlaps_false; [apply Hf|done|done|].
    eapply row_ok_valid. eauto. }
  split.
  - replace (nb_name <$> map f rows) with (nb_name <$> rows); [done|].
    change (map f rows) with (f <$> rows). rewrite <- list_fmap_compose. apply list_fmap_ext.
    intros i n _. symmetry. apply Hname.
  - intros n (m & -> & Hm)%list_elem_of_fmap. rewrite Hname. auto.
  - intros n (m & -> & Hm)%list_elem_of_fmap. destruct (Hcas m) as [->|(_ & _ & Hc & Hk)]; [auto|].
    eapply fits_row_ok; [done|done|]. apply Hk, (Hr m Hm).
  - intros x y (x' & -> & Hx)%list_elem_of_fmap (y' & -> & Hy)%list_elem_of_fmap.
    rewrite !Hname. intros Hxy.
    destruct (Hcas x') as [->|(-> & Hxn & _)], (Hcas y') as [->|(-> & Hyn & _)];
      [auto| | |congruence].
    + rewrite overlaps_sym. apply Hov; congruence.
    + apply Hov; congruence.
Qed.

Lemma plan_ok_filter r rows f : plan_ok r rows -> plan_ok r (List.filter f rows).
Proof.
  intros [Hnd Hne Hr Hd].
  assert (Hin : forall n, n ∈ List.filter f rows -> n ∈ rows).
  { intros n Hn. apply list_elem_of_In in Hn. apply filter_In in Hn as [Hn _].
    by apply list_elem_of_In. }
  split; eauto.
  clear -Hnd. induction rows as [|n rows IH]; [constructor|]. cbn in *.
  apply NoDup_cons in Hnd as [Hn Hnd]. destruct (f n); [|auto]. cbn. apply NoDup_cons.
  split; [|auto]. intros (m & Hm & Hin)%list_elem_of_fmap. apply Hn. apply list_elem_of_fmap.
  exists m. split; [done|]. apply list_elem_of_In in Hin. apply filter_In in Hin as [Hin _].
  by apply list_elem_of_In.
Qed.

(** ** The programs alone, with faults *)

(** The verdict of [validateCIDR] on the table's rows. *)
Definition refuse_cidr (r : Registry) (rows : list Netblock) (cidr : Prefix) (ex : string)
    : option err :=
  if negb (IsValid cidr) || negb (Is4 (p_ip cidr)) then Some NB_BadCIDR
  else if negb (prefixInside (Masked cidr) (r_pool r)) then Some NB_OutOfPool
  else if existsb (Contains (Masked cidr)) (r_reserved r) then Some NB_Overlap
  else if existsb (row_overlaps (Masked cidr) ex) rows then Some NB_Overlap
  else None.

Lemma existsb_rev {A} (f : A -> bool) l : existsb f (rev l) = existsb f l.
Proof.
  apply eq_true_iff_eq. rewrite !existsb_elem.
  by setoid_rewrite list_elem_of_In; setoid_rewrite <- in_rev.
Qed.

Lemma refuse_cidr_fits r rows cidr ex :
  prefix_wf cidr -> refuse_cidr r rows cidr ex = None -> fits r rows ex (Masked cidr).
Proof.
  intros Hwf. unfold refuse_cidr. repeat case_match; try done. intros _. bool_split.
  assert (valid4 cidr) by (apply valid4_of_checks; done || apply Hwf).
  split; [by apply Masked_masked4|done| |done].
  intros a Ha. by eapply existsb_elem_false.
Qed.

Lemma wp_List T R G Q s :
  (forall s1, R s s1 -> Q (Err DbFault) s1 /\ Q (Ok (rev (netblocks s1))) s1) -> wpt T R G List Q s.
Proof. apply wp_query. Qed.

Lemma solo_validateCIDR r cidr ex Q s :
  Q (Err DbFault) s ->
  Q (match refuse_cidr r (netblocks s) cidr ex with None => Ok () | Some e => Err e end) s ->
  solo (validateCIDR r cidr ex) Q s.
Proof.
  intros Hf Hq. unfold validateCIDR, refuse_cidr in *.
  destruct (negb (IsValid cidr) || _); [by wp_step|].
  destruct (negb (prefixInside _ _)); [by wp_step|].
  destruct (existsb (Contains _) _); [by wp_step|].
  wp_step. apply wp_List. intros ? <-. split; [done|]. rewrite existsb_rev.
  destruct (existsb (row_overlaps _ _) _); by wp_step.
Qed.

Lemma solo_Get name Q s :
  Q (Err DbFault) s ->
  Q (match find_first (named_row name) (netblocks s) with
     | None => Err NB_NotFound | Some row => Ok row end) s ->
  solo (Get name) Q s.
Proof. intros Hf Hq. unfold Get. wp_step. wp_step; [done|]. destruct (find_first _ _); by wp_step. Qed.

(** The addresses the lister may report to the guards. *)
Lemma solo_checkNoStranded r old new Q s `{!ListerOK r} :
  Q (Err DbFault) s ->
  (forall t, Q (if match r_allocs r with
                   | None => false
                   | Some _ => existsb (strands old new) (live_at t (allocs s))
                   end then Err NB_Stranded else Ok ()) s) ->
  solo (checkNoStranded r old new) Q s.
Proof.
  intros Hf Hq. unfold checkNoStranded. pose proof (lister_ok (r:=r)) as Hl.
  destruct (r_allocs r) as [live|]; [|wp_step; by apply (Hq 0)].
  specialize (Hl _ eq_refl). wp_step. apply lister_spec. intros ? <-. split; [done|].
  intros t _. specialize (Hq t). destruct (existsb _ _); by wp_step.
Qed.

Lemma solo_invalidate Q s :
  Q (Ok ()) (set_cache None ((gen s + 1) mod 2 ^ 64) s) -> solo invalidate Q s.
Proof. intros H. unfold invalidate. wp_step. done. Qed.

Lemma solo_recordAudit r a b c d Q s :
  (forall l, Q (Ok ()) (mkStore (netblocks s) (nb_seq s) (devices s) (dev_seq s) (allocs s)
      (alloc_seq s) l (cache s) (gen s) (m_autogrow s) (m_exhausted s) (heartbeats s))) ->
  solo (recordAudit r a b c d) Q s.
Proof.
  intros H. unfold recordAudit. destruct (r_audit r).
  - wp_step. wp_step; [|split; [done|apply H]]. destruct s. apply (H audit_log).
  - wp_step. destruct s. apply (H audit_log).
Qed.

(** ** The abstract plan: three transitions *)

(** The live addresses the guards see: none when no lister is wired. *)
Definition live_of (r : Registry) (t : Z) (s : Store) : list Addr :=
  match r_allocs r with None => [] | Some _ => live_at t (allocs s) end.

Inductive plan_step (r : Registry) (live : list Addr) (rows : list Netblock) : list Netblock -> Prop :=
| ps_carve row p :
    fits r rows "" p -> nb_cidr row = PrefixString p -> nb_name row <> "" -> kind_protected row ->
    existsb (named_row (nb_name row)) rows = false ->
    plan_step r live rows (rows ++ [row])
| ps_resize row p desc :
    row ∈ rows -> nb_protected row = false -> fits r rows (nb_name row) p ->
    (forall a, a ∈ live -> Contains (nb_Prefix row) a = true -> Contains p a = true) ->
    plan_step r live rows (with_block (nb_name row) (PrefixString p) desc rows)
| ps_drop row :
    row ∈ rows -> nb_protected row = false ->
    (forall a, a ∈ live -> Contains (nb_Prefix row) a = false) ->
    plan_step r live rows (List.filter (fun n => negb (named_row (nb_name row) n)) rows).

Lemma plan_step_ok r live rows rows' : plan_step r live rows rows' -> plan_ok r rows -> plan_ok r rows'.
Proof.
  intros [row p Hf Hc Hn Hk Hfr|row p desc _ _ Hf _|row _ _ _] Hok.
  - by eapply plan_ok_insert.
  - by apply plan_ok_resize.
  - by apply plan_ok_filter.
Qed.

(** The block named [n] exists and contains [a]. *)
Definition covered (rows : list Netblock) (n : string) (a : Addr) : Prop :=
  exists row, row ∈ rows /\ nb_name row = n /\ Contains (nb_Prefix row) a = true.

Lemma plan_step_covered r live rows rows' n a :
  plan_ok r rows -> plan_step r live rows rows' -> a ∈ live -> covered rows n a -> covered rows' n a.
Proof.
  intros [Hnd _ Hr _] Hs Ha (x & Hx & <- & Hc).
  destruct Hs as [row p _ _ _ _ _|row p desc Hin _ Hf Hcov|row Hin _ Hcov].
  - exists x. split_and!; [|done|done]. apply elem_of_app. by left.
  - unfold with_block. destruct (named_row (nb_name row) x) eqn:E; unfold named_row in E; bool_split.
    + assert (x = row) as -> by (by eapply names_unique).
      exists (set_cidr (PrefixString p) desc row). split_and!; [|done|].
      * apply list_elem_of_fmap. exists row. split; [|done]. unfold named_row.
        by rewrite bool_decide_true.
      * rewrite (nb_Prefix_canonical _ p) by (apply Hf || done). by apply Hcov.
    + exists x. split_and!; [|done|done]. apply list_elem_of_fmap. exists x. split; [|done].
      unfold named_row. by rewrite bool_decide_false.
  - exists x. split_and!; [|done|done]. apply list_elem_of_In, filter_In.
    split; [by apply list_elem_of_In|]. apply negb_true_iff, bool_decide_eq_false.
    intros Hn. assert (x = row) as -> by (by eapply names_unique). by rewrite Hcov in Hc.
Qed.

Lemma plan_step_protected r live rows rows' n :
  plan_ok r rows -> plan_step r live rows rows' -> n ∈ rows -> nb_protected n = true -> n ∈ rows'.
Proof.
  intros [Hnd _ _ _] Hs Hn Hp.
  destruct Hs as [row p _ _ _ _ _|row p desc Hin Hun Hf Hcov|row Hin Hun Hcov].
  - apply elem_of_app. by left.
  - assert (nb_name n <> nb_name row).
    { intros E. assert (n = row) as -> by (by eapply names_unique). congruence. }
    apply list_elem_of_fmap. exists n. split; [|done]. unfold named_row. by rewrite bool_decide_false.
  - apply list_elem_of_In, filter_In. split; [by apply list_elem_of_In|].
    apply negb_true_iff, bool_decide_eq_false. intros E.
    assert (n = row) as -> by (by eapply names_unique). congruence.
Qed.

(** ** What each operation does, on every branch *)

(** The row a lookup by name returns. *)
Lemma find_named rows name row :
  find_first (named_row name) rows = Some row -> row ∈ rows /\ nb_name row = name.
Proof. intros [Hin Hn]%find_first_Some. unfold named_row in Hn. by bool_split. Qed.

(** The table after the conditional update of a row that still has the text that
    was read. *)
Lemma cas_resize r rows row new desc :
  plan_ok r rows -> row ∈ rows ->
  map (fun n => if cas_row (nb_name row) (PrefixString (nb_Prefix row)) n
                then set_cidr new desc n else n) rows = with_block (nb_name row) new desc rows /\
  (Z.of_nat (length (List.filter (cas_row (nb_name row) (PrefixString (nb_Prefix row))) rows)) =? 0)
    = false.
Proof.
  intros Hok Hin. pose proof (po_rows _ _ Hok row Hin) as Hrow.
  destruct (row_ok_prefix r row Hrow) as (_ & Hc & _).
  assert (Heq : forall n, n ∈ rows ->
    cas_row (nb_name row) (PrefixString (nb_Prefix row)) n = named_row (nb_name row) n).
  { intros n Hn. unfold cas_row, named_row. case_bool_decide as Hnm; [|done]. cbn.
    assert (n = row) as -> by (eapply names_unique; [apply Hok|done..]).
    by apply bool_decide_eq_true. }
  split.
  - unfold with_block. apply map_ext_in. intros n Hn%list_elem_of_In. by rewrite Heq.
  - destruct (List.filter _ rows) as [|x l] eqn:E; [|done].
    assert (In row []) as []. rewrite <- E. apply filter_In.
    split; [by apply list_elem_of_In|]. rewrite Heq by done. unfold named_row. by apply bool_decide_eq_true.
Qed.

Definition refuse_add (r : Registry) (rows : list Netblock) (name : string) (cidr : Prefix) : option err :=
  if decide (name = "") then Some NB_NoName
  else if decide (name = NameCentral \/ name = NameDefault) then Some NB_ReservedKind
  else match refuse_cidr r rows cidr "" with
       | Some e => Some e
       | None => if existsb (named_row name) rows then Some NB_Exists else None
       end.

(** The table with one more row, the cache dropped. *)
Definition inserted (row : Netblock) (s : Store) : Store :=
  set_cache None ((gen s + 1) mod 2 ^ 64)
    (set_nb_seq (nb_seq s + 1) (set_netblocks (netblocks s ++ [row]) s)).

Lemma Add_run r name cidr desc actor s :
  solo (Add r name cidr desc actor) (fun res s' =>
    (res = Err DbFault /\ s' = s) \/
    match refuse_add r (netblocks s) name cidr with
    | Some e => res = Err e /\ s' = s
    | None => exists t,
        let row := mkNetblock (nb_seq s) name (PrefixString (Masked cidr)) KindNamed desc false t actor in
        res = Ok row /\ s' = inserted row s
    end) s.
Proof.
  unfold Add, refuse_add.
  destruct (decide (name = "")); [wp_step; by right|].
  destruct (decide (name = NameCentral \/ name = NameDefault)); [wp_step; by right|].
  wp_step. apply solo_validateCIDR; [by left|].
  destruct (refuse_cidr _ _ _ _) as [e|]; [by right|].
  wp_step. wp_step. wp_step. wp_step. unfold create_netblock. wp_step; [wp_step; by left|].
  cbn [nb_name]. destruct (existsb (named_row name) _); [wp_step; by right|].
  split; [done|]. wp_step. apply solo_invalidate. wp_step. right. by exists t.
Qed.

Lemma Seed_run r name cidr kind desc actor s :
  solo (Seed r name cidr kind desc actor) (fun res s' =>
    s' = s /\ (forall row, res = Ok row -> row ∈ netblocks s /\ nb_name row = name) \/
    exists t l,
      let row := mkNetblock (nb_seq s) name (PrefixString (Masked cidr)) kind desc true t actor in
      name <> "" /\ (kind = KindReserved \/ kind = KindDefault) /\
      refuse_cidr r (netblocks s) cidr "" = None /\
      existsb (named_row name) (netblocks s) = false /\ res = Ok row /\
      netblocks s' = netblocks s ++ [row] /\ cache s' = None /\ allocs s' = allocs s /\
      audit_log s' = l) s.
Proof.
  unfold Seed. destruct (decide (name = "")); [wp_step; left; done|].
  destruct (decide (kind <> KindReserved /\ kind <> KindDefault)) as [|Hk]; [wp_step; by left|].
  assert (kind = KindReserved \/ kind = KindDefault) as Hk'.
  { destruct (decide (kind = KindReserved)); [by left|]. destruct (decide (kind = KindDefault)); [by right|].
    by destruct Hk. }
  wp_step. wp_step. apply solo_Get; [wp_step; by left|].
  destruct (find_first _ _) as [row|] eqn:Ef.
  { wp_step. left. split; [done|]. intros ? [= <-]. by apply find_named. }
  wp_step. apply solo_validateCIDR; [by left|].
  destruct (refuse_cidr _ _ _ _) as [e|] eqn:Er; [by left|].
  wp_step. wp_step. wp_step. wp_step. unfold create_netblock. wp_step; [wp_step; by left|].
  cbn [nb_name]. destruct (existsb (named_row name) _) eqn:Ex.
  { apply solo_Get; [by left|]. rewrite Ef. by left. }
  split; [done|]. wp_step. apply solo_invalidate. wp_step. apply solo_recordAudit. intros l. wp_step.
  right. exists t, l. split_and!; done.
Qed.

Definition refuse_update (r : Registry) (s : Store) (t : Z) (name : string) (cidr : Prefix) : option err :=
  match find_first (named_row name) (netblocks s) with
  | None => Some NB_NotFound
  | Some row =>
      if nb_protected row then Some NB_Protected
      else match refuse_cidr r (netblocks s) cidr name with
           | Some e => Some e
           | None => if existsb (strands (nb_Prefix row) (Masked cidr)) (live_of r t s)
                     then Some NB_Stranded else None
           end
  end.

Lemma live_of_strands r t s f :
  match r_allocs r with
  | None => false
  | Some _ => existsb f (live_at t (allocs s))
  end = existsb f (live_of r t s).
Proof. unfold live_of. by destruct (r_allocs r). Qed.

Lemma Update_run r name cidr desc actor s `{!ListerOK r} :
  plan_ok r (netblocks s) ->
  solo (Update r name cidr desc actor) (fun res s' =>
    (res = Err DbFault /\ s' = s) \/
    exists t,
    match refuse_update r s t name cidr with
    | Some e => res = Err e /\ s' = s
    | None => exists row, find_first (named_row name) (netblocks s) = Some row /\
        res = Ok (set_cidr (PrefixString (Masked cidr)) (Some desc) row) /\
        s' = set_cache None ((gen s + 1) mod 2 ^ 64)
               (set_netblocks (with_block name (PrefixString (Masked cidr)) (Some desc) (netblocks s)) s)
    end) s.
Proof.
  intros Hok. unfold Update, refuse_update.
  wp_step. apply solo_Get; [by left|]. destruct (find_first _ _) as [row|] eqn:Ef; [|right; by exists 0].
  destruct (nb_protected row) eqn:Ep; [wp_step; right; by exists 0|].
  wp_step. apply solo_validateCIDR; [by left|].
  destruct (refuse_cidr _ _ _ _) as [e|] eqn:Er; [right; by exists 0|].
  wp_step. apply solo_checkNoStranded; [done|by left|]. intros t. rewrite live_of_strands.
  destruct (existsb (strands _ _) _) eqn:Es; [right; exists t; by rewrite Es|].
  destruct (find_named _ _ _ Ef) as [Hin Hn].
  destruct (cas_resize r (netblocks s) row (PrefixString (Masked cidr)) (Some desc) Hok Hin) as [Hmap Hcnt].
  rewrite Hn in Hmap, Hcnt.
  wp_step. unfold cas_cidr. wp_step; [by left|]. split; [done|]. rewrite Hcnt, Hmap.
  wp_step. apply solo_invalidate. wp_step. right. exists t. rewrite Es. by exists row.
Qed.

Definition refuse_remove (r : Registry) (s : Store) (t : Z) (name : string) : option err :=
  match find_first (named_row name) (netblocks s) with
  | None => Some NB_NotFound
  | Some row =>
      if nb_protected row then Some NB_Protected
      else if existsb (strands (nb_Prefix row) PrefixZero) (live_of r t s)
      then Some NB_Stranded else None
  end.

Lemma Remove_run r name actor s `{!ListerOK r} :
  solo (Remove r name actor) (fun res s' =>
    (res = Err DbFault /\ s' = s) \/
    exists t,
    match refuse_remove r s t name with
    | Some e => res = Err e /\ s' = s
    | None => res = Ok () /\
        s' = set_cache None ((gen s + 1) mod 2 ^ 64)
               (set_netblocks (List.filter (fun n => negb (named_row name n)) (netblocks s)) s)
    end) s.
Proof.
  unfold Remove, refuse_remove.
  wp_step. apply solo_Get; [by left|]. destruct (find_first _ _) as [row|] eqn:Ef; [|right; by exists 0].
  destruct (nb_protected row) eqn:Ep; [wp_step; right; by exists 0|].
  wp_step. apply solo_checkNoStranded; [done|by left|]. intros t. rewrite live_of_strands.
  destruct (existsb (strands _ _) _) eqn:Es; [right; exists t; by rewrite Es|].
  wp_step. wp_step; [by left|]. split; [done|]. apply solo_invalidate. right. exists t. by rewrite Es.
Qed.

Lemma solo_rangeFree r rng ex Q s `{!ListerOK r} :
  Q (Err DbFault) s ->
  (forall t, Q (Ok (negb (existsb (Contains rng) (r_reserved r)) &&
                    negb (existsb (row_overlaps rng ex) (netblocks s)) &&
                    negb (existsb (Contains rng) (live_of r t s)))) s) ->
  solo (rangeFree r rng ex) Q s.
Proof.
  intros Hf Hq. unfold rangeFree. pose proof (lister_ok (r:=r)) as Hl.
  destruct (existsb (Contains rng) (r_reserved r)); [wp_step; apply (Hq 0)|].
  wp_step. apply wp_List. intros ? <-. split; [done|]. rewrite existsb_rev.
  destruct (existsb (row_overlaps rng ex) _); [wp_step; apply (Hq 0)|].
  unfold live_of in Hq. destruct (r_allocs r) as [live|]; [|wp_step; apply (Hq 0)].
  specialize (Hl _ eq_refl). wp_step. apply lister_spec. intros ? <-. split; [done|].
  intros t _. wp_step. apply Hq.
Qed.

(** Whether, and into what, the block of [row] can double in place. *)
Definition grow_target (r : Registry) (cur : Prefix) : option Prefix :=
  if p_bits cur <=? 0 then None
  else
    let next := Masked (PrefixFrom (p_ip cur) (p_bits cur - 1)) in
    if decide (p_ip next <> p_ip cur) then None
    else if (p_bits next <? p_bits (r_pool r)) || negb (prefixInside next (r_pool r)) then None
    else Some next.

Definition refuse_grow (r : Registry) (s : Store) (t : Z) (name : string) : result err Prefix :=
  match find_first (named_row name) (netblocks s) with
  | None => Err NB_NotFound
  | Some row =>
      if decide (nb_kind row <> KindNamed) then Err NB_GrowKind
      else match grow_target r (nb_Prefix row) with
           | None => Err NB_PoolFull
           | Some next =>
               let buddy := buddyOf (nb_Prefix row) in
               if negb (existsb (Contains buddy) (r_reserved r)) &&
                  negb (existsb (row_overlaps buddy name) (netblocks s)) &&
                  negb (existsb (Contains buddy) (live_of r t s))
               then Ok next else Err NB_PoolFull
           end
  end.

Lemma Grow_run r name actor s `{!ListerOK r} :
  plan_ok r (netblocks s) ->
  solo (Grow r name actor) (fun res s' =>
    (res = Err DbFault /\ s' = s) \/
    exists t, res = refuse_grow r s t name /\
    match res with
    | Err _ => s' = s
    | Ok next =>
        netblocks s' = with_block name (PrefixString next) None (netblocks s) /\
        cache s' = None /\ allocs s' = allocs s
    end) s.
Proof.
  intros Hok. unfold Grow, refuse_grow.
  wp_step. apply solo_Get; [by left|]. destruct (find_first _ _) as [row|] eqn:Ef; [|right; by exists 0].
  destruct (decide (nb_kind row <> KindNamed)); [wp_step; right; by exists 0|].
  unfold grow_target.
  destruct (p_bits (nb_Prefix row) <=? 0); [wp_step; right; by exists 0|].
  set (next := Masked (PrefixFrom _ _)).
  destruct (decide (p_ip next <> p_ip (nb_Prefix row))); [wp_step; right; by exists 0|].
  destruct ((p_bits next <? _) || _); [wp_step; right; by exists 0|].
  wp_step. apply solo_rangeFree; [done|by left|]. intros t. cbv beta iota.
  destruct (negb (existsb (Contains _) (r_reserved r)) && _ && _) eqn:Efree; cbn [negb].
  2:{ wp_step. right. exists t. by rewrite Efree. }
  destruct (find_named _ _ _ Ef) as [Hin Hn].
  destruct (cas_resize r (netblocks s) row (PrefixString next) None Hok Hin) as [Hmap Hcnt].
  rewrite Hn in Hmap, Hcnt.
  wp_step. unfold cas_cidr. wp_step; [by left|]. split; [done|]. rewrite Hcnt, Hmap.
  wp_step. apply solo_invalidate. wp_step. apply solo_recordAudit. intros l. wp_step.
  right. exists t. by rewrite Efree.
Qed.

(** The doubled block: the old one and its buddy, and nothing else. *)
Lemma grow_target_halves r cur next :
  masked4 cur -> grow_target r cur = Some next ->
  masked4 next /\ p_bits next = p_bits cur - 1 /\ prefixInside next (r_pool r) = true /\
  forall a, Contains next a = Contains cur a || Contains (buddyOf cur) a.
Proof.
  intros (v & b & -> & Hv & Hb & Hm). unfold grow_target. cbn [p_bits p_ip].
  destruct (b <=? 0) eqn:Eb; [done|]. bool_split.
  rewrite PrefixFrom4, Masked4_eq by (done || lia). cbn [p_ip p_bits].
  destruct (decide _) as [|Hip]; [done|]. destruct (_ || _) eqn:E; [done|]. intros [= <-].
  bool_split.
  assert (Hm' : v mod 2 ^ (32 - (b - 1)) = 0).
  { destruct (decide (Addr4 (v - v mod 2 ^ (32 - (b - 1))) = Addr4 v)) as [[= Heq]|]; [lia|done]. }
  rewrite Hm', Z.sub_0_r in *. split_and!; try done.
  - exists v, (b - 1). split_and!; done || lia.
  - intros a. apply grown_halves; done || lia.
Qed.

Lemma buddy_valid r cur next : masked4 cur -> grow_target r cur = Some next -> valid4 (buddyOf cur).
Proof.
  intros (v & b & -> & Hv & Hb & Hm) Ht. unfold grow_target in Ht. cbn [p_bits p_ip] in Ht.
  destruct (b <=? 0) eqn:Eb; [done|]. bool_split.
  rewrite PrefixFrom4, Masked4_eq in Ht by (done || lia). cbn [p_ip p_bits] in Ht.
  destruct (decide _) as [|Hip]; [done|].
  assert (Hm' : v mod 2 ^ (32 - (b - 1)) = 0).
  { destruct (decide (Addr4 (v - v mod 2 ^ (32 - (b - 1))) = Addr4 v)) as [[= Heq]|]; [lia|done]. }
  destruct (buddyOf_lower v b) as (-> & Hok & _); [lia|done|done|]. exists (v + 2 ^ (32 - b)), b.
  split_and!; done || lia.
Qed.

(** A block split in two overlaps what one of its halves overlaps. *)
Lemma halves_disjoint r rows row next :
  plan_ok r rows -> row ∈ rows -> grow_target r (nb_Prefix row) = Some next ->
  existsb (Contains (buddyOf (nb_Prefix row))) (r_reserved r) = false ->
  existsb (row_overlaps (buddyOf (nb_Prefix row)) (nb_name row)) rows = false ->
  fits r rows (nb_name row) next.
Proof.
  intros Hok Hin Ht Hres Hov. pose proof (po_rows _ _ Hok row Hin) as Hrow.
  destruct (row_ok_prefix r row Hrow) as (Hm & _ & _ & Hr).
  destruct (grow_target_halves r _ next Hm Ht) as (Hnm & _ & Hpool & Hh).
  pose proof (buddy_valid r _ next Hm Ht) as Hbv.
  split; [done|done| |].
  - intros a Ha. rewrite Hh, Hr by done. rewrite existsb_elem_false in Hres. by rewrite Hres.
  - apply existsb_elem_false. intros y Hy. unfold row_overlaps. case_decide as Hne; [done|]. cbn.
    pose proof (row_ok_prefix r y (po_rows _ _ Hok y Hy)) as (Hym & _ & _ & _).
    rewrite valid4_IsValid by by apply masked4_valid4. cbn [andb].
    apply not_true_iff_false. rewrite overlaps4_spec by by apply masked4_valid4.
    intros (a & Ha & H1 & H2). rewrite Hh in H1. apply orb_true_iff in H1 as [H1|H1].
    + assert (Overlaps (nb_Prefix row) (nb_Prefix y) = true) as E.
      { apply overlaps4_spec; [by apply masked4_valid4..|]. eauto. }
      rewrite (po_disjoint _ _ Hok) in E by done. done.
    + assert (Overlaps (buddyOf (nb_Prefix row)) (nb_Prefix y) = true) as E.
      { apply overlaps4_spec; [done|by apply masked4_valid4|]. eauto. }
      rewrite (row_overlaps_false _ _ _ Hov y) in E; [done|done|done|].
      apply valid4_IsValid. by apply masked4_valid4.
Qed.

(** ** The operations of the registry *)

Inductive netop : Type :=
| OpAdd (name : string) (cidr : Prefix) (description actor : string)
| OpSeed (name : string) (cidr : Prefix) (kind description actor : string)
| OpUpdate (name : string) (cidr : Prefix) (description actor : string)
| OpRemove (name actor : string)
| OpGrow (name actor : string)
| OpResolve (name : string)
| OpResolveFull (name : string)
| OpNetblockCIDRs
| OpCarves
| OpSuggest (reqPrefixLen : Z).

Definition discard {A} (m : M Store err A) : M Store err unit := _ ← m; mret ().

Definition exec_netop (r : Registry) (o : netop) : M Store err unit :=
  match o with
  | OpAdd n c d a => discard (Add r n c d a)
  | OpSeed n c k d a => discard (Seed r n c k d a)
  | OpUpdate n c d a => discard (Update r n c d a)
  | OpRemove n a => Remove r n a
  | OpGrow n a => discard (Grow r n a)
  | OpResolve n => discard (Resolve n)
  | OpResolveFull n => discard (ResolveFull n)
  | OpNetblockCIDRs => discard NetblockCIDRs
  | OpCarves => discard Carves
  | OpSuggest p => discard (RegistrySuggest r p)
  end.

(** The prefixes the callers pass are values of [netip]. *)
Definition netop_wf (o : netop) : Prop :=
  match o with
  | OpAdd _ c _ _ | OpSeed _ c _ _ _ | OpUpdate _ c _ _ => prefix_wf c
  | _ => True
  end.

(** The cache, when there is one, is the parsed table. *)
Definition cache_ok (s : Store) : Prop :=
  forall c, cache s = Some c -> c = build_cache (rev (netblocks s)).

Lemma solo_snapshot Q s :
  cache_ok s ->
  (forall r s', (r = Err DbFault \/ r = Ok (build_cache (rev (netblocks s)))) ->
     s' = s \/ s' = set_cache (Some (build_cache (rev (netblocks s)))) (gen s) s -> Q r s') ->
  solo snapshot Q s.
Proof.
  intros Hc HQ. unfold snapshot. wp_step. wp_step. split; [done|].
  destruct (cache s) as [c|] eqn:Ec.
  { wp_step. apply HQ; [right; f_equal; by apply Hc|by left]. }
  wp_step. apply wp_List. intros ? <-. split; [apply HQ; by left|].
  wp_step. wp_step. rewrite Z.eqb_refl. split; [done|]. wp_step. apply HQ; by right.
Qed.

(** One step of the plan, or nothing; errors write nothing. *)
Definition refines (r : Registry) (s : Store) {A} (res : result err A) (s' : Store) : Prop :=
  allocs s' = allocs s /\ cache_ok s' /\
  (netblocks s' = netblocks s \/
   is_ok res = true /\ exists t, plan_step r (live_of r t s) (netblocks s) (netblocks s')).

Lemma wp_discard {A} T R G (m : M Store err A) Q s :
  wpt T R G m (fun r s' => Q (match r with Ok _ => Ok () | Err e => Err e end) s') s ->
  wpt T R G (discard m) Q s.
Proof.
  intros H. unfold discard. wp_step. eapply wp_mono; [exact H|]. intros [a|e] s' _ Hq; [by wp_step|done].
Qed.

Lemma refines_same {A} r s (res : result err A) : cache_ok s -> refines r s res s.
Proof. intros H. split_and!; [done|done|by left]. Qed.

Lemma refines_discard {A} r s (res : result err A) s' :
  refines r s res s' -> refines r s (match res with Ok _ => Ok () | Err e => Err e end) s'.
Proof. intros (? & ? & ?). destruct res; done. Qed.

(** The snapshot readers: whatever they return, they only fill the cache. *)
Lemma solo_reader {A} r (k : resolverCache -> M Store err A) s :
  cache_ok s -> (forall c s', cache_ok s' -> solo (k c) (fun _ s'' => s'' = s') s') ->
  solo (snapshot ≫= k) (fun res s' => refines r s res s') s.
Proof.
  intros Hc Hk. wp_step. apply solo_snapshot; [done|]. intros res s' _ Hs'.
  assert (refines r s (A:=A) (Err DbFault) s') as (Hal & Hco & Hnb).
  { destruct Hs' as [->| ->]; [by apply refines_same|]. split_and!; [done| |by left].
    intros c [= <-]. done. }
  destruct res as [c|e].
  - eapply wp_mono; [by apply Hk|]. intros res s'' _ ->. split_and!; [done|done|].
    destruct Hnb as [?|[? _]]; [by left|done].
  - split_and!; [done|done|]. destruct Hnb as [?|[? _]]; [by left|done].
Qed.

Lemma strands_none old new live :
  existsb (strands old new) live = false -> IsValid old = true ->
  forall a, a ∈ live -> Contains old a = true -> IsValid new = true /\ Contains new a = true.
Proof.
  intros H Hv a Ha Hc. rewrite existsb_elem_false in H. specialize (H a Ha). unfold strands in H.
  rewrite Hv, Hc in H. cbn in H. bool_split. done.
Qed.

Lemma cache_ok_dropped s : cache s = None -> cache_ok s.
Proof. intros H c. by rewrite H. Qed.

Lemma Add_refines r name cidr desc actor s :
  prefix_wf cidr -> cache_ok s -> solo (Add r name cidr desc actor) (refines r s) s.
Proof.
  intros Hwf Hco. eapply wp_mono; [apply Add_run|]. cbn. intros res s' _ [[-> ->]|H]; [by apply refines_same|].
  destruct (refuse_add _ _ _ _) as [e|] eqn:E; [destruct H as [-> ->]; by apply refines_same|].
  destruct H as (t & -> & ->). unfold refuse_add in E.
  destruct (decide (name = "")); [done|]. destruct (decide (_ \/ _)); [done|].
  destruct (refuse_cidr _ _ _ _) eqn:Er; [done|]. destruct (existsb _ _) eqn:Ex; [done|].
  split_and!; [done|by apply cache_ok_dropped|]. right. split; [done|]. exists 0.
  eapply ps_carve; [by apply refuse_cidr_fits|done..].
Qed.

Lemma Seed_refines r name cidr kind desc actor s :
  prefix_wf cidr -> cache_ok s -> solo (Seed r name cidr kind desc actor) (refines r s) s.
Proof.
  intros Hwf Hco. eapply wp_mono; [apply Seed_run|]. cbn.
  intros res s' _ [[-> _]|(t & l & Hn & Hk & Her & Hex & -> & Hnb & Hca & Hal & _)]; [by apply refines_same|].
  split_and!; [done|by apply cache_ok_dropped|]. right. split; [done|]. exists 0. rewrite Hnb.
  eapply ps_carve; [by apply refuse_cidr_fits|done|done| |done]. by destruct Hk as [->| ->].
Qed.

Lemma Update_refines r name cidr desc actor s `{!ListerOK r} :
  prefix_wf cidr -> plan_ok r (netblocks s) -> cache_ok s ->
  solo (Update r name cidr desc actor) (refines r s) s.
Proof.
  intros Hwf Hok Hco. eapply wp_mono; [by apply Update_run|]. cbn.
  intros res s' _ [[-> ->]|(t & H)]; [by apply refines_same|].
  destruct (refuse_update _ _ _ _ _) as [e|] eqn:E; [destruct H as [-> ->]; by apply refines_same|].
  destruct H as (row & Hf & -> & ->). unfold refuse_update in E. rewrite Hf in E.
  destruct (nb_protected row) eqn:Ep; [done|]. destruct (refuse_cidr _ _ _ _) eqn:Er; [done|].
  destruct (existsb _ _) eqn:Ex; [done|]. destruct (find_named _ _ _ Hf) as [Hin <-].
  split_and!; [done|by apply cache_ok_dropped|]. right. split; [done|]. exists t.
  apply ps_resize; [done|done|by apply refuse_cidr_fits|]. intros a Ha Hc.
  eapply strands_none; [done| |done|done]. eapply row_ok_valid, Hok, Hin.
Qed.

Lemma Remove_refines r name actor s `{!ListerOK r} :
  plan_ok r (netblocks s) -> cache_ok s -> solo (Remove r name actor) (refines r s) s.
Proof.
  intros Hok Hco. eapply wp_mono; [by apply Remove_run|]. cbn.
  intros res s' _ [[-> ->]|(t & H)]; [by apply refines_same|].
  destruct (refuse_remove _ _ _ _) as [e|] eqn:E; [destruct H as [-> ->]; by apply refines_same|].
  destruct H as [-> ->]. unfold refuse_remove in E.
  destruct (find_first _ _) as [row|] eqn:Hf; [|done]. destruct (nb_protected row) eqn:Ep; [done|].
  destruct (existsb _ _) eqn:Ex; [done|]. destruct (find_named _ _ _ Hf) as [Hin <-].
  split_and!; [done|by apply cache_ok_dropped|]. right. split; [done|]. exists t.
  apply ps_drop; [done|done|]. intros a Ha. apply not_true_iff_false. intros Hc.
  eapply strands_none in Ex as [? _]; [done| |done|done]. eapply row_ok_valid, Hok, Hin.
Qed.

Lemma Grow_refines r name actor s `{!ListerOK r} :
  plan_ok r (netblocks s) -> cache_ok s -> solo (Grow r name actor) (refines r s) s.
Proof.
  intros Hok Hco. eapply wp_mono; [by apply Grow_run|]. cbn.
  intros res s' _ [[-> ->]|(t & Hres & H)]; [by apply refines_same|].
  destruct res as [next|e]; [|subst; by apply refines_same].
  destruct H as (Hnb & Hca & Hal). unfold refuse_grow in Hres.
  destruct (find_first _ _) as [row|] eqn:Hf; [|done].
  destruct (decide _) as [|Hk]; [done|]. destruct (grow_target _ _) as [n|] eqn:Et; [|done].
  destruct (_ && _) eqn:Ef; [|done]. injection Hres as <-. bool_split.
  destruct (find_named _ _ _ Hf) as [Hin <-].
  pose proof (po_rows _ _ Hok row Hin) as Hrow. destruct (row_ok_prefix r row Hrow) as (Hm & _).
  split_and!; [done|by apply cache_ok_dropped|]. right. split; [done|]. exists t. rewrite Hnb.
  apply ps_resize; [done| |by apply halves_disjoint|].
  - destruct Hrow as [-> _]. destruct (decide (nb_kind row = KindNamed)) as [->|]; done.
  - intros a _ Hc. destruct (grow_target_halves r _ next Hm Et) as (_ & _ & _ & ->). by rewrite Hc.
Qed.

Ltac reader := apply solo_reader; [done|]; intros ? ? ?; repeat wp_step; done.

Lemma exec_netop_refines r o s `{!ListerOK r} :
  netop_wf o -> plan_ok r (netblocks s) -> cache_ok s -> solo (exec_netop r o) (refines r s) s.
Proof.
  intros Hwf Hok Hco.
  destruct o; cbn [exec_netop netop_wf] in *; try apply wp_discard;
    try (eapply wp_mono; [|intros ? ? _; apply refines_discard]).
  - by apply Add_refines.
  - by apply Seed_refines.
  - by apply Update_refines.
  - by apply Remove_refines.
  - by apply Grow_refines.
  - reader.
  - reader.
  - reader.
  - reader.
  - apply wp_bind_assoc. reader.
Qed.

(** ** Reachable tables *)

(** One operation of the registry, run alone with any faults, or a write of
    another component that leaves the netblocks and the cache alone. *)
Inductive sys_step (r : Registry) (s : Store) : Store -> Prop :=
| ss_op o env n res n' s' :
    netop_wf o -> respects eq env -> exec_netop r o env n s = (res, n', s') -> sys_step r s s'
| ss_other s' : netblocks s' = netblocks s -> cache s' = cache s -> sys_step r s s'.

Definition plan_inv (r : Registry) (s : Store) : Prop := plan_ok r (netblocks s) /\ cache_ok s.

Lemma solo_elim {A} (m : M Store err A) Q s env n res n' s' :
  solo m Q s -> respects eq env -> m env n s = (res, n', s') -> Q res s'.
Proof. intros H HR E. specialize (H env n HR (fun _ => I)). rewrite E in H. apply H. Qed.

Lemma refines_inv {A} r s (res : result err A) s' :
  plan_ok r (netblocks s) -> refines r s res s' -> plan_inv r s'.
Proof.
  intros Hok (_ & Hco & Hnb). split; [|done].
  destruct Hnb as [->|(_ & t & Hs)]; [done|]. by eapply plan_step_ok.
Qed.

Lemma sys_step_inv r s s' `{!ListerOK r} : sys_step r s s' -> plan_inv r s -> plan_inv r s'.
Proof.
  intros [o env n res n' s1 Hwf HR E|s1 Hn Hc] [Hok Hco].
  - eapply refines_inv; [exact Hok|]. eapply solo_elim; [|exact HR|exact E].
    by apply exec_netop_refines.
  - unfold plan_inv, cache_ok. by rewrite Hn, Hc.
Qed.

Lemma plan_inv_empty r : plan_inv r empty_store.
Proof.
  split; [|done]. split; [by apply NoDup_nil| | |].
  - intros n Hn. by apply elem_of_nil in Hn.
  - intros n Hn. by apply elem_of_nil in Hn.
  - intros x y Hx. by apply elem_of_nil in Hx.
Qed.

Lemma sys_step_run r o t s : netop_wf o -> sys_step r s (run t (exec_netop r o) s).2.
Proof.
  intros H. unfold run. destruct (exec_netop r o (quiet t) 0%nat s) as [[res n] s'] eqn:E.
  eapply ss_op; [done| |exact E]. intros ? ?. done.
Qed.

(** An address somebody holds: a row in state allocated. *)
Definition held (s : Store) (a : Addr) : Prop :=
  exists al, al ∈ allocs s /\ al_state al = "allocated" /\ ParseAddr (al_ip al) = Some a.

Lemma held_live r t s a live : r_allocs r = Some live -> held s a -> a ∈ live_of r t s.
Proof.
  intros Hl (al & Hin & Hst & Hp). unfold live_of, live_at. rewrite Hl.
  apply list_elem_of_omap. exists (al_ip al). split; [|done].
  apply list_elem_of_fmap. exists al. split; [done|].
  apply list_elem_of_In, filter_In. split; [by apply list_elem_of_In|].
  unfold live_row. by rewrite bool_decide_true.
Qed.

(** ** Properties *)

(** From a plan, every operation is at most one transition of the abstract
    plan (carve a fitting block, move an unprotected block without stranding a
    live address, drop an unprotected block that holds none); a failed operation
    leaves the table as it was, and no operation touches the allocations. *)
Theorem registry_refines_plan r o s `{!ListerOK r} :
  netop_wf o -> plan_ok r (netblocks s) -> cache_ok s ->
  solo (exec_netop r o) (fun res s' =>
    allocs s' = allocs s /\ cache_ok s' /\
    (netblocks s' = netblocks s \/
     is_ok res = true /\ exists t, plan_step r (live_of r t s) (netblocks s) (netblocks s'))) s.
Proof. apply exec_netop_refines. done. Qed.

(** No operation of the registry strands an address: an allocated address
    inside the block named [n] is still inside the block named [n] afterwards,
    whatever operation ran and whatever it returned. *)
Theorem registry_never_strands r o s n a live `{!ListerOK r} :
  r_allocs r = Some live -> netop_wf o -> plan_ok r (netblocks s) -> cache_ok s ->
  held s a -> covered (netblocks s) n a ->
  solo (exec_netop r o) (fun _ s' => held s' a /\ covered (netblocks s') n a) s.
Proof.
  intros Hl Hwf Hok Hco Hh Hcov. eapply wp_mono; [by apply exec_netop_refines|].
  intros res s' _ (Hal & _ & Hnb). split; [unfold held; by rewrite Hal|].
  destruct Hnb as [->|(_ & t & Hs)]; [done|]. 
  eapply plan_step_covered; [exact Hok|exact Hs|by eapply held_live|done].
Qed.

(** A protected block (central, default) survives every operation with its
    range, description and kind unchanged. *)
Theorem protected_blocks_persist r o s n `{!ListerOK r} :
  netop_wf o -> plan_ok r (netblocks s) -> cache_ok s -> n ∈ netblocks s -> nb_protected n = true ->
  solo (exec_netop r o) (fun _ s' => n ∈ netblocks s') s.
Proof.
  intros Hwf Hok Hco Hn Hp. eapply wp_mono; [by apply exec_netop_refines|].
  intros res s' _ (_ & _ & [->|(_ & t & Hs)]); [done|]. by eapply plan_step_protected.
Qed.

(** [Add] on every branch. Without a database fault it refuses exactly on an
    empty or reserved name, a prefix that is not valid IPv4, one outside the pool,
    one that covers a reservation or overlaps a row, or a name in use, in that
    order, and writes nothing; otherwise it appends the row with the canonical
    CIDR and the next id and drops the cache. *)
Theorem add_every_branch r name cidr desc actor s :
  solo (Add r name cidr desc actor) (fun res s' =>
    (res = Err DbFault /\ s' = s) \/
    match refuse_add r (netblocks s) name cidr with
    | Some e => res = Err e /\ s' = s
    | None => exists t,
        let row := mkNetblock (nb_seq s) name (PrefixString (Masked cidr)) KindNamed desc false t actor in
        res = Ok row /\ s' = inserted row s
    end) s.
Proof. apply Add_run. Qed.

(** [Grow] doubles a carved block in place: the new block has one bit less
    and the same address, contains exactly the old block and its buddy, holds no
    reservation, no other block and (with a lister) no live address in the new
    half; only the row of that name changes. *)
Theorem grow_doubles r name actor s `{!ListerOK r} :
  plan_ok r (netblocks s) ->
  solo (Grow r name actor) (fun res s' =>
    match res with
    | Err _ => s' = s
    | Ok next => exists row t,
        row ∈ netblocks s /\ nb_name row = name /\ nb_kind row = KindNamed /\
        p_ip next = p_ip (nb_Prefix row) /\ p_bits next = p_bits (nb_Prefix row) - 1 /\
        (forall a, Contains next a = Contains (nb_Prefix row) a || Contains (buddyOf (nb_Prefix row)) a) /\
        fits r (netblocks s) name next /\
        (forall a, a ∈ live_of r t s -> Contains (buddyOf (nb_Prefix row)) a = false) /\
        netblocks s' = with_block name (PrefixString next) None (netblocks s) /\ cache s' = None
    end) s.
Proof.
  intros Hok. eapply wp_mono; [by apply Grow_run|]. cbn.
  intros res s' _ [[-> ->]|(t & Hres & H)]; [done|]. destruct res as [next|e]; [|done].
  destruct H as (Hnb & Hca & _). unfold refuse_grow in Hres.
  destruct (find_first _ _) as [row|] eqn:Hf; [|done].
  destruct (decide _) as [|Hk]; [done|]. destruct (grow_target _ _) as [n|] eqn:Et; [|done].
  destruct (_ && _) eqn:Ef; [|done]. injection Hres as <-. bool_split.
  destruct (find_named _ _ _ Hf) as [Hin <-].
  destruct (row_ok_prefix r row (po_rows _ _ Hok row Hin)) as (Hm & _).
  destruct (grow_target_halves r _ next Hm Et) as (Hm' & Hb & _ & Hh).
  exists row, t. split_and!; try done.
  - by apply dec_stable.
  - unfold grow_target in Et. destruct (_ <=? 0); [done|]. destruct (decide _) as [|Hip]; [done|].
    destruct (_ || _); [done|]. injection Et as <-. by apply dec_stable.
  - by apply halves_disjoint.
  - intros a Ha. by eapply existsb_elem_false.
Qed.

(** ** Resolution reads the table *)

Lemma build_cache_snoc l row : build_cache (l ++ [row]) = add_row (build_cache l) row.
Proof. unfold build_cache. by rewrite fold_left_app. Qed.

(** The cache of a table with distinct names and valid ranges. *)
Lemma build_cache_lookup l n :
  NoDup (nb_name <$> l) -> (forall row, row ∈ l -> IsValid (nb_Prefix row) = true) ->
  c_rows (build_cache l) !! n = find_first (named_row n) l /\
  c_byName (build_cache l) !! n = nb_Prefix <$> find_first (named_row n) l /\
  c_all (build_cache l) = nb_Prefix <$> l.
Proof.
  induction l as [|row l IH] using rev_ind; intros Hnd Hv.
  { cbn. rewrite !lookup_empty. done. }
  rewrite fmap_app in Hnd. apply NoDup_app in Hnd as (Hnd & Hfr & _).
  destruct IH as (IHr & IHn & IHa); [done|intros x Hx; apply Hv, elem_of_app; by left|].
  assert (Hff : find_first (named_row n) (l ++ [row]) =
    match find_first (named_row n) l with Some x => Some x | None => if named_row n row then Some row else None end).
  { clear. induction l as [|x l IH]; cbn; [done|]. by destruct (named_row n x). }
  rewrite build_cache_snoc, Hff. unfold add_row.
  rewrite Hv by (apply elem_of_app; right; by apply list_elem_of_singleton). cbn [negb c_rows c_byName c_all].
  rewrite IHa, fmap_app. split_and!; [| |done].
  - destruct (decide (nb_name row = n)) as [<-|Hne].
    + rewrite lookup_insert_eq. destruct (find_first _ l) as [x|] eqn:Ef.
      * apply find_named in Ef as [Hx Hn]. destruct (Hfr (nb_name row)); [|by apply list_elem_of_singleton].
        apply list_elem_of_fmap. eauto.
      * unfold named_row. by rewrite bool_decide_true.
    + rewrite lookup_insert_ne by done. rewrite IHr. unfold named_row at 3.
      rewrite bool_decide_false by done. by destruct (find_first _ l).
  - destruct (decide (nb_name row = n)) as [<-|Hne].
    + rewrite lookup_insert_eq. destruct (find_first _ l) as [x|] eqn:Ef.
      * apply find_named in Ef as [Hx Hn]. destruct (Hfr (nb_name row)); [|by apply list_elem_of_singleton].
        apply list_elem_of_fmap. eauto.
      * unfold named_row. by rewrite bool_decide_true.
    + rewrite lookup_insert_ne by done. rewrite IHn. unfold named_row at 3.
      rewrite bool_decide_false by done. by destruct (find_first _ l).
Qed.

(** With distinct names the first row of a name is the only one, in any order. *)
Lemma find_first_rev rows n :
  NoDup (nb_name <$> rows) -> find_first (named_row n) (rev rows) = find_first (named_row n) rows.
Proof.
  intros Hnd. destruct (find_first (named_row n) rows) as [x|] eqn:E.
  - apply find_named in E as [Hx Hn].
    destruct (find_first (named_row n) (rev rows)) as [y|] eqn:E2.
    + apply find_named in E2 as [Hy Hyn]. f_equal. eapply names_unique; [done| |done|congruence].
      apply list_elem_of_In, in_rev. by apply list_elem_of_In.
    + rewrite find_first_None in E2. specialize (E2 x). unfold named_row in E2.
      rewrite bool_decide_true in E2 by done.
      discriminate E2. apply list_elem_of_In. rewrite <- in_rev. by apply list_elem_of_In.
  - apply find_first_None. intros y Hy. rewrite find_first_None in E. apply E.
    apply list_elem_of_In, in_rev. by apply list_elem_of_In.
Qed.

Lemma plan_cache r rows n : plan_ok r rows ->
  c_rows (build_cache (rev rows)) !! n = find_first (named_row n) rows /\
  c_byName (build_cache (rev rows)) !! n = nb_Prefix <$> find_first (named_row n) rows /\
  c_all (build_cache (rev rows)) = nb_Prefix <$> rev rows.
Proof.
  intros Hok. rewrite <- (find_first_rev rows n) by apply Hok. apply build_cache_lookup.
  - change (NoDup (map nb_name (rev rows))). rewrite map_rev. apply NoDup_ListNoDup, NoDup_rev, NoDup_ListNoDup, Hok.
  - intros row Hr. eapply row_ok_valid, Hok, list_elem_of_In, in_rev. by apply list_elem_of_In.
Qed.

(** Name resolution on the table: the row of that name (an empty name is the
    default block), else the default block. *)
Definition resolve_row (rows : list Netblock) (name : string) : option Netblock :=
  let name := if decide (name = "") then NameDefault else name in
  match find_first (named_row name) rows with
  | Some row => Some row
  | None => find_first (named_row NameDefault) rows
  end.

(** Resolution is truthful and falls back: [ResolveFull] and [Resolve]
    return the row of that name as the table has it (never a stale cache entry),
    an empty, unknown or deleted name resolves to the default block, and only a
    missing default block makes them fail. *)
Theorem resolution_reads_table r s name :
  plan_ok r (netblocks s) -> cache_ok s ->
  solo (ResolveFull name) (fun res _ =>
    res = Err DbFault \/
    res = match resolve_row (netblocks s) name with
          | Some row => Ok (resolved_of row) | None => Err NB_NotFound end) s /\
  solo (Resolve name) (fun res _ =>
    res = Err DbFault \/
    res = match resolve_row (netblocks s) name with
          | Some row => Ok (nb_Prefix row) | None => Err NB_NotFound end) s.
Proof.
  intros Hok Hco. pose proof (fun n => plan_cache r (netblocks s) n Hok) as Hc.
  split; unfold ResolveFull, Resolve, resolve_row; wp_step; apply solo_snapshot; try done;
    intros res s' [->| ->] _; [by left| |by left|]; cbv beta iota zeta;
    set (nm := if decide (name = "") then NameDefault else name);
    destruct (Hc nm) as (Hr & Hn & _); destruct (Hc NameDefault) as (Hr' & Hn' & _);
    rewrite ?Hr, ?Hr', ?Hn, ?Hn';
    (destruct (find_first (named_row nm) _) as [row|] eqn:Ef; cbn [fmap option_fmap option_map];
     [wp_step; by right|]);
    (destruct (decide (nm <> NameDefault)) as [|Hnn%dec_stable];
     [|rewrite Hnn in Ef; rewrite Ef; wp_step; by right]);
    destruct (find_first (named_row NameDefault) _); cbn [fmap option_fmap option_map];
    wp_step; by right.
Qed.

Lemma elem_of_carves r rows p : plan_ok r rows ->
  p ∈ carves_of (build_cache (rev rows)) <->
  exists row, row ∈ rows /\ nb_kind row <> KindDefault /\ p = nb_Prefix row.
Proof.
  intros Hok. pose proof (fun n => plan_cache r rows n Hok) as Hc.
  unfold carves_of. rewrite list_elem_of_omap. split.
  - intros ([n row] & Hin & Hp). apply elem_of_map_to_list in Hin.
    destruct (Hc n) as (Hr & _ & _). rewrite Hr in Hin. apply find_named in Hin as [Hin _].
    cbn in Hp. destruct (decide _); [done|]. destruct (IsValid _); [|done]. injection Hp as <-. eauto.
  - intros (row & Hin & Hk & ->). exists (nb_name row, row). split.
    + apply elem_of_map_to_list. destruct (Hc (nb_name row)) as (Hr & _ & _). rewrite Hr.
      destruct (find_first _ _) as [x|] eqn:Ef.
      * apply find_named in Ef as [Hx Hn]. f_equal. eapply names_unique; [apply Hok|done..].
      * rewrite find_first_None in Ef. specialize (Ef row Hin). unfold named_row in Ef.
        by rewrite bool_decide_true in Ef.
    + cbn. rewrite decide_False by done. by erewrite row_ok_valid by (apply Hok; done).
Qed.

(** What the default fill must avoid is exactly the set of blocks that are
    not of kind default, and what [Suggest] avoids is every block. *)
Theorem carves_are_the_other_blocks r s :
  plan_ok r (netblocks s) -> cache_ok s ->
  solo Carves (fun res _ => res = Err DbFault \/
    exists l, res = Ok l /\ forall p, p ∈ l <->
      exists row, row ∈ netblocks s /\ nb_kind row <> KindDefault /\ p = nb_Prefix row) s /\
  solo allCarves (fun res _ => res = Err DbFault \/
    exists l, res = Ok l /\ forall p, p ∈ l <-> exists row, row ∈ netblocks s /\ p = nb_Prefix row) s.
Proof.
  intros Hok Hco. pose proof (fun n => plan_cache r (netblocks s) n Hok) as Hc.
  split; unfold Carves, allCarves; wp_step; (apply solo_snapshot; [done|]);
    intros res s' [->| ->] _; [by left| |by left|]; wp_step; right; eexists; (split; [done|]); intros p.
  - by apply (elem_of_carves r).
  - destruct (Hc "") as (_ & _ & ->). rewrite list_elem_of_fmap.
    assert (Hrev : forall row, row ∈ rev (netblocks s) <-> row ∈ netblocks s).
    { intros row. rewrite !list_elem_of_In. symmetry. apply in_rev. }
    split; [intros (row & -> & Hin%Hrev)|intros (row & Hin%Hrev & ->)]; eauto.
Qed.

(** ** Interference *)

(** What concurrent users of the registry do between two steps: reads, complete
    mutations (the write and its [invalidate], which bumps the generation), and
    publishing of a coherent cache. *)
Definition gen_rely (s s' : Store) : Prop :=
  gen s <= gen s' /\
  (gen s' = gen s -> netblocks s' = netblocks s /\ (cache s' = cache s \/ cache_ok s')) /\
  (gen s' <> gen s -> cache_ok s').

(** A reader only publishes: the table and the generation stay, the cache it
    leaves is coherent. *)
Definition reader_guar (s s' : Store) : Prop :=
  netblocks s' = netblocks s /\ gen s' = gen s /\ (cache s' = cache s \/ cache_ok s').

Lemma gen_rely_cache s s' : gen_rely s s' -> cache_ok s -> cache_ok s'.
Proof.
  intros (Hle & Hsame & Hdiff) Hc. destruct (decide (gen s' = gen s)) as [E|E]; [|auto].
  destruct (Hsame E) as [Hn [Hca|]]; [|done]. unfold cache_ok. by rewrite Hn, Hca.
Qed.

(** The generation guard prevents the lost update: while other goroutines
    mutate, invalidate and publish between its steps, a [snapshot] never leaves
    a cache that disagrees with the table. *)
Theorem snapshot_never_publishes_stale s :
  cache_ok s -> wp gen_rely reader_guar snapshot (fun _ s' => cache_ok s') s.
Proof.
  intros Hc. unfold snapshot. wp_step. wp_step.
  pose proof (gen_rely_cache _ _ HR Hc) as Hc0.
  split; [split_and!; [done|done|by left]|].
  destruct (cache s0) as [c|] eqn:Ec; [by wp_step|].
  wp_step. apply wp_List. intros s1 HR1. pose proof (gen_rely_cache _ _ HR1 Hc0) as Hc1.
  split; [done|]. wp_step. wp_step. pose proof (gen_rely_cache _ _ HR0 Hc1) as Hc2.
  destruct (gen s2 =? gen s0) eqn:Eg; bool_split.
  - destruct HR1 as (Hle1 & _), HR0 as (Hle2 & Hsame & _).
    destruct Hsame as [Hn _]; [lia|].
    assert (cache_ok (set_cache (Some (build_cache (rev (netblocks s1)))) (gen s2) s2)).
    { intros c [= <-]. cbn. by rewrite Hn. }
    split; [split_and!; [done|done|by right]|]. by wp_step.
  - split; [split_and!; [done|done|by left]|]. by wp_step.
Qed.

(** The one write of [Grow]: the rows of that name whose text is still the one
    that was read get the doubled block. *)
Definition grow_write (r : Registry) (name : string) (s s' : Store) : Prop :=
  netblocks s' = netblocks s \/
  exists cur next, grow_target r cur = Some next /\
    netblocks s' = map (fun n => if cas_row name (PrefixString cur) n
                                 then set_cidr (PrefixString next) None n else n) (netblocks s).

Lemma wp_rangeFree_any (G : relation Store) r rng ex (Q : result err bool -> Store -> Prop) s
    `{!ListerOK r} :
  (forall res s', Q res s') -> wp (fun _ _ => True) G (rangeFree r rng ex) Q s.
Proof.
  intros HP. unfold rangeFree. pose proof (lister_ok (r:=r)) as Hl.
  destruct (existsb _ (r_reserved r)); [by wp_step|].
  wp_step. apply wp_List. intros s1 _. split; [done|].
  destruct (existsb _ _); [by wp_step|].
  destruct (r_allocs r) as [live|]; [|by wp_step].
  specialize (Hl _ eq_refl). wp_step. apply lister_spec. intros s2 _. split; [done|].
  intros t _. by wp_step.
Qed.

(** Two racing growers serialise: whatever others do to the database between
    its reads and its write, a [Grow] changes only rows of its name that still
    have the text it read, to the block doubled from that text, and a block it
    returns is a doubled block inside the pool. *)
Theorem grow_is_compare_and_swap r name actor s `{!ListerOK r} :
  wp (fun _ _ => True) (grow_write r name) (Grow r name actor) (fun res s' =>
    forall next, res = Ok next -> exists cur, grow_target r cur = Some next) s.
Proof.
  unfold Grow, Get. wp_step. wp_step. wp_step; [done|].
  destruct (find_first _ _) as [row|]; [wp_step|by wp_step].
  destruct (decide (nb_kind row <> KindNamed)); [by wp_step|].
  set (cur := nb_Prefix row).
  destruct (p_bits cur <=? 0) eqn:E1; [by wp_step|].
  destruct (decide (p_ip (Masked _) <> p_ip cur)) as [|E2] eqn:Ed; [by wp_step|].
  destruct (_ || _) eqn:E3; [by wp_step|].
  set (next := Masked (PrefixFrom (p_ip cur) (p_bits cur - 1))) in *.
  assert (Ht : grow_target r cur = Some next).
  { unfold grow_target. rewrite E1. fold next. rewrite Ed, E3. done. }
  wp_step. apply wp_rangeFree_any; [done|]. intros [free|e] s1; [|done].
  destruct (negb free); [by wp_step|].
  wp_step. unfold cas_cidr. wp_step; [done|]. split; [right; eauto|].
  destruct (_ =? 0); [by wp_step|].
  wp_step. unfold invalidate. wp_step. split; [by left|].
  wp_step. unfold recordAudit. destruct (r_audit r).
  - wp_step. wp_step; [wp_step; intros ? [= <-]; eauto|]. split; [by left|].
    wp_step. intros ? [= <-]. eauto.
  - wp_step. wp_step. intros ? [= <-]. eauto.
Qed.

(** ** Any interleaving of statements *)

(** What no interleaving breaks: distinct non-empty names, and every row well formed. *)
Record rows_wf (r : Registry) (rows : list Netblock) : Prop := mkRowsWf {
  rw_names : NoDup (nb_name <$> rows);
  rw_nonempty : forall n, n ∈ rows -> nb_name n <> "";
  rw_rows : forall n, n ∈ rows -> row_ok r n;
}.

Definition keeps_wf (r : Registry) (s s' : Store) : Prop := rows_wf r (netblocks s) -> rows_wf r (netblocks s').

(** A range the guards of one call let through, whatever the table holds by then. *)
Definition placeable (r : Registry) (p : Prefix) : Prop :=
  masked4 p /\ prefixInside p (r_pool r) = true /\ forall a, a ∈ r_reserved r -> Contains p a = false.

Section interleaved.
Context (T : Z -> Prop) (r : Registry) `{!ListerOK r}.
Abbreviation R := (keeps_wf r).
Abbreviation wf s := (rows_wf r (netblocks s)).

Lemma keeps_same s s' : netblocks s' = netblocks s -> keeps_wf r s s'.
Proof. intros H. unfold keeps_wf. by rewrite H. Qed.

Lemma get_wf name (Q : result err Netblock -> Store -> Prop) s : wf s ->
  (forall e s', wf s' -> Q (Err e) s') -> (forall row s', wf s' -> row_ok r row -> Q (Ok row) s') -> wpt T R R (Get name) Q s.
Proof.
  intros Hw He Ho. unfold Get. wp_step. wp_step; [by apply He, HR|].
  destruct (find_first _ _) as [row|] eqn:Ef; wp_step; [|by apply He, HR].
  apply find_first_Some in Ef as [Hin _]. apply Ho; [by apply HR|]. by apply (HR Hw).
Qed.

Lemma validate_wf cidr ex (Q : result err unit -> Store -> Prop) s : wf s -> prefix_wf cidr ->
  (forall e s', wf s' -> Q (Err e) s') -> (forall s', wf s' -> placeable r (Masked cidr) -> Q (Ok ()) s') ->
  wpt T R R (validateCIDR r cidr ex) Q s.
Proof.
  intros Hw Hp He Ho. unfold validateCIDR. destruct (negb (IsValid cidr) || _) eqn:E1; [by wp_step; apply He|].
  destruct (negb (prefixInside _ _)) eqn:E2; [by wp_step; apply He|]. destruct (existsb (Contains _) _) eqn:E3; [by wp_step; apply He|].
  wp_step. apply wp_List. intros s1 HR. split; [by apply He, HR|]. destruct (existsb (row_overlaps _ _) _); wp_step; [by apply He, HR|].
  apply Ho; [by apply HR|]. bool_split. split_and!; [|done|intros a Ha; by eapply existsb_elem_false].
  apply Masked_masked4, valid4_of_checks; [apply Hp|done|done].
Qed.

Lemma stranded_wf old new (Q : result err unit -> Store -> Prop) s : wf s -> (forall e s', wf s' -> Q e s') ->
  wpt T R R (checkNoStranded r old new) Q s.
Proof.
  intros Hw HQ. unfold checkNoStranded. pose proof (lister_ok (r:=r)) as Hl. destruct (r_allocs r) as [live|]; [|wp_step; by apply HQ].
  specialize (Hl _ eq_refl). wp_step. apply lister_spec. intros s1 HR. split; [by apply HQ, HR|]. intros t _.
  destruct (existsb _ _); wp_step; by apply HQ, HR.
Qed.

Lemma free_wf rng ex (Q : result err bool -> Store -> Prop) s : wf s ->
  (forall e s', wf s' -> Q (Err e) s') -> (forall b s', wf s' -> (b = true -> forall a, a ∈ r_reserved r -> Contains rng a = false) -> Q (Ok b) s') ->
  wpt T R R (rangeFree r rng ex) Q s.
Proof.
  intros Hw He Ho. unfold rangeFree. pose proof (lister_ok (r:=r)) as Hl. destruct (existsb _ (r_reserved r)) eqn:Er; [wp_step; by apply Ho|].
  assert (Hr : forall a, a ∈ r_reserved r -> Contains rng a = false) by (intros a Ha; by eapply existsb_elem_false).
  wp_step. apply wp_List. intros s1 HR. split; [by apply He, HR|]. destruct (existsb (row_overlaps _ _) _); [apply wp_ret; apply Ho; [by apply HR|done]|].
  destruct (r_allocs r) as [live|]; [|apply wp_ret; apply Ho; [by apply HR|done]].
  specialize (Hl _ eq_refl). wp_step. apply lister_spec. intros s2 HR2. split; [by apply He, HR2, HR|]. intros t _. apply wp_ret. apply Ho; [by apply HR2, HR|done].
Qed.

Lemma invalidate_wf (Q : result err unit -> Store -> Prop) s : wf s -> (forall s', wf s' -> Q (Ok ()) s') -> wpt T R R invalidate Q s.
Proof. intros Hw HQ. unfold invalidate. wp_step. split; [by apply keeps_same|]. by apply HQ, HR. Qed.

Lemma audit_wf a b c d (Q : result err unit -> Store -> Prop) s : wf s -> (forall s', wf s' -> Q (Ok ()) s') -> wpt T R R (recordAudit r a b c d) Q s.
Proof.
  intros Hw HQ. unfold recordAudit. destruct (r_audit r); [|wp_step; by apply HQ].
  wp_step. wp_step; [by apply HQ, HR|]. split; [by apply keeps_same|]. by apply HQ, HR.
Qed.

Lemma create_wf row p (Q : result err Netblock -> Store -> Prop) s : wf s -> nb_name row <> "" -> kind_protected row ->
  nb_cidr row = PrefixString p -> placeable r p -> (forall x s', wf s' -> Q x s') -> wpt T R R (create_netblock row) Q s.
Proof.
  intros Hw Hn Hk Hc (Hm & Hin & Hres) HQ. unfold create_netblock. wp_step; [by apply HQ, HR|].
  destruct (existsb _ _) eqn:Ex; [by apply HQ, HR|]. match goal with |- keeps_wf r ?a ?b /\ _ => assert (Hg : keeps_wf r a b) end.
  { intros [H1 H2 H3]. cbn. split.
    - rewrite fmap_app. apply NoDup_app. split_and!; [done| |apply NoDup_singleton]. intros x Hx ->%list_elem_of_singleton.
      apply list_elem_of_fmap in Hx as (n & Hx & Hn'). rewrite existsb_elem_false in Ex. specialize (Ex n Hn'). unfold named_row in Ex. bool_split. cbn in Hx. congruence.
    - intros n [?| ->%list_elem_of_singleton]%elem_of_app; [by apply H2|done].
    - intros n [?| ->%list_elem_of_singleton]%elem_of_app; [by apply H3|]. split; [exact Hk|]. by exists p. }
  split; [done|]. by apply HQ, Hg, HR.
Qed.

Lemma cas_wf name old p desc (Q : result err Z -> Store -> Prop) s : wf s -> placeable r p -> (forall x s', wf s' -> Q x s') ->
  wpt T R R (cas_cidr name old (PrefixString p) desc) Q s.
Proof.
  intros Hw (Hm & Hin & Hres) HQ. unfold cas_cidr. wp_step; [by apply HQ, HR|].
  match goal with |- keeps_wf r ?a ?b /\ _ => assert (Hg : keeps_wf r a b) end.
  { intros [H1 H2 H3]. cbn. change (map ?f ?l) with (f <$> l). split.
    - rewrite <- list_fmap_compose. erewrite list_fmap_ext; [exact H1|]. intros i x _. cbn. by destruct (cas_row _ _ x).
    - intros n (x & -> & Hx)%list_elem_of_fmap. destruct (cas_row _ _ x); [cbn|]; by apply (H2 x).
    - intros n (x & -> & Hx)%list_elem_of_fmap. destruct (cas_row _ _ x); [|by apply (H3 x)]. destruct (H3 x Hx) as [Hk _]. split; [exact Hk|]. by exists p. }
  split; [done|]. by apply HQ, Hg, HR.
Qed.

Lemma Grow_wf name actor (Q : result err Prefix -> Store -> Prop) s : wf s -> (forall x s', wf s' -> Q x s') -> wpt T R R (Grow r name actor) Q s.
Proof.
  intros Hw HQ. unfold Grow. wp_step. apply get_wf; [done|auto|]. intros row s1 Hw1 Hrow.
  destruct (decide (nb_kind row <> KindNamed)); [wp_step; by apply HQ|]. set (cur := nb_Prefix row).
  destruct (p_bits cur <=? 0) eqn:E1; [wp_step; by apply HQ|].
  destruct (decide (p_ip (Masked _) <> p_ip cur)) as [|E2] eqn:Ed; [wp_step; by apply HQ|].
  destruct (_ || _) eqn:E3; [wp_step; by apply HQ|].
  set (next := Masked (PrefixFrom (p_ip cur) (p_bits cur - 1))) in *.
  assert (Ht : grow_target r cur = Some next) by (unfold grow_target; rewrite E1; fold next; by rewrite Ed, E3).
  destruct (row_ok_prefix r row Hrow) as (Hm & _ & _ & Hres). destruct (grow_target_halves r cur next Hm Ht) as (Hm' & _ & Hin & Hh).
  wp_step. apply free_wf; [done|auto|]. intros free s2 Hw2 Hfree. destruct (negb free) eqn:En; [wp_step; by apply HQ|].
  wp_step. apply cas_wf; [done| |].
  { bool_split. split_and!; [done|done|]. intros a Ha. rewrite Hh, Hfree by done. unfold cur. by rewrite (Hres a Ha). }
  intros [m|e] s3 Hw3; [|by apply HQ]. destruct (m =? 0); [wp_step; by apply HQ|].
  wp_step. apply invalidate_wf; [done|]. intros s4 Hw4. wp_step. apply audit_wf; [done|]. intros s5 Hw5. wp_step. by apply HQ.
Qed.

Lemma reader_wf {A} (k : resolverCache -> M Store err A) (Q : result err A -> Store -> Prop) s : wf s -> (forall x s', wf s' -> Q x s') ->
  (forall c s', wf s' -> wpt T R R (k c) Q s') -> wpt T R R (snapshot ≫= k) Q s.
Proof.
  intros Hw HQ Hk. wp_step. unfold snapshot. wp_step. wp_step. split; [by apply keeps_same|]. pose proof (HR Hw) as Hw0.
  destruct (cache s0) as [c|]; [wp_step; by apply Hk|]. wp_step. apply wp_List. intros s1 HR1. split; [by apply HQ, HR1|].
  wp_step. wp_step. split; [destruct (_ =? _); by apply keeps_same|]. wp_step. apply Hk. destruct (_ =? _); by apply HR0, HR1.
Qed.

Lemma exec_netop_wf o s : netop_wf o -> wf s -> wpt T R R (exec_netop r o) (fun _ s' => wf s') s.
Proof.
  intros Ho Hw. destruct o as [name cidr desc actor|name cidr kind desc actor|name cidr desc actor|name actor|name actor|name|name| | |len]; cbn in *.
  - unfold discard. apply wp_discard. unfold Add. destruct (decide (name = "")); [by wp_step|]. destruct (decide _); [by wp_step|].
    wp_step. apply validate_wf; [done|done|done|]. intros s1 Hw1 Hp. wp_step. wp_step. wp_step. wp_step.
    eapply create_wf; [done|done|done|reflexivity|exact Hp|]. intros [row|e] s2 Hw2.
    + wp_step. apply invalidate_wf; [done|]. intros s3 Hw3. by wp_step.
    + destruct e; by wp_step.
  - unfold discard. apply wp_discard. unfold Seed. destruct (decide (name = "")); [by wp_step|]. destruct (decide _) as [|Hkind]; [by wp_step|].
    wp_step. wp_step. apply get_wf; [done| |by intros; wp_step]. intros e s1 Hw1. destruct e; try (by wp_step).
    wp_step. apply validate_wf; [done|done|done|]. intros s2 Hw2 Hp. wp_step. wp_step. wp_step. wp_step.
    eapply create_wf; [done|done| |reflexivity|exact Hp|].
    { unfold kind_protected. cbn. case_bool_decide as Hkn; [|done]. exfalso. apply Hkind. subst kind. done. }
    intros [row|e] s3 Hw3.
    + wp_step. apply invalidate_wf; [done|]. intros s4 Hw4. wp_step. apply audit_wf; [done|]. intros s5 Hw5. by wp_step.
    + destruct e; try (by wp_step). by apply get_wf.
  - unfold discard. apply wp_discard. unfold Update. wp_step. apply get_wf; [done|done|]. intros row s1 Hw1 Hrow. destruct (nb_protected row); [by wp_step|].
    wp_step. apply validate_wf; [done|done|done|]. intros s2 Hw2 Hp. wp_step. apply stranded_wf; [done|]. intros [[]|e] s3 Hw3; [|done].
    wp_step. apply cas_wf; [done|done|]. intros [n|e] s4 Hw4; [|done]. destruct (n =? 0); [by wp_step|].
    wp_step. apply invalidate_wf; [done|]. intros s5 Hw5. by wp_step.
  - unfold Remove. wp_step. apply get_wf; [done|done|]. intros row s1 Hw1 Hrow. destruct (nb_protected row); [by wp_step|].
    wp_step. apply stranded_wf; [done|]. intros [[]|e] s2 Hw2; [|done]. wp_step. wp_step; [by apply HR|].
    match goal with |- keeps_wf r ?a ?b /\ _ => assert (Hg : keeps_wf r a b) end.
    { intros [H1 H2 H3]. cbn. split.
      - clear -H1. induction (netblocks s0) as [|x l IH]; cbn in *; [done|]. apply NoDup_cons in H1 as [Hx H1]. destruct (negb _); cbn; [|auto].
        apply NoDup_cons. split; [|auto]. intros (y & Hy & Hin)%list_elem_of_fmap. apply Hx, list_elem_of_fmap. exists y. split; [done|].
        apply list_elem_of_In, filter_In in Hin as [Hin _]. by apply list_elem_of_In.
      - intros n Hn. apply list_elem_of_In, filter_In in Hn as [Hn%list_elem_of_In _]. by apply H2.
      - intros n Hn. apply list_elem_of_In, filter_In in Hn as [Hn%list_elem_of_In _]. by apply H3. }
    split; [done|]. apply invalidate_wf; [by apply Hg, HR|done].
  - unfold discard. apply wp_discard. by apply Grow_wf.
  - unfold discard. apply wp_discard. unfold Resolve. apply reader_wf; [done|done|]. intros c s1 Hw1. repeat case_match; by wp_step.
  - unfold discard. apply wp_discard. unfold ResolveFull. apply reader_wf; [done|done|]. intros c s1 Hw1. repeat case_match; by wp_step.
  - unfold discard. apply wp_discard. unfold NetblockCIDRs. apply reader_wf; [done|done|]. intros c s1 Hw1. by wp_step.
  - unfold discard. apply wp_discard. unfold Carves. apply reader_wf; [done|done|]. intros c s1 Hw1. by wp_step.
  - unfold discard. apply wp_discard. unfold RegistrySuggest, allCarves. apply wp_bind_assoc, reader_wf; [done|done|]. intros c s1 Hw1.
    wp_step. wp_step. destruct (Suggest _ _ _ _); by wp_step.
Qed.
End interleaved.

(** C4: the plan. Every table that operations of the registry run one after another can
    reach from an empty database, with any faults and with the allocator's writes in between, is a
    plan: distinct non-empty names, canonical IPv4 blocks inside the pool that cover no
    reservation, pairwise disjoint; and the cache agrees with it. When the statements of several
    operations interleave in any way, everything but disjointness and the cache is still kept:
    every operation only takes steps that keep the names distinct and every row canonical, in the
    pool and off the reservations. (The overlap check and the write are separate statements, so
    interleaved operations can overlap: [concurrent_adds_can_overlap].) *)
Theorem registry_plan_invariant r `{!ListerOK r} :
  (forall s, rtc (sys_step r) empty_store s -> plan_ok r (netblocks s) /\ cache_ok s) /\
  (forall T o s, netop_wf o -> rows_wf r (netblocks s) ->
     wpt T (keeps_wf r) (keeps_wf r) (exec_netop r o) (fun _ s' => rows_wf r (netblocks s')) s).
Proof.
  split; [|intros; by apply exec_netop_wf].
  intros s H. eapply (rtc_invariant (sys_step r) (plan_inv r)); [|exact H|apply plan_inv_empty].
  intros a b Hs. by apply sys_step_inv.
Qed.

(** ** A deployment: the mesh pool 10.44.0.0/16 *)

(** A lister that reads the allocation table. *)
Definition table_lister : M Store err (list Addr) :=
  t ← now; query (fun s => live_at t (allocs s)).

#[export] Instance table_lister_ok : AllocationLister table_lister.
Proof. intros T R G Q s H. unfold table_lister. wp_step. wp_step. wp_step; by apply H. Qed.

Definition ip4 (a b c d : Z) : Addr := Addr4 (a * 2 ^ 24 + b * 2 ^ 16 + c * 2 ^ 8 + d).
Definition demo_pool : Prefix := mkPrefix (ip4 10 44 0 0) 16.
Definition demo_reg : Registry := New demo_pool [] (Some table_lister) true.

#[export] Instance demo_lister : ListerOK demo_reg.
Proof. apply New_lister, _. Qed.

Lemma prefix_wf4 a b c d bits :
  0 <= a < 256 -> 0 <= b < 256 -> 0 <= c < 256 -> 0 <= d < 256 -> 0 <= bits <= 32 ->
  prefix_wf (mkPrefix (ip4 a b c d) bits).
Proof. intros. split_and!; cbn; unfold addr4_ok; done || lia. Qed.

(** The commands of a small deployment: the genesis blocks and one carve. *)
Definition demo_ops : list netop :=
  [OpSeed NameCentral (mkPrefix (ip4 10 44 0 0) 27) KindReserved "control plane" "genesis";
   OpSeed NameDefault (mkPrefix (ip4 10 44 8 0) 22) KindDefault "fallback" "genesis";
   OpAdd "web" (mkPrefix (ip4 10 44 1 7) 27) "web tier" "alice"].

Definition run_ops (t : Z) (r : Registry) (ops : list netop) (s : Store) : Store :=
  fold_left (fun s o => (run t (exec_netop r o) s).2) ops s.

Definition demo_store : Store := run_ops 7 demo_reg demo_ops empty_store.

Lemma run_ops_reach t r ops s s0 :
  rtc (sys_step r) s0 s -> Forall netop_wf ops -> rtc (sys_step r) s0 (run_ops t r ops s).
Proof.
  intros Hs Hw. revert s Hs. induction Hw as [|o ops Ho _ IH]; intros s Hs; [done|].
  apply IH. eapply rtc_r; [exact Hs|]. by apply sys_step_run.
Qed.

Lemma demo_wf : Forall netop_wf demo_ops.
Proof. repeat constructor; cbn; try apply prefix_wf4; lia || done. Qed.

Lemma demo_reach : rtc (sys_step demo_reg) empty_store demo_store.
Proof. apply run_ops_reach; [constructor|apply demo_wf]. Qed.

Lemma demo_inv : plan_inv demo_reg demo_store.
Proof.
  eapply (rtc_invariant (sys_step demo_reg)); [|apply demo_reach|apply plan_inv_empty].
  intros a b Hs Hi. exact (sys_step_inv demo_reg a b Hs Hi).
Qed.

(** A host holds 10.44.1.3, inside the block web. *)
Definition demo_held : Store :=
  set_allocs [mkAllocation 1 "10.44.1.3" 1 "allocated" 5 0 0 3 "token"] demo_store.

Lemma registry_plan_invariant_witness :
  rtc (sys_step demo_reg) empty_store demo_store /\ plan_ok demo_reg (netblocks demo_store) /\ cache_ok demo_store /\
  wpt (fun _ => True) (keeps_wf demo_reg) (keeps_wf demo_reg) (exec_netop demo_reg (OpAdd "late" (mkPrefix (ip4 10 44 2 0) 25) "" "bob"))
    (fun _ s' => rows_wf demo_reg (netblocks s')) demo_store.
Proof.
  pose proof (registry_plan_invariant demo_reg) as [Hseq Hint]. destruct (Hseq demo_store demo_reach) as [Hp Hc].
  split_and!; [apply demo_reach|done|done|]. apply Hint; [by apply prefix_wf4|]. split; apply Hp.
Defined.

Lemma registry_refines_plan_witness :
  solo (exec_netop demo_reg (OpGrow "web" "x")) (fun res s' =>
    allocs s' = allocs demo_store /\ cache_ok s' /\
    (netblocks s' = netblocks demo_store \/
     is_ok res = true /\ exists t, plan_step demo_reg (live_of demo_reg t demo_store)
                                     (netblocks demo_store) (netblocks s'))) demo_store.
Proof. apply (registry_refines_plan demo_reg (OpGrow "web" "x") demo_store); [done|apply demo_inv..]. Defined.

Lemma registry_never_strands_witness :
  solo (exec_netop demo_reg (OpRemove "web" "x"))
    (fun _ s' => held s' (ip4 10 44 1 3) /\ covered (netblocks s') "web" (ip4 10 44 1 3)) demo_held.
Proof.
  apply (registry_never_strands demo_reg (OpRemove "web" "x") demo_held "web" (ip4 10 44 1 3) table_lister);
    [done|done|apply demo_inv|apply demo_inv| |].
  - eexists. split; [by apply list_elem_of_singleton|]. done.
  - exists (mkNetblock 3 "web" "10.44.1.0/27" KindNamed "web tier" false 7 "alice").
    split; [vm_compute; repeat constructor|]. done.
Defined.

Lemma protected_blocks_persist_witness :
  let n := mkNetblock 1 "central" "10.44.0.0/27" KindReserved "control plane" true 7 "genesis" in
  solo (exec_netop demo_reg (OpRemove "central" "mallory")) (fun _ s' => n ∈ netblocks s') demo_store.
Proof.
  intros n. apply (protected_blocks_persist demo_reg (OpRemove "central" "mallory") demo_store n);
    [done|apply demo_inv|apply demo_inv| |done].
  vm_compute; repeat constructor.
Defined.

Lemma grow_doubles_witness :
  solo (Grow demo_reg "web" "x") (fun res s' =>
    match res with
    | Err _ => s' = demo_store
    | Ok next => exists row t,
        row ∈ netblocks demo_store /\ nb_name row = "web" /\ nb_kind row = KindNamed /\
        p_ip next = p_ip (nb_Prefix row) /\ p_bits next = p_bits (nb_Prefix row) - 1 /\
        (forall a, Contains next a = Contains (nb_Prefix row) a || Contains (buddyOf (nb_Prefix row)) a) /\
        fits demo_reg (netblocks demo_store) "web" next /\
        (forall a, a ∈ live_of demo_reg t demo_store -> Contains (buddyOf (nb_Prefix row)) a = false) /\
        netblocks s' = with_block "web" (PrefixString next) None (netblocks demo_store) /\ cache s' = None
    end) demo_store /\
  (run 9 (Grow demo_reg "web" "x") demo_store).1 = Ok (mkPrefix (ip4 10 44 1 0) 26).
Proof. split; [apply (grow_doubles demo_reg "web" "x" demo_store), demo_inv|by vm_compute]. Defined.

Lemma resolution_reads_table_witness :
  solo (ResolveFull "gone") (fun res _ =>
    res = Err DbFault \/
    res = match resolve_row (netblocks demo_store) "gone" with
          | Some row => Ok (resolved_of row) | None => Err NB_NotFound end) demo_store /\
  solo (Resolve "gone") (fun res _ =>
    res = Err DbFault \/
    res = match resolve_row (netblocks demo_store) "gone" with
          | Some row => Ok (nb_Prefix row) | None => Err NB_NotFound end) demo_store.
Proof. apply (resolution_reads_table demo_reg demo_store "gone"); apply demo_inv. Defined.

Lemma carves_are_the_other_blocks_witness :
  solo Carves (fun res _ => res = Err DbFault \/
    exists l, res = Ok l /\ forall p, p ∈ l <->
      exists row, row ∈ netblocks demo_store /\ nb_kind row <> KindDefault /\ p = nb_Prefix row) demo_store.
Proof. apply (carves_are_the_other_blocks demo_reg demo_store); apply demo_inv. Defined.

Lemma snapshot_never_publishes_stale_witness :
  wp gen_rely reader_guar snapshot (fun _ s' => cache_ok s') demo_store.
Proof. apply (snapshot_never_publishes_stale demo_store), demo_inv. Defined.

(** ** What the guards do not cover *)

(** Another admin's complete [Add] runs just before ours writes its row. *)
Definition racing_env : Env Store :=
  mkEnv (fun _ => 9) (fun _ => false)
    (fun k s => if decide (k = 2%nat)
                then (run 8 (Add demo_reg "late" (mkPrefix (ip4 10 44 2 0) 25) "" "bob") s).2 else s).

(** The overlap check and the insert are two statements and the table has no
    constraint on the ranges, so two concurrent [Add]s of overlapping prefixes
    under different names both succeed: the non-overlap promise holds only for
    operations that do not interleave. *)
Theorem concurrent_adds_can_overlap :
  exists row s', (Add demo_reg "early" (mkPrefix (ip4 10 44 2 0) 24) "" "alice" racing_env 0%nat demo_store)
                   = (Ok row, 4%nat, s') /\
  (run 8 (Add demo_reg "late" (mkPrefix (ip4 10 44 2 0) 25) "" "bob") demo_store).1
     = Ok (mkNetblock 4 "late" "10.44.2.0/25" KindNamed "" false 8 "bob") /\
  exists x y, x ∈ netblocks s' /\ y ∈ netblocks s' /\ nb_name x <> nb_name y /\
    Overlaps (nb_Prefix x) (nb_Prefix y) = true.
Proof.
  eexists _, _. split_and!; [vm_compute; reflexivity|vm_compute; reflexivity|].
  exists (mkNetblock 4 "late" "10.44.2.0/25" KindNamed "" false 8 "bob"),
         (mkNetblock 5 "early" "10.44.2.0/24" KindNamed "" false 9 "alice").
  split_and!; [cbn; set_solver|cbn; set_solver|done|by vm_compute].
Qed.

Lemma grow_is_compare_and_swap_witness :
  wp (fun _ _ => True) (grow_write demo_reg "web") (Grow demo_reg "web" "alice") (fun res s' =>
    forall next, res = Ok next -> exists cur, grow_target demo_reg cur = Some next) demo_store.
Proof. apply (grow_is_compare_and_swap demo_reg "web" "alice" demo_store). Defined.
