(* ===== verification/Ipam.v ===== *)
(** * internal/ipam: the address allocator

    [Allocator] over the [devices] and [ip_allocations] tables, with the netblock
    resolver and grower as optional interfaces, and the scrape-time utilisation
    collector. Leases are exclusive by the table's UNIQUE(ip); racing allocators
    retry. *)

From S2P Require Import Prelude Db GoStrings Netip AddrStore NetblockPlace NetblockRegistry.
From stdpp Require Import prelude strings list gmap relations.
From Stdlib Require Import ZArith Lia.
Open Scope Z_scope.

Definition stateAllocated : string := "allocated".
Definition stateQuarantined : string := "quarantined".
Definition maxAllocAttempts : nat := 100.

(** [NetblockResolver] with the optional interfaces [IDResolver] and
    [NetblockGrower], which the code finds by type assertion. *)
Record NetblockResolver : Type := mkResolver {
  rs_Resolve : string -> M Store err Prefix;
  rs_Carves : M Store err (list Prefix);
  rs_ResolveFull : option (string -> M Store err Resolved);
  rs_Grow : option (string -> string -> M Store err Prefix);
}.

(** [Pool] *)
Record Pool : Type := mkPool {
  pool_Prefix : Prefix;
  pool_SubRanges : gmap string Prefix;
  pool_Reserved : list Addr;
  pool_QuarantineTTL : Z;
}.

(** [Allocator]; its database is the [Store]. *)
Record Allocator : Type := mkAllocator {
  a_pool : Pool;
  a_resolver : option NetblockResolver;
  a_grower : option (string -> string -> M Store err Prefix);
}.

(** The checks of [NewAllocator] on one sub-range. *)
Definition check_subrange (pool sr : Prefix) : option err :=
  if negb (IsValid sr) || negb (Is4 (p_ip sr)) then Some IP_BadSubRange
  else if negb (Contains pool (p_ip sr)) then Some IP_BadSubRange
  else None.

Definition NewAllocator (pool : Pool) : result err Allocator :=
  if negb (IsValid (pool_Prefix pool)) || negb (Is4 (p_ip (pool_Prefix pool))) then Err IP_BadPool
  else if existsb (fun kv : string * Prefix =>
                     bool_decide (check_subrange (pool_Prefix pool) kv.2 <> None))
                  (map_to_list (pool_SubRanges pool))
  then Err IP_BadSubRange
  else Ok (mkAllocator pool None None).

Definition WithResolver (a : Allocator) (r : NetblockResolver) : Allocator :=
  mkAllocator (a_pool a) (Some r)
    (match rs_Grow r with Some g => Some g | None => a_grower a end).

Definition nameOrDefault (name : string) : string :=
  if decide (name = "") then NameDefault else name.

Definition metricName (res : Resolved) : string :=
  if decide (res_Name res = "") then NameDefault else res_Name res.

(** ** Resolution of a binding *)

Definition resolve (a : Allocator) (netblockName : string) : M Store err Resolved :=
  match a_resolver a with
  | Some rs =>
      match rs_ResolveFull rs with
      | Some full =>
          res ← full netblockName;
          if res_Reserved res
          then def ← attempt (full NameDefault);
               mret (match def with Ok d => d | Err _ => res end)
          else mret res
      | None =>
          cidr ← rs_Resolve rs netblockName;
          mret (mkResolved 0 (nameOrDefault netblockName) cidr false false)
      end
  | None =>
      if decide (netblockName = "") then mret (mkResolved 0 "" (pool_Prefix (a_pool a)) false false)
      else match pool_SubRanges (a_pool a) !! netblockName with
           | None => throw IP_UnknownSubRange
           | Some sr => mret (mkResolved 0 netblockName sr false false)
           end
  end.

(** The loop of [netblockIDContaining] over the control-plane names. *)
Fixpoint id_containing (full : string -> M Store err Resolved) (addr : Addr) (names : list string)
    : M Store err (option Z) :=
  match names with
  | [] => mret None
  | name :: names =>
      r ← attempt (full name);
      match r with
      | Ok r => if Contains (res_CIDR r) addr then mret (Some (res_ID r))
                else id_containing full addr names
      | Err _ => id_containing full addr names
      end
  end.

Definition netblockIDContaining (a : Allocator) (addr : Addr) : M Store err (option Z) :=
  match a_resolver a with
  | None => mret None
  | Some rs => match rs_ResolveFull rs with
               | None => mret None
               | Some full => id_containing full addr ["central"; NameDefault]
               end
  end.

(** ** Devices *)

(** [Where(Device{Name: name}).FirstOrCreate]: gorm leaves zero fields out of the
    condition, so an empty name selects the first device; UNIQUE(name) on
    create. *)
Definition ensureDevice (name : string) : M Store err Device :=
  t ← now;
  found ← query (fun s =>
    find_first (fun d => bool_decide (name = "") || bool_decide (dev_name d = name)) (devices s));
  match found with
  | Some d => mret d
  | None =>
      exec_err (fun s =>
        if existsb (fun d => bool_decide (dev_name d = name)) (devices s) then Err DuplicatedKey
        else let d := mkDevice (dev_seq s) name t in
             Ok (d, set_devices (devices s ++ [d]) (dev_seq s + 1) s))
  end.

(** ** Allocation rows *)

Definition purge_row (t : Z) (al : Allocation) : bool :=
  bool_decide (al_state al = stateQuarantined) && (al_quarantine_until al <=? t).

Definition purgeExpiredQuarantine : M Store err unit :=
  t ← now;
  exec (fun s => ((), set_allocs (List.filter (fun al => negb (purge_row t al)) (allocs s)) s)).

Definition has_ip (ip : string) (al : Allocation) : bool := bool_decide (al_ip al = ip).

(** [db.Create(&alloc)] under UNIQUE(ip). *)
Definition create_alloc (ip : string) (dev t nb : Z) (method : string) : M Store err unit :=
  exec_err (fun s =>
    if existsb (has_ip ip) (allocs s) then Err DuplicatedKey
    else Ok ((), set_alloc_seq (alloc_seq s + 1)
                   (set_allocs (allocs s ++
                      [mkAllocation (alloc_seq s) ip dev stateAllocated t 0 0 nb method]) s))).

(** ** The first free address *)

Definition inAnyCarve (addr : Addr) (carves : list Prefix) : bool :=
  existsb (fun c => Contains c addr) carves.

(** The scan of [firstFree]: [fuel] bounds the addresses of the range. *)
Fixpoint scan (fuel : nat) (rng : Prefix) (network : Addr) (reserved occupied : list Addr)
    (carves : list Prefix) (addr : Addr) : option Addr :=
  match fuel with
  | O => None
  | S fuel =>
      if negb (Contains rng addr) then None
      else if bool_decide (addr = network) || bool_decide (addr ∈ reserved) ||
              bool_decide (addr ∈ occupied)
      then scan fuel rng network reserved occupied carves (Next addr)
      else if inAnyCarve addr carves
      then scan fuel rng network reserved occupied carves (Next addr)
      else Some addr
  end.

Definition range_size (rng : Prefix) : nat := S (Z.to_nat (2 ^ (BitLen (p_ip rng) - p_bits rng))).

Definition firstFree (a : Allocator) (res : Resolved) : M Store err Addr :=
  let rng := res_CIDR res in
  ips ← query (fun s => al_ip <$> allocs s);
  let occupied := omap ParseAddr ips in
  carves ← (match a_resolver a with
            | Some rs =>
                if res_Named res then mret []
                else cs ← attempt (rs_Carves rs);
                     mret (match cs with
                           | Ok cs => List.filter (fun c => Overlaps rng c) cs
                           | Err _ => []
                           end)
            | None => mret []
            end);
  let network := p_ip (Masked rng) in
  match scan (range_size rng) rng network (pool_Reserved (a_pool a)) occupied carves network with
  | Some addr => mret addr
  | None => throw IP_PoolExhausted
  end.

(** ** Operations *)

(** The attempts of [Allocate]. *)
Fixpoint alloc_loop (attempts : nat) (a : Allocator) (res : Resolved) (dev : Device) (method : string)
    : M Store err Addr :=
  match attempts with
  | O => throw IP_Contended
  | S attempts =>
      r ← attempt (firstFree a res);
      match r with
      | Err IP_PoolExhausted =>
          grown ← (match a_grower a with
                   | Some grow => if res_Named res then attempt (grow (res_Name res) "ipam-autogrow")
                                  else mret (Err IP_PoolExhausted)
                   | None => mret (Err IP_PoolExhausted)
                   end);
          match grown with
          | Ok g =>
              if IsValid g
              then _ ← mem (fun s => ((), inc_autogrow (res_Name res) s));
                   alloc_loop attempts a
                     (mkResolved (res_ID res) (res_Name res) g (res_Named res) (res_Reserved res))
                     dev method
              else _ ← mem (fun s => ((), inc_exhausted (metricName res) s));
                   throw IP_PoolExhausted
          | Err _ =>
              _ ← mem (fun s => ((), inc_exhausted (metricName res) s));
              throw IP_PoolExhausted
          end
      | Err e => throw e
      | Ok ip =>
          t ← now;
          c ← attempt (create_alloc (AddrString ip) (dev_id dev) t (res_ID res) method);
          match c with
          | Ok _ => mret ip
          | Err DuplicatedKey => alloc_loop attempts a res dev method
          | Err e => throw e
          end
      end
  end.

Definition Allocate (a : Allocator) (deviceName netblockName method : string) : M Store err Addr :=
  res ← resolve a netblockName;
  dev ← ensureDevice deviceName;
  _ ← purgeExpiredQuarantine;
  alloc_loop maxAllocAttempts a res dev method.

Definition AllocateSpecific (a : Allocator) (deviceName : string) (addr : Addr) (method : string)
    : M Store err unit :=
  if negb (Contains (pool_Prefix (a_pool a)) addr) then throw IP_OutOfPool
  else
    dev ← ensureDevice deviceName;
    _ ← purgeExpiredQuarantine;
    id ← netblockIDContaining a addr;
    t ← now;
    c ← attempt (create_alloc (AddrString addr) (dev_id dev) t (default 0 id) method);
    match c with
    | Ok _ => mret ()
    | Err DuplicatedKey => throw IP_AddrTaken
    | Err e => throw e
    end.

Definition quarantine_row (t ttl : Z) (al : Allocation) : Allocation :=
  mkAllocation (al_id al) (al_ip al) (al_device_id al) stateQuarantined (al_allocated_at al) t (t + ttl)
    (al_netblock_id al) (al_method al).

Definition releasable (ip : string) (al : Allocation) : bool :=
  has_ip ip al && bool_decide (al_state al = stateAllocated).

Definition Release (a : Allocator) (ip : Addr) : M Store err unit :=
  t ← now;
  let ttl := pool_QuarantineTTL (a_pool a) in
  if ttl <=? 0
  then
    n ← exec (fun s =>
      (Z.of_nat (length (List.filter (has_ip (AddrString ip)) (allocs s))),
       set_allocs (List.filter (fun al => negb (has_ip (AddrString ip) al)) (allocs s)) s));
    if n =? 0 then throw IP_NotAllocated else mret ()
  else
    n ← exec (fun s =>
      (Z.of_nat (length (List.filter (releasable (AddrString ip)) (allocs s))),
       set_allocs (map (fun al => if releasable (AddrString ip) al then quarantine_row t ttl al else al)
                     (allocs s)) s));
    if n =? 0 then throw IP_NotAllocated else mret ().

Definition LiveAddrs : M Store err (list Addr) :=
  t ← now;
  ips ← query (fun s => al_ip <$> List.filter (live_row t) (allocs s));
  mret (omap ParseAddr ips).

(** The allocator discharges the registry's interface. *)
#[export] Instance LiveAddrs_lister : AllocationLister LiveAddrs.
Proof.
  intros T R G Q s H. unfold LiveAddrs. wp_step. wp_step. wp_step. wp_step; [by apply H|].
  wp_step. apply H; done.
Qed.

(** ** Capacity and the utilisation collector *)

(** [int64(1) << (32 - bits)] minus the network address. *)
Definition hostCapacity (p : Prefix) : Z :=
  let bits := p_bits p in
  if (bits <? 0) || (32 <? bits) then 0
  else let total := Z.shiftl 1 (32 - bits) in
       if total <=? 1 then 0 else total - 1.

(** [NetblockCollector]; the default stale window is five minutes. *)
Definition NewNetblockCollector (staleAfter : Z) : Z :=
  if staleAfter <=? 0 then 5 * 60 * 1000000000 else staleAfter.

Definition freshAddrs (staleAfter : Z) : M Store err (list Addr) :=
  t ← now;
  ips ← query (fun s => (List.filter (fun h : string * Z => t - staleAfter <=? h.2) (heartbeats s)).*1);
  mret (omap ParseAddr ips).

(** One netblock's gauges: name, capacity, allocated, used. *)
Definition gauges (live fresh : list Addr) (nb : string * Prefix) : option (string * Z * Z * Z) :=
  if negb (IsValid nb.2) then None
  else
    let inside := List.filter (Contains nb.2) live in
    Some (nb.1, hostCapacity nb.2, Z.of_nat (length inside),
          Z.of_nat (length (List.filter (fun a => bool_decide (a ∈ fresh)) inside))).

(** A failed query emits nothing. *)
Definition Collect (blocks : M Store err (list (string * Prefix))) (staleAfter : Z)
    : M Store err (list (string * Z * Z * Z)) :=
  r ← attempt (
    named ← blocks;
    live ← LiveAddrs;
    fresh ← freshAddrs staleAfter;
    mret (omap (gauges live fresh) named));
  mret (match r with Ok l => l | Err _ => [] end).

(** ** The scan *)

(** An address the scan may return. *)
Definition assignable (rng : Prefix) (reserved occupied : list Addr) (carves : list Prefix) (a : Addr)
    : bool :=
  Contains rng a && negb (bool_decide (a = p_ip (Masked rng))) && negb (bool_decide (a ∈ reserved)) &&
  negb (bool_decide (a ∈ occupied)) && negb (inAnyCarve a carves).

Lemma scan_from rng B b reserved occupied carves fuel i :
  Masked rng = mkPrefix (Addr4 B) b -> valid4 rng -> masked4 (mkPrefix (Addr4 B) b) ->
  0 <= i -> 2 ^ (32 - b) < i + Z.of_nat fuel ->
  let free := assignable rng reserved occupied carves in
  (forall j, 0 <= j < i -> free (Addr4 (B + j)) = false) ->
  match scan fuel rng (Addr4 B) reserved occupied carves (if B + i <? 2 ^ 32 then Addr4 (B + i) else AddrZero) with
  | Some a => exists j, a = Addr4 (B + j) /\ 0 <= j < 2 ^ (32 - b) /\ free a = true /\
                forall k, 0 <= k < j -> free (Addr4 (B + k)) = false
  | None => forall j, 0 <= j < 2 ^ (32 - b) -> free (Addr4 (B + j)) = false
  end.
Proof.
  intros Hm Hv4 Hm4 Hi Hfuel free. revert i Hi Hfuel.
  destruct Hm4 as (B' & b' & [= <- <-] & HB & Hb & Ha).
  assert (Hin : forall x, Contains rng (Addr4 x) = true <-> B <= x < B + 2 ^ (32 - b)).
  { intros x. rewrite <- (Masked_contains rng) by done. rewrite Hm. by apply contains4_interval. }
  pose proof (aligned_end B b Hb HB Ha) as Hend.
  induction fuel as [|fuel IH]; intros i Hi Hfuel Hlow; [cbn [scan]; intros j Hj; apply Hlow; lia|].
  cbn [scan]. destruct (B + i <? 2 ^ 32) eqn:Elt; bool_split.
  2:{ destruct (Contains rng AddrZero) eqn:Ez.
      - destruct Hv4 as (v & c & -> & _ & _). by rewrite contains4_not4 in Ez.
      - cbn. intros j Hj. apply Hlow. lia. }
  destruct (Contains rng (Addr4 (B + i))) eqn:Ec; cbn [negb].
  2:{ intros j Hj. apply Hlow. split; [lia|].
      destruct (Z.lt_ge_cases j i); [done|].
      assert (Contains rng (Addr4 (B + i)) = true) by (apply Hin; lia). congruence. }
  apply Hin in Ec as Hc.
  assert (Hnext : Next (Addr4 (B + i)) = if B + (i + 1) <? 2 ^ 32 then Addr4 (B + (i + 1)) else AddrZero).
  { cbn [Next]. rewrite Z.add_assoc.
    destruct (B + i + 1 =? 2 ^ 32) eqn:E1, (B + i + 1 <? 2 ^ 32) eqn:E2; bool_split; done || lia. }
  assert (Hskip : free (Addr4 (B + i)) = false ->
    match scan fuel rng (Addr4 B) reserved occupied carves (Next (Addr4 (B + i))) with
    | Some a => exists j, a = Addr4 (B + j) /\ 0 <= j < 2 ^ (32 - b) /\ free a = true /\
                  forall k, 0 <= k < j -> free (Addr4 (B + k)) = false
    | None => forall j, 0 <= j < 2 ^ (32 - b) -> free (Addr4 (B + j)) = false
    end).
  { intros Hf. rewrite Hnext. apply IH; [lia|lia|]. intros j Hj.
    destruct (decide (j = i)) as [->|]; [done|]. apply Hlow. lia. }
  assert (Hfree : free (Addr4 (B + i)) =
    negb (bool_decide (Addr4 (B + i) = Addr4 B)) && negb (bool_decide (Addr4 (B + i) ∈ reserved)) &&
    negb (bool_decide (Addr4 (B + i) ∈ occupied)) && negb (inAnyCarve (Addr4 (B + i)) carves)).
  { unfold free, assignable. by rewrite Hm, Ec. }
  rewrite Hfree in Hskip.
  destruct (bool_decide (Addr4 (B + i) = Addr4 B)) eqn:E1; [by apply Hskip|].
  destruct (bool_decide (_ ∈ reserved)) eqn:E2; [by apply Hskip|].
  destruct (bool_decide (_ ∈ occupied)) eqn:E3; [by apply Hskip|]. cbn [orb].
  destruct (inAnyCarve _ _) eqn:E4; [by apply Hskip|].
  exists i. split_and!; [done|lia|lia| |intros k Hk; apply Hlow; lia].
  by rewrite Hfree, ?E1, ?E2, ?E3, ?E4.
Qed.

(** The scan finds the lowest assignable address of a range, and fails only when
    there is none: the fuel is enough. *)
Lemma scan_lowest rng reserved occupied carves :
  valid4 rng ->
  match scan (range_size rng) rng (p_ip (Masked rng)) reserved occupied carves (p_ip (Masked rng)) with
  | Some a => exists v, a = Addr4 v /\ addr4_ok v /\ assignable rng reserved occupied carves a = true /\
      forall w, assignable rng reserved occupied carves (Addr4 w) = true -> v <= w
  | None => forall a, assignable rng reserved occupied carves a = false
  end.
Proof.
  intros Hv. pose proof (Masked_masked4 rng Hv) as Hm.
  assert (Hb : p_bits (Masked rng) = p_bits rng /\ BitLen (p_ip rng) = 32).
  { destruct Hv as (v & b & -> & Hv & Hb). rewrite Masked4_eq by done. done. }
  assert (Hcont : forall x, Contains (Masked rng) x = Contains rng x) by (intros; by apply Masked_contains).
  destruct Hm as (B & b & Hmk & HB & Hbb & Ha). pose proof (aligned_end B b Hbb HB Ha) as Hend.
  rewrite Hmk in Hb. destruct Hb as [Hb Hl]. cbn [p_bits] in Hb.
  assert (Hpos : 0 < 2 ^ (32 - b)) by (apply pow2_pos; lia).
  pose proof (scan_from rng B b reserved occupied carves (range_size rng) 0 Hmk Hv) as Hs.
  rewrite Z.add_0_r in Hs. unfold addr4_ok in HB. replace (B <? 2 ^ 32) with true in Hs by (symmetry; apply Z.ltb_lt; lia).
  rewrite Hmk. cbn [p_ip].
  specialize (Hs ltac:(exists B, b; split_and!; done || lia) ltac:(lia)).
  assert (Hin : forall x, Contains rng (Addr4 x) = true <-> B <= x < B + 2 ^ (32 - b)).
  { intros x. rewrite <- Hcont, Hmk. by apply contains4_interval. }
  assert (Hass : forall a, assignable rng reserved occupied carves a = true ->
            exists j, a = Addr4 (B + j) /\ 0 <= j < 2 ^ (32 - b)).
  { intros a Haa. unfold assignable in Haa. bool_split.
    destruct a as [|x|x]; [| |];
      try (destruct Hv as (v & c & -> & _ & _); by rewrite contains4_not4 in *).
    exists (x - B). rewrite Hin in *. split; [f_equal; lia|lia]. }
  assert (Hfuel : 2 ^ (32 - b) < 0 + Z.of_nat (range_size rng)).
  { unfold range_size. rewrite Hl, <- Hb. lia. }
  specialize (Hs Hfuel ltac:(intros; lia)).
  destruct (scan _ _ _ _ _ _ _) as [a|].
  - destruct Hs as (j & -> & Hj & Hf & Hlow). exists (B + j). split; [done|].
    split; [unfold addr4_ok; lia|]. split; [done|].
    intros w Hw. destruct (Hass _ Hw) as (k & [= ->] & Hk).
    destruct (Z.lt_ge_cases k j); [|lia]. by rewrite Hlow in Hw by lia.
  - intros a. apply not_true_iff_false. intros Hf. destruct (Hass _ Hf) as (j & -> & Hj).
    by rewrite Hs in Hf.
Qed.

(** A returned address is in the range, not its network address, neither
    reserved nor occupied nor in a carve; no hypothesis on the range. *)
Lemma scan_sound fuel rng network reserved occupied carves from a :
  scan fuel rng network reserved occupied carves from = Some a ->
  Contains rng a = true /\ a <> network /\ (a ∉ reserved) /\ (a ∉ occupied) /\ inAnyCarve a carves = false.
Proof.
  revert from. induction fuel as [|fuel IH]; intros from; cbn [scan]; [done|].
  destruct (Contains rng from) eqn:Ec; [|done]. cbn [negb].
  destruct (bool_decide (from = network)) eqn:E1; [apply IH|].
  destruct (bool_decide (from ∈ reserved)) eqn:E2; [apply IH|].
  destruct (bool_decide (from ∈ occupied)) eqn:E3; [apply IH|]. cbn [orb].
  destruct (inAnyCarve from carves) eqn:E4; [apply IH|]. intros [= <-]. by bool_split.
Qed.

(** ** The interfaces the allocator relies on

    What it assumes of a resolver and a grower: they leave the allocation table
    alone, whatever others do meanwhile. *)
Definition keeps_allocs (s s' : Store) : Prop := allocs s' = allocs s.

Definition leaves_allocs {A} (m : M Store err A) : Prop :=
  forall T R s, wpt T R keeps_allocs m (fun _ _ => True) s.

Class ResolverOK (rs : NetblockResolver) : Prop := {
  rok_resolve : forall n, leaves_allocs (rs_Resolve rs n);
  rok_carves : leaves_allocs (rs_Carves rs);
  rok_full : forall full, rs_ResolveFull rs = Some full -> forall n, leaves_allocs (full n);
  rok_grow : forall grow, rs_Grow rs = Some grow -> forall n act, leaves_allocs (grow n act);
}.

Class AllocatorOK (a : Allocator) : Prop := {
  aok_resolver : forall rs, a_resolver a = Some rs -> ResolverOK rs;
  aok_grower : forall grow, a_grower a = Some grow -> forall n act, leaves_allocs (grow n act);
}.

#[export] Instance NewAllocator_ok pool : AllocatorOK (mkAllocator pool None None).
Proof. split; done. Qed.

#[export] Instance WithResolver_ok a rs `{!AllocatorOK a, !ResolverOK rs} : AllocatorOK (WithResolver a rs).
Proof.
  split; cbn.
  - by intros ? [= <-].
  - intros grow. destruct (rs_Grow rs) as [g|] eqn:E; [intros [= <-]; by apply rok_grow|apply aok_grower].
Qed.

(** ** Leases under interference *)

Definition uniq (s : Store) : Prop := NoDup (al_ip <$> allocs s).

(** What an allocating handler does to the allocation table: it drops rows whose
    quarantine has expired at a clock reading, or inserts one row under an address
    text nobody has. *)
Definition alloc_guar (T : Z -> Prop) (s s' : Store) : Prop :=
  allocs s' = allocs s \/
  (exists t, T t /\ allocs s' = List.filter (fun al => negb (purge_row t al)) (allocs s)) \/
  (exists row, al_state row = stateAllocated /\ existsb (has_ip (al_ip row)) (allocs s) = false /\
               allocs s' = allocs s ++ [row]).

(** The last step of a successful lease. *)
Definition leased (I : Store -> Prop) (ip : Addr) (method : string) (s' : Store) : Prop :=
  exists s1 row, I s1 /\ existsb (has_ip (AddrString ip)) (allocs s1) = false /\
    allocs s' = allocs s1 ++ [row] /\ al_ip row = AddrString ip /\ al_state row = stateAllocated /\
    al_method row = method.

Lemma leaves_bind {A B} (m : M Store err A) (k : A -> M Store err B) :
  leaves_allocs m -> (forall x, leaves_allocs (k x)) -> leaves_allocs (m ≫= k).
Proof.
  intros Hm Hk T R s. wp_step. eapply wp_mono; [apply Hm|]. intros [x|e] s' _ _; [apply Hk|done].
Qed.

Lemma leaves_attempt {A} (m : M Store err A) : leaves_allocs m -> leaves_allocs (attempt m).
Proof. intros Hm T R s. wp_step. apply Hm. Qed.

Lemma leaves_ret {A} (x : A) : leaves_allocs (mret x).
Proof. intros T R s. by wp_step. Qed.

Lemma leaves_throw {A} e : leaves_allocs (throw (A:=A) e).
Proof. intros T R s. by wp_step. Qed.

Lemma leaves_now : leaves_allocs now.
Proof. intros T R s. by wp_step. Qed.

Lemma leaves_query {A} (f : Store -> A) : leaves_allocs (query f).
Proof. intros T R s. by wp_step. Qed.

Lemma leaves_mem {A} (f : Store -> A * Store) :
  (forall s, allocs (f s).2 = allocs s) -> leaves_allocs (mem f).
Proof. intros Hf T R s. wp_step. specialize (Hf s0). by destruct (f s0). Qed.

Lemma leaves_exec {A} (f : Store -> A * Store) :
  (forall s, allocs (f s).2 = allocs s) -> leaves_allocs (exec f).
Proof. intros Hf T R s. wp_step; [done|]. specialize (Hf s0). by destruct (f s0). Qed.

Lemma leaves_exec_err {A} (f : Store -> result err (A * Store)) :
  (forall s x s', f s = Ok (x, s') -> allocs s' = allocs s) -> leaves_allocs (exec_err f).
Proof.
  intros Hf T R s. wp_step; [done|]. destruct (f s0) as [[x s1]|] eqn:E; [|done].
  split; [|done]. by eapply Hf.
Qed.

#[export] Hint Resolve leaves_bind leaves_attempt leaves_ret leaves_throw leaves_now leaves_query
  leaves_mem leaves_exec leaves_exec_err : ncp.

Lemma resolve_leaves a n `{!AllocatorOK a} : leaves_allocs (resolve a n).
Proof.
  unfold resolve. destruct (a_resolver a) as [rs|] eqn:Er.
  - pose proof (aok_resolver rs Er) as Hrs. destruct (rs_ResolveFull rs) as [full|] eqn:Ef.
    + pose proof (rok_full full Ef) as Hf. apply leaves_bind; [done|]. intros res.
      destruct (res_Reserved res); auto with ncp.
    + pose proof rok_resolve n. auto with ncp.
  - destruct (decide _); [auto with ncp|]. destruct (_ !! n); auto with ncp.
Qed.

Lemma ensureDevice_leaves d : leaves_allocs (ensureDevice d).
Proof.
  unfold ensureDevice. apply leaves_bind; [auto with ncp|]. intros t.
  apply leaves_bind; [auto with ncp|]. intros [x|]; [auto with ncp|].
  apply leaves_exec_err. intros s x s'. destruct (existsb _ _); [done|]. by intros [= <- <-].
Qed.

Lemma netblockID_leaves a ip `{!AllocatorOK a} : leaves_allocs (netblockIDContaining a ip).
Proof.
  unfold netblockIDContaining. destruct (a_resolver a) as [rs|] eqn:Er; [|auto with ncp].
  pose proof (aok_resolver rs Er) as Hrs. destruct (rs_ResolveFull rs) as [full|] eqn:Ef; [|auto with ncp].
  pose proof (rok_full full Ef) as Hf. generalize ["central"; NameDefault]. intros names.
  induction names as [|nm names IH]; cbn [id_containing]; [auto with ncp|].
  apply leaves_bind; [auto with ncp|]. intros [r|]; [destruct (Contains _ _)|]; auto with ncp.
Qed.

Section leases.
Context (T : Z -> Prop) (R : relation Store) (I : Store -> Prop) (a : Allocator).
Context `{!AllocatorOK a}.
Hypothesis HRI : stable R I.
Hypothesis HGI : stable (alloc_guar T) I.

Lemma keeps_guar s s' : keeps_allocs s s' -> alloc_guar T s s'.
Proof. by left. Qed.

Lemma frame_inv s s' : rtc (either R keeps_allocs) s s' -> I s -> I s'.
Proof.
  intros H. apply (rtc_invariant _ _ _ _) with (2 := H). intros x y [Hr|Hk]; [by apply HRI|].
  apply HGI. by apply keeps_guar.
Qed.

Lemma wp_leaves {A} (m : M Store err A) (Q : result err A -> Store -> Prop) s :
  leaves_allocs m -> I s -> (forall r s', I s' -> Q r s') -> wpt T R (alloc_guar T) m Q s.
Proof.
  intros Hm HI HQ. eapply wp_frame; [apply Hm|apply keeps_guar|].
  intros r s' Hs. apply HQ. by eapply frame_inv.
Qed.

Lemma wp_firstFree res (Q : result err Addr -> Store -> Prop) s :
  I s ->
  (forall r s', I s' -> (forall ip, r = Ok ip -> ip ∉ pool_Reserved (a_pool a)) -> Q r s') ->
  wpt T R (alloc_guar T) (firstFree a res) Q s.
Proof.
  intros HI HQ. unfold firstFree. wp_step. wp_step; [apply HQ; [by eapply HRI|done]|].
  assert (HI0 : I s0) by by eapply HRI.
  assert (Hscan : forall carves s1, I s1 ->
    wpt T R (alloc_guar T)
      (match scan (range_size (res_CIDR res)) (res_CIDR res) (p_ip (Masked (res_CIDR res)))
               (pool_Reserved (a_pool a)) (omap ParseAddr (al_ip <$> allocs s0)) carves
               (p_ip (Masked (res_CIDR res))) with
       | Some addr => mret addr | None => throw IP_PoolExhausted end) Q s1).
  { intros carves s1 HI1. destruct (scan _ _ _ _ _ _ _) as [ip|] eqn:Es; wp_step; apply HQ; try done.
    intros ? [= <-]. by destruct (scan_sound _ _ _ _ _ _ _ _ Es) as (_ & _ & ? & _). }
  wp_step. destruct (a_resolver a) as [rs|] eqn:Er; [|wp_step; by apply Hscan].
  destruct (res_Named res); [wp_step; by apply Hscan|].
  wp_step. wp_step. apply wp_leaves; [by apply (aok_resolver rs Er)|done|].
  intros r s1 HI1. wp_step. by apply Hscan.
Qed.

Lemma alloc_loop_lease n res dev method (Q : result err Addr -> Store -> Prop) s :
  I s ->
  (forall e s', I s' -> Q (Err e) s') ->
  (forall ip s', I s' -> ip ∉ pool_Reserved (a_pool a) -> leased I ip method s' ->
     Q (Ok ip) s') ->
  wpt T R (alloc_guar T) (alloc_loop n a res dev method) Q s.
Proof.
  intros HI He Ho. revert res s HI. induction n as [|n IH]; intros res s HI; cbn [alloc_loop].
  { wp_step. auto. }
  assert (Hex : forall nm s1, I s1 -> wpt T R (alloc_guar T)
    (_ ← mem (fun s => ((), inc_exhausted nm s)); throw (A:=Addr) IP_PoolExhausted) Q s1).
  { intros nm s1 HI1. wp_step. wp_step. split; [by left|]. wp_step. apply He.
    eapply HGI; [|by eapply HRI]. by left. }
  wp_step. wp_step. apply wp_firstFree; [done|]. intros [ip|e] s1 HI1 Hres.
  - wp_step. wp_step. wp_step. wp_step. unfold create_alloc. wp_step; [wp_step; apply He; by eapply HRI|].
    assert (HI2 : I s0) by by eapply HRI.
    destruct (existsb _ _) eqn:Ex; [by apply IH|].
    set (row := mkAllocation (alloc_seq s0) _ _ _ _ _ _ _ _).
    assert (Hg : forall s2, allocs s2 = allocs s0 ++ [row] -> alloc_guar T s0 s2).
    { intros s2 H2. right. right. by exists row. }
    split; [by apply Hg|]. wp_step. apply Ho; [eapply HGI; [by apply Hg|done]|by apply Hres|].
    by exists s0, row.
  - assert (Hthrow : forall s2, I s2 -> wpt T R (alloc_guar T) (throw (A:=Addr) e) Q s2).
    { intros s2 HI2. wp_step. by apply He. }
    destruct e; try (by apply Hthrow). clear Hthrow.
    wp_step. destruct (a_grower a) as [grow|] eqn:Eg; [|wp_step; by apply Hex].
    destruct (res_Named res); [|wp_step; by apply Hex].
    wp_step. apply wp_leaves; [by apply aok_grower|done|]. intros [g|e] s2 HI2; [|by apply Hex].
    destruct (IsValid g); [|by apply Hex].
    wp_step. wp_step. split; [by left|]. apply IH. eapply HGI; [|by eapply HRI]. by left.
Qed.

Lemma wp_purge (Q : result err unit -> Store -> Prop) s :
  I s -> (forall r s', I s' -> Q r s') -> wpt T R (alloc_guar T) purgeExpiredQuarantine Q s.
Proof.
  intros HI HQ. unfold purgeExpiredQuarantine. wp_step. wp_step. wp_step; [apply HQ; by eapply HRI|].
  assert (Hg : alloc_guar T s0 (set_allocs (List.filter (fun al => negb (purge_row t al)) (allocs s0)) s0)).
  { right. left. by exists t. }
  split; [done|]. apply HQ. eapply HGI; [done|]. by eapply HRI.
Qed.

(** A lease under interference: any invariant of the others' steps and of the
    handler's is kept, and a returned address was inserted at a moment when the
    invariant held and no row had its text. *)
Lemma Allocate_lease d n method (Q : result err Addr -> Store -> Prop) s :
  I s -> (forall e s', I s' -> Q (Err e) s') ->
  (forall ip s', I s' -> ip ∉ pool_Reserved (a_pool a) -> leased I ip method s' -> Q (Ok ip) s') ->
  wpt T R (alloc_guar T) (Allocate a d n method) Q s.
Proof.
  intros HI He Ho. unfold Allocate.
  wp_step. apply wp_leaves; [by apply resolve_leaves|done|]. intros [res|e] s1 HI1; [|by apply He].
  wp_step. apply wp_leaves; [apply ensureDevice_leaves|done|]. intros [dev|e] s2 HI2; [|by apply He].
  wp_step. apply wp_purge; [done|]. intros [[]|e] s3 HI3; [|by apply He].
  by apply alloc_loop_lease.
Qed.

Lemma AllocateSpecific_lease d ip method (Q : result err unit -> Store -> Prop) s :
  I s -> (forall e s', I s' -> Q (Err e) s') ->
  (forall s', I s' -> Contains (pool_Prefix (a_pool a)) ip = true -> leased I ip method s' -> Q (Ok ()) s') ->
  wpt T R (alloc_guar T) (AllocateSpecific a d ip method) Q s.
Proof.
  intros HI He Ho. unfold AllocateSpecific.
  destruct (Contains _ _) eqn:Ec; cbn [negb]; [|wp_step; by apply He].
  wp_step. apply wp_leaves; [apply ensureDevice_leaves|done|]. intros [dev|e] s2 HI2; [|by apply He].
  wp_step. apply wp_purge; [done|]. intros [[]|e] s3 HI3; [|by apply He].
  wp_step. apply wp_leaves; [by apply netblockID_leaves|done|]. intros [id|e] s4 HI4; [|by apply He].
  wp_step. wp_step. wp_step. wp_step. unfold create_alloc. wp_step; [wp_step; apply He; by eapply HRI|].
  assert (HI5 : I s0) by by eapply HRI.
  destruct (existsb _ _) eqn:Ex; [wp_step; by apply He|].
  set (row := mkAllocation (alloc_seq s0) _ _ _ _ _ _ _ _).
  assert (Hg : forall s2, allocs s2 = allocs s0 ++ [row] -> alloc_guar T s0 s2).
  { intros s5 H5. right. right. by exists row. }
  split; [by apply Hg|]. wp_step. apply Ho; [eapply HGI; [by apply Hg|done]|done|].
  by exists s0, row.
Qed.
End leases.

(** ** The registry as resolver and grower *)

Lemma lister_leaves live `{!AllocationLister live} : leaves_allocs live.
Proof. intros T R s. by apply lister_spec. Qed.

Lemma snapshot_leaves : leaves_allocs snapshot.
Proof.
  unfold snapshot. apply leaves_bind; [by apply leaves_mem|]. intros [[c|] g]; [auto with ncp|].
  apply leaves_bind; [apply leaves_query|]. intros rows.
  apply leaves_bind; [apply leaves_mem|auto with ncp]. intros s. cbn. by destruct (gen s =? g).
Qed.

Lemma Get_leaves n : leaves_allocs (Get n).
Proof. unfold Get. apply leaves_bind; [auto with ncp|]. intros [x|]; auto with ncp. Qed.

Lemma Grow_leaves r n act `{!ListerOK r} : leaves_allocs (Grow r n act).
Proof.
  unfold Grow. apply leaves_bind; [apply Get_leaves|]. intros row.
  destruct (decide _); [auto with ncp|]. destruct (_ <=? 0); [auto with ncp|].
  destruct (decide _); [auto with ncp|]. destruct (_ || _); [auto with ncp|].
  apply leaves_bind.
  { unfold rangeFree. destruct (existsb _ _); [auto with ncp|].
    apply leaves_bind; [apply leaves_query|]. intros rows. destruct (existsb _ _); [auto with ncp|].
    destruct (r_allocs r) as [live|] eqn:El; [|auto with ncp].
    apply leaves_bind; [|auto with ncp]. apply lister_leaves. by apply (lister_ok (r:=r)). }
  intros free. destruct (negb free); [auto with ncp|].
  apply leaves_bind; [by apply leaves_exec|]. intros k. destruct (_ =? 0); [auto with ncp|].
  apply leaves_bind; [by apply leaves_mem|]. intros _.
  apply leaves_bind; [|auto with ncp]. unfold recordAudit. destruct (r_audit r); [|auto with ncp].
  apply leaves_bind; [|auto with ncp]. apply leaves_attempt. by apply leaves_exec.
Qed.

(** [*netblock.Registry] as the allocator's resolver. *)
Definition registry_resolver (r : Registry) : NetblockResolver :=
  mkResolver Resolve Carves (Some ResolveFull) (Some (Grow r)).

Lemma Resolve_leaves n : leaves_allocs (Resolve n).
Proof.
  unfold Resolve. apply leaves_bind; [apply snapshot_leaves|]. intros c T R s. repeat wp_step; done.
Qed.

Lemma ResolveFull_leaves n : leaves_allocs (ResolveFull n).
Proof.
  unfold ResolveFull. apply leaves_bind; [apply snapshot_leaves|]. intros c T R s. repeat wp_step; done.
Qed.

#[export] Instance registry_resolver_ok r `{!ListerOK r} : ResolverOK (registry_resolver r).
Proof.
  split; cbn [registry_resolver rs_Resolve rs_Carves rs_ResolveFull rs_Grow].
  - apply Resolve_leaves.
  - apply leaves_bind; [apply snapshot_leaves|auto with ncp].
  - intros full [= <-] n. apply ResolveFull_leaves.
  - intros grow [= <-] n act. by apply Grow_leaves.
Qed.

(** ** Properties of leases *)

Lemma NoDup_fmap_filter {A B} (g : A -> B) (f : A -> bool) l : NoDup (g <$> l) -> NoDup (g <$> List.filter f l).
Proof.
  induction l as [|x l IH]; [done|]. cbn. intros [Hx Hl]%NoDup_cons. destruct (f x); [|auto].
  cbn. apply NoDup_cons. split; [|auto]. intros (y & Hy & Hin)%list_elem_of_fmap. apply Hx.
  apply list_elem_of_fmap. exists y. split; [done|]. apply list_elem_of_In in Hin.
  apply filter_In in Hin as [Hin _]. by apply list_elem_of_In.
Qed.

Lemma existsb_ip_false ip rows :
  existsb (has_ip ip) rows = false -> forall row, row ∈ rows -> al_ip row <> ip.
Proof.
  intros H row Hr. rewrite existsb_elem_false in H. specialize (H row Hr). unfold has_ip in H.
  by bool_split.
Qed.

Lemma uniq_guar T : stable (alloc_guar T) uniq.
Proof.
  intros s s' [H|[(t & _ & H)|(row & _ & Hf & H)]] Hu; unfold uniq; rewrite H; [done| |].
  - by apply NoDup_fmap_filter.
  - rewrite fmap_app. apply NoDup_app. split_and!; [done| |apply NoDup_singleton].
    intros x (y & Hx & Hy)%list_elem_of_fmap Hx'%list_elem_of_singleton.
    eapply existsb_ip_false; [exact Hf|exact Hy|congruence].
Qed.

(** C3: leases are exclusive under concurrency. While other allocators (any
    goroutine or process bound by the table's UNIQUE(ip)) act between its steps,
    [Allocate] only drops expired quarantine rows and inserts one row under a free
    address; the address it returns is not reserved and is held by exactly one
    row, the one it inserted, in state allocated with its join method. *)
Theorem leases_are_exclusive T R a d n method s `{!AllocatorOK a} :
  stable R uniq -> uniq s ->
  wpt T R (alloc_guar T) (Allocate a d n method) (fun res s' =>
    uniq s' /\ forall ip, res = Ok ip ->
      (ip ∉ pool_Reserved (a_pool a)) /\
      exists row, row ∈ allocs s' /\ al_ip row = AddrString ip /\ al_state row = stateAllocated /\
        al_method row = method /\
        forall row', row' ∈ allocs s' -> al_ip row' = AddrString ip -> row' = row) s.
Proof.
  intros HR Hu. apply (Allocate_lease T R uniq a HR (uniq_guar T)); [done|done|].
  intros ip s' Hu' Hres (s1 & row & Hu1 & Hf & Hal & Hip & Hst & Hme). split; [done|].
  intros ? [= <-]. split; [done|]. exists row. rewrite Hal.
  split_and!; [apply elem_of_app; right; by apply list_elem_of_singleton|done..|].
  intros row' [Hr|Hr%list_elem_of_singleton]%elem_of_app Hip'; [|done].
  by eapply existsb_ip_false in Hf.
Qed.

Lemma quarantine_guar u q : al_quarantine_until q = u ->
  stable (alloc_guar (fun t => t < u)) (fun s => q ∈ allocs s).
Proof.
  intros Hq s s' [H|[(t & Ht & H)|(row & _ & _ & H)]] Hin; rewrite H; [done| |].
  - apply list_elem_of_In, filter_In. split; [by apply list_elem_of_In|].
    unfold purge_row. rewrite Hq. rewrite (proj2 (Z.leb_gt u t)) by lia. by rewrite andb_false_r.
  - apply elem_of_app. by left.
Qed.

(** C39: a released address is not reused before its quarantine ends: as long as
    every clock reading is before [u] and nobody else removes the row of an
    address quarantined until [u], neither [Allocate] nor [AllocateSpecific]
    hands that address out, and the row stays. *)
Theorem quarantine_is_respected u q ip R a d n method s `{!AllocatorOK a} :
  al_quarantine_until q = u -> al_ip q = AddrString ip ->
  stable R (fun s => q ∈ allocs s) -> q ∈ allocs s ->
  wpt (fun t => t < u) R (alloc_guar (fun t => t < u)) (Allocate a d n method)
    (fun res s' => q ∈ allocs s' /\ res <> Ok ip) s /\
  wpt (fun t => t < u) R (alloc_guar (fun t => t < u)) (AllocateSpecific a d ip method)
    (fun res s' => q ∈ allocs s' /\ res <> Ok ()) s.
Proof.
  intros Hu Hip HR Hin.
  assert (Hno : forall s', ~ leased (fun s => q ∈ allocs s) ip method s').
  { intros s' (s1 & row & Hq & Hf & _). by eapply existsb_ip_false in Hf. }
  split.
  - apply (Allocate_lease _ R _ a HR (quarantine_guar u q Hu)); [done|done|].
    intros ip' s' Hq _ Hl. split; [done|]. intros [= ->]. by eapply Hno.
  - apply (AllocateSpecific_lease _ R _ a HR (quarantine_guar u q Hu)); [done|done|].
    intros s' Hq _ Hl. by destruct (Hno s').
Qed.

(** [Release] on every branch: with a quarantine window exactly the allocated
    row of that address becomes quarantined until the window's end, without one
    the rows of the address are deleted; with no such row it reports not
    allocated; a database fault changes nothing; other rows are untouched. *)
Theorem release_every_branch T a ip s :
  let ttl := pool_QuarantineTTL (a_pool a) in
  let txt := AddrString ip in
  wpt T eq (fun _ _ => True) (Release a ip) (fun res s' =>
    (res = Err DbFault /\ s' = s) \/
    exists t, T t /\
    if ttl <=? 0
    then s' = set_allocs (List.filter (fun al => negb (has_ip txt al)) (allocs s)) s /\
         res = (if existsb (has_ip txt) (allocs s) then Ok () else Err IP_NotAllocated)
    else s' = set_allocs (map (fun al => if releasable txt al then quarantine_row t ttl al else al) (allocs s)) s /\
         res = (if existsb (releasable txt) (allocs s) then Ok () else Err IP_NotAllocated)) s.
Proof.
  cbn zeta. assert (Hcnt : forall f, (Z.of_nat (length (List.filter f (allocs s))) =? 0) = negb (existsb f (allocs s))).
  { intros f. induction (allocs s) as [|x l IH]; [done|]. cbn. by destruct (f x). }
  unfold Release. wp_step. wp_step. destruct (_ <=? 0) eqn:Et; wp_step; (wp_step; [by left|]);
    (split; [done|]); rewrite Hcnt; destruct (existsb _ _); cbn [negb]; wp_step; right; by exists t.
Qed.

(** ** Allocation through the registry, alone with faults *)

(** The tables are the same and the cache is the parsed table. *)
Definition cached (s s' : Store) : Prop :=
  netblocks s' = netblocks s /\ allocs s' = allocs s /\
  cache s' = Some (build_cache (rev (netblocks s))).

Lemma solo_snapshot_cached Q s :
  cache_ok s -> (cache s = None -> Q (Err DbFault) s) ->
  (forall s', cached s s' -> Q (Ok (build_cache (rev (netblocks s)))) s') ->
  solo snapshot Q s.
Proof.
  intros Hc He Ho. unfold snapshot. wp_step. wp_step. split; [done|].
  destruct (cache s) as [c|] eqn:Ec.
  { wp_step. rewrite (Hc c Ec). apply Ho. split_and!; [done|done|]. by rewrite Ec, (Hc c Ec). }
  wp_step. apply wp_List. intros ? <-. split; [by apply He|].
  wp_step. wp_step. rewrite Z.eqb_refl. split; [done|]. wp_step. by apply Ho.
Qed.

Lemma cached_ok s s' : cached s s' -> cache_ok s'.
Proof. intros (Hn & _ & Hc) c. rewrite Hc, Hn. by intros [= <-]. Qed.

Lemma solo_ResolveFull r n Q s :
  plan_ok r (netblocks s) -> cache_ok s -> (cache s = None -> Q (Err DbFault) s) ->
  (forall s', cached s s' ->
     Q (match resolve_row (netblocks s) n with
        | Some row => Ok (resolved_of row) | None => Err NB_NotFound end) s') ->
  solo (ResolveFull n) Q s.
Proof.
  intros Hok Hco He Ho. unfold ResolveFull, resolve_row in *. wp_step.
  apply solo_snapshot_cached; [done|done|]. intros s' Hs'. specialize (Ho s' Hs'). cbv beta iota zeta in *.
  set (nm := if decide (n = "") then NameDefault else n) in *.
  destruct (plan_cache r (netblocks s) nm Hok) as (-> & _).
  destruct (plan_cache r (netblocks s) NameDefault Hok) as (-> & _).
  destruct (find_first (named_row nm) _) as [row|] eqn:Ef; [by wp_step|].
  destruct (decide (nm <> NameDefault)) as [|Hnn%dec_stable].
  - destruct (find_first (named_row NameDefault) _); by wp_step.
  - rewrite Hnn in Ef. rewrite Ef in Ho. by wp_step.
Qed.

(** The production wiring. *)
Definition registry_allocator (r : Registry) (pool : Pool) : Allocator :=
  WithResolver (mkAllocator pool None None) (registry_resolver r).

(** The row a join source bound to [n] draws from: never a reserved one when the
    default block is there. *)
Definition join_row (rows : list Netblock) (n : string) : option Netblock :=
  match resolve_row rows n with
  | None => None
  | Some row => if decide (nb_kind row = KindReserved) then
                  match resolve_row rows NameDefault with Some d => Some d | None => Some row end
                else Some row
  end.

Lemma solo_resolve r pool n Q s :
  plan_ok r (netblocks s) -> cache_ok s -> (cache s = None -> Q (Err DbFault) s) ->
  (forall s', cached s s' ->
     Q (match join_row (netblocks s) n with
        | Some row => Ok (resolved_of row) | None => Err NB_NotFound end) s') ->
  solo (resolve (registry_allocator r pool) n) Q s.
Proof.
  intros Hok Hco He Ho. unfold resolve, join_row in *. cbn [registry_allocator WithResolver a_resolver registry_resolver rs_ResolveFull].
  wp_step. apply (solo_ResolveFull r); [done|done|done|]. intros s1 H1. pose proof (cached_ok _ _ H1) as Hc1.
  specialize (Ho s1 H1) as Ho1.
  destruct (resolve_row (netblocks s) n) as [row|] eqn:Er; [|done].
  cbn [res_Reserved resolved_of]. case_bool_decide as Hk.
  2:{ rewrite decide_False in Ho1 by done. by wp_step. }
  rewrite decide_True in Ho1 by done.
  destruct H1 as (Hn1 & Ha1 & Hca1). wp_step. wp_step.
  apply (solo_ResolveFull r); [by rewrite Hn1|done|by rewrite Hca1|].
  intros s2 (Hn2 & Ha2 & Hca2). wp_step. rewrite Hn1 in *.
  assert (H2 : cached s s2) by (split_and!; congruence).
  specialize (Ho s2 H2). rewrite decide_True in Ho by done.
  by destruct (resolve_row (netblocks s) NameDefault).
Qed.

(** What a lease through the registry guarantees: the address is in the block
    that was asked for and in no other. *)
Definition in_block (r : Registry) (s : Store) (row0 : Netblock) (ip : Addr) : Prop :=
  plan_ok r (netblocks s) /\
  exists row, row ∈ netblocks s /\ nb_name row = nb_name row0 /\ nb_kind row = nb_kind row0 /\
    Contains (nb_Prefix row) ip = true /\ ip <> p_ip (nb_Prefix row) /\
    forall row', row' ∈ netblocks s -> nb_name row' <> nb_name row0 -> Contains (nb_Prefix row') ip = false.

Lemma in_block_intro r s row ip :
  plan_ok r (netblocks s) -> row ∈ netblocks s -> Contains (nb_Prefix row) ip = true ->
  ip <> p_ip (nb_Prefix row) -> in_block r s row ip.
Proof.
  intros Hok Hin Hc Hne. split; [done|]. exists row. split_and!; try done.
  intros row' Hin' Hn. apply not_true_iff_false. intros Hc'.
  pose proof (row_ok_prefix r row (po_rows _ _ Hok row Hin)) as (Hm & _).
  pose proof (row_ok_prefix r row' (po_rows _ _ Hok row' Hin')) as (Hm' & _).
  assert (Overlaps (nb_Prefix row') (nb_Prefix row) = true) as Ho.
  { apply overlaps4_spec; [by apply masked4_valid4..|].
    destruct ip as [|v|v]; [| |]; try (destruct Hm as (x & b & Hx & _); rewrite Hx, contains4_not4 in Hc; done).
    exists v. split; [|done]. destruct Hm as (x & b & Hx & Hxo & Hb & Ha). rewrite Hx in Hc.
    apply contains4_interval in Hc; [|done..]. pose proof (aligned_end x b Hb Hxo Ha).
    unfold addr4_ok in *. lia. }
  by rewrite (po_disjoint _ _ Hok) in Ho.
Qed.

(** The address the allocator picks in the block of [row]: the lowest free one of
    a carved or default block, none of a reserved block. *)
Definition pick (pool : Pool) (s : Store) (row : Netblock) : option Addr :=
  let p := nb_Prefix row in
  if decide (nb_kind row = KindNamed \/ nb_kind row = KindDefault)
  then scan (range_size p) p (p_ip (Masked p)) (pool_Reserved pool)
         (omap ParseAddr (al_ip <$> allocs s)) [] (p_ip (Masked p))
  else None.

Lemma filter_none {A} (f : A -> bool) l : (forall x, x ∈ l -> f x = false) -> List.filter f l = [].
Proof.
  induction l as [|x l IH]; [done|]. intros H. cbn. rewrite H by constructor.
  apply IH. intros y Hy. apply H. by constructor.
Qed.

Lemma solo_firstFree r pool row Q s :
  plan_ok r (netblocks s) -> row ∈ netblocks s -> cache_ok s ->
  (nb_kind row = KindNamed \/ is_Some (cache s)) ->
  Q (Err DbFault) s ->
  Q (match pick pool s row with Some a => Ok a | None => Err IP_PoolExhausted end) s ->
  solo (firstFree (registry_allocator r pool) (resolved_of row)) Q s.
Proof.
  intros Hok Hin Hco Hcase He Ho.
  set (p := nb_Prefix row). pose proof (row_ok_prefix r row (po_rows _ _ Hok row Hin)) as (Hm & _).
  unfold firstFree. wp_step. wp_step; [done|].
  cbn [registry_allocator WithResolver a_resolver a_pool res_CIDR resolved_of res_Named registry_resolver rs_Carves].
  unfold pick in Ho. fold p. fold p in Ho. wp_step.
  case_bool_decide as Hk.
  { wp_step. rewrite decide_True in Ho by (by left).
    destruct (scan _ _ _ _ _ _ _); by wp_step. }
  destruct Hcase as [?|[c Hc]]; [done|]. wp_step. wp_step. unfold Carves, snapshot.
  wp_step. wp_step. wp_step. split; [done|]. rewrite Hc. wp_step. wp_step. wp_step.
  rewrite (Hco c Hc). destruct (decide (nb_kind row = KindDefault)) as [Hd|Hd].
  - rewrite decide_True in Ho by (by right). rewrite filter_none.
    + destruct (scan _ _ _ _ _ _ _); by wp_step.
    + intros q (row' & Hin' & Hk' & ->)%(elem_of_carves r); [|done].
      apply (po_disjoint _ _ Hok); [done|done|]. intros Hn.
      assert (row = row') as <- by (eapply names_unique; [apply Hok|done..]). done.
  - rewrite decide_False in Ho by (intros [?|?]; done).
    destruct (scan _ _ _ _ _ _ _) as [ip|] eqn:Es; [exfalso|by wp_step].
    apply scan_sound in Es as (Hcon & _ & _ & _ & Hnc). unfold inAnyCarve in Hnc.
    rewrite existsb_elem_false in Hnc. rewrite (Hnc p) in Hcon; [done|].
    apply list_elem_of_In, filter_In. split.
    + apply list_elem_of_In, (elem_of_carves r); [done|]. by exists row.
    + apply overlaps4_spec; [by apply masked4_valid4..|].
      destruct Hm as (v & b & Hp & Hv & Hb & Ha). fold p in Hp. rewrite Hp. exists v. split; [done|].
      assert (0 < 2 ^ (32 - b)) by (apply pow2_pos; lia).
      split; apply contains4_interval; done || lia.
Qed.

(** The rows of a table after giving a new block to [row]. *)
Lemma resize_row rows row new desc : row ∈ rows -> set_cidr new desc row ∈ with_block (nb_name row) new desc rows.
Proof.
  intros Hin. apply list_elem_of_fmap. exists row. split; [|done]. unfold named_row.
  by rewrite bool_decide_true.
Qed.

Lemma alloc_loop_block r pool n row dev method s `{!ListerOK r} :
  plan_ok r (netblocks s) -> row ∈ netblocks s -> cache_ok s ->
  (nb_kind row = KindNamed \/ is_Some (cache s)) ->
  solo (alloc_loop n (registry_allocator r pool) (resolved_of row) dev method) (fun res s' =>
    forall ip, res = Ok ip ->
      (nb_kind row = KindNamed \/ nb_kind row = KindDefault) /\ in_block r s' row ip) s.
Proof.
  revert row s. induction n as [|n IH]; intros row s Hok Hin Hco Hcase; cbn [alloc_loop]; [by wp_step|].
  wp_step. wp_step. apply solo_firstFree; [done|done|done|done|by wp_step|].
  destruct (pick pool s row) as [ip|] eqn:Ep.
  - unfold pick in Ep. destruct (decide _) as [Hk|]; [|done].
    apply scan_sound in Ep as (Hc & Hne & _).
    pose proof (row_ok_prefix r row (po_rows _ _ Hok row Hin)) as (Hm & _).
    rewrite Masked_id in Hne by done.
    wp_step. wp_step. wp_step. wp_step. unfold create_alloc. wp_step; [by wp_step|].
    destruct (existsb _ _) eqn:Ex; [by apply IH|]. split; [done|]. wp_step.
    intros ? [= <-]. split; [done|]. by apply in_block_intro.
  - wp_step. cbn [registry_allocator WithResolver a_grower registry_resolver rs_Grow resolved_of res_Named res_Name].
    case_bool_decide as Hk; [|repeat (wp_step; try done)].
    wp_step. eapply wp_mono; [apply (wp_conj _ _ _ _ _ _ _ (Grow_run r (nb_name row) "ipam-autogrow" s Hok)
                                             (Grow_refines r (nb_name row) "ipam-autogrow" s Hok Hco))|].
    cbn beta. intros res s' _ [Hrun Href]. destruct res as [next|e]; [|repeat (wp_step; try done)].
    destruct Hrun as [[? _]|(t & Hres & Hnb & Hca & Hal)]; [done|].
    unfold refuse_grow in Hres. destruct (find_first _ _) as [row'|] eqn:Hf; [|done].
    apply find_named in Hf as [Hin' Hn'].
    assert (row' = row) as -> by (eapply names_unique; [apply Hok|done..]).
    destruct (decide _); [done|]. destruct (grow_target _ _) as [nx|] eqn:Et; [|done].
    destruct (_ && _); [|done]. injection Hres as ->.
    pose proof (row_ok_prefix r row (po_rows _ _ Hok row Hin)) as (Hm & _).
    destruct (grow_target_halves r _ nx Hm Et) as (Hm' & _).
    rewrite valid4_IsValid by by apply masked4_valid4.
    wp_step. wp_step. split; [done|]. wp_reduce.
    set (row2 := set_cidr (PrefixString nx) None row).
    replace (mkResolved (res_ID (resolved_of row)) (nb_name row) nx true (res_Reserved (resolved_of row)))
      with (resolved_of row2).
    2:{ unfold resolved_of. cbn [nb_id nb_name nb_kind row2 set_cidr res_ID res_Reserved].
        rewrite (nb_Prefix_canonical row2 nx) by done. by rewrite (bool_decide_true (nb_kind row = KindNamed)). }
    destruct (refines_inv r s _ s' Hok Href) as [Hok' Hco'].
    apply (IH row2 (inc_autogrow (nb_name row) s')); [done| |done|by left].
    cbn [netblocks inc_autogrow]. rewrite Hnb. by apply resize_row.
Qed.

Lemma solo_ensureDevice d Q s :
  Q (Err DbFault) s ->
  (forall dev l k, Q (Ok dev) (set_devices l k s)) -> solo (ensureDevice d) Q s.
Proof.
  intros He Ho. unfold ensureDevice. wp_step. wp_step. wp_step. wp_step; [done|].
  destruct (find_first _ _) as [x|] eqn:Ef; [wp_step; by destruct s; apply (Ho x devices dev_seq)|].
  wp_step; [done|]. destruct (existsb _ _) eqn:Ex; [|split; [done|apply Ho]].
  apply existsb_elem in Ex as (x & Hx & Hn). rewrite find_first_None in Ef.
  specialize (Ef x Hx). rewrite Hn in Ef. by rewrite orb_true_r in Ef.
Qed.

(** The allocation table after the purge at [t]. *)
Definition purged (t : Z) (s : Store) : list Allocation :=
  List.filter (fun al => negb (purge_row t al)) (allocs s).

Lemma solo_purge Q s :
  Q (Err DbFault) s -> (forall t, Q (Ok ()) (set_allocs (purged t s) s)) ->
  solo purgeExpiredQuarantine Q s.
Proof. intros He Ho. unfold purgeExpiredQuarantine. wp_step. wp_step. wp_step; [done|]. split; [done|]. apply Ho. Qed.

(** An IPv4 address that no row parses to is the text of no row. *)
Lemma unoccupied_text v rows :
  addr4_ok v -> Addr4 v ∉ omap ParseAddr (al_ip <$> rows) -> existsb (has_ip (AddrString (Addr4 v))) rows = false.
Proof.
  intros Hv Hn. apply existsb_elem_false. intros row Hr. apply bool_decide_eq_false. intros Hip.
  apply Hn. apply list_elem_of_omap. exists (al_ip row). split; [apply list_elem_of_fmap; eauto|].
  rewrite Hip. by apply ParseAddr_String.
Qed.

(** An enrollment's address comes from its own block. Through the registry,
    with any database faults, [Allocate] for a binding [n] only returns an address
    of the block the binding resolves to (the default block for an empty, unknown
    or reserved name), possibly after that block doubled; the block is carved or
    default, never a reserved one, the address is not its network address and is
    inside no other block. *)
Theorem join_source_stays_in_its_block r pool d n method s `{!ListerOK r} :
  plan_ok r (netblocks s) -> cache_ok s ->
  solo (Allocate (registry_allocator r pool) d n method) (fun res s' =>
    forall ip, res = Ok ip -> exists row, join_row (netblocks s) n = Some row /\
      (nb_kind row = KindNamed \/ nb_kind row = KindDefault) /\ in_block r s' row ip) s.
Proof.
  intros Hok Hco. unfold Allocate. wp_step. apply (solo_resolve r); [done|done|done|].
  intros s1 H1. pose proof (cached_ok _ _ H1) as Hc1. destruct H1 as (Hn1 & Ha1 & Hca1).
  destruct (join_row (netblocks s) n) as [row|] eqn:Ej; [|done].
  assert (Hin : row ∈ netblocks s).
  { unfold join_row, resolve_row in Ej. repeat case_match; try done; simplify_eq;
      match goal with H : find_first _ _ = Some _ |- _ => by apply find_named in H as [? _] end. }
  wp_step. apply solo_ensureDevice; [done|]. intros dev l k. wp_step. apply solo_purge; [done|].
  intros t. eapply wp_mono; [apply (alloc_loop_block r pool); cbn; rewrite ?Hn1; try done; right; by eexists|].
  cbn. intros res s' _ H ip Hip. exists row. split; [done|]. by apply H.
Qed.

(** Allocation is live and deterministic: unless a database call fails, it
    returns the lowest address of its block that is free after the expired
    quarantines are purged; when the block has none, a default block denies the
    enrollment as exhausted (it never grows). *)
Theorem allocate_returns_lowest_free r pool d n method s row `{!ListerOK r} :
  plan_ok r (netblocks s) -> cache_ok s -> join_row (netblocks s) n = Some row ->
  row ∈ netblocks s -> (nb_kind row = KindNamed \/ nb_kind row = KindDefault) ->
  solo (Allocate (registry_allocator r pool) d n method) (fun res s' =>
    res = Err DbFault \/
    exists t,
      let free := assignable (nb_Prefix row) (pool_Reserved pool) (omap ParseAddr (al_ip <$> purged t s)) [] in
      (exists v, res = Ok (Addr4 v) /\ free (Addr4 v) = true /\ forall w, free (Addr4 w) = true -> v <= w) \/
      ((forall a, free a = false) /\ (nb_kind row = KindDefault -> res = Err IP_PoolExhausted))) s.
Proof.
  intros Hok Hco Ej Hin Hk. unfold Allocate. wp_step. apply (solo_resolve r); [done|done|by left|].
  intros s1 H1. pose proof (cached_ok _ _ H1) as Hc1. destruct H1 as (Hn1 & Ha1 & Hca1). rewrite Ej.
  wp_step. apply solo_ensureDevice; [by left|]. intros dev l k. wp_step. apply solo_purge; [by left|].
  intros t. set (s2 := set_allocs _ _).
  assert (Hal2 : allocs s2 = purged t s) by (cbn; unfold purged; cbn; by rewrite Ha1).
  pose proof (row_ok_prefix r row (po_rows _ _ Hok row Hin)) as (Hm & _).
  pose proof (scan_lowest (nb_Prefix row) (pool_Reserved pool) (omap ParseAddr (al_ip <$> purged t s)) []
    (masked4_valid4 _ Hm)) as Hs.
  unfold maxAllocAttempts. change 100%nat with (S 99). generalize 99%nat. intros more. cbn [alloc_loop].
  wp_step. wp_step. apply solo_firstFree; [cbn; by rewrite Hn1|cbn; by rewrite Hn1| |right; by eexists|wp_step; by left|].
  { intros c Hc. cbn in *. by apply Hc1. }
  unfold pick. rewrite decide_True by done. rewrite Hal2.
  destruct (scan _ _ _ _ _ _ _) as [ip|] eqn:Es.
  - destruct Hs as (v & -> & Hv & Hf & Hlow).
    apply scan_sound in Es as (_ & _ & _ & Hocc & _).
    wp_step. wp_step. wp_step. wp_step. unfold create_alloc. wp_step; [wp_step; by left|].
    rewrite Hal2, unoccupied_text by done. split; [done|]. wp_step. right. exists t. left. by exists v.
  - eapply (wp_mono _ _ _ _ _ (fun res _ => nb_kind row = KindDefault -> res = Err IP_PoolExhausted)).
    2:{ intros res s' _ H. right. exists t. by right. }
    destruct (decide (nb_kind row = KindDefault)) as [Hd|Hd]; [|by apply solo_any].
    wp_step. cbn [registry_allocator WithResolver a_grower registry_resolver rs_Grow resolved_of res_Named].
    rewrite bool_decide_false by (by rewrite Hd). repeat (wp_step; try done).
Qed.

(** ** A deployment *)

Definition demo_ipam : Pool := mkPool demo_pool ∅ [ip4 10 44 1 1] 60.
Definition demo_alloc : Allocator := registry_allocator demo_reg demo_ipam.

#[export] Instance demo_alloc_ok : AllocatorOK demo_alloc.
Proof. apply _. Qed.

(** The default block of the deployment, and an address in quarantine. *)
Definition demo_default : Netblock :=
  mkNetblock 2 "default" "10.44.8.0/22" KindDefault "fallback" true 7 "genesis".
Definition demo_row : Allocation := mkAllocation 1 "10.44.8.1" 1 stateQuarantined 5 10 70 2 "token".
Definition demo_quarantine : Store := set_allocs [demo_row] demo_store.

Lemma leases_are_exclusive_witness :
  wpt (fun _ => True) eq (alloc_guar (fun _ => True)) (Allocate demo_alloc "h1" "web" "token") (fun res s' =>
    uniq s' /\ forall ip, res = Ok ip ->
      (ip ∉ pool_Reserved (a_pool demo_alloc)) /\
      exists row, row ∈ allocs s' /\ al_ip row = AddrString ip /\ al_state row = stateAllocated /\
        al_method row = "token" /\
        forall row', row' ∈ allocs s' -> al_ip row' = AddrString ip -> row' = row) demo_store /\
  (run 9 (Allocate demo_alloc "h1" "web" "token") demo_store).1 = Ok (ip4 10 44 1 2).
Proof.
  split; [|by vm_compute].
  apply (leases_are_exclusive _ eq demo_alloc "h1" "web" "token" demo_store).
  - by intros s s' <-.
  - unfold uniq. vm_compute. constructor.
Defined.

Lemma quarantine_is_respected_witness :
  wpt (fun t => t < 70) eq (alloc_guar (fun t => t < 70)) (Allocate demo_alloc "h1" "" "token")
    (fun res s' => demo_row ∈ allocs s' /\ res <> Ok (ip4 10 44 8 1)) demo_quarantine /\
  (run 69 (Allocate demo_alloc "h1" "" "token") demo_quarantine).1 = Ok (ip4 10 44 8 2) /\
  (run 70 (Allocate demo_alloc "h1" "" "token") demo_quarantine).1 = Ok (ip4 10 44 8 1).
Proof.
  split; [|split; by vm_compute].
  apply (quarantine_is_respected 70 demo_row (ip4 10 44 8 1) eq demo_alloc "h1" "" "token" demo_quarantine).
  - done.
  - by vm_compute.
  - by intros s s' <-.
  - by apply list_elem_of_singleton.
Defined.

Lemma join_source_stays_in_its_block_witness :
  solo (Allocate demo_alloc "h1" "central" "token") (fun res s' =>
    forall ip, res = Ok ip -> exists row, join_row (netblocks demo_store) "central" = Some row /\
      (nb_kind row = KindNamed \/ nb_kind row = KindDefault) /\ in_block demo_reg s' row ip) demo_store /\
  (run 9 (Allocate demo_alloc "h1" "central" "token") demo_store).1 = Ok (ip4 10 44 8 1).
Proof.
  split; [|by vm_compute].
  apply (join_source_stays_in_its_block demo_reg demo_ipam "h1" "central" "token" demo_store); apply demo_inv.
Defined.

Lemma allocate_returns_lowest_free_witness :
  solo (Allocate demo_alloc "h1" "" "token") (fun res s' =>
    res = Err DbFault \/
    exists t,
      let free := assignable (nb_Prefix demo_default) [ip4 10 44 1 1]
                    (omap ParseAddr (al_ip <$> purged t demo_store)) [] in
      (exists v, res = Ok (Addr4 v) /\ free (Addr4 v) = true /\ forall w, free (Addr4 w) = true -> v <= w) \/
      ((forall a, free a = false) /\ (nb_kind demo_default = KindDefault -> res = Err IP_PoolExhausted))) demo_store.
Proof.
  apply (allocate_returns_lowest_free demo_reg demo_ipam "h1" "" "token" demo_store demo_default);
    [apply demo_inv|apply demo_inv|by vm_compute|vm_compute; repeat constructor|by right].
Defined.
