(* ===== verification/Policy.v ===== *)
(** * internal/policy: the firewall policy and its compilation

    The allow-list DSL ([Parse], [Validate]), the reserved-group checks and
    [CompileHost], which turns the fleet policy into one host's nebula firewall
    section with the baseline that no policy can remove. *)

From S2P Require Import Prelude GoStrings.
From stdpp Require Import prelude strings list.
From Stdlib Require Import ZArith Lia Ascii.
Open Scope Z_scope.

Definition GroupControlPlane : string := "control-plane".
Definition GroupLighthouse : string := "lighthouse".
Definition PublishKind : string := "policy.publish".

(** [policy.Rule] *)
Record Rule : Type := mkRule {
  FromGroup : string;
  ToGroup : string;
  Proto : string;
  Port : string;
}.

#[export] Instance Rule_eq_dec : EqDecision Rule.
Proof. solve_decision. Defined.

(** [policy.Policy] *)
Record Policy : Type := mkPolicy { Version : Z; Rules : list Rule }.

(** [nebulaconfig.Rule]; [Groups] and [CIDR] are never set by this package. *)
Record NRule : Type := mkNRule { n_Port : string; n_Proto : string; n_Host : string; n_Group : string }.

#[export] Instance NRule_eq_dec : EqDecision NRule.
Proof. solve_decision. Defined.

(** [policy.Compiled] *)
Record Compiled : Type := mkCompiled { Inbound : list NRule; Outbound : list NRule }.

(** The errors, with the line or rule index their text carries. *)
Inductive perr : Type :=
| BadLine (line : Z) (text : string)
| EmptyGroup (rule : Z)
| BadProto (rule : Z) (proto : string)
| BadPort (rule : Z) (port : string)
| ReservedRef (rule : Z) (group : string)
| BadTestLine (line : Z) (text : string)
| BadTestQuery (line : Z)
| BadQueryProto (proto : string)
| BadQueryPort (port : string).

Definition IsReservedGroup (g : string) : bool :=
  bool_decide (g = GroupControlPlane) || bool_decide (g = GroupLighthouse).

Definition GrantsReservedGroup (groups : list string) : bool := existsb IsReservedGroup groups.

Definition ContainsReservedRef (p : Policy) : bool :=
  existsb (fun r => IsReservedGroup (FromGroup r) || IsReservedGroup (ToGroup r)) (Rules p).

(** ** Parsing and validation *)

Definition stripGroup (s : string) : string := TrimPrefix s "group:".

(** The closure [check] of [validatePort]. *)
Definition check_port (s : string) : bool :=
  match Atoi s with Some n => (1 <=? n) && (n <=? 65535) | None => false end.

Definition validatePort (p : string) : bool :=
  if decide (p = "any") then true
  else match Cut "-" p with
       | (_, _, false) => check_port p
       | (lo, hi, true) => check_port lo && check_port hi
       end.

Definition valid_proto (p : string) : bool :=
  bool_decide (p = "tcp") || bool_decide (p = "udp") || bool_decide (p = "icmp") || bool_decide (p = "any").

Fixpoint validate_rules (i : Z) (rs : list Rule) : result perr unit :=
  match rs with
  | [] => Ok ()
  | r :: rs =>
      if decide (FromGroup r = "" \/ ToGroup r = "") then Err (EmptyGroup i)
      else if negb (valid_proto (Proto r)) then Err (BadProto i (Proto r))
      else if negb (validatePort (Port r)) then Err (BadPort i (Port r))
      else validate_rules (i + 1) rs
  end.

Definition Validate (p : Policy) : result perr unit := validate_rules 0 (Rules p).

(** The loop of [Parse] over the lines, [i] the index of the next one. *)
Fixpoint parse_lines (i : Z) (lines : list string) : result perr (list Rule) :=
  match lines with
  | [] => Ok []
  | raw :: lines =>
      let line := TrimSpace raw in
      if decide (line = "") then parse_lines (i + 1) lines
      else if HasPrefix line "#" then parse_lines (i + 1) lines
      else match Fields line with
           | [allow; from; arrow; to; proto; port] =>
               if decide (allow = "allow" /\ arrow = "->")
               then match parse_lines (i + 1) lines with
                    | Ok rs => Ok (mkRule (stripGroup from) (stripGroup to) (ToLower proto) port :: rs)
                    | Err e => Err e
                    end
               else Err (BadLine (i + 1) line)
           | _ => Err (BadLine (i + 1) line)
           end
  end.

Definition Parse (text : string) : result perr Policy :=
  match parse_lines 0 (Split newline text) with
  | Err e => Err e
  | Ok rs => let p := mkPolicy 0 rs in
             match Validate p with Ok _ => Ok p | Err e => Err e end
  end.

Fixpoint check_rules (i : Z) (rs : list Rule) : result perr unit :=
  match rs with
  | [] => Ok ()
  | r :: rs =>
      match find_first IsReservedGroup [FromGroup r; ToGroup r] with
      | Some g => Err (ReservedRef i g)
      | None => check_rules (i + 1) rs
      end
  end.

Definition CheckInvariants (p : Policy) : result perr unit := check_rules 0 (Rules p).

(** ** Compilation *)

Definition selector (proto port group : string) : NRule :=
  if decide (group = "any") then mkNRule port proto "any" "" else mkNRule port proto "" group.

Definition bar : ascii := "|"%char.

Definition rule_key (r : NRule) : string :=
  n_Proto r +:+ "|" +:+ n_Port r +:+ "|" +:+ n_Host r +:+ "|" +:+ n_Group r.

(** The loop of [dedup]; the code compacts the slice in place, the write index
    never ahead of the read index. *)
Fixpoint dedup_go (seen : list string) (rules : list NRule) : list NRule :=
  match rules with
  | [] => []
  | r :: rules =>
      let k := rule_key r in
      if decide (k ∈ seen) then dedup_go seen rules
      else r :: dedup_go (k :: seen) rules
  end.

Definition dedup (rules : list NRule) : list NRule := dedup_go [] rules.

(** [hg[g]]: the host is a member of the group. *)
Definition member (hostGroups : list string) (g : string) : bool := bool_decide (g ∈ hostGroups).

(** The user rules of a host, in policy order. *)
Definition user_inbound (p : Policy) (hg : list string) : list NRule :=
  omap (fun r => if bool_decide (ToGroup r = "any") || member hg (ToGroup r)
                 then Some (selector (Proto r) (Port r) (FromGroup r)) else None) (Rules p).

Definition user_outbound (p : Policy) (hg : list string) : list NRule :=
  omap (fun r => if bool_decide (FromGroup r = "any") || member hg (FromGroup r)
                 then Some (selector (Proto r) (Port r) (ToGroup r)) else None) (Rules p).

Definition any_host : NRule := mkNRule "any" "any" "any" "".
Definition icmp_any : NRule := mkNRule "any" "icmp" "any" "".
Definition to_control_plane : NRule := mkNRule "any" "any" "" GroupControlPlane.

Definition baseline_in (hg : list string) : list NRule :=
  (if member hg GroupControlPlane then [any_host] else []) ++ [icmp_any].

Definition baseline_out (hg : list string) : list NRule :=
  (if member hg GroupControlPlane then [any_host] else [to_control_plane]) ++ [icmp_any].

Definition CompileHost (p : Policy) (hostGroups : list string) : Compiled :=
  mkCompiled (dedup (user_inbound p hostGroups ++ baseline_in hostGroups))
             (dedup (user_outbound p hostGroups ++ baseline_out hostGroups)).

(** ** Valid policies *)

Definition rule_ok (r : Rule) : Prop :=
  FromGroup r <> "" /\ ToGroup r <> "" /\ valid_proto (Proto r) = true /\ validatePort (Port r) = true.

Lemma validate_rules_ok i rs : validate_rules i rs = Ok () <-> Forall rule_ok rs.
Proof.
  revert i. induction rs as [|r rs IH]; intros i; cbn; [by split|].
  destruct (decide (_ \/ _)) as [Hg|Hg].
  { split; [done|]. intros [(H1 & H2 & _) _]%Forall_cons. by destruct Hg. }
  destruct (valid_proto _) eqn:Ep; cbn; [|split; [done|]; intros [(_ & _ & H & _) _]%Forall_cons; congruence].
  destruct (validatePort _) eqn:Eq; cbn; [|split; [done|]; intros [(_ & _ & _ & H) _]%Forall_cons; congruence].
  rewrite IH, Forall_cons. split; [|by intros [_ ?]]. intros H. split; [|done].
  split_and!; try done; intros E; apply Hg; auto.
Qed.

Lemma Validate_ok p : Validate p = Ok () <-> Forall rule_ok (Rules p).
Proof. apply validate_rules_ok. Qed.

(** A concrete text without a byte. *)
Ltac not_in := apply (bool_decide_unpack _); vm_compute.

Lemma check_port_chars s : check_port s = true -> bar ∉ chars s.
Proof.
  unfold check_port. destruct (Atoi s) eqn:E; [|done]. intros _ Hin.
  apply Atoi_chars in E. rewrite Forall_forall in E. specialize (E bar Hin).
  destruct E as [E|[E|[x E]]]; done.
Qed.

Lemma validatePort_chars s : validatePort s = true -> bar ∉ chars s.
Proof.
  unfold validatePort. destruct (decide (s = "any")) as [->|]; [intros _; by not_in|].
  destruct (Cut "-" s) as [[lo hi] [|]] eqn:E.
  - intros H. bool_split. apply Cut_found in E as [-> _]. rewrite chars_app. cbn.
    rewrite elem_of_app, elem_of_cons.
    intros [Hl|[?|Hh]]; [by apply (check_port_chars lo)|done|by apply (check_port_chars hi)].
  - apply check_port_chars.
Qed.

Lemma valid_proto_chars s : valid_proto s = true -> bar ∉ chars s.
Proof.
  unfold valid_proto. intros H.
  repeat match goal with H : _ || _ = true |- _ => apply orb_true_iff in H as [H|H] end;
    bool_split; subst; by not_in.
Qed.

(** ** Deduplication *)

(** Rules whose key determines them: no bar before the last field. *)
Definition key_ok (r : NRule) : Prop :=
  (bar ∉ chars (n_Proto r)) /\ (bar ∉ chars (n_Port r)) /\ (bar ∉ chars (n_Host r)).

Lemma rule_key_inj r r' : key_ok r -> key_ok r' -> rule_key r = rule_key r' -> r = r'.
Proof.
  destruct r as [po pr ho gr], r' as [po' pr' ho' gr']. intros (H1 & H2 & H3) (H1' & H2' & H3').
  unfold rule_key; cbn in *. intros H.
  apply string_sep_inj in H as [-> H]; [|done..].
  apply string_sep_inj in H as [-> H]; [|done..].
  by apply string_sep_inj in H as [-> ->]; [|done..].
Qed.

Lemma dedup_go_spec seen rules :
  (forall r, r ∈ dedup_go seen rules -> r ∈ rules /\ rule_key r ∉ seen) /\
  (forall r, r ∈ rules -> rule_key r ∈ seen \/ rule_key r ∈ (rule_key <$> dedup_go seen rules)) /\
  NoDup (rule_key <$> dedup_go seen rules).
Proof.
  revert seen. induction rules as [|r rules IH]; intros seen; cbn [dedup_go].
  { split_and!; [intros r Hr; by apply elem_of_nil in Hr| |constructor].
    intros r Hr; by apply elem_of_nil in Hr. }
  case_decide as Hk.
  - destruct (IH seen) as (H1 & H2 & H3). split_and!; [|intros x [->|Hx]%elem_of_cons; auto|done].
    intros x Hx. destruct (H1 x Hx). split; [by constructor|done].
  - destruct (IH (rule_key r :: seen)) as (H1 & H2 & H3). split_and!.
    + intros x [->|Hx]%elem_of_cons; [split; [constructor|done]|].
      destruct (H1 x Hx) as [? Hs]. split; [by constructor|]. intros ?. apply Hs. by constructor.
    + intros x [->|Hx]%elem_of_cons; [right; constructor|].
      destruct (H2 x Hx) as [[->|?]%elem_of_cons|?]; [right; constructor|by left|right; by constructor].
    + cbn. apply NoDup_cons. split; [|done]. intros (x & Hx & Hin)%list_elem_of_fmap.
      destruct (H1 x Hin) as [_ Hs]. apply Hs. rewrite <- Hx. constructor.
Qed.

(** When keys determine rules, deduplication changes only multiplicity. *)
Lemma dedup_set rules : Forall key_ok rules ->
  (forall r, r ∈ dedup rules <-> r ∈ rules) /\ NoDup (dedup rules).
Proof.
  intros Hk. rewrite Forall_forall in Hk. destruct (dedup_go_spec [] rules) as (H1 & H2 & H3).
  split.
  - intros r. split; [by intros [? _]%H1|]. intros Hr.
    destruct (H2 r Hr) as [H|(r' & Hkey & Hr')%list_elem_of_fmap]; [by apply elem_of_nil in H|].
    apply rule_key_inj in Hkey; [by subst|auto|]. apply Hk. by apply H1.
  - by eapply NoDup_fmap_1.
Qed.

Lemma selector_key_ok proto port g :
  valid_proto proto = true -> validatePort port = true -> key_ok (selector proto port g).
Proof.
  intros Hp Hq. unfold selector. case_decide; (split_and!; cbn;
    [by apply valid_proto_chars|by apply validatePort_chars|by not_in]).
Qed.

Lemma elem_of_user_inbound p hg x :
  x ∈ user_inbound p hg <-> exists r, r ∈ Rules p /\ (ToGroup r = "any" \/ ToGroup r ∈ hg) /\
    x = selector (Proto r) (Port r) (FromGroup r).
Proof.
  unfold user_inbound. rewrite list_elem_of_omap. split.
  - intros (r & Hr & Hx). exists r. split; [done|].
    destruct (bool_decide (ToGroup r = "any")) eqn:E1; cbn in Hx; [bool_split; injection Hx as <-; auto|].
    unfold member in Hx. destruct (bool_decide (_ ∈ hg)) eqn:E2; [|done]. bool_split. injection Hx as <-. auto.
  - intros (r & Hr & Hg & ->). exists r. split; [done|]. unfold member.
    destruct Hg as [Hg|Hg]; rewrite (bool_decide_true _ Hg); [done|by rewrite orb_true_r].
Qed.

Lemma elem_of_user_outbound p hg x :
  x ∈ user_outbound p hg <-> exists r, r ∈ Rules p /\ (FromGroup r = "any" \/ FromGroup r ∈ hg) /\
    x = selector (Proto r) (Port r) (ToGroup r).
Proof.
  unfold user_outbound. rewrite list_elem_of_omap. split.
  - intros (r & Hr & Hx). exists r. split; [done|].
    destruct (bool_decide (FromGroup r = "any")) eqn:E1; cbn in Hx; [bool_split; injection Hx as <-; auto|].
    unfold member in Hx. destruct (bool_decide (_ ∈ hg)) eqn:E2; [|done]. bool_split. injection Hx as <-. auto.
  - intros (r & Hr & Hg & ->). exists r. split; [done|]. unfold member.
    destruct Hg as [Hg|Hg]; rewrite (bool_decide_true _ Hg); [done|by rewrite orb_true_r].
Qed.

Lemma compile_keys p hg : Forall rule_ok (Rules p) ->
  Forall key_ok (user_inbound p hg ++ baseline_in hg) /\ Forall key_ok (user_outbound p hg ++ baseline_out hg).
Proof.
  intros Hv. rewrite Forall_forall in Hv.
  assert (Hb : Forall key_ok [any_host; icmp_any; to_control_plane]).
  { repeat constructor; by not_in. }
  rewrite Forall_forall in Hb.
  split; apply Forall_app; split; apply Forall_forall.
  - intros x (r & Hr & _ & ->)%elem_of_user_inbound. destruct (Hv r Hr) as (_ & _ & ? & ?). by apply selector_key_ok.
  - intros x Hx. apply Hb. unfold baseline_in in Hx. destruct (member _ _); set_solver.
  - intros x (r & Hr & _ & ->)%elem_of_user_outbound. destruct (Hv r Hr) as (_ & _ & ? & ?). by apply selector_key_ok.
  - intros x Hx. apply Hb. unfold baseline_out in Hx. destruct (member _ _); set_solver.
Qed.

(** A compiled section, as a set of rules. *)
Lemma elem_of_compiled p hg : Forall rule_ok (Rules p) -> forall x,
  (x ∈ Inbound (CompileHost p hg) <-> x ∈ user_inbound p hg \/ x ∈ baseline_in hg) /\
  (x ∈ Outbound (CompileHost p hg) <-> x ∈ user_outbound p hg \/ x ∈ baseline_out hg).
Proof.
  intros Hv x. destruct (compile_keys p hg Hv) as [Hi Ho].
  destruct (dedup_set _ Hi) as [Hi' _]. destruct (dedup_set _ Ho) as [Ho' _].
  unfold CompileHost; cbn [Inbound Outbound]. rewrite Hi', Ho', !elem_of_app. done.
Qed.

(** ** Properties *)

(** C9: compilation of a valid policy is exact. Deduplication by the joined key
    merges only equal rules, so a host's sections hold exactly the selectors of
    the rules that name one of its groups (or any) plus the baseline, each once:
    nothing a policy contains can remove or widen the baseline, and without a
    matching rule only the baseline is left. *)
Theorem compile_is_exact p hg :
  Validate p = Ok () ->
  (forall x, x ∈ Inbound (CompileHost p hg) <->
    (exists r, r ∈ Rules p /\ (ToGroup r = "any" \/ ToGroup r ∈ hg) /\
               x = selector (Proto r) (Port r) (FromGroup r)) \/ x ∈ baseline_in hg) /\
  (forall x, x ∈ Outbound (CompileHost p hg) <->
    (exists r, r ∈ Rules p /\ (FromGroup r = "any" \/ FromGroup r ∈ hg) /\
               x = selector (Proto r) (Port r) (ToGroup r)) \/ x ∈ baseline_out hg) /\
  NoDup (Inbound (CompileHost p hg)) /\ NoDup (Outbound (CompileHost p hg)).
Proof.
  intros Hv%Validate_ok. destruct (compile_keys p hg Hv) as [Hi Ho].
  split_and!; [| |by apply dedup_set|by apply dedup_set].
  - intros x. destruct (elem_of_compiled p hg Hv x) as [-> _]. by rewrite elem_of_user_inbound.
  - intros x. destruct (elem_of_compiled p hg Hv x) as [_ ->]. by rewrite elem_of_user_outbound.
Qed.

Definition demo_policy : Policy :=
  mkPolicy 0 [mkRule "web" "db" "tcp" "5432"; mkRule "any" "web" "tcp" "443-443";
              mkRule "ops" "any" "tcp" "22"; mkRule "ops" "any" "tcp" "22"].

Lemma compile_is_exact_witness :
  Validate demo_policy = Ok () /\
  ((forall x, x ∈ Inbound (CompileHost demo_policy ["db"]) <->
    (exists r, r ∈ Rules demo_policy /\ (ToGroup r = "any" \/ ToGroup r ∈ ["db"]) /\
               x = selector (Proto r) (Port r) (FromGroup r)) \/ x ∈ baseline_in ["db"]) /\
  (forall x, x ∈ Outbound (CompileHost demo_policy ["db"]) <->
    (exists r, r ∈ Rules demo_policy /\ (FromGroup r = "any" \/ FromGroup r ∈ ["db"]) /\
               x = selector (Proto r) (Port r) (ToGroup r)) \/ x ∈ baseline_out ["db"]) /\
  NoDup (Inbound (CompileHost demo_policy ["db"])) /\ NoDup (Outbound (CompileHost demo_policy ["db"]))).
Proof. split; [by vm_compute|]. apply (compile_is_exact demo_policy ["db"]). by vm_compute. Defined.

(** The invariant check accepts exactly the policies without a reserved
    reference, and otherwise names the first offending rule and its group: a
    policy that passed it never needs the privileged route. *)
Theorem invariants_exclude_reserved p :
  match CheckInvariants p with
  | Ok _ => ContainsReservedRef p = false
  | Err e => ContainsReservedRef p = true /\
      exists i r g, e = ReservedRef (Z.of_nat i) g /\ Rules p !! i = Some r /\
        (g = FromGroup r \/ g = ToGroup r) /\ IsReservedGroup g = true /\
        forall j r', (j < i)%nat -> Rules p !! j = Some r' ->
          IsReservedGroup (FromGroup r') || IsReservedGroup (ToGroup r') = false
  end.
Proof.
  unfold CheckInvariants, ContainsReservedRef.
  assert (H : forall k rs, match check_rules (Z.of_nat k) rs with
    | Ok _ => existsb (fun r => IsReservedGroup (FromGroup r) || IsReservedGroup (ToGroup r)) rs = false
    | Err e => existsb (fun r => IsReservedGroup (FromGroup r) || IsReservedGroup (ToGroup r)) rs = true /\
        exists i r g, e = ReservedRef (Z.of_nat (k + i)) g /\ rs !! i = Some r /\
          (g = FromGroup r \/ g = ToGroup r) /\ IsReservedGroup g = true /\
          forall j r', (j < i)%nat -> rs !! j = Some r' ->
            IsReservedGroup (FromGroup r') || IsReservedGroup (ToGroup r') = false
    end).
  { intros k rs. revert k. induction rs as [|r rs IH]; intros k; [done|]. cbn [check_rules find_first existsb].
    destruct (IsReservedGroup (FromGroup r)) eqn:E1; cbn [orb].
    { split; [done|]. exists 0%nat, r, (FromGroup r). rewrite Nat.add_0_r. split_and!; try done; [by left|].
      intros j r' Hj. lia. }
    destruct (IsReservedGroup (ToGroup r)) eqn:E2; cbn [orb].
    { split; [done|]. exists 0%nat, r, (ToGroup r). rewrite Nat.add_0_r. split_and!; try done; [by right|].
      intros j r' Hj. lia. }
    specialize (IH (S k)). replace (Z.of_nat k + 1) with (Z.of_nat (S k)) by lia.
    destruct (check_rules _ rs) as [|e]; [done|].
    destruct IH as [? (i & x & g & -> & Hx & Hg & Hr & Hlow)]. split; [done|].
    exists (S i), x, g. split_and!; try done; [do 2 f_equal; lia|].
    intros [|j] r' Hj Hr'; [|eapply Hlow; [|done]; lia]. injection Hr' as <-. by rewrite E1, E2. }
  apply (H 0%nat).
Qed.
