(* ===== verification/PolicyAnalysis.v ===== *)
(** * internal/policy: analysis of a policy

    The reachability query, the all-pairs matrix, the flow diff with its blast
    radius and the policy test DSL of analysis.go, and what they promise about
    the sections [CompileHost] emits. *)

From S2P Require Import Prelude GoStrings Policy.
From stdpp Require Import prelude strings list gmap sorting.
From Stdlib Require Import ZArith Lia Ascii.
Open Scope Z_scope.

(** ** Matching *)

Definition matchGroup (ruleGroup q : string) : bool :=
  bool_decide (ruleGroup = "any") || bool_decide (ruleGroup = q).

Definition matchProto (ruleProto q : string) : bool :=
  if decide (q = "any") then true
  else bool_decide (ruleProto = "any") || bool_decide (ruleProto = q).

Definition matchPort (rulePort q : string) : bool :=
  if decide (q = "any" \/ rulePort = "any") then true
  else match Atoi q with
       | None => false
       | Some qn =>
           match Cut "-" rulePort with
           | (_, _, false) => match Atoi rulePort with Some rn => rn =? qn | None => false end
           | (lo, hi, true) =>
               match Atoi lo, Atoi hi with
               | Some lon, Some hin => (lon <=? qn) && (qn <=? hin)
               | _, _ => false
               end
           end
       end.

(** ** Reachability *)

Record Decision : Type := mkDecision {
  Allowed : bool;
  Reason : string;
  d_Rule : option Rule;
  Nearest : option Rule;
}.

(** The loop over the rules: the granting rule, or the nearest miss. *)
Fixpoint reach_rules (from to proto port : string) (nearest : option Rule) (rs : list Rule)
    : Rule + option Rule :=
  match rs with
  | [] => inr nearest
  | r :: rs =>
      if negb (matchGroup (FromGroup r) from) || negb (matchGroup (ToGroup r) to)
      then reach_rules from to proto port nearest rs
      else if matchProto (Proto r) proto && matchPort (Port r) port then inl r
      else reach_rules from to proto port
             (match nearest with None => Some r | Some n => Some n end) rs
  end.

Definition Reachable (p : Policy) (from to proto port : string) : Decision :=
  let proto := ToLower proto in
  if decide (proto = "icmp") then mkDecision true "baseline-icmp" None None
  else if decide (to = GroupControlPlane /\ from <> GroupControlPlane)
  then mkDecision true "baseline-control-plane" None None
  else match reach_rules from to proto port None (Rules p) with
       | inl r => mkDecision true "rule" (Some r) None
       | inr nearest =>
           if decide (proto = "any" /\ port = "any") then mkDecision true "baseline-icmp" None None
           else mkDecision false "default-deny" None nearest
       end.

(** ** The matrix *)

Record Flow : Type := mkFlow { f_Proto : string; f_Port : string }.

#[export] Instance Flow_eq_dec : EqDecision Flow.
Proof. solve_decision. Defined.

Definition flow_key (f : Flow) : string := f_Proto f +:+ "|" +:+ f_Port f.

(** Keep the first flow of each key. *)
Fixpoint distinct_flows (seen : list string) (fs : list Flow) : list Flow :=
  match fs with
  | [] => []
  | f :: fs => if decide (flow_key f ∈ seen) then distinct_flows seen fs
               else f :: distinct_flows (flow_key f :: seen) fs
  end.

Definition ruleFlows (p : Policy) (from to : string) : list Flow :=
  distinct_flows [] (omap (fun r =>
    if negb (matchGroup (FromGroup r) from) || negb (matchGroup (ToGroup r) to) then None
    else Some (mkFlow (Proto r) (Port r))) (Rules p)).

(** The keys of the set built by the loop, sorted. *)
Definition Groups (p : Policy) : list string :=
  sort_strings (remove_dups (List.filter (fun g => negb (bool_decide (g = "")) && negb (bool_decide (g = "any")))
    (flat_map (fun r => [FromGroup r; ToGroup r]) (Rules p)))).

Record MatrixCell : Type := mkCell { c_From : string; c_To : string; Flows : list Flow; Baseline : bool }.
Record MatrixResult : Type := mkMatrix { m_Groups : list string; Cells : list MatrixCell }.

Definition Matrix (p : Policy) (groups : list string) : MatrixResult :=
  let groups := match groups with [] => Groups p | _ => groups end in
  mkMatrix groups
    (flat_map (fun from => map (fun to =>
       mkCell from to (ruleFlows p from to) (bool_decide (to = GroupControlPlane))) groups) groups).

(** ** The flow diff *)

Record FlowDelta : Type := mkDelta { fd_From : string; fd_To : string; fd_Flow : Flow }.
Record DiffResult : Type := mkDiff { Added : list FlowDelta; Removed : list FlowDelta }.

Definition canonPort (port : string) : string :=
  match Cut "-" port with
  | (lo, hi, true) => if decide (lo = hi) then lo else port
  | _ => port
  end.

Definition literalFlows (p : Policy) (from to : string) : list Flow :=
  distinct_flows [] (omap (fun r =>
    if decide (FromGroup r <> from \/ ToGroup r <> to) then None
    else Some (mkFlow (Proto r) (canonPort (Port r)))) (Rules p)).

Definition flowsMinus (a b : list Flow) : list Flow :=
  let inB := flow_key <$> b in
  List.filter (fun f => negb (bool_decide (flow_key f ∈ inB))) a.

Definition pair_le (a b : string * string) : Prop :=
  if decide (a.1 = b.1) then string_le a.2 b.2 else string_le a.1 b.1.

#[export] Instance pair_le_dec a b : base.Decision (pair_le a b).
Proof. unfold pair_le. destruct (decide (a.1 = b.1)); apply _. Defined.

Definition unionLiteralPairs (active draft : Policy) : list (string * string) :=
  merge_sort pair_le (remove_dups ((fun r => (FromGroup r, ToGroup r)) <$> (Rules active ++ Rules draft))).

Definition FlowDiff (active draft : Policy) : DiffResult :=
  let deltas (x y : Policy) :=
    flat_map (fun pr => mkDelta pr.1 pr.2 <$>
      flowsMinus (literalFlows x pr.1 pr.2) (literalFlows y pr.1 pr.2)) (unionLiteralPairs active draft) in
  mkDiff (deltas draft active) (deltas active draft).

(** ** Blast radius *)

Record BlastResult : Type := mkBlast { Hosts : list string; b_Count : Z; Total : Z }.

Definition touch (groupHosts : gmap string (list string)) (allHosts : list string) (group : string)
    : list string :=
  if decide (group = "any") then allHosts else default [] (groupHosts !! group).

Definition BlastRadius (diff : DiffResult) (groupHosts : gmap string (list string)) (allHosts : list string)
    : BlastResult :=
  let affected := flat_map (fun d => touch groupHosts allHosts (fd_From d) ++
                                     touch groupHosts allHosts (fd_To d)) (Added diff ++ Removed diff) in
  let hosts := sort_strings (remove_dups affected) in
  mkBlast hosts (Z.of_nat (length hosts)) (Z.of_nat (length allHosts)).

(** ** Policy tests *)

Record Assertion : Type := mkAssertion {
  Expect : bool; as_From : string; as_To : string; as_Proto : string; as_Port : string; as_Line : Z }.

Record TestResult : Type := mkTest { t_Assertion : Assertion; Got : bool; Pass : bool; t_Reason : string }.

Definition ValidateQuery (proto port : string) : result perr unit :=
  if negb (valid_proto (ToLower proto)) then Err (BadQueryProto proto)
  else if decide (port = "any") then Ok ()
  else if validatePort port then Ok () else Err (BadQueryPort port).

Fixpoint parse_tests (i : Z) (lines : list string) : result perr (list Assertion) :=
  match lines with
  | [] => Ok []
  | raw :: lines =>
      let line := TrimSpace raw in
      if decide (line = "") then parse_tests (i + 1) lines
      else if HasPrefix line "#" then parse_tests (i + 1) lines
      else match Fields line with
           | [assert; verb; from; arrow; to; proto; port] =>
               if decide (assert = "assert" /\ (verb = "allow" \/ verb = "deny") /\ arrow = "->")
               then
                 let a := mkAssertion (bool_decide (verb = "allow")) (stripGroup from) (stripGroup to)
                            (ToLower proto) port (i + 1) in
                 match ValidateQuery (as_Proto a) (as_Port a) with
                 | Err _ => Err (BadTestQuery (i + 1))
                 | Ok _ => match parse_tests (i + 1) lines with
                           | Ok l => Ok (a :: l)
                           | Err e => Err e
                           end
                 end
               else Err (BadTestLine (i + 1) line)
           | _ => Err (BadTestLine (i + 1) line)
           end
  end.

Definition ParseTests (text : string) : result perr (list Assertion) := parse_tests 0 (Split newline text).

Definition RunTests (p : Policy) (assertions : list Assertion) : list TestResult :=
  map (fun a => let d := Reachable p (as_From a) (as_To a) (as_Proto a) (as_Port a) in
                mkTest a (Allowed d) (bool_decide (Allowed d = Expect a)) (Reason d)) assertions.

(** ** The firewall that enforces a section

    nebula's firewall is outside the repository. What is relied on is its
    documented rule language: a packet is dropped unless some rule of the section
    permits it, and a rule permits a packet when its protocol, its port and its
    peer selector do. *)

(** The documented meaning of a port specification: any, a number, or a range
    in ascending order. *)
Definition port_covers (spec : string) (n : Z) : option bool :=
  if decide (spec = "any") then Some true
  else match Cut "-" spec with
       | (_, _, false) => (fun k => n =? k) <$> Atoi spec
       | (lo, hi, true) =>
           match Atoi lo, Atoi hi with
           | Some l, Some h => if l <=? h then Some ((l <=? n) && (n <=? h)) else None
           | _, _ => None
           end
       end.

(** The peer selector of a rule: a group of the peer's certificate, or any
    host. *)
Definition selects (r : NRule) (peer : list string) : bool :=
  if decide (n_Group r = "") then bool_decide (n_Host r = "any")
  else bool_decide (n_Group r ∈ peer).

Class Nebula (permits : NRule -> list string -> string -> Z -> bool) : Prop :=
  nebula_rule : forall r peer proto n b,
    proto = "tcp" \/ proto = "udp" ->
    port_covers (n_Port r) n = Some b ->
    permits r peer proto n =
      selects r peer && (bool_decide (n_Proto r = "any") || bool_decide (n_Proto r = proto)) && b.

(** Every range of the policy is ascending (an inverted range has no documented
    meaning). *)
Definition ports_ascending (p : Policy) : Prop :=
  forall r, r ∈ Rules p -> forall lo hi l h, Cut "-" (Port r) = (lo, hi, true) ->
    Atoi lo = Some l -> Atoi hi = Some h -> l <= h.

Section enforcement.
Context (permits : NRule -> list string -> string -> Z -> bool) `{!Nebula permits}.

(** A host with groups [A] may send to a host with groups [B]: the sender's
    outbound section and the receiver's inbound section both permit it. *)
Definition enforced (p : Policy) (A B : list string) (proto : string) (n : Z) : bool :=
  existsb (fun r => permits r B proto n) (Outbound (CompileHost p A)) &&
  existsb (fun r => permits r A proto n) (Inbound (CompileHost p B)).

Lemma port_covers_match p r q n :
  Forall rule_ok (Rules p) -> ports_ascending p -> r ∈ Rules p -> Atoi q = Some n ->
  port_covers (Port r) n = Some (matchPort (Port r) q).
Proof.
  intros Hv Ha Hr Hq. rewrite Forall_forall in Hv. destruct (Hv r Hr) as (_ & _ & _ & Hp).
  assert (q <> "any") by (intros ->; done).
  unfold port_covers, matchPort, validatePort in *.
  destruct (decide (Port r = "any")) as [->|Hne].
  { by rewrite decide_True by (by right). }
  rewrite decide_False by (intros [?|?]; done). rewrite Hq.
  destruct (Cut "-" (Port r)) as [[lo hi] [|]] eqn:Ec.
  - apply andb_true_iff in Hp as [Hl Hh]. unfold check_port in *.
    destruct (Atoi lo) as [l|] eqn:El; [|done]. destruct (Atoi hi) as [h|] eqn:Eh; [|done].
    specialize (Ha r Hr lo hi l h Ec El Eh). by rewrite (proj2 (Z.leb_le l h)) by done.
  - unfold check_port in Hp. destruct (Atoi (Port r)); [|done]. cbn. by rewrite Z.eqb_sym.
Qed.

Lemma permits_selector p r peer proto q n g :
  Forall rule_ok (Rules p) -> ports_ascending p -> r ∈ Rules p -> Atoi q = Some n ->
  proto = "tcp" \/ proto = "udp" -> g <> "" -> peer <> [] ->
  permits (selector (Proto r) (Port r) g) peer proto n =
    (bool_decide (g = "any") || bool_decide (g ∈ peer)) && matchProto (Proto r) proto && matchPort (Port r) q.
Proof.
  intros Hv Ha Hr Hq Hproto Hg _.
  rewrite (nebula_rule _ _ _ _ (matchPort (Port r) q)); [|done|].
  2:{ rewrite <- (port_covers_match p r q n) by done. unfold selector. by case_decide. }
  unfold matchProto. rewrite decide_False by (destruct Hproto; by subst). f_equal. f_equal.
  - unfold selector, selects. destruct (decide (g = "any")) as [E|E]; cbn [n_Group n_Host].
    + by rewrite (bool_decide_true (g = "any")) by done.
    + rewrite decide_False by done. by rewrite (bool_decide_false (g = "any")) by done.
  - unfold selector. by case_decide.
Qed.

Lemma permits_baseline peer proto n :
  proto = "tcp" \/ proto = "udp" ->
  permits any_host peer proto n = true /\ permits icmp_any peer proto n = false /\
  permits to_control_plane peer proto n = bool_decide (GroupControlPlane ∈ peer).
Proof.
  intros Hp. split_and!; rewrite (nebula_rule _ _ _ _ true) by done; cbn.
  - done.
  - by destruct Hp as [->| ->].
  - unfold selects. cbn. by rewrite !andb_true_r.
Qed.

(** A rule grants the pair on this protocol and port. *)
Definition grants (from to proto q : string) (r : Rule) : bool :=
  matchGroup (FromGroup r) from && matchGroup (ToGroup r) to && matchProto (Proto r) proto && matchPort (Port r) q.

Lemma reach_rules_spec from to proto port nearest rs :
  match reach_rules from to proto port nearest rs with
  | inl r => r ∈ rs /\ grants from to proto port r = true
  | inr _ => forall r, r ∈ rs -> grants from to proto port r = false
  end.
Proof.
  revert nearest. induction rs as [|r rs IH]; intros nearest; cbn [reach_rules].
  { intros r Hr. by apply elem_of_nil in Hr. }
  assert (Hgo : forall nr, grants from to proto port r = false ->
    match reach_rules from to proto port nr rs with
    | inl x => x ∈ r :: rs /\ grants from to proto port x = true
    | inr _ => forall x, x ∈ r :: rs -> grants from to proto port x = false
    end).
  { intros nr Hr. specialize (IH nr). destruct (reach_rules _ _ _ _ _ _) as [x|].
    - destruct IH. split; [by constructor|done].
    - intros x [->|Hx]%elem_of_cons; auto. }
  unfold grants in Hgo at 1.
  destruct (matchGroup (FromGroup r) from) eqn:E1, (matchGroup (ToGroup r) to) eqn:E2;
    cbn [negb orb andb] in *; try (by apply Hgo).
  destruct (matchProto _ _ && matchPort _ _) eqn:E3; cbn [andb] in *; [|by apply Hgo].
  split; [constructor|]. unfold grants. by rewrite E1, E2, <- andb_assoc, E3.
Qed.

Lemma existsb_iff {A} (f : A -> bool) l b : (existsb f l = true <-> b = true) -> existsb f l = b.
Proof. intros H. apply eq_true_iff_eq. done. Qed.

Section pair.
Context (p : Policy) (from to proto q : string) (n : Z).
Hypothesis Hv : Forall rule_ok (Rules p).
Hypothesis Hasc : ports_ascending p.
Hypothesis Hproto : proto = "tcp" \/ proto = "udp".
Hypothesis Hq : Atoi q = Some n.

(** A rule that names a group of one host permits the other host exactly when it
    grants the pair. *)
Lemma grants_permits r : r ∈ Rules p ->
  (FromGroup r = "any" \/ FromGroup r ∈ [from] ->
     permits (selector (Proto r) (Port r) (ToGroup r)) [to] proto n = grants from to proto q r) /\
  (ToGroup r = "any" \/ ToGroup r ∈ [to] ->
     permits (selector (Proto r) (Port r) (FromGroup r)) [from] proto n = grants from to proto q r).
Proof.
  intros Hr. destruct (proj1 (Forall_forall _ _) Hv r Hr) as (Hf0 & Ht0 & _ & _).
  unfold grants, matchGroup.
  split; intros Hg; rewrite (permits_selector p r _ proto q n) by done; apply eq_true_iff_eq;
    rewrite !andb_true_iff, !orb_true_iff, !bool_decide_eq_true, !list_elem_of_singleton in *; tauto.
Qed.

Lemma grants_member r : grants from to proto q r = true ->
  (FromGroup r = "any" \/ FromGroup r ∈ [from]) /\ (ToGroup r = "any" \/ ToGroup r ∈ [to]).
Proof.
  unfold grants, matchGroup.
  rewrite !andb_true_iff, !orb_true_iff, !bool_decide_eq_true, !list_elem_of_singleton. tauto.
Qed.

Lemma outbound_spec :
  existsb (fun r => permits r [to] proto n) (Outbound (CompileHost p [from])) =
    existsb (grants from to proto q) (Rules p) ||
    bool_decide (from = GroupControlPlane \/ to = GroupControlPlane).
Proof.
  destruct (permits_baseline [to] proto n Hproto) as (Ba & Bi & Bc).
  apply existsb_iff. rewrite existsb_elem, orb_true_iff, existsb_elem, bool_decide_eq_true. split.
  - intros (x & [Hx|Hx]%(elem_of_compiled p [from] Hv) & Hpx).
    + apply elem_of_user_outbound in Hx as (r & Hr & Hg & ->). left. exists r. split; [done|].
      by rewrite <- (proj1 (grants_permits r Hr)).
    + right. unfold baseline_out, member in Hx. case_bool_decide as Hc; [left; by apply list_elem_of_singleton in Hc|].
      cbn in Hx. apply elem_of_cons in Hx as [->|Hx%list_elem_of_singleton]; [|subst; congruence].
      rewrite Bc in Hpx. bool_split. right. by apply list_elem_of_singleton in Hpx.
  - intros [(r & Hr & Hg)|Hcp].
    + exists (selector (Proto r) (Port r) (ToGroup r)). destruct (grants_member r Hg) as [Hm _]. split.
      * apply (elem_of_compiled p [from] Hv). left. apply elem_of_user_outbound. eauto.
      * by rewrite (proj1 (grants_permits r Hr)).
    + assert (Hmem : GroupControlPlane ∈ [from] <-> from = GroupControlPlane)
        by (rewrite list_elem_of_singleton; done).
      exists (if decide (from = GroupControlPlane) then any_host else to_control_plane). split.
      * apply (elem_of_compiled p [from] Hv). right. unfold baseline_out, member.
        rewrite (bool_decide_ext _ _ Hmem).
        destruct (decide (from = GroupControlPlane)) as [E|E];
          [rewrite bool_decide_true by done|rewrite bool_decide_false by done]; constructor.
      * destruct (decide (from = GroupControlPlane)) as [E|E]; [done|]. destruct Hcp as [?|Hcp]; [done|].
        rewrite Bc. apply bool_decide_eq_true. by apply list_elem_of_singleton.
Qed.

Lemma inbound_spec :
  existsb (fun r => permits r [from] proto n) (Inbound (CompileHost p [to])) =
    existsb (grants from to proto q) (Rules p) || bool_decide (to = GroupControlPlane).
Proof.
  destruct (permits_baseline [from] proto n Hproto) as (Ba & Bi & Bc).
  apply existsb_iff. rewrite existsb_elem, orb_true_iff, existsb_elem, bool_decide_eq_true. split.
  - intros (x & [Hx|Hx]%(elem_of_compiled p [to] Hv) & Hpx).
    + apply elem_of_user_inbound in Hx as (r & Hr & Hg & ->). left. exists r. split; [done|].
      by rewrite <- (proj2 (grants_permits r Hr)).
    + right. unfold baseline_in, member in Hx. case_bool_decide as Hc; [by apply list_elem_of_singleton in Hc|].
      cbn in Hx. apply list_elem_of_singleton in Hx as ->. congruence.
  - intros [(r & Hr & Hg)|Hcp].
    + exists (selector (Proto r) (Port r) (FromGroup r)). destruct (grants_member r Hg) as [_ Hm]. split.
      * apply (elem_of_compiled p [to] Hv). left. apply elem_of_user_inbound. eauto.
      * by rewrite (proj2 (grants_permits r Hr)).
    + exists any_host. split; [|done].
      apply (elem_of_compiled p [to] Hv). right. unfold baseline_in, member.
      rewrite bool_decide_true by (by apply list_elem_of_singleton). constructor.
Qed.
End pair.

(** What the sections of two single-group hosts let through: the pairs some rule
    grants, and everything to the control plane. *)
Lemma enforced_spec p from to proto q n :
  Validate p = Ok () -> ports_ascending p -> proto = "tcp" \/ proto = "udp" -> Atoi q = Some n ->
  enforced p [from] [to] proto n =
    existsb (grants from to proto q) (Rules p) || bool_decide (to = GroupControlPlane).
Proof.
  intros Hv%Validate_ok Ha Hp Hq. unfold enforced.
  rewrite (outbound_spec p from to proto q n), (inbound_spec p from to proto q n) by done.
  destruct (existsb _ _); [done|]. cbn [orb].
  destruct (decide (to = GroupControlPlane)) as [Hc|Hc].
  - by rewrite !bool_decide_true by auto.
  - by rewrite (bool_decide_false (to = _)), andb_false_r by done.
Qed.

Lemma Reachable_spec p from to proto q n :
  proto = "tcp" \/ proto = "udp" -> Atoi q = Some n ->
  Allowed (Reachable p from to proto q) =
    existsb (grants from to proto q) (Rules p) ||
    bool_decide (to = GroupControlPlane /\ from <> GroupControlPlane).
Proof.
  intros Hp Hq. unfold Reachable.
  assert (ToLower proto = proto) as -> by (by destruct Hp as [->| ->]).
  rewrite decide_False by (by destruct Hp as [->| ->]).
  destruct (decide (to = _ /\ _)) as [Hc|Hc].
  { by rewrite (bool_decide_true _ Hc), orb_true_r. }
  rewrite (bool_decide_false _ Hc), orb_false_r.
  pose proof (reach_rules_spec from to proto q None (Rules p)) as Hs.
  destruct (reach_rules _ _ _ _ _ _) as [r|nr].
  - cbn. symmetry. apply existsb_elem. by exists r.
  - rewrite decide_False by (destruct Hp as [->| ->]; by intros [? _]). cbn. symmetry.
    by apply existsb_elem_false.
Qed.

(** C36: the console's answer is what the fleet enforces. For a valid policy with
    ascending ranges, two hosts of concrete groups and a concrete TCP or UDP
    port, [Reachable] allows exactly the packets that the sender's compiled
    outbound section and the receiver's compiled inbound section both permit,
    except between two control-plane hosts. Hosts of several groups and queries for a range are
    not covered. *)
Theorem reachable_is_enforced p from to proto q n :
  Validate p = Ok () -> ports_ascending p -> proto = "tcp" \/ proto = "udp" -> Atoi q = Some n ->
  ~ (from = GroupControlPlane /\ to = GroupControlPlane) ->
  Allowed (Reachable p from to proto q) = enforced p [from] [to] proto n.
Proof.
  intros Hv Ha Hp Hq Hcp. rewrite (enforced_spec p from to proto q n) by done.
  rewrite (Reachable_spec p from to proto q n) by done. f_equal. apply bool_decide_ext. naive_solver.
Qed.

(** The exception is real: two control-plane hosts always reach each other
    (the baseline opens both directions), yet [Reachable] denies the pair unless
    a rule names it, and such a rule is rejected by the invariant check. *)
Theorem control_plane_pair_underreported :
  let p := mkPolicy 0 [] in
  enforced p [GroupControlPlane] [GroupControlPlane] "tcp" 8443 = true /\
  Allowed (Reachable p GroupControlPlane GroupControlPlane "tcp" "8443") = false.
Proof.
  split; [|by vm_compute].
  rewrite (enforced_spec _ _ _ "tcp" "8443" 8443); [done|done| |by left|by vm_compute].
  intros r Hr. by apply elem_of_nil in Hr.
Qed.
End enforcement.

(** ** The diff *)

(** Flows whose key determines them. *)
Definition flow_ok (f : Flow) : Prop := bar ∉ chars (f_Proto f).

Lemma flow_key_inj f g : flow_ok f -> flow_ok g -> flow_key f = flow_key g -> f = g.
Proof.
  destruct f as [a b], g as [c d]. unfold flow_ok, flow_key; cbn. intros H1 H2 H.
  by apply string_sep_inj in H as [-> ->].
Qed.

Lemma distinct_flows_spec seen fs : Forall flow_ok fs ->
  forall f, f ∈ distinct_flows seen fs <-> f ∈ fs /\ flow_key f ∉ seen.
Proof.
  intros Hok. revert seen. induction Hok as [|x fs Hx Hfs IH]; intros seen f; cbn [distinct_flows].
  { split; [intros H; by apply elem_of_nil in H|intros [H _]; by apply elem_of_nil in H]. }
  rewrite Forall_forall in Hfs. case_decide as Hs.
  - rewrite IH, elem_of_cons. split; [naive_solver|]. intros [[->|H] Hn]; [done|done].
  - rewrite elem_of_cons, IH, !elem_of_cons. split.
    + intros [->|[Hf Hn]]; [by split; [left|]|]. split; [by right|]. intros H. apply Hn. by right.
    + intros [[->|Hf] Hn]; [by left|]. destruct (decide (f = x)) as [->|Hne]; [by left|]. right.
      split; [done|]. intros [Hk|Hk]; [|done]. apply Hne. apply flow_key_inj; auto.
Qed.

(** The flows a policy permits between two literal groups, with canonical
    ports. *)
Definition literal_flow (p : Policy) (from to : string) (f : Flow) : Prop :=
  exists r, r ∈ Rules p /\ FromGroup r = from /\ ToGroup r = to /\ f = mkFlow (Proto r) (canonPort (Port r)).

Lemma literal_flow_ok p from to f : Forall rule_ok (Rules p) -> literal_flow p from to f -> flow_ok f.
Proof.
  intros Hv (r & Hr & _ & _ & ->). rewrite Forall_forall in Hv. destruct (Hv r Hr) as (_ & _ & Hp & _).
  by apply valid_proto_chars.
Qed.

Lemma elem_of_literalFlows p from to f : Forall rule_ok (Rules p) ->
  f ∈ literalFlows p from to <-> literal_flow p from to f.
Proof.
  intros Hv. unfold literalFlows.
  assert (Hm : forall g, g ∈ omap (fun r => if decide (FromGroup r <> from \/ ToGroup r <> to) then None
      else Some (mkFlow (Proto r) (canonPort (Port r)))) (Rules p) <-> literal_flow p from to g).
  { intros g. rewrite list_elem_of_omap. split.
    - intros (r & Hr & Hg). destruct (decide (_ \/ _)) as [|Hn]; [done|]. injection Hg as <-.
      exists r. split_and!; try done; apply dec_stable; intros ?; apply Hn; auto.
    - intros (r & Hr & Hf & Ht & ->). exists r. split; [done|]. rewrite decide_False; [done|]. intros [?|?]; done. }
  rewrite distinct_flows_spec.
  - rewrite Hm. split; [by intros [? _]|]. intros H. split; [done|]. intros Hk. by apply elem_of_nil in Hk.
  - apply Forall_forall. intros g Hg%Hm. by eapply literal_flow_ok.
Qed.

Lemma elem_of_flowsMinus a b f : Forall flow_ok a -> Forall flow_ok b ->
  f ∈ flowsMinus a b <-> f ∈ a /\ f ∉ b.
Proof.
  intros Ha Hb. rewrite Forall_forall in Ha, Hb. unfold flowsMinus.
  rewrite list_elem_of_In, filter_In, <- list_elem_of_In, negb_true_iff, bool_decide_eq_false.
  split; intros [Hf Hn]; (split; [done|]).
  - intros Hfb. apply Hn. apply list_elem_of_fmap. eauto.
  - intros (g & Hk & Hg)%list_elem_of_fmap. apply Hn. apply flow_key_inj in Hk; [by subst|auto..].
Qed.

Lemma elem_of_unionLiteralPairs x y pr :
  pr ∈ unionLiteralPairs x y <-> exists r, r ∈ Rules x ++ Rules y /\ pr = (FromGroup r, ToGroup r).
Proof.
  unfold unionLiteralPairs. rewrite (merge_sort_Permutation pair_le), elem_of_remove_dups, list_elem_of_fmap.
  naive_solver.
Qed.

(** The flows of [x] between a pair that [y] does not have, over all pairs. *)
Lemma elem_of_deltas x y u v d :
  Forall rule_ok (Rules x) -> Forall rule_ok (Rules y) ->
  (forall r, r ∈ Rules x -> r ∈ Rules u ++ Rules v) ->
  d ∈ flat_map (fun pr => mkDelta pr.1 pr.2 <$>
        flowsMinus (literalFlows x pr.1 pr.2) (literalFlows y pr.1 pr.2)) (unionLiteralPairs u v) <->
  literal_flow x (fd_From d) (fd_To d) (fd_Flow d) /\ ~ literal_flow y (fd_From d) (fd_To d) (fd_Flow d).
Proof.
  intros Hx Hy Hsub. rewrite list_elem_of_In, in_flat_map.
  assert (Hok : forall p a b, Forall rule_ok (Rules p) -> Forall flow_ok (literalFlows p a b)).
  { intros p a b Hp. apply Forall_forall. intros f Hf%elem_of_literalFlows; [|done]. by eapply literal_flow_ok. }
  split.
  - intros (pr & _ & Hd). apply list_elem_of_In in Hd. apply list_elem_of_fmap in Hd as (f & -> & Hf).
    apply elem_of_flowsMinus in Hf; [|auto..]. by rewrite !elem_of_literalFlows in Hf.
  - intros [Hfx Hfy]. exists (fd_From d, fd_To d). rewrite <- !list_elem_of_In. split.
    + apply elem_of_unionLiteralPairs. destruct Hfx as (r & Hr & <- & <- & _). eauto.
    + apply list_elem_of_fmap. exists (fd_Flow d). split; [by destruct d|].
      apply elem_of_flowsMinus; [auto..|]. by rewrite !elem_of_literalFlows.
Qed.

(** The flow diff is exact: a delta is reported as added (removed) exactly
    when the draft (the active policy) has a rule between those literal groups with
    that protocol and canonical port and the other policy has none; order and
    duplicates of rules do not matter. *)
Theorem flow_diff_exact active draft d :
  Validate active = Ok () -> Validate draft = Ok () ->
  (d ∈ Added (FlowDiff active draft) <->
     literal_flow draft (fd_From d) (fd_To d) (fd_Flow d) /\
     ~ literal_flow active (fd_From d) (fd_To d) (fd_Flow d)) /\
  (d ∈ Removed (FlowDiff active draft) <->
     literal_flow active (fd_From d) (fd_To d) (fd_Flow d) /\
     ~ literal_flow draft (fd_From d) (fd_To d) (fd_Flow d)).
Proof.
  intros Ha%Validate_ok Hd%Validate_ok. unfold FlowDiff; cbn [Added Removed].
  split; apply elem_of_deltas; try done; intros r Hr; apply elem_of_app; auto.
Qed.

(** A single-value range and its scalar decide every query alike. *)
Lemma canonPort_match port q : validatePort port = true -> matchPort (canonPort port) q = matchPort port q.
Proof.
  unfold canonPort. destruct (Cut "-" port) as [[lo hi] [|]] eqn:Ec; [|done].
  destruct (decide (lo = hi)) as [<-|]; [|done]. unfold validatePort.
  assert (port <> "any") as Hpa by (intros ->; vm_compute in Ec; done).
  rewrite decide_False by done. rewrite Ec. intros Hv. apply andb_true_iff in Hv as [Hv _].
  unfold check_port in Hv. destruct (Atoi lo) as [l|] eqn:El; [|done].
  assert (lo <> "any") as Hla by (intros ->; done).
  apply Cut_found in Ec as Hc. destruct Hc as [_ Hno].
  unfold matchPort. destruct (decide (q = "any")) as [->|Hqa]; [by rewrite !decide_True by (by left)|].
  rewrite !decide_False by (intros [?|?]; done). destruct (Atoi q) as [qn|]; [|done]. rewrite Ec.
  destruct (Cut "-" lo) as [[lo' hi'] [|]] eqn:Ec2.
  { apply Cut_found in Ec2 as [-> _]. exfalso. apply Hno. rewrite chars_app. cbn.
    apply elem_of_app. right. constructor. }
  rewrite El. apply eq_true_iff_eq. rewrite andb_true_iff, !Z.leb_le, Z.eqb_eq. lia.
Qed.

Lemma grants_flow from to proto q r r' :
  validatePort (Port r) = true -> validatePort (Port r') = true ->
  FromGroup r = FromGroup r' -> ToGroup r = ToGroup r' ->
  mkFlow (Proto r) (canonPort (Port r)) = mkFlow (Proto r') (canonPort (Port r')) ->
  grants from to proto q r = grants from to proto q r'.
Proof.
  intros Hv Hv' Hf Ht [= Hp Hq]. unfold grants.
  rewrite <- (canonPort_match (Port r)), <- (canonPort_match (Port r')) by done. congruence.
Qed.

(** Policies with the same literal flows, one way. *)
Lemma same_flows_grants x y from to proto q :
  Forall rule_ok (Rules x) -> Forall rule_ok (Rules y) ->
  (forall a b f, literal_flow x a b f -> literal_flow y a b f) ->
  existsb (grants from to proto q) (Rules x) = true -> existsb (grants from to proto q) (Rules y) = true.
Proof.
  intros Hx Hy Hsub. rewrite Forall_forall in Hx, Hy. rewrite !existsb_elem. intros (r & Hr & Hg).
  destruct (Hsub (FromGroup r) (ToGroup r) (mkFlow (Proto r) (canonPort (Port r)))) as (r' & Hr' & Hf & Ht & Hfl);
    [by exists r|]. exists r'. split; [done|]. rewrite <- Hg. symmetry.
  destruct (Hx r Hr) as (_ & _ & _ & ?), (Hy r' Hr') as (_ & _ & _ & ?). by apply grants_flow.
Qed.

Lemma Reachable_grants p from to proto q :
  Allowed (Reachable p from to proto q) =
    bool_decide (ToLower proto = "icmp") ||
    bool_decide (to = GroupControlPlane /\ from <> GroupControlPlane) ||
    existsb (grants from to (ToLower proto) q) (Rules p) || bool_decide (ToLower proto = "any" /\ q = "any").
Proof.
  unfold Reachable. destruct (decide (ToLower proto = "icmp")) as [E|E]; [by rewrite bool_decide_true|].
  rewrite (bool_decide_false _ E). cbn [orb].
  destruct (decide (_ /\ _)) as [Hc|Hc]; [by rewrite (bool_decide_true _ Hc)|].
  rewrite (bool_decide_false _ Hc). cbn [orb].
  pose proof (reach_rules_spec from to (ToLower proto) q None (Rules p)) as Hs.
  destruct (reach_rules _ _ _ _ _ _) as [r|nr].
  - cbn. symmetry. apply orb_true_iff. left. apply existsb_elem. by exists r.
  - rewrite (proj2 (existsb_elem_false _ _) Hs). cbn [orb].
    destruct (decide (_ /\ _)) as [Ha|Ha]; [by rewrite (bool_decide_true _ Ha)|by rewrite (bool_decide_false _ Ha)].
Qed.

(** A reviewer who sees an empty diff sees no change: two valid policies with
    no added and no removed flow answer every reachability query alike. *)
Theorem empty_diff_same_reachability active draft from to proto q :
  Validate active = Ok () -> Validate draft = Ok () ->
  Added (FlowDiff active draft) = [] -> Removed (FlowDiff active draft) = [] ->
  Allowed (Reachable active from to proto q) = Allowed (Reachable draft from to proto q).
Proof.
  intros Ha%Validate_ok Hd%Validate_ok Hadd Hrem. rewrite !Reachable_grants. do 2 f_equal.
  assert (Hno : forall x y u v, Forall rule_ok (Rules x) -> Forall rule_ok (Rules y) ->
    (forall r, r ∈ Rules x -> r ∈ Rules u ++ Rules v) ->
    flat_map (fun pr => mkDelta pr.1 pr.2 <$>
      flowsMinus (literalFlows x pr.1 pr.2) (literalFlows y pr.1 pr.2)) (unionLiteralPairs u v) = [] ->
    forall a b f, literal_flow x a b f -> literal_flow y a b f).
  { intros x y u v Hx Hy Hs He a b f Hf. destruct (decide (f ∈ literalFlows y a b)) as [Hin|Hn].
    - by apply elem_of_literalFlows in Hin.
    - exfalso. apply (elem_of_nil (mkDelta a b f)). rewrite <- He. apply elem_of_deltas; [done..|].
      split; [done|]. cbn. by rewrite <- elem_of_literalFlows. }
  apply eq_true_iff_eq. split; apply same_flows_grants; try done.
  - eapply Hno; [done|done| |exact Hrem]. intros r Hr. apply elem_of_app. by left.
  - eapply Hno; [done|done| |exact Hadd]. intros r Hr. apply elem_of_app. by right.
Qed.

(** ** The blast radius *)

Definition canon_rule (x : NRule) : NRule := mkNRule (canonPort (n_Port x)) (n_Proto x) (n_Host x) (n_Group x).

Lemma canon_selector proto port g : canon_rule (selector proto port g) = selector proto (canonPort port) g.
Proof. unfold selector. by case_decide. Qed.

Lemma elem_of_BlastRadius diff gh all h :
  h ∈ Hosts (BlastRadius diff gh all) <->
  exists d, d ∈ Added diff ++ Removed diff /\ (h ∈ touch gh all (fd_From d) \/ h ∈ touch gh all (fd_To d)).
Proof.
  unfold BlastRadius, sort_strings; cbn [Hosts]. rewrite (merge_sort_Permutation string_le), elem_of_remove_dups.
  rewrite list_elem_of_In, in_flat_map. split.
  - intros (d & Hd & Hh). exists d. rewrite list_elem_of_In. split; [done|].
    apply list_elem_of_In, elem_of_app in Hh. done.
  - intros (d & Hd & Hh). exists d. rewrite <- list_elem_of_In. split; [done|].
    apply list_elem_of_In, elem_of_app. done.
Qed.

Section blast.
Context (active draft : Policy) (gh : gmap string (list string)) (all : list string).
Context (h : string) (hg : list string).
Hypothesis Ha : Forall rule_ok (Rules active).
Hypothesis Hd : Forall rule_ok (Rules draft).
Hypothesis Hall : h ∈ all.
Hypothesis Hmem : forall g, g ∈ hg -> exists l, gh !! g = Some l /\ h ∈ l.
Hypothesis Hout : h ∉ Hosts (BlastRadius (FlowDiff active draft) gh all).

Lemma touch_member g : (g = "any" \/ g ∈ hg) -> h ∈ touch gh all g.
Proof.
  intros [->|Hg]; unfold touch.
  - by rewrite decide_True.
  - destruct (decide (g = "any")); [done|]. destruct (Hmem g Hg) as (l & -> & Hl). done.
Qed.

(** A flow on one of the host's groups is in both policies. *)
Lemma unaffected_flow a b f :
  (a = "any" \/ a ∈ hg) \/ (b = "any" \/ b ∈ hg) ->
  (literal_flow active a b f <-> literal_flow draft a b f).
Proof.
  intros Hg.
  assert (Hno : forall d, d ∈ Added (FlowDiff active draft) ++ Removed (FlowDiff active draft) ->
                 fd_From d = a -> fd_To d = b -> False).
  { intros d Hdd Hda Hdb. apply Hout. apply elem_of_BlastRadius. exists d. split; [done|]. rewrite Hda, Hdb.
    destruct Hg as [Hg|Hg]; [left|right]; by apply touch_member. }
  split; intros Hf.
  - destruct (decide (f ∈ literalFlows draft a b)) as [Hin|Hn]; [by apply elem_of_literalFlows in Hin|].
    destruct (Hno (mkDelta a b f)); [|done|done]. apply elem_of_app. right.
    apply elem_of_deltas; [done|done|intros r Hr; apply elem_of_app; by left|].
    split; [done|]. cbn. by rewrite <- elem_of_literalFlows.
  - destruct (decide (f ∈ literalFlows active a b)) as [Hin|Hn]; [by apply elem_of_literalFlows in Hin|].
    destruct (Hno (mkDelta a b f)); [|done|done]. apply elem_of_app. left.
    apply elem_of_deltas; [done|done|intros r Hr; apply elem_of_app; by right|].
    split; [done|]. cbn. by rewrite <- elem_of_literalFlows.
Qed.
End blast.

(** A user rule of [x] for the host has its canonical twin in [y]. *)
Lemma canon_user x y hg :
  (forall a b f, (a = "any" \/ a ∈ hg) \/ (b = "any" \/ b ∈ hg) -> literal_flow x a b f -> literal_flow y a b f) ->
  (forall z, z ∈ canon_rule <$> user_inbound x hg -> z ∈ canon_rule <$> user_inbound y hg) /\
  (forall z, z ∈ canon_rule <$> user_outbound x hg -> z ∈ canon_rule <$> user_outbound y hg).
Proof.
  intros Hs. split; intros z (w & -> & Hw)%list_elem_of_fmap; apply list_elem_of_fmap.
  - apply elem_of_user_inbound in Hw as (r & Hr & Hg & ->).
    destruct (Hs (FromGroup r) (ToGroup r) (mkFlow (Proto r) (canonPort (Port r)))) as (r' & Hr' & Hf & Ht & [= Hp Hq]);
      [by right|by exists r|]. exists (selector (Proto r') (Port r') (FromGroup r')). split.
    + rewrite !canon_selector. congruence.
    + apply elem_of_user_inbound. exists r'. by rewrite Ht.
  - apply elem_of_user_outbound in Hw as (r & Hr & Hg & ->).
    destruct (Hs (FromGroup r) (ToGroup r) (mkFlow (Proto r) (canonPort (Port r)))) as (r' & Hr' & Hf & Ht & [= Hp Hq]);
      [by left|by exists r|]. exists (selector (Proto r') (Port r') (ToGroup r')). split.
    + rewrite !canon_selector. congruence.
    + apply elem_of_user_outbound. exists r'. by rewrite Hf.
Qed.

(** The blast radius is a superset of the affected hosts. A host outside it,
    whose groups' memberships the caller supplied, gets the same inbound and
    outbound rules from the draft as from the active policy (ports up to
    single-value ranges, order aside). *)
Theorem blast_radius_covers active draft gh all h hg :
  Validate active = Ok () -> Validate draft = Ok () -> h ∈ all ->
  (forall g, g ∈ hg -> exists l, gh !! g = Some l /\ h ∈ l) ->
  h ∉ Hosts (BlastRadius (FlowDiff active draft) gh all) ->
  forall z, (z ∈ canon_rule <$> Inbound (CompileHost active hg) <->
             z ∈ canon_rule <$> Inbound (CompileHost draft hg)) /\
            (z ∈ canon_rule <$> Outbound (CompileHost active hg) <->
             z ∈ canon_rule <$> Outbound (CompileHost draft hg)).
Proof.
  intros Ha%Validate_ok Hd%Validate_ok Hall Hmem Hout z.
  pose proof (fun a b f Hg => unaffected_flow active draft gh all h hg Ha Hd Hall Hmem Hout a b f Hg) as Hf.
  destruct (canon_user active draft hg) as [I1 O1]; [intros a b f Hg; by apply Hf|].
  destruct (canon_user draft active hg) as [I2 O2]; [intros a b f Hg; by apply Hf|].
  assert (Hc : forall p, Forall rule_ok (Rules p) ->
    (z ∈ canon_rule <$> Inbound (CompileHost p hg) <->
       z ∈ canon_rule <$> user_inbound p hg \/ z ∈ canon_rule <$> baseline_in hg) /\
    (z ∈ canon_rule <$> Outbound (CompileHost p hg) <->
       z ∈ canon_rule <$> user_outbound p hg \/ z ∈ canon_rule <$> baseline_out hg)).
  { intros p Hp. rewrite !list_elem_of_fmap.
    split; (split; [intros (x & -> & [Hx|Hx]%(elem_of_compiled p hg Hp)); [left|right]; eauto|]);
      intros [(x & -> & Hx)|(x & -> & Hx)]; exists x; (split; [done|]); apply (elem_of_compiled p hg Hp); auto. }
  destruct (Hc active Ha) as [-> ->], (Hc draft Hd) as [-> ->].
  split; split; intros [H|H]; auto.
Qed.

(** A range is accepted as the port of a query, but a query's port is read as
    one number: the well-formed query for exactly the ports a rule opens gets the
    confident default-deny that query validation is there to prevent. *)
Theorem range_query_denied :
  let p := mkPolicy 0 [mkRule "web" "db" "tcp" "80-90"] in
  Validate p = Ok () /\ ValidateQuery "tcp" "80-90" = Ok () /\
  Allowed (Reachable p "web" "db" "tcp" "80-90") = false /\
  Reason (Reachable p "web" "db" "tcp" "80-90") = "default-deny" /\
  (forall n, 80 <= n <= 90 -> forall q, Atoi q = Some n -> Allowed (Reachable p "web" "db" "tcp" q) = true).
Proof.
  split_and!; [by vm_compute..|]. intros n Hn q Hq.
  rewrite (Reachable_spec _ _ _ _ _ n) by (auto; done). apply orb_true_iff. left. cbn [Rules existsb].
  rewrite orb_false_r. unfold grants. cbn [FromGroup ToGroup Proto Port].
  assert (matchPort "80-90" q = true) as ->; [|done].
  unfold matchPort. rewrite decide_False by (intros [->|]; done). rewrite Hq.
  change (Cut "-" "80-90") with ("80", "90", true). cbv iota beta.
  change (Atoi "80") with (Some 80). change (Atoi "90") with (Some 90). cbv iota beta.
  apply andb_true_iff. rewrite !Z.leb_le. lia.
Qed.

(** ** Witnesses *)

(** A firewall with the documented rule language. *)
Definition demo_permits (r : NRule) (peer : list string) (proto : string) (n : Z) : bool :=
  selects r peer && (bool_decide (n_Proto r = "any") || bool_decide (n_Proto r = proto)) &&
  default false (port_covers (n_Port r) n).

#[export] Instance demo_nebula : Nebula demo_permits.
Proof. intros r peer proto n b _ Hp. unfold demo_permits. by rewrite Hp. Qed.

Definition range_ascending (r : Rule) : Prop :=
  forall lo hi l h, Cut "-" (Port r) = (lo, hi, true) -> Atoi lo = Some l -> Atoi hi = Some h -> l <= h.

Lemma demo_ascending : ports_ascending demo_policy.
Proof.
  enough (Forall range_ascending (Rules demo_policy)) as H by exact (proj1 (Forall_forall _ _) H).
  cbn [Rules demo_policy]. repeat (apply Forall_cons_2; [|]); [..|apply Forall_nil_2];
    intros lo hi l h Hc Hl Hh; vm_compute in Hc; simplify_eq; lia.
Qed.

Lemma reachable_is_enforced_witness :
  Allowed (Reachable demo_policy "web" "db" "tcp" "5432") = enforced demo_permits demo_policy ["web"] ["db"] "tcp" 5432 /\
  Allowed (Reachable demo_policy "db" "web" "tcp" "5432") = enforced demo_permits demo_policy ["db"] ["web"] "tcp" 5432 /\
  enforced demo_permits demo_policy ["web"] ["db"] "tcp" 5432 = true /\
  enforced demo_permits demo_policy ["db"] ["web"] "tcp" 5432 = false.
Proof.
  split_and!; [| |by vm_compute..];
    (apply (reachable_is_enforced demo_permits demo_policy);
     [by vm_compute|apply demo_ascending|by left|by vm_compute|by intros [? _]]).
Defined.

Lemma control_plane_pair_underreported_witness :
  enforced demo_permits (mkPolicy 0 []) [GroupControlPlane] [GroupControlPlane] "tcp" 8443 = true /\
  Allowed (Reachable (mkPolicy 0 []) GroupControlPlane GroupControlPlane "tcp" "8443") = false.
Proof. apply (control_plane_pair_underreported demo_permits). Defined.

Definition demo_draft : Policy :=
  mkPolicy 0 [mkRule "ops" "any" "tcp" "22"; mkRule "any" "web" "tcp" "443"; mkRule "web" "db" "tcp" "5433"].

Lemma flow_diff_exact_witness :
  let d := mkDelta "web" "db" (mkFlow "tcp" "5433") in
  d ∈ Added (FlowDiff demo_policy demo_draft) /\
  (d ∈ Added (FlowDiff demo_policy demo_draft) <->
     literal_flow demo_draft (fd_From d) (fd_To d) (fd_Flow d) /\
     ~ literal_flow demo_policy (fd_From d) (fd_To d) (fd_Flow d)) /\
  (d ∈ Removed (FlowDiff demo_policy demo_draft) <->
     literal_flow demo_policy (fd_From d) (fd_To d) (fd_Flow d) /\
     ~ literal_flow demo_draft (fd_From d) (fd_To d) (fd_Flow d)).
Proof.
  intros d. split; [vm_compute; constructor|].
  apply (flow_diff_exact demo_policy demo_draft d); by vm_compute.
Defined.

Lemma empty_diff_same_reachability_witness :
  let a := mkPolicy 0 [mkRule "any" "web" "tcp" "443-443"; mkRule "ops" "any" "tcp" "22"] in
  let b := mkPolicy 0 [mkRule "ops" "any" "tcp" "22"; mkRule "any" "web" "tcp" "443"] in
  Allowed (Reachable a "db" "web" "tcp" "443") = Allowed (Reachable b "db" "web" "tcp" "443").
Proof. apply empty_diff_same_reachability; by vm_compute. Defined.

Lemma blast_radius_covers_witness :
  let gh : gmap string (list string) := list_to_map [("web", ["10.44.1.1"]); ("db", ["10.44.1.2"]); ("ops", ["10.44.1.3"])] in
  let all := ["10.44.1.1"; "10.44.1.2"; "10.44.1.3"] in
  Hosts (BlastRadius (FlowDiff demo_policy demo_draft) gh all) = ["10.44.1.1"; "10.44.1.2"] /\
  forall z, (z ∈ canon_rule <$> Inbound (CompileHost demo_policy ["ops"]) <->
             z ∈ canon_rule <$> Inbound (CompileHost demo_draft ["ops"])) /\
            (z ∈ canon_rule <$> Outbound (CompileHost demo_policy ["ops"]) <->
             z ∈ canon_rule <$> Outbound (CompileHost demo_draft ["ops"])).
Proof.
  intros gh all. split; [by vm_compute|].
  apply (blast_radius_covers demo_policy demo_draft gh all "10.44.1.3" ["ops"]);
    [by vm_compute|by vm_compute|by apply (bool_decide_unpack _); vm_compute| |by apply (bool_decide_unpack _); vm_compute].
  intros g Hg%list_elem_of_singleton. subst g. exists ["10.44.1.3"]. split; [by vm_compute|by apply list_elem_of_singleton].
Defined.
