(* ===== verification/DualControl.v ===== *)
(** * internal/dualcontrol: two-person approval of privileged changes

    The [Controller] over the [approvals] and [approval_signoffs] tables. The
    store carries two ghost logs the code does not have: who won the commit claim
    of a change and who invoked its committer; they make the once-only claim
    statable and no decision of the model reads them. [tid] is the goroutine that
    runs a handler. *)

From S2P Require Import Prelude Db GoStrings.
From stdpp Require Import prelude strings list gmap pretty relations sorting.
From Stdlib Require Import ZArith Lia Ascii.
Open Scope Z_scope.

Definition StatePending : string := "pending".
Definition StateCommitting : string := "committing".
Definition StateCommitted : string := "committed".
Definition StateDenied : string := "denied".
Definition StateFailed : string := "failed".
Definition decisionApprove : string := "approve".
Definition decisionDeny : string := "deny".

(** [Change] *)
Record Change : Type := mkChange {
  ch_ID : Z;
  ch_Kind : string;
  ch_Target : string;
  ch_Payload : string;
  ch_PayloadHash : string;
  ch_State : string;
  ch_Quorum : Z;
  ch_Proposer : string;
  ch_CreatedAt : Z;
  ch_DecidedAt : Z;
}.

Inductive derr : Type :=
| DC_NotFound | DC_NotPending | DC_NoProposer | DC_NoActor
| DC_SelfApproval (ch : Change)      (* with the change the closure had loaded, which the caller audits *)
| DC_DuplicateActor (ch : Change)
| DC_RecordNotFound                  (* gorm's own error, from reload *)
| DC_Duplicated                      (* gorm.ErrDuplicatedKey *)
| DC_Rejected (text : string)        (* a committer's own error *)
| DC_Commit (cause : derr)           (* ErrCommit wrapping the committer's error *)
| DC_Fault.

#[export] Instance derr_db : DbError derr := DC_Fault.

(** [Signoff] *)
Record Signoff : Type := mkSignoff {
  sg_ID : Z;
  sg_ChangeID : Z;
  sg_Actor : string;
  sg_Decision : string;
  sg_CreatedAt : Z;
}.

(** A row of the config table (internal/config), which the committers write. *)
Record ConfigRow : Type := mkConfigRow { cf_Kind : string; cf_Payload : string; cf_Version : Z; cf_UpdatedAt : Z; cf_UpdatedBy : string }.

Record DStore : Type := mkDStore {
  changes : list Change;
  ch_seq : Z;
  signoffs : list Signoff;
  sg_seq : Z;
  d_audit : list (string * string * string * string);   (* actor, action, target, details *)
  claims : list (Z * nat);                               (* ghost: change, winner of its commit claim *)
  runs : list (Z * nat);                                 (* ghost: change, who called its committer *)
  d_conf : list ConfigRow;
}.

Definition empty_dstore : DStore := mkDStore [] 1 [] 1 [] [] [] [].

Definition set_changes (l : list Change) (n : Z) (s : DStore) : DStore :=
  mkDStore l n (signoffs s) (sg_seq s) (d_audit s) (claims s) (runs s) (d_conf s).
Definition set_signoffs (l : list Signoff) (n : Z) (s : DStore) : DStore :=
  mkDStore (changes s) (ch_seq s) l n (d_audit s) (claims s) (runs s) (d_conf s).
Definition add_daudit (e : string * string * string * string) (s : DStore) : DStore :=
  mkDStore (changes s) (ch_seq s) (signoffs s) (sg_seq s) (d_audit s ++ [e]) (claims s) (runs s) (d_conf s).
Definition add_claim (c : Z * nat) (s : DStore) : DStore :=
  mkDStore (changes s) (ch_seq s) (signoffs s) (sg_seq s) (d_audit s) (claims s ++ [c]) (runs s) (d_conf s).
Definition set_conf (l : list ConfigRow) (s : DStore) : DStore :=
  mkDStore (changes s) (ch_seq s) (signoffs s) (sg_seq s) (d_audit s) (claims s) (runs s) l.
Definition add_run (c : Z * nat) (s : DStore) : DStore :=
  mkDStore (changes s) (ch_seq s) (signoffs s) (sg_seq s) (d_audit s) (claims s) (runs s ++ [c]) (d_conf s).

(** [Config] and the registered committers. *)
Record Controller : Type := mkController {
  d_hasAudit : bool;
  d_Quorum : Z;
  committers : gmap string (Change -> M DStore derr unit);
}.

Definition New (audit : bool) (quorum : Z) : Controller :=
  mkController audit (if quorum <? 2 then 2 else quorum) ∅.

Definition Register (c : Controller) (kind : string) (fn : Change -> M DStore derr unit) : Controller :=
  mkController (d_hasAudit c) (d_Quorum c) (<[kind := fn]> (committers c)).

(** fmt's %x on bytes. *)
Definition hex_digit (n : N) : ascii := ascii_of_N (if (n <? 10)%N then 48 + n else 87 + n)%N.
Fixpoint hex (s : string) : string :=
  match s with
  | "" => ""
  | String c s => let n := N_of_ascii c in
                  String (hex_digit (n / 16)%N) (String (hex_digit (n mod 16)%N) (hex s))
  end.

Section handlers.
Context (sha256 : string -> string) (c : Controller) (tid : nat).

Definition audit (actor action target details : string) : M DStore derr unit :=
  if d_hasAudit c
  then ignore (exec (fun s => ((), add_daudit (actor, action, target, details) s)))
  else mret ().

Definition target (ch : Change) : string :=
  if decide (ch_Target ch <> "") then ch_Target ch else ch_Kind ch +:+ "#" +:+ pretty (ch_ID ch).

Definition by_id (id : Z) (ch : Change) : bool := ch_ID ch =? id.

Definition loadPending (id : Z) : M DStore derr Change :=
  r ← query (fun s => find_first (by_id id) (changes s));
  match r with
  | None => throw DC_NotFound
  | Some ch => if decide (ch_State ch <> StatePending) then throw DC_NotPending else mret ch
  end.

Definition reload (id : Z) : M DStore derr Change :=
  r ← query (fun s => find_first (by_id id) (changes s));
  match r with None => throw DC_RecordNotFound | Some ch => mret ch end.

(** [UPDATE approvals SET state, decided_at] on the selected rows. *)
Definition set_state (state : string) (decided : option Z) (ch : Change) : Change :=
  mkChange (ch_ID ch) (ch_Kind ch) (ch_Target ch) (ch_Payload ch) (ch_PayloadHash ch) state
    (ch_Quorum ch) (ch_Proposer ch) (ch_CreatedAt ch) (default (ch_DecidedAt ch) decided).

Definition update_changes (f : Change -> bool) (state : string) (decided : option Z) (s : DStore) : DStore :=
  set_changes (map (fun ch => if f ch then set_state state decided ch else ch) (changes s)) (ch_seq s) s.

(** The error of the update is dropped. *)
Definition finalize (id : Z) (state : string) : M DStore derr unit :=
  t ← now;
  ignore (exec (fun s => ((), update_changes (by_id id) state (Some t) s))).

Definition signed (id : Z) (actor : string) (sg : Signoff) : bool :=
  (sg_ChangeID sg =? id) && bool_decide (sg_Actor sg = actor).

Definition approves (id : Z) (sg : Signoff) : bool :=
  (sg_ChangeID sg =? id) && bool_decide (sg_Decision sg = decisionApprove).

Definition approvals (id : Z) (s : DStore) : Z := Z.of_nat (length (List.filter (approves id) (signoffs s))).

(** [tx.Create(&Signoff{...})] under UNIQUE(change_id, actor). *)
Definition create_signoff (id : Z) (actor decision : string) (t : Z) : M DStore derr unit :=
  exec_err (fun s =>
    if existsb (signed id actor) (signoffs s) then Err DC_Duplicated
    else Ok ((), set_signoffs (signoffs s ++ [mkSignoff (sg_seq s) id actor decision t]) (sg_seq s + 1) s)).

Definition create_change (ch : Change) : M DStore derr Change :=
  exec (fun s =>
    let ch := mkChange (ch_seq s) (ch_Kind ch) (ch_Target ch) (ch_Payload ch) (ch_PayloadHash ch)
                (ch_State ch) (ch_Quorum ch) (ch_Proposer ch) (ch_CreatedAt ch) (ch_DecidedAt ch) in
    (ch, set_changes (changes s ++ [ch]) (ch_seq s + 1) s)).

Definition commit_details (ch : Change) : string :=
  "kind=" +:+ ch_Kind ch +:+ " quorum=" +:+ pretty (ch_Quorum ch) +:+ " hash=" +:+ hex (ch_PayloadHash ch).

Definition Propose (kind tgt payload proposer : string) : M DStore derr Change :=
  if decide (proposer = "") then throw DC_NoProposer
  else
    t ← now;
    ch ← tx (
      ch ← create_change (mkChange 0 kind tgt payload (sha256 payload) StatePending (d_Quorum c)
                            proposer t 0);
      _ ← create_signoff (ch_ID ch) proposer decisionApprove t;
      mret ch);
    _ ← audit proposer "dualcontrol-propose" (target ch) (commit_details ch);
    mret ch.

(** The signoff transaction of [Approve]. *)
Definition approve_tx (id : Z) (actor : string) : M DStore derr (Change * bool) :=
  ch ← loadPending id;
  if decide (actor = ch_Proposer ch) then throw (DC_SelfApproval ch)
  else
    dup ← query (fun s => Z.of_nat (length (List.filter (signed id actor) (signoffs s))));
    if 0 <? dup then throw (DC_DuplicateActor ch)
    else
      t ← now;
      _ ← create_signoff id actor decisionApprove t;
      n ← query (approvals id);
      mret (ch, ch_Quorum ch <=? n).

(** The compare-and-set on pending -> committing: rows affected. *)
Definition claim_commit (id : Z) : M DStore derr Z :=
  exec (fun s =>
    let hit ch := by_id id ch && bool_decide (ch_State ch = StatePending) in
    let n := Z.of_nat (length (List.filter hit (changes s))) in
    let s' := update_changes hit StateCommitting None s in
    (n, if n =? 0 then s' else add_claim (id, tid) s')).

Definition run_committer (ch : Change) : M DStore derr (result derr unit) :=
  match committers c !! ch_Kind ch with
  | None => mret (Ok ())
  | Some fn => _ ← mem (fun s => ((), add_run (ch_ID ch, tid) s)); attempt (fn ch)
  end.

(** The text of a committer's error. *)
Definition error_text (e : derr) : string := match e with DC_Rejected t => t | _ => "" end.

Definition Approve (id : Z) (actor : string) : M DStore derr Change :=
  if decide (actor = "") then throw DC_NoActor
  else
    r ← attempt (tx (approve_tx id actor));
    match r with
    | Err e =>
        _ ← (match e with
             | DC_SelfApproval ch =>
                 audit actor "dualcontrol-approve-blocked" (target ch)
                   "dualcontrol: proposer cannot approve their own change (two-person rule)"
             | DC_DuplicateActor ch =>
                 audit actor "dualcontrol-approve-blocked" (target ch)
                   "dualcontrol: this actor has already signed off on the change"
             | _ => mret ()
             end);
        throw e
    | Ok (ch, quorumReached) =>
        if negb quorumReached
        then _ ← audit actor "dualcontrol-approve" (target ch) "awaiting further approval";
             reload id
        else
          n ← claim_commit id;
          if n =? 0 then reload id
          else
            cr ← run_committer ch;
            match cr with
            | Err cerr =>
                _ ← finalize id StateFailed;
                _ ← audit actor "dualcontrol-commit-failed" (target ch) (error_text cerr);
                _ ← attempt (reload id);
                throw (DC_Commit cerr)
            | Ok _ =>
                _ ← finalize id StateCommitted;
                _ ← audit actor "dualcontrol-commit" (target ch) (commit_details ch);
                reload id
            end
    end.

(** The transaction of [Deny]. *)
Definition deny_tx (id : Z) (actor : string) : M DStore derr Change :=
  ch ← loadPending id;
  t ← now;
  dup ← attempt (query (fun s => Z.of_nat (length (List.filter (signed id actor) (signoffs s)))));
  _ ← (if (match dup with Ok n => n | Err _ => 0 end) =? 0
       then create_signoff id actor decisionDeny t else mret ());
  _ ← exec (fun s => ((), update_changes (by_id id) StateDenied (Some t) s));
  mret ch.

Definition Deny (id : Z) (actor reason : string) : M DStore derr Change :=
  if decide (actor = "") then throw DC_NoActor
  else
    ch ← tx (deny_tx id actor);
    _ ← audit actor "dualcontrol-deny" (target ch) reason;
    reload id.

Definition sg_le (a b : Signoff) : Prop := sg_CreatedAt a <= sg_CreatedAt b.
#[local] Instance sg_le_dec a b : Decision (sg_le a b).
Proof. unfold sg_le. apply _. Defined.

Definition Get (id : Z) : M DStore derr (Change * list Signoff) :=
  r ← query (fun s => find_first (by_id id) (changes s));
  match r with
  | None => throw DC_NotFound
  | Some ch =>
      sigs ← query (fun s => merge_sort sg_le (List.filter (fun sg => sg_ChangeID sg =? id) (signoffs s)));
      mret (ch, sigs)
  end.

Definition ListChanges (state : string) : M DStore derr (list Change) :=
  query (fun s => List.filter (fun ch => bool_decide (state = "") || bool_decide (ch_State ch = state))
                    (rev (changes s))).

Definition LatestCommitted (kind : string) : M DStore derr (option Change) :=
  query (fun s => find_first (fun ch => bool_decide (ch_Kind ch = kind) &&
                                        bool_decide (ch_State ch = StateCommitted)) (rev (changes s))).
End handlers.

(** ** The protocol as a state machine *)

(** What the rest of the admin API may do to the config table: a direct write by one
    operator, and the effect of committing a change, by kind, payload and proposer. *)
Class Effects : Type := {
  eff_direct : relation (list ConfigRow);
  eff_commit : string -> string -> string -> relation (list ConfigRow);
}.

(** A change whose commit has been claimed. *)
Definition decided (st : string) : Prop :=
  st = StateCommitting \/ st = StateCommitted \/ st = StateFailed.

Section machine.
Context {EF : Effects}.

(** Everything but the audit log is as before. *)
Definition same_tables (s s' : DStore) : Prop :=
  changes s' = changes s /\ ch_seq s' = ch_seq s /\ signoffs s' = signoffs s /\
  claims s' = claims s /\ runs s' = runs s.

(** One database step of goroutine [t] on the approvals tables. *)
Inductive dc_move (t : nat) (s : DStore) : DStore -> Prop :=
| st_skip s' : same_tables s s' -> dc_move t s s'
| st_propose ch sg s' :
    ch_ID ch = ch_seq s -> ch_State ch = StatePending -> 2 <= ch_Quorum ch -> ch_Proposer ch <> "" ->
    sg_ChangeID sg = ch_ID ch -> sg_Actor sg = ch_Proposer ch -> sg_Decision sg = decisionApprove ->
    changes s' = changes s ++ [ch] -> ch_seq s' = ch_seq s + 1 -> signoffs s' = signoffs s ++ [sg] ->
    claims s' = claims s -> runs s' = runs s -> dc_move t s s'
| st_approve ch sg s' :
    ch ∈ changes s -> ch_State ch = StatePending -> sg_ChangeID sg = ch_ID ch ->
    sg_Actor sg <> ch_Proposer ch -> sg_Actor sg <> "" -> sg_Decision sg = decisionApprove ->
    existsb (signed (ch_ID ch) (sg_Actor sg)) (signoffs s) = false ->
    changes s' = changes s -> ch_seq s' = ch_seq s -> signoffs s' = signoffs s ++ [sg] ->
    claims s' = claims s -> runs s' = runs s -> dc_move t s s'
| st_deny ch sgs d s' :
    ch ∈ changes s -> ch_State ch = StatePending ->
    (sgs = [] \/ exists sg, sgs = [sg] /\ sg_ChangeID sg = ch_ID ch /\ sg_Decision sg = decisionDeny /\
                            existsb (signed (ch_ID ch) (sg_Actor sg)) (signoffs s) = false) ->
    changes s' = map (fun x => if by_id (ch_ID ch) x then set_state StateDenied (Some d) x else x) (changes s) ->
    ch_seq s' = ch_seq s -> signoffs s' = signoffs s ++ sgs ->
    claims s' = claims s -> runs s' = runs s -> dc_move t s s'
| st_claim ch s' :
    ch ∈ changes s -> ch_State ch = StatePending -> ch_Quorum ch <= approvals (ch_ID ch) s ->
    changes s' = map (fun x => if by_id (ch_ID ch) x && bool_decide (ch_State x = StatePending)
                               then set_state StateCommitting None x else x) (changes s) ->
    ch_seq s' = ch_seq s -> signoffs s' = signoffs s ->
    claims s' = claims s ++ [(ch_ID ch, t)] -> runs s' = runs s -> dc_move t s s'
| st_run id s' :
    (id, t) ∈ claims s -> (id, t) ∉ runs s ->
    changes s' = changes s -> ch_seq s' = ch_seq s -> signoffs s' = signoffs s ->
    claims s' = claims s -> runs s' = runs s ++ [(id, t)] -> dc_move t s s'
| st_finalize ch st d s' :
    ch ∈ changes s -> ch_State ch = StateCommitting -> (ch_ID ch, t) ∈ claims s ->
    (st = StateCommitted \/ st = StateFailed) ->
    changes s' = map (fun x => if by_id (ch_ID ch) x then set_state st (Some d) x else x) (changes s) ->
    ch_seq s' = ch_seq s -> signoffs s' = signoffs s ->
    claims s' = claims s -> runs s' = runs s -> dc_move t s s'.

(** Its effect on the config table. *)
Inductive conf_move (s s' : DStore) : Prop :=
| cm_same : d_conf s' = d_conf s -> conf_move s s'
| cm_direct : eff_direct (d_conf s) (d_conf s') -> conf_move s s'
| cm_commit ch : ch ∈ changes s -> decided (ch_State ch) -> eff_commit (ch_Kind ch) (ch_Payload ch) (ch_Proposer ch) (d_conf s) (d_conf s') -> conf_move s s'.

(** One step: on the approvals tables and on the config table. *)
Definition dc_step (t : nat) (s s' : DStore) : Prop := dc_move t s s' /\ conf_move s s'.

Lemma move_step t s s' : dc_move t s s' -> d_conf s' = d_conf s -> dc_step t s s'.
Proof. intros H E. split; [done|by apply cm_same]. Qed.
Lemma dc_skip_step t s s' : same_tables s s' -> d_conf s' = d_conf s -> dc_step t s s'.
Proof. intros H. apply move_step. by apply st_skip. Qed.

Record dc_inv (s : DStore) : Prop := mkDcInv {
  i_ids : NoDup (ch_ID <$> changes s);
  i_seq : forall ch, ch ∈ changes s -> ch_ID ch < ch_seq s;
  i_signed : NoDup ((fun g => (sg_ChangeID g, sg_Actor g)) <$> signoffs s);
  i_old : forall g, g ∈ signoffs s -> sg_ChangeID g < ch_seq s;
  i_quorum : forall ch, ch ∈ changes s -> 2 <= ch_Quorum ch;
  i_actor : forall g, g ∈ signoffs s -> sg_Decision g = decisionApprove -> sg_Actor g <> "";
  i_decided : forall ch, ch ∈ changes s -> decided (ch_State ch) -> ch_Quorum ch <= approvals (ch_ID ch) s;
  i_claims : NoDup (claims s).*1;
  i_claimed : forall id t, (id, t) ∈ claims s ->
    exists ch, ch ∈ changes s /\ ch_ID ch = id /\ decided (ch_State ch);
  i_runs : forall x, x ∈ runs s -> x ∈ claims s;
  i_once : NoDup (runs s).*1;
}.

(** Rows keep everything but their state and decision time. *)
Definition same_change (a b : Change) : Prop :=
  ch_ID b = ch_ID a /\ ch_Kind b = ch_Kind a /\ ch_Target b = ch_Target a /\ ch_Payload b = ch_Payload a /\
  ch_PayloadHash b = ch_PayloadHash a /\ ch_Quorum b = ch_Quorum a /\ ch_Proposer b = ch_Proposer a.

Lemma same_change_refl a : same_change a a.
Proof. done. Qed.

Lemma same_change_trans a b c : same_change a b -> same_change b c -> same_change a c.
Proof. intros (?&?&?&?&?&?&?) (?&?&?&?&?&?&?). split_and!; congruence. Qed.

Lemma ids_unique s a b : NoDup (ch_ID <$> changes s) -> a ∈ changes s -> b ∈ changes s -> ch_ID a = ch_ID b -> a = b.
Proof. apply keyed_unique. Qed.

Lemma claims_unique (l : list (Z * nat)) id t t' : NoDup l.*1 -> (id, t) ∈ l -> (id, t') ∈ l -> t = t'.
Proof.
  intros Hnd [i Hi]%list_elem_of_lookup [j Hj]%list_elem_of_lookup.
  assert (i = j) as ->; [|congruence].
  eapply (NoDup_lookup l.*1); [done| |]; rewrite list_lookup_fmap; [by rewrite Hi|by rewrite Hj].
Qed.

(** ** Invariant and monotonicity of the steps *)

Lemma approvals_app id s l s' : signoffs s' = signoffs s ++ l -> approvals id s <= approvals id s'.
Proof. intros H. unfold approvals. rewrite H, List.filter_app, length_app. lia. Qed.

(** Replacing some rows by their own change of state. *)
Section update_rows.
Context (rows : list Change) (f : Change -> bool) (st : string) (d : option Z).
Let upd := map (fun x => if f x then set_state st d x else x) rows.

Lemma upd_ids : ch_ID <$> upd = ch_ID <$> rows.
Proof.
  unfold upd. change (map ?g rows) with (g <$> rows). rewrite <- list_fmap_compose. apply list_fmap_ext.
  intros i x _. simpl. by destruct (f x).
Qed.

Lemma upd_in x : x ∈ upd <-> exists y, y ∈ rows /\ x = if f y then set_state st d y else y.
Proof. unfold upd. rewrite list_elem_of_fmap. naive_solver. Qed.

Lemma upd_same x : x ∈ rows -> exists y, y ∈ upd /\ same_change x y.
Proof.
  intros Hx. exists (if f x then set_state st d x else x). split; [by apply upd_in; eauto|].
  by destruct (f x).
Qed.

Lemma upd_other x : x ∈ rows -> f x = false -> x ∈ upd.
Proof. intros Hx Hf. apply upd_in. exists x. by rewrite Hf. Qed.
End update_rows.

(** The part of the invariant that updating the state of one row can break. *)
Lemma inv_update s s' (f : Change -> bool) st d :
  dc_inv s ->
  changes s' = map (fun x => if f x then set_state st d x else x) (changes s) ->
  ch_seq s' = ch_seq s -> (exists l, signoffs s' = signoffs s ++ l) ->
  NoDup ((fun g => (sg_ChangeID g, sg_Actor g)) <$> signoffs s') ->
  (forall g, g ∈ signoffs s' -> sg_ChangeID g < ch_seq s) ->
  (forall g, g ∈ signoffs s' -> sg_Decision g = decisionApprove -> sg_Actor g <> "") ->
  runs s' = runs s -> (forall x, x ∈ claims s -> x ∈ claims s') ->
  (forall x, x ∈ changes s -> f x = true -> decided st -> ch_Quorum x <= approvals (ch_ID x) s) ->
  NoDup (claims s').*1 ->
  (forall id t, (id, t) ∈ claims s' -> exists ch, ch ∈ changes s /\ ch_ID ch = id /\
     (if f ch then decided st else decided (ch_State ch))) ->
  dc_inv s'.
Proof.
  intros Hi Hch Hseq [l Hl] Hnd Hold Hact Hruns Hcl Hq Hcn Hcd.
  assert (Hin : forall x, x ∈ changes s' -> exists y, y ∈ changes s /\ same_change y x /\
            ch_State x = if f y then st else ch_State y).
  { intros x Hx. rewrite Hch in Hx. apply upd_in in Hx as (y & Hy & ->). exists y. split; [done|]. by destruct (f y). }
  split.
  - rewrite Hch, upd_ids. apply Hi.
  - intros x (y & Hy & (Hid & _) & _)%Hin. rewrite Hseq, Hid. by apply Hi.
  - done.
  - intros g Hg. rewrite Hseq. by apply Hold.
  - intros x (y & Hy & (_&_&_&_&_&Hqq&_) & _)%Hin. rewrite Hqq. by apply Hi.
  - done.
  - intros x Hx Hd. destruct (Hin x Hx) as (y & Hy & (Hid&_&_&_&_&Hqq&_) & Hst). rewrite Hid, Hqq.
    pose proof (approvals_app (ch_ID y) s l s' Hl).
    enough (ch_Quorum y <= approvals (ch_ID y) s) by lia. rewrite Hst in Hd.
    destruct (f y) eqn:Ef; [by apply Hq|by apply Hi].
  - done.
  - intros id t Hc. destruct (Hcd id t Hc) as (ch & Hc' & Hid & Hdd).
    exists (if f ch then set_state st d ch else ch). rewrite Hch. split; [apply upd_in; eauto|].
    by destruct (f ch).
  - intros x Hx. rewrite Hruns in Hx. by apply Hcl, Hi.
  - rewrite Hruns. apply Hi.
Qed.

Lemma signed_fresh id actor l g :
  existsb (signed id actor) l = false -> sg_ChangeID g = id -> sg_Actor g = actor ->
  NoDup ((fun g => (sg_ChangeID g, sg_Actor g)) <$> l) ->
  NoDup ((fun g => (sg_ChangeID g, sg_Actor g)) <$> (l ++ [g])).
Proof.
  intros Hf Hid Ha Hnd. rewrite fmap_app. apply NoDup_app. split_and!; [done| |apply NoDup_singleton].
  intros x (h & -> & Hh)%list_elem_of_fmap Hx%list_elem_of_singleton. injection Hx as H1 H2.
  rewrite existsb_elem_false in Hf. specialize (Hf h Hh). unfold signed in Hf.
  rewrite H1, Hid, Z.eqb_refl in Hf. rewrite bool_decide_true in Hf; [done|congruence].
Qed.

Lemma inv_same s s' : same_tables s s' -> dc_inv s -> dc_inv s'.
Proof.
  intros (Hc & Hq & Hs & Hcl & Hr) []. split; unfold approvals in *; rewrite ?Hc, ?Hq, ?Hs, ?Hcl, ?Hr; done.
Qed.

Lemma inv_propose s s' ch sg :
  dc_inv s -> ch_ID ch = ch_seq s -> ch_State ch = StatePending -> 2 <= ch_Quorum ch -> ch_Proposer ch <> "" ->
  sg_ChangeID sg = ch_ID ch -> sg_Actor sg = ch_Proposer ch ->
  changes s' = changes s ++ [ch] -> ch_seq s' = ch_seq s + 1 -> signoffs s' = signoffs s ++ [sg] ->
  claims s' = claims s -> runs s' = runs s -> dc_inv s'.
Proof.
  intros Hi Hid Hst Hq Hp Hsg Ha Hch Hseq Hsi Hcl Hru.
  assert (Hcase : forall x, x ∈ changes s' -> x ∈ changes s \/ x = ch).
  { intros x. rewrite Hch. intros [?|?%list_elem_of_singleton]%elem_of_app; auto. }
  assert (Hgc : forall g, g ∈ signoffs s' -> g ∈ signoffs s \/ g = sg).
  { intros x. rewrite Hsi. intros [?|?%list_elem_of_singleton]%elem_of_app; auto. }
  split.
  - rewrite Hch, fmap_app. apply NoDup_app. split_and!; [apply Hi| |apply NoDup_singleton].
    intros x (y & -> & Hy)%list_elem_of_fmap Hx%list_elem_of_singleton.
    pose proof (i_seq s Hi y Hy). lia.
  - intros x [Hx| ->]%Hcase; [pose proof (i_seq s Hi x Hx)|]; lia.
  - rewrite Hsi. eapply signed_fresh; [|done|done|apply Hi].
    apply existsb_elem_false. intros g Hg. unfold signed.
    pose proof (i_old s Hi g Hg). rewrite (proj2 (Z.eqb_neq _ _)) by lia. done.
  - intros g [Hg| ->]%Hgc; [pose proof (i_old s Hi g Hg)|]; lia.
  - intros x [Hx| ->]%Hcase; [by apply Hi|done].
  - intros g [Hg| ->]%Hgc Hd; [by apply Hi|congruence].
  - intros x [Hx| ->]%Hcase Hd.
    + pose proof (i_decided s Hi x Hx Hd). pose proof (approvals_app (ch_ID x) s [sg] s' Hsi). lia.
    + rewrite Hst in Hd. by destruct Hd as [?|[?|?]].
  - rewrite Hcl. apply Hi.
  - intros id t. rewrite Hcl. intros Hc. destruct (i_claimed s Hi id t Hc) as (x & Hx & ? & ?).
    exists x. split; [|done]. rewrite Hch. apply elem_of_app. by left.
  - intros x. rewrite Hcl, Hru. apply Hi.
  - rewrite Hru. apply Hi.
Qed.

Lemma inv_signoff s s' sg :
  dc_inv s -> existsb (signed (sg_ChangeID sg) (sg_Actor sg)) (signoffs s) = false ->
  sg_ChangeID sg < ch_seq s -> sg_Actor sg <> "" ->
  changes s' = changes s -> ch_seq s' = ch_seq s -> signoffs s' = signoffs s ++ [sg] ->
  claims s' = claims s -> runs s' = runs s -> dc_inv s'.
Proof.
  intros Hi Hf Hold Hact Hch Hseq Hsi Hcl Hru.
  apply (inv_update s s' (fun _ => false) "" None Hi); try done; rewrite ?Hcl; try done.
  - rewrite Hch. symmetry. apply map_id.
  - by exists [sg].
  - rewrite Hsi. eapply signed_fresh; [done|done|done|apply Hi].
  - intros g. rewrite Hsi. intros [?|?%list_elem_of_singleton]%elem_of_app; [by apply Hi|by subst].
  - intros g. rewrite Hsi. intros [?|?%list_elem_of_singleton]%elem_of_app; [by apply Hi|by subst].
  - apply Hi.
  - intros id t Hc. apply (i_claimed s Hi id t Hc).
Qed.

(** A pending row is not claimed. *)
Lemma pending_unclaimed s ch t : dc_inv s -> ch ∈ changes s -> ch_State ch = StatePending -> (ch_ID ch, t) ∉ claims s.
Proof.
  intros Hi Hin Hst Hc. destruct (i_claimed s Hi _ _ Hc) as (x & Hx & Hid & Hd).
  assert (x = ch) as -> by (eapply ids_unique; [apply Hi|done..]). rewrite Hst in Hd.
  by destruct Hd as [?|[?|?]].
Qed.

Lemma inv_step t s s' : dc_step t s s' -> dc_inv s -> dc_inv s'.
Proof.
  intros [Hs _] Hi. destruct Hs as
    [s' Hsame|ch sg s' Hid Hst Hq Hp Hsg Ha Hd Hch Hseq Hsi Hcl Hru|ch sg s' Hin Hst Hsg Ha Ha0 Hd Hf Hch Hseq Hsi Hcl Hru
    |ch sgs d s' Hin Hst Hsgs Hch Hseq Hsi Hcl Hru|ch s' Hin Hst Hq Hch Hseq Hsi Hcl Hru|id s' Hc Hn Hch Hseq Hsi Hcl Hru
    |ch st d s' Hin Hst Hc Hstt Hch Hseq Hsi Hcl Hru].
  - by eapply inv_same.
  - by eapply inv_propose.
  - eapply inv_signoff; try done; rewrite Hsg; [done|by apply Hi].
  - apply (inv_update s s' (by_id (ch_ID ch)) StateDenied (Some d) Hi); try done; rewrite ?Hcl; try done.
    + by exists sgs.
    + rewrite Hsi. destruct Hsgs as [->|(sg & -> & Hid & _ & Hf)]; [rewrite app_nil_r; apply Hi|].
      eapply signed_fresh; [done|done|done|apply Hi].
    + intros g. rewrite Hsi. intros [?|Hg]%elem_of_app; [by apply Hi|].
      destruct Hsgs as [->|(sg & -> & Hid & _)]; [by apply elem_of_nil in Hg|].
      apply list_elem_of_singleton in Hg as ->. rewrite Hid. by apply Hi.
    + intros g. rewrite Hsi. intros [?|Hg]%elem_of_app Hdec; [by apply Hi|].
      destruct Hsgs as [->|(sg & -> & _ & Hdd & _)]; [by apply elem_of_nil in Hg|].
      apply list_elem_of_singleton in Hg as ->. by rewrite Hdd in Hdec.
    + intros x _ _ Hd. by destruct Hd as [?|[?|?]].
    + apply Hi.
    + intros id u Hcu. destruct (i_claimed s Hi id u Hcu) as (x & Hx & Hid & Hd). exists x. split_and!; [done|done|].
      destruct (by_id (ch_ID ch) x) eqn:E; [|done]. unfold by_id in E. bool_split.
      destruct (pending_unclaimed s ch u Hi Hin Hst). rewrite <- E. by rewrite Hid.
  - apply (inv_update s s' _ _ None Hi Hch); try done; rewrite ?Hsi, ?Hcl; try apply Hi.
    + by exists []; rewrite app_nil_r.
    + intros x Hx. apply elem_of_app. by left.
    + intros x Hx E _. bool_split. unfold by_id in *. bool_split.
      assert (x = ch) as -> by (eapply ids_unique; [apply Hi|done..]). done.
    + rewrite fmap_app. apply NoDup_app. split_and!; [apply Hi| |apply NoDup_singleton].
      intros x ([id u] & -> & Hx)%list_elem_of_fmap Hx'%list_elem_of_singleton. cbn in Hx'. subst id.
      by eapply pending_unclaimed.
    + intros id u [Hcu|Hcu%list_elem_of_singleton]%elem_of_app.
      * destruct (i_claimed s Hi id u Hcu) as (x & Hx & Hid & Hd). exists x. split_and!; [done|done|].
        destruct (by_id _ x && _); [by left|done].
      * injection Hcu as -> ->. exists ch. split_and!; [done|done|]. unfold by_id.
        rewrite Z.eqb_refl, bool_decide_true by done. by left.
  - destruct Hi. split; unfold approvals in *; rewrite ?Hch, ?Hseq, ?Hsi, ?Hcl, ?Hru; try done.
    + intros x [Hx|Hx%list_elem_of_singleton]%elem_of_app; [auto|by subst].
    + rewrite fmap_app. apply NoDup_app. split_and!; [done| |apply NoDup_singleton].
      intros x ([id' u] & -> & Hx)%list_elem_of_fmap Hx'%list_elem_of_singleton. cbn in Hx'. subst id'.
      apply Hn. assert (u = t) as -> by (exact (claims_unique _ id u t i_claims0 (i_runs0 _ Hx) Hc)). done.
  - apply (inv_update s s' (by_id (ch_ID ch)) st (Some d) Hi Hch); try done; rewrite ?Hsi, ?Hcl; try apply Hi; try done.
    + by exists []; rewrite app_nil_r.
    + intros x Hx E _. unfold by_id in E. bool_split.
      assert (x = ch) as -> by (eapply ids_unique; [apply Hi|done..]). apply Hi; [done|]. rewrite Hst. by left.
    + intros id u Hcu. destruct (i_claimed s Hi id u Hcu) as (x & Hx & Hid & Hd). exists x. split_and!; [done|done|].
      destruct (by_id _ x); [|done]. right. destruct Hstt as [->| ->]; auto.
Qed.

Ltac step_cases Hs :=
  destruct Hs as [Hs _]; destruct Hs as
    [s' Hsame|ch0 sg s' Hid Hst Hq Hp Hsg Ha Hd Hch Hseq Hsi Hcl Hru|ch0 sg s' Hin Hst Hsg Ha Ha0 Hd Hf Hch Hseq Hsi Hcl Hru
    |ch0 sgs d s' Hin Hst Hsgs Hch Hseq Hsi Hcl Hru|ch0 s' Hin Hst Hq Hch Hseq Hsi Hcl Hru|id0 s' Hc Hn Hch Hseq Hsi Hcl Hru
    |ch0 st d s' Hin Hst Hc Hstt Hch Hseq Hsi Hcl Hru];
  [destruct Hsame as (Hch & Hseq & Hsi & Hcl & Hru)|..].

Lemma step_signoffs t s s' : dc_step t s s' -> exists l, signoffs s' = signoffs s ++ l.
Proof.
  intros Hs. step_cases Hs; rewrite Hsi; eauto; exists []; by rewrite app_nil_r.
Qed.

Lemma step_rows t s s' ch : dc_step t s s' -> ch ∈ changes s -> exists ch', ch' ∈ changes s' /\ same_change ch ch'.
Proof.
  intros Hs Hin0. step_cases Hs; rewrite Hch; try (by apply upd_same); try (by exists ch).
  exists ch. split; [apply elem_of_app; by left|done].
Qed.

Lemma step_claims t s s' x : dc_step t s s' -> x ∈ claims s -> x ∈ claims s'.
Proof. intros Hs Hx. step_cases Hs; rewrite Hcl; try done. apply elem_of_app. by left. Qed.

Lemma step_runs t tid s s' id : t <> tid -> dc_step t s s' -> (id, tid) ∈ runs s' -> (id, tid) ∈ runs s.
Proof.
  intros Hne Hs. step_cases Hs; rewrite Hru; try done.
  intros [?|Hx%list_elem_of_singleton]%elem_of_app; [done|]. by injection Hx as _ ->.
Qed.

(** A row whose state admits no further move, or whose owner is somebody else, is
    untouched. *)
Lemma step_keeps t s s' ch :
  dc_inv s -> dc_step t s s' -> ch ∈ changes s -> ch_State ch <> StatePending ->
  (ch_State ch = StateCommitting -> (ch_ID ch, t) ∉ claims s) -> ch ∈ changes s'.
Proof.
  intros Hi Hs Hin0 Hnp Hown.
  assert (Huniq : forall x, x ∈ changes s -> by_id (ch_ID x) ch = true -> ch = x).
  { intros x Hx E. unfold by_id in E. bool_split. by eapply ids_unique; [apply Hi|..]. }
  step_cases Hs; rewrite Hch; try done.
  - apply elem_of_app. by left.
  - apply upd_other; [done|]. apply not_true_iff_false. intros E. apply Huniq in E; [by subst|done].
  - apply upd_other; [done|]. apply not_true_iff_false. intros E. bool_split. done.
  - apply upd_other; [done|]. apply not_true_iff_false. intros E. apply Huniq in E; [|done]. subst ch0.
    by apply Hown.
Qed.

(** What the other goroutines may have done between two steps of [tid]. *)
Definition others (tid : nat) : relation DStore := rtc (fun s s' => exists t, t <> tid /\ dc_step t s s').

Lemma others_stable tid (I : DStore -> Prop) :
  (forall t s s', t <> tid -> dc_step t s s' -> I s -> I s') -> stable (others tid) I.
Proof.
  intros H s s' Hr. apply (rtc_invariant _ _ _ _) with (2 := Hr). intros a b (t & Ht & Hs). by apply (H t).
Qed.

(** Enough distinct approvals for the change that was read. *)
Definition quorate (ch : Change) (s : DStore) : Prop :=
  dc_inv s /\ (exists ch', ch' ∈ changes s /\ same_change ch ch') /\ ch_Quorum ch <= approvals (ch_ID ch) s.

Lemma quorate_step t s s' ch : dc_step t s s' -> quorate ch s -> quorate ch s'.
Proof.
  intros Hs (Hi & (ch' & Hin & Hsc) & Hq). split_and!; [by eapply inv_step| |].
  - destruct (step_rows t s s' ch' Hs Hin) as (ch2 & Hin2 & Hsc2). exists ch2. split; [done|].
    by eapply same_change_trans.
  - destruct (step_signoffs t s s' Hs) as [l Hl]. pose proof (approvals_app (ch_ID ch) s l s' Hl). lia.
Qed.

(** [tid] won the claim of [id] and has not finalized it. *)
Definition owns (tid : nat) (id : Z) (s : DStore) : Prop :=
  dc_inv s /\ (id, tid) ∈ claims s /\ exists ch, ch ∈ changes s /\ ch_ID ch = id /\ ch_State ch = StateCommitting.

Lemma owns_step t tid id s s' : t <> tid -> dc_step t s s' -> owns tid id s -> owns tid id s'.
Proof.
  intros Hne Hs (Hi & Hc & ch & Hin & Hid & Hst). split_and!; [by eapply inv_step|by eapply step_claims|].
  exists ch. split; [|done]. eapply step_keeps; [done|done|done|by rewrite Hst|].
  intros _ Hc'. rewrite Hid in Hc'. apply Hne. eapply claims_unique; [apply Hi|done|done].
Qed.

Definition same_stable (I : DStore -> Prop) : Prop := forall s s', same_tables s s' -> I s -> I s'.

Lemma quorate_same ch : same_stable (quorate ch).
Proof.
  intros s s' H (Hi & Hc & Hq). pose proof (inv_same s s' H Hi). destruct H as (Hch & _ & Hsi & _).
  split_and!; [done|by rewrite Hch|unfold approvals; by rewrite Hsi].
Qed.

Lemma owns_same tid id : same_stable (owns tid id).
Proof.
  intros s s' H (Hi & Hc & ch & Hin & ? & ?). pose proof (inv_same s s' H Hi). destruct H as (Hch & _ & _ & Hcl & _).
  split_and!; [done|by rewrite Hcl|]. exists ch. by rewrite Hch.
Qed.

Lemma inv_same_stable : same_stable dc_inv.
Proof. intros s s' H. by apply inv_same. Qed.

(** A committer is code registered by another package: it does not write the approvals
    tables, and its writes to the config table are the effect of committing its change. *)
Definition committing (ch : Change) (s s' : DStore) : Prop :=
  same_tables s s' /\ (d_conf s' = d_conf s \/ eff_commit (ch_Kind ch) (ch_Payload ch) (ch_Proposer ch) (d_conf s) (d_conf s')).
Class CommittersOK (c : Controller) : Prop :=
  committer_ok : forall ch fn, committers c !! ch_Kind ch = Some fn ->
    forall T R s, wpt T R (committing ch) (fn ch) (fun _ _ => True) s.

#[export] Instance New_committers audit q : CommittersOK (New audit q).
Proof. intros kind fn. cbn. by rewrite lookup_empty. Qed.

Lemma same_audit e s : same_tables s (add_daudit e s).
Proof. done. Qed.

Section protocol.
Context (T : Z -> Prop) (sha256 : string -> string) (c : Controller) (tid : nat) `{!CommittersOK c}.
Abbreviation R := (others tid).
Abbreviation G := (dc_step tid).

Lemma wp_audit (I : DStore -> Prop) a b d e (Q : result derr unit -> DStore -> Prop) s :
  stable R I -> same_stable I -> I s -> (forall s', I s' -> Q (Ok ()) s') ->
  wpt T R G (audit c a b d e) Q s.
Proof.
  intros HR HS HI HQ. unfold audit. destruct (d_hasAudit c); [|wp_step; by apply HQ].
  wp_step. wp_step; [apply HQ; by eapply HR|]. split; [by apply dc_skip_step|].
  apply HQ. eapply HS; [apply same_audit|]. by eapply HR.
Qed.

Lemma wp_reload (I : DStore -> Prop) id (Q : result derr Change -> DStore -> Prop) s :
  stable R I -> I s -> (forall r s', I s' -> Q r s') -> wpt T R G (reload id) Q s.
Proof.
  intros HR HI HQ. unfold reload. wp_step. wp_step; [apply HQ; by eapply HR|].
  destruct (find_first _ _); wp_step; apply HQ; by eapply HR.
Qed.

Lemma inv_stable : stable R dc_inv.
Proof. apply others_stable. intros t s s' _ Hs. by apply (inv_step t). Qed.

Lemma quorate_stable ch : stable R (quorate ch).
Proof. apply others_stable. intros t s s' _ Hs. by apply (quorate_step t). Qed.

Lemma owns_stable id : stable R (owns tid id).
Proof. apply others_stable. intros t s s' Hne Hs. by apply (owns_step t). Qed.

(** The finalizing update, by the owner. *)
Lemma wp_finalize id st (Q : result derr unit -> DStore -> Prop) s :
  owns tid id s -> (st = StateCommitted \/ st = StateFailed) ->
  (forall s', dc_inv s' -> Q (Ok ()) s') -> wpt T R G (finalize id st) Q s.
Proof.
  intros Ho Hst HQ. unfold finalize. wp_step. wp_step. wp_step. wp_step.
  { apply HQ. apply (owns_stable id s s0 HR Ho). }
  destruct (owns_stable id s s0 HR Ho) as (Hi & Hc & ch & Hin & Hid & Hsc). subst id.
  assert (Hg : dc_step tid s0 (update_changes (by_id (ch_ID ch)) st (Some t) s0)) by (apply move_step; [by eapply st_finalize|done]).
  split; [done|]. apply HQ. by eapply inv_step.
Qed.

(** The owner calls the committer. *)
Lemma wp_run_committer ch (Q : result derr (result derr unit) -> DStore -> Prop) s :
  owns tid (ch_ID ch) s -> quorate ch s -> (ch_ID ch, tid) ∉ runs s ->
  (forall r s', owns tid (ch_ID ch) s' -> Q (Ok r) s') -> wpt T R G (run_committer c tid ch) Q s.
Proof.
  intros Ho Hqu Hn HQ. unfold run_committer. destruct (committers c !! ch_Kind ch) as [fn|] eqn:Ef; [|wp_step; auto].
  wp_step. wp_step. pose proof (owns_stable _ s s0 HR Ho) as Ho0. pose proof (quorate_stable _ s s0 HR Hqu) as Hqu0.
  assert (Hn0 : (ch_ID ch, tid) ∉ runs s0).
  { revert Hn. apply (others_stable tid (fun s => (ch_ID ch, tid) ∉ runs s)) with (2 := HR).
    intros t a b Hne Hs Ha Hb. apply Ha. by eapply step_runs. }
  assert (Hg : dc_step tid s0 (add_run (ch_ID ch, tid) s0)) by (apply move_step; [eapply st_run; [apply Ho0|done..]|done]).
  split; [done|]. wp_step.
  assert (Ho1 : owns tid (ch_ID ch) (add_run (ch_ID ch, tid) s0)).
  { split; [eapply inv_step; [done|apply Ho0]|]. apply Ho0. }
  apply (wp_frame_inv T R (committing ch) G (fun s => owns tid (ch_ID ch) s /\ quorate ch s)); [by eapply committer_ok| | | |].
  - intros a b Hab [? ?]. split; [by eapply owns_stable|by eapply quorate_stable].
  - intros a b [Ha Hq] [Hst Hef]. split; [|split; [by eapply owns_same|by eapply quorate_same]]. split; [by apply st_skip|].
    destruct Hef as [Hef|Hef]; [by apply cm_same|]. destruct Ha as (Hi & _ & x & Hx & Hid & Hxs). destruct Hq as (_ & (y & Hy & Hsc) & _).
    assert (x = y) as -> by (eapply ids_unique; [apply Hi|done|done|rewrite Hid; symmetry; apply Hsc]).
    destruct Hsc as (_ & Ek & _ & Ep & _ & _ & Er). apply (cm_commit a b y); [done|by left|]. by rewrite Ek, Ep, Er.
  - split; [done|]. by eapply quorate_step.
  - intros r s' [? ?]. by apply HQ.
Qed.

(** The claim: whoever gets a row owns the commit. *)
Lemma wp_claim ch (Q : result derr Z -> DStore -> Prop) s :
  quorate ch s ->
  (forall e s', dc_inv s' -> Q (Err e) s') ->
  (forall n s', dc_inv s' -> (n <> 0 -> owns tid (ch_ID ch) s' /\ quorate ch s' /\ (ch_ID ch, tid) ∉ runs s') -> Q (Ok n) s') ->
  wpt T R G (claim_commit tid (ch_ID ch)) Q s.
Proof.
  intros Hq He Ho. unfold claim_commit. wp_step.
  { apply He. apply (quorate_stable ch s s0 HR Hq). }
  destruct (quorate_stable ch s s0 HR Hq) as (Hi & (ch' & Hin & Hsc) & Hap).
  set (hit := fun x => by_id (ch_ID ch) x && bool_decide (ch_State x = StatePending)).
  assert (Hid : ch_ID ch' = ch_ID ch) by apply Hsc.
  destruct (Z.of_nat (length (List.filter hit (changes s0))) =? 0) eqn:En; bool_split.
  - assert (Hsame : same_tables s0 (update_changes hit StateCommitting None s0)).
    { split_and!; try done. cbn. rewrite <- (map_id (changes s0)) at 2. apply map_ext_in. intros x Hx.
      destruct (hit x) eqn:Eh; [|done].
      assert (In x (List.filter hit (changes s0))) as Hf by (by apply filter_In).
      destruct (List.filter hit (changes s0)); [done|cbn in En; lia]. }
    split; [by apply dc_skip_step|]. apply Ho; [by eapply inv_same|lia].
  - assert (Hp : ch_State ch' = StatePending).
    { destruct (List.filter hit (changes s0)) as [|x l] eqn:Ef; [done|].
      assert (In x (List.filter hit (changes s0))) as [Hx Hh]%filter_In by (rewrite Ef; by left).
      unfold hit, by_id in Hh. bool_split. apply list_elem_of_In in Hx.
      assert (x = ch') as -> by (eapply ids_unique; [apply Hi|done|done|congruence]). done. }
    assert (Hg : dc_step tid s0 (add_claim (ch_ID ch, tid) (update_changes hit StateCommitting None s0))).
    { apply move_step; [|done]. apply (st_claim tid s0 ch'); [done|done| | |done|done| |done].
      - rewrite Hid. destruct Hsc as (_&_&_&_&_&->&_). done.
      - cbn. by rewrite Hid.
      - cbn. by rewrite Hid. }
    split; [done|]. apply Ho; [by eapply inv_step|]. intros _. split; [|split; [eapply quorate_step; [exact Hg|]; split_and!; [done|by exists ch'|done]|]].
    + split_and!; [by eapply inv_step|cbn; apply elem_of_app; right; by apply list_elem_of_singleton|].
      exists (set_state StateCommitting None ch'). split_and!; [|done|done].
      cbn. apply upd_in. exists ch'. split; [done|]. unfold hit, by_id. rewrite Hid, Z.eqb_refl.
      by rewrite bool_decide_true.
    + cbn. intros Hr%(i_runs s0 Hi). rewrite <- Hid in Hr. by eapply pending_unclaimed.
Qed.
End protocol.

Section handler_protocol.
Context (T : Z -> Prop) (sha256 : string -> string) (c : Controller) (tid : nat) `{!CommittersOK c}.
Hypothesis Hquorum : 2 <= d_Quorum c.
Abbreviation R := (others tid).
Abbreviation G := (dc_step tid).

Lemma find_by_id s id ch : find_first (by_id id) (changes s) = Some ch -> ch ∈ changes s /\ ch_ID ch = id.
Proof. intros [? H]%find_first_Some. unfold by_id in H. by bool_split. Qed.

Lemma filter_signed s id actor :
  (0 <? Z.of_nat (length (List.filter (signed id actor) (signoffs s)))) = existsb (signed id actor) (signoffs s).
Proof. induction (signoffs s) as [|x l IH]; [done|]. cbn. by destruct (signed id actor x). Qed.

Lemma wp_loadPending id Q s :
  (forall e, Q (Err e) s) ->
  (forall ch, ch ∈ changes s -> ch_ID ch = id -> ch_State ch = StatePending -> Q (Ok ch) s) ->
  wpt T eq (fun _ _ => True) (loadPending id) Q s.
Proof.
  intros He Ho. unfold loadPending. wp_step. wp_step; [done|].
  destruct (find_first _ _) as [ch|] eqn:Ef; [|by wp_step]. apply find_by_id in Ef as [Hin Hid].
  destruct (decide _) as [|Hst%dec_stable]; wp_step; auto.
Qed.

Lemma wp_approve_tx id actor s1 :
  dc_inv s1 -> actor <> "" ->
  wpt T eq (fun _ _ => True) (approve_tx id actor) (fun r s2 => match r with
    | Ok (ch, qr) => dc_step tid s1 s2 /\ ch_ID ch = id /\ (qr = true -> quorate ch s2)
    | Err e => True
    end) s1.
Proof.
  intros Hi Hact. unfold approve_tx. wp_step. apply wp_loadPending; [done|]. intros ch Hin Hid Hst. subst id.
  destruct (decide (actor = ch_Proposer ch)); [by wp_step|].
  wp_step. wp_step; [done|]. rewrite filter_signed. destruct (existsb _ _) eqn:Ex; [by wp_step|].
  wp_step. wp_step. wp_step. unfold create_signoff. wp_step; [done|]. rewrite Ex. split; [done|].
  set (s2 := set_signoffs _ _ s1).
  assert (Hg : dc_step tid s1 s2) by (apply move_step; [by eapply (st_approve tid s1 ch (mkSignoff (sg_seq s1) (ch_ID ch) actor decisionApprove t))|done]).
  wp_step. wp_step; [done|]. wp_step. split_and!; [done|done|]. intros Hq. bool_split.
  split_and!; [by eapply inv_step| |done]. by exists ch.
Qed.

Lemma Approve_wp id actor s :
  dc_inv s -> wpt T R G (Approve c tid id actor) (fun _ s' => dc_inv s') s.
Proof.
  intros Hi. unfold Approve. destruct (decide (actor = "")) as [|Hact]; [by wp_step|].
  wp_step. wp_step. wp_step; pose proof (inv_stable tid s s0 HR Hi) as Hi0.
  { wp_step. by wp_step. }
  eapply wp_mono; [by apply wp_approve_tx|]. intros [[ch qr]|e] s2 _ Hpost.
  2:{ destruct e; wp_step; try (by wp_step); try (wp_step; by wp_step);
        (apply (wp_audit T c tid dc_inv); [apply inv_stable|apply inv_same_stable|done|]; intros s3 Hi3; by wp_step). }
  destruct Hpost as (Hg & Hid & Hq). split; [done|]. pose proof (inv_step tid s0 s2 Hg Hi0) as Hi2.
  destruct qr; cbn [negb].
  2:{ wp_step. apply (wp_audit T c tid dc_inv); [apply inv_stable|apply inv_same_stable|done|].
      intros s3 Hi3. by apply (wp_reload T tid dc_inv); [apply inv_stable|..]. }
  subst id. wp_step. apply wp_claim; [by apply Hq|done|]. intros n s3 Hi3 Hown.
  destruct (n =? 0) eqn:En; bool_split; [by apply (wp_reload T tid dc_inv); [apply inv_stable|..]|].
  destruct (Hown En) as (Ho & Hqu & Hn). wp_step. apply wp_run_committer; [done|done|done|done|]. intros r s4 Ho4.
  destruct r as [[]|cerr].
  - wp_step. apply wp_finalize; [done|by left|]. intros s5 Hi5.
    wp_step. apply (wp_audit T c tid dc_inv); [apply inv_stable|apply inv_same_stable|done|].
    intros s6 Hi6. by apply (wp_reload T tid dc_inv); [apply inv_stable|..].
  - wp_step. apply wp_finalize; [done|by right|]. intros s5 Hi5.
    wp_step. apply (wp_audit T c tid dc_inv); [apply inv_stable|apply inv_same_stable|done|].
    intros s6 Hi6. wp_step. wp_step. apply (wp_reload T tid dc_inv); [apply inv_stable|done|].
    intros r s7 Hi7. by wp_step.
Qed.

(** [id] is denied. *)
Definition denied (id : Z) (s : DStore) : Prop :=
  dc_inv s /\ exists ch, ch ∈ changes s /\ ch_ID ch = id /\ ch_State ch = StateDenied.

Lemma denied_same id : same_stable (denied id).
Proof.
  intros s s' H (Hi & ch & Hin & ? & ?). pose proof (inv_same s s' H Hi). destruct H as (Hch & _).
  split; [done|]. exists ch. by rewrite Hch.
Qed.

Lemma denied_step t id s s' : dc_step t s s' -> denied id s -> denied id s'.
Proof.
  intros Hs (Hi & ch & Hin & Hid & Hst). split; [by eapply inv_step|]. exists ch. split; [|done].
  eapply step_keeps; [done|done|done| |]; by rewrite Hst.
Qed.

Lemma denied_stable id : stable R (denied id).
Proof. apply others_stable. intros t s s' _ Hs. by apply (denied_step t). Qed.

(** Reading a denied change back. *)
Lemma wp_reload_denied id (Q : result derr Change -> DStore -> Prop) s :
  denied id s -> (forall e s', dc_inv s' -> Q (Err e) s') ->
  (forall ch s', dc_inv s' -> ch ∈ changes s' -> ch_ID ch = id -> ch_State ch = StateDenied -> Q (Ok ch) s') ->
  wpt T R G (reload id) Q s.
Proof.
  intros Hd He Ho. unfold reload. wp_step. wp_step; destruct (denied_stable id s s0 HR Hd) as (Hi & ch & Hin & Hid & Hst); [by apply He|].
  destruct (find_first _ _) as [x|] eqn:Ef; wp_step; [|by apply He].
  apply find_by_id in Ef as [Hx Hxid].
  assert (x = ch) as -> by (eapply ids_unique; [apply Hi|done|done|congruence]). by apply Ho.
Qed.

(** The transaction of a veto is one step, and leaves the change denied. *)
Lemma wp_deny_tx id actor s0 : dc_inv s0 ->
  wpt T eq (fun _ _ => True) (deny_tx id actor) (fun r s2 => match r with
    | Ok ch => dc_step tid s0 s2 /\ denied id s2
    | Err _ => True
    end) s0.
Proof.
  intros Hi0. unfold deny_tx. wp_step. apply wp_loadPending; [done|]. intros ch Hin Hid Hst. subst id.
  wp_step. wp_step. wp_step. wp_step.
  assert (Hrest : forall sgs s2, changes s2 = changes s0 -> ch_seq s2 = ch_seq s0 ->
     signoffs s2 = signoffs s0 ++ sgs -> claims s2 = claims s0 -> runs s2 = runs s0 -> d_conf s2 = d_conf s0 ->
     (sgs = [] \/ exists sg, sgs = [sg] /\ sg_ChangeID sg = ch_ID ch /\ sg_Decision sg = decisionDeny /\
                            existsb (signed (ch_ID ch) (sg_Actor sg)) (signoffs s0) = false) ->
     wpt T eq (fun _ _ => True)
       (_ ← exec (fun s => ((), update_changes (by_id (ch_ID ch)) StateDenied (Some t) s)); mret ch)
       (fun r s2 => match r with Ok _ => dc_step tid s0 s2 /\ denied (ch_ID ch) s2 | Err _ => True end) s2).
  { intros sgs s2 H1 H2 H3 H4 H5 H5' H6. wp_step. wp_step; [done|]. split; [done|]. wp_step.
    assert (Hg : dc_step tid s0 (update_changes (by_id (ch_ID ch)) StateDenied (Some t) s2)).
    { apply move_step; [|done]. eapply (st_deny tid s0 ch sgs t); try done. cbn. by rewrite H1. }
    split; [done|]. split; [by eapply inv_step|]. exists (set_state StateDenied (Some t) ch). split_and!; [|done..].
    cbn. apply upd_in. exists ch. rewrite H1. split; [done|]. unfold by_id. by rewrite Z.eqb_refl. }
  assert (Hvote : forall b : bool, wpt T eq (fun _ _ => True)
       (_ ← (if b then create_signoff (ch_ID ch) actor decisionDeny t else mret ());
        _ ← exec (fun s => ((), update_changes (by_id (ch_ID ch)) StateDenied (Some t) s)); mret ch)
       (fun r s2 => match r with Ok _ => dc_step tid s0 s2 /\ denied (ch_ID ch) s2 | Err _ => True end) s0).
  { intros [|]; wp_step; [|wp_step; eapply (Hrest []); try done; [by rewrite app_nil_r|by left]].
    unfold create_signoff. wp_step; [done|]. destruct (existsb _ _) eqn:Ef; [done|].
    split; [done|]. eapply Hrest; try done. right. by eexists. }
  wp_step; [apply (Hvote true)|apply Hvote].
Qed.

Lemma Deny_wp id actor reason s :
  dc_inv s -> wpt T R G (Deny c id actor reason) (fun r s' => dc_inv s' /\
    match r with Ok ch => ch ∈ changes s' /\ ch_ID ch = id /\ ch_State ch = StateDenied | Err _ => True end) s.
Proof.
  intros Hi. unfold Deny. destruct (decide (actor = "")) as [|Hact]; [by wp_step|].
  wp_step. wp_step; pose proof (inv_stable tid s s0 HR Hi) as Hi0; [done|].
  eapply wp_mono; [by apply wp_deny_tx|]. intros [ch|e] s2 _ Hpost; [|done]. destruct Hpost as [Hg Hd]. split; [done|].
  wp_step. apply (wp_audit T c tid (denied id)); [apply denied_stable|apply denied_same|done|].
  intros s6 Hd6. apply wp_reload_denied; [done|done|]. by intros.
Qed.

Lemma Propose_wp kind tgt payload proposer s :
  dc_inv s -> wpt T R G (Propose sha256 c kind tgt payload proposer) (fun _ s' => dc_inv s') s.
Proof.
  intros Hi. unfold Propose. destruct (decide (proposer = "")) as [|Hp]; [by wp_step|].
  wp_step. wp_step. wp_step. wp_step; pose proof (inv_stable tid s s0 HR Hi) as Hi0; [done|].
  wp_step. unfold create_change. wp_step; [done|]. split; [done|].
  set (ch := mkChange (ch_seq s0) _ _ _ _ _ _ _ _ _). cbn [ch_Kind ch_Target] in *.
  wp_step. unfold create_signoff. wp_step; [done|].
  assert (Hf : existsb (signed (ch_ID ch) proposer) (signoffs (set_changes (changes s0 ++ [ch]) (ch_seq s0 + 1) s0)) = false).
  { apply existsb_elem_false. intros g Hg. unfold signed. pose proof (i_old s0 Hi0 g Hg).
    rewrite (proj2 (Z.eqb_neq _ _)) by (cbn; lia). done. }
  rewrite Hf. split; [done|]. wp_step.
  match goal with |- dc_step _ _ ?s2 /\ _ => set (s3 := s2) end.
  assert (Hg : dc_step tid s0 s3).
  { apply move_step; [|done]. by eapply (st_propose tid s0 ch (mkSignoff (sg_seq s0) (ch_ID ch) proposer decisionApprove t)). }
  split; [done|]. pose proof (inv_step _ _ _ Hg Hi0) as Hi3.
  wp_step. apply (wp_audit T c tid dc_inv); [apply inv_stable|apply inv_same_stable|done|].
  intros s6 Hi6. by wp_step.
Qed.
End handler_protocol.

(** ** Properties *)

(** The states the system can reach: any interleaving of steps of any
    goroutines. *)
Definition dc_reach : DStore -> Prop := rtc (fun s s' => exists t, dc_step t s s') empty_dstore.

Lemma inv_empty : dc_inv empty_dstore.
Proof.
  split; cbn; try (by constructor); intros; match goal with H : _ ∈ [] |- _ => by apply elem_of_nil in H end.
Qed.

Lemma reach_inv s : dc_reach s -> dc_inv s.
Proof.
  intros H. eapply (rtc_invariant _ dc_inv); [|exact H|apply inv_empty].
  intros a b [t Hs]. by apply (inv_step t).
Qed.

(** The handlers refine the protocol. Whatever the other goroutines do
    between its database calls (any steps of the protocol), and whatever faults
    occur, every write of [Propose], [Approve] and [Deny] is one step of the
    protocol: sign-offs only by distinct actors and never by the proposer on their
    own change, the commit claimed only at quorum, the committer called and the
    outcome recorded only by the winner of the claim. *)
Theorem handlers_refine_protocol T sha256 c tid s `{!CommittersOK c} :
  2 <= d_Quorum c -> dc_inv s ->
  (forall kind tgt payload proposer,
     wpt T (others tid) (dc_step tid) (Propose sha256 c kind tgt payload proposer) (fun _ s' => dc_inv s') s) /\
  (forall id actor, wpt T (others tid) (dc_step tid) (Approve c tid id actor) (fun _ s' => dc_inv s') s) /\
  (forall id actor reason, wpt T (others tid) (dc_step tid) (Deny c id actor reason) (fun _ s' => dc_inv s') s).
Proof.
  intros Hq Hi. split_and!; intros.
  - by apply Propose_wp.
  - by apply Approve_wp.
  - eapply wp_mono; [by apply Deny_wp|]. by intros ? ? _ [].
Qed.

(** The actors who approved a change. *)
Definition approvers (id : Z) (s : DStore) : list string := sg_Actor <$> List.filter (approves id) (signoffs s).

Lemma approvers_distinct id s : dc_inv s -> NoDup (approvers id s).
Proof.
  intros Hi. pose proof (i_signed s Hi) as Hnd. unfold approvers.
  induction (signoffs s) as [|g l IH]; [constructor|]. cbn in *. apply NoDup_cons in Hnd as [Hg Hnd].
  destruct (approves id g) eqn:E; [|auto]. cbn. apply NoDup_cons. split; [|auto].
  intros (h & Hh & Hin)%list_elem_of_fmap. apply Hg. apply list_elem_of_fmap. exists h.
  apply list_elem_of_In in Hin. apply filter_In in Hin as [Hin Eh].
  unfold approves in *. bool_split. split; [congruence|by apply list_elem_of_In].
Qed.

Lemma NoDup_second {A} `{EqDecision A} (l : list A) (x : A) : NoDup l -> (2 <= length l)%nat -> exists y, y ∈ l /\ y <> x.
Proof.
  intros Hnd Hlen. destruct l as [|a [|b l]]; cbn in Hlen; try lia.
  apply NoDup_cons in Hnd as [Ha _].
  destruct (decide (a = x)) as [->|]; [|exists a; split; [constructor|done]].
  exists b. split; [constructor; constructor|]. intros ->. apply Ha. constructor.
Qed.

(** A change whose commit has been claimed (committing, committed or failed) was
    approved by at least as many distinct people as its quorum, which is never below
    two; one of them is not the proposer. *)
Definition two_person (s : DStore) : Prop :=
  forall ch, ch ∈ changes s -> decided (ch_State ch) ->
  NoDup (approvers (ch_ID ch) s) /\ 2 <= ch_Quorum ch <= Z.of_nat (length (approvers (ch_ID ch) s)) /\
  exists actor, actor ∈ approvers (ch_ID ch) s /\ actor <> ch_Proposer ch /\ actor <> "".

Lemma inv_two_person s : dc_inv s -> two_person s.
Proof.
  intros Hi ch Hin Hd. pose proof (approvers_distinct (ch_ID ch) s Hi) as Hnd.
  pose proof (i_decided s Hi ch Hin Hd) as Hq. pose proof (i_quorum s Hi ch Hin).
  unfold approvals in Hq. unfold approvers at 2. rewrite length_fmap. split_and!; [done|done|done|].
  destruct (NoDup_second (approvers (ch_ID ch) s) (ch_Proposer ch)) as (y & Hy & Hne); [done|unfold approvers; rewrite length_fmap; lia|].
  exists y. split_and!; [done|done|]. apply list_elem_of_fmap in Hy as (g & -> & Hg).
  apply list_elem_of_In in Hg. apply filter_In in Hg as [Hg Ha]. apply list_elem_of_In in Hg.
  unfold approves in Ha. bool_split. by apply Hi.
Qed.

(** The calls of committers are of distinct changes, each by the winner of that
    change's claim, at quorum. *)
Definition run_once (s : DStore) : Prop :=
  NoDup (runs s).*1 /\
  forall id t, (id, t) ∈ runs s -> (id, t) ∈ claims s /\
    exists ch, ch ∈ changes s /\ ch_ID ch = id /\ decided (ch_State ch) /\ ch_Quorum ch <= approvals id s.

Lemma inv_run_once s : dc_inv s -> run_once s.
Proof.
  intros Hi. split; [apply Hi|]. intros id t Hr%(i_runs s Hi). split; [done|].
  destruct (i_claimed s Hi id t Hr) as (ch & Hin & <- & Hd). exists ch. split_and!; try done. by apply Hi.
Qed.

(** What the invariant implies holds whatever a handler's outcome is. *)
Lemma handlers_preserve (P : DStore -> Prop) T sha256 c tid s `{!CommittersOK c} :
  (forall s, dc_inv s -> P s) -> 2 <= d_Quorum c -> dc_reach s ->
  (forall kind tgt payload proposer,
     wpt T (others tid) (dc_step tid) (Propose sha256 c kind tgt payload proposer) (fun _ s' => P s') s) /\
  (forall id actor, wpt T (others tid) (dc_step tid) (Approve c tid id actor) (fun _ s' => P s') s) /\
  (forall id actor reason, wpt T (others tid) (dc_step tid) (Deny c id actor reason) (fun _ s' => P s') s).
Proof.
  intros HP Hq Hi%reach_inv. split_and!; intros; (eapply wp_mono; [|intros ? ? _ H; apply HP, H]).
  - by apply Propose_wp.
  - by apply Approve_wp.
  - eapply wp_mono; [by apply Deny_wp|]. by intros ? ? _ [].
Qed.

(** The people other than the proposer who approved a change. *)
Definition checkers (ch : Change) (s : DStore) : list string :=
  List.filter (fun a => negb (bool_decide (a = ch_Proposer ch))) (approvers (ch_ID ch) s).

Lemma NoDup_filter_out {A} `{EqDecision A} (l : list A) (x : A) :
  NoDup l -> (length l <= S (length (List.filter (fun a => negb (bool_decide (a = x))) l)))%nat.
Proof.
  induction 1 as [|a l Ha Hnd IH]; cbn; [lia|]. destruct (decide (a = x)) as [->|Hne].
  - rewrite bool_decide_true by done. cbn. apply le_n_S.
    assert (Hall : List.filter (fun a => negb (bool_decide (a = x))) l = l); [|by rewrite Hall].
    clear -Ha. induction l as [|b l IH]; cbn; [done|]. apply not_elem_of_cons in Ha as [Hb Ha].
    rewrite bool_decide_false by congruence. cbn. by rewrite IH.
  - rewrite bool_decide_false by done. cbn. lia.
Qed.

(** The proposer's own sign-off is one of those counted, so the rest of the quorum are
    other people. *)
Definition checked (s : DStore) : Prop :=
  forall ch, ch ∈ changes s -> decided (ch_State ch) -> ch_Quorum ch - 1 <= Z.of_nat (length (checkers ch s)).

Lemma inv_checked s : dc_inv s -> checked s.
Proof.
  intros Hi ch Hin Hd. destruct (inv_two_person s Hi ch Hin Hd) as (Hnd & Hq & _).
  pose proof (NoDup_filter_out (approvers (ch_ID ch) s) (ch_Proposer ch) Hnd). unfold checkers. lia.
Qed.

(** A veto stands: what was denied in [s] is still there, as it was, in [s'], and no
    commit of a denied change has been claimed nor its committer called. *)
Definition vetoes_stand (s s' : DStore) : Prop :=
  forall ch, ch_State ch = StateDenied ->
  (ch ∈ changes s -> ch ∈ changes s') /\
  (ch ∈ changes s' -> forall t, (ch_ID ch, t) ∉ claims s' /\ (ch_ID ch, t) ∉ runs s').

Lemma inv_denied_unclaimed s ch t : dc_inv s -> ch ∈ changes s -> ch_State ch = StateDenied ->
  (ch_ID ch, t) ∉ claims s /\ (ch_ID ch, t) ∉ runs s.
Proof.
  intros Hi Hin Hden. assert (Hc : (ch_ID ch, t) ∉ claims s).
  { intros Hc. destruct (i_claimed s Hi _ _ Hc) as (x & Hx & Hid & Hd).
    assert (x = ch) as -> by (eapply ids_unique; [apply Hi|done..]). rewrite Hden in Hd. by destruct Hd as [?|[?|?]]. }
  split; [done|]. by intros ?%(i_runs s Hi).
Qed.

Lemma steps_keep_denied tid s s' ch :
  dc_inv s -> rtc (either (others tid) (dc_step tid)) s s' -> ch_State ch = StateDenied -> ch ∈ changes s -> ch ∈ changes s'.
Proof.
  intros Hi Hr Hst Hin. set (I := fun s => dc_inv s /\ ch ∈ changes s).
  assert (Hone : forall t a b, dc_step t a b -> I a -> I b).
  { intros t a b Hab [? ?]. split; [by eapply inv_step|]. eapply step_keeps; [done|done|done| |]; by rewrite Hst. }
  apply (rtc_invariant _ I _ _) with (2 := Hr); [|done]. intros a b [Hab|Hab]; [|by apply (Hone tid)].
  apply (others_stable tid I) with (2 := Hab). intros t x y _. apply Hone.
Qed.

(** What dual control promises of the state a handler leaves behind. *)
Definition dual_controlled (s s' : DStore) : Prop := two_person s' /\ checked s' /\ vetoes_stand s s'.

(** C1: the two-person rule. From every state the protocol reaches, whatever the other
    goroutines do between the transactions and whatever faults occur, after [Propose], [Approve]
    and [Deny]: every change whose commit has been claimed has a quorum (at least two) of approvals
    by distinct people, counting the proposer's own, so at least quorum - 1 of them are other
    people; every change that was denied is still denied, and no denied change was ever claimed or
    its committer called; and a [Deny] that returns a change returns it denied. A transaction is
    one step here (the single connection of SQLite). *)
Theorem two_person_rule T sha256 c tid s `{!CommittersOK c} : 2 <= d_Quorum c -> dc_reach s ->
  (forall kind tgt payload proposer,
     wpt T (others tid) (dc_step tid) (Propose sha256 c kind tgt payload proposer) (fun _ s' => dual_controlled s s') s) /\
  (forall id actor, wpt T (others tid) (dc_step tid) (Approve c tid id actor) (fun _ s' => dual_controlled s s') s) /\
  (forall id actor reason,
     wpt T (others tid) (dc_step tid) (Deny c id actor reason) (fun r s' => dual_controlled s s' /\
       match r with Ok ch => ch ∈ changes s' /\ ch_ID ch = id /\ ch_State ch = StateDenied | Err _ => True end) s).
Proof.
  intros Hq Hi%reach_inv.
  assert (Hdc : forall s', rtc (either (others tid) (dc_step tid)) s s' -> dc_inv s' -> dual_controlled s s').
  { intros s' Hr Hi'. split_and!; [by apply inv_two_person|by apply inv_checked|].
    intros ch Hst. split; [by eapply steps_keep_denied|]. intros Hin t. by apply inv_denied_unclaimed. }
  split_and!; intros; (eapply wp_mono; [by (apply Propose_wp || apply Approve_wp || apply Deny_wp)|]); cbn; intros; auto.
  destruct_and!. auto.
Qed.

(** The committer of a change runs at most once, whoever races: after every
    outcome of [Propose], [Approve] and [Deny] the calls made so far are of distinct
    changes, each by the winner of that change's claim, at quorum. *)
Theorem committer_runs_once T sha256 c tid s `{!CommittersOK c} : 2 <= d_Quorum c -> dc_reach s ->
  (forall kind tgt payload proposer,
     wpt T (others tid) (dc_step tid) (Propose sha256 c kind tgt payload proposer) (fun _ s' => run_once s') s) /\
  (forall id actor, wpt T (others tid) (dc_step tid) (Approve c tid id actor) (fun _ s' => run_once s') s) /\
  (forall id actor reason, wpt T (others tid) (dc_step tid) (Deny c id actor reason) (fun _ s' => run_once s') s).
Proof. intros Hq Hr. by apply (handlers_preserve _ T sha256 c tid s inv_run_once). Qed.

(** Decisions are final and a veto is effective: from a reachable state no
    step of anybody changes a denied, committed or failed change, and the
    committer of a denied change is never called. *)
Theorem decisions_are_final s t s' ch :
  dc_reach s -> dc_step t s s' -> ch ∈ changes s ->
  ch_State ch = StateDenied \/ ch_State ch = StateCommitted \/ ch_State ch = StateFailed ->
  ch ∈ changes s' /\ (ch_State ch = StateDenied -> forall u, (ch_ID ch, u) ∉ runs s').
Proof.
  intros Hr Hs Hin Hst. pose proof (reach_inv s Hr) as Hi.
  assert (Hin' : ch ∈ changes s').
  { eapply step_keeps; [done|done|done| |]; destruct Hst as [Hst|[Hst|Hst]]; rewrite Hst; done. }
  split; [done|]. intros Hden u Hru. pose proof (inv_step t s s' Hs Hi) as Hi'.
  apply (i_runs s' Hi') in Hru. destruct (i_claimed s' Hi' _ _ Hru) as (x & Hx & Hid & Hd).
  assert (x = ch) as -> by (eapply ids_unique; [apply Hi'|done..]). rewrite Hden in Hd.
  by destruct Hd as [?|[?|?]].
Qed.

(** A rejected attempt leaves no sign-off: without interference, an approval
    by the proposer or by somebody who already signed returns the corresponding
    error (or the database's) and changes neither the changes nor the sign-offs;
    it only audits. *)
Theorem blocked_approval_is_inert c tid id actor s ch :
  find_first (by_id id) (changes s) = Some ch -> ch_State ch = StatePending -> actor <> "" ->
  actor = ch_Proposer ch \/ existsb (signed id actor) (signoffs s) = true ->
  solo (Approve c tid id actor) (fun res s' =>
    same_tables s s' /\
    (res = Err DC_Fault \/
     res = Err (if decide (actor = ch_Proposer ch) then DC_SelfApproval ch else DC_DuplicateActor ch))) s.
Proof.
  intros Hf Hst Hact Hblk. unfold Approve. rewrite decide_False by done.
  assert (Haud : forall e a b d,
      e = (if decide (actor = ch_Proposer ch) then DC_SelfApproval ch else DC_DuplicateActor ch) ->
      solo (_ ← audit c actor a b d; throw (A:=Change) e) (fun res s' => same_tables s s' /\
        (res = Err DC_Fault \/
         res = Err (if decide (actor = ch_Proposer ch) then DC_SelfApproval ch else DC_DuplicateActor ch))) s).
  { intros e a b d ->. unfold audit. wp_step. destruct (d_hasAudit c).
    - wp_step. wp_step; [wp_step; by split; [|right]|]. split; [done|]. wp_step. by split; [|right].
    - wp_step. wp_step. by split; [|right]. }
  wp_step. wp_step. wp_step; [wp_step; wp_step; wp_step; by split; [|left]|].
  unfold approve_tx, loadPending. wp_step. wp_step. wp_step; [wp_step; wp_step; wp_step; by split; [|left]|].
  rewrite Hf. rewrite decide_False by (by intros ?). wp_step.
  destruct (decide (actor = ch_Proposer ch)) as [Hp|Hp].
  { wp_step. by apply Haud. }
  destruct Hblk as [?|Hdup]; [done|].
  wp_step. wp_step; [wp_step; wp_step; wp_step; by split; [|left]|].
  rewrite filter_signed, Hdup. wp_step. by apply Haud.
Qed.

(** A run without interference is a sequence of the goroutine's steps. *)
Lemma run_reach {A} (m : M DStore derr A) tid t s :
  wpt (fun _ => True) (others tid) (dc_step tid) m (fun _ s' => dc_inv s') s -> dc_reach s -> dc_reach (run t m s).2.
Proof.
  intros H Hr. unfold run.
  assert (HR : respects (others tid) (quiet t)) by (intros k x; constructor).
  specialize (H (quiet t) 0%nat HR (fun _ => I)). destruct (m (quiet t) 0%nat s) as [[r n] s']. cbn.
  destruct H as [H _]. unfold dc_reach in *. etrans; [exact Hr|].
  clear -H. induction H as [|x y z [Hxy|Hxy] _ IH]; [constructor| |].
  - etrans; [|exact IH]. clear -Hxy. induction Hxy as [|x y z (u & _ & Hu) _ IH]; [constructor|].
    eapply rtc_l; [by exists u|done].
  - eapply rtc_l; [by exists tid|done].
Qed.

End machine.

(** ** A policy publish by alice and bob *)

#[local] Instance no_effects : Effects := {| eff_direct := fun _ _ => False; eff_commit := fun _ _ _ _ _ => False |}.
Definition demo_sha (s : string) : string := s.
Definition demo_dc : Controller := New true 2.
Definition demo_proposed : DStore :=
  (run 5 (Propose demo_sha demo_dc "policy.publish" "" "allow a -> b tcp 1" "alice") empty_dstore).2.
Definition demo_committed : DStore := (run 6 (Approve demo_dc 1 1 "bob") demo_proposed).2.

Lemma demo_proposed_reach : dc_reach demo_proposed.
Proof.
  apply (run_reach _ 0). { apply Propose_wp; [done|apply inv_empty]. } constructor.
Qed.

Lemma demo_committed_reach : dc_reach demo_committed.
Proof.
  pose proof demo_proposed_reach as Hr. apply (run_reach _ 1); [|done].
  apply Approve_wp, reach_inv; done || apply _.
Qed.

Definition demo_change : Change :=
  mkChange 1 "policy.publish" "" "allow a -> b tcp 1" "allow a -> b tcp 1" StateCommitted 2 "alice" 5 6.

Lemma handlers_refine_protocol_witness :
  2 <= d_Quorum demo_dc /\
  wpt (fun _ => True) (others 1) (dc_step 1) (Approve demo_dc 1 1 "bob") (fun _ s' => dc_inv s') demo_proposed.
Proof.
  split; [done|].
  apply (handlers_refine_protocol (fun _ => True) demo_sha demo_dc 1 demo_proposed); [done|].
  apply reach_inv, demo_proposed_reach.
Defined.

Lemma two_person_rule_witness :
  demo_change ∈ changes demo_committed /\ approvers 1 demo_committed = ["alice"; "bob"] /\
  wpt (fun _ => True) (others 1) (dc_step 1) (Approve demo_dc 1 1 "bob") (fun _ s' => dual_controlled demo_proposed s') demo_proposed.
Proof.
  split_and!; [vm_compute; constructor|vm_compute; reflexivity|].
  apply (two_person_rule (fun _ => True) demo_sha demo_dc 1 demo_proposed); [done|apply demo_proposed_reach].
Defined.

Lemma committer_runs_once_witness :
  (run 6 (Approve demo_dc 1 1 "bob") demo_proposed).2 = demo_committed /\
  wpt (fun _ => True) (others 2) (dc_step 2) (Approve demo_dc 2 1 "carol") (fun _ s' => run_once s') demo_committed.
Proof.
  split; [vm_compute; reflexivity|].
  apply (committer_runs_once (fun _ => True) demo_sha demo_dc 2 demo_committed); [done|apply demo_committed_reach].
Defined.

Lemma decisions_are_final_witness :
  demo_change ∈ changes demo_committed /\ (ch_State demo_change = StateDenied -> forall u, (ch_ID demo_change, u) ∉ runs demo_committed).
Proof.
  apply (decisions_are_final demo_committed 1 demo_committed demo_change);
    [apply demo_committed_reach|by apply dc_skip_step|vm_compute; constructor|by right; left].
Defined.

Lemma blocked_approval_is_inert_witness :
  let ch := mkChange 1 "policy.publish" "" "allow a -> b tcp 1" "allow a -> b tcp 1" StatePending 2 "alice" 5 0 in
  solo (Approve demo_dc 1 1 "alice") (fun res s' =>
    same_tables demo_proposed s' /\
    (res = Err DC_Fault \/
     res = Err (if decide ("alice" = ch_Proposer ch) then DC_SelfApproval ch else DC_DuplicateActor ch))) demo_proposed.
Proof.
  intros ch. apply (blocked_approval_is_inert demo_dc 1 1 "alice" demo_proposed ch);
    [by vm_compute|done|done|by left].
Defined.

(** ** A commit that is audited and lost *)

(** The update that records the outcome fails; nothing else does. *)
Definition finalize_fault : Env DStore :=
  mkEnv (fun _ => 6) (fun k => bool_decide (k = 9%nat)) (fun _ s => s).

(** The error of the update that records the outcome is dropped: when it
    fails, [Approve] returns no error and the audit log says the change was
    committed, yet the row stays in state committing, the change is not the latest
    committed one and no later approval can move it. *)
Theorem lost_finalize_is_reported_committed :
  exists ch s', Approve demo_dc 1 1 "bob" finalize_fault 0%nat demo_proposed = (Ok ch, 12%nat, s') /\
    ch_State ch = StateCommitting /\
    (exists d, last (d_audit s') = Some ("bob", "dualcontrol-commit", "policy.publish#1", d)) /\
    (run 7 (LatestCommitted "policy.publish") s').1 = Ok None /\
    (run 7 (Approve demo_dc 2 1 "carol") s').1 = Err DC_NotPending.
Proof.
  eexists _, _. split; [vm_compute; reflexivity|]. split_and!; [by vm_compute| |by vm_compute|by vm_compute].
  eexists. vm_compute. reflexivity.
Qed.

(** ** A veto that loses to a commit *)

(** Another goroutine claims the commit before the last statement of a veto. *)
Definition claim_between : Env DStore :=
  mkEnv (fun _ => 7) (fun _ => false)
    (fun k s => if bool_decide (k = 3%nat) then (run 7 (claim_commit 2 1) s).2 else s).

(** [Deny] writes the denied state by id alone. When its transaction does not run alone (read
    committed on Postgres, where it takes no lock) an approver can claim the commit between the
    read and that write: the veto succeeds and the row says denied, while the approver holds the
    claim, calls the committer and records the change as committed. *)
Theorem unlocked_veto_loses_to_a_commit :
  let s := set_signoffs (signoffs demo_proposed ++ [mkSignoff 2 1 "bob" decisionApprove 6]) 3 demo_proposed in
  exists ch s', deny_tx 1 "carol" claim_between 0%nat s = (Ok ch, 5%nat, s') /\
    (ch_State <$> changes s') = [StateDenied] /\ (1, 2%nat) ∈ claims s' /\
    (ch_State <$> changes (run 8 (finalize 1 StateCommitted) s').2) = [StateCommitted].
Proof.
  eexists _, _. split; [vm_compute; reflexivity|]. split_and!; [by vm_compute|vm_compute; constructor|by vm_compute].
Qed.
