(* ===== verification/Rollout.v ===== *)
(** * internal/rollout: the staged rollout engine

    [Engine] over the [rollouts], [rollout_hosts] and [heartbeats] tables: start
    with its wave assignment, the per-lane evaluation that widens, completes or
    rolls back, operator abort, the heartbeat commands and the version stamps. *)

From S2P Require Import Prelude Db GoStrings.
From stdpp Require Import prelude strings list pretty relations sorting.
From Stdlib Require Import ZArith Lia Ascii.
Open Scope Z_scope.

Definition StateCanary : string := "canary".
Definition StateWidening : string := "widening".
Definition StateCompleted : string := "completed".
Definition StateRolledBack : string := "rolledback".
Definition StateAborted : string := "aborted".

Definition HostWaiting : string := "waiting".
Definition HostConverged : string := "converged".
Definition HostFailed : string := "failed".
Definition HostReverted : string := "reverted".

Definition LanePolicy : string := "policy".
Definition LaneBlocklist : string := "blocklist".
Definition LaneNebula : string := "nebula".
Definition LanePilot : string := "pilot".
Definition lanes : list string := [LanePolicy; LaneBlocklist; LaneNebula; LanePilot].

Definition healthBad (h : string) : bool :=
  bool_decide (h ∈ ["unhealthy"; "degraded"; "error"; "critical"; "red"]).

Inductive rerr : Type :=
| RO_ActiveExists | RO_NoHosts | RO_None | RO_NotActive
| RO_Duplicated     (* gorm.ErrDuplicatedKey on a repeated host *)
| RO_Fault.

#[export] Instance rerr_db : DbError rerr := RO_Fault.

(** [Rollout] *)
Record Rollout : Type := mkRollout {
  ro_ID : Z;
  ro_Lane : string;
  ro_Description : string;
  ro_TargetVersion : Z;
  ro_PrevVersion : Z;
  ro_State : string;
  ro_ActiveWave : Z;
  ro_WaveSize : Z;
  ro_MinHealthy : Z;
  ro_ObserveWindow : Z;
  ro_MissingAfter : Z;
  ro_WaveStartedAt : Z;
  ro_CreatedAt : Z;
  ro_UpdatedAt : Z;
  ro_Note : string;
}.

(** [Host] *)
Record Host : Type := mkHost {
  h_ID : Z;
  h_RolloutID : Z;
  h_OverlayIP : string;
  h_Wave : Z;
  h_Status : string;
  h_UpdatedAt : Z;
}.

(** [hb], the read-only view of the heartbeats table. *)
Record hb : Type := mkHb {
  hb_OverlayIP : string;
  hb_Bundle : Z;
  hb_Blocklist : Z;
  hb_Nebula : Z;
  hb_Pilot : Z;
  hb_Health : string;
  hb_LastSeen : Z;
}.

Definition appliedFor (beat : hb) (lane : string) : Z :=
  if decide (lane = LaneBlocklist) then hb_Blocklist beat
  else if decide (lane = LaneNebula) then hb_Nebula beat
  else if decide (lane = LanePilot) then hb_Pilot beat
  else hb_Bundle beat.

Record RStore : Type := mkRStore {
  rollouts : list Rollout;
  ro_seq : Z;
  rhosts : list Host;
  rh_seq : Z;
  beats : list hb;
  r_audit : list (string * string * string * string);
}.

Definition empty_rstore : RStore := mkRStore [] 1 [] 1 [] [].

Definition set_rollouts (l : list Rollout) (n : Z) (s : RStore) : RStore :=
  mkRStore l n (rhosts s) (rh_seq s) (beats s) (r_audit s).
Definition set_rhosts (l : list Host) (n : Z) (s : RStore) : RStore :=
  mkRStore (rollouts s) (ro_seq s) l n (beats s) (r_audit s).
Definition add_raudit (e : string * string * string * string) (s : RStore) : RStore :=
  mkRStore (rollouts s) (ro_seq s) (rhosts s) (rh_seq s) (beats s) (r_audit s ++ [e]).

(** [StartConfig] *)
Record StartConfig : Type := mkStartConfig {
  sc_Lane : string;
  sc_Description : string;
  sc_TargetVersion : Z;
  sc_PrevVersion : Z;
  sc_Hosts : list string;
  sc_CanarySize : Z;
  sc_WaveSize : Z;
  sc_MinHealthy : Z;
  sc_Observe : Z;
  sc_MissingAfter : Z;
  sc_Actor : string;
}.

(** [Engine]: which dialect it runs on and whether an audit hook is wired. *)
Record Engine : Type := mkEngine { e_postgres : bool; e_audit : bool }.

(** [wire.Command] of type apply_bundle *)
Record Command : Type := mkCommand { cmd_Type : string; cmd_BundleVersion : Z }.
Definition CmdApplyBundle : string := "apply_bundle".

(** ** The advisory key: FNV-1a on 32 bits, as an [int32]. *)

Fixpoint fnv32a (h : Z) (s : string) : Z :=
  match s with
  | "" => h
  | String c s => fnv32a ((Z.lxor h (Z.of_N (N_of_ascii c)) * 16777619) mod 2 ^ 32) s
  end.

Definition advisoryClassRollout : Z := 3.

Definition laneAdvisoryKey (lane : string) : Z :=
  let h := fnv32a 2166136261 lane in
  if h <? 2 ^ 31 then h else h - 2 ^ 32.

(** ** Reads *)

Definition active_state (st : string) : bool := bool_decide (st = StateCanary) || bool_decide (st = StateWidening).

(** The highest id on a lane. *)
Definition latest (lane : string) (rs : list Rollout) : option Rollout :=
  find_first (fun r => bool_decide (ro_Lane r = lane)) (rev rs).

Definition current (lane : string) : M RStore rerr (option Rollout) :=
  query (fun s => latest lane (rollouts s)).

Definition lockedActiveCurrent (lane : string) : M RStore rerr (option Rollout) :=
  r ← query (fun s => latest lane (rollouts s));
  mret (match r with
        | Some r => if active_state (ro_State r) then Some r else None
        | None => None
        end).

Definition recordAudit (e : Engine) (actor action target details : string) : M RStore rerr unit :=
  if e_audit e
  then ignore (exec (fun s => ((), add_raudit (actor, action, target, details) s)))
  else mret ().

(** ** Start *)

(** The wave of the [i]-th host. *)
Definition wave_of (canary waveSize i : Z) : Z :=
  if i <? canary then 0
  else if waveSize <=? 0 then 1
  else 1 + (i - canary) / waveSize.

(** [tx.Create(&Host{...})] under UNIQUE(rollout_id, overlay_ip). *)
Definition create_host (id : Z) (ip : string) (wave t : Z) : M RStore rerr unit :=
  exec_err (fun s =>
    if existsb (fun h => (h_RolloutID h =? id) && bool_decide (h_OverlayIP h = ip)) (rhosts s)
    then Err RO_Duplicated
    else Ok ((), set_rhosts (rhosts s ++ [mkHost (rh_seq s) id ip wave HostWaiting t]) (rh_seq s + 1) s)).

Fixpoint create_hosts (id canary waveSize t i : Z) (ips : list string) : M RStore rerr unit :=
  match ips with
  | [] => mret ()
  | ip :: ips =>
      _ ← create_host id ip (wave_of canary waveSize i) t;
      create_hosts id canary waveSize t (i + 1) ips
  end.

(** The clamped canary size. *)
Definition canary_size (cfg : StartConfig) : Z :=
  let n := Z.of_nat (length (sc_Hosts cfg)) in
  let canary := if sc_CanarySize cfg <? 1 then 1 else sc_CanarySize cfg in
  if n <? canary then n else canary.

Definition start_lane (cfg : StartConfig) : string :=
  if decide (sc_Lane cfg = "") then LanePolicy else sc_Lane cfg.

(** The row [Start] creates. *)
Definition start_row (cfg : StartConfig) (t id : Z) : Rollout :=
  mkRollout id (start_lane cfg) (sc_Description cfg) (sc_TargetVersion cfg) (sc_PrevVersion cfg) StateCanary 0
    (sc_WaveSize cfg) (sc_MinHealthy cfg) (sc_Observe cfg) (sc_MissingAfter cfg) t t t "".

Definition start_tx (e : Engine) (cfg : StartConfig) (t : Z) : M RStore rerr Rollout :=
  _ ← (if e_postgres e then exec (fun s => ((), s)) else mret ());
  cur ← lockedActiveCurrent (start_lane cfg);
  match cur with
  | Some _ => throw RO_ActiveExists
  | None =>
      r ← exec (fun s => let r := start_row cfg t (ro_seq s) in
                         (r, set_rollouts (rollouts s ++ [r]) (ro_seq s + 1) s));
      _ ← create_hosts (ro_ID r) (canary_size cfg) (sc_WaveSize cfg) t 0 (sc_Hosts cfg);
      mret r
  end.

Definition Start (e : Engine) (cfg : StartConfig) : M RStore rerr Rollout :=
  if decide (sc_Hosts cfg = []) then throw RO_NoHosts
  else
    t ← now;
    r ← tx (start_tx e cfg t);
    _ ← recordAudit e (sc_Actor cfg) "rollout-start" ("rollout#" +:+ pretty (ro_ID r))
          ("lane=" +:+ start_lane cfg +:+ " target=" +:+ pretty (sc_TargetVersion cfg) +:+ " prev=" +:+
           pretty (sc_PrevVersion cfg) +:+ " hosts=" +:+ pretty (Z.of_nat (length (sc_Hosts cfg))) +:+
           " canary=" +:+ pretty (canary_size cfg));
    mret r.

(** ** Evaluate *)

Definition in_wave (id wave : Z) (h : Host) : bool := (h_RolloutID h =? id) && (h_Wave h =? wave).

Definition set_status (f : Host -> bool) (status : string) (t : Z) (s : RStore) : RStore :=
  set_rhosts (map (fun h => if f h then mkHost (h_ID h) (h_RolloutID h) (h_OverlayIP h) (h_Wave h) status t
                            else h) (rhosts s)) (rh_seq s) s.

(** [UPDATE rollouts SET ... WHERE id = ?] *)
Definition update_rollout (id : Z) (f : Rollout -> Rollout) (s : RStore) : RStore :=
  set_rollouts (map (fun r => if ro_ID r =? id then f r else r) (rollouts s)) (ro_seq s) s.

Definition with_state (st : string) (t : Z) (note : option string) (r : Rollout) : Rollout :=
  mkRollout (ro_ID r) (ro_Lane r) (ro_Description r) (ro_TargetVersion r) (ro_PrevVersion r) st
    (ro_ActiveWave r) (ro_WaveSize r) (ro_MinHealthy r) (ro_ObserveWindow r) (ro_MissingAfter r)
    (ro_WaveStartedAt r) (ro_CreatedAt r) t (default (ro_Note r) note).

Definition with_wave (w t : Z) (r : Rollout) : Rollout :=
  mkRollout (ro_ID r) (ro_Lane r) (ro_Description r) (ro_TargetVersion r) (ro_PrevVersion r) StateWidening
    w (ro_WaveSize r) (ro_MinHealthy r) (ro_ObserveWindow r) (ro_MissingAfter r)
    t (ro_CreatedAt r) t (ro_Note r).

Definition auditEvt : Type := string * string * string * string.

Definition advanceTx (r : Rollout) (t : Z) : M RStore rerr (list auditEvt) :=
  _ ← exec (fun s => ((), set_status (in_wave (ro_ID r) (ro_ActiveWave r)) HostConverged t s));
  remaining ← query (fun s => Z.of_nat (length (List.filter
      (fun h => (h_RolloutID h =? ro_ID r) && (ro_ActiveWave r <? h_Wave h)) (rhosts s))));
  if remaining =? 0
  then
    _ ← exec (fun s => ((), update_rollout (ro_ID r) (with_state StateCompleted t (Some "all waves converged")) s));
    mret [("system", "rollout-completed", "rollout#" +:+ pretty (ro_ID r),
           "target=" +:+ pretty (ro_TargetVersion r))]
  else
    _ ← exec (fun s => ((), update_rollout (ro_ID r) (with_wave (ro_ActiveWave r + 1) t) s));
    mret [("system", "rollout-advanced", "rollout#" +:+ pretty (ro_ID r),
           "wave " +:+ pretty (ro_ActiveWave r) +:+ " converged -> activating wave " +:+
           pretty (ro_ActiveWave r + 1))].

Definition rollbackTx (r : Rollout) (t : Z) (trigger : string) : M RStore rerr (list auditEvt) :=
  _ ← exec (fun s => ((), set_status (in_wave (ro_ID r) (ro_ActiveWave r)) HostFailed t s));
  _ ← exec (fun s => ((), update_rollout (ro_ID r)
               (with_state StateRolledBack t (Some ("auto-rollback: " +:+ trigger))) s));
  mret [("system", "rollout-rolledback", "rollout#" +:+ pretty (ro_ID r),
         "auto-rollback (frozen): " +:+ trigger)].

(** [hbErr]: a row, no row, or another error. *)
Definition isMissing (beat : result rerr (option hb)) (t : Z) (r : Rollout) : bool :=
  if t - ro_WaveStartedAt r <? ro_MissingAfter r then false
  else match beat with
       | Ok None => true
       | Err _ => false
       | Ok (Some b) => hb_LastSeen b <? t - ro_MissingAfter r
       end.

(** What one host of the wave counts as. *)
Inductive verdict : Type := VFailed (trigger : string) | VConverged | VMissing (trigger : string) | VPending.

Definition judge (r : Rollout) (t : Z) (ip : string) (beat : result rerr (option hb)) : verdict :=
  let missing :=
    if isMissing beat t r
    then VMissing (ip +:+ " went silent (no healthy heartbeat on the target version)") else VPending in
  match beat with
  | Ok (Some b) =>
      if healthBad (hb_Health b) then VFailed (ip +:+ " reported health=" +:+ hb_Health b)
      else if (appliedFor b (ro_Lane r) =? ro_TargetVersion r) && (t - ro_MissingAfter r <=? hb_LastSeen b)
      then VConverged
      else missing
  | _ => missing
  end.

(** The tally of the loop: converged, failed, missing, the first trigger. *)
Record tally : Type := mkTally { n_conv : Z; n_fail : Z; n_miss : Z; trig : string }.

Definition count (v : verdict) (c : tally) : tally :=
  let first tr := if decide (trig c = "") then tr else trig c in
  match v with
  | VFailed tr => mkTally (n_conv c) (n_fail c + 1) (n_miss c) (first tr)
  | VConverged => mkTally (n_conv c + 1) (n_fail c) (n_miss c) (trig c)
  | VMissing tr => mkTally (n_conv c) (n_fail c) (n_miss c + 1) (first tr)
  | VPending => c
  end.

Definition find_beat (ip : string) (s : RStore) : option hb :=
  find_first (fun b => bool_decide (hb_OverlayIP b = ip)) (beats s).

Fixpoint tally_hosts (r : Rollout) (t : Z) (hosts : list Host) (c : tally) : M RStore rerr tally :=
  match hosts with
  | [] => mret c
  | h :: hosts =>
      beat ← attempt (query (find_beat (h_OverlayIP h)));
      tally_hosts r t hosts (count (judge r t (h_OverlayIP h) beat) c)
  end.

(** The decision of [evaluateLane]. *)
Inductive decision : Type := DRollback (trigger : string) | DAdvance | DNone.

Definition need_of (r : Rollout) (total : Z) (c : tally) : Z :=
  let reachable := total - n_miss c in
  if (ro_MinHealthy r <=? 0) || (reachable <? ro_MinHealthy r) then reachable else ro_MinHealthy r.

Definition decide_wave (r : Rollout) (t total : Z) (c : tally) : decision :=
  let need := need_of r total c in
  if 0 <? n_fail c then DRollback (trig c)
  else if (ro_ActiveWave r =? 0) && (n_conv c =? 0) && (0 <? n_miss c)
  then DRollback ("canary not validated: " +:+ trig c)
  else if need <=? n_conv c then DAdvance
  else if ro_ObserveWindow r <=? t - ro_WaveStartedAt r
  then DRollback ("wave " +:+ pretty (ro_ActiveWave r) +:+ " did not converge within the observe window (" +:+
                  pretty (n_conv c) +:+ "/" +:+ pretty need +:+ " reachable healthy; " +:+
                  pretty (n_miss c) +:+ " missing excluded)")
  else DNone.

Definition evaluate_tx (lane : string) : M RStore rerr (bool * list auditEvt) :=
  cur ← lockedActiveCurrent lane;
  match cur with
  | None => mret (false, [])
  | Some r =>
      hosts ← query (fun s => List.filter (in_wave (ro_ID r) (ro_ActiveWave r)) (rhosts s));
      t ← now;
      c ← tally_hosts r t hosts (mkTally 0 0 0 "");
      match decide_wave r t (Z.of_nat (length hosts)) c with
      | DRollback trigger => a ← rollbackTx r t trigger; mret (true, a)
      | DAdvance => a ← advanceTx r t; mret (true, a)
      | DNone => mret (false, [])
      end
  end.

Definition evaluateLane (e : Engine) (lane : string) : M RStore rerr bool :=
  res ← tx (evaluate_tx lane);
  _ ← for_each res.2 (fun a : auditEvt =>
        match a with (actor, action, target, details) => recordAudit e actor action target details end);
  mret res.1.

Fixpoint evaluate_lanes (e : Engine) (ls : list string) (changed : bool) : M RStore rerr bool :=
  match ls with
  | [] => mret changed
  | lane :: ls => c ← evaluateLane e lane; evaluate_lanes e ls (changed || c)
  end.

Definition Evaluate (e : Engine) : M RStore rerr bool := evaluate_lanes e lanes false.

(** ** Commands and stamps *)

Definition member_host (id : Z) (ip : string) (s : RStore) : option Host :=
  find_first (fun h => (h_RolloutID h =? id) && bool_decide (h_OverlayIP h = ip)) (rhosts s).

(** The error of the update is dropped. *)
Definition markReverted (hostID : Z) : M RStore rerr unit :=
  t ← now;
  ignore (exec (fun s => ((), set_status (fun h => h_ID h =? hostID) HostReverted t s))).

Definition apply_bundle (v : Z) : option Command := Some (mkCommand CmdApplyBundle v).

Definition commandForLane (lane overlayIP : string) (reported : Z) : M RStore rerr (option Command) :=
  cur ← attempt (current lane);
  match cur with
  | Ok (Some r) =>
      h ← attempt (query (member_host (ro_ID r) overlayIP));
      match h with
      | Ok (Some h) =>
          if decide (ro_State r = StateCanary \/ ro_State r = StateWidening) then
            mret (if (h_Wave h <=? ro_ActiveWave r) && negb (reported =? ro_TargetVersion r)
                  then apply_bundle (ro_TargetVersion r) else None)
          else if decide (ro_State r = StateCompleted) then
            mret (if negb (reported =? ro_TargetVersion r)
                  then apply_bundle (ro_TargetVersion r) else None)
          else if decide (ro_State r = StateRolledBack) then
            if decide (lane = LaneBlocklist) then mret None
            else if h_Wave h <=? ro_ActiveWave r then
              if negb (reported =? ro_PrevVersion r) then mret (apply_bundle (ro_PrevVersion r))
              else if decide (h_Status h <> HostReverted)
              then _ ← markReverted (h_ID h); mret None
              else mret None
            else mret None
          else mret None
      | _ => mret None
      end
  | _ => mret None
  end.

Definition CommandFor := commandForLane LanePolicy.
Definition BlocklistCommandFor := commandForLane LaneBlocklist.
Definition NebulaCommandFor := commandForLane LaneNebula.
Definition PilotCommandFor := commandForLane LanePilot.

(** [(version, governed)] *)
Definition VersionFor (overlayIP : string) : M RStore rerr (Z * bool) :=
  cur ← attempt (current LanePolicy);
  match cur with
  | Ok (Some r) =>
      h ← attempt (query (member_host (ro_ID r) overlayIP));
      mret (match h with
            | Ok (Some h) =>
                if active_state (ro_State r) && (h_Wave h <=? ro_ActiveWave r)
                then (ro_TargetVersion r, true) else (ro_PrevVersion r, true)
            | _ => (ro_PrevVersion r, true)
            end)
  | _ => mret (0, false)
  end.

(** [SELECT MAX(target_version)]: NULL without rows. *)
Definition BlocklistVersion : M RStore rerr Z :=
  v ← attempt (query (fun s =>
        foldr (fun r acc => if decide (ro_Lane r = LaneBlocklist)
                            then Some (match acc with None => ro_TargetVersion r
                                       | Some m => Z.max m (ro_TargetVersion r) end)
                            else acc) None (rollouts s)));
  mret (match v with Ok (Some m) => m | _ => 0 end).

Definition genForLane (lane overlayIP : string) : M RStore rerr (Z * bool) :=
  cur ← attempt (current lane);
  match cur with
  | Ok (Some r) =>
      if decide (ro_State r = StateCompleted) then mret (ro_TargetVersion r, true)
      else if active_state (ro_State r) then
        h ← attempt (query (member_host (ro_ID r) overlayIP));
        mret (match h with
              | Ok None => (ro_PrevVersion r, true)
              | Err _ => (0, false)
              | Ok (Some h) => if h_Wave h <=? ro_ActiveWave r then (ro_TargetVersion r, true)
                               else (ro_PrevVersion r, true)
              end)
      else mret (ro_PrevVersion r, true)
  | _ => mret (0, false)
  end.

Definition NebulaGenFor := genForLane LaneNebula.
Definition PilotGenFor := genForLane LanePilot.

Definition completed_on (lane : string) (r : Rollout) : bool :=
  bool_decide (ro_Lane r = lane) && bool_decide (ro_State r = StateCompleted).

Definition currentCompletedGen (lane : string) : M RStore rerr Z :=
  r ← attempt (query (fun s => find_first (completed_on lane) (rev (rollouts s))));
  mret (match r with Ok (Some r) => ro_TargetVersion r | _ => 0 end).

Definition CurrentNebulaGen := currentCompletedGen LaneNebula.
Definition CurrentPilotGen := currentCompletedGen LanePilot.

Definition FloorCatchupGen (lane : string) (reportedGen : Z) : M RStore rerr (Z * bool) :=
  cur ← attempt (current lane);
  match cur with
  | Err _ => mret (0, false)
  | Ok cur =>
      if match cur with Some r => active_state (ro_State r) | None => false end then mret (0, false)
      else
        floor ← currentCompletedGen lane;
        mret (if (floor =? 0) || (floor <=? reportedGen) then (0, false) else (floor, true))
  end.

(** ** Status and abort *)

Definition host_le (a b : Host) : Prop :=
  h_Wave a < h_Wave b \/ h_Wave a = h_Wave b /\ String.leb (h_OverlayIP a) (h_OverlayIP b) = true.
#[export] Instance host_le_dec a b : Decision (host_le a b).
Proof. unfold host_le. apply _. Defined.

Definition StatusLane (lane : string) : M RStore rerr (Rollout * list Host) :=
  cur ← current lane;
  match cur with
  | None => throw RO_None
  | Some r =>
      hosts ← query (fun s => merge_sort host_le (List.filter (fun h => h_RolloutID h =? ro_ID r) (rhosts s)));
      mret (r, hosts)
  end.

Definition Status := StatusLane LanePolicy.

Definition AbortLane (e : Engine) (lane actor : string) : M RStore rerr unit :=
  t ← now;
  id ← tx (
    cur ← lockedActiveCurrent lane;
    match cur with
    | None => throw RO_NotActive
    | Some r =>
        _ ← exec (fun s => ((), update_rollout (ro_ID r)
                     (with_state StateRolledBack t (Some "operator-aborted")) s));
        mret (ro_ID r)
    end);
  recordAudit e actor "rollout-aborted" ("rollout#" +:+ pretty id) ("operator abort (lane=" +:+ lane +:+ ")").

Definition Abort (e : Engine) (actor : string) : M RStore rerr unit := AbortLane e LanePolicy actor.

(** ** The lifecycle as a state machine *)

(** Hosts change only in status. *)
Definition same_host (a b : Host) : Prop :=
  h_ID b = h_ID a /\ h_RolloutID b = h_RolloutID a /\ h_OverlayIP b = h_OverlayIP a /\ h_Wave b = h_Wave a.

Definition hosts_same (l l' : list Host) : Prop := Forall2 same_host l l'.

Definition wave_contiguous (id : Z) (hs : list Host) : Prop :=
  (exists h, h ∈ hs /\ h_RolloutID h = id /\ h_Wave h = 0) /\
  forall h, h ∈ hs -> h_RolloutID h = id -> 0 <= h_Wave h /\
    forall w, 0 <= w <= h_Wave h -> exists h', h' ∈ hs /\ h_RolloutID h' = id /\ h_Wave h' = w.

Definition more_waves (r : Rollout) (hs : list Host) : Prop :=
  exists h, h ∈ hs /\ h_RolloutID h = ro_ID r /\ ro_ActiveWave r < h_Wave h.

(** The rollout a lane is running. *)
Definition running (lane : string) (rs : list Rollout) (r : Rollout) : Prop :=
  latest lane rs = Some r /\ active_state (ro_State r) = true.

Definition replace_rollout (id : Z) (f : Rollout -> Rollout) (rs : list Rollout) : list Rollout :=
  map (fun r => if ro_ID r =? id then f r else r) rs.

(** One committed transaction (or single statement). *)
Inductive ro_step (s s' : RStore) : Prop :=
| rs_hosts :
    rollouts s' = rollouts s -> ro_seq s' = ro_seq s -> hosts_same (rhosts s) (rhosts s') -> ro_step s s'
| rs_start r hs :
    ro_ID r = ro_seq s -> ro_State r = StateCanary -> ro_ActiveWave r = 0 ->
    (forall r', running (ro_Lane r) (rollouts s) r' -> False) ->
    (forall h, h ∈ hs -> h_RolloutID h = ro_ID r) -> wave_contiguous (ro_ID r) hs ->
    NoDup (h_OverlayIP <$> hs) ->
    rollouts s' = rollouts s ++ [r] -> ro_seq s' = ro_seq s + 1 -> rhosts s' = rhosts s ++ hs -> ro_step s s'
| rs_advance lane r t :
    running lane (rollouts s) r -> more_waves r (rhosts s) ->
    rollouts s' = replace_rollout (ro_ID r) (with_wave (ro_ActiveWave r + 1) t) (rollouts s) ->
    ro_seq s' = ro_seq s -> hosts_same (rhosts s) (rhosts s') -> ro_step s s'
| rs_finish lane r st t note :
    running lane (rollouts s) r ->
    (st = StateCompleted /\ ~ more_waves r (rhosts s)) \/ st = StateRolledBack ->
    rollouts s' = replace_rollout (ro_ID r) (with_state st t note) (rollouts s) ->
    ro_seq s' = ro_seq s -> hosts_same (rhosts s) (rhosts s') -> ro_step s s'.

(** UNIQUE(rollout_id, overlay_ip) *)
Definition member_key (h : Host) : Z * string := (h_RolloutID h, h_OverlayIP h).

Record ro_inv (s : RStore) : Prop := mkRoInv {
  ri_ids : NoDup (ro_ID <$> rollouts s);
  ri_seq : forall r, r ∈ rollouts s -> ro_ID r < ro_seq s;
  ri_hseq : forall h, h ∈ rhosts s -> h_RolloutID h < ro_seq s;
  ri_active : forall r, r ∈ rollouts s -> active_state (ro_State r) = true -> latest (ro_Lane r) (rollouts s) = Some r;
  ri_waves : forall r, r ∈ rollouts s -> wave_contiguous (ro_ID r) (rhosts s);
  ri_wave : forall r, r ∈ rollouts s -> 0 <= ro_ActiveWave r /\
    exists h, h ∈ rhosts s /\ h_RolloutID h = ro_ID r /\ h_Wave h = ro_ActiveWave r;
  ri_members : NoDup (member_key <$> rhosts s);
}.

(** ** Lemmas on the tables *)

Lemma latest_app lane rs r :
  latest lane (rs ++ [r]) = if decide (ro_Lane r = lane) then Some r else latest lane rs.
Proof. unfold latest. rewrite rev_app_distr. cbn. case_decide; [by rewrite bool_decide_true|by rewrite bool_decide_false]. Qed.

Lemma latest_in lane rs r : latest lane rs = Some r -> r ∈ rs /\ ro_Lane r = lane.
Proof.
  unfold latest. intros [Hin Hl]%find_first_Some. bool_split. split; [|done].
  apply list_elem_of_In, in_rev. by apply list_elem_of_In.
Qed.

Lemma latest_replace lane id f rs : (forall r, ro_Lane (f r) = ro_Lane r) ->
  latest lane (replace_rollout id f rs) = (fun r => if ro_ID r =? id then f r else r) <$> latest lane rs.
Proof.
  intros Hl. unfold latest, replace_rollout. rewrite <- map_rev. induction (rev rs) as [|r l IH]; [done|]. cbn.
  assert (ro_Lane (if ro_ID r =? id then f r else r) = ro_Lane r) as -> by (by destruct (_ =? _)).
  by case_bool_decide.
Qed.

Lemma replace_in id f rs x : x ∈ replace_rollout id f rs <->
  exists y, y ∈ rs /\ x = if ro_ID y =? id then f y else y.
Proof.
  unfold replace_rollout. rewrite list_elem_of_fmap.
  split; [intros (y & -> & Hy); by exists y|intros (y & Hy & ->); by exists y].
Qed.

Lemma replace_ids id f rs : (forall r, ro_ID (f r) = ro_ID r) -> ro_ID <$> replace_rollout id f rs = ro_ID <$> rs.
Proof.
  intros Hf. unfold replace_rollout. change (map ?g rs) with (g <$> rs). rewrite <- list_fmap_compose.
  apply list_fmap_ext. intros i x _. cbn. by destruct (_ =? _).
Qed.

Lemma rollout_unique s a b : ro_inv s -> a ∈ rollouts s -> b ∈ rollouts s -> ro_ID a = ro_ID b -> a = b.
Proof.
  intros Hi [i Ha]%list_elem_of_lookup [j Hb]%list_elem_of_lookup Hn.
  assert (i = j) as ->; [|congruence].
  eapply (NoDup_lookup (ro_ID <$> rollouts s)); [apply Hi| |]; rewrite list_lookup_fmap; [by rewrite Ha|].
  rewrite Hb. simpl. congruence.
Qed.

Lemma hosts_same_refl l : hosts_same l l.
Proof. induction l; constructor; done. Qed.

Lemma hosts_same_trans l1 l2 l3 : hosts_same l1 l2 -> hosts_same l2 l3 -> hosts_same l1 l3.
Proof.
  intros H. revert l3. induction H as [|a b l1 l2 Hab _ IH]; intros l3 H3; [done|].
  apply Forall2_cons_inv_l in H3 as (c & l & Hbc & Hl & ->). constructor; [|by apply IH].
  destruct Hab as (?&?&?&?), Hbc as (?&?&?&?). split_and!; congruence.
Qed.

Lemma hosts_same_status f st t s : hosts_same (rhosts s) (rhosts (set_status f st t s)).
Proof.
  cbn. induction (rhosts s) as [|h l IH]; [constructor|]. cbn. constructor; [|done]. by destruct (f h).
Qed.

(** A property of one host that only looks at the fixed fields. *)
Lemma hosts_same_exists l l' (P : Z -> Z -> Prop) : hosts_same l l' ->
  (exists h, h ∈ l /\ P (h_RolloutID h) (h_Wave h)) <-> (exists h, h ∈ l' /\ P (h_RolloutID h) (h_Wave h)).
Proof.
  intros H. induction H as [|a b l1 l2 (Hid & Hr & Hip & Hw) _ IH].
  { split; intros (h & Hh & _); by apply elem_of_nil in Hh. }
  split; intros (h & [->|Hh]%elem_of_cons & HP).
  - exists b. rewrite Hr, Hw. split; [constructor|done].
  - destruct IH as [IH _]. destruct IH as (h' & Hh' & HP'); [eauto|]. exists h'. split; [by constructor|done].
  - exists a. rewrite <- Hr, <- Hw. split; [constructor|done].
  - destruct IH as [_ IH]. destruct IH as (h' & Hh' & HP'); [eauto|]. exists h'. split; [by constructor|done].
Qed.

Lemma contiguous_same id l l' : hosts_same l l' -> wave_contiguous id l -> wave_contiguous id l'.
Proof.
  intros H [H0 Hall]. split.
  - by apply (hosts_same_exists l l' (fun i w => i = id /\ w = 0) H).
  - intros h Hh Hid.
    destruct (proj2 (hosts_same_exists l l' (fun i w => i = id /\ w = h_Wave h) H)) as (h0 & Hh0 & Hid0 & Hw0); [eauto|].
    destruct (Hall h0 Hh0 Hid0) as [Hpos Hlow]. rewrite Hw0 in *. split; [done|]. intros w Hw.
    apply (hosts_same_exists l l' (fun i v => i = id /\ v = w) H). by apply Hlow.
Qed.

Lemma more_same r l l' : hosts_same l l' -> more_waves r l <-> more_waves r l'.
Proof. intros H. apply (hosts_same_exists l l' (fun i w => i = ro_ID r /\ ro_ActiveWave r < w) H). Qed.

Lemma members_same l l' : hosts_same l l' -> member_key <$> l' = member_key <$> l.
Proof. induction 1 as [|a b l1 l2 (?&Hr&Hip&?) _ IH]; [done|]. rewrite !fmap_cons, IH. unfold member_key. congruence. Qed.

(** ** The steps preserve the invariant *)

Lemma inv_hosts s s' :
  ro_inv s -> rollouts s' = rollouts s -> ro_seq s' = ro_seq s -> hosts_same (rhosts s) (rhosts s') -> ro_inv s'.
Proof.
  intros Hi Hr Hq Hh. split; rewrite ?Hr, ?Hq.
  - apply Hi.
  - apply Hi.
  - intros h Hin. destruct (proj2 (hosts_same_exists _ _ (fun i _ => i = h_RolloutID h) Hh)) as (h0 & Hh0 & <-); [eauto|].
    by apply Hi.
  - apply Hi.
  - intros r Hin. by eapply contiguous_same, Hi.
  - intros r Hin. destruct (ri_wave s Hi r Hin) as [Hp Hex]. split; [done|].
    by apply (hosts_same_exists _ _ (fun i w => i = ro_ID r /\ w = ro_ActiveWave r) Hh).
  - rewrite (members_same _ _ Hh). apply Hi.
Qed.

(** Replacing the running rollout of a lane by a later state of itself. *)
Lemma inv_replace s s' lane r f :
  ro_inv s -> running lane (rollouts s) r ->
  (forall x, ro_ID (f x) = ro_ID x) -> (forall x, ro_Lane (f x) = ro_Lane x) ->
  0 <= ro_ActiveWave (f r) ->
  (exists h, h ∈ rhosts s /\ h_RolloutID h = ro_ID r /\ h_Wave h = ro_ActiveWave (f r)) ->
  rollouts s' = replace_rollout (ro_ID r) f (rollouts s) -> ro_seq s' = ro_seq s ->
  hosts_same (rhosts s) (rhosts s') -> ro_inv s'.
Proof.
  intros Hi [Hlat Hact] Hid Hlane Hpos Hex Hr Hq Hh. destruct (latest_in _ _ _ Hlat) as [Hin Hl].
  apply (inv_hosts (set_rollouts (replace_rollout (ro_ID r) f (rollouts s)) (ro_seq s) s)); [|done..].
  assert (Hcase : forall x, x ∈ replace_rollout (ro_ID r) f (rollouts s) ->
            x = f r \/ x ∈ rollouts s /\ ro_ID x <> ro_ID r).
  { intros x (y & Hy & ->)%replace_in. destruct (ro_ID y =? ro_ID r) eqn:E; bool_split; [left|by right].
    f_equal. by eapply rollout_unique. }
  split; cbn [set_rollouts rollouts ro_seq rhosts].
  - rewrite replace_ids by done. apply Hi.
  - intros x [->|[Hx _]]%Hcase; [rewrite Hid|]; by apply Hi.
  - apply Hi.
  - intros x [->|[Hx Hne]]%Hcase Ha; rewrite latest_replace by done.
    + rewrite Hlane, Hl, Hlat. cbn. by rewrite Z.eqb_refl.
    + rewrite (ri_active s Hi x Hx Ha). cbn. by rewrite (proj2 (Z.eqb_neq _ _)).
  - intros x [->|[Hx _]]%Hcase; [rewrite Hid|]; by apply Hi.
  - intros x [->|[Hx _]]%Hcase; [rewrite Hid; by split|]. by apply Hi.
  - apply Hi.
Qed.

Lemma contiguous_app_other id l l' : (forall h, h ∈ l' -> h_RolloutID h <> id) ->
  wave_contiguous id l -> wave_contiguous id (l ++ l').
Proof.
  intros Hl' [(h0 & Hin0 & Hid0 & Hw0) Hall]. split.
  { exists h0. rewrite elem_of_app. auto. }
  intros h [Hh|Hh]%elem_of_app Hid; [|by destruct (Hl' h)]. destruct (Hall h Hh Hid) as [Hp Hlow].
  split; [done|]. intros w Hw. destruct (Hlow w Hw) as (h' & ? & ?). exists h'. rewrite elem_of_app. auto.
Qed.

Lemma contiguous_app_new id l l' : (forall h, h ∈ l -> h_RolloutID h <> id) ->
  wave_contiguous id l' -> wave_contiguous id (l ++ l').
Proof.
  intros Hl [(h0 & Hin0 & Hid0 & Hw0) Hall]. split.
  { exists h0. rewrite elem_of_app. auto. }
  intros h [Hh|Hh]%elem_of_app Hid; [by destruct (Hl h)|]. destruct (Hall h Hh Hid) as [Hp Hlow].
  split; [done|]. intros w Hw. destruct (Hlow w Hw) as (h' & ? & ?). exists h'. rewrite elem_of_app. auto.
Qed.

Lemma members_app l hs id :
  NoDup (member_key <$> l) -> (forall h, h ∈ l -> h_RolloutID h <> id) ->
  (forall h, h ∈ hs -> h_RolloutID h = id) -> NoDup (h_OverlayIP <$> hs) -> NoDup (member_key <$> (l ++ hs)).
Proof.
  intros Hl Hold Hnew Hips. rewrite fmap_app. apply NoDup_app. split_and!; [done| |].
  - intros k (h & -> & Hh)%list_elem_of_fmap (h' & Hk & Hh')%list_elem_of_fmap. injection Hk as Hk _.
    rewrite (Hnew h' Hh') in Hk. by apply (Hold h).
  - apply (NoDup_fmap_1 snd). rewrite <- list_fmap_compose. done.
Qed.

Lemma inv_start s s' r hs :
  ro_inv s -> ro_ID r = ro_seq s -> ro_ActiveWave r = 0 ->
  (forall r', running (ro_Lane r) (rollouts s) r' -> False) ->
  (forall h, h ∈ hs -> h_RolloutID h = ro_ID r) -> wave_contiguous (ro_ID r) hs -> NoDup (h_OverlayIP <$> hs) ->
  rollouts s' = rollouts s ++ [r] -> ro_seq s' = ro_seq s + 1 -> rhosts s' = rhosts s ++ hs -> ro_inv s'.
Proof.
  intros Hi Hid Hw Hno Hhs Hcont Hips Hr Hq Hh.
  assert (Hcase : forall x, x ∈ rollouts s ++ [r] -> x ∈ rollouts s \/ x = r).
  { intros x [?|?%list_elem_of_singleton]%elem_of_app; auto. }
  assert (Hold : forall h, h ∈ rhosts s -> h_RolloutID h <> ro_ID r).
  { intros h Hin. pose proof (ri_hseq s Hi h Hin). lia. }
  assert (Hnew : forall x h, x ∈ rollouts s -> h ∈ hs -> h_RolloutID h <> ro_ID x).
  { intros x h Hx Hin. pose proof (ri_seq s Hi x Hx). rewrite (Hhs h Hin). lia. }
  split; rewrite ?Hr, ?Hq, ?Hh.
  - rewrite fmap_app. apply NoDup_app. split_and!; [apply Hi| |apply NoDup_singleton].
    intros i (y & -> & Hy)%list_elem_of_fmap Hx%list_elem_of_singleton. pose proof (ri_seq s Hi y Hy). lia.
  - intros x [Hx| ->]%Hcase; [pose proof (ri_seq s Hi x Hx)|]; lia.
  - intros h [Hin|Hin]%elem_of_app; [pose proof (ri_hseq s Hi h Hin)|rewrite (Hhs h Hin)]; lia.
  - intros x [Hx| ->]%Hcase Ha; rewrite latest_app; case_decide as Hl; [|by apply Hi|done|done].
    destruct (Hno x). split; [|done]. rewrite Hl. by apply Hi.
  - intros x [Hx| ->]%Hcase; [apply contiguous_app_other; [eauto|by apply Hi]|by apply contiguous_app_new].
  - intros x [Hx| ->]%Hcase.
    + destruct (ri_wave s Hi x Hx) as (Hp & h & Hin & ?). split; [done|]. exists h. rewrite elem_of_app. auto.
    + destruct Hcont as [(h & Hin & ? & Hh0) _]. split; [lia|]. exists h. rewrite elem_of_app, Hw. auto.
  - eapply members_app; [apply Hi|done..].
Qed.

Lemma ro_inv_step s s' : ro_step s s' -> ro_inv s -> ro_inv s'.
Proof.
  intros Hs Hi. destruct Hs as [Hr Hq Hh|r hs ? _ ? Hno Hhs Hc Hn Hr Hq Hh|lane r t Hrun Hmore Hr Hq Hh|lane r st t note Hrun _ Hr Hq Hh].
  - by eapply inv_hosts.
  - by eapply inv_start.
  - destruct Hrun as [Hlat Ha]. destruct (latest_in _ _ _ Hlat) as [Hin _].
    destruct (ri_wave s Hi r Hin) as [Hp _]. destruct Hmore as (h & Hh0 & Hid & Hlt).
    destruct (ri_waves s Hi r Hin) as [_ Hall]. destruct (Hall h Hh0 Hid) as [_ Hlow].
    eapply (inv_replace s s' lane r (with_wave (ro_ActiveWave r + 1) t)); try done; cbn; [lia|].
    apply Hlow. lia.
  - pose proof Hrun as [Hlat Ha]. destruct (latest_in _ _ _ Hlat) as [Hin _].
    destruct (ri_wave s Hi r Hin) as [Hp Hex].
    by eapply (inv_replace s s' lane r (with_state st t note)).
Qed.

Lemma ro_inv_steps s s' : rtc ro_step s s' -> ro_inv s -> ro_inv s'.
Proof. intros H. by apply rtc_invariant with (2 := H), ro_inv_step. Qed.

(** ** Start: the wave assignment *)

(** The rows [Start] inserts for the hosts from position [i] on. *)
Fixpoint wave_rows (id canary waveSize t seq i : Z) (ips : list string) : list Host :=
  match ips with
  | [] => []
  | ip :: ips =>
      mkHost seq id ip (wave_of canary waveSize i) HostWaiting t ::
      wave_rows id canary waveSize t (seq + 1) (i + 1) ips
  end.

Lemma wave_rows_lookup id canary ws t seq i ips k :
  wave_rows id canary ws t seq i ips !! k =
  (fun ip => mkHost (seq + Z.of_nat k) id ip (wave_of canary ws (i + Z.of_nat k)) HostWaiting t) <$> ips !! k.
Proof.
  revert seq i k. induction ips as [|ip ips IH]; intros seq i [|k]; try done.
  - cbn. by rewrite !Z.add_0_r.
  - cbn [wave_rows lookup list_lookup]. rewrite IH. destruct (ips !! k); [|done]. cbn. do 2 f_equal; lia || (f_equal; lia).
Qed.

Lemma wave_rows_ips id canary ws t seq i ips : h_OverlayIP <$> wave_rows id canary ws t seq i ips = ips.
Proof. revert seq i. induction ips as [|ip ips IH]; intros; [done|]. cbn. by rewrite IH. Qed.

Lemma wave_rows_id id canary ws t seq i ips h : h ∈ wave_rows id canary ws t seq i ips -> h_RolloutID h = id.
Proof.
  revert seq i. induction ips as [|ip ips IH]; intros seq i; cbn; [by intros ?%elem_of_nil|].
  intros [->|Hh]%elem_of_cons; [done|eauto].
Qed.

(** Every wave up to the last is inhabited, the canary wave first. *)
Lemma wave_rows_contiguous id canary ws t seq ips :
  1 <= canary -> ips <> [] -> wave_contiguous id (wave_rows id canary ws t seq 0 ips).
Proof.
  intros Hc Hne. set (rows := wave_rows id canary ws t seq 0 ips).
  assert (Hrow : forall k, (k < length ips)%nat -> exists h, h ∈ rows /\ h_RolloutID h = id /\ h_Wave h = wave_of canary ws (Z.of_nat k)).
  { intros k Hk. destruct (lookup_lt_is_Some_2 ips k Hk) as [ip Hip].
    exists (mkHost (seq + Z.of_nat k) id ip (wave_of canary ws (Z.of_nat k)) HostWaiting t). split; [|done].
    apply list_elem_of_lookup. exists k. unfold rows. rewrite wave_rows_lookup, Hip. done. }
  assert (H0 : wave_of canary ws (Z.of_nat 0) = 0) by (unfold wave_of; by rewrite (proj2 (Z.ltb_lt _ _)) by lia).
  assert (Hz : exists h, h ∈ rows /\ h_RolloutID h = id /\ h_Wave h = 0).
  { rewrite <- H0. apply Hrow. destruct ips; [done|cbn; lia]. }
  split; [done|]. intros h [k Hk]%list_elem_of_lookup Hid. unfold rows in Hk. rewrite wave_rows_lookup in Hk.
  destruct (ips !! k) as [ip|] eqn:Hip; [|done]. injection Hk as <-. cbn [h_Wave]. apply lookup_lt_Some in Hip.
  rewrite Z.add_0_l. unfold wave_of at 1 2.
  destruct (Z.of_nat k <? canary) eqn:Ek; bool_split.
  { split; [lia|]. intros w Hw. replace w with 0 by lia. done. }
  destruct (ws <=? 0) eqn:Ews; bool_split.
  { split; [lia|]. intros w Hw. assert (w = 0 \/ w = 1) as [-> | ->] by lia; [done|].
    destruct (Hrow k Hip) as (h & Hh & Hi & Hw'). exists h. split_and!; try done. rewrite Hw'. unfold wave_of.
    rewrite (proj2 (Z.ltb_ge _ _)) by lia. by rewrite (proj2 (Z.leb_le _ _)) by lia. }
  pose proof (Z.div_pos (Z.of_nat k - canary) ws). split; [lia|]. intros w Hw.
  destruct (decide (w = 0)) as [->|Hw0]; [done|].
  pose proof (Z.mul_div_le (Z.of_nat k - canary) ws ltac:(lia)).
  assert (Hle : canary + (w - 1) * ws <= Z.of_nat k) by nia.
  destruct (Hrow (Z.to_nat (canary + (w - 1) * ws))) as (h & Hh & Hi & Hw'); [nia|].
  exists h. split_and!; try done. rewrite Hw', Z2Nat.id by nia. unfold wave_of.
  rewrite (proj2 (Z.ltb_ge _ _)) by nia. rewrite (proj2 (Z.leb_gt _ _)) by lia.
  replace (canary + (w - 1) * ws - canary) with ((w - 1) * ws) by lia. rewrite Z.div_mul by lia. lia.
Qed.

Lemma canary_size_bounds cfg : sc_Hosts cfg <> [] -> 1 <= canary_size cfg <= Z.of_nat (length (sc_Hosts cfg)).
Proof.
  intros Hne. assert (1 <= Z.of_nat (length (sc_Hosts cfg))) by (destruct (sc_Hosts cfg); [done|cbn; lia]).
  unfold canary_size. repeat case_match; bool_split; lia.
Qed.

Lemma wp_create_hosts T id canary ws t i ips s :
  wpt T eq (fun _ _ => True) (create_hosts id canary ws t i ips) (fun r s2 => match r with
    | Ok _ => s2 = set_rhosts (rhosts s ++ wave_rows id canary ws t (rh_seq s) i ips)
                              (rh_seq s + Z.of_nat (length ips)) s /\
              NoDup ips /\ forall h, h ∈ rhosts s -> h_RolloutID h = id -> h_OverlayIP h ∉ ips
    | Err e => e = RO_Duplicated /\
               (~ NoDup ips \/ exists h, h ∈ rhosts s /\ h_RolloutID h = id /\ h_OverlayIP h ∈ ips) \/ e = RO_Fault
    end) s.
Proof.
  revert i s. induction ips as [|ip ips IH]; intros i s; cbn [create_hosts].
  { wp_step. rewrite app_nil_r, Z.add_0_r. split_and!; [by destruct s|constructor|intros; apply not_elem_of_nil]. }
  wp_step. unfold create_host. wp_step; [by right|]. destruct (existsb _ _) eqn:Ex.
  - left. split; [done|]. right. apply existsb_elem in Ex as (h & Hh & He). bool_split. exists h. subst ip.
    split_and!; [done|done|constructor].
  - split; [done|]. rewrite existsb_elem_false in Ex.
    eapply wp_mono; [apply IH|]. intros [[]|e] s2 _ Hp; cbn [rhosts set_rhosts rh_seq] in Hp.
    + destruct Hp as (-> & Hnd & Hout). split_and!.
      * cbn [length wave_rows]. rewrite <- app_assoc. unfold set_rhosts. cbn. f_equal. lia.
      * apply NoDup_cons. split; [|done].
        apply (Hout (mkHost (rh_seq s) id ip (wave_of canary ws i) HostWaiting t)); [|done].
        apply elem_of_app. right. by apply list_elem_of_singleton.
      * intros h Hh Hid [Heq|Hin]%elem_of_cons; [|apply (Hout h); [apply elem_of_app; by left|done..]].
        specialize (Ex h Hh). rewrite Hid, Z.eqb_refl, bool_decide_true in Ex; done.
    + destruct Hp as [[-> Hd]|Hp]; [left|by right]. split; [done|].
      destruct Hd as [Hd|(h & Hh & Hid & Hin)]; [left; by intros [_ ?]%NoDup_cons|].
      apply elem_of_app in Hh as [Hh| ->%list_elem_of_singleton].
      * right. exists h. split_and!; [done|done|by constructor].
      * left. by intros [? _]%NoDup_cons.
Qed.

(** ** The handlers' transactions *)

Section transactions.
Context (T : Z -> Prop).
Abbreviation alone := (wpt T eq (fun _ _ => True)).

Lemma wp_locked lane (Q : result rerr (option Rollout) -> RStore -> Prop) s :
  Q (Err RO_Fault) s -> (forall r, running lane (rollouts s) r -> Q (Ok (Some r)) s) ->
  ((forall r, running lane (rollouts s) r -> False) -> Q (Ok None) s) ->
  alone (lockedActiveCurrent lane) Q s.
Proof.
  intros He Hs Hn. unfold lockedActiveCurrent. wp_step. wp_step; [done|].
  wp_step. destruct (latest lane (rollouts s)) as [r|] eqn:El.
  - destruct (active_state (ro_State r)) eqn:Ea; [by apply Hs|]. apply Hn. intros r' [Hr' Ha']. congruence.
  - apply Hn. intros r' [Hr' _]. congruence.
Qed.

(** What [Start]'s transaction leaves. *)
Definition started (cfg : StartConfig) (t : Z) (s s2 : RStore) (r : Rollout) : Prop :=
  r = start_row cfg t (ro_seq s) /\ (forall r', running (start_lane cfg) (rollouts s) r' -> False) /\
  NoDup (sc_Hosts cfg) /\ rollouts s2 = rollouts s ++ [r] /\ ro_seq s2 = ro_seq s + 1 /\
  rhosts s2 = rhosts s ++ wave_rows (ro_ID r) (canary_size cfg) (sc_WaveSize cfg) t (rh_seq s) 0 (sc_Hosts cfg).

Definition start_error (cfg : StartConfig) (s : RStore) (e : rerr) : Prop :=
  e = RO_Fault \/ (e = RO_ActiveExists /\ exists r, running (start_lane cfg) (rollouts s) r) \/
  (e = RO_Duplicated /\ ~ NoDup (sc_Hosts cfg)).

Lemma wp_start_tx e cfg t s : ro_inv s ->
  alone (start_tx e cfg t) (fun r s2 => match r with
    | Ok r => started cfg t s s2 r
    | Err err => start_error cfg s err
    end) s.
Proof.
  intros Hi. unfold start_tx.
  assert (Hrest : alone (cur ← lockedActiveCurrent (start_lane cfg);
    match cur with
    | Some _ => throw RO_ActiveExists
    | None =>
        r ← exec (fun s => let r := start_row cfg t (ro_seq s) in
                           (r, set_rollouts (rollouts s ++ [r]) (ro_seq s + 1) s));
        _ ← create_hosts (ro_ID r) (canary_size cfg) (sc_WaveSize cfg) t 0 (sc_Hosts cfg);
        mret r
    end) (fun r s2 => match r with
    | Ok r => started cfg t s s2 r
    | Err err => start_error cfg s err
    end) s).
  { wp_step. apply wp_locked; [by left|intros r Hr; wp_step; right; left; eauto|]. intros Hno.
    wp_step. wp_step; [by left|]. split; [done|].
    wp_step. eapply wp_mono; [apply wp_create_hosts|]. intros [[]|err] s2 _ Hp; cbn in Hp.
    - destruct Hp as (-> & Hnd & _). wp_step. done.
    - destruct Hp as [[-> [Hd|(h & Hh & Hid & _)]]| ->]; [by right; right| |by left].
      pose proof (ri_hseq s Hi h Hh). lia. }
  wp_step. destruct (e_postgres e); [|by wp_step]. wp_step; [by left|]. by split.
Qed.

Lemma started_step cfg t s s2 r : sc_Hosts cfg <> [] -> started cfg t s s2 r -> ro_step s s2.
Proof.
  intros Hne (-> & Hno & Hnd & Hr & Hq & Hh).
  eapply (rs_start s s2 (start_row cfg t (ro_seq s))); [done|done|done|done| | | |done|done|exact Hh].
  - intros h. apply wave_rows_id.
  - apply wave_rows_contiguous; [|done]. by apply canary_size_bounds.
  - by rewrite wave_rows_ips.
Qed.

(** Whether a later wave has hosts, as the count decides it. *)
Lemma remaining_more r hs :
  if Z.of_nat (length (List.filter (fun h => (h_RolloutID h =? ro_ID r) && (ro_ActiveWave r <? h_Wave h)) hs)) =? 0
  then ~ more_waves r hs else more_waves r hs.
Proof.
  set (f := fun h => _). destruct (List.filter f hs) as [|h l] eqn:E; cbn [length].
  - intros (h & Hh & Hid & Hw). assert (In h (List.filter f hs)) as Hin; [|by rewrite E in Hin].
    apply filter_In. split; [by apply list_elem_of_In|]. unfold f. rewrite Hid, Z.eqb_refl. by apply Z.ltb_lt.
  - rewrite (proj2 (Z.eqb_neq _ _)) by lia. assert (In h (List.filter f hs)) as [Hin Hf]%filter_In by (rewrite E; by left).
    unfold f in Hf. bool_split. exists h. by split; [apply list_elem_of_In|].
Qed.

(** The ways a rollout moves on. *)
Definition moved_on (r : Rollout) (t : Z) (s s2 : RStore) : Prop :=
  ro_seq s2 = ro_seq s /\ hosts_same (rhosts s) (rhosts s2) /\ beats s2 = beats s /\
  ((more_waves r (rhosts s) /\ rollouts s2 = replace_rollout (ro_ID r) (with_wave (ro_ActiveWave r + 1) t) (rollouts s)) \/
   (~ more_waves r (rhosts s) /\
    rollouts s2 = replace_rollout (ro_ID r) (with_state StateCompleted t (Some "all waves converged")) (rollouts s))).

Definition rolled_back (r : Rollout) (t : Z) (why : string) (s s2 : RStore) : Prop :=
  ro_seq s2 = ro_seq s /\ hosts_same (rhosts s) (rhosts s2) /\ beats s2 = beats s /\
  rollouts s2 = replace_rollout (ro_ID r) (with_state StateRolledBack t (Some why)) (rollouts s).

Lemma wp_advance r t s :
  alone (advanceTx r t) (fun res s2 => match res with Ok _ => moved_on r t s s2 | Err e => e = RO_Fault end) s.
Proof.
  unfold advanceTx. wp_step. wp_step; [done|]. split; [done|].
  set (s1 := set_status _ _ _ s). assert (Hh : hosts_same (rhosts s) (rhosts s1)) by apply hosts_same_status.
  wp_step. wp_step; [done|]. pose proof (remaining_more r (rhosts s1)) as Hm.
  wp_step; wp_step; (wp_step; [done|]); (split; [done|]); wp_step; (split_and!; [done|exact Hh|done|]).
  - right. split; [|done]. by rewrite (more_same r _ _ Hh).
  - left. split; [|done]. by rewrite (more_same r _ _ Hh).
Qed.

Lemma wp_rollback r t why s :
  alone (rollbackTx r t why)
    (fun res s2 => match res with Ok _ => rolled_back r t ("auto-rollback: " +:+ why) s s2 | Err e => e = RO_Fault end) s.
Proof.
  unfold rollbackTx. wp_step. wp_step; [done|]. split; [done|]. wp_step. wp_step; [done|]. split; [done|].
  wp_step. split_and!; [done|apply hosts_same_status|done|done].
Qed.

Lemma moved_on_step lane r t s s2 : running lane (rollouts s) r -> moved_on r t s s2 -> ro_step s s2.
Proof.
  intros Hr (Hq & Hh & _ & [[Hm He]|[Hm He]]); [by eapply rs_advance|]. eapply rs_finish; try done. by left.
Qed.

Lemma rolled_back_step lane r t why s s2 : running lane (rollouts s) r -> rolled_back r t why s s2 -> ro_step s s2.
Proof. intros Hr (Hq & Hh & _ & He). eapply rs_finish; try done. by right. Qed.

(** The loop over the wave's hosts reads; a count of converged hosts comes from
    heartbeats that converged. *)
Definition converged_beat (r : Rollout) (t : Z) (b : hb) : Prop :=
  healthBad (hb_Health b) = false /\ appliedFor b (ro_Lane r) = ro_TargetVersion r /\
  t - ro_MissingAfter r <= hb_LastSeen b.

Lemma judge_converged r t ip beat : judge r t ip beat = VConverged ->
  exists b, beat = Ok (Some b) /\ converged_beat r t b.
Proof.
  unfold judge. intros H. destruct beat as [[b|]|e].
  2-3: by repeat case_match.
  exists b. split; [done|]. destruct (healthBad _) eqn:Eh; [done|].
  destruct (_ && _) eqn:E in H; [|by repeat case_match]. bool_split. by split_and!.
Qed.

Lemma wp_tally r t hosts c s : 0 <= n_fail c -> 0 <= n_miss c -> 0 <= n_conv c ->
  alone (tally_hosts r t hosts c) (fun res s2 => s2 = s /\ match res with
    | Ok c' => 0 <= n_fail c' /\ 0 <= n_miss c' /\ n_conv c <= n_conv c' /\
        n_conv c' + n_fail c' + n_miss c' <= n_conv c + n_fail c + n_miss c + Z.of_nat (length hosts) /\
        (n_conv c < n_conv c' -> exists h b, h ∈ hosts /\ find_beat (h_OverlayIP h) s = Some b /\ converged_beat r t b)
    | Err _ => False
    end) s.
Proof.
  revert c. induction hosts as [|h hosts IH]; intros c Hf Hm Hc; cbn [tally_hosts].
  { wp_step. split_and!; [done|done|done|done|cbn; lia|lia]. }
  assert (Hone : forall beat, (beat = Err RO_Fault \/ beat = Ok (find_beat (h_OverlayIP h) s)) ->
    alone (tally_hosts r t hosts (count (judge r t (h_OverlayIP h) beat) c)) (fun res s2 => s2 = s /\ match res with
    | Ok c' => 0 <= n_fail c' /\ 0 <= n_miss c' /\ n_conv c <= n_conv c' /\
        n_conv c' + n_fail c' + n_miss c' <= n_conv c + n_fail c + n_miss c + Z.of_nat (length (h :: hosts)) /\
        (n_conv c < n_conv c' -> exists h' b, h' ∈ h :: hosts /\ find_beat (h_OverlayIP h') s = Some b /\ converged_beat r t b)
    | Err _ => False
    end) s).
  { intros beat Hbeat. set (c1 := count _ c).
    assert (Hc1 : 0 <= n_fail c1 /\ 0 <= n_miss c1 /\ n_conv c <= n_conv c1 <= n_conv c + 1 /\
      n_conv c1 + n_fail c1 + n_miss c1 <= n_conv c + n_fail c + n_miss c + 1 /\
      (n_conv c < n_conv c1 -> judge r t (h_OverlayIP h) beat = VConverged)).
    { unfold c1, count. destruct (judge _ _ _ _); cbn; split_and!; done || lia. }
    destruct Hc1 as (Hf1 & Hm1 & Hcc & Hsum & Hj).
    eapply wp_mono; [apply IH; [done|done|lia]|]. intros [c'|e] s2 _ [-> Hp]; [|done]. split; [done|].
    destruct Hp as (? & ? & ? & ? & Hex). cbn [length]. split_and!; [lia|lia|lia|lia|]. intros Hlt.
    destruct (decide (n_conv c1 < n_conv c')) as [Hl|Hl].
    - destruct (Hex Hl) as (h' & b & Hin & ?). exists h', b. split; [by constructor|done].
    - destruct (judge_converged r t _ _ (Hj ltac:(lia))) as (b & -> & Hb). exists h, b.
      split; [constructor|]. destruct Hbeat as [?|[= ->]]; done. }
  wp_step. wp_step. wp_step; apply Hone; auto.
Qed.

(** The canary wave moves on only after one of its hosts reported a fresh,
    healthy heartbeat on the target. *)
Definition validated (r : Rollout) (t : Z) (s : RStore) : Prop :=
  ro_ActiveWave r = 0 ->
  exists h b, h ∈ rhosts s /\ h_RolloutID h = ro_ID r /\ h_Wave h = 0 /\
              find_beat (h_OverlayIP h) s = Some b /\ converged_beat r t b.

(** What an evaluation does to the tables. *)
Definition eval_outcome (lane : string) (s s2 : RStore) (changed : bool) : Prop :=
  (changed = false /\ s2 = s) \/
  (changed = true /\ exists r t, T t /\ running lane (rollouts s) r /\
     ((moved_on r t s s2 /\ validated r t s) \/ exists why, rolled_back r t why s s2)).

Lemma wave_hosts r s h :
  h ∈ List.filter (in_wave (ro_ID r) (ro_ActiveWave r)) (rhosts s) <->
  h ∈ rhosts s /\ h_RolloutID h = ro_ID r /\ h_Wave h = ro_ActiveWave r.
Proof.
  rewrite list_elem_of_In, filter_In, <- list_elem_of_In. unfold in_wave.
  rewrite andb_true_iff, !Z.eqb_eq. done.
Qed.

(** In an inhabited wave, advancing without a converged host is only possible
    after the canary. *)
Lemma advance_needs r t total c :
  0 < total -> 0 <= n_fail c -> 0 <= n_miss c -> 0 <= n_conv c ->
  decide_wave r t total c = DAdvance -> ro_ActiveWave r = 0 -> 0 < n_conv c.
Proof.
  intros Ht Hf Hm Hc Hd Hw. unfold decide_wave, need_of in Hd. rewrite Hw, Z.eqb_refl in Hd. cbn in Hd.
  destruct (decide (n_conv c = 0)) as [E|]; [|lia]. rewrite E in Hd. cbn in Hd.
  repeat case_match; bool_split; try done; try lia.
  all: repeat match goal with H : _ || _ = true |- _ => apply orb_true_iff in H as [?|?]; bool_split end; lia.
Qed.

Lemma wp_evaluate_tx lane s : ro_inv s ->
  alone (evaluate_tx lane) (fun res s2 => match res with
    | Ok (changed, _) => eval_outcome lane s s2 changed | Err e => e = RO_Fault end) s.
Proof.
  intros Hi. unfold evaluate_tx. wp_step. apply wp_locked; [done| |intros _; wp_step; by left].
  intros r Hr. wp_step. wp_step; [done|]. set (hosts := List.filter _ _).
  destruct (latest_in _ _ _ (proj1 Hr)) as [Hin _].
  assert (Hlen : 0 < Z.of_nat (length hosts)).
  { destruct (ri_wave s Hi r Hin) as (_ & h & Hh). apply (wave_hosts r s h) in Hh. fold hosts in Hh.
    destruct hosts; [by apply elem_of_nil in Hh|cbn; lia]. }
  wp_step. wp_step. wp_step. eapply wp_mono; [apply (wp_tally r t hosts (mkTally 0 0 0 "")); done|].
  intros [c|e] s2 _ [-> Hc]; [|done]. cbn in Hc. destruct Hc as (Hf & Hm & Hcv & _ & Hex).
  destruct (decide_wave r t _ c) as [why| |] eqn:Ed.
  - wp_step. eapply wp_mono; [apply wp_rollback|]. intros [a|e] s2 _ Hp; [|done]. wp_step.
    right. split; [done|]. exists r, t. eauto.
  - wp_step. eapply wp_mono; [apply wp_advance|]. intros [a|e] s2 _ Hp; [|done]. wp_step.
    right. split; [done|]. exists r, t. split_and!; [done|done|]. left. split; [done|]. intros Hw.
    destruct Hex as (h & b & Hh & Hb & Hcb); [by eapply advance_needs|].
    apply wave_hosts in Hh as (? & ? & ?). exists h, b. split_and!; congruence || done.
  - wp_step. by left.
Qed.
End transactions.

Lemma eval_outcome_step T lane s s2 b : eval_outcome T lane s s2 b -> ro_step s s2.
Proof.
  intros [[_ ->]|(_ & r & t & _ & Hr & [[Hm _]|[why Hb]])].
  - apply rs_hosts; [done|done|apply hosts_same_refl].
  - by eapply moved_on_step.
  - by eapply rolled_back_step.
Qed.

(** ** The handlers under interference *)

Section interference.
Context (T : Z -> Prop) (e : Engine).
Abbreviation R := (rtc ro_step).

Lemma ro_inv_stable : stable R ro_inv.
Proof. intros s s'. apply ro_inv_steps. Qed.

Lemma wp_recordAudit a b c d (Q : result rerr unit -> RStore -> Prop) s :
  ro_inv s -> (forall s', ro_inv s' -> Q (Ok ()) s') -> wpt T R ro_step (recordAudit e a b c d) Q s.
Proof.
  intros Hi HQ. unfold recordAudit. destruct (e_audit e); [|wp_step; auto].
  wp_step. wp_step; pose proof (ro_inv_stable _ _ HR Hi) as Hi0; [by apply HQ|].
  assert (Hs : ro_step s0 (add_raudit (a, b, c, d) s0)) by (apply rs_hosts; [done|done|apply hosts_same_refl]).
  split; [done|]. apply HQ. by eapply ro_inv_step.
Qed.

Lemma wp_audits l (Q : result rerr unit -> RStore -> Prop) s :
  ro_inv s -> (forall s', ro_inv s' -> Q (Ok ()) s') ->
  wpt T R ro_step (for_each l (fun a : auditEvt =>
        match a with (actor, action, target, details) => recordAudit e actor action target details end)) Q s.
Proof.
  revert s. induction l as [|[[[a b] c] d] l IH]; intros s Hi HQ; cbn [for_each]; wp_step; [auto|].
  apply wp_recordAudit; [done|]. intros s' Hi'. by apply IH.
Qed.

Lemma Start_wp cfg s : ro_inv s ->
  wpt T R ro_step (Start e cfg) (fun _ s' => ro_inv s') s.
Proof.
  intros Hi. unfold Start. destruct (decide _) as [|Hne]; [by wp_step|]. wp_step. wp_step. wp_step.
  wp_step; pose proof (ro_inv_stable _ _ HR Hi) as Hi0; [done|].
  eapply wp_mono; [by apply wp_start_tx|]. intros [r|err] s2 _ Hp; [|done].
  apply started_step in Hp; [|done]. split; [done|]. wp_step.
  apply wp_recordAudit; [by eapply ro_inv_step|]. intros s' Hi'. by wp_step.
Qed.

Lemma evaluateLane_wp lane s (Q : result rerr bool -> RStore -> Prop) : ro_inv s ->
  (forall r s', ro_inv s' -> Q r s') -> wpt T R ro_step (evaluateLane e lane) Q s.
Proof.
  intros Hi HQ. unfold evaluateLane. wp_step. wp_step; pose proof (ro_inv_stable _ _ HR Hi) as Hi0; [auto|].
  eapply wp_mono; [by apply wp_evaluate_tx|]. intros [[b l]|err] s2 _ Hp; [|auto].
  apply eval_outcome_step in Hp. split; [done|]. wp_step. apply wp_audits; [by eapply ro_inv_step|].
  intros s' Hi'. wp_step. auto.
Qed.

Lemma evaluate_lanes_wp ls b s : ro_inv s -> wpt T R ro_step (evaluate_lanes e ls b) (fun _ s' => ro_inv s') s.
Proof.
  revert b s. induction ls as [|lane ls IH]; intros b s Hi; cbn [evaluate_lanes]; wp_step; [done|].
  apply evaluateLane_wp; [done|]. intros [c|err] s' Hi'; [by apply IH|done].
Qed.

Lemma AbortLane_wp lane actor s : ro_inv s ->
  wpt T R ro_step (AbortLane e lane actor) (fun _ s' => ro_inv s') s.
Proof.
  intros Hi. unfold AbortLane. wp_step. wp_step. wp_step.
  wp_step; pose proof (ro_inv_stable _ _ HR Hi) as Hi0; [done|].
  wp_step. apply wp_locked; [done| |intros _; by wp_step]. intros r Hr. wp_step. wp_step; [done|]. split; [done|].
  wp_step. assert (Hs : ro_step s0 (update_rollout (ro_ID r) (with_state StateRolledBack t (Some "operator-aborted")) s0)).
  { eapply rs_finish; [done|by right|done|done|apply hosts_same_refl]. }
  split; [done|]. apply wp_recordAudit; [by eapply ro_inv_step|done].
Qed.

Lemma commandForLane_wp lane ip reported s : ro_inv s ->
  wpt T R ro_step (commandForLane lane ip reported) (fun _ s' => ro_inv s') s.
Proof.
  intros Hi. unfold commandForLane, current. wp_step. wp_step.
  wp_step; pose proof (ro_inv_stable _ _ HR Hi) as Hi0; [by wp_step|].
  destruct (latest lane (rollouts s0)) as [r|]; [|by wp_step].
  wp_step. wp_step. wp_step; pose proof (ro_inv_stable _ _ HR0 Hi0) as Hi1; [by wp_step|].
  destruct (member_host _ _ s1) as [h|]; [|by wp_step].
  repeat (match goal with |- wpt _ _ _ (if ?b then _ else _) _ _ => destruct b end); try by wp_step.
  wp_step. unfold markReverted. wp_step. wp_step. wp_step.
  wp_step; pose proof (ro_inv_stable _ _ HR1 Hi1) as Hi2; [by wp_step|].
  assert (Hs : ro_step s2 (set_status (fun h0 => h_ID h0 =? h_ID h) HostReverted t s2))
    by (apply rs_hosts; [done|done|apply hosts_same_status]).
  split; [done|]. wp_step. by eapply ro_inv_step.
Qed.
End interference.

(** ** Evaluation without faults *)

Definition verdict_of (r : Rollout) (t : Z) (s : RStore) (h : Host) : verdict :=
  judge r t (h_OverlayIP h) (Ok (find_beat (h_OverlayIP h) s)).

Definition wave_tally (r : Rollout) (t : Z) (s : RStore) (hosts : list Host) (c : tally) : tally :=
  fold_left (fun c h => count (verdict_of r t s h) c) hosts c.

(** The hosts of the active wave. *)
Definition wave_now (r : Rollout) (s : RStore) : list Host :=
  List.filter (in_wave (ro_ID r) (ro_ActiveWave r)) (rhosts s).

Lemma tally_quiet r t hosts c t0 n s :
  exists n', tally_hosts r t hosts c (quiet t0) n s = (Ok (wave_tally r t s hosts c), n', s).
Proof.
  revert c n. induction hosts as [|h hosts IH]; intros c n; [by exists n|].
  cbn. unfold mbind, M_bind, attempt, query. cbn. apply IH.
Qed.

Definition is_conv (v : verdict) : bool := match v with VConverged => true | _ => false end.
Definition is_fail (v : verdict) : bool := match v with VFailed _ => true | _ => false end.
Definition is_miss (v : verdict) : bool := match v with VMissing _ => true | _ => false end.

Definition how_many (p : verdict -> bool) (r : Rollout) (t : Z) (s : RStore) (hosts : list Host) : Z :=
  Z.of_nat (length (List.filter (fun h => p (verdict_of r t s h)) hosts)).

Lemma how_many_cons p r t s h hosts :
  how_many p r t s (h :: hosts) = (if p (verdict_of r t s h) then 1 else 0) + how_many p r t s hosts.
Proof. unfold how_many. cbn [List.filter]. destruct (p _); cbn [length]; lia. Qed.

Lemma tally_counts r t s hosts c :
  let c' := wave_tally r t s hosts c in
  n_conv c' = n_conv c + how_many is_conv r t s hosts /\
  n_fail c' = n_fail c + how_many is_fail r t s hosts /\
  n_miss c' = n_miss c + how_many is_miss r t s hosts.
Proof.
  revert c. induction hosts as [|h hosts IH]; intros c; [unfold how_many; cbn; rewrite !Z.add_0_r; done|].
  change (wave_tally r t s (h :: hosts) c) with (wave_tally r t s hosts (count (verdict_of r t s h) c)).
  cbv zeta. destruct (IH (count (verdict_of r t s h) c)) as (-> & -> & ->). rewrite !how_many_cons.
  destruct (verdict_of r t s h); cbn; lia.
Qed.

Lemma how_many_pos p r t s hosts : 0 <= how_many p r t s hosts.
Proof. unfold how_many. lia. Qed.

Lemma how_many_ex p r t s hosts : 0 < how_many p r t s hosts <-> exists h, h ∈ hosts /\ p (verdict_of r t s h) = true.
Proof.
  induction hosts as [|h hosts IH].
  { split; [done|]. intros (h & Hh & _). by apply elem_of_nil in Hh. }
  rewrite how_many_cons. pose proof (how_many_pos p r t s hosts). destruct (p (verdict_of r t s h)) eqn:E.
  - split; [|lia]. intros _. exists h. split; [constructor|done].
  - rewrite Z.add_0_l, IH. split; intros (h' & Hh & Hp); exists h'.
    + split; [by constructor|done].
    + apply elem_of_cons in Hh as [->|?]; [congruence|done].
Qed.

(** The first two groups make up the wave when nobody else is in it. *)
Lemma how_many_split r t s hosts :
  (forall h, h ∈ hosts -> is_conv (verdict_of r t s h) || is_miss (verdict_of r t s h) = true) ->
  how_many is_conv r t s hosts + how_many is_miss r t s hosts = Z.of_nat (length hosts) /\ how_many is_fail r t s hosts = 0.
Proof.
  induction hosts as [|h hosts IH]; intros H; [done|]. rewrite !how_many_cons.
  destruct IH as [IH1 IH2]; [intros; apply H; by constructor|]. specialize (H h ltac:(constructor)).
  destruct (verdict_of r t s h); cbn in *; try done; lia.
Qed.

(** The tables an evaluation works on; the audit log is the rest. *)
Definition same_ro (s s' : RStore) : Prop :=
  rollouts s' = rollouts s /\ ro_seq s' = ro_seq s /\ rhosts s' = rhosts s /\ beats s' = beats s.

Lemma recordAudit_quiet e a b c d t n s :
  exists n' s', recordAudit e a b c d (quiet t) n s = (Ok (), n', s') /\ same_ro s s'.
Proof. unfold recordAudit. destruct (e_audit e); do 2 eexists; (split; [reflexivity|done]). Qed.

Lemma audits_quiet e l t n s :
  exists n' s', for_each l (fun a : auditEvt =>
        match a with (actor, action, target, details) => recordAudit e actor action target details end) (quiet t) n s
    = (Ok (), n', s') /\ same_ro s s'.
Proof.
  revert n s. induction l as [|[[[a b] c] d] l IH]; intros n s; [by exists n, s|].
  cbn [for_each]. unfold mbind, M_bind. destruct (recordAudit_quiet e a b c d t n s) as (n1 & s1 & -> & Hs1).
  destruct (IH n1 s1) as (n' & s' & -> & Hs). exists n', s'. split; [done|].
  destruct Hs as (?&?&?&?), Hs1 as (?&?&?&?). split_and!; congruence.
Qed.

Lemma advance_quiet r t t0 n s : exists l n' s2, advanceTx r t (quiet t0) n s = (Ok l, n', s2) /\ moved_on r t s s2.
Proof.
  pose proof (wp_advance (fun _ => True) r t s (quiet t0) n (fun _ _ => eq_refl) (fun _ => I)) as H.
  destruct (advanceTx r t (quiet t0) n s) as [[[l|err] n'] s2] eqn:E; destruct H as [_ H]; [eauto 6|]. exfalso.
  revert E. unfold advanceTx, mbind, M_bind, exec, query. cbn. destruct (_ =? 0); cbn; done.
Qed.

Lemma rollback_quiet r t why t0 n s : exists l n' s2, rollbackTx r t why (quiet t0) n s = (Ok l, n', s2) /\
  rolled_back r t ("auto-rollback: " +:+ why) s s2.
Proof.
  pose proof (wp_rollback (fun _ => True) r t why s (quiet t0) n (fun _ _ => eq_refl) (fun _ => I)) as H.
  destruct (rollbackTx r t why (quiet t0) n s) as [[[l|err] n'] s2] eqn:E; destruct H as [_ H]; [eauto 6|]. done.
Qed.

(** One evaluation, as the decision on the tally says. *)
Lemma evaluate_quiet e lane r t s : running lane (rollouts s) r ->
  let (res, s') := run t (evaluateLane e lane) s in
  exists s2, same_ro s2 s' /\
  match decide_wave r t (Z.of_nat (length (wave_now r s))) (wave_tally r t s (wave_now r s) (mkTally 0 0 0 "")) with
  | DRollback why => res = Ok true /\ rolled_back r t ("auto-rollback: " +:+ why) s s2
  | DAdvance => res = Ok true /\ moved_on r t s s2
  | DNone => res = Ok false /\ s2 = s
  end.
Proof.
  intros [Hlat Hact]. unfold run, evaluateLane. unfold mbind at 1, M_bind at 1. unfold tx. cbn [fault quiet interfere].
  change (isolate (quiet t)) with (quiet (St:=RStore) t).
  unfold evaluate_tx, lockedActiveCurrent. unfold mbind, M_bind, query, now. cbn [fault quiet interfere clk mret M_ret].
  rewrite Hlat, Hact. cbn. fold (wave_now r s).
  destruct (tally_quiet r t (wave_now r s) (mkTally 0 0 0 "") t 4 s) as (n' & ->).
  destruct (decide_wave _ _ _ _) as [why| |].
  - destruct (rollback_quiet r t why t n' s) as (l & n2 & s2 & -> & Hb). cbn.
    destruct (audits_quiet e l t (S n2) s2) as (n3 & s3 & -> & Hs). exists s2. done.
  - destruct (advance_quiet r t t n' s) as (l & n2 & s2 & -> & Hb). cbn.
    destruct (audits_quiet e l t (S n2) s2) as (n3 & s3 & -> & Hs). exists s2. done.
  - cbn. exists s. done.
Qed.

(** ** Progress of one rollout *)

(** Hosts still to come, plus one while the rollout runs. *)
Definition later (r : Rollout) (hs : list Host) : list Host :=
  List.filter (fun h => (h_RolloutID h =? ro_ID r) && (ro_ActiveWave r <? h_Wave h)) hs.

Definition rank (r : Rollout) (hs : list Host) : nat :=
  if active_state (ro_State r) then S (length (later r hs)) else 0.

Lemma later_same r l l' : hosts_same l l' -> length (later r l') = length (later r l).
Proof.
  unfold later. induction 1 as [|a b l1 l2 (?&Hr&?&Hw) _ IH]; [done|]. cbn. rewrite Hr, Hw.
  destruct (_ && _); cbn; lia.
Qed.

Lemma rank_same r l l' : hosts_same l l' -> rank r l' = rank r l.
Proof. intros H. unfold rank. by rewrite (later_same r l l' H). Qed.

Lemma later_app r l l' : (forall h, h ∈ l' -> h_RolloutID h <> ro_ID r) -> later r (l ++ l') = later r l.
Proof.
  intros H. unfold later. rewrite List.filter_app. set (f := fun h => _).
  assert (List.filter f l' = []) as ->; [|by rewrite app_nil_r].
  induction l' as [|h l' IH]; [done|]. cbn. unfold f at 1. rewrite (proj2 (Z.eqb_neq _ _)); [|apply H; constructor].
  apply IH. intros; apply H; by constructor.
Qed.

(** Activating an inhabited wave leaves fewer hosts to come. *)
Lemma later_next r t hs h : h ∈ hs -> h_RolloutID h = ro_ID r -> h_Wave h = ro_ActiveWave r + 1 ->
  (length (later (with_wave (ro_ActiveWave r + 1) t r) hs) < length (later r hs))%nat.
Proof.
  intros Hin Hid Hw. unfold later. cbn.
  assert (Hle : forall l, Nat.le
    (length (List.filter (fun h => (h_RolloutID h =? ro_ID r) && (ro_ActiveWave r + 1 <? h_Wave h)) l))
    (length (List.filter (fun h => (h_RolloutID h =? ro_ID r) && (ro_ActiveWave r <? h_Wave h)) l))).
  { induction l as [|x l IH]; [done|]. cbn. destruct (h_RolloutID x =? ro_ID r); cbn; [|done].
    destruct (ro_ActiveWave r + 1 <? h_Wave x) eqn:E1, (ro_ActiveWave r <? h_Wave x) eqn:E2; bool_split; cbn; lia. }
  induction hs as [|x l IH]; [by apply elem_of_nil in Hin|]. specialize (Hle l).
  apply elem_of_cons in Hin as [<-|Hin]; cbn.
  - rewrite Hid, Hw, Z.eqb_refl. cbn. rewrite (proj2 (Z.ltb_ge _ _)) by lia. rewrite (proj2 (Z.ltb_lt _ _)) by lia. cbn. lia.
  - specialize (IH Hin). destruct (h_RolloutID x =? ro_ID r); cbn; [|done].
    destruct (ro_ActiveWave r + 1 <? h_Wave x) eqn:E1, (ro_ActiveWave r <? h_Wave x) eqn:E2; bool_split; cbn; lia.
Qed.

(** The same rollout, later. *)
Definition same_rollout (a b : Rollout) : Prop :=
  ro_ID b = ro_ID a /\ ro_Lane b = ro_Lane a /\ ro_TargetVersion b = ro_TargetVersion a /\
  ro_PrevVersion b = ro_PrevVersion a.

Definition next_wave (a b : Rollout) : Prop :=
  ro_State b = StateWidening /\ ro_ActiveWave b = ro_ActiveWave a + 1.

Definition ended (a b : Rollout) : Prop :=
  (ro_State b = StateCompleted \/ ro_State b = StateRolledBack) /\ ro_ActiveWave b = ro_ActiveWave a.

Lemma replaced r f x s : ro_inv s -> x ∈ rollouts s -> r ∈ rollouts s ->
  (x = r /\ f r ∈ replace_rollout (ro_ID r) f (rollouts s)) \/
  (x <> r /\ x ∈ replace_rollout (ro_ID r) f (rollouts s)).
Proof.
  intros Hi Hx Hr. destruct (decide (ro_ID x = ro_ID r)) as [He|He].
  - left. assert (x = r) as -> by (by eapply rollout_unique). split; [done|]. apply replace_in. exists r. by rewrite Z.eqb_refl.
  - right. split; [congruence|]. apply replace_in. exists x. by rewrite (proj2 (Z.eqb_neq _ _)).
Qed.

Lemma step_rollout s s' r : ro_inv s -> ro_step s s' -> r ∈ rollouts s ->
  exists r', r' ∈ rollouts s' /\ same_rollout r r' /\
    ((r' = r /\ rank r' (rhosts s') = rank r (rhosts s)) \/
     (active_state (ro_State r) = true /\ (next_wave r r' \/ ended r r') /\
      (rank r' (rhosts s') < rank r (rhosts s))%nat)).
Proof.
  intros Hi Hs Hin. destruct Hs as [Hr _ Hh|n hs Hn _ _ _ Hhs _ _ Hr _ Hh|lane x t Hrun Hmore Hr _ Hh|lane x st t note Hrun Hst Hr _ Hh].
  - exists r. rewrite Hr, (rank_same r _ _ Hh). split_and!; [done|done|by left].
  - exists r. rewrite Hr, Hh, elem_of_app. split_and!; [by left|done|]. left. split; [done|]. unfold rank.
    rewrite later_app; [done|]. intros h Hh'. rewrite (Hhs h Hh'). pose proof (ri_seq s Hi r Hin). lia.
  - destruct Hrun as [Hlat Ha]. destruct (latest_in _ _ _ Hlat) as [Hx _]. rewrite Hr.
    destruct (replaced x (with_wave (ro_ActiveWave x + 1) t) r s Hi Hin Hx) as [[-> Hin']|[Hne Hin']].
    + eexists. split; [exact Hin'|]. split; [done|]. right. split_and!; [done|by left|].
      destruct Hmore as (h & Hh0 & Hid & Hlt). destruct (ri_waves s Hi x Hx) as [_ Hall].
      destruct (Hall h Hh0 Hid) as [_ Hlow]. pose proof (proj1 (ri_wave s Hi x Hx)).
      destruct (Hlow (ro_ActiveWave x + 1)) as (h1 & Hh1 & Hid1 & Hw1); [lia|].
      pose proof (later_next x t (rhosts s) h1 Hh1 Hid1 Hw1).
      rewrite (rank_same _ _ _ Hh). unfold rank. rewrite Ha. cbn [ro_State with_wave].
      change (active_state StateWidening) with true. cbv iota. lia.
    + exists r. split_and!; [done|done|]. left. by rewrite (rank_same r _ _ Hh).
  - destruct Hrun as [Hlat Ha]. destruct (latest_in _ _ _ Hlat) as [Hx _]. rewrite Hr.
    destruct (replaced x (with_state st t note) r s Hi Hin Hx) as [[-> Hin']|[Hne Hin']].
    + eexists. split; [exact Hin'|]. split; [done|]. right. split_and!; [done| |].
      * right. split; [|done]. cbn. destruct Hst as [[-> _]| ->]; auto.
      * unfold rank. rewrite Ha. cbn [ro_State with_state].
        assert (active_state st = false) as -> by (by destruct Hst as [[-> _]| ->]). lia.
    + exists r. split_and!; [done|done|]. left. by rewrite (rank_same r _ _ Hh).
Qed.

(** ** Properties *)

Definition ro_reach : RStore -> Prop := rtc ro_step empty_rstore.

Lemma ro_inv_empty : ro_inv empty_rstore.
Proof.
  split; cbn; try (by constructor); intros; match goal with H : _ ∈ [] |- _ => by apply elem_of_nil in H end.
Qed.

Lemma ro_reach_inv s : ro_reach s -> ro_inv s.
Proof. intros H. eapply ro_inv_steps; [exact H|apply ro_inv_empty]. Qed.

(** The engine's handlers refine the rollout machine. Whatever other
    goroutines do between the database calls (any steps of the machine) and
    whatever faults occur, every write of [Start], [Evaluate], [AbortLane] and of
    the heartbeat commands is one step: a new rollout only on a lane with none
    running and with all its waves inhabited, the active wave moved by one only to
    an existing wave, completion only after the last wave, nothing on a rollout
    that ended. *)
Theorem rollout_handlers_refine T e s : ro_inv s ->
  (forall cfg, wpt T (rtc ro_step) ro_step (Start e cfg) (fun _ s' => ro_inv s') s) /\
  wpt T (rtc ro_step) ro_step (Evaluate e) (fun _ s' => ro_inv s') s /\
  (forall lane actor, wpt T (rtc ro_step) ro_step (AbortLane e lane actor) (fun _ s' => ro_inv s') s) /\
  (forall lane ip v, wpt T (rtc ro_step) ro_step (commandForLane lane ip v) (fun _ s' => ro_inv s') s).
Proof.
  intros Hi. split_and!.
  - intros cfg. by apply Start_wp.
  - by apply evaluate_lanes_wp.
  - intros lane actor. by apply AbortLane_wp.
  - intros lane ip v. by apply commandForLane_wp.
Qed.

(** What every reachable state satisfies: a lane has at most one running rollout, which
    is its latest; every rollout's active wave has a host, its waves have no gap from
    the canary up, and a host is a member of a rollout at most once. *)
Definition lanes_ok (s : RStore) : Prop :=
  (forall r r', r ∈ rollouts s -> r' ∈ rollouts s -> ro_Lane r = ro_Lane r' ->
     active_state (ro_State r) = true -> active_state (ro_State r') = true -> r = r') /\
  (forall r, r ∈ rollouts s -> active_state (ro_State r) = true -> running (ro_Lane r) (rollouts s) r) /\
  (forall r, r ∈ rollouts s -> wave_now r s <> [] /\ wave_contiguous (ro_ID r) (rhosts s)) /\
  NoDup (member_key <$> rhosts s).

Lemma inv_lanes_ok s : ro_inv s -> lanes_ok s.
Proof.
  intros Hi. split_and!.
  - intros r r' Hr Hr' Hl Ha Ha'. pose proof (ri_active s Hi r Hr Ha) as H1. pose proof (ri_active s Hi r' Hr' Ha') as H2.
    rewrite Hl in H1. congruence.
  - intros r Hr Ha. split; [|done]. by apply Hi.
  - intros r Hr. split; [|by apply Hi]. destruct (ri_wave s Hi r Hr) as (_ & h & Hh).
    apply (wave_hosts r s h) in Hh. unfold wave_now. intros E. rewrite E in Hh. by apply elem_of_nil in Hh.
  - apply Hi.
Qed.

(** Every rollout of [s] is in [s'] as it was, or was running and came closer to its
    end, with its lane, target and previous version kept. *)
Definition forward (s s' : RStore) : Prop :=
  forall r, r ∈ rollouts s -> exists r', r' ∈ rollouts s' /\ same_rollout r r' /\
    (r' = r /\ rank r' (rhosts s') = rank r (rhosts s) \/
     active_state (ro_State r) = true /\ ro_ActiveWave r <= ro_ActiveWave r' /\ (rank r' (rhosts s') < rank r (rhosts s))%nat).

Lemma forward_steps s s' : rtc ro_step s s' -> ro_inv s -> forward s s'.
Proof.
  induction 1 as [s|s1 s2 s3 H12 _ IH]; intros Hi r Hr; [exists r; by split_and!; auto|].
  destruct (step_rollout _ _ _ Hi H12 Hr) as (r2 & Hr2 & (Ei & El & Et & Ep) & Hm).
  destruct (IH (ro_inv_step _ _ H12 Hi) r2 Hr2) as (r3 & Hr3 & (Ei' & El' & Et' & Ep') & Hm').
  exists r3. split; [done|]. split; [unfold same_rollout; split_and!; congruence|].
  destruct Hm as [[-> Hk]|(Ha & Hw & Hk)].
  - destruct Hm' as [[-> Hk']|(Ha' & Hw' & Hk')]; [left; split; [done|congruence]|right; split_and!; [done|done|congruence || lia]].
  - right. assert (ro_ActiveWave r <= ro_ActiveWave r2) by (destruct Hw as [[_ ->]|[_ ->]]; lia).
    destruct Hm' as [[-> Hk']|(Ha' & Hw' & Hk')]; split_and!; [done|done|lia|done|lia|lia].
Qed.

(** What follows from steps of the machine holds of every handler's outcome. *)
Lemma handlers_step_to (P : RStore -> Prop) T e s : ro_inv s -> (forall s', rtc ro_step s s' -> P s') ->
  (forall cfg, wpt T (rtc ro_step) ro_step (Start e cfg) (fun _ s' => P s') s) /\
  wpt T (rtc ro_step) ro_step (Evaluate e) (fun _ s' => P s') s /\
  (forall lane actor, wpt T (rtc ro_step) ro_step (AbortLane e lane actor) (fun _ s' => P s') s) /\
  (forall lane ip v, wpt T (rtc ro_step) ro_step (commandForLane lane ip v) (fun _ s' => P s') s).
Proof.
  intros Hi HP.
  assert (Hend : forall s', rtc (either (rtc ro_step) ro_step) s s' -> P s').
  { intros s' Hs. apply HP. clear -Hs. induction Hs as [|x y z [Hxy|Hxy] _ IH]; [constructor|by etrans|by eapply rtc_l]. }
  split_and!; intros; (eapply wp_mono; [|intros ? s' Hs _; by apply Hend]).
  - by apply Start_wp.
  - by apply evaluate_lanes_wp.
  - by apply AbortLane_wp.
  - by apply commandForLane_wp.
Qed.

(** One rollout at a time. From every reachable state, whatever other goroutines
    do between the calls and whatever faults occur, after [Start], [Evaluate],
    [AbortLane] and the heartbeat commands a lane has at most one running rollout,
    its latest; every active wave has a host, waves have no gap, and a host is in a
    rollout at most once. *)
Theorem one_active_rollout_per_lane T e s : ro_reach s ->
  (forall cfg, wpt T (rtc ro_step) ro_step (Start e cfg) (fun _ s' => lanes_ok s') s) /\
  wpt T (rtc ro_step) ro_step (Evaluate e) (fun _ s' => lanes_ok s') s /\
  (forall lane actor, wpt T (rtc ro_step) ro_step (AbortLane e lane actor) (fun _ s' => lanes_ok s') s) /\
  (forall lane ip v, wpt T (rtc ro_step) ro_step (commandForLane lane ip v) (fun _ s' => lanes_ok s') s).
Proof.
  intros Hi%ro_reach_inv. apply handlers_step_to; [done|]. intros s' Hs. apply inv_lanes_ok. by eapply ro_inv_steps.
Qed.

(** Rollouts only move forward. After any handler (and whatever the others did
    meanwhile) each rollout is as it was, or was running and has a smaller rank (the
    number of hosts in later waves plus one, zero when it ended) and no earlier wave,
    with its lane, target and previous version kept. So a rollout that ended is
    frozen, and each changes at most as often as its rank. *)
Theorem rollouts_only_move_forward T e s : ro_reach s ->
  (forall cfg, wpt T (rtc ro_step) ro_step (Start e cfg) (fun _ s' => forward s s') s) /\
  wpt T (rtc ro_step) ro_step (Evaluate e) (fun _ s' => forward s s') s /\
  (forall lane actor, wpt T (rtc ro_step) ro_step (AbortLane e lane actor) (fun _ s' => forward s s') s) /\
  (forall lane ip v, wpt T (rtc ro_step) ro_step (commandForLane lane ip v) (fun _ s' => forward s s') s).
Proof. intros Hi%ro_reach_inv. apply handlers_step_to; [done|]. intros s' Hs. by apply forward_steps. Qed.

(** An update is validated by the canary before it spreads. However the
    evaluation of a lane ends and whatever reads fail, if it moves a rollout past
    wave 0 (to the next wave or to completion) then a host of wave 0 has a
    heartbeat that is not in bad health, reports the target version and is no
    older than [MissingAfter]. *)
Theorem canary_is_validated T lane s : ro_inv s ->
  wpt T eq (fun _ _ => True) (evaluate_tx lane) (fun res s' => forall r,
    running lane (rollouts s) r -> ro_ActiveWave r = 0 ->
    (exists r', r' ∈ rollouts s' /\ ro_ID r' = ro_ID r /\
       (ro_State r' = StateCompleted \/ ro_State r' = StateWidening /\ ro_ActiveWave r' = 1)) ->
    is_ok res = true ->
    exists h b t, T t /\ h ∈ rhosts s /\ h_RolloutID h = ro_ID r /\ h_Wave h = 0 /\
      find_beat (h_OverlayIP h) s = Some b /\ healthBad (hb_Health b) = false /\
      appliedFor b lane = ro_TargetVersion r /\ t - ro_MissingAfter r <= hb_LastSeen b) s.
Proof.
  intros Hi. eapply wp_mono; [by apply wp_evaluate_tx|].
  intros [[b l]|err] s' _ Hp r Hrun Hw (r' & Hin' & Hid & Hst) Hok; [|done].
  destruct (latest_in _ _ _ (proj1 Hrun)) as [Hin Hlane].
  destruct Hp as [[_ ->]|(_ & r0 & t & Ht & Hrun0 & Hp)].
  { assert (r' = r) as -> by (by eapply rollout_unique). destruct Hrun as [_ Ha]. rewrite Hw in Hst.
    destruct Hst as [E|[_ ?]]; [by rewrite E in Ha|done]. }
  assert (r0 = r) as -> by (destruct Hrun, Hrun0; congruence).
  destruct Hp as [[_ Hv]|(why & _ & _ & _ & Hrb)].
  - destruct (Hv Hw) as (h & bt & ? & ? & ? & ? & ? & Happ & ?). rewrite Hlane in Happ.
    by exists h, bt, t.
  - rewrite Hrb in Hin'. apply replace_in in Hin' as (y & Hy & ->).
    assert (Hy' : ro_ID y = ro_ID r) by (by destruct (ro_ID y =? ro_ID r) in Hid).
    rewrite Hy', Z.eqb_refl in Hst. cbn in Hst. by destruct Hst as [?|[? _]].
Qed.

Lemma wave_of_canary canary ws i : 0 <= i -> 1 <= canary -> wave_of canary ws i = 0 <-> i < canary.
Proof.
  intros Hi Hc. unfold wave_of. destruct (i <? canary) eqn:E; bool_split; [done|]. split; [|lia].
  destruct (ws <=? 0) eqn:Ew; bool_split; [done|]. pose proof (Z.div_pos (i - canary) ws). lia.
Qed.

Lemma wave_of_width canary ws i j :
  0 < ws -> canary <= i <= j -> wave_of canary ws i = wave_of canary ws j -> j - i < ws.
Proof.
  intros Hw Hi. unfold wave_of. rewrite !(proj2 (Z.ltb_ge _ _)) by lia. rewrite (proj2 (Z.leb_gt _ _)) by lia.
  pose proof (Z.div_mod (i - canary) ws ltac:(lia)). pose proof (Z.div_mod (j - canary) ws ltac:(lia)).
  pose proof (Z.mod_pos_bound (i - canary) ws Hw). pose proof (Z.mod_pos_bound (j - canary) ws Hw). nia.
Qed.

(** The fleet of a new rollout: one waiting row per host in the order given, the
    first [canary] of them (at least one) and nobody else in wave 0, and later
    waves no wider than [WaveSize]. *)
Definition fleet_partitioned (cfg : StartConfig) (rows : list Host) : Prop :=
  h_OverlayIP <$> rows = sc_Hosts cfg /\ NoDup (sc_Hosts cfg) /\
  1 <= canary_size cfg <= Z.of_nat (length (sc_Hosts cfg)) /\
  (forall i h, rows !! i = Some h ->
     h_Status h = HostWaiting /\ (h_Wave h = 0 <-> Z.of_nat i < canary_size cfg)) /\
  (forall i j h h', (i <= j)%nat -> rows !! i = Some h -> rows !! j = Some h' ->
     h_Wave h = h_Wave h' -> 0 < h_Wave h -> 0 < sc_WaveSize cfg -> Z.of_nat (j - i) < sc_WaveSize cfg).

Lemma wave_rows_partitioned cfg id t seq : sc_Hosts cfg <> [] -> NoDup (sc_Hosts cfg) ->
  fleet_partitioned cfg (wave_rows id (canary_size cfg) (sc_WaveSize cfg) t seq 0 (sc_Hosts cfg)).
Proof.
  intros Hne Hnd. pose proof (canary_size_bounds cfg Hne) as Hc.
  assert (Hrow : forall i h, wave_rows id (canary_size cfg) (sc_WaveSize cfg) t seq 0 (sc_Hosts cfg) !! i = Some h ->
    h_Status h = HostWaiting /\ h_Wave h = wave_of (canary_size cfg) (sc_WaveSize cfg) (Z.of_nat i)).
  { intros i h. rewrite wave_rows_lookup. destruct (sc_Hosts cfg !! i); [|done]. by intros [= <-]. }
  split_and!; [apply wave_rows_ips|done|lia|lia| |].
  - intros i h Hi. destruct (Hrow i h Hi) as [-> ->]. split; [done|]. apply wave_of_canary; lia.
  - intros i j h h' Hij Hi Hj Hw Hpos Hws. destruct (Hrow i h Hi) as [_ Hwi]. destruct (Hrow j h' Hj) as [_ Hwj].
    assert (~ Z.of_nat i < canary_size cfg).
    { rewrite <- (wave_of_canary _ (sc_WaveSize cfg)) by lia. lia. }
    rewrite Nat2Z.inj_sub by done. eapply (wave_of_width (canary_size cfg)); [done|lia|congruence].
Qed.

(** [Start] on every branch, alone with faults. It succeeds only on a lane
    with no running rollout, with at least one host and no host twice; then it
    appends one canary rollout with the configured target and the partition of
    the fleet into waves. It fails with the matching error otherwise and then
    changes nothing. *)
Theorem start_every_branch T e cfg s : ro_inv s ->
  wpt T eq (fun _ _ => True) (Start e cfg) (fun res s' => match res with
    | Ok r => (forall r', ~ running (start_lane cfg) (rollouts s) r') /\
        exists t rows, T t /\ r = start_row cfg t (ro_seq s) /\ rollouts s' = rollouts s ++ [r] /\
          rhosts s' = rhosts s ++ rows /\ (forall h, h ∈ rows -> h_RolloutID h = ro_ID r) /\
          fleet_partitioned cfg rows
    | Err err => s' = s /\ ((sc_Hosts cfg = [] /\ err = RO_NoHosts) \/ (sc_Hosts cfg <> [] /\ start_error cfg s err))
    end) s.
Proof.
  intros Hi. unfold Start. destruct (decide _) as [He|Hne]; [wp_step; split; [done|by left]|].
  wp_step. wp_step. wp_step. wp_step; [split; [done|right; split; [done|by left]]|].
  eapply wp_mono; [by apply wp_start_tx|]. intros [r|err] s2 _ Hp; [|split; [done|by right]].
  split; [done|]. destruct Hp as (-> & Hno & Hnd & Hr & Hq & Hh).
  assert (Hpost : forall s', rollouts s' = rollouts s2 -> rhosts s' = rhosts s2 ->
    (forall r', ~ running (start_lane cfg) (rollouts s) r') /\
        exists t0 rows, T t0 /\ start_row cfg t (ro_seq s) = start_row cfg t0 (ro_seq s) /\
          rollouts s' = rollouts s ++ [start_row cfg t (ro_seq s)] /\
          rhosts s' = rhosts s ++ rows /\ (forall h, h ∈ rows -> h_RolloutID h = ro_ID (start_row cfg t (ro_seq s))) /\
          fleet_partitioned cfg rows).
  { intros s' -> ->. split; [done|]. exists t. eexists. split_and!; [done|done|done|exact Hh| |].
    - intros h. apply wave_rows_id.
    - by apply wave_rows_partitioned. }
  wp_step. unfold recordAudit. destruct (e_audit e); [|wp_step; wp_step; by apply Hpost].
  wp_step. wp_step; [wp_step; by apply Hpost|]. split; [done|]. wp_step. by apply Hpost.
Qed.

Lemma moved_on_same r t s s2 s' : moved_on r t s s2 -> same_ro s2 s' -> moved_on r t s s'.
Proof. intros H (Hr & Hq & Hh & Hb). unfold moved_on. by rewrite Hr, Hq, Hh, Hb. Qed.

Lemma rolled_back_same r t why s s2 s' : rolled_back r t why s s2 -> same_ro s2 s' -> rolled_back r t why s s'.
Proof. intros H (Hr & Hq & Hh & Hb). unfold rolled_back. by rewrite Hr, Hq, Hh, Hb. Qed.

(** One failing host stops the rollout. Without faults, if a host of the
    active wave reports a bad health then the evaluation rolls the rollout back,
    whatever the rest of the wave reports. *)
Theorem bad_health_rolls_back e lane r t s h b :
  running lane (rollouts s) r -> h ∈ wave_now r s -> find_beat (h_OverlayIP h) s = Some b ->
  healthBad (hb_Health b) = true ->
  let (res, s') := run t (evaluateLane e lane) s in
  res = Ok true /\ exists why, rolled_back r t why s s'.
Proof.
  intros Hrun Hin Hb Hbad. pose proof (evaluate_quiet e lane r t s Hrun) as H.
  destruct (run t (evaluateLane e lane) s) as [res s'].
  destruct (tally_counts r t s (wave_now r s) (mkTally 0 0 0 "")) as (_ & Hf & _). cbn in Hf.
  assert (Hpos : 0 < how_many is_fail r t s (wave_now r s)).
  { apply how_many_ex. exists h. split; [done|]. unfold verdict_of. rewrite Hb. cbn. by rewrite Hbad. }
  unfold decide_wave in H. rewrite (proj2 (Z.ltb_lt 0 (n_fail _))) in H by lia.
  destruct H as (s2 & Hs & -> & Hrb). split; [done|]. eexists. by eapply rolled_back_same.
Qed.

(** Silent: past the grace period and without a heartbeat, or with a stale one. *)
Definition silent (r : Rollout) (t : Z) (ip : string) (s : RStore) : Prop :=
  ro_MissingAfter r <= t - ro_WaveStartedAt r /\
  match find_beat ip s with
  | None => True
  | Some b => healthBad (hb_Health b) = false /\ hb_LastSeen b < t - ro_MissingAfter r
  end.

Lemma judge_silent r t s h : silent r t (h_OverlayIP h) s -> is_miss (verdict_of r t s h) = true.
Proof.
  unfold silent, verdict_of, judge, isMissing. intros [Hg Hb]. rewrite (proj2 (Z.ltb_ge _ _)) by done.
  destruct (find_beat _ s) as [b|]; [|done]. destruct Hb as [-> Hb].
  rewrite (proj2 (Z.leb_gt _ _)) by done. rewrite andb_false_r. by rewrite (proj2 (Z.ltb_lt _ _)).
Qed.

Lemma judge_conv r t s h b : find_beat (h_OverlayIP h) s = Some b -> converged_beat r t b ->
  is_conv (verdict_of r t s h) = true.
Proof.
  unfold verdict_of, judge. intros -> (-> & -> & Hf). rewrite Z.eqb_refl. by rewrite (proj2 (Z.leb_le _ _)).
Qed.

(** A wave of converged and silent hosts moves on. *)
Lemma reachable_converged_decides r t s :
  (forall h, h ∈ wave_now r s ->
     silent r t (h_OverlayIP h) s \/ exists b, find_beat (h_OverlayIP h) s = Some b /\ converged_beat r t b) ->
  (ro_ActiveWave r = 0 -> exists h b, h ∈ wave_now r s /\ find_beat (h_OverlayIP h) s = Some b /\ converged_beat r t b) ->
  decide_wave r t (Z.of_nat (length (wave_now r s))) (wave_tally r t s (wave_now r s) (mkTally 0 0 0 "")) = DAdvance.
Proof.
  intros Hall Hcan. destruct (tally_counts r t s (wave_now r s) (mkTally 0 0 0 "")) as (Hc & Hf & Hm). cbn in Hc, Hf, Hm.
  destruct (how_many_split r t s (wave_now r s)) as [Hsum Hf0].
  { intros h Hh. destruct (Hall h Hh) as [Hs|(b & Hb & Hcb)]; [by rewrite (judge_silent r t s h), orb_true_r|].
    by rewrite (judge_conv r t s h b). }
  pose proof (how_many_pos is_conv r t s (wave_now r s)).
  unfold decide_wave, need_of. rewrite Hc, Hf, Hm, Hf0. rewrite !Z.add_0_l. cbn [Z.ltb Z.compare].
  destruct (decide (ro_ActiveWave r = 0)) as [Hw|Hw].
  - assert (0 < how_many is_conv r t s (wave_now r s)).
    { apply how_many_ex. destruct (Hcan Hw) as (h & b & Hh & Hb & Hcb). exists h. split; [done|]. by eapply judge_conv. }
    rewrite (proj2 (Z.eqb_neq (how_many is_conv _ _ _ _) 0)) by lia. rewrite andb_false_r. cbn [andb].
    rewrite (proj2 (Z.leb_le _ _)); [done|]. case_match; bool_split; lia.
  - rewrite (proj2 (Z.eqb_neq _ _)) by done. cbn [andb].
    rewrite (proj2 (Z.leb_le _ _)); [done|]. case_match; bool_split; lia.
Qed.

(** Silent hosts do not block a wave. Without faults, if every host of the
    active wave either converged or is silent past [MissingAfter], and (in the
    canary wave) at least one converged, the evaluation moves the rollout on: to
    the next wave if there is one, to completion otherwise. *)
Theorem reachable_wave_moves_on e lane r t s :
  running lane (rollouts s) r ->
  (forall h, h ∈ wave_now r s ->
     silent r t (h_OverlayIP h) s \/ exists b, find_beat (h_OverlayIP h) s = Some b /\ converged_beat r t b) ->
  (ro_ActiveWave r = 0 -> exists h b, h ∈ wave_now r s /\ find_beat (h_OverlayIP h) s = Some b /\ converged_beat r t b) ->
  let (res, s') := run t (evaluateLane e lane) s in res = Ok true /\ moved_on r t s s'.
Proof.
  intros Hrun Hall Hcan. pose proof (evaluate_quiet e lane r t s Hrun) as H.
  destruct (run t (evaluateLane e lane) s) as [res s'].
  rewrite (reachable_converged_decides r t s Hall Hcan) in H.
  destruct H as (s2 & Hs & -> & Hmv). split; [done|]. by eapply moved_on_same.
Qed.

(** Evaluations of one lane at the given times. *)
Fixpoint evaluations (e : Engine) (lane : string) (ts : list Z) (s : RStore) : RStore :=
  match ts with
  | [] => s
  | t :: ts => evaluations e lane ts (run t (evaluateLane e lane) s).2
  end.

Lemma hosts_same_back l l' h' : hosts_same l l' -> h' ∈ l' -> exists h, h ∈ l /\ same_host h h'.
Proof.
  induction 1 as [|a b l1 l2 Hab _ IH]; [by intros ?%elem_of_nil|].
  intros [->|Hin]%elem_of_cons; [exists a; split; [constructor|done]|].
  destruct (IH Hin) as (h & ? & ?). exists h. split; [by constructor|done].
Qed.

Lemma running_replace lane r f s : running lane (rollouts s) r -> (forall x, ro_Lane (f x) = ro_Lane x) ->
  latest lane (replace_rollout (ro_ID r) f (rollouts s)) = Some (f r).
Proof. intros [Hlat _] Hf. rewrite latest_replace by done. rewrite Hlat. cbn. by rewrite Z.eqb_refl. Qed.

(** ** A healthy fleet *)

Definition with_beats (bs : list hb) (s : RStore) : RStore :=
  mkRStore (rollouts s) (ro_seq s) (rhosts s) (rh_seq s) bs (r_audit s).

Lemma with_beats_inv bs s : ro_inv s -> ro_inv (with_beats bs s).
Proof. apply ro_inv_step, rs_hosts; [done|done|apply hosts_same_refl]. Qed.

(** Evaluations of one lane: each at a time, on the heartbeats the hosts have sent by then. *)
Fixpoint rounds (e : Engine) (lane : string) (l : list (Z * list hb)) (s : RStore) : RStore :=
  match l with
  | [] => s
  | (t, bs) :: l => rounds e lane l (run t (evaluateLane e lane) (with_beats bs s)).2
  end.

(** The hosts of the wave that has been commanded are up and in good health, and from [D]
    after its activation on they report the target. Hosts of later waves, which still have
    the previous version, and of earlier ones are not looked at. *)
Definition wave_healthy (D : Z) (r : Rollout) (t : Z) (s : RStore) : Prop :=
  forall h, h ∈ wave_now r s -> exists b, find_beat (h_OverlayIP h) s = Some b /\ healthBad (hb_Health b) = false /\
    t - ro_MissingAfter r <= hb_LastSeen b /\ (ro_WaveStartedAt r + D <= t -> appliedFor b (ro_Lane r) = ro_TargetVersion r).

Fixpoint healthy_rounds (D : Z) (e : Engine) (lane : string) (l : list (Z * list hb)) (s : RStore) : Prop :=
  match l with
  | [] => True
  | (t, bs) :: l => (forall r, running lane (rollouts s) r -> wave_healthy D r t (with_beats bs s)) /\
                    healthy_rounds D e lane l (run t (evaluateLane e lane) (with_beats bs s)).2
  end.

(** How many times of an ascending list lie at least [D] after the one counted before. *)
Fixpoint spaced (D u : Z) (ts : list Z) : Z :=
  match ts with
  | [] => 0
  | t :: ts => if u + D <=? t then 1 + spaced D t ts else spaced D u ts
  end.

Lemma spaced_pos D u ts : 0 <= spaced D u ts.
Proof. revert u. induction ts as [|t ts IH]; intros u; cbn; [lia|]. case_match; [specialize (IH t); lia|apply IH]. Qed.

Lemma how_many_none p r t s hosts : (forall h, h ∈ hosts -> p (verdict_of r t s h) = false) -> how_many p r t s hosts = 0.
Proof.
  intros H. pose proof (how_many_pos p r t s hosts). destruct (decide (0 < how_many p r t s hosts)) as [(h & Hh & Hp)%how_many_ex|]; [|lia].
  rewrite (H h Hh) in Hp. done.
Qed.

(** Such a wave is never rolled back, and it moves on once [D] has passed. *)
Lemma healthy_decides D r t s : wave_healthy D r t s -> D <= ro_ObserveWindow r -> wave_now r s <> [] ->
  let d := decide_wave r t (Z.of_nat (length (wave_now r s))) (wave_tally r t s (wave_now r s) (mkTally 0 0 0 "")) in
  (d = DAdvance \/ d = DNone) /\ (ro_WaveStartedAt r + D <= t -> d = DAdvance).
Proof.
  intros Hw HD Hne d. assert (Hripe : ro_WaveStartedAt r + D <= t -> d = DAdvance).
  { intros Ht. apply reachable_converged_decides.
    - intros h Hh. right. destruct (Hw h Hh) as (b & Hb & Hbad & Hf & Happ). exists b. split; [done|]. by split_and!; [|apply Happ|].
    - intros _. destruct (wave_now r s) as [|h l] eqn:E; [done|]. destruct (Hw h) as (b & Hb & Hbad & Hf & Happ); [rewrite E; by left|].
      exists h, b. split; [by left|]. split; [done|]. by split_and!; [|apply Happ|]. }
  split; [|done]. destruct (Z.le_gt_cases (ro_WaveStartedAt r + D) t) as [Ht|Ht]; [left; by apply Hripe|].
  assert (Hv : forall h, h ∈ wave_now r s -> is_fail (verdict_of r t s h) = false /\ is_miss (verdict_of r t s h) = false).
  { intros h Hh. destruct (Hw h Hh) as (b & Hb & Hbad & Hf & _). unfold verdict_of, judge, isMissing. rewrite Hb, Hbad.
    rewrite (proj2 (Z.ltb_ge (hb_LastSeen b) _)) by lia. by repeat case_match. }
  destruct (tally_counts r t s (wave_now r s) (mkTally 0 0 0 "")) as (_ & Hf & Hm). cbn in Hf, Hm.
  rewrite how_many_none in Hf by (intros h Hh; by apply Hv). rewrite how_many_none in Hm by (intros h Hh; by apply Hv).
  unfold d, decide_wave. rewrite Hf, Hm, andb_false_r. cbn [Z.ltb Z.compare]. rewrite (proj2 (Z.leb_gt (ro_ObserveWindow r) _)) by lia.
  destruct (need_of _ _ _ <=? _); auto.
Qed.

(** The answer to one round. *)
Definition progressed (r : Rollout) (t : Z) (s s' : RStore) : Prop :=
  (rollouts s' = rollouts s /\ hosts_same (rhosts s) (rhosts s')) \/ moved_on r t s s'.

Lemma healthy_round D e lane r t bs s : ro_inv s -> running lane (rollouts s) r -> D <= ro_ObserveWindow r -> wave_healthy D r t (with_beats bs s) ->
  let s' := (run t (evaluateLane e lane) (with_beats bs s)).2 in
  ro_inv s' /\ progressed r t (with_beats bs s) s' /\ (ro_WaveStartedAt r + D <= t -> moved_on r t (with_beats bs s) s').
Proof.
  intros Hi Hrun HD Hw s'. assert (Hne : wave_now r (with_beats bs s) <> []).
  { destruct (latest_in _ _ _ (proj1 Hrun)) as [Hin _]. destruct (ri_wave s Hi r Hin) as (_ & h & Hh).
    apply (wave_hosts r (with_beats bs s) h) in Hh. unfold wave_now. intros Hn. rewrite Hn in Hh. by apply elem_of_nil in Hh. }
  destruct (healthy_decides D r t _ Hw HD Hne) as [Hd Hripe].
  pose proof (evaluate_quiet e lane r t (with_beats bs s) Hrun) as H. unfold s'. destruct (run t (evaluateLane e lane) (with_beats bs s)) as [res s1]. cbn [snd].
  assert (Hp : progressed r t (with_beats bs s) s1 /\ (ro_WaveStartedAt r + D <= t -> moved_on r t (with_beats bs s) s1)).
  { destruct H as (s2 & Hs & H). destruct Hd as [Hd|Hd]; rewrite Hd in H.
    - destruct H as [_ Hm]. assert (moved_on r t (with_beats bs s) s1) by by eapply moved_on_same. by split; [right|].
    - destruct H as [_ ->]. destruct Hs as (E1 & E2 & E3 & E4). split; [left; split; [done|]; rewrite E3; apply hosts_same_refl|].
      intros Ht. rewrite (Hripe Ht) in Hd. done. }
  split; [|exact Hp]. destruct H as (s2 & Hs & H). destruct Hd as [Hd|Hd]; rewrite Hd in H.
  - eapply (ro_inv_step (with_beats bs s)); [|by apply with_beats_inv]. eapply moved_on_step; [exact Hrun|]. destruct H as [_ Hm]. by eapply moved_on_same.
  - destruct H as [_ ->]. destruct Hs as (E1 & E2 & E3 & E4). eapply (ro_inv_step (with_beats bs s)); [|by apply with_beats_inv].
    apply rs_hosts; [done|done|]. rewrite E3. apply hosts_same_refl.
Qed.

(** A finished rollout stays as it is. *)
Lemma idle_rounds e lane l r s : latest lane (rollouts s) = Some r -> active_state (ro_State r) = false -> rollouts (rounds e lane l s) = rollouts s.
Proof.
  revert s. induction l as [|[t bs] l IH]; intros s Hl Ha; [done|]. cbn [rounds].
  assert (Hsame : rollouts (run t (evaluateLane e lane) (with_beats bs s)).2 = rollouts s).
  { unfold run, evaluateLane. unfold mbind at 1, M_bind at 1. unfold tx. cbn [fault quiet interfere]. change (isolate (quiet t)) with (quiet (St:=RStore) t).
    unfold evaluate_tx, lockedActiveCurrent. unfold mbind, M_bind, query. cbn [fault quiet interfere mret M_ret]. cbn [rollouts with_beats].
    rewrite Hl, Ha. done. }
  rewrite IH; [done|by rewrite Hsame|done].
Qed.

Definition members_upto (id last : Z) (s : RStore) : Prop :=
  (exists h, h ∈ rhosts s /\ h_RolloutID h = id /\ h_Wave h = last) /\ forall h, h ∈ rhosts s -> h_RolloutID h = id -> h_Wave h <= last.

Lemma members_same_upto id last s s' : hosts_same (rhosts s) (rhosts s') -> members_upto id last s -> members_upto id last s'.
Proof.
  intros Hh [Hex Hle]. split.
  - by apply (hosts_same_exists _ _ (fun i w => i = id /\ w = last) Hh).
  - intros h' Hin' Hid'. destruct (hosts_same_back _ _ _ Hh Hin') as (h & Hh0 & (_ & Hrid & _ & Hw)). rewrite Hw. apply Hle; [done|]. by rewrite <- Hrid.
Qed.

Lemma sorted_skip (a b : Z) l : StronglySorted Z.le (a :: b :: l) -> StronglySorted Z.le (a :: l).
Proof.
  intros H. apply StronglySorted_inv in H as [Hs Ha]. apply StronglySorted_inv in Hs as [Hs _]. constructor; [done|]. by apply Forall_cons in Ha as [].
Qed.

(** The time [u] counted last: the wave is not younger, or the rollout is ahead by a wave. *)
Definition on_schedule (D last u : Z) (ts : list Z) (r : Rollout) : Prop :=
  (ro_WaveStartedAt r <= u /\ last - ro_ActiveWave r + 1 <= spaced D u ts) \/ last - ro_ActiveWave r + 2 <= spaced D u ts.

Definition finished (last : Z) (r : Rollout) : Prop := ro_State r = StateCompleted /\ ro_ActiveWave r = last.

Lemma members_active last r s : ro_inv s -> r ∈ rollouts s -> members_upto (ro_ID r) last s -> ro_ActiveWave r <= last.
Proof. intros Hi Hin [_ Hle]. destruct (ri_wave s Hi r Hin) as (_ & h & Hh & Hid & Hw). specialize (Hle h Hh Hid). lia. Qed.

Lemma rounds_progress D e lane last l : forall r s,
  ro_inv s -> running lane (rollouts s) r -> members_upto (ro_ID r) last s -> 0 <= D <= ro_ObserveWindow r ->
  StronglySorted Z.le (ro_WaveStartedAt r :: map fst l) -> healthy_rounds D e lane l s ->
  exists r', latest lane (rollouts (rounds e lane l s)) = Some r' /\ same_rollout r r' /\ (active_state (ro_State r') = true \/ finished last r') /\
    forall u, on_schedule D last u (map fst l) r -> finished last r'.
Proof.
  induction l as [|[t bs] l IH]; intros r s Hi Hrun Hmem HD Hsort Hheal; destruct (latest_in _ _ _ (proj1 Hrun)) as [Hin _].
  { pose proof (members_active last r s Hi Hin Hmem). exists r. destruct Hrun. split_and!; [done|done|by left|]. intros u Hu. unfold on_schedule in Hu. cbn in Hu. lia. }
  cbn [map fst] in Hsort. cbn [rounds map fst]. destruct Hheal as [Hw Hrest].
  destruct (healthy_round D e lane r t bs s Hi Hrun (proj2 HD) (Hw r Hrun)) as (Hi1 & Hprog & Hripe). set (s1 := (run t _ _).2) in *.
  assert (Ht : ro_WaveStartedAt r <= t) by (apply StronglySorted_inv in Hsort as [_ Ha]; by apply Forall_cons in Ha as []).
  assert (Hcase : (rollouts s1 = rollouts s /\ hosts_same (rhosts s) (rhosts s1) /\ t < ro_WaveStartedAt r + D) \/ moved_on r t (with_beats bs s) s1).
  { destruct (Z.le_gt_cases (ro_WaveStartedAt r + D) t) as [Hle|Hgt]; [right; by apply Hripe|]. destruct Hprog as [[H1 H2]|Hm]; [left; by split_and!|by right]. }
  destruct Hcase as [(Hr & Hh & Hearly)|(_ & Hh & _ & [[Hm Hr]|[Hm Hr]])].
  - destruct (IH r s1) as (r' & Hl & Hsame & Hst & Hfin); [done|by rewrite Hr|by eapply members_same_upto|done|by eapply sorted_skip|done|].
    exists r'. split_and!; [done|done|done|]. intros u Hu. unfold on_schedule in Hu. cbn [spaced] in Hu. destruct (Z.leb_spec (u + D) t).
    + apply (Hfin t). left. lia.
    + apply (Hfin u). done.
  - set (r1 := with_wave (ro_ActiveWave r + 1) t r).
    assert (Hrun1 : running lane (rollouts s1) r1) by (split; [rewrite Hr; by apply running_replace|done]).
    destruct (IH r1 s1) as (r' & Hl & (? & ? & ? & ?) & Hst & Hfin); [done|done|by eapply (members_same_upto (ro_ID r) last s)|done|by apply StronglySorted_inv in Hsort as []|done|].
    exists r'. split_and!; [done|done|done|]. intros u Hu. unfold on_schedule in Hu. cbn [spaced] in Hu. destruct (Z.leb_spec (u + D) t).
    + apply (Hfin t). left. cbn. lia.
    + apply (Hfin u). right. cbn. lia.
  - assert (Hlast : last = ro_ActiveWave r).
    { destruct Hmem as [(h & Hh0 & Hid0 & Hw0) Hle]. assert (~ ro_ActiveWave r < last) by (intros ?; apply Hm; exists h; split_and!; [done|done|lia]).
      pose proof (members_active last r s Hi Hin ltac:(split; [by exists h|done])). lia. }
    set (r1 := with_state StateCompleted t (Some "all waves converged") r).
    assert (Hl1 : latest lane (rollouts s1) = Some r1) by (rewrite Hr; by apply running_replace).
    exists r1. rewrite (idle_rounds e lane l r1 s1 Hl1 eq_refl). assert (finished last r1) by done. split_and!; [done|done|by right|done].
Qed.

(** C37: a healthy fleet completes, and is never rolled back. Let the hosts of a wave be up, in good
    health, and on the target within [D] of the activation of their wave, where [D] is at most
    the observation window; hosts of waves not yet commanded may report anything. Evaluations
    at ascending times, each on the heartbeats sent by then, never roll the rollout back,
    however early they come; and when as many of them as there are waves left lie [D] apart,
    the rollout is completed, in its last wave. Nothing else touches the lane meanwhile. *)
Theorem healthy_fleet_completes D e lane last l r s :
  ro_inv s -> running lane (rollouts s) r -> members_upto (ro_ID r) last s -> 0 <= D <= ro_ObserveWindow r ->
  StronglySorted Z.le (ro_WaveStartedAt r :: map fst l) -> healthy_rounds D e lane l s ->
  exists r', latest lane (rollouts (rounds e lane l s)) = Some r' /\ same_rollout r r' /\
    (active_state (ro_State r') = true \/ finished last r') /\
    (last - ro_ActiveWave r + 1 <= spaced D (ro_WaveStartedAt r) (map fst l) -> finished last r').
Proof.
  intros Hi Hrun Hmem HD Hsort Hheal. destruct (rounds_progress D e lane last l r s Hi Hrun Hmem HD Hsort Hheal) as (r' & Hl & Hsame & Hst & Hfin).
  exists r'. split_and!; [done|done|done|]. intros Hn. apply (Hfin (ro_WaveStartedAt r)). left. by split.
Qed.

(** The generation a host should run on a lane: what the bundles are stamped
    with. *)
Definition desired (lane ip : string) (s : RStore) : option Z :=
  r ← latest lane (rollouts s);
  Some (if decide (ro_State r = StateCompleted) then ro_TargetVersion r
        else if active_state (ro_State r) then
          match member_host (ro_ID r) ip s with
          | Some h => if h_Wave h <=? ro_ActiveWave r then ro_TargetVersion r else ro_PrevVersion r
          | None => ro_PrevVersion r
          end
        else ro_PrevVersion r).

Lemma active_cases st : active_state st = true <-> st = StateCanary \/ st = StateWidening.
Proof. unfold active_state. by rewrite orb_true_iff, !bool_decide_eq_true. Qed.

Lemma genForLane_solo lane ip s :
  solo (genForLane lane ip) (fun res s' => s' = s /\
    (res = Ok (0, false) \/ exists v, desired lane ip s = Some v /\ res = Ok (v, true))) s.
Proof.
  unfold genForLane, current, desired. wp_step. wp_step. wp_step; [wp_step; by split; [|left]|].
  destruct (latest lane (rollouts s)) as [r|]; [|wp_step; by split; [|left]]. cbn [mbind option_bind].
  destruct (decide (ro_State r = StateCompleted)); [wp_step; split; [done|right; eauto]|].
  destruct (active_state (ro_State r)); [|wp_step; split; [done|right; eauto]].
  wp_step. wp_step. wp_step; [wp_step; by split; [|left]|]. wp_step. split; [done|]. right.
  destruct (member_host _ _ _) as [h|]; [destruct (_ <=? _)|]; eauto.
Qed.

(** A command for version [v] is for the desired version, which the host does
    not report. *)
Lemma commandForLane_solo lane ip reported s :
  solo (commandForLane lane ip reported) (fun res s' => rollouts s' = rollouts s /\
    (res = Ok None \/ exists v, desired lane ip s = Some v /\ reported <> v /\
                                res = Ok (Some (mkCommand CmdApplyBundle v)))) s.
Proof.
  unfold commandForLane, current, desired. wp_step. wp_step. wp_step; [wp_step; by split; [|left]|].
  destruct (latest lane (rollouts s)) as [r|]; [|wp_step; by split; [|left]]. cbn [mbind option_bind].
  wp_step. wp_step. wp_step; [wp_step; by split; [|left]|].
  destruct (member_host _ _ _) as [h|]; [|wp_step; by split; [|left]].
  destruct (decide (_ \/ _)) as [Ha|Ha].
  { rewrite decide_False by (intros E; rewrite E in Ha; by destruct Ha). apply active_cases in Ha. rewrite Ha.
    wp_step. split; [done|]. destruct (h_Wave h <=? ro_ActiveWave r); [|by left].
    destruct (reported =? ro_TargetVersion r) eqn:E; bool_split; [by left|]. right. by exists (ro_TargetVersion r). }
  destruct (decide (ro_State r = StateCompleted)).
  { wp_step. split; [done|]. destruct (reported =? ro_TargetVersion r) eqn:E; bool_split; [by left|].
    right. by exists (ro_TargetVersion r). }
  destruct (active_state (ro_State r)) eqn:Ea; [by apply active_cases in Ea|].
  destruct (decide (ro_State r = StateRolledBack)); [|wp_step; by split; [|left]].
  destruct (decide (lane = LaneBlocklist)); [wp_step; by split; [|left]|].
  destruct (h_Wave h <=? ro_ActiveWave r); [|wp_step; by split; [|left]].
  destruct (reported =? ro_PrevVersion r) eqn:E; bool_split; cbn [negb].
  2:{ wp_step. split; [done|]. right. by exists (ro_PrevVersion r). }
  destruct (decide _); [|wp_step; by split; [|left]].
  wp_step. unfold markReverted. wp_step. wp_step. wp_step. wp_step; [wp_step; by split; [|left]|].
  split; [done|]. wp_step. by split; [|left].
Qed.

(** On the release lanes commands and stamps agree, so hosts settle. With
    reads that may fail, the stamp of [genForLane] is the desired generation or
    "ungoverned"; a command is only ever issued for the desired generation to a
    host not reporting it; and a host that reports the desired generation gets no
    command. *)
Theorem commands_follow_stamps lane ip s :
  solo (genForLane lane ip) (fun res s' => s' = s /\
    (res = Ok (0, false) \/ exists v, desired lane ip s = Some v /\ res = Ok (v, true))) s /\
  (forall reported, solo (commandForLane lane ip reported) (fun res s' => rollouts s' = rollouts s /\
    (res = Ok None \/ exists v, desired lane ip s = Some v /\ reported <> v /\
                                res = Ok (Some (mkCommand CmdApplyBundle v)))) s) /\
  (forall v, desired lane ip s = Some v -> solo (commandForLane lane ip v) (fun res _ => res = Ok None) s).
Proof.
  split_and!; [apply genForLane_solo|intros; apply commandForLane_solo|]. intros v Hv.
  eapply wp_mono; [apply commandForLane_solo|]. intros res s' _ [_ [->|(v' & Hv' & Hne & _)]]; [done|]. congruence.
Qed.

(** The catch-up only drives up, to a generation that completed. A positive
    answer of [FloorCatchupGen] names the target of the lane's last completed
    rollout, above what the host reports, while no rollout is running. *)
Theorem floor_catchup_only_raises lane reported s :
  solo (FloorCatchupGen lane reported) (fun res s' => s' = s /\
    (res = Ok (0, false) \/ exists r, res = Ok (ro_TargetVersion r, true) /\ reported < ro_TargetVersion r /\
       find_first (completed_on lane) (rev (rollouts s)) = Some r /\ (forall r', ~ running lane (rollouts s) r'))) s.
Proof.
  unfold FloorCatchupGen, current, currentCompletedGen. wp_step. wp_step. wp_step; [wp_step; by split; [|left]|].
  destruct (match latest lane (rollouts s) with Some r => _ | None => false end) eqn:Ea; [wp_step; by split; [|left]|].
  wp_step. wp_step. wp_step. wp_step; [wp_step; wp_step; by split; [|left]|]. wp_step. wp_step.
  split; [done|]. destruct (find_first _ _) as [r|] eqn:Ef; [|by left].
  destruct (_ || _) eqn:E; [by left|]. bool_split. right. exists r. split_and!; [done|lia|done|].
  intros r' [Hl Ha]. rewrite Hl in Ea. congruence.
Qed.

(** A completed policy rollout does not settle. For its members (and a target
    different from the previous version) bundles are stamped with the previous
    version, and a host that applies such a bundle and reports it is told to apply
    the target again, on every heartbeat. *)
Theorem completed_policy_rollout_never_settles ip t s r h :
  latest LanePolicy (rollouts s) = Some r -> ro_State r = StateCompleted ->
  member_host (ro_ID r) ip s = Some h -> ro_TargetVersion r <> ro_PrevVersion r ->
  run t (VersionFor ip) s = (Ok (ro_PrevVersion r, true), s) /\
  run t (CommandFor ip (ro_PrevVersion r)) s = (Ok (Some (mkCommand CmdApplyBundle (ro_TargetVersion r))), s).
Proof.
  intros Hl Hst Hm Hne. unfold run, VersionFor, CommandFor, commandForLane, current.
  unfold mbind, M_bind, attempt, query. cbn -[latest member_host].
  rewrite Hl. cbn -[latest member_host]. rewrite Hm, Hst. cbn.
  rewrite (proj2 (Z.eqb_neq _ _)) by congruence. done.
Qed.

(** ** A fleet of three on the nebula lane *)

Definition demo_engine : Engine := mkEngine true true.
Definition demo_cfg : StartConfig :=
  mkStartConfig LaneNebula "v2" 2 1 ["10.0.0.1"; "10.0.0.2"; "10.0.0.3"] 1 1 0 1000 100 "ops".
Definition demo_beat (gen : Z) (health : string) (seen : Z) (ip : string) : hb := mkHb ip 0 0 gen 0 health seen.
Definition demo_started : RStore := (run 10 (Start demo_engine demo_cfg) empty_rstore).2.
Definition demo_fleet : RStore := with_beats (demo_beat 2 "ok" 20 <$> sc_Hosts demo_cfg) demo_started.
Definition demo_rollout : Rollout := start_row demo_cfg 10 1.
(** The second wave's host is off, its last words of long ago were bad. *)
Definition demo_mixed : RStore :=
  with_beats [demo_beat 2 "ok" 20 "10.0.0.1"; demo_beat 1 "degraded" (-5000) "10.0.0.2"] demo_started.
Definition demo_mixed_wave1 : RStore := (run 30 (evaluateLane demo_engine LaneNebula) demo_mixed).2.
Definition demo_done : RStore := evaluations demo_engine LaneNebula [30; 31; 32] demo_fleet.

(** A run without interference is a sequence of steps. *)
Lemma ro_run_reach {A} (m : M RStore rerr A) t s :
  wpt (fun _ => True) (rtc ro_step) ro_step m (fun _ s' => ro_inv s') s -> ro_reach s -> ro_reach (run t m s).2.
Proof.
  intros H Hr. unfold run.
  assert (HR : respects (rtc ro_step) (quiet t)) by (intros k x; constructor).
  specialize (H (quiet t) 0%nat HR (fun _ => I)). destruct (m (quiet t) 0%nat s) as [[r n] s']. cbn.
  destruct H as [H _]. unfold ro_reach in *. etrans; [exact Hr|].
  clear -H. induction H as [|x y z [Hxy|Hxy] _ IH]; [constructor|by etrans|by eapply rtc_l].
Qed.

Lemma demo_started_reach : ro_reach demo_started.
Proof. apply ro_run_reach; [apply Start_wp, ro_inv_empty|constructor]. Qed.

Lemma with_beats_reach bs s : ro_reach s -> ro_reach (with_beats bs s).
Proof. intros H. eapply rtc_r; [exact H|]. apply rs_hosts; [done|done|apply hosts_same_refl]. Qed.

Lemma demo_fleet_reach : ro_reach demo_fleet.
Proof. apply with_beats_reach, demo_started_reach. Qed.

Lemma demo_mixed_reach : ro_reach demo_mixed.
Proof. apply with_beats_reach, demo_started_reach. Qed.

Lemma demo_running bs : running LaneNebula (rollouts (with_beats bs demo_started)) demo_rollout.
Proof. split; vm_compute; reflexivity. Qed.

Lemma rollout_handlers_refine_witness :
  wpt (fun _ => True) (rtc ro_step) ro_step (Evaluate demo_engine) (fun _ s' => ro_inv s') demo_fleet.
Proof.
  apply (rollout_handlers_refine (fun _ => True) demo_engine demo_fleet). apply ro_reach_inv, demo_fleet_reach.
Defined.

Lemma one_active_rollout_per_lane_witness :
  active_state (ro_State demo_rollout) = true /\
  wpt (fun _ => True) (rtc ro_step) ro_step (Start demo_engine demo_cfg) (fun _ s' => lanes_ok s') demo_fleet.
Proof.
  split; [reflexivity|]. apply (one_active_rollout_per_lane (fun _ => True) demo_engine demo_fleet demo_fleet_reach).
Defined.

Lemma rollouts_only_move_forward_witness :
  rollouts demo_mixed_wave1 <> rollouts demo_mixed /\
  wpt (fun _ => True) (rtc ro_step) ro_step (Evaluate demo_engine) (fun _ s' => forward demo_mixed s') demo_mixed.
Proof.
  split; [by vm_compute|].
  apply (rollouts_only_move_forward (fun _ => True) demo_engine demo_mixed demo_mixed_reach).
Defined.

Lemma canary_is_validated_witness :
  exists h b t, True /\ h ∈ rhosts demo_mixed /\ h_RolloutID h = ro_ID demo_rollout /\ h_Wave h = 0 /\
      find_beat (h_OverlayIP h) demo_mixed = Some b /\ healthBad (hb_Health b) = false /\
      appliedFor b LaneNebula = ro_TargetVersion demo_rollout /\ t - ro_MissingAfter demo_rollout <= hb_LastSeen b.
Proof.
  pose proof (canary_is_validated (fun _ => True) LaneNebula demo_mixed (ro_reach_inv _ demo_mixed_reach)
    (quiet 30) 0%nat (fun _ _ => eq_refl) (fun _ => I)) as H.
  destruct (evaluate_tx LaneNebula (quiet 30) 0%nat demo_mixed) as [[res n] s'] eqn:E. destruct H as [_ H].
  assert (Hex : exists r', r' ∈ rollouts s' /\ ro_ID r' = ro_ID demo_rollout /\
       (ro_State r' = StateCompleted \/ ro_State r' = StateWidening /\ ro_ActiveWave r' = 1)).
  { exists (with_wave 1 30 demo_rollout). split; [|split; [done|by right]].
    apply (f_equal snd) in E. cbn [snd] in E. rewrite <- E. vm_compute. constructor. }
  assert (Hok : is_ok res = true).
  { apply (f_equal (fun p => is_ok p.1.1)) in E. cbn in E. rewrite <- E. vm_compute. reflexivity. }
  exact (H demo_rollout (demo_running _) eq_refl Hex Hok).
Defined.

Lemma start_every_branch_witness :
  wpt (fun _ => True) eq (fun _ _ => True) (Start demo_engine demo_cfg) (fun res s' => match res with
    | Ok r => (forall r', ~ running (start_lane demo_cfg) (rollouts empty_rstore) r') /\
        exists t rows, True /\ r = start_row demo_cfg t (ro_seq empty_rstore) /\ rollouts s' = rollouts empty_rstore ++ [r] /\
          rhosts s' = rhosts empty_rstore ++ rows /\ (forall h, h ∈ rows -> h_RolloutID h = ro_ID r) /\
          fleet_partitioned demo_cfg rows
    | Err err => s' = empty_rstore /\ ((sc_Hosts demo_cfg = [] /\ err = RO_NoHosts) \/
                   (sc_Hosts demo_cfg <> [] /\ start_error demo_cfg empty_rstore err))
    end) empty_rstore.
Proof. apply (start_every_branch (fun _ => True) demo_engine demo_cfg empty_rstore), ro_inv_empty. Defined.

Definition demo_wave1 : Rollout := with_wave 1 30 demo_rollout.
Definition demo_host2 : Host := mkHost 2 1 "10.0.0.2" 1 HostWaiting 10.

Lemma demo_wave1_running : running LaneNebula (rollouts demo_mixed_wave1) demo_wave1.
Proof. split; vm_compute; reflexivity. Qed.

Lemma bad_health_rolls_back_witness :
  let (res, s') := run 40 (evaluateLane demo_engine LaneNebula) demo_mixed_wave1 in
  res = Ok true /\ exists why, rolled_back demo_wave1 40 why demo_mixed_wave1 s'.
Proof.
  apply (bad_health_rolls_back demo_engine LaneNebula demo_wave1 40 demo_mixed_wave1 demo_host2
           (demo_beat 1 "degraded" (-5000) "10.0.0.2"));
    [apply demo_wave1_running|vm_compute; constructor|vm_compute; reflexivity|vm_compute; reflexivity].
Defined.

(** A stale heartbeat in bad health rolls a rollout back. On the fleet above
    the second wave's only host was last heard of long before the rollout began,
    more than [MissingAfter] ago; since its last report was a bad one it counts as
    failed and not as silent, and the rollout ends rolled back. *)
Theorem stale_bad_health_rolls_back :
  let s' := (run 40 (evaluateLane demo_engine LaneNebula) demo_mixed_wave1).2 in
  exists b, find_beat "10.0.0.2" demo_mixed_wave1 = Some b /\ hb_LastSeen b < 40 - ro_MissingAfter demo_wave1 /\
    hb_LastSeen b < ro_CreatedAt demo_wave1 /\ option_map ro_State (latest LaneNebula (rollouts s')) = Some StateRolledBack.
Proof. exists (demo_beat 1 "degraded" (-5000) "10.0.0.2"). vm_compute. done. Qed.

Lemma reachable_wave_moves_on_witness :
  let (res, s') := run 30 (evaluateLane demo_engine LaneNebula) demo_mixed in
  res = Ok true /\ moved_on demo_rollout 30 demo_mixed s'.
Proof.
  apply (reachable_wave_moves_on demo_engine LaneNebula demo_rollout 30 demo_mixed (demo_running _)).
  - intros h Hh. right. exists (demo_beat 2 "ok" 20 "10.0.0.1").
    change (h ∈ [mkHost 1 1 "10.0.0.1" 0 HostWaiting 10]) in Hh. apply list_elem_of_singleton in Hh as ->.
    split; [reflexivity|]. by split_and!.
  - intros _. exists (mkHost 1 1 "10.0.0.1" 0 HostWaiting 10), (demo_beat 2 "ok" 20 "10.0.0.1").
    split_and!; [vm_compute; constructor|reflexivity|by split_and!].
Defined.

(** Hosts that are on the target a tick after they were commanded: each round the hosts of the
    waves so far report it and the others the old version; the first round comes too early. *)
Definition beats_at (n seen : Z) : list hb :=
  map (fun i => demo_beat (if i <? n then 2 else 1) "ok" seen ("10.0.0." +:+ pretty (i + 1))) [0; 1; 2].
Definition demo_rounds : list (Z * list hb) := [(10, beats_at 0 9); (20, beats_at 1 19); (25, beats_at 1 24); (30, beats_at 2 29); (40, beats_at 3 39)].

Lemma beats_healthy r t bs s : (forall b, b ∈ bs -> healthBad (hb_Health b) = false /\ t - ro_MissingAfter r <= hb_LastSeen b) ->
  forallb (fun h => match find_beat (h_OverlayIP h) (with_beats bs s) with
                    | Some b => (t <? ro_WaveStartedAt r + 10) || (appliedFor b (ro_Lane r) =? ro_TargetVersion r) | None => false end) (wave_now r (with_beats bs s)) = true ->
  wave_healthy 10 r t (with_beats bs s).
Proof.
  intros Hb Hall h Hh. apply forallb_elem with (x := h) in Hall; [|done]. destruct (find_beat _ _) as [b|] eqn:E; [|done]. exists b.
  apply find_first_Some in E as [Hin _]. destruct (Hb b Hin) as [H1 H2]. split_and!; [done|done|done|]. intros Ht.
  apply orb_true_iff in Hall as [Hlt|Heq]; bool_split; [lia|done].
Qed.

Lemma demo_rounds_healthy : healthy_rounds 10 demo_engine LaneNebula demo_rounds demo_started.
Proof.
  unfold demo_rounds. cbn [healthy_rounds].
  repeat (split; [intros r [Hl _]; vm_compute in Hl; injection Hl as <-; apply beats_healthy; [|vm_compute; reflexivity];
    intros b Hb; vm_compute in Hb; repeat (apply elem_of_cons in Hb as [->|Hb]; [split; [reflexivity|vm_compute; discriminate]|]); by apply elem_of_nil in Hb|]). done.
Qed.

Lemma demo_members : members_upto 1 2 demo_started.
Proof.
  split.
  - exists (mkHost 3 1 "10.0.0.3" 2 HostWaiting 10). split; [vm_compute; do 2 constructor; constructor|done].
  - intros h Hh _. change (h ∈ wave_rows 1 1 1 10 1 0 (sc_Hosts demo_cfg)) in Hh. cbn in Hh.
    repeat (apply elem_of_cons in Hh as [->|Hh]; [vm_compute; discriminate|]). by apply elem_of_nil in Hh.
Qed.

Lemma healthy_fleet_completes_witness :
  exists r', latest LaneNebula (rollouts (rounds demo_engine LaneNebula demo_rounds demo_started)) = Some r' /\ same_rollout demo_rollout r' /\ finished 2 r'.
Proof.
  destruct (healthy_fleet_completes 10 demo_engine LaneNebula 2 demo_rounds demo_rollout demo_started) as (r' & H1 & H2 & _ & H3).
  - apply ro_reach_inv, demo_started_reach.
  - split; vm_compute; reflexivity.
  - apply demo_members.
  - vm_compute. split; discriminate.
  - repeat constructor; vm_compute; discriminate.
  - apply demo_rounds_healthy.
  - exists r'. split; [exact H1|]. split; [exact H2|]. apply H3. vm_compute. discriminate.
Defined.

Definition demo_policy_cfg : StartConfig :=
  mkStartConfig LanePolicy "publish" 5 4 ["10.0.0.1"] 1 1 0 1000 100 "ops".
Definition demo_policy_done : RStore :=
  evaluations demo_engine LanePolicy [30]
    (with_beats [mkHb "10.0.0.1" 5 0 0 0 "ok" 20] (run 10 (Start demo_engine demo_policy_cfg) empty_rstore).2).

Lemma completed_policy_rollout_never_settles_witness :
  run 40 (VersionFor "10.0.0.1") demo_policy_done = (Ok (4, true), demo_policy_done) /\
  run 40 (CommandFor "10.0.0.1" 4) demo_policy_done = (Ok (Some (mkCommand CmdApplyBundle 5)), demo_policy_done).
Proof.
  apply (completed_policy_rollout_never_settles "10.0.0.1" 40 demo_policy_done
    (with_state StateCompleted 30 (Some "all waves converged") (start_row demo_policy_cfg 10 1))
    (mkHost 1 1 "10.0.0.1" 0 HostConverged 30)); [vm_compute; reflexivity..|done].
Defined.
