(* ===== verification/AuditChain.v ===== *)
(** * internal/store/audit.go: the hash-chained audit log

    Every Harbor component records its actions with [AppendAudit]; [VerifyAudit]
    walks the chain. [sha256] is a parameter: nothing is assumed of it, tampering is
    reduced to exhibiting a collision. *)

From S2P Require Import Prelude Db Bytes.
From stdpp Require Import prelude strings list relations.
From Stdlib Require Import ZArith Lia.
Open Scope Z_scope.

(** [Audit], a row of audit_log. *)
Record Audit : Type := mkAudit {
  au_Seq : Z;
  au_TS : Z;
  au_Actor : string;
  au_Action : string;
  au_Target : string;
  au_Details : string;
  au_PrevHash : string;
  au_Hash : string;
}.

(** The ways a chain can be inconsistent, all wrapped by [ErrAuditTampered]. *)
Inductive tampered : Type := SeqGap | BrokenLink | HashMismatch.

Inductive aerr : Type := AU_Duplicated | AU_Fault.
#[export] Instance aerr_db : DbError aerr := AU_Fault.

(** audit_log in primary-key order. *)
Definition AStore : Type := list Audit.

Fixpoint zeros (n : nat) : string :=
  match n with O => EmptyString | S n => String Ascii.zero (zeros n) end.

Definition genesisPrev : string := zeros 32.

Section chain.
Context (sha256 : string -> string).

(** The bytes [auditHash] feeds to the hash. *)
Definition audit_msg (e : Audit) : string :=
  be8 (u64 (au_Seq e)) +:+ (be8 (u64 (au_TS e)) +:+ (writeField (au_Actor e) +:+ (writeField (au_Action e) +:+
  (writeField (au_Target e) +:+ (writeField (au_Details e) +:+ (writeField (au_PrevHash e) +:+ EmptyString)))))).

Definition auditHash (e : Audit) : string := sha256 (audit_msg e).

(** The row appended after [last]. *)
Definition next_row (last : option Audit) (t : Z) (actor action target details : string) : Audit :=
  let (seq, prev) := match last with
                     | Some l => (au_Seq l + 1, au_Hash l)
                     | None => (1, genesisPrev)
                     end in
  let e := mkAudit seq t actor action target details prev EmptyString in
  mkAudit seq t actor action target details prev (auditHash e).

Definition AppendAudit (postgres : bool) (actor action target details : string) : M AStore aerr Audit :=
  tx (
    _ ← (if postgres then exec (fun s => ((), s)) else mret ());
    l ← query (fun s : AStore => last s);
    t ← now;
    let e := next_row l t actor action target details in
    _ ← exec_err (fun s => if existsb (fun r => au_Seq r =? au_Seq e) s then Err AU_Duplicated
                           else Ok ((), s ++ [e]));
    mret e).

(** The loop of [VerifyAudit]: rows verified and the first inconsistency. *)
Fixpoint verify_rows (prev : string) (want : Z) (rows : list Audit) : Z * option tampered :=
  match rows with
  | [] => (want - 1, None)
  | r :: rows =>
      if negb (au_Seq r =? want) then (want - 1, Some SeqGap)
      else if decide (au_PrevHash r <> prev) then (au_Seq r - 1, Some BrokenLink)
      else if decide (au_Hash r <> auditHash r) then (au_Seq r - 1, Some HashMismatch)
      else verify_rows (au_Hash r) (want + 1) rows
  end.

Definition VerifyAudit : M AStore aerr (Z * option tampered) :=
  rows ← query (fun s : AStore => s);
  mret (verify_rows genesisPrev 1 rows).

(** ** The chain *)

(** [e] continues a chain whose last hash is [prev] with sequence number [want]. *)
Definition links (prev : string) (want : Z) (e : Audit) : Prop :=
  au_Seq e = want /\ au_PrevHash e = prev /\ au_Hash e = auditHash e.

Definition head_hash (prev : string) (rows : list Audit) : string :=
  match last rows with Some r => au_Hash r | None => prev end.

Lemma head_hash_cons prev r rows : head_hash prev (r :: rows) = head_hash (au_Hash r) rows.
Proof. unfold head_hash. rewrite last_cons. by destruct (last rows). Qed.

Lemma verify_snoc prev want rows e n :
  verify_rows prev want (rows ++ [e]) = (n, None) <->
  verify_rows prev want rows = (n - 1, None) /\ links (head_hash prev rows) (want + Z.of_nat (length rows)) e.
Proof.
  revert prev want. induction rows as [|r rows IH]; intros prev want.
  - cbn. unfold links, head_hash. cbn. rewrite Z.add_0_r. destruct (au_Seq e =? want) eqn:E; bool_split; cbn [negb].
    + destruct (decide _) as [|H2%dec_stable]; [split; [done|intros [_ (?&?&?)]; congruence]|].
      destruct (decide _) as [|H3%dec_stable]; [split; [done|intros [_ (?&?&?)]; congruence]|].
      split; [intros [= <-]; split; [do 2 f_equal; lia|done]|intros [[= Hn] _]; f_equal; lia].
    + split; [done|intros [_ (?&?&?)]; lia].
  - cbn [app verify_rows]. destruct (negb _); [split; [done|intros [? _]; done]|].
    destruct (decide _); [split; [done|intros [? _]; done]|].
    destruct (decide _); [split; [done|intros [? _]; done]|].
    rewrite IH, head_hash_cons. cbn [length].
    replace (want + 1 + Z.of_nat (length rows)) with (want + Z.of_nat (S (length rows))) by lia. done.
Qed.

Lemma verify_count prev want rows n : verify_rows prev want rows = (n, None) -> n = want - 1 + Z.of_nat (length rows).
Proof.
  revert prev want. induction rows as [|r rows IH]; intros prev want; cbn [verify_rows length]; [intros [= <-]; lia|].
  repeat (case_match; [done|]). intros ->%IH. lia.
Qed.

(** The log is intact. *)
Definition chain_ok (s : AStore) : Prop := verify_rows genesisPrev 1 s = (Z.of_nat (length s), None).

(** Somebody's append. *)
Definition append_step (s s' : AStore) : Prop :=
  s' = s \/ exists t actor action target details, s' = s ++ [next_row (last s) t actor action target details].

Lemma next_row_links rows t a b c d : chain_ok rows ->
  links (head_hash genesisPrev rows) (1 + Z.of_nat (length rows)) (next_row (last rows) t a b c d).
Proof.
  intros Hok. unfold next_row, head_hash. destruct (last rows) as [l|] eqn:El; [|destruct rows; [done|]].
  - apply last_Some in El as [pre ->]. apply verify_snoc in Hok as [Hpre (Hs & _)]. apply verify_count in Hpre.
    rewrite length_app. cbn [length]. unfold links. cbn. split_and!; [|done|done]. lia.
  - rewrite last_cons in El. by destruct (last rows).
Qed.

Lemma append_chain s s' : append_step s s' -> chain_ok s -> chain_ok s'.
Proof.
  intros [->|(t & a & b & c & d & ->)] Hok; [done|]. unfold chain_ok. rewrite length_app. cbn [length].
  apply verify_snoc. replace (Z.of_nat (length s + 1) - 1) with (Z.of_nat (length s)) by lia.
  split; [exact Hok|]. by apply next_row_links.
Qed.

Lemma chain_seq s r : chain_ok s -> r ∈ s -> au_Seq r <= Z.of_nat (length s).
Proof.
  revert r. induction s as [|e s IH] using rev_ind; intros r Hok; [by intros ?%elem_of_nil|].
  apply verify_snoc in Hok as [Hpre (Hs & _)]. rewrite length_app in *. cbn [length] in *.
  replace (Z.of_nat (length s + 1) - 1) with (Z.of_nat (length s)) in Hpre by lia.
  intros [Hin| ->%list_elem_of_singleton]%elem_of_app; [specialize (IH r Hpre Hin)|]; lia.
Qed.

Lemma next_row_fresh s t a b c d : chain_ok s ->
  existsb (fun r => au_Seq r =? au_Seq (next_row (last s) t a b c d)) s = false.
Proof.
  intros Hok. apply existsb_elem_false. intros r Hr. apply Z.eqb_neq.
  destruct (next_row_links s t a b c d Hok) as [-> _]. pose proof (chain_seq s r Hok Hr). lia.
Qed.

(** The log stays a chain under concurrent writers. Whatever other writers
    append between two calls and whatever calls fail, [AppendAudit] only ever
    appends one linked row, which records the actor, action, target and details
    given; and a verification at any time accepts every row written so far, or
    reports that it could not read, never tampering. *)
Theorem audit_log_stays_chained T pg actor action target details s : chain_ok s ->
  wpt T (rtc append_step) append_step (AppendAudit pg actor action target details) (fun res s' =>
    chain_ok s' /\ forall e, res = Ok e -> last s' = Some e /\ au_Actor e = actor /\ au_Action e = action /\
      au_Target e = target /\ au_Details e = details /\ T (au_TS e)) s /\
  wpt T (rtc append_step) append_step VerifyAudit (fun res s' => chain_ok s' /\
    (res = Err AU_Fault \/ res = Ok (Z.of_nat (length s'), None))) s.
Proof.
  intros Hok.
  assert (Hst : forall a b, rtc append_step a b -> chain_ok a -> chain_ok b).
  { intros a b H. apply rtc_invariant with (2 := H). apply append_chain. }
  split.
  - unfold AppendAudit. wp_step; pose proof (Hst _ _ HR Hok) as Hok0; [by split|].
    assert (Hbody : wpt T eq (fun _ _ => True)
      (l ← query (fun s : AStore => last s); t ← now;
       let e := next_row l t actor action target details in
       _ ← exec_err (fun s => if existsb (fun r => au_Seq r =? au_Seq e) s then Err AU_Duplicated else Ok ((), s ++ [e]));
       mret e)
      (fun r s2 => match r with
        | Ok a => append_step s0 s2 /\ chain_ok s2 /\ forall e, Ok a = Ok (E:=aerr) e -> last s2 = Some e /\
            au_Actor e = actor /\ au_Action e = action /\ au_Target e = target /\ au_Details e = details /\ T (au_TS e)
        | Err e => chain_ok s0 /\ forall e', Err (A:=Audit) e = Ok e' -> last s0 = Some e' /\
            au_Actor e' = actor /\ au_Action e' = action /\ au_Target e' = target /\ au_Details e' = details /\ T (au_TS e')
        end) s0).
    { wp_step. wp_step; [by split|]. wp_step. wp_step. wp_step. wp_step; [by split|].
      rewrite next_row_fresh by done. split; [done|]. wp_step.
      assert (Hg : append_step s0 (s0 ++ [next_row (last s0) t actor action target details])) by (right; eauto 6).
      split; [done|]. split; [by eapply append_chain|]. intros e [= <-]. rewrite last_snoc. split; [done|].
      unfold next_row. by destruct (last s0). }
    wp_step. destruct pg; [wp_step; [by split|]; by split|by wp_step].
  - unfold VerifyAudit. wp_step. wp_step; pose proof (Hst _ _ HR Hok) as Hok0; [by split; [|left]|].
    wp_step. split; [done|]. right. f_equal. exact Hok0.
Qed.

(** Rows as the column types bound them. *)
Definition row_ok (e : Audit) : Prop :=
  int64_ok (au_Seq e) /\ int64_ok (au_TS e) /\
  Forall (fun f => len f < 2 ^ 64) [au_Actor e; au_Action e; au_Target e; au_Details e; au_PrevHash e].

(** The encoding is unambiguous: every field but the hash itself is committed. *)
Lemma audit_msg_inj e e' : row_ok e -> row_ok e' -> audit_msg e = audit_msg e' ->
  au_Seq e = au_Seq e' /\ au_TS e = au_TS e' /\ au_Actor e = au_Actor e' /\ au_Action e = au_Action e' /\
  au_Target e = au_Target e' /\ au_Details e = au_Details e' /\ au_PrevHash e = au_PrevHash e'.
Proof.
  intros (Hs & Ht & Hf) (Hs' & Ht' & Hf'). unfold audit_msg. intros H.
  repeat match goal with HF : Forall _ (_ :: _) |- _ => apply Forall_cons in HF as [? HF] end.
  apply str_app_inj in H as [Heq1%be8_int64_inj H]; [|done..|unfold be8; by rewrite !be_length].
  apply str_app_inj in H as [Heq2%be8_int64_inj H]; [|done..|unfold be8; by rewrite !be_length].
  apply writeField_inj in H as [Heq3 H]; [|done..]. apply writeField_inj in H as [Heq4 H]; [|done..].
  apply writeField_inj in H as [Heq5 H]; [|done..]. apply writeField_inj in H as [Heq6 H]; [|done..].
  apply writeField_inj in H as [Heq7 H]; [|done..]. done.
Qed.

(** Two rows whose bytes differ and whose hashes do not. *)
Definition collision (rows rows' : list Audit) : Prop :=
  exists e e', e ∈ rows /\ e' ∈ rows' /\ audit_msg e <> audit_msg e' /\ auditHash e = auditHash e'.

(** C31: tampering is evident. Two logs that both verify, have the same number of
    rows and end in the same hash are equal row by row, unless a SHA-256 collision
    between two of their rows is at hand: no edit, reorder, insertion or removal
    below a known head survives verification. *)
Theorem audit_tamper_evident rows rows' n :
  Forall row_ok rows -> Forall row_ok rows' ->
  verify_rows genesisPrev 1 rows = (n, None) -> verify_rows genesisPrev 1 rows' = (n, None) ->
  head_hash genesisPrev rows = head_hash genesisPrev rows' ->
  rows = rows' \/ collision rows rows'.
Proof.
  revert rows' n. induction rows as [|e rows IH] using rev_ind; intros rows' n Hw Hw' Hv Hv' Hh.
  - apply verify_count in Hv, Hv'. left. destruct rows'; [done|cbn in *; lia].
  - destruct rows' as [|e' rows' _] using rev_ind.
    { apply verify_count in Hv, Hv'. rewrite length_app in Hv. cbn in *. lia. }
    apply verify_snoc in Hv as [Hv (Hs & Hp & Hx)]. apply verify_snoc in Hv' as [Hv' (Hs' & Hp' & Hx')].
    apply Forall_app in Hw as [Hw Hwe], Hw' as [Hw' Hwe']. rewrite Forall_singleton in Hwe, Hwe'.
    unfold head_hash in Hh. rewrite !last_snoc in Hh.
    destruct (decide (audit_msg e = audit_msg e')) as [Hm|Hm].
    + destruct (audit_msg_inj e e' Hwe Hwe' Hm) as (?&?&?&?&?&?&Hprev).
      assert (e = e') as -> by (destruct e, e'; cbn in *; congruence).
      destruct (IH rows' (n - 1)) as [->|(x & y & Hxin & Hyin & ?)]; [done..| |by left|].
      * congruence.
      * right. exists x, y. rewrite !elem_of_app. tauto.
    + right. exists e, e'. split_and!; [apply elem_of_app; right; by apply list_elem_of_singleton..|done|congruence].
Qed.
End chain.

(** ** A log of two rows *)

(** A stand-in digest for the examples. *)
Definition demo_digest (s : string) : string := be 4 (of_be 0 s).

Definition demo_log : AStore :=
  (run 9 (_ ← AppendAudit demo_digest true "alice" "netblock-add" "web" "";
          AppendAudit demo_digest true "bob" "rollout-start" "rollout#1" "lane=policy") []).2.

Lemma audit_log_stays_chained_witness :
  chain_ok demo_digest demo_log /\
  wpt (fun _ => True) (rtc (append_step demo_digest)) (append_step demo_digest) (VerifyAudit demo_digest)
    (fun res s' => chain_ok demo_digest s' /\ (res = Err AU_Fault \/ res = Ok (Z.of_nat (length s'), None))) demo_log.
Proof.
  split; [vm_compute; reflexivity|].
  apply (audit_log_stays_chained demo_digest (fun _ => True) true "alice" "x" "y" "z" demo_log).
  vm_compute. reflexivity.
Defined.

Lemma audit_tamper_evident_witness : demo_log = demo_log \/ collision demo_digest demo_log demo_log.
Proof.
  assert (Hok : Forall row_ok demo_log).
  { repeat constructor; vm_compute; done. }
  apply (audit_tamper_evident demo_digest demo_log demo_log 2); [exact Hok|exact Hok|vm_compute; reflexivity..|reflexivity].
Defined.
