(* ===== verification/Queue.v ===== *)
(** * internal/queue: the gateway-to-Core enrollment queue

    [Durable]: authenticated publish, claim with leases, ack and nack with a poison
    threshold, and the one-time result store; [Memory]: the in-process FIFO. HMAC and
    SHA-256 are parameters. A result row's consumption is also noted in a ghost log
    ([reads]) with the reading goroutine. *)

From S2P Require Import Prelude Db Bytes.
From stdpp Require Import prelude strings list relations.
From Stdlib Require Import ZArith Lia.
Open Scope Z_scope.

Definition statusReady : string := "ready".
Definition statusInflight : string := "inflight".
Definition statusDead : string := "dead".

Inductive qerr : Type :=
| Q_Duplicate | Q_Backpressure | Q_ResultNotFound | Q_ResultGone
| Q_NoRow        (* gorm.ErrRecordNotFound of Nack *)
| Q_BadKey       (* OpenDurable: short key *)
| Q_Fault.
#[export] Instance qerr_db : DbError qerr := Q_Fault.

Record Candidate : Type := mkCandidate {
  c_EnrollmentID : string;
  c_PubkeyHash : string;
  c_RequestJWS : string;
  c_RetrievalSecretHash : string;
  c_ReceivedAt : Z;
}.

(** [item], a row of queue_items. *)
Record item : Type := mkItem {
  it_ID : Z;
  it_EnrollmentID : string;
  it_PubkeyHash : string;
  it_RequestJWS : string;
  it_RetrievalSecretHash : string;
  it_ReceivedAt : Z;
  it_MAC : string;
  it_Status : string;
  it_Attempts : Z;
  it_LeaseUntil : Z;
}.

(** [result], a row of queue_results. *)
Record qresult : Type := mkResult {
  rs_ID : Z;
  rs_EnrollmentID : string;
  rs_Status : string;
  rs_Bundle : string;
  rs_SecretHash : string;
  rs_Reason : string;
  rs_ExpiresAt : Z;
  rs_ReadCount : Z;
}.

Record QStore : Type := mkQStore {
  items : list item;             (* in id order *)
  it_seq : Z;
  results : list qresult;
  rs_seq : Z;
  reads : list (Z * nat);        (* ghost: consumed result, reader *)
}.

Definition set_items (l : list item) (n : Z) (s : QStore) : QStore := mkQStore l n (results s) (rs_seq s) (reads s).
Definition set_results (l : list qresult) (n : Z) (s : QStore) : QStore := mkQStore (items s) (it_seq s) l n (reads s).
Definition add_read (x : Z * nat) (s : QStore) : QStore :=
  mkQStore (items s) (it_seq s) (results s) (rs_seq s) (reads s ++ [x]).
Definition empty_queue : QStore := mkQStore [] 1 [] 1 [].

Record Durable : Type := mkDurable { q_key : string; q_maxDepth : Z; q_maxAttempts : Z }.

(** [OpenDurable] after the store is open. *)
Definition OpenDurable (key : string) (maxDepth maxAttempts : Z) : result qerr Durable :=
  if len key <? 16 then Err Q_BadKey
  else Ok (mkDurable key (if maxDepth <=? 0 then 10000 else maxDepth) (if maxAttempts <=? 0 then 5 else maxAttempts)).

Record Leased : Type := mkLeased { l_ID : Z; l_Candidate : Candidate; l_Attempts : Z }.
Record PollResult : Type := mkPoll { p_Status : string; p_Bundle : string; p_Reason : string }.

Definition open_status (st : string) : bool := bool_decide (st = statusReady) || bool_decide (st = statusInflight).

Definition with_status (st : string) (it : item) : item :=
  mkItem (it_ID it) (it_EnrollmentID it) (it_PubkeyHash it) (it_RequestJWS it) (it_RetrievalSecretHash it)
    (it_ReceivedAt it) (it_MAC it) st (it_Attempts it) (it_LeaseUntil it).

Definition with_lease (st : string) (attempts until : Z) (it : item) : item :=
  mkItem (it_ID it) (it_EnrollmentID it) (it_PubkeyHash it) (it_RequestJWS it) (it_RetrievalSecretHash it)
    (it_ReceivedAt it) (it_MAC it) st attempts until.

(** [UPDATE queue_items SET ... WHERE f] *)
Definition update_items (f : item -> bool) (g : item -> item) (s : QStore) : QStore :=
  set_items (map (fun it => if f it then g it else it) (items s)) (it_seq s) s.

(** What the message authentication code covers. *)
Definition mac_msg (eid pubkey jws secretHash : string) : string :=
  writeField eid +:+ (writeField pubkey +:+ (writeField jws +:+ (writeField secretHash +:+ EmptyString))).

Section queue.
Context (hmac : string -> string -> string) (sha256 : string -> string).

Definition mac (d : Durable) (it : item) : string :=
  hmac (q_key d) (mac_msg (it_EnrollmentID it) (it_PubkeyHash it) (it_RequestJWS it) (it_RetrievalSecretHash it)).

Definition Depth : M QStore qerr Z :=
  query (fun s => Z.of_nat (length (List.filter (fun it => open_status (it_Status it)) (items s)))).

Definition new_item (d : Durable) (c : Candidate) (id : Z) : item :=
  let it := mkItem id (c_EnrollmentID c) (c_PubkeyHash c) (c_RequestJWS c) (c_RetrievalSecretHash c)
              (c_ReceivedAt c) EmptyString statusReady 0 0 in
  mkItem id (c_EnrollmentID c) (c_PubkeyHash c) (c_RequestJWS c) (c_RetrievalSecretHash c)
    (c_ReceivedAt c) (mac d it) statusReady 0 0.

Definition Publish (d : Durable) (c : Candidate) : M QStore qerr unit :=
  depth ← Depth;
  if q_maxDepth d <=? depth then throw Q_Backpressure
  else
    exec_err (fun s =>
      if existsb (fun it => bool_decide (it_EnrollmentID it = c_EnrollmentID c)) (items s)
      then Err Q_Duplicate
      else Ok ((), set_items (items s ++ [new_item d c (it_seq s)]) (it_seq s + 1) s)).

Definition candidate_of (it : item) : Candidate :=
  mkCandidate (it_EnrollmentID it) (it_PubkeyHash it) (it_RequestJWS it) (it_RetrievalSecretHash it) (it_ReceivedAt it).

Definition ready_id (id : Z) (it : item) : bool := (it_ID it =? id) && bool_decide (it_Status it = statusReady).

(** The loop of [Claim] over the selected rows. *)
Fixpoint claim_rows (d : Durable) (leaseTTL : Z) (rows : list item) : M QStore qerr (list Leased) :=
  match rows with
  | [] => mret []
  | it :: rows =>
      if decide (it_MAC it <> mac d it) then
        _ ← ignore (exec (fun s => ((), update_items (fun x => it_ID x =? it_ID it) (with_status statusDead) s)));
        claim_rows d leaseTTL rows
      else
        t ← now;
        n ← attempt (exec (fun s =>
              (Z.of_nat (length (List.filter (ready_id (it_ID it)) (items s))),
               update_items (ready_id (it_ID it))
                 (fun x => with_lease statusInflight (it_Attempts x + 1) (t + leaseTTL) x) s)));
        out ← claim_rows d leaseTTL rows;
        mret (match n with
              | Ok n => if n =? 0 then out else mkLeased (it_ID it) (candidate_of it) (it_Attempts it + 1) :: out
              | Err _ => out
              end)
  end.

Definition Claim (d : Durable) (limit : nat) (leaseTTL : Z) : M QStore qerr (list Leased) :=
  t ← now;
  _ ← exec (fun s => ((), update_items
        (fun it => bool_decide (it_Status it = statusInflight) && (it_LeaseUntil it <=? t)) (with_status statusReady) s));
  rows ← query (fun s => take limit (List.filter (fun it => bool_decide (it_Status it = statusReady)) (items s)));
  claim_rows d leaseTTL rows.

Definition Ack (id : Z) : M QStore qerr unit :=
  exec (fun s => ((), set_items (List.filter (fun it => negb (it_ID it =? id)) (items s)) (it_seq s) s)).

Definition Nack (d : Durable) (id : Z) : M QStore qerr unit :=
  r ← query (fun s => find_first (fun it => it_ID it =? id) (items s));
  match r with
  | None => throw Q_NoRow
  | Some it =>
      if q_maxAttempts d <=? it_Attempts it
      then exec (fun s => ((), update_items (fun x => it_ID x =? id) (with_status statusDead) s))
      else exec (fun s => ((), update_items (fun x => it_ID x =? id)
                                 (fun x => with_lease statusReady (it_Attempts x) 0 x) s))
  end.

(** A row after the conflict update: id, secret hash and read count stay. *)
Definition put_row (eid status bundle reason : string) (expiresAt : Z) (r : qresult) : qresult :=
  if bool_decide (rs_EnrollmentID r = eid)
  then mkResult (rs_ID r) (rs_EnrollmentID r) status bundle (rs_SecretHash r) reason expiresAt (rs_ReadCount r)
  else r.

(** [INSERT ... ON CONFLICT(enrollment_id) DO UPDATE SET status, bundle, reason, expires_at] *)
Definition upsert_result (eid status secretHash bundle reason : string) (expiresAt : Z) (s : QStore) : QStore :=
  if existsb (fun r => bool_decide (rs_EnrollmentID r = eid)) (results s)
  then set_results (map (put_row eid status bundle reason expiresAt) (results s)) (rs_seq s) s
  else set_results (results s ++ [mkResult (rs_seq s) eid status bundle secretHash reason expiresAt 0]) (rs_seq s + 1) s.

Definition PutResult (eid status secretHash bundle reason : string) (expiresAt : Z) : M QStore qerr unit :=
  exec (fun s => ((), upsert_result eid status secretHash bundle reason expiresAt s)).

(** The conditional consume: rows affected. *)
Definition unread (id : Z) (r : qresult) : bool :=
  (rs_ID r =? id) && bool_decide (rs_Status r = "issued") && (rs_ReadCount r =? 0).

Definition read_row (id : Z) (r : qresult) : qresult :=
  if unread id r
  then mkResult (rs_ID r) (rs_EnrollmentID r) (rs_Status r) (rs_Bundle r) (rs_SecretHash r)
         (rs_Reason r) (rs_ExpiresAt r) (rs_ReadCount r + 1)
  else r.

Definition consume (tid : nat) (id : Z) (s : QStore) : Z * QStore :=
  let n := Z.of_nat (length (List.filter (unread id) (results s))) in
  let s' := set_results (map (read_row id) (results s)) (rs_seq s) s in
  (n, if n =? 0 then s' else add_read (id, tid) s').

Definition GetResult (tid : nat) (eid secret : string) : M QStore qerr PollResult :=
  r ← query (fun s => find_first (fun r => bool_decide (rs_EnrollmentID r = eid)) (results s));
  match r with
  | None => throw Q_ResultNotFound
  | Some r =>
      if decide (sha256 secret <> rs_SecretHash r) then throw Q_ResultNotFound
      else
        t ← now;
        if negb (rs_ExpiresAt r =? 0) && (rs_ExpiresAt r <=? t) then throw Q_ResultGone
        else if decide (rs_Status r = "issued") then
          n ← exec (consume tid (rs_ID r));
          if n =? 0 then throw Q_ResultGone else mret (mkPoll (rs_Status r) (rs_Bundle r) (rs_Reason r))
        else mret (mkPoll (rs_Status r) (rs_Bundle r) (rs_Reason r))
  end.

Definition PendingResultIDs : M QStore qerr (list string) :=
  query (fun s => map rs_EnrollmentID (List.filter (fun r => bool_decide (rs_Status r = "pending")) (results s))).
End queue.

(** [Memory] *)
Module Memory.
Definition Publish (c : Candidate) (m : list Candidate) : list Candidate := m ++ [c].
Definition Drain (m : list Candidate) : list Candidate * list Candidate := (m, []).
Definition Len (m : list Candidate) : Z := Z.of_nat (length m).
End Memory.

(** ** The result store as a state machine *)

Definition same_key (a b : qresult) : Prop :=
  rs_ID b = rs_ID a /\ rs_EnrollmentID b = rs_EnrollmentID a /\ rs_SecretHash b = rs_SecretHash a.

(** One statement of goroutine [t]. *)
Inductive q_step (t : nat) (s s' : QStore) : Prop :=
| qs_items : results s' = results s -> rs_seq s' = rs_seq s -> reads s' = reads s -> q_step t s s'
| qs_update eid status bundle reason exp :
    results s' = map (put_row eid status bundle reason exp) (results s) ->
    rs_seq s' = rs_seq s -> reads s' = reads s -> q_step t s s'
| qs_insert r :
    rs_ID r = rs_seq s -> rs_ReadCount r = 0 -> (forall x, x ∈ results s -> rs_EnrollmentID x <> rs_EnrollmentID r) ->
    results s' = results s ++ [r] -> rs_seq s' = rs_seq s + 1 -> reads s' = reads s -> q_step t s s'
| qs_consume r :
    r ∈ results s -> rs_Status r = "issued" -> rs_ReadCount r = 0 ->
    results s' = map (read_row (rs_ID r)) (results s) ->
    rs_seq s' = rs_seq s -> reads s' = reads s ++ [(rs_ID r, t)] -> q_step t s s'.

Record q_inv (s : QStore) : Prop := mkQInv {
  qi_ids : NoDup (rs_ID <$> results s);
  qi_eids : NoDup (rs_EnrollmentID <$> results s);
  qi_seq : forall r, r ∈ results s -> rs_ID r < rs_seq s;
  qi_old : forall x, x ∈ reads s -> x.1 < rs_seq s;
  qi_count : forall r, r ∈ results s -> 0 <= rs_ReadCount r;
  qi_read : forall r t, r ∈ results s -> (rs_ID r, t) ∈ reads s -> 0 < rs_ReadCount r;
  qi_once : NoDup (reads s).*1;
}.

(** Updating rows in place, keeping id and enrollment. *)
Section map_rows.
Context (f : qresult -> qresult) (Hf : forall r, rs_ID (f r) = rs_ID r /\ rs_EnrollmentID (f r) = rs_EnrollmentID r).

Lemma map_ids l : rs_ID <$> map f l = rs_ID <$> l.
Proof. induction l as [|x l IH]; [done|]. cbn. rewrite IH. by destruct (Hf x) as [-> _]. Qed.

Lemma map_eids l : rs_EnrollmentID <$> map f l = rs_EnrollmentID <$> l.
Proof. induction l as [|x l IH]; [done|]. cbn. rewrite IH. by destruct (Hf x) as [_ ->]. Qed.

Lemma map_in l y : y ∈ map f l <-> exists x, x ∈ l /\ y = f x.
Proof.
  change (map f l) with (f <$> l). rewrite list_elem_of_fmap.
  split; [intros (x & -> & Hx); by exists x|intros (x & Hx & ->); by exists x].
Qed.

Lemma inv_map s s' : q_inv s -> results s' = map f (results s) -> rs_seq s' = rs_seq s ->
  (forall x, x ∈ reads s' -> x.1 < rs_seq s) -> NoDup (reads s').*1 ->
  (forall r, r ∈ results s -> 0 <= rs_ReadCount (f r)) ->
  (forall r t, r ∈ results s -> (rs_ID r, t) ∈ reads s' -> 0 < rs_ReadCount (f r)) -> q_inv s'.
Proof.
  intros Hi Hr Hq Hold Honce Hc Hrd. split; rewrite ?Hr, ?Hq; try done.
  - rewrite map_ids. apply Hi.
  - rewrite map_eids. apply Hi.
  - intros y (x & Hx & ->)%map_in. destruct (Hf x) as [-> _]. by apply Hi.
  - intros y (x & Hx & ->)%map_in. by apply Hc.
  - intros y t (x & Hx & ->)%map_in. destruct (Hf x) as [-> _]. by apply Hrd.
Qed.
End map_rows.

Lemma unread_iff id r : unread id r = true <-> rs_ID r = id /\ rs_Status r = "issued" /\ rs_ReadCount r = 0.
Proof. unfold unread. rewrite !andb_true_iff, !Z.eqb_eq, bool_decide_eq_true. tauto. Qed.

Lemma result_unique s a b : q_inv s -> a ∈ results s -> b ∈ results s -> rs_ID a = rs_ID b -> a = b.
Proof.
  intros Hi [i Ha]%list_elem_of_lookup [j Hb]%list_elem_of_lookup Hn.
  assert (i = j) as ->; [|congruence].
  eapply (NoDup_lookup (rs_ID <$> results s)); [apply Hi| |]; rewrite list_lookup_fmap; [by rewrite Ha|].
  rewrite Hb. simpl. congruence.
Qed.

Lemma put_count eid st bundle reason exp r : rs_ReadCount (put_row eid st bundle reason exp r) = rs_ReadCount r.
Proof. unfold put_row. by case_bool_decide. Qed.

Lemma q_inv_step t s s' : q_step t s s' -> q_inv s -> q_inv s'.
Proof.
  intros Hs Hi. destruct Hs as [Hr Hq Hd|eid st bundle reason exp Hr Hq Hd|r Hid Hc Hne Hr Hq Hd|r Hin Hst Hc Hr Hq Hd].
  - apply (inv_map (fun r => r) ltac:(done) s); [done|by rewrite map_id|done| | |apply Hi|]; rewrite Hd; apply Hi.
  - apply (inv_map (put_row eid st bundle reason exp)) with (s := s); rewrite ?Hd; try done; try apply Hi.
    + intros r. unfold put_row. by case_bool_decide.
    + intros r Hin. rewrite put_count. by apply Hi.
    + intros r u Hin Hu. rewrite put_count. by eapply (qi_read s Hi).
  - split; rewrite ?Hr, ?Hq, ?Hd.
    + rewrite fmap_app. apply NoDup_app. split_and!; [apply Hi| |apply NoDup_singleton].
      intros i (y & -> & Hy)%list_elem_of_fmap Hx%list_elem_of_singleton. pose proof (qi_seq s Hi y Hy). lia.
    + rewrite fmap_app. apply NoDup_app. split_and!; [apply Hi| |apply NoDup_singleton].
      intros i (y & -> & Hy)%list_elem_of_fmap Hx%list_elem_of_singleton. by apply (Hne y Hy).
    + intros x [Hx| ->%list_elem_of_singleton]%elem_of_app; [pose proof (qi_seq s Hi x Hx)|]; lia.
    + intros x Hx. pose proof (qi_old s Hi x Hx). lia.
    + intros x [Hx| ->%list_elem_of_singleton]%elem_of_app; [by apply Hi|lia].
    + intros x u [Hx| ->%list_elem_of_singleton]%elem_of_app Hu; [by eapply Hi|].
      pose proof (qi_old s Hi _ Hu). cbn in *. lia.
    + apply Hi.
  - apply (inv_map (read_row (rs_ID r))) with (s := s); rewrite ?Hd; try done.
    + intros x. unfold read_row. by destruct (unread _ _).
    + intros x [Hx| ->%list_elem_of_singleton]%elem_of_app; [by apply Hi|cbn; by apply Hi].
    + rewrite fmap_app. apply NoDup_app. split_and!; [apply Hi| |apply NoDup_singleton].
      intros i ([i' u] & -> & Hy)%list_elem_of_fmap Hx%list_elem_of_singleton. cbn in Hx. subst i'.
      pose proof (qi_read s Hi r u Hin Hy). lia.
    + intros x Hx. pose proof (qi_count s Hi x Hx). unfold read_row. destruct (unread _ _); cbn; lia.
    + intros x u Hx Hu. unfold read_row. destruct (unread (rs_ID r) x) eqn:E; [pose proof (qi_count s Hi x Hx); cbn; lia|].
      apply elem_of_app in Hu as [Hu|Hu%list_elem_of_singleton]; [by eapply Hi|]. injection Hu as Hu _.
      assert (x = r) as -> by (by eapply result_unique). exfalso.
      assert (unread (rs_ID r) r = true) by (by apply unread_iff). congruence.
Qed.

(** The steps of the other goroutines. *)
Definition others_q (tid : nat) : relation QStore := rtc (fun s s' => exists t, t <> tid /\ q_step t s s').

Lemma q_inv_others tid s s' : others_q tid s s' -> q_inv s -> q_inv s'.
Proof. intros H. apply rtc_invariant with (2 := H). intros a b (t & _ & Hs). by apply (q_inv_step t). Qed.

(** The log only grows. *)
Lemma others_reads tid s s' : others_q tid s s' -> reads s `prefix_of` reads s'.
Proof.
  intros H. apply (rtc_invariant _ (fun x => reads s `prefix_of` reads x)) with (2 := H); [|done].
  intros a b (t & _ & Hs) Ha.
  destruct Hs as [_ _ ->|????? _ _ ->|? _ _ _ _ _ ->|? _ _ _ _ _ ->]; [done..|]. by apply prefix_app_r.
Qed.

Lemma upsert_step tid eid status secretHash bundle reason exp s : q_inv s ->
  q_step tid s (upsert_result eid status secretHash bundle reason exp s).
Proof.
  intros Hi. unfold upsert_result. destruct (existsb _ _) eqn:Ex; [by eapply qs_update|].
  apply (qs_insert tid s _ (mkResult (rs_seq s) eid status bundle secretHash reason exp 0)); [done|done| |done..].
  intros x Hx He. rewrite existsb_elem_false in Ex. specialize (Ex x Hx).
  by rewrite bool_decide_true in Ex.
Qed.

Lemma consume_step tid r s : q_inv s ->
  let (n, s') := consume tid (rs_ID r) s in
  q_step tid s s' /\ (n <> 0 -> reads s' = reads s ++ [(rs_ID r, tid)]).
Proof.
  intros Hi. unfold consume. destruct (List.filter (unread (rs_ID r)) (results s)) as [|x l] eqn:El; cbn [length].
  - change (Z.of_nat 0 =? 0) with true. cbv iota. split; [|lia].
    apply qs_items; [|done|done]. cbn [results set_results]. rewrite <- (map_id (results s)) at 2. apply map_ext_in.
    intros x Hx. unfold read_row. destruct (unread (rs_ID r) x) eqn:E; [|done].
    assert (In x (List.filter (unread (rs_ID r)) (results s))) as Hl by (by apply filter_In). by rewrite El in Hl.
  - rewrite (proj2 (Z.eqb_neq _ _)) by lia.
    assert (In x (List.filter (unread (rs_ID r)) (results s))) as [Hx Hu]%filter_In by (rewrite El; by left).
    apply unread_iff in Hu as (Hid & Hst & Hc). apply list_elem_of_In in Hx. rewrite <- Hid. split.
    + by apply (qs_consume tid s _ x).
    + done.
Qed.

Section properties.
Context (hmac : string -> string -> string) (sha256 : string -> string).

Lemma items_step tid f n s : q_step tid s (set_items f n s).
Proof. by apply qs_items. Qed.

Lemma claim_rows_wp T tid d ttl rows s : q_inv s ->
  wpt T (others_q tid) (q_step tid) (claim_rows hmac d ttl rows) (fun _ s' => q_inv s') s.
Proof.
  revert s. induction rows as [|it rows IH]; intros s Hi; cbn [claim_rows]; [by wp_step|].
  destruct (decide _) as [_|_].
  - wp_step. wp_step. wp_step; pose proof (q_inv_others tid _ _ HR Hi) as Hi0; [by apply IH|].
    split; [apply items_step|]. apply IH. eapply q_inv_step; [apply (items_step tid)|done].
  - wp_step. wp_step. wp_step. wp_step.
    assert (Hrest : forall (n : result qerr Z) s1, q_inv s1 -> wpt T (others_q tid) (q_step tid)
       (out ← claim_rows hmac d ttl rows;
        mret (match n with
              | Ok n => if n =? 0 then out else mkLeased (it_ID it) (candidate_of it) (it_Attempts it + 1) :: out
              | Err _ => out
              end)) (fun _ s' => q_inv s') s1).
    { intros n s1 Hi1. wp_step. eapply wp_mono; [by apply IH|]. intros [out|e] s2 _ Hi2; [by wp_step|done]. }
    wp_step; pose proof (q_inv_others tid _ _ HR Hi) as Hi0; [exact (Hrest (Err Q_Fault) _ Hi0)|].
    split; [apply items_step|]. eapply (Hrest (Ok _)). eapply q_inv_step; [apply (items_step tid)|done].
Qed.

(** C16: an issued bundle is delivered once. Whatever the other goroutines and
    processes do between the calls (polls, new results, queue traffic) and whatever
    faults occur, [GetResult], [PutResult] and [Claim] move the store only by the
    protocol's steps, the log of consumed results never repeats a result, and a
    poll that returns an issued bundle presented the secret of that enrollment's
    row and consumed a result nobody had consumed before. *)
Theorem bundle_is_read_once T tid s : q_inv s ->
  (forall eid secret, wpt T (others_q tid) (q_step tid) (GetResult sha256 tid eid secret) (fun res s' =>
     q_inv s' /\ NoDup (reads s').*1 /\ forall p, res = Ok p -> p_Status p = "issued" ->
       exists r, rs_EnrollmentID r = eid /\ rs_SecretHash r = sha256 secret /\ p_Bundle p = rs_Bundle r /\
                 exists l, reads s' = l ++ [(rs_ID r, tid)] /\ reads s `prefix_of` l) s) /\
  (forall eid st sh b re exp, wpt T (others_q tid) (q_step tid) (PutResult eid st sh b re exp) (fun _ s' => q_inv s') s) /\
  (forall d limit ttl, wpt T (others_q tid) (q_step tid) (Claim hmac d limit ttl) (fun _ s' => q_inv s') s).
Proof.
  intros Hi. split_and!.
  - intros eid secret. unfold GetResult. wp_step.
    wp_step; pose proof (q_inv_others tid _ _ HR Hi) as Hi0; [by split_and!; [|apply Hi0|]|].
    destruct (find_first _ _) as [r|] eqn:Ef; [|wp_step; by split_and!; [|apply Hi0|]].
    apply find_first_Some in Ef as [Hin He]. bool_split.
    destruct (decide _) as [|Hsec%dec_stable]; [wp_step; by split_and!; [|apply Hi0|]|].
    wp_step. wp_step. destruct (_ && _); [wp_step; by split_and!; [|apply Hi0|]|].
    destruct (decide (rs_Status r = "issued")) as [Hst|Hst].
    2:{ wp_step. split_and!; [done|apply Hi0|]. by intros p [= <-] ?. }
    wp_step. wp_step; pose proof (q_inv_others tid _ _ HR0 Hi0) as Hi1; [by split_and!; [|apply Hi1|]|].
    pose proof (consume_step tid r s1 Hi1) as Hc. destruct (consume tid (rs_ID r) s1) as [n s2].
    destruct Hc as [Hg Hn]. pose proof (q_inv_step tid _ _ Hg Hi1) as Hi2. split; [done|].
    destruct (n =? 0) eqn:En; bool_split; wp_step; (split_and!; [done|apply Hi2|]); [done|].
    intros p [= <-] _. exists r. split_and!; [done..|]. exists (reads s1). split; [by apply Hn|].
    trans (reads s0); by eapply others_reads.
  - intros. unfold PutResult. wp_step; pose proof (q_inv_others tid _ _ HR Hi) as Hi0; [done|].
    assert (Hg := upsert_step tid eid st sh b re exp s0 Hi0). split; [done|]. by eapply q_inv_step.
  - intros d limit ttl. unfold Claim. wp_step. wp_step. wp_step.
    wp_step; pose proof (q_inv_others tid _ _ HR Hi) as Hi0; [done|]. split; [apply items_step|].
    assert (Hi1 : q_inv (update_items (fun it => bool_decide (it_Status it = statusInflight) && (it_LeaseUntil it <=? t))
                   (with_status statusReady) s0)) by (eapply q_inv_step; [apply (items_step tid)|done]).
    wp_step. wp_step; pose proof (q_inv_others tid _ _ HR0 Hi1) as Hi2; [done|]. by apply claim_rows_wp.
Qed.

(** ** Authenticity of deliveries *)

Definition item_msg (it : item) : string :=
  mac_msg (it_EnrollmentID it) (it_PubkeyHash it) (it_RequestJWS it) (it_RetrievalSecretHash it).
Definition cand_msg (c : Candidate) : string :=
  mac_msg (c_EnrollmentID c) (c_PubkeyHash c) (c_RequestJWS c) (c_RetrievalSecretHash c).

(** Every row whose code verifies carries a message a key holder signed. *)
Definition authentic (d : Durable) (signed : string -> Prop) (s : QStore) : Prop :=
  forall it, it ∈ items s -> it_MAC it = mac hmac d it -> signed (item_msg it).

Lemma update_items_in f g s it : it ∈ items (update_items f g s) <-> exists x, x ∈ items s /\ it = if f x then g x else x.
Proof.
  cbn. change (map ?h ?l) with (h <$> l). rewrite list_elem_of_fmap.
  split; [intros (x & -> & Hx); by exists x|intros (x & Hx & ->); by exists x].
Qed.

Lemma claim_rows_authentic T R d ttl (signed : string -> Prop) rows s :
  (forall it, it ∈ rows -> it_MAC it = mac hmac d it -> signed (item_msg it)) ->
  wpt T R (fun _ _ => True) (claim_rows hmac d ttl rows)
    (fun res _ => forall out l, res = Ok out -> l ∈ out -> signed (cand_msg (l_Candidate l))) s.
Proof.
  revert s. induction rows as [|it rows IH]; intros s Hall; cbn [claim_rows].
  { wp_step. intros out l [= <-] Hl. by apply elem_of_nil in Hl. }
  assert (Htl : forall x, x ∈ rows -> it_MAC x = mac hmac d x -> signed (item_msg x)) by (intros; apply Hall; [by constructor|done]).
  destruct (decide _) as [_|Hmac%dec_stable].
  - wp_step. wp_step. wp_step; [by apply IH|]. split; [done|]. by apply IH.
  - assert (Hit : signed (item_msg it)) by (apply Hall; [constructor|done]).
    wp_step. wp_step. wp_step. wp_step.
    assert (Hrest : forall (n : result qerr Z) s1, wpt T R (fun _ _ => True)
       (out ← claim_rows hmac d ttl rows;
        mret (match n with
              | Ok n => if n =? 0 then out else mkLeased (it_ID it) (candidate_of it) (it_Attempts it + 1) :: out
              | Err _ => out
              end)) (fun res _ => forall out l, res = Ok out -> l ∈ out -> signed (cand_msg (l_Candidate l))) s1).
    { intros n s1. wp_step. eapply wp_mono; [by apply IH|]. intros [out|e] s2 _ Ho; [|done]. wp_step.
      intros out' l [= <-] Hl. destruct n as [n|]; [destruct (n =? 0)|]; [by eapply Ho| |by eapply Ho].
      apply elem_of_cons in Hl as [->|Hl]; [done|by eapply Ho]. }
    wp_step; [exact (Hrest (Err Q_Fault) _)|]. split; [done|]. apply (Hrest (Ok _)).
Qed.

Lemma mac_msg_inj a b c d a' b' c' d' :
  Forall (fun f => len f < 2 ^ 64) [a; b; c; d] -> Forall (fun f => len f < 2 ^ 64) [a'; b'; c'; d'] ->
  mac_msg a b c d = mac_msg a' b' c' d' -> a = a' /\ b = b' /\ c = c' /\ d = d'.
Proof.
  intros Hf Hf' H. unfold mac_msg in H.
  repeat match goal with HF : Forall _ (_ :: _) |- _ => apply Forall_cons in HF as [? HF] end.
  apply writeField_inj in H as [Heq1 H]; [|done..]. apply writeField_inj in H as [Heq2 H]; [|done..].
  apply writeField_inj in H as [Heq3 H]; [|done..]. by apply writeField_inj in H as [Heq4 H]; [|done..].
Qed.

(** Core processes only messages a key holder published. Whatever else
    happens to the queue file between the calls, as long as rows whose code
    verifies carry signed messages (nobody forges a code), every candidate [Claim]
    hands out carries a signed message; and a signed message determines the
    enrollment id, the public key hash, the request and the secret hash. *)
Theorem delivered_are_authentic T R d limit ttl (signed : string -> Prop) s :
  stable R (authentic d signed) -> authentic d signed s ->
  wpt T R (fun _ _ => True) (Claim hmac d limit ttl)
    (fun res _ => forall out l, res = Ok out -> l ∈ out -> signed (cand_msg (l_Candidate l))) s /\
  (forall c c', Forall (fun f => len f < 2 ^ 64) [c_EnrollmentID c; c_PubkeyHash c; c_RequestJWS c; c_RetrievalSecretHash c] ->
     Forall (fun f => len f < 2 ^ 64) [c_EnrollmentID c'; c_PubkeyHash c'; c_RequestJWS c'; c_RetrievalSecretHash c'] ->
     cand_msg c = cand_msg c' ->
     c_EnrollmentID c = c_EnrollmentID c' /\ c_PubkeyHash c = c_PubkeyHash c' /\ c_RequestJWS c = c_RequestJWS c' /\
     c_RetrievalSecretHash c = c_RetrievalSecretHash c').
Proof.
  intros HR Ha. split; [|intros; by apply mac_msg_inj].
  unfold Claim. wp_step. wp_step. wp_step. wp_step; [done|]. split; [done|].
  assert (Ha1 : authentic d signed (update_items (fun it => bool_decide (it_Status it = statusInflight) && (it_LeaseUntil it <=? t))
     (with_status statusReady) s0)).
  { intros it (x & Hx & ->)%update_items_in Hm. pose proof (HR _ _ HR0 Ha x Hx) as Hs. by destruct (_ && _); apply Hs. }
  wp_step. wp_step; [done|]. apply claim_rows_authentic. intros it Hit.
  apply (HR _ _ HR1 Ha1). apply list_elem_of_In. eapply (proj1 (filter_In _ _ _)).
  apply list_elem_of_In. eapply subseteq_take. exact Hit.
Qed.

(** ** Delivery *)

Definition leased (it : item) : Leased := mkLeased (it_ID it) (candidate_of it) (it_Attempts it + 1).
Definition verifies (d : Durable) (it : item) : bool := bool_decide (it_MAC it = mac hmac d it).

Lemma ready_unique s it : NoDup (it_ID <$> items s) -> it ∈ items s -> it_Status it = statusReady ->
  List.filter (ready_id (it_ID it)) (items s) = [it].
Proof.
  induction (items s) as [|x l IH]; intros Hnd Hin Hst; [by apply elem_of_nil in Hin|].
  cbn in *. apply NoDup_cons in Hnd as [Hx Hnd]. apply elem_of_cons in Hin as [->|Hin].
  - unfold ready_id at 1. rewrite Z.eqb_refl, bool_decide_true by done. cbn. f_equal.
    apply elem_of_nil_inv. intros y Hy. apply list_elem_of_In, filter_In in Hy as [Hy Hr]. unfold ready_id in Hr. bool_split.
    apply Hx. rewrite <- H. apply list_elem_of_fmap_2. by apply list_elem_of_In.
  - unfold ready_id at 1. rewrite (proj2 (Z.eqb_neq _ _)); [by apply IH|].
    intros E. apply Hx. rewrite E. by apply list_elem_of_fmap_2.
Qed.

Lemma update_ids f g s : (forall x, it_ID (g x) = it_ID x) -> it_ID <$> items (update_items f g s) = it_ID <$> items s.
Proof. intros Hg. cbn. induction (items s) as [|x l IH]; [done|]. cbn. rewrite IH. destruct (f x); by rewrite ?Hg. Qed.

Lemma claim_rows_quiet d ttl rows t n s :
  NoDup (it_ID <$> items s) -> NoDup (it_ID <$> rows) ->
  (forall it, it ∈ rows -> it ∈ items s /\ it_Status it = statusReady) ->
  exists n' s', claim_rows hmac d ttl rows (quiet t) n s = (Ok (map leased (List.filter (verifies d) rows)), n', s').
Proof.
  revert n s. induction rows as [|it rows IH]; intros n s Hnd Hrd Hall; [by exists n, s|].
  cbn in Hrd. apply NoDup_cons in Hrd as [Hit Hrd]. destruct (Hall it ltac:(constructor)) as [Hin Hst].
  assert (Hkeep : forall f g, (forall x, it_ID (g x) = it_ID x) -> (forall x, f x = true -> it_ID x = it_ID it) ->
    forall x, x ∈ rows -> x ∈ items (update_items f g s) /\ it_Status x = statusReady).
  { intros f g Hg Hf x Hx. destruct (Hall x ltac:(by constructor)) as [Hxi Hxs]. split; [|done].
    apply update_items_in. exists x. split; [done|]. destruct (f x) eqn:E; [|done]. exfalso. apply Hit.
    rewrite <- (Hf x E). by apply list_elem_of_fmap_2. }
  cbn [claim_rows List.filter]. unfold verifies at 1. destruct (decide (it_MAC it <> mac hmac d it)) as [Hm|Hm%dec_stable].
  - rewrite bool_decide_false by done. unfold ignore, attempt, exec, mbind, M_bind. cbn [fault quiet interfere mret M_ret].
    apply IH; [rewrite update_ids by done; done|done|]. apply Hkeep; [done|]. intros x E. by bool_split.
  - rewrite bool_decide_true by done. unfold attempt, exec, now, mbind, M_bind. cbn [fault quiet interfere clk].
    rewrite (ready_unique s it Hnd Hin Hst). cbn [length].
    edestruct (IH (S (S n))) as (n' & s' & Heq); [| |
      apply (Hkeep (ready_id (it_ID it)) (fun x => with_lease statusInflight (it_Attempts x + 1) (t + ttl) x));
        [done|intros x E; unfold ready_id in E; by bool_split]|].
    + by rewrite update_ids.
    + done.
    + rewrite Heq. by exists n', s'.
Qed.

(** Delivery. Without faults, a [Claim] hands out, in queue order, exactly the
    first [limit] messages that are ready or whose lease ran out and whose code
    verifies; so a waiting message is delivered, and delivered again when its
    worker dies. *)
Theorem claim_delivers d limit ttl t s : NoDup (it_ID <$> items s) ->
  let available it := bool_decide (it_Status it = statusReady) ||
                      (bool_decide (it_Status it = statusInflight) && (it_LeaseUntil it <=? t)) in
  (run t (Claim hmac d limit ttl) s).1 =
  Ok (map leased (List.filter (verifies d) (map (with_status statusReady) (take limit (List.filter available (items s)))))).
Proof.
  intros Hnd available. unfold run, Claim, now, exec, query, mbind, M_bind. cbn [fault quiet interfere clk].
  set (s1 := update_items _ _ s).
  assert (Hrows : List.filter (fun it => bool_decide (it_Status it = statusReady)) (items s1) =
                  map (with_status statusReady) (List.filter available (items s))).
  { subst s1. cbn [items update_items set_items]. clear Hnd. induction (items s) as [|x l IH]; [done|]. cbn [map List.filter].
    assert (Hcase : available x = bool_decide (it_Status (if bool_decide (it_Status x = statusInflight) && (it_LeaseUntil x <=? t)
        then with_status statusReady x else x) = statusReady)).
    { unfold available. destruct (_ && _) eqn:E; [by rewrite orb_true_r|by rewrite orb_false_r]. }
    rewrite <- Hcase. destruct (available x) eqn:Ea; [|done]. cbn [map]. f_equal; [|done].
    unfold available in Ea. destruct (_ && _) eqn:E; [done|]. rewrite orb_false_r in Ea. bool_split.
    destruct x; cbn in *. by subst. }
  rewrite Hrows. rewrite <- fmap_take. change (?f <$> ?l) with (map f l).
  set (rows := map _ (take limit _)).
  assert (Hsub : forall it, it ∈ rows -> it ∈ items s1 /\ it_Status it = statusReady).
  { intros it Hit. assert (Hin : it ∈ map (with_status statusReady) (List.filter available (items s))).
    { subst rows. eapply (subseteq_take limit). rewrite <- fmap_take. exact Hit. }
    rewrite <- Hrows in Hin. apply list_elem_of_In, filter_In in Hin as [Hin Hst]. bool_split.
    split; [by apply list_elem_of_In|done]. }
  assert (Hnd1 : NoDup (it_ID <$> items s1)) by (subst s1; by rewrite update_ids).
  assert (Hndr : NoDup (it_ID <$> rows)).
  { subst rows. eapply (sublist_NoDup _ (it_ID <$> items s)); [exact Hnd|].
    change (map ?f ?l) with (f <$> l). rewrite <- list_fmap_compose. change (it_ID ∘ with_status statusReady) with it_ID.
    apply fmap_sublist. etrans; [apply sublist_take|]. clear. induction (items s) as [|x l IH]; cbn; [constructor|].
    destruct (available x); [by apply sublist_skip|by apply sublist_cons]. }
  destruct (claim_rows_quiet d ttl rows t 3 s1 Hnd1 Hndr Hsub) as (n' & s' & ->). done.
Qed.
End properties.

(** ** A queue with one waiting enrollment *)

Definition demo_hmac (k m : string) : string := k +:+ m.
Definition demo_hash (s : string) : string := "h:" +:+ s.
Definition demo_durable : Durable := mkDurable "0123456789abcdef" 10000 1.
Definition demo_candidate : Candidate := mkCandidate "enr-1" "pk" "jws" "h:s3cret" 5.
Definition demo_published : QStore := (run 5 (Publish demo_hmac demo_durable demo_candidate) empty_queue).2.
Definition demo_issued : QStore :=
  (run 6 (PutResult "enr-1" "issued" "h:s3cret" "bundle" "" 100) demo_published).2.
Definition demo_signed (m : string) : Prop := m = cand_msg demo_candidate.

Lemma demo_q_inv : q_inv demo_issued.
Proof.
  eapply (q_inv_step 0); [|eapply (q_inv_step 0 empty_queue demo_published); [by apply qs_items|]].
  - apply upsert_step. eapply (q_inv_step 0 empty_queue demo_published); [by apply qs_items|].
    split; cbn; try (by constructor); intros; match goal with H : _ ∈ [] |- _ => by apply elem_of_nil in H end.
  - split; cbn; try (by constructor); intros; match goal with H : _ ∈ [] |- _ => by apply elem_of_nil in H end.
Qed.

Lemma bundle_is_read_once_witness :
  (run 7 (GetResult demo_hash 0 "enr-1" "s3cret") demo_issued).1 = Ok (mkPoll "issued" "bundle" "") /\
  wpt (fun _ => True) (others_q 0) (q_step 0) (GetResult demo_hash 0 "enr-1" "s3cret") (fun res s' =>
     q_inv s' /\ NoDup (reads s').*1 /\ forall p, res = Ok p -> p_Status p = "issued" ->
       exists r, rs_EnrollmentID r = "enr-1" /\ rs_SecretHash r = demo_hash "s3cret" /\ p_Bundle p = rs_Bundle r /\
                 exists l, reads s' = l ++ [(rs_ID r, 0%nat)] /\ reads demo_issued `prefix_of` l) demo_issued.
Proof.
  split; [vm_compute; reflexivity|].
  apply (bundle_is_read_once demo_hmac demo_hash (fun _ => True) 0 demo_issued demo_q_inv).
Defined.

Lemma delivered_are_authentic_witness :
  wpt (fun _ => True) eq (fun _ _ => True) (Claim demo_hmac demo_durable 8 50)
    (fun res _ => forall out l, res = Ok out -> l ∈ out -> demo_signed (cand_msg (l_Candidate l))) demo_published.
Proof.
  apply (delivered_are_authentic demo_hmac (fun _ => True) eq demo_durable 8 50 demo_signed demo_published).
  - by intros s s' <-.
  - intros it Hit _. vm_compute in Hit. apply list_elem_of_singleton in Hit as ->. vm_compute. reflexivity.
Defined.

Lemma claim_delivers_witness :
  (run 7 (Claim demo_hmac demo_durable 8 50) demo_published).1 = Ok [mkLeased 1 demo_candidate 1].
Proof.
  rewrite (claim_delivers demo_hmac demo_durable 8 50 7 demo_published); [vm_compute; reflexivity|].
  vm_compute. apply NoDup_singleton.
Defined.

(** [n] deliveries whose worker dies each time: the lease runs out. *)
Fixpoint crashes (n : nat) (t : Z) (s : QStore) : QStore :=
  match n with
  | O => s
  | S n => crashes n (t + 100) (run t (Claim demo_hmac demo_durable 8 50) s).2
  end.

(** The poison threshold does not apply to messages whose worker dies. With
    [MaxAttempts] 1, a message whose worker never answers is claimed again after
    every lease: after five crashes the next [Claim] hands it out with attempt
    number 6. *)
Theorem crashing_message_is_redelivered_forever :
  q_maxAttempts demo_durable = 1 /\
  (run 1000 (Claim demo_hmac demo_durable 8 50) (crashes 5 10 demo_published)).1 = Ok [mkLeased 1 demo_candidate 6].
Proof. vm_compute. done. Qed.

(** [Publish] on every branch, alone with faults: it refuses at capacity and
    on a known enrollment id without changing anything, and otherwise appends one
    ready row that verifies and leaves the depth within the limit. *)
Theorem publish_every_branch hmac d c s :
  let depth s := Z.of_nat (length (List.filter (fun it => open_status (it_Status it)) (items s))) in
  solo (Publish hmac d c) (fun res s' => match res with
    | Ok _ => depth s < q_maxDepth d /\ depth s' <= q_maxDepth d /\ exists it, items s' = items s ++ [it] /\
        candidate_of it = c /\ it_Status it = statusReady /\ verifies hmac d it = true /\
        forall x, x ∈ items s -> it_EnrollmentID x <> c_EnrollmentID c
    | Err Q_Backpressure => s' = s /\ q_maxDepth d <= depth s
    | Err Q_Duplicate => s' = s /\ exists x, x ∈ items s /\ it_EnrollmentID x = c_EnrollmentID c
    | Err e => s' = s /\ e = Q_Fault
    end) s.
Proof.
  intros depth. unfold Publish, Depth. wp_step. wp_step; [done|]. destruct (_ <=? _) eqn:E; bool_split; [by wp_step|].
  wp_step; [done|]. destruct (existsb _ _) eqn:Ex.
  - apply existsb_elem in Ex as (x & Hx & He). bool_split. eauto.
  - split; [done|]. rewrite existsb_elem_false in Ex. split; [done|]. split.
    + subst depth. cbn [items set_items]. rewrite List.filter_app, length_app.
      change (List.filter _ [new_item hmac d c (it_seq s)]) with [new_item hmac d c (it_seq s)]. cbn [length]. lia.
    + exists (new_item hmac d c (it_seq s)). split_and!; [done|by destruct c|done| |].
      * unfold verifies. by rewrite bool_decide_true.
      * intros x Hx He. specialize (Ex x Hx). by rewrite bool_decide_true in Ex.
Qed.
