(* ===== verification/Nonce.v ===== *)
(** * internal/nonce and internal/replay: fresh, bound, single-use nonces

    The gateway mints a stateless nonce bound to the requester's key; Core verifies
    freshness and authenticity and then records it, so that an enrollment request is
    accepted once across all Core processes. HMAC is a parameter; base64url is the
    Go decoder's language (line breaks ignored, trailing bits not checked). *)

From S2P Require Import Prelude Db Bytes.
From stdpp Require Import prelude strings list gmap relations.
From Stdlib Require Import ZArith Lia Ascii.
Open Scope Z_scope.

(** ** base64.RawURLEncoding *)

Definition b64_char (v : Z) : ascii :=
  if v <? 26 then byte_of (65 + v)
  else if v <? 52 then byte_of (97 + (v - 26))
  else if v <? 62 then byte_of (48 + (v - 52))
  else if v =? 62 then "-"%char else "_"%char.

Definition b64_val (c : ascii) : option Z :=
  let x := of_byte c in
  if (65 <=? x) && (x <=? 90) then Some (x - 65)
  else if (97 <=? x) && (x <=? 122) then Some (x - 97 + 26)
  else if (48 <=? x) && (x <=? 57) then Some (x - 48 + 52)
  else if x =? 45 then Some 62
  else if x =? 95 then Some 63
  else None.

Fixpoint EncodeToString (s : string) : string :=
  match s with
  | EmptyString => EmptyString
  | String a EmptyString =>
      let n := of_byte a in String (b64_char (n / 4)) (String (b64_char (n mod 4 * 16)) EmptyString)
  | String a (String b EmptyString) =>
      let n := of_byte a * 256 + of_byte b in
      String (b64_char (n / 1024)) (String (b64_char (n / 16 mod 64)) (String (b64_char (n mod 16 * 4)) EmptyString))
  | String a (String b (String c s)) =>
      let n := of_byte a * 65536 + of_byte b * 256 + of_byte c in
      String (b64_char (n / 262144)) (String (b64_char (n / 4096 mod 64))
        (String (b64_char (n / 64 mod 64)) (String (b64_char (n mod 64)) (EncodeToString s))))
  end.

(** Line breaks are skipped. *)
Definition is_break (c : ascii) : bool := (of_byte c =? 10) || (of_byte c =? 13).

Fixpoint skip_breaks (s : string) : string :=
  match s with
  | EmptyString => EmptyString
  | String c s => if is_break c then skip_breaks s else String c (skip_breaks s)
  end.

Fixpoint decode_quanta (s : string) : option string :=
  match s with
  | EmptyString => Some EmptyString
  | String _ EmptyString => None
  | String a (String b EmptyString) =>
      va ← b64_val a; vb ← b64_val b;
      let n := va * 64 + vb in Some (String (byte_of (n / 16)) EmptyString)
  | String a (String b (String c EmptyString)) =>
      va ← b64_val a; vb ← b64_val b; vc ← b64_val c;
      let n := va * 4096 + vb * 64 + vc in
      Some (String (byte_of (n / 1024)) (String (byte_of (n / 4)) EmptyString))
  | String a (String b (String c (String d s))) =>
      va ← b64_val a; vb ← b64_val b; vc ← b64_val c; vd ← b64_val d;
      let n := va * 262144 + vb * 4096 + vc * 64 + vd in
      rest ← decode_quanta s;
      Some (String (byte_of (n / 65536)) (String (byte_of (n / 256)) (String (byte_of n) rest)))
  end.

Definition DecodeString (s : string) : option string := decode_quanta (skip_breaks s).

Lemma b64_val_char v : 0 <= v < 64 -> b64_val (b64_char v) = Some v /\ is_break (b64_char v) = false.
Proof.
  intros Hv.
  assert (Hall : forallb (fun k => let v := Z.of_nat k in
            bool_decide (b64_val (b64_char v) = Some v) && negb (is_break (b64_char v))) (seq 0 64) = true) by (vm_compute; reflexivity).
  rewrite forallb_elem in Hall. specialize (Hall (Z.to_nat v) ltac:(apply elem_of_seq; lia)). cbv zeta in Hall.
  rewrite Z2Nat.id in Hall by lia. by bool_split.
Qed.

Lemma byte_of_eq v c : v mod 256 = of_byte c -> byte_of v = c.
Proof. intros H. rewrite <- (byte_of_of_byte c), <- H. unfold byte_of. by rewrite Z.mod_mod by lia. Qed.

(** Induction three bytes at a time. *)
Lemma string_ind3 (P : string -> Prop) :
  P EmptyString -> (forall a, P (String a EmptyString)) -> (forall a b, P (String a (String b EmptyString))) ->
  (forall a b c s, P s -> P (String a (String b (String c s)))) -> forall s, P s.
Proof.
  intros H0 H1 H2 H3. fix IH 1. intros [|a [|b [|c s]]]; [exact H0|apply H1|apply H2|apply H3, IH].
Qed.

(** Decoding what was encoded. *)
Lemma decode_encode s : DecodeString (EncodeToString s) = Some s.
Proof.
  unfold DecodeString.
  assert (Hb : forall v, 0 <= v < 64 -> forall r, skip_breaks (String (b64_char v) r) = String (b64_char v) (skip_breaks r)).
  { intros v Hv r. cbn [skip_breaks]. by rewrite (proj2 (b64_val_char v Hv)). }
  induction s as [|a|a b|a b c s IH] using string_ind3; [done| | |]; cbn [EncodeToString];
    pose proof (of_byte_bounds a); try pose proof (of_byte_bounds b); try pose proof (of_byte_bounds c).
  - set (n := of_byte a) in *.
    assert (Hd1 : 0 <= n / 4 < 64) by (Z.div_mod_to_equations; lia).
    assert (Hd2 : 0 <= n mod 4 * 16 < 64) by (Z.div_mod_to_equations; lia).
    rewrite !Hb by done. cbn [skip_breaks decode_quanta].
    rewrite (proj1 (b64_val_char _ Hd1)), (proj1 (b64_val_char _ Hd2)). cbn [mbind option_bind].
    do 2 f_equal. apply byte_of_eq. fold n. Z.div_mod_to_equations; lia.
  - set (n := of_byte a * 256 + of_byte b).
    assert (Hd1 : 0 <= n / 1024 < 64) by (Z.div_mod_to_equations; lia).
    assert (Hd2 : 0 <= n / 16 mod 64 < 64) by (Z.div_mod_to_equations; lia).
    assert (Hd3 : 0 <= n mod 16 * 4 < 64) by (Z.div_mod_to_equations; lia).
    rewrite !Hb by done. cbn [skip_breaks decode_quanta].
    rewrite (proj1 (b64_val_char _ Hd1)), (proj1 (b64_val_char _ Hd2)), (proj1 (b64_val_char _ Hd3)). cbn [mbind option_bind].
    assert (En : n / 1024 * 4096 + n / 16 mod 64 * 64 + n mod 16 * 4 = n * 4) by (Z.div_mod_to_equations; lia).
    rewrite En. f_equal. f_equal; [|f_equal]; apply byte_of_eq; Z.div_mod_to_equations; lia.
  - set (n := of_byte a * 65536 + of_byte b * 256 + of_byte c).
    assert (Hd1 : 0 <= n / 262144 < 64) by (Z.div_mod_to_equations; lia).
    assert (Hd2 : 0 <= n / 4096 mod 64 < 64) by (Z.div_mod_to_equations; lia).
    assert (Hd3 : 0 <= n / 64 mod 64 < 64) by (Z.div_mod_to_equations; lia).
    assert (Hd4 : 0 <= n mod 64 < 64) by (Z.div_mod_to_equations; lia).
    rewrite !Hb by done. cbn [skip_breaks decode_quanta].
    rewrite (proj1 (b64_val_char _ Hd1)), (proj1 (b64_val_char _ Hd2)), (proj1 (b64_val_char _ Hd3)), (proj1 (b64_val_char _ Hd4)).
    cbn [mbind option_bind]. rewrite IH. cbn [mbind option_bind].
    assert (En : n / 262144 * 262144 + n / 4096 mod 64 * 4096 + n / 64 mod 64 * 64 + n mod 64 = n) by (Z.div_mod_to_equations; lia).
    rewrite En. f_equal. f_equal; [|f_equal; [|f_equal]]; apply byte_of_eq; Z.div_mod_to_equations; lia.
Qed.

(** ** internal/nonce *)

Definition label : string := "ncp-nonce-v1".
Definition macLen : nat := 16.
Definition tsLen : nat := 8.
Definition second : Z := 1000000000.
Definition DefaultTTL : Z := 60 * second.
Definition DefaultMaxSkew : Z := 30 * second.

Inductive nerr : Type := N_Malformed | N_Expired | N_BadMAC | N_NoKey | N_ShortKey.

Record Keyring : Type := mkKeyring { k_keys : list string; k_ttl : Z; k_maxSkew : Z }.

Definition NewKeyring (keys : list string) (ttl maxSkew : Z) : result nerr Keyring :=
  if decide (keys = []) then Err N_NoKey
  else if existsb (fun k => len k <? 16) keys then Err N_ShortKey
  else Ok (mkKeyring keys (if ttl <=? 0 then DefaultTTL else ttl) (if maxSkew <=? 0 then DefaultMaxSkew else maxSkew)).

(** [s[:n]] and [s[n:]] *)
Fixpoint take_s (n : nat) (s : string) : string :=
  match n, s with S n, String c s => String c (take_s n s) | _, _ => EmptyString end.
Fixpoint drop_s (n : nat) (s : string) : string :=
  match n, s with S n, String _ s => drop_s n s | O, s => s | S _, EmptyString => EmptyString end.

Section nonce.
Context (hmac : string -> string -> string).

Definition mac (key tsb binding : string) : string := take_s macLen (hmac key (label +:+ tsb +:+ binding)).

(** [Mint] at unix second [ts]: the nonce and its expiry in nanoseconds. *)
Definition Mint (k : Keyring) (ts : Z) (binding : string) : option (string * Z) :=
  match k_keys k with
  | [] => None            (* index out of range *)
  | key :: _ => let tsb := be8 (u64 ts) in
                Some (EncodeToString (tsb +:+ mac key tsb binding), ts * second + k_ttl k)
  end.

Definition Verify (k : Keyring) (nowUnix : Z) (nonceB64 binding : string) : result nerr unit :=
  match DecodeString nonceB64 with
  | None => Err N_Malformed
  | Some raw =>
      if negb (len raw =? Z.of_nat (tsLen + macLen)) then Err N_Malformed
      else
        let ts := i64 (of_be 0 (take_s tsLen raw)) in
        let got := drop_s tsLen raw in
        let age := i64 (nowUnix - ts) in
        if (k_ttl k / second <? age) || (age <? - (k_maxSkew k / second)) then Err N_Expired
        else if existsb (fun key => bool_decide (got = mac key (take_s tsLen raw) binding)) (k_keys k)
        then Ok () else Err N_BadMAC
  end.
End nonce.

(** ** internal/replay *)

(** [Cache]: nonce to expiry. *)
Module Cache.
Definition Observe (ttl now : Z) (nonce : string) (seen : gmap string Z) : bool * gmap string Z :=
  match seen !! nonce with
  | Some exp => if now <? exp then (false, seen)
                else (true, <[nonce := now + ttl]> (filter (fun x => now < x.2) seen))
  | None => (true, <[nonce := now + ttl]> (filter (fun x => now < x.2) seen))
  end.
End Cache.

Inductive nrerr : Type := NR_Fault.
#[export] Instance nrerr_db : DbError nrerr := NR_Fault.

(** The nonce_replays table and this process's time of the last sweep. *)
Record NStore : Type := mkNStore { nonce_replays : gmap string Z; lastGC : option Z }.

Definition gcInterval : Z := 60 * second.

(** [SQLStore.GC]: rows deleted. *)
Definition GC : M NStore nrerr Z :=
  t ← now;
  exec (fun s => (Z.of_nat (size (filter (fun x => x.2 < t) (nonce_replays s))),
                  mkNStore (filter (fun x => ~ x.2 < t) (nonce_replays s)) (lastGC s))).

(** The check and the update of [lastGC] are under the mutex. *)
Definition maybeGC : M NStore nrerr unit :=
  t ← now;
  t' ← now;
  due ← mem (fun s =>
    if match lastGC s with Some l => t - l <? gcInterval | None => false end
    then (false, s) else (true, mkNStore (nonce_replays s) (Some t')));
  if due : bool then ignore (_ ← GC; mret ()) else mret ().

(** [INSERT ... ON CONFLICT DO NOTHING]: rows affected. *)
Definition insert_nonce (nonce : string) (exp : Z) (s : NStore) : Z * NStore :=
  match nonce_replays s !! nonce with
  | Some _ => (0, s)
  | None => (1, mkNStore (<[nonce := exp]> (nonce_replays s)) (lastGC s))
  end.

Definition Observe (ttl : Z) (nonce : string) : M NStore nrerr bool :=
  _ ← maybeGC;
  t ← now;
  n ← exec (insert_nonce nonce (t + ttl));
  mret (n =? 1).

(** The admission check of [Core.verify]: freshness and binding first, then single
    use. *)
Inductive admission : Type := Accepted | BadNonce (e : nerr) | Replayed.

Definition accept_nonce (hmac : string -> string -> string) (k : Keyring) (ttl : Z) (nonce binding : string) : M NStore nrerr admission :=
  t ← now;
  match Verify hmac k (t / second) nonce binding with
  | Err e => mret (BadNonce e)
  | Ok _ => first ← Observe ttl nonce; mret (if first : bool then Accepted else Replayed)
  end.

(** ** Freshness and binding *)

Lemma take_app_s n a b : String.length a = n -> take_s n (a +:+ b) = a.
Proof. revert n. induction a as [|c a IH]; intros n <-; [by destruct b|]. rewrite str_app_cons. cbn. f_equal. by apply IH. Qed.

Lemma drop_app_s n a b : String.length a = n -> drop_s n (a +:+ b) = b.
Proof. revert n. induction a as [|c a IH]; intros n <-; [by destruct b|]. rewrite str_app_cons. cbn. by apply IH. Qed.

Lemma take_drop_s n s : take_s n s +:+ drop_s n s = s.
Proof. revert s. induction n as [|n IH]; intros [|c s]; try done. cbn [take_s drop_s]. rewrite str_app_cons. by rewrite IH. Qed.

Lemma take_s_length n s : (n <= String.length s)%nat -> String.length (take_s n s) = n.
Proof. revert s. induction n as [|n IH]; intros [|c s] H; cbn in *; [done|done|lia|]. rewrite IH; lia. Qed.

Lemma of_be_be8 v : of_be 0 (be8 (u64 v)) = u64 v.
Proof.
  unfold be8. rewrite of_be_be; [|apply Z.mod_pos_bound; lia]. change (256 ^ Z.of_nat 8) with (2 ^ 64).
  unfold u64. rewrite Z.mod_mod; lia.
Qed.

(** Eight bytes are the big-endian form of the number they spell. *)
Lemma of_be_app acc s : of_be acc s = acc * 256 ^ len s + of_be 0 s.
Proof.
  revert acc. induction s as [|c s IH]; intros acc; [change (256 ^ len EmptyString) with 1; cbn [of_be]; lia|].
  cbn [of_be]. rewrite IH, (IH (0 * 256 + of_byte c)).
  unfold len. cbn [String.length]. rewrite Nat2Z.inj_succ, Z.pow_succ_r by lia. ring.
Qed.

Lemma of_be_bounds s : 0 <= of_be 0 s < 256 ^ len s.
Proof.
  induction s as [|c s IH]; [change (256 ^ len EmptyString) with 1; cbn [of_be]; lia|].
  cbn [of_be]. rewrite of_be_app. pose proof (of_byte_bounds c).
  unfold len in *. cbn [String.length]. rewrite Nat2Z.inj_succ, Z.pow_succ_r by lia. nia.
Qed.

Lemma be_of_be n s : String.length s = n -> be n (of_be 0 s) = s.
Proof.
  revert n. induction s as [|c s IH]; intros n <-; [done|]. cbn [String.length be of_be]. rewrite of_be_app.
  pose proof (of_be_bounds s) as Hb. pose proof (of_byte_bounds c). unfold len in *.
  set (p := 256 ^ Z.of_nat (String.length s)) in *. f_equal.
  - apply byte_of_eq. rewrite Z.div_add_l by lia. rewrite (Z.div_small (of_be 0 s)) by lia.
    rewrite Z.add_0_r. apply Z.mod_small. lia.
  - transitivity (be (String.length s) (of_be 0 s)); [|by apply IH].
    clear -Hb. revert Hb. set (v := of_be 0 s). generalize (0 * 256 + of_byte c) as k. intros k.
    assert (forall m, (m <= String.length s)%nat -> be m (k * p + v) = be m v) as Hm.
    { induction m as [|m IH]; intros Hm; [done|]. cbn [be]. f_equal; [|apply IH; lia]. apply byte_of_eq.
      rewrite of_byte_byte_of. subst p.
      replace (Z.of_nat (String.length s)) with (Z.of_nat m + (Z.of_nat (String.length s - m))) by lia.
      rewrite Z.pow_add_r by lia. set (q := Z.of_nat (String.length s - m)).
      rewrite (Z.mul_comm (256 ^ Z.of_nat m)), Z.mul_assoc.
      rewrite Z.div_add_l by (apply Z.pow_nonzero; lia).
      replace q with (Z.succ (q - 1)) by lia. rewrite Z.pow_succ_r by lia.
      replace (k * (256 * 256 ^ (q - 1)) + v / 256 ^ Z.of_nat m) with (v / 256 ^ Z.of_nat m + (k * 256 ^ (q - 1)) * 256) by ring.
      apply Z.mod_add. lia. }
    intros _. by apply Hm.
Qed.

Section freshness.
Context (hmac : string -> string -> string).

(** What an accepted nonce is, with the clock away from the ends of [int64]. *)
Lemma Verify_sound k nowUnix nonce binding :
  0 <= k_ttl k / second < 2 ^ 62 -> 0 <= k_maxSkew k / second <= 2 ^ 62 -> 0 <= nowUnix < 2 ^ 62 ->
  Verify hmac k nowUnix nonce binding = Ok () ->
  exists ts key, key ∈ k_keys k /\ int64_ok ts /\
    DecodeString nonce = Some (be8 (u64 ts) +:+ mac hmac key (be8 (u64 ts)) binding) /\
    - (k_maxSkew k / second) <= nowUnix - ts <= k_ttl k / second.
Proof.
  intros Httl Hskew Hnow H. unfold Verify in H. destruct (DecodeString nonce) as [raw|]; [|done].
  destruct (negb _) eqn:El; [done|]. bool_split. set (v := of_be 0 (take_s tsLen raw)) in *.
  set (ts := i64 v) in *. destruct (_ || _) eqn:Ew; [done|]. bool_split.
  destruct (existsb _ _) eqn:Ex; [|done]. apply existsb_elem in Ex as (key & Hkey & Hm). bool_split.
  assert (Hlen : String.length (take_s tsLen raw) = tsLen).
  { apply take_s_length. unfold len, tsLen, macLen in *. lia. }
  pose proof (of_be_bounds (take_s tsLen raw)) as Hv. unfold len in Hv. rewrite Hlen in Hv. fold v in Hv.
  change (256 ^ Z.of_nat tsLen) with (2 ^ 64) in Hv.
  assert (Hts : int64_ok ts /\ u64 ts = v).
  { subst ts. unfold int64_ok, i64, u64. pose proof (Z.mod_pos_bound (v + 2 ^ 63) (2 ^ 64) ltac:(lia)).
    split; [lia|]. Z.div_mod_to_equations. lia. }
  destruct Hts as [Hok Hu]. exists ts, key. split_and!; [done|done| | |].
  - rewrite Hu. change (be8 v) with (be tsLen v). subst v. rewrite be_of_be by done. rewrite <- Hm. by rewrite take_drop_s.
  - unfold i64, int64_ok in *. Z.div_mod_to_equations. lia.
  - unfold i64, int64_ok in *. Z.div_mod_to_equations. lia.
Qed.

(** A minted nonce verifies within its window. For HMACs of at least 16 bytes,
    a nonce minted by the gateway at [t1] verifies at Core at [t2] for the same
    binding, under any keyring that still has the minting key, exactly when
    [t2 - t1] is within the skew and the lifetime; otherwise it has expired. *)
Theorem mint_then_verify k k' t1 t2 binding nonce exp key rest :
  (forall a b, 16 <= len (hmac a b)) -> k_keys k = key :: rest -> key ∈ k_keys k' ->
  int64_ok t1 -> int64_ok (t2 - t1) -> Mint hmac k t1 binding = Some (nonce, exp) ->
  Verify hmac k' t2 nonce binding =
    if decide (- (k_maxSkew k' / second) <= t2 - t1 <= k_ttl k' / second) then Ok () else Err N_Expired.
Proof.
  intros Hlen Hk Hin Ht1 Hd Hm. unfold Mint in Hm. rewrite Hk in Hm.
  apply (inj Some), pair_equal_spec in Hm as [<- _].
  unfold Verify. rewrite decode_encode. set (tsb := be8 (u64 t1)).
  assert (Hl : String.length tsb = tsLen) by apply be_length.
  assert (Hml : String.length (mac hmac key tsb binding) = macLen).
  { unfold mac. apply take_s_length. specialize (Hlen key (label +:+ tsb +:+ binding)). unfold len, macLen in *. lia. }
  unfold len. rewrite str_app_length, Hl, Hml, Z.eqb_refl. cbn [negb].
  rewrite take_app_s, drop_app_s by done. unfold tsb at 1 2. rewrite of_be_be8, i64_u64 by done.
  assert (Hage : i64 (t2 - t1) = t2 - t1).
  { unfold i64, int64_ok in *. rewrite Z.mod_small by lia. lia. }
  rewrite Hage. destruct (_ || _) eqn:E.
  - rewrite decide_False; [done|]. apply orb_true_iff in E as [E|E]; bool_split; lia.
  - bool_split. rewrite decide_True by lia.
    assert (existsb (fun key0 => bool_decide (mac hmac key tsb binding = mac hmac key0 tsb binding)) (k_keys k') = true) as ->; [|done].
    apply existsb_elem. exists key. split; [done|]. by apply bool_decide_eq_true.
Qed.
End freshness.

(** ** Single use *)

(** A statement of any Core process, with clock readings in [T]: a new nonce, a
    sweep, or bookkeeping of the sweeps. *)
Inductive replay_step (T : Z -> Prop) (s s' : NStore) : Prop :=
| rp_new nonce exp : nonce_replays s !! nonce = None -> nonce_replays s' = <[nonce := exp]> (nonce_replays s) -> replay_step T s s'
| rp_sweep t : T t -> nonce_replays s' = filter (fun x => ~ x.2 < t) (nonce_replays s) -> replay_step T s s'
| rp_skip : nonce_replays s' = nonce_replays s -> replay_step T s s'.

Abbreviation replay_others T := (rtc (replay_step T)).

(** A recorded nonce stays recorded until a clock passes its expiry. *)
Lemma recorded_step (T : Z -> Prop) nonce e s s' : (forall t, T t -> t <= e) ->
  replay_step T s s' -> nonce_replays s !! nonce = Some e -> nonce_replays s' !! nonce = Some e.
Proof.
  intros HT [n x Hn ->|t Ht ->| ->] Hl; [|by apply map_lookup_filter_Some; split; [|cbn; specialize (HT t Ht); lia]|done].
  rewrite lookup_insert_ne; [done|]. intros <-. congruence.
Qed.

Lemma recorded_steps (T : Z -> Prop) nonce e s s' : (forall t, T t -> t <= e) ->
  replay_others T s s' -> nonce_replays s !! nonce = Some e -> nonce_replays s' !! nonce = Some e.
Proof.
  intros HT H. apply (rtc_invariant _ (fun x => nonce_replays x !! nonce = Some e)) with (2 := H).
  intros a b Hab. by apply (recorded_step T).
Qed.

Section single_use.
Context (T : Z -> Prop).

Lemma maybeGC_wp (I : NStore -> Prop) s (Q : result nrerr unit -> NStore -> Prop) :
  (forall a b, replay_step T a b -> I a -> I b) -> I s -> (forall s', I s' -> Q (Ok ()) s') ->
  wpt T (replay_others T) (replay_step T) maybeGC Q s.
Proof.
  intros HI Hs HQ. assert (HR : forall a b, replay_others T a b -> I a -> I b).
  { intros a b H. by apply rtc_invariant with (2 := H). }
  unfold maybeGC. wp_step. wp_step. wp_step. wp_step. wp_step. wp_step. pose proof (HR _ _ HR0 Hs) as Hs0.
  destruct (match lastGC s0 with Some l => _ | None => false end).
  { split; [by apply rp_skip|]. wp_step. auto. }
  assert (Hsk : replay_step T s0 (mkNStore (nonce_replays s0) (Some t0))) by (by apply rp_skip).
  split; [done|]. pose proof (HI _ _ Hsk Hs0) as Hs1. unfold GC. wp_step. wp_step. wp_step. wp_step.
  wp_step; pose proof (HR _ _ HR1 Hs1) as Hs2; [by apply HQ|].
  assert (Hsw : replay_step T s1 (mkNStore (filter (fun x => ~ x.2 < t1) (nonce_replays s1)) (lastGC s1)))
    by (by eapply rp_sweep).
  split; [done|]. wp_step. apply HQ. by eapply HI.
Qed.

(** The insert decides. *)
Lemma Observe_wp ttl nonce s (Q : result nrerr bool -> NStore -> Prop) :
  (forall e s', Q (Err e) s') ->
  (forall s', nonce_replays s' !! nonce <> None -> Q (Ok false) s') ->
  (forall t s', T t -> nonce_replays s' !! nonce = Some (t + ttl) -> Q (Ok true) s') ->
  wpt T (replay_others T) (replay_step T) (Observe ttl nonce) Q s.
Proof.
  intros He Hf Ht. unfold Observe. wp_step. apply (maybeGC_wp (fun _ => True)); [done|done|]. intros s1 _.
  wp_step. wp_step. wp_step. wp_step; [apply He|]. unfold insert_nonce.
  destruct (nonce_replays s0 !! nonce) eqn:El.
  - split; [by apply rp_skip|]. wp_step. apply Hf. congruence.
  - split; [by eapply rp_new|]. wp_step. eapply Ht; [done|]. cbn. apply lookup_insert_eq.
Qed.
End single_use.

Lemma Observe_recorded (T : Z -> Prop) ttl nonce e s : (forall t, T t -> t <= e) -> nonce_replays s !! nonce = Some e ->
  wpt T (replay_others T) (replay_step T) (Observe ttl nonce) (fun res _ => res <> Ok true) s.
Proof.
  intros HT Hl. unfold Observe. wp_step. apply (maybeGC_wp T (fun x => nonce_replays x !! nonce = Some e)); [|done|].
  { intros a b Hab. by apply (recorded_step T). }
  intros s1 Hl1. wp_step. wp_step. wp_step. wp_step; [done|]. unfold insert_nonce.
  rewrite (recorded_steps T nonce e _ _ HT HR Hl1). split; [by apply rp_skip|]. by wp_step.
Qed.

(** The clock readings of a call that begins at [a] and takes at most [D]. *)
Definition window (a D : Z) : Z -> Prop := fun t => a <= t <= a + D.

Definition keyring_ok (k : Keyring) : Prop :=
  0 <= k_ttl k / second < 2 ^ 62 /\ 0 <= k_maxSkew k / second <= 2 ^ 62 /\ 0 <= k_ttl k /\ 0 <= k_maxSkew k.

(** Two acceptances of one nonce are close in time. *)
Lemma verify_window hmac k nonce binding t t' : keyring_ok k ->
  0 <= t / second < 2 ^ 62 -> 0 <= t' / second < 2 ^ 62 ->
  Verify hmac k (t / second) nonce binding = Ok () -> Verify hmac k (t' / second) nonce binding = Ok () ->
  t' < t + k_ttl k + k_maxSkew k + second.
Proof.
  intros (H1 & H2 & H3 & H4) Ht Ht' Hv Hv'.
  destruct (Verify_sound hmac k _ nonce binding H1 H2 Ht Hv) as (ts & key & _ & Hok & Hdec & Hw).
  destruct (Verify_sound hmac k _ nonce binding H1 H2 Ht' Hv') as (ts' & key' & _ & Hok' & Hdec' & Hw').
  rewrite Hdec in Hdec'. apply (inj Some) in Hdec'.
  apply str_app_inj in Hdec' as [Hts%be8_int64_inj _]; [|done..|unfold be8; by rewrite !be_length]. subst ts'.
  unfold second in *. Z.div_mod_to_equations. lia.
Qed.

(** C30: the text of a nonce is accepted once, across all Core processes. Let a call
    take at most [D] and the replay store remember for the nonce's lifetime plus the
    skew plus a second plus [2 D]. (a) An accepting call verified the nonce and
    recorded the text it was presented as. (b) The record survives everything the
    other processes do until its expiry. (c) Any other call that presents the same
    text, whenever it begins, does not accept it: it is recorded as long as a fresh
    verification is possible. Under any faults. The guarantee is for one spelling:
    the decoder ignores line breaks, so the same nonce spelled differently is another
    text ([respelled_nonce_is_accepted_again]). *)
Theorem nonce_text_accepted_once hmac k ttl D nonce binding :
  keyring_ok k -> 0 <= D -> k_ttl k + k_maxSkew k + second + 2 * D <= ttl ->
  (forall a s, wpt (window a D) (replay_others (window a D)) (replay_step (window a D)) (accept_nonce hmac k ttl nonce binding)
     (fun res s' => res = Ok Accepted -> exists t e, window a D t /\ Verify hmac k (t / second) nonce binding = Ok () /\
        nonce_replays s' !! nonce = Some e /\ t + ttl - D <= e) s) /\
  (forall (T : Z -> Prop) e s s', (forall t, T t -> t <= e) -> replay_others T s s' ->
     nonce_replays s !! nonce = Some e -> nonce_replays s' !! nonce = Some e) /\
  (forall t e a s, 0 <= t < 2 ^ 62 -> 0 <= a -> a + D < 2 ^ 62 -> Verify hmac k (t / second) nonce binding = Ok () -> t + ttl - D <= e ->
     (a <= t + k_ttl k + k_maxSkew k + second -> nonce_replays s !! nonce = Some e) ->
     wpt (window a D) (replay_others (window a D)) (replay_step (window a D)) (accept_nonce hmac k ttl nonce binding)
       (fun res _ => res <> Ok Accepted) s).
Proof.
  intros Hk HD Httl. split_and!.
  - intros a s. unfold accept_nonce. wp_step. wp_step. destruct (Verify _ _ _ _ _) as [[]|err] eqn:Ev; [|by wp_step].
    wp_step. apply Observe_wp; [done|by intros; wp_step|]. intros t1 s1 Ht1 Hl. wp_step. intros _.
    exists t, (t1 + ttl). split_and!; try done. unfold window in *. lia.
  - intros T e s s' HT. by apply recorded_steps.
  - intros t e a s Ht Ha Hb Hv He Hrec. unfold accept_nonce. wp_step. wp_step.
    destruct (Verify hmac k (t0 / second) nonce binding) as [[]|err] eqn:Ev; [|by wp_step].
    unfold window in *.
    assert (Hdiv : forall x, 0 <= x < 2 ^ 62 -> 0 <= x / second < 2 ^ 62).
    { intros x Hx. unfold second. Z.div_mod_to_equations. lia. }
    pose proof (verify_window hmac k nonce binding t t0 Hk (Hdiv t Ht) (Hdiv t0 ltac:(lia)) Hv Ev) as Hw.
    wp_step. eapply wp_mono; [apply (Observe_recorded _ ttl nonce e)|].
    + intros x Hx. lia.
    + apply Hrec. lia.
    + intros [[|]|err] s' _ Hres; [done|by wp_step|done].
Qed.

(** Single use is by spelling. The decoder ignores line breaks, so a nonce with
    one added verifies like the original, and the replay store, which records the
    text as presented, accepts it again within the window. *)
Theorem respelled_nonce_is_accepted_again :
  let hmac k m := k +:+ m in
  let key := "0123456789abcdef" in
  let k := mkKeyring [key] DefaultTTL DefaultMaxSkew in
  exists nonce nonce' s1 s2, nonce <> nonce' /\
    Mint hmac k 1000 "pk" = Some (nonce, 1060 * second) /\ DecodeString nonce' = DecodeString nonce /\
    run (1001 * second) (accept_nonce hmac k (120 * second) nonce "pk") (mkNStore ∅ None) = (Ok Accepted, s1) /\
    run (1002 * second) (accept_nonce hmac k (120 * second) nonce' "pk") s1 = (Ok Accepted, s2).
Proof.
  cbv zeta. set (hmac := fun k m : string => k +:+ m). set (k := mkKeyring _ _ _).
  set (nonce := match Mint hmac k 1000 "pk" with Some (n, _) => n | None => EmptyString end).
  exists nonce, (String (byte_of 10) nonce).
  exists (run (1001 * second) (accept_nonce hmac k (120 * second) nonce "pk") (mkNStore ∅ None)).2.
  exists (run (1002 * second) (accept_nonce hmac k (120 * second) (String (byte_of 10) nonce) "pk")
     (run (1001 * second) (accept_nonce hmac k (120 * second) nonce "pk") (mkNStore ∅ None)).2).2.
  split_and!; [vm_compute; discriminate|vm_compute; reflexivity..].
Qed.

(** The in-process cache gives the same guarantee to one Core: once recorded, a
    nonce is refused until its expiry, whatever else is observed. *)
Lemma cache_observe_keeps ttl t n n' exp seen :
  seen !! n = Some exp -> t < exp -> n <> n' -> (Cache.Observe ttl t n' seen).2 !! n = Some exp.
Proof.
  intros Hl Ht Hne. unfold Cache.Observe.
  assert (Hf : (<[n' := t + ttl]> (filter (fun x : string * Z => t < x.2) seen)) !! n = Some exp).
  { rewrite lookup_insert_ne by done. by apply map_lookup_filter_Some. }
  destruct (seen !! n') as [e|]; [destruct (t <? e)|]; done.
Qed.

Lemma cache_observe_again ttl t t' n seen :
  0 < ttl -> t <= t' < t + ttl -> (Cache.Observe ttl t n seen).1 = true ->
  (Cache.Observe ttl t' n (Cache.Observe ttl t n seen).2).1 = false.
Proof.
  intros Httl Ht H. unfold Cache.Observe in *.
  destruct (seen !! n) as [e|]; [destruct (t <? e) eqn:E; [done|]|];
    cbn [snd]; rewrite lookup_insert_eq; by rewrite (proj2 (Z.ltb_lt _ _)) by lia.
Qed.

(** ** The deployed values: 60 s, 30 s skew, 120 s memory, calls of up to 14 s *)

Definition demo_k : Keyring := mkKeyring ["0123456789abcdef"] DefaultTTL DefaultMaxSkew.
Definition demo_mac (k m : string) : string := "0123456789abcdef" +:+ (k +:+ m).

Lemma demo_keyring_ok : keyring_ok demo_k.
Proof. unfold keyring_ok. vm_compute. done. Qed.

Lemma mint_then_verify_witness :
  match Mint demo_mac demo_k 1000 "pk" with
  | Some (nonce, _) => Verify demo_mac demo_k 1060 nonce "pk" = Ok () /\ Verify demo_mac demo_k 1061 nonce "pk" = Err N_Expired
  | None => False
  end.
Proof.
  assert (Hl : forall a b, 16 <= len (demo_mac a b)).
  { intros a b. unfold demo_mac, len. rewrite str_app_length. cbn [String.length]. lia. }
  destruct (Mint demo_mac demo_k 1000 "pk") as [[nonce exp]|] eqn:E; [|by vm_compute in E].
  split.
  - rewrite (mint_then_verify demo_mac demo_k demo_k 1000 1060 "pk" nonce exp "0123456789abcdef" []);
      [reflexivity|exact Hl|reflexivity|constructor|unfold int64_ok; lia|unfold int64_ok; lia|exact E].
  - rewrite (mint_then_verify demo_mac demo_k demo_k 1000 1061 "pk" nonce exp "0123456789abcdef" []);
      [reflexivity|exact Hl|reflexivity|constructor|unfold int64_ok; lia|unfold int64_ok; lia|exact E].
Defined.

Definition demo_nonce : string :=
  match Mint demo_mac demo_k 1000 "pk" with Some (n, _) => n | None => EmptyString end.

Lemma nonce_text_accepted_once_witness :
  wpt (window (1050 * second) (14 * second)) (replay_others (window (1050 * second) (14 * second)))
    (replay_step (window (1050 * second) (14 * second))) (accept_nonce demo_mac demo_k (120 * second) demo_nonce "pk")
    (fun res _ => res <> Ok Accepted) (mkNStore {[ demo_nonce := 1121 * second ]} None).
Proof.
  eapply (nonce_text_accepted_once demo_mac demo_k (120 * second) (14 * second) demo_nonce "pk")
    with (t := 1001 * second) (e := 1121 * second);
    [apply demo_keyring_ok|vm_compute; discriminate|vm_compute; discriminate|vm_compute; split; [discriminate|reflexivity]
    |vm_compute; discriminate|vm_compute; reflexivity|vm_compute; reflexivity|vm_compute; discriminate|].
  intros _. cbn [nonce_replays]. apply lookup_singleton_eq.
Defined.
