(* ===== verification/JoinKey.v ===== *)
(** * internal/joinkey: capped, expiring, revocable enrollment secrets

    The groups column is the list the JSON text encodes; SHA-256 and the random bytes
    are parameters. Every use taken is also noted in a ghost log ([grants]) by key id. *)

From S2P Require Import Prelude Db Bytes Nonce.
From stdpp Require Import prelude strings list relations.
From Stdlib Require Import ZArith Lia.
Open Scope Z_scope.

Definition secretPrefix : string := "njk_".

Inductive jerr : Type := J_NotFound | J_Expired | J_Exhausted | J_Duplicated | J_Fault.
#[export] Instance jerr_db : DbError jerr := J_Fault.

(** [JoinKey] *)
Record JoinKey : Type := mkJoinKey {
  jk_ID : Z;
  jk_Name : string;
  jk_SecretHash : string;
  jk_Groups : list string;
  jk_SubRange : string;
  jk_MaxUses : Z;
  jk_UsedCount : Z;
  jk_ExpiresAt : Z;
  jk_AutoIssue : bool;
  jk_Ephemeral : bool;
  jk_QuotaPerHour : Z;
  jk_State : string;
  jk_CreatedAt : Z;
}.

Definition active : string := "active".
Definition revoked : string := "revoked".

(** [limits] is a ghost log, read by no decision: the limits the rows have had, by id. *)
Record KStore : Type := mkKStore { join_keys : list JoinKey; jk_seq : Z; grants : list Z; limits : list (Z * Z) }.
Definition limit_of (k : JoinKey) : Z * Z := (jk_ID k, jk_MaxUses k).
Definition set_keys (l : list JoinKey) (n : Z) (s : KStore) : KStore := mkKStore l n (grants s) (limits s ++ (limit_of <$> l)).

(** [Params] *)
Record Params : Type := mkParams {
  p_Name : string; p_Groups : list string; p_SubRange : string; p_MaxUses : Z; p_TTL : Z;
  p_AutoIssue : bool; p_Ephemeral : bool; p_QuotaPerHour : Z;
}.

(** [UpdateParams]: [None] leaves the column. *)
Record UpdateParams : Type := mkUpdate {
  u_Groups : option (list string); u_SubRange : option string; u_MaxUses : option Z; u_QuotaPerHour : option Z;
  u_AutoIssue : option bool; u_Ephemeral : option bool; u_TTL : option Z;
}.

Section joinkey.
Context (sha256 : string -> string).

(** [raw] are the 32 random bytes. *)
Definition Create (raw : string) (p : Params) (now : Z) : M KStore jerr (string * JoinKey) :=
  let secret := secretPrefix +:+ EncodeToString raw in
  let exp := if 0 <? p_TTL p then now + p_TTL p else 0 in
  jk ← exec_err (fun s =>
    let jk := mkJoinKey (jk_seq s) (p_Name p) (sha256 secret) (p_Groups p) (p_SubRange p) (p_MaxUses p) 0 exp
                (p_AutoIssue p) (p_Ephemeral p) (p_QuotaPerHour p) active now in
    if existsb (fun k => bool_decide (jk_Name k = p_Name p) || bool_decide (jk_SecretHash k = sha256 secret)) (join_keys s)
    then Err J_Duplicated
    else Ok (jk, set_keys (join_keys s ++ [jk]) (jk_seq s + 1) s));
  mret (secret, jk).

Definition List : M KStore jerr (list JoinKey) := query join_keys.

Definition is_active (k : JoinKey) : bool := bool_decide (jk_State k = active).
Definition named_active (name : string) (k : JoinKey) : bool := bool_decide (jk_Name k = name) && is_active k.

(** [UPDATE join_keys SET ... WHERE f]: rows affected. *)
Definition update_keys (f : JoinKey -> bool) (g : JoinKey -> JoinKey) (s : KStore) : Z * KStore :=
  (Z.of_nat (length (List.filter f (join_keys s))),
   set_keys (map (fun k => if f k then g k else k) (join_keys s)) (jk_seq s) s).

Definition set_state (st : string) (k : JoinKey) : JoinKey :=
  mkJoinKey (jk_ID k) (jk_Name k) (jk_SecretHash k) (jk_Groups k) (jk_SubRange k) (jk_MaxUses k) (jk_UsedCount k)
    (jk_ExpiresAt k) (jk_AutoIssue k) (jk_Ephemeral k) (jk_QuotaPerHour k) st (jk_CreatedAt k).

Definition Revoke (name : string) : M KStore jerr unit :=
  n ← exec (update_keys (named_active name) (set_state revoked));
  if n =? 0 then throw J_NotFound else mret ().

Definition edit (p : UpdateParams) (now : Z) (k : JoinKey) : JoinKey :=
  mkJoinKey (jk_ID k) (jk_Name k) (jk_SecretHash k) (default (jk_Groups k) (u_Groups p))
    (default (jk_SubRange k) (u_SubRange p)) (default (jk_MaxUses k) (u_MaxUses p)) (jk_UsedCount k)
    (match u_TTL p with Some ttl => if 0 <? ttl then now + ttl else 0 | None => jk_ExpiresAt k end)
    (default (jk_AutoIssue k) (u_AutoIssue p)) (default (jk_Ephemeral k) (u_Ephemeral p))
    (default (jk_QuotaPerHour k) (u_QuotaPerHour p)) (jk_State k) (jk_CreatedAt k).

Definition no_fields (p : UpdateParams) : bool :=
  match p with mkUpdate None None None None None None None => true | _ => false end.

Definition Update (name : string) (p : UpdateParams) (now : Z) : M KStore jerr JoinKey :=
  _ ← (if no_fields p then mret ()
       else n ← exec (update_keys (named_active name) (edit p now));
            if n =? 0 then throw J_NotFound else mret ());
  r ← query (fun s => find_first (named_active name) (join_keys s));
  match r with Some jk => mret jk | None => throw J_NotFound end.

(** The row [Lookup] selects, and its checks. *)
Definition lookup_row (secret : string) (s : KStore) : option JoinKey :=
  find_first (fun k => bool_decide (jk_SecretHash k = sha256 secret) && is_active k) (join_keys s).

Definition check_key (r : option JoinKey) (now : Z) : result jerr JoinKey :=
  match r with
  | None => Err J_NotFound
  | Some jk =>
      if negb (jk_ExpiresAt jk =? 0) && (jk_ExpiresAt jk <=? now) then Err J_Expired
      else if (0 <? jk_MaxUses jk) && (jk_MaxUses jk <=? jk_UsedCount jk) then Err J_Exhausted
      else Ok jk
  end.

Definition Lookup (secret : string) (now : Z) : M KStore jerr JoinKey :=
  r ← query (lookup_row secret);
  match check_key r now with Ok jk => mret jk | Err e => throw e end.

Definition take_use (k : JoinKey) : JoinKey :=
  mkJoinKey (jk_ID k) (jk_Name k) (jk_SecretHash k) (jk_Groups k) (jk_SubRange k) (jk_MaxUses k) (jk_UsedCount k + 1)
    (jk_ExpiresAt k) (jk_AutoIssue k) (jk_Ephemeral k) (jk_QuotaPerHour k) (jk_State k) (jk_CreatedAt k).

(** The rows of the conditional update, with the limit of the key as looked up. *)
Definition usable (jk k : JoinKey) : bool :=
  (jk_ID k =? jk_ID jk) && is_active k && (if 0 <? jk_MaxUses jk then jk_UsedCount k <? jk_MaxUses jk else true).

Definition consume_use (jk : JoinKey) (s : KStore) : Z * KStore :=
  let (n, s') := update_keys (usable jk) take_use s in
  (n, if n =? 0 then s' else mkKStore (join_keys s') (jk_seq s') (grants s' ++ [jk_ID jk]) (limits s')).

Definition Consume (jk : JoinKey) : M KStore jerr unit :=
  n ← exec (consume_use jk);
  if n =? 0 then throw J_Exhausted else mret ().

Definition ValidateAndConsume (secret : string) (now : Z) : M KStore jerr JoinKey :=
  jk ← Lookup secret now;
  _ ← Consume jk;
  mret (take_use jk).
End joinkey.

(** ** Uses are bounded *)

Definition uses (id : Z) (s : KStore) : Z := Z.of_nat (length (List.filter (Z.eqb id) (grants s))).

(** A row after somebody's statement that takes no use; the limit may be edited. *)
Definition row_step (k k' : JoinKey) : Prop :=
  jk_ID k' = jk_ID k /\ jk_SecretHash k' = jk_SecretHash k /\ jk_UsedCount k' = jk_UsedCount k /\
  (jk_State k' = active -> jk_State k = active).

(** Every limit in force is in the log, which only grows. *)
Definition logged (s : KStore) : Prop := forall k, k ∈ join_keys s -> limit_of k ∈ limits s.
Definition logs (s s' : KStore) : Prop := (forall x, x ∈ limits s -> x ∈ limits s') /\ logged s'.

(** A use is taken below a limit the key has had (the one its lookup read). *)
Inductive jk_step (s s' : KStore) : Prop :=
| js_rows : Forall2 row_step (join_keys s) (join_keys s') -> jk_seq s' = jk_seq s -> grants s' = grants s -> logs s s' -> jk_step s s'
| js_new k : jk_ID k = jk_seq s -> jk_UsedCount k = 0 -> join_keys s' = join_keys s ++ [k] ->
    jk_seq s' = jk_seq s + 1 -> grants s' = grants s -> logs s s' -> jk_step s s'
| js_use k m : k ∈ join_keys s -> jk_State k = active -> (jk_ID k, m) ∈ limits s -> (0 < m -> jk_UsedCount k < m) ->
    join_keys s' = map (fun x => if jk_ID x =? jk_ID k then take_use x else x) (join_keys s) ->
    jk_seq s' = jk_seq s -> grants s' = grants s ++ [jk_ID k] -> logs s s' -> jk_step s s'.

Record jk_inv (s : KStore) : Prop := mkJkInv {
  ji_ids : NoDup (jk_ID <$> join_keys s);
  ji_seq : forall k, k ∈ join_keys s -> jk_ID k < jk_seq s;
  ji_old : forall id, id ∈ grants s -> id < jk_seq s;
  ji_count : forall k, k ∈ join_keys s -> jk_UsedCount k = uses (jk_ID k) s;
  ji_bound : forall k, k ∈ join_keys s -> jk_UsedCount k = 0 \/ exists m, (jk_ID k, m) ∈ limits s /\ (m <= 0 \/ jk_UsedCount k <= m);
  ji_logged : logged s;
}.

Lemma jk_inv_empty : jk_inv (mkKStore [] 1 [] []).
Proof. split; try done; [constructor|..]; by intros ? ?%elem_of_nil. Qed.

(** A key that was never unlimited is not used more often than its largest limit. *)
Lemma uses_capped s k L : jk_inv s -> k ∈ join_keys s -> (forall m, (jk_ID k, m) ∈ limits s -> 0 < m <= L) -> uses (jk_ID k) s <= L.
Proof.
  intros Hi Hk HL. rewrite <- (ji_count s Hi k Hk). pose proof (HL _ (ji_logged s Hi k Hk)).
  destruct (ji_bound s Hi k Hk) as [->|(m & Hm & Hb)]; [lia|]. specialize (HL m Hm). lia.
Qed.

Lemma rows_in l l' k' : Forall2 row_step l l' -> k' ∈ l' -> exists k, k ∈ l /\ row_step k k'.
Proof.
  induction 1 as [|a b l1 l2 Hab _ IH]; [by intros ?%elem_of_nil|].
  intros [->|Hin]%elem_of_cons; [exists a; split; [constructor|done]|].
  destruct (IH Hin) as (k & ? & ?). exists k. split; [by constructor|done].
Qed.

Lemma rows_fwd l l' k : Forall2 row_step l l' -> k ∈ l -> exists k', k' ∈ l' /\ row_step k k'.
Proof.
  induction 1 as [|a b l1 l2 Hab _ IH]; [by intros ?%elem_of_nil|].
  intros [->|Hin]%elem_of_cons; [exists b; split; [constructor|done]|].
  destruct (IH Hin) as (k' & ? & ?). exists k'. split; [by constructor|done].
Qed.

Lemma rows_ids l l' : Forall2 row_step l l' -> jk_ID <$> l' = jk_ID <$> l.
Proof. induction 1 as [|a b l1 l2 (Hid & _) _ IH]; [done|]. cbn. by rewrite IH, Hid. Qed.

Lemma row_step_refl k : row_step k k.
Proof. done. Qed.

Lemma key_unique s a b : jk_inv s -> a ∈ join_keys s -> b ∈ join_keys s -> jk_ID a = jk_ID b -> a = b.
Proof.
  intros Hi [i Ha]%list_elem_of_lookup [j Hb]%list_elem_of_lookup Hn.
  assert (i = j) as ->; [|congruence].
  eapply (NoDup_lookup (jk_ID <$> join_keys s)); [apply Hi| |]; rewrite list_lookup_fmap; [by rewrite Ha|].
  rewrite Hb. simpl. congruence.
Qed.

Lemma uses_app id l s s' : grants s' = grants s ++ l -> uses id s' = uses id s + Z.of_nat (length (List.filter (Z.eqb id) l)).
Proof. intros H. unfold uses. rewrite H, List.filter_app, length_app. lia. Qed.

Lemma uses_same id s s' : grants s' = grants s -> uses id s' = uses id s.
Proof. intros H. unfold uses. by rewrite H. Qed.

Lemma uses_fresh id s : (forall i, i ∈ grants s -> i < id) -> uses id s = 0.
Proof.
  intros H. unfold uses. assert (List.filter (Z.eqb id) (grants s) = []) as ->; [|done].
  apply elem_of_nil_inv. intros x Hx. apply list_elem_of_In, filter_In in Hx as [Hx He]. bool_split.
  apply list_elem_of_In, H in Hx. lia.
Qed.

Lemma jk_inv_step s s' : jk_step s s' -> jk_inv s -> jk_inv s'.
Proof.
  intros Hs Hi. destruct Hs as [Hr Hq Hg [Hl Hlog]|k Hid Hu Hr Hq Hg [Hl Hlog]|k m Hin Hst Hm Hlim Hr Hq Hg [Hl Hlog]].
  - split; rewrite ?Hq.
    + rewrite (rows_ids _ _ Hr). apply Hi.
    + intros k' Hk'. destruct (rows_in _ _ _ Hr Hk') as (k & Hk & -> & _). by apply Hi.
    + rewrite Hg. apply Hi.
    + intros k' Hk'. destruct (rows_in _ _ _ Hr Hk') as (k & Hk & -> & _ & -> & _). rewrite (uses_same _ s) by done. by apply Hi.
    + intros k' Hk'. destruct (rows_in _ _ _ Hr Hk') as (k & Hk & -> & _ & -> & _).
      destruct (ji_bound s Hi k Hk) as [?|(m & ? & ?)]; [by left|right; exists m; auto].
    + done.
  - assert (Hcase : forall x, x ∈ join_keys s' -> x ∈ join_keys s \/ x = k).
    { intros x. rewrite Hr. intros [?|?%list_elem_of_singleton]%elem_of_app; auto. }
    split; rewrite ?Hq.
    + rewrite Hr, fmap_app. apply NoDup_app. split_and!; [apply Hi| |apply NoDup_singleton].
      intros i (y & -> & Hy)%list_elem_of_fmap Hx%list_elem_of_singleton. pose proof (ji_seq s Hi y Hy). lia.
    + intros x [Hx| ->]%Hcase; [pose proof (ji_seq s Hi x Hx)|]; lia.
    + rewrite Hg. intros i Hx. pose proof (ji_old s Hi i Hx). lia.
    + intros x [Hx| ->]%Hcase; rewrite (uses_same _ s) by done; [by apply Hi|]. rewrite Hu, Hid, uses_fresh; [done|apply Hi].
    + intros x [Hx| ->]%Hcase; [|by left]. destruct (ji_bound s Hi x Hx) as [?|(m & ? & ?)]; [by left|right; exists m; auto].
    + done.
  - assert (Hcase : forall x, x ∈ join_keys s' -> x = take_use k \/ (x ∈ join_keys s /\ jk_ID x <> jk_ID k)).
    { intros x. rewrite Hr. intros (y & -> & Hy)%list_elem_of_fmap. destruct (jk_ID y =? jk_ID k) eqn:E; bool_split; [left|by right].
      f_equal. by eapply key_unique. }
    assert (Hids : jk_ID <$> join_keys s' = jk_ID <$> join_keys s).
    { rewrite Hr. clear. induction (join_keys s) as [|x l IH]; [done|]. cbn. rewrite IH. by destruct (_ =? _). }
    split; rewrite ?Hq.
    + rewrite Hids. apply Hi.
    + intros x [->|[Hx _]]%Hcase; [cbn|]; by apply Hi.
    + rewrite Hg. intros i [Hx| ->%list_elem_of_singleton]%elem_of_app; by apply Hi.
    + intros x [->|[Hx Hne]]%Hcase; rewrite (uses_app _ [jk_ID k] s) by done; cbn.
      * rewrite Z.eqb_refl. cbn. rewrite (ji_count s Hi k Hin). lia.
      * rewrite (proj2 (Z.eqb_neq _ _)) by done. cbn. rewrite (ji_count s Hi x Hx). lia.
    + intros x [->|[Hx _]]%Hcase.
      * right. exists m. split; [by apply Hl|]. cbn. destruct (decide (0 < m)); [right; specialize (Hlim ltac:(done)); lia|left; lia].
      * destruct (ji_bound s Hi x Hx) as [?|(m' & ? & ?)]; [by left|right; exists m'; auto].
    + done.
Qed.

Lemma jk_inv_steps s s' : rtc jk_step s s' -> jk_inv s -> jk_inv s'.
Proof. intros H. apply rtc_invariant with (2 := H). apply jk_inv_step. Qed.

(** The row behind a looked-up key, and a limit it has had. *)
Definition backs (jk : JoinKey) (s : KStore) : Prop :=
  limit_of jk ∈ limits s /\ exists k, k ∈ join_keys s /\ jk_ID k = jk_ID jk.

Lemma backs_step jk s s' : jk_step s s' -> backs jk s -> backs jk s'.
Proof.
  intros Hs (Hm & k & Hin & Hid). destruct Hs as [Hr _ _ [Hl _]|x _ _ Hr _ _ [Hl _]|x m Hx _ _ _ Hr _ _ [Hl _]]; (split; [auto|]).
  - destruct (rows_fwd _ _ _ Hr Hin) as (k' & Hk' & Hi' & _). exists k'. split; [done|congruence].
  - exists k. rewrite Hr, elem_of_app. auto.
  - exists (if jk_ID k =? jk_ID x then take_use k else k). rewrite Hr. split.
    + change (map ?f ?l) with (f <$> l). apply list_elem_of_fmap. by exists k.
    + by destruct (_ =? _).
Qed.

Lemma backs_row jk s : jk_inv s -> jk ∈ join_keys s -> backs jk s.
Proof. intros Hi Hin. split; [by apply Hi|by exists jk]. Qed.

Lemma backs_steps jk s s' : rtc jk_step s s' -> backs jk s -> backs jk s'.
Proof. intros H. apply rtc_invariant with (2 := H). apply backs_step. Qed.

(** Writing the table logs its limits. *)
Lemma set_keys_logs l n s g : logs s (mkKStore l n g (limits (set_keys l n s))).
Proof.
  split; [intros x Hx; cbn; apply elem_of_app; by left|].
  intros k Hk. cbn. apply elem_of_app. right. apply list_elem_of_fmap. by exists k.
Qed.

(** The conditional update is one use or nothing. *)
Lemma consume_use_step jk s : jk_inv s -> backs jk s ->
  let (n, s') := consume_use jk s in
  jk_step s s' /\ (n <> 0 -> grants s' = grants s ++ [jk_ID jk]).
Proof.
  intros Hi (Hm & k & Hin & Hid). unfold consume_use, update_keys.
  destruct (usable jk k) eqn:Eu.
  - assert (Hrows : map (fun x => if usable jk x then take_use x else x) (join_keys s) =
                    map (fun x => if jk_ID x =? jk_ID k then take_use x else x) (join_keys s)).
    { apply map_ext_in. intros x Hx%list_elem_of_In. destruct (jk_ID x =? jk_ID k) eqn:E; bool_split.
      - assert (x = k) as -> by (by eapply key_unique). by rewrite Eu.
      - destruct (usable jk x) eqn:Ex; [|done]. unfold usable in Ex. bool_split. congruence. }
    assert (Hn : Z.of_nat (length (List.filter (usable jk) (join_keys s))) <> 0).
    { assert (In k (List.filter (usable jk) (join_keys s))) as Hf by (apply filter_In; split; [by apply list_elem_of_In|done]).
      destruct (List.filter (usable jk) (join_keys s)); [done|cbn; lia]. }
    rewrite (proj2 (Z.eqb_neq _ _)) by done. split; [|done].
    unfold usable, is_active in Eu. bool_split. apply (js_use s _ k (jk_MaxUses jk)); [done|done|by rewrite Hid| |exact Hrows|done|cbn; by rewrite Hid|apply set_keys_logs].
    intros Hpos. rewrite (proj2 (Z.ltb_lt _ _)) in H0 by done. by bool_split.
  - assert (Hnone : List.filter (usable jk) (join_keys s) = []).
    { apply elem_of_nil_inv. intros x Hx. apply list_elem_of_In, filter_In in Hx as [Hx%list_elem_of_In Ex].
      assert (x = k) as ->; [|congruence]. eapply key_unique; [done..|]. unfold usable in Ex. bool_split. congruence. }
    rewrite Hnone. split; [|done]. apply js_rows; [|done|done|apply set_keys_logs]. cbn.
    assert (Hid' : forall x, x ∈ join_keys s -> usable jk x = false).
    { intros x Hx. destruct (usable jk x) eqn:Ex; [|done].
      assert (In x (List.filter (usable jk) (join_keys s))) as Hf by (apply filter_In; split; [by apply list_elem_of_In|done]).
      by rewrite Hnone in Hf. }
    clear -Hid'. induction (join_keys s) as [|x l IH]; cbn; constructor.
    + rewrite Hid' by constructor. done.
    + apply IH. intros; apply Hid'; by constructor.
Qed.

Lemma update_rows_step f g s : (forall k, row_step k (g k)) -> jk_step s (update_keys f g s).2.
Proof.
  intros Hg. apply js_rows; [|done|done|apply set_keys_logs]. cbn. induction (join_keys s) as [|x l IH]; cbn; constructor; [|done].
  destruct (f x); [apply Hg|done].
Qed.

(** What an accepted key is. *)
Lemma check_key_ok sha256 secret s now jk : check_key (lookup_row sha256 secret s) now = Ok jk ->
  jk ∈ join_keys s /\ jk_SecretHash jk = sha256 secret /\ jk_State jk = active /\ (jk_ExpiresAt jk = 0 \/ now < jk_ExpiresAt jk).
Proof.
  unfold check_key, lookup_row. destruct (find_first _ _) as [k|] eqn:Ef; [|done].
  apply find_first_Some in Ef as [Hin Hf]. unfold is_active in Hf. bool_split.
  destruct (negb _ && _) eqn:Ee; [done|]. destruct (_ && _) eqn:Ex in |- *; [done|]. intros [= <-]. split_and!; [done|done|done|].
  apply andb_false_iff in Ee as [Ee|Ee]; bool_split; [by left|by right].
Qed.

Section properties.
Context (T : Z -> Prop) (sha256 : string -> string).
Abbreviation R := (rtc jk_step).

Lemma Revoke_wp name s : jk_inv s -> wpt T R jk_step (Revoke name) (fun _ s' => jk_inv s') s.
Proof.
  intros Hi. unfold Revoke. wp_step. wp_step; pose proof (jk_inv_steps _ _ HR Hi) as Hi0; [done|].
  assert (Hs : jk_step s0 (update_keys (named_active name) (set_state revoked) s0).2).
  { apply update_rows_step. intros k. by split_and!. }
  split; [exact Hs|]. pose proof (jk_inv_step _ _ Hs Hi0). destruct (_ =? 0); by wp_step.
Qed.

Lemma Update_wp name p now s : jk_inv s ->
  wpt T R jk_step (Update name p now) (fun _ s' => jk_inv s') s.
Proof.
  intros Hi. unfold Update.
  assert (Hread : forall s1, jk_inv s1 -> wpt T R jk_step
     (r ← query (fun s => find_first (named_active name) (join_keys s));
      match r with Some jk => mret jk | None => throw J_NotFound end) (fun _ s' => jk_inv s') s1).
  { intros s1 Hi1. wp_step. wp_step; pose proof (jk_inv_steps _ _ HR Hi1) as Hi0; [done|]. by wp_step; wp_step. }
  wp_step. destruct (no_fields p); [wp_step; by apply Hread|].
  wp_step. wp_step; pose proof (jk_inv_steps _ _ HR Hi) as Hi0; [done|].
  assert (Hs : jk_step s0 (update_keys (named_active name) (edit p now) s0).2).
  { apply update_rows_step. intros k. unfold row_step, edit. cbn. by split_and!. }
  split; [exact Hs|]. pose proof (jk_inv_step _ _ Hs Hi0). destruct (_ =? 0); wp_step; [done|by apply Hread].
Qed.

Lemma Create_wp raw p now s : jk_inv s -> wpt T R jk_step (Create sha256 raw p now) (fun _ s' => jk_inv s') s.
Proof.
  intros Hi. unfold Create. wp_step. wp_step; pose proof (jk_inv_steps _ _ HR Hi) as Hi0; [done|].
  destruct (existsb _ _); [done|]. set (jk := mkJoinKey _ _ _ _ _ _ _ _ _ _ _ _ _).
  assert (Hs : jk_step s0 (set_keys (join_keys s0 ++ [jk]) (jk_seq s0 + 1) s0)) by (apply (js_new s0 _ jk); try done; apply set_keys_logs).
  split; [done|]. wp_step. by eapply jk_inv_step.
Qed.

(** A join key is never used more often than the limits it has had. Whatever the other
    processes do between the calls (validations, new keys, revocations, edits of any column,
    the limit included), and whatever faults occur: every validation that succeeds presented
    the secret of a key that was then active and not expired, and logged exactly one use of it;
    a key's counter is the number of its logged uses, and if the key was never unlimited this
    number is at most the largest limit it has had. *)
Theorem join_key_uses_bounded secret now s : jk_inv s ->
  wpt T R jk_step (ValidateAndConsume sha256 secret now) (fun res s' =>
    (forall k, k ∈ join_keys s' -> jk_UsedCount k = uses (jk_ID k) s' /\ (forall L, (forall m, (jk_ID k, m) ∈ limits s' -> 0 < m <= L) -> uses (jk_ID k) s' <= L)) /\
    forall jk, res = Ok jk -> jk_SecretHash jk = sha256 secret /\ jk_State jk = active /\
      (jk_ExpiresAt jk = 0 \/ now < jk_ExpiresAt jk) /\ exists l, grants s' = l ++ [jk_ID jk]) s /\
  (forall raw p, wpt T R jk_step (Create sha256 raw p now) (fun _ s' => jk_inv s') s) /\
  (forall name, wpt T R jk_step (Revoke name) (fun _ s' => jk_inv s') s) /\
  (forall name p, wpt T R jk_step (Update name p now) (fun _ s' => jk_inv s') s).
Proof.
  intros Hi. split_and!; [|intros; by apply Create_wp|intros; by apply Revoke_wp|intros; by apply Update_wp].
  assert (Hb : forall s', jk_inv s' -> forall k, k ∈ join_keys s' ->
     jk_UsedCount k = uses (jk_ID k) s' /\ (forall L, (forall m, (jk_ID k, m) ∈ limits s' -> 0 < m <= L) -> uses (jk_ID k) s' <= L)).
  { intros s' Hi' k Hk. split; [by apply Hi'|]. intros L. by apply uses_capped. }
  unfold ValidateAndConsume, Lookup. wp_step. wp_step.
  wp_step; pose proof (jk_inv_steps _ _ HR Hi) as Hi0; [by split; [apply Hb|]|].
  destruct (check_key _ _) as [jk|e] eqn:Ec; [|wp_step; by split; [apply Hb|]].
  apply check_key_ok in Ec as (Hin & Hf & Hact & Ee). wp_step.
  wp_step. unfold Consume. wp_step.
  assert (Hbk : backs jk s0) by (by apply backs_row).
  wp_step; pose proof (jk_inv_steps _ _ HR0 Hi0) as Hi1; [by split; [apply Hb|]|].
  pose proof (consume_use_step jk s1 Hi1 (backs_steps _ _ _ HR0 Hbk)) as Hc. destruct (consume_use jk s1) as [n s2].
  destruct Hc as [Hs Hn]. pose proof (jk_inv_step _ _ Hs Hi1) as Hi2. split; [done|].
  destruct (n =? 0) eqn:En; bool_split; [wp_step; by split; [apply Hb|]|]. wp_step. wp_step.
  split; [by apply Hb|]. intros jk' [= <-]. cbn. split_and!; [done|done| |by exists (grants s1); apply Hn].
  done.
Qed.
End properties.

(** ** One key, one use *)

Definition demo_sha1 (s : string) : string := "h:" +:+ s.
Definition demo_params : Params := mkParams "laptops" ["web"] "" 1 0 false false 0.
Definition demo_keys : KStore := (run 5 (Create demo_sha1 "abc" demo_params 5) (mkKStore [] 1 [] [])).2.
Definition demo_secret : string := secretPrefix +:+ EncodeToString "abc".

Lemma demo_keys_inv : jk_inv demo_keys.
Proof.
  apply (jk_inv_step (mkKStore [] 1 [] [])); [|apply jk_inv_empty].
  eapply js_new; [| |reflexivity| | |apply set_keys_logs]; reflexivity.
Qed.

Lemma join_key_uses_bounded_witness :
  is_ok (run 6 (ValidateAndConsume demo_sha1 demo_secret 6) demo_keys).1 = true /\
  wpt (fun _ => True) (rtc jk_step) jk_step (ValidateAndConsume demo_sha1 demo_secret 6) (fun res s' =>
    (forall k, k ∈ join_keys s' -> jk_UsedCount k = uses (jk_ID k) s' /\ (forall L, (forall m, (jk_ID k, m) ∈ limits s' -> 0 < m <= L) -> uses (jk_ID k) s' <= L)) /\
    forall jk, res = Ok jk -> jk_SecretHash jk = demo_sha1 demo_secret /\ jk_State jk = active /\
      (jk_ExpiresAt jk = 0 \/ 6 < jk_ExpiresAt jk) /\ exists l, grants s' = l ++ [jk_ID jk]) demo_keys.
Proof.
  split; [vm_compute; reflexivity|].
  apply (join_key_uses_bounded (fun _ => True) demo_sha1 demo_secret 6 demo_keys demo_keys_inv).
Defined.

(** An administrator lowers the limit from 3 to 1 while one use is taken and
    another validation is between its lookup and its use. *)
Definition demo_keys3 : KStore :=
  (run 5 (Create demo_sha1 "abc" (mkParams "laptops" ["web"] "" 3 0 false false 0) 5) (mkKStore [] 1 [] [])).2.
Definition lower_limit : UpdateParams := mkUpdate None None (Some 1) None None None None.
Definition lowering (n : nat) (s : KStore) : KStore :=
  if decide (n = 1%nat)
  then (run 6 (Update "laptops" lower_limit 6) (run 6 (ValidateAndConsume demo_sha1 demo_secret 6) s).2).2 else s.

(** Lowering a limit can be overrun. [Consume] compares with the limit of its
    earlier lookup, so a validation that races with an [Update] of the limit to 1,
    after one use was taken, still succeeds: two uses of a key limited to one. *)
Theorem lowered_limit_can_be_overrun :
  match ValidateAndConsume demo_sha1 demo_secret 6 (mkEnv (fun _ => 6) (fun _ => false) lowering) 0%nat demo_keys3 with
  | (Ok _, _, s') => exists k, join_keys s' = [k] /\ jk_MaxUses k = 1 /\ jk_UsedCount k = 2
  | _ => False
  end.
Proof. vm_compute. eexists. split; [reflexivity|]. done. Qed.
