(* ===== verification/Breaker.v ===== *)
(** * internal/signer: the signing circuit breaker

    [breaker], the in-process one, and [SQLBreaker], the latch and the issuance window
    shared by all Core processes. A ghost log ([minted]) keeps the times of the
    issuances allowed on the breaker's lane since its last reset. *)

From S2P Require Import Prelude Db.
From stdpp Require Import prelude strings list gmap relations.
From Stdlib Require Import ZArith Lia.
Open Scope Z_scope.

(** [breaker]: its state and one acquisition; [t] and [t'] are its two clock
    readings. *)
Module Mem.
Record breaker : Type := mkBreaker { max : Z; window : Z; events : list Z; open : bool }.

Definition acquire (t t' : Z) (b : breaker) : (bool * bool) * breaker :=
  if open b then ((false, false), b)
  else if max b <=? 0 then ((true, false), b)
  else
    let kept := List.filter (fun e => t - window b <? e) (events b) in
    if max b <=? Z.of_nat (length kept)
    then ((false, true), mkBreaker (max b) (window b) kept true)
    else ((true, false), mkBreaker (max b) (window b) (kept ++ [t']) false).

Definition reset (b : breaker) : breaker := mkBreaker (max b) (window b) [] false.
Definition isOpen (b : breaker) : bool := open b.
End Mem.

Inductive berr : Type := B_Fault.
#[export] Instance berr_db : DbError berr := B_Fault.

(** signer_breaker (lane to open and opened_at), signer_issuance, and this
    process's time of the last sweep. *)
Record BStore : Type := mkBStore {
  latch : gmap string (bool * Z);
  issuance : list (string * Z);
  b_lastGC : option Z;
  minted : list Z;
}.

Record SQLBreaker : Type := mkSQLBreaker { b_lane : string; b_max : Z; b_window : Z; b_postgres : bool }.

Definition breakerGCInterval : Z := 60 * 1000000000.

Section breaker.
Context (b : SQLBreaker).

(** The rows of the lane newer than a cutoff. *)
Definition newer (c : Z) (r : string * Z) : bool := bool_decide (r.1 = b_lane b) && (c <? r.2).

Definition maybeGC : M BStore berr unit :=
  t ← now;
  t' ← now;
  due ← mem (fun s =>
    if match b_lastGC s with Some l => t - l <? breakerGCInterval | None => false end
    then (false, s) else (true, mkBStore (latch s) (issuance s) (Some t') (minted s)));
  if due : bool then
    t ← now;
    ignore (exec (fun s => ((), mkBStore (latch s)
      (List.filter (fun r => negb (bool_decide (r.1 = b_lane b) && (r.2 <? t - b_window b))) (issuance s))
      (b_lastGC s) (minted s))))
  else mret ().

Definition is_open (s : BStore) : bool := match latch s !! b_lane b with Some (o, _) => o | None => false end.

Definition upsertLatch (o : bool) (at_ : Z) (s : BStore) : BStore :=
  mkBStore (<[b_lane b := (o, at_)]> (latch s)) (issuance s) (b_lastGC s) (minted s).

Definition acquire_tx : M BStore berr (bool * bool) :=
  _ ← (if b_postgres b then exec (fun s => ((), s)) else mret ());
  op ← query is_open;
  if op : bool then mret (false, false)
  else
    t ← now;
    n ← query (fun s => Z.of_nat (length (List.filter (newer (t - b_window b)) (issuance s))));
    if b_max b <=? n then
      _ ← exec (fun s => ((), upsertLatch true t s));
      mret (false, true)
    else
      _ ← exec (fun s => ((), mkBStore (latch s) (issuance s ++ [(b_lane b, t)]) (b_lastGC s) (minted s ++ [t])));
      mret (true, false).

(** [(allowed, justTripped)]; an error means not allowed. *)
Definition acquire : M BStore berr (bool * bool) :=
  if b_max b <=? 0 then mret (true, false)
  else _ ← maybeGC; tx acquire_tx.

Definition isOpen : M BStore berr bool :=
  if b_max b <=? 0 then mret false else query is_open.

Definition reset_tx : M BStore berr unit :=
  _ ← exec (fun s => ((), mkBStore (latch s)
        (List.filter (fun r => negb (bool_decide (r.1 = b_lane b))) (issuance s)) (b_lastGC s) (minted s)));
  exec (fun s => ((), mkBStore (<[b_lane b := (false, 0)]> (latch s)) (issuance s) (b_lastGC s) [])).
Definition reset : M BStore berr unit := tx reset_tx.

(** ** The shared window as a state machine *)

Definition in_window (c : Z) (s : BStore) : Z := Z.of_nat (length (List.filter (newer c) (issuance s))).

(** A committed statement or transaction of any process at time [t]. *)
Inductive b_step (t : Z) (s s' : BStore) : Prop :=
| bs_sweep :
    (forall c, t - b_window b <= c -> in_window c s' = in_window c s) ->
    is_open s' = is_open s -> minted s' = minted s -> b_step t s s'
| bs_issue :
    is_open s = false -> in_window (t - b_window b) s < b_max b ->
    issuance s' = issuance s ++ [(b_lane b, t)] -> latch s' = latch s -> minted s' = minted s ++ [t] -> b_step t s s'
| bs_trip :
    is_open s = false -> b_max b <= in_window (t - b_window b) s ->
    is_open s' = true -> issuance s' = issuance s -> minted s' = minted s -> b_step t s s'
| bs_reset :
    is_open s' = false -> (forall c, in_window c s' = 0) -> minted s' = [] -> b_step t s s'.

(** Allowed issuances with times in [(x, x + w]]. *)
Definition burst (x : Z) (s : BStore) : Z :=
  Z.of_nat (length (List.filter (fun m => (x <? m) && (m <=? x + b_window b)) (minted s))).

Definition after (c : Z) (s : BStore) : Z := Z.of_nat (length (List.filter (fun m => c <? m) (minted s))).

Record b_inv (t : Z) (s : BStore) : Prop := mkBInv {
  bi_past : forall m, m ∈ minted s -> m <= t;
  bi_count : forall c, t - b_window b <= c -> after c s = in_window c s;
  bi_rate : forall x, burst x s <= b_max b;
}.

Lemma burst_after x s : burst x s <= after x s.
Proof.
  unfold burst, after. apply inj_le. induction (minted s) as [|m l IH]; cbn; [lia|].
  destruct (x <? m); cbn; [destruct (m <=? _); cbn; lia|lia].
Qed.

Lemma in_window_app c s s' r : issuance s' = issuance s ++ [r] ->
  in_window c s' = in_window c s + if newer c r then 1 else 0.
Proof. intros H. unfold in_window. rewrite H, List.filter_app, length_app. cbn. destruct (newer c r); cbn; lia. Qed.

Lemma in_window_mono c c' s : c <= c' -> in_window c' s <= in_window c s.
Proof.
  intros Hc. unfold in_window. apply inj_le. induction (issuance s) as [|r l IH]; cbn; [lia|].
  assert (newer c' r = true -> newer c r = true).
  { unfold newer. intros H. bool_split. rewrite bool_decide_true by done. apply Z.ltb_lt. lia. }
  destruct (newer c' r), (newer c r); cbn; lia || (specialize (H eq_refl); done).
Qed.

Lemma minted_nil_counts s : minted s = [] -> (forall x, burst x s = 0) /\ (forall c, after c s = 0).
Proof. intros H. unfold burst, after. by rewrite H. Qed.

Lemma b_inv_step t t' s s' : 0 <= b_max b -> b_inv t s -> t <= t' -> b_step t' s s' -> b_inv t' s'.
Proof.
  intros Hmax Hi Ht [Hc _ Hm|_ Hlt Hr _ Hm|_ _ _ Hr Hm|_ Hc Hm].
  - split.
    + intros m. rewrite Hm. intros Hin%(bi_past t s Hi). lia.
    + intros c Hcc. rewrite Hc by done. unfold after. rewrite Hm. apply (bi_count t s Hi). lia.
    + intros x. unfold burst. rewrite Hm. apply (bi_rate t s Hi).
  - assert (Hnew : forall c, newer c (b_lane b, t') = (c <? t')) by (intros c; unfold newer; cbn; by rewrite bool_decide_true).
    split.
    + intros m. rewrite Hm. intros [Hin%(bi_past t s Hi)|Hin%list_elem_of_singleton]%elem_of_app; lia.
    + intros c Hcc. rewrite (in_window_app c s s' _ Hr), Hnew. unfold after. rewrite Hm, List.filter_app, length_app.
      pose proof (bi_count t s Hi c ltac:(lia)) as Hcnt. unfold after in Hcnt. cbn [List.filter]. destruct (c <? t'); cbn [length]; lia.
    + intros x. unfold burst. rewrite Hm, List.filter_app, length_app. pose proof (bi_rate t s Hi x) as Hb. unfold burst in Hb.
      cbn [List.filter]. destruct (x <? t') eqn:E1; cbn [andb length]; [|lia].
      destruct (t' <=? x + b_window b) eqn:E2; cbn [length]; [|lia]. bool_split.
      pose proof (burst_after x s) as Hba. rewrite (bi_count t s Hi x ltac:(lia)) in Hba.
      pose proof (in_window_mono (t' - b_window b) x s ltac:(lia)). unfold burst in Hba. lia.
  - split.
    + intros m. rewrite Hm. intros Hin%(bi_past t s Hi). lia.
    + intros c Hcc. unfold in_window, after. rewrite Hm, Hr. apply (bi_count t s Hi). lia.
    + intros x. unfold burst. rewrite Hm. apply (bi_rate t s Hi).
  - destruct (minted_nil_counts s' Hm) as [Hb Ha]. split.
    + intros m. rewrite Hm. by intros ?%elem_of_nil.
    + intros c _. by rewrite Ha, Hc.
    + intros x. by rewrite Hb.
Qed.

Lemma b_inv_empty t s : 0 <= b_max b -> minted s = [] -> (forall c, in_window c s = 0) -> b_inv t s.
Proof.
  intros Hmax Hm Hc. destruct (minted_nil_counts s Hm) as [Hb Ha]. split.
  - intros m. rewrite Hm. by intros ?%elem_of_nil.
  - intros c _. by rewrite Ha, Hc.
  - intros x. by rewrite Hb.
Qed.

Lemma b_inv_later t t' s : t <= t' -> b_inv t s -> b_inv t' s.
Proof.
  intros Ht Hi. split; [intros m Hm%(bi_past t s Hi); lia| |apply Hi]. intros c Hc. apply (bi_count t s Hi). lia.
Qed.

(** ** What the processes run *)

(** The units other processes can come between: [acquire] is a sweep and then a
    transaction, [reset] a transaction. *)
Inductive unit_call : Type := C_Sweep | C_Acquire | C_Reset.
Definition perform (c : unit_call) : M BStore berr unit :=
  match c with
  | C_Sweep => maybeGC
  | C_Acquire => _ ← tx acquire_tx; mret ()
  | C_Reset => reset
  end.

(** Any interleaving of calls of any number of processes, with any faults, from a lane
    without issuances: the state, and a bound [t] of the clock readings so far; clocks do
    not run backwards from one unit to the next. The time of the last sweep is memory of
    the process that runs next. *)
Inductive history : Z -> BStore -> Prop :=
| hi_start t s : minted s = [] -> (forall c, in_window c s = 0) -> history t s
| hi_process t s l : history t s -> history t (mkBStore (latch s) (issuance s) l (minted s))
| hi_call c env n t t' s r n' s' : history t s -> respects eq env -> (forall k, t <= clk env k <= t') ->
    perform c env n s = (r, n', s') -> history t' s'.
End breaker.

Section handlers.
Context (b : SQLBreaker) (T : Z -> Prop).
(** Anybody's steps at times in [T]. *)
Definition b_steps (s s' : BStore) : Prop := exists t, T t /\ b_step b t s s'.
Abbreviation R := (rtc b_steps).

Lemma sweep_counts t c l : t - b_window b <= c ->
  List.filter (newer b c) (List.filter (fun r => negb (bool_decide (r.1 = b_lane b) && (r.2 <? t - b_window b))) l) =
  List.filter (newer b c) l.
Proof.
  intros Hc. induction l as [|r l IH]; [done|]. cbn [List.filter].
  destruct (bool_decide (r.1 = b_lane b)) eqn:E1, (r.2 <? t - b_window b) eqn:E2; cbn [andb negb List.filter]; rewrite IH; try done.
  unfold newer at 2. rewrite E1. cbn. bool_split. by rewrite (proj2 (Z.ltb_ge _ _)) by lia.
Qed.

Lemma skip_step t s s' : T t -> latch s' = latch s -> issuance s' = issuance s -> minted s' = minted s -> b_steps s s'.
Proof.
  intros Ht Hl Hi Hm. exists t. split; [done|]. apply bs_sweep; [|unfold is_open; by rewrite Hl|done].
  intros c _. unfold in_window. by rewrite Hi.
Qed.

Lemma breaker_gc_wp s (Q : result berr unit -> BStore -> Prop) :
  (forall s', Q (Ok ()) s') -> wpt T R b_steps (maybeGC b) Q s.
Proof.
  intros HQ. unfold maybeGC. wp_step. wp_step. wp_step. wp_step. wp_step. wp_step.
  destruct (match b_lastGC s0 with Some l => _ | None => false end).
  { split; [by eapply (skip_step t)|]. by wp_step. }
  split; [by eapply (skip_step t)|]. wp_step. wp_step. wp_step. wp_step; [apply HQ|]. split; [|apply HQ].
  exists t1. split; [done|]. apply bs_sweep; [|done|done]. intros c Hc. unfold in_window. cbn.
  by rewrite sweep_counts.
Qed.

(** What an acquisition did. *)
Definition acquired (s : BStore) (res : bool * bool) (s' : BStore) : Prop :=
  match res with
  | (true, tripped) => tripped = false /\ is_open b s = false /\ is_open b s' = false /\ exists t, T t /\ minted s' = minted s ++ [t]
  | (false, true) => is_open b s = false /\ is_open b s' = true /\ minted s' = minted s
  | (false, false) => is_open b s = true /\ s' = s
  end.

Lemma acquire_body t0 s : T t0 ->
  wpt T eq (fun _ _ => True) (acquire_tx b) (fun r s' => match r with Ok a => b_steps s s' /\ acquired s a s' | Err _ => True end) s.
Proof.
  intros Ht0. unfold acquire_tx.
  assert (Hbody : wpt T eq (fun _ _ => True)
    (op ← query (is_open b);
     if op : bool then mret (false, false)
     else
       t ← now;
       n ← query (fun s => Z.of_nat (length (List.filter (newer b (t - b_window b)) (issuance s))));
       if b_max b <=? n then
         _ ← exec (fun s => ((), upsertLatch b true t s));
         mret (false, true)
       else
         _ ← exec (fun s => ((), mkBStore (latch s) (issuance s ++ [(b_lane b, t)]) (b_lastGC s) (minted s ++ [t])));
         mret (true, false))
    (fun r s' => match r with Ok a => b_steps s s' /\ acquired s a s' | Err _ => True end) s).
  { wp_step. wp_step; [done|]. destruct (is_open b s) eqn:Eo; [wp_step; by split; [by eapply (skip_step t0)|]|].
    wp_step. wp_step. wp_step. wp_step; [done|]. destruct (_ <=? _) eqn:En; bool_split.
    - wp_step. wp_step; [done|]. split; [done|]. wp_step.
      assert (Ho : is_open b (upsertLatch b true t s) = true) by (unfold is_open, upsertLatch; cbn; by rewrite lookup_insert_eq).
      split; [|done]. exists t. split; [done|]. by apply bs_trip.
    - wp_step. wp_step; [done|]. split; [done|]. wp_step. split; [exists t; split; [done|]; by apply bs_issue|].
      split_and!; [done|done|done|]. cbn. eauto. }
  wp_step. destruct (b_postgres b); [|by wp_step]. wp_step; [done|]. by split.
Qed.

Lemma reset_body t0 s : T t0 ->
  wpt T eq (fun _ _ => True) (reset_tx b) (fun r s' => match r with Ok _ => b_steps s s' /\ is_open b s' = false /\ minted s' = [] | Err _ => True end) s.
Proof.
  intros Ht0. unfold reset_tx. wp_step. wp_step; [done|]. split; [done|]. wp_step; [done|]. split; [done|].
  set (s3 := mkBStore _ _ _ []).
  assert (Ho : is_open b s3 = false) by (unfold is_open, s3; cbn; by rewrite lookup_insert_eq).
  split; [|done]. exists t0. split; [done|]. apply bs_reset; [done| |done]. intros c. unfold in_window. cbn.
  assert (Hf : forall l, List.filter (newer b c) (List.filter (fun r => negb (bool_decide (r.1 = b_lane b))) l) = []).
  { induction l as [|r l IH]; [done|]. cbn. destruct (bool_decide (r.1 = b_lane b)) eqn:E; cbn; [done|].
    unfold newer at 1. by rewrite E. }
  by rewrite Hf.
Qed.

(** The breaker fails closed and refines the shared window. Whatever the other
    processes do between the calls and whatever faults occur, every write of
    [acquire] and [reset] is a step of the window machine; an issuance is allowed
    only with its record committed, on a closed latch and below the ceiling; a trip
    leaves the latch open; and with an open latch nothing is allowed. *)
Theorem breaker_refines_window t0 s : 0 < b_max b -> T t0 ->
  wpt T R b_steps (acquire b) (fun res s' => forall a, res = Ok a -> exists s1, acquired s1 a s') s /\
  wpt T R b_steps (reset b) (fun res s' => is_ok res = true -> is_open b s' = false /\ minted s' = []) s.
Proof.
  intros Hmax Ht0. split; [|apply wp_tx; intros s1 _; split; [done|]; eapply wp_mono; [by eapply reset_body|]; intros [[]|e] s2 _ H; [|done]; split; [apply H|intros _; apply H]].
  unfold acquire. rewrite (proj2 (Z.leb_gt _ _)) by done. wp_step. apply breaker_gc_wp. intros s1. apply wp_tx. intros s2 _. split; [done|].
  eapply wp_mono; [by eapply acquire_body|]. intros [a|e] s3 _ H; [|done]. destruct H as [Hs Ha]. split; [done|]. intros ? [= <-]. by exists s2.
Qed.

(** *** One unit, undisturbed *)

Lemma sweep_alone t0 s : T t0 -> wpt T eq (fun _ _ => True) (maybeGC b) (fun _ s' => b_steps s s') s.
Proof.
  intros Ht0. unfold maybeGC. wp_step. wp_step. wp_step. wp_step. wp_step. wp_step.
  destruct (match b_lastGC s with Some l => _ | None => false end); (split; [done|]); [wp_step; by eapply (skip_step t)|].
  wp_step. wp_step. wp_step. wp_step; [by eapply (skip_step t)|]. split; [done|].
  exists t2. split; [done|]. apply bs_sweep; [|done|done]. intros c Hc. unfold in_window. cbn. by rewrite sweep_counts.
Qed.

Lemma acquire_alone t0 s : T t0 -> wpt T eq (fun _ _ => True) (tx (acquire_tx b))
  (fun r s' => match r with Ok a => b_steps s s' /\ acquired s a s' | Err _ => s' = s end) s.
Proof.
  intros Ht0. wp_step; [done|]. eapply wp_mono; [by eapply acquire_body|]. intros [a|e] s1 _ H; [by split|done].
Qed.

Lemma perform_alone t0 c s : T t0 -> wpt T eq (fun _ _ => True) (perform b c) (fun _ s' => s' = s \/ b_steps s s') s.
Proof.
  intros Ht0. destruct c; cbn [perform].
  - eapply wp_mono; [by eapply sweep_alone|]. intros r s' _ H. by right.
  - wp_step. eapply wp_mono; [by eapply acquire_alone|]. intros [a|e] s' _ H; [wp_step; right; apply H|by left].
  - unfold reset. wp_step; [by left|]. eapply wp_mono; [by eapply reset_body|]. intros [[]|e] s1 _ H; [|by left]. split; [done|]. right. apply H.
Qed.
End handlers.

Lemma history_inv b t s : 0 < b_max b -> history b t s -> b_inv b t s.
Proof.
  intros Hmax. induction 1 as [t s Hm Hc|t s l _ IH|c env n t t' s r n' s' _ IH Hr Hclk Hp].
  - apply b_inv_empty; [lia|done|done].
  - by destruct IH.
  - assert (Ht : t <= t') by (specialize (Hclk 0%nat); lia).
    pose proof (perform_alone b (fun u => t <= u <= t') t c s ltac:(cbn; lia) env n Hr Hclk) as H. rewrite Hp in H.
    destruct H as [_ [->|(u & Hu & Hs)]]; [by eapply b_inv_later|]. eapply (b_inv_later b u); [lia|]. eapply (b_inv_step b t); [lia|done|lia|done].
Qed.

(** C35: the ceiling holds fleet-wide. After any interleaving of [acquire] and [reset]
    calls of any number of processes, with any faults, on clocks that do not run backwards
    from one statement or transaction to the next: of the issuances allowed since the last
    reset, at most [max] fall into any window of the configured length. And the next
    acquisition, run by any process: it allows an issuance only on a closed latch and with
    the time of it recorded; otherwise nothing is recorded; and while the latch is open it
    allows nothing and leaves the latch open. *)
Theorem signing_rate_is_bounded b t s : 0 < b_max b -> history b t s ->
  (forall x, burst b x s <= b_max b) /\
  (forall env n t' r n' s', respects eq env -> (forall k, t <= clk env k <= t') -> tx (acquire_tx b) env n s = (r, n', s') ->
     (forall tripped, r = Ok (true, tripped) -> is_open b s = false /\ exists u, t <= u <= t' /\ minted s' = minted s ++ [u]) /\
     ((forall tripped, r <> Ok (true, tripped)) -> minted s' = minted s) /\
     (is_open b s = true -> (forall tripped, r <> Ok (true, tripped)) /\ is_open b s' = true)).
Proof.
  intros Hmax Hh. split; [by apply (history_inv b t s)|]. intros env n t' r n' s' Hr Hclk Hp.
  assert (Ht : t <= t') by (specialize (Hclk 0%nat); lia).
  pose proof (acquire_alone b (fun u => t <= u <= t') t s ltac:(cbn; lia) env n Hr Hclk) as H. rewrite Hp in H. destruct H as [_ H].
  destruct r as [[allowed tripped]|e]; [|subst s'; by split_and!]. destruct H as [_ H]. destruct allowed; [|destruct tripped]; cbn [acquired] in H.
  - destruct H as (-> & Ho & Ho' & u & Hu & Hm). split_and!; [intros tripped _; split; [done|by exists u]|intros Hn; by destruct (Hn false)|congruence].
  - destruct H as (Ho & Ho' & Hm). split_and!; [done|done|congruence].
  - destruct H as [Ho ->]. by split_and!.
Qed.

(** ** A ceiling of two per ten time units *)

Definition demo_breaker : SQLBreaker := mkSQLBreaker "ca" 2 10 true.
Definition demo_signing : BStore := mkBStore ∅ [] None [].

Lemma breaker_refines_window_witness :
  (run 3 (acquire demo_breaker) demo_signing).1 = Ok (true, false) /\
  wpt (fun _ => True) (rtc (b_steps demo_breaker (fun _ => True))) (b_steps demo_breaker (fun _ => True)) (acquire demo_breaker)
    (fun res s' => forall a, res = Ok a -> exists s1, acquired demo_breaker (fun _ => True) s1 a s') demo_signing.
Proof.
  split; [vm_compute; reflexivity|].
  apply (breaker_refines_window demo_breaker (fun _ => True) 0 demo_signing); [reflexivity|exact I].
Defined.

(** Two issuances, at 3 and at 5, and a third call at 6, which trips. *)
Definition unit_run (c : unit_call) (t : Z) (s : BStore) : BStore := (run t (perform demo_breaker c) s).2.
Definition signed_twice : BStore := unit_run C_Acquire 5 (unit_run C_Acquire 3 demo_signing).

Lemma unit_history c t t' s : t <= t' -> history demo_breaker t s -> history demo_breaker t' (unit_run c t' s).
Proof.
  intros Ht Hh. unfold unit_run, run. destruct (perform demo_breaker c (quiet t') 0%nat s) as [[r n'] s'] eqn:E.
  eapply (hi_call _ c (quiet t') 0%nat t t' s r n' s'); [done|done|intros k; cbn; lia|exact E].
Qed.

Lemma signing_rate_is_bounded_witness :
  minted signed_twice = [3; 5] /\ (run 6 (tx (acquire_tx demo_breaker)) signed_twice).1 = Ok (false, true) /\
  (forall x, burst demo_breaker x signed_twice <= 2).
Proof.
  split; [vm_compute; reflexivity|]. split; [vm_compute; reflexivity|].
  apply (signing_rate_is_bounded demo_breaker 5 signed_twice); [reflexivity|].
  apply (unit_history C_Acquire 3); [lia|]. apply (unit_history C_Acquire 0); [lia|]. by apply hi_start.
Defined.
