(* ===== verification/Revocation.v ===== *)
(** * internal/revocation: the certificate blocklist

    [Registry] over the revocations table: add, lift, the always-on guard for
    control-plane hosts, and the bulk revoke that dual control commits, with its
    per-window limit. An enrollment row's groups are the list its JSON text decodes
    to (empty when malformed); the decoder of a bulk payload and Go's text quoting (the
    %q verb) are parameters. *)

From S2P Require Import Prelude Db GoStrings Netip Policy DualControl.
From stdpp Require Import prelude strings list sorting pretty relations.
From Stdlib Require Import ZArith Lia Ascii.
Open Scope Z_scope.

Definition StateActive : string := "active".
Definition StateLifted : string := "lifted".
Definition BulkRevokeKind : string := "revocation.bulk-revoke".
Definition MaxBulkFingerprints : Z := 100.
Definition MaxBulkPerWindow : Z := 3.
Definition BulkWindow : Z := 3600 * 1000000000.

Inductive verr : Type :=
| V_NoFingerprint | V_InvalidFingerprint | V_AlreadyActive | V_ControlPlaneProtected
| V_BulkEmpty | V_BulkTooLarge | V_BulkRateLimited | V_BadPayload | V_Duplicated | V_Fault.
#[export] Instance verr_db : DbError verr := V_Fault.

Record BulkRevokeSpec : Type := mkSpec { sp_Fingerprints : list string; sp_Reason : string }.

(** [Row], of revocations. *)
Record Row : Type := mkRow {
  rv_ID : Z;
  rv_Fingerprint : string;
  rv_Reason : string;
  rv_Bulk : bool;
  rv_State : string;
  rv_CreatedBy : string;
  rv_CreatedAt : Z;
  rv_UpdatedAt : Z;
}.

(** The columns of enrollments the guard selects. *)
Record Enrolled : Type := mkEnrolled { en_Fingerprint : string; en_Status : string; en_Groups : list string; en_OverlayIP : string }.

Record VStore : Type := mkVStore {
  revs : list Row;
  rv_seq : Z;
  enrollments : list Enrolled;       (* in id order *)
  approvals_t : list Change;         (* the approvals table of dual control *)
  v_audit : list (string * string * string * string);
}.

Definition set_revs (l : list Row) (n : Z) (s : VStore) : VStore := mkVStore l n (enrollments s) (approvals_t s) (v_audit s).
Definition add_vaudit (e : string * string * string * string) (s : VStore) : VStore :=
  mkVStore (revs s) (rv_seq s) (enrollments s) (approvals_t s) (v_audit s ++ [e]).

Record VRegistry : Type := mkVRegistry { v_hasAudit : bool; v_central : Prefix; v_postgres : bool }.

Definition New (hasAudit postgres : bool) : VRegistry := mkVRegistry hasAudit PrefixZero postgres.
Definition WithCentralBlock (p : Prefix) (r : VRegistry) : VRegistry := mkVRegistry (v_hasAudit r) p (v_postgres r).

Definition normFingerprint (fp : string) : string := ToLower (TrimSpace fp).

Definition hex_char (c : ascii) : bool :=
  let x := N_of_ascii c in ((48 <=? x) && (x <=? 57) || (97 <=? x) && (x <=? 102))%N.

Definition validFingerprint (fp : string) : bool :=
  Z.eqb (Z.of_nat (String.length fp)) 64 && forallb hex_char (chars fp).

Section registry.
Context (r : VRegistry) (quote : string -> string).

Definition recordAudit (actor action target details : string) : M VStore verr unit :=
  if v_hasAudit r then ignore (exec (fun s => ((), add_vaudit (actor, action, target, details) s))) else mret ().

(** The latest issued enrollment of a fingerprint. *)
Definition latest_issued (fp : string) (s : VStore) : option Enrolled :=
  find_first (fun e => bool_decide (en_Fingerprint e = fp) && bool_decide (en_Status e = "issued")) (rev (enrollments s)).

Definition is_protected (e : Enrolled) : bool :=
  GrantsReservedGroup (en_Groups e) ||
  (IsValid (v_central r) &&
   match ParseAddr (en_OverlayIP e) with Some ip => Contains (v_central r) ip | None => false end).

Definition protectControlPlane (fp : string) : M VStore verr unit :=
  e ← query (latest_issued fp);
  match e with
  | None => mret ()
  | Some e => if is_protected e then throw V_ControlPlaneProtected else mret ()
  end.

Definition has_fp (fp : string) (x : Row) : bool := bool_decide (rv_Fingerprint x = fp).

Definition reactivate (reason actor : string) (bulk : bool) (t : Z) (x : Row) : Row :=
  mkRow (rv_ID x) (rv_Fingerprint x) reason bulk StateActive actor (rv_CreatedAt x) t.

Definition addTx (fp reason actor : string) (bulk : bool) : M VStore verr Row :=
  t ← now;
  x ← query (fun s => find_first (has_fp fp) (revs s));
  match x with
  | None =>
      exec_err (fun s =>
        let row := mkRow (rv_seq s) fp reason bulk StateActive actor t t in
        if existsb (has_fp fp) (revs s) then Err V_Duplicated
        else Ok (row, set_revs (revs s ++ [row]) (rv_seq s + 1) s))
  | Some x =>
      if decide (rv_State x = StateActive) then throw V_AlreadyActive
      else
        _ ← exec (fun s => ((), set_revs (map (fun y => if has_fp fp y then reactivate reason actor bulk t y else y) (revs s))
                                  (rv_seq s) s));
        mret (reactivate reason actor bulk t x)
  end.

(** [add] *)
Definition add (fp reason actor : string) (bulk : bool) : M VStore verr Row :=
  row ← tx (addTx fp reason actor bulk);
  _ ← recordAudit actor "revocation-add" fp ("reason=" +:+ quote reason);
  mret row.

Definition Add (fingerprint reason actor : string) : M VStore verr Row :=
  let fp := normFingerprint fingerprint in
  if decide (fp = "") then throw V_NoFingerprint
  else if negb (validFingerprint fp) then throw V_InvalidFingerprint
  else _ ← protectControlPlane fp; add fp reason actor false.

(** Step 1 of [applyBulk]: normalise, drop empties and repeats, refuse malformed. *)
Fixpoint norm_fps (seen raws : list string) : result verr (list string) :=
  match raws with
  | [] => Ok []
  | raw :: raws =>
      let fp := normFingerprint raw in
      if bool_decide (fp = "") || bool_decide (fp ∈ seen) then norm_fps seen raws
      else if negb (validFingerprint fp) then Err V_InvalidFingerprint
      else match norm_fps (fp :: seen) raws with Ok fps => Ok (fp :: fps) | Err e => Err e end
  end.

(** Step 4's loop. *)
Fixpoint apply_fps (reason actor : string) (fps : list string) (applied : Z) : M VStore verr Z :=
  match fps with
  | [] => mret applied
  | fp :: fps =>
      x ← attempt (addTx fp reason actor true);
      match x with
      | Ok _ => apply_fps reason actor fps (applied + 1)
      | Err V_AlreadyActive => apply_fps reason actor fps applied
      | Err e => throw e
      end
  end.

Definition in_flight (windowStart : Z) (ch : Change) : bool :=
  bool_decide (ch_Kind ch = BulkRevokeKind) &&
  (bool_decide (ch_State ch = StateCommitting) || bool_decide (ch_State ch = StateCommitted)) &&
  (windowStart <=? ch_CreatedAt ch).

Definition bulk_tx (reason actor : string) (fps : list string) (windowStart : Z) : M VStore verr Z :=
  _ ← (if v_postgres r then exec (fun s => ((), s)) else mret ());
  n ← query (fun s => Z.of_nat (length (List.filter (in_flight windowStart) (approvals_t s))));
  if MaxBulkPerWindow <? n then throw V_BulkRateLimited else apply_fps reason actor fps 0.

Definition applyBulk (spec : BulkRevokeSpec) (actor : string) : M VStore verr unit :=
  match norm_fps [] (sp_Fingerprints spec) with
  | Err e => throw e
  | Ok fps =>
      if decide (fps = []) then throw V_BulkEmpty
      else if MaxBulkFingerprints <? Z.of_nat (length fps) then throw V_BulkTooLarge
      else
        _ ← for_each fps protectControlPlane;
        t ← now;
        applied ← tx (bulk_tx (sp_Reason spec) actor fps (t - BulkWindow));
        recordAudit actor "revocation-bulk" BulkRevokeKind
          ("applied=" +:+ pretty applied +:+ " requested=" +:+ pretty (Z.of_nat (length fps)) +:+ " reason=" +:+ quote (sp_Reason spec))
  end.

(** What [RegisterCommitter] installs for [BulkRevokeKind]. *)
Definition bulk_committer (decode : string -> option BulkRevokeSpec) (ch : Change) : M VStore verr unit :=
  match decode (ch_Payload ch) with
  | None => throw V_BadPayload
  | Some spec => applyBulk spec (ch_Proposer ch)
  end.

Definition lift_row (t : Z) (x : Row) : Row :=
  mkRow (rv_ID x) (rv_Fingerprint x) (rv_Reason x) (rv_Bulk x) StateLifted (rv_CreatedBy x) (rv_CreatedAt x) t.

Definition Lift (fingerprint actor : string) : M VStore verr unit :=
  let fp := normFingerprint fingerprint in
  if decide (fp = "") then throw V_NoFingerprint
  else
    changed ← tx (
      x ← query (fun s => find_first (has_fp fp) (revs s));
      match x with
      | None => mret false
      | Some x =>
          if decide (rv_State x = StateLifted) then mret false
          else
            t ← now;
            _ ← exec (fun s => ((), set_revs (map (fun y => if has_fp fp y then lift_row t y else y) (revs s)) (rv_seq s) s));
            mret true
      end);
    if changed : bool then recordAudit actor "revocation-lift" fp "" else mret ().

Definition active_fps (s : VStore) : list string :=
  map rv_Fingerprint (List.filter (fun x => bool_decide (rv_State x = StateActive)) (revs s)).

Definition ActiveFingerprints : M VStore verr (list string) :=
  query (fun s => sort_strings (active_fps s)).

Definition ListRows : M VStore verr (list Row) := query (fun s => rev (revs s)).
End registry.

(** ** The blocklist under concurrent registries *)

Section properties.
Context (r : VRegistry) (quote : string -> string).

Definition blocked (fp : string) (s : VStore) : Prop := fp ∈ active_fps s.

(** What the guard promises of a fingerprint that may be blocked. *)
Definition allowed (fp : string) (s : VStore) : Prop :=
  validFingerprint fp = true /\ forall e, latest_issued fp s = Some e -> is_protected r e = false.

Record v_inv (s : VStore) : Prop := mkVInv {
  vi_unique : NoDup (rv_Fingerprint <$> revs s);
  vi_allowed : forall fp, blocked fp s -> allowed fp s;
}.

(** A statement of somebody's: rows rewritten in place, or a row added. *)
Inductive v_step (s s' : VStore) : Prop :=
| vs_rows f : revs s' = map f (revs s) -> (forall x, rv_Fingerprint (f x) = rv_Fingerprint x) ->
    (forall x, x ∈ revs s -> rv_State (f x) = StateActive -> rv_State x = StateActive \/ allowed (rv_Fingerprint x) s) ->
    enrollments s' = enrollments s -> v_step s s'
| vs_new x : revs s' = revs s ++ [x] -> existsb (has_fp (rv_Fingerprint x)) (revs s) = false ->
    allowed (rv_Fingerprint x) s -> enrollments s' = enrollments s -> v_step s s'.

Lemma allowed_frame fp s s' : enrollments s' = enrollments s -> allowed fp s -> allowed fp s'.
Proof. intros He [Hv Hp]. split; [done|]. unfold latest_issued. by rewrite He. Qed.

Lemma blocked_row fp s : blocked fp s <-> exists x, x ∈ revs s /\ rv_Fingerprint x = fp /\ rv_State x = StateActive.
Proof.
  unfold blocked, active_fps. change (map ?f ?l) with (f <$> l). rewrite list_elem_of_fmap. split.
  - intros (x & -> & Hx). apply list_elem_of_In, filter_In in Hx as [Hx%list_elem_of_In Hs]. bool_split. eauto.
  - intros (x & Hx & <- & Hs). exists x. split; [done|]. apply list_elem_of_In, filter_In.
    split; [by apply list_elem_of_In|by apply bool_decide_eq_true].
Qed.

Lemma v_step_enrollments s s' : v_step s s' -> enrollments s' = enrollments s.
Proof. by destruct 1. Qed.

Lemma v_inv_step s s' : v_step s s' -> v_inv s -> v_inv s'.
Proof.
  intros Hs [Hu Ha]. pose proof (v_step_enrollments _ _ Hs) as He.
  destruct Hs as [f Hr Hf Hok _|x Hr Hnew Hx _]; split.
  - rewrite Hr. change (map f) with (fmap (M:=list) f). rewrite <- list_fmap_compose.
    erewrite list_fmap_ext; [exact Hu|]. intros ? ? ?. apply Hf.
  - intros fp (x & Hx & <- & Hst)%blocked_row. rewrite Hr in Hx. apply list_elem_of_fmap in Hx as (y & -> & Hy).
    rewrite Hf. apply (allowed_frame _ s); [done|]. destruct (Hok y Hy Hst) as [Hy'|?]; [|done].
    apply Ha, blocked_row. eauto.
  - rewrite Hr, fmap_app. apply NoDup_app. split_and!; [done| |apply NoDup_singleton].
    intros fp (y & -> & Hy)%list_elem_of_fmap Hx'%list_elem_of_singleton.
    eapply existsb_elem_false in Hnew; [|exact Hy]. unfold has_fp in Hnew. by bool_split.
  - intros fp (y & Hy & <- & Hst)%blocked_row. rewrite Hr in Hy. apply (allowed_frame _ s); [done|].
    apply elem_of_app in Hy as [Hy|Hy%list_elem_of_singleton]; [|by subst].
    apply Ha, blocked_row. eauto.
Qed.

Lemma v_steps_enrollments s s' : rtc v_step s s' -> enrollments s' = enrollments s.
Proof. induction 1 as [|x y z Hxy _ IH]; [done|]. by rewrite IH, (v_step_enrollments _ _ Hxy). Qed.

Lemma v_inv_steps s s' : rtc v_step s s' -> v_inv s -> v_inv s'.
Proof. intros H. apply rtc_invariant with (2 := H). apply v_inv_step. Qed.

Lemma allowed_steps fp s s' : rtc v_step s s' -> allowed fp s -> allowed fp s'.
Proof. intros H. by apply allowed_frame, v_steps_enrollments. Qed.

(** Adding one fingerprint, alone in its transaction. *)
Lemma addTx_wp T fp reason actor bulk s : v_inv s -> allowed fp s ->
  wpt T eq (fun _ _ => True) (addTx fp reason actor bulk) (fun res s' =>
    match res with
    | Ok row => ~ blocked fp s /\ v_step s s' /\ approvals_t s' = approvals_t s /\ v_audit s' = v_audit s /\
        rv_Fingerprint row = fp /\ rv_State row = StateActive /\ forall g, blocked g s' <-> blocked g s \/ g = fp
    | Err V_AlreadyActive => blocked fp s /\ s' = s
    | Err _ => s' = s
    end) s.
Proof.
  intros Hi Hal. unfold addTx. wp_step. wp_step. wp_step. wp_step; [done|].
  destruct (find_first _ _) as [x|] eqn:Ef.
  - apply find_first_Some in Ef as [Hin Hfp]. unfold has_fp in Hfp. bool_split.
    destruct (decide (rv_State x = StateActive)) as [Hst|Hst]; [wp_step; split; [|done]; apply blocked_row; eauto|].
    assert (Hone : forall y, y ∈ revs s -> has_fp fp y = true -> y = x).
    { intros y Hy Hf. unfold has_fp in Hf. bool_split.
      apply list_elem_of_lookup in Hin as [i Hi1]. apply list_elem_of_lookup in Hy as [j Hj]. assert (i = j) as ->; [|congruence].
      eapply (NoDup_lookup (rv_Fingerprint <$> revs s)); [apply Hi| |]; rewrite list_lookup_fmap; [by rewrite Hi1|].
      rewrite Hj. cbn. congruence. }
    wp_step. wp_step; [done|]. split; [done|]. wp_step. cbn. split_and!; [| |done|done|done|done|].
    + intros (y & Hy & Hyf & Hys)%blocked_row. rewrite (Hone y) in Hys; [done|done|]. by apply bool_decide_eq_true.
    + eapply vs_rows; [reflexivity| | |done].
      * intros y. cbn. by destruct (has_fp _ _).
      * intros y Hy. cbn. destruct (has_fp fp y) eqn:E; [|by left]. intros _. right. unfold has_fp in E. bool_split. by rewrite E.
    + intros g. rewrite !blocked_row. cbn. change (map ?f ?l) with (f <$> l). setoid_rewrite list_elem_of_fmap. split.
      * intros (? & (y & -> & Hy) & Hg & Hs). destruct (has_fp fp y) eqn:E; [right|left; eauto].
        unfold has_fp in E. bool_split. cbn in Hg. congruence.
      * intros [(y & Hy & <- & Hs)| ->].
        -- destruct (has_fp fp y) eqn:E; [|exists y; split_and!; [exists y; by rewrite E|done|done]].
           rewrite (Hone y Hy E) in Hs. done.
        -- exists (reactivate reason actor bulk t x). split_and!; [|done|done]. exists x. split; [|done].
           unfold has_fp. by rewrite (proj2 (bool_decide_eq_true _) Hfp).
  - wp_step; [done|]. destruct (existsb _ _) eqn:Ee; [done|].
    assert (Hno : ~ blocked fp s).
    { intros (y & Hy & Hyf & _)%blocked_row. eapply existsb_elem_false in Ee; [|exact Hy]. unfold has_fp in Ee. by bool_split. }
    split; [done|]. cbn. split_and!; [done| |done|done|done|done|].
    + eapply vs_new; [reflexivity|done|done|done].
    + intros g. rewrite !blocked_row. cbn. setoid_rewrite elem_of_app. setoid_rewrite list_elem_of_singleton. split.
      * intros (y & [Hy| ->] & <- & Hs); [left; eauto|by right].
      * intros [(y & Hy & <- & Hs)| ->]; [eauto|]. eexists. split_and!; [right; reflexivity|done|done].
Qed.

Lemma frame_step s s' : revs s' = revs s -> enrollments s' = enrollments s -> v_step s s'.
Proof. intros Hr He. apply (vs_rows s s' id); [by rewrite Hr, map_id|done|by left|done]. Qed.

Lemma apply_fps_wp T reason actor fps n s : v_inv s -> (forall fp, fp ∈ fps -> allowed fp s) ->
  wpt T eq (fun _ _ => True) (apply_fps reason actor fps n) (fun res s' =>
    match res with
    | Ok k => rtc v_step s s' /\ approvals_t s' = approvals_t s /\ v_audit s' = v_audit s /\
        n <= k <= n + Z.of_nat (length fps) /\ forall g, blocked g s' <-> blocked g s \/ g ∈ fps
    | Err _ => True
    end) s.
Proof.
  revert n s. induction fps as [|fp fps IH]; intros n s Hi Hal; cbn.
  - wp_step. split_and!; [constructor|done|done|lia|lia|]. intros g. rewrite elem_of_nil. naive_solver.
  - wp_step. wp_step. eapply wp_mono; [apply addTx_wp; [done|apply Hal; constructor]|].
    intros res s1 _ Hres. destruct res as [row|e].
    + destruct Hres as (_ & Hst & Hap & Hau & _ & _ & Hb).
      eapply wp_mono; [apply IH; [by eapply v_inv_step|]|].
      { intros g Hg. apply (allowed_steps _ s); [by apply rtc_once|]. apply Hal. by constructor. }
      intros [k|e] s2 _; [|done]. intros (Hs & Hap2 & Hau2 & Hk & Hb2). split_and!; [by eapply rtc_l|congruence|congruence|lia|lia|].
      intros g. rewrite Hb2, Hb, elem_of_cons. tauto.
    + destruct e; try (by wp_step). destruct Hres as [Hbl ->].
      eapply wp_mono; [apply IH; [done|intros g Hg; apply Hal; by constructor]|].
      intros [k|e] s2 _; [|done]. intros (Hs & Hap2 & Hau2 & Hk & Hb2). split_and!; [done|done|done|lia|lia|].
      intros g. rewrite Hb2, elem_of_cons. split; [tauto|]. intros [?|[->|?]]; auto.
Qed.

(** What the normalised list of a bulk holds. *)
Definition requested (raws : list string) (g : string) : Prop := g <> "" /\ exists raw, raw ∈ raws /\ normFingerprint raw = g.

Lemma norm_fps_spec raws : forall seen fps, norm_fps seen raws = Ok fps ->
  NoDup fps /\ (forall g, g ∈ fps -> g ∉ seen /\ validFingerprint g = true) /\
  (forall g, requested raws g <-> g ∈ fps \/ (requested raws g /\ g ∈ seen)).
Proof.
  induction raws as [|raw raws IH]; intros seen fps; cbn.
  - intros [= <-]. split_and!; [constructor|by intros ? ?%elem_of_nil|].
    intros g. unfold requested. split; [|intros [?%elem_of_nil|?]; [done|tauto]]. intros (_ & ? & ?%elem_of_nil & _). done.
  - assert (Hreq : forall g, requested (raw :: raws) g <-> (g <> "" /\ g = normFingerprint raw) \/ requested raws g).
    { intros g. unfold requested. setoid_rewrite elem_of_cons. naive_solver. }
    destruct (bool_decide (normFingerprint raw = "") || _) eqn:Esk.
    + intros H. destruct (IH _ _ H) as (Hnd & Hv & Hin). split_and!; [done|done|]. intros g. rewrite Hreq.
      apply orb_true_iff in Esk as [E|E]; bool_split; rewrite Hin; naive_solver.
    + bool_split. destruct (validFingerprint _) eqn:Ev; cbn; [|done].
      destruct (norm_fps _ raws) as [fps'|] eqn:E; [|done]. intros [= <-].
      destruct (IH _ _ E) as (Hnd & Hv & Hin). split_and!.
      * constructor; [|done]. intros Hx. apply Hv in Hx as [Hx _]. apply Hx. constructor.
      * intros g [->|Hg]%elem_of_cons; [done|]. destruct (Hv g Hg) as [Hx ?]. split; [|done]. intros ?. apply Hx. by constructor.
      * intros g. rewrite Hreq, Hin, !elem_of_cons. naive_solver.
Qed.

Section rely.
Context (T : Z -> Prop) (R : relation VStore) `{!PreOrder R} (HRv : forall a b, R a b -> rtc v_step a b).

(** The guard passes only fingerprints that may be blocked. *)
Lemma protect_wp fp s : validFingerprint fp = true ->
  wpt T R (rtc v_step) (protectControlPlane r fp) (fun res s' => R s s' /\
    match res with Ok _ => allowed fp s' | Err _ => True end) s.
Proof using HRv.
  intros Hv. unfold protectControlPlane. wp_step. wp_step; [done|].
  destruct (latest_issued fp s0) as [e|] eqn:El.
  - destruct (is_protected r e) eqn:Ep; wp_step; [done|]. split; [done|]. split; [done|]. intros e' He'. congruence.
  - wp_step. split; [done|]. split; [done|]. congruence.
Qed.

Lemma protect_all_wp fps s : (forall fp, fp ∈ fps -> validFingerprint fp = true) ->
  wpt T R (rtc v_step) (for_each fps (protectControlPlane r)) (fun res s' => R s s' /\
    match res with Ok _ => forall fp, fp ∈ fps -> allowed fp s' | Err _ => True end) s.
Proof using All.
  revert s. induction fps as [|fp fps IH]; intros s Hv; cbn.
  - wp_step. split; [done|]. by intros ? ?%elem_of_nil.
  - wp_step. eapply wp_mono; [apply protect_wp, Hv; constructor|].
    intros [[]|e] s1 _ [Hs1 Hal]; [|done]. eapply wp_mono; [apply IH; intros; apply Hv; by constructor|].
    intros res s2 _ [Hs2 Hall]. split; [by etrans|]. destruct res; [|done].
    intros g [->|Hg]%elem_of_cons; [|by apply Hall]. by eapply allowed_steps; [apply HRv|].
Qed.

Lemma audit_wp actor action target details s (Q : result verr unit -> VStore -> Prop) :
  (forall s1 s2, R s s1 -> revs s2 = revs s1 -> enrollments s2 = enrollments s1 -> Q (Ok ()) s2) ->
  wpt T R (rtc v_step) (recordAudit r actor action target details) Q s.
Proof using All.
  intros HQ. unfold recordAudit. destruct (v_hasAudit r); [|wp_step; by eapply HQ].
  wp_step. wp_step; [by eapply HQ|]. split; [by apply rtc_once, frame_step|by eapply HQ].
Qed.

(** [applyBulk]: the transaction's outcome, seen through the audit row. *)
Lemma applyBulk_wp spec actor s : v_inv s ->
  wpt T R (rtc v_step) (applyBulk r quote spec actor) (fun res s' =>
    match res with
    | Err _ => R s s'
    | Ok _ => exists fps t s1 s2 s3, norm_fps [] (sp_Fingerprints spec) = Ok fps /\
        0 < Z.of_nat (length fps) <= MaxBulkFingerprints /\ T t /\ R s s1 /\ R s2 s3 /\
        (forall fp, fp ∈ fps -> allowed fp s1) /\
        Z.of_nat (length (List.filter (in_flight (t - BulkWindow)) (approvals_t s1))) <= MaxBulkPerWindow /\
        (forall g, blocked g s2 <-> blocked g s1 \/ g ∈ fps) /\ revs s' = revs s3
    end) s.
Proof using All.
  intros Hi. unfold applyBulk. destruct (norm_fps [] (sp_Fingerprints spec)) as [fps|e] eqn:En; [|by wp_step].
  destruct (norm_fps_spec _ _ _ En) as (_ & Hv & _).
  destruct (decide (fps = [])) as [->|Hne]; [by wp_step|]. destruct (_ <? _) eqn:El; bool_split; [by wp_step|].
  wp_step. eapply wp_mono; [apply protect_all_wp; intros g Hg; by apply Hv|].
  intros [[]|e] s0 _ [Hs0 Hal]; [|done]. wp_step. wp_step. wp_step.
  wp_step; [by etrans|]. rename s1 into sx.
  assert (Hi1 : v_inv sx) by (eapply v_inv_steps; [apply HRv; etrans; [exact Hs0|done]|done]).
  assert (Hal1 : forall g, g ∈ fps -> allowed g sx) by (intros g Hg; eapply allowed_steps; [by apply HRv|by apply Hal]).
  unfold bulk_tx. wp_step.
  assert (Hlock : forall Q : result verr unit -> VStore -> Prop, Q (Ok ()) sx -> Q (Err V_Fault) sx ->
    wpt T eq (fun _ _ => True) (if v_postgres r then exec (fun s => ((), s)) else mret ()) Q sx).
  { intros Q H1 H2. destruct (v_postgres r); wp_step; auto. }
  apply Hlock; [|by etrans]. wp_step. wp_step; [by etrans|].
  destruct (_ <? _) eqn:Ert; bool_split; [wp_step; by etrans|].
  eapply wp_mono; [by apply apply_fps_wp|]. intros [k|e] s2 _; [|intros _; by etrans].
  intros (Hst & _ & _ & _ & Hb). split; [done|]. apply audit_wp. intros s3 s4 H3 Hr4 _.
  exists fps, t, sx, s2, s3. split_and!; [done|destruct fps; [done|cbn; lia]|done|done|by etrans|done|done|done|done|done].
Qed.

Lemma Add_wp fingerprint reason actor s : v_inv s ->
  wpt T R (rtc v_step) (Add r quote fingerprint reason actor) (fun res s' => rtc v_step s s' /\
    match res with
    | Ok row => rv_Fingerprint row = normFingerprint fingerprint /\ rv_State row = StateActive /\ allowed (rv_Fingerprint row) s'
    | Err _ => R s s'
    end) s.
Proof using All.
  intros Hi. unfold Add. destruct (decide _); [wp_step; by split|].
  destruct (validFingerprint _) eqn:Ev; cbn; [|wp_step; by split].
  wp_step. eapply wp_mono; [by apply protect_wp|]. intros [[]|e] s0 _ [Hs0 Hal]; [|split; [by apply HRv|done]].
  unfold add. wp_step. wp_step; [split; [apply HRv|]; by etrans|].
  assert (Hs1 : R s s1) by (by etrans). pose proof (HRv _ _ Hs1) as Hv1.
  pose proof (v_inv_steps _ _ Hv1 Hi) as Hi1.
  assert (Hal1 : allowed (normFingerprint fingerprint) s1) by (apply (allowed_steps _ s0); [by apply HRv|done]).
  eapply wp_mono; [by apply addTx_wp|]. intros [row|e] s2 _; [|intros _; by split].
  intros (_ & Hst & _ & _ & Hfp & Hact & _). split; [by apply rtc_once|].
  wp_step. apply audit_wp. intros s3 s4 H3 Hr4 He4. wp_step.
  assert (Hend : rtc v_step s1 s4).
  { eapply rtc_l; [exact Hst|]. etrans; [by apply HRv|]. by apply rtc_once, frame_step. }
  split; [by etrans|]. split_and!; [done|done|]. rewrite Hfp. by eapply allowed_steps.
Qed.

Lemma Lift_wp fingerprint actor s :
  wpt T R (rtc v_step) (Lift r fingerprint actor) (fun _ s' => rtc v_step s s') s.
Proof using All.
  unfold Lift. destruct (decide _); [by wp_step|]. wp_step. wp_step; [by apply HRv|]. pose proof (HRv _ _ HR) as Hv.
  wp_step. wp_step; [done|].
  assert (Hend : forall s2, rtc v_step s0 s2 -> wpt T R (rtc v_step) (recordAudit r actor "revocation-lift" (normFingerprint fingerprint) "")
     (fun _ s' => rtc v_step s s') s2).
  { intros s2 H2. apply audit_wp. intros s3 s4 H3 Hr He. etrans; [exact Hv|]. etrans; [exact H2|].
    etrans; [by apply HRv|]. by apply rtc_once, frame_step. }
  destruct (find_first _ _) as [x|]; [|wp_step; split; [done|by wp_step]].
  destruct (decide _); [wp_step; split; [done|by wp_step]|]. wp_step. wp_step. wp_step. wp_step; [done|].
  split; [done|]. wp_step.
  assert (Hs : v_step s0 (set_revs (map (fun y => if has_fp (normFingerprint fingerprint) y then lift_row t y else y) (revs s0)) (rv_seq s0) s0)).
  { eapply vs_rows; [reflexivity| | |done]; intros y; cbn; destruct (has_fp (normFingerprint fingerprint) y); cbn; [done|done|done|by left]. }
  split; [by apply rtc_once|]. apply Hend. by apply rtc_once.
Qed.
End rely.

(** C5: the control plane is never blocklisted. While other registries add, lift and
    bulk-revoke at every point in between (the enrollments staying as they are), and
    whatever calls fail: every outcome of [Add], of a bulk revoke and of [Lift] leaves one row per
    fingerprint, and every active row is a 64-digit lowercase hex fingerprint whose
    latest issued enrollment neither holds a reserved group nor lies in the central
    block. A successful [Add] made the normalised fingerprint active. *)
Theorem control_plane_never_blocklisted (T : Z -> Prop) s : v_inv s ->
  (forall fingerprint reason actor, wpt T (rtc v_step) (rtc v_step) (Add r quote fingerprint reason actor)
     (fun res s' => v_inv s' /\ forall row, res = Ok row ->
        rv_Fingerprint row = normFingerprint fingerprint /\ rv_State row = StateActive /\ allowed (rv_Fingerprint row) s') s) /\
  (forall spec actor, wpt T (rtc v_step) (rtc v_step) (applyBulk r quote spec actor) (fun _ s' => v_inv s') s) /\
  (forall fingerprint actor, wpt T (rtc v_step) (rtc v_step) (Lift r fingerprint actor) (fun _ s' => v_inv s') s).
Proof.
  assert (Hst : stable (rtc v_step) v_inv) by (intros a b; apply v_inv_steps).
  intros Hi. split_and!; intros.
  - eapply wp_mono; [by apply (Add_wp T (rtc v_step))|]. intros res s' _ [Hs Hr]. split; [by eapply v_inv_steps|].
    by intros row ->.
  - eapply wp_mono; [eapply wp_invariant with (I := v_inv); [by apply (applyBulk_wp T (rtc v_step))|done|done|done]|]. by intros ? ? _ [_ ?].
  - eapply wp_mono; [by apply (Lift_wp T (rtc v_step))|]. intros res s' _ Hs. eapply v_inv_steps; [exact Hs|done].
Qed.

(** A bulk revoke is all or nothing. Alone, and whatever calls fail: on an error no
    row of the table changed; on success between one and [MaxBulkFingerprints]
    fingerprints were requested, none of them a protected host's, at most
    [MaxBulkPerWindow] bulk changes created in the last window (its own included) had
    reached the committer, and the blocklist is the old one and exactly the requested
    fingerprints. *)
Theorem bulk_revoke_all_or_nothing (T : Z -> Prop) spec actor s : v_inv s ->
  wpt T eq (rtc v_step) (applyBulk r quote spec actor) (fun res s' =>
    match res with
    | Err _ => s' = s
    | Ok _ => (exists fps, NoDup fps /\ (forall g, g ∈ fps <-> requested (sp_Fingerprints spec) g) /\
                 0 < Z.of_nat (length fps) <= MaxBulkFingerprints) /\
        (forall g, requested (sp_Fingerprints spec) g -> allowed g s) /\
        (exists t, T t /\ Z.of_nat (length (List.filter (in_flight (t - BulkWindow)) (approvals_t s))) <= MaxBulkPerWindow) /\
        (forall g, blocked g s' <-> blocked g s \/ requested (sp_Fingerprints spec) g)
    end) s.
Proof.
  intros Hi. eapply wp_mono; [apply (applyBulk_wp T eq); [intros a b ->; constructor|done]|].
  intros [[]|e] s' _; [|by intros <-].
  intros (fps & t & s1 & s2 & s3 & En & Hlen & Ht & <- & -> & Hal & Hrate & Hb & Hr).
  destruct (norm_fps_spec _ _ _ En) as (Hnd & _ & Hin).
  assert (Hreq : forall g, g ∈ fps <-> requested (sp_Fingerprints spec) g).
  { intros g. rewrite Hin, elem_of_nil. tauto. }
  split_and!; [by exists fps|intros g Hg; by apply Hal, Hreq|by exists t|].
  intros g. rewrite <- Hreq, <- Hb. unfold blocked, active_fps. by rewrite Hr.
Qed.
End properties.

(** An unchanged blocklist renders identically. The list Core puts into every
    bundle is strictly sorted, without repeats, and exactly the active fingerprints;
    so two tables (whatever their row order, history, reasons and lifted rows) give
    the same list exactly when they block the same fingerprints. *)
Theorem blocklist_is_canonical (r r' : VRegistry) (t : Z) (s s' : VStore) : v_inv r s -> v_inv r' s' ->
  exists l l', run t ActiveFingerprints s = (Ok l, s) /\ run t ActiveFingerprints s' = (Ok l', s') /\
    StronglySorted string_le l /\ NoDup l /\ (forall fp, fp ∈ l <-> blocked fp s) /\
    (l = l' <-> forall fp, blocked fp s <-> blocked fp s').
Proof.
  intros Hi Hi'. exists (sort_strings (active_fps s)), (sort_strings (active_fps s')).
  assert (Hnd : forall r s, v_inv r s -> NoDup (active_fps s)).
  { clear. intros r s Hi. unfold active_fps. pose proof (vi_unique _ _ Hi) as Hu.
    induction (revs s) as [|x l IH]; cbn in *; [constructor|]. apply NoDup_cons in Hu as [Hx Hu].
    specialize (IH Hu). destruct (bool_decide _); cbn; [|done]. constructor; [|done].
    intros (y & Hy & Hin)%list_elem_of_In%in_map_iff. apply Hx, list_elem_of_fmap. exists y. split; [done|].
    apply filter_In in Hin as [? _]. by apply list_elem_of_In. }
  assert (Hset : (forall fp, blocked fp s <-> blocked fp s') <-> active_fps s ≡ₚ active_fps s').
  { split; [intros H; apply NoDup_Permutation; [by eapply Hnd..|done]|]. intros H fp. unfold blocked. by rewrite H. }
  split_and!; [done|done|apply sort_strings_sorted| | |].
  - rewrite sort_strings_perm. by eapply Hnd.
  - intros fp. by rewrite sort_strings_perm.
  - by rewrite <- sort_strings_ext, Hset.
Qed.

(** ** A table, its bulk, and the rate limit *)

Fixpoint repeat_char (n : nat) (c : ascii) : string :=
  match n with O => "" | S n => String c (repeat_char n c) end.
Definition demo_fp : string := repeat_char 64 "a".
Definition demo_cp : string := repeat_char 64 "b".
Definition demo_reg : VRegistry := New true true.
Definition demo_q (s : string) : string := s.
Definition demo_bulk : BulkRevokeSpec := mkSpec [" " +:+ repeat_char 64 "A"; demo_fp; ""] "stolen".

(** A change proposed at [created] that is being committed. *)
Definition committing (id created : Z) : Change :=
  mkChange id BulkRevokeKind "" "" "" StateCommitting 2 "alice" created 0.
Definition demo_table : VStore :=
  mkVStore [] 1 [mkEnrolled demo_cp "issued" ["control-plane"] ""] [committing 1 0] [].

Lemma demo_table_inv : v_inv demo_reg demo_table.
Proof. split; [constructor|]. by intros fp ?%elem_of_nil. Qed.

Lemma control_plane_never_blocklisted_witness :
  (run 9 (Add demo_reg demo_q demo_cp "x" "alice") demo_table).1 = Err V_ControlPlaneProtected /\
  wpt (fun _ => True) (rtc (v_step demo_reg)) (rtc (v_step demo_reg)) (Lift demo_reg demo_fp "alice") (fun _ s' => v_inv demo_reg s') demo_table.
Proof.
  split; [vm_compute; reflexivity|].
  apply (control_plane_never_blocklisted demo_reg demo_q (fun _ => True) demo_table demo_table_inv).
Defined.

Lemma bulk_revoke_all_or_nothing_witness :
  active_fps (run 9 (applyBulk demo_reg demo_q demo_bulk "alice") demo_table).2 = [demo_fp] /\
  let (res, s') := run 9 (applyBulk demo_reg demo_q demo_bulk "alice") demo_table in
  res = Ok () /\ forall g, blocked g s' <-> blocked g demo_table \/ requested (sp_Fingerprints demo_bulk) g.
Proof.
  split; [vm_compute; reflexivity|].
  pose proof (bulk_revoke_all_or_nothing demo_reg demo_q (fun _ => True) demo_bulk "alice" demo_table demo_table_inv
    (quiet 9) 0%nat (fun _ _ => eq_refl) (fun _ => I)) as H.
  unfold run. destruct (applyBulk demo_reg demo_q demo_bulk "alice" (quiet 9) 0%nat demo_table) as [[res n] s'] eqn:E.
  destruct H as [_ H]. vm_compute in E. injection E as <- _ <-. split; [reflexivity|]. apply H.
Defined.

Lemma blocklist_is_canonical_witness :
  exists l l', run 9 ActiveFingerprints demo_table = (Ok l, demo_table) /\ run 9 ActiveFingerprints demo_table = (Ok l', demo_table) /\
    StronglySorted string_le l /\ NoDup l /\ (forall fp, fp ∈ l <-> blocked fp demo_table) /\
    (l = l' <-> forall fp, blocked fp demo_table <-> blocked fp demo_table).
Proof. apply (blocklist_is_canonical demo_reg demo_reg 9 demo_table demo_table demo_table_inv demo_table_inv). Defined.

(** Ten bulk changes proposed at time 0 and all approved at [2 * BulkWindow]: each is
    [committing] while its committer runs, [committed] for the ones after it. *)
Definition ten_old_bulks : VStore :=
  mkVStore [] 1 [] (map (fun i => mkChange (Z.of_nat i) BulkRevokeKind "" "" "" StateCommitted 2 "alice" 0 (2 * BulkWindow)) (seq 1 9)
                    ++ [committing 10 0]) [].

(** The bulk rate limit counts proposals, not commits. Nine bulk revokes that were
    committed at this very moment do not stop the tenth when their changes were
    proposed more than a window ago, although the limit is stated as three commits per
    window. *)
Theorem old_proposals_escape_rate_limit :
  Forall (fun ch => ch_State ch = StateCommitted -> ch_DecidedAt ch = 2 * BulkWindow) (approvals_t ten_old_bulks) /\
  length (List.filter (fun ch => bool_decide (ch_State ch = StateCommitted)) (approvals_t ten_old_bulks)) = 9%nat /\
  (run (2 * BulkWindow) (applyBulk demo_reg demo_q demo_bulk "alice") ten_old_bulks).1 = Ok ().
Proof. split_and!; [repeat (constructor; [by intros|]); by constructor|reflexivity|vm_compute; reflexivity]. Qed.
