(* ===== verification/Trust.v ===== *)
(** * Who may attest: internal/awsattest (Core side), internal/cloudtrust, internal/usertrust

    [Verify] checks a presigned STS request against the enrollment it must be bound to and
    forwards it; [matchGlob] and [Check] are the allowlist; the two trust configs resolve
    a verified identity to groups, a netblock and an issue posture. The STS call, URL
    parsing and the XML decoder are parameters. A Go map is ranged over in an unspecified
    order: the header map is given by the orders its two ranges happen to take. *)

From S2P Require Import Prelude GoStrings Policy.
From stdpp Require Import prelude strings list gmap sorting.
From Stdlib Require Import ZArith Lia Ascii.
Open Scope Z_scope.

(** ** strings.Index, strings.HasSuffix *)

Fixpoint Index (s sub : string) : option nat :=
  if HasPrefix s sub then Some 0%nat
  else match s with
       | "" => None
       | String _ s => S <$> Index s sub
       end.

Definition HasSuffix (s suf : string) : bool :=
  (String.length suf <=? String.length s)%nat &&
  bool_decide (drop_chars (String.length s - String.length suf) s = suf).

Definition EqualFold (a b : string) : bool := bool_decide (ToLower a = ToLower b).

(** ** internal/awsattest *)

Inductive aterr : Type :=
| AT_Binding | AT_UnsignedBinding | AT_BadRequest | AT_BadEndpoint | AT_Attestation | AT_NotAllowed | AT_STSUnavailable.

Record Identity : Type := mkIdentity { id_Account : string; id_Arn : string; id_UserID : string }.

(** The middle parts of a pattern, each searched for in what is left. *)
Fixpoint match_middle (parts : list string) (s : string) : option string :=
  match parts with
  | [] => Some s
  | p :: parts =>
      match Index s p with
      | None => None
      | Some i => match_middle parts (drop_chars (i + String.length p) s)
      end
  end.

Definition matchGlob (pattern s : string) : bool :=
  match Split "*"%char pattern with
  | [] | [_] => bool_decide (pattern = s)
  | p0 :: rest =>
      if negb (HasPrefix s p0) then false
      else match match_middle (removelast rest) (drop_chars (String.length p0) s) with
           | None => false
           | Some s => HasSuffix s (List.last rest "")
           end
  end.

(** [awsattest.Policy] and its [Check]. *)
Record AllowList : Type := mkAllow { al_Accounts : list string; al_ARNPatterns : list string }.

Definition Check (p : AllowList) (id : Identity) : result aterr unit :=
  if negb (bool_decide (al_Accounts p = [])) && negb (bool_decide (id_Account id ∈ al_Accounts p)) then Err AT_NotAllowed
  else if negb (bool_decide (al_ARNPatterns p = [])) && negb (existsb (fun pat => matchGlob pat (id_Arn id)) (al_ARNPatterns p))
  then Err AT_NotAllowed
  else Ok ().

Record PresignedRequest : Type := mkPresigned {
  ps_Method : string;
  ps_URL : string;
  ps_Headers : gmap string string;
  ps_Body : string;
}.

Definition stsBody : string := "Action=GetCallerIdentity&Version=2011-06-15".

Definition signedHeaderSet (authz : string) : result aterr (list string) :=
  let marker := "SignedHeaders=" in
  match Index authz marker with
  | None => Err AT_BadRequest
  | Some i =>
      let rest := drop_chars (i + String.length marker) authz in
      let rest := match Cut "," rest with (lo, _, _) => lo end in
      Ok (map ToLower (Split ";" (TrimSpace rest)))
  end.

(** A range over the header map that writes each value under its lower-case name: the
    last one written stays. *)
Definition by_lower_name (order : list (string * string)) : gmap string string :=
  fold_left (fun m kv => <[ToLower kv.1 := kv.2]> m) order ∅.

(** The indexing of a Go map: the zero value when absent. *)
Definition at_ (m : gmap string string) (k : string) : string := default "" (m !! k).

Definition region_char (c : ascii) : bool :=
  let n := N_of_ascii c in (((97 <=? n) && (n <=? 122)) || ((48 <=? n) && (n <=? 57)) || (n =? 45))%N.

(** [^sts(\.[a-z0-9-]+)?\.amazonaws\.com$] *)
Definition stsHost (h : string) : bool :=
  bool_decide (h = "sts.amazonaws.com") ||
  (HasPrefix h "sts." && HasSuffix h ".amazonaws.com" &&
   let region := chars (drop_chars 4 h) in
   let region := take (length region - 14) region in
   negb (bool_decide (region = [])) && forallb region_char region).

(** What the HTTP exchange with STS gives. *)
Inductive sts_reply : Type := Unreachable | Replied (status : Z) (body : string).

Record Url : Type := mkUrl { u_Scheme : string; u_Hostname : string; u_Host : string }.

Section verify.
Context (parseURL : string -> option Url).                                   (* net/url *)
Context (sts : string -> string -> gmap string string -> string -> sts_reply).  (* target, Host, headers, body *)
Context (decodeXML : string -> option Identity).                             (* encoding/xml *)

(** [range1] and [range2] are the orders of the two ranges over [pres.Headers]:
    [lowerHeaders] and the copy into the forwarded request. Header names are
    case-insensitive there: [Header.Set] canonicalises them. *)
Definition Verify (endpoint : string) (range1 range2 : list (string * string)) (pres : PresignedRequest)
    (expectedNonce expectedPubkeyHash : string) : result aterr Identity :=
  if negb (EqualFold (ps_Method pres) "POST") || negb (bool_decide (ps_Body pres = stsBody)) then Err AT_BadRequest
  else
    let h := by_lower_name range1 in
    if negb (bool_decide (at_ h "x-harbor-nonce" = expectedNonce)) ||
       negb (bool_decide (at_ h "x-harbor-pubkey-hash" = expectedPubkeyHash)) then Err AT_Binding
    else match signedHeaderSet (at_ h "authorization") with
    | Err e => Err e
    | Ok signed =>
        if negb (bool_decide ("x-harbor-nonce" ∈ signed)) || negb (bool_decide ("x-harbor-pubkey-hash" ∈ signed)) ||
           negb (bool_decide ("host" ∈ signed)) then Err AT_UnsignedBinding
        else match parseURL (ps_URL pres) with
        | None => Err AT_BadEndpoint
        | Some u =>
            if negb (bool_decide (u_Scheme u = "https")) || negb (stsHost (u_Hostname u)) then Err AT_BadEndpoint
            else
              let target := if decide (endpoint = "") then ps_URL pres else endpoint in
              match sts target (u_Host u) (by_lower_name range2) (ps_Body pres) with
              | Unreachable => Err AT_STSUnavailable
              | Replied status raw =>
                  if (status =? 429) || (500 <=? status) then Err AT_STSUnavailable
                  else if negb (status =? 200) then Err AT_Attestation
                  else match decodeXML raw with
                       | Some id => if decide (id_Account id = "") then Err AT_Attestation else Ok id
                       | None => Err AT_Attestation
                       end
              end
        end
    end.
End verify.

(** ** internal/cloudtrust and internal/usertrust *)

(** [resolveGroups]: the union, sorted. *)
Definition resolveGroups (defaults groups : list string) : list string :=
  sort_strings (remove_dups (defaults ++ groups)).

Module CloudTrust.
Record AWSAccount : Type := mkAccount {
  a_Account : string;
  a_ARNPatterns : list string;
  a_Groups : list string;
  a_AutoIssue : bool;
  a_Netblock : string;
}.

Record Config : Type := mkConfig { c_DefaultGroups : list string; c_AWS : list AWSAccount }.

Inductive cterr : Type := CT_Empty | CT_NoAccount | CT_DupAccount.

Fixpoint validate_accounts (seen : list string) (l : list AWSAccount) : result cterr unit :=
  match l with
  | [] => Ok ()
  | a :: l =>
      if decide (a_Account a = "") then Err CT_NoAccount
      else if decide (a_Account a ∈ seen) then Err CT_DupAccount
      else validate_accounts (a_Account a :: seen) l
  end.

Definition Validate (c : Config) : result cterr unit :=
  if decide (c_AWS c = []) then Err CT_Empty else validate_accounts [] (c_AWS c).

(** [Parse]: [decode] is the strict JSON decoder. *)
Definition Parse (decode : string -> option Config) (b : string) : option (result cterr Config) :=
  match decode b with
  | None => None
  | Some c => Some (match Validate c with Ok _ => Ok c | Err e => Err e end)
  end.

Definition ContainsPrivileged (c : Config) : bool :=
  existsb IsReservedGroup (c_DefaultGroups c) ||
  existsb (fun a => a_AutoIssue a || existsb IsReservedGroup (a_Groups a)) (c_AWS c).

Definition gate (a : AWSAccount) : AllowList := mkAllow [a_Account a] (a_ARNPatterns a).

(** Groups, netblock and auto-issue of the first entry that admits the identity. *)
Definition MatchAWS (c : Config) (id : Identity) : option (list string * string * bool) :=
  a ← find_first (fun a => is_ok (Check (gate a) id)) (c_AWS c);
  Some (resolveGroups (c_DefaultGroups c) (a_Groups a), a_Netblock a, a_AutoIssue a).
End CloudTrust.

Module UserTrust.
Record IDPEntry : Type := mkEntry {
  e_Realm : string;
  e_DirectoryGroup : string;
  e_MeshGroups : list string;
  e_AutoIssue : bool;
  e_Netblock : string;
}.

Record Config : Type := mkConfig { c_DefaultGroups : list string; c_IDPEntries : list IDPEntry }.

Inductive uterr : Type := UT_Empty | UT_NoRealm | UT_NoGroup | UT_DuplicateGroup | UT_GrantsNothing | UT_AutoIssuePrivileged.

Fixpoint validate_entries (defaults : list string) (seen : list (string * string)) (l : list IDPEntry) : result uterr unit :=
  match l with
  | [] => Ok ()
  | e :: l =>
      if decide (e_Realm e = "") then Err UT_NoRealm
      else if decide (e_DirectoryGroup e = "") then Err UT_NoGroup
      else if decide ((e_Realm e, e_DirectoryGroup e) ∈ seen) then Err UT_DuplicateGroup
      else if bool_decide (e_MeshGroups e = []) && bool_decide (defaults = []) then Err UT_GrantsNothing
      else if e_AutoIssue e && (existsb IsReservedGroup (e_MeshGroups e) || existsb IsReservedGroup defaults)
      then Err UT_AutoIssuePrivileged
      else validate_entries defaults ((e_Realm e, e_DirectoryGroup e) :: seen) l
  end.

Definition Validate (c : Config) : result uterr unit :=
  if decide (c_IDPEntries c = []) then Err UT_Empty else validate_entries (c_DefaultGroups c) [] (c_IDPEntries c).

(** [Parse]: [decode] is the strict JSON decoder. *)
Definition Parse (decode : string -> option Config) (b : string) : option (result uterr Config) :=
  match decode b with
  | None => None
  | Some c => Some (match Validate c with Ok _ => Ok c | Err e => Err e end)
  end.

Definition ContainsPrivileged (c : Config) : bool :=
  existsb IsReservedGroup (c_DefaultGroups c) ||
  existsb (fun e => e_AutoIssue e || existsb IsReservedGroup (e_MeshGroups e)) (c_IDPEntries c).

Definition admits (realm : string) (userGroups : list string) (e : IDPEntry) : bool :=
  bool_decide (e_Realm e = realm) && bool_decide (e_DirectoryGroup e ∈ userGroups).

Definition Match (c : Config) (realm : string) (userGroups : list string) : option (list string * string * bool) :=
  e ← find_first (admits realm userGroups) (c_IDPEntries c);
  Some (resolveGroups (c_DefaultGroups c) (e_MeshGroups e), e_Netblock e, e_AutoIssue e).
End UserTrust.

(** ** Globs *)

Lemma HasPrefix_iff s p : HasPrefix s p = true <-> exists t, s = p +:+ t.
Proof.
  revert s. induction p as [|c p IH]; intros s; cbn.
  - split; [intros _; by exists s|by destruct s].
  - destruct s as [|d s]; [split; [done|intros [t Ht]; by rewrite string_app_cons in Ht]|].
    setoid_rewrite string_app_cons. cbn. case_decide as E.
    + subst. rewrite IH. split; intros [t Ht]; exists t; congruence.
    + split; [done|]. intros [t [= -> _]]. done.
Qed.

Lemma drop_chars_app a b : drop_chars (String.length a) (a +:+ b) = b.
Proof. induction a as [|c a IH]; [by destruct b|]. rewrite string_app_cons. apply IH. Qed.

Lemma length_app_s a b : String.length (a +:+ b) = (String.length a + String.length b)%nat.
Proof. induction a as [|c a IH]; [done|]. rewrite string_app_cons. cbn. by rewrite IH. Qed.

Lemma drop_chars_app_more a b n : drop_chars (String.length a + n) (a +:+ b) = drop_chars n b.
Proof. induction a as [|c a IH]; [done|]. rewrite string_app_cons. apply IH. Qed.

Lemma Index_eq s p : Index s p = if HasPrefix s p then Some 0%nat else match s with "" => None | String _ s => S <$> Index s p end.
Proof. by destruct s. Qed.

Lemma Index_Some s p i : Index s p = Some i ->
  exists a b, s = a +:+ (p +:+ b) /\ String.length a = i /\ (forall a' b', s = a' +:+ (p +:+ b') -> (i <= String.length a')%nat).
Proof.
  revert i. induction s as [|c s IH]; intros i.
  - rewrite Index_eq. destruct (HasPrefix "" p) eqn:E; [|done]. intros [= <-]. apply HasPrefix_iff in E as [t Ht].
    exists "", t. split_and!; [exact Ht|done|intros; lia].
  - rewrite Index_eq. destruct (HasPrefix (String c s) p) eqn:E.
    + intros [= <-]. apply HasPrefix_iff in E as [t Ht]. exists "", t. split_and!; [exact Ht|done|intros; lia].
    + destruct (Index s p) as [j|]; [|done]. intros [= <-]. destruct (IH j eq_refl) as (a & b & -> & <- & Hmin).
      exists (String c a), b. rewrite string_app_cons. split_and!; [done|done|].
      intros [|d a'] b' H; [apply not_true_iff_false in E; destruct E; apply HasPrefix_iff; by exists b'|].
      rewrite string_app_cons in H. injection H as -> H. cbn. apply Hmin in H. lia.
Qed.

Lemma Index_None s p : Index s p = None -> forall a b, s <> a +:+ (p +:+ b).
Proof.
  induction s as [|c s IH]; rewrite Index_eq.
  - destruct (HasPrefix "" p) eqn:E; [done|]. intros _ [|d a] b H; [|by rewrite string_app_cons in H].
    apply not_true_iff_false in E. apply E, HasPrefix_iff. by exists b.
  - destruct (HasPrefix (String c s) p) eqn:E; [done|]. destruct (Index s p); [done|]. intros _ [|d a] b H.
    + apply not_true_iff_false in E. apply E, HasPrefix_iff. by exists b.
    + rewrite string_app_cons in H. injection H as -> H. by apply (IH eq_refl a b).
Qed.

Lemma HasSuffix_iff s p : HasSuffix s p = true <-> exists a, s = a +:+ p.
Proof.
  unfold HasSuffix. split.
  - intros [Hl%Nat.leb_le Hd%bool_decide_eq_true]%andb_true_iff. revert Hd. generalize Hl.
    assert (Hex : forall n, (n <= String.length s)%nat -> exists a, s = a +:+ drop_chars n s).
    { clear. induction s as [|c s IH]; intros [|n] Hn; cbn in *; try lia; try (by exists "").
      destruct (IH n ltac:(lia)) as [a Ha]. exists (String c a). rewrite string_app_cons. by f_equal. }
    intros _ Hd. destruct (Hex (String.length s - String.length p)%nat ltac:(lia)) as [a Ha]. exists a. by rewrite Hd in Ha.
  - intros [a ->]. rewrite length_app_s. apply andb_true_iff. split; [apply Nat.leb_le; lia|].
    apply bool_decide_eq_true. replace (String.length a + String.length p - String.length p)%nat with (String.length a) by lia.
    apply drop_chars_app.
Qed.

Lemma Split_nonempty sep s : Split sep s <> [].
Proof. destruct s as [|c s]; cbn; [done|]. case_decide; [done|]. by destruct (Split sep s). Qed.

(** The meaning of a pattern: a star stands for any text, every other byte for itself. *)
Inductive glob : string -> string -> Prop :=
| glob_nil : glob "" ""
| glob_char c p s : c <> "*"%char -> glob p s -> glob (String c p) (String c s)
| glob_star p a s : glob p s -> glob (String "*" p) (a +:+ s).

(** The parts after the first star: each somewhere in what is left, the last at the end. *)
Inductive tail_ok : list string -> string -> Prop :=
| tail_end : tail_ok [] ""
| tail_part p ps a s : tail_ok ps s -> tail_ok (p :: ps) (a +:+ (p +:+ s)).

Lemma tail_ok_more ps a s : ps <> [] -> tail_ok ps s -> tail_ok ps (a +:+ s).
Proof. intros Hne H. destruct H as [|p ps b s H]; [done|]. rewrite <- string_app_assoc. by constructor. Qed.

Lemma glob_parts pat s : glob pat s <-> exists p0 ps t, Split "*" pat = p0 :: ps /\ s = p0 +:+ t /\ tail_ok ps t.
Proof.
  split.
  - induction 1 as [|c p s Hc _ (p0 & ps & t & Es & -> & Ht)|p a s _ (p0 & ps & t & Es & -> & Ht)]; cbn.
    + exists "", [], "". split_and!; [done|done|constructor].
    + rewrite decide_False by done. rewrite Es. exists (String c p0), ps, t. by split_and!.
    + rewrite decide_True by done. exists "", (Split "*" p), (a +:+ (p0 +:+ t)). split_and!; [done|done|]. rewrite Es. by constructor.
  - revert s. induction pat as [|c pat IH]; cbn; intros s (p0 & ps & t & Es & -> & Ht).
    + injection Es as <- <-. inversion Ht; subst. constructor.
    + case_decide as Hc.
      * injection Es as <- <-. subst c. inversion Ht as [E|p ps a u Hu E]; subst; [by destruct (Split_nonempty "*" pat)|].
        change ("" +:+ ?x) with x. constructor. apply IH. exists p, ps, u. by rewrite <- E.
      * destruct (Split "*" pat) as [|w ws] eqn:E.
        -- by destruct (Split_nonempty "*" pat).
        -- injection Es as <- <-. rewrite string_app_cons. constructor; [done|]. apply IH. by exists w, ws, t.
Qed.

(** Searching each part at its leftmost place loses no match. *)
Lemma match_middle_ok ps last s :
  match match_middle ps s with Some t => HasSuffix t last | None => false end = true <-> tail_ok (ps ++ [last]) s.
Proof.
  revert s. induction ps as [|p ps IH]; intros s; cbn.
  - rewrite HasSuffix_iff. split.
    + intros [a ->]. replace (a +:+ last) with (a +:+ (last +:+ "")) by (by rewrite string_app_nil_r). repeat constructor.
    + intros H. inversion H as [|q qs a t Ht]; subst. inversion Ht; subst. exists a. by rewrite string_app_nil_r.
  - destruct (Index s p) as [i|] eqn:Ei.
    + destruct (Index_Some _ _ _ Ei) as (a & b & -> & <- & Hmin).
      rewrite drop_chars_app_more, drop_chars_app, IH. split; [by constructor|].
      intros H. inversion H as [|q qs a' t Ht Eq Es]; subst. pose proof (Hmin a' t (eq_sym Es)) as Hle.
      assert (Hd : drop_chars (String.length a + String.length p) (a' +:+ (p +:+ t)) = b).
      { rewrite Es, drop_chars_app_more. apply drop_chars_app. }
      assert (exists u, b = u +:+ t) as [u ->]; [|apply tail_ok_more; [by destruct ps|done]].
      clear -Es Hle. rewrite <- string_app_assoc in Es. symmetry in Es. rewrite <- string_app_assoc in Es.
      assert (Hlen : (String.length (a +:+ p) <= String.length (a' +:+ p))%nat) by (rewrite !length_app_s; lia).
      revert Es Hlen. generalize (a +:+ p) as x, (a' +:+ p) as y. intros x.
      induction x as [|c x IHx]; intros y E Hlen; [by exists y|].
      destruct y as [|d y]; cbn in Hlen; [lia|]. rewrite !string_app_cons in E. injection E as _ E.
      destruct (IHx y E ltac:(lia)) as [u Hu]. by exists u.
    + split; [done|]. intros H. inversion H as [|q qs a t Ht Eq Es]; subst. by destruct (Index_None _ _ Ei a t).
Qed.

(** The ARN glob matcher is exact. The greedy left-to-right search accepts a text
    exactly when the pattern matches it in the declarative sense (a star any text, every
    other byte itself): no match is missed by taking leftmost occurrences. *)
Theorem matchGlob_exact pattern s : matchGlob pattern s = true <-> glob pattern s.
Proof.
  rewrite glob_parts. unfold matchGlob. destruct (Split "*" pattern) as [|p0 [|p1 ps]] eqn:Es.
  - by destruct (Split_nonempty "*" pattern).
  - assert (Hp : p0 = pattern).
    { clear -Es. revert p0 Es. induction pattern as [|c pat IH]; cbn; intros p0; [by intros [= <-]|].
      case_decide; [intros [= _ E]; by destruct (Split_nonempty "*" pat)|].
      destruct (Split "*" pat) as [|w ws] eqn:E; [by destruct (Split_nonempty "*" pat)|]. intros [= <- ->]. f_equal. by apply IH. }
    rewrite bool_decide_eq_true. split.
    + intros <-. exists p0, [], "". split_and!; [done|by rewrite string_app_nil_r|constructor].
    + intros (q & qs & t & [= <- <-] & -> & Ht). inversion Ht; subst. by rewrite string_app_nil_r.
  - destruct (exists_last (l := p1 :: ps)) as (mid & last & Em); [done|]. rewrite Em.
    rewrite removelast_last, last_last. split.
    + destruct (HasPrefix s p0) eqn:Ep; [|done]. cbn. apply HasPrefix_iff in Ep as [t ->]. rewrite drop_chars_app.
      intros H%match_middle_ok. by exists p0, (mid ++ [last]), t.
    + intros (q & qs & t & [= <- <-] & -> & Ht). rewrite (proj2 (HasPrefix_iff _ _)) by (by exists t). cbn.
      rewrite drop_chars_app. by apply match_middle_ok.
Qed.

(** ** Trust decisions *)

Lemma resolve_in defaults groups g : g ∈ resolveGroups defaults groups <-> g ∈ defaults \/ g ∈ groups.
Proof. unfold resolveGroups. by rewrite sort_strings_perm, elem_of_remove_dups, elem_of_app. Qed.

Lemma resolve_reserved defaults groups :
  GrantsReservedGroup (resolveGroups defaults groups) = existsb IsReservedGroup defaults || existsb IsReservedGroup groups.
Proof.
  apply eq_true_iff_eq. unfold GrantsReservedGroup. rewrite orb_true_iff, !existsb_elem. setoid_rewrite resolve_in. naive_solver.
Qed.

Lemma Check_ok a id : is_ok (Check (CloudTrust.gate a) id) = true <->
  id_Account id = CloudTrust.a_Account a /\
  (CloudTrust.a_ARNPatterns a = [] \/ exists pat, pat ∈ CloudTrust.a_ARNPatterns a /\ glob pat (id_Arn id)).
Proof.
  unfold Check, CloudTrust.gate. cbn [al_Accounts al_ARNPatterns]. rewrite (bool_decide_eq_false_2 ([CloudTrust.a_Account a] = [])) by done. cbn [negb andb].
  destruct (bool_decide (id_Account id ∈ [CloudTrust.a_Account a])) eqn:Ea; bool_split; cbn.
  - apply list_elem_of_singleton in Ea. destruct (bool_decide (CloudTrust.a_ARNPatterns a = [])) eqn:Ep; bool_split; cbn.
    + split; [intros _; by auto|done].
    + destruct (existsb _ _) eqn:Ex; cbn.
      * split; [intros _|done]. split; [done|right]. apply existsb_elem in Ex as (pat & Hin & Hm). exists pat. by rewrite <- matchGlob_exact.
      * split; [done|]. intros [_ [?|(pat & Hin & Hm)]]; [done|]. eapply existsb_elem_false in Ex; [|exact Hin].
        apply matchGlob_exact in Hm. congruence.
  - split; [done|]. intros [E _]. by rewrite E, list_elem_of_singleton in Ea.
Qed.

Lemma validated_accounts l : forall seen, CloudTrust.validate_accounts seen l = Ok () ->
  NoDup (CloudTrust.a_Account <$> l) /\ forall a, a ∈ l -> CloudTrust.a_Account a <> "" /\ CloudTrust.a_Account a ∉ seen.
Proof.
  induction l as [|a l IH]; intros seen; cbn.
  - intros _. split; [constructor|by intros ? ?%elem_of_nil].
  - destruct (decide _); [done|]. destruct (decide _); [done|]. intros H. destruct (IH _ H) as [Hnd Hin]. split.
    + apply NoDup_cons. split; [|done]. intros (b & Eb & Hb)%list_elem_of_fmap. destruct (Hin b Hb) as [_ Hs]. apply Hs. rewrite <- Eb. constructor.
    + intros b [->|Hb]%elem_of_cons; [done|]. destruct (Hin b Hb) as [? Hs]. split; [done|]. intros Hx. apply Hs. by constructor.
Qed.

(** A cloud identity gets what its account entry says. For a validated config the
    answer of [MatchAWS] is determined by the one entry with the identity's account: it
    admits exactly when that entry has no ARN patterns or one of them matches, and then
    grants exactly the default groups and the entry's, with the entry's netblock and
    issue posture; every other identity is refused. *)
Theorem cloud_trust_is_exact c id : CloudTrust.Validate c = Ok () ->
  match CloudTrust.MatchAWS c id with
  | Some (groups, netblock, auto) =>
      exists a, a ∈ CloudTrust.c_AWS c /\ CloudTrust.a_Account a = id_Account id /\
        (forall b, b ∈ CloudTrust.c_AWS c -> CloudTrust.a_Account b = id_Account id -> b = a) /\
        (CloudTrust.a_ARNPatterns a = [] \/ exists pat, pat ∈ CloudTrust.a_ARNPatterns a /\ glob pat (id_Arn id)) /\
        (forall g, g ∈ groups <-> g ∈ CloudTrust.c_DefaultGroups c \/ g ∈ CloudTrust.a_Groups a) /\
        netblock = CloudTrust.a_Netblock a /\ auto = CloudTrust.a_AutoIssue a
  | None => forall a, a ∈ CloudTrust.c_AWS c -> CloudTrust.a_Account a = id_Account id ->
      CloudTrust.a_ARNPatterns a <> [] /\ forall pat, pat ∈ CloudTrust.a_ARNPatterns a -> ~ glob pat (id_Arn id)
  end.
Proof.
  unfold CloudTrust.Validate. destruct (decide _); [done|]. intros [Hnd _]%validated_accounts.
  unfold CloudTrust.MatchAWS. destruct (find_first _ _) as [a|] eqn:Ef; cbn.
  - apply find_first_Some in Ef as [Hin [Ha Hp]%Check_ok]. exists a. split_and!; [done|done| |done| |done|done].
    + intros b Hb Eb. apply list_elem_of_lookup in Hin as [i Hi]. apply list_elem_of_lookup in Hb as [j Hj].
      assert (i = j) as ->; [|congruence]. eapply (NoDup_lookup _ i j (CloudTrust.a_Account a)); [exact Hnd| |]; rewrite list_lookup_fmap.
      * by rewrite Hi.
      * rewrite Hj. cbn. congruence.
    + intros g. apply resolve_in.
  - intros a Hin Ea. eapply find_first_None in Ef; [|exact Hin].
    destruct (decide (CloudTrust.a_ARNPatterns a = [])) as [E|E].
    + rewrite (proj2 (Check_ok a id)) in Ef; [done|auto].
    + split; [done|]. intros pat Hpat Hg. rewrite (proj2 (Check_ok a id)) in Ef; [done|]. split; [done|]. right. eauto.
Qed.

Lemma validated_entries defaults l : forall seen, UserTrust.validate_entries defaults seen l = Ok () ->
  forall e, e ∈ l -> UserTrust.e_Realm e <> "" /\ UserTrust.e_DirectoryGroup e <> "" /\
    (UserTrust.e_AutoIssue e = true -> GrantsReservedGroup (resolveGroups defaults (UserTrust.e_MeshGroups e)) = false) /\
    (UserTrust.e_MeshGroups e <> [] \/ defaults <> []).
Proof.
  induction l as [|e l IH]; intros seen; cbn; [by intros _ ? ?%elem_of_nil|].
  destruct (decide _); [done|]. destruct (decide _); [done|]. destruct (decide _); [done|].
  destruct (_ && _) eqn:E1; [done|]. destruct (UserTrust.e_AutoIssue e && _) eqn:E2; [done|].
  intros H x [->|Hx]%elem_of_cons; [|by eapply IH]. split_and!; [done|done| |].
  - intros Ha. rewrite Ha in E2. cbn in E2. rewrite resolve_reserved. bool_split. by apply orb_false_iff.
  - apply andb_false_iff in E1 as [E|E]; bool_split; auto.
Qed.

(** An SSO identity gets the first entry of its realm and groups, and never a
    privileged certificate unattended. For a validated config, [Match] admits exactly when some
    entry has the identity's realm and one of its directory groups; it then grants the
    default groups and the first such entry's, never the empty set; and when it says to
    issue at once, no granted group is reserved. *)
Theorem user_trust_never_autoissues_privileged c realm userGroups : UserTrust.Validate c = Ok () ->
  match UserTrust.Match c realm userGroups with
  | Some (groups, netblock, auto) =>
      (exists pre e post, UserTrust.c_IDPEntries c = pre ++ e :: post /\
         UserTrust.e_Realm e = realm /\ UserTrust.e_DirectoryGroup e ∈ userGroups /\
         (forall x, x ∈ pre -> UserTrust.e_Realm x = realm -> UserTrust.e_DirectoryGroup x ∉ userGroups) /\
         (forall g, g ∈ groups <-> g ∈ UserTrust.c_DefaultGroups c \/ g ∈ UserTrust.e_MeshGroups e) /\
         netblock = UserTrust.e_Netblock e /\ auto = UserTrust.e_AutoIssue e) /\
      groups <> [] /\ (auto = true -> GrantsReservedGroup groups = false)
  | None => forall e, e ∈ UserTrust.c_IDPEntries c -> UserTrust.e_Realm e = realm -> UserTrust.e_DirectoryGroup e ∉ userGroups
  end.
Proof.
  unfold UserTrust.Validate. destruct (decide _); [done|]. intros Hv. pose proof (validated_entries _ _ _ Hv) as He.
  assert (Hadm : forall x, UserTrust.admits realm userGroups x = false -> UserTrust.e_Realm x = realm -> UserTrust.e_DirectoryGroup x ∉ userGroups).
  { intros x Hx Hr. unfold UserTrust.admits in Hx. rewrite (bool_decide_eq_true_2 _ Hr) in Hx. cbn in Hx. by bool_split. }
  unfold UserTrust.Match. destruct (find_first _ _) as [e|] eqn:Ef; cbn.
  - assert (exists pre post, UserTrust.c_IDPEntries c = pre ++ e :: post /\ forall x, x ∈ pre -> UserTrust.admits realm userGroups x = false)
      as (pre & post & Epp & Hpre).
    { clear -Ef. induction (UserTrust.c_IDPEntries c) as [|x l IH]; cbn in Ef; [done|].
      destruct (UserTrust.admits realm userGroups x) eqn:Ex.
      - injection Ef as ->. exists [], l. split; [done|by intros ? ?%elem_of_nil].
      - destruct (IH Ef) as (pre & post & -> & Hpre). exists (x :: pre), post. split; [done|].
        intros y [->|Hy]%elem_of_cons; auto. }
    apply find_first_Some in Ef as [Hin Ha]. unfold UserTrust.admits in Ha. bool_split.
    destruct (He e Hin) as (_ & _ & Hpriv & Hsome). split_and!.
    + exists pre, e, post. split_and!; [done|done|done| |intros; apply resolve_in|done|done]. intros x Hx Hr. apply Hadm; [by apply Hpre|done].
    + intros Hnil. assert (Hno : forall g, ~ (g ∈ UserTrust.c_DefaultGroups c \/ g ∈ UserTrust.e_MeshGroups e)).
      { intros g Hg%resolve_in. rewrite Hnil in Hg. by apply elem_of_nil in Hg. }
      destruct Hsome as [Hs|Hs]; [destruct (UserTrust.e_MeshGroups e) as [|g ?]|destruct (UserTrust.c_DefaultGroups c) as [|g ?]]; try done;
        apply (Hno g); [right|left]; constructor.
    + done.
  - intros e Hin. apply Hadm. by eapply find_first_None in Ef.
Qed.

(** A config that is not privileged grants nothing privileged. When
    [ContainsPrivileged] says no (so that one person may publish it), no identity
    whatsoever is issued to unattended or granted a reserved group, in either config. *)
Theorem unprivileged_configs_grant_nothing_reserved cc uc id realm userGroups :
  (CloudTrust.ContainsPrivileged cc = false -> forall groups netblock auto,
     CloudTrust.MatchAWS cc id = Some (groups, netblock, auto) -> auto = false /\ GrantsReservedGroup groups = false) /\
  (UserTrust.ContainsPrivileged uc = false -> forall groups netblock auto,
     UserTrust.Match uc realm userGroups = Some (groups, netblock, auto) -> auto = false /\ GrantsReservedGroup groups = false).
Proof.
  split.
  - intros [Hd He]%orb_false_iff groups netblock auto. unfold CloudTrust.MatchAWS.
    destruct (find_first _ _) as [a|] eqn:Ef; [|done]. intros [= <- <- <-]. apply find_first_Some in Ef as [Hin _].
    eapply existsb_elem_false in He; [|exact Hin]. cbn in He. bool_split. split; [done|]. rewrite resolve_reserved. by apply orb_false_iff.
  - intros [Hd He]%orb_false_iff groups netblock auto. unfold UserTrust.Match.
    destruct (find_first _ _) as [a|] eqn:Ef; [|done]. intros [= <- <- <-]. apply find_first_Some in Ef as [Hin _].
    eapply existsb_elem_false in He; [|exact Hin]. cbn in He. bool_split. split; [done|]. rewrite resolve_reserved. by apply orb_false_iff.
Qed.

(** ** Attestation *)

(** When no two header names differ only in case, every range gives the same map. *)
Lemma by_lower_lookup (l : list (string * string)) : forall (m : gmap string string) k v, NoDup ((fun kv => ToLower kv.1) <$> l) ->
  fold_left (fun m kv => <[ToLower kv.1 := kv.2]> m) l m !! k = Some v <->
  (exists x, x ∈ l /\ ToLower x.1 = k /\ x.2 = v) \/ (k ∉ (fun kv => ToLower kv.1) <$> l) /\ m !! k = Some v.
Proof.
  induction l as [|y l IH]; intros m k v; cbn; intros Hnd.
  - split; [intros H; right; split; [by apply not_elem_of_nil|done]|]. by intros [(x & ?%elem_of_nil & _)|[_ ?]].
  - apply NoDup_cons in Hnd as [Hy Hnd]. rewrite IH by done. rewrite not_elem_of_cons. setoid_rewrite elem_of_cons.
    destruct (decide (ToLower y.1 = k)) as [<-|Hk].
    + rewrite lookup_insert_eq. split.
      * intros [(x & Hx & E & Ev)|[Hn [= <-]]]; [left; exists x; by auto|left; exists y; by auto].
      * intros [(x & [->|Hx] & E & Ev)|[[? _] _]]; [right; by split; [|f_equal]|left; by exists x|done].
    + rewrite lookup_insert_ne by done. split.
      * intros [(x & Hx & E & Ev)|[Hn Hm]]; [left; exists x; by auto|right; by auto].
      * intros [(x & [->|Hx] & E & Ev)|[[? ?] Hm]]; [done|left; by exists x|by right].
Qed.

Lemma by_lower_perm l l' : NoDup ((fun kv => ToLower kv.1) <$> l) -> l ≡ₚ l' -> by_lower_name l = by_lower_name l'.
Proof.
  intros Hnd Hp. assert (Hnd' : NoDup ((fun kv => ToLower kv.1) <$> l')) by (by rewrite <- Hp).
  apply map_eq. intros k. apply option_eq. intros v. unfold by_lower_name. rewrite !by_lower_lookup by done.
  setoid_rewrite Hp. done.
Qed.

Section attested.
Context (parseURL : string -> option Url) (sts : string -> string -> gmap string string -> string -> sts_reply)
        (decodeXML : string -> option Identity).

(** C33: an accepted attestation was bound to this enrollment when AWS vouched for it.
    If no two header names of the request differ only in case, then whatever orders the two ranges over
    the headers take, an accepted request was forwarded to an https STS host with this
    enrollment's nonce and key hash in headers its own signature covers, STS answered 200,
    and the identity is the one it returned. *)
Theorem attestation_is_bound endpoint range1 range2 pres nonce pkh id :
  range1 ≡ₚ map_to_list (ps_Headers pres) -> range2 ≡ₚ map_to_list (ps_Headers pres) ->
  NoDup ((fun kv => ToLower kv.1) <$> map_to_list (ps_Headers pres)) ->
  Verify parseURL sts decodeXML endpoint range1 range2 pres nonce pkh = Ok id ->
  exists sent u signed raw, sent = by_lower_name range2 /\
    at_ sent "x-harbor-nonce" = nonce /\ at_ sent "x-harbor-pubkey-hash" = pkh /\
    signedHeaderSet (at_ sent "authorization") = Ok signed /\
    "x-harbor-nonce" ∈ signed /\ "x-harbor-pubkey-hash" ∈ signed /\ "host" ∈ signed /\
    parseURL (ps_URL pres) = Some u /\ u_Scheme u = "https" /\ stsHost (u_Hostname u) = true /\
    sts (if decide (endpoint = "") then ps_URL pres else endpoint) (u_Host u) sent stsBody = Replied 200 raw /\
    decodeXML raw = Some id /\ id_Account id <> "".
Proof.
  intros H1 H2 Hnd. assert (Hsame : by_lower_name range1 = by_lower_name range2).
  { apply by_lower_perm; [by rewrite H1|]. by rewrite H1, H2. }
  unfold Verify. rewrite Hsame. destruct (_ || _) eqn:E1; [done|]. destruct (_ || _) eqn:E2 in |- *; [done|].
  destruct (signedHeaderSet _) as [signed|] eqn:Es; [|done]. destruct (_ || _) eqn:E3 in |- *; [done|].
  destruct (parseURL _) as [u|] eqn:Eu; [|done]. destruct (_ || _) eqn:E4 in |- *; [done|].
  bool_split. assert (Hbody : ps_Body pres = stsBody) by done. rewrite Hbody. destruct (sts _ _ _ _) as [|status raw] eqn:Er; [done|].
  destruct (_ || _) eqn:E5 in |- *; [done|]. destruct (negb (status =? 200)) eqn:E6; [done|]. bool_split. subst status.
  destruct (decodeXML raw) as [i|] eqn:Ex; [|done]. destruct (decide (id_Account i = "")); [done|]. intros [= <-].
  exists (by_lower_name range2), u, signed, raw. by split_and!.
Qed.
End attested.

(** ** Concrete requests *)

Definition demo_cloud : CloudTrust.Config :=
  CloudTrust.mkConfig ["fleet"] [CloudTrust.mkAccount "123" ["arn:aws:sts::123:assumed-role/web-*/*"] ["web"] true ""].
Definition demo_user : UserTrust.Config :=
  UserTrust.mkConfig [] [UserTrust.mkEntry "corp" "eng" ["dev"] true ""; UserTrust.mkEntry "corp" "ops" ["control-plane"] false ""].
Definition demo_id : Identity := mkIdentity "123" "arn:aws:sts::123:assumed-role/web-7/i-1" "u".

Lemma cloud_trust_is_exact_witness :
  CloudTrust.MatchAWS demo_cloud demo_id = Some (["fleet"; "web"], "", true) /\
  exists a, a ∈ CloudTrust.c_AWS demo_cloud /\ CloudTrust.a_Account a = id_Account demo_id.
Proof.
  split; [vm_compute; reflexivity|].
  pose proof (cloud_trust_is_exact demo_cloud demo_id eq_refl) as H. vm_compute in H |- *.
  destruct H as (a & Hin & Ha & _). exists a. split; assumption.
Defined.

Lemma user_trust_never_autoissues_privileged_witness :
  UserTrust.Match demo_user "corp" ["ops"; "eng"] = Some (["dev"], "", true) /\ GrantsReservedGroup ["dev"] = false.
Proof.
  assert (E : UserTrust.Match demo_user "corp" ["ops"; "eng"] = Some (["dev"], "", true)) by (vm_compute; reflexivity).
  split; [exact E|].
  pose proof (user_trust_never_autoissues_privileged demo_user "corp" ["ops"; "eng"] eq_refl) as H. rewrite E in H.
  by apply H.
Defined.

(** A victim's request, as AWS sees it signed, and the same with an attacker's nonce and
    key hash added under other spellings of the two names. *)
Definition authz : string := "AWS4-HMAC-SHA256 Credential=AK/x, SignedHeaders=host;x-harbor-nonce;x-harbor-pubkey-hash, Signature=ff".
Definition victim_headers : list (string * string) :=
  [("Host", "sts.us-east-1.amazonaws.com"); ("X-Harbor-Nonce", "victim-nonce"); ("X-Harbor-Pubkey-Hash", "victim-key"); ("Authorization", authz)].
Definition added_headers : list (string * string) := [("x-harbor-nonce", "attacker-nonce"); ("x-harbor-pubkey-hash", "attacker-key")].
Definition demo_url : string := "https://sts.us-east-1.amazonaws.com/".
Definition request_of (l : list (string * string)) : PresignedRequest := mkPresigned "POST" demo_url (list_to_map l) stsBody.

(** An STS that accepts exactly the victim's signed values. *)
Definition demo_sts (target host : string) (h : gmap string string) (body : string) : sts_reply :=
  if bool_decide (at_ h "x-harbor-nonce" = "victim-nonce") && bool_decide (at_ h "x-harbor-pubkey-hash" = "victim-key")
  then Replied 200 "ok" else Replied 403 "bad signature".
Definition demo_parse (s : string) : option Url := if decide (s = demo_url) then Some (mkUrl "https" "sts.us-east-1.amazonaws.com" "sts.us-east-1.amazonaws.com") else None.
Definition demo_xml (s : string) : option Identity := if decide (s = "ok") then Some demo_id else None.

Lemma attestation_is_bound_witness :
  exists sent, at_ sent "x-harbor-nonce" = "victim-nonce" /\ at_ sent "x-harbor-pubkey-hash" = "victim-key" /\
    demo_sts demo_url "sts.us-east-1.amazonaws.com" sent stsBody = Replied 200 "ok".
Proof.
  assert (Hp : victim_headers ≡ₚ map_to_list (ps_Headers (request_of victim_headers))).
  { symmetry. apply map_to_list_to_map. vm_compute. repeat constructor; set_solver. }
  destruct (attestation_is_bound demo_parse demo_sts demo_xml "" victim_headers victim_headers (request_of victim_headers)
    "victim-nonce" "victim-key" demo_id Hp Hp) as (sent & u & signed & raw & H).
  - rewrite <- Hp. vm_compute. repeat constructor; set_solver.
  - vm_compute. reflexivity.
  - exists sent. destruct H as (-> & Hn & Hk & _). split; [exact Hn|split; [exact Hk|vm_compute; reflexivity]].
Defined.

(** A relayed attestation can be accepted. The header map may hold both spellings of a
    binding header. The check reads the one its range meets last, the copy into the
    forwarded request keeps the one the other range meets last; with suitable orders (Go
    picks each range's order at random) the check sees the attacker's nonce and key hash
    while STS gets the victim's signed ones, and the attacker is given the victim's
    identity. *)
Theorem relayed_attestation_is_accepted :
  let headers := victim_headers ++ added_headers in
  let range1 := victim_headers ++ added_headers in
  let range2 := added_headers ++ victim_headers in
  range1 ≡ₚ map_to_list (ps_Headers (request_of headers)) /\ range2 ≡ₚ map_to_list (ps_Headers (request_of headers)) /\
  Verify demo_parse demo_sts demo_xml "" range1 range2 (request_of headers) "attacker-nonce" "attacker-key" = Ok demo_id /\
  at_ (by_lower_name range2) "x-harbor-nonce" = "victim-nonce".
Proof.
  assert (Hp : victim_headers ++ added_headers ≡ₚ map_to_list (ps_Headers (request_of (victim_headers ++ added_headers)))).
  { symmetry. apply map_to_list_to_map. vm_compute. repeat constructor; set_solver. }
  cbv zeta. split_and!; [exact Hp| |vm_compute; reflexivity|vm_compute; reflexivity].
  rewrite <- Hp. apply Permutation_app_comm.
Qed.
