(* ===== verification/Attest.v ===== *)
(** * internal/awsattest: the side of the host

    [FetchInstanceCredentials] reads the role's credentials from the metadata service, and [Sign]
    builds the signed GetCallerIdentity request that Core verifies (Trust.v) and forwards to STS.
    SHA-256, HMAC, hexadecimal and time formatting, the JSON decoder and the HTTP exchange are
    parameters. Header maps are the list in which a range meets them.

    The theorem is the other half of the verification: what a host signs, Core's checks accept
    for its own nonce and key and for nothing else. *)

From S2P Require Import Prelude GoStrings Trust.
From stdpp Require Import prelude strings list gmap sorting.
From Stdlib Require Import ZArith Lia Ascii.
Open Scope Z_scope.

Record Credentials : Type := mkCreds { cr_AccessKeyID : string; cr_SecretAccessKey : string; cr_SessionToken : string }.

Inductive hterr : Type := HT_Empty | HT_Region | HT_Binding | HT_Token | HT_Imds | HT_NoRole | HT_Json.

Section host.
Context (sha256hex : string -> string) (hmac : string -> string -> string) (hex : string -> string).
Context (formatDate : Z -> string).                                     (* Format("20060102T150405Z") *)

Definition stsContent : string := "application/x-www-form-urlencoded; charset=utf-8".
Definition algorithm : string := "AWS4-HMAC-SHA256".
Definition newline : string := String (ascii_of_nat 10) "".

(** [headers[k]] *)
Definition header (order : list (string * string)) (k : string) : string :=
  from_option snd "" (find_first (fun kv : string * string => bool_decide (kv.1 = k)) order).

Definition canonicalKey (order : list (string * string)) (lk : string) : string :=
  from_option fst lk (find_first (fun kv : string * string => EqualFold kv.1 lk) order).

(** [SignedHeaders]: the names, sorted. *)
Definition signed_names (order : list (string * string)) : list string := sort_strings (map (fun kv => ToLower kv.1) order).

Definition scope_of (dateStamp region service : string) : string := dateStamp +:+ "/" +:+ region +:+ "/" +:+ service +:+ "/aws4_request".

Definition signing_key (secret dateStamp region service : string) : string :=
  hmac (hmac (hmac (hmac ("AWS4" +:+ secret) dateStamp) region) service) "aws4_request".

Definition sign (creds : Credentials) (region service method path query : string) (order : list (string * string)) (body : string) : string :=
  let amzDate := header order "x-amz-date" in
  let dateStamp := String.substring 0 8 amzDate in
  let keys := signed_names order in
  let canonHeaders := String.concat "" (map (fun k => k +:+ ":" +:+ TrimSpace (header order (canonicalKey order k)) +:+ newline) keys) in
  let signedHeaders := String.concat ";" keys in
  let canonicalRequest := String.concat newline [method; path; query; canonHeaders; signedHeaders; sha256hex body] in
  let scope := scope_of dateStamp region service in
  let stringToSign := String.concat newline [algorithm; amzDate; scope; sha256hex canonicalRequest] in
  let signature := hex (hmac (signing_key (cr_SecretAccessKey creds) dateStamp region service) stringToSign) in
  algorithm +:+ " Credential=" +:+ cr_AccessKeyID creds +:+ "/" +:+ scope +:+ ", SignedHeaders=" +:+ signedHeaders +:+ ", Signature=" +:+ signature.

Definition sts_host (region : string) : string := "sts." +:+ region +:+ ".amazonaws.com".

(** The headers that are signed, and the wire form. *)
Definition signed_headers (creds : Credentials) (region nonce pubkeyHash amzDate : string) : list (string * string) :=
  [("host", sts_host region); ("content-type", stsContent); ("x-amz-date", amzDate); ("x-harbor-nonce", nonce); ("x-harbor-pubkey-hash", pubkeyHash)] ++
  (if decide (cr_SessionToken creds = "") then [] else [("x-amz-security-token", cr_SessionToken creds)]).

Definition wire_headers (creds : Credentials) (region nonce pubkeyHash amzDate auth : string) : list (string * string) :=
  [("Host", sts_host region); ("Content-Type", stsContent); ("X-Amz-Date", amzDate); ("X-Harbor-Nonce", nonce); ("X-Harbor-Pubkey-Hash", pubkeyHash); ("Authorization", auth)] ++
  (if decide (cr_SessionToken creds = "") then [] else [("X-Amz-Security-Token", cr_SessionToken creds)]).

(** [order] is the order of the ranges over the signed headers. *)
Definition Sign (order : list (string * string)) (creds : Credentials) (region nonce pubkeyHash : string) (t : Z) : result hterr PresignedRequest :=
  if bool_decide (cr_AccessKeyID creds = "") || bool_decide (cr_SecretAccessKey creds = "") then Err HT_Empty
  else if decide (region = "") then Err HT_Region
  else if bool_decide (nonce = "") || bool_decide (pubkeyHash = "") then Err HT_Binding
  else
    let auth := sign creds region "sts" "POST" "/" "" order stsBody in
    Ok (mkPresigned "POST" ("https://" +:+ sts_host region +:+ "/") (list_to_map (wire_headers creds region nonce pubkeyHash (formatDate t) auth)) stsBody).

(** ** Instance metadata *)

Context (imds : string -> string -> string -> option (Z * string)).      (* method, URL, session token: status and body *)
Context (decodeCreds : string -> option Credentials).

Definition imds_get (base token path : string) : result hterr string :=
  match imds "GET" (base +:+ path) token with
  | None => Err HT_Imds
  | Some (status, body) => if negb (status =? 200) then Err HT_Imds else Ok (TrimSpace body)
  end.

Definition FetchInstanceCredentials (baseURL : string) : result hterr (Credentials * string) :=
  let base := if decide (baseURL = "") then "http://169.254.169.254" else baseURL in
  match imds "PUT" (base +:+ "/latest/api/token") "" with
  | None => Err HT_Token
  | Some (_, body) =>
      let get := imds_get base (TrimSpace body) in
      match get "/latest/meta-data/placement/region" with
      | Err e => Err e
      | Ok region =>
          match get "/latest/meta-data/iam/security-credentials/" with
          | Err e => Err e
          | Ok role =>
              if decide (role = "") then Err HT_NoRole
              else match get ("/latest/meta-data/iam/security-credentials/" +:+ role) with
              | Err e => Err e
              | Ok credJSON => match decodeCreds credJSON with None => Err HT_Json | Some c => Ok (c, region) end
              end
          end
      end
  end.
End host.

(** ** The Authorization header read back *)

(** No "Si" in the text, so the marker cannot start in it. *)
Fixpoint no_Si (s : string) : bool :=
  match s with
  | String a ((String b _) as s') => negb (bool_decide (a = "S"%char) && bool_decide (b = "i"%char)) && no_Si s'
  | _ => true
  end.

Lemma no_Si_eq a b s : no_Si (String a (String b s)) = negb (bool_decide (a = "S"%char) && bool_decide (b = "i"%char)) && no_Si (String b s).
Proof. done. Qed.

Lemma no_Si_cons c s : c <> "S"%char -> no_Si (String c s) = no_Si s.
Proof. intros Hc. destruct s as [|d s]; [done|]. by rewrite no_Si_eq, bool_decide_false. Qed.

Lemma no_Si_absent s : "i"%char ∉ chars s \/ "S"%char ∉ chars s -> no_Si s = true.
Proof.
  induction s as [|a s IH]; [done|]. intros H. assert (IH' : no_Si s = true) by (apply IH; destruct H as [H|H]; [left|right]; intros Hs; apply H; by right).
  destruct s as [|b s]; [done|]. rewrite no_Si_eq, IH'. destruct (bool_decide (a = "S"%char)) eqn:Ea; [|done]. destruct (bool_decide (b = "i"%char)) eqn:Eb; [|done].
  bool_split. subst. destruct H as [H|H]; destruct H; [right; by left|by left].
Qed.

Lemma no_Si_app a c b : c <> "i"%char -> no_Si a = true -> no_Si (String c b) = true -> no_Si (a +:+ String c b) = true.
Proof.
  intros Hc. induction a as [|x a IH]; [done|]. intros Ha Hb. rewrite string_app_cons. destruct a as [|y a].
  - change ("" +:+ String c b) with (String c b). rewrite no_Si_eq, Hb, (bool_decide_false (c = _)) by done. by rewrite andb_false_r.
  - rewrite no_Si_eq in Ha. apply andb_true_iff in Ha as [H1 H2]. specialize (IH H2 Hb). rewrite string_app_cons in *. by rewrite no_Si_eq, H1, IH.
Qed.

Lemma no_Si_app_absent a b : no_Si a = true -> "i"%char ∉ chars b -> no_Si (a +:+ b) = true.
Proof.
  intros Ha Hb. destruct b as [|c b]; [by rewrite string_app_nil_r|]. apply no_Si_app; [|done|by apply no_Si_absent; left]. intros ->. apply Hb. by left.
Qed.

Lemma Index_marker a rest : no_Si a = true -> Index (a +:+ ("SignedHeaders=" +:+ rest)) "SignedHeaders=" = Some (String.length a).
Proof.
  induction a as [|c a IH]; intros Ha.
  - change ("" +:+ ?x) with x. rewrite Index_eq. by rewrite (proj2 (HasPrefix_iff _ _)) by (by exists rest).
  - rewrite string_app_cons, Index_eq.
    assert (HasPrefix (String c (a +:+ ("SignedHeaders=" +:+ rest))) "SignedHeaders=" = false) as ->.
    { apply not_true_iff_false. intros [t Ht]%HasPrefix_iff. destruct a as [|d a]; [by injection Ht|].
      rewrite !string_app_cons in Ht. injection Ht as -> -> _. done. }
    rewrite IH; [done|]. destruct a as [|d a]; [done|]. rewrite no_Si_eq in Ha. by apply andb_true_iff in Ha as [_ ?].
Qed.

Lemma Cut_at sep a b : sep ∉ chars a -> Cut sep (a +:+ String sep b) = (a, b, true).
Proof.
  induction a as [|c a IH]; intros Ha.
  - change ("" +:+ String sep b) with (String sep b). cbn. by rewrite decide_True.
  - rewrite string_app_cons. cbn. rewrite decide_False by (intros ->; apply Ha; by left). rewrite IH; [done|]. intros H. apply Ha. by right.
Qed.

(** ** What a host signs, Core accepts *)

Section accepted.
Context (sha256hex : string -> string) (hmac : string -> string -> string) (hex : string -> string) (formatDate : Z -> string).
Context (creds : Credentials) (region nonce pkh : string) (t : Z).
Abbreviation date := (formatDate t).
Abbreviation wire := (wire_headers creds region nonce pkh date).

Lemma wire_names auth : NoDup (fst <$> wire auth) /\ NoDup ((fun kv => ToLower kv.1) <$> wire auth).
Proof.
  unfold wire_headers. destruct (decide _); split; apply (bool_decide_unpack _); vm_compute; exact I.
Qed.

Lemma wire_values auth : at_ (by_lower_name (wire auth)) "x-harbor-nonce" = nonce /\ at_ (by_lower_name (wire auth)) "x-harbor-pubkey-hash" = pkh /\
  at_ (by_lower_name (wire auth)) "authorization" = auth.
Proof. unfold wire_headers. destruct (decide _); vm_compute; done. Qed.

(** The names that are signed, whatever the order of the range. *)
Lemma signed_names_eq order : order ≡ₚ signed_headers creds region nonce pkh date ->
  signed_names order = ["content-type"; "host"; "x-amz-date"] ++ (if decide (cr_SessionToken creds = "") then [] else ["x-amz-security-token"]) ++ ["x-harbor-nonce"; "x-harbor-pubkey-hash"].
Proof.
  intros Hp. unfold signed_names.
  assert (Hm : map (fun kv => ToLower kv.1) order ≡ₚ map (fun kv => ToLower kv.1) (signed_headers creds region nonce pkh date)) by (by apply Permutation_map).
  rewrite (proj1 (sort_strings_ext _ _) Hm). unfold signed_headers. destruct (decide _); vm_compute; done.
Qed.

Lemma substring_chars n m s c : c ∈ chars (String.substring n m s) -> c ∈ chars s.
Proof.
  revert n m. induction s as [|d s IH]; intros [|n] [|m]; cbn; try (by intros H%elem_of_nil); try done.
  - intros [->|H]%elem_of_cons; [by left|right; by eapply IH].
  - intros H. right. by eapply IH.
  - intros H. right. by eapply IH.
Qed.

Lemma region_no_S : forallb region_char (chars region) = true -> "S"%char ∉ chars region.
Proof. intros H Hin. rewrite forallb_forall in H. specialize (H _ (proj1 (list_elem_of_In _ _) Hin)). done. Qed.

Lemma sign_reads_back order : order ≡ₚ signed_headers creds region nonce pkh date -> forallb region_char (chars region) = true ->
  "i"%char ∉ chars (cr_AccessKeyID creds) -> "i"%char ∉ chars date ->
  signedHeaderSet (sign sha256hex hmac hex creds region "sts" "POST" "/" "" order stsBody) = Ok (signed_names order).
Proof.
  intros Hp Hr Hk Hd. unfold sign. set (sig := hex _). unfold signedHeaderSet. set (names := signed_names order).
  set (ds := String.substring 0 8 (header order "x-amz-date")).
  set (pre := ("AWS4-HMAC-SHA256 Credential=" +:+ cr_AccessKeyID creds) +:+ String "/" (ds +:+ String "/" (region +:+ String "/" "sts/aws4_request, "))).
  assert (Hpre : no_Si pre = true).
  { assert (Hds : "i"%char ∉ chars ds).
    { intros H%substring_chars. apply Hd. assert (Hh : header order "x-amz-date" = date); [|by rewrite Hh in H].
      unfold header. destruct (find_first _ order) as [kv|] eqn:Ef.
      - apply find_first_Some in Ef as [Hin Hkv]. bool_split. rewrite Hp in Hin. unfold signed_headers in Hin. cbn.
        destruct kv as [k v]. cbn in Hkv. subst k. destruct (decide _); set_solver.
      - rewrite find_first_None in Ef. specialize (Ef ("x-amz-date", date)). cbn in Ef. discriminate Ef. rewrite Hp. unfold signed_headers. cbn. right. right. by left. }
    unfold pre. apply no_Si_app; [done|by apply no_Si_app_absent|]. rewrite no_Si_cons by done. apply no_Si_app; [done|by apply no_Si_absent; left|].
    rewrite no_Si_cons by done. apply no_Si_app; [done|apply no_Si_absent; right; by apply region_no_S|done]. }
  replace (algorithm +:+ _) with (pre +:+ ("SignedHeaders=" +:+ (String.concat ";" names +:+ String "," (" Signature=" +:+ sig)))).
  2: { unfold pre, scope_of, algorithm. assert (Hnil : forall x : string, "" +:+ x = x) by done. repeat first [rewrite string_app_cons|rewrite string_app_assoc|rewrite Hnil]. done. }
  rewrite Index_marker by done. rewrite drop_chars_app_more. change (drop_chars (String.length "SignedHeaders=") ("SignedHeaders=" +:+ ?x)) with x.
  unfold names. rewrite (signed_names_eq order Hp). destruct (decide _).
  all: rewrite Cut_at by (apply (bool_decide_unpack _); vm_compute; exact I); vm_compute; done.
Qed.

Lemma sts_host_allowed : region <> "" -> forallb region_char (chars region) = true -> stsHost (sts_host region) = true.
Proof.
  intros Hne Hr. unfold stsHost, sts_host. apply orb_true_iff. right.
  rewrite (proj2 (HasPrefix_iff _ _)) by (by eexists). rewrite (proj2 (HasSuffix_iff _ _)) by (exists ("sts." +:+ region); by rewrite string_app_assoc).
  change (drop_chars 4 ("sts." +:+ ?x)) with x. rewrite chars_app, length_app, Nat.add_sub, take_app_length. rewrite Hr.
  destruct region; [done|]. done.
Qed.

(** C34: an attestation survives its journey. With credentials of the documented alphabet and a
    region AWS could have, the request [Sign] builds passes every check of Core for the nonce and
    key it was signed for, whatever the order of the ranges over the headers on both sides: it is
    forwarded to the STS host of the region with exactly the signed binding, and Core returns the
    identity STS answers. For any other nonce or key Core refuses it before contacting STS. *)
Theorem signed_attestation_is_accepted parseURL sts decodeXML endpoint order range1 range2 pres :
  order ≡ₚ signed_headers creds region nonce pkh date -> Sign sha256hex hmac hex formatDate order creds region nonce pkh t = Ok pres ->
  forallb region_char (chars region) = true -> "i"%char ∉ chars (cr_AccessKeyID creds) -> "i"%char ∉ chars date ->
  parseURL (ps_URL pres) = Some (mkUrl "https" (sts_host region) (sts_host region)) ->
  range1 ≡ₚ map_to_list (ps_Headers pres) -> range2 ≡ₚ map_to_list (ps_Headers pres) ->
  let sent := by_lower_name range2 in
  at_ sent "x-harbor-nonce" = nonce /\ at_ sent "x-harbor-pubkey-hash" = pkh /\
  (forall raw id, sts (if decide (endpoint = "") then ps_URL pres else endpoint) (sts_host region) sent stsBody = Replied 200 raw -> decodeXML raw = Some id -> id_Account id <> "" ->
     Verify parseURL sts decodeXML endpoint range1 range2 pres nonce pkh = Ok id) /\
  (forall n k, n <> nonce \/ k <> pkh -> Verify parseURL sts decodeXML endpoint range1 range2 pres n k = Err AT_Binding).
Proof.
  intros Hp. unfold Sign. destruct (_ || _) eqn:E1; [done|]. destruct (decide (region = "")) as [|Hne]; [done|]. destruct (_ || _) eqn:E2 in |- *; [done|].
  set (auth := sign _ _ _ _ _ _ _ _ _ _ _). intros [= <-]. cbn [ps_URL ps_Headers ps_Method ps_Body]. intros Hr Hk Hd Hu H1 H2.
  destruct (wire_names auth) as [Hn1 Hn2]. pose proof (map_to_list_to_map _ Hn1) as Hw. rewrite Hw in H1, H2.
  assert (Hb1 : by_lower_name range1 = by_lower_name (wire auth)) by (apply by_lower_perm; [by rewrite H1|done]).
  assert (Hb2 : by_lower_name range2 = by_lower_name (wire auth)) by (apply by_lower_perm; [by rewrite H2|done]).
  destruct (wire_values auth) as (Hv1 & Hv2 & Hv3). cbv zeta. rewrite Hb2. split_and!; [done|done| |].
  - intros raw id Hs Hx Ha. unfold Verify. cbn [ps_URL ps_Headers ps_Method ps_Body]. rewrite Hb1, Hb2, Hv1, Hv2, Hv3.
    change (EqualFold "POST" "POST") with true. rewrite !bool_decide_true by done. cbn [negb orb].
    unfold auth at 1. rewrite (sign_reads_back order Hp Hr Hk Hd), (signed_names_eq order Hp).
    assert (Hin : forall x, x ∈ ["content-type"; "host"; "x-amz-date"] \/ x ∈ ["x-harbor-nonce"; "x-harbor-pubkey-hash"] ->
      x ∈ ["content-type"; "host"; "x-amz-date"] ++ (if decide (cr_SessionToken creds = "") then [] else ["x-amz-security-token"]) ++ ["x-harbor-nonce"; "x-harbor-pubkey-hash"]).
    { intros x Hx'. rewrite !elem_of_app. tauto. }
    rewrite !bool_decide_true by (apply Hin; set_solver). cbn [negb orb]. rewrite Hu. cbn [u_Scheme u_Hostname u_Host]. rewrite bool_decide_true by done.
    rewrite (sts_host_allowed Hne Hr). cbn [negb orb]. rewrite Hs. cbn [Z.eqb Z.leb negb orb]. rewrite Hx. by rewrite decide_False.
  - intros n k Hnk. unfold Verify. cbn [ps_URL ps_Headers ps_Method ps_Body]. rewrite Hb1, Hv1, Hv2. change (EqualFold "POST" "POST") with true. rewrite (bool_decide_true (stsBody = stsBody)) by done. cbn [negb orb].
    destruct Hnk as [Hnk|Hnk]; [rewrite (bool_decide_false (nonce = n)) by done|rewrite (bool_decide_false (pkh = k)) by done]; [done|]. by rewrite orb_true_r.
Qed.
End accepted.

(** ** A concrete attestation *)

Module attest_example.
Definition demo_creds : Credentials := mkCreds "ASIAEXAMPLE" "secret" "token".
Definition demo_date (t : Z) : string := "20260101T000000Z".
Definition demo_order : list (string * string) := signed_headers demo_creds "us-east-1" "victim-nonce" "victim-key" (demo_date 0).
Definition demo_request : result hterr PresignedRequest :=
  Sign (fun _ => "00") (fun _ m => m) (fun s => "ff") demo_date demo_order demo_creds "us-east-1" "victim-nonce" "victim-key" 0.
Definition demo_range : list (string * string) := match demo_request with Ok p => map_to_list (ps_Headers p) | Err _ => [] end.

Lemma signed_attestation_is_accepted_witness :
  exists p, demo_request = Ok p /\ Verify demo_parse demo_sts demo_xml "" demo_range demo_range p "victim-nonce" "victim-key" = Ok demo_id.
Proof.
  destruct demo_request as [p|] eqn:E; [|vm_compute in E; discriminate]. exists p. split; [done|].
  assert (Hr : demo_range = map_to_list (ps_Headers p)) by (unfold demo_range; by rewrite E).
  assert (Hu : ps_URL p = demo_url) by (vm_compute in E; injection E as <-; vm_compute; reflexivity).
  destruct (signed_attestation_is_accepted (fun _ => "00") (fun _ m => m) (fun s => "ff") demo_date demo_creds "us-east-1" "victim-nonce" "victim-key" 0
    demo_parse demo_sts demo_xml "" demo_order demo_range demo_range p) as (Hn & Hk & Hok & _).
  - reflexivity.
  - exact E.
  - vm_compute. reflexivity.
  - apply (bool_decide_unpack _). vm_compute. exact I.
  - apply (bool_decide_unpack _). vm_compute. exact I.
  - rewrite Hu. vm_compute. reflexivity.
  - by rewrite Hr.
  - by rewrite Hr.
  - apply (Hok "ok" demo_id); [|vm_compute; reflexivity|done]. unfold demo_sts. by rewrite Hn, Hk, !bool_decide_true.
Defined.
End attest_example.
