(* ===== verification/Jws.v ===== *)
(** * internal/jws and internal/ssoassert: signed envelopes and SSO assertions

    Flattened JWS with ES256 and the compact assertion token built on it. SHA-256, ECDSA,
    the ASN.1 decoder and the JSON codecs of the header and of the assertion are
    parameters; what is assumed of them is said where it is used. *)

From S2P Require Import Prelude Bytes Nonce GoStrings.
From stdpp Require Import prelude strings list.
From Stdlib Require Import ZArith Lia Ascii.
Open Scope Z_scope.

Definition Alg : string := "ES256".

Inductive jwserr : Type := JW_Malformed | JW_Alg | JW_Signature | JW_Backend.

Record Header : Type := mkHeader { h_Alg : string; h_Typ : string; h_Ver : Z; h_Kid : string }.
Record Flattened : Type := mkFlat { f_Protected : string; f_Payload : string; f_Signature : string }.

Definition with_alg (h : Header) : Header := mkHeader Alg (h_Typ h) (h_Ver h) (h_Kid h).

(** The signature bytes R || S ([FillBytes] panics on a wider number: [None]). *)
Definition sig_bytes (rs : Z * Z) : option string :=
  if (0 <=? rs.1) && (rs.1 <? 2 ^ 256) && (0 <=? rs.2) && (rs.2 <? 2 ^ 256) then Some (be 32 rs.1 +:+ be 32 rs.2) else None.

Section jws.
Context (sha256 : string -> string).
Context {Priv Pub : Type} (ecdsaSign : Priv -> string -> option (Z * Z)) (ecdsaVerify : Pub -> string -> Z -> Z -> bool).
Context (marshalHeader : Header -> string) (unmarshalHeader : string -> option Header).

Definition signing_input (protected payload : string) : string := sha256 (protected +:+ "." +:+ payload).

Definition SignES256 (priv : Priv) (h : Header) (payload : string) : option Flattened :=
  let protected := EncodeToString (marshalHeader (with_alg h)) in
  let pl := EncodeToString payload in
  rs ← ecdsaSign priv (signing_input protected pl);
  sig ← sig_bytes rs;
  Some (mkFlat protected pl (EncodeToString sig)).

(** [SignBackendES256]: the backend answers in DER. *)
Definition SignBackendES256 (signDigest : string -> option string) (parseDER : string -> option (Z * Z)) (h : Header) (payload : string)
    : option Flattened :=
  let protected := EncodeToString (marshalHeader (with_alg h)) in
  let pl := EncodeToString payload in
  der ← signDigest (signing_input protected pl);
  rs ← parseDER der;
  sig ← sig_bytes rs;
  Some (mkFlat protected pl (EncodeToString sig)).

Definition VerifyAny (env : Flattened) (pubs : list (option Pub)) : result jwserr (Header * string) :=
  match DecodeString (f_Protected env) ≫= unmarshalHeader with
  | None => Err JW_Malformed
  | Some h =>
      if negb (bool_decide (h_Alg h = Alg)) then Err JW_Alg
      else match DecodeString (f_Signature env) with
      | None => Err JW_Malformed
      | Some sig =>
          if negb (len sig =? 64) then Err JW_Malformed
          else match DecodeString (f_Payload env) with
          | None => Err JW_Malformed
          | Some payload =>
              let digest := signing_input (f_Protected env) (f_Payload env) in
              let r := of_be 0 (take_s 32 sig) in
              let s := of_be 0 (drop_s 32 sig) in
              if existsb (fun pub => match pub with Some pub => ecdsaVerify pub digest r s | None => false end) pubs
              then Ok (h, payload) else Err JW_Signature
          end
      end
  end.

Definition VerifyOne (env : Flattened) (pub : Pub) : result jwserr (Header * string) := VerifyAny env [Some pub].
End jws.

(** ** internal/ssoassert *)

Definition typ : string := "ncp-sso-assertion-v1".
Definition maxLifetime : Z := 3600.   (* seconds *)

Inductive soerr : Type := SO_Signature | SO_Expired | SO_Malformed.

Record Assertion : Type := mkAssertion {
  as_Subject : string;
  as_Email : string;
  as_Issuer : string;
  as_IdPGroups : list string;
  as_PubkeyHash : string;
  as_Nonce : string;
  as_IssuedAt : Z;
  as_ExpiresAt : Z;
}.

(** The loop of [splitCompact]: the positions of the first two dots, [None] on a third. *)
Fixpoint scan_dots (i : nat) (first second : option nat) (s : string) : option (option nat * option nat) :=
  match s with
  | "" => Some (first, second)
  | String c s =>
      if decide (c <> "."%char) then scan_dots (S i) first second s
      else match first, second with
           | None, _ => scan_dots (S i) (Some i) second s
           | Some _, None => scan_dots (S i) first (Some i) s
           | Some _, Some _ => None
           end
  end.

Definition splitCompact (s : string) : option Flattened :=
  match scan_dots 0 None None s with
  | Some (Some first, Some second) =>
      let protected := take_s first s in
      let payload := take_s (second - (first + 1)) (drop_s (first + 1) s) in
      let sig := drop_s (second + 1) s in
      if bool_decide (protected = "") || bool_decide (payload = "") || bool_decide (sig = "") then None
      else Some (mkFlat protected payload sig)
  | _ => None
  end.

Definition compact (env : Flattened) : string := f_Protected env +:+ "." +:+ f_Payload env +:+ "." +:+ f_Signature env.

Section ssoassert.
Context (sha256 : string -> string).
Context {Priv Pub : Type} (ecdsaSign : Priv -> string -> option (Z * Z)) (ecdsaVerify : Pub -> string -> Z -> Z -> bool).
Context (marshalHeader : Header -> string) (unmarshalHeader : string -> option Header).
Context (marshal : Assertion -> string) (unmarshal : string -> option Assertion).

Definition Sign (priv : Priv) (a : Assertion) : option string :=
  compact <$> SignES256 sha256 ecdsaSign marshalHeader priv (mkHeader "" typ 1 "") (marshal a).

Definition Verify (pub : Pub) (token : string) (nowUnix : Z) : result soerr Assertion :=
  match splitCompact token with
  | None => Err SO_Malformed
  | Some env =>
      match VerifyOne sha256 ecdsaVerify unmarshalHeader env pub with
      | Err JW_Signature => Err SO_Signature
      | Err _ => Err SO_Malformed
      | Ok (h, payload) =>
          if negb (bool_decide (h_Typ h = typ)) then Err SO_Malformed
          else match unmarshal payload with
          | None => Err SO_Malformed
          | Some a =>
              if (as_ExpiresAt a =? 0) || (as_IssuedAt a <=? 0) then Err SO_Expired
              else if as_ExpiresAt a <? nowUnix then Err SO_Expired
              else if nowUnix <? as_IssuedAt a then Err SO_Expired
              else if maxLifetime <? i64 (as_ExpiresAt a - as_IssuedAt a) then Err SO_Expired
              else Ok a
          end
      end
  end.
End ssoassert.

(** ** Text of the token *)

Definition dotless (s : string) : Prop := "."%char ∉ chars s.

Lemma b64_not_dot v : 0 <= v < 64 -> b64_char v <> "."%char.
Proof. intros Hv E. pose proof (proj1 (b64_val_char v Hv)) as H. by rewrite E in H. Qed.

Lemma encode_dotless s : dotless (EncodeToString s).
Proof.
  unfold dotless. induction s as [|a|a b|a b c s IH] using string_ind3; cbn [EncodeToString chars]; [by apply not_elem_of_nil| | |];
    pose proof (of_byte_bounds a); try pose proof (of_byte_bounds b); try pose proof (of_byte_bounds c);
    rewrite ?not_elem_of_cons; split_and?; try done; try (by apply not_elem_of_nil);
    intros E; symmetry in E; revert E; apply b64_not_dot; Z.div_mod_to_equations; lia.
Qed.

Lemma encode_nonempty s : s <> "" -> EncodeToString s <> "".
Proof. by destruct s as [|a [|b [|c s]]]. Qed.

Lemma scan_skip p i f g s : dotless p -> scan_dots i f g (p +:+ s) = scan_dots (i + String.length p) f g s.
Proof.
  revert i. induction p as [|c p IH]; intros i Hp; [by rewrite Nat.add_0_r|].
  apply not_elem_of_cons in Hp as [Hc Hp]. rewrite str_app_cons. cbn. rewrite decide_True by done. rewrite IH by done.
  f_equal. lia.
Qed.

Lemma scan_dot i f g s : scan_dots i f g ("." +:+ s) =
  match f, g with None, _ => scan_dots (S i) (Some i) g s | Some _, None => scan_dots (S i) f (Some i) s | Some _, Some _ => None end.
Proof. done. Qed.

Definition well_cut (env : Flattened) : Prop :=
  (dotless (f_Protected env) /\ f_Protected env <> "") /\ (dotless (f_Payload env) /\ f_Payload env <> "") /\
  (dotless (f_Signature env) /\ f_Signature env <> "").

Lemma split_parts p q r : dotless p -> dotless q -> dotless r ->
  splitCompact (p +:+ "." +:+ q +:+ "." +:+ r) =
  if bool_decide (p = "") || bool_decide (q = "") || bool_decide (r = "") then None else Some (mkFlat p q r).
Proof.
  intros Hp Hq Hr. unfold splitCompact.
  assert (Escan : scan_dots 0 None None (p +:+ "." +:+ q +:+ "." +:+ r) =
     Some (Some (String.length p), Some (S (String.length p) + String.length q)%nat)).
  { rewrite scan_skip, scan_dot, scan_skip, scan_dot by done. cbn [Nat.add]. rewrite <- (str_app_nil r), scan_skip by done. done. }
  rewrite Escan.
  replace (String.length p + 1)%nat with (String.length (p +:+ ".")) by (rewrite str_app_length; cbn; lia).
  rewrite take_app_s by done.
  replace (p +:+ "." +:+ q +:+ "." +:+ r) with ((p +:+ ".") +:+ (q +:+ ("." +:+ r))) by (by rewrite str_app_assoc).
  rewrite drop_app_s by done.
  replace (S (String.length p) + String.length q - String.length (p +:+ "."))%nat with (String.length q) by (rewrite str_app_length; cbn; lia).
  rewrite take_app_s by done.
  replace ((p +:+ ".") +:+ (q +:+ ("." +:+ r))) with (((p +:+ ".") +:+ (q +:+ ".")) +:+ r) by (by rewrite !str_app_assoc).
  replace (S (String.length p) + String.length q + 1)%nat with (String.length ((p +:+ ".") +:+ (q +:+ ".")))
    by (rewrite !str_app_length; cbn; lia).
  by rewrite drop_app_s.
Qed.

Lemma split_compact env : well_cut env -> splitCompact (compact env) = Some env.
Proof.
  intros ((Hp & Np) & (Hq & Nq) & (Hr & Nr)). destruct env as [p q r]. cbn in *. unfold compact. cbn.
  rewrite split_parts by done. by rewrite !bool_decide_eq_false_2.
Qed.

Lemma scan_third i f g s x : scan_dots i (Some f) (Some g) s = Some x -> x = (Some f, Some g) /\ dotless s.
Proof.
  revert i. induction s as [|c s IH]; intros i; cbn; [intros [= <-]; split; [done|by apply not_elem_of_nil]|].
  destruct (decide _) as [Hc|]; [|done]. intros H. destruct (IH _ H) as [? Hs]. split; [done|].
  apply not_elem_of_cons. split; [|done]. congruence.
Qed.

Lemma scan_second s : forall i f x g, scan_dots i (Some f) None s = Some (x, Some g) ->
  x = Some f /\ exists q r, s = q +:+ "." +:+ r /\ dotless q /\ dotless r /\ g = (i + String.length q)%nat.
Proof.
  induction s as [|c s IH]; intros i f x g; cbn; [done|]. destruct (decide (c <> _)) as [Hc|Hc].
  - intros H. destruct (IH _ _ _ _ H) as (-> & q & r & -> & Hq & Hr & ->). split; [done|]. exists (String c q), r.
    rewrite str_app_cons. split_and!; [done| |done|cbn; lia]. apply not_elem_of_cons. split; [congruence|done].
  - apply dec_stable in Hc as ->. intros H. destruct (scan_third _ _ _ _ _ H) as [[= -> ->] Hs]. split; [done|].
    exists "", s. split_and!; [done|by apply not_elem_of_nil|done|cbn; lia].
Qed.

Lemma scan_first s : forall i f g, scan_dots i None None s = Some (Some f, Some g) ->
  exists p q r, s = p +:+ "." +:+ q +:+ "." +:+ r /\ dotless p /\ dotless q /\ dotless r /\
    f = (i + String.length p)%nat /\ g = (i + String.length p + 1 + String.length q)%nat.
Proof.
  induction s as [|c s IH]; intros i f g; cbn; [done|]. destruct (decide (c <> _)) as [Hc|Hc].
  - intros H. destruct (IH _ _ _ H) as (p & q & r & -> & Hp & Hq & Hr & -> & ->). exists (String c p), q, r.
    rewrite str_app_cons. split_and!; [done| |done|done|cbn; lia|cbn; lia]. apply not_elem_of_cons. split; [congruence|done].
  - apply dec_stable in Hc as ->. intros H. destruct (scan_second _ _ _ _ _ H) as ([= ->] & q & r & -> & Hq & Hr & ->).
    exists "", q, r. split_and!; [done|by apply not_elem_of_nil|done|done|cbn; lia|cbn; lia].
Qed.

Lemma split_inv s env : splitCompact s = Some env -> s = compact env /\ well_cut env.
Proof.
  intros H. assert (exists p q r, s = p +:+ "." +:+ q +:+ "." +:+ r /\ dotless p /\ dotless q /\ dotless r) as (p & q & r & -> & Hp & Hq & Hr).
  { unfold splitCompact in H. destruct (scan_dots 0 None None s) as [[[f|] [g|]]|] eqn:E; try done.
    destruct (scan_first _ _ _ _ E) as (p & q & r & Hs & ? & ? & ? & _). by exists p, q, r. }
  rewrite split_parts in H by done. destruct (_ || _) eqn:E; [done|]. injection H as <-. bool_split. done.
Qed.

(** ** Signatures *)

Section theorems.
Context (sha256 : string -> string).
Context {Priv Pub : Type} (ecdsaSign : Priv -> string -> option (Z * Z)) (ecdsaVerify : Pub -> string -> Z -> Z -> bool).
Context (marshalHeader : Header -> string) (unmarshalHeader : string -> option Header).

Lemma sig_bytes_decode rs sig : sig_bytes rs = Some sig ->
  len sig = 64 /\ of_be 0 (take_s 32 sig) = rs.1 /\ of_be 0 (drop_s 32 sig) = rs.2 /\ sig <> "".
Proof.
  unfold sig_bytes. destruct (_ && _) eqn:E; [|done]. intros Heq. apply (inj Some) in Heq as <-. bool_split.
  assert (Hbe : forall v, 0 <= v < 2 ^ 256 -> of_be 0 (be 32 v) = v).
  { intros v Hv. rewrite of_be_be by lia. change (256 ^ Z.of_nat 32) with (2 ^ 256). rewrite Z.mod_small; lia. }
  rewrite (take_app_s 32), (drop_app_s 32) by apply be_length. rewrite !Hbe by lia. split_and!; [|done|done|done].
  unfold len. by rewrite str_app_length, !be_length.
Qed.

(** An envelope around a valid signature is accepted. *)
Lemma sealed_verifies pub pubs h payload rs sig :
  unmarshalHeader (marshalHeader h) = Some h -> h_Alg h = Alg -> Some pub ∈ pubs ->
  ecdsaVerify pub (signing_input sha256 (EncodeToString (marshalHeader h)) (EncodeToString payload)) rs.1 rs.2 = true ->
  sig_bytes rs = Some sig ->
  VerifyAny sha256 ecdsaVerify unmarshalHeader
    (mkFlat (EncodeToString (marshalHeader h)) (EncodeToString payload) (EncodeToString sig)) pubs = Ok (h, payload).
Proof.
  intros Hh Ha Hin Hv Eb. unfold VerifyAny.
  cbn [f_Protected f_Payload f_Signature]. rewrite !decode_encode. cbn [mbind option_bind]. rewrite Hh.
  destruct (sig_bytes_decode _ _ Eb) as (-> & -> & -> & _). rewrite (bool_decide_eq_true_2 (h_Alg h = Alg)) by done.
  cbn [negb Z.eqb Pos.eqb]. rewrite (proj2 (existsb_elem _ _)); [done|]. by exists (Some pub).
Qed.

Lemma sign_verifies priv pub pubs h payload env :
  unmarshalHeader (marshalHeader (with_alg h)) = Some (with_alg h) ->
  (forall d rs, ecdsaSign priv d = Some rs -> ecdsaVerify pub d rs.1 rs.2 = true) ->
  Some pub ∈ pubs ->
  SignES256 sha256 ecdsaSign marshalHeader priv h payload = Some env ->
  VerifyAny sha256 ecdsaVerify unmarshalHeader env pubs = Ok (with_alg h, payload).
Proof.
  intros Hh Hsv Hin. unfold SignES256. destruct (ecdsaSign priv _) as [rs|] eqn:Es; [|done]. cbn.
  destruct (sig_bytes rs) as [sig|] eqn:Eb; [|done]. cbn. intros Heq. apply (inj Some) in Heq as <-.
  apply (sealed_verifies pub pubs (with_alg h) payload rs); auto.
Qed.

Lemma backend_verifies signDigest parseDER pub pubs h payload env :
  unmarshalHeader (marshalHeader (with_alg h)) = Some (with_alg h) ->
  (forall d der rs, signDigest d = Some der -> parseDER der = Some rs -> ecdsaVerify pub d rs.1 rs.2 = true) ->
  Some pub ∈ pubs ->
  SignBackendES256 sha256 marshalHeader signDigest parseDER h payload = Some env ->
  VerifyAny sha256 ecdsaVerify unmarshalHeader env pubs = Ok (with_alg h, payload).
Proof.
  intros Hh Hsv Hin. unfold SignBackendES256. destruct (signDigest _) as [der|] eqn:Es; [|done]. cbn.
  destruct (parseDER der) as [rs|] eqn:Ep; [|done]. cbn.
  destruct (sig_bytes rs) as [sig|] eqn:Eb; [|done]. cbn. intros Heq. apply (inj Some) in Heq as <-.
  apply (sealed_verifies pub pubs (with_alg h) payload rs); eauto.
Qed.

(** What was signed verifies. For a header codec that reads back what it wrote and an
    ECDSA whose signatures verify under the signer's public key, the envelope
    [SignES256] returns is accepted under every key set that holds the signer's key, with
    the same payload and the header's type, version and key id, the algorithm set. *)
Theorem jws_roundtrip priv pub pubs h payload env :
  unmarshalHeader (marshalHeader (with_alg h)) = Some (with_alg h) ->
  (forall d rs, ecdsaSign priv d = Some rs -> ecdsaVerify pub d rs.1 rs.2 = true) ->
  Some pub ∈ pubs ->
  SignES256 sha256 ecdsaSign marshalHeader priv h payload = Some env ->
  VerifyAny sha256 ecdsaVerify unmarshalHeader env pubs = Ok (with_alg h, payload).
Proof. apply sign_verifies. Qed.

(** Only signed content is accepted. When [VerifyAny] accepts an envelope, some key
    of the set verifies a signature over exactly the two texts of the envelope, the
    header says ES256, and header and payload are what those texts decode to; with no
    key, or with nil keys only, nothing is accepted. *)
Theorem jws_verify_sound env pubs h payload :
  VerifyAny sha256 ecdsaVerify unmarshalHeader env pubs = Ok (h, payload) ->
  exists pub sig, Some pub ∈ pubs /\ DecodeString (f_Signature env) = Some sig /\ len sig = 64 /\
    ecdsaVerify pub (sha256 (f_Protected env +:+ "." +:+ f_Payload env)) (of_be 0 (take_s 32 sig)) (of_be 0 (drop_s 32 sig)) = true /\
    h_Alg h = Alg /\ DecodeString (f_Protected env) ≫= unmarshalHeader = Some h /\ DecodeString (f_Payload env) = Some payload.
Proof.
  unfold VerifyAny. destruct (DecodeString (f_Protected env) ≫= unmarshalHeader) as [h'|]; [|done].
  destruct (negb _) eqn:Ea; [done|]. destruct (DecodeString (f_Signature env)) as [sig|]; [|done].
  destruct (negb (len sig =? 64)) eqn:El; [done|]. destruct (DecodeString (f_Payload env)) as [pl|]; [|done].
  destruct (existsb _ _) eqn:Ex; [|done]. intros [= <- <-]. bool_split.
  apply existsb_elem in Ex as ([pub|] & Hin & Hv); [|done]. exists pub, sig. by split_and!.
Qed.

Context (marshal : Assertion -> string) (unmarshal : string -> option Assertion).

(** A portal's assertion is accepted inside its window and only then. For codecs that
    read back the (non-empty) texts they wrote, a token the gateway signed is accepted by
    Core under the gateway's key at every moment from its issue to its expiry, provided
    the window is positive and at most an hour; outside the window it is refused as
    expired. *)
Theorem assertion_roundtrip priv pub a token nowUnix :
  (let h := with_alg (mkHeader "" typ 1 "") in unmarshalHeader (marshalHeader h) = Some h /\ marshalHeader h <> "") ->
  unmarshal (marshal a) = Some a /\ marshal a <> "" ->
  (forall d rs, ecdsaSign priv d = Some rs -> ecdsaVerify pub d rs.1 rs.2 = true) ->
  int64_ok (as_ExpiresAt a) -> int64_ok (as_IssuedAt a) ->
  Sign sha256 ecdsaSign marshalHeader marshal priv a = Some token ->
  Verify sha256 ecdsaVerify unmarshalHeader unmarshal pub token nowUnix =
  if decide (0 < as_IssuedAt a <= nowUnix /\ nowUnix <= as_ExpiresAt a /\ as_ExpiresAt a - as_IssuedAt a <= maxLifetime)
  then Ok a else Err SO_Expired.
Proof.
  intros [Hh Hhne] [Hm Hne] Hsv He Hi. unfold Sign. destruct (SignES256 _ _ _ _ _ _) as [env|] eqn:Es; [|done]. cbn. intros [= <-].
  assert (Hw : well_cut env).
  { unfold SignES256 in Es. destruct (ecdsaSign priv _) as [rs|]; [|done]. cbn in Es.
    destruct (sig_bytes rs) as [sig|] eqn:Eb; [|done]. cbn in Es. injection Es as <-.
    split_and!; cbn; try apply encode_dotless; apply encode_nonempty; [done|done|by apply (sig_bytes_decode _ _ Eb)]. }
  unfold Verify. rewrite split_compact by done. unfold VerifyOne.
  pose proof (sign_verifies priv pub [Some pub] _ _ env Hh Hsv ltac:(constructor) Es) as Ev.
  rewrite Ev. cbn [h_Typ with_alg]. rewrite bool_decide_eq_true_2 by done. cbn [negb]. rewrite Hm.
  unfold int64_ok, maxLifetime in *. destruct (decide _) as [(H1 & H2 & H3)|Hn].
  - rewrite (proj2 (Z.eqb_neq _ _)), (proj2 (Z.leb_gt _ _)), (proj2 (Z.ltb_ge _ _)), (proj2 (Z.ltb_ge _ _)) by lia.
    unfold i64. rewrite Z.mod_small by lia. rewrite (proj2 (Z.ltb_ge _ _)) by lia. done.
  - destruct (_ || _) eqn:E1; [done|]. destruct (_ <? nowUnix) eqn:E2; [done|]. destruct (nowUnix <? _) eqn:E3; [done|]. bool_split.
    unfold i64. rewrite Z.mod_small by lia. destruct (3600 <? _) eqn:E4; [done|]. bool_split. exfalso. apply Hn. lia.
Qed.
End theorems.

(** ** A toy signature scheme *)

Definition toy_hash (s : string) : string := s.
Definition toy_sign (priv : Z) (d : string) : option (Z * Z) := Some (priv, len d).
Definition toy_verify (pub : Z) (d : string) (r s : Z) : bool := (r =? pub) && (s =? len d).

(** A header codec: type, version in unary and key id, the first two closed by line breaks. *)
Definition nl : string := String (byte_of 10) "".
Fixpoint cut_line (s : string) : string * string :=
  match s with
  | "" => ("", "")
  | String c s => if decide (c = byte_of 10) then ("", s) else let (a, b) := cut_line s in (String c a, b)
  end.
Definition toy_marshal (h : Header) : string := "{" +:+ h_Alg h +:+ nl +:+ h_Typ h +:+ nl +:+ h_Kid h.
Definition toy_unmarshal (s : string) : option Header :=
  match s with
  | String _ s => let (a, s) := cut_line s in let (t, k) := cut_line s in Some (mkHeader a t 1 k)
  | "" => None
  end.
Definition demo_header : Header := mkHeader "" "ncp-bundle+jws" 1 "kid".
Definition demo_env : Flattened := mkFlat
  (EncodeToString (toy_marshal (with_alg demo_header))) (EncodeToString "body")
  (EncodeToString (be 32 7 +:+ be 32 (len (EncodeToString (toy_marshal (with_alg demo_header)) +:+ "." +:+ EncodeToString "body")))).

Lemma toy_ok d rs : toy_sign 7 d = Some rs -> toy_verify 7 d rs.1 rs.2 = true.
Proof. intros [= <-]. unfold toy_verify. cbn. by rewrite Z.eqb_refl. Qed.

Lemma jws_roundtrip_witness :
  VerifyAny toy_hash toy_verify toy_unmarshal demo_env [None; Some 5; Some 7] = Ok (with_alg demo_header, "body").
Proof.
  apply (jws_roundtrip toy_hash toy_sign toy_verify toy_marshal toy_unmarshal 7 7 [None; Some 5; Some 7] demo_header "body" demo_env);
    [vm_compute; reflexivity|apply toy_ok|by right; right; left|vm_compute; reflexivity].
Defined.

Lemma jws_verify_sound_witness : exists pub, Some pub ∈ [None; Some 5; Some 7] /\ h_Alg (with_alg demo_header) = Alg /\ pub = 7.
Proof.
  destruct (jws_verify_sound toy_hash toy_verify toy_unmarshal demo_env [None; Some 5; Some 7] (with_alg demo_header) "body")
    as (pub & sig & Hin & Hd & _ & Hv & Ha & _); [vm_compute; reflexivity|].
  exists pub. split; [exact Hin|]. split; [exact Ha|]. unfold toy_verify in Hv. vm_compute in Hd. injection Hd as <-.
  apply andb_true_iff in Hv as [Hv _]. apply Z.eqb_eq in Hv. rewrite <- Hv. vm_compute. reflexivity.
Defined.

(** An assertion codec for the fields that differ. *)
Definition demo_assertion : Assertion := mkAssertion "sub" "a@b" "corp" ["eng"] "pkh" "n" 1000 1180.
Definition toy_am (a : Assertion) : string := "{}".
Definition toy_au (s : string) : option Assertion := Some demo_assertion.
Definition demo_token : string :=
  default "" (Sign toy_hash toy_sign toy_marshal toy_am 7 demo_assertion).

Lemma assertion_roundtrip_witness :
  Verify toy_hash toy_verify toy_unmarshal toy_au 7 demo_token 1100 = Ok demo_assertion /\
  Verify toy_hash toy_verify toy_unmarshal toy_au 7 demo_token 1181 = Err SO_Expired.
Proof.
  assert (Hr : forall t, Verify toy_hash toy_verify toy_unmarshal toy_au 7 demo_token t = if decide (0 < 1000 <= t /\ t <= 1180 /\ 1180 - 1000 <= maxLifetime) then Ok demo_assertion else Err SO_Expired).
  { intros t. apply (assertion_roundtrip toy_hash toy_sign toy_verify toy_marshal toy_unmarshal toy_am toy_au 7 7 demo_assertion demo_token t);
      [by split; vm_compute|by split; vm_compute|apply toy_ok|by vm_compute|by vm_compute|vm_compute; reflexivity]. }
  rewrite !Hr. split; [by rewrite decide_True by (unfold maxLifetime; lia)|by rewrite decide_False by lia].
Defined.
