(* ===== verification/Bundle.v ===== *)
(** * internal/bundle: the signed config bundle and Pilot's trust in its signers

    The bundle record with its compiled firewall, signing and verification on top of JWS,
    and the trust file in which Pilot records the config-signing keys it learned. The JSON
    codecs, PEM parsing and ECDSA are parameters; the trust file is its contents ([None]
    when absent), replaced atomically by the rename; each of the two reads of it may fail. *)

From S2P Require Import Prelude GoStrings Bytes Nonce Policy Jws.
From stdpp Require Import prelude strings list.
From Stdlib Require Import ZArith Lia Ascii.
Open Scope Z_scope.

Definition Type_ : string := "config-bundle".
Definition ProtocolVersion : Z := 1.
Definition TypEnrollRequest : string := "ncp-request+jws".
Definition TypBundle : string := "ncp-bundle+jws".

Record Lighthouse : Type := mkLighthouse { lh_OverlayIP : string; lh_PublicAddrs : list string }.
Record BDevice : Type := mkBDevice { bd_Name : string; bd_OverlayIP : string; bd_Groups : list string }.

Record Bundle : Type := mkBundle {
  b_ProtocolVersion : Z;
  b_Type : string;
  b_BundleVersion : Z;
  b_BlocklistVersion : Z;
  b_IssuedAt : string;
  b_Device : BDevice;
  b_Certificate : string;
  b_CABundle : list string;
  b_ConfigSigningKeys : list string;
  b_ConfigKeyVersion : Z;
  b_Firewall : option Compiled;
  b_Lighthouses : list Lighthouse;
  b_Blocklist : list string;
  b_TunDev : string;
  b_ListenPort : Z;
  b_Nebula : string * string * string;   (* version, SHA-256, URL *)
  b_Pilot : string * string * string;
  b_NotAfter : string;
}.

Definition hasControlPlane (groups : list string) : bool := existsb (fun g => bool_decide (g = GroupControlPlane)) groups.

Definition CompileFirewall (p : option Policy) (groups : list string) : option Compiled :=
  match p with
  | None => if negb (hasControlPlane groups) then None else Some (CompileHost (mkPolicy 0 []) groups)
  | Some p => Some (CompileHost p groups)
  end.

Definition stamped (b : Bundle) : Bundle :=
  mkBundle ProtocolVersion Type_ (b_BundleVersion b) (b_BlocklistVersion b) (b_IssuedAt b) (b_Device b) (b_Certificate b)
    (b_CABundle b) (b_ConfigSigningKeys b) (b_ConfigKeyVersion b) (b_Firewall b) (b_Lighthouses b) (b_Blocklist b)
    (b_TunDev b) (b_ListenPort b) (b_Nebula b) (b_Pilot b) (b_NotAfter b).

Inductive buerr : Type := BU_NotJWS | BU_Signature (e : jwserr) | BU_WrongTyp | BU_Payload | BU_WrongType.

(** [TrustFile] *)
Record TrustFile : Type := mkTrust { tf_Version : Z; tf_Keys : list string }.

Section bundle.
Context (sha256 : string -> string).
Context {Pub : Type} `{!EqDecision Pub} (ecdsaVerify : Pub -> string -> Z -> Z -> bool).
Context (marshalHeader : Header -> string) (unmarshalHeader : string -> option Header).
Context (marshal : Bundle -> string) (unmarshal : string -> option Bundle).
Context (marshalEnv : Flattened -> string) (unmarshalEnv : string -> option Flattened).
Context (parsePEM : string -> option Pub).                      (* PEM to P-256 point *)
Context (marshalTrust : TrustFile -> string) (unmarshalTrust : string -> option TrustFile).

Definition SignBundle (signDigest : string -> option string) (parseDER : string -> option (Z * Z)) (keyID : string) (b : Bundle)
    : option string :=
  marshalEnv <$> SignBackendES256 sha256 marshalHeader signDigest parseDER (mkHeader "" TypBundle 1 keyID) (marshal (stamped b)).

Definition VerifyBundle (jwsBytes : string) (trusted : list (option Pub)) : result buerr Bundle :=
  match unmarshalEnv jwsBytes with
  | None => Err BU_NotJWS
  | Some env =>
      match VerifyAny sha256 ecdsaVerify unmarshalHeader env trusted with
      | Err e => Err (BU_Signature e)
      | Ok (hdr, payload) =>
          if negb (bool_decide (h_Typ hdr = TypBundle)) then Err BU_WrongTyp
          else match unmarshal payload with
          | None => Err BU_Payload
          | Some b => if negb (bool_decide (b_Type b = Type_)) then Err BU_WrongType else Ok b
          end
      end
  end.

Definition ParsePubPEMs (pems : list string) : list Pub := omap parsePEM pems.

Definition LoadTrustFile (file : option string) : Z * list Pub :=
  match file ≫= unmarshalTrust with
  | None => (0, [])
  | Some tf => (tf_Version tf, ParsePubPEMs (tf_Keys tf))
  end.

(** What [os.ReadFile] gives: the contents, or nothing when the read fails, as for an absent file. *)
Definition ReadTrust (ok : bool) (file : option string) : option string := if ok then file else None.

(** The file afterwards. [read] says whether the read of the recorded version succeeds; [crash]
    is what a failed or interrupted write does: the rename happens last, so the old file stays. *)
Definition PersistTrustFile (read crash : bool) (file : option string) (version : Z) (keyPEMs : list string) : option string :=
  if decide (keyPEMs = []) then file
  else if version <? (LoadTrustFile (ReadTrust read file)).1 then file
  else if crash then file
  else Some (marshalTrust (mkTrust version keyPEMs)).

Fixpoint add_learned (out : list Pub) (learned : list Pub) : list Pub :=
  match learned with
  | [] => out
  | k :: learned => add_learned (if decide (k ∈ out) then out else out ++ [k]) learned
  end.

Definition TrustedSet (pins : list Pub) (file : option string) : list Pub := add_learned pins (LoadTrustFile file).2.

(** A text that arrives, with what becomes of the file operations of its handling. *)
Record Delivery : Type := mkDelivery { dl_text : string; dl_read_set : bool; dl_read_version : bool; dl_crash : bool }.

(** Pilot's handling of a received bundle: verify against the live trust set, and on
    success record the keys it carries. *)
Definition apply_bundle (d : Delivery) (pins : list Pub) (file : option string) : result buerr Bundle * option string :=
  match VerifyBundle (dl_text d) (map Some (TrustedSet pins (ReadTrust (dl_read_set d) file))) with
  | Err e => (Err e, file)
  | Ok b => (Ok b, PersistTrustFile (dl_read_version d) (dl_crash d) file (b_ConfigKeyVersion b) (b_ConfigSigningKeys b))
  end.
End bundle.

(** ** Signing keys over time *)

Section theorems.
Context (sha256 : string -> string).
Context {Pub : Type} `{!EqDecision Pub} (ecdsaVerify : Pub -> string -> Z -> Z -> bool).
Context (marshalHeader : Header -> string) (unmarshalHeader : string -> option Header).
Context (marshal : Bundle -> string) (unmarshal : string -> option Bundle).
Context (marshalEnv : Flattened -> string) (unmarshalEnv : string -> option Flattened).
Context (parsePEM : string -> option Pub).
Context (marshalTrust : TrustFile -> string) (unmarshalTrust : string -> option TrustFile).

(** The envelope of a signature over this bundle (three base64url texts) is read back. *)
Definition envelope_reads_back (signDigest : string -> option string) (parseDER : string -> option (Z * Z)) (keyID : string) (b : Bundle) : Prop :=
  forall env, SignBackendES256 sha256 marshalHeader signDigest parseDER (mkHeader "" TypBundle 1 keyID) (marshal (stamped b)) = Some env ->
    unmarshalEnv (marshalEnv env) = Some env.

(** A bundle survives its journey. For codecs that read back this header, bundle and envelope and a
    backend whose DER signatures verify under its public key, what Harbor signed is what
    Pilot obtains from every trust set holding that key: the same bundle, stamped with the
    protocol version and the payload type. *)
Theorem bundle_roundtrip signDigest parseDER pub trusted keyID b jwsBytes :
  (let h := with_alg (mkHeader "" TypBundle 1 keyID) in unmarshalHeader (marshalHeader h) = Some h) ->
  unmarshal (marshal (stamped b)) = Some (stamped b) ->
  envelope_reads_back signDigest parseDER keyID b ->
  (forall d der rs, signDigest d = Some der -> parseDER der = Some rs -> ecdsaVerify pub d rs.1 rs.2 = true) ->
  Some pub ∈ trusted ->
  SignBundle sha256 marshalHeader marshal marshalEnv signDigest parseDER keyID b = Some jwsBytes ->
  VerifyBundle sha256 ecdsaVerify unmarshalHeader unmarshal unmarshalEnv jwsBytes trusted = Ok (stamped b).
Proof.
  intros Hh Hm He Hsv Hin. unfold SignBundle. destruct (SignBackendES256 _ _ _ _ _ _) as [env|] eqn:Es; [|done].
  intros Heq. apply (inj Some) in Heq as <-. unfold VerifyBundle. rewrite (He env Es).
  rewrite (backend_verifies sha256 ecdsaVerify marshalHeader unmarshalHeader _ _ _ _ _ _ _ Hh Hsv Hin Es).
  rewrite bool_decide_eq_true_2 by done. cbn [negb]. by rewrite Hm, bool_decide_eq_true_2.
Qed.

Abbreviation verify := (VerifyBundle sha256 ecdsaVerify unmarshalHeader unmarshal unmarshalEnv).
Abbreviation load := (LoadTrustFile parsePEM unmarshalTrust).
Abbreviation trusted_set := (TrustedSet parsePEM unmarshalTrust).
Abbreviation apply := (apply_bundle sha256 ecdsaVerify unmarshalHeader unmarshal unmarshalEnv parsePEM marshalTrust unmarshalTrust).

(** A key with a chain of bundles from the pins: a pin, or carried by a bundle that
    verifies under keys which have one. *)
Inductive vouched (pins : list Pub) : Pub -> Prop :=
| vouched_pin k : k ∈ pins -> vouched pins k
| vouched_next k jwsBytes trusted b : (forall t, t ∈ trusted -> vouched pins t) ->
    verify jwsBytes (map Some trusted) = Ok b -> k ∈ ParsePubPEMs parsePEM (b_ConfigSigningKeys b) -> vouched pins k.

Lemma add_learned_in (out learned : list Pub) k : k ∈ add_learned out learned <-> k ∈ out \/ k ∈ learned.
Proof.
  revert out. induction learned as [|x l IH]; intros out; cbn; [rewrite elem_of_nil; tauto|].
  rewrite IH, elem_of_cons. case_decide; [|rewrite elem_of_app, list_elem_of_singleton; tauto]. naive_solver.
Qed.

Lemma trusted_in pins file k : k ∈ trusted_set pins file <-> k ∈ pins \/ k ∈ (load file).2.
Proof. apply add_learned_in. Qed.

(** Texts received one after the other. *)
Fixpoint receive (pins : list Pub) (file : option string) (l : list Delivery) : option string :=
  match l with
  | [] => file
  | d :: l => receive pins (apply d pins file).2 l
  end.

(** The trust file written for a bundle that was decoded and verified is read back. *)
Definition trust_reads_back : Prop := forall jwsBytes trusted b, verify jwsBytes trusted = Ok b ->
  let tf := mkTrust (b_ConfigKeyVersion b) (b_ConfigSigningKeys b) in unmarshalTrust (marshalTrust tf) = Some tf.

Lemma apply_rooted d pins file : trust_reads_back -> (forall k, k ∈ (load file).2 -> vouched pins k) ->
  (forall k, k ∈ (load (apply d pins file).2).2 -> vouched pins k) /\
  (dl_read_version d = true -> (load file).1 <= (load (apply d pins file).2).1).
Proof.
  intros Hcodec Hv. unfold apply_bundle. destruct (verify (dl_text d) _) as [b|e] eqn:Ev; [|by split]. cbn. unfold PersistTrustFile.
  case_decide; [by split|]. destruct (_ <? _) eqn:Elt; [by split|]. destruct (dl_crash d); [by split|]. bool_split.
  assert (El : load (Some (marshalTrust (mkTrust (b_ConfigKeyVersion b) (b_ConfigSigningKeys b)))) =
               (b_ConfigKeyVersion b, ParsePubPEMs parsePEM (b_ConfigSigningKeys b))).
  { unfold LoadTrustFile. cbn [mbind option_bind]. by rewrite (Hcodec _ _ _ Ev). }
  rewrite El. split; [|intros Hr; by rewrite Hr in Elt]. intros k Hk. eapply vouched_next; [|exact Ev|exact Hk].
  intros t [Ht|Ht]%trusted_in; [by apply vouched_pin|]. destruct (dl_read_set d); [by apply Hv|]. by apply elem_of_nil in Ht.
Qed.

(** C32: Pilot's trust is rooted in its pins and never rolls back. Whatever texts Pilot is
    sent, in whatever order, whichever reads of the trust file fail and wherever it crashes:
    the pins stay trusted; every trusted key is a pin or was carried by a bundle signed by
    keys that are themselves rooted in the pins; and unless the read of the recorded version
    fails, that version never decreases, so a replayed older bundle cannot bring a retired
    key back. The trust file of a bundle that was decoded is assumed to read back. *)
Theorem trust_is_rooted pins l file :
  trust_reads_back ->
  (forall k, k ∈ (load file).2 -> vouched pins k) ->
  let file' := receive pins file l in
  (forall k, k ∈ pins -> k ∈ trusted_set pins file') /\
  (forall k, k ∈ trusted_set pins file' -> vouched pins k) /\
  (Forall (fun d => dl_read_version d = true) l -> (load file).1 <= (load file').1).
Proof.
  intros Hcodec. cbv zeta. revert file. induction l as [|d l IH]; intros file Hv; cbn [receive].
  - split_and!; [intros k Hk; apply trusted_in; by left| |done].
    intros k [Hk|Hk]%trusted_in; [by apply vouched_pin|by apply Hv].
  - destruct (apply_rooted d pins file Hcodec Hv) as [Hv' Hle]. destruct (IH _ Hv') as (H1 & H2 & H3).
    split_and!; [done|done|]. intros [Hr Hl]%Forall_cons. specialize (Hle Hr). specialize (H3 Hl). lia.
Qed.
End theorems.

(** ** A rotation from key 7 to key 9 *)

Definition toy_pem (s : string) : option Z := if decide (s = "K7") then Some 7 else if decide (s = "K9") then Some 9 else None.
Definition demo_bundle : Bundle :=
  mkBundle 0 "" 1 0 "now" (mkBDevice "h" "10.0.0.1" ["web"]) "cert" ["ca"] ["K7"; "K9"] 2 None [] [] "" 0 ("", "", "") ("", "", "") "later".
Definition toy_bm (b : Bundle) : string := "b".
Definition toy_bu (s : string) : option Bundle := Some (stamped demo_bundle).

(** Self-delimiting text: every byte after a one, then a zero. *)
Fixpoint enc (s : string) (rest : string) : string :=
  match s with "" => String "0"%char rest | String c s => String "1"%char (String c (enc s rest)) end.
Fixpoint dec (s : string) : string * string :=
  match s with
  | String "1"%char (String c s) => let (a, r) := dec s in (String c a, r)
  | String _ r => (EmptyString, r)
  | EmptyString => (EmptyString, EmptyString)
  end.

Lemma dec_enc s rest : dec (enc s rest) = (s, rest).
Proof. induction s as [|c s IH]; [done|]. cbn. by rewrite IH. Qed.

Definition toy_em (env : Flattened) : string := enc (f_Protected env) (enc (f_Payload env) (f_Signature env)).
Definition toy_eu (s : string) : option Flattened :=
  let (p, s) := dec s in let (q, r) := dec s in Some (mkFlat p q r).

Lemma toy_env_codec env : toy_eu (toy_em env) = Some env.
Proof. destruct env as [p q r]. unfold toy_eu, toy_em. by rewrite !dec_enc. Qed.

Fixpoint ones (n : nat) : string := match n with O => "" | S n => String "x"%char (ones n) end.
Fixpoint enc_list (l : list string) : string :=
  match l with [] => "0" | k :: l => String "1"%char (enc k (enc_list l)) end.
Fixpoint dec_list (n : nat) (s : string) : list string :=
  match n, s with
  | S n, String "1"%char s => let (k, r) := dec s in k :: dec_list n r
  | _, _ => []
  end.
Definition toy_tm (tf : TrustFile) : string :=
  String (if tf_Version tf <? 0 then "-"%char else "+"%char)
    (enc (ones (Z.to_nat (Z.abs (tf_Version tf)))) (enc (ones (length (tf_Keys tf))) (enc_list (tf_Keys tf)))).
Definition toy_tu (s : string) : option TrustFile :=
  match s with
  | EmptyString => None
  | String c s =>
      let (v, s) := dec s in let (n, s) := dec s in
      let v := Z.of_nat (String.length v) in
      Some (mkTrust (if decide (c = "-"%char) then - v else v) (dec_list (String.length n) s))
  end.

Lemma toy_trust_codec tf : toy_tu (toy_tm tf) = Some tf.
Proof.
  assert (Hones : forall n, String.length (ones n) = n) by (induction n; cbn; congruence).
  assert (Hl : forall l, dec_list (length l) (enc_list l) = l).
  { induction l as [|k l IH]; [done|]. cbn. by rewrite dec_enc, IH. }
  destruct tf as [v keys]. unfold toy_tu, toy_tm. cbn [tf_Version tf_Keys]. rewrite !dec_enc, !Hones, Hl. do 2 f_equal.
  destruct (v <? 0) eqn:E; bool_split; case_decide; try done; lia.
Qed.

Definition toy_digest (d : string) : option string := Some d.
Definition toy_der (d : string) : option (Z * Z) := Some (7, len d).
Definition demo_jws : string :=
  default "" (SignBundle toy_hash toy_marshal toy_bm toy_em toy_digest toy_der "kid" demo_bundle).

Lemma bundle_roundtrip_witness :
  VerifyBundle toy_hash toy_verify toy_unmarshal toy_bu toy_eu demo_jws [Some 9; Some 7] = Ok (stamped demo_bundle).
Proof.
  apply (bundle_roundtrip toy_hash toy_verify toy_marshal toy_unmarshal toy_bm toy_bu toy_em toy_eu toy_digest toy_der 7 [Some 9; Some 7] "kid" demo_bundle demo_jws).
  - vm_compute. reflexivity.
  - reflexivity.
  - intros env _. apply toy_env_codec.
  - intros d der rs [= <-] [= <-]. unfold toy_verify. cbn. by rewrite Z.eqb_refl.
  - right. left.
  - vm_compute. reflexivity.
Defined.

(** One delivery in full, one cut short by a crash, one whose reads fail. *)
Definition delivered (text : string) : Delivery := mkDelivery text true true false.
Definition demo_deliveries : list Delivery :=
  [mkDelivery demo_jws true true true; delivered "junk"; mkDelivery demo_jws false true false; delivered demo_jws].

Lemma trust_is_rooted_witness :
  let file' := receive toy_hash toy_verify toy_unmarshal toy_bu toy_eu toy_pem toy_tm toy_tu [7] None demo_deliveries in
  (forall k, k ∈ [7; 9] -> k ∈ TrustedSet toy_pem toy_tu [7] file') /\
  (forall k, k ∈ TrustedSet toy_pem toy_tu [7] file' ->
     vouched toy_hash toy_verify toy_unmarshal toy_bu toy_eu toy_pem [7] k).
Proof.
  cbv zeta. split.
  - intros k Hk. vm_compute in Hk |- *. exact Hk.
  - apply (trust_is_rooted toy_hash toy_verify toy_unmarshal toy_bu toy_eu toy_pem toy_tm toy_tu [7] demo_deliveries None).
    + intros jwsBytes trusted b _. apply toy_trust_codec.
    + intros k Hk. by apply elem_of_nil in Hk.
Defined.

(** A failed read of the version is taken for a first write: the file records version 3, the
    bundle delivered is of version 2, and the set it carries replaces the recorded one. *)
Example unread_version_is_rolled_back :
  let file := Some (toy_tm (mkTrust 3 ["K9"])) in
  let deliver d := (apply_bundle toy_hash toy_verify toy_unmarshal toy_bu toy_eu toy_pem toy_tm toy_tu d [7] file).2 in
  deliver (delivered demo_jws) = file /\
  LoadTrustFile toy_pem toy_tu (deliver (mkDelivery demo_jws true false false)) = (2, [7; 9]).
Proof. vm_compute. done. Qed.
