(* ===== verification/Signer.v ===== *)
(** * internal/signer: the certificate signing spine

    Template validation, the signing identity behind its atomic pointer and its hot swap,
    and [Issue]: validate, pass the circuit breaker, sign, audit. The state is any store
    with a cell for the identity; the breaker (modelled in Breaker.v), the audit log, the
    signing backend and nebula's certificate library are parameters. Metrics and the
    tickers that call the reconciler are not modelled. *)

From S2P Require Import Prelude Db Bytes GoStrings Netip.
From stdpp Require Import prelude strings list relations.
From Stdlib Require Import ZArith Lia.
Open Scope Z_scope.

Inductive serr : Type :=
| S_EmptyName | S_BadPublicKey | S_NoNetworks | S_IPOutOfAllocation | S_GroupNotAllowed | S_InvalidValidity | S_LifetimeTooLong | S_ExpiresAfterCA
| S_CircuitOpen | S_Breaker | S_Sign | S_Marshal | S_Audit
| S_NoBackend | S_ParseCA | S_NotCA | S_Curve | S_BackendKey | S_KeyMismatch | S_ExpiredCA | S_ReadActive | S_BuildBackend | S_Fault.
#[export] Instance serr_db : DbError serr := S_Fault.

(** [Template] *)
Record Template : Type := mkTemplate {
  tp_Name : string; tp_Networks : list Prefix; tp_Groups : list string; tp_NotBefore : Z; tp_NotAfter : Z; tp_PublicKey : string;
}.

(** [IssuePolicy] *)
Record IssuePolicy : Type := mkPolicyEnv { ip_AllowedNetwork : Prefix; ip_AllowedGroups : list string; ip_MaxLifetime : Z }.

(** What is read of a nebula certificate. *)
Record Cert : Type := mkCert {
  ct_IsCA : bool; ct_P256 : bool; ct_PublicKey : string; ct_NotAfter : Z; ct_Fingerprint : string; ct_Issuer : string;
}.

(** [Backend] *)
Record Backend : Type := mkBackend { bk_PublicKey : option string; bk_SignDigest : string -> option string }.

(** [signingIdentity] *)
Record Ident : Type := mkIdent { sid_caCert : Cert; sid_backend : Backend; sid_fingerprint : string }.

(** [cert.TBSCertificate], as [Issue] and [SelfSignCA] fill it. *)
Record TBS : Type := mkTBS {
  tb_Name : string; tb_Networks : list Prefix; tb_Groups : list string; tb_IsCA : bool; tb_NotBefore : Z; tb_NotAfter : Z; tb_PublicKey : string;
}.

Definition validate (p : IssuePolicy) (caCert : Cert) (t : Template) : result serr unit :=
  if decide (tp_Name t = "") then Err S_EmptyName
  else if negb (len (tp_PublicKey t) =? 65) then Err S_BadPublicKey
  else if bool_decide (length (tp_Networks t) = 0%nat) then Err S_NoNetworks
  else if IsValid (ip_AllowedNetwork p) && existsb (fun n => negb (Contains (ip_AllowedNetwork p) (p_ip n))) (tp_Networks t) then Err S_IPOutOfAllocation
  else if negb (bool_decide (length (ip_AllowedGroups p) = 0%nat)) && existsb (fun g => negb (bool_decide (g ∈ ip_AllowedGroups p))) (tp_Groups t) then Err S_GroupNotAllowed
  else if tp_NotAfter t <=? tp_NotBefore t then Err S_InvalidValidity
  else if (0 <? ip_MaxLifetime p) && (ip_MaxLifetime p <? tp_NotAfter t - tp_NotBefore t) then Err S_LifetimeTooLong
  else if ct_NotAfter caCert <? tp_NotAfter t then Err S_ExpiresAfterCA
  else Ok ().

(** One audit row: actor, action, target. *)
Definition SEntry : Type := string * string * string.

Section signer.
Context (sha256 : string -> string).
Context (parseCert : string -> option Cert).                                             (* cert.UnmarshalCertificateFromPEM *)
Context (signWith : option Cert -> TBS -> (string -> option string) -> option Cert).     (* TBSCertificate.SignWith *)
Context (marshalPEM : Cert -> option string).

Definition newIdentity (caCertPEM : string) (backend : option Backend) : result serr Ident :=
  match backend with
  | None => Err S_NoBackend
  | Some b =>
      match parseCert caCertPEM with
      | None => Err S_ParseCA
      | Some ca =>
          if negb (ct_IsCA ca) then Err S_NotCA
          else if negb (ct_P256 ca) then Err S_Curve
          else match bk_PublicKey b with
          | None => Err S_BackendKey
          | Some pub =>
              if negb (bool_decide (pub = ct_PublicKey ca)) then Err S_KeyMismatch
              else Ok (mkIdent ca b (ToLower (TrimSpace (ct_Fingerprint ca))))
          end
      end
  end.

(** [New], before the store holds the identity. *)
Definition New (has_audit : bool) (caCertPEM : string) (backend : option Backend) : result serr Ident :=
  if negb has_audit then Err S_Audit else newIdentity caCertPEM backend.

Definition SignTBS (b : Backend) (tbs : TBS) (ca : option Cert) : option Cert :=
  signWith ca tbs (fun certBytes => bk_SignDigest b (sha256 certBytes)).

Definition SelfSignCA (b : Backend) (name : string) (networks : list Prefix) (notBefore notAfter : Z) : result serr (Cert * string) :=
  match bk_PublicKey b with
  | None => Err S_BackendKey
  | Some pub =>
      match SignTBS b (mkTBS name networks [] true notBefore notAfter pub) None with
      | None => Err S_Sign
      | Some c => match marshalPEM c with Some pem => Ok (c, pem) | None => Err S_Marshal end
      end
  end.

(** ** The signer over a store *)

Context {St : Type} (get_ident : St -> Ident) (set_ident : Ident -> St -> St).
Context (policy : IssuePolicy).
Context (acquire : M St serr (bool * bool)).               (* Breaker.acquire: allowed, just tripped *)
Context (audit : SEntry -> M St serr unit).
Context (onAlarm : M St serr unit).

Definition load : M St serr Ident := mem (fun s => (get_ident s, s)).

Definition CurrentFingerprint : M St serr string := id ← load; mret (sid_fingerprint id).

Definition leaf_tbs (t : Template) : TBS := mkTBS (tp_Name t) (tp_Networks t) (tp_Groups t) false (tp_NotBefore t) (tp_NotAfter t) (tp_PublicKey t).

Definition Issue (actor : string) (t : Template) : M St serr (Cert * string) :=
  id ← load;
  match validate policy (sid_caCert id) t with
  | Err e => _ ← ignore (audit (actor, "issue-cert-rejected", tp_Name t)); throw e
  | Ok _ =>
      r ← attempt acquire;
      match r with
      | Err _ => _ ← ignore (audit (actor, "issue-cert-error", tp_Name t)); throw S_Breaker
      | Ok (allowed, justTripped) =>
          if negb allowed then
            _ ← (if justTripped : bool then _ ← ignore onAlarm; ignore (audit ("system", "signing-circuit-tripped", tp_Name t)) else mret ());
            _ ← ignore (audit (actor, "issue-cert-rejected", tp_Name t));
            throw S_CircuitOpen
          else
            match SignTBS (sid_backend id) (leaf_tbs t) (Some (sid_caCert id)) with
            | None => _ ← ignore (audit (actor, "issue-cert-error", tp_Name t)); throw S_Sign
            | Some c =>
                match marshalPEM c with
                | None => throw S_Marshal
                | Some pem =>
                    a ← attempt (audit (actor, "issue-cert", tp_Name t));
                    match a with Ok _ => mret (c, pem) | Err _ => throw S_Audit end
                end
            end
      end
  end.

Definition SwapCA (caCertPEM : string) (backend : option Backend) : M St serr unit :=
  match newIdentity caCertPEM backend with
  | Err e => throw e
  | Ok id =>
      t ← now;
      if ct_NotAfter (sid_caCert id) <=? t then throw S_ExpiredCA
      else
        cur ← load;
        if decide (sid_fingerprint cur = sid_fingerprint id) then mret ()
        else mem (fun s => ((), set_ident id s))
  end.

(** [ActiveCARef] *)
Record ActiveCARef : Type := mkRef { rf_Fingerprint : string; rf_CertPEM : string; rf_KMSKeyID : string }.

Definition ReconcileActiveCA (active : M St serr ActiveCARef) (factory : string -> string -> M St serr Backend) : M St serr bool :=
  r ← attempt active;
  match r with
  | Err _ => throw S_ReadActive
  | Ok ref =>
      if decide (rf_Fingerprint ref = "") then mret false
      else
        cur ← CurrentFingerprint;
        if decide (ToLower (TrimSpace (rf_Fingerprint ref)) = ToLower cur) then mret false
        else match parseCert (rf_CertPEM ref) with
        | None => throw S_ParseCA
        | Some ca =>
            b ← attempt (factory (rf_KMSKeyID ref) (ct_PublicKey ca));
            match b with
            | Err _ => throw S_BuildBackend
            | Ok backend =>
                _ ← SwapCA (rf_CertPEM ref) (Some backend);
                _ ← ignore (audit ("system", "ca-signing-cutover", rf_Fingerprint ref));
                mret true
            end
        end
  end.
End signer.

(** ** What holds of an issued certificate *)

(** The envelope of [validate], declaratively. *)
Record within (p : IssuePolicy) (ca : Cert) (t : Template) : Prop := mkWithin {
  w_name : tp_Name t <> "";
  w_key : len (tp_PublicKey t) = 65;
  w_networks : tp_Networks t <> [];
  w_inside : IsValid (ip_AllowedNetwork p) = true -> forall n, n ∈ tp_Networks t -> Contains (ip_AllowedNetwork p) (p_ip n) = true;
  w_groups : ip_AllowedGroups p <> [] -> forall g, g ∈ tp_Groups t -> g ∈ ip_AllowedGroups p;
  w_order : tp_NotBefore t < tp_NotAfter t;
  w_lifetime : 0 < ip_MaxLifetime p -> tp_NotAfter t - tp_NotBefore t <= ip_MaxLifetime p;
  w_ca : tp_NotAfter t <= ct_NotAfter ca;
}.

Lemma existsb_negb {A} (f : A -> bool) l : existsb (fun x => negb (f x)) l = false <-> forall x, x ∈ l -> f x = true.
Proof. rewrite existsb_elem_false. split; intros H x Hx; specialize (H x Hx); by destruct (f x). Qed.

Lemma and_false a b : a && b = false <-> (a = true -> b = false).
Proof. destruct a, b; naive_solver. Qed.

Lemma if_ok {A} (c : bool) (e : serr) (r : result serr A) x : (if c then Err e else r) = Ok x <-> c = false /\ r = Ok x.
Proof. destruct c; naive_solver. Qed.

(** Validation is exactly the issuance envelope: it accepts a template if and only if
    the name is given, the key is 65 bytes, there is at least one address and all lie in
    the allowed network, every group is sanctioned, the validity is positive, not longer
    than the policy allows, and does not end after the CA's. *)
Theorem validate_exact p ca t : validate p ca t = Ok () <-> within p ca t.
Proof.
  unfold validate. destruct (decide (tp_Name t = "")) as [Hn|Hn]; [split; [done|by intros [Hw]]|].
  assert (Hlen : forall (l : list Prefix), length l = 0%nat <-> l = []) by (intros []; done).
  assert (Hlen2 : forall (l : list string), length l = 0%nat <-> l = []) by (intros []; done).
  rewrite !if_ok, !and_false, !negb_false_iff, !negb_true_iff, !existsb_negb, !bool_decide_eq_false, Hlen, Hlen2.
  setoid_rewrite bool_decide_eq_true. rewrite Z.eqb_eq, Z.leb_gt, Z.ltb_lt, !Z.ltb_ge. split.
  - intros (Hk & Hnet & Hin & Hg & Ho & Hl & Hca & _). by split.
  - intros []. split_and!; done.
Qed.

(** What boot and every hot swap check of a signing identity. *)
Definition ident_ok (id : Ident) : Prop :=
  ct_IsCA (sid_caCert id) = true /\ ct_P256 (sid_caCert id) = true /\ bk_PublicKey (sid_backend id) = Some (ct_PublicKey (sid_caCert id)) /\
  sid_fingerprint id = ToLower (TrimSpace (ct_Fingerprint (sid_caCert id))).

Lemma newIdentity_ok parseCert pem b id : newIdentity parseCert pem b = Ok id -> ident_ok id /\ parseCert pem = Some (sid_caCert id).
Proof.
  unfold newIdentity. destruct b as [b|]; [|done]. destruct (parseCert pem) as [ca|]; [|done].
  destruct (negb (ct_IsCA ca)) eqn:E1; [done|]. destruct (negb (ct_P256 ca)) eqn:E2; [done|]. destruct (bk_PublicKey b) as [pub|] eqn:E3; [|done].
  destruct (negb (bool_decide _)) eqn:E4; [done|]. intros [= <-]. bool_split. subst pub. by split_and!.
Qed.

(** ** Under concurrency *)

Section theorems.
Context (sha256 : string -> string) (parseCert : string -> option Cert).
Context (signWith : option Cert -> TBS -> (string -> option string) -> option Cert) (marshalPEM : Cert -> option string).
Context {St : Type} (get_ident : St -> Ident) (set_ident : Ident -> St -> St).
Context (Hcell : forall id s, get_ident (set_ident id s) = id).
Context (policy : IssuePolicy) (acquire : M St serr (bool * bool)) (audit : SEntry -> M St serr unit) (onAlarm : M St serr unit).
Context (T : Z -> Prop).

(** The process's goroutines: they leave the identity alone, or install a checked one. *)
Definition id_step (s s' : St) : Prop := get_ident s' = get_ident s \/ ident_ok (get_ident s').
Definition kept (s s' : St) : Prop := get_ident s' = get_ident s.
Abbreviation R := (rtc id_step).

(** The breaker, the audit log and the alarm do not write the identity. *)
Context (Hacq : forall T R s, wpt T R kept acquire (fun _ _ => True) s).
Context (Haud : forall e T R s, wpt T R kept (audit e) (fun _ _ => True) s).
Context (Halarm : forall T R s, wpt T R kept onAlarm (fun _ _ => True) s).

Lemma id_ok_steps s s' : R s s' -> ident_ok (get_ident s) -> ident_ok (get_ident s').
Proof. intros H. apply (rtc_invariant _ (fun s => ident_ok (get_ident s))) with (2 := H). intros a b [Hk|Ho]; [by rewrite Hk|done]. Qed.

Lemma wp_kept {A} (m : M St serr A) (Q : result serr A -> St -> Prop) s :
  (forall T R s, wpt T R kept m (fun _ _ => True) s) -> (forall r s', R s s' -> Q r s') -> wpt T R id_step m Q s.
Proof.
  intros Hm HQ. eapply wp_frame; [apply Hm|by left|]. intros r s' Hs. apply HQ.
  clear -Hs. induction Hs as [|x y z [Hxy|Hxy] _ IH]; [constructor|by etrans|]. eapply rtc_l; [by left|done].
Qed.

Lemma refused_wp {A} e err s (Q : result serr A -> St -> Prop) : (forall s', Q (Err err) s') ->
  wpt T R id_step (_ ← ignore (audit e); throw err) Q s.
Proof. intros HQ. wp_step. wp_step. apply wp_kept; [done|]. intros r s' _. by wp_step. Qed.

(** C13: every certificate is signed inside the envelope by one checked identity. Whatever
    swaps of the CA happen during the call, and whatever fails, a certificate that [Issue]
    returns is the library's signature over exactly the requested name, addresses, groups,
    validity and key, as a leaf, under one identity that was current during the call: its
    certificate is a P256 CA, its backend holds that certificate's key and made the
    signature, and the template lies within the policy and the CA's lifetime. *)
Theorem issued_within_envelope actor t s : ident_ok (get_ident s) ->
  wpt T R id_step (Issue sha256 signWith marshalPEM get_ident policy acquire audit onAlarm actor t) (fun r s' => forall c pem, r = Ok (c, pem) ->
    exists s1, R s s1 /\ let id := get_ident s1 in ident_ok id /\ within policy (sid_caCert id) t /\
      signWith (Some (sid_caCert id)) (leaf_tbs t) (fun b => bk_SignDigest (sid_backend id) (sha256 b)) = Some c /\ marshalPEM c = Some pem) s.
Proof.
  intros Hi. unfold Issue, load. wp_step. wp_step. rename s0 into s1. split; [by left|]. pose proof (id_ok_steps _ _ HR Hi) as Hi1.
  destruct (validate _ _ _) as [[]|e] eqn:Ev; [|by apply refused_wp]. apply validate_exact in Ev.
  wp_step. wp_step. apply wp_kept; [done|]. intros [[allowed tripped]|e] s2 Hs2; [|by apply refused_wp]. destruct (negb allowed).
  { wp_step. destruct tripped; [|wp_step; by apply refused_wp]. wp_step. wp_step. apply wp_kept; [done|]. intros _ s3 _. wp_step. apply wp_kept; [done|]. intros _ s4 _. by apply refused_wp. }
  destruct (SignTBS _ _ _ _ _) as [c|] eqn:Es; [|by apply refused_wp]. destruct (marshalPEM c) as [pem|] eqn:Ep; [|by wp_step].
  wp_step. wp_step. apply wp_kept; [done|]. intros [[]|e] s3 Hs3; wp_step; [|done]. intros c' pem' [= <- <-]. by exists s1.
Qed.

Context (active : M St serr ActiveCARef) (factory : string -> string -> M St serr Backend).
Context (Hactive : forall T R s, wpt T R kept active (fun _ _ => True) s).
Context (Hfactory : forall k pub T R s, wpt T R kept (factory k pub) (fun _ _ => True) s).

(** Nobody else runs, or anybody does. *)
Definition bounded (Ro : relation St) : Prop := Ro = eq \/ Ro = R.

Lemma bounded_ok Ro s s' : bounded Ro -> Ro s s' -> ident_ok (get_ident s) -> ident_ok (get_ident s').
Proof. intros [-> | ->]; [by intros ->|apply id_ok_steps]. Qed.

(** On an error the identity is the one before the call, if nobody else swapped. *)
Definition fail_safe {A} (Ro : relation St) (s : St) (r : result serr A) (s' : St) : Prop :=
  ident_ok (get_ident s') /\ (Ro = eq -> forall e, r = Err e -> get_ident s' = get_ident s).

Lemma fail_kept {A B} Ro (m : M St serr A) (k : A -> M St serr B) s s0 : bounded Ro -> ident_ok (get_ident s) -> (Ro = eq -> get_ident s = get_ident s0) ->
  (forall T R s, wpt T R kept m (fun _ _ => True) s) ->
  (forall a s', ident_ok (get_ident s') -> (Ro = eq -> get_ident s' = get_ident s0) -> wpt T Ro id_step (k a) (fail_safe Ro s0) s') ->
  wpt T Ro id_step (m ≫= k) (fail_safe Ro s0) s.
Proof.
  intros Hb Hi H0 Hm Hk. apply wp_bind. eapply wp_frame; [apply Hm|by left|]. intros r s' Hs.
  assert (Hi' : ident_ok (get_ident s') /\ (Ro = eq -> get_ident s' = get_ident s0)).
  { clear -Hs Hb Hi H0. revert Hi H0. induction Hs as [|x y z Hxy _ IH]; [done|]. intros Hi H0. apply IH; destruct Hxy as [Hxy|Hxy].
    - by eapply bounded_ok.
    - unfold kept in Hxy. by rewrite Hxy.
    - intros ->. rewrite <- Hxy. by apply H0.
    - intros Heq. unfold kept in Hxy. rewrite Hxy. by apply H0. }
  destruct Hi' as [Hi' H0']. destruct r as [a|e]; [by apply Hk|]. split; [done|]. intros Heq _ _. by apply H0'.
Qed.

Lemma load_kept : forall T R s, wpt T R kept (load get_ident) (fun _ _ => True) s.
Proof. intros. unfold load. apply wp_mem. done. Qed.

Lemma kept_attempt {A} (m : M St serr A) : (forall T R s, wpt T R kept m (fun _ _ => True) s) -> forall T R s, wpt T R kept (attempt m) (fun _ _ => True) s.
Proof. intros Hm T' R' s. apply wp_attempt. eapply wp_mono; [apply Hm|done]. Qed.

Lemma swap_then {B} Ro pem b (k : unit -> M St serr B) s s0 : bounded Ro -> ident_ok (get_ident s) -> (Ro = eq -> get_ident s = get_ident s0) ->
  (forall s', ident_ok (get_ident s') -> wpt T Ro id_step (k ()) (fun r s'' => ident_ok (get_ident s'') /\ is_ok r = true) s') ->
  wpt T Ro id_step (SwapCA parseCert get_ident set_ident pem b ≫= k) (fail_safe Ro s0) s.
Proof.
  intros Hb Hi H0 Hk. unfold SwapCA.
  assert (Hdone : forall s', ident_ok (get_ident s') -> wpt T Ro id_step (k ()) (fail_safe Ro s0) s').
  { intros s' Hi'. eapply wp_mono; [by apply Hk|]. intros r s'' _ [Hok Hr]. split; [done|]. by intros _ e ->. }
  assert (Hfail : forall e s', ident_ok (get_ident s') -> (Ro = eq -> get_ident s' = get_ident s0) -> wpt T Ro id_step (throw e ≫= k) (fail_safe Ro s0) s').
  { intros e s' Hi' H0'. wp_step. wp_step. split; [done|]. intros Heq _ _. by apply H0'. }
  destruct (newIdentity parseCert pem b) as [id|e] eqn:Eid; [|by apply Hfail]. apply newIdentity_ok in Eid as [Hid _].
  apply wp_bind_assoc. apply wp_bind. apply wp_now. intros t Ht. cbv beta iota. destruct (_ <=? t); [by apply Hfail|].
  apply wp_bind_assoc. eapply fail_kept; [done|done|done|apply load_kept|]. intros cur s1 Hi1 H1.
  destruct (decide _); [wp_step; wp_step; by apply Hdone|]. wp_step. apply wp_mem. intros s2 Hs2. split; [right; by rewrite Hcell|].
  apply Hdone. by rewrite Hcell.
Qed.

(** A botched cut-over never stops or misdirects signing. Reconciling with the
    registry's active CA, whatever fails on the way, only ever leaves a checked identity
    in place (a P256 CA certificate with the backend that holds its key), whether or not
    other goroutines swap at the same time; and when nobody else does, an error leaves
    exactly the identity that was signing before. *)
Theorem cutover_is_fail_safe Ro s : bounded Ro -> ident_ok (get_ident s) ->
  wpt T Ro id_step (ReconcileActiveCA parseCert get_ident set_ident audit active factory) (fail_safe Ro s) s.
Proof.
  intros Hb Hi. unfold ReconcileActiveCA.
  assert (Hend : forall A (m : M St serr A) s', ident_ok (get_ident s') -> (Ro = eq -> get_ident s' = get_ident s) ->
    (exists e, m = throw e) \/ (exists a, m = mret a) -> wpt T Ro id_step m (fail_safe Ro s) s').
  { intros A m s' Hi' H0' [[e ->]|[a ->]]; wp_step; (split; [done|]); [intros Heq _ _; by apply H0'|done]. }
  eapply fail_kept; [done|done|done|by apply kept_attempt|]. intros [ref|e] s1 Hi1 H1; [|apply Hend; eauto].
  destruct (decide _); [apply Hend; eauto|]. unfold CurrentFingerprint. apply wp_bind_assoc.
  eapply fail_kept; [done|done|done|apply load_kept|]. intros cur s2 Hi2 H2. wp_step. wp_step. destruct (decide _); [apply Hend; eauto|].
  destruct (parseCert _) as [ca|]; [|apply Hend; eauto]. eapply fail_kept; [done|done|done|by apply kept_attempt|].
  intros [backend|e] s3 Hi3 H3; [|apply Hend; eauto]. apply swap_then; [done|done|done|]. intros s4 Hi4.
  apply wp_bind. apply wp_ignore. eapply wp_frame; [apply Haud|by left|]. intros r s5 Hs5. wp_step. split; [|done].
  clear -Hs5 Hb Hi4. induction Hs5 as [|x y z Hxy _ IH]; [done|]. apply IH. destruct Hxy as [Hxy|Hxy]; [by eapply bounded_ok|]. unfold kept in Hxy. by rewrite Hxy.
Qed.
End theorems.

(** [Issue] itself writes nothing: what its breaker, audit log and alarm may do to the
    store is all that an issue does to it. *)
Lemma issue_frames {St} sha256 signWith marshalPEM (get_ident : St -> Ident) policy acquire audit onAlarm (K : relation St) `{!Reflexive K} :
  (forall T R s, wpt T R K acquire (fun _ _ => True) s) -> (forall e T R s, wpt T R K (audit e) (fun _ _ => True) s) ->
  (forall T R s, wpt T R K onAlarm (fun _ _ => True) s) ->
  forall actor t T R s, wpt T R K (Issue sha256 signWith marshalPEM get_ident policy acquire audit onAlarm actor t) (fun _ _ => True) s.
Proof.
  intros Hacq Haud Halarm actor t T R s.
  assert (Href : forall A e err s, wpt T R K (_ ← ignore (audit e); throw err : M St serr A) (fun _ _ => True) s).
  { intros A e err s1. wp_step. wp_step. eapply wp_mono; [apply Haud|]. intros. by wp_step. }
  unfold Issue, load. wp_step. apply wp_mem. intros s1 _. split; [done|]. destruct (validate _ _ _); [|apply Href].
  wp_step. wp_step. eapply wp_mono; [apply Hacq|]. intros [[allowed tripped]|e] s2 _ _; [|apply Href]. destruct (negb allowed).
  { wp_step. destruct tripped; [|wp_step; apply Href]. wp_step. wp_step. eapply wp_mono; [apply Halarm|]. intros _ s3 _ _. wp_step.
    eapply wp_mono; [apply Haud|]. intros _ s4 _ _. apply Href. }
  destruct (SignTBS _ _ _ _ _) as [c|]; [|apply Href]. destruct (marshalPEM c); [|by wp_step].
  wp_step. wp_step. eapply wp_mono; [apply Haud|]. intros [] s3 _ _; by wp_step.
Qed.

(** ** A concrete signer *)

Definition demo_cell : Type := Ident * list SEntry.
Definition demo_set (id : Ident) (s : demo_cell) : demo_cell := (id, s.2).
Definition demo_acquire : M demo_cell serr (bool * bool) := mret (true, false).
Definition demo_log (e : SEntry) : M demo_cell serr unit := exec (fun s => ((), (s.1, s.2 ++ [e]))).
Definition demo_backend (pub : string) : Backend := mkBackend (Some pub) (fun d => Some ("sig:" +:+ d)).
Definition demo_cert (fp pub : string) (na : Z) : Cert := mkCert true true pub na fp "".
Definition demo_parse_ca (pem : string) : option Cert :=
  if decide (pem = "CA1") then Some (demo_cert "f1" "P1" 1000) else if decide (pem = "CA2") then Some (demo_cert "f2" "P2" 2000) else None.
Definition demo_sign_with (ca : option Cert) (tbs : TBS) (lambda : string -> option string) : option Cert :=
  _ ← lambda (tb_Name tbs); Some (mkCert (tb_IsCA tbs) true (tb_PublicKey tbs) (tb_NotAfter tbs) "leaf" (default "" (ct_Fingerprint <$> ca))).
Definition demo_pem (c : Cert) : option string := Some ("PEM of " +:+ ct_Fingerprint c).
Definition demo_policy : IssuePolicy := mkPolicyEnv (mkPrefix (Addr4 (10 * 2 ^ 24)) 8) ["web"] 500.
Definition demo_key65 : string := "0123456789012345678901234567890123456789012345678901234567890123A".
Definition demo_tpl : Template := mkTemplate "web1" [mkPrefix (Addr4 (10 * 2 ^ 24 + 1)) 16] ["web"] 100 600 demo_key65.
Definition demo_id1 : Ident := mkIdent (demo_cert "f1" "P1" 1000) (demo_backend "P1") "f1".
Definition demo_signer : demo_cell := (demo_id1, []).

Lemma demo_id1_ok : ident_ok demo_id1.
Proof. vm_compute. by split_and!. Qed.

Lemma demo_log_kept e T R (s : demo_cell) : wpt T R (kept fst) (demo_log e) (fun _ _ => True) s.
Proof. apply wp_exec. done. Qed.

Abbreviation demo_issue := (Issue (fun b => b) demo_sign_with demo_pem fst demo_policy demo_acquire demo_log (mret ()) "alice" demo_tpl).

Lemma issued_within_envelope_witness :
  (run 200 demo_issue demo_signer).1 = Ok (mkCert false true demo_key65 600 "leaf" "f1", "PEM of leaf") /\
  wpt (fun _ => True) (rtc (id_step fst)) (id_step fst) demo_issue (fun r s' => forall c pem, r = Ok (c, pem) ->
    exists s1, rtc (id_step fst) demo_signer s1 /\ let id := fst s1 in ident_ok id /\ within demo_policy (sid_caCert id) demo_tpl /\
      demo_sign_with (Some (sid_caCert id)) (leaf_tbs demo_tpl) (fun b => bk_SignDigest (sid_backend id) b) = Some c /\ demo_pem c = Some pem) demo_signer.
Proof.
  split; [vm_compute; reflexivity|].
  apply (issued_within_envelope (fun b => b) demo_sign_with demo_pem fst demo_policy demo_acquire demo_log (mret ()) (fun _ => True)).
  - intros. by apply wp_ret.
  - apply demo_log_kept.
  - intros. by apply wp_ret.
  - exact demo_id1_ok.
Defined.

Definition demo_active : M demo_cell serr ActiveCARef := mret (mkRef "F2" "CA2" "kms-2").
Definition demo_factory (kms pub : string) : M demo_cell serr Backend := mret (demo_backend pub).
Definition wrong_factory (kms pub : string) : M demo_cell serr Backend := mret (demo_backend "P1").

(** The registry's new CA is taken over; with the wrong key behind it, or once it has
    expired, the old identity stays. *)
Lemma cutover_is_fail_safe_witness :
  (let '(r, s) := run 200 (ReconcileActiveCA demo_parse_ca fst demo_set demo_log demo_active demo_factory) demo_signer in (r, sid_fingerprint s.1)) = (Ok true, "f2") /\
  (let '(r, s) := run 200 (ReconcileActiveCA demo_parse_ca fst demo_set demo_log demo_active wrong_factory) demo_signer in (r, sid_fingerprint s.1)) = (Err S_KeyMismatch, "f1") /\
  wpt (fun _ => True) (rtc (id_step fst)) (id_step fst) (ReconcileActiveCA demo_parse_ca fst demo_set demo_log demo_active demo_factory)
    (fail_safe fst (rtc (id_step fst)) demo_signer) demo_signer.
Proof.
  split_and!; [vm_compute; reflexivity..|].
  apply (cutover_is_fail_safe demo_parse_ca fst demo_set ltac:(done) demo_log (fun _ => True)).
  - apply demo_log_kept.
  - intros. by apply wp_ret.
  - intros. by apply wp_ret.
  - by right.
  - exact demo_id1_ok.
Defined.
