(* ===== verification/ConfigSign.v ===== *)
(** * internal/configsign: the hot-swappable config-signing key

    The identity (backend, key id) behind its atomic pointer, [Sign] over one snapshot of
    it, [Swap] and the reconciler that follows the registry's active config key. The
    state is any store with a cell for the pointer ([None] is nil); the registry read, the
    backend factory, the audit log and the curve's point parser are parameters. The
    cut-over counter and the ticker are not modelled: a run of the reconciler is a
    number of ticks. *)

From S2P Require Import Prelude Db GoStrings Bytes Nonce Policy Jws Bundle Signer.
From stdpp Require Import prelude strings list relations.
From Stdlib Require Import ZArith Lia.
Open Scope Z_scope.

Inductive cserr : Type :=
| CS_NilBackend | CS_BackendKey | CS_BadPoint | CS_NoIdentity | CS_Sign
| CS_ReadActive | CS_ParseActive | CS_BuildBackend | CS_Validate | CS_WrongKey | CS_Fault.
#[export] Instance cserr_db : DbError cserr := CS_Fault.

(** [configIdentity] *)
Record configIdentity : Type := mkConfigIdentity { ci_backend : Backend; ci_keyID : string; ci_fingerprint : string }.

(** [ActiveConfigKeyRef] *)
Record ActiveConfigKeyRef : Type := mkKeyRef { kr_Fingerprint : string; kr_PubPEM : string; kr_KMSKeyID : string }.

Section configsign.
Context (sha256 : string -> string).
Context {Pub : Type} (ParseP256PublicPoint : string -> option Pub).
Context (UnmarshalPublicKeyFromPEM : string -> option (string * bool)).    (* the point, whether the curve is P256 *)
Context (marshalHeader : Header -> string) (marshal : Bundle -> string) (marshalEnv : Flattened -> string).
Context (parseDER : string -> option (Z * Z)).

Definition PubkeyHash (pub : string) : string := EncodeToString (sha256 pub).

Definition newConfigIdentity (backend : option Backend) : result cserr configIdentity :=
  match backend with
  | None => Err CS_NilBackend
  | Some b =>
      match bk_PublicKey b with
      | None => Err CS_BackendKey
      | Some pub =>
          match ParseP256PublicPoint pub with
          | None => Err CS_BadPoint
          | Some _ => let kid := PubkeyHash pub in Ok (mkConfigIdentity b kid kid)
          end
      end
  end.

Context {St : Type} (get_identity : St -> option configIdentity) (set_identity : configIdentity -> St -> St).
Context (audit : option (SEntry -> M St cserr unit)).

Definition Load : M St cserr (option configIdentity) := mem (fun s => (get_identity s, s)).
Definition Store (id : configIdentity) : M St cserr unit := mem (fun s => ((), set_identity id s)).

Definition NewSigner (backend : option Backend) : M St cserr unit :=
  match newConfigIdentity backend with Err e => throw e | Ok id => Store id end.

Definition SignConfig (b : Bundle) : M St cserr string :=
  id ← Load;
  match id with
  | None => throw CS_NoIdentity
  | Some id =>
      match SignBundle sha256 marshalHeader marshal marshalEnv (bk_SignDigest (ci_backend id)) parseDER (ci_keyID id) b with
      | None => throw CS_Sign
      | Some jwsBytes => mret jwsBytes
      end
  end.

Definition CurrentConfigFingerprint : M St cserr string :=
  id ← Load; mret (match id with Some id => ci_fingerprint id | None => "" end).

Definition Swap (backend : option Backend) : M St cserr unit :=
  match newConfigIdentity backend with
  | Err e => throw e
  | Ok id =>
      cur ← Load;
      match cur with
      | Some cur => if decide (ci_fingerprint cur = ci_fingerprint id) then mret () else Store id
      | None => Store id
      end
  end.

Definition ReconcileActiveConfigKey (active : M St cserr ActiveConfigKeyRef) (factory : string -> string -> M St cserr (option Backend)) : M St cserr bool :=
  r ← attempt active;
  match r with
  | Err _ => throw CS_ReadActive
  | Ok ref =>
      if decide (TrimSpace (kr_Fingerprint ref) = "") then mret false
      else
        cur ← CurrentConfigFingerprint;
        if decide (kr_Fingerprint ref = cur) then mret false
        else match UnmarshalPublicKeyFromPEM (kr_PubPEM ref) with
        | None | Some (_, false) => throw CS_ParseActive
        | Some (pub, true) =>
            b ← attempt (factory (kr_KMSKeyID ref) pub);
            match b with
            | Err _ => throw CS_BuildBackend
            | Ok backend =>
                match newConfigIdentity backend with
                | Err _ => throw CS_Validate
                | Ok id =>
                    if decide (ci_fingerprint id = kr_Fingerprint ref) then
                      _ ← Store id;
                      _ ← (match audit with
                           | Some audit => ignore (audit ("system", "config-key-signing-cutover", kr_Fingerprint ref))
                           | None => mret ()
                           end);
                      mret true
                    else throw CS_WrongKey
                end
            end
        end
  end.

(** [RunReconciler], for the number of ticks it lives: what a tick returns is logged. *)
Fixpoint RunReconciler (active : M St cserr ActiveConfigKeyRef) (factory : string -> string -> M St cserr (option Backend)) (ticks : nat) : M St cserr unit :=
  match ticks with
  | O => mret ()
  | S ticks => _ ← attempt (ReconcileActiveConfigKey active factory); RunReconciler active factory ticks
  end.
End configsign.

(** ** Every bundle is fully one key's *)

Section theorems.
Context (sha256 : string -> string).
Context {Pub : Type} `{!EqDecision Pub} (ParseP256PublicPoint : string -> option Pub) (ecdsaVerify : Pub -> string -> Z -> Z -> bool).
Context (UnmarshalPublicKeyFromPEM : string -> option (string * bool)).
Context (marshalHeader : Header -> string) (unmarshalHeader : string -> option Header).
Context (marshal : Bundle -> string) (unmarshal : string -> option Bundle).
Context (marshalEnv : Flattened -> string) (unmarshalEnv : string -> option Flattened).
Context (parseDER : string -> option (Z * Z)).
Context {St : Type} (get_identity : St -> option configIdentity) (set_identity : configIdentity -> St -> St).
Context (audit : option (SEntry -> M St cserr unit)).
Context (active : M St cserr ActiveConfigKeyRef) (factory : string -> string -> M St cserr (option Backend)).

(** A backend whose signatures verify under the public key it reports. *)
Definition sound (b : Backend) : Prop := forall pub P, bk_PublicKey b = Some pub -> ParseP256PublicPoint pub = Some P ->
  forall d der rs, bk_SignDigest b d = Some der -> parseDER der = Some rs -> ecdsaVerify P d rs.1 rs.2 = true.

(** The identity of one key: its id and fingerprint are the hash of the backend's own
    public point. [K] holds the fingerprints the registry has made active. *)
Record one_key (K : string -> Prop) (id : configIdentity) (pub : string) (P : Pub) : Prop := mkOneKey {
  ok_pub : bk_PublicKey (ci_backend id) = Some pub;
  ok_point : ParseP256PublicPoint pub = Some P;
  ok_kid : ci_keyID id = PubkeyHash sha256 pub;
  ok_fingerprint : ci_fingerprint id = PubkeyHash sha256 pub;
  ok_active : K (PubkeyHash sha256 pub);
  ok_sound : sound (ci_backend id);
}.

Definition signing (K : string -> Prop) (s : St) : Prop := exists id pub P, get_identity s = Some id /\ one_key K id pub P.

Lemma newConfigIdentity_ok (K : string -> Prop) b id : newConfigIdentity sha256 ParseP256PublicPoint b = Ok id ->
  (forall b', b = Some b' -> sound b') -> K (ci_fingerprint id) -> exists pub P, one_key K id pub P.
Proof.
  unfold newConfigIdentity. destruct b as [b|]; [|done]. destruct (bk_PublicKey b) as [pub|] eqn:Eb; [|done].
  destruct (ParseP256PublicPoint pub) as [P|] eqn:Ep; [|done]. intros [= <-] Hs HK. exists pub, P. split; try done. by apply Hs.
Qed.

Section run.
Context (Hcell : forall id s, get_identity (set_identity id s) = Some id).
Context (K : string -> Prop) (T : Z -> Prop).

(** The process's goroutines leave the pointer alone or install one of the registry's keys. *)
Definition key_step (s s' : St) : Prop := get_identity s' = get_identity s \/ signing K s'.
Definition pointer_kept (s s' : St) : Prop := get_identity s' = get_identity s.
Abbreviation R := (rtc key_step).

Lemma signing_steps s s' : R s s' -> signing K s -> signing K s'.
Proof. intros H. apply (rtc_invariant _ (signing K)) with (2 := H). intros a b [Hk|Ho]; [unfold signing; by rewrite Hk|done]. Qed.

(** The registry read, the factory and the audit log leave the pointer alone; what the
    registry reports is an active key or blank; what the factory builds is a sound backend. *)
Context (Hactive : forall T R s, wpt T R pointer_kept active (fun r _ => forall ref, r = Ok ref -> TrimSpace (kr_Fingerprint ref) = "" \/ K (kr_Fingerprint ref)) s).
Context (Hfactory : forall k pub T R s, wpt T R pointer_kept (factory k pub) (fun r _ => forall b, r = Ok (Some b) -> sound b) s).
Context (Haudit : forall a e T R s, audit = Some a -> wpt T R pointer_kept (a e) (fun _ _ => True) s).

(** Nobody else runs, or anybody does. *)
Definition alone_or_not (Ro : relation St) : Prop := Ro = eq \/ Ro = R.

(** What survives everything but a swap: the pointer holds one of the registry's keys,
    and without interference it is the one of [s0]. *)
Definition undisturbed (Ro : relation St) (s0 s : St) : Prop := signing K s /\ (Ro = eq -> get_identity s = get_identity s0).

Lemma undisturbed_stable Ro s0 : alone_or_not Ro -> stable Ro (undisturbed Ro s0).
Proof.
  intros Hb s s' Hss [Hs H0]. split.
  - destruct Hb as [-> | ->]; [by subst|by eapply signing_steps].
  - intros ->. rewrite <- H0 by done. by rewrite Hss.
Qed.

Lemma wp_pointer {A} Ro (m : M St cserr A) (Q0 : result cserr A -> Prop) (Q : result cserr A -> St -> Prop) s0 s : alone_or_not Ro -> undisturbed Ro s0 s ->
  (forall T R s, wpt T R pointer_kept m (fun r _ => Q0 r) s) -> (forall r s', Q0 r -> undisturbed Ro s0 s' -> Q r s') -> wpt T Ro key_step m Q s.
Proof.
  intros Hb Hu Hm HQ. eapply wp_mono; [eapply wp_conj|].
  - eapply wp_weaken; [apply Hm|done|done|]. intros a b [H|H]; [by left|right; by left].
  - eapply (wp_frame_inv _ _ pointer_kept _ (undisturbed Ro s0)); [eapply wp_mono; [apply Hm|done]|by apply undisturbed_stable| |done|intros r s' H; exact H].
    intros a b [Ha H0] Hab. unfold pointer_kept in Hab. split; [by left|]. split; [destruct Ha as (id & pub & P & Hid & Ha); exists id, pub, P; by rewrite Hab|].
    intros Heq. rewrite Hab. by apply H0.
  - intros r s' _ [H0 Hs]. by apply HQ.
Qed.

Lemma Load_kept : forall T R s, wpt T R pointer_kept (Load get_identity) (fun r _ => is_ok r = true) s.
Proof. intros. apply wp_mem. intros. by split. Qed.

Abbreviation reconcile := (ReconcileActiveConfigKey sha256 ParseP256PublicPoint UnmarshalPublicKeyFromPEM get_identity set_identity audit active factory).

(** What one call leaves: always one of the registry's keys; alone, exactly the previous
    identity unless the call reports a cut-over. *)
Definition safe_outcome (Ro : relation St) (s0 : St) (r : result cserr bool) (s : St) : Prop :=
  signing K s /\ (Ro = eq -> r <> Ok true -> get_identity s = get_identity s0).

Lemma undisturbed_outcome Ro s0 s r : undisturbed Ro s0 s -> safe_outcome Ro s0 r s.
Proof. intros [Hs H0]. split; [done|]. intros Heq _. by apply H0. Qed.

Lemma store_then_audit Ro s0 s id pub P e : alone_or_not Ro -> one_key K id pub P ->
  wpt T Ro key_step (_ ← Store set_identity id; _ ← (match audit with Some audit => ignore (audit e) | None => mret () end); mret true) (safe_outcome Ro s0) s.
Proof.
  intros Hb Hid. wp_step. apply wp_mem. intros s1 _. assert (Hs : signing K (set_identity id s1)) by (exists id, pub, P; by rewrite Hcell).
  split; [by right|]. wp_step. destruct audit as [a|] eqn:Ea.
  - wp_step. eapply (wp_pointer Ro _ (fun _ => True) _ (set_identity id s1)); [done|by split|intros; by apply Haudit|].
    intros r s' _ [Hs' _]. wp_step. by split.
  - wp_step. wp_step. by split.
Qed.

Lemma reconcile_safe Ro s : alone_or_not Ro -> signing K s -> wpt T Ro key_step reconcile (safe_outcome Ro s) s.
Proof.
  intros Hb Hs. unfold ReconcileActiveConfigKey, CurrentConfigFingerprint. wp_step. wp_step.
  eapply (wp_pointer Ro); [done|by split|exact Hactive|]. intros [ref|e] s1 Href Hu; [|wp_step; by apply undisturbed_outcome].
  destruct (decide _); [wp_step; by apply undisturbed_outcome|]. wp_step. wp_step.
  eapply (wp_pointer Ro); [done|done|exact Load_kept|]. intros [cur|e] s2 Hl Hu2; [|done]. wp_step.
  destruct (decide _); [wp_step; by apply undisturbed_outcome|].
  destruct (UnmarshalPublicKeyFromPEM _) as [[pub []]|]; [|wp_step; by apply undisturbed_outcome..].
  wp_step. wp_step. eapply (wp_pointer Ro); [done|done|apply Hfactory|]. intros [b|e] s3 Hfac Hu3; [|wp_step; by apply undisturbed_outcome].
  destruct (newConfigIdentity _ _ _) as [id|e] eqn:Eid; [|wp_step; by apply undisturbed_outcome].
  destruct (decide _) as [Hfp|]; [|wp_step; by apply undisturbed_outcome].
  destruct (newConfigIdentity_ok K b id Eid) as (pub' & P & Hid); [intros b' ->; by apply Hfac|rewrite Hfp; by destruct (Href _ eq_refl)|].
  by apply (store_then_audit _ _ _ id pub' P).
Qed.

Abbreviation verify := (VerifyBundle sha256 ecdsaVerify unmarshalHeader unmarshal unmarshalEnv).

(** C14: a rotation of the config-signing key never strands a host. Whatever cut-overs
    run at the same time and whatever fails, a bundle [Sign] returns was signed by one
    identity, under the key id of the very key that made the signature, and verifies as
    what was signed against every trust set that holds the registry's active keys; and a
    reconciling tick only ever installs a key the registry made active whose backend was
    rebuilt correctly: alone, anything but a reported cut-over leaves the previous
    identity signing. *)
Theorem config_cutover_never_strands Ro b trusted s : alone_or_not Ro -> signing K s ->
  (forall pub, let h := with_alg (mkHeader "" TypBundle 1 (PubkeyHash sha256 pub)) in unmarshalHeader (marshalHeader h) = Some h) ->
  unmarshal (marshal (stamped b)) = Some (stamped b) ->
  (forall id pub P, one_key K id pub P -> envelope_reads_back sha256 marshalHeader marshal marshalEnv unmarshalEnv (bk_SignDigest (ci_backend id)) parseDER (PubkeyHash sha256 pub) b) ->
  (forall pub P, K (PubkeyHash sha256 pub) -> ParseP256PublicPoint pub = Some P -> Some P ∈ trusted) ->
  wpt T Ro key_step reconcile (safe_outcome Ro s) s /\
  wpt T Ro key_step (SignConfig sha256 marshalHeader marshal marshalEnv parseDER get_identity b)
    (fun r _ => r = Err CS_Sign \/ exists jwsBytes id pub P, r = Ok jwsBytes /\ one_key K id pub P /\
       SignBundle sha256 marshalHeader marshal marshalEnv (bk_SignDigest (ci_backend id)) parseDER (PubkeyHash sha256 pub) b = Some jwsBytes /\
       verify jwsBytes trusted = Ok (stamped b)) s.
Proof.
  intros Hb Hs Hh Hm He Htr. split; [by apply reconcile_safe|]. unfold SignConfig, Load. wp_step. apply wp_mem. intros s1 Hs1. split; [by left|].
  destruct (undisturbed_stable Ro s Hb _ _ Hs1 (conj Hs (fun _ => eq_refl))) as [(id & pub & P & Hid & Hk) _]. cbn. rewrite Hid.
  destruct (SignBundle _ _ _ _ _ _ _ _) as [jwsBytes|] eqn:Es; wp_step; [right|by left].
  exists jwsBytes, id, pub, P. pose proof (He id pub P Hk) as He'. destruct Hk as [Hp HP Hkid Hfp HK Hso]. rewrite Hkid in Es. split_and!; [done|by split|done|].
  eapply bundle_roundtrip; [apply Hh|done|exact He'| |by eapply Htr|exact Es]. intros d der rs. by apply (Hso pub P).
Qed.
End run.

(** ** The reconciler converges *)

Section converge.
Context (Hcell : forall id s, get_identity (set_identity id s) = Some id).
Context (ref : ActiveConfigKeyRef) (pub : string) (b : Backend) (P : Pub).
Context (Hactive : forall s, solo active (fun r s' => r = Ok ref /\ get_identity s' = get_identity s) s).
Context (Hfactory : forall s, solo (factory (kr_KMSKeyID ref) pub) (fun r s' => r = Ok (Some b) /\ get_identity s' = get_identity s) s).
Context (Haudit : forall a e s, audit = Some a -> solo (a e) (fun _ s' => get_identity s' = get_identity s) s).
Context (Hpem : UnmarshalPublicKeyFromPEM (kr_PubPEM ref) = Some (pub, true)) (Hkey : bk_PublicKey b = Some pub).
Context (Hpoint : ParseP256PublicPoint pub = Some P) (Hfp : kr_Fingerprint ref = PubkeyHash sha256 pub) (Hne : TrimSpace (kr_Fingerprint ref) <> "").

Abbreviation tick := (ReconcileActiveConfigKey sha256 ParseP256PublicPoint UnmarshalPublicKeyFromPEM get_identity set_identity audit active factory).

(** [CurrentFingerprint] of a store. *)
Definition current (s : St) : string := match get_identity s with Some id => ci_fingerprint id | None => "" end.

Lemma current_eq s s' : get_identity s' = get_identity s -> current s' = current s.
Proof. unfold current. by intros ->. Qed.

Lemma tick_converges s : solo tick (fun r s' => current s' = kr_Fingerprint ref /\
  (r = Ok true /\ current s <> kr_Fingerprint ref \/ r = Ok false /\ current s = kr_Fingerprint ref /\ get_identity s' = get_identity s)) s.
Proof.
  unfold ReconcileActiveConfigKey, CurrentConfigFingerprint, Load. wp_step. wp_step. eapply wp_mono; [apply Hactive|]. intros r s1 _ [-> H1].
  destruct (decide _) as [|_]; [done|]. wp_step. wp_step. wp_step. split; [done|]. wp_step. change (match get_identity s1 with Some id => ci_fingerprint id | None => "" end) with (current s1).
  rewrite (current_eq _ _ H1). destruct (decide _) as [Heq|Hneq]; [wp_step; rewrite (current_eq _ _ H1); split; [done|right; by split_and!]|].
  rewrite Hpem. wp_step. wp_step. eapply wp_mono; [apply Hfactory|]. intros r s2 _ [-> H2]. unfold newConfigIdentity. rewrite Hkey, Hpoint. cbn [ci_fingerprint].
  destruct (decide _) as [_|Hno]; [|by rewrite Hfp in Hno]. wp_step. unfold Store. apply wp_mem. intros s3 _. split; [done|].
  set (id := mkConfigIdentity _ _ _). assert (Hc : forall s', get_identity s' = get_identity (set_identity id s3) -> current s' = kr_Fingerprint ref)
    by (intros s' Hs'; unfold current; by rewrite Hs', Hcell, Hfp).
  wp_step. destruct audit as [a|] eqn:Ea; wp_step.
  - eapply wp_mono; [by apply Haudit|]. intros r s4 _ H4. wp_step. split; [by apply Hc|left; by split_and!].
  - wp_step. split; [by apply Hc|left; by split_and!].
Qed.

(** After the first tick every further one changes nothing: with a registry that
    answers and a factory that builds the active key, the reconciler signs with the
    registry's key from the first tick on and keeps that very identity. *)
Theorem config_cutover_converges ticks s :
  solo (RunReconciler sha256 ParseP256PublicPoint UnmarshalPublicKeyFromPEM get_identity set_identity audit active factory (S ticks))
    (fun r s' => r = Ok () /\ current s' = kr_Fingerprint ref /\ (current s = kr_Fingerprint ref -> get_identity s' = get_identity s)) s.
Proof.
  revert s. induction ticks as [|ticks IH]; intros s; cbn [RunReconciler]; wp_step; wp_step; (eapply wp_mono; [apply tick_converges|]);
    intros r s1 _ [Hc Hr].
  - wp_step. split_and!; [done|done|]. intros H0. by destruct Hr as [[_ Hn]|(_ & _ & Hsame)].
  - eapply wp_mono; [apply IH|]. intros r' s2 _ (-> & Hc2 & Hsame2). split_and!; [done|done|]. intros H0. destruct Hr as [[_ Hn]|(_ & _ & Hsame)]; [done|].
    rewrite Hsame2 by done. exact Hsame.
Qed.
End converge.
End theorems.

(** ** A cut-over from key 7 to key 9 *)

Module cut_over.
Definition backend (key : Z) (pub : string) : Backend := mkBackend (Some pub) (fun d => Some (String (byte_of key) d)).
Definition der (s : string) : option (Z * Z) := match s with String c d => Some (of_byte c, len d) | "" => None end.
Definition pem (s : string) : option (string * bool) := Some (s, true).
Definition cell : Type := option configIdentity * list SEntry.
Definition set (id : configIdentity) (s : cell) : cell := (Some id, s.2).
Definition log (e : SEntry) : M cell cserr unit := exec (fun s => ((), (s.1, s.2 ++ [e]))).
Definition hash (pub : string) : string := PubkeyHash toy_hash pub.
Definition active : M cell cserr ActiveConfigKeyRef := mret (mkKeyRef (hash "K9") "K9" "arn:9").
Definition factory (kms pub : string) : M cell cserr (option Backend) := mret (Some (backend 9 "K9")).
Definition wrong (kms pub : string) : M cell cserr (option Backend) := mret (Some (backend 7 "K7")).
Definition id7 : configIdentity := mkConfigIdentity (backend 7 "K7") (hash "K7") (hash "K7").
Definition start : cell := (Some id7, []).
Definition K (fp : string) : Prop := fp = hash "K7" \/ fp = hash "K9".

Abbreviation reconcile := (ReconcileActiveConfigKey toy_hash toy_pem pem fst set (Some log) active).
Abbreviation sign := (SignConfig toy_hash toy_marshal toy_bm toy_em der fst demo_bundle).
Abbreviation step := (key_step toy_hash toy_pem toy_verify der fst K).

Lemma backend_sound key k : 0 <= key < 256 -> toy_pem k = Some key -> sound toy_pem toy_verify der (backend key k).
Proof.
  intros Hk Hp pub P [= <-] HP d x rs [= <-] [= <-]. unfold toy_verify. cbn [fst snd]. rewrite Hp in HP. injection HP as <-.
  rewrite of_byte_byte_of, Z.mod_small by lia. by rewrite !Z.eqb_refl.
Qed.

Lemma start_signs : signing toy_hash toy_pem toy_verify der fst K start.
Proof. exists id7, "K7", 7. split; [done|]. split; try done; [by left|]. by apply backend_sound. Qed.

Lemma config_cutover_never_strands_witness :
  (let '(r, s) := run 0 (reconcile factory) start in (r, ci_fingerprint <$> s.1, s.2)) =
    (Ok true, Some (hash "K9"), [("system", "config-key-signing-cutover", hash "K9")]) /\
  (let '(r, s) := run 0 (reconcile wrong) start in (r, ci_fingerprint <$> s.1)) = (Err CS_WrongKey, Some (hash "K7")) /\
  is_ok (run 0 (_ ← reconcile factory; sign) start).1 = true /\
  (wpt (fun _ => True) (rtc step) step (reconcile factory) (safe_outcome toy_hash toy_pem toy_verify der fst K (rtc step) start) start /\
   wpt (fun _ => True) (rtc step) step sign (fun r _ => r = Err CS_Sign \/ exists jwsBytes id pub P, r = Ok jwsBytes /\ one_key toy_hash toy_pem toy_verify der K id pub P /\
     SignBundle toy_hash toy_marshal toy_bm toy_em (bk_SignDigest (ci_backend id)) der (PubkeyHash toy_hash pub) demo_bundle = Some jwsBytes /\
     VerifyBundle toy_hash toy_verify toy_unmarshal toy_bu toy_eu jwsBytes [Some 7; Some 9] = Ok (stamped demo_bundle)) start).
Proof.
  do 3 (split; [vm_compute; reflexivity|]).
  apply (config_cutover_never_strands toy_hash toy_pem toy_verify pem toy_marshal toy_unmarshal toy_bm toy_bu toy_em toy_eu der fst set (Some log) active factory ltac:(done) K (fun _ => True)).
  - intros. apply wp_ret. intros ref [= <-]. right. by right.
  - intros. apply wp_ret. intros b [= <-]. by apply backend_sound.
  - intros a e T R s Ha. apply (inj Some) in Ha as <-. apply wp_exec. done.
  - by right.
  - exact start_signs.
  - intros kid. reflexivity.
  - reflexivity.
  - intros id pub P _ env _. apply toy_env_codec.
  - intros pub P _. unfold toy_pem. repeat case_decide; intros [= <-]; set_solver.
Defined.

Lemma config_cutover_converges_witness :
  solo (RunReconciler toy_hash toy_pem pem fst set (Some log) active factory 5)
    (fun r s' => r = Ok () /\ current fst s' = hash "K9" /\ (current fst start = hash "K9" -> s'.1 = start.1)) start.
Proof.
  apply (config_cutover_converges toy_hash toy_pem pem fst set (Some log) active factory ltac:(done) (mkKeyRef (hash "K9") "K9" "arn:9") "K9" (backend 9 "K9") 9); try done.
  intros a e s Ha. apply (inj Some) in Ha as <-. apply wp_exec. intros s' <-. done.
Defined.
End cut_over.
