(* ===== verification/NebulaConfig.v ===== *)
(** * internal/nebulaconfig: the rendered nebula configuration

    The values, their defaults, and the template as the lines it emits, down to the byte;
    [RenderNebulaConfig] of internal/bundle, which fills the values from a signed bundle.
    The text template is a constant of the program: each of its actions is the expression
    that prints it, and [{{-] is the missing line break. What reads the result is nebula's
    YAML loader, which is not modelled: the theorems are about the text, line by line, and
    say that its scalars are plain words and numbers where the policy's names are. *)

From S2P Require Import Prelude GoStrings Bytes Policy Jws Bundle.
From stdpp Require Import prelude strings list pretty.
From Stdlib Require Import ZArith Lia Ascii.
Open Scope Z_scope.

Definition nl : string := String newline "".
Definition dq : string := String (Ascii.ascii_of_nat 34) "".

(** [nebulaconfig.Rule]; what a policy compiles to has neither [Groups] nor [CIDR]. *)
Record CRule : Type := mkCRule { cr_Port : string; cr_Proto : string; cr_Host : string; cr_Group : string; cr_Groups : list string; cr_CIDR : string }.

Definition of_nrule (r : NRule) : CRule := mkCRule (n_Port r) (n_Proto r) (n_Host r) (n_Group r) [] "".

Definition quoteAll (ss : list string) : list string := map (fun s => dq +:+ s +:+ dq) ss.

Definition SelectorYAML (r : CRule) : string :=
  if negb (bool_decide (cr_Groups r = [])) then "groups: [" +:+ String.concat ", " (quoteAll (cr_Groups r)) +:+ "]"
  else if negb (bool_decide (cr_Group r = "")) then "group: " +:+ cr_Group r
  else if negb (bool_decide (cr_CIDR r = "")) then "cidr: " +:+ cr_CIDR r
  else "host: " +:+ (if decide (cr_Host r = "") then "any" else cr_Host r).

Record Values : Type := mkValues {
  v_CACertPath : string; v_CertPath : string; v_KeyPath : string;
  v_AmLighthouse : bool; v_LighthouseInterval : Z; v_Lighthouses : list Lighthouse;
  v_ListenHost : string; v_ListenPort : Z; v_TunDev : string; v_MTU : Z;
  v_StatsPort : Z; v_StatsSubsystem : string; v_LogLevel : string; v_LogFormat : string;
  v_Blocklist : list string; v_Inbound : list CRule; v_Outbound : list CRule;
}.

Definition Hosts (v : Values) : list string := if v_AmLighthouse v then [] else map lh_OverlayIP (v_Lighthouses v).
Definition AmRelay (v : Values) : bool := v_AmLighthouse v.
Definition UseRelays (v : Values) : bool := negb (v_AmLighthouse v).
Definition RelayHosts (v : Values) : list string := if v_AmLighthouse v then [] else map lh_OverlayIP (v_Lighthouses v).

(** The zero value of a field is replaced. *)
Definition or_int (v d : Z) : Z := if v =? 0 then d else v.
Definition or_text (v d : string) : string := if decide (v = "") then d else v.
Definition or_rules (v d : list CRule) : list CRule := if decide (v = []) then d else v.

Definition Defaults (v : Values) : Values :=
  mkValues (v_CACertPath v) (v_CertPath v) (v_KeyPath v)
    (v_AmLighthouse v) (or_int (v_LighthouseInterval v) 60) (v_Lighthouses v)
    (or_text (v_ListenHost v) "0.0.0.0") (or_int (v_ListenPort v) 4242) (or_text (v_TunDev v) "nebula1") (or_int (v_MTU v) 1300)
    (or_int (v_StatsPort v) 4280) (or_text (v_StatsSubsystem v) "node") (or_text (v_LogLevel v) "info") (or_text (v_LogFormat v) "text")
    (v_Blocklist v) (or_rules (v_Inbound v) [mkCRule "any" "icmp" "any" "" [] ""]) (or_rules (v_Outbound v) [mkCRule "any" "any" "any" "" [] ""]).

(** ** The template *)

Definition show (b : bool) : string := if b then "true" else "false".
Definition rule_lines (r : CRule) : list string :=
  ["    - port: " +:+ cr_Port r; "      proto: " +:+ cr_Proto r; "      " +:+ SelectorYAML r].
Definition stats_rule (v : Values) : list CRule :=
  if v_StatsPort v =? 0 then [] else [mkCRule (pretty (v_StatsPort v)) "tcp" "any" "" [] ""].
Definition static_host (lh : Lighthouse) : string :=
  "  " +:+ dq +:+ lh_OverlayIP lh +:+ dq +:+ ": [" +:+ String.concat ", " (quoteAll (lh_PublicAddrs lh)) +:+ "]".
Definition list_lines (key : string) (l : list string) : list string :=
  (key +:+ (if bool_decide (l = []) then " []" else "")) :: map (fun x => "    - " +:+ dq +:+ x +:+ dq) l.

(** Everything before the statistics listener, the listener, and from there to the rules. *)
Definition before_stats (v : Values) : list string :=
  ["# Rendered by pilot (nebula-control-plane M1.7) — do not edit by hand; changes";
   "# are overwritten on the next render. Firewall and lighthouse policy here are a";
   "# local placeholder for control-plane (Harbor) supplied policy (design §6, M6).";
   "pki:"; "  ca: " +:+ v_CACertPath v; "  cert: " +:+ v_CertPath v; "  key: " +:+ v_KeyPath v] ++
  (if bool_decide (v_Blocklist v = []) then [] else "  blocklist:" :: map (fun x => "    - " +:+ x) (v_Blocklist v)) ++
  "static_host_map:" :: map static_host (v_Lighthouses v) ++
  ["lighthouse:"; "  am_lighthouse: " +:+ show (v_AmLighthouse v); "  interval: " +:+ pretty (v_LighthouseInterval v)] ++ list_lines "  hosts:" (Hosts v) ++
  ["relay:"; "  am_relay: " +:+ show (AmRelay v); "  use_relays: " +:+ show (UseRelays v)] ++ list_lines "  relays:" (RelayHosts v) ++
  ["listen:"; "  host: " +:+ v_ListenHost v; "  port: " +:+ pretty (v_ListenPort v); "punchy:"; "  punch: true"; "  respond: true";
   "tun:"; "  disabled: false"; "  dev: " +:+ v_TunDev v; "  mtu: " +:+ pretty (v_MTU v)].
Definition stats_block (v : Values) : list string :=
  if v_StatsPort v =? 0 then [] else
  ["stats:"; "  type: prometheus"; "  listen: 0.0.0.0:" +:+ pretty (v_StatsPort v); "  path: /metrics"; "  namespace: nebula";
   "  subsystem: " +:+ v_StatsSubsystem v; "  interval: 10s"].
Definition after_stats (v : Values) : list string :=
  ["logging:"; "  level: " +:+ v_LogLevel v; "  format: " +:+ v_LogFormat v;
   "firewall:"; "  conntrack:"; "    tcp_timeout: 12m"; "    udp_timeout: 3m"; "    default_timeout: 10m"].
Definition head_lines (v : Values) : list string := before_stats v ++ stats_block v ++ after_stats v.

Definition config_lines (v : Values) : list string :=
  head_lines v ++ "  outbound:" :: concat (map rule_lines (v_Outbound v)) ++
  "  inbound:" :: concat (map rule_lines (v_Inbound v)) ++ concat (map rule_lines (stats_rule v)).

Definition Render (v : Values) : option string :=
  if decide (v_CACertPath v = "" \/ v_CertPath v = "" \/ v_KeyPath v = "") then None
  else Some (String.concat nl (config_lines v) +:+ nl).

Lemma Render_nonempty v text : Render v = Some text -> text <> "".
Proof. unfold Render. case_decide; [done|]. intros Heq. apply (inj Some) in Heq as <-. by destruct (String.concat nl (config_lines v)). Qed.

(** ** From a bundle *)

Definition bundle_values (b : Bundle) (caPath certPath keyPath : string) : Values :=
  let v := Defaults (mkValues caPath certPath keyPath false 0 (b_Lighthouses b) "" (b_ListenPort b) (b_TunDev b) 0 0 "" "" "" [] [] []) in
  let (inbound, outbound) := match b_Firewall b with
    | None => (v_Inbound v, v_Outbound v)
    | Some f => (map of_nrule (Inbound f), map of_nrule (Outbound f))
    end in
  mkValues (v_CACertPath v) (v_CertPath v) (v_KeyPath v) (v_AmLighthouse v) (v_LighthouseInterval v) (v_Lighthouses v)
    (v_ListenHost v) (v_ListenPort v) (v_TunDev v) (v_MTU v) (v_StatsPort v) (v_StatsSubsystem v) (v_LogLevel v) (v_LogFormat v)
    (b_Blocklist b) inbound outbound.

Definition RenderNebulaConfig (b : Bundle) (caPath certPath keyPath : string) : option string := Render (bundle_values b caPath certPath keyPath).

(** ** The rules a text carries *)

(** One rule as an item of a YAML sequence: three lines, the last one the group when there
    is one and the host otherwise. *)
Definition rule_block (r : NRule) : list string :=
  ["    - port: " +:+ n_Port r; "      proto: " +:+ n_Proto r;
   if decide (n_Group r = "") then "      host: " +:+ n_Host r else "      group: " +:+ n_Group r].

(** The text ends in a section of outbound rules and one of inbound rules, and these are
    all the rules it has: nothing before the first section starts another one. *)
Definition carries (text : string) (outbound inbound : list NRule) : Prop :=
  exists head, "  outbound:" ∉ head /\
    Split newline text = head ++ "  outbound:" :: concat (map rule_block outbound) ++ "  inbound:" :: concat (map rule_block inbound) ++ [""].

(** ** Text of one line *)

Definition clean (s : string) : Prop := newline ∉ chars s.

Lemma clean_app a b : clean a -> clean b -> clean (a +:+ b).
Proof. unfold clean. rewrite chars_app. set_solver. Qed.

Lemma clean_concat sep l : clean sep -> Forall clean l -> clean (String.concat sep l).
Proof.
  intros Hs. induction 1 as [|x l Hx Hl IH]; [apply not_elem_of_nil|]. destruct l; [done|]. cbn [String.concat] in *. by repeat apply clean_app.
Qed.

Lemma digit_char_clean x : newline <> pretty_N_char x.
Proof. unfold pretty_N_char. by repeat case_match. Qed.

Lemma clean_go x s : clean s -> clean (pretty_N_go x s).
Proof.
  revert s. induction (N.lt_wf_0 x) as [x _ IH]; intros s Hs. assert (x = 0 \/ 0 < x)%N as [->|?] by lia; [by rewrite pretty_N_go_0|].
  rewrite pretty_N_go_step by done. apply IH; [by apply N.div_lt|]. unfold clean. cbn. apply not_elem_of_cons. split; [apply digit_char_clean|done].
Qed.

Lemma clean_N (n : N) : clean (pretty n).
Proof. unfold pretty, pretty_N. case_decide; [by not_in|]. apply clean_go, not_elem_of_nil. Qed.

Lemma clean_Z (z : Z) : clean (pretty z).
Proof. destruct z as [|p|p]; [by not_in|apply (clean_N (Npos p))|]. apply (clean_app "-"); [by not_in|apply (clean_N (Npos p))]. Qed.

Create HintDb clean.
#[export] Hint Resolve clean_app clean_Z clean_concat : clean.
#[export] Hint Extern 1 (clean ?s) => (by not_in) : clean.
#[export] Hint Extern 1 (clean (if _ then _ else _)) => case_match : clean.

Lemma clean_quoteAll l : Forall clean l -> Forall clean (quoteAll l).
Proof. intros H. apply Forall_map. eapply Forall_impl; [done|]. cbn. auto with clean. Qed.
#[export] Hint Resolve clean_quoteAll : clean.

(** Every field is one line of text. *)
Record rule_clean (r : CRule) : Prop := mkRuleClean {
  rc_port : clean (cr_Port r); rc_proto : clean (cr_Proto r); rc_host : clean (cr_Host r); rc_group : clean (cr_Group r);
  rc_groups : Forall clean (cr_Groups r); rc_cidr : clean (cr_CIDR r);
}.
#[export] Hint Resolve rc_port rc_proto rc_host rc_group rc_groups rc_cidr : clean.

Record values_clean (v : Values) : Prop := mkValuesClean {
  vc_ca : clean (v_CACertPath v); vc_cert : clean (v_CertPath v); vc_key : clean (v_KeyPath v);
  vc_hosts : Forall (fun lh => clean (lh_OverlayIP lh) /\ Forall clean (lh_PublicAddrs lh)) (v_Lighthouses v);
  vc_listen : clean (v_ListenHost v); vc_tun : clean (v_TunDev v); vc_sub : clean (v_StatsSubsystem v);
  vc_level : clean (v_LogLevel v); vc_format : clean (v_LogFormat v); vc_block : Forall clean (v_Blocklist v);
  vc_in : Forall rule_clean (v_Inbound v); vc_out : Forall rule_clean (v_Outbound v);
}.

Lemma rule_lines_clean r : rule_clean r -> Forall clean (rule_lines r).
Proof.
  intros H. unfold rule_lines, SelectorYAML. repeat apply Forall_cons_2; [eauto with clean..| |done].
  apply clean_app; [by not_in|]. repeat case_match; eauto 6 with clean.
Qed.

Lemma rules_clean l : Forall rule_clean l -> Forall clean (concat (map rule_lines l)).
Proof. intros H. apply Forall_concat, Forall_map. eapply Forall_impl; [done|]. intros r. apply rule_lines_clean. Qed.

Lemma stats_rule_clean v : Forall rule_clean (stats_rule v).
Proof. unfold stats_rule. case_match; [done|]. apply Forall_cons_2; [|done]. split; cbn; auto with clean. Qed.

Lemma list_lines_clean key l : clean key -> Forall clean l -> Forall clean (list_lines key l).
Proof.
  intros Hk Hl. apply Forall_cons_2; [auto with clean|]. apply Forall_map. eapply Forall_impl; [done|]. cbn. auto with clean.
Qed.

Lemma hosts_clean v : values_clean v -> Forall clean (Hosts v).
Proof. intros H. unfold Hosts. case_match; [done|]. apply Forall_map. eapply Forall_impl; [apply H|]. by intros lh []. Qed.
#[export] Hint Resolve hosts_clean list_lines_clean vc_ca vc_cert vc_key vc_listen vc_tun vc_sub vc_level vc_format : clean.

Lemma head_lines_clean v : values_clean v -> Forall clean (head_lines v).
Proof.
  intros H. unfold head_lines, before_stats, stats_block, after_stats. repeat (apply Forall_app_2 || apply list_lines_clean || apply Forall_cons_2 || apply Forall_nil_2); eauto with clean.
  all: unfold show; try (case_match; by not_in).
  - case_match; [done|]. apply Forall_cons_2; [by not_in|]. apply Forall_map. eapply Forall_impl; [apply H|]. cbn. auto with clean.
  - apply Forall_map. eapply Forall_impl; [apply H|]. intros lh [Ho Ha]. unfold compose, static_host. eauto 10 with clean.
  - case_match; [done|]. repeat (apply Forall_cons_2 || apply Forall_nil_2); eauto with clean.
Qed.

Lemma config_lines_clean v : values_clean v -> Forall clean (config_lines v).
Proof.
  intros H. unfold config_lines. apply Forall_app_2; [by apply head_lines_clean|]. apply Forall_cons_2; [by not_in|].
  apply Forall_app_2; [apply rules_clean, H|]. apply Forall_cons_2; [by not_in|]. apply Forall_app_2; [apply rules_clean, H|apply rules_clean, stats_rule_clean].
Qed.

(** ** A text carries one list of rules *)

(** One selector is set, as [selector] and the baseline set it. *)
Definition one_selector (r : NRule) : Prop := (n_Host r = "" /\ n_Group r <> "") \/ (n_Host r <> "" /\ n_Group r = "").

Lemma HasPrefix_app p s : HasPrefix (p +:+ s) p = true.
Proof. induction p as [|c p IH]; [by destruct s|]. rewrite string_app_cons. cbn [HasPrefix]. by rewrite decide_True. Qed.

Lemma block_of_nrule r : one_selector r -> rule_lines (of_nrule r) = rule_block r.
Proof.
  intros Hr. unfold rule_lines, rule_block, SelectorYAML, of_nrule. cbn [cr_Port cr_Proto cr_Groups cr_Group cr_CIDR cr_Host]. rewrite bool_decide_eq_true_2 by done.
  destruct Hr as [[_ Hg]|[Hh Hg]]; cbn [negb].
  - rewrite bool_decide_eq_false_2 by done. cbn [negb]. rewrite decide_False by done. reflexivity.
  - rewrite !bool_decide_eq_true_2 by done. cbn [negb]. rewrite decide_False by done. rewrite decide_True by done. reflexivity.
Qed.

Lemma blocks_of_nrules l : Forall one_selector l -> concat (map rule_lines (map of_nrule l)) = concat (map rule_block l).
Proof. induction 1 as [|r l Hr Hl IH]; [done|]. cbn [map concat]. by rewrite block_of_nrule, IH. Qed.

Lemma prefix_inj p : forall a b, p +:+ a = p +:+ b -> a = b.
Proof. induction p as [|c p IH]; intros a b; [done|]. rewrite !string_app_cons. intros [= H]. by apply IH. Qed.

Lemma block_inj r r' : one_selector r -> one_selector r' -> rule_block r = rule_block r' -> r = r'.
Proof.
  destruct r as [po pr ho gr], r' as [po' pr' ho' gr']. unfold one_selector, rule_block. cbn [n_Port n_Proto n_Host n_Group].
  intros Hr Hr' [= H1 H2 Hs]. apply prefix_inj in H1 as ->, H2 as ->. destruct Hr as [[-> Hg]|[Hh ->]], Hr' as [[-> Hg']|[Hh' ->]].
  - rewrite !decide_False in Hs by done. by apply prefix_inj in Hs as ->.
  - rewrite decide_False in Hs by done. by rewrite decide_True in Hs.
  - rewrite decide_True in Hs by done. by rewrite decide_False in Hs.
  - rewrite !decide_True in Hs by done. by apply prefix_inj in Hs as ->.
Qed.

(** Where a section ends: at a line that starts no rule. *)
Lemma blocks_inj l : forall l' a b tail tail', HasPrefix a "    - port: " = false -> HasPrefix b "    - port: " = false ->
  Forall one_selector l -> Forall one_selector l' -> concat (map rule_block l) ++ a :: tail = concat (map rule_block l') ++ b :: tail' -> l = l' /\ a :: tail = b :: tail'.
Proof.
  induction l as [|r l IH]; intros [|r' l'] a b tail tail' Ha Hb Hl Hl' Heq; [done|..].
  - exfalso. cbn [map concat app rule_block] in Heq. injection Heq as -> _. by rewrite HasPrefix_app in Ha.
  - exfalso. cbn [map concat app rule_block] in Heq. injection Heq as <- _. by rewrite HasPrefix_app in Hb.
  - apply Forall_cons in Hl as [Hr Hl], Hl' as [Hr' Hl']. cbn [map concat] in Heq. rewrite <- !app_assoc in Heq.
    apply app_inj_1 in Heq as [Hblock Heq]; [|done]. apply block_inj in Hblock as ->; [|done..].
    by destruct (IH l' a b tail tail' Ha Hb Hl Hl' Heq) as [-> ?].
Qed.

Lemma first_line_inj (l : string) h : forall h' x x', l ∉ h -> l ∉ h' -> h ++ l :: x = h' ++ l :: x' -> x = x'.
Proof.
  induction h as [|y h IH]; intros [|y' h'] x x' Hn Hn' Heq; cbn [app] in Heq; simplify_eq; try set_solver.
  apply (IH h' x x'); set_solver.
Qed.

Lemma carries_inj text out inb out' inb' : Forall one_selector out -> Forall one_selector inb -> Forall one_selector out' -> Forall one_selector inb' ->
  carries text out inb -> carries text out' inb' -> out' = out /\ inb' = inb.
Proof.
  intros Ho Hi Ho' Hi' (h & Hh & Hs) (h' & Hh' & Hs'). rewrite Hs in Hs'. apply first_line_inj in Hs' as Hs2; [|done..].
  apply blocks_inj in Hs2 as [-> Hs3]; [|done..]. injection Hs3 as Hs3. by apply blocks_inj in Hs3 as [-> _].
Qed.

(** No line before the rules looks like the start of the outbound section. *)
Lemma head_no_outbound v : "  outbound:" ∉ head_lines v.
Proof.
  assert (H : Forall (fun x => x <> "  outbound:") (head_lines v)); [|intros Hin; rewrite Forall_forall in H; by apply (H _ Hin)].
  unfold head_lines, before_stats, stats_block, after_stats, list_lines. repeat (apply Forall_app_2 || apply Forall_cons_2 || apply Forall_nil_2); try done;
    try (apply Forall_map, Forall_true; intros x; done); case_match; try done.
  - apply Forall_cons_2; [done|]. apply Forall_map, Forall_true. intros x. done.
  - repeat (apply Forall_cons_2 || apply Forall_nil_2); done.
Qed.

Definition stats_nrule (v : Values) : list NRule := if v_StatsPort v =? 0 then [] else [mkNRule (pretty (v_StatsPort v)) "tcp" "any" ""].

Lemma stats_of_nrule v : stats_rule v = map of_nrule (stats_nrule v).
Proof. unfold stats_rule, stats_nrule. by case_match. Qed.

Lemma stats_one_selector v : Forall one_selector (stats_nrule v).
Proof. unfold stats_nrule. case_match; [done|]. apply Forall_cons_2; [by right|done]. Qed.

(** The rendered text carries exactly the rules of the values, in order, and after the
    inbound ones the rule that opens the statistics port. *)
Lemma render_carries v inbound outbound : values_clean v -> v_CACertPath v <> "" -> v_CertPath v <> "" -> v_KeyPath v <> "" ->
  v_Inbound v = map of_nrule inbound -> v_Outbound v = map of_nrule outbound -> Forall one_selector inbound -> Forall one_selector outbound ->
  exists text, Render v = Some text /\ carries text outbound (inbound ++ stats_nrule v).
Proof.
  intros Hc H1 H2 H3 Hin Hout Hi Ho. unfold Render. rewrite decide_False by (intros [|[|]]; done). eexists. split; [done|].
  exists (head_lines v). split; [apply head_no_outbound|]. unfold nl. rewrite Split_concat; [|by apply config_lines_clean|by unfold config_lines, head_lines, before_stats].
  unfold config_lines. rewrite Hin, Hout, stats_of_nrule, !blocks_of_nrules by (done || apply stats_one_selector).
  rewrite map_app, concat_app. by repeat (rewrite <- app_assoc; cbn [app]).
Qed.

(** ** Policies are one-line text *)

Definition blank_free (s : string) : Prop := Forall (fun c => is_space c = false) (chars s).

Lemma blank_free_clean s : blank_free s -> clean s.
Proof. intros H Hin. unfold blank_free in H. rewrite Forall_forall in H. by specialize (H _ Hin). Qed.

Lemma fields_go_blank_free s : forall cur x, blank_free cur -> x ∈ fields_go cur s -> blank_free x.
Proof.
  induction s as [|c s IH]; intros cur x Hcur; cbn [fields_go].
  - case_decide; [by intros ?%elem_of_nil|]. by intros ->%list_elem_of_singleton.
  - destruct (is_space c) eqn:Ec.
    + intros [Hx|Hx]%elem_of_app; [|apply (IH "" x); [apply Forall_nil_2|done]]. case_decide; [by apply elem_of_nil in Hx|]. by apply list_elem_of_singleton in Hx as ->.
    + apply IH. unfold blank_free. rewrite chars_app. apply Forall_app_2; [done|]. apply Forall_cons_2; [done|apply Forall_nil_2].
Qed.

Lemma drop_blank_free n s : blank_free s -> blank_free (drop_chars n s).
Proof. revert s. induction n as [|n IH]; intros s H; [done|]. destruct s as [|c s]; [done|]. apply IH. by apply Forall_cons in H as [_ H]. Qed.

Lemma strip_blank_free s : blank_free s -> blank_free (stripGroup s).
Proof. unfold stripGroup, TrimPrefix. case_match; [apply drop_blank_free|done]. Qed.

Definition rule_text (r : Rule) : Prop := blank_free (FromGroup r) /\ blank_free (ToGroup r) /\ blank_free (Port r).

Lemma parse_lines_text lines : forall i rs, parse_lines i lines = Ok rs -> Forall rule_text rs.
Proof.
  induction lines as [|raw lines IH]; intros i rs; cbn [parse_lines]; [intros [= <-]; done|].
  case_decide; [apply IH|]. destruct (HasPrefix _ _); [apply IH|].
  assert (Hf : forall x, x ∈ Fields (TrimSpace raw) -> blank_free x) by (intros x; apply fields_go_blank_free, Forall_nil_2).
  destruct (Fields (TrimSpace raw)) as [|allow [|from [|arrow [|to [|proto [|port []]]]]]]; try done. case_decide; [|done].
  destruct (parse_lines (i + 1) lines) as [rs'|] eqn:Er; [|done]. intros [= <-]. apply Forall_cons_2; [|by eapply IH].
  unfold rule_text; cbn [FromGroup ToGroup Port]. split_and!; [apply strip_blank_free, Hf|apply strip_blank_free, Hf|apply Hf]; set_solver.
Qed.

Lemma Parse_text text p : Parse text = Ok p -> Forall rule_text (Rules p) /\ Forall rule_ok (Rules p).
Proof.
  unfold Parse. destruct (parse_lines 0 _) as [rs|] eqn:El; [|done]. destruct (Validate _) as [[]|] eqn:Ev; [|done]. intros [= <-].
  split; [by eapply parse_lines_text|by apply Validate_ok in Ev].
Qed.

(** A rule that renders to one block of three lines. *)
Definition renderable (r : NRule) : Prop := one_selector r /\ rule_clean (of_nrule r).

Lemma proto_clean s : valid_proto s = true -> clean s.
Proof.
  unfold valid_proto. intros H. repeat match goal with H : _ || _ = true |- _ => apply orb_true_iff in H as [H|H] end; bool_split; subst; by not_in.
Qed.

Lemma selector_renderable proto port group : valid_proto proto = true -> blank_free port -> blank_free group -> group <> "" -> renderable (selector proto port group).
Proof.
  intros Hp Ho%blank_free_clean Hg%blank_free_clean Hne. apply proto_clean in Hp. unfold selector. case_decide.
  - split; [by right|]. split; cbn; auto with clean.
  - split; [by left|]. split; cbn; auto with clean.
Qed.

Lemma compiled_renderable p hg : Forall rule_text (Rules p) -> Forall rule_ok (Rules p) ->
  Forall renderable (Inbound (CompileHost p hg)) /\ Forall renderable (Outbound (CompileHost p hg)).
Proof.
  intros Ht Hk. rewrite Forall_forall in Ht, Hk.
  assert (Hb : Forall renderable [any_host; icmp_any; to_control_plane]).
  { repeat apply Forall_cons_2; [split; [by (left + right)|split; cbn; auto with clean]..|done]. }
  rewrite Forall_forall in Hb. cbn [CompileHost Inbound Outbound].
  split; apply Forall_forall; intros r Hr; apply (dedup_go_spec [] _) in Hr as [Hr _]; apply elem_of_app in Hr as [Hr|Hr].
  - apply list_elem_of_omap in Hr as (u & Hu & Hr). case_match; [|done]. injection Hr as <-. destruct (Ht u Hu) as (H1 & H2 & H3), (Hk u Hu) as (H4 & H5 & H6 & H7).
    by apply selector_renderable.
  - apply Hb. unfold baseline_in in Hr. destruct (member _ _); set_solver.
  - apply list_elem_of_omap in Hr as (u & Hu & Hr). case_match; [|done]. injection Hr as <-. destruct (Ht u Hu) as (H1 & H2 & H3), (Hk u Hu) as (H4 & H5 & H6 & H7).
    by apply selector_renderable.
  - apply Hb. unfold baseline_out in Hr. destruct (member _ _); set_solver.
Qed.

Lemma compile_out_nonempty p hg : Outbound (CompileHost p hg) <> [].
Proof.
  cbn [CompileHost Outbound]. unfold baseline_out. intros H.
  assert (Hin : icmp_any ∈ user_outbound p hg ++ (if member hg GroupControlPlane then [any_host] else [to_control_plane]) ++ [icmp_any]) by set_solver.
  apply (dedup_go_spec [] _) in Hin as [Hin|Hin]; [by apply elem_of_nil in Hin|]. unfold dedup in H. rewrite H in Hin. by apply elem_of_nil in Hin.
Qed.

(** The mesh settings and the blocklist of a bundle are one-line text. *)
Definition bundle_clean (b : Bundle) : Prop :=
  clean (b_TunDev b) /\ Forall clean (b_Blocklist b) /\ Forall (fun lh => clean (lh_OverlayIP lh) /\ Forall clean (lh_PublicAddrs lh)) (b_Lighthouses b).

Definition path_ok (p : string) : Prop := p <> "" /\ clean p.

(** The rules a bundle's host runs with: the signed ones, or the local default of ICMP in
    and everything out. *)
Definition firewall_of (b : Bundle) : Compiled :=
  match b_Firewall b with Some f => f | None => mkCompiled [icmp_any] [any_host] end.

Lemma bundle_carries b ca cert key : bundle_clean b -> path_ok ca -> path_ok cert -> path_ok key ->
  Forall renderable (Inbound (firewall_of b)) -> Forall renderable (Outbound (firewall_of b)) ->
  exists text, RenderNebulaConfig b ca cert key = Some text /\
    carries text (Outbound (firewall_of b)) (Inbound (firewall_of b) ++ [mkNRule "4280" "tcp" "any" ""]).
Proof.
  intros (Htun & Hbl & Hlh) [Hca Hca'] [Hce Hce'] [Hke Hke'] Hi Ho. unfold RenderNebulaConfig.
  assert (Hv : v_Inbound (bundle_values b ca cert key) = map of_nrule (Inbound (firewall_of b)) /\ v_Outbound (bundle_values b ca cert key) = map of_nrule (Outbound (firewall_of b)))
    by (unfold bundle_values, firewall_of; by destruct (b_Firewall b)).
  destruct Hv as [Hvi Hvo].
  assert (Hone : forall l, Forall renderable l -> Forall one_selector l /\ Forall rule_clean (map of_nrule l))
    by (intros l Hl; rewrite Forall_map; split; (eapply Forall_impl; [done|]); by intros r []).
  destruct (Hone _ Hi) as [Hi1 Hi2], (Hone _ Ho) as [Ho1 Ho2].
  assert (Hpaths : v_CACertPath (bundle_values b ca cert key) = ca /\ v_CertPath (bundle_values b ca cert key) = cert /\ v_KeyPath (bundle_values b ca cert key) = key)
    by (unfold bundle_values; by destruct (b_Firewall b)).
  destruct Hpaths as (E1 & E2 & E3).
  destruct (render_carries (bundle_values b ca cert key) (Inbound (firewall_of b)) (Outbound (firewall_of b))) as (text & Hr & Ht);
    [|by rewrite ?E1, ?E2, ?E3..|].
  - split; rewrite ?E1, ?E2, ?E3, ?Hvi, ?Hvo; try done; unfold bundle_values; destruct (b_Firewall b); cbn; try done; unfold or_text; try case_decide; auto with clean.
  - exists text. split; [done|]. assert (Hst : stats_nrule (bundle_values b ca cert key) = [mkNRule "4280" "tcp" "any" ""])
      by (unfold stats_nrule, bundle_values; by destruct (b_Firewall b)). by rewrite <- Hst.
Qed.

(** ** Plain scalars *)

(** Words a YAML reader takes for a truth value or for nothing. *)
Definition yaml_words : list string := ["true"; "false"; "yes"; "no"; "on"; "off"; "y"; "n"; "null"].

Definition in_range (lo hi c : ascii) : bool := (nat_of_ascii lo <=? nat_of_ascii c)%nat && (nat_of_ascii c <=? nat_of_ascii hi)%nat.
Definition letter (c : ascii) : bool := in_range "a" "z" c || in_range "A" "Z" c.
Definition digit (c : ascii) : bool := in_range "0" "9" c.
Definition word_char (c : ascii) : bool := letter c || digit c || bool_decide (c = "-"%char) || bool_decide (c = "_"%char).

(** A word that is the string it spells without quotes: a letter, then letters, digits,
    dashes and underscores, and not one of the words above. *)
Definition plain (s : string) : bool :=
  match s with
  | "" => false
  | String c s' => letter c && forallb word_char (chars s') && bool_decide (ToLower s ∉ yaml_words)
  end.

(** A decimal numeral, without the leading zero that would make it octal. *)
Definition numeral (s : string) : bool :=
  match s with
  | "" => false
  | String c s' => digit c && negb (bool_decide (c = "0"%char)) && forallb digit (chars s')
  end.

Definition plain_port (s : string) : bool :=
  bool_decide (s = "any") || numeral s || (let '(lo, hi, found) := Cut "-" s in found && numeral lo && numeral hi).

Definition plain_policy (p : Policy) : Prop := Forall (fun r => plain (FromGroup r) = true /\ plain (ToGroup r) = true /\ plain_port (Port r) = true) (Rules p).

(** Every scalar of a rule's block is plain. *)
Definition plain_rule (r : NRule) : Prop :=
  plain_port (n_Port r) = true /\ plain (n_Proto r) = true /\ plain (if decide (n_Group r = "") then n_Host r else n_Group r) = true.

Lemma proto_plain s : valid_proto s = true -> plain s = true.
Proof. unfold valid_proto. intros H. repeat match goal with H : _ || _ = true |- _ => apply orb_true_iff in H as [H|H] end; bool_split; by subst. Qed.

Lemma selector_plain proto port group : valid_proto proto = true -> plain_port port = true -> plain group = true -> plain_rule (selector proto port group).
Proof.
  intros Hp Ho Hg. unfold selector. case_decide; (split; [done|]); (split; [by apply proto_plain|]); cbn [n_Group n_Host]; [by rewrite decide_True|].
  rewrite decide_False; [done|]. by intros ->.
Qed.

Lemma compiled_plain p hg : plain_policy p -> Forall rule_ok (Rules p) ->
  Forall plain_rule (Inbound (CompileHost p hg)) /\ Forall plain_rule (Outbound (CompileHost p hg)).
Proof.
  unfold plain_policy. intros Hp Hk. rewrite Forall_forall in Hp, Hk.
  assert (Hb : Forall plain_rule [any_host; icmp_any; to_control_plane]) by (repeat apply Forall_cons_2; done).
  rewrite Forall_forall in Hb. cbn [CompileHost Inbound Outbound].
  split; apply Forall_forall; intros r Hr; apply (dedup_go_spec [] _) in Hr as [Hr _]; apply elem_of_app in Hr as [Hr|Hr].
  - apply list_elem_of_omap in Hr as (u & Hu & Hr). case_match; [|done]. injection Hr as <-. destruct (Hp u Hu) as (? & ? & ?), (Hk u Hu) as (_ & _ & ? & _). by apply selector_plain.
  - apply Hb. unfold baseline_in in Hr. destruct (member _ _); set_solver.
  - apply list_elem_of_omap in Hr as (u & Hu & Hr). case_match; [|done]. injection Hr as <-. destruct (Hp u Hu) as (? & ? & ?), (Hk u Hu) as (_ & _ & ? & _). by apply selector_plain.
  - apply Hb. unfold baseline_out in Hr. destruct (member _ _); set_solver.
Qed.

Lemma renderable_one l : Forall renderable l -> Forall one_selector l.
Proof. intros H. eapply Forall_impl; [exact H|]. by intros r []. Qed.

(** What a host without a policy, or with one, runs with. *)
Definition policy_firewall (policy : option Policy) (groups : list string) : Compiled :=
  match policy with
  | Some p => CompileHost p groups
  | None => if hasControlPlane groups then CompileHost (mkPolicy 0 []) groups else mkCompiled [icmp_any] [any_host]
  end.

Lemma policy_firewall_text policy groups : (forall p, policy = Some p -> exists text, Parse text = Ok p) ->
  let fw := policy_firewall policy groups in Forall renderable (Inbound fw) /\ Forall renderable (Outbound fw) /\ Outbound fw <> [] /\
  ((forall p, policy = Some p -> plain_policy p) -> Forall plain_rule (Inbound fw ++ Outbound fw)).
Proof.
  intros Hp fw. assert (Hc : forall p, Forall rule_text (Rules p) -> Forall rule_ok (Rules p) -> let c := CompileHost p groups in
      Forall renderable (Inbound c) /\ Forall renderable (Outbound c) /\ Outbound c <> [] /\ (plain_policy p -> Forall plain_rule (Inbound c ++ Outbound c))).
  { intros p Ht Hk c. destruct (compiled_renderable p groups Ht Hk) as [Hi Ho]. split_and!; [done|done|by apply compile_out_nonempty|].
    intros Hpl. destruct (compiled_plain p groups Hpl Hk). by apply Forall_app_2. }
  unfold fw, policy_firewall. destruct policy as [p|].
  - destruct (Hp p eq_refl) as [text [Ht Hk]%Parse_text]. destruct (Hc p Ht Hk) as (? & ? & ? & Hpl). split_and!; eauto.
  - destruct (hasControlPlane groups); [destruct (Hc (mkPolicy 0 [])) as (? & ? & ? & Hpl); [done..|]; split_and!; [done..|]; intros _; by apply Hpl, Forall_nil_2|].
    split_and!; [apply Forall_cons_2; [|done]..|done|intros _; repeat apply Forall_cons_2; done]; (split; [by right|split; cbn; auto with clean]).
Qed.


(** ** A policy on its way to the host *)

Module rendered.
Definition text : string := "allow web -> db tcp 5432" +:+ nl +:+ "allow any -> group:web tcp 80-443" +:+ nl.
Definition pol : Policy := mkPolicy 0 [mkRule "web" "db" "tcp" "5432"; mkRule "any" "web" "tcp" "80-443"].
Definition bundle : Bundle :=
  mkBundle 1 Type_ 7 0 "now" (mkBDevice "h" "10.0.0.9" ["web"]) "cert" ["ca"] [] 0 (CompileFirewall (Some pol) ["web"])
    [mkLighthouse "10.0.0.1" ["198.51.100.1:4242"; "lh.example:4242"]] ["f00d"] "" 0 ("", "", "") ("", "", "") "later".

Lemma pol_plain : plain_policy pol.
Proof. by repeat apply Forall_cons_2. Qed.


(** The text itself, for a mesh without policy and lighthouses. *)
Example plain_config :
  option_map (Split newline) (RenderNebulaConfig demo_bundle "a" "b" "c") = Some
  ["# Rendered by pilot (nebula-control-plane M1.7) — do not edit by hand; changes";
   "# are overwritten on the next render. Firewall and lighthouse policy here are a";
   "# local placeholder for control-plane (Harbor) supplied policy (design §6, M6).";
   "pki:"; "  ca: a"; "  cert: b"; "  key: c"; "static_host_map:"; "lighthouse:"; "  am_lighthouse: false"; "  interval: 60"; "  hosts: []";
   "relay:"; "  am_relay: false"; "  use_relays: true"; "  relays: []"; "listen:"; "  host: 0.0.0.0"; "  port: 4242"; "punchy:"; "  punch: true"; "  respond: true";
   "tun:"; "  disabled: false"; "  dev: nebula1"; "  mtu: 1300"; "stats:"; "  type: prometheus"; "  listen: 0.0.0.0:4280"; "  path: /metrics"; "  namespace: nebula";
   "  subsystem: node"; "  interval: 10s"; "logging:"; "  level: info"; "  format: text"; "firewall:"; "  conntrack:"; "    tcp_timeout: 12m"; "    udp_timeout: 3m";
   "    default_timeout: 10m"; "  outbound:"; "    - port: any"; "      proto: any"; "      host: any"; "  inbound:"; "    - port: any"; "      proto: icmp"; "      host: any";
   "    - port: 4280"; "      proto: tcp"; "      host: any"; ""].
Proof. vm_compute. reflexivity. Qed.

(** A group name is printed without quotes: the policy language accepts names that are
    not plain scalars of the configuration's language, such as one that ends in a colon. *)
Theorem group_names_are_not_quoted :
  exists text p, Parse text = Ok p /\ CheckInvariants p = Ok () /\
    "      group: web:" ∈ concat (map rule_lines (map of_nrule (Inbound (CompileHost p ["db"])))).
Proof.
  exists "allow web: -> db tcp 80", (mkPolicy 0 [mkRule "web:" "db" "tcp" "80"]). split_and!; [vm_compute; reflexivity..|].
  apply (bool_decide_unpack _). vm_compute. exact I.
Qed.

(** A port with a leading zero passes validation as the decimal number and is printed as
    it was written, which a YAML reader takes for an octal number. *)
Theorem octal_port_is_printed :
  exists text p, Parse text = Ok p /\ CheckInvariants p = Ok () /\ Atoi "010" = Some 10 /\
    "    - port: 010" ∈ concat (map rule_lines (map of_nrule (Inbound (CompileHost p ["db"])))).
Proof.
  exists "allow web -> db tcp 010", (mkPolicy 0 [mkRule "web" "db" "tcp" "010"]). split_and!; [vm_compute; reflexivity..|].
  apply (bool_decide_unpack _). vm_compute. exact I.
Qed.
End rendered.
