(* ===== verification/Enrollment.v ===== *)
(** * internal/enrollment: Core's enrollment consumer

    [Process] takes a vetted candidate from re-verification over the three join methods to
    a pending, issued or denied row and its poll result; [Approve] and [Deny] decide a
    pending row. The enrollments, join_keys and queue_results tables are the state; what
    the allocator, the signer, the replay observer and the bundle's live sources do to
    their own tables is the [world], changed only by the services below. A groups column
    is the list its JSON text encodes; JSON decoding, PEM parsing and the cryptography are
    parameters. Two logs exist for the theorems only: join-key uses taken and not yet
    recorded on a row ([outstanding]), and templates handed to the signer ([submitted]). *)

From S2P Require Import Prelude Db Bytes GoStrings Netip Policy Queue Nonce JoinKey Trust Jws Bundle Signer.
From stdpp Require Import prelude strings list relations.
From Stdlib Require Import ZArith Lia.
Open Scope Z_scope.

Definition StatusPending : string := "pending".
Definition StatusIssued : string := "issued".
Definition StatusDenied : string := "denied".
Definition hour : Z := 3600 * second.
Definition defaultEphemeralCertTTL : Z := 24 * hour.
Definition providerSSO : string := "sso".
Definition ProviderAWS : string := "aws".
Definition MethodToken : string := "token".
Definition MethodAWSSigV4 : string := "aws-sigv4".
Definition MethodOIDC : string := "oidc".

Inductive eerr : Type :=
| E_BadRequest | E_Signature | E_Nonce | E_Replay | E_Method | E_NotPending | E_Quota | E_ReservedGroup
| E_SSONotConfigured | E_SSOAssertion | E_SSOBinding | E_SSONotAllowed
| E_JoinKey (e : jerr) | E_Attest (e : aterr)
| E_PoolExhausted | E_Allocate | E_Sign | E_Bundle | E_Cert | E_Duplicated | E_Fault.
#[export] Instance eerr_db : DbError eerr := E_Fault.

Definition terminal (e : eerr) : bool :=
  match e with
  | E_BadRequest | E_Signature | E_Nonce | E_Replay | E_Method | E_Quota | E_ReservedGroup => true
  | E_JoinKey J_NotFound | E_JoinKey J_Expired | E_JoinKey J_Exhausted => true
  | E_Attest _ => true
  | E_SSONotConfigured | E_SSOAssertion | E_SSOBinding | E_SSONotAllowed => true
  | _ => false
  end.

(** The region column: a cloud region, or the IdP's groups in JSON. *)
Inductive region : Type := RegionName (s : string) | RegionGroups (l : list string).

(** [evidence] *)
Record evidence : Type := mkEvidence {
  ev_provider : string; ev_account : string; ev_principal : string; ev_region : region; ev_verifiedAt : Z;
}.
Definition no_evidence : evidence := mkEvidence "" "" "" (RegionName "") 0.

(** [Enrollment], of enrollments (the two columns of a group reduction, which this package
    leaves at their defaults, are left out). *)
Record Enrollment : Type := mkEnrollment {
  en_ID : Z;
  en_EnrollmentID : string;
  en_DeviceName : string;
  en_PubkeyHash : string;
  en_Pubkey : string;
  en_Method : string;
  en_JoinKeyID : Z;
  en_Groups : list string;
  en_DesiredGroups : list string;
  en_GroupsGeneration : Z;
  en_IssuedGeneration : Z;
  en_SubRange : string;
  en_Status : string;
  en_CertPEM : string;
  en_OverlayIP : string;
  en_Fingerprint : string;
  en_CAFingerprint : string;
  en_CreatedAt : Z;
  en_DecidedAt : Z;
  en_Approver : string;
  en_Ephemeral : bool;
  en_Evidence : evidence;
  en_GOOS : string;
  en_GOARCH : string;
}.

(** [Result] *)
Record EResult : Type := mkEResult { r_EnrollmentID : string; r_Status : string; r_OverlayIP : string; r_CertPEM : string }.

(** [wire.EnrollRequest]; the credential is its raw JSON text. *)
Record EnrollRequest : Type := mkRequest {
  q_Type : string;
  q_Nonce : string;
  q_PublicKey : string;
  q_RequestedName : string;
  q_Method : string;
  q_Credential : string;
  q_OS : string;
  q_Arch : string;
}.

(** What [Signer.Issue] returns of the certificate. *)
Record Leaf : Type := mkLeaf { lf_PEM : string; lf_Fingerprint : string; lf_Issuer : string }.

(** One audit row: actor, action, target, and the fields of its details. *)
Definition Entry : Type := string * string * string * list (string * string).

Record EStore (X : Type) : Type := mkEStore {
  enrolls : list Enrollment;
  en_seq : Z;
  keys : KStore;
  res : QStore;
  e_audit : list Entry;
  world : X;
  outstanding : list (nat * Z);
  submitted : list Template;
}.
Arguments mkEStore {X}. Arguments enrolls {X}. Arguments en_seq {X}. Arguments keys {X}. Arguments res {X}.
Arguments e_audit {X}. Arguments world {X}. Arguments outstanding {X}. Arguments submitted {X}.

Section state.
Context {X : Type}.
Implicit Types s : EStore X.
Definition set_enrolls (l : list Enrollment) (n : Z) s : EStore X :=
  mkEStore l n (keys s) (res s) (e_audit s) (world s) (outstanding s) (submitted s).
Definition set_jkeys (k : KStore) s : EStore X :=
  mkEStore (enrolls s) (en_seq s) k (res s) (e_audit s) (world s) (outstanding s) (submitted s).
Definition set_res (q : QStore) s : EStore X :=
  mkEStore (enrolls s) (en_seq s) (keys s) q (e_audit s) (world s) (outstanding s) (submitted s).
Definition add_eaudit (e : Entry) s : EStore X :=
  mkEStore (enrolls s) (en_seq s) (keys s) (res s) (e_audit s ++ [e]) (world s) (outstanding s) (submitted s).
Definition set_world (x : X) s : EStore X :=
  mkEStore (enrolls s) (en_seq s) (keys s) (res s) (e_audit s) x (outstanding s) (submitted s).
Definition set_outstanding (l : list (nat * Z)) s : EStore X :=
  mkEStore (enrolls s) (en_seq s) (keys s) (res s) (e_audit s) (world s) l (submitted s).
Definition add_submitted (t : Template) s : EStore X :=
  mkEStore (enrolls s) (en_seq s) (keys s) (res s) (e_audit s) (world s) (outstanding s) (submitted s ++ [t]).
End state.

(** ** The services of other components *)

(** [ipam.Allocator], [signer.Signer], [replay.Observer] and the bundle's sources. *)
Record Services (X : Type) : Type := mkServices {
  sv_Allocate : string -> string -> string -> M (EStore X) eerr Addr;
  sv_Release : Addr -> M (EStore X) eerr unit;
  sv_Issue : string -> Template -> M (EStore X) eerr Leaf;
  sv_Replay : option (string -> M (EStore X) eerr bool);
  sv_CABundleSource : option (M (EStore X) eerr (list string));
  sv_ConfigKeySource : option (M (EStore X) eerr (list string));
  sv_ConfigKeyVersionSource : option (M (EStore X) eerr Z);
  sv_LighthouseSource : option (M (EStore X) eerr (list Lighthouse));
  sv_BlocklistSource : option (M (EStore X) eerr (list string));
  sv_NebulaReleaseFor : option (string -> string -> M (EStore X) eerr (string * string * string));
  sv_PilotReleaseFor : option (string -> string -> M (EStore X) eerr (string * string * string));
}.
Arguments mkServices {X}. Arguments sv_Allocate {X}. Arguments sv_Release {X}. Arguments sv_Issue {X}. Arguments sv_Replay {X}.
Arguments sv_CABundleSource {X}. Arguments sv_ConfigKeySource {X}. Arguments sv_ConfigKeyVersionSource {X}.
Arguments sv_LighthouseSource {X}. Arguments sv_BlocklistSource {X}. Arguments sv_NebulaReleaseFor {X}. Arguments sv_PilotReleaseFor {X}.

(** [Config], with the parameters of the model. *)
Record Config (Pub : Type) : Type := mkECfg {
  cf_Nonces : Keyring;
  cf_Pool : Prefix;
  cf_CertLifetime : Z;
  cf_EphemeralCertTTL : Z;
  cf_EnrollWindow : Z;
  cf_hasConfigBackend : bool;
  cf_CABundlePEM : string;
  cf_ConfigKeyPEM : string;
  cf_Lighthouses : list Lighthouse;
  cf_TunDev : string;
  cf_ListenPort : Z;
  cf_Nebula : string * string * string;
  cf_Pilot : string * string * string;
  cf_Policy : option Policy;
  cf_hasResults : bool;
  cf_ResultTTL : Z;
  cf_AWSSigV4Enabled : bool;
  cf_AWSEndpoint : string;
  cf_CloudTrust : option CloudTrust.Config;
  cf_AssertionVerifyKey : option Pub;
  cf_UserTrustActive : option (option UserTrust.Config);
}.
Arguments mkECfg {Pub}. Arguments cf_Nonces {Pub}. Arguments cf_Pool {Pub}. Arguments cf_CertLifetime {Pub}. Arguments cf_EphemeralCertTTL {Pub}.
Arguments cf_EnrollWindow {Pub}. Arguments cf_hasConfigBackend {Pub}. Arguments cf_CABundlePEM {Pub}. Arguments cf_ConfigKeyPEM {Pub}.
Arguments cf_Lighthouses {Pub}. Arguments cf_TunDev {Pub}. Arguments cf_ListenPort {Pub}. Arguments cf_Nebula {Pub}. Arguments cf_Pilot {Pub}.
Arguments cf_Policy {Pub}. Arguments cf_hasResults {Pub}. Arguments cf_ResultTTL {Pub}. Arguments cf_AWSSigV4Enabled {Pub}. Arguments cf_AWSEndpoint {Pub}.
Arguments cf_CloudTrust {Pub}. Arguments cf_AssertionVerifyKey {Pub}. Arguments cf_UserTrustActive {Pub}.

(** What a denial's reason is rendered from. *)
Inductive failure : Type :=
| F_JoinKey (e : eerr) | F_Attest (e : aterr) | F_Assertion (e : soerr)
| F_Quota (name : string) (n : Z) | F_Account (account arn : string) | F_Subject (subject realm : string).

(** The library functions the consumer calls. *)
Record Lib (Pub : Type) : Type := mkLib {
  lb_sha256 : string -> string;
  lb_hmac : string -> string -> string;
  lb_ecdsaVerify : Pub -> string -> Z -> Z -> bool;
  lb_unmarshalHeader : string -> option Header;
  lb_unmarshalEnv : string -> option Flattened;
  lb_unmarshalRequest : string -> option EnrollRequest;
  lb_parsePoint : string -> option Pub;
  lb_token : string -> string;                             (* the token field of a credential, or empty *)
  lb_presigned : string -> option PresignedRequest;
  lb_assertion : string -> option string;
  lb_unmarshalAssertion : string -> option Assertion;
  lb_parseURL : string -> option Url;
  lb_sts : string -> string -> gmap.gmap string string -> string -> sts_reply;
  lb_decodeXML : string -> option Identity;
  lb_ranges : PresignedRequest -> list (string * string) * list (string * string);
  lb_rfc3339 : Z -> string;
  lb_signBundle : Bundle -> option string;
  lb_certNotAfter : string -> option Z;
  lb_text : failure -> string;                             (* fmt's rendering of a reason *)
}.
Arguments mkLib {Pub}. Arguments lb_sha256 {Pub}. Arguments lb_hmac {Pub}. Arguments lb_ecdsaVerify {Pub}. Arguments lb_unmarshalHeader {Pub}.
Arguments lb_unmarshalEnv {Pub}. Arguments lb_unmarshalRequest {Pub}. Arguments lb_parsePoint {Pub}. Arguments lb_token {Pub}.
Arguments lb_presigned {Pub}. Arguments lb_assertion {Pub}. Arguments lb_unmarshalAssertion {Pub}. Arguments lb_parseURL {Pub}.
Arguments lb_sts {Pub}. Arguments lb_decodeXML {Pub}. Arguments lb_ranges {Pub}. Arguments lb_rfc3339 {Pub}. Arguments lb_signBundle {Pub}.
Arguments lb_certNotAfter {Pub}. Arguments lb_text {Pub}.

(** ** The consumer *)

Section consumer.
Context {X Pub : Type} (lib : Lib Pub) (sv : Services X) (cfg : Config Pub) (tid : nat).
Abbreviation EM := (M (EStore X) eerr).

Definition PubkeyHash (pub : string) : string := EncodeToString (lb_sha256 lib pub).

Definition deviceName (req : EnrollRequest) (pubkeyHash : string) : string :=
  if decide (q_RequestedName req = "") then "dev-" +:+ take_s 10 pubkeyHash else q_RequestedName req.

Definition eaudit (actor action target : string) (details : list (string * string)) : EM unit :=
  ignore (exec (fun s => ((), add_eaudit (actor, action, target, details) s))).

(** ** Tables of other packages, one statement each *)

Definition joinkey_Lookup (secret : string) (now : Z) : EM JoinKey :=
  r ← query (fun s => lookup_row (lb_sha256 lib) secret (keys s));
  match check_key r now with Ok jk => mret jk | Err e => throw (E_JoinKey e) end.

Definition take_key_use (jk : JoinKey) (s : EStore X) : Z * EStore X :=
  let (n, k) := consume_use jk (keys s) in
  (n, if n =? 0 then set_jkeys k s else set_outstanding (outstanding s ++ [(tid, jk_ID jk)]) (set_jkeys k s)).

Definition joinkey_Consume (jk : JoinKey) : EM unit :=
  n ← exec (take_key_use jk);
  if n =? 0 then throw (E_JoinKey J_Exhausted) else mret ().

Definition key_by_id (id : Z) : EM (option JoinKey) :=
  query (fun s => find_first (fun k => jk_ID k =? id) (join_keys (keys s))).

(** [writeResult] *)
Definition writeResult (enrollmentID secretHash bundleJWS status reason : string) : EM unit :=
  if negb (cf_hasResults cfg) then mret ()
  else
    expiresAt ← (if decide (status = StatusPending) then mret 0
                 else t ← now; mret (t + (if cf_ResultTTL cfg <=? 0 then hour else cf_ResultTTL cfg)));
    ignore (exec (fun s => ((), set_res (upsert_result enrollmentID status secretHash bundleJWS reason expiresAt (res s)) s))).

(** [INSERT] of a row: a use taken for it is no longer outstanding. *)
Fixpoint remove_first (x : nat * Z) (l : list (nat * Z)) : list (nat * Z) :=
  match l with
  | [] => []
  | y :: l => if decide (y = x) then l else y :: remove_first x l
  end.

Definition has_eid (eid : string) (e : Enrollment) : bool := bool_decide (en_EnrollmentID e = eid).

Definition insert_row (mk : Z -> Enrollment) (s : EStore X) : result eerr (unit * EStore X) :=
  let e := mk (en_seq s) in
  if existsb (has_eid (en_EnrollmentID e)) (enrolls s) then Err E_Duplicated
  else
    let s' := set_enrolls (enrolls s ++ [e]) (en_seq s + 1) s in
    Ok ((), if decide (en_Status e = StatusDenied) then s' else set_outstanding (remove_first (tid, en_JoinKeyID e) (outstanding s)) s').

Definition record (enrollmentID : string) (req : EnrollRequest) (pubBytes : string) (joinKeyID : Z) (groups : list string)
    (subRange status certPEM ip fingerprint caFingerprint : string) (ev : evidence) (ephemeral : bool) : EM unit :=
  created ← now;
  decided ← (if decide (status = StatusPending) then mret 0 else now);
  exec_err (insert_row (fun id => mkEnrollment id enrollmentID (deviceName req (PubkeyHash pubBytes)) (PubkeyHash pubBytes) pubBytes
    (q_Method req) joinKeyID groups groups 0 0 subRange status certPEM ip fingerprint caFingerprint created decided "" ephemeral ev
    (q_OS req) (q_Arch req))).

Definition deny (cand : Candidate) (req : EnrollRequest) (pubBytes action reason : string) : EM unit :=
  _ ← ignore (record (c_EnrollmentID cand) req pubBytes 0 [] "" StatusDenied "" "" "" "" no_evidence false);
  _ ← writeResult (c_EnrollmentID cand) (c_RetrievalSecretHash cand) "" StatusDenied reason;
  eaudit "system" action (q_RequestedName req) [("", reason)].

(** The shape of every refusal: record it, and return the error. *)
Definition refuse (cand : Candidate) (req : EnrollRequest) (pubBytes action reason : string) (e : eerr) : EM EResult :=
  _ ← deny cand req pubBytes action reason;
  throw e.

Definition recentEnrollments (joinKeyID : Z) : EM Z :=
  t ← now;
  let cutoff := t - (if cf_EnrollWindow cfg <=? 0 then hour else cf_EnrollWindow cfg) in
  query (fun s => Z.of_nat (length (List.filter (fun e =>
    (en_JoinKeyID e =? joinKeyID) && (bool_decide (en_Status e = StatusPending) || bool_decide (en_Status e = StatusIssued)) &&
    (cutoff <? en_CreatedAt e)) (enrolls s)))).

Definition result_of (e : Enrollment) : EResult := mkEResult (en_EnrollmentID e) (en_Status e) (en_OverlayIP e) (en_CertPEM e).

(** A failed read counts as not recorded. *)
Definition existing (enrollmentID : string) : EM (option EResult) :=
  r ← attempt (query (fun s => find_first (has_eid enrollmentID) (enrolls s)));
  mret (match r with Ok (Some e) => Some (result_of e) | _ => None end).

(** ** Bundles *)

(** A live source with its fallback on a failed read. *)
Definition source_or {A} (src : option (EM A)) (keep : A -> bool) (dflt : A) : EM A :=
  match src with
  | None => mret dflt
  | Some m => r ← attempt m; mret (match r with Ok a => if keep a then a else dflt | Err _ => dflt end)
  end.

Definition nonempty {A} (l : list A) : bool := negb (bool_decide (length l = 0%nat)).

Definition caBundle : EM (list string) := source_or (sv_CABundleSource sv) nonempty [cf_CABundlePEM cfg].
Definition configKeys : EM (list string) :=
  source_or (sv_ConfigKeySource sv) nonempty (if decide (cf_ConfigKeyPEM cfg = "") then [] else [cf_ConfigKeyPEM cfg]).
Definition configKeyVersion : EM Z := source_or (sv_ConfigKeyVersionSource sv) (fun _ => true) 0.
Definition blocklist : EM (list string) := source_or (sv_BlocklistSource sv) (fun _ => true) [].
Definition lighthouses : EM (list Lighthouse) := source_or (sv_LighthouseSource sv) nonempty (cf_Lighthouses cfg).

Definition release_of (src : option (string -> string -> EM (string * string * string))) (static : string * string * string)
    (goos goarch : string) : EM (string * string * string) :=
  match src with None => mret static | Some f => r ← attempt (f goos goarch); mret (match r with Ok v => v | Err _ => ("", "", "") end) end.

Definition buildBundle (name ip : string) (groups : list string) (certPEM : string) (notAfter : Z) (goos goarch : string) : EM string :=
  if negb (cf_hasConfigBackend cfg) then mret ""
  else
    neb ← release_of (sv_NebulaReleaseFor sv) (cf_Nebula cfg) goos goarch;
    pilot ← release_of (sv_PilotReleaseFor sv) (cf_Pilot cfg) goos goarch;
    t ← now;
    cas ← caBundle;
    ks ← configKeys;
    kv ← configKeyVersion;
    lhs ← lighthouses;
    bl ← blocklist;
    match lb_signBundle lib (mkBundle 0 "" 1 0 (lb_rfc3339 lib t) (mkBDevice name ip groups) certPEM cas ks kv
            (CompileFirewall (cf_Policy cfg) groups) lhs bl (cf_TunDev cfg) (cf_ListenPort cfg) neb pilot (lb_rfc3339 lib notAfter)) with
    | Some b => mret b
    | None => throw E_Bundle
    end.

(** ** Issuing *)

Definition certTTL (ephemeral : bool) : Z :=
  if negb ephemeral then cf_CertLifetime cfg
  else if 0 <? cf_EphemeralCertTTL cfg then cf_EphemeralCertTTL cfg else defaultEphemeralCertTTL.

Record issued : Type := mkIssued { i_ip : Addr; i_pem : string; i_fp : string; i_ca : string; i_notAfter : Z }.

Definition issue (actor name pubBytes : string) (groups : list string) (netblockName method : string) (ephemeral : bool) : EM issued :=
  if GrantsReservedGroup groups then
    _ ← eaudit "system" "enroll-reserved-group-refused" name (("method", method) :: ("actor", actor) :: map (pair "groups") groups);
    throw E_ReservedGroup
  else
    r ← attempt (sv_Allocate sv name netblockName method);
    match r with
    | Err e =>
        _ ← (match e with
             | E_PoolExhausted => eaudit "system" "enroll-exhausted" name [("netblock", netblockName); ("method", method); ("reason", "no addresses available")]
             | _ => mret ()
             end);
        throw e
    | Ok ip =>
        t ← now;
        let nb := t - 5 * 60 * second in
        let notAfter := nb + certTTL ephemeral in
        let tpl := mkTemplate name [PrefixFrom ip (p_bits (cf_Pool cfg))] groups nb notAfter pubBytes in
        _ ← mem (fun s => ((), add_submitted tpl s));
        r ← attempt (sv_Issue sv actor tpl);
        match r with
        | Err _ => _ ← ignore (sv_Release sv ip); throw E_Sign
        | Ok leaf => mret (mkIssued ip (lf_PEM leaf) (lf_Fingerprint leaf) (ToLower (TrimSpace (lf_Issuer leaf))) notAfter)
        end
    end.

(** The two ends every accepted join has in common: pending, or minted at once. *)
Definition finish_pending (cand : Candidate) (req : EnrollRequest) (pubBytes : string) (joinKeyID : Z) (groups : list string)
    (netblock : string) (ev : evidence) (ephemeral : bool) (details : list (string * string)) : EM EResult :=
  _ ← record (c_EnrollmentID cand) req pubBytes joinKeyID groups netblock StatusPending "" "" "" "" ev ephemeral;
  _ ← writeResult (c_EnrollmentID cand) (c_RetrievalSecretHash cand) "" StatusPending "";
  _ ← eaudit "system" "enroll-pending" (deviceName req (c_PubkeyHash cand)) details;
  mret (mkEResult (c_EnrollmentID cand) StatusPending "" "").

Definition finish_issued (cand : Candidate) (req : EnrollRequest) (pubBytes : string) (joinKeyID : Z) (groups : list string)
    (netblock actor method : string) (ev : evidence) (ephemeral : bool) (after : EM unit) : EM EResult :=
  let name := deviceName req (c_PubkeyHash cand) in
  i ← issue actor name pubBytes groups netblock method ephemeral;
  b ← buildBundle name (AddrString (i_ip i)) groups (i_pem i) (i_notAfter i) (q_OS req) (q_Arch req);
  _ ← record (c_EnrollmentID cand) req pubBytes joinKeyID groups netblock StatusIssued (i_pem i) (AddrString (i_ip i)) (i_fp i) (i_ca i) ev ephemeral;
  _ ← writeResult (c_EnrollmentID cand) (c_RetrievalSecretHash cand) b StatusIssued "";
  _ ← after;
  mret (mkEResult (c_EnrollmentID cand) StatusIssued (AddrString (i_ip i)) (i_pem i)).

(** ** Verification of the request *)

Definition verify (cand : Candidate) : EM (EnrollRequest * string) :=
  match lb_unmarshalEnv lib (c_RequestJWS cand) with
  | None => throw E_BadRequest
  | Some env =>
      if decide (f_Payload env = "") then throw E_BadRequest
      else match DecodeString (f_Payload env) ≫= lb_unmarshalRequest lib with
      | None => throw E_BadRequest
      | Some req =>
          if negb (bool_decide (q_Type req = "enroll")) || bool_decide (q_Nonce req = "") then throw E_BadRequest
          else match DecodeString (q_PublicKey req) with
          | None => throw E_BadRequest
          | Some pubBytes =>
              if negb (len pubBytes =? 65) then throw E_BadRequest
              else match lb_parsePoint lib pubBytes with
              | None => throw E_BadRequest
              | Some pub =>
                  let hash := PubkeyHash pubBytes in
                  match VerifyOne (lb_sha256 lib) (lb_ecdsaVerify lib) (lb_unmarshalHeader lib) env pub with
                  | Err _ => throw E_Signature
                  | Ok (hdr, _) =>
                      if negb (bool_decide (h_Typ hdr = TypEnrollRequest)) || negb (bool_decide (h_Kid hdr = hash)) ||
                         negb (bool_decide (hash = c_PubkeyHash cand)) then throw E_Signature
                      else
                        t ← now;
                        match Nonce.Verify (lb_hmac lib) (cf_Nonces cfg) (t / second) (q_Nonce req) hash with
                        | Err _ => throw E_Nonce
                        | Ok _ =>
                            match sv_Replay sv with
                            | None => mret (req, pubBytes)
                            | Some observe =>
                                first ← observe (q_Nonce req);
                                if first : bool then mret (req, pubBytes) else throw E_Replay
                            end
                        end
                  end
              end
          end
      end
  end.

(** ** The three join methods *)

(** The tail of [Process]: join keys. *)
Definition process_token (cand : Candidate) (req : EnrollRequest) (pubBytes : string) : EM EResult :=
  t ← now;
  r ← attempt (joinkey_Lookup (lb_token lib (q_Credential req)) t);
  match r with
  | Err e => refuse cand req pubBytes "enroll-denied" (lb_text lib (F_JoinKey e)) e
  | Ok jk =>
      over ← (if 0 <? jk_QuotaPerHour jk then n ← recentEnrollments (jk_ID jk); mret (jk_QuotaPerHour jk <=? n) else mret false);
      if over : bool then refuse cand req pubBytes "enroll-quota-exceeded" (lb_text lib (F_Quota (jk_Name jk) (jk_QuotaPerHour jk))) E_Quota
      else
        r ← attempt (joinkey_Consume jk);
        match r with
        | Err e => refuse cand req pubBytes "enroll-denied" (lb_text lib (F_JoinKey e)) e
        | Ok _ =>
            if negb (jk_AutoIssue jk) then
              finish_pending cand req pubBytes (jk_ID jk) (jk_Groups jk) (jk_SubRange jk) no_evidence (jk_Ephemeral jk)
                [("join_key", jk_Name jk); ("reason", "manual approval required")]
            else
              finish_issued cand req pubBytes (jk_ID jk) (jk_Groups jk) (jk_SubRange jk) "enroll-auto" "token" no_evidence (jk_Ephemeral jk) (mret ())
        end
  end.

Definition TrimSuffix (s suffix : string) : string :=
  if HasSuffix s suffix then take_s (String.length s - String.length suffix) s else s.

Definition regionFromSTSURL (raw : string) : string :=
  match lb_parseURL lib raw with
  | None => ""
  | Some u =>
      let h := TrimPrefix (TrimPrefix (TrimSuffix (u_Hostname u) ".amazonaws.com") "sts") "." in
      if decide (h = "") then "global" else h
  end.

Definition sts_reason (e : aterr) : string :=
  match e with
  | AT_STSUnavailable => "cloud attestation verifier (AWS STS) is unavailable; re-enroll to retry"
  | _ => "attestation rejected: " +:+ lb_text lib (F_Attest e)
  end.

Definition processAttested (cand : Candidate) (req : EnrollRequest) (pubBytes : string) : EM EResult :=
  match cf_AWSSigV4Enabled cfg, cf_CloudTrust cfg with
  | true, Some trust =>
      match lb_presigned lib (q_Credential req) with
      | None => refuse cand req pubBytes "enroll-denied" "malformed attestation credential" (E_Attest AT_BadRequest)
      | Some pres =>
          let (range1, range2) := lb_ranges lib pres in
          match Trust.Verify (lb_parseURL lib) (lb_sts lib) (lb_decodeXML lib) (cf_AWSEndpoint cfg) range1 range2 pres
                  (q_Nonce req) (PubkeyHash pubBytes) with
          | Err e => refuse cand req pubBytes "enroll-denied" (sts_reason e) (E_Attest e)
          | Ok id =>
              match CloudTrust.MatchAWS trust id with
              | None => refuse cand req pubBytes "enroll-denied" (lb_text lib (F_Account (id_Account id) (id_Arn id))) (E_Attest AT_NotAllowed)
              | Some (groups, netblock, autoIssue) =>
                  t ← now;
                  let ev := mkEvidence ProviderAWS (id_Account id) (id_Arn id) (RegionName (regionFromSTSURL (ps_URL pres))) t in
                  if negb autoIssue then
                    finish_pending cand req pubBytes 0 groups netblock ev false
                      [("method", "aws-sigv4"); ("account", id_Account id); ("reason", "manual approval required")]
                  else
                    finish_issued cand req pubBytes 0 groups netblock "enroll-attested" "aws-sigv4" ev false
                      (eaudit "system" "enroll-attested" (deviceName req (c_PubkeyHash cand))
                         [("method", "aws-sigv4"); ("account", id_Account id); ("arn", id_Arn id)])
              end
          end
      end
  | _, _ => refuse cand req pubBytes "enroll-denied" "aws-sigv4 attestation is not enabled on this control plane" E_Method
  end.

Definition processSSO (cand : Candidate) (req : EnrollRequest) (pubBytes : string) : EM EResult :=
  match cf_AssertionVerifyKey cfg, cf_UserTrustActive cfg with
  | Some key, Some (Some active) =>
      match lb_assertion lib (q_Credential req) with
      | None | Some "" => refuse cand req pubBytes "enroll-denied" "malformed SSO credential envelope" E_SSOAssertion
      | Some token =>
          t ← now;
          match Jws.Verify (lb_sha256 lib) (lb_ecdsaVerify lib) (lb_unmarshalHeader lib) (lb_unmarshalAssertion lib) key token (t / second) with
          | Err e => refuse cand req pubBytes "enroll-denied" ("SSO assertion rejected: " +:+ lb_text lib (F_Assertion e)) E_SSOAssertion
          | Ok a =>
              let pubkeyHash := PubkeyHash pubBytes in
              if negb (bool_decide (as_PubkeyHash a = pubkeyHash)) then
                refuse cand req pubBytes "enroll-denied" "SSO assertion is bound to a different device key" E_SSOBinding
              else if negb (bool_decide (as_Nonce a = q_Nonce req)) then
                refuse cand req pubBytes "enroll-denied" "SSO assertion is bound to a different enrollment nonce" E_SSOBinding
              else
                t ← now;
                match Nonce.Verify (lb_hmac lib) (cf_Nonces cfg) (t / second) (as_Nonce a) pubkeyHash with
                | Err _ => refuse cand req pubBytes "enroll-denied" "SSO assertion nonce is not authentic for this device" E_SSOBinding
                | Ok _ =>
                    match UserTrust.Match active (as_Issuer a) (as_IdPGroups a) with
                    | None => refuse cand req pubBytes "enroll-denied" (lb_text lib (F_Subject (as_Subject a) (as_Issuer a))) E_SSONotAllowed
                    | Some (groups, netblock, autoIssue) =>
                        let principal := if decide (as_Email a = "") then as_Subject a else as_Email a in
                        t ← now;
                        let ev := mkEvidence providerSSO (as_Issuer a) principal (RegionGroups (as_IdPGroups a)) t in
                        if negb (autoIssue && negb (GrantsReservedGroup groups)) then
                          finish_pending cand req pubBytes 0 groups netblock ev false
                            [("method", "sso"); ("realm", as_Issuer a); ("subject", as_Subject a); ("reason", "manual approval required")]
                        else
                          finish_issued cand req pubBytes 0 groups netblock "enroll-sso" providerSSO ev false
                            (eaudit "system" "enroll-sso" (deviceName req (c_PubkeyHash cand))
                               [("method", "sso"); ("realm", as_Issuer a); ("subject", as_Subject a)])
                    end
                end
          end
      end
  | Some _, Some None => refuse cand req pubBytes "enroll-denied" "no user-trust config has been published" E_SSONotConfigured
  | _, _ => refuse cand req pubBytes "enroll-denied" "SSO enrollment is not configured on this control plane" E_SSONotConfigured
  end.

Definition Process (cand : Candidate) : EM EResult :=
  r ← existing (c_EnrollmentID cand);
  match r with
  | Some r => mret r
  | None =>
      v ← verify cand;
      let '(req, pubBytes) := v in
      if decide (q_Method req = MethodAWSSigV4) then processAttested cand req pubBytes
      else if decide (q_Method req = MethodOIDC) then processSSO cand req pubBytes
      else if decide (q_Method req <> MethodToken) then throw E_Method
      else process_token cand req pubBytes
  end.

(** ** Decisions on pending rows *)

Definition decodeGroups (r : region) : list string := match r with RegionGroups l => l | RegionName _ => [] end.

Definition provenanceMethod (wireMethod : string) : string := if decide (wireMethod = MethodOIDC) then providerSSO else wireMethod.

Definition approveNetblock (e : Enrollment) : EM string :=
  let ev := en_Evidence e in
  if negb (en_JoinKeyID e =? 0) then
    r ← attempt (key_by_id (en_JoinKeyID e));
    mret (match r with Ok (Some jk) => jk_SubRange jk | _ => "" end)
  else
    let aws :=
      if bool_decide (en_Method e = MethodAWSSigV4) && bool_decide (ev_provider ev = ProviderAWS)
      then cf_CloudTrust cfg ≫= fun trust => CloudTrust.MatchAWS trust (mkIdentity (ev_account ev) (ev_principal ev) "") else None in
    let sso :=
      if bool_decide (en_Method e = MethodOIDC) && bool_decide (ev_provider ev = providerSSO)
      then mjoin (cf_UserTrustActive cfg) ≫= fun active => UserTrust.Match active (ev_account ev) (decodeGroups (ev_region ev)) else None in
    mret (match aws, sso with
          | Some (_, netblock, _), _ => netblock
          | None, Some (_, netblock, _) => netblock
          | None, None => ""
          end).

Definition approveEphemeral (e : Enrollment) : EM bool :=
  if negb (en_JoinKeyID e =? 0) then
    r ← attempt (key_by_id (en_JoinKeyID e));
    mret (match r with Ok (Some jk) => jk_Ephemeral jk | _ => en_Ephemeral e end)
  else mret false.

Definition row_of (enrollmentID : string) : EM (option Enrollment) :=
  query (fun s => find_first (has_eid enrollmentID) (enrolls s)).

Definition is_pending (enrollmentID : string) (e : Enrollment) : bool :=
  has_eid enrollmentID e && bool_decide (en_Status e = StatusPending).

(** [UPDATE enrollments SET ... WHERE enrollment_id = ? AND status = 'pending']: rows affected. *)
Definition claim (enrollmentID : string) (g : Enrollment -> Enrollment) (s : EStore X) : Z * EStore X :=
  (Z.of_nat (length (List.filter (is_pending enrollmentID) (enrolls s))),
   set_enrolls (map (fun e => if is_pending enrollmentID e then g e else e) (enrolls s)) (en_seq s) s).

Definition set_issued (i : issued) (decidedAt : Z) (approver : string) (ephemeral : bool) (e : Enrollment) : Enrollment :=
  mkEnrollment (en_ID e) (en_EnrollmentID e) (en_DeviceName e) (en_PubkeyHash e) (en_Pubkey e) (en_Method e) (en_JoinKeyID e)
    (en_Groups e) (en_DesiredGroups e) (en_GroupsGeneration e) (en_IssuedGeneration e) (en_SubRange e) StatusIssued (i_pem i)
    (AddrString (i_ip i)) (i_fp i) (i_ca i) (en_CreatedAt e) decidedAt approver ephemeral (en_Evidence e) (en_GOOS e) (en_GOARCH e).

Definition set_denied (decidedAt : Z) (approver : string) (e : Enrollment) : Enrollment :=
  mkEnrollment (en_ID e) (en_EnrollmentID e) (en_DeviceName e) (en_PubkeyHash e) (en_Pubkey e) (en_Method e) (en_JoinKeyID e)
    (en_Groups e) (en_DesiredGroups e) (en_GroupsGeneration e) (en_IssuedGeneration e) (en_SubRange e) StatusDenied (en_CertPEM e)
    (en_OverlayIP e) (en_Fingerprint e) (en_CAFingerprint e) (en_CreatedAt e) decidedAt approver (en_Ephemeral e) (en_Evidence e)
    (en_GOOS e) (en_GOARCH e).

Definition Approve (enrollmentID approver : string) : EM EResult :=
  r ← row_of enrollmentID;
  match r with
  | None => throw E_NotPending
  | Some e =>
      if decide (en_Status e <> StatusPending) then throw E_NotPending
      else
        netblock ← (if decide (en_SubRange e = "") then approveNetblock e else mret (en_SubRange e));
        ephemeral ← approveEphemeral e;
        i ← issue approver (en_DeviceName e) (en_Pubkey e) (en_Groups e) netblock (provenanceMethod (en_Method e)) ephemeral;
        t ← now;
        c ← attempt (exec (claim enrollmentID (set_issued i t approver ephemeral)));
        match c with
        | Err err => _ ← ignore (sv_Release sv (i_ip i)); throw err
        | Ok n =>
            if n =? 0 then _ ← ignore (sv_Release sv (i_ip i)); throw E_NotPending
            else
              b ← buildBundle (en_DeviceName e) (AddrString (i_ip i)) (en_Groups e) (i_pem i) (i_notAfter i) (en_GOOS e) (en_GOARCH e);
              _ ← writeResult enrollmentID "" b StatusIssued "";
              _ ← eaudit approver "enroll-approved" (en_DeviceName e) [("overlay_ip", AddrString (i_ip i))];
              mret (mkEResult enrollmentID StatusIssued (AddrString (i_ip i)) (i_pem i))
        end
  end.

Definition Deny (enrollmentID approver reason : string) : EM EResult :=
  r ← row_of enrollmentID;
  match r with
  | None => throw E_NotPending
  | Some e =>
      if decide (en_Status e <> StatusPending) then throw E_NotPending
      else
        t ← now;
        n ← exec (claim enrollmentID (set_denied t approver));
        if n =? 0 then throw E_NotPending
        else
          _ ← writeResult enrollmentID "" "" StatusDenied reason;
          _ ← eaudit approver "enroll-denied" (en_DeviceName e) [("", reason)];
          mret (mkEResult enrollmentID StatusDenied "" "")
  end.

(** [ok=false] is [None]. *)
Definition BuildDeliverable (enrollmentID : string) : EM (option (string * string * string)) :=
  r ← row_of enrollmentID;
  match r with
  | None => mret None
  | Some e =>
      if decide (en_Status e = StatusIssued) then
        match lb_certNotAfter lib (en_CertPEM e) with
        | None => throw E_Cert
        | Some notAfter =>
            b ← buildBundle (en_DeviceName e) (en_OverlayIP e) (en_Groups e) (en_CertPEM e) notAfter (en_GOOS e) (en_GOARCH e);
            mret (Some (StatusIssued, b, ""))
        end
      else if decide (en_Status e = StatusDenied) then mret (Some (StatusDenied, "", "enrollment denied by an administrator"))
      else mret None
  end.

Definition Pending : EM (list Enrollment) :=
  query (fun s => List.filter (fun e => bool_decide (en_Status e = StatusPending)) (enrolls s)).

(** ** Draining the queue, given the queue's operations *)

Fixpoint drain_each (ack nack : Z -> EM unit) (l : list Leased) : EM unit :=
  match l with
  | [] => mret ()
  | x :: l =>
      r ← attempt (Process (l_Candidate x));
      _ ← (match r with
           | Ok _ => ignore (ack (l_ID x))
           | Err e => if terminal e then ignore (ack (l_ID x)) else ignore (nack (l_ID x))
           end);
      drain_each ack nack l
  end.

Definition Drain (claim_batch : EM (list Leased)) (ack nack : Z -> EM unit) : EM Z :=
  leased ← claim_batch;
  _ ← drain_each ack nack leased;
  mret (Z.of_nat (length leased)).
End consumer.
