(* ===== verification/EnrollmentSafety.v ===== *)
(** * Enrollment: what concurrent consumers and approvals preserve

    The effects of internal/enrollment on the shared tables as a step relation, its
    invariant, and the theorems that [Process], [Approve] and [Deny] refine the relation
    under faults and interference. The others may also be the rest of the control plane: the
    genesis commands record control-plane hosts, heartbeats, renewals, regroups and certificate
    rotations update rows of enrolled hosts, and operators edit join keys. The services enter through the class [Confined]: they
    touch their own tables and the audit log only. *)

From S2P Require Import Prelude Db Bytes GoStrings Netip Policy Queue Nonce JoinKey Trust Jws Bundle Signer Enrollment.
From stdpp Require Import prelude strings list relations.
From Stdlib Require Import ZArith Lia.
Open Scope Z_scope.

(** ** Steps *)

(** What never changes about a row. *)
Definition same_row (a b : Enrollment) : Prop :=
  en_ID b = en_ID a /\ en_EnrollmentID b = en_EnrollmentID a /\ en_DeviceName b = en_DeviceName a /\ en_Pubkey b = en_Pubkey a /\
  en_Method b = en_Method a /\ en_JoinKeyID b = en_JoinKeyID a.

(** What a decision on it does not change. *)
Definition same_host (a b : Enrollment) : Prop := same_row a b /\ en_Groups b = en_Groups a.

(** What the rest of the control plane may do to a row: heartbeats (the platform; a repair that
    marks the row of a live address issued), renewals (the fingerprints, and the groups with the
    generation they were signed at; held reserved groups are kept), regroups (the desired groups),
    and the rotation of a lighthouse's certificate. All of them find the row by its address. *)
Record outside (a b : Enrollment) : Prop := mkOutside {
  o_row : same_row a b;
  o_ip : en_OverlayIP b = en_OverlayIP a;
  o_approver : en_Approver b = en_Approver a;
  o_blank : en_OverlayIP a = "" -> b = a;
  o_status : en_Status b = en_Status a \/ en_Status b = StatusIssued;
  o_cert : en_CertPEM b = en_CertPEM a \/ GrantsReservedGroup (en_Groups b) = true;
  o_keep : GrantsReservedGroup (en_Groups a) = true -> GrantsReservedGroup (en_Groups b) = true;
  o_gen : en_IssuedGeneration a <= en_IssuedGeneration b;
  o_groups : en_Groups b = en_Groups a \/ 0 < en_IssuedGeneration b;
}.

#[export] Instance outside_preorder : PreOrder outside.
Proof.
  split; [intros a; split; auto; lia || by split_and!|]. intros a b c [R1 I1 A1 B1 S1 C1 K1 N1 G1] [R2 I2 A2 B2 S2 C2 K2 N2 G2].
  split; try lia; try congruence; auto.
  - unfold same_row in *. naive_solver congruence.
  - intros Ha. rewrite B2; [by apply B1|congruence].
  - destruct S2 as [->|]; auto.
  - destruct C2 as [->|]; [|auto]. destruct C1 as [->|]; auto.
  - destruct G2 as [->|]; [|auto]. destruct G1 as [->|]; [auto|right; lia].
Qed.

(** Rows that [genesis.RecordControlPlaneEnrollment] inserts. *)
Definition MethodGenesis : string := "genesis".

Section steps.
Context {X Pub : Type} (lib : Lib Pub) (cfg : Config Pub).
Implicit Types s : EStore X.

(** The template an issued row's certificate was signed from: the row's name, key and one
    address, and its groups until a renewal has signed others. *)
Definition minted_from (tpl : Template) (e : Enrollment) : Prop :=
  tp_Name tpl = en_DeviceName e /\ tp_PublicKey tpl = en_Pubkey e /\ (en_IssuedGeneration e <= 0 -> tp_Groups tpl = en_Groups e) /\
  exists ip, tp_Networks tpl = [PrefixFrom ip (p_bits (cf_Pool cfg))] /\ en_OverlayIP e = AddrString ip.

Definition minted s (e : Enrollment) : Prop := exists tpl, tpl ∈ submitted s /\ minted_from tpl e.

(** A bundle carries the certificate and the identity it is for, and a CA to trust. *)
Definition bundle_for (certPEM : string) (dev : BDevice) (bundle : string) : Prop :=
  bundle = "" \/ exists bd, lb_signBundle lib bd = Some bundle /\ b_Certificate bd = certPEM /\ b_Device bd = dev /\ b_CABundle bd <> [].

(** The row's name and address; its groups until a renewal has signed others; its certificate
    unless it has been given a reserved group since (only such rows are re-signed in place). *)
Definition delivers (e : Enrollment) (bundle : string) : Prop :=
  exists certPEM groups, bundle_for certPEM (mkBDevice (en_DeviceName e) (en_OverlayIP e) groups) bundle /\
    (GrantsReservedGroup (en_Groups e) = false -> certPEM = en_CertPEM e) /\ (en_IssuedGeneration e <= 0 -> groups = en_Groups e).

Definition recorded s (eid bundle : string) : Prop :=
  exists e, e ∈ enrolls s /\ en_EnrollmentID e = eid /\ en_Status e = StatusIssued /\ delivers e bundle.

Definition frame_step s s' : Prop :=
  exists au x, s' = mkEStore (enrolls s) (en_seq s) (keys s) (res s) au x (outstanding s) (submitted s).

(** What enrollment makes of a row: issued from a template, or without an address. *)
Definition row_ok s (e : Enrollment) : Prop :=
  (en_Status e = StatusIssued -> minted s e) /\ (en_Status e <> StatusIssued -> en_OverlayIP e = "").

(** The steps of enrollment, then those of the rest of the control plane: rows recorded by
    the genesis commands, and updates of rows that have an address. *)
Inductive e_step (t : nat) s s' : Prop :=
| es_frame : frame_step s s' -> e_step t s s'
| es_keys k : jk_step (keys s) k -> s' = set_jkeys k s -> e_step t s s'
| es_use k id : jk_step (keys s) k -> grants k = grants (keys s) ++ [id] ->
    s' = set_outstanding (outstanding s ++ [(t, id)]) (set_jkeys k s) -> e_step t s s'
| es_submit tpl : GrantsReservedGroup (tp_Groups tpl) = false -> s' = add_submitted tpl s -> e_step t s s'
| es_insert mk : row_ok s (mk (en_seq s)) -> (en_Status (mk (en_seq s)) = StatusDenied -> en_JoinKeyID (mk (en_seq s)) = 0) ->
    (en_JoinKeyID (mk (en_seq s)) <> 0 -> (t, en_JoinKeyID (mk (en_seq s))) ∈ outstanding s) ->
    insert_row t mk s = Ok ((), s') -> e_step t s s'
| es_claim eid g : (forall e, e ∈ enrolls s -> is_pending eid e = true -> same_host e (g e) /\ row_ok s (g e)) ->
    s' = (claim eid g s).2 -> e_step t s s'
| es_put eid st sh b reason exp : (st = StatusIssued -> recorded s eid b) ->
    s' = set_res (upsert_result eid st sh b reason exp (res s)) s -> e_step t s s'
| es_poll q : (forall r, r ∈ results q -> rs_Status r = StatusIssued ->
      exists r0, r0 ∈ results (res s) /\ rs_EnrollmentID r0 = rs_EnrollmentID r /\ rs_Bundle r0 = rs_Bundle r /\ rs_Status r0 = StatusIssued) ->
    s' = set_res q s -> e_step t s s'
| es_genesis e : en_Method e = MethodGenesis -> en_Status e = StatusIssued -> en_JoinKeyID e = 0 ->
    en_EnrollmentID e ∉ (en_EnrollmentID <$> enrolls s) -> s' = set_enrolls (enrolls s ++ [e]) (en_seq s + 1) s -> e_step t s s'
| es_outside f : (forall e, e ∈ enrolls s -> outside e (f e)) -> s' = set_enrolls (f <$> enrolls s) (en_seq s) s -> e_step t s s'.

(** Hosts recorded under a key, and uses of it taken but not yet recorded. *)
Definition hosts (id : Z) s : Z := Z.of_nat (length (List.filter (fun e => en_JoinKeyID e =? id) (enrolls s))).
Definition pledged (id : Z) s : Z := Z.of_nat (length (List.filter (fun p => p.2 =? id) (outstanding s))).

Record e_inv s : Prop := mkEInv {
  ei_keys : jk_inv (keys s);
  ei_eids : NoDup (en_EnrollmentID <$> enrolls s);
  ei_clean : forall tpl, tpl ∈ submitted s -> GrantsReservedGroup (tp_Groups tpl) = false;
  ei_minted : forall e, e ∈ enrolls s -> en_Method e <> MethodGenesis -> row_ok s e;
  ei_blank : forall e, e ∈ enrolls s -> en_Status e <> StatusIssued -> en_OverlayIP e = "";
  ei_delivered : forall r, r ∈ results (res s) -> rs_Status r = StatusIssued -> recorded s (rs_EnrollmentID r) (rs_Bundle r);
  ei_bounded : forall id, id <> 0 -> hosts id s + pledged id s <= uses id (keys s);
}.

(** ** Persistent facts *)

Lemma minted_mono s s' e : submitted s `prefix_of` submitted s' -> minted s e -> minted s' e.
Proof. intros [l Hl] (tpl & Hin & Hm). exists tpl. rewrite Hl, elem_of_app. auto. Qed.

Lemma insert_row_ok t mk s s' : insert_row t mk s = Ok ((), s') ->
  let e := mk (en_seq s) in
  enrolls s' = enrolls s ++ [e] /\ en_EnrollmentID e ∉ (en_EnrollmentID <$> enrolls s) /\ keys s' = keys s /\ res s' = res s /\ submitted s' = submitted s /\
  outstanding s' = (if decide (en_Status e = StatusDenied) then outstanding s else remove_first (t, en_JoinKeyID e) (outstanding s)).
Proof.
  unfold insert_row. destruct (existsb _ _) eqn:E; [done|]. intros Hs. apply (f_equal (fun r => match r with Ok (_, s) => s | Err _ => s' end)) in Hs.
  cbn in Hs. subst s'.
  assert (Hf : en_EnrollmentID (mk (en_seq s)) ∉ (en_EnrollmentID <$> enrolls s)).
  { intros (e & He & Hin)%list_elem_of_fmap. rewrite existsb_elem_false in E. specialize (E _ Hin). unfold has_eid in E. by bool_split. }
  by destruct (decide _).
Qed.

Lemma submitted_step t s s' : e_step t s s' -> submitted s `prefix_of` submitted s'.
Proof.
  destruct 1 as [(? & ? & ->)|? ? ->|? ? ? ? ->|? ? ->|? ? ? ? Hi|? ? ? ->|? ? ? ? ? ? ? ->|? ? ->|? ? ? ? ? ->|? ? ->]; try done; try by eexists.
  apply insert_row_ok in Hi as (_ & _ & _ & _ & -> & _). done.
Qed.

Lemma minted_outside s a b : outside a b -> minted s a -> minted s b.
Proof.
  intros [(_ & _ & Hn & Hp & _) Hip _ _ _ _ _ Hg Hgr] (tpl & Hin & Htn & Htp & Htg & Hta). exists tpl. split; [done|].
  split_and!; [congruence|congruence| |by rewrite Hip]. intros Hle. destruct Hgr as [->|]; [apply Htg; lia|lia].
Qed.

Lemma delivers_outside a b bundle : outside a b -> delivers a bundle -> delivers b bundle.
Proof.
  intros [(_ & _ & Hn & _) Hip _ _ _ Hc Hk Hg Hgr] (cert & gs & Hb & Hcert & Hgs). exists cert, gs. rewrite Hn, Hip. split_and!; [done| |].
  - intros Hcl. destruct Hc as [->|]; [|congruence]. apply Hcert. destruct (GrantsReservedGroup (en_Groups a)) eqn:E; [|done].
    rewrite Hk in Hcl by done. discriminate Hcl.
  - intros Hle. destruct Hgr as [->|]; [apply Hgs; lia|lia].
Qed.

(** A row of a later state is the same host; once decided it only changes from outside. *)
Lemma row_step_e t s s' e : e_step t s s' -> e ∈ enrolls s ->
  exists e', e' ∈ enrolls s' /\ same_row e e' /\ (en_Status e <> StatusPending -> outside e e').
Proof.
  intros Hs Hin. destruct Hs as [(? & ? & ->)|? ? ->|? ? ? ? ->|? ? ->|? ? ? ? Hi|eid g Hg ->|? ? ? ? ? ? ? ->|? ? ->|? ? ? ? ? ->|f Hf ->]; try (by exists e).
  - apply insert_row_ok in Hi as (-> & _). exists e. rewrite elem_of_app. split; [by left|done].
  - exists (if is_pending eid e then g e else e). cbn. split.
    { change (map ?f ?l) with (f <$> l). apply list_elem_of_fmap. by exists e. }
    destruct (is_pending eid e) eqn:Ep; [|done]. destruct (Hg e Hin Ep) as [[Hh _] _]. split; [done|].
    unfold is_pending in Ep. intros. by bool_split.
  - exists e. cbn. rewrite elem_of_app. split; [by left|done].
  - exists (f e). cbn. split; [apply list_elem_of_fmap; by exists e|]. split; [apply (Hf e Hin)|auto].
Qed.

Lemma recorded_later t s s' eid b : e_step t s s' -> recorded s eid b -> recorded s' eid b.
Proof.
  intros Hs (e & Hin & He & Hst & Hd). destruct (row_step_e _ _ _ _ Hs Hin) as (e' & Hin' & Hr & Hout).
  specialize (Hout ltac:(by rewrite Hst)). exists e'. split_and!; [done|by destruct Hr as (_ & -> & _)| |by eapply delivers_outside].
  destruct (o_status _ _ Hout) as [->|]; done.
Qed.

(** ** The invariant *)

Lemma eids_claim eid g s : (forall e, e ∈ enrolls s -> is_pending eid e = true -> same_host e (g e) /\ row_ok s (g e)) ->
  let f := fun e => if is_pending eid e then g e else e in
  en_EnrollmentID <$> map f (enrolls s) = en_EnrollmentID <$> enrolls s /\
  (forall id, length (List.filter (fun e => en_JoinKeyID e =? id) (map f (enrolls s))) = length (List.filter (fun e => en_JoinKeyID e =? id) (enrolls s))).
Proof.
  intros Hg f. assert (Hf : forall e, e ∈ enrolls s -> en_EnrollmentID (f e) = en_EnrollmentID e /\ en_JoinKeyID (f e) = en_JoinKeyID e).
  { intros e Hin. unfold f. destruct (is_pending eid e) eqn:Ep; [|done]. by destruct (Hg e Hin Ep) as [[(_ & ? & _ & _ & _ & ?) _] _]. }
  clear Hg. induction (enrolls s) as [|e l IH]; [done|]. destruct IH as [IH1 IH2]; [intros; apply Hf; by constructor|].
  destruct (Hf e) as [H1 H2]; [constructor|]. split; [cbn; by rewrite H1, <- IH1|].
  intros id. cbn. rewrite H2. destruct (_ =? id); cbn; by rewrite IH2.
Qed.

Lemma remove_first_count t id l : (t, id) ∈ l ->
  Z.of_nat (length (List.filter (fun p : nat * Z => p.2 =? id) (remove_first (t, id) l))) =
  Z.of_nat (length (List.filter (fun p => p.2 =? id) l)) - 1.
Proof.
  induction l as [|y l IH]; intros Hin; [by apply elem_of_nil in Hin|]. cbn.
  destruct (decide (y = (t, id))) as [->|Hy]; [cbn; rewrite Z.eqb_refl; cbn; lia|].
  apply elem_of_cons in Hin as [Heq|Hin]; [by symmetry in Heq|]. specialize (IH Hin). cbn. destruct (y.2 =? id); cbn in *; lia.
Qed.

Lemma remove_first_other t k id l : k <> id ->
  length (List.filter (fun p : nat * Z => p.2 =? id) (remove_first (t, k) l)) = length (List.filter (fun p => p.2 =? id) l).
Proof.
  intros Hk. induction l as [|y l IH]; [done|]. cbn. destruct (decide (y = (t, k))) as [->|Hy].
  - cbn. by rewrite (proj2 (Z.eqb_neq _ _)).
  - cbn. destruct (y.2 =? id); cbn; by rewrite IH.
Qed.

Lemma filter_snoc {A} (f : A -> bool) l x : Z.of_nat (length (List.filter f (l ++ [x]))) = Z.of_nat (length (List.filter f l)) + (if f x then 1 else 0).
Proof. rewrite List.filter_app, length_app. cbn. destruct (f x); cbn; lia. Qed.

Lemma uses_step k k' id : jk_step k k' -> uses id k <= uses id k'.
Proof. unfold uses. destruct 1 as [_ _ -> _| ? _ _ _ _ -> _| ? ? _ _ _ _ _ _ -> _]; [lia|lia|]. rewrite filter_snoc. destruct (Z.eqb _ _); lia. Qed.

Lemma put_results eid st sh b reason exp q r : r ∈ results (upsert_result eid st sh b reason exp q) ->
  r ∈ results q \/ (rs_EnrollmentID r = eid /\ rs_Status r = st /\ rs_Bundle r = b).
Proof.
  unfold upsert_result. destruct (existsb _ _); cbn.
  - change (map ?f ?l) with (f <$> l). intros (r0 & -> & Hin)%list_elem_of_fmap. unfold put_row.
    destruct (bool_decide _) eqn:E; bool_split; [right; by cbn|by left].
  - rewrite elem_of_app, list_elem_of_singleton. intros [?| ->]; [by left|by right].
Qed.
Lemma row_ok_mono s s' e : submitted s `prefix_of` submitted s' -> row_ok s e -> row_ok s' e.
Proof. intros Hp [Hm Hb]. split; [|done]. intros Hst. eapply minted_mono; [done|auto]. Qed.

(** The invariant only depends on these parts. *)
Lemma inv_change s s' : e_inv s -> jk_inv (keys s') -> enrolls s' = enrolls s -> submitted s `prefix_of` submitted s' ->
  (forall tpl, tpl ∈ submitted s' -> GrantsReservedGroup (tp_Groups tpl) = false) ->
  (forall r, r ∈ results (res s') -> rs_Status r = StatusIssued -> recorded s (rs_EnrollmentID r) (rs_Bundle r)) ->
  (forall id, id <> 0 -> pledged id s' - pledged id s <= uses id (keys s') - uses id (keys s)) -> e_inv s'.
Proof.
  intros [Hk He Hc Hm Hbl Hd Hb] Hk' Her Hsub Hc' Hd' Hb'. split; [done| | | | | |].
  - by rewrite Her.
  - done.
  - intros e. rewrite Her. intros Hin Hme. eapply row_ok_mono; [done|by apply Hm].
  - by rewrite Her.
  - intros r Hr Hst. destruct (Hd' r Hr Hst) as (e & Hin & Hrest). exists e. by rewrite Her.
  - intros id Hid. specialize (Hb id Hid). specialize (Hb' id Hid). unfold hosts in *. rewrite Her. lia.
Qed.

Lemma e_inv_insert t mk s s' : e_inv s -> row_ok s (mk (en_seq s)) ->
  (en_Status (mk (en_seq s)) = StatusDenied -> en_JoinKeyID (mk (en_seq s)) = 0) ->
  (en_JoinKeyID (mk (en_seq s)) <> 0 -> (t, en_JoinKeyID (mk (en_seq s))) ∈ outstanding s) ->
  insert_row t mk s = Ok ((), s') -> e_inv s'.
Proof.
  intros [Hk He Hc Hm Hbl Hd Hb] Hok Hden Hout (Her & Hfresh & Hks & Hres & Hsub & Ho)%insert_row_ok. set (e := mk (en_seq s)) in *.
  split.
  - by rewrite Hks.
  - rewrite Her, fmap_app. apply NoDup_app. split_and!; [done| |apply NoDup_singleton].
    intros x Hx ->%list_elem_of_singleton. done.
  - by rewrite Hsub.
  - intros x. rewrite Her, elem_of_app, list_elem_of_singleton. intros Hx Hme. apply (row_ok_mono s); [by rewrite Hsub|].
    destruct Hx as [Hx| ->]; [by apply Hm|by apply Hok].
  - intros x. rewrite Her, elem_of_app, list_elem_of_singleton. intros [Hx| ->]; [by apply Hbl|by apply Hok].
  - rewrite Hres. intros r Hr Hst. destruct (Hd r Hr Hst) as (x & Hin & Hrest). exists x. rewrite Her, elem_of_app. auto.
  - intros id Hid. specialize (Hb id Hid). unfold hosts, pledged in *. rewrite Hks, Her, Ho, filter_snoc.
    destruct (en_JoinKeyID e =? id) eqn:E; bool_split.
    + subst id. rewrite decide_False by auto. rewrite remove_first_count by auto. lia.
    + destruct (decide _); [lia|]. rewrite remove_first_other by done. lia.
Qed.

Lemma e_inv_claim eid g s : e_inv s -> (forall e, e ∈ enrolls s -> is_pending eid e = true -> same_host e (g e) /\ row_ok s (g e)) ->
  e_inv (claim eid g s).2.
Proof.
  intros [Hk He Hc Hm Hbl Hd Hb] Hg. destruct (eids_claim eid g s Hg) as [Hids Hcount]. split; cbn.
  - done.
  - by rewrite Hids.
  - done.
  - intros e. change (map ?f ?l) with (f <$> l). intros (e0 & -> & Hin)%list_elem_of_fmap.
    destruct (is_pending eid e0) eqn:Ep; [intros _; by apply Hg|by apply Hm].
  - intros e. change (map ?f ?l) with (f <$> l). intros (e0 & -> & Hin)%list_elem_of_fmap.
    destruct (is_pending eid e0) eqn:Ep; [by apply Hg|by apply Hbl].
  - intros r Hr Hst. eapply (recorded_later 0); [by eapply es_claim|]. by apply Hd.
  - intros id Hid. specialize (Hb id Hid). unfold hosts, pledged in *. cbn. by rewrite Hcount.
Qed.

Lemma e_inv_genesis e s : e_inv s -> en_Method e = MethodGenesis -> en_Status e = StatusIssued -> en_JoinKeyID e = 0 ->
  en_EnrollmentID e ∉ (en_EnrollmentID <$> enrolls s) -> e_inv (set_enrolls (enrolls s ++ [e]) (en_seq s + 1) s).
Proof.
  intros [Hk He Hc Hm Hbl Hd Hb] Hme Hst Hj Hf. split; cbn; try done.
  - rewrite fmap_app. apply NoDup_app. split_and!; [done| |apply NoDup_singleton]. intros x Hx ->%list_elem_of_singleton. done.
  - intros x. rewrite elem_of_app, list_elem_of_singleton. intros [Hx| ->] Hx'; [by apply Hm|done].
  - intros x. rewrite elem_of_app, list_elem_of_singleton. intros [Hx| ->] Hx'; [by apply Hbl|done].
  - intros r Hr Hrs. destruct (Hd r Hr Hrs) as (x & Hin & Hrest). exists x. cbn. rewrite elem_of_app. auto.
  - intros id Hid. specialize (Hb id Hid). unfold hosts, pledged in *. cbn. rewrite filter_snoc, Hj.
    rewrite (proj2 (Z.eqb_neq _ _)) by done. lia.
Qed.

Lemma e_inv_outside f s : e_inv s -> (forall e, e ∈ enrolls s -> outside e (f e)) -> e_inv (set_enrolls (f <$> enrolls s) (en_seq s) s).
Proof.
  intros Hi Hf. pose proof Hi as [Hk He Hc Hm Hbl Hd Hb].
  assert (Hids : en_EnrollmentID <$> (f <$> enrolls s) = en_EnrollmentID <$> enrolls s /\
    forall id, length (List.filter (fun e => en_JoinKeyID e =? id) (f <$> enrolls s)) = length (List.filter (fun e => en_JoinKeyID e =? id) (enrolls s))).
  { clear -Hf. induction (enrolls s) as [|e l IH]; [done|]. destruct IH as [IH1 IH2]; [intros; apply Hf; by constructor|].
    destruct (o_row _ _ (Hf e ltac:(constructor))) as (_ & H1 & _ & _ & _ & H2). split; [cbn; by rewrite H1, <- IH1|].
    intros id. cbn. rewrite H2. destruct (_ =? id); cbn; by rewrite IH2. }
  destruct Hids as [Hids Hcount]. split; cbn; try done.
  - by rewrite Hids.
  - intros x (e & -> & Hin)%list_elem_of_fmap Hme. pose proof (Hf e Hin) as Ho. pose proof (o_row _ _ Ho) as (_ & _ & _ & _ & Hmm & _).
    split; intros Hst.
    + eapply minted_outside; [done|]. apply Hm; [done|congruence|]. destruct (decide (en_Status e = StatusIssued)) as [|Hn]; [done|].
      pose proof (o_blank _ _ Ho (Hbl e Hin Hn)) as Heq. rewrite <- Heq. done.
    + rewrite (o_ip _ _ Ho). apply Hbl; [done|]. intros Hi'. destruct (o_status _ _ Ho); congruence.
  - intros x (e & -> & Hin)%list_elem_of_fmap Hst. pose proof (Hf e Hin) as Ho. rewrite (o_ip _ _ Ho). apply Hbl; [done|].
    intros Hi'. destruct (o_status _ _ Ho); congruence.
  - intros r Hr Hst. eapply (recorded_later 0); [by eapply es_outside|]. by apply Hd.
  - intros id Hid. specialize (Hb id Hid). unfold hosts, pledged in *. cbn. by rewrite Hcount.
Qed.

Lemma e_inv_step t s s' : e_step t s s' -> e_inv s -> e_inv s'.
Proof.
  intros Hs Hi. pose proof Hi as [Hk He Hc Hm Hbl Hd Hb].
  destruct Hs as [(? & ? & ->)|? Hj ->|? ? Hj Hgr ->|? Ht ->|? ? ? ? Hins|? ? ? ->|? ? ? ? ? ? Hp ->|? Hq ->|? ? ? ? ? ->|? ? ->].
  - eapply inv_change; try done. intros. cbn. unfold pledged. cbn. lia.
  - eapply inv_change; try done; [by eapply jk_inv_step|]. intros i _. pose proof (uses_step _ _ i Hj). unfold pledged. cbn. lia.
  - eapply inv_change; try done; [by eapply jk_inv_step|]. intros i _. unfold pledged. cbn. rewrite filter_snoc. cbn.
    rewrite (uses_app i _ _ _ Hgr). cbn. rewrite Z.eqb_sym. destruct (i =? _); cbn; lia.
  - eapply inv_change; try done; cbn; [by eexists| |intros; unfold pledged; cbn; lia].
    intros x [Hx| ->%list_elem_of_singleton]%elem_of_app; [by apply Hc|done].
  - by eapply e_inv_insert.
  - by apply e_inv_claim.
  - eapply inv_change; try done; cbn; [|intros; unfold pledged; cbn; lia].
    intros r [Hr|(<- & Hst & <-)]%put_results Hst'; [by apply Hd|]. apply Hp. congruence.
  - eapply inv_change; try done; cbn; [|intros; unfold pledged; cbn; lia].
    intros r Hr Hst. destruct (Hq r Hr Hst) as (r0 & Hr0 & <- & <- & Hst0). by apply Hd.
  - by apply e_inv_genesis.
  - by apply e_inv_outside.
Qed.

(** ** Runs: of anybody, and of the others *)

Definition evolves : relation (EStore X) := rtc (fun s s' => exists t, e_step t s s').
Definition others_e (tid : nat) : relation (EStore X) := rtc (fun s s' => exists t, t <> tid /\ e_step t s s').

Lemma others_evolve tid s s' : others_e tid s s' -> evolves s s'.
Proof. apply rtc_mono. intros a b (t & _ & H). by exists t. Qed.

Lemma either_evolve tid s s' : rtc (either (others_e tid) (e_step tid)) s s' -> evolves s s'.
Proof.
  induction 1 as [|x y z [Hxy|Hxy] _ IH]; [constructor| |].
  - etrans; [by eapply others_evolve|done].
  - eapply rtc_l; [by exists tid|done].
Qed.

Lemma evolve_keep (I : EStore X -> Prop) s s' : (forall t a b, e_step t a b -> I a -> I b) -> evolves s s' -> I s -> I s'.
Proof. intros HI Hs. apply rtc_invariant with (2 := Hs). intros a b (t & Hab). by eapply HI. Qed.

Lemma frame_others tid s s' : frame_step s s' -> others_e tid s s'.
Proof. intros H. apply rtc_once. exists (S tid). split; [lia|by apply es_frame]. Qed.

Lemma evolve_inv s s' : evolves s s' -> e_inv s -> e_inv s'.
Proof. apply evolve_keep. apply e_inv_step. Qed.

Lemma evolve_minted s s' e : evolves s s' -> minted s e -> minted s' e.
Proof. apply (evolve_keep (fun s => minted s e)). intros t a b Hs. by eapply minted_mono, submitted_step. Qed.

Lemma evolve_recorded s s' eid b : evolves s s' -> recorded s eid b -> recorded s' eid b.
Proof. apply (evolve_keep (fun s => recorded s eid b)). intros t x y. apply recorded_later. Qed.

(** The row of a host, as it was while nobody has decided on it. *)
Definition host_row (e : Enrollment) s : Prop :=
  exists e', e' ∈ enrolls s /\ same_row e e' /\ (en_Status e' = StatusPending -> same_host e e').

Lemma evolve_row s s' e : evolves s s' -> e ∈ enrolls s -> exists e', e' ∈ enrolls s' /\ same_row e e'.
Proof.
  intros Hs Hin. apply (evolve_keep (fun s => exists e', e' ∈ enrolls s /\ same_row e e')) with (2 := Hs); [|by exists e].
  intros t a b Hab (x & Hx & Hex). destruct (row_step_e _ _ _ _ Hab Hx) as (y & Hy & Hxy & _). exists y. split; [done|].
  unfold same_row in *. naive_solver congruence.
Qed.

Lemma evolve_host s s' e : e_inv s -> evolves s s' -> host_row e s -> host_row e s'.
Proof.
  intros Hi Hs Hh. apply (evolve_keep (fun s => e_inv s /\ host_row e s)) with (2 := Hs); [|done]. clear. intros t a b Hs [Hi (x & Hin & Hr & Hp)].
  split; [by eapply e_inv_step|]. assert (Htr : forall y, same_row x y -> same_row e y) by (unfold same_row in *; naive_solver congruence).
  destruct (decide (en_Status x = StatusPending)) as [Hx|Hx].
  - specialize (Hp Hx) as [_ Hg]. destruct Hs as [(? & ? & ->)|? ? ->|? ? ? ? ->|? ? ->|? ? ? ? Hins|eid g Hcl ->|? ? ? ? ? ? ? ->|? ? ->|? ? ? ? ? ->|f Hf ->]; try (by exists x).
    + apply insert_row_ok in Hins as (Her & _). exists x. rewrite Her, elem_of_app. split; [by left|done].
    + exists (if is_pending eid x then g x else x). cbn. split.
      { change (map ?f ?l) with (f <$> l). apply list_elem_of_fmap. by exists x. }
      destruct (is_pending eid x) eqn:Ep; [|done]. destruct (Hcl x Hin Ep) as [[Hh Hgg] _]. split; [auto|]. intros _. split; [auto|congruence].
    + exists x. cbn. rewrite elem_of_app. split; [by left|done].
    + exists (f x). cbn. rewrite (o_blank _ _ (Hf x Hin)); [|apply (ei_blank _ Hi); [done|by rewrite Hx]].
      split; [|done]. apply list_elem_of_fmap. exists x. split; [|done]. symmetry. apply (o_blank _ _ (Hf x Hin)), (ei_blank _ Hi); [done|by rewrite Hx].
  - destruct (row_step_e _ _ _ _ Hs Hin) as (y & Hy & Hxy & Ho). exists y. split_and!; [done|auto|]. intros Hyp.
    destruct (o_status _ _ (Ho Hx)) as [Heq|Heq]; [congruence|rewrite Hyp in Heq; discriminate Heq].
Qed.

(** A decision is final: the row only changes from outside. *)
Lemma evolve_decided s s' e : evolves s s' -> en_Status e <> StatusPending -> e ∈ enrolls s -> exists e', e' ∈ enrolls s' /\ outside e e'.
Proof.
  intros Hs Hst Hin. apply (evolve_keep (fun s => exists e', e' ∈ enrolls s /\ outside e e')) with (2 := Hs); [|by exists e]. clear Hin Hs.
  intros t a b Hab (x & Hx & Hex). destruct (row_step_e _ _ _ _ Hab Hx) as (y & Hy & _ & Ho). exists y. split; [done|].
  etrans; [exact Hex|apply Ho]. destruct (o_status _ _ Hex) as [-> | ->]; done.
Qed.

Lemma keys_step t s s' : e_step t s s' -> keys s' = keys s \/ jk_step (keys s) (keys s').
Proof.
  destruct 1 as [(? & ? & ->)|? ? ->|? ? ? ? ->|? ? ->|? ? ? ? Hi|? ? ? ->|? ? ? ? ? ? ? ->|? ? ->|? ? ? ? ? ->|? ? ->]; auto.
  apply insert_row_ok in Hi as (_ & _ & -> & _). auto.
Qed.

Lemma evolve_backs s s' jk : evolves s s' -> backs jk (keys s) -> backs jk (keys s').
Proof.
  apply (evolve_keep (fun s => backs jk (keys s))). intros t a b Hs Hb.
  destruct (keys_step _ _ _ Hs) as [-> |Hj]; [done|by eapply backs_step].
Qed.

Lemma remove_first_keeps t t' k (p : nat * Z) l : t <> t' -> p.1 = t' -> p ∈ l -> p ∈ remove_first (t, k) l.
Proof.
  intros Ht Hp. induction l as [|y l IH]; [done|]. cbn. intros [->|Hin]%elem_of_cons.
  - destruct (decide (y = (t, k))) as [->|_]; [by cbn in Hp|by left].
  - destruct (decide _); [done|right; by apply IH].
Qed.

Lemma others_outstanding tid s s' k : others_e tid s s' -> (tid, k) ∈ outstanding s -> (tid, k) ∈ outstanding s'.
Proof.
  intros Ho. apply (rtc_invariant _ (fun s => (tid, k) ∈ outstanding s)) with (2 := Ho). clear. intros a b (t & Ht & Hs) Hin.
  destruct Hs as [(? & ? & ->)|? ? ->|? ? ? ? ->|? ? ->|? ? ? ? Hi|? ? ? ->|? ? ? ? ? ? ? ->|? ? ->|? ? ? ? ? ->|? ? ->]; cbn; try done.
  - apply elem_of_app. by left.
  - apply insert_row_ok in Hi as (_ & _ & _ & _ & _ & ->). destruct (decide _); [done|]. by eapply remove_first_keeps.
Qed.
End steps.

(** ** Services that keep to their own tables *)

Definition quietly {X A} (m : M (EStore X) eerr A) (Q0 : result eerr A -> Prop) : Prop :=
  forall T R s, wpt T R frame_step m (fun r _ => Q0 r) s.

(** What enrollment relies on of the allocator, the signer, the replay observer and the
    bundle's sources. *)
Class Confined {X} (sv : Services X) : Prop := {
  c_allocate name block method : quietly (sv_Allocate sv name block method) (fun _ => True);
  c_release ip : quietly (sv_Release sv ip) (fun _ => True);
  c_issue actor tpl : quietly (sv_Issue sv actor tpl) (fun _ => True);
  c_replay f n : sv_Replay sv = Some f -> quietly (f n) (fun _ => True);
  c_cas m : sv_CABundleSource sv = Some m -> quietly m (fun _ => True);
  c_config_keys m : sv_ConfigKeySource sv = Some m -> quietly m (fun _ => True);
  c_key_version m : sv_ConfigKeyVersionSource sv = Some m -> quietly m (fun _ => True);
  c_lighthouses m : sv_LighthouseSource sv = Some m -> quietly m (fun _ => True);
  c_blocklist m : sv_BlocklistSource sv = Some m -> quietly m (fun _ => True);
  c_nebula f os arch : sv_NebulaReleaseFor sv = Some f -> quietly (f os arch) (fun _ => True);
  c_pilot f os arch : sv_PilotReleaseFor sv = Some f -> quietly (f os arch) (fun _ => True);
}.

Section quiet.
Context {X : Type}.
Abbreviation EM := (M (EStore X) eerr).

Lemma quietly_mono {A} (m : EM A) (P Q : result eerr A -> Prop) : quietly m P -> (forall r, P r -> Q r) -> quietly m Q.
Proof. intros H HPQ T R s. eapply wp_mono; [apply H|]. auto. Qed.

Lemma quietly_ret {A} (a : A) (Q : result eerr A -> Prop) : Q (Ok a) -> quietly (mret a : EM A) Q.
Proof. intros H T R s. by apply wp_ret. Qed.

Lemma quietly_throw {A} e (Q : result eerr A -> Prop) : Q (Err e) -> quietly (throw e : EM A) Q.
Proof. intros H T R s. by apply wp_throw. Qed.

Lemma quietly_now (Q : result eerr Z -> Prop) : (forall t, Q (Ok t)) -> quietly (now : EM Z) Q.
Proof. intros H T R s. apply wp_now. auto. Qed.

Lemma quietly_bind {A B} (m : EM A) (k : A -> EM B) P (Q : result eerr B -> Prop) :
  quietly m P -> (forall e, P (Err e) -> Q (Err e)) -> (forall a, P (Ok a) -> quietly (k a) Q) -> quietly (m ≫= k) Q.
Proof.
  intros Hm He Hk T R s. apply wp_bind. eapply wp_mono; [apply Hm|]. intros [a|e] s' _ HP; [by apply Hk|by apply He].
Qed.

Lemma quietly_attempt {A} (m : EM A) (Q : result eerr (result eerr A) -> Prop) : quietly m (fun r => Q (Ok r)) -> quietly (attempt m) Q.
Proof. intros Hm T R s. apply wp_attempt, Hm. Qed.

Lemma quietly_ignore (m : EM unit) (Q : result eerr unit -> Prop) : quietly m (fun _ => True) -> Q (Ok ()) -> quietly (ignore m) Q.
Proof. intros Hm HQ T R s. apply wp_ignore. eapply wp_mono; [apply Hm|]. auto. Qed.

Lemma quietly_query {A} (f : EStore X -> A) : quietly (query f : EM A) (fun _ => True).
Proof. intros T R s. by apply wp_query. Qed.

Lemma eaudit_quiet actor action target details :
  quietly (eaudit actor action target details : EM unit) (fun r => r = Ok ()).
Proof.
  intros T R s. unfold eaudit. apply wp_ignore, wp_exec. intros s1 _. split; [done|]. split; [|done].
  by exists (e_audit s1 ++ [(actor, action, target, details)]), (world s1).
Qed.

Lemma source_quiet {A} (src : option (EM A)) keep dflt (P : A -> Prop) :
  (forall m, src = Some m -> quietly m (fun _ => True)) -> P dflt -> (forall a, keep a = true -> P a) ->
  quietly (source_or src keep dflt) (fun r => match r with Ok a => P a | Err _ => False end).
Proof.
  intros Hm Hd Hk. unfold source_or. destruct src as [m|]; [|by apply quietly_ret].
  apply (quietly_bind _ _ (fun r => match r with Ok _ => True | Err _ => False end)); [|done|].
  - apply quietly_attempt. eapply quietly_mono; [by apply Hm|done].
  - intros [a|e] _; apply quietly_ret; [|done]. destruct (keep a) eqn:E; auto.
Qed.

Lemma source_any {A} (src : option (EM A)) keep dflt :
  (forall m, src = Some m -> quietly m (fun _ => True)) -> quietly (source_or src keep dflt) (fun r => is_ok r = true).
Proof. intros Hm. eapply quietly_mono; [by apply (source_quiet _ _ _ (fun _ => True))|]. by intros []. Qed.

Lemma release_quiet (src : option (string -> string -> EM (string * string * string))) static os arch :
  (forall f, src = Some f -> quietly (f os arch) (fun _ => True)) ->
  quietly (release_of src static os arch) (fun r => is_ok r = true).
Proof.
  intros Hf. unfold release_of. destruct src as [f|]; [|by apply quietly_ret].
  apply (quietly_bind _ _ (fun r => is_ok r = true)); [|done|].
  - apply quietly_attempt. eapply quietly_mono; [by apply Hf|done].
  - intros [a|e] _; by apply quietly_ret.
Qed.
End quiet.

(** ** The handlers *)

Section handlers.
Context {X Pub : Type} (lib : Lib Pub) (sv : Services X) (cfg : Config Pub) (tid : nat) `{Hconf : !Confined sv}.
Abbreviation EM := (M (EStore X) eerr).
Implicit Types s : EStore X.
Context (T : Z -> Prop).
Abbreviation R := (others_e lib cfg tid).
Abbreviation G := (e_step lib cfg tid).

(** A call known by its quietness: the others' steps are all that happened. *)
Lemma wp_quiet {A} (m : EM A) Q0 (Q : result eerr A -> EStore X -> Prop) s :
  quietly m Q0 -> (forall r s', R s s' -> Q0 r -> Q r s') -> wpt T R G m Q s.
Proof.
  intros Hm HQ env n HR HT. specialize (Hm T R s env n HR HT). destruct (m env n s) as [[r n1] s1]. destruct Hm as [Hr Hq].
  assert (Ho : R s s1).
  { clear -Hr. induction Hr as [|x y z [Hxy|Hxy] _ IH]; [constructor| |].
    - etrans; [exact Hxy|done].
    - etrans; [by apply frame_others|done]. }
  split; [apply rtc_once; by left|by apply HQ].
Qed.

Lemma buildBundle_quiet name ip groups certPEM notAfter os arch :
  quietly (buildBundle lib sv cfg name ip groups certPEM notAfter os arch)
    (fun r => forall b, r = Ok b -> bundle_for lib certPEM (mkBDevice name ip groups) b).
Proof.
  unfold buildBundle. destruct (negb _); [apply quietly_ret; intros b [= <-]; by left|].
  eapply quietly_bind; [apply release_quiet; intros; by eapply c_nebula|done|]. intros neb _.
  eapply quietly_bind; [apply release_quiet; intros; by eapply c_pilot|done|]. intros pilot _.
  eapply (quietly_bind _ _ (fun r => is_ok r = true)); [by apply quietly_now|done|]. intros t _.
  eapply (quietly_bind _ _ (fun r => match r with Ok l => l <> [] | Err _ => False end)); [|done|].
  { apply source_quiet; [apply c_cas|done|]. intros l Hl ->. done. }
  intros cas Hcas.
  eapply quietly_bind; [apply source_any, c_config_keys|done|]. intros ks _.
  eapply quietly_bind; [apply source_any, c_key_version|done|]. intros kv _.
  eapply quietly_bind; [apply source_any, c_lighthouses|done|]. intros lhs _.
  eapply quietly_bind; [apply source_any, c_blocklist|done|]. intros bl _.
  destruct (lb_signBundle lib _) as [b|] eqn:E; [|by apply quietly_throw].
  apply quietly_ret. intros b' [= <-]. right. eauto.
Qed.

(** *** Statements *)

Lemma wp_later {A} (m : EM A) Q (Q' : result eerr A -> EStore X -> Prop) s :
  wpt T R G m Q s -> (forall r s', evolves lib cfg s s' -> Q r s' -> Q' r s') -> wpt T R G m Q' s.
Proof. intros Hm HQ. eapply wp_mono; [exact Hm|]. intros r s' Hs. by apply HQ, (either_evolve lib cfg tid). Qed.

Lemma writeResult_wp eid sh b st reason s : (st = StatusIssued -> recorded lib s eid b) ->
  wpt T R G (writeResult cfg eid sh b st reason) (fun r _ => r = Ok ()) s.
Proof.
  intros Hrec. unfold writeResult. destruct (negb _); [by wp_step|].
  assert (Hput : forall exp, wpt T R G (ignore (exec (fun s => ((), set_res (upsert_result eid st sh b reason exp (res s)) s)))) (fun r _ => r = Ok ()) s).
  { intros exp. wp_step. wp_step; [done|]. split; [|done]. eapply es_put; [|done]. intros Hst.
    eapply evolve_recorded; [by eapply others_evolve|auto]. }
  wp_step. destruct (decide _); [by wp_step|]. by wp_step; wp_step; wp_step.
Qed.

Lemma wp_quiet_any {A B} (m : EM A) (k : A -> EM B) (Q : result eerr B -> EStore X -> Prop) s :
  quietly m (fun _ => True) -> (forall e s', Q (Err e) s') -> (forall a s', R s s' -> wpt T R G (k a) Q s') -> wpt T R G (m ≫= k) Q s.
Proof. intros Hm He Hk. apply wp_bind. eapply wp_quiet; [exact Hm|]. intros [a|e] s' Hs _; auto. Qed.

(** The row a statement of [record] leaves. *)
Definition row_as s (eid status certPEM ip : string) (req : EnrollRequest) (pub : string) (jid : Z) (groups : list string) : Prop :=
  exists e, e ∈ enrolls s /\ en_EnrollmentID e = eid /\ en_Status e = status /\ en_CertPEM e = certPEM /\ en_OverlayIP e = ip /\
    en_DeviceName e = deviceName req (PubkeyHash lib pub) /\ en_Pubkey e = pub /\ en_JoinKeyID e = jid /\ en_Groups e = groups.

Lemma record_wp eid req pub jid groups subRange status certPEM ip fp ca ev eph s :
  (status = StatusIssued -> exists tpl, tpl ∈ submitted s /\ tp_Name tpl = deviceName req (PubkeyHash lib pub) /\ tp_PublicKey tpl = pub /\
     tp_Groups tpl = groups /\ exists a, tp_Networks tpl = [PrefixFrom a (p_bits (cf_Pool cfg))] /\ ip = AddrString a) -> (status <> StatusIssued -> ip = "") ->
  (status = StatusDenied -> jid = 0) -> (jid <> 0 -> (tid, jid) ∈ outstanding s) ->
  wpt T R G (record lib tid eid req pub jid groups subRange status certPEM ip fp ca ev eph)
    (fun r s' => r = Ok () -> row_as s' eid status certPEM ip req pub jid groups) s.
Proof.
  intros Hmint Hblank Hden Hout. unfold record. wp_step. wp_step. wp_step.
  assert (Hins : forall dec, wpt T R G (exec_err (insert_row tid (fun id => mkEnrollment id eid (deviceName req (PubkeyHash lib pub)) (PubkeyHash lib pub) pub
      (q_Method req) jid groups groups 0 0 subRange status certPEM ip fp ca t dec "" eph ev (q_OS req) (q_Arch req))))
    (fun r s' => r = Ok () -> row_as s' eid status certPEM ip req pub jid groups) s).
  { intros dec. wp_step; [done|]. destruct (insert_row _ _ _) as [[[] s1]|e] eqn:Ei; [|done]. split.
    - eapply es_insert; [| | |exact Ei]; cbn; [|exact Hden|].
      + split; [|exact Hblank]. intros Hst. destruct (Hmint Hst) as (tpl & Hin & ? & ? & ? & ?).
        eapply evolve_minted; [by eapply others_evolve|]. exists tpl. by split_and!.
      + intros Hj. eapply others_outstanding; [done|auto].
    - intros _. apply insert_row_ok in Ei as (Her & _). eexists. rewrite Her, elem_of_app, list_elem_of_singleton. split; [by right|done]. }
  destruct (decide _); by wp_step; apply Hins.
Qed.

Lemma deny_wp cand req pub action reason s (Q : result eerr unit -> EStore X -> Prop) :
  (forall s', Q (Ok ()) s') -> wpt T R G (deny lib cfg tid cand req pub action reason) Q s.
Proof.
  intros HQ. unfold deny. wp_step. wp_step. eapply wp_mono; [by apply record_wp|]. intros _ s1 _ _.
  wp_step. eapply wp_mono; [by apply writeResult_wp|]. intros _ s2 _ ->.
  eapply wp_quiet; [apply eaudit_quiet|]. intros ? ? _ ->. done.
Qed.

Lemma refuse_wp cand req pub action reason e s (Q : EResult -> EStore X -> Prop) :
  wpt T R G (refuse lib cfg tid cand req pub action reason e) (fun r s' => forall x, r = Ok x -> Q x s') s.
Proof. unfold refuse. wp_step. apply deny_wp. intros s'. by wp_step. Qed.

Lemma issue_wp actor name pub groups netblock method eph s :
  wpt T R G (issue sv cfg actor name pub groups netblock method eph)
    (fun r s' => forall i, r = Ok i ->
       (exists tpl, tpl ∈ submitted s' /\ tp_Name tpl = name /\ tp_PublicKey tpl = pub /\ tp_Groups tpl = groups /\
          exists a, tp_Networks tpl = [PrefixFrom a (p_bits (cf_Pool cfg))] /\ AddrString (i_ip i) = AddrString a) /\
       GrantsReservedGroup groups = false /\ forall k, (tid, k) ∈ outstanding s -> (tid, k) ∈ outstanding s') s.
Proof.
  unfold issue. destruct (GrantsReservedGroup groups) eqn:Eg.
  { wp_step. eapply wp_quiet; [apply eaudit_quiet|]. intros ? ? _ ->. by wp_step. }
  apply wp_quiet_any; [apply quietly_attempt; eapply quietly_mono; [apply c_allocate|done]|done|]. intros [ip|e] s1 Hs1.
  2: { wp_step. destruct e; try (by wp_step; wp_step). eapply wp_quiet; [apply eaudit_quiet|]. intros ? ? _ ->. by wp_step. }
  wp_step. wp_step. wp_step. set (tpl := mkTemplate _ _ _ _ _ _). wp_step. rename s0 into s2. split; [by apply es_submit with tpl|].
  apply wp_quiet_any; [apply quietly_attempt; eapply quietly_mono; [apply c_issue|done]|done|]. intros [leaf|e] s3 Hs3.
  - wp_step. intros i [= <-]. split_and!; [|done|].
    + exists tpl. split_and!; [|done..|by exists ip]. eapply (evolve_keep lib cfg (fun s => tpl ∈ submitted s)); [|by eapply others_evolve|].
      * intros t0 a b [l Hl]%submitted_step. rewrite Hl, elem_of_app. auto.
      * cbn. apply elem_of_app. right. by apply list_elem_of_singleton.
    + intros k Hk. eapply others_outstanding; [done|]. cbn. eapply others_outstanding; [done|]. by eapply others_outstanding.
  - apply wp_quiet_any; [apply quietly_ignore; [apply c_release|done]|done|]. intros _ s4 _. by wp_step.
Qed.

(** *** Answers *)

(** An answer other than pending is a row's status for good; an issued one is the row's
    address, and its certificate unless the row has been given a reserved group since. *)
Definition answered s (r : EResult) : Prop :=
  exists e, e ∈ enrolls s /\ en_EnrollmentID e = r_EnrollmentID r /\
    (r_Status r <> StatusPending -> en_Status e = r_Status r /\ (en_Status e <> StatusIssued -> en_OverlayIP e = "")) /\
    (r_Status r = StatusIssued -> r_OverlayIP r = en_OverlayIP e /\ (GrantsReservedGroup (en_Groups e) = false -> r_CertPEM r = en_CertPEM e)).

Lemma answered_self s e : e_inv lib cfg s -> e ∈ enrolls s -> answered s (result_of e).
Proof. intros Hi Hin. exists e. split_and!; try done. intros _. split; [done|]. by apply (ei_blank _ _ _ Hi). Qed.

Lemma answered_later s s' r : evolves lib cfg s s' -> answered s r -> answered s' r.
Proof.
  intros Hs (e & Hin & He & Hst & Hr). destruct (decide (r_Status r = StatusPending)) as [Hp|Hp].
  - destruct (evolve_row _ _ _ _ e Hs Hin) as (e' & Hin' & _ & Heq & _). exists e'.
    split_and!; [done|congruence|done|]. intros Hi. by rewrite Hp in Hi.
  - destruct (Hst Hp) as [Hes Hbl]. destruct (evolve_decided _ _ _ _ e Hs) as (e' & Hin' & Ho); [congruence|done|].
    exists e'. split_and!; [done|destruct (o_row _ _ Ho) as (_ & -> & _); done| |].
    + intros _. destruct (decide (en_Status e = StatusIssued)) as [Hi|Hi]; [|by rewrite (o_blank _ _ Ho (Hbl Hi))].
      assert (en_Status e' = StatusIssued) as -> by (destruct (o_status _ _ Ho); congruence). split; [congruence|done].
    + intros Hi. destruct (Hr Hi) as [Hip Hc]. split; [by rewrite (o_ip _ _ Ho)|]. intros Hcl.
      destruct (o_cert _ _ Ho) as [-> |]; [|congruence]. apply Hc. destruct (GrantsReservedGroup (en_Groups e)) eqn:E; [|done].
      rewrite (o_keep _ _ Ho) in Hcl by done. discriminate Hcl.
Qed.

Lemma answered_row s eid status certPEM ip req pub jid groups :
  status = StatusIssued -> row_as s eid status certPEM ip req pub jid groups -> answered s (mkEResult eid status ip certPEM).
Proof. intros -> (e & Hin & <- & Hst & <- & <- & _). exists e. by split_and!. Qed.

Lemma finish_pending_wp cand req pub jid groups netblock ev eph details s : (jid <> 0 -> (tid, jid) ∈ outstanding s) ->
  wpt T R G (finish_pending lib cfg tid cand req pub jid groups netblock ev eph details)
    (fun r s' => forall x, r = Ok x -> answered s' x /\ r_EnrollmentID x = c_EnrollmentID cand) s.
Proof.
  intros Hj. unfold finish_pending. wp_step. eapply wp_mono; [by apply record_wp|]. intros [[]|e] s1 _ Hr; [|done].
  specialize (Hr eq_refl). wp_step. eapply wp_later; [by apply writeResult_wp|]. intros _ s2 Hs2 ->.
  wp_step. eapply wp_quiet; [apply eaudit_quiet|]. intros _ s3 Hs3 ->. wp_step. intros x [= <-]. split; [|done].
  eapply answered_later; [by eapply others_evolve|]. eapply answered_later; [done|].
  destruct Hr as (e & Hin & He & _). by exists e.
Qed.

Lemma finish_issued_wp cand req pub jid groups netblock actor method ev eph (after : EM unit) s :
  PubkeyHash lib pub = c_PubkeyHash cand -> quietly after (fun r => r = Ok ()) -> (jid <> 0 -> (tid, jid) ∈ outstanding s) ->
  wpt T R G (finish_issued lib sv cfg tid cand req pub jid groups netblock actor method ev eph after)
    (fun r s' => forall x, r = Ok x -> answered s' x /\ r_EnrollmentID x = c_EnrollmentID cand) s.
Proof.
  intros Hpk Hafter Hj. unfold finish_issued. rewrite <- Hpk. wp_step. eapply wp_mono; [apply issue_wp|]. intros [i|e] s1 _ Hi; [|done].
  destruct (Hi i eq_refl) as ((tpl & Htpl & Hname & Hpub & Hgr & Hip) & _ & Hout). clear Hi.
  wp_step. eapply wp_quiet; [apply buildBundle_quiet|]. intros [b|e] s2 Hs2 Hb; [|done]. specialize (Hb b eq_refl).
  wp_step. eapply wp_mono; [apply record_wp; [|done|done|]|].
  - intros _. exists tpl. split_and!; [|done..]. eapply (evolve_keep lib cfg (fun s => tpl ∈ submitted s)); [|by eapply others_evolve|done].
    intros t0 x y [l Hl]%submitted_step. rewrite Hl, elem_of_app. auto.
  - intros Hne. eapply others_outstanding; [done|auto].
  - intros [[]|e] s3 _ Hr; [|done]. specialize (Hr eq_refl). wp_step. eapply wp_later; [apply writeResult_wp|].
    + intros _. destruct Hr as (e & Hin & He & Hst & Hpem & Hov & Hnm & _ & _ & Hg). exists e. split_and!; [done|done|done|].
      exists (i_pem i), groups. rewrite Hpem, Hnm, Hov, Hg. by split_and!.
    + intros _ s4 Hs4 ->. wp_step. eapply wp_quiet; [exact Hafter|]. intros _ s5 Hs5 ->. wp_step. intros x [= <-]. split; [|done].
      eapply answered_later; [by eapply others_evolve|]. eapply answered_later; [done|]. by eapply answered_row; [|done].
Qed.

(** *** The requests *)

(** What [verify] established of a request. *)
Definition vouched (cand : Candidate) (req : EnrollRequest) (pub : string) : Prop :=
  PubkeyHash lib pub = c_PubkeyHash cand /\ len pub = 65 /\ q_Type req = "enroll" /\
  (exists env key hdr payload, lb_unmarshalEnv lib (c_RequestJWS cand) = Some env /\ DecodeString (f_Payload env) ≫= lb_unmarshalRequest lib = Some req /\
     DecodeString (q_PublicKey req) = Some pub /\ lb_parsePoint lib pub = Some key /\
     VerifyOne (lb_sha256 lib) (lb_ecdsaVerify lib) (lb_unmarshalHeader lib) env key = Ok (hdr, payload) /\
     h_Typ hdr = TypEnrollRequest /\ h_Kid hdr = PubkeyHash lib pub) /\
  exists t, Nonce.Verify (lb_hmac lib) (cf_Nonces cfg) (t / second) (q_Nonce req) (PubkeyHash lib pub) = Ok ().

Lemma verify_quiet cand : quietly (verify lib sv cfg cand) (fun r => forall req pub, r = Ok (req, pub) -> vouched cand req pub).
Proof.
  unfold verify. destruct (lb_unmarshalEnv _ _) as [env|] eqn:Eenv; [|by apply quietly_throw].
  destruct (decide _); [by apply quietly_throw|]. destruct (DecodeString _ ≫= _) as [req|] eqn:Ereq; [|by apply quietly_throw].
  match goal with |- quietly (if ?c then _ else _) _ => destruct c eqn:Et end; [by apply quietly_throw|]. destruct (DecodeString (q_PublicKey req)) as [pub|] eqn:Epub; [|by apply quietly_throw].
  destruct (negb (_ =? 65)) eqn:Elen; [by apply quietly_throw|]. destruct (lb_parsePoint _ _) as [key|] eqn:Ekey; [|by apply quietly_throw].
  destruct (VerifyOne _ _ _ _ _) as [[hdr payload]|] eqn:Ev; [|by apply quietly_throw].
  match goal with |- quietly (if ?c then _ else _) _ => destruct c eqn:Eh end; [by apply quietly_throw|].
  eapply (quietly_bind _ _ (fun r => is_ok r = true)); [by apply quietly_now|done|]. intros t _.
  destruct (Nonce.Verify _ _ _ _ _) as [[]|] eqn:En; [|by apply quietly_throw].
  assert (Hv : vouched cand req pub) by (bool_split; split_and!; [done|done|done|by exists env, key, hdr, payload|by exists t]).
  destruct (sv_Replay sv) as [observe|] eqn:Eo; [|by apply quietly_ret; intros ? ? [= <- <-]].
  eapply quietly_bind; [by eapply c_replay|done|]. intros [] _; [|by apply quietly_throw].
  by apply quietly_ret; intros ? ? [= <- <-].
Qed.

Abbreviation answers cand := (fun r s' => forall x, r = Ok x -> answered s' x /\ r_EnrollmentID x = c_EnrollmentID cand).

Lemma consume_wp jk s : e_inv lib cfg s -> backs jk (keys s) ->
  wpt T R G (joinkey_Consume tid jk) (fun r s' => r = Ok () -> (tid, jk_ID jk) ∈ outstanding s') s.
Proof.
  intros Hi Hb. unfold joinkey_Consume. wp_step. wp_step; [done|]. apply others_evolve in HR as He.
  pose proof (consume_use_step jk (keys s0) (ei_keys _ _ _ (evolve_inv _ _ _ _ He Hi)) (evolve_backs _ _ _ _ _ He Hb)) as Hc.
  unfold take_key_use. destruct (consume_use jk (keys s0)) as [n k]. destruct Hc as [Hs Hg].
  destruct (n =? 0) eqn:En; bool_split.
  - split; [by eapply es_keys|]. by wp_step.
  - split; [eapply es_use; [done|by apply Hg|done]|]. wp_step. intros _. cbn. apply elem_of_app. right. by apply list_elem_of_singleton.
Qed.

Lemma process_token_wp cand req pub s : e_inv lib cfg s -> PubkeyHash lib pub = c_PubkeyHash cand ->
  wpt T R G (process_token lib sv cfg tid cand req pub) (answers cand) s.
Proof.
  intros Hi Hpk. unfold process_token. wp_step. wp_step.
  assert (Hjoin : forall jk s1, e_inv lib cfg s1 -> backs jk (keys s1) -> wpt T R G
     (r ← attempt (joinkey_Consume tid jk);
      match r with
      | Err e => refuse lib cfg tid cand req pub "enroll-denied" (lb_text lib (F_JoinKey e)) e
      | Ok _ =>
          if negb (jk_AutoIssue jk) then
            finish_pending lib cfg tid cand req pub (jk_ID jk) (jk_Groups jk) (jk_SubRange jk) no_evidence (jk_Ephemeral jk)
              [("join_key", jk_Name jk); ("reason", "manual approval required")]
          else
            finish_issued lib sv cfg tid cand req pub (jk_ID jk) (jk_Groups jk) (jk_SubRange jk) "enroll-auto" "token" no_evidence (jk_Ephemeral jk) (mret ())
      end) (answers cand) s1).
  { intros jk s1 Hi1 Hb. wp_step. wp_step. eapply wp_mono; [by apply consume_wp|]. intros [[]|e] s2 _ Ho; [|apply refuse_wp].
    specialize (Ho eq_refl). destruct (negb _); [by apply finish_pending_wp|]. apply finish_issued_wp; [done|by apply quietly_ret|done]. }
  wp_step. wp_step. unfold joinkey_Lookup. wp_step. wp_step; [apply refuse_wp|]. apply others_evolve in HR as He.
  pose proof (evolve_inv _ _ _ _ He Hi) as Hi0. destruct (check_key _ _) as [jk|e] eqn:Ec; [|wp_step; apply refuse_wp].
  apply check_key_ok in Ec as (Hin & _). wp_step. assert (Hb : backs jk (keys s0)) by (apply backs_row; [apply Hi0|done]).
  wp_step. destruct (0 <? _); [|wp_step; by apply Hjoin].
  unfold recentEnrollments. wp_step. wp_step. wp_step. wp_step; [done|]. wp_step. apply others_evolve in HR0 as He0.
  destruct (_ <=? _); [apply refuse_wp|]. apply Hjoin; [by eapply evolve_inv|by eapply evolve_backs].
Qed.

Lemma processAttested_wp cand req pub s : PubkeyHash lib pub = c_PubkeyHash cand ->
  wpt T R G (processAttested lib sv cfg tid cand req pub) (answers cand) s.
Proof.
  intros Hpk. unfold processAttested. destruct (cf_AWSSigV4Enabled cfg); [|apply refuse_wp].
  destruct (cf_CloudTrust cfg) as [trust|]; [|apply refuse_wp]. destruct (lb_presigned _ _) as [pres|]; [|apply refuse_wp].
  destruct (lb_ranges lib pres) as [r1 r2]. destruct (Trust.Verify _ _ _ _ _ _ _ _ _) as [id|e]; [|apply refuse_wp].
  destruct (CloudTrust.MatchAWS trust id) as [[[groups netblock] auto]|]; [|apply refuse_wp]. wp_step. wp_step.
  destruct (negb auto); [by apply finish_pending_wp|]. apply finish_issued_wp; [done|apply eaudit_quiet|done].
Qed.

Lemma processSSO_wp cand req pub s : PubkeyHash lib pub = c_PubkeyHash cand ->
  wpt T R G (processSSO lib sv cfg tid cand req pub) (answers cand) s.
Proof.
  intros Hpk. unfold processSSO. destruct (cf_AssertionVerifyKey cfg) as [key|]; [|apply refuse_wp].
  destruct (cf_UserTrustActive cfg) as [[active|]|]; [|apply refuse_wp..]. destruct (lb_assertion _ _) as [[|c token]|]; [apply refuse_wp| |apply refuse_wp].
  wp_step. wp_step. destruct (Jws.Verify _ _ _ _ _ _ _) as [a|e]; [|apply refuse_wp].
  destruct (negb _); [apply refuse_wp|]. destruct (negb _); [apply refuse_wp|]. wp_step. wp_step.
  destruct (Nonce.Verify _ _ _ _ _); [|apply refuse_wp]. destruct (UserTrust.Match _ _ _) as [[[groups netblock] auto]|]; [|apply refuse_wp].
  wp_step. wp_step. destruct (negb _); [by apply finish_pending_wp|]. apply finish_issued_wp; [done|apply eaudit_quiet|done].
Qed.

Lemma process_rest cand s : e_inv lib cfg s ->
  wpt T R G (v ← verify lib sv cfg cand;
    let '(req, pubBytes) := v in
    if decide (q_Method req = MethodAWSSigV4) then processAttested lib sv cfg tid cand req pubBytes
    else if decide (q_Method req = MethodOIDC) then processSSO lib sv cfg tid cand req pubBytes
    else if decide (q_Method req <> MethodToken) then throw E_Method
    else process_token lib sv cfg tid cand req pubBytes) (answers cand) s.
Proof.
  intros Hi. wp_step. eapply wp_quiet; [apply verify_quiet|]. intros [[req pub]|e] s1 Hs Hv; [|done].
  destruct (Hv req pub eq_refl) as (Hpk & _). destruct (decide _); [by apply processAttested_wp|].
  destruct (decide _); [by apply processSSO_wp|]. destruct (decide _); [by wp_step|].
  apply process_token_wp; [|done]. eapply evolve_inv; [by eapply others_evolve|done].
Qed.

Lemma Process_wp cand s : e_inv lib cfg s -> wpt T R G (Process lib sv cfg tid cand) (answers cand) s.
Proof.
  intros Hi. unfold Process, existing. wp_step. wp_step. wp_step. wp_step; wp_step.
  - apply process_rest. eapply evolve_inv; [by eapply others_evolve|done].
  - destruct (find_first _ _) as [e|] eqn:Ef.
    + apply find_first_Some in Ef as [Hin He]. unfold has_eid in He. bool_split. wp_step. intros x [= <-]. split; [|done].
      apply answered_self; [|done]. eapply evolve_inv; [by eapply others_evolve|done].
    + apply process_rest. eapply evolve_inv; [by eapply others_evolve|done].
Qed.

(** Rows are told apart by their enrollment id. *)
Lemma row_unique s a b : e_inv lib cfg s -> a ∈ enrolls s -> b ∈ enrolls s -> en_EnrollmentID a = en_EnrollmentID b -> a = b.
Proof. intros Hi. apply (keyed_unique en_EnrollmentID), (ei_eids _ _ _ Hi). Qed.

(** The pending row of an id is the host that was read. *)
Lemma pending_is_host s s' e eid : e_inv lib cfg s -> evolves lib cfg s s' -> e ∈ enrolls s -> en_EnrollmentID e = eid ->
  forall x, x ∈ enrolls s' -> is_pending eid x = true -> same_host e x.
Proof.
  intros Hi Hs Hin He x Hx Hp. unfold is_pending, has_eid in Hp. bool_split.
  destruct (evolve_host _ _ _ _ e Hi Hs) as (y & Hy & Hr & Hh); [by exists e|].
  assert (x = y) as ->; [|by apply Hh]. eapply row_unique; [by eapply evolve_inv|done..|]. destruct Hr as (_ & Heid & _). congruence.
Qed.

Lemma approveNetblock_quiet e : quietly (approveNetblock cfg e : EM string) (fun _ => True).
Proof.
  unfold approveNetblock. destruct (negb _); [|by apply quietly_ret].
  apply (quietly_bind _ _ (fun _ => True)); [by apply quietly_attempt, quietly_query|done|]. intros; by apply quietly_ret.
Qed.

Lemma approveEphemeral_quiet e : quietly (approveEphemeral e : EM bool) (fun _ => True).
Proof.
  unfold approveEphemeral. destruct (negb _); [|by apply quietly_ret].
  apply (quietly_bind _ _ (fun _ => True)); [by apply quietly_attempt, quietly_query|done|]. intros; by apply quietly_ret.
Qed.

(** One row of an id was pending: exactly it is decided, and it stays decided. *)
Lemma claim_row eid g s n : e_inv lib cfg s -> fst (claim eid g s) = n -> n <> 0 ->
  exists e, e ∈ enrolls s /\ is_pending eid e = true /\ g e ∈ enrolls (claim eid g s).2.
Proof.
  intros Hi <- Hn. cbn in *. destruct (List.filter _ _) as [|e l] eqn:Ef; [done|].
  assert (Hin : In e (List.filter (is_pending eid) (enrolls s))) by (rewrite Ef; by left).
  apply filter_In in Hin as [Hin He]. apply list_elem_of_In in Hin. exists e. split_and!; [done|done|].
  change (map ?f ?l) with (f <$> l). apply list_elem_of_fmap. exists e. by rewrite He.
Qed.

Lemma enroll_Deny_wp eid approver reason s : e_inv lib cfg s ->
  wpt T R G (Deny cfg eid approver reason) (fun r s' => forall x, r = Ok x ->
    r_EnrollmentID x = eid /\ answered s' x /\
    exists e, e ∈ enrolls s' /\ en_EnrollmentID e = eid /\ en_Status e = StatusDenied /\ en_Approver e = approver) s.
Proof.
  intros Hi. unfold Deny, row_of. wp_step. wp_step; [done|]. destruct (find_first _ _) as [e|] eqn:Ef; [|by wp_step].
  apply find_first_Some in Ef as [Hin He]. unfold has_eid in He. bool_split. destruct (decide _) as [|_]; [by wp_step|].
  wp_step. wp_step. wp_step. wp_step; [done|]. rename s0 into s1, s1 into s2. apply others_evolve in HR as Hs1, HR0 as Hs2.
  assert (Hi2 : e_inv lib cfg s2) by (apply (evolve_inv _ _ s); [etrans; [exact Hs1|exact Hs2]|done]).
  destruct (claim _ _ _) as [n s3] eqn:Ec. split.
  - eapply es_claim; [|by rewrite Ec]. intros x Hx Hp. split; [by split_and!|]. split; [intros Hst; discriminate Hst|]. intros _.
    unfold is_pending in Hp. bool_split. apply (ei_blank _ _ _ Hi2 x Hx). by rewrite H0.
  - destruct (n =? 0) eqn:En; bool_split; [by wp_step|].
    destruct (claim_row eid (set_denied t approver) s2 n Hi2) as (x & Hx & Hp & Hgx); [by rewrite Ec|done|]. rewrite Ec in Hgx.
    unfold is_pending, has_eid in Hp. bool_split.
    wp_step. eapply wp_later; [by apply writeResult_wp|]. intros _ s4 Hs4 ->. wp_step. eapply wp_quiet; [apply eaudit_quiet|]. intros _ s5 Hs5 ->.
    assert (Hbl : en_OverlayIP x = "") by (apply (ei_blank _ _ _ Hi2 x Hx); by rewrite H0).
    assert (Hrow : set_denied t approver x ∈ enrolls s5).
    { destruct (evolve_decided lib cfg s3 s5 (set_denied t approver x)) as (y & Hy & Ho); [|done|done|].
      - etrans; [exact Hs4|by eapply others_evolve].
      - by rewrite (o_blank _ _ Ho Hbl) in Hy. }
    wp_step. intros y [= <-]. split_and!; [done| |by exists (set_denied t approver x)].
    exists (set_denied t approver x). split_and!; [done|done|by split|]. intros Hst; discriminate Hst.
Qed.

Lemma enroll_Approve_wp eid approver s : e_inv lib cfg s ->
  wpt T R G (Approve lib sv cfg eid approver) (fun r s' => forall x, r = Ok x -> r_EnrollmentID x = eid /\ r_Status x = StatusIssued /\ answered s' x) s.
Proof.
  intros Hi. unfold Approve, row_of. wp_step. wp_step; [done|]. destruct (find_first _ _) as [e|] eqn:Ef; [|by wp_step].
  apply find_first_Some in Ef as [Hin He]. unfold has_eid in He. bool_split. destruct (decide _) as [|_]; [by wp_step|].
  rename s0 into s1. apply others_evolve in HR as Hs1. apply wp_quiet_any; [|done|].
  { destruct (decide _); [apply approveNetblock_quiet|by apply quietly_ret]. }
  intros netblock s2 Hs2%others_evolve. apply wp_quiet_any; [apply approveEphemeral_quiet|done|]. intros eph s3 Hs3%others_evolve.
  wp_step. eapply wp_later; [apply issue_wp|]. intros [i|err] s4 Hs4 Hiss; [|done].
  destruct (Hiss i eq_refl) as (Htpl & _ & _). clear Hiss. wp_step. wp_step. wp_step. wp_step.
  assert (Hrel : forall e' s', wpt T R G (_ ← ignore (sv_Release sv (i_ip i)); throw e' : EM EResult)
     (fun r s' => forall x, r = Ok x -> r_EnrollmentID x = eid /\ r_Status x = StatusIssued /\ answered s' x) s').
  { intros e' s'. apply wp_quiet_any; [apply quietly_ignore; [apply c_release|done]|done|]. intros _ ? _. by wp_step. }
  wp_step; [apply Hrel|]. rename s0 into s5. apply others_evolve in HR0 as Hs5.
  assert (Hs15 : evolves lib cfg s1 s5) by (by etrans; [exact Hs2|etrans; [exact Hs3|etrans; [exact Hs4|]]]).
  assert (Hi5 : e_inv lib cfg s5) by (apply (evolve_inv _ _ s); [etrans; [exact Hs1|exact Hs15]|done]).
  pose proof (pending_is_host _ _ e eid (evolve_inv _ _ _ _ Hs1 Hi) Hs15 Hin He) as Hhost.
  assert (Hmint : forall x, x ∈ enrolls s5 -> is_pending eid x = true -> minted cfg s5 (set_issued i t approver eph x)).
  { intros x Hx Hp. destruct (Hhost x Hx Hp) as ((_ & _ & Hn & Hpk & _) & Hg). destruct Htpl as (tpl & Htin & ? & ? & ? & Hip).
    exists tpl. split; [|split_and!; cbn; [congruence|congruence|congruence|done]].
    eapply (evolve_keep lib cfg (fun s => tpl ∈ submitted s)); [|exact Hs5|done]. intros t0 ? ? [l Hl]%submitted_step. rewrite Hl, elem_of_app. auto. }
  destruct (claim _ _ _) as [n s6] eqn:Ec. split.
  { eapply es_claim; [|by rewrite Ec]. intros x Hx Hp. split; [by split_and!|]. split; [intros _; by apply Hmint|done]. }
  destruct (n =? 0) eqn:En; bool_split; [apply Hrel|].
  destruct (claim_row eid (set_issued i t approver eph) s5 n Hi5) as (x & Hx & Hp & Hgx); [by rewrite Ec|done|]. rewrite Ec in Hgx. cbn in Hgx.
  destruct (Hhost x Hx Hp) as ((_ & Heid & Hn & _) & Hg).
  wp_step. eapply wp_quiet; [apply buildBundle_quiet|]. intros [b|err] s7 Hs7%others_evolve Hb; [|done]. specialize (Hb b eq_refl).
  wp_step. eapply wp_later; [apply writeResult_wp|].
  { intros _. eapply evolve_recorded; [exact Hs7|]. exists (set_issued i t approver eph x). split_and!; [done|cbn; congruence|done|].
    exists (i_pem i), (en_Groups e). cbn. rewrite Hn. by split_and!. }
  intros _ s8 Hs8 ->. wp_step. eapply wp_quiet; [apply eaudit_quiet|]. intros _ s9 Hs9%others_evolve ->. wp_step. intros y [= <-].
  split_and!; [done|done|]. apply (answered_later s6); [etrans; [exact Hs7|etrans; [exact Hs8|exact Hs9]]|].
  exists (set_issued i t approver eph x). split_and!; [done|cbn; congruence|done|]. by split.
Qed.

(** ** Theorems *)

(** The entry points of a consumer and of the admin queue. *)
Inductive handler : EM EResult -> Prop :=
| H_Process cand : handler (Process lib sv cfg tid cand)
| H_Approve eid approver : handler (Approve lib sv cfg eid approver)
| H_Deny eid approver reason : handler (Deny cfg eid approver reason).

Lemma handler_wp m s : handler m -> e_inv lib cfg s -> wpt T R G m (fun r s' => evolves lib cfg s s' /\ e_inv lib cfg s' /\ forall x, r = Ok x -> answered s' x) s.
Proof.
  intros Hm Hi. assert (H : wpt T R G m (fun r s' => forall x, r = Ok x -> answered s' x) s).
  { destruct Hm as [cand|eid approver|eid approver reason].
    - eapply wp_mono; [by apply Process_wp|]. intros r s' _ H x Hx. by apply H.
    - eapply wp_mono; [by apply enroll_Approve_wp|]. intros r s' _ H x Hx. by apply H.
    - eapply wp_mono; [by apply enroll_Deny_wp|]. intros r s' _ H x Hx. by apply H. }
  eapply wp_later; [exact H|]. intros r s' Hs Hr. split_and!; [done|by eapply evolve_inv|done].
Qed.

(** The enrollment handlers refine the step relation. With confined services, and
    whatever faults occur and whatever other consumers, approvers, pollers, genesis
    commands, renewals and editors of keys do between the calls, a run of [Process], [Approve] or [Deny] consists of allowed steps only and
    keeps the invariant; an answer it returns is backed by a row under the candidate's id:
    a decided answer has the status that row has from then on, and an issued one the
    address recorded there and, unless the row was given a reserved group since, its
    certificate. *)
Theorem enrollment_handlers_refine s : e_inv lib cfg s ->
  (forall cand, wpt T R G (Process lib sv cfg tid cand)
     (fun r s' => e_inv lib cfg s' /\ forall x, r = Ok x -> answered s' x /\ r_EnrollmentID x = c_EnrollmentID cand) s) /\
  (forall eid approver, wpt T R G (Approve lib sv cfg eid approver)
     (fun r s' => e_inv lib cfg s' /\ forall x, r = Ok x -> answered s' x /\ r_EnrollmentID x = eid /\ r_Status x = StatusIssued) s) /\
  (forall eid approver reason, wpt T R G (Deny cfg eid approver reason)
     (fun r s' => e_inv lib cfg s' /\ forall x, r = Ok x -> answered s' x /\ r_EnrollmentID x = eid) s).
Proof.
  intros Hi. split_and!; intros; (eapply wp_later; [first [by apply Process_wp|by apply enroll_Approve_wp|by apply enroll_Deny_wp]|]);
    intros r s' Hs Hr; (split; [by eapply evolve_inv|]); naive_solver.
Qed.

(** C2: no enrollment route signs a reserved group. From any state of a bootstrapped
    database, under faults and whatever other consumers, approvers, pollers, genesis commands,
    heartbeats, renewals and regroups do in between, after any handler: every template that a
    consumer or an approval handed to the signer is free of reserved groups, and every issued row
    that the genesis commands did not record was signed from such a template, with the row's
    name, key and one address; until a renewal signs other groups for it, the row's groups are
    the template's, so it is in no reserved group. *)
Theorem reserved_groups_never_signed m s : handler m -> e_inv lib cfg s ->
  wpt T R G m (fun _ s' =>
    (forall tpl, tpl ∈ submitted s' -> GrantsReservedGroup (tp_Groups tpl) = false) /\
    forall e, e ∈ enrolls s' -> en_Method e <> MethodGenesis -> en_Status e = StatusIssued ->
      (exists tpl, tpl ∈ submitted s' /\ minted_from cfg tpl e) /\
      (en_IssuedGeneration e <= 0 -> GrantsReservedGroup (en_Groups e) = false)) s.
Proof.
  intros Hm Hi. eapply wp_mono; [by apply handler_wp|]. intros _ s' _ (_ & Hi' & _). split; [apply Hi'|].
  intros e He Hme Hst. destruct (proj1 (ei_minted _ _ _ Hi' e He Hme) Hst) as (tpl & Htpl & Hfrom). pose proof Hfrom as (_ & _ & Hg & _).
  split; [by exists tpl|]. intros Hgen. rewrite <- Hg by done. by apply (ei_clean _ _ _ Hi').
Qed.

(** C7: a join key admits at most as many hosts as its limits allowed. After any handler,
    under faults, concurrent consumers, redeliveries and edits of the keys, the enrollment rows
    recorded under a key (pending, issued or since denied), together with the uses taken by joins
    still in progress, do not exceed the largest limit the key has had, if it was never
    unlimited; so a key whose limit nobody edits admits no more than that limit. *)
Theorem join_key_bounds_hosts m s : handler m -> e_inv lib cfg s ->
  wpt T R G m (fun _ s' => forall k, k ∈ join_keys (keys s') -> jk_ID k <> 0 ->
    forall L, (forall m, (jk_ID k, m) ∈ limits (keys s') -> 0 < m <= L) ->
    hosts (jk_ID k) s' + pledged (jk_ID k) s' <= L) s.
Proof.
  intros Hm Hi. eapply wp_mono; [by apply handler_wp|]. intros _ s' _ (_ & Hi' & _) k Hk Hid L HL.
  pose proof (ei_bounded _ _ _ Hi' _ Hid). pose proof (uses_capped _ k L (ei_keys _ _ _ Hi') Hk HL). lia.
Qed.

(** C8: no bundle without a record, and decisions are final. From any state of a
    bootstrapped database, under faults and the interference of the whole control plane, after any
    handler: a result the host can fetch as issued belongs to an issued row, and a bundle in it
    carries that row's name and address, at least one CA, the row's groups until a renewal signs
    others, and its certificate unless the row has been given a reserved group (lighthouses are
    re-signed in place); every row that was decided when the handler started is still there with
    its status, and changes only as [outside] says; and once [Deny] has succeeded the row is
    denied by that approver and no issued result exists for it, however it raced with approvals. *)
Theorem delivered_bundles_are_recorded m s : handler m -> e_inv lib cfg s ->
  wpt T R G m (fun r s' =>
    (forall q, q ∈ results (res s') -> rs_Status q = StatusIssued -> recorded lib s' (rs_EnrollmentID q) (rs_Bundle q)) /\
    (forall e, e ∈ enrolls s -> en_Status e <> StatusPending ->
       exists e', e' ∈ enrolls s' /\ outside e e' /\ en_Status e' = en_Status e)) s /\
  forall eid approver reason, wpt T R G (Deny cfg eid approver reason) (fun r s' => forall x, r = Ok x ->
    (exists e, e ∈ enrolls s' /\ en_EnrollmentID e = eid /\ en_Status e = StatusDenied /\ en_Approver e = approver) /\
    forall q, q ∈ results (res s') -> rs_EnrollmentID q = eid -> rs_Status q <> StatusIssued) s.
Proof.
  intros Hm Hi. split.
  - eapply wp_mono; [by apply handler_wp|]. intros r s' _ (Hs & Hi' & _). split; [apply Hi'|]. intros e He Hst.
    destruct (evolve_decided _ _ _ _ e Hs Hst He) as (e' & He' & Ho). exists e'. split_and!; [done|done|].
    destruct (decide (en_Status e = StatusIssued)) as [Hx|Hx]; [destruct (o_status _ _ Ho); congruence|].
    by rewrite (o_blank _ _ Ho (ei_blank _ _ _ Hi e He Hx)).
  - intros eid approver reason. eapply wp_later; [by apply enroll_Deny_wp|]. intros r s' Hs Hr x Hx. destruct (Hr x Hx) as (_ & _ & e & He & Heid & Hst & Happ).
    split; [by exists e|]. intros q Hq Hqe Hqs. pose proof (evolve_inv _ _ _ _ Hs Hi) as Hi'.
    destruct (ei_delivered _ _ _ Hi' q Hq Hqs) as (e' & He' & Heid' & Hst' & _).
    rewrite (row_unique s' e e') in Hst by (done || congruence). rewrite Hst in Hst'. discriminate Hst'.
Qed.
End handlers.

(** ** The signer as the issuing service *)

Section signer_service.
Context {X : Type} (get_ident : X -> Ident).
Context (sha256 : string -> string) (signWith : option Cert -> TBS -> (string -> option string) -> option Cert) (marshalPEM : Cert -> option string).
Context (policy : IssuePolicy) (acquire : M (EStore X) serr (bool * bool)).

Definition signer_audit (e : SEntry) : M (EStore X) serr unit :=
  exec (fun s => ((), add_eaudit (e.1.1, e.1.2, e.2, []) s)).

(** [cfg.Signer.Issue] as [issue] sees it: the PEM, the fingerprint and the issuer. *)
Definition signer_issue (actor : string) (tpl : Template) : M (EStore X) eerr Leaf :=
  map_err (fun _ => E_Sign)
    (c ← Issue sha256 signWith marshalPEM (fun s => get_ident (world s)) policy acquire signer_audit (mret ()) actor tpl;
     mret (mkLeaf c.2 (ct_Fingerprint c.1) (ct_Issuer c.1))).

(** The signer of internal/signer, over a breaker that keeps to its own tables, meets the
    law the consumer relies on. *)
Lemma signer_keeps_to_its_tables : (forall T R s, wpt T R frame_step acquire (fun _ _ => True) s) ->
  forall actor tpl, quietly (signer_issue actor tpl) (fun _ => True).
Proof.
  intros Hacq actor tpl T R s. unfold signer_issue. apply wp_map_err, wp_bind.
  assert (Reflexive (frame_step (X := X))) by (intros []; by eexists _, _).
  eapply wp_mono; [apply issue_frames; [apply _|done| |]|].
  - intros e T' R' s'. apply wp_exec. intros s1 _. split; [done|]. split; [|done]. by eexists _, _.
  - intros. by apply wp_ret.
  - intros [c|e] s' _ _; [by apply wp_ret|done].
Qed.
End signer_service.

(** ** A concrete control plane *)

(** The allocator's world is the list of addresses it has given out. *)
Definition demo_allocate (_ _ _ : string) : M (EStore (list Addr)) eerr Addr :=
  exec (fun s => let ip := Addr4 (10 * 2 ^ 24 + 1 + Z.of_nat (length (world s))) in (ip, set_world (world s ++ [ip]) s)).
Definition demo_release (ip : Addr) : M (EStore (list Addr)) eerr unit :=
  exec (fun s => ((), set_world (List.filter (fun a => negb (bool_decide (a = ip))) (world s)) s)).
Definition demo_sign (_ : string) (tpl : Template) : M (EStore (list Addr)) eerr Leaf :=
  mret (mkLeaf ("cert of " +:+ tp_Name tpl) "fp" "CA1").
Definition demo_services : Services (list Addr) :=
  mkServices demo_allocate demo_release demo_sign None None None None None None None None.

#[export] Instance demo_confined : Confined demo_services.
Proof.
  split; try (intros; discriminate).
  - intros n b m T R s. apply wp_exec. intros s1 _. split; [done|]. split; [|done]. by eexists _, _.
  - intros ip T R s. apply wp_exec. intros s1 _. split; [done|]. split; [|done]. by eexists _, _.
  - intros a tpl. by apply quietly_ret.
Qed.

Definition demo_pub : string := "0123456789012345678901234567890123456789012345678901234567890123A".
Definition demo_mac (key m : string) : string := "0123456789abcdef0123456789abcdef".
Definition demo_ring : Keyring := mkKeyring ["0123456789abcdef"] (300 * second) (60 * second).
Definition demo_pkh : string := EncodeToString (demo_sha1 demo_pub).
Definition demo_nonce : string := default "" (fst <$> Mint demo_mac demo_ring 1000 demo_pkh).
Definition demo_req : EnrollRequest := mkRequest "enroll" demo_nonce (EncodeToString demo_pub) "web1" MethodToken "cred" "linux" "amd64".
Definition demo_lib (sign : Bundle -> option string) : Lib Z :=
  mkLib demo_sha1 demo_mac (fun _ _ _ _ => true) (fun _ => Some (mkHeader Alg TypEnrollRequest 1 demo_pkh))
    (fun s => if decide (s = "jws") then Some (mkFlat (EncodeToString "h") (EncodeToString "req") (EncodeToString (be 32 1 +:+ be 32 1))) else None)
    (fun _ => Some demo_req) (fun _ => Some 7) (fun _ => demo_secret) (fun _ => None) (fun _ => None) (fun _ => None)
    (fun _ => None) (fun _ _ _ _ => Unreachable) (fun _ => None) (fun _ => ([], [])) (fun _ => "") sign (fun _ => Some 0) (fun _ => "refused").
Definition demo_cfg : Config Z :=
  mkECfg demo_ring (mkPrefix (Addr4 (10 * 2 ^ 24)) 16) (90 * 24 * hour) 0 0 true "CA" "" [] "neb1" 4242 ("", "", "") ("", "", "") None
    true 0 false "" None None None.

(** A key for one host, with and without automatic issue. *)
Definition auto_keys (auto : bool) : KStore :=
  (run 5 (Create demo_sha1 "abc" (mkParams "laptops" ["web"] "" 1 0 auto false 0) 5) (mkKStore [] 1 [] [])).2.
(** The database after genesis: the first lighthouse is recorded as issued. *)
Definition demo_lighthouse : Enrollment :=
  mkEnrollment 1 "genesis-fp0" "lh1" "pkh0" "pk0" MethodGenesis 0 [GroupLighthouse] [GroupLighthouse] 0 0 "" StatusIssued "cert of lh1"
    "10.0.255.1" "fp0" "CA1" 1 1 "" false no_evidence "" "".
Definition demo_estore (auto : bool) : EStore (list Addr) := mkEStore [demo_lighthouse] 2 (auto_keys auto) empty_queue [] [] [] [].
Definition demo_cand : Candidate := mkCandidate "enr-1" demo_pkh "jws" "h:s" 0.
Definition demo_ok : Lib Z := demo_lib (fun b => Some ("signed " +:+ b_Certificate b)).
Definition demo_at : Z := 1000 * second.

Definition demo_pending : EStore (list Addr) := (run demo_at (Process demo_ok demo_services demo_cfg 0 demo_cand) (demo_estore false)).2.

Lemma demo_estore_inv auto : e_inv demo_ok demo_cfg (demo_estore auto).
Proof.
  split; cbn.
  - unfold auto_keys, Create. eapply (jk_inv_step (mkKStore [] 1 [] [])); [|apply jk_inv_empty].
    eapply js_new; [| |reflexivity| | |apply set_keys_logs]; reflexivity.
  - apply NoDup_singleton.
  - intros tpl Htpl. by apply elem_of_nil in Htpl.
  - by intros e ->%list_elem_of_singleton Hme.
  - by intros e ->%list_elem_of_singleton Hst.
  - intros r Hr. by apply elem_of_nil in Hr.
  - intros id Hid. unfold hosts, pledged, uses. cbn. destruct id; [done|cbn; lia..].
Qed.

Lemma demo_run_inv m s : handler demo_ok demo_services demo_cfg 0 m -> e_inv demo_ok demo_cfg s -> e_inv demo_ok demo_cfg (run demo_at m s).2.
Proof.
  intros Hm Hi. pose proof (handler_wp demo_ok demo_services demo_cfg 0 (fun _ => True) m s Hm Hi (quiet demo_at) 0%nat (fun _ _ => rtc_refl _ _) (fun _ => I)) as H.
  unfold run. destruct (m (quiet demo_at) 0%nat s) as [[r n] s']. by destruct H as (_ & _ & H & _).
Qed.

Lemma demo_pending_inv : e_inv demo_ok demo_cfg demo_pending.
Proof. apply demo_run_inv; [constructor|apply demo_estore_inv]. Qed.

Abbreviation demo_approve := (Approve demo_ok demo_services demo_cfg "enr-1" "alice").

Lemma enrollment_handlers_refine_witness :
  (run demo_at (Process demo_ok demo_services demo_cfg 0 demo_cand) (demo_estore true)).1 = Ok (mkEResult "enr-1" StatusIssued "10.0.0.1" "cert of web1") /\
  wpt (fun _ => True) (others_e demo_ok demo_cfg 0) (e_step demo_ok demo_cfg 0) (Process demo_ok demo_services demo_cfg 0 demo_cand)
    (fun r s' => e_inv demo_ok demo_cfg s' /\ forall x, r = Ok x -> answered s' x /\ r_EnrollmentID x = "enr-1") (demo_estore true).
Proof.
  split; [vm_compute; reflexivity|].
  apply (proj1 (enrollment_handlers_refine demo_ok demo_services demo_cfg 0 (fun _ => True) (demo_estore true) (demo_estore_inv true)) demo_cand).
Defined.

Lemma reserved_groups_never_signed_witness :
  demo_lighthouse ∈ enrolls demo_pending /\ length (submitted (run demo_at demo_approve demo_pending).2) = 1%nat /\
  wpt (fun _ => True) (others_e demo_ok demo_cfg 0) (e_step demo_ok demo_cfg 0) demo_approve (fun _ s' =>
    (forall tpl, tpl ∈ submitted s' -> GrantsReservedGroup (tp_Groups tpl) = false) /\
    forall e, e ∈ enrolls s' -> en_Method e <> MethodGenesis -> en_Status e = StatusIssued ->
      (exists tpl, tpl ∈ submitted s' /\ minted_from demo_cfg tpl e) /\
      (en_IssuedGeneration e <= 0 -> GrantsReservedGroup (en_Groups e) = false)) demo_pending.
Proof.
  split_and!; [vm_compute; constructor|vm_compute; reflexivity|].
  apply (reserved_groups_never_signed demo_ok demo_services demo_cfg 0 (fun _ => True) demo_approve demo_pending (H_Approve _ _ _ _ _ _) demo_pending_inv).
Defined.

Lemma join_key_bounds_hosts_witness :
  hosts 1 demo_pending = 1 /\ limits (keys demo_pending) = [(1, 1); (1, 1)] /\
  wpt (fun _ => True) (others_e demo_ok demo_cfg 0) (e_step demo_ok demo_cfg 0) demo_approve (fun _ s' =>
    forall k, k ∈ join_keys (keys s') -> jk_ID k <> 0 -> forall L, (forall m, (jk_ID k, m) ∈ limits (keys s') -> 0 < m <= L) ->
    hosts (jk_ID k) s' + pledged (jk_ID k) s' <= L) demo_pending.
Proof.
  split_and!; [vm_compute; reflexivity..|].
  apply (join_key_bounds_hosts demo_ok demo_services demo_cfg 0 (fun _ => True) demo_approve demo_pending (H_Approve _ _ _ _ _ _) demo_pending_inv).
Defined.

Lemma delivered_bundles_are_recorded_witness :
  map rs_Status (results (res (run demo_at demo_approve demo_pending).2)) = [StatusIssued] /\
  map rs_Status (results (res (run demo_at (Deny demo_cfg "enr-1" "bob" "no") demo_pending).2)) = [StatusDenied] /\
  wpt (fun _ => True) (others_e demo_ok demo_cfg 0) (e_step demo_ok demo_cfg 0) demo_approve (fun r s' =>
    (forall q, q ∈ results (res s') -> rs_Status q = StatusIssued -> recorded demo_ok s' (rs_EnrollmentID q) (rs_Bundle q)) /\
    (forall e, e ∈ enrolls demo_pending -> en_Status e <> StatusPending ->
       exists e', e' ∈ enrolls s' /\ outside e e' /\ en_Status e' = en_Status e)) demo_pending.
Proof.
  split_and!; [vm_compute; reflexivity..|].
  apply (delivered_bundles_are_recorded demo_ok demo_services demo_cfg 0 (fun _ => True) demo_approve demo_pending (H_Approve _ _ _ _ _ _) demo_pending_inv).
Defined.

(** ** Two recoveries that do not recover *)

(** One database error, at the join-key lookup. *)
Definition lookup_fault : Env (EStore (list Addr)) := mkEnv (fun _ => demo_at) (fun n => Nat.eqb n 3) (fun _ s => s).

(** A lost connection during the join-key lookup denies the host for good. The error
    is not terminal, so the queue redelivers the candidate for another attempt; but the
    attempt has already recorded the host as denied, and the redelivery answers denied
    from that row although the key is valid and unused. *)
Theorem lookup_fault_is_a_denial :
  let '(r, _, s) := Process demo_ok demo_services demo_cfg 0 demo_cand lookup_fault 0%nat (demo_estore true) in
  r = Err E_Fault /\ terminal E_Fault = false /\
  (run demo_at (Process demo_ok demo_services demo_cfg 0 demo_cand) s).1 = Ok (mkEResult "enr-1" StatusDenied "" "").
Proof. vm_compute. done. Qed.

(** An issuance that fails after the address was allocated keeps the address and the
    join-key use. When building the bundle fails no row is written and the error is not
    terminal; the address stays allocated (only a failed signature releases it), and the
    redelivery is refused because the key's only use is gone. *)
Theorem failed_bundle_leaks_address :
  let broken := demo_lib (fun _ => None) in
  let '(r, s) := run demo_at (Process broken demo_services demo_cfg 0 demo_cand) (demo_estore true) in
  r = Err E_Bundle /\ terminal E_Bundle = false /\ enrolls s = [demo_lighthouse] /\ length (world s) = 1%nat /\
  (run demo_at (Process demo_ok demo_services demo_cfg 0 demo_cand) s).1 = Err (E_JoinKey J_Exhausted).
Proof. vm_compute. done. Qed.
