(* ===== verification/Genesis.v ===== *)
(** * internal/genesis: the bootstrap ceremony

    The ceremony that creates the two trust roots, seeds the protected netblocks and certifies
    the first lighthouse and Core ([Run]), the boot-time seeding of an older mesh, and the three
    commands of cmd/harbor that certify or repair control-plane hosts later
    ([mintLighthouse], [rotateLighthouseCert], [backfillCPEnrollment]). They run alone against one database: the address
    tables are the part on which the allocator and the netblock registry work, and the keys and
    enrollments tables are written directly. Nebula's certificate library, SHA-256, JSON and
    time formatting and key generation are parameters; the details of the signer's own audit
    rows are left out, and so are log lines.

    The theorems show when seeding an empty plan succeeds, what a completed ceremony has
    recorded, and that every host certified here is one the revocation guard protects, by the
    fingerprint of its newest certificate. *)

From S2P Require Import Prelude Db Bytes GoStrings Netip AddrStore NetblockPlace NetblockRegistry Ipam Policy Nonce Breaker Revocation Signer Enrollment Parts.
From stdpp Require Import prelude strings list relations.
From Stdlib Require Import ZArith Lia Ascii.
Open Scope Z_scope.

(** ** State *)

(** [store.Key], of keys; [UNIQUE(name)]. *)
Record Key : Type := mkKey {
  k_ID : Z; k_Name : string; k_Kind : string; k_Backend : string; k_Curve : string; k_PublicKey : string; k_State : string; k_CreatedAt : Z }.

(** The tables. The audit log is the one of the address tables. *)
Record GWorld : Type := mkGWorld {
  g_addr : Store; g_keys : list Key; g_key_seq : Z; g_enrolls : list Enrollment; g_enroll_seq : Z }.

Definition addr_part : Lens GWorld Store :=
  mkLens g_addr (fun s w => mkGWorld s (g_keys w) (g_key_seq w) (g_enrolls w) (g_enroll_seq w)).
#[export] Instance addr_part_ok : LensOK addr_part. Proof. by split; intros; try destruct w. Qed.

Definition log_row (e : AuditEvt) (w : GWorld) : GWorld := over addr_part (add_audit e (g_addr w)) w.
Definition add_key (k : Key) (w : GWorld) : GWorld :=
  mkGWorld (g_addr w) (g_keys w ++ [k]) (g_key_seq w + 1) (g_enrolls w) (g_enroll_seq w).
Definition add_enroll (e : Enrollment) (w : GWorld) : GWorld :=
  mkGWorld (g_addr w) (g_keys w) (g_key_seq w) (g_enrolls w ++ [e]) (g_enroll_seq w + 1).

Inductive gerr : Type :=
| G_Operators | G_Signer (e : serr) | G_KeyExists | G_ConfigKey | G_SameKey | G_ParsePub | G_Curve | G_Addr (e : AddrStore.err)
| G_NoCoreIP | G_NoFingerprint | G_RowExists | G_Sso | G_ParseCert | G_NotControlPlane | G_NotReserved | G_NoRow | G_BadIP | G_Fault.
#[export] Instance gerr_db : DbError gerr := G_Fault.

(** ** Parameters *)

(** [Params]; a missing optional value is the zero prefix, the zero address or no text. *)
Record Params : Type := mkGParams {
  gp_OperatorA : string; gp_OperatorB : string; gp_CAName : string; gp_Pool : Prefix; gp_CentralCIDR : Prefix; gp_DefaultCIDR : Prefix;
  gp_LighthouseName : string; gp_LighthouseIP : Addr; gp_LighthouseAddr : string; gp_LighthousePub : string;
  gp_CoreName : string; gp_CoreIP : Addr; gp_CorePub : string; gp_CALifetime : Z; gp_CertLifetime : Z }.

Record manifestNode : Type := mkNode { mn_Name : string; mn_OverlayIP : string; mn_PublicAddr : string; mn_Fingerprint : string }.

Record manifest : Type := mkManifest {
  mf_CreatedAt : string; mf_Operators : list string; mf_CAName : string; mf_CAFingerprint : string; mf_ConfigSigningKeyID : string; mf_Pool : string;
  mf_Lighthouse : manifestNode; mf_Core : option manifestNode }.

(** [Result]; no Core certificate is [None]. *)
Record GResult : Type := mkGResult {
  gr_CACertPEM : string; gr_CAFingerprint : string; gr_ConfigSigningPubPEM : string; gr_ConfigSigningKeyID : string;
  gr_LighthouseCertPEM : string; gr_LighthouseFingerprint : string; gr_LighthouseIP : Addr;
  gr_CoreCertPEM : option string; gr_CoreFingerprint : string; gr_CoreIP : Addr;
  gr_SSOAssertPrivPEM : string; gr_SSOAssertPubPEM : string; gr_ManifestJSON : string }.

(** What is read of a parsed host certificate. *)
Record Leaf : Type := mkLeaf { lf_Name : string; lf_Groups : list string; lf_Networks : list Prefix; lf_Fingerprint : option string; lf_PublicKeyPEM : string }.

Record GLib : Type := mkGLib {
  gl_sha256 : string -> string;
  gl_parseCA : string -> option Cert;                                                      (* cert.UnmarshalCertificateFromPEM *)
  gl_signWith : option Cert -> TBS -> (string -> option string) -> option Cert;            (* TBSCertificate.SignWith *)
  gl_marshalPEM : Cert -> option string;
  gl_parseLeaf : string -> option Leaf;                                                    (* cert.UnmarshalCertificateFromPEM *)
  gl_parsePub : string -> option (string * bool);                                          (* cert.UnmarshalPublicKeyFromPEM: the key, whether it is P256 *)
  gl_signingPubPEM : string -> string;                                                     (* cert.MarshalSigningPublicKeyToPEM *)
  gl_ssoKey : option string; gl_ssoPriv : string -> option string; gl_ssoPub : string -> option string;
  gl_quote : string -> string; gl_format : Z -> string; gl_marshalManifest : manifest -> string }.

Definition minute : Z := 60 * 1000000000.
Definition hour : Z := 60 * minute.

(** ** Netblocks *)

Definition CentralBlock (pool : Prefix) : Prefix := Masked (PrefixFrom (p_ip (Masked pool)) 27).

Definition defaultBlock (pool : Prefix) : Prefix :=
  let pool := Masked pool in
  let want := if 18 <? p_bits pool then p_bits pool else 18 in
  match Suggest want pool [] [CentralBlock pool] with
  | Err _ => Masked (PrefixFrom (p_ip pool) want)
  | Ok p => p
  end.

Definition orPrefix (override def : Prefix) : Prefix := if IsValid override then override else def.

Definition SeedNetblocks (reg : Registry) (pool centralOverride defaultOverride : Prefix) (actor : string) : M Store AddrStore.err (Netblock * Netblock) :=
  central ← Seed reg NameCentral (orPrefix centralOverride (CentralBlock pool)) KindReserved
              "control-plane reserved space (lighthouse, core, backends)" actor;
  def ← Seed reg NameDefault (orPrefix defaultOverride (defaultBlock pool)) KindDefault "bounded fallback for unbound join methods" actor;
  mret (central, def).

Definition BootSeedNetblocks (reg : Registry) (pool centralOverride defaultOverride : Prefix) (actor : string) : M Store AddrStore.err bool :=
  n ← Count;
  if 0 <? n then mret false
  else _ ← SeedNetblocks reg pool centralOverride defaultOverride actor; mret true.

Section genesis.
Context (lib : GLib).
Abbreviation GM := (M GWorld gerr).

Definition keyID (pub : string) : string := EncodeToString (gl_sha256 lib pub).

(** A call of the allocator or the registry. *)
Definition on_addr {A} (m : M Store AddrStore.err A) : GM A :=
  r ← within addr_part m;
  match r with Ok a => mret a | Err e => throw (G_Addr e) end.

Definition audit (actor action target details : string) : GM unit :=
  exec (fun w => ((), log_row (mkAudit actor action target details) w)).

(** [s.DB.Create(&store.Key{...})] *)
Definition create_key (name kind pub : string) (t : Z) : GM unit :=
  exec_err (fun w =>
    if existsb (fun k => bool_decide (k_Name k = name)) (g_keys w) then Err G_KeyExists
    else Ok ((), add_key (mkKey (g_key_seq w) name kind "genesis" "P256" pub "active" t) w)).

(** ** Control-plane enrollments *)

Definition issued_as (fp : string) (e : Enrollment) : bool :=
  bool_decide (Enrollment.en_Fingerprint e = fp) && bool_decide (Enrollment.en_Status e = "issued").

Definition RecordControlPlaneEnrollment (fingerprint : string) (groups : list string) (overlayIP deviceName pubPEM certPEM : string) : GM unit :=
  let fp := ToLower (TrimSpace fingerprint) in
  if decide (fp = "") then throw G_NoFingerprint
  else match gl_parsePub lib pubPEM with
  | None => throw G_ParsePub
  | Some (pub, _) =>
      n ← query (fun w => Z.of_nat (length (List.filter (issued_as fp) (g_enrolls w))));
      if 0 <? n then mret ()
      else
        ts ← now;
        exec_err (fun w =>
          if existsb (has_eid ("genesis-" +:+ fp)) (g_enrolls w) then Err G_RowExists
          else Ok ((), add_enroll (mkEnrollment (g_enroll_seq w) ("genesis-" +:+ fp) deviceName (keyID pub) pub "genesis" 0 groups groups 0 0 ""
                         "issued" certPEM overlayIP fp "" ts ts "" false no_evidence "" "") w))
  end.

(** [for _, g := range c.Groups()] *)
Definition VerifyControlPlaneCert (certPEM : string) : result gerr string :=
  match gl_parseLeaf lib certPEM with
  | None => Err G_ParseCert
  | Some c => if bool_decide (GroupControlPlane ∈ lf_Groups c) then Ok (default "" (lf_Fingerprint c)) else Err G_NotControlPlane
  end.

(** ** Certifying one node *)

(** The signer built on a database: no rate limit, its rows in the audit log. *)
Definition signer_audit (e : SEntry) : M GWorld serr unit :=
  exec (fun w => ((), log_row (mkAudit e.1.1 e.1.2 e.2 "") w)).
Definition unlimited : M GWorld serr (bool * bool) := t ← now; t' ← now; mret (Mem.acquire t t' (Mem.mkBreaker 0 hour [] false)).1.

Definition sign_node (id : Ident) (pool : Prefix) (lifetime : Z) (actor : string) (t : Template) : GM (Cert * string) :=
  map_err G_Signer (Issue (gl_sha256 lib) (gl_signWith lib) (gl_marshalPEM lib) (fun _ => id) (mkPolicyEnv pool [] lifetime) unlimited signer_audit (mret ()) actor t).

Definition node_template (name : string) (ip : Addr) (pool : Prefix) (group : string) (nb lifetime : Z) (pub : string) : Template :=
  mkTemplate name [PrefixFrom ip (p_bits pool)] [group] nb (nb + lifetime) pub.

(** A host's key must be a P256 key. *)
Definition host_key (pem : string) : result gerr string :=
  match gl_parsePub lib pem with
  | None => Err G_ParsePub
  | Some (pub, p256) => if p256 : bool then Ok pub else Err G_Curve
  end.

Definition registry_on (pool : Prefix) : Registry := NetblockRegistry.New pool [] (Some LiveAddrs) true.

(** ** The ceremony *)

Section run.
Context (caBackend configBackend : Backend) (p : Params).

(** Step 1: the certificate, its PEM and the key. *)
Definition ca_root (t : Z) : GM (Cert * string * string) :=
  match SelfSignCA (gl_sha256 lib) (gl_signWith lib) (gl_marshalPEM lib) caBackend (gp_CAName p) [gp_Pool p] (t - hour) (t + gp_CALifetime p) with
  | Err e => throw (G_Signer e)
  | Ok (caCert, caPEM) =>
      let caPub := default "" (bk_PublicKey caBackend) in
      _ ← create_key (gp_CAName p) "ca" caPub t;
      _ ← audit (gp_OperatorA p) "genesis-ca" (gp_CAName p) ("{" +:+ quoted "fingerprint" +:+ ":" +:+ gl_quote lib (ct_Fingerprint caCert) +:+ "}");
      mret (caCert, caPEM, caPub)
  end.

(** Step 2: the config-signing key, distinct from the CA's. *)
Definition config_root (t : Z) (caPub : string) : GM string :=
  match bk_PublicKey configBackend with
  | None => throw G_ConfigKey
  | Some configPub =>
      if decide (caPub = configPub) then throw G_SameKey
      else
        _ ← create_key (gp_CAName p +:+ "-config-signing") "config-signing" configPub t;
        _ ← audit (gp_OperatorB p) "genesis-config-key" (keyID configPub) "";
        mret configPub
  end.

(** Step 3: the plan, the allocator and the signer, and the lighthouse's certificate. *)
Definition lighthouse_node (nb : Z) (caPEM : string) : GM (Allocator * Ident * Cert * string) :=
  match host_key (gp_LighthousePub p) with
  | Err e => throw e
  | Ok pub =>
      match NewAllocator (mkPool (gp_Pool p) ∅ [] 0) with
      | Err e => throw (G_Addr e)
      | Ok alloc =>
          let nbReg := registry_on (gp_Pool p) in
          _ ← on_addr (SeedNetblocks nbReg (gp_Pool p) (gp_CentralCIDR p) (gp_DefaultCIDR p) (gp_OperatorA p));
          let alloc := WithResolver alloc (registry_resolver nbReg) in
          _ ← on_addr (AllocateSpecific alloc (gp_LighthouseName p) (gp_LighthouseIP p) "genesis");
          match Signer.New (gl_parseCA lib) true caPEM (Some caBackend) with
          | Err e => throw (G_Signer e)
          | Ok sg =>
              lh ← sign_node sg (gp_Pool p) (gp_CertLifetime p) (gp_OperatorA p)
                     (node_template (gp_LighthouseName p) (gp_LighthouseIP p) (gp_Pool p) GroupLighthouse nb (gp_CertLifetime p) pub);
              _ ← RecordControlPlaneEnrollment (ct_Fingerprint lh.1) [GroupLighthouse] (AddrString (gp_LighthouseIP p)) (gp_LighthouseName p) (gp_LighthousePub p) lh.2;
              mret (alloc, sg, lh.1, lh.2)
          end
      end
  end.

Definition coreName : string := if decide (gp_CoreName p = "") then "harbor-core" else gp_CoreName p.

Definition addr_valid (a : Addr) : bool := negb (bool_decide (a = AddrZero)).

(** Step 3b: the PEM and fingerprint of Core, when its key was given. *)
Definition core_node (nb : Z) (alloc : Allocator) (sg : Ident) : GM (option string * string) :=
  if decide (gp_CorePub p = "") then mret (None, "")
  else if negb (addr_valid (gp_CoreIP p)) then throw G_NoCoreIP
  else match host_key (gp_CorePub p) with
  | Err e => throw e
  | Ok cpub =>
      _ ← on_addr (AllocateSpecific alloc coreName (gp_CoreIP p) "genesis");
      core ← sign_node sg (gp_Pool p) (gp_CertLifetime p) (gp_OperatorA p)
               (node_template coreName (gp_CoreIP p) (gp_Pool p) GroupControlPlane nb (gp_CertLifetime p) cpub);
      _ ← RecordControlPlaneEnrollment (ct_Fingerprint core.1) [GroupControlPlane] (AddrString (gp_CoreIP p)) coreName (gp_CorePub p) core.2;
      _ ← audit (gp_OperatorA p) "genesis-core" coreName
            ("{" +:+ quoted "fingerprint" +:+ ":" +:+ gl_quote lib (ct_Fingerprint core.1) +:+ "," +:+ quoted "groups" +:+ ":[" +:+ gl_quote lib GroupControlPlane +:+ "]}");
      mret (Some core.2, ct_Fingerprint core.1)
  end.

(** Step 3c: the assertion key, both halves. *)
Definition sso_key (t : Z) : GM (string * string) :=
  match gl_ssoKey lib with
  | None => throw G_Sso
  | Some priv =>
      match gl_ssoPriv lib priv, gl_ssoPub lib priv with
      | Some privPEM, Some pubPEM =>
          _ ← create_key (gp_CAName p +:+ "-sso-assertion") "sso-assertion" pubPEM t;
          _ ← audit (gp_OperatorA p) "genesis-sso-assertion-key" (keyID pubPEM) "";
          mret (privPEM, pubPEM)
      | _, _ => throw G_Sso
      end
  end.

Definition manifest_of (t : Z) (caFP configKeyID lhFP : string) (core : option string * string) : manifest :=
  mkManifest (gl_format lib t) [gp_OperatorA p; gp_OperatorB p] (gp_CAName p) caFP configKeyID (PrefixString (gp_Pool p))
    (mkNode (gp_LighthouseName p) (AddrString (gp_LighthouseIP p)) (gp_LighthouseAddr p) lhFP)
    (match core.1 with Some _ => Some (mkNode coreName (AddrString (gp_CoreIP p)) "" core.2) | None => None end).

Definition Run : GM GResult :=
  if bool_decide (gp_OperatorA p = "") || bool_decide (gp_OperatorB p = "") || bool_decide (gp_OperatorA p = gp_OperatorB p) then throw G_Operators
  else
    t ← now;
    ca ← ca_root t;
    let '(caCert, caPEM, caPub) := ca in
    configPub ← config_root t caPub;
    lh ← lighthouse_node (t - 5 * minute) caPEM;
    let '(alloc, sg, lhCert, lhPEM) := lh in
    core ← core_node (t - 5 * minute) alloc sg;
    sso ← sso_key t;
    let m := manifest_of t (ct_Fingerprint caCert) (keyID configPub) (ct_Fingerprint lhCert) core in
    _ ← audit (gp_OperatorB p) "genesis-complete" (gp_CAName p)
          ("{" +:+ quoted "ca" +:+ ":" +:+ gl_quote lib (ct_Fingerprint caCert) +:+ "," +:+ quoted "config_key" +:+ ":" +:+ gl_quote lib (keyID configPub)
           +:+ "," +:+ quoted "lighthouse" +:+ ":" +:+ gl_quote lib (ct_Fingerprint lhCert) +:+ "}");
    mret (mkGResult caPEM (ct_Fingerprint caCert) (gl_signingPubPEM lib configPub) (keyID configPub) lhPEM (ct_Fingerprint lhCert) (gp_LighthouseIP p)
            core.1 core.2 (gp_CoreIP p) sso.1 sso.2 (gl_marshalManifest lib m)).
End run.

(** ** cmd/harbor: later control-plane hosts *)

(** [mintParams] *)
Record mintParams : Type := mkMint { mt_Name : string; mt_IP : Addr; mt_Pool : Prefix; mt_Lifetime : Z; mt_PubPEM : string }.

Definition mintLighthouse (backend : Backend) (caPEM : string) (p : mintParams) : GM (string * string * string) :=
  match host_key (mt_PubPEM p) with
  | Err e => throw e
  | Ok pub =>
      match NewAllocator (mkPool (mt_Pool p) ∅ [] 0) with
      | Err e => throw (G_Addr e)
      | Ok alloc =>
          let alloc := WithResolver alloc (registry_resolver (registry_on (mt_Pool p))) in
          _ ← on_addr (AllocateSpecific alloc (mt_Name p) (mt_IP p) "genesis");
          match Signer.New (gl_parseCA lib) true caPEM (Some backend) with
          | Err e => _ ← ignore (on_addr (Release alloc (mt_IP p))); throw (G_Signer e)
          | Ok sg =>
              t ← now;
              let nb := t - 5 * minute in
              r ← attempt (sign_node sg (mt_Pool p) (mt_Lifetime p) "operator:lighthouse-mint"
                     (node_template (mt_Name p) (mt_IP p) (mt_Pool p) GroupLighthouse nb (mt_Lifetime p) pub));
              match r with
              | Err e => _ ← ignore (on_addr (Release alloc (mt_IP p))); throw e
              | Ok c =>
                  _ ← RecordControlPlaneEnrollment (ct_Fingerprint c.1) [GroupLighthouse] (AddrString (mt_IP p)) (mt_Name p) (mt_PubPEM p) c.2;
                  mret (c.2, ct_Fingerprint c.1, AddrString (mt_IP p))
              end
          end
      end
  end.

(** [backfillOverrides] and [backfillResult] *)
Record backfillOverrides : Type := mkOverrides { bo_name : string; bo_groups : list string; bo_overlayIP : string }.
Record backfillResult : Type := mkBackfill { bf_Fingerprint : string; bf_OverlayIP : string; bf_Groups : list string; bf_AlreadyPresent : bool }.

(** The values a set flag overrides. *)
Definition backfill_name (c : Leaf) (ov : backfillOverrides) : string := if decide (bo_name ov = "") then lf_Name c else bo_name ov.
Definition backfill_groups (c : Leaf) (ov : backfillOverrides) : list string := if decide (bo_groups ov = []) then lf_Groups c else bo_groups ov.
Definition backfill_ip (c : Leaf) (ov : backfillOverrides) : string :=
  if decide (bo_overlayIP ov = "") then match lf_Networks c with n :: _ => AddrString (p_ip n) | [] => "" end else bo_overlayIP ov.

(** The abuse guard. *)
Definition backfill_allowed (central : Prefix) (groups : list string) (overlayIP : string) : bool :=
  GrantsReservedGroup groups || (IsValid central && match ParseAddr overlayIP with Some ip => Contains central ip | None => false end).

Definition backfillCPEnrollment (certPEM : string) (central : Prefix) (ov : backfillOverrides) : GM backfillResult :=
  match gl_parseLeaf lib certPEM with
  | None => throw G_ParseCert
  | Some c =>
      match lf_Fingerprint c with
      | None => throw G_ParseCert
      | Some fp =>
          let groups := backfill_groups c ov in
          let overlayIP := backfill_ip c ov in
          if negb (backfill_allowed central groups overlayIP) then throw G_NotReserved
          else
            n ← query (fun w => Z.of_nat (length (List.filter (issued_as (ToLower (TrimSpace fp))) (g_enrolls w))));
            _ ← RecordControlPlaneEnrollment fp groups overlayIP (backfill_name c ov) (lf_PublicKeyPEM c) certPEM;
            mret (mkBackfill (ToLower (TrimSpace fp)) overlayIP groups (0 <? n))
      end
  end.
(** [rotateParams], at the time of the call. *)
Record rotateParams : Type := mkRotate { ro_Name : string; ro_Pool : Prefix; ro_Lifetime : Z; ro_Within : Z }.

(** [rotateResult] of a re-sign; [None] is not due. *)
Record rotateResult : Type := mkRotated { rr_CertPEM : string; rr_Fingerprint : string; rr_NotAfter : Z; rr_OverlayIP : string; rr_DeviceName : string }.

Definition is_device (name : string) (e : Enrollment) : bool := bool_decide (en_DeviceName e = name) && bool_decide (Enrollment.en_Status e = "issued").

(** [Updates(map[string]any{"cert_pem": ..., "fingerprint": ...})] *)
Definition set_cert (pem fp : string) (e : Enrollment) : Enrollment :=
  mkEnrollment (en_ID e) (en_EnrollmentID e) (en_DeviceName e) (en_PubkeyHash e) (en_Pubkey e) (en_Method e) (en_JoinKeyID e) (Enrollment.en_Groups e) (en_DesiredGroups e)
    (en_GroupsGeneration e) (en_IssuedGeneration e) (en_SubRange e) (Enrollment.en_Status e) pem (Enrollment.en_OverlayIP e) fp (en_CAFingerprint e)
    (en_CreatedAt e) (en_DecidedAt e) (en_Approver e) (en_Ephemeral e) (en_Evidence e) (en_GOOS e) (en_GOARCH e).
Definition set_enrolls (l : list Enrollment) (w : GWorld) : GWorld := mkGWorld (g_addr w) (g_keys w) (g_key_seq w) l (g_enroll_seq w).

(** Whether the current certificate is comfortably valid. *)
Definition not_due (within : Z) (t : Z) (pem : string) : bool :=
  match gl_parseCA lib pem with Some cur => (0 <? within) && (t + within <? ct_NotAfter cur) | None => false end.

Definition rotateLighthouseCert (backend : Backend) (caPEM : string) (p : rotateParams) : GM (option rotateResult) :=
  t ← now;
  row ← query (fun w => find_first (is_device (ro_Name p)) (rev (g_enrolls w)));
  match row with
  | None => throw G_NoRow
  | Some e =>
      if negb (bool_decide (GroupLighthouse ∈ Enrollment.en_Groups e)) then throw G_NotReserved
      else match ParseAddr (Enrollment.en_OverlayIP e) with
      | None => throw G_BadIP
      | Some ip =>
          if not_due (ro_Within p) t (en_CertPEM e) then mret None
          else match Signer.New (gl_parseCA lib) true caPEM (Some backend) with
          | Err err => throw (G_Signer err)
          | Ok sg =>
              let nb := t - 5 * minute in
              c ← sign_node sg (ro_Pool p) (ro_Lifetime p) "operator:lighthouse-rotate"
                    (mkTemplate (en_DeviceName e) [PrefixFrom ip (p_bits (ro_Pool p))] (Enrollment.en_Groups e) nb (nb + ro_Lifetime p) (en_Pubkey e));
              _ ← exec (fun w => ((), set_enrolls (map (fun x => if en_ID x =? en_ID e then set_cert c.2 (ct_Fingerprint c.1) x else x) (g_enrolls w)) w));
              _ ← ignore (audit "operator" "lighthouse-cert-rotate" (Enrollment.en_OverlayIP e)
                    ("{" +:+ quoted "name" +:+ ":" +:+ gl_quote lib (en_DeviceName e) +:+ "," +:+ quoted "fingerprint" +:+ ":" +:+ gl_quote lib (ct_Fingerprint c.1)
                     +:+ "," +:+ quoted "not_after" +:+ ":" +:+ gl_quote lib (gl_format lib (ct_NotAfter c.1)) +:+ "}"));
              mret (Some (mkRotated c.2 (ct_Fingerprint c.1) (ct_NotAfter c.1) (Enrollment.en_OverlayIP e) (en_DeviceName e)))
          end
      end
  end.
End genesis.

(** ** When seeding an empty plan succeeds *)

Lemma suggest_errors P pool reserved carves e : valid4 pool -> p_bits pool <= P <= 32 -> Suggest P pool reserved carves = Err e -> e = NB_PoolFull.
Proof.
  intros Hv HP. unfold Suggest. destruct (Masked_masked4 pool Hv) as (B & pb & Heq & HB & Hpb & _).
  assert (Hb : p_bits pool = pb) by (destruct Hv as (v & b & -> & Hv & Hb); rewrite Masked4_eq in Heq by done; cbn; congruence).
  rewrite Heq. unfold IsValid. cbn [p_bits p_ip Is4 negb orb].
  rewrite (proj2 (Z.leb_le 0 pb)), (proj2 (Z.ltb_ge P pb)), (proj2 (Z.ltb_ge 32 P)) by lia. cbn [negb orb].
  repeat case_match; congruence.
Qed.

Section seeding.
Context (B pb : Z).
Context (HB : addr4_ok B) (Hpb : 0 <= pb <= 32) (Ha : B mod 2 ^ (32 - pb) = 0).
Abbreviation pool := (mkPrefix (Addr4 B) pb).

Lemma pool_masked : masked4 pool.
Proof using All. by exists B, pb. Qed.

Lemma central_small : 27 < pb -> p_bits (CentralBlock pool) = 27.
Proof using All.
  intros H. unfold CentralBlock. rewrite (Masked_id pool pool_masked). cbn [p_ip]. rewrite PrefixFrom4 by lia. by rewrite Masked4_eq by (done || lia).
Qed.

Lemma central_start : pb <= 27 -> CentralBlock pool = mkPrefix (Addr4 B) 27.
Proof using All.
  intros H. unfold CentralBlock. rewrite (Masked_id pool pool_masked). cbn [p_ip]. rewrite PrefixFrom4 by lia. apply Masked_id.
  exists B, 27. split_and!; [done|done|lia|lia|]. apply (pool_aligned B pb); [done..|lia].
Qed.

Lemma contains_start b : 0 <= b <= 32 -> Contains (mkPrefix (Addr4 B) b) (Addr4 B) = true.
Proof using HB. intros Hb. by rewrite contains4. Qed.

Lemma inside_start b : pb <= b <= 32 -> prefixInside (mkPrefix (Addr4 B) b) pool = true.
Proof using All.
  intros Hb. unfold prefixInside. rewrite Masked_id by (exists B, b; split_and!; [done|done|lia|lia|by apply (pool_aligned B pb)]).
  cbn [p_bits p_ip]. rewrite contains_start by lia. by rewrite (proj2 (Z.leb_le pb b)) by lia.
Qed.

Lemma default_fits : pb <= 17 -> masked4 (defaultBlock pool) /\ prefixInside (defaultBlock pool) pool = true /\
  Overlaps (defaultBlock pool) (CentralBlock pool) = false.
Proof using All.
  intros H. unfold defaultBlock. rewrite (Masked_id pool pool_masked). cbn [p_bits].
  rewrite (proj2 (Z.ltb_ge 18 pb)) by lia.
  assert (Hc : prefix_wf (CentralBlock pool)) by (rewrite central_start by lia; split_and!; cbn; [done|lia|lia|done]).
  assert (Hwf : prefix_wf pool) by (split_and!; cbn; [done|lia|lia|done]).
  pose proof (masked4_valid4 _ pool_masked) as Hv.
  destruct (Suggest 18 pool [] [CentralBlock pool]) as [q|e] eqn:Es.
  - destruct (suggest_sound 18 pool [] [CentralBlock pool] q) as (Hm & _ & Hin & Hclear); [done|by apply Forall_singleton|done|].
    rewrite (Masked_id pool pool_masked) in Hin. split_and!; [done|done|].
    apply not_true_iff_false. rewrite overlaps4_spec; [|by apply masked4_valid4|].
    + intros (a & Hao & Hq & Hca). destruct (Hclear a Hao Hq) as (_ & _ & Hno). rewrite Hno in Hca by by left. done.
    + rewrite central_start by lia. exists B, 27. split_and!; [done|done|lia|lia].
  - exfalso. assert (e = NB_PoolFull) as -> by (eapply suggest_errors; [exact Hv| |exact Es]; cbn; lia).
    rewrite suggest_complete in Es; [|done|cbn; lia|by apply Forall_singleton].
    pose proof (pool_aligned B pb Hpb Ha 18 ltac:(lia)) as H18. assert (Hend : B + 2 ^ (32 - pb) <= 2 ^ 32) by (eapply pool_end; done).
    assert (Hk : 2 ^ 15 <= 2 ^ (32 - pb)) by (apply Z.pow_le_mono_r; lia).
    assert (Hv2 : addr4_ok (B + 2 ^ 14)) by (unfold addr4_ok in *; lia).
    assert (Hm2 : (B + 2 ^ 14) mod 2 ^ (32 - 18) = 0) by (rewrite Z.add_mod by done; by rewrite H18).
    specialize (Es (B + 2 ^ 14) Hm2).
    assert (Hm4 : masked4 (mkPrefix (Addr4 (B + 2 ^ 14)) 18)) by (exists (B + 2 ^ 14), 18; split_and!; done || lia).
    assert (Hin : prefixInside (mkPrefix (Addr4 (B + 2 ^ 14)) 18) (Masked pool) = true).
    { unfold prefixInside. rewrite (Masked_id pool pool_masked), (Masked_id _ Hm4). cbn [p_bits p_ip].
      rewrite (proj2 (contains4_interval B pb (B + 2 ^ 14) ltac:(lia) Ha)) by lia. by rewrite (proj2 (Z.leb_le pb 18)) by lia. }
    specialize (Es Hin Hv2). apply not_true_iff_false in Es. apply Es, rangeClear_spec; [by apply masked4_valid4|by apply Forall_singleton|].
    split; [intros a Hr; by apply elem_of_nil in Hr|]. intros c a Hcc Hao Hq. apply list_elem_of_singleton in Hcc as ->.
    rewrite central_start by lia. apply not_true_iff_false.
    rewrite contains4_interval in Hq by (done || lia).
    rewrite contains4_interval by (lia || apply (pool_aligned B pb); done || lia). lia.
Qed.

Lemma default_covers_central : 18 <= pb <= 27 -> defaultBlock pool = pool.
Proof using All.
  intros H. unfold defaultBlock. rewrite (Masked_id pool pool_masked). cbn [p_bits p_ip].
  replace (if 18 <? pb then pb else 18) with pb by (destruct (18 <? pb) eqn:E; bool_split; lia).
  destruct (Suggest pb pool [] [CentralBlock pool]) as [q|e] eqn:Es.
  - exfalso. destruct (suggest_sound pb pool [] [CentralBlock pool] q) as (Hm & Hb & Hin & Hclear).
    + split_and!; cbn; [done|lia|lia|done].
    + apply Forall_singleton. rewrite central_start by lia. split_and!; cbn; [done|lia|lia|done].
    + done.
    + destruct Hm as (v & b & -> & Hv & Hbb & Hal). cbn in Hb. subst b. rewrite (Masked_id pool pool_masked) in Hin. unfold prefixInside in Hin.
      rewrite Masked_id in Hin by by exists v, pb. cbn [p_bits p_ip] in Hin. bool_split.
      rewrite contains4_interval in H1 by done. assert (v = B) as ->.
      { destruct (Z.eq_dec v B) as [|Hne]; [done|]. pose proof (aligned_gap (2 ^ (32 - pb)) B v ltac:(apply pow2_pos; lia) Ha Hal ltac:(lia)). lia. }
      destruct (Hclear B HB) as (_ & _ & Hno); [apply contains_start; lia|].
      specialize (Hno _ ltac:(by left)). rewrite central_start in Hno by lia. rewrite contains_start in Hno by lia. done.
  - rewrite PrefixFrom4 by lia. apply Masked_id, pool_masked.
Qed.
End seeding.

(** The audit log is append-only and a lease stays. *)
Record addr_grows (s s' : Store) : Prop := mkAddrGrows {
  ag_log : audit_log s `prefix_of` audit_log s';
  ag_leases : forall al, al ∈ allocs s -> al_state al = stateAllocated -> al ∈ allocs s' }.

#[export] Instance addr_grows_preorder : PreOrder addr_grows.
Proof. split; [by split|]. intros a b c [H1 H2] [H3 H4]. split; [by etrans|]. intros al Ha Hs. apply H4; [by apply H2|done]. Qed.

Lemma solo_recordAudit_grows r a b c d Q s :
  (forall s', addr_grows s s' -> netblocks s' = netblocks s -> cache s' = cache s -> Q (Ok ()) s') -> solo (NetblockRegistry.recordAudit r a b c d) Q s.
Proof.
  intros H. unfold NetblockRegistry.recordAudit. destruct (r_audit r); [|wp_step; by apply H]. wp_step. wp_step; [by apply H|].
  split; [done|]. apply H; [|done..]. split; [by eexists|done].
Qed.

(** Seeding one block, on every branch. *)
Lemma solo_Seed r name cidr kind desc actor s : name <> "" -> kind = KindReserved \/ kind = KindDefault ->
  solo (Seed r name cidr kind desc actor) (fun res s' => addr_grows s s' /\
    match find_first (named_row name) (netblocks s) with
    | Some row => (res = Ok row \/ res = Err DbFault) /\ s' = s
    | None => (res = Err DbFault /\ s' = s) \/
        match refuse_cidr r (netblocks s) cidr "" with
        | Some e => res = Err e /\ s' = s
        | None => exists t, let row := mkNetblock (nb_seq s) name (PrefixString (Masked cidr)) kind desc true t actor in
            res = Ok row /\ netblocks s' = netblocks s ++ [row]
        end
    end) s.
Proof.
  intros Hn Hk. unfold Seed. rewrite decide_False by done. rewrite decide_False by (destruct Hk as [-> | ->]; intros [? ?]; done).
  wp_step. wp_step. apply solo_Get; [wp_step; split; [done|]; by case_match; [split; [right|]|left]|].
  destruct (find_first _ _) as [row|] eqn:Ef; [wp_step; split; [done|split; [by left|done]]|].
  wp_step. apply solo_validateCIDR; [split; [done|by left]|].
  destruct (refuse_cidr _ _ _ _) as [e|] eqn:Er; [split; [done|by right]|].
  wp_step. wp_step. wp_step. wp_step. unfold create_netblock. wp_step; [wp_step; split; [done|by left]|]. cbn [nb_name].
  assert (existsb (named_row name) (netblocks s) = false) as ->.
  { apply existsb_elem_false. intros x Hx. by apply (proj1 (find_first_None _ _) Ef). }
  split; [done|]. wp_step. apply solo_invalidate. wp_step. apply solo_recordAudit_grows. intros s' Hg Hnb _. wp_step.
  split; [|right; exists t; split; [done|]; by rewrite Hnb]. by etrans; [|exact Hg].
Qed.

(** A valid pool as its aligned block. *)
Lemma pool_form pool : valid4 pool -> exists B, let q := mkPrefix (Addr4 B) (p_bits pool) in
  Masked pool = q /\ addr4_ok B /\ 0 <= p_bits pool <= 32 /\ B mod 2 ^ (32 - p_bits pool) = 0 /\
  CentralBlock pool = CentralBlock q /\ defaultBlock pool = defaultBlock q.
Proof.
  intros Hv. destruct (Masked_masked4 pool Hv) as (B & pb & Heq & HB & Hpb & Ha).
  assert (p_bits pool = pb) as -> by (destruct Hv as (v & b & -> & Hv & Hb); rewrite Masked4_eq in Heq by done; cbn; congruence).
  exists B. cbv zeta. unfold defaultBlock, CentralBlock. rewrite !Heq, !(Masked_id (mkPrefix (Addr4 B) pb)) by (by exists B, pb). split_and!; done || lia.
Qed.

Lemma central_refused pool : valid4 pool -> refuse_cidr (registry_on pool) [] (CentralBlock pool) "" = if p_bits pool <=? 27 then None else Some NB_OutOfPool.
Proof.
  intros Hv. destruct (pool_form pool Hv) as (B & Heq & HB & Hpb & Ha & Hc & _). set (pb := p_bits pool) in *.
  unfold refuse_cidr. cbn [registry_on NetblockRegistry.New r_pool r_reserved existsb]. rewrite Hc, Heq. destruct (pb <=? 27) eqn:E; bool_split.
  - rewrite (central_start B pb) by done. unfold IsValid. cbn [p_bits p_ip Is4 negb orb Z.leb].
    rewrite Masked_id by (exists B, 27; split_and!; [done|done|lia|lia|apply (pool_aligned B pb); [done|done|lia]]).
    by rewrite (inside_start B pb) by (done || lia).
  - pose proof (central_small B pb HB Hpb Ha E) as Hs.
    assert (Hm4 : masked4 (CentralBlock (mkPrefix (Addr4 B) pb))).
    { unfold CentralBlock. rewrite (Masked_id (mkPrefix _ _)) by by exists B, pb. cbn [p_ip]. rewrite PrefixFrom4 by lia. apply Masked_masked4. exists B, 27. split_and!; done || lia. }
    rewrite (Masked_id _ Hm4), (valid4_IsValid _ (masked4_valid4 _ Hm4)). destruct Hm4 as (v & b & Hvb & _). rewrite Hvb in *. cbn [p_bits] in Hs. subst b.
    cbn [negb orb p_ip Is4]. unfold prefixInside. cbn [p_bits]. by rewrite (proj2 (Z.leb_gt pb 27)) by lia.
Qed.

Lemma default_refused pool c : valid4 pool -> p_bits pool <= 27 -> nb_name c <> "" -> nb_Prefix c = CentralBlock pool ->
  refuse_cidr (registry_on pool) [c] (defaultBlock pool) "" = if p_bits pool <=? 17 then None else Some NB_Overlap.
Proof.
  intros Hv Hsmall Hn Hp. destruct (pool_form pool Hv) as (B & Heq & HB & Hpb & Ha & Hc & Hd). set (pb := p_bits pool) in *.
  assert (Hcv : valid4 (mkPrefix (Addr4 B) 27)) by (exists B, 27; split_and!; done || lia).
  unfold refuse_cidr. cbn [registry_on NetblockRegistry.New r_pool r_reserved existsb]. unfold row_overlaps. rewrite decide_False by done. rewrite Hp, Hc, Hd, Heq.
  rewrite (central_start B pb) by done. rewrite (valid4_IsValid _ Hcv). destruct (pb <=? 17) eqn:E; bool_split.
  - destruct (default_fits B pb) as (Hm & Hin & Hov); [done..|]. rewrite (central_start B pb) in Hov by done.
    rewrite (Masked_id _ Hm), (valid4_IsValid _ (masked4_valid4 _ Hm)), Hin, Hov. by destruct Hm as (v & b & -> & _).
  - rewrite (default_covers_central B pb) by (done || lia). pose proof (pool_masked B pb HB Hpb Ha) as Hm.
    rewrite (Masked_id _ Hm), (valid4_IsValid _ (masked4_valid4 _ Hm)), (inside_start B pb) by (done || lia). cbn [p_ip Is4 negb orb andb].
    rewrite (proj2 (overlaps4_spec _ _ (masked4_valid4 _ Hm) Hcv)); [done|]. exists B. split_and!; [done|apply contains_start; done|apply contains_start; done || lia].
Qed.

(** An empty plan can be seeded exactly when the pool is coarser than a /18. Whatever calls
    fail, when no ranges are given: seeding succeeds only for a pool of at most 17 bits, and then
    the plan consists of the protected central and default blocks, disjoint and inside the pool;
    and for such a pool nothing but a failing database call makes it fail. *)
Theorem seeding_needs_a_coarse_pool pool actor s : valid4 pool -> netblocks s = [] ->
  solo (SeedNetblocks (registry_on pool) pool PrefixZero PrefixZero actor) (fun res s' =>
    match res with
    | Ok (c, d) => p_bits pool <= 17 /\ netblocks s' = [c; d] /\ nb_name c = NameCentral /\ nb_name d = NameDefault /\
        nb_protected c = true /\ nb_protected d = true /\ nb_Prefix c = CentralBlock pool /\ nb_Prefix d = defaultBlock pool /\
        Overlaps (nb_Prefix d) (nb_Prefix c) = false /\
        prefixInside (nb_Prefix c) (Masked pool) = true /\ prefixInside (nb_Prefix d) (Masked pool) = true
    | Err e => e = DbFault \/ 18 <= p_bits pool /\ e = (if p_bits pool <=? 27 then NB_Overlap else NB_OutOfPool)
    end) s.
Proof.
  intros Hv He. unfold SeedNetblocks, orPrefix. change (IsValid PrefixZero) with false. cbv iota. wp_step.
  eapply wp_mono; [apply solo_Seed; [done|by left]|]. cbv beta. rewrite He. cbn [find_first]. rewrite central_refused by done.
  destruct (p_bits pool <=? 27) eqn:E27; bool_split.
  2: { intros [r|e] s1 _ [_ [[[=] _]|[[=] _]]]; subst; [by left|right; split; [lia|done]]. }
  intros r s1 _ [_ [[-> _]|(t & -> & Hnb)]]; [by left|]. cbn in Hnb. set (c := mkNetblock _ _ _ _ _ _ _ _) in *.
  destruct (pool_form pool Hv) as (B & Heq & HB & Hpb & Ha & Hc & Hd). set (pb := p_bits pool) in *.
  assert (Hcm : masked4 (CentralBlock pool)).
  { rewrite Hc, (central_start B pb) by done. exists B, 27. split_and!; [done|done|lia|lia|apply (pool_aligned B pb); done || lia]. }
  assert (Hcp : nb_Prefix c = CentralBlock pool) by (apply nb_Prefix_canonical; [done|]; cbn; by rewrite Masked_id).
  wp_step. eapply wp_mono; [apply solo_Seed; [done|by right]|]. cbv beta. rewrite Hnb. change (IsValid PrefixZero) with false. cbv iota. rewrite (default_refused pool c Hv E27 ltac:(done) Hcp). cbn [find_first].
  change (named_row NameDefault c) with false. cbv iota.
  fold pb. destruct (pb <=? 17) eqn:E17; bool_split.
  2: { intros [r|e] s2 _ [_ [[[=] _]|[[=] _]]]; subst; [by left|right; split; [lia|]]. done. }
  intros r s2 _ [_ [[-> _]|(t2 & -> & Hnb2)]]; [by left|]. wp_step.
  destruct (default_fits B pb) as (Hdm & Hdin & Hov); [done..|]. rewrite <- Hd in *. rewrite <- Hc in Hov.
  assert (Hdp : nb_Prefix (mkNetblock (nb_seq s1) NameDefault (PrefixString (Masked (defaultBlock pool))) KindDefault "bounded fallback for unbound join methods" true t2 actor) = defaultBlock pool).
  { apply nb_Prefix_canonical; [done|]. cbn. by rewrite Masked_id. }
  split_and!; try done; rewrite ?Hdp, ?Hcp, ?Heq; try done. rewrite Hc, (central_start B pb) by done. apply inside_start; done || lia.
Qed.

Lemma masked4_wf p : masked4 p -> prefix_wf p.
Proof. intros (v & b & -> & Hv & Hb & _). split_and!; cbn; [done|lia|lia|done]. Qed.

Lemma central_masked pool : valid4 pool -> masked4 (CentralBlock pool).
Proof.
  intros Hv. destruct (pool_form pool Hv) as (B & Heq & HB & _). unfold CentralBlock. rewrite Heq. cbn [p_ip].
  rewrite PrefixFrom4 by lia. apply Masked_masked4. exists B, 27. split_and!; done || lia.
Qed.

Lemma default_masked pool : valid4 pool -> masked4 (defaultBlock pool).
Proof.
  intros Hv. destruct (pool_form pool Hv) as (B & Heq & HB & Hpb & Ha & Hc & Hd). set (pb := p_bits pool) in *. rewrite Hd.
  pose proof (pool_masked B pb HB Hpb Ha) as Hm. unfold defaultBlock. rewrite (Masked_id _ Hm). cbn [p_bits p_ip].
  set (want := if 18 <? pb then pb else 18). assert (0 <= want <= 32) by (unfold want; destruct (18 <? pb) eqn:E; bool_split; lia).
  destruct (Suggest _ _ _ _) as [q|e] eqn:Es.
  - eapply suggest_sound; [by apply masked4_wf| |exact Es]. apply Forall_singleton, masked4_wf, central_masked, masked4_valid4, Hm.
  - rewrite PrefixFrom4 by lia. apply Masked_masked4. by exists B, want.
Qed.

Lemma Seed_inv r name cidr kind desc actor s : prefix_wf cidr -> plan_inv r s ->
  solo (Seed r name cidr kind desc actor) (fun _ s' => plan_inv r s') s.
Proof.
  intros Hwf [Hok Hco]. eapply wp_mono; [by apply Seed_refines|]. intros res s' _ Hr. by eapply refines_inv.
Qed.

(** Seeding at boot never disturbs a plan. Whatever calls fail, a plan with any block is left as it
    is, and an empty one is extended only by blocks that keep the plan's invariant. *)
Theorem boot_seed_keeps_the_plan reg pool c d actor s : valid4 pool -> (IsValid c = true -> prefix_wf c) -> (IsValid d = true -> prefix_wf d) -> plan_inv reg s ->
  solo (BootSeedNetblocks reg pool c d actor) (fun res s' => plan_inv reg s' /\
    (netblocks s <> [] -> s' = s /\ (res = Ok false \/ res = Err DbFault)) /\ (res = Ok true -> netblocks s = [])) s.
Proof.
  intros Hv Hc Hd Hi. unfold BootSeedNetblocks, Count. wp_step. wp_step; [by split_and!; [|intros _; split; [|right]|]|].
  destruct (netblocks s) as [|x l] eqn:En; [change (0 <? Z.of_nat (length (@nil Netblock))) with false|rewrite (proj2 (Z.ltb_lt 0 _)) by (cbn [length]; lia)]; cbv iota.
  2: { wp_step. split_and!; [done|intros _; split; [done|by left]|done]. }
  assert (Hcw : prefix_wf (orPrefix c (CentralBlock pool))) by (unfold orPrefix; destruct (IsValid c) eqn:E; [by apply Hc|by apply masked4_wf, central_masked]).
  assert (Hdw : prefix_wf (orPrefix d (defaultBlock pool))) by (unfold orPrefix; destruct (IsValid d) eqn:E; [by apply Hd|by apply masked4_wf, default_masked]).
  wp_step. unfold SeedNetblocks. wp_step. eapply wp_mono; [by apply Seed_inv|]. intros [r|e] s1 _ Hi1; [|by split_and!].
  wp_step. eapply wp_mono; [by apply Seed_inv|]. intros [r2|e] s2 _ Hi2; [|by split_and!]. wp_step. wp_step. by split_and!.
Qed.

(** ** What control-plane rows are for *)

(** The columns the revocation guard reads. *)
Definition as_enrolled (e : Enrollment) : Enrolled :=
  mkEnrolled (Enrollment.en_Fingerprint e) (Enrollment.en_Status e) (Enrollment.en_Groups e) (Enrollment.en_OverlayIP e).

(** A registry over the same enrollments, in any state of the blocklist, refuses to add the fingerprint. *)
Definition shielded (r : VRegistry) (fp : string) (w : GWorld) : Prop :=
  forall quote v raw reason actor, enrollments v = as_enrolled <$> g_enrolls w -> v_inv r v -> normFingerprint raw = fp ->
    fp ∉ active_fps v /\ solo (Revocation.Add r quote raw reason actor) (fun res _ => is_ok res = false) v.

(** An issued row that renewal keeps as it is and the guard of [r] protects. *)
Definition cp_row (r : VRegistry) (e : Enrollment) : Prop :=
  Enrollment.en_Status e = "issued" /\ is_protected r (as_enrolled e) = true /\ en_DesiredGroups e = Enrollment.en_Groups e.

(** Some row of the fingerprint was issued, and all of them are protected. *)
Definition cp_fingerprint (r : VRegistry) (fp : string) (w : GWorld) : Prop :=
  (exists e, e ∈ g_enrolls w /\ issued_as fp e = true) /\ forall e, e ∈ g_enrolls w -> issued_as fp e = true -> is_protected r (as_enrolled e) = true.

Lemma cp_shielded r fp w : cp_fingerprint r fp w -> shielded r fp w.
Proof.
  intros [(e & He & Hi) Hall] quote v raw reason actor Hv Hinv Hraw.
  assert (Hno : ~ allowed r fp v).
  { intros [_ Hp]. destruct (latest_issued fp v) as [x|] eqn:El.
    - specialize (Hp x eq_refl). unfold latest_issued in El. apply find_first_Some in El as [Hx Hf].
      rewrite list_elem_of_In, <- in_rev, <- list_elem_of_In, Hv in Hx. apply list_elem_of_fmap in Hx as (y & -> & Hy).
      rewrite (Hall y Hy) in Hp; [done|]. exact Hf.
    - unfold latest_issued in El. rewrite find_first_None in El. specialize (El (as_enrolled e)). cbn in El. unfold issued_as in Hi. rewrite Hi in El.
      discriminate El. rewrite list_elem_of_In, <- in_rev, <- list_elem_of_In, Hv. apply list_elem_of_fmap. by exists e. }
  split; [intros Hb; by apply Hno, (vi_allowed r v Hinv)|].
  eapply wp_weaken with (T := fun _ => True) (R := eq) (G := rtc (v_step r)); [|by intros|by intros|by intros a b [H|H]; [left|right]].
  eapply wp_mono; [apply (Add_wp r quote (fun _ => True) eq); [by intros a b ->|done]|].
  intros [row|e'] s' _ [Hs Hr]; [|done]. destruct Hr as (Hfp & _ & Hal). rewrite Hfp, Hraw in Hal. exfalso. apply Hno. eapply allowed_frame; [|exact Hal].
  symmetry. by eapply v_steps_enrollments.
Qed.

(** ** The ceremony *)

(** Keys are only added, and enrollments only by rows of [P]. *)
Record grows (P : Enrollment -> Prop) (w w' : GWorld) : Prop := mkGrows {
  gw_keys : g_keys w `prefix_of` g_keys w';
  gw_rows : exists l, g_enrolls w' = g_enrolls w ++ l /\ Forall P l }.

#[export] Instance grows_preorder P : PreOrder (grows P).
Proof.
  split.
  - intros w. split; [done|]. exists []. by rewrite app_nil_r.
  - intros a b c [H1 (l & H2 & H3)] [H4 (l' & H5 & H6)]. split; [by etrans|]. exists (l ++ l'). rewrite H5, H2, app_assoc. split; [done|by apply Forall_app].
Qed.

(** Both tables and the address tables. *)
Definition advances (P : Enrollment -> Prop) (w w' : GWorld) : Prop := grows P w w' /\ addr_grows (g_addr w) (g_addr w').
#[export] Instance advances_preorder P : PreOrder (advances P).
Proof. split; [by split|]. intros a b c [H1 H2] [H3 H4]. split; by etrans. Qed.

(** Every guard protects the row. *)
Definition cp_any (e : Enrollment) : Prop := forall r, cp_row r e.

Definition logged (actor action target : string) (w : GWorld) : Prop := exists d, mkAudit actor action target d ∈ audit_log (g_addr w).
Definition has_lease (ip : Addr) (s : Store) : Prop := exists al, al ∈ allocs s /\ al_ip al = AddrString ip /\ al_state al = stateAllocated.

Lemma advances_logged P w w' actor action target : advances P w w' -> logged actor action target w -> logged actor action target w'.
Proof. intros [_ [[l Hl] _]] [d Hd]. exists d. rewrite Hl. apply elem_of_app. by left. Qed.

Lemma advances_key P w w' k : advances P w w' -> k ∈ g_keys w -> k ∈ g_keys w'.
Proof. intros [[[l ->] _] _] Hk. apply elem_of_app. by left. Qed.

Lemma advances_lease P w w' ip : advances P w w' -> has_lease ip (g_addr w) -> has_lease ip (g_addr w').
Proof. intros [_ [_ Hl]] (al & Hal & Hip & Hs). exists al. split_and!; [by apply Hl|done|done]. Qed.

Lemma advances_row P w w' fp : advances P w w' -> (exists e, e ∈ g_enrolls w /\ issued_as fp e = true) -> exists e, e ∈ g_enrolls w' /\ issued_as fp e = true.
Proof. intros [[_ (l & -> & _)] _] (e & He & Hi). exists e. split; [|done]. apply elem_of_app. by left. Qed.

(** The rows of a fingerprint stay protected. *)
Lemma grows_cp r P fp w w' : (forall e, P e -> cp_row r e) -> grows P w w' -> (forall e, e ∈ g_enrolls w -> issued_as fp e = true -> is_protected r (as_enrolled e) = true) ->
  (exists e, e ∈ g_enrolls w' /\ issued_as fp e = true) -> cp_fingerprint r fp w'.
Proof.
  intros HP [_ (l & Hl & Hall)] Hold Hex. split; [done|]. intros e He Hi. rewrite Hl in He. apply elem_of_app in He as [He|He]; [by apply Hold|].
  by apply HP, (proj1 (Forall_forall _ _) Hall).
Qed.

Section parts.
Context (lib : GLib).

Lemma solo_on_addr {A} (m : M Store AddrStore.err A) (Q : result gerr A -> GWorld -> Prop) w :
  solo m (fun r s' => Q (match r with Ok a => Ok a | Err e => Err (G_Addr e) end) (over addr_part s' w)) (g_addr w) -> solo (on_addr m) Q w.
Proof.
  intros Hm. unfold on_addr. wp_step. apply (solo_within addr_part). eapply wp_mono; [exact Hm|]. intros [a|e] s' _ HQ; by wp_step.
Qed.

Lemma over_advances P s w : addr_grows (g_addr w) s -> advances P w (over addr_part s w).
Proof. intros H. split; [|done]. split; [done|]. exists []. by rewrite app_nil_r. Qed.

Lemma log_advances P e w : advances P w (log_row e w).
Proof. apply over_advances. split; [by eexists|done]. Qed.

Lemma solo_gaudit P actor action target details (Q : result gerr unit -> GWorld -> Prop) w :
  Q (Err G_Fault) w -> (forall w', advances P w w' -> logged actor action target w' -> Q (Ok ()) w') -> solo (audit actor action target details) Q w.
Proof.
  intros He Ho. unfold audit. wp_step; [done|]. split; [done|]. apply Ho; [apply log_advances|]. exists details. cbn. apply elem_of_app. right. by left.
Qed.

Lemma solo_create_key P name kind pub t (Q : result gerr unit -> GWorld -> Prop) w :
  (forall e, Q (Err e) w) ->
  (forall w', advances P w w' -> (exists k, k ∈ g_keys w' /\ k_Name k = name /\ k_Kind k = kind /\ k_PublicKey k = pub /\ k_State k = "active") -> Q (Ok ()) w') ->
  solo (create_key name kind pub t) Q w.
Proof.
  intros He Ho. unfold create_key. wp_step; [done|]. destruct (existsb _ _); [done|]. split; [done|]. apply Ho.
  - split; [|done]. split; [by eexists|]. exists []. by rewrite app_nil_r.
  - eexists. split; [apply elem_of_app; right; by left|done].
Qed.

(** Issuing writes the audit log and nothing else. *)
Lemma solo_issue P id pool lifetime actor t (Q : result gerr (Cert * string) -> GWorld -> Prop) w :
  (forall res w', advances P w w' -> g_enrolls w' = g_enrolls w -> allocs (g_addr w') = allocs (g_addr w) -> Q res w') -> solo (sign_node lib id pool lifetime actor t) Q w.
Proof.
  intros HQ. unfold sign_node. apply wp_map_err.
  assert (Hlog : forall e (Q' : result serr unit -> GWorld -> Prop) w1, advances P w w1 -> g_enrolls w1 = g_enrolls w -> allocs (g_addr w1) = allocs (g_addr w) ->
    (forall res w2, advances P w w2 -> g_enrolls w2 = g_enrolls w -> allocs (g_addr w2) = allocs (g_addr w) -> Q' res w2) -> solo (signer_audit e) Q' w1).
  { intros e Q' w1 H1 H2 H3 H4. unfold signer_audit. wp_step; [by apply H4|]. split; [done|]. apply H4; [|done..]. etrans; [exact H1|apply log_advances]. }
  unfold Issue, load, unlimited. wp_step. wp_step. split; [done|]. destruct (validate _ _ _) as [[]|e].
  2: { wp_step. wp_step. apply Hlog; [done..|]. intros res w2 H1 H2 H3. wp_step. by apply HQ. }
  wp_step. wp_step. wp_step. wp_step. wp_step. wp_step. wp_step. cbn [Mem.acquire Mem.open Mem.max Z.leb Z.compare fst negb].
  destruct (SignTBS _ _ _ _ _) as [c|]; [destruct (gl_marshalPEM lib c) as [pem|]|].
  - wp_step. wp_step. apply Hlog; [done..|]. intros [[]|e] w2 H1 H2 H3; wp_step; by apply HQ.
  - wp_step. by apply HQ.
  - wp_step. wp_step. apply Hlog; [done..|]. intros res w2 H1 H2 H3. wp_step. by apply HQ.
Qed.

(** Recording a control-plane host, on every branch. *)
Lemma solo_Record fp groups ip name pub cert (Q : result gerr unit -> GWorld -> Prop) w :
  (forall e, Q (Err e) w) ->
  (forall e, e ∈ g_enrolls w -> issued_as (normFingerprint fp) e = true -> Q (Ok ()) w) ->
  (forall e, Enrollment.en_Fingerprint e = normFingerprint fp -> Enrollment.en_Status e = "issued" -> Enrollment.en_Groups e = groups -> en_DesiredGroups e = groups ->
     Enrollment.en_OverlayIP e = ip -> en_EnrollmentID e = "genesis-" +:+ normFingerprint fp ->
     (forall x, x ∈ g_enrolls w -> issued_as (normFingerprint fp) x = false) -> Q (Ok ()) (add_enroll e w)) ->
  solo (RecordControlPlaneEnrollment lib fp groups ip name pub cert) Q w.
Proof.
  intros He Hold Hnew. unfold RecordControlPlaneEnrollment. fold (normFingerprint fp). destruct (decide _); [by wp_step|].
  destruct (gl_parsePub lib pub) as [[key c]|]; [|by wp_step]. wp_step. wp_step; [done|].
  destruct (List.filter (issued_as (normFingerprint fp)) (g_enrolls w)) as [|x l] eqn:Ef.
  - change (0 <? Z.of_nat (length (@nil Enrollment))) with false. cbv iota. wp_step. wp_step. wp_step; [done|]. destruct (existsb _ _); [done|]. split; [done|].
    apply Hnew; try done. intros y Hy. destruct (issued_as _ y) eqn:Ey; [|done]. assert (In y []) as []. rewrite <- Ef. apply filter_In. by rewrite <- list_elem_of_In.
  - rewrite (proj2 (Z.ltb_lt 0 _)) by (cbn [length]; lia). cbv iota. wp_step.
    assert (In x (List.filter (issued_as (normFingerprint fp)) (g_enrolls w))) as [Hx Hi]%filter_In by (rewrite Ef; by left). apply (Hold x); [by apply list_elem_of_In|done].
Qed.

(** A recorded host of a reserved group. *)
Lemma solo_Record_cp fp g ip name pub cert (Q : result gerr unit -> GWorld -> Prop) w : IsReservedGroup g = true ->
  (forall e, Q (Err e) w) ->
  (forall w', advances cp_any w w' -> (exists e, e ∈ g_enrolls w' /\ issued_as (normFingerprint fp) e = true) -> Q (Ok ()) w') ->
  solo (RecordControlPlaneEnrollment lib fp [g] ip name pub cert) Q w.
Proof.
  intros Hg He Ho. apply solo_Record; [done|..].
  - intros e Hin Hi. apply Ho; [done|by exists e].
  - intros e Hfp Hst Hgr Hde _ _ _. apply Ho.
    + split; [|done]. split; [done|]. exists [e]. split; [done|]. apply Forall_singleton. intros r. split_and!; [done| |by rewrite Hde].
      unfold is_protected, GrantsReservedGroup. cbn. by rewrite Hgr; cbn; rewrite Hg.
    + exists e. split; [apply elem_of_app; right; by left|]. unfold issued_as. by rewrite !bool_decide_true.
Qed.

(** What a resolver does to the store: its cache. *)
Lemma solo_snapshot_frame (Q : result AddrStore.err resolverCache -> Store -> Prop) s : (forall res s', allocs s' = allocs s -> audit_log s' = audit_log s -> Q res s') -> solo snapshot Q s.
Proof.
  intros H. unfold snapshot. wp_step. wp_step. split; [done|]. destruct (cache s) as [c|]; [wp_step; by apply H|].
  wp_step. apply wp_List. intros ? <-. split; [by apply H|]. wp_step. wp_step. split; [done|]. wp_step. rewrite Z.eqb_refl. by apply H.
Qed.

Lemma solo_ResolveFull_frame n (Q : result AddrStore.err Resolved -> Store -> Prop) s : (forall res s', allocs s' = allocs s -> audit_log s' = audit_log s -> Q res s') -> solo (ResolveFull n) Q s.
Proof.
  intros H. unfold ResolveFull. wp_step. apply solo_snapshot_frame. intros [c|e] s' Ha Hl; [|by apply H].
  repeat (wp_reduce; case_match); wp_step; by apply H.
Qed.

Lemma solo_AllocateSpecific reg pool d ip method (Q : result AddrStore.err unit -> Store -> Prop) s :
  (forall e s', addr_grows s s' -> Q (Err e) s') -> (forall s', addr_grows s s' -> has_lease ip s' -> Q (Ok ()) s') ->
  solo (AllocateSpecific (registry_allocator reg pool) d ip method) Q s.
Proof.
  intros He Ho. unfold AllocateSpecific. destruct (negb _); [wp_step; by apply He|].
  wp_step. apply solo_ensureDevice; [by apply He|]. intros dev l k. wp_step. apply solo_purge; [by apply He|]. intros t.
  set (s1 := set_allocs _ _). assert (Hg1 : addr_grows s s1).
  { split; [done|]. intros al Hal Hs. apply list_elem_of_In, filter_In. split; [by apply list_elem_of_In|]. unfold purge_row. rewrite Hs. done. }
  cut (forall id s2, addr_grows s s2 -> solo (t ← now; c ← attempt (create_alloc (AddrString ip) (dev_id dev) t (default 0 id) method);
         match c with Ok _ => mret () | Err DuplicatedKey => throw IP_AddrTaken | Err e => throw e end) Q s2).
  { intros Hend. wp_step. unfold netblockIDContaining. cbn [registry_allocator WithResolver a_resolver registry_resolver rs_ResolveFull id_containing].
    assert (Hfr : forall s2 s3, addr_grows s s2 -> allocs s3 = allocs s2 -> audit_log s3 = audit_log s2 -> addr_grows s s3) by (intros s2 s3 [H1 H2] H3 H4; split; [by rewrite H4|by rewrite H3]).
    wp_step. wp_step. apply solo_ResolveFull_frame. intros [r|e] s2 H2 H2'; [destruct (Contains _ _); [wp_step; by apply Hend, (Hfr s1)|]|].
    all: wp_step; wp_step; apply solo_ResolveFull_frame; intros [r2|e2] s3 H3 H3'; [destruct (Contains _ _)|]; wp_step; by apply Hend, (Hfr s2), H3'; [apply (Hfr s1)|]. }
  intros id s2 Hg2. wp_step. wp_step. wp_step. wp_step. unfold create_alloc. wp_step; [wp_step; by apply He|]. destruct (existsb _ _); [wp_step; by apply He|].
  split; [done|]. wp_step. apply Ho; [|eexists; split; [apply elem_of_app; right; by left|done]].
  etrans; [exact Hg2|]. split; [done|]. intros al Hal _. apply elem_of_app. by left.
Qed.

Lemma solo_SeedNetblocks reg pool c d actor (Q : result AddrStore.err (Netblock * Netblock) -> Store -> Prop) s :
  (forall res s', addr_grows s s' -> Q res s') -> solo (SeedNetblocks reg pool c d actor) Q s.
Proof.
  intros H. unfold SeedNetblocks. wp_step. eapply wp_mono; [apply solo_Seed; [done|by left]|]. intros [r|e] s1 _ [Hg _]; [|by apply H].
  wp_step. eapply wp_mono; [apply solo_Seed; [done|by right]|]. intros [r2|e] s2 _ [Hg2 _]; [|apply H; by etrans]. wp_step. apply H. by etrans.
Qed.

Lemma SelfSignCA_key b name nets nb na c : is_ok (SelfSignCA (gl_sha256 lib) (gl_signWith lib) (gl_marshalPEM lib) b name nets nb na) = true ->
  bk_PublicKey b = Some (default c (bk_PublicKey b)).
Proof. unfold SelfSignCA. by destruct (bk_PublicKey b). Qed.

Section ceremony.
Context (caB cfgB : Backend) (p : Params).

Lemma solo_ca_root t (Q : result gerr (Cert * string * string) -> GWorld -> Prop) w :
  (forall e w', advances cp_any w w' -> Q (Err e) w') ->
  (forall c pem pub w', advances cp_any w w' -> bk_PublicKey caB = Some pub ->
     (exists k, k ∈ g_keys w' /\ k_Name k = gp_CAName p /\ k_Kind k = "ca" /\ k_PublicKey k = pub /\ k_State k = "active") ->
     logged (gp_OperatorA p) "genesis-ca" (gp_CAName p) w' -> Q (Ok (c, pem, pub)) w') ->
  solo (ca_root lib caB p t) Q w.
Proof.
  intros He Ho. unfold ca_root. destruct (SelfSignCA _ _ _ _ _ _ _ _) as [[c pem]|e] eqn:Es; [|wp_step; by apply He].
  assert (Hk : bk_PublicKey caB = Some (default "" (bk_PublicKey caB))) by (eapply SelfSignCA_key; by rewrite Es).
  wp_step. apply (solo_create_key cp_any); [intros e; by apply He|]. intros w1 H1 (k & Hin & Hk1). wp_step. apply (solo_gaudit cp_any); [by apply He|].
  intros w2 H2 Hl. wp_step. apply Ho; [by etrans|done| |done]. exists k. split; [by eapply advances_key|done].
Qed.

Lemma solo_config_root t caPub (Q : result gerr string -> GWorld -> Prop) w :
  (forall e w', advances cp_any w w' -> Q (Err e) w') ->
  (forall pub w', advances cp_any w w' -> bk_PublicKey cfgB = Some pub -> caPub <> pub ->
     (exists k, k ∈ g_keys w' /\ k_Name k = gp_CAName p +:+ "-config-signing" /\ k_Kind k = "config-signing" /\ k_PublicKey k = pub /\ k_State k = "active") ->
     logged (gp_OperatorB p) "genesis-config-key" (keyID lib pub) w' -> Q (Ok pub) w') ->
  solo (config_root lib cfgB p t caPub) Q w.
Proof.
  intros He Ho. unfold config_root. destruct (bk_PublicKey cfgB) as [pub|]; [|wp_step; by apply He]. destruct (decide _); [wp_step; by apply He|].
  wp_step. apply (solo_create_key cp_any); [intros e; by apply He|]. intros w1 H1 (k & Hin & Hk1). wp_step. apply (solo_gaudit cp_any); [by apply He|].
  intros w2 H2 Hl. wp_step. apply Ho; [by etrans|done|done| |done]. exists k. split; [by eapply advances_key|done].
Qed.

(** What a certified node leaves behind. *)
Definition certified (ip : Addr) (fp : string) (w : GWorld) : Prop :=
  has_lease ip (g_addr w) /\ exists e, e ∈ g_enrolls w /\ issued_as (normFingerprint fp) e = true.

Lemma certified_stays w w' ip fp : advances cp_any w w' -> certified ip fp w -> certified ip fp w'.
Proof. intros H [H1 H2]. split; [by eapply advances_lease|by eapply advances_row]. Qed.

Lemma solo_lighthouse nb caPEM (Q : result gerr (Allocator * Ident * Cert * string) -> GWorld -> Prop) w :
  (forall e w', advances cp_any w w' -> Q (Err e) w') ->
  (forall sg c pem w', advances cp_any w w' -> certified (gp_LighthouseIP p) (ct_Fingerprint c) w' ->
     Q (Ok (registry_allocator (registry_on (gp_Pool p)) (mkPool (gp_Pool p) ∅ [] 0), sg, c, pem)) w') ->
  solo (lighthouse_node lib caB p nb caPEM) Q w.
Proof.
  intros He Ho. unfold lighthouse_node. destruct (host_key _ _) as [pub|e]; [|wp_step; by apply He].
  destruct (NewAllocator _) as [alloc|e] eqn:Ea; [|wp_step; by apply He].
  assert (alloc = mkAllocator (mkPool (gp_Pool p) ∅ [] 0) None None) as -> by (unfold NewAllocator in Ea; repeat case_match; congruence).
  wp_step. apply solo_on_addr, solo_SeedNetblocks. intros [cd|e] s1 H1; [|apply He; by apply over_advances].
  pose proof (over_advances cp_any s1 w H1) as Ha1. set (w1 := over addr_part s1 w) in *.
  wp_step. apply solo_on_addr, solo_AllocateSpecific; [intros e s2 H2; apply He; etrans; [exact Ha1|by apply over_advances]|]. intros s2 H2 Hl2.
  pose proof (over_advances cp_any s2 w1 H2) as Ha2. assert (Hl : has_lease (gp_LighthouseIP p) (g_addr (over addr_part s2 w1))) by done. set (w2 := over addr_part s2 w1) in *.
  assert (Ha : advances cp_any w w2) by (by etrans). cbv beta iota. destruct (Signer.New _ _ _ _) as [sg|e]; [|wp_step; by apply He].
  wp_step. apply (solo_issue cp_any). intros [[c pem]|e] w3 H3 _ _; [|apply He; by etrans].
  wp_step. apply solo_Record_cp; [done|intros e; apply He; by etrans|]. intros w4 H4 Hrow. wp_step. apply Ho; [by etrans; [|etrans]|]. split; [|done].
  eapply advances_lease; [exact H4|]. by eapply advances_lease.
Qed.

Lemma solo_core nb sg (Q : result gerr (option string * string) -> GWorld -> Prop) w :
  (forall e w', advances cp_any w w' -> Q (Err e) w') ->
  (forall pem fp w', advances cp_any w w' -> (pem <> None -> certified (gp_CoreIP p) fp w') -> Q (Ok (pem, fp)) w') ->
  solo (core_node lib p nb (registry_allocator (registry_on (gp_Pool p)) (mkPool (gp_Pool p) ∅ [] 0)) sg) Q w.
Proof.
  intros He Ho. unfold core_node. destruct (decide _); [wp_step; by apply Ho|]. destruct (negb _); [wp_step; by apply He|].
  destruct (host_key _ _) as [pub|e]; [|wp_step; by apply He].
  wp_step. apply solo_on_addr, solo_AllocateSpecific; [intros e s2 H2; apply He; by apply over_advances|]. intros s2 H2 Hl2.
  pose proof (over_advances cp_any s2 w H2) as Ha. assert (Hl : has_lease (gp_CoreIP p) (g_addr (over addr_part s2 w))) by done. set (w2 := over addr_part s2 w) in *.
  cbv beta iota. wp_step. apply (solo_issue cp_any). intros [[c pem]|e] w3 H3 _ _; [|apply He; by etrans].
  wp_step. apply solo_Record_cp; [done|intros e; apply He; by etrans|]. intros w4 H4 Hrow. wp_step. assert (Ha4 : advances cp_any w w4) by (by etrans; [|etrans]).
  assert (Hc4 : certified (gp_CoreIP p) (ct_Fingerprint c) w4) by (split; [eapply advances_lease; [exact H4|by eapply advances_lease]|done]).
  apply (solo_gaudit cp_any); [by apply He|]. intros w5 H5 _. wp_step. apply Ho; [by etrans|]. intros _. by eapply certified_stays.
Qed.

Lemma solo_sso t (Q : result gerr (string * string) -> GWorld -> Prop) w :
  (forall res w', advances cp_any w w' -> Q res w') -> solo (sso_key lib p t) Q w.
Proof.
  intros H. unfold sso_key. destruct (gl_ssoKey lib) as [k|]; [|wp_step; by apply H]. destruct (gl_ssoPriv lib k), (gl_ssoPub lib k); try (wp_step; by apply H).
  wp_step. apply (solo_create_key cp_any); [intros e; by apply H|]. intros w1 H1 _. wp_step. apply (solo_gaudit cp_any); [by apply H|].
  intros w2 H2 _. wp_step. apply H. by etrans.
Qed.

(** The fingerprint's rows in the table before were protected, for instance because there were none. *)
Definition no_impostor (r : VRegistry) (fp : string) (w : GWorld) : Prop :=
  forall e, e ∈ g_enrolls w -> issued_as fp e = true -> is_protected r (as_enrolled e) = true.

Lemma certified_shielded r ip fp w w' : advances cp_any w w' -> no_impostor r (normFingerprint fp) w -> certified ip fp w' -> shielded r (normFingerprint fp) w'.
Proof. intros [Hg _] Hno [_ Hex]. apply cp_shielded. eapply grows_cp; [|exact Hg|exact Hno|exact Hex]. intros e He. apply He. Qed.

(** C6: what a completed ceremony has established. Whatever calls fail, no key, lease or audit row
    is lost and every enrollment added is an issued row of a reserved group that renewal keeps. When
    the ceremony completes, its operators are two different people and each has signed for one of the
    roots, the second also for the completion; the active CA and config-signing keys are the
    backends' and differ; the lighthouse, and Core if its key was given, hold their addresses; and
    whatever the state of the blocklist, no registry over these enrollments ever adds their
    fingerprints, unless a row of the same fingerprint stood there unprotected before. *)
Theorem genesis_bootstraps_the_control_plane w :
  solo (Run lib caB cfgB p) (fun res w' => advances cp_any w w' /\ forall g, res = Ok g ->
    (gp_OperatorA p <> "" /\ gp_OperatorB p <> "" /\ gp_OperatorA p <> gp_OperatorB p) /\
    (exists ca cfg, ca ∈ g_keys w' /\ cfg ∈ g_keys w' /\ k_Name ca = gp_CAName p /\ k_Kind ca = "ca" /\ k_Kind cfg = "config-signing" /\
       k_State ca = "active" /\ k_State cfg = "active" /\ bk_PublicKey caB = Some (k_PublicKey ca) /\ bk_PublicKey cfgB = Some (k_PublicKey cfg) /\
       k_PublicKey ca <> k_PublicKey cfg /\ gr_ConfigSigningKeyID g = keyID lib (k_PublicKey cfg)) /\
    (logged (gp_OperatorA p) "genesis-ca" (gp_CAName p) w' /\ logged (gp_OperatorB p) "genesis-config-key" (gr_ConfigSigningKeyID g) w' /\
     logged (gp_OperatorB p) "genesis-complete" (gp_CAName p) w') /\
    (has_lease (gp_LighthouseIP p) (g_addr w') /\ forall r, no_impostor r (normFingerprint (gr_LighthouseFingerprint g)) w -> shielded r (normFingerprint (gr_LighthouseFingerprint g)) w') /\
    (gr_CoreCertPEM g <> None ->
       has_lease (gp_CoreIP p) (g_addr w') /\ forall r, no_impostor r (normFingerprint (gr_CoreFingerprint g)) w -> shielded r (normFingerprint (gr_CoreFingerprint g)) w')) w.
Proof.
  unfold Run. destruct (_ || _ || _) eqn:Eop; [by wp_step|]. bool_split. wp_step. wp_step.
  wp_step. apply solo_ca_root; [done|]. intros caC caPEM caPub w1 K1 Hca (ca & Hcain & Hcan & Hcak & Hcap & Hcas) Hl1. wp_step.
  apply solo_config_root; [intros e w2 K2; by split; [etrans|]|]. intros cfgPub w2 K2 Hcf Hne (cfg & Hcfin & Hcfn & Hcfk & Hcfp & Hcfs) Hl2.
  assert (Ha2 : advances cp_any w w2) by (by etrans). wp_step.
  apply solo_lighthouse; [intros e w3 K3; by split; [etrans|]|]. intros sg lhC lhPEM w3 K3 Hlh. assert (Ha3 : advances cp_any w w3) by (by etrans). wp_step.
  apply solo_core; [intros e w4 K4; by split; [etrans|]|]. intros cpem cfp w4 K4 Hcore. assert (Ha4 : advances cp_any w w4) by (by etrans). wp_step.
  apply solo_sso. intros [sso|e] w5 K5; [|by split; [etrans|]]. assert (Ha5 : advances cp_any w w5) by (by etrans). wp_step.
  apply (solo_gaudit cp_any); [by split|]. intros w6 K6 Hl6. wp_step. assert (Ha6 : advances cp_any w w6) by (by etrans). split; [done|].
  assert (K46 : advances cp_any w4 w6) by (by etrans). assert (K36 : advances cp_any w3 w6) by (by etrans).
  assert (K26 : advances cp_any w2 w6) by (by etrans). assert (K16 : advances cp_any w1 w6) by (by etrans).
  intros g [= <-]. cbn [gr_ConfigSigningKeyID gr_LighthouseFingerprint gr_CoreCertPEM gr_CoreFingerprint fst snd]. split_and!; try done.
  - exists ca, cfg. subst caPub cfgPub. split_and!; try done; [by apply (advances_key _ _ _ _ K16)|by apply (advances_key _ _ _ _ K26)].
  - by apply (advances_logged _ _ _ _ _ _ K16).
  - by apply (advances_logged _ _ _ _ _ _ K26).
  - eapply advances_lease; [exact K36|apply Hlh].
  - intros r Hno. eapply certified_shielded; [exact Ha6|done|]. eapply certified_stays; [exact K36|exact Hlh].
  - intros Hc. pose proof (certified_stays _ _ _ _ K46 (Hcore Hc)) as Hc6. split; [apply Hc6|]. intros r Hno. eapply certified_shielded; [exact Ha6|exact Hno|exact Hc6].
Qed.
End ceremony.

(** A minted lighthouse is protected too. Whatever calls fail, only issued rows of a reserved group
    are added, and a success has the pinned address and a fingerprint no registry adds to the
    blocklist. *)
Theorem minted_lighthouse_is_protected backend caPEM m w :
  solo (mintLighthouse lib backend caPEM m) (fun res w' => grows cp_any w w' /\ forall pem fp ip, res = Ok (pem, fp, ip) ->
    has_lease (mt_IP m) (g_addr w') /\ ip = AddrString (mt_IP m) /\ forall r, no_impostor r (normFingerprint fp) w -> shielded r (normFingerprint fp) w') w.
Proof.
  unfold mintLighthouse. destruct (host_key _ _) as [pub|e]; [|by wp_step]. destruct (NewAllocator _) as [alloc|e] eqn:Ea; [|by wp_step].
  assert (alloc = mkAllocator (mkPool (mt_Pool m) ∅ [] 0) None None) as -> by (unfold NewAllocator in Ea; repeat case_match; congruence).
  assert (Hrel : forall a ip e w1, grows cp_any w w1 -> solo (_ ← ignore (on_addr (Release a ip)); throw e) (fun (res : result gerr (string * string * string)) w' => grows cp_any w w' /\
      forall pem fp ip', res = Ok (pem, fp, ip') -> has_lease (mt_IP m) (g_addr w') /\ ip' = AddrString (mt_IP m) /\ forall r, no_impostor r (normFingerprint fp) w -> shielded r (normFingerprint fp) w') w1).
  { intros a ip e w1 [Hk Hr]. wp_step. wp_step. apply solo_on_addr, solo_any. intros r s'. wp_step. by split. }
  wp_step. apply solo_on_addr, solo_AllocateSpecific; [intros e s1 H1; split; [apply (over_advances cp_any), H1|done]|]. intros s1 H1 Hl1.
  pose proof (over_advances cp_any s1 w H1) as Ha. assert (Hl : has_lease (mt_IP m) (g_addr (over addr_part s1 w))) by done. set (w1 := over addr_part s1 w) in *. cbv beta iota.
  destruct (Signer.New _ _ _ _) as [sg|e]; [|apply Hrel, Ha]. wp_step. wp_step. wp_step. wp_step. apply (solo_issue cp_any). intros [[c pem]|e] w2 H2 _ _; [|apply Hrel; etrans; [apply Ha|apply H2]].
  assert (Ha2 : advances cp_any w w2) by (by etrans).
  wp_step. apply solo_Record_cp; [done|intros e; split; [apply Ha2|done]|]. intros w3 H3 Hrow. wp_step. assert (Ha3 : advances cp_any w w3) by (by etrans).
  split; [apply Ha3|]. intros pem' fp' ip' [= <- <- <-]. assert (Hc : certified (mt_IP m) (ct_Fingerprint c) w3).
  { split; [|done]. eapply advances_lease; [exact H3|]. eapply advances_lease; [exact H2|exact Hl]. }
  split_and!; [apply Hc|done|]. intros r Hno. eapply certified_shielded; [exact Ha3|exact Hno|exact Hc].
Qed.

(** The repair command writes only rows the guard protects. Whatever calls fail, for a guard
    with the same central block: an error leaves the tables as they were; a success has added no
    row if one of the fingerprint was issued already, and otherwise exactly one, issued, protected,
    and kept by renewal, after which no registry adds the fingerprint to the blocklist. *)
Theorem backfill_writes_protected_rows r pem ov w :
  solo (backfillCPEnrollment lib pem (v_central r) ov) (fun res w' =>
    match res with
    | Err _ => w' = w
    | Ok b => (if bf_AlreadyPresent b then w' = w else exists e, w' = add_enroll e w /\ cp_row r e /\ Enrollment.en_Fingerprint e = bf_Fingerprint b) /\
        (no_impostor r (bf_Fingerprint b) w -> shielded r (bf_Fingerprint b) w')
    end) w.
Proof.
  unfold backfillCPEnrollment. destruct (gl_parseLeaf lib pem) as [c|]; [|by wp_step]. destruct (lf_Fingerprint c) as [fp|]; [|by wp_step].
  destruct (backfill_allowed _ _ _) eqn:Eg; cbn [negb]; [|by wp_step]. wp_step. wp_step; [done|]. wp_step. fold (normFingerprint fp).
  apply solo_Record; [done|..].
  - intros e He Hi. wp_step. cbn [bf_AlreadyPresent bf_Fingerprint].
    assert (0 <? Z.of_nat (length (List.filter (issued_as (normFingerprint fp)) (g_enrolls w))) = true) as ->.
    { apply Z.ltb_lt. destruct (List.filter _ _) as [|x l] eqn:Ef; [|cbn [length]; lia]. assert (In e []) as []. rewrite <- Ef. apply filter_In. by rewrite <- list_elem_of_In. }
    split; [done|]. intros Hno. apply cp_shielded. split; [by exists e|done].
  - intros e Hfp Hst Hgr Hde Hip _ Hnone. wp_step. cbn [bf_AlreadyPresent bf_Fingerprint].
    assert (0 <? Z.of_nat (length (List.filter (issued_as (normFingerprint fp)) (g_enrolls w))) = false) as ->.
    { rewrite filter_none by done. done. }
    assert (Hcp : cp_row r e) by (split_and!; [done| |by rewrite Hde]; unfold is_protected; cbn; by rewrite Hgr, Hip). split; [by exists e|].
    intros Hno. apply cp_shielded. split.
    + exists e. split; [apply elem_of_app; right; by left|]. unfold issued_as. by rewrite !bool_decide_true.
    + intros x [Hx|Hx]%elem_of_app; [by apply Hno|]. apply list_elem_of_singleton in Hx as ->. intros _. apply Hcp.
Qed.
Lemma find_last {A} (f : A -> bool) l x : find_first f (rev l) = Some x -> exists l1 l2, l = l1 ++ x :: l2 /\ f x = true /\ forall y, y ∈ l2 -> f y = false.
Proof.
  induction l as [|y l IH] using rev_ind; [done|]. rewrite rev_unit. cbn. destruct (f y) eqn:E.
  - intros [= <-]. exists l, []. split_and!; [done|done|]. intros z Hz. by apply elem_of_nil in Hz.
  - intros (l1 & l2 & -> & Hx & Hl)%IH. exists l1, (l2 ++ [y]). split_and!; [by rewrite <- app_assoc|done|].
    intros z [Hz|Hz]%elem_of_app; [by apply Hl|]. by apply list_elem_of_singleton in Hz as ->.
Qed.

(** An update by key touches one row. *)
Lemma map_unique {A} (key : A -> Z) (g : A -> A) x l1 l2 : NoDup (key <$> (l1 ++ x :: l2)) ->
  map (fun y => if key y =? key x then g y else y) (l1 ++ x :: l2) = l1 ++ g x :: l2.
Proof.
  rewrite fmap_app, fmap_cons. intros Hnd. apply NoDup_app in Hnd as (_ & Hd & [Hx _]%NoDup_cons).
  assert (Hid : forall l, key x ∉ key <$> l -> map (fun y => if key y =? key x then g y else y) l = l).
  { intros l Hl. rewrite <- (map_id l) at 2. apply map_ext_in. intros y Hy. destruct (key y =? key x) eqn:E; [|done]. bool_split. destruct Hl. rewrite <- E. apply list_elem_of_fmap_2. by apply list_elem_of_In. }
  rewrite map_app. cbn. rewrite Z.eqb_refl, !Hid; [done|done|]. intros H. apply (Hd _ H). by left.
Qed.

Lemma rotated_rows g fp pem e l1 l2 w x : g_enrolls w = l1 ++ e :: l2 -> no_impostor g fp w -> GroupLighthouse ∈ Enrollment.en_Groups e ->
  x ∈ l1 ++ set_cert pem fp e :: l2 -> issued_as fp x = true -> is_protected g (as_enrolled x) = true.
Proof.
  intros Hl Hno Hg Hx Hi. apply elem_of_app in Hx as [Hx|[->|Hx]%elem_of_cons]; [apply Hno; [|done]; rewrite Hl; apply elem_of_app; by left| |apply Hno; [|done]; rewrite Hl; apply elem_of_app; right; by right].
  unfold is_protected. cbn. rewrite (proj2 (existsb_elem _ _)); [done|]. by exists GroupLighthouse.
Qed.

(** A rotation renews one certificate and nothing else. Whatever calls fail: without a certificate
    returned the enrollments are as before; otherwise the row changed is the latest issued one of the
    device, a lighthouse, and differs only in its certificate and fingerprint, so that renewal and the
    guard see the same groups and address, and no registry adds the new fingerprint. *)
Theorem rotation_keeps_the_identity backend caPEM p w : NoDup (en_ID <$> g_enrolls w) ->
  solo (rotateLighthouseCert lib backend caPEM p) (fun res w' =>
    match res with
    | Ok (Some r) => exists e l1 l2, g_enrolls w = l1 ++ e :: l2 /\ g_enrolls w' = l1 ++ set_cert (rr_CertPEM r) (rr_Fingerprint r) e :: l2 /\
        en_DeviceName e = ro_Name p /\ Enrollment.en_Status e = "issued" /\ (forall x, x ∈ l2 -> is_device (ro_Name p) x = false) /\
        GroupLighthouse ∈ Enrollment.en_Groups e /\ rr_OverlayIP r = Enrollment.en_OverlayIP e /\
        forall g, no_impostor g (rr_Fingerprint r) w -> shielded g (rr_Fingerprint r) w'
    | Ok None => w' = w
    | Err _ => g_enrolls w' = g_enrolls w
    end) w.
Proof.
  intros Hnd. unfold rotateLighthouseCert. wp_step. wp_step. wp_step. wp_step; [done|].
  destruct (find_first _ _) as [e|] eqn:Ef; [|by wp_step]. destruct (negb _) eqn:Eg; [by wp_step|]. bool_split. destruct (ParseAddr _) as [ip|]; [|by wp_step].
  destruct (not_due _ _ _ _); [by wp_step|]. destruct (Signer.New _ _ _ _) as [sg|err]; [|by wp_step].
  wp_step. apply (solo_issue (fun _ => True)). intros [[c pem]|err] w1 _ He _; [|done].
  apply find_last in Ef as (l1 & l2 & Hl & Hf & Hlast). unfold is_device in Hf. bool_split.
  wp_step. wp_step; [done|]. split; [done|]. wp_step. wp_step. unfold audit. wp_step; cbn [fst snd]; [|split; [done|]]; wp_step; exists e, l1, l2; cbn [g_enrolls set_enrolls log_row over addr_part];
    rewrite He, Hl, (map_unique en_ID) by (rewrite <- Hl; done); split_and!; try done; intros g Hno; apply cp_shielded; (split; [eexists; split; [apply elem_of_app; right; by left|]; unfold issued_as; by rewrite !bool_decide_true|]);
    (intros x Hx Hi; cbn [g_enrolls set_enrolls log_row over addr_part] in Hx; eapply rotated_rows; [exact Hl|exact Hno|exact Eg|exact Hx|exact Hi]).
Qed.
End parts.

(** ** Concrete runs *)

Module genesis_example.
Definition pub65 (c : ascii) : string := repeat_char 65 c.
Definition ca_cert : Cert := mkCert true true "ca-key" (10 ^ 30) "fp-mesh" "".
Definition demo_sign (ca : option Cert) (t : TBS) (sign : string -> option string) : option Cert :=
  Some (mkCert (tb_IsCA t) true (tb_PublicKey t) (tb_NotAfter t) ("fp-" +:+ tb_Name t) (match ca with Some c => ct_Fingerprint c | None => "" end)).
Definition laptop : Leaf := mkLeaf "laptop" ["laptops"] [mkPrefix (ip4 10 44 9 9) 16] (Some "fp-laptop") (pub65 "x").
Definition lib_with (sign : option Cert -> TBS -> (string -> option string) -> option Cert) : GLib :=
  mkGLib (fun s => s) (fun _ => Some ca_cert) sign (fun c => Some (ct_Fingerprint c)) (fun _ => Some laptop) (fun s => Some (s, true)) (fun s => s)
    (Some "k") (fun _ => Some "priv") (fun _ => Some "pub") (fun s => s) (fun _ => "") (fun _ => "").
Definition demo_lib : GLib := lib_with demo_sign.
Definition root (pub : string) : Backend := mkBackend (Some pub) (fun _ => Some "sig").
Definition params_in (bits : Z) (def : Prefix) (ca core : string) : Params :=
  mkGParams "ann" "bob" ca (mkPrefix (ip4 10 44 0 0) bits) PrefixZero def "lh" (ip4 10 44 0 1) "" (pub65 "l") "" (ip4 10 44 0 2) core (365 * 24 * hour) (24 * hour).
Definition params (bits : Z) (ca core : string) : Params := params_in bits PrefixZero ca core.
Definition empty_world : GWorld := mkGWorld empty_store [] 1 [] 1.
Definition ceremony (p : Params) : M GWorld gerr GResult := Run demo_lib (root "ca-key") (root "cfg-key") p.

(** A ceremony with Core completes, and its two hosts are enrolled. *)
Example ceremony_completes :
  let r := run 7 (ceremony (params 16 "mesh" (pub65 "c"))) empty_world in
  is_ok r.1 = true /\ (Enrollment.en_Groups <$> g_enrolls r.2) = [["lighthouse"]; ["control-plane"]] /\ (al_ip <$> allocs (g_addr r.2)) = ["10.44.0.1"; "10.44.0.2"] /\
  (k_Kind <$> g_keys r.2) = ["ca"; "config-signing"; "sso-assertion"] /\ (nb_cidr <$> netblocks (g_addr r.2)) = ["10.44.0.0/27"; "10.44.64.0/18"].
Proof. vm_compute. done. Qed.

(** With the documented defaults a pool of /18 or finer cannot be bootstrapped: the default block is the
    whole pool and overlaps the central one. The CA and config-signing keys are recorded by then, so the
    ceremony with an explicit default range, which would have completed, is refused afterwards. *)
Example small_pool_wedges_the_ceremony :
  let r := run 7 (ceremony (params 18 "mesh" "")) empty_world in
  r.1 = Err (G_Addr NB_Overlap) /\ (k_Kind <$> g_keys r.2) = ["ca"; "config-signing"] /\ (nb_name <$> netblocks (g_addr r.2)) = ["central"] /\
  let explicit := ceremony (params_in 18 (mkPrefix (ip4 10 44 32 0) 19) "mesh" "") in
  is_ok (run 7 explicit empty_world).1 = true /\ (run 8 explicit r.2).1 = Err G_KeyExists.
Proof. vm_compute. done. Qed.

(** A ceremony without Core cannot be repeated with Core's key: the CA's name is taken, and under another
    name the lighthouse's address is. *)
Example ceremony_cannot_add_core_later :
  let w := (run 7 (ceremony (params 16 "mesh" "")) empty_world).2 in
  (run 8 (ceremony (params 16 "mesh" (pub65 "c"))) w).1 = Err G_KeyExists /\
  (run 8 (ceremony (params 16 "mesh-2" (pub65 "c"))) w).1 = Err (G_Addr IP_AddrTaken).
Proof. vm_compute. done. Qed.

(** The repair command takes the groups it checks from its own flag: with it, the certificate of an ordinary
    host gets an issued row with a reserved group, which the revocation guard then protects. *)
Example backfill_override_forges_a_control_plane_host :
  let central := CentralBlock (mkPrefix (ip4 10 44 0 0) 16) in
  (run 7 (backfillCPEnrollment demo_lib "pem" central (mkOverrides "" [] "")) empty_world).1 = Err G_NotReserved /\
  let r := run 7 (backfillCPEnrollment demo_lib "pem" central (mkOverrides "" ["control-plane"] "")) empty_world in
  is_ok r.1 = true /\ (as_enrolled <$> g_enrolls r.2) = [mkEnrolled "fp-laptop" "issued" ["control-plane"] "10.44.9.9"].
Proof. vm_compute. done. Qed.

Lemma seeding_needs_a_coarse_pool_witness :
  exists c d s', run 7 (SeedNetblocks (registry_on demo_pool) demo_pool PrefixZero PrefixZero "ann") empty_store = (Ok (c, d), s') /\ netblocks s' = [c; d].
Proof.
  pose proof (solo_run _ _ empty_store 7 (seeding_needs_a_coarse_pool demo_pool "ann" empty_store ltac:(exists (10 * 2 ^ 24 + 44 * 2 ^ 16), 16; split_and!; [done|split; [by vm_compute|by vm_compute]|lia|lia]) eq_refl)) as H.
  destruct (run 7 _ _) as [[[c d]|e] s'] eqn:E; [|vm_compute in E; discriminate]. exists c, d, s'. split; [done|apply H].
Defined.
(** A library whose certificates all have one fingerprint. *)
Definition lib_fp (fp : string) : GLib := lib_with (fun ca t sign => Some (mkCert (tb_IsCA t) true (tb_PublicKey t) (tb_NotAfter t) fp "")).
Definition old_fp : string := repeat_char 64 "a".
Definition new_fp : string := repeat_char 64 "b".
Definition before_rotation : GWorld := (run 7 (Run (lib_fp old_fp) (root "ca-key") (root "cfg-key") (params 16 "mesh" "")) empty_world).2.
Definition rotation : M GWorld gerr (option rotateResult) := rotateLighthouseCert (lib_fp new_fp) (root "ca-key") "pem" (mkRotate "lh" (mkPrefix (ip4 10 44 0 0) 16) (24 * hour) 0).
Definition blocklist_over (w : GWorld) : VStore := mkVStore [] 1 (as_enrolled <$> g_enrolls w) [] [].
Definition guard : VRegistry := WithCentralBlock (CentralBlock (mkPrefix (ip4 10 44 0 0) 16)) (Revocation.New true false).
Definition blocklist_add (fp : string) (w : GWorld) : result verr Row := (run 8 (Revocation.Add guard (fun s => s) fp "" "eve") (blocklist_over w)).1.

(** A rotation moves the row to the new fingerprint before the lighthouse has the new certificate: the one it
    still runs with has no row any more, and the guard lets it be blocklisted. *)
Example rotation_unshields_the_running_certificate :
  blocklist_add old_fp before_rotation = Err V_ControlPlaneProtected /\
  let after := (run 8 rotation before_rotation).2 in
  blocklist_add new_fp after = Err V_ControlPlaneProtected /\ is_ok (blocklist_add old_fp after) = true.
Proof. vm_compute. done. Qed.

End genesis_example.
