(* ===== verification/Rotation.v ===== *)
(** * internal/ca and internal/configkey: online rotation of the trust roots

    The CA registry and the config-signing-key registry run the same lifecycle
    (staged, active, draining, retired) over tables of the same shape. A row of either
    table is a [Key]; a package is what differs: how it parses its PEM, and the gate
    [Retire] must pass. A config key has no expiry and is never force-drained: those
    columns stay 0. Certificate and key parsing are parameters, the custody backend of
    [ScheduleKeyDeletion] is the record [KeyDeleter] with its class of laws. *)

From S2P Require Import Prelude Db GoStrings.
From stdpp Require Import prelude strings list relations sorting.
From Stdlib Require Import ZArith Lia.
Open Scope Z_scope.

Definition StateStaged : string := "staged".
Definition StateActive : string := "active".
Definition StateDraining : string := "draining".
Definition StateRetired : string := "retired".

Inductive rerr : Type :=
| R_NotFound | R_Invalid | R_Duplicate | R_EmptyName | R_Illegal | R_HasDependents (n : Z) | R_NotDrained (n : Z) | R_NoActive
| R_Window | R_NoBackend | R_Scheduled | R_NotScheduled | R_Backend | R_Unrecorded | R_Constraint | R_Fault.
#[export] Instance rerr_db : DbError rerr := R_Fault.

(** [CA], of ca_certs, and [ConfigKey], of config_signing_keys. *)
Record Key : Type := mkKey {
  y_ID : Z;
  y_Name : string;
  y_Fingerprint : string;
  y_PEM : string;
  y_KMSKeyID : string;
  y_State : string;
  y_NotAfter : Z;
  y_CreatedBy : string;
  y_CreatedAt : Z;
  y_UpdatedAt : Z;
  y_ForceRenewStartedAt : Z;
  y_ForceRenewWindowNS : Z;
  y_KeyDeletionScheduledAt : Z;
  y_KeyDeletionDate : Z;
}.
Definition no_key : Key := mkKey 0 "" "" "" "" "" 0 "" 0 0 0 0 0 0.

(** The columns the gates read of heartbeats and of the issued enrollments; a JSON column
    is the list it encodes (a malformed one, the empty list). *)
Record Beat : Type := mkBeat { bt_IP : string; bt_LastSeen : Z; bt_TrustedCAs : list string; bt_TrustedConfigKeys : list string; bt_CertNotAfter : Z }.
Record LeafRow : Type := mkLeafRow { lr_IP : string; lr_Status : string; lr_CAFingerprint : string; lr_CertPEM : string }.

Record RStore : Type := mkRStore {
  krows : list Key;                        (* in id order *)
  k_next : Z;
  beats : list Beat;
  leafrows : list LeafRow;
  kms : list string;                       (* keys pending deletion in the custody backend *)
  r_audit : list (string * string);        (* actor, and action without the package's prefix *)
}.
Definition set_krows (l : list Key) (n : Z) (s : RStore) : RStore := mkRStore l n (beats s) (leafrows s) (kms s) (r_audit s).
Definition set_kms (l : list string) (s : RStore) : RStore := mkRStore (krows s) (k_next s) (beats s) (leafrows s) l (r_audit s).
Definition add_raudit (e : string * string) (s : RStore) : RStore :=
  mkRStore (krows s) (k_next s) (beats s) (leafrows s) (kms s) (r_audit s ++ [e]).

Abbreviation RM := (M RStore rerr).

Definition has_id (id : Z) (k : Key) : bool := y_ID k =? id.
Definition in_state (st : string) (k : Key) : bool := bool_decide (y_State k = st).

(** [UPDATE ... SET state, updated_at], force-renew and deletion columns *)
Definition with_state (st : string) (t : Z) (k : Key) : Key :=
  mkKey (y_ID k) (y_Name k) (y_Fingerprint k) (y_PEM k) (y_KMSKeyID k) st (y_NotAfter k) (y_CreatedBy k) (y_CreatedAt k) t
    (y_ForceRenewStartedAt k) (y_ForceRenewWindowNS k) (y_KeyDeletionScheduledAt k) (y_KeyDeletionDate k).
Definition with_force (started window t : Z) (k : Key) : Key :=
  mkKey (y_ID k) (y_Name k) (y_Fingerprint k) (y_PEM k) (y_KMSKeyID k) (y_State k) (y_NotAfter k) (y_CreatedBy k) (y_CreatedAt k) t
    started window (y_KeyDeletionScheduledAt k) (y_KeyDeletionDate k).
Definition with_deletion (scheduled date t : Z) (k : Key) : Key :=
  mkKey (y_ID k) (y_Name k) (y_Fingerprint k) (y_PEM k) (y_KMSKeyID k) (y_State k) (y_NotAfter k) (y_CreatedBy k) (y_CreatedAt k) t
    (y_ForceRenewStartedAt k) (y_ForceRenewWindowNS k) scheduled date.

(** A conditional update: rows affected. *)
Definition update_where (f : Key -> bool) (g : Key -> Key) (s : RStore) : Z * RStore :=
  (Z.of_nat (length (List.filter f (krows s))), set_krows (map (fun k => if f k then g k else k) (krows s)) (k_next s) s).

(** The partial unique index: an update that would leave two active rows fails. *)
Definition update_indexed (f : Key -> bool) (g : Key -> Key) (s : RStore) : result rerr (Z * RStore) :=
  let (n, s') := update_where f g s in
  if (1 <? Z.of_nat (length (List.filter (in_state StateActive) (krows s')))) then Err R_Constraint else Ok (n, s').

(** [INSERT]: name and fingerprint are unique, and so is an active row. *)
Definition create_key (mk : Z -> Key) (s : RStore) : result rerr (Key * RStore) :=
  let k := mk (k_next s) in
  if existsb (fun x => bool_decide (y_Name x = y_Name k) || bool_decide (y_Fingerprint x = y_Fingerprint k) ||
                       (in_state StateActive x && in_state StateActive k)) (krows s)
  then Err R_Constraint
  else Ok (k, set_krows (krows s ++ [k]) (k_next s + 1) s).

Definition recordAudit (actor action : string) : RM unit := ignore (exec (fun s => ((), add_raudit (actor, action) s))).

Definition Get (id : Z) : RM Key :=
  r ← query (fun s => find_first (has_id id) (krows s));
  match r with Some k => mret k | None => throw R_NotFound end.

Definition Active : RM Key :=
  r ← query (fun s => find_first (in_state StateActive) (krows s));
  match r with Some k => mret k | None => throw R_NoActive end.

Definition ActiveFingerprint : RM string :=
  r ← attempt Active;
  match r with Ok k => mret (y_Fingerprint k) | Err R_NoActive => mret "" | Err e => throw e end.

Definition List : RM (list Key) := query (fun s => rev (krows s)).

(** The PEMs of the non-retired rows, sorted ([sort.Strings] fixes the order whatever the
    database's was). *)
Definition TrustBundle : RM (list string) :=
  query (fun s => sort_strings (map y_PEM (List.filter (fun k => negb (in_state StateRetired k)) (krows s)))).

(** [MAX(updated_at)] *)
Definition Generation : RM Z := query (fun s => match krows s with [] => 0 | k :: l => fold_left (fun m x => Z.max m (y_UpdatedAt x)) l (y_UpdatedAt k) end).

Definition activeOrEmpty : RM Key :=
  r ← attempt (query (fun s => find_first (in_state StateActive) (krows s)));
  mret (match r with Ok (Some k) => k | _ => no_key end).

(** ** A package *)

Section package.
Context (parse : string -> option (string * Z)).       (* parseCA / parseConfigPub: fingerprint, expiry *)
Context (gate : Key -> RM unit).                       (* what Retire checks of a draining row *)

Definition new_key (name fp pem kmsKeyID state : string) (notAfter t : Z) (actor : string) (id : Z) : Key :=
  mkKey id name fp pem kmsKeyID state notAfter actor t t 0 0 0 0.

Definition Stage (name pem kmsKeyID actor : string) : RM Key :=
  if decide (name = "") then throw R_EmptyName
  else match parse pem with
  | None => throw R_Invalid
  | Some (fp, notAfter) =>
      t ← now;
      r ← attempt (exec_err (create_key (new_key name fp pem kmsKeyID StateStaged notAfter t actor)));
      match r with
      | Err R_Constraint => throw R_Duplicate
      | Err e => throw e
      | Ok k => _ ← recordAudit actor "stage"; mret k
      end
  end.

(** The body of [Activate]'s transaction. *)
Definition activate_tx (id t : Z) : RM string :=
  r ← query (fun s => find_first (has_id id) (krows s));
  match r with
  | None => throw R_NotFound
  | Some target =>
      if negb (in_state StateStaged target) then throw R_Illegal
      else
        cur ← query (fun s => find_first (in_state StateActive) (krows s));
        demoted ← (match cur with
                   | Some c =>
                       _ ← exec_err (update_indexed (fun k => has_id (y_ID c) k && in_state StateActive k) (with_state StateDraining t));
                       mret (y_Name c)
                   | None => mret ""
                   end);
        n ← exec_err (update_indexed (fun k => has_id id k && in_state StateStaged k) (with_state StateActive t));
        if n =? 0 then throw R_Illegal else mret demoted
  end.

Definition Activate (id : Z) (actor : string) : RM unit :=
  t ← now;
  demoted ← tx (activate_tx id t);
  recordAudit actor "activate".

Definition Retire (id : Z) (actor : string) : RM unit :=
  target ← Get id;
  if negb (in_state StateDraining target) then throw R_Illegal
  else
    _ ← gate target;
    t ← now;
    n ← exec (update_where (fun k => has_id id k && in_state StateDraining k) (with_state StateRetired t));
    if n =? 0 then throw R_Illegal else recordAudit actor "retire".

Definition Abandon (id : Z) (actor : string) : RM unit :=
  t ← now;
  n ← exec (update_where (fun k => has_id id k && in_state StateStaged k) (with_state StateRetired t));
  if n =? 0 then
    r ← attempt (query (fun s => find_first (has_id id) (krows s)));
    match r with Ok None => throw R_NotFound | _ => throw R_Illegal end
  else recordAudit actor "abandon".

Definition SeedActive (name pem kmsKeyID actor : string) : RM (Key * bool) :=
  match parse pem with
  | None => throw R_Invalid
  | Some (fp, notAfter) =>
      n ← query (fun s => length (krows s));
      if decide (n <> 0%nat) then k ← activeOrEmpty; mret (k, false)
      else
        t ← now;
        r ← attempt (exec_err (create_key (new_key name fp pem kmsKeyID StateActive notAfter t actor)));
        match r with
        | Err R_Constraint => k ← activeOrEmpty; mret (k, false)
        | Err e => throw e
        | Ok k => _ ← recordAudit actor "seed-active"; mret (k, true)
        end
  end.
End package.

(** ** Force-drain (internal/ca) *)

Definition ForceRenew (id window : Z) (actor : string) : RM unit :=
  if window <=? 0 then throw R_Window
  else
    target ← Get id;
    if negb (in_state StateDraining target) then throw R_Illegal
    else
      t ← now;
      n ← exec (update_where (fun k => has_id id k && in_state StateDraining k) (with_force t window t));
      if n =? 0 then throw R_Illegal else recordAudit actor "force-renew".

Definition StopForceRenew (id : Z) (actor : string) : RM unit :=
  t ← now;
  n ← exec (update_where (has_id id) (with_force 0 0 t));
  if n =? 0 then throw R_NotFound else recordAudit actor "force-renew-stop".

(** [accelerated=false] is [None]. *)
Definition DrainWave (caFingerprint : string) : RM (option (Z * Z)) :=
  let fp := ToLower (TrimSpace caFingerprint) in
  if decide (fp = "") then mret None
  else
    r ← query (fun s => find_first (fun k => bool_decide (y_Fingerprint k = fp)) (krows s));
    mret (match r with
          | None => None
          | Some c =>
              if negb (in_state StateDraining c) || (y_ForceRenewStartedAt c =? 0) || (y_ForceRenewWindowNS c <=? 0) then None
              else Some (y_ForceRenewStartedAt c, y_ForceRenewWindowNS c)
          end).

(** ** Deletion of a retired key in its custody backend *)

(** [KeyDeleter] *)
Record KeyDeleter : Type := mkDeleter {
  ScheduleDeletion : string -> Z -> RM Z;
  CancelDeletion : string -> RM unit;
}.

Section deletion.
Context (deps : Key -> RM unit) (deleter : option KeyDeleter).

Definition ScheduleKeyDeletion (id pendingDays : Z) (actor : string) : RM Z :=
  match deleter with
  | None => throw R_Backend
  | Some d =>
      if (pendingDays <? 7) || (30 <? pendingDays) then throw R_Window
      else
        target ← Get id;
        if negb (in_state StateRetired target) then throw R_Illegal
        else if decide (TrimSpace (y_KMSKeyID target) = "") then throw R_NoBackend
        else if negb (y_KeyDeletionScheduledAt target =? 0) then throw R_Scheduled
        else
          _ ← deps target;
          delDate ← ScheduleDeletion d (y_KMSKeyID target) pendingDays;
          t ← now;
          r ← attempt (exec (update_where (fun k => has_id id k && in_state StateRetired k && (y_KeyDeletionScheduledAt k =? 0)) (with_deletion t delDate t)));
          let undo (e : rerr) : RM Z :=
            c ← attempt (CancelDeletion d (y_KMSKeyID target));
            match c with Ok _ => throw e | Err _ => throw R_Unrecorded end in
          match r with
          | Err e => undo e
          | Ok n => if n =? 0 then undo R_Illegal else _ ← recordAudit actor "key-deletion-scheduled"; mret delDate
          end
  end.

Definition CancelKeyDeletion (id : Z) (actor : string) : RM unit :=
  match deleter with
  | None => throw R_Backend
  | Some d =>
      target ← Get id;
      if y_KeyDeletionScheduledAt target =? 0 then throw R_NotScheduled
      else
        _ ← CancelDeletion d (y_KMSKeyID target);
        t ← now;
        n ← exec (update_where (has_id id) (with_deletion 0 0 t));
        if n =? 0 then throw R_NotFound else recordAudit actor "key-deletion-cancelled"
  end.
End deletion.

(** [Order("key_deletion_date ASC")] *)
Definition by_deletion (a b : Key) : Prop := y_KeyDeletionDate a <= y_KeyDeletionDate b.
#[export] Instance by_deletion_dec a b : Decision (by_deletion a b).
Proof. unfold by_deletion. apply _. Defined.

Definition PendingKeyDeletions : RM (list Key) :=
  query (fun s => merge_sort by_deletion (List.filter (fun k => 0 <? y_KeyDeletionScheduledAt k) (krows s))).

(** ** Adoption *)

Record Adoption : Type := mkAdoption { ad_Fingerprint : string; ad_Live : Z; ad_Adopted : Z; ad_Laggards : list string; ad_Stale : list string }.

Definition FullyAdopted (a : Adoption) : bool := bool_decide (ad_Laggards a = []).

Section adoption.
Context (norm : string -> string) (trusts : Beat -> list string).

(** [containsFold] / [containsExact] *)
Definition contains_key (fps : list string) (fp : string) : bool := existsb (fun x => bool_decide (norm x = fp)) fps.

Fixpoint tally (all : bool) (cutoff : Z) (fp : string) (rows : list Beat) (out : Adoption) : Adoption :=
  match rows with
  | [] => out
  | h :: rows =>
      tally all cutoff fp rows
        (if negb all && (bt_LastSeen h <? cutoff)
         then mkAdoption (ad_Fingerprint out) (ad_Live out) (ad_Adopted out) (ad_Laggards out) (ad_Stale out ++ [bt_IP h])
         else if contains_key (trusts h) fp
         then mkAdoption (ad_Fingerprint out) (ad_Live out + 1) (ad_Adopted out + 1) (ad_Laggards out) (ad_Stale out)
         else mkAdoption (ad_Fingerprint out) (ad_Live out + 1) (ad_Adopted out) (ad_Laggards out ++ [bt_IP h]) (ad_Stale out))
  end.

Definition AdoptionStatus (fingerprint : string) (staleAfter : Z) : RM Adoption :=
  let fp := norm fingerprint in
  rows ← query beats;
  t ← now;
  let out := tally (staleAfter <=? 0) (t - staleAfter) fp rows (mkAdoption fp 0 0 [] []) in
  mret (mkAdoption fp (ad_Live out) (ad_Adopted out) (sort_strings (ad_Laggards out)) (sort_strings (ad_Stale out))).
End adoption.

(** ** The two packages *)

Module CA.
Section ca.
Context (parseCA : string -> option (string * Z)).
Context (parseLeaf : string -> option (string * Z)).     (* a leaf's issuer and expiry *)

Definition fold_fp (s : string) : string := ToLower (TrimSpace s).

(** The expiry of the leaf a host presents now: its heartbeat's, else the stored
    certificate's. *)
Definition leaf_expiry (hbs : list Beat) (e : LeafRow) : Z :=
  let frozen := match parseLeaf (lr_CertPEM e) with Some (_, x) => x | None => 0 end in
  match find_first (fun h => bool_decide (bt_IP h = lr_IP e)) (rev hbs) with
  | Some h => if 0 <? bt_CertNotAfter h then bt_CertNotAfter h else frozen
  | None => frozen
  end.

(** The CA of a row; [None] when it cannot be told. *)
Definition leaf_issuer (e : LeafRow) : option string :=
  let rowFP := fold_fp (lr_CAFingerprint e) in
  if decide (rowFP = "") then (fun p => fold_fp p.1) <$> parseLeaf (lr_CertPEM e) else Some rowFP.

Definition is_dependent (hbs : list Beat) (t : Z) (fp : string) (e : LeafRow) : bool :=
  bool_decide (leaf_issuer e = Some fp) && (t <? leaf_expiry hbs e).

Definition LiveDependents (caFingerprint : string) : RM Z :=
  let fp := fold_fp caFingerprint in
  rows ← query (fun s => List.filter (fun e => bool_decide (lr_Status e = "issued")) (leafrows s));
  hbs ← query beats;
  t ← now;
  mret (Z.of_nat (length (List.filter (is_dependent hbs t fp) rows))).

Definition no_dependents (target : Key) : RM unit :=
  n ← LiveDependents (y_Fingerprint target);
  if 0 <? n then throw (R_HasDependents n) else mret ().

Definition Stage := Rotation.Stage parseCA.
Definition Retire := Rotation.Retire no_dependents.
Definition SeedActive := Rotation.SeedActive parseCA.
Definition ScheduleKeyDeletion := Rotation.ScheduleKeyDeletion no_dependents.
Definition AdoptionStatus := Rotation.AdoptionStatus fold_fp bt_TrustedCAs.
End ca.
End CA.

Module ConfigKey.
Section configkey.
Context (parseConfigPub : string -> option string).

Definition AdoptionStatus := Rotation.AdoptionStatus TrimSpace bt_TrustedConfigKeys.

Definition DrainLaggards (staleAfter : Z) : RM Z :=
  activeFp ← ActiveFingerprint;
  if decide (activeFp = "") then throw R_NoActive
  else
    ad ← AdoptionStatus activeFp staleAfter;
    mret (Z.of_nat (length (ad_Laggards ad))).

Definition drained (staleAfter : Z) (_ : Key) : RM unit :=
  n ← DrainLaggards staleAfter;
  if 0 <? n then throw (R_NotDrained n) else mret ().

Definition Stage := Rotation.Stage (fun pem => (fun fp => (fp, 0)) <$> parseConfigPub pem).
Definition Retire (id staleAfter : Z) := Rotation.Retire (drained staleAfter) id.
Definition SeedActive := Rotation.SeedActive (fun pem => (fun fp => (fp, 0)) <$> parseConfigPub pem).
Definition ScheduleKeyDeletion := Rotation.ScheduleKeyDeletion (fun _ => mret ()).
Definition TrustedKeys : RM (list string) := TrustBundle.
Definition Activate := Rotation.Activate.
Definition Abandon := Rotation.Abandon.
Definition Active := Rotation.Active.
Definition ActiveFingerprint := Rotation.ActiveFingerprint.
Definition List := Rotation.List.
Definition Get := Rotation.Get.
Definition activeOrEmpty := Rotation.activeOrEmpty.
Definition CancelKeyDeletion := Rotation.CancelKeyDeletion.
Definition PendingKeyDeletions := Rotation.PendingKeyDeletions.
End configkey.
End ConfigKey.

(** ** The lifecycle as a state machine *)

Definition same_key (a b : Key) : Prop :=
  y_ID b = y_ID a /\ y_Name b = y_Name a /\ y_Fingerprint b = y_Fingerprint a /\ y_PEM b = y_PEM a /\ y_KMSKeyID b = y_KMSKeyID a.

(** The rows after an update that gives row [k] the state [g k]. *)
Definition restated (g : Key -> string) (s s' : RStore) : Prop :=
  Forall2 (fun k k' => same_key k k' /\ y_State k' = g k) (krows s) (krows s') /\ k_next s' = k_next s.

Definition leave (id : Z) (from : string) (k : Key) : string :=
  if has_id id k && in_state from k then StateRetired else y_State k.
Definition promote (id : Z) (k : Key) : string :=
  if has_id id k then StateActive else if in_state StateActive k then StateDraining else y_State k.

Inductive rot_step (s s' : RStore) : Prop :=
| ro_touch : restated y_State s s' -> rot_step s s'
| ro_leave id from : (from = StateDraining \/ from = StateStaged) -> restated (leave id from) s s' -> rot_step s s'
| ro_activate id k : k ∈ krows s -> y_ID k = id -> y_State k = StateStaged -> restated (promote id) s s' -> rot_step s s'
| ro_new k : y_ID k = k_next s -> (forall x, x ∈ krows s -> y_Name x <> y_Name k /\ y_Fingerprint x <> y_Fingerprint k) ->
    (y_State k = StateStaged \/ y_State k = StateActive /\ forall x, x ∈ krows s -> y_State x <> StateActive) ->
    krows s' = krows s ++ [k] -> k_next s' = k_next s + 1 -> rot_step s s'.

(** How far a key is in its life. *)
Definition rank (st : string) : Z :=
  if decide (st = StateStaged) then 0 else if decide (st = StateActive) then 1 else if decide (st = StateDraining) then 2 else 3.

Record r_inv (s : RStore) : Prop := mkRInv {
  ri_ids : NoDup (y_ID <$> krows s);
  ri_seq : forall k, k ∈ krows s -> y_ID k < k_next s;
  ri_names : NoDup (y_Name <$> krows s);
  ri_fps : NoDup (y_Fingerprint <$> krows s);
  ri_one : forall a b, a ∈ krows s -> b ∈ krows s -> y_State a = StateActive -> y_State b = StateActive -> y_ID a = y_ID b;
}.

Lemma fwd_row {g s s'} k : restated g s s' -> k ∈ krows s -> exists k', k' ∈ krows s' /\ same_key k k' /\ y_State k' = g k.
Proof. intros [Hr _] Hin. induction Hr as [|a b l l' Hab Hr IH]; [by apply elem_of_nil in Hin|]. apply elem_of_cons in Hin as [->|Hin].
  - exists b. split; [by left|done].
  - destruct (IH Hin) as (k' & ? & ?). exists k'. split; [by right|done].
Qed.

Lemma bwd_row {g s s'} k' : restated g s s' -> k' ∈ krows s' -> exists k, k ∈ krows s /\ same_key k k' /\ y_State k' = g k.
Proof. intros [Hr _] Hin. induction Hr as [|a b l l' Hab Hr IH]; [by apply elem_of_nil in Hin|]. apply elem_of_cons in Hin as [->|Hin].
  - exists a. split; [by left|done].
  - destruct (IH Hin) as (k & ? & ?). exists k. split; [by right|done].
Qed.

Lemma restated_cols {g s s'} : restated g s s' ->
  y_ID <$> krows s' = y_ID <$> krows s /\ y_Name <$> krows s' = y_Name <$> krows s /\ y_Fingerprint <$> krows s' = y_Fingerprint <$> krows s.
Proof.
  intros [Hr _]. induction Hr as [|a b l l' [(H1 & H2 & H3 & _) _] Hr (I1 & I2 & I3)]; [done|]. cbn. by rewrite H1, H2, H3, I1, I2, I3.
Qed.

Lemma key_unique_id s a b : r_inv s -> a ∈ krows s -> b ∈ krows s -> y_ID a = y_ID b -> a = b.
Proof.
  intros Hi Ha Hb Heq. destruct (proj1 (list_elem_of_lookup _ _) Ha) as [i Hia]. destruct (proj1 (list_elem_of_lookup _ _) Hb) as [j Hjb].
  pose proof (NoDup_lookup _ i j (y_ID a) (ri_ids _ Hi)) as Hn. rewrite !list_lookup_fmap, Hia, Hjb in Hn. cbn in Hn.
  assert (i = j) by (apply Hn; [done|congruence]). congruence.
Qed.

Lemma inv_restated g s s' : r_inv s -> restated g s s' ->
  (forall a b, a ∈ krows s -> b ∈ krows s -> g a = StateActive -> g b = StateActive -> y_ID a = y_ID b) -> r_inv s'.
Proof.
  intros Hi Hr Hg. destruct (restated_cols Hr) as (Hids & Hnames & Hfps). split.
  - rewrite Hids. apply Hi.
  - intros k' Hk'. destruct (bwd_row k' Hr Hk') as (k & Hk & (-> & _) & _). destruct Hr as [_ ->]. by apply Hi.
  - rewrite Hnames. apply Hi.
  - rewrite Hfps. apply Hi.
  - intros a' b' Ha' Hb' Hsa Hsb. destruct (bwd_row a' Hr Ha') as (a & Ha & (-> & _) & Hga). destruct (bwd_row b' Hr Hb') as (b & Hb & (-> & _) & Hgb).
    apply Hg; congruence.
Qed.

Lemma leave_active id from k : leave id from k = StateActive -> y_State k = StateActive.
Proof. unfold leave. by destruct (_ && _). Qed.

Lemma promote_active id k : promote id k = StateActive -> y_ID k = id.
Proof. unfold promote, has_id, in_state. destruct (_ =? id) eqn:E; bool_split; [done|]. destruct (bool_decide _) eqn:E2; bool_split; done. Qed.

Lemma r_inv_step s s' : rot_step s s' -> r_inv s -> r_inv s'.
Proof.
  intros Hs Hi. destruct Hs as [Hr|id from Hf Hr|id k Hk Hid Hst Hr|k Hid Hu Hst Hrows Hn].
  - eapply inv_restated; [done..|]. intros; by apply (ri_one _ Hi).
  - eapply inv_restated; [done..|]. intros a b Ha Hb Hga%leave_active Hgb%leave_active. by apply (ri_one _ Hi).
  - eapply inv_restated; [done..|]. intros a b Ha Hb Hga%promote_active Hgb%promote_active. congruence.
  - split; rewrite ?Hrows, ?fmap_app; cbn.
    + apply NoDup_app. split_and!; [apply Hi| |apply NoDup_singleton]. intros x (a & -> & Ha)%list_elem_of_fmap Heq%list_elem_of_singleton.
      pose proof (ri_seq _ Hi a Ha). lia.
    + intros x [Hx| ->%list_elem_of_singleton]%elem_of_app; [pose proof (ri_seq _ Hi x Hx); lia|lia].
    + apply NoDup_app. split_and!; [apply Hi| |apply NoDup_singleton]. intros x (a & -> & Ha)%list_elem_of_fmap Heq%list_elem_of_singleton. by destruct (Hu a Ha).
    + apply NoDup_app. split_and!; [apply Hi| |apply NoDup_singleton]. intros x (a & -> & Ha)%list_elem_of_fmap Heq%list_elem_of_singleton. by destruct (Hu a Ha).
    + intros a b [Ha| ->%list_elem_of_singleton]%elem_of_app [Hb| ->%list_elem_of_singleton]%elem_of_app Hsa Hsb; [by apply (ri_one _ Hi)| | |done].
      * destruct Hst as [Hst|[_ Hno]]; [rewrite Hst in Hsb; discriminate Hsb|by destruct (Hno a Ha)].
      * destruct Hst as [Hst|[_ Hno]]; [rewrite Hst in Hsa; discriminate Hsa|by destruct (Hno b Hb)].
Qed.

Lemma r_inv_steps s s' : rtc rot_step s s' -> r_inv s -> r_inv s'.
Proof. intros H. apply rtc_invariant with (2 := H). apply r_inv_step. Qed.

(** A key only moves forward. *)
Lemma key_forward_step s s' k : rot_step s s' -> r_inv s -> k ∈ krows s ->
  exists k', k' ∈ krows s' /\ same_key k k' /\ rank (y_State k) <= rank (y_State k').
Proof.
  intros Hs Hi Hk. destruct Hs as [Hr|id from Hf Hr|id t Ht Hid Hst Hr|t _ _ _ Hrows _].
  - destruct (fwd_row k Hr Hk) as (k' & ? & ? & Hg). exists k'. split_and!; [done|done|rewrite Hg; lia].
  - destruct (fwd_row k Hr Hk) as (k' & ? & ? & Hg). exists k'. split_and!; [done|done|]. rewrite Hg. unfold leave, in_state.
    destruct (_ && _) eqn:E; [|lia]. bool_split. subst from. destruct Hf as [-> | ->]; vm_compute; discriminate.
  - destruct (fwd_row k Hr Hk) as (k' & ? & ? & Hg). exists k'. split_and!; [done|done|]. rewrite Hg. unfold promote, has_id, in_state.
    destruct (_ =? id) eqn:E; bool_split.
    + assert (k = t) as -> by (apply (key_unique_id s); [done..|congruence]). rewrite Hst. vm_compute. discriminate.
    + destruct (bool_decide _) eqn:E2; bool_split; [|lia]. rewrite E2. vm_compute. discriminate.
  - exists k. rewrite Hrows, elem_of_app. split_and!; [by left|done|lia].
Qed.

(** Signing never stops: an active key is only ever replaced by another. *)
Lemma active_step s s' : rot_step s s' -> r_inv s -> (exists k, k ∈ krows s /\ y_State k = StateActive) ->
  exists k, k ∈ krows s' /\ y_State k = StateActive.
Proof.
  intros Hs Hi (k & Hk & Hact). destruct Hs as [Hr|id from Hf Hr|id t Ht Hid Hst Hr|t _ _ _ Hrows _].
  - destruct (fwd_row k Hr Hk) as (k' & ? & ? & ?). exists k'. split; congruence.
  - destruct (fwd_row k Hr Hk) as (k' & ? & ? & Hg). exists k'. split; [done|]. rewrite Hg. unfold leave, in_state.
    destruct (_ && _) eqn:E; [|done]. bool_split. rewrite Hact in H2. subst from. by destruct Hf.
  - destruct (fwd_row t Hr Ht) as (k' & ? & ? & Hg). exists k'. split; [done|]. rewrite Hg. unfold promote, has_id. by rewrite Hid, Z.eqb_refl.
  - exists k. rewrite Hrows, elem_of_app. auto.
Qed.

(** ** The handlers *)

Lemma restated_map (g : Key -> string) f s : (forall k, k ∈ krows s -> same_key k (f k) /\ y_State (f k) = g k) ->
  restated g s (set_krows (map f (krows s)) (k_next s) s).
Proof.
  intros Hf. split; [|done]. cbn. induction (krows s) as [|k l IH]; cbn; constructor; [apply Hf; by left|].
  apply IH. intros x Hx. apply Hf. by right.
Qed.

Lemma restated_frame s s' : krows s' = krows s -> k_next s' = k_next s -> restated y_State s s'.
Proof.
  intros Hr Hn. split; [|done]. rewrite Hr. clear. induction (krows s) as [|k l IH]; constructor; [|done]. split; [|done]. by split_and!.
Qed.

Lemma touch_where f g s : (forall k, same_key k (g k) /\ y_State (g k) = y_State k) -> rot_step s (update_where f g s).2.
Proof. intros Hg. apply ro_touch. apply restated_map. intros k _. destruct (f k); [apply Hg|]. split; [|done]. by split_and!. Qed.

Lemma leave_where id from t s : (from = StateDraining \/ from = StateStaged) ->
  rot_step s (update_where (fun k => has_id id k && in_state from k) (with_state StateRetired t) s).2.
Proof.
  intros Hf. apply (ro_leave _ _ id from Hf). apply restated_map. intros k _. unfold leave.
  destruct (_ && _); (split; [by split_and!|done]).
Qed.

(** The promotion of a transaction that saw the whole table. *)
Lemma promote_rows id t s target : r_inv s -> target ∈ krows s -> y_ID target = id -> y_State target = StateStaged ->
  forall f1, (forall k, k ∈ krows s -> f1 k = if in_state StateActive k then with_state StateDraining t k else k) ->
  rot_step s (set_krows (map (fun k => if has_id id k && in_state StateStaged k then with_state StateActive t k else k) (map f1 (krows s))) (k_next s) s).
Proof.
  intros Hi Hin Hid Hst f1 Hf1. apply (ro_activate _ _ id target); [done..|]. rewrite map_map. apply restated_map. intros k Hk.
  rewrite Hf1 by done. unfold promote, has_id, in_state.
  destruct (bool_decide (y_State k = StateActive)) eqn:Ea; bool_split.
  - assert (y_ID k <> id) as Hne.
    { intros Heq. assert (k = target) as -> by (apply (key_unique_id s); [done..|congruence]). rewrite Hst in Ea. discriminate Ea. }
    cbn. rewrite (proj2 (Z.eqb_neq _ _)) by done. cbn. split; [by split_and!|done].
  - destruct (y_ID k =? id) eqn:Ei; cbn; bool_split; [|split; [by split_and!|done]].
    assert (k = target) as -> by (apply (key_unique_id s); [done..|congruence]). rewrite bool_decide_eq_true_2 by done. split; [by split_and!|done].
Qed.

Lemma activate_tx_solo T id t s : r_inv s -> wpt T eq (fun _ _ => True) (activate_tx id t) (fun r s' => match r with Ok _ => rot_step s s' | Err _ => True end) s.
Proof.
  intros Hi. unfold activate_tx. wp_step. wp_step; [done|]. destruct (find_first _ _) as [target|] eqn:Ef; [|by wp_step].
  apply find_first_Some in Ef as [Hin Hid]. unfold has_id in Hid. destruct (negb _) eqn:Es; [by wp_step|]. unfold in_state in Es. bool_split.
  wp_step. wp_step; [done|].
  assert (Hpromote : forall (d : string) f1 s1, s1 = set_krows (map f1 (krows s)) (k_next s) s ->
    (forall k, k ∈ krows s -> f1 k = if in_state StateActive k then with_state StateDraining t k else k) ->
    wpt T eq (fun _ _ => True) (n ← exec_err (update_indexed (fun k => has_id id k && in_state StateStaged k) (with_state StateActive t));
      if n =? 0 then throw R_Illegal else mret d) (fun r s' => match r with Ok _ => rot_step s s' | Err _ => True end) s1).
  { intros d f1 s1 -> Hf1. wp_step. wp_step; [done|]. unfold update_indexed, update_where. destruct (1 <? _); [done|]. split; [done|].
    destruct (_ =? 0); wp_step; [done|]. by apply (promote_rows id t s target). }
  wp_step. destruct (find_first (in_state StateActive) (krows s)) as [c|] eqn:Ec.
  - apply find_first_Some in Ec as [Hcin Hca]. unfold in_state in Hca. bool_split. wp_step. wp_step; [done|].
    unfold update_indexed, update_where. destruct (1 <? _); [done|]. split; [done|]. wp_step.
    eapply Hpromote; [done|]. intros k Hk. unfold has_id, in_state. destruct (bool_decide (y_State k = StateActive)) eqn:Ea; bool_split; [|by rewrite andb_false_r].
    assert (k = c) as -> by (apply (key_unique_id s); [done..|]; by apply (ri_one _ Hi)). by rewrite Z.eqb_refl.
  - wp_step. apply (Hpromote "" (fun k => k)); [destruct s; cbn; by rewrite map_id|]. intros k Hk. rewrite find_first_None in Ec. by rewrite Ec.
Qed.

(** What does not touch the table of keys: reads of the gates, the custody backend. *)
Definition keys_kept (s s' : RStore) : Prop := krows s' = krows s /\ k_next s' = k_next s.
Definition aside {A} (m : RM A) : Prop := forall T R s, wpt T R keys_kept m (fun _ _ => True) s.

(** The documented part of a custody backend enrollment of the registry relies on: it is
    not the database. *)
Class DeleterOK (d : KeyDeleter) : Prop := {
  schedule_aside key days : aside (ScheduleDeletion d key days);
  cancel_aside key : aside (CancelDeletion d key);
}.

Lemma kept_step s s' : keys_kept s s' -> rot_step s s'.
Proof. intros [Hr Hn]. by apply ro_touch, restated_frame. Qed.

Lemma aside_run s s' : rtc (either (rtc rot_step) keys_kept) s s' -> rtc rot_step s s'.
Proof. induction 1 as [|x y z [Hxy|Hxy] _ IH]; [constructor|by etrans|]. eapply rtc_l; [by apply kept_step|done]. Qed.

Section handlers.
Context (T : Z -> Prop).
Abbreviation R := (rtc rot_step).

Lemma wp_aside {A B} (m : RM A) (k : A -> RM B) (Q : result rerr B -> RStore -> Prop) s :
  aside m -> (forall e s', R s s' -> Q (Err e) s') -> (forall a s', R s s' -> wpt T R rot_step (k a) Q s') -> wpt T R rot_step (m ≫= k) Q s.
Proof.
  intros Hm He Hk. apply wp_bind. eapply wp_frame; [apply Hm|apply kept_step|]. intros r s' Hs%aside_run. destruct r; auto.
Qed.

Lemma aside_query {A} (f : RStore -> A) : aside (query f).
Proof. intros T' R' s. by apply wp_query. Qed.

Lemma aside_now : aside (now : RM Z).
Proof. intros T' R' s. by apply wp_now. Qed.

Lemma aside_ret {A} (a : A) : aside (mret a : RM A).
Proof. intros T' R' s. by apply wp_ret. Qed.

Lemma aside_throw {A} e : aside (throw e : RM A).
Proof. intros T' R' s. by apply wp_throw. Qed.

Lemma aside_bind {A B} (m : RM A) (k : A -> RM B) : aside m -> (forall a, aside (k a)) -> aside (m ≫= k).
Proof. intros Hm Hk T' R' s. apply wp_bind. eapply wp_mono; [apply Hm|]. intros [a|e] s' _ _; [apply Hk|done]. Qed.

Lemma aside_attempt {A} (m : RM A) : aside m -> aside (attempt m).
Proof. intros Hm T' R' s. apply wp_attempt. eapply wp_mono; [apply Hm|]. done. Qed.

Lemma audit_aside actor action : aside (recordAudit actor action).
Proof. intros T' R' s. unfold recordAudit. apply wp_ignore, wp_exec. done. Qed.
End handlers.

#[export] Hint Resolve aside_query aside_now aside_ret aside_throw aside_bind aside_attempt audit_aside : ncp.

(** Any handler that only takes lifecycle steps. *)
Definition rotates {A} (m : RM A) : Prop := forall T s, r_inv s -> wpt T (rtc rot_step) rot_step m (fun _ _ => True) s.

Lemma aside_rotates {A} (m : RM A) : aside m -> rotates m.
Proof. intros Hm T s _. eapply wp_frame; [apply Hm|apply kept_step|done]. Qed.

Lemma rotates_bind {A B} (m : RM A) (k : A -> RM B) : rotates m -> (forall a, rotates (k a)) -> rotates (m ≫= k).
Proof.
  intros Hm Hk T s Hi. apply wp_bind. eapply wp_mono; [by apply Hm|]. intros [a|e] s' Hs _; [|done]. apply Hk.
  eapply r_inv_steps; [|done]. clear -Hs. induction Hs as [|x y z [Hxy|Hxy] _ IH]; [constructor|by etrans|by eapply rtc_l].
Qed.

Lemma rotates_attempt {A} (m : RM A) : rotates m -> rotates (attempt m).
Proof. intros Hm T s Hi. apply wp_attempt. eapply wp_mono; [by apply Hm|done]. Qed.

Lemma rotates_exec {A} (f : RStore -> A * RStore) : (forall s, r_inv s -> rot_step s (f s).2) -> rotates (exec f).
Proof.
  intros Hf T s Hi. apply wp_exec. intros s1 Hs. split; [done|]. specialize (Hf s1 (r_inv_steps _ _ Hs Hi)). by destruct (f s1).
Qed.

Lemma create_step mk : (forall n, y_ID (mk n) = n) -> (forall n, y_State (mk n) = StateStaged \/ y_State (mk n) = StateActive) -> rotates (exec_err (create_key mk)).
Proof.
  intros Hid Hst T s Hi. apply wp_exec_err. intros s1 Hs. split; [done|]. unfold create_key. destruct (existsb _ _) eqn:E; [done|]. split; [|done].
  rewrite existsb_elem_false in E. eapply (ro_new _ _ (mk (k_next s1))); [by rewrite Hid| | |done..].
  - intros x Hx. specialize (E x Hx). by bool_split.
  - destruct (Hst (k_next s1)) as [H|H]; [by left|right]. split; [done|]. intros x Hx Hax. specialize (E x Hx). bool_split.
    unfold in_state in *. rewrite !bool_decide_eq_true_2 in * by done. done.
Qed.
#[export] Hint Resolve aside_rotates rotates_bind rotates_attempt : ncp.

Lemma Get_aside id : aside (Get id).
Proof. unfold Get. apply aside_bind; [apply aside_query|]. intros [k|]; auto with ncp. Qed.
Lemma activeOrEmpty_aside : aside activeOrEmpty.
Proof. unfold activeOrEmpty. apply aside_bind; auto with ncp. Qed.
#[export] Hint Resolve Get_aside activeOrEmpty_aside : ncp.

Section rotates.
Context (parse : string -> option (string * Z)) (gate deps : Key -> RM unit) (d : KeyDeleter).
Context (Hgate : forall k, aside (gate k)) (Hdeps : forall k, aside (deps k)) `{Hd : !DeleterOK d}.

Lemma Stage_rotates name pem kmsKeyID actor : rotates (Stage parse name pem kmsKeyID actor).
Proof.
  unfold Stage. destruct (decide _); [auto with ncp|]. destruct (parse pem) as [[fp na]|]; [|auto with ncp].
  apply rotates_bind; [auto with ncp|]. intros t. apply rotates_bind.
  - apply rotates_attempt, create_step; [done|by left].
  - intros [k|e]; [auto with ncp|]. destruct e; auto with ncp.
Qed.

Lemma SeedActive_rotates name pem kmsKeyID actor : rotates (SeedActive parse name pem kmsKeyID actor).
Proof.
  unfold SeedActive. destruct (parse pem) as [[fp na]|]; [|auto with ncp]. apply rotates_bind; [auto with ncp|]. intros n.
  destruct (decide _); [auto with ncp|]. apply rotates_bind; [auto with ncp|]. intros t. apply rotates_bind.
  - apply rotates_attempt, create_step; [done|by right].
  - intros [k|e]; [auto with ncp|]. destruct e; auto with ncp.
Qed.

Lemma Activate_rotates id actor : rotates (Activate id actor).
Proof.
  unfold Activate. apply rotates_bind; [auto with ncp|]. intros t. apply rotates_bind; [|auto with ncp].
  intros T s Hi. apply wp_tx. intros s1 Hs. split; [done|]. eapply wp_mono; [apply activate_tx_solo; by eapply r_inv_steps|].
  intros [x|e] s2 _ H; done.
Qed.

Lemma Retire_rotates id actor : rotates (Retire gate id actor).
Proof.
  unfold Retire. apply rotates_bind; [auto with ncp|]. intros target. destruct (negb _); [auto with ncp|].
  apply rotates_bind; [auto with ncp|]. intros _. apply rotates_bind; [auto with ncp|]. intros t. apply rotates_bind.
  - apply rotates_exec. intros s _. apply leave_where. by left.
  - intros n. destruct (n =? 0); auto with ncp.
Qed.

Lemma Abandon_rotates id actor : rotates (Abandon id actor).
Proof.
  unfold Abandon. apply rotates_bind; [auto with ncp|]. intros t. apply rotates_bind.
  - apply rotates_exec. intros s _. apply leave_where. by right.
  - intros n. destruct (n =? 0); [|auto with ncp]. apply rotates_bind; [auto with ncp|]. intros [[]|]; auto with ncp.
Qed.

Lemma ForceRenew_rotates id window actor : rotates (ForceRenew id window actor).
Proof.
  unfold ForceRenew. destruct (_ <=? 0); [auto with ncp|]. apply rotates_bind; [auto with ncp|]. intros target. destruct (negb _); [auto with ncp|].
  apply rotates_bind; [auto with ncp|]. intros t. apply rotates_bind.
  - apply rotates_exec. intros s _. apply touch_where. intros k. split; [by split_and!|done].
  - intros n. destruct (n =? 0); auto with ncp.
Qed.

Lemma StopForceRenew_rotates id actor : rotates (StopForceRenew id actor).
Proof.
  unfold StopForceRenew. apply rotates_bind; [auto with ncp|]. intros t. apply rotates_bind.
  - apply rotates_exec. intros s _. apply touch_where. intros k. split; [by split_and!|done].
  - intros n. destruct (n =? 0); auto with ncp.
Qed.

Lemma ScheduleKeyDeletion_rotates id days actor : rotates (ScheduleKeyDeletion deps (Some d) id days actor).
Proof.
  unfold ScheduleKeyDeletion. destruct (_ || _); [auto with ncp|]. apply rotates_bind; [auto with ncp|]. intros target.
  destruct (negb _); [auto with ncp|]. destruct (decide _) as [|_]; [auto with ncp|]. destruct (negb _); [auto with ncp|].
  apply rotates_bind; [auto with ncp|]. intros _. apply rotates_bind; [apply aside_rotates, schedule_aside|]. intros date.
  apply rotates_bind; [auto with ncp|]. intros t. apply rotates_bind.
  - apply rotates_attempt, rotates_exec. intros s _. apply touch_where. intros k. split; [by split_and!|done].
  - assert (Hundo : forall e, rotates (c ← attempt (CancelDeletion d (y_KMSKeyID target)); match c with Ok _ => throw e | Err _ => throw R_Unrecorded end : RM Z)).
    { intros e. apply aside_rotates, aside_bind; [apply aside_attempt, cancel_aside|]. intros []; auto with ncp. }
    intros [n|e]; [|apply Hundo]. destruct (n =? 0); [apply Hundo|auto with ncp].
Qed.

Lemma CancelKeyDeletion_rotates id actor : rotates (CancelKeyDeletion (Some d) id actor).
Proof.
  unfold CancelKeyDeletion. apply rotates_bind; [auto with ncp|]. intros target. destruct (_ =? 0); [auto with ncp|].
  apply rotates_bind; [apply aside_rotates, cancel_aside|]. intros _. apply rotates_bind; [auto with ncp|]. intros t. apply rotates_bind.
  - apply rotates_exec. intros s _. apply touch_where. intros k. split; [by split_and!|done].
  - intros n. destruct (n =? 0); auto with ncp.
Qed.
End rotates.

Lemma LiveDependents_aside parseLeaf fp : aside (CA.LiveDependents parseLeaf fp).
Proof. unfold CA.LiveDependents. repeat (apply aside_bind; [auto with ncp|intros]). auto with ncp. Qed.
Lemma no_dependents_aside parseLeaf k : aside (CA.no_dependents parseLeaf k).
Proof. unfold CA.no_dependents. apply aside_bind; [apply LiveDependents_aside|]. intros n. destruct (0 <? n); auto with ncp. Qed.
Lemma AdoptionStatus_aside norm trusts fp st : aside (AdoptionStatus norm trusts fp st).
Proof. unfold AdoptionStatus. repeat (apply aside_bind; [auto with ncp|intros]). auto with ncp. Qed.
Lemma ActiveFingerprint_aside : aside ActiveFingerprint.
Proof.
  unfold ActiveFingerprint, Active. apply aside_bind.
  - apply aside_attempt, aside_bind; [auto with ncp|]. intros []; auto with ncp.
  - intros [k|e]; [auto with ncp|]. destruct e; auto with ncp.
Qed.
Lemma drained_aside st k : aside (ConfigKey.drained st k).
Proof.
  unfold ConfigKey.drained, ConfigKey.DrainLaggards. apply aside_bind.
  - apply aside_bind; [apply ActiveFingerprint_aside|]. intros fp. destruct (decide _); [auto with ncp|].
    apply aside_bind; [apply AdoptionStatus_aside|]. auto with ncp.
  - intros n. destruct (0 <? n); auto with ncp.
Qed.
#[export] Hint Resolve no_dependents_aside drained_aside : ncp.

(** The operations of the two registries that write. *)
Inductive rot_op (parseCA parseLeaf : string -> option (string * Z)) (parsePub : string -> option string) (d : KeyDeleter) : forall A, RM A -> Prop :=
| op_ca_stage name pem k actor : rot_op parseCA parseLeaf parsePub d _ (CA.Stage parseCA name pem k actor)
| op_ca_seed name pem k actor : rot_op parseCA parseLeaf parsePub d _ (CA.SeedActive parseCA name pem k actor)
| op_ca_retire id actor : rot_op parseCA parseLeaf parsePub d _ (CA.Retire parseLeaf id actor)
| op_ca_delete id days actor : rot_op parseCA parseLeaf parsePub d _ (CA.ScheduleKeyDeletion parseLeaf (Some d) id days actor)
| op_ck_stage name pem k actor : rot_op parseCA parseLeaf parsePub d _ (ConfigKey.Stage parsePub name pem k actor)
| op_ck_seed name pem k actor : rot_op parseCA parseLeaf parsePub d _ (ConfigKey.SeedActive parsePub name pem k actor)
| op_ck_retire id st actor : rot_op parseCA parseLeaf parsePub d _ (ConfigKey.Retire id st actor)
| op_ck_delete id days actor : rot_op parseCA parseLeaf parsePub d _ (ConfigKey.ScheduleKeyDeletion (Some d) id days actor)
| op_activate id actor : rot_op parseCA parseLeaf parsePub d _ (Activate id actor)
| op_abandon id actor : rot_op parseCA parseLeaf parsePub d _ (Abandon id actor)
| op_force id w actor : rot_op parseCA parseLeaf parsePub d _ (ForceRenew id w actor)
| op_unforce id actor : rot_op parseCA parseLeaf parsePub d _ (StopForceRenew id actor)
| op_undelete id actor : rot_op parseCA parseLeaf parsePub d _ (CancelKeyDeletion (Some d) id actor).

Lemma rot_op_rotates parseCA parseLeaf parsePub d `{!DeleterOK d} A (m : RM A) : rot_op parseCA parseLeaf parsePub d A m -> rotates m.
Proof.
  destruct 1; [apply Stage_rotates|apply SeedActive_rotates|apply Retire_rotates; auto with ncp|apply ScheduleKeyDeletion_rotates; auto with ncp
    |apply Stage_rotates|apply SeedActive_rotates|apply Retire_rotates; auto with ncp|apply ScheduleKeyDeletion_rotates; auto with ncp
    |apply Activate_rotates|apply Abandon_rotates|apply ForceRenew_rotates|apply StopForceRenew_rotates|apply CancelKeyDeletion_rotates]; done || apply _.
Qed.

Lemma either_rot s s' : rtc (either (rtc rot_step) rot_step) s s' -> rtc rot_step s s'.
Proof. induction 1 as [|x y z [Hxy|Hxy] _ IH]; [constructor|by etrans|by eapply rtc_l]. Qed.

Lemma key_forward_steps s s' : rtc rot_step s s' -> r_inv s -> forall k, k ∈ krows s ->
  exists k', k' ∈ krows s' /\ same_key k k' /\ rank (y_State k) <= rank (y_State k').
Proof.
  induction 1 as [s|x y z Hxy Hyz IH]; intros Hi k Hk; [exists k; split_and!; [done|by split_and!|lia]|].
  destruct (key_forward_step _ _ k Hxy Hi Hk) as (k1 & Hk1 & Hs1 & Hr1).
  destruct (IH (r_inv_step _ _ Hxy Hi) k1 Hk1) as (k2 & Hk2 & Hs2 & Hr2). exists k2. split_and!; [done| |lia].
  unfold same_key in *. naive_solver congruence.
Qed.

Lemma active_steps s s' : rtc rot_step s s' -> r_inv s -> (exists k, k ∈ krows s /\ y_State k = StateActive) -> exists k, k ∈ krows s' /\ y_State k = StateActive.
Proof. induction 1 as [s|x y z Hxy Hyz IH]; intros Hi Ha; [done|]. apply IH; [by eapply r_inv_step|by eapply active_step]. Qed.

(** What the tally of heartbeats is. *)
Definition live_beat (all : bool) (cutoff : Z) (h : Beat) : bool := all || (cutoff <=? bt_LastSeen h).

Lemma tally_spec norm trusts all cutoff fp rows : forall out,
  tally norm trusts all cutoff fp rows out = mkAdoption (ad_Fingerprint out)
    (ad_Live out + Z.of_nat (length (List.filter (live_beat all cutoff) rows)))
    (ad_Adopted out + Z.of_nat (length (List.filter (fun h => live_beat all cutoff h && contains_key norm (trusts h) fp) rows)))
    (ad_Laggards out ++ map bt_IP (List.filter (fun h => live_beat all cutoff h && negb (contains_key norm (trusts h) fp)) rows))
    (ad_Stale out ++ map bt_IP (List.filter (fun h => negb (live_beat all cutoff h)) rows)).
Proof.
  induction rows as [|h rows IH]; intros out; [cbn; rewrite !app_nil_r, !Z.add_0_r; by destruct out|].
  cbn [tally]. rewrite IH. clear IH. cbn [List.filter].
  assert (Hl : negb all && (bt_LastSeen h <? cutoff) = negb (live_beat all cutoff h)).
  { unfold live_beat. destruct all; [done|]. cbn. by rewrite Z.ltb_antisym. }
  rewrite Hl. destruct (live_beat all cutoff h); cbn; [destruct (contains_key norm (trusts h) fp); cbn|]; f_equal; rewrite <- ?app_assoc; cbn; try done; lia.
Qed.

Section theorems.
Context (parseCA parseLeaf : string -> option (string * Z)) (parsePub : string -> option string) (d : KeyDeleter) `{!DeleterOK d}.
Context (T : Z -> Prop).
Abbreviation R := (rtc rot_step).

(** C12: rotation never loses or doubles the signing key. For every write operation of the
    CA and config-key registries, under faults and any interleaving with the others: the
    run only takes steps of the lifecycle machine (stage, seed, activate, retire, abandon);
    afterwards at most one key is active and names and fingerprints are unique; if a key
    was active before, one is active afterwards; and every key is still there with its
    certificate and custody id, never moved backwards in its life. *)
Theorem signing_key_unique_and_kept A (m : RM A) s : rot_op parseCA parseLeaf parsePub d A m -> r_inv s ->
  wpt T R rot_step m (fun _ s' => r_inv s' /\
    (forall a b, a ∈ krows s' -> b ∈ krows s' -> y_State a = StateActive -> y_State b = StateActive -> a = b) /\
    ((exists k, k ∈ krows s /\ y_State k = StateActive) -> exists k, k ∈ krows s' /\ y_State k = StateActive) /\
    (forall k, k ∈ krows s -> exists k', k' ∈ krows s' /\ same_key k k' /\ rank (y_State k) <= rank (y_State k'))) s.
Proof.
  intros Hm Hi. eapply wp_mono; [by eapply rot_op_rotates|]. intros r s' Hs%either_rot _. pose proof (r_inv_steps _ _ Hs Hi) as Hi'.
  split_and!; [done| |intros; by eapply active_steps|intros; by eapply key_forward_steps].
  intros a b Ha Hb Hsa Hsb. eapply key_unique_id; [done..|]. by apply (ri_one _ Hi').
Qed.

(** Retired rows are final. *)
Lemma retired_stays s s' k : R s s' -> r_inv s -> k ∈ krows s -> y_State k = StateRetired -> exists k', k' ∈ krows s' /\ same_key k k' /\ 3 <= rank (y_State k').
Proof. intros Hs Hi Hk Hst. destruct (key_forward_steps _ _ Hs Hi k Hk) as (k' & ? & ? & Hr). rewrite Hst in Hr. exists k'. split_and!; [done..|]. exact Hr. Qed.

Lemma ca_retire_gated id actor s :
  wpt T R rot_step (CA.Retire parseLeaf id actor) (fun r s' => r = Ok () ->
    exists k s1 s2 t, T t /\ y_ID k = id /\ R s s1 /\ R s1 s2 /\ R s2 s' /\
      forall e, e ∈ leafrows s1 -> lr_Status e = "issued" -> CA.leaf_issuer parseLeaf e = Some (CA.fold_fp (y_Fingerprint k)) ->
        CA.leaf_expiry parseLeaf (beats s2) e <= t) s.
Proof.
  unfold CA.Retire, Retire, Get. wp_step. wp_step. wp_step; [done|]. rename s0 into s1. destruct (find_first _ _) as [k|] eqn:Ef; wp_step; [|done].
  apply find_first_Some in Ef as [_ Hid]. unfold has_id in Hid. bool_split. destruct (negb _); [by wp_step|].
  unfold CA.no_dependents, CA.LiveDependents. wp_step. wp_step. wp_step. wp_step; [done|]. rename s0 into s2. wp_step. wp_step; [done|]. rename s0 into s3.
  wp_step. wp_step. wp_step. set (n := length _). destruct (0 <? Z.of_nat n) eqn:En; [by wp_step|]. bool_split. wp_step.
  assert (Hnone : forall e, e ∈ leafrows s2 -> lr_Status e = "issued" -> CA.leaf_issuer parseLeaf e = Some (CA.fold_fp (y_Fingerprint k)) ->
     CA.leaf_expiry parseLeaf (beats s3) e <= t).
  { intros e He Hst Hfp. destruct (decide (CA.leaf_expiry parseLeaf (beats s3) e <= t)) as [|Hgt]; [done|]. exfalso.
    assert (Hin : In e (List.filter (CA.is_dependent parseLeaf (beats s3) t (CA.fold_fp (y_Fingerprint k)))
      (List.filter (fun e => bool_decide (lr_Status e = "issued")) (leafrows s2)))).
    { apply filter_In. split; [apply filter_In; split; [by apply list_elem_of_In|by apply bool_decide_eq_true_2]|].
      unfold CA.is_dependent. rewrite bool_decide_eq_true_2 by done. apply Z.ltb_lt. lia. }
    subst n. destruct (List.filter _ (List.filter _ _)); [done|]. cbn in En. lia. }
  wp_step. wp_step. wp_step. wp_step; [done|]. rename s0 into s4. split; [apply leave_where; by left|].
  destruct (_ =? 0); [by wp_step|]. eapply wp_frame; [apply audit_aside|apply kept_step|]. intros r s5 Hs5%aside_run _.
  exists k, s2, s3, t. split_and!; [done|done|etrans; [exact HR|exact HR0]|done| |done].
  etrans; [exact HR2|]. eapply rtc_l; [apply leave_where; by left|exact Hs5].
Qed.

Lemma ck_retire_gated id actor st s :
  wpt T R rot_step (ConfigKey.Retire id st actor) (fun r s' => r = Ok () ->
    exists k s1 s2 t, T t /\ R s s1 /\ R s1 s2 /\ R s2 s' /\ k ∈ krows s1 /\ y_State k = StateActive /\
      forall h, h ∈ beats s2 -> (st <= 0 \/ t - st <= bt_LastSeen h) ->
        exists x, x ∈ bt_TrustedConfigKeys h /\ TrimSpace x = TrimSpace (y_Fingerprint k)) s.
Proof.
  unfold ConfigKey.Retire, Retire, Get. wp_step. wp_step. wp_step; [done|]. rename s0 into s1. destruct (find_first _ _) as [k0|] eqn:Ef; wp_step; [|done].
  clear Ef. destruct (negb _); [by wp_step|]. unfold ConfigKey.drained, ConfigKey.DrainLaggards, ActiveFingerprint, Active.
  wp_step. wp_step. wp_step. wp_step. wp_step. wp_step. wp_step; [by wp_step|]. rename s0 into s2.
  destruct (find_first _ _) as [k|] eqn:Ef; wp_step; wp_step; [|by destruct (decide _)].
  apply find_first_Some in Ef as [Hk Hst]. unfold in_state in Hst. bool_split. destruct (decide _) as [|_]; [by wp_step|].
  wp_step. unfold ConfigKey.AdoptionStatus, AdoptionStatus. wp_step. wp_step; [done|]. rename s0 into s3. wp_step. wp_step. wp_step. wp_step.
  cbn [ad_Laggards]. set (n := length _). destruct (0 <? Z.of_nat n) eqn:En; [by wp_step|]. bool_split. wp_step.
  assert (Hall : forall h, h ∈ beats s3 -> (st <= 0 \/ t - st <= bt_LastSeen h) -> exists x, x ∈ bt_TrustedConfigKeys h /\ TrimSpace x = TrimSpace (y_Fingerprint k)).
  { intros h Hh Hlive. subst n. rewrite (Permutation_length (sort_strings_perm _)), tally_spec in En. cbn in En. rewrite length_map in En.
    set (g := fun h => _) in En. destruct (List.filter g (beats s3)) eqn:Eg; [|cbn in En; lia].
    destruct (contains_key TrimSpace (bt_TrustedConfigKeys h) (TrimSpace (y_Fingerprint k))) eqn:Ec.
    - apply existsb_elem in Ec as (x & Hx & Hxe). bool_split. by exists x.
    - exfalso. assert (Hin : In h (List.filter g (beats s3))); [|by rewrite Eg in Hin]. apply filter_In. split; [by apply list_elem_of_In|].
      subst g. cbn. rewrite Ec, andb_true_r. unfold live_beat. apply orb_true_iff. destruct Hlive; [left|right]; by apply Z.leb_le. }
  wp_step. wp_step. wp_step. wp_step; [done|]. rename s0 into s4. split; [apply leave_where; by left|].
  destruct (_ =? 0); [by wp_step|]. eapply wp_frame; [apply audit_aside|apply kept_step|]. intros r s5 Hs5%aside_run _.
  exists k, s2, s3, t. split_and!; [done|etrans; [exact HR|exact HR0]|done| |done|done|done].
  etrans; [exact HR2|]. eapply rtc_l; [apply leave_where; by left|exact Hs5].
Qed.

(** A CA is only retired with no live dependents, a config key only when the fleet has
    adopted the active one. If [Retire] of a CA succeeds, then at moments of the run the
    issued enrollments read contained no leaf chaining to that CA whose current expiry (the
    heartbeat's, else the stored certificate's) lay in the future; if [Retire] of a
    config key succeeds, then a key was active and every live host of the heartbeats read
    trusted it. *)
Theorem retire_is_gated id actor st s :
  wpt T R rot_step (CA.Retire parseLeaf id actor) (fun r s' => r = Ok () ->
    exists k s1 s2 t, T t /\ y_ID k = id /\ R s s1 /\ R s1 s2 /\ R s2 s' /\
      forall e, e ∈ leafrows s1 -> lr_Status e = "issued" -> CA.leaf_issuer parseLeaf e = Some (CA.fold_fp (y_Fingerprint k)) ->
        CA.leaf_expiry parseLeaf (beats s2) e <= t) s /\
  wpt T R rot_step (ConfigKey.Retire id st actor) (fun r s' => r = Ok () ->
    exists k s1 s2 t, T t /\ R s s1 /\ R s1 s2 /\ R s2 s' /\ k ∈ krows s1 /\ y_State k = StateActive /\
      forall h, h ∈ beats s2 -> (st <= 0 \/ t - st <= bt_LastSeen h) ->
        exists x, x ∈ bt_TrustedConfigKeys h /\ TrimSpace x = TrimSpace (y_Fingerprint k)) s.
Proof. split; [apply ca_retire_gated|apply ck_retire_gated]. Qed.
End theorems.

Section reports.
Context (T : Z -> Prop).
Abbreviation R := (rtc rot_step).

(** The adoption report partitions the fleet. Of the heartbeats read, every host is
    either stale or live, every live host either confirms the key or is listed as a
    laggard; the counts are the sizes of these classes, the lists are sorted, and the
    cut-over gate is open exactly when every live host confirms the key. *)
Theorem adoption_partition norm trusts fingerprint staleAfter s :
  wpt T R rot_step (AdoptionStatus norm trusts fingerprint staleAfter) (fun r s' => forall ad, r = Ok ad ->
    exists t, T t /\
    let live := live_beat (staleAfter <=? 0) (t - staleAfter) in
    let confirms h := contains_key norm (trusts h) (norm fingerprint) in
    ad_Live ad = Z.of_nat (length (List.filter live (beats s'))) /\
    ad_Live ad = ad_Adopted ad + Z.of_nat (length (ad_Laggards ad)) /\
    (forall ip, ip ∈ ad_Laggards ad <-> exists h, h ∈ beats s' /\ live h = true /\ confirms h = false /\ bt_IP h = ip) /\
    (forall ip, ip ∈ ad_Stale ad <-> exists h, h ∈ beats s' /\ live h = false /\ bt_IP h = ip) /\
    StronglySorted string_le (ad_Laggards ad) /\ StronglySorted string_le (ad_Stale ad) /\
    (FullyAdopted ad = true <-> forall h, h ∈ beats s' -> live h = true -> confirms h = true)) s.
Proof.
  unfold AdoptionStatus. wp_step. wp_step; [done|]. wp_step. wp_step. wp_step. intros ad [= <-]. exists t. split; [done|].
  rewrite tally_spec. cbn. set (live := live_beat _ _). set (confirms := fun h => contains_key norm (trusts h) (norm fingerprint)).
  set (lag := fun h => live h && negb (contains_key norm (trusts h) (norm fingerprint))).
  assert (Hcount : length (List.filter live (beats s0)) = (length (List.filter (fun h => live h && contains_key norm (trusts h) (norm fingerprint)) (beats s0)) + length (List.filter lag (beats s0)))%nat).
  { subst lag confirms. clear. induction (beats s0) as [|h l IH]; [done|]. cbn. destruct (live h); [|done]. cbn. destruct (contains_key _ _ _); cbn; lia. }
  assert (Hlag : forall h, h ∈ List.filter lag (beats s0) <-> h ∈ beats s0 /\ live h = true /\ confirms h = false).
  { intros h. rewrite !list_elem_of_In, filter_In. subst lag confirms. cbn. rewrite andb_true_iff, negb_true_iff. done. }
  split_and!; [done| | | |apply sort_strings_sorted..|].
  - rewrite (Permutation_length (sort_strings_perm _)), length_map. lia.
  - intros ip. rewrite sort_strings_perm. change (map ?f ?l) with (f <$> l). rewrite list_elem_of_fmap. setoid_rewrite Hlag. naive_solver.
  - intros ip. rewrite sort_strings_perm. change (map ?f ?l) with (f <$> l). rewrite list_elem_of_fmap.
    setoid_rewrite list_elem_of_In. setoid_rewrite filter_In. setoid_rewrite negb_true_iff. naive_solver.
  - unfold FullyAdopted. rewrite bool_decide_eq_true. cbn. split.
    + intros Hnil h Hh Hl. destruct (confirms h) eqn:Ec; [done|]. exfalso.
      assert (Hin : bt_IP h ∈ sort_strings (map bt_IP (List.filter lag (beats s0)))); [|unfold sort_strings in Hin; rewrite Hnil in Hin; by apply elem_of_nil in Hin].
      rewrite sort_strings_perm. change (map ?f ?l) with (f <$> l). apply list_elem_of_fmap. exists h. split; [done|]. by apply Hlag.
    + intros Hall. destruct (List.filter lag (beats s0)) as [|h l] eqn:Ef; [done|]. exfalso.
      assert (Hh : h ∈ h :: l) by constructor. rewrite Hlag in Hh. destruct Hh as (Hin & Hl & Hc). pose proof (Hall h Hin Hl) as Hc2. unfold confirms in Hc. congruence.
Qed.

(** Trust before you sign. The trust bundle read in a state is the sorted list of the
    certificates of exactly the keys that are not retired there; so it contains the signing
    key, it is the same list for the same trust set, and a key that any step makes the
    signing key was already in the bundle of the state before, unless it is the first key
    seeded while none signs. *)
Theorem trusted_before_signing s : r_inv s ->
  wpt T R rot_step TrustBundle (fun r s' => forall out, r = Ok out ->
    StronglySorted string_le out /\
    (forall pem, pem ∈ out <-> exists k, k ∈ krows s' /\ y_State k <> StateRetired /\ y_PEM k = pem) /\
    (forall k, k ∈ krows s' -> y_State k = StateActive -> y_PEM k ∈ out) /\
    (forall s2 k2, rot_step s' s2 -> k2 ∈ krows s2 -> y_State k2 = StateActive ->
       y_PEM k2 ∈ out \/ forall x, x ∈ krows s' -> y_State x <> StateActive)) s.
Proof.
  intros Hi. unfold TrustBundle. wp_step; [done|]. pose proof (r_inv_steps _ _ HR Hi) as Hi0. intros out [= <-].
  assert (Hin : forall pem, pem ∈ sort_strings (map y_PEM (List.filter (fun k => negb (in_state StateRetired k)) (krows s0))) <->
     exists k, k ∈ krows s0 /\ y_State k <> StateRetired /\ y_PEM k = pem).
  { intros pem. rewrite sort_strings_perm. change (map ?f ?l) with (f <$> l). rewrite list_elem_of_fmap.
    setoid_rewrite list_elem_of_In. setoid_rewrite filter_In. unfold in_state. setoid_rewrite negb_true_iff. setoid_rewrite bool_decide_eq_false. naive_solver. }
  split_and!; [apply sort_strings_sorted|done| |].
  - intros k Hk Hst. apply Hin. exists k. split_and!; [done|by rewrite Hst|done].
  - intros s2 k2 Hs Hk2 Hst. destruct Hs as [Hr|id from Hf Hr|id t Ht Hid Hts Hr|k _ _ Hnew Hrows _].
    + destruct (bwd_row k2 Hr Hk2) as (k & Hk & (_ & _ & _ & -> & _) & Hg). left. apply Hin. exists k. split_and!; [done| |done]. rewrite <- Hg, Hst. done.
    + destruct (bwd_row k2 Hr Hk2) as (k & Hk & (_ & _ & _ & -> & _) & Hg). left. apply Hin. exists k. split_and!; [done| |done].
      rewrite Hst in Hg. symmetry in Hg. apply leave_active in Hg. by rewrite Hg.
    + destruct (bwd_row k2 Hr Hk2) as (k & Hk & (_ & _ & _ & Hpem & _) & Hg). rewrite Hst in Hg. symmetry in Hg. apply promote_active in Hg.
      left. rewrite Hpem. apply Hin. exists k. split_and!; [done| |done].
      assert (k = t) as -> by (apply (key_unique_id s0); [done..|congruence]). by rewrite Hts.
    + rewrite Hrows, elem_of_app, list_elem_of_singleton in Hk2. destruct Hk2 as [Hk2| ->].
      * left. apply Hin. exists k2. split_and!; [done|by rewrite Hst|done].
      * right. destruct Hnew as [Hn|[_ Hn]]; [rewrite Hst in Hn; discriminate Hn|done].
Qed.
End reports.

(** ** A concrete rotation *)

Definition toy_ca (pem : string) : option (string * Z) := if decide (pem = "") then None else Some ("fp-" +:+ pem, 1000).
Definition toy_leaf (pem : string) : option (string * Z) := if decide (pem = "leaf") then Some ("fp-CA1", 900) else None.
Definition toy_deleter : KeyDeleter := mkDeleter
  (fun key days => exec (fun s => (days, set_kms (kms s ++ [key]) s)))
  (fun key => exec (fun s => ((), set_kms (List.filter (fun x => negb (bool_decide (x = key))) (kms s)) s))).
#[export] Instance toy_deleter_ok : DeleterOK toy_deleter.
Proof. split; intros; intros T R s; by apply wp_exec. Qed.

Definition empty_rot : RStore := mkRStore [] 1 [] [] [] [].
Definition r1 : RStore := (run 10 (CA.SeedActive toy_ca "ca-1" "CA1" "kms-1" "boot") empty_rot).2.
Definition r2 : RStore := (run 20 (CA.Stage toy_ca "ca-2" "CA2" "kms-2" "alice") r1).2.
Definition r3 : RStore := (run 30 (Activate 2 "alice") r2).2.
Definition one_leaf (s : RStore) : RStore := mkRStore (krows s) (k_next s) (beats s) [mkLeafRow "10.0.0.1" "issued" "fp-ca1" "leaf"] (kms s) (r_audit s).

Lemma empty_rot_inv : r_inv empty_rot.
Proof. split; cbn; try (by constructor); intros; match goal with H : _ ∈ [] |- _ => by apply elem_of_nil in H end. Qed.

Lemma run_inv {A} t (m : RM A) s : rotates m -> r_inv s -> r_inv (run t m s).2.
Proof.
  intros Hm Hi. pose proof (Hm (fun _ => True) s Hi (quiet t) 0%nat (fun _ _ => rtc_refl _ _) (fun _ => I)) as H. unfold run.
  destruct (m (quiet t) 0%nat s) as [[r n] s']. destruct H as [Hs _]. by eapply r_inv_steps; [apply either_rot|].
Qed.

Lemma r2_inv : r_inv r2.
Proof. apply run_inv; [apply Stage_rotates|]. apply run_inv; [apply SeedActive_rotates|apply empty_rot_inv]. Qed.

Lemma signing_key_unique_and_kept_witness :
  map (fun k => (y_Name k, y_State k)) (krows r3) = [("ca-1", StateDraining); ("ca-2", StateActive)] /\
  wpt (fun _ => True) (rtc rot_step) rot_step (Activate 2 "alice") (fun _ s' => r_inv s' /\
    (forall a b, a ∈ krows s' -> b ∈ krows s' -> y_State a = StateActive -> y_State b = StateActive -> a = b) /\
    ((exists k, k ∈ krows r2 /\ y_State k = StateActive) -> exists k, k ∈ krows s' /\ y_State k = StateActive) /\
    (forall k, k ∈ krows r2 -> exists k', k' ∈ krows s' /\ same_key k k' /\ rank (y_State k) <= rank (y_State k'))) r2.
Proof.
  split; [vm_compute; reflexivity|].
  apply (signing_key_unique_and_kept toy_ca toy_leaf (fun _ => None) toy_deleter (fun _ => True) unit (Activate 2 "alice") r2 (op_activate _ _ _ _ _ _) r2_inv).
Defined.

Lemma trusted_before_signing_witness :
  (run 25 TrustBundle r2).1 = Ok ["CA1"; "CA2"] /\
  wpt (fun _ => True) (rtc rot_step) rot_step TrustBundle (fun r s' => forall out, r = Ok out ->
    StronglySorted string_le out /\
    (forall pem, pem ∈ out <-> exists k, k ∈ krows s' /\ y_State k <> StateRetired /\ y_PEM k = pem) /\
    (forall k, k ∈ krows s' -> y_State k = StateActive -> y_PEM k ∈ out) /\
    (forall s2 k2, rot_step s' s2 -> k2 ∈ krows s2 -> y_State k2 = StateActive ->
       y_PEM k2 ∈ out \/ forall x, x ∈ krows s' -> y_State x <> StateActive)) r2.
Proof. split; [vm_compute; reflexivity|]. apply (trusted_before_signing (fun _ => True) r2 r2_inv). Defined.

(** The gate works: a live leaf of the draining CA blocks its retirement, an expired one
    does not. *)
Example live_leaf_blocks_retire :
  (run 40 (CA.Retire toy_leaf 1 "alice") (one_leaf r3)).1 = Err (R_HasDependents 1) /\ (run 901 (CA.Retire toy_leaf 1 "alice") (one_leaf r3)).1 = Ok ().
Proof. vm_compute. done. Qed.

(** A process that has not yet cut over records a leaf of the draining CA after the count
    and before the update. *)
Definition late_leaf : Env RStore := mkEnv (fun _ => 40) (fun _ => false) (fun n s => if Nat.eqb n 5 then one_leaf s else s).

(** The retirement of a CA can race with a signer that still uses it: the comment at
    [Retire] argues that a draining CA gains no new leaves, but a process keeps signing
    with it until its reconciler's next tick. Here the count is 0, the leaf arrives, and
    the CA is retired with a live dependent. *)
Theorem retire_can_strand_a_host :
  let '(r, _, s) := CA.Retire toy_leaf 1 "alice" late_leaf 0%nat r3 in
  r = Ok () /\ (run 40 (CA.LiveDependents toy_leaf "fp-CA1") s).1 = Ok 1 /\ (run 40 TrustBundle s).1 = Ok ["CA2"].
Proof. vm_compute. done. Qed.

(** Two stagings whose writes land in the other order: the later write carries the earlier
    time. *)
Definition overtaken : Env RStore := mkEnv (fun n => if Nat.eqb n 0 then 50 else 70) (fun _ => false)
  (fun n s => if Nat.eqb n 1 then (run 60 (CA.Stage toy_ca "ca-4" "CA4" "" "bob") s).2 else s).

(** The generation does not always advance when the trust set changes: it is the largest
    update time, and a staging that read the clock first but wrote last changes the set
    and leaves the generation as it was. *)
Theorem generation_can_stall :
  let before := (run 60 (CA.Stage toy_ca "ca-4" "CA4" "" "bob") r2).2 in
  let '(r, _, after) := CA.Stage toy_ca "ca-3" "CA3" "" "alice" overtaken 0%nat r2 in
  is_ok r = true /\ (run 61 Generation before).1 = (run 71 Generation after).1 /\
  (run 61 TrustBundle before).1 <> (run 71 TrustBundle after).1.
Proof. vm_compute. split_and!; [done|done|intros H; discriminate H]. Qed.
