(* ===== verification/Reaper.v ===== *)
(** * internal/reaper: reclaiming hosts that are gone

    One pass: the candidate query over heartbeats, enrollments and devices, the
    authoritative trigger and the exclusions in Go, and per host the release of its
    address, the deletion of its heartbeat and the stamp on its device. A groups column is
    the list its JSON text encodes. The releaser is a parameter that keeps to its own
    tables ([alloc_world]); logging, metrics and the ticker are not modelled. A ghost log
    ([reaps]) records the hosts acted on. *)

From S2P Require Import Prelude Db GoStrings Netip Policy.
From stdpp Require Import prelude strings list relations gmap.
From Stdlib Require Import ZArith Lia.
Open Scope Z_scope.

Definition ReasonCertExpired : string := "cert-expired".
Definition ReasonSilent : string := "silent".
Definition reaper_hour : Z := 3600 * 1000000000.

Inductive perr : Type := P_NotAllocated | P_Fault.
#[export] Instance perr_db : DbError perr := P_Fault.

(** The columns read of heartbeats, enrollments and devices. *)
Record HBeat : Type := mkHBeat { hb_IP : string; hb_Device : string; hb_CertNotAfter : Z; hb_LastSeen : Z }.
Record ERow : Type := mkERow { er_ID : Z; er_IP : string; er_Status : string; er_Fingerprint : string; er_Ephemeral : bool; er_Groups : list string }.
Record DRow : Type := mkDRow { dv_Name : string; dv_ReapedAt : Z; dv_Reason : string }.

(** [Config], with its defaults. *)
Record RConfig : Type := mkRConfig { rc_PersistentGrace : Z; rc_EphemeralGrace : Z; rc_SilentAfter : Z; rc_DryRun : bool }.
Definition withDefaults (c : RConfig) : RConfig :=
  mkRConfig (if rc_PersistentGrace c <=? 0 then 7 * 24 * reaper_hour else rc_PersistentGrace c)
    (if rc_EphemeralGrace c <=? 0 then reaper_hour else rc_EphemeralGrace c) (rc_SilentAfter c) (rc_DryRun c).

(** [candidate] *)
Record candidate : Type := mkCand {
  cd_OverlayIP : string; cd_DeviceName : string; cd_CertNotAfter : Z; cd_LastSeen : Z; cd_Fingerprint : string; cd_Ephemeral : bool; cd_Groups : list string;
}.

(** [ReapReport] (nothing is ever revoked: that counter stays 0). *)
Record ReapReport : Type := mkReport {
  rp_Candidates : Z; rp_Reaped : Z; rp_WouldReap : Z; rp_IPsReclaimed : Z; rp_Errors : Z; rp_ByReason : gmap string Z;
}.
Definition no_report : ReapReport := mkReport 0 0 0 0 0 ∅.
Definition count (m : gmap string Z) (reason : string) : gmap string Z := <[reason := default 0 (m !! reason) + 1]> m.

(** An audit row of the reaper: action, target, and the fields of its details. *)
Record PAudit : Type := mkPAudit { pa_action : string; pa_target : string; pa_ip : string; pa_reason : string; pa_reclaimed : bool }.

Record PStore (X : Type) : Type := mkPStore {
  hbeats : list HBeat;
  erows : list ERow;
  devices : list DRow;
  alloc_world : X;
  p_audit : list PAudit;
  reaps : list candidate;                 (* ghost *)
}.
Arguments mkPStore {X}. Arguments hbeats {X}. Arguments erows {X}. Arguments devices {X}. Arguments alloc_world {X}.
Arguments p_audit {X}. Arguments reaps {X}.

Definition certStillValid (c : candidate) (t : Z) : bool := negb (cd_CertNotAfter c =? 0) && (t <=? cd_CertNotAfter c).

Definition reason (cfg : RConfig) (t : Z) (c : candidate) : option string :=
  let grace := if cd_Ephemeral c then rc_EphemeralGrace cfg else rc_PersistentGrace cfg in
  if negb (cd_CertNotAfter c =? 0) && (cd_CertNotAfter c <? t - grace) && (cd_LastSeen c <? t - grace) then Some ReasonCertExpired
  else if (0 <? rc_SilentAfter cfg) && negb (cd_CertNotAfter c =? 0) && negb (certStillValid c t) && (cd_LastSeen c <? t - rc_SilentAfter cfg)
  then Some ReasonSilent else None.

Definition excluded (central : Prefix) (c : candidate) : bool :=
  GrantsReservedGroup (cd_Groups c) ||
  (IsValid central && match ParseAddr (cd_OverlayIP c) with Some ip => Contains central ip | None => false end).

(** [dedupByHost] *)
Fixpoint dedup_go (seenIP seenName : list string) (l : list candidate) : list candidate :=
  match l with
  | [] => []
  | c :: l =>
      if negb (bool_decide (cd_OverlayIP c = "")) && bool_decide (cd_OverlayIP c ∈ seenIP) then dedup_go seenIP seenName l
      else if negb (bool_decide (cd_DeviceName c = "")) && bool_decide (cd_DeviceName c ∈ seenName) then dedup_go seenIP seenName l
      else c :: dedup_go (if decide (cd_OverlayIP c = "") then seenIP else cd_OverlayIP c :: seenIP)
                 (if decide (cd_DeviceName c = "") then seenName else cd_DeviceName c :: seenName) l
  end.
Definition dedupByHost (l : list candidate) : list candidate := dedup_go [] [] l.

(** The issued enrollment of an address with the highest id. *)
Definition latest_step (ip : string) (acc : option ERow) (e : ERow) : option ERow :=
  if bool_decide (er_IP e = ip) && bool_decide (er_Status e = "issued")
  then match acc with Some a => if er_ID a <? er_ID e then Some e else acc | None => Some e end else acc.
Definition latest_issued (ip : string) (l : list ERow) : option ERow := fold_left (latest_step ip) l None.

(** The WHERE clause of the candidate query. *)
Definition prefilter (cfg : RConfig) (t : Z) (h : HBeat) : bool :=
  let cutoff := t - Z.min (rc_PersistentGrace cfg) (rc_EphemeralGrace cfg) in
  (negb (hb_CertNotAfter h =? 0) && (hb_CertNotAfter h <? cutoff) && (hb_LastSeen h <? cutoff)) ||
  ((0 <? rc_SilentAfter cfg) && (hb_LastSeen h <? t - rc_SilentAfter cfg)).

Definition join_row (h : HBeat) (e : ERow) : candidate :=
  mkCand (hb_IP h) (hb_Device h) (hb_CertNotAfter h) (hb_LastSeen h) (er_Fingerprint e) (er_Ephemeral e) (er_Groups e).

Section reaper.
Context {X : Type}.
Abbreviation PM := (M (PStore X) perr).
Implicit Types s : PStore X.

Definition set_hbeats (l : list HBeat) s : PStore X := mkPStore l (erows s) (devices s) (alloc_world s) (p_audit s) (reaps s).
Definition set_devices (l : list DRow) s : PStore X := mkPStore (hbeats s) (erows s) l (alloc_world s) (p_audit s) (reaps s).
Definition add_paudit (e : PAudit) s : PStore X := mkPStore (hbeats s) (erows s) (devices s) (alloc_world s) (p_audit s ++ [e]) (reaps s).
Definition log_reap (c : candidate) s : PStore X := mkPStore (hbeats s) (erows s) (devices s) (alloc_world s) (p_audit s) (reaps s ++ [c]).

Definition reaped (name : string) (l : list DRow) : bool := existsb (fun d => bool_decide (dv_Name d = name) && negb (dv_ReapedAt d =? 0)) l.

Definition candidates (cfg : RConfig) (t : Z) s : list candidate :=
  omap (fun h => if prefilter cfg t h && negb (reaped (hb_Device h) (devices s)) then join_row h <$> latest_issued (hb_IP h) (erows s) else None) (hbeats s).

Context (cfg : RConfig) (central : Prefix) (release : Addr -> PM unit).

Definition loadCandidates : PM (list candidate) :=
  t ← now;
  l ← query (candidates cfg t);
  mret (dedupByHost l).

Definition recordAudit (e : PAudit) : PM unit := ignore (exec (fun s => ((), add_paudit e s))).

Definition dryRunOne (c : candidate) (why : string) (rep : ReapReport) : PM ReapReport :=
  _ ← recordAudit (mkPAudit "reaper-would-reap" (cd_DeviceName c) (cd_OverlayIP c) why false);
  mret (mkReport (rp_Candidates rep) (rp_Reaped rep) (rp_WouldReap rep + 1) (rp_IPsReclaimed rep) (rp_Errors rep) (count (rp_ByReason rep) why)).

(** Step 1 of [reapOne]: reclaimed, failed. The ghost log is written here. *)
Definition release_step (c : candidate) : PM (bool * bool) :=
  _ ← mem (fun s => ((), log_reap c s));
  match ParseAddr (cd_OverlayIP c) with
  | None => mret (false, false)
  | Some ip =>
      r ← attempt (release ip);
      mret (match r with Ok _ => (true, false) | Err P_NotAllocated => (false, false) | Err _ => (false, true) end)
  end.

Definition delete_beat (c : candidate) : PM unit :=
  exec (fun s => ((), set_hbeats (List.filter (fun h => negb (bool_decide (hb_IP h = cd_OverlayIP c))) (hbeats s)) s)).

Definition stamp (why : string) (t : Z) (c : candidate) : PM unit :=
  exec (fun s => ((), set_devices (map (fun d => if bool_decide (dv_Name d = cd_DeviceName c) && (dv_ReapedAt d =? 0) then mkDRow (dv_Name d) t why else d) (devices s)) s)).

(** Steps 3 to 5, with what the release did: reclaimed, failed. *)
Definition finish_reap (c : candidate) (why : string) (t : Z) (rep : ReapReport) (released : bool * bool) : PM ReapReport :=
  d ← attempt (delete_beat c);
  u ← attempt (stamp why t c);
  _ ← recordAudit (mkPAudit "reaper-reap" (cd_DeviceName c) (cd_OverlayIP c) why released.1);
  mret (mkReport (rp_Candidates rep) (rp_Reaped rep + 1) (rp_WouldReap rep) (rp_IPsReclaimed rep + (if released.1 then 1 else 0))
          (rp_Errors rep + (if released.2 || negb (is_ok d) || negb (is_ok u) then 1 else 0)) (count (rp_ByReason rep) why)).

Definition reapOne (c : candidate) (why : string) (t : Z) (rep : ReapReport) : PM ReapReport :=
  r ← release_step c;
  finish_reap c why t rep r.

Fixpoint reap_each (t : Z) (l : list candidate) (rep : ReapReport) : PM ReapReport :=
  match l with
  | [] => mret rep
  | c :: l =>
      match reason cfg t c with
      | None => reap_each t l rep
      | Some why =>
          if excluded central c then reap_each t l rep
          else
            let rep := mkReport (rp_Candidates rep + 1) (rp_Reaped rep) (rp_WouldReap rep) (rp_IPsReclaimed rep) (rp_Errors rep) (rp_ByReason rep) in
            rep ← (if rc_DryRun cfg then dryRunOne c why rep else reapOne c why t rep);
            reap_each t l rep
      end
  end.

Definition ReapOnce : PM ReapReport :=
  l ← loadCandidates;
  t ← now;
  reap_each t l no_report.
End reaper.

(** ** Who is reaped *)

(** What the policy calls gone: a known expiry that has passed, and silence. *)
Definition gone (cfg : RConfig) (t : Z) (c : candidate) : Prop :=
  cd_CertNotAfter c <> 0 /\ cd_CertNotAfter c < t /\
  let grace := if cd_Ephemeral c then rc_EphemeralGrace cfg else rc_PersistentGrace cfg in
  (cd_CertNotAfter c < t - grace /\ cd_LastSeen c < t - grace \/ 0 < rc_SilentAfter cfg /\ cd_LastSeen c < t - rc_SilentAfter cfg).

Definition graces_positive (cfg : RConfig) : Prop := 0 < rc_PersistentGrace cfg /\ 0 < rc_EphemeralGrace cfg.

Lemma withDefaults_positive c : graces_positive (withDefaults c).
Proof. unfold withDefaults, graces_positive, reaper_hour. cbn. destruct (rc_PersistentGrace c <=? 0) eqn:E1, (rc_EphemeralGrace c <=? 0) eqn:E2; bool_split; lia. Qed.

Lemma reason_gone cfg t c : graces_positive cfg -> is_Some (reason cfg t c) <-> gone cfg t c.
Proof.
  intros [Hp He]. unfold reason, gone, certStillValid. set (g := if cd_Ephemeral c then _ else _).
  assert (Hg : 0 < g) by (subst g; destruct (cd_Ephemeral c); lia).
  destruct (Z.eqb_spec (cd_CertNotAfter c) 0), (Z.ltb_spec (cd_CertNotAfter c) (t - g)), (Z.ltb_spec (cd_LastSeen c) (t - g)),
    (Z.ltb_spec 0 (rc_SilentAfter cfg)), (Z.leb_spec t (cd_CertNotAfter c)), (Z.ltb_spec (cd_LastSeen c) (t - rc_SilentAfter cfg)); cbn;
  (split; [intros [x Hx]; try discriminate Hx; lia|intros (? & ? & [[? ?]|[? ?]]); first [eexists; reflexivity|lia]]).
Qed.

Definition selected (cfg : RConfig) (central : Prefix) (t : Z) (c : candidate) : bool :=
  match reason cfg t c with Some _ => negb (excluded central c) | None => false end.

Lemma dedup_sub l : forall ips names c, c ∈ dedup_go ips names l -> c ∈ l.
Proof.
  induction l as [|x l IH]; intros ips names c; cbn; [done|]. destruct (_ && _); [right; by eapply IH|]. destruct (_ && _); [right; by eapply IH|].
  intros [->|Hc]%elem_of_cons; [by left|right; by eapply IH].
Qed.

Lemma dedup_fresh l : forall ips names c, c ∈ dedup_go ips names l ->
  (cd_OverlayIP c <> "" -> cd_OverlayIP c ∉ ips) /\ (cd_DeviceName c <> "" -> cd_DeviceName c ∉ names).
Proof.
  induction l as [|x l IH]; intros ips names c; cbn; [by intros Hc%elem_of_nil|].
  destruct (negb (bool_decide (cd_OverlayIP x = "")) && _) eqn:E1; [by apply IH|].
  destruct (negb (bool_decide (cd_DeviceName x = "")) && _) eqn:E2; [by apply IH|].
  intros [->|Hc]%elem_of_cons.
  - apply andb_false_iff in E1, E2. rewrite negb_false_iff, bool_decide_eq_true, bool_decide_eq_false in E1, E2. naive_solver.
  - destruct (IH _ _ _ Hc) as [H1 H2]. split; intros Hne Hin.
    + apply H1; [done|]. destruct (decide (cd_OverlayIP x = "")); [done|by right].
    + apply H2; [done|]. destruct (decide (cd_DeviceName x = "")); [done|by right].
Qed.

(** No host twice: neither by address nor by name. *)
Definition distinct_hosts (l : list candidate) : Prop :=
  forall i j a b, l !! i = Some a -> l !! j = Some b -> i <> j ->
    (cd_OverlayIP a <> "" -> cd_OverlayIP a <> cd_OverlayIP b) /\ (cd_DeviceName a <> "" -> cd_DeviceName a <> cd_DeviceName b).

Lemma dedup_distinct l : forall ips names, distinct_hosts (dedup_go ips names l).
Proof.
  induction l as [|x l IH]; intros ips names; cbn; [by intros [] j a b|].
  destruct (_ && _); [apply IH|]. destruct (_ && _); [apply IH|]. set (ips' := if decide _ then _ else _). set (names' := if decide _ then _ else _).
  assert (Hx : forall b, b ∈ dedup_go ips' names' l -> (cd_OverlayIP x <> "" -> cd_OverlayIP x <> cd_OverlayIP b) /\ (cd_DeviceName x <> "" -> cd_DeviceName x <> cd_DeviceName b)).
  { intros b Hb. destruct (dedup_fresh _ _ _ _ Hb) as [H1 H2]. subst ips' names'. split; intros Hne Heq.
    - rewrite decide_False in H1 by done. apply H1; [congruence|]. rewrite Heq. by left.
    - rewrite decide_False in H2 by done. apply H2; [congruence|]. rewrite Heq. by left. }
  intros [|i] [|j] a b; cbn; intros Ha Hb Hij; [done| | |eapply IH; [done|done|lia]].
  - apply (inj Some) in Ha as <-. apply Hx. by eapply list_elem_of_lookup_2.
  - apply (inj Some) in Hb as <-. destruct (Hx a) as [H1 H2]; [by eapply list_elem_of_lookup_2|]. split; intros Hne Heq.
    + apply H1; congruence.
    + apply H2; congruence.
Qed.

Lemma filter_position {A} (f : A -> bool) (l : list A) : forall i a, List.filter f l !! i = Some a -> exists k, l !! k = Some a /\ length (List.filter f (take k l)) = i.
Proof.
  induction l as [|x l IH]; intros i a; [by destruct i|]. cbn. destruct (f x) eqn:Ex.
  - destruct i as [|i]; cbn; [intros [= ->]; by exists 0%nat|]. intros (k & Hk & Hi)%IH. exists (S k). cbn. rewrite Ex. cbn. by rewrite Hi.
  - intros (k & Hk & Hi)%IH. exists (S k). cbn. by rewrite Ex.
Qed.

Lemma distinct_filter f l : distinct_hosts l -> distinct_hosts (List.filter f l).
Proof.
  intros Hl i j a b (k & Hk & Hi)%filter_position (k' & Hk' & Hj)%filter_position Hij. eapply Hl; [exact Hk|exact Hk'|]. intros ->. congruence.
Qed.

Lemma selected_gone cfg central t c : graces_positive cfg -> selected cfg central t c = true ->
  gone cfg t c /\ GrantsReservedGroup (cd_Groups c) = false /\ excluded central c = false.
Proof.
  intros Hg. unfold selected. destruct (reason cfg t c) as [why|] eqn:E; [|done]. intros Hx%negb_true_iff. split_and!; [|by apply orb_false_iff in Hx as [? _]|done].
  apply reason_gone; [done|by exists why].
Qed.

Lemma candidate_row {X} cfg t (s : PStore X) c : c ∈ candidates cfg t s -> exists h e, h ∈ hbeats s /\ latest_issued (hb_IP h) (erows s) = Some e /\
  c = join_row h e /\ reaped (hb_Device h) (devices s) = false /\ prefilter cfg t h = true.
Proof.
  unfold candidates. intros (h & Hh & Hc)%list_elem_of_omap. destruct (prefilter _ _ _ && _) eqn:E; [|done]. apply andb_true_iff in E as [Hp Hr%negb_true_iff].
  apply fmap_Some in Hc as (e & He & ->). by exists h, e.
Qed.

(** The query's coarse filter loses no host the trigger would take. *)
Lemma prefilter_superset cfg t h e : is_Some (reason cfg t (join_row h e)) -> prefilter cfg t h = true.
Proof.
  unfold reason, prefilter, certStillValid, join_row. cbn. set (g := if er_Ephemeral e then _ else _).
  assert (Hg : Z.min (rc_PersistentGrace cfg) (rc_EphemeralGrace cfg) <= g) by (subst g; destruct (er_Ephemeral e); lia).
  set (m := Z.min _ _) in *. clearbody m g.
  destruct (Z.eqb_spec (hb_CertNotAfter h) 0), (Z.ltb_spec (hb_CertNotAfter h) (t - g)), (Z.ltb_spec (hb_LastSeen h) (t - g)),
    (Z.ltb_spec (hb_CertNotAfter h) (t - m)), (Z.ltb_spec (hb_LastSeen h) (t - m)),
    (Z.ltb_spec 0 (rc_SilentAfter cfg)), (Z.leb_spec t (hb_CertNotAfter h)), (Z.ltb_spec (hb_LastSeen h) (t - rc_SilentAfter cfg)); cbn;
  intros [x Hx]; try discriminate Hx; try reflexivity; lia.
Qed.

Section theorems.
Context {X : Type} (cfg : RConfig) (central : Prefix) (release : Addr -> M (PStore X) perr unit).
Implicit Types s : PStore X.

(** The releaser keeps to the allocator's tables. *)
Definition alloc_only s s' : Prop := hbeats s' = hbeats s /\ erows s' = erows s /\ devices s' = devices s /\ reaps s' = reaps s.
Definition audit_only s s' : Prop := alloc_only s s' /\ alloc_world s' = alloc_world s.
Class ReleaserOK : Prop := release_ok : forall ip T R s, wpt T R alloc_only (release ip) (fun _ _ => True) s.
Context `{!ReleaserOK}.

(** Others may do anything to the tables; this is the only reaper. *)
Context (T : Z -> Prop) (R : relation (PStore X)) (HR : forall s s', R s s' -> reaps s' = reaps s).

(** In dry-run nothing but the audit log changes. *)
Definition reaper_step s s' : Prop := rc_DryRun cfg = true -> audit_only s s'.

Lemma paudit_wp e s (Q : result perr unit -> PStore X -> Prop) :
  (forall s', reaps s' = reaps s -> Q (Ok ()) s') -> wpt T R reaper_step (recordAudit e) Q s.
Proof.
  intros HQ. unfold recordAudit. apply wp_ignore, wp_exec. intros s1 Hs1%HR. split; [by apply HQ|]. split; [by intros _; split_and!|].
  apply HQ. by cbn.
Qed.

Lemma attempt_exec_wp f s : rc_DryRun cfg = false -> (forall s, reaps (f s).2 = reaps s) ->
  wpt T R reaper_step (attempt (exec f)) (fun r s' => reaps s' = reaps s /\ exists d : result perr unit, r = Ok d) s.
Proof.
  intros Hdry Hf. wp_step. apply wp_exec. intros s1 Hs1%HR. split; [by eauto|]. destruct (f s1) as [a s2] eqn:E. split; [by intros Hd; congruence|].
  split; [|by eauto]. specialize (Hf s1). rewrite E in Hf. cbn in Hf. congruence.
Qed.

Lemma finish_reap_wp c why t rep p s : rc_DryRun cfg = false ->
  wpt T R reaper_step (finish_reap c why t rep p) (fun r s' => reaps s' = reaps s /\
    exists rep', r = Ok rep' /\ rp_Candidates rep' = rp_Candidates rep /\ rp_Reaped rep' = rp_Reaped rep + 1 /\ rp_WouldReap rep' = rp_WouldReap rep) s.
Proof.
  intros Hdry. unfold finish_reap, delete_beat, stamp.
  wp_step. eapply wp_mono; [by apply attempt_exec_wp|]. intros r1 s1 _ [H1 [d ->]].
  wp_step. eapply wp_mono; [by apply attempt_exec_wp|]. intros r2 s2 _ [H2 [u ->]].
  wp_step. apply paudit_wp. intros s3 H3. wp_step. split; [congruence|]. eexists. by split_and!.
Qed.

Lemma reapOne_wp c why t rep s : rc_DryRun cfg = false ->
  wpt T R reaper_step (reapOne release c why t rep) (fun r s' => reaps s' = reaps s ++ [c] /\
    exists rep', r = Ok rep' /\ rp_Candidates rep' = rp_Candidates rep /\ rp_Reaped rep' = rp_Reaped rep + 1 /\ rp_WouldReap rep' = rp_WouldReap rep) s.
Proof.
  intros Hdry. assert (Hany : forall s s', reaper_step s s') by (intros s1 s2 Hd; congruence).
  unfold reapOne, release_step. wp_step. wp_step. apply wp_mem. intros s1 Hs1%HR. split; [apply Hany|].
  assert (Hrest : forall p s3, reaps s3 = reaps s ++ [c] -> wpt T R reaper_step (finish_reap c why t rep p) (fun r s' => reaps s' = reaps s ++ [c] /\
    exists rep', r = Ok rep' /\ rp_Candidates rep' = rp_Candidates rep /\ rp_Reaped rep' = rp_Reaped rep + 1 /\ rp_WouldReap rep' = rp_WouldReap rep) s3).
  { intros p s3 <-. by apply finish_reap_wp. }
  assert (H2 : reaps (log_reap c s1) = reaps s ++ [c]) by (cbn; by rewrite Hs1). set (s2 := log_reap c s1) in *. clearbody s2.
  destruct (ParseAddr _) as [ip|]; [|wp_step; by apply Hrest]. wp_step. wp_step. eapply wp_frame; [apply release_ok|intros; apply Hany|]. intros r s3 Hs3.
  wp_step. apply Hrest. rewrite <- H2. clear -Hs3 HR. induction Hs3 as [|x y z [Hxy|(_ & _ & _ & Hxy)] _ IH]; [done| |]; rewrite IH; [by apply HR|done].
Qed.

Lemma reap_each_wp t l : forall rep s,
  wpt T R reaper_step (reap_each cfg central release t l rep) (fun r s' =>
    reaps s' = reaps s ++ (if rc_DryRun cfg then [] else List.filter (selected cfg central t) l) /\
    exists rep', r = Ok rep' /\ rp_Candidates rep' = rp_Candidates rep + Z.of_nat (length (List.filter (selected cfg central t) l)) /\
      rp_Reaped rep' + rp_WouldReap rep' = rp_Reaped rep + rp_WouldReap rep + Z.of_nat (length (List.filter (selected cfg central t) l)) /\
      (rc_DryRun cfg = true -> rp_Reaped rep' = rp_Reaped rep)) s.
Proof.
  induction l as [|c l IH]; intros rep s; cbn [reap_each List.filter].
  { wp_step. split; [destruct (rc_DryRun cfg); by rewrite app_nil_r|]. exists rep. split_and!; [done|cbn; lia|cbn; lia|done]. }
  assert (Hsel : selected cfg central t c = match reason cfg t c with Some _ => negb (excluded central c) | None => false end) by done.
  destruct (reason cfg t c) as [why|]; [|rewrite Hsel; apply IH]. destruct (excluded central c); rewrite Hsel; [apply IH|]. clear Hsel. cbn [negb].
  wp_step. destruct (rc_DryRun cfg) eqn:Edry.
  - unfold dryRunOne. wp_step. apply paudit_wp. intros s1 Hs1. wp_step. eapply wp_mono; [apply IH|]. cbn.
    intros r s' _ (Hr & rep' & -> & Hc & Hrw & Hd). split; [congruence|]. exists rep'. split_and!; [done|lia|lia|]. intros _. by rewrite (Hd eq_refl).
  - eapply wp_mono; [by apply reapOne_wp|]. intros r s1 _ (Hs1 & rep1 & -> & Hc1 & Hr1 & Hw1). eapply wp_mono; [apply IH|]. cbn in *.
    intros r s' _ (Hr & rep' & -> & Hc & Hrw & Hd). split; [rewrite Hr, Hs1, <- app_assoc; done|]. exists rep'. split_and!; [done|lia|lia|done].
Qed.

(** The reaper only touches hosts that are gone. With positive graces (the defaults
    are), whatever other processes and faults do: a pass acts, outside dry-run, on exactly
    the loaded candidates that pass the trigger and the exclusions, at most once per address
    and per device; each of them was, in the state the query read, a heartbeat joined with
    the latest issued enrollment of its address on a device not yet reaped, holds no
    reserved group, has an address outside the central block, and has a known expiry in the
    past and was silent for its grace or the silence limit. In dry-run nothing but the audit
    log changes. The report counts exactly these hosts. *)
Theorem reaper_spares_the_living s : graces_positive cfg ->
  wpt T R reaper_step (ReapOnce cfg central release) (fun r s' => forall rep, r = Ok rep ->
    exists s1 t1 t2 acts, T t1 /\ T t2 /\ R s s1 /\
      reaps s' = reaps s ++ (if rc_DryRun cfg then [] else acts) /\
      rp_Candidates rep = Z.of_nat (length acts) /\ rp_Reaped rep + rp_WouldReap rep = Z.of_nat (length acts) /\
      distinct_hosts acts /\
      forall c, c ∈ acts -> gone cfg t2 c /\ GrantsReservedGroup (cd_Groups c) = false /\ excluded central c = false /\
        exists h e, h ∈ hbeats s1 /\ latest_issued (hb_IP h) (erows s1) = Some e /\ c = join_row h e /\ reaped (hb_Device h) (devices s1) = false) s.
Proof.
  intros Hg. unfold ReapOnce, loadCandidates. wp_step. wp_step. wp_step. rename t into t1. wp_step. apply wp_query. intros s1 Hs1. split; [done|].
  wp_step. wp_step. wp_step. rename t into t2. eapply wp_mono; [apply reap_each_wp|]. intros r s' _ (Hr & rep' & -> & Hc & Hrw & _) rep [= <-].
  set (acts := List.filter (selected cfg central t2) (dedupByHost (candidates cfg t1 s1))) in *.
  exists s1, t1, t2, acts. split_and!; [done|done|done|by rewrite Hr, (HR _ _ Hs1)|exact Hc|exact Hrw| |].
  - by apply distinct_filter, dedup_distinct.
  - intros c [Hin%list_elem_of_In Hsel]%list_elem_of_In%filter_In. destruct (selected_gone _ _ _ _ Hg Hsel) as (? & ? & ?).
    apply dedup_sub, candidate_row in Hin as (h & e & ? & ? & ? & ? & _). split_and!; [done..|]. by exists h, e.
Qed.
End theorems.

(** ** A pass over three hosts *)

Definition demo_graces : RConfig := withDefaults (mkRConfig 0 0 0 false).
Definition demo_release (ip : Addr) : M (PStore (list Addr)) perr unit := exec (fun s =>
  ((), mkPStore (hbeats s) (erows s) (devices s) (List.filter (fun a => negb (bool_decide (a = ip))) (alloc_world s)) (p_audit s) (reaps s))).
#[export] Instance demo_release_ok : ReleaserOK demo_release.
Proof. intros ip T R s. apply wp_exec. intros s1 _. split; [done|]. by split. Qed.

Definition demo_central_block : Prefix := mkPrefix (Addr4 167772160) 24.
Definition demo_reap_now : Z := 100 * 24 * reaper_hour.
Definition demo_beats : list HBeat :=
  [mkHBeat "10.0.1.9" "old" 1 1; mkHBeat "10.0.1.10" "quiet" (demo_reap_now + 1) 1; mkHBeat "10.0.0.1" "lh1" 1 1].
Definition demo_issued_rows : list ERow :=
  [mkERow 1 "10.0.1.9" "issued" "f1" false ["web"]; mkERow 2 "10.0.1.10" "issued" "f2" false ["web"]; mkERow 3 "10.0.0.1" "issued" "f3" false ["lighthouse"]].
Definition demo_reap_store : PStore (list Addr) :=
  mkPStore demo_beats demo_issued_rows [mkDRow "old" 0 ""; mkDRow "quiet" 0 ""; mkDRow "lh1" 0 ""]
    (omap (fun h => ParseAddr (hb_IP h)) demo_beats) [] [].

Lemma reaper_spares_the_living_witness :
  (map cd_DeviceName (reaps (run demo_reap_now (ReapOnce demo_graces demo_central_block demo_release) demo_reap_store).2) = ["old"]) /\
  graces_positive demo_graces /\
  wpt (fun t => t = demo_reap_now) eq (reaper_step demo_graces) (ReapOnce demo_graces demo_central_block demo_release) (fun r s' => forall rep, r = Ok rep ->
    exists acts, reaps s' = acts /\ rp_Reaped rep + rp_WouldReap rep = Z.of_nat (length acts) /\ forall c, c ∈ acts -> gone demo_graces demo_reap_now c) demo_reap_store.
Proof.
  split; [vm_compute; reflexivity|]. split; [apply withDefaults_positive|].
  pose proof (reaper_spares_the_living demo_graces demo_central_block demo_release (fun t => t = demo_reap_now) eq
    (fun s s' H => match H with eq_refl => eq_refl end) demo_reap_store (withDefaults_positive _)) as H.
  eapply wp_mono; [exact H|]. intros r s' _ Hr rep Hrep. destruct (Hr rep Hrep) as (s1 & t1 & t2 & acts & _ & -> & _ & Hreaps & _ & Hc & _ & Hall).
  exists acts. split_and!; [exact Hreaps|exact Hc|]. intros c Hin. apply (Hall c Hin).
Defined.

(** ** A host that comes back during the pass *)

(** The heartbeat the host "old" sends between the candidate query and the reap. *)
Definition comes_back {X} (s : PStore X) : PStore X :=
  set_hbeats (map (fun h => if bool_decide (hb_Device h = "old") then mkHBeat (hb_IP h) "old" (demo_reap_now + 1) demo_reap_now else h) (hbeats s)) s.
Definition wakes_env : Env (PStore (list Addr)) :=
  mkEnv (fun _ => demo_reap_now) (fun _ => false) (fun k s => if bool_decide (k = 3%nat) then comes_back s else s).

(** The pass acts on what its query read: a host that renews and reports between the query
    and its turn is live, and still loses its address and its heartbeat row. *)
Lemma live_host_is_reaped_in_a_race :
  let '(r, _, s') := ReapOnce demo_graces demo_central_block demo_release wakes_env 0%nat demo_reap_store in
  is_ok r = true /\ (exists h, h ∈ hbeats (comes_back demo_reap_store) /\ hb_Device h = "old" /\ demo_reap_now < hb_CertNotAfter h) /\
  map hb_Device (hbeats s') = ["quiet"; "lh1"] /\ length (alloc_world s') = 2%nat.
Proof.
  vm_compute. split; [reflexivity|]. split; [|by split]. eexists. split; [left|split; reflexivity].
Qed.
