(* ===== verification/CoreApi.v ===== *)
(** * internal/coreapi: Core's mesh API

    The three handlers of Core (heartbeat, certificate renewal, config refresh) with
    everything they call in the package: the identity of a tunnel, self-heal and the
    re-assertion of addresses, the command channel with the accelerated drain, the choice of
    the signed groups, and the assembly of bundles. State: the columns used of enrollments,
    heartbeats and devices, the revocations and address tables of their own components, and
    one more component-owned part [c_world]. A groups column is the list its JSON text
    encodes. The allocator, the signer, the rollout engine, the release registries and the
    bundle's sources are services; JSON, PEM and cryptography are parameters. The ghost
    [c_signed] is the list of templates handed to the signer. *)

From S2P Require Import Prelude Db Bytes GoStrings Netip Policy AddrStore Nonce Jws Bundle DualControl Revocation Rollout Signer.
From stdpp Require Import prelude strings list relations.
From Stdlib Require Import ZArith Lia Ascii.
Open Scope Z_scope.

Inductive coerr : Type := C_AddrTaken | C_Service | C_Fault.
#[export] Instance coerr_db : DbError coerr := C_Fault.

Definition StatusIssued : string := "issued".
Definition CodeInvalidRequest : string := "invalid_request".
Definition CodeInvalidSignature : string := "invalid_signature".
Definition CodeAccountNotAllowed : string := "account_not_allowed".
Definition CodeSigningUnavailable : string := "signing_unavailable".
Definition CodeInternal : string := "internal".
Definition CmdRenew : string := "renew".
Definition CmdRestart : string := "restart".
Definition TypRenewRequest : string := "ncp-renew+jws".

(** The columns of enrollments Core and the device surface of the admin API use. *)
Record CRow : Type := mkCRow {
  cr_ID : Z;
  cr_DeviceName : string;
  cr_OverlayIP : string;
  cr_Status : string;
  cr_CertPEM : string;
  cr_Groups : list string;
  cr_DesiredGroups : list string;
  cr_GroupsGeneration : Z;
  cr_IssuedGeneration : Z;
  cr_Fingerprint : string;
  cr_CAFingerprint : string;
  cr_GOOS : string;
  cr_GOARCH : string;
  cr_ReductionPending : bool;
  cr_ReductionOldNotAfter : Z;
  cr_Ephemeral : bool;
}.

(** [Heartbeat] (its primary key is not used). *)
Record Beat : Type := mkBeat {
  bt_OverlayIP : string;
  bt_DeviceName : string;
  bt_PilotVersion : string;
  bt_NebulaVersion : string;
  bt_CertNotAfter : Z;
  bt_AppliedBundle : Z;
  bt_AppliedBlocklist : Z;
  bt_AppliedNebula : Z;
  bt_AppliedPilot : Z;
  bt_ClockOffsetMs : Z;
  bt_Health : string;
  bt_LastSeen : Z;
  bt_TrustedCAs : list string;
  bt_TrustedConfigKeys : list string;
}.

(** The reaper's columns of devices. *)
Record Mark : Type := mkMark { mk_Name : string; mk_ReapedAt : Z; mk_Reason : string }.

(** [wire.HeartbeatRequest] *)
Record HeartbeatRequest : Type := mkHBReq {
  hq_Type : string;
  hq_AppliedBundleVersion : Z;
  hq_AppliedBlocklistVersion : Z;
  hq_CertNotAfter : string;
  hq_PilotVersion : string;
  hq_PilotSHA256 : string;
  hq_NebulaVersion : string;
  hq_NebulaSHA256 : string;
  hq_GOOS : string;
  hq_GOARCH : string;
  hq_ClockOffsetMs : Z;
  hq_Health : string;
  hq_TrustedCAs : list string;
  hq_TrustedConfigKeys : list string;
}.

(** [wire.RenewRequest] *)
Record RenewRequest : Type := mkRenewReq { rq_Type : string; rq_Curve : string; rq_PublicKey : string }.

(** What a handler writes. A nil signer panics. *)
Inductive response : Type :=
| R_Error (code : string)
| R_Commands (cmds : list Command)
| R_Bundle (jws : string)
| R_Panic.

(** What [Signer.Issue] returns: the PEM, the fingerprint and the issuer. *)
Record Issued : Type := mkIssued { is_PEM : string; is_Fingerprint : string; is_Issuer : string }.

Definition CEntry : Type := string * string * string.

Record CStore (X : Type) : Type := mkCStore {
  crows : list CRow;
  cbeats : list Beat;
  cmarks : list Mark;
  c_rev : VStore;
  c_addr : Store;
  c_world : X;
  c_audit : list CEntry;
  c_signed : list Template;
}.
Arguments mkCStore {X}. Arguments crows {X}. Arguments cbeats {X}. Arguments cmarks {X}. Arguments c_rev {X}. Arguments c_addr {X}.
Arguments c_world {X}. Arguments c_audit {X}. Arguments c_signed {X}.

Section state.
Context {X : Type}.
Implicit Types s : CStore X.
Definition set_crows (l : list CRow) s : CStore X := mkCStore l (cbeats s) (cmarks s) (c_rev s) (c_addr s) (c_world s) (c_audit s) (c_signed s).
Definition set_cbeats (l : list Beat) s : CStore X := mkCStore (crows s) l (cmarks s) (c_rev s) (c_addr s) (c_world s) (c_audit s) (c_signed s).
Definition set_cmarks (l : list Mark) s : CStore X := mkCStore (crows s) (cbeats s) l (c_rev s) (c_addr s) (c_world s) (c_audit s) (c_signed s).
Definition set_addr (a : Store) s : CStore X := mkCStore (crows s) (cbeats s) (cmarks s) (c_rev s) a (c_world s) (c_audit s) (c_signed s).
Definition add_caudit (e : CEntry) s : CStore X :=
  mkCStore (crows s) (cbeats s) (cmarks s) (c_rev s) (c_addr s) (c_world s) (c_audit s ++ [e]) (c_signed s).
Definition log_signed (t : Template) s : CStore X :=
  mkCStore (crows s) (cbeats s) (cmarks s) (c_rev s) (c_addr s) (c_world s) (c_audit s) (c_signed s ++ [t]).
Definition update_rows (f : CRow -> bool) (g : CRow -> CRow) s : CStore X := set_crows (map (fun e => if f e then g e else e) (crows s)) s.
End state.

Definition with_status (st : string) (e : CRow) : CRow :=
  mkCRow (cr_ID e) (cr_DeviceName e) (cr_OverlayIP e) st (cr_CertPEM e) (cr_Groups e) (cr_DesiredGroups e) (cr_GroupsGeneration e)
    (cr_IssuedGeneration e) (cr_Fingerprint e) (cr_CAFingerprint e) (cr_GOOS e) (cr_GOARCH e) (cr_ReductionPending e) (cr_ReductionOldNotAfter e) (cr_Ephemeral e).
Definition with_arch (os arch : string) (e : CRow) : CRow :=
  mkCRow (cr_ID e) (cr_DeviceName e) (cr_OverlayIP e) (cr_Status e) (cr_CertPEM e) (cr_Groups e) (cr_DesiredGroups e) (cr_GroupsGeneration e)
    (cr_IssuedGeneration e) (cr_Fingerprint e) (cr_CAFingerprint e) os arch (cr_ReductionPending e) (cr_ReductionOldNotAfter e) (cr_Ephemeral e).
Definition with_prints (fp cafp : string) (e : CRow) : CRow :=
  mkCRow (cr_ID e) (cr_DeviceName e) (cr_OverlayIP e) (cr_Status e) (cr_CertPEM e) (cr_Groups e) (cr_DesiredGroups e) (cr_GroupsGeneration e)
    (cr_IssuedGeneration e) fp cafp (cr_GOOS e) (cr_GOARCH e) (cr_ReductionPending e) (cr_ReductionOldNotAfter e) (cr_Ephemeral e).
(** The groups write-back; [reduction] is the old expiry when groups were lost. *)
Definition with_groups (groups : list string) (gen : Z) (reduction : option Z) (e : CRow) : CRow :=
  mkCRow (cr_ID e) (cr_DeviceName e) (cr_OverlayIP e) (cr_Status e) (cr_CertPEM e) groups (cr_DesiredGroups e) (cr_GroupsGeneration e)
    gen (cr_Fingerprint e) (cr_CAFingerprint e) (cr_GOOS e) (cr_GOARCH e)
    (match reduction with Some _ => true | None => cr_ReductionPending e end) (match reduction with Some na => na | None => cr_ReductionOldNotAfter e end)
    (cr_Ephemeral e).

(** [Order("id DESC").First] under a WHERE clause. *)
Definition newer (f : CRow -> bool) (acc : option CRow) (e : CRow) : option CRow :=
  if f e then match acc with Some a => if cr_ID a <? cr_ID e then Some e else acc | None => Some e end else acc.
Definition newest (f : CRow -> bool) (l : list CRow) : option CRow := fold_left (newer f) l None.

Definition at_ip (ip : string) (e : CRow) : bool := bool_decide (cr_OverlayIP e = ip).
Definition issued_at (ip : string) (e : CRow) : bool := at_ip ip e && bool_decide (cr_Status e = StatusIssued).
Definition has_id (id : Z) (e : CRow) : bool := cr_ID e =? id.

(** [net.SplitHostPort]'s host. *)
Fixpoint index_byte (c : ascii) (s : string) : option nat :=
  match s with
  | "" => None
  | String d s => if decide (d = c) then Some 0%nat else S <$> index_byte c s
  end.
Fixpoint last_index_byte (c : ascii) (s : string) : option nat :=
  match s with
  | "" => None
  | String d s => match last_index_byte c s with Some i => Some (S i) | None => if decide (d = c) then Some 0%nat else None end
  end.
Definition colon : ascii := ":".
Definition has_byte (c : ascii) (s : string) : bool := bool_decide (is_Some (index_byte c s)).
Definition SplitHost (hostport : string) : option string :=
  match last_index_byte colon hostport with
  | None => None
  | Some i =>
      if HasPrefix hostport "[" then
        match index_byte "]" hostport with
        | None => None
        | Some e =>
            if decide (S e = i) then
              if has_byte "[" (drop_s 1 hostport) || has_byte "]" (drop_s (S e) hostport) then None else Some (take_s (e - 1) (drop_s 1 hostport))
            else None
        end
      else
        let host := take_s i hostport in
        if has_byte colon host || has_byte "[" hostport || has_byte "]" hostport then None else Some host
  end.

(** The source overlay address of a request. *)
Definition remote_ip (remoteAddr : string) : string := default remoteAddr (SplitHost remoteAddr).

(** ** The groups a renewal signs *)

Definition containsGroup (gs : list string) (g : string) : bool := bool_decide (g ∈ gs).

Fixpoint keep_go (result kept issued : list string) : list string * list string :=
  match issued with
  | [] => (result, kept)
  | g :: issued =>
      if IsReservedGroup g && negb (containsGroup result g) then keep_go (result ++ [g]) (kept ++ [g]) issued else keep_go result kept issued
  end.
Definition keepReservedGroups (issued desired : list string) : list string * list string :=
  if negb (GrantsReservedGroup issued) then (desired, []) else keep_go desired [] issued.

Definition groupsReduced (oldSet newSet : list string) : bool := existsb (fun o => negb (containsGroup newSet o)) oldSet.

(** ** The widening waves of an accelerated drain *)

Definition inDrainWave (overlayIP : string) (startedNS windowNS nowNS : Z) : bool :=
  if (startedNS <=? 0) || (windowNS <=? 0) then false
  else
    let elapsed := i64 (nowNS - startedNS) in
    if elapsed <? 0 then false
    else if windowNS <=? elapsed then true
    else
      let bucket := fnv32a 2166136261 overlayIP mod 100 in
      let admitted := Z.quot (i64 (elapsed * 100)) windowNS in
      bucket <=? admitted.

(** ** The services of other components *)

Definition tuple : Type := string * string * string.   (* version, SHA-256, URL *)
Definition no_tuple : tuple := ("", "", "").

(** [ReleaseSource]; [Lookup] answers [None] without an artifact for the platform. *)
Record ReleaseSource (X : Type) : Type := mkSource {
  rs_Lookup : Z -> string -> string -> M (CStore X) coerr (option tuple);
  rs_GenForSHA : string -> M (CStore X) coerr Z;
}.
(** The methods of [rollout.Engine]. *)
Record RolloutOps (X : Type) : Type := mkRolloutOps {
  ro_VersionFor : string -> M (CStore X) coerr (Z * bool);
  ro_BlocklistVersion : M (CStore X) coerr Z;
  ro_CommandFor : string -> string -> Z -> M (CStore X) coerr (option Command);   (* by lane *)
  ro_GenFor : string -> string -> M (CStore X) coerr (Z * bool);
  ro_FloorCatchupGen : string -> Z -> M (CStore X) coerr (Z * bool);
  ro_Evaluate : M (CStore X) coerr bool;
}.
(** [CADrainSource]; [DrainWave] answers the window when the CA is force-drained. *)
Record CADrainSource (X : Type) : Type := mkDrain {
  cd_ActiveFingerprint : M (CStore X) coerr string;
  cd_DrainWave : string -> M (CStore X) coerr (option (Z * Z));
}.
Record SignerOps (X : Type) : Type := mkSignerOps {
  sg_Issue : string -> Template -> M (CStore X) coerr Issued;
  sg_CurrentFingerprint : M (CStore X) coerr string;
  sg_BreakerOpen : M (CStore X) coerr bool;
}.
Arguments mkSource {X}. Arguments rs_Lookup {X}. Arguments rs_GenForSHA {X}.
Arguments mkRolloutOps {X}. Arguments ro_VersionFor {X}. Arguments ro_BlocklistVersion {X}. Arguments ro_CommandFor {X}. Arguments ro_GenFor {X}.
Arguments ro_FloorCatchupGen {X}. Arguments ro_Evaluate {X}.
Arguments mkDrain {X}. Arguments cd_ActiveFingerprint {X}. Arguments cd_DrainWave {X}.
Arguments mkSignerOps {X}. Arguments sg_Issue {X}. Arguments sg_CurrentFingerprint {X}. Arguments sg_BreakerOpen {X}.

(** [Config]: what is wired, the constants, and the bundle's sources. *)
Record CoreConfig (X : Type) : Type := mkCoreConfig {
  co_Revocation : bool;
  co_AllocateSpecific : option (string -> Addr -> string -> M (CStore X) coerr unit);
  co_Central : Prefix;
  co_Signer : option (SignerOps X);
  co_signBundle : Bundle -> M (CStore X) coerr string;
  co_Rollout : option (RolloutOps X);
  co_NebulaReleases : option (ReleaseSource X);
  co_PilotReleases : option (ReleaseSource X);
  co_CADrain : option (CADrainSource X);
  co_CABundleSource : option (M (CStore X) coerr (list string));
  co_ConfigKeySource : option (M (CStore X) coerr (list string));
  co_ConfigKeyVersionSource : option (M (CStore X) coerr Z);
  co_LighthouseSource : option (M (CStore X) coerr (list Lighthouse));
  co_BlocklistSource : option (M (CStore X) coerr (list string));
  co_CABundlePEM : string;
  co_ConfigKeyPEM : string;
  co_Lighthouses : list Lighthouse;
  co_Policy : option Policy;
  co_Pool : Prefix;
  co_TunDev : string;
  co_ListenPort : Z;
  co_Nebula : tuple;
  co_Pilot : tuple;
  co_CertLifetime : Z;
  co_RenewCommandThreshold : Z;
}.
Arguments mkCoreConfig {X}. Arguments co_Revocation {X}. Arguments co_AllocateSpecific {X}. Arguments co_Central {X}. Arguments co_Signer {X}.
Arguments co_signBundle {X}. Arguments co_Rollout {X}. Arguments co_NebulaReleases {X}. Arguments co_PilotReleases {X}. Arguments co_CADrain {X}.
Arguments co_CABundleSource {X}. Arguments co_ConfigKeySource {X}. Arguments co_ConfigKeyVersionSource {X}. Arguments co_LighthouseSource {X}.
Arguments co_BlocklistSource {X}. Arguments co_CABundlePEM {X}. Arguments co_ConfigKeyPEM {X}. Arguments co_Lighthouses {X}. Arguments co_Policy {X}.
Arguments co_Pool {X}. Arguments co_TunDev {X}. Arguments co_ListenPort {X}. Arguments co_Nebula {X}. Arguments co_Pilot {X}.
Arguments co_CertLifetime {X}. Arguments co_RenewCommandThreshold {X}.

(** The library functions Core calls. *)
Record CoreLib (Pub : Type) : Type := mkCoreLib {
  cl_sha256 : string -> string;
  cl_ecdsaVerify : Pub -> string -> Z -> Z -> bool;
  cl_unmarshalHeader : string -> option Header;
  cl_unmarshalEnv : string -> option Flattened;
  cl_unmarshalRenew : string -> option RenewRequest;
  cl_unmarshalHeartbeat : string -> option HeartbeatRequest;
  cl_parsePoint : string -> option Pub;
  cl_parseRFC3339 : string -> option Z;
  cl_rfc3339 : Z -> string;
  cl_certNotAfter : string -> option Z;        (* of a certificate's PEM *)
}.
Arguments mkCoreLib {Pub}. Arguments cl_sha256 {Pub}. Arguments cl_ecdsaVerify {Pub}. Arguments cl_unmarshalHeader {Pub}. Arguments cl_unmarshalEnv {Pub}.
Arguments cl_unmarshalRenew {Pub}. Arguments cl_unmarshalHeartbeat {Pub}. Arguments cl_parsePoint {Pub}. Arguments cl_parseRFC3339 {Pub}.
Arguments cl_rfc3339 {Pub}. Arguments cl_certNotAfter {Pub}.

(** The device that holds an address: the join of ip_allocations and devices. *)
Definition owner_of (ip : string) (st : Store) : option string :=
  al ← find_first (fun al => bool_decide (al_ip al = ip)) (allocs st);
  d ← find_first (fun d => dev_id d =? al_device_id al) (devices st);
  if decide (dev_name d = "") then None else Some (dev_name d).

(** ** The server *)

Section server.
Context {X Pub : Type} (lib : CoreLib Pub) (cfg : CoreConfig X).
Abbreviation CM := (M (CStore X) coerr).

Definition caudit (actor action target : string) : CM unit := ignore (exec (fun s => ((), add_caudit (actor, action, target) s))).

(** A method without an error result: it answers its default when its reads fail. *)
Definition or_default {A} (dflt : A) (m : CM A) : CM A := r ← attempt m; mret (match r with Ok a => a | Err _ => dflt end).

(** A live source with its fallback. *)
Definition live_or {A} (src : option (CM A)) (keep : A -> bool) (dflt : A) : CM A :=
  match src with
  | None => mret dflt
  | Some m => r ← attempt m; mret (match r with Ok a => if keep a then a else dflt | Err _ => dflt end)
  end.
Definition filled {A} (l : list A) : bool := negb (bool_decide (length l = 0%nat)).

Definition lighthouses : CM (list Lighthouse) := live_or (co_LighthouseSource cfg) filled (co_Lighthouses cfg).
Definition caBundle : CM (list string) := live_or (co_CABundleSource cfg) filled [co_CABundlePEM cfg].
Definition configKeys : CM (list string) :=
  live_or (co_ConfigKeySource cfg) filled (if decide (co_ConfigKeyPEM cfg = "") then [] else [co_ConfigKeyPEM cfg]).
Definition configKeyVersion : CM Z := live_or (co_ConfigKeyVersionSource cfg) (fun _ => true) 0.
Definition blocklist : CM (list string) := live_or (co_BlocklistSource cfg) (fun _ => true) [].

Definition bundleVersion (overlayIP : string) : CM Z :=
  match co_Rollout cfg with
  | None => mret 1
  | Some ro => r ← or_default (0, false) (ro_VersionFor ro overlayIP); mret (if r.2 : bool then r.1 else 1)
  end.
Definition blocklistVersion : CM Z := match co_Rollout cfg with None => mret 0 | Some ro => or_default 0 (ro_BlocklistVersion ro) end.

(** [nebulaRelease] and [pilotRelease]: the same code over the two lanes. *)
Definition releaseFor (lane : string) (src : option (ReleaseSource X)) (static : tuple) (overlayIP goos goarch : string) : CM tuple :=
  match co_Rollout cfg, src with
  | Some ro, Some rs =>
      g ← or_default (0, false) (ro_GenFor ro lane overlayIP);
      let '(gen, governed) := g in
      if governed : bool then
        if gen =? 0 then mret no_tuple
        else v ← or_default None (rs_Lookup rs gen goos goarch); mret (default no_tuple v)
      else mret static
  | _, _ => mret static
  end.
Definition nebulaRelease := releaseFor LaneNebula (co_NebulaReleases cfg) (co_Nebula cfg).
Definition pilotRelease := releaseFor LanePilot (co_PilotReleases cfg) (co_Pilot cfg).

Definition assembleBundle (dev : CRow) (groups : list string) (certPEM : string) (notAfter : Z) : CM Bundle :=
  neb ← nebulaRelease (cr_OverlayIP dev) (cr_GOOS dev) (cr_GOARCH dev);
  pil ← pilotRelease (cr_OverlayIP dev) (cr_GOOS dev) (cr_GOARCH dev);
  bv ← bundleVersion (cr_OverlayIP dev);
  blv ← blocklistVersion;
  t ← now;
  cas ← caBundle;
  ks ← configKeys;
  kv ← configKeyVersion;
  lhs ← lighthouses;
  bl ← blocklist;
  mret (mkBundle 0 "" bv blv (cl_rfc3339 lib t) (mkBDevice (cr_DeviceName dev) (cr_OverlayIP dev) groups) certPEM cas ks kv
          (CompileFirewall (co_Policy cfg) groups) lhs bl (co_TunDev cfg) (co_ListenPort cfg) neb pil (cl_rfc3339 lib notAfter)).

Definition device (remoteAddr : string) : CM (option CRow) :=
  or_default None (query (fun s => newest (issued_at (remote_ip remoteAddr)) (crows s))).

(** [Revocation.ActiveFingerprints] *)
Definition activeFingerprints : CM (list string) := query (fun s => sort_strings (active_fps (c_rev s))).

Definition revoked (fingerprint : string) : CM bool :=
  if negb (co_Revocation cfg) || bool_decide (fingerprint = "") then mret false
  else fps ← activeFingerprints; mret (bool_decide (fingerprint ∈ fps)).

Definition allocationOwner (ip : string) : CM (option string) := or_default None (query (fun s => owner_of ip (c_addr s))).

(** Steps 5 to 8 of [trySelfHeal], its guards passed. *)
Definition heal_address (alloc : string -> Addr -> string -> CM unit) (e : CRow) (ip : string) (addr : Addr) : CM bool :=
  r ← attempt (alloc (cr_DeviceName e) addr "self-heal");
  match r with
  | Ok _ => mret true
  | Err C_AddrTaken => o ← allocationOwner ip; mret (bool_decide (o = Some (cr_DeviceName e)))
  | Err _ => mret false
  end.

Definition clear_mark (name : string) : CM unit :=
  ignore (exec (fun s => ((), set_cmarks (map (fun m => if bool_decide (mk_Name m = name) && negb (mk_ReapedAt m =? 0) then mkMark (mk_Name m) 0 "" else m) (cmarks s)) s))).

Definition heal_rows (e : CRow) (remoteAddr : string) : CM (option CRow) :=
  _ ← (if decide (cr_Status e = StatusIssued) then mret ()
       else ignore (exec (fun s => ((), update_rows (fun x => has_id (cr_ID e) x && negb (bool_decide (cr_Status x = StatusIssued))) (with_status StatusIssued) s))));
  _ ← clear_mark (cr_DeviceName e);
  _ ← caudit "system" "heartbeat-self-heal" (remote_ip remoteAddr);
  device remoteAddr.

Definition trySelfHeal (remoteAddr : string) : CM (option CRow) :=
  if negb (co_Revocation cfg) then mret None
  else match co_AllocateSpecific cfg with
  | None => mret None
  | Some alloc =>
      let ip := remote_ip remoteAddr in
      e ← or_default None (query (fun s => newest (at_ip ip) (crows s)));
      match e with
      | None => mret None
      | Some e =>
          match cl_certNotAfter lib (cr_CertPEM e) with
          | None => mret None
          | Some notAfter =>
              t ← now;
              if notAfter <=? t then mret None
              else
                rv ← attempt (revoked (cr_Fingerprint e));
                match rv with
                | Err _ => mret None
                | Ok true => mret None
                | Ok false =>
                    if GrantsReservedGroup (cr_Groups e) then mret None
                    else match ParseAddr ip with
                    | None => mret None
                    | Some addr =>
                        if IsValid (co_Central cfg) && Contains (co_Central cfg) addr then mret None
                        else
                          ok ← heal_address alloc e ip addr;
                          if ok : bool then heal_rows e remoteAddr else mret None
                    end
                end
          end
      end
  end.

Definition reconcileAllocation (dev : CRow) : CM unit :=
  match co_AllocateSpecific cfg with
  | None => mret ()
  | Some alloc =>
      if decide (cr_OverlayIP dev = "") then mret ()
      else
        o ← allocationOwner (cr_OverlayIP dev);
        match o with
        | Some _ => mret ()
        | None =>
            match ParseAddr (cr_OverlayIP dev) with
            | None => mret ()
            | Some addr => ignore (alloc (cr_DeviceName dev) addr "heartbeat-reconcile")
            end
        end
  end.

(** ** Commands *)

Definition forceRenewStraggler (overlayIP hostCAFp : string) : CM bool :=
  match co_CADrain cfg with
  | None => mret false
  | Some drain =>
      if decide (hostCAFp = "") then mret false
      else
        a ← attempt (cd_ActiveFingerprint drain);
        match a with
        | Err _ => mret false
        | Ok activeFp =>
            if bool_decide (activeFp = "") || bool_decide (ToLower hostCAFp = ToLower activeFp) then mret false
            else match co_Signer cfg with
            | None => mret false
            | Some sg =>
                cur ← or_default "" (sg_CurrentFingerprint sg);
                if negb (bool_decide (ToLower cur = ToLower activeFp)) then mret false
                else
                  w ← attempt (cd_DrainWave drain hostCAFp);
                  match w with
                  | Ok (Some (startedNS, windowNS)) =>
                      t ← now;
                      if negb (inDrainWave overlayIP startedNS windowNS t) then mret false
                      else
                        o ← attempt (sg_BreakerOpen sg);
                        mret (match o with Ok true => false | _ => true end)
                  | _ => mret false
                  end
            end
        end
  end.

(** One release lane of [floorReconcile]. *)
Definition floor_lane (ro : RolloutOps X) (lane : string) (src : option (ReleaseSource X)) (goos goarch : string) (applied : Z) : CM (option Command) :=
  match src with
  | None => mret None
  | Some rs =>
      g ← or_default (0, false) (ro_FloorCatchupGen ro lane applied);
      let '(gen, ok) := g in
      if ok : bool then
        v ← or_default None (rs_Lookup rs gen goos goarch);
        mret (match v with Some _ => Some (mkCommand CmdApplyBundle gen) | None => None end)
      else mret None
  end.
Definition floorReconcile (ro : RolloutOps X) (goos goarch : string) (appliedNebula appliedPilot : Z) : CM (option Command) :=
  n ← floor_lane ro LaneNebula (co_NebulaReleases cfg) goos goarch appliedNebula;
  match n with
  | Some c => mret (Some c)
  | None => floor_lane ro LanePilot (co_PilotReleases cfg) goos goarch appliedPilot
  end.

(** The chain of [else if] over the lanes. *)
Definition or_else (m : CM (option Command)) (k : CM (option Command)) : CM (option Command) :=
  c ← m; match c with Some c => mret (Some c) | None => k end.

Definition nearExpiry (certNotAfter : Z) : CM bool :=
  if (0 <? co_RenewCommandThreshold cfg) && (0 <? certNotAfter)
  then t ← now; mret (certNotAfter - t <? co_RenewCommandThreshold cfg) else mret false.

Definition applyCommand (overlayIP goos goarch : string) (bundle blocklist nebula pilot : Z) : CM (option Command) :=
  match co_Rollout cfg with
  | None => mret None
  | Some ro =>
      let lane l v := or_default None (ro_CommandFor ro l overlayIP v) in
      or_else (lane LanePolicy bundle) (or_else (lane LaneBlocklist blocklist)
        (or_else (lane LaneNebula nebula) (or_else (lane LanePilot pilot) (floorReconcile ro goos goarch nebula pilot))))
  end.

Definition with_refresh (dev : CRow) (bundle blocklist nebula pilot : Z) (renew : bool) : CM (list Command) :=
  c ← applyCommand (cr_OverlayIP dev) (cr_GOOS dev) (cr_GOARCH dev) bundle blocklist nebula pilot;
  mret ((if renew then [mkCommand CmdRenew 0] else []) ++ match c with Some c => [c] | None => [] end).

Definition commandsFor (dev : CRow) (bundle blocklist nebula pilot certNotAfter : Z) : CM (list Command) :=
  near ← nearExpiry certNotAfter;
  let renew := near || (cr_IssuedGeneration dev <? cr_GroupsGeneration dev) in
  renew ← (if renew then mret true else forceRenewStraggler (cr_OverlayIP dev) (cr_CAFingerprint dev));
  with_refresh dev bundle blocklist nebula pilot renew.

(** ** POST /v1/heartbeat *)

Definition normalize (f : string -> string) (fps : list string) : list string := sort_strings (map f fps).

Definition upsert_beat (b : Beat) (l : list Beat) : list Beat :=
  if existsb (fun x => bool_decide (bt_OverlayIP x = bt_OverlayIP b)) l
  then map (fun x => if bool_decide (bt_OverlayIP x = bt_OverlayIP b) then b else x) l else l ++ [b].

Definition gen_of (src : option (ReleaseSource X)) (sha : string) : CM Z :=
  match src with None => mret 0 | Some rs => or_default 0 (rs_GenForSHA rs sha) end.

Definition cert_time (s : string) : Z := if decide (s = "") then 0 else default 0 (cl_parseRFC3339 lib s).

Definition beat_of (dev : CRow) (req : HeartbeatRequest) (nebula pilot t : Z) : Beat :=
  mkBeat (cr_OverlayIP dev) (cr_DeviceName dev) (hq_PilotVersion req) (hq_NebulaVersion req) (cert_time (hq_CertNotAfter req))
    (hq_AppliedBundleVersion req) (hq_AppliedBlocklistVersion req) nebula pilot (hq_ClockOffsetMs req) (hq_Health req) t
    (normalize (fun s => ToLower (TrimSpace s)) (hq_TrustedCAs req)) (normalize TrimSpace (hq_TrustedConfigKeys req)).

Definition recordArch (dev : CRow) (req : HeartbeatRequest) : CM unit :=
  if negb (bool_decide (hq_GOOS req = "")) && (negb (bool_decide (hq_GOOS req = cr_GOOS dev)) || negb (bool_decide (hq_GOARCH req = cr_GOARCH dev))) then
    r ← attempt (exec (fun s => ((), update_rows (has_id (cr_ID dev)) (with_arch (hq_GOOS req) (hq_GOARCH req)) s)));
    match r with Ok _ => mret () | Err _ => caudit "system" "host-arch-update-error" (cr_OverlayIP dev) end
  else mret ().

Definition driveRollout (overlayIP : string) : CM unit :=
  match co_Rollout cfg with
  | None => mret ()
  | Some ro =>
      r ← attempt (ro_Evaluate ro);
      match r with Ok _ => mret () | Err _ => caudit "system" "rollout-eval-error" overlayIP end
  end.

(** [body] is [None] when it exceeds the limit. *)
Definition beat_body (dev : CRow) (body : option string) : CM response :=
  match body with
  | None => mret (R_Error CodeInvalidRequest)
  | Some body =>
      match cl_unmarshalHeartbeat lib body with
      | None => mret (R_Error CodeInvalidRequest)
      | Some req =>
          if negb (bool_decide (hq_Type req = "heartbeat")) then mret (R_Error CodeInvalidRequest)
          else
            nebula ← gen_of (co_NebulaReleases cfg) (hq_NebulaSHA256 req);
            pilot ← gen_of (co_PilotReleases cfg) (hq_PilotSHA256 req);
            t ← now;
            let hb := beat_of dev req nebula pilot t in
            r ← attempt (exec (fun s => ((), set_cbeats (upsert_beat hb (cbeats s)) s)));
            match r with
            | Err _ => mret (R_Error CodeInternal)
            | Ok _ =>
                _ ← recordArch dev req;
                _ ← driveRollout (cr_OverlayIP dev);
                cmds ← commandsFor dev (hq_AppliedBundleVersion req) (hq_AppliedBlocklistVersion req) nebula pilot (bt_CertNotAfter hb);
                mret (R_Commands cmds)
            end
      end
  end.

Definition handleHeartbeat (remoteAddr : string) (body : option string) : CM response :=
  d ← device remoteAddr;
  d ← match d with Some d => mret (Some d) | None => trySelfHeal remoteAddr end;
  match d with
  | None => mret (R_Error CodeAccountNotAllowed)
  | Some dev =>
      _ ← reconcileAllocation dev;
      beat_body dev body
  end.

(** ** POST /v1/certs/renew *)

Definition PubkeyHash (pub : string) : string := EncodeToString (cl_sha256 lib pub).

(** The checks on the request: the proven public key, or the error code. *)
Definition renewKey (body : option string) : result string string :=
  match body with
  | None => Err CodeInvalidRequest
  | Some body =>
      match cl_unmarshalEnv lib body with
      | None => Err CodeInvalidRequest
      | Some env =>
          match DecodeString (f_Payload env) ≫= cl_unmarshalRenew lib with
          | None => Err CodeInvalidRequest
          | Some req =>
              if negb (bool_decide (rq_Type req = "renew")) || negb (bool_decide (rq_Curve req = "P256")) then Err CodeInvalidRequest
              else match DecodeString (rq_PublicKey req) with
              | None => Err CodeInvalidRequest
              | Some pubBytes =>
                  if negb (len pubBytes =? 65) then Err CodeInvalidRequest
                  else match cl_parsePoint lib pubBytes with
                  | None => Err CodeInvalidRequest
                  | Some pub =>
                      match VerifyOne (cl_sha256 lib) (cl_ecdsaVerify lib) (cl_unmarshalHeader lib) env pub with
                      | Ok (hdr, _) =>
                          if negb (bool_decide (h_Typ hdr = TypRenewRequest)) || negb (bool_decide (h_Kid hdr = PubkeyHash pubBytes))
                          then Err CodeInvalidSignature else Ok pubBytes
                      | Err _ => Err CodeInvalidSignature
                      end
                  end
              end
          end
      end
  end.

Definition five_minutes : Z := 5 * 60 * 1000000000.

Definition renew_template (dev : CRow) (overlay : Addr) (groups : list string) (t : Z) (pub : string) : Template :=
  mkTemplate (cr_DeviceName dev) [mkPrefix overlay (p_bits (co_Pool cfg))] groups (t - five_minutes) (t - five_minutes + co_CertLifetime cfg) pub.

(** The old certificate's expiry, as the heartbeat row still has it. *)
Definition old_expiry (ip : string) : CM Z :=
  or_default 0 (query (fun s => match find_first (fun b => bool_decide (bt_OverlayIP b = ip)) (cbeats s) with Some b => bt_CertNotAfter b | None => 0 end)).

Definition write_back (dev : CRow) (groups : list string) (reduced : bool) : CM unit :=
  red ← (if reduced then na ← old_expiry (cr_OverlayIP dev); mret (Some na) else mret None);
  r ← attempt (exec (fun s => ((), update_rows (fun x => has_id (cr_ID dev) x && (cr_IssuedGeneration x <? cr_GroupsGeneration dev))
                 (with_groups groups (cr_GroupsGeneration dev) red) s)));
  match r with Ok _ => mret () | Err _ => caudit "system" "renew-groups-writeback-error" (cr_OverlayIP dev) end.

Definition with_expiry (na : Z) (b : Beat) : Beat :=
  mkBeat (bt_OverlayIP b) (bt_DeviceName b) (bt_PilotVersion b) (bt_NebulaVersion b) na (bt_AppliedBundle b) (bt_AppliedBlocklist b)
    (bt_AppliedNebula b) (bt_AppliedPilot b) (bt_ClockOffsetMs b) (bt_Health b) (bt_LastSeen b) (bt_TrustedCAs b) (bt_TrustedConfigKeys b).

Definition advance_beat (ip : string) (na : Z) : CM unit :=
  r ← attempt (exec (fun s => ((), set_cbeats (map (fun b => if bool_decide (bt_OverlayIP b = ip) then with_expiry na b else b) (cbeats s)) s)));
  match r with Ok _ => mret () | Err _ => caudit "system" "renew-heartbeat-cert-update-error" ip end.

(** Everything after the signature. *)
Definition renew_record (dev : CRow) (groups : list string) (reduced : bool) (notAfter : Z) (leaf : Issued) : CM response :=
  b ← assembleBundle dev groups (is_PEM leaf) notAfter;
  j ← attempt (co_signBundle cfg b);
  match j with
  | Err _ => mret (R_Error CodeInternal)
  | Ok jws =>
      r ← attempt (exec (fun s => ((), update_rows (has_id (cr_ID dev))
             (with_prints (is_Fingerprint leaf) (ToLower (TrimSpace (is_Issuer leaf)))) s)));
      match r with
      | Err _ => mret (R_Error CodeInternal)
      | Ok _ =>
          _ ← write_back dev groups reduced;
          _ ← advance_beat (cr_OverlayIP dev) notAfter;
          _ ← caudit ("renew:" +:+ cr_DeviceName dev) "cert-renewed" (cr_DeviceName dev);
          mret (R_Bundle jws)
      end
  end.

Definition renew_sign (dev : CRow) (pub : string) : CM response :=
  let '(groups, kept) := keepReservedGroups (cr_Groups dev) (cr_DesiredGroups dev) in
  _ ← for_each kept (fun _ => caudit "system" "renew-reserved-strip-refused" (cr_DeviceName dev));
  match ParseAddr (cr_OverlayIP dev) with
  | None => mret (R_Error CodeInternal)
  | Some overlay =>
      t ← now;
      match co_Signer cfg with
      | None => mret R_Panic
      | Some sg =>
          let tpl := renew_template dev overlay groups t pub in
          _ ← mem (fun s => ((), log_signed tpl s));
          i ← attempt (sg_Issue sg ("renew:" +:+ cr_DeviceName dev) tpl);
          match i with
          | Err _ => mret (R_Error CodeInternal)
          | Ok leaf => renew_record dev groups (groupsReduced (cr_Groups dev) groups) (tp_NotAfter tpl) leaf
          end
      end
  end.

Definition handleRenew (remoteAddr : string) (body : option string) : CM response :=
  d ← device remoteAddr;
  match d with
  | None => mret (R_Error CodeAccountNotAllowed)
  | Some dev =>
      rv ← attempt (revoked (cr_Fingerprint dev));
      match rv with
      | Err _ => _ ← caudit "system" "renew-revocation-check-error" (cr_OverlayIP dev); mret (R_Error CodeSigningUnavailable)
      | Ok true => _ ← caudit ("renew:" +:+ cr_DeviceName dev) "renew-refused-revoked" (cr_DeviceName dev); mret (R_Error CodeAccountNotAllowed)
      | Ok false =>
          match renewKey body with
          | Err code => mret (R_Error code)
          | Ok pub => renew_sign dev pub
          end
      end
  end.

(** ** GET /v1/config *)

Definition handleConfig (remoteAddr : string) : CM response :=
  d ← device remoteAddr;
  match d with
  | None => mret (R_Error CodeAccountNotAllowed)
  | Some dev =>
      if decide (cr_CertPEM dev = "") then mret (R_Error CodeInternal)
      else
        t ← now;
        let notAfter := default (t + co_CertLifetime cfg) (cl_certNotAfter lib (cr_CertPEM dev)) in
        b ← assembleBundle dev (cr_Groups dev) (cr_CertPEM dev) notAfter;
        j ← attempt (co_signBundle cfg b);
        mret (match j with Ok jws => R_Bundle jws | Err _ => R_Error CodeInternal end)
  end.
End server.

(** ** internal/heartbeat: the command processor of the host *)

(** The first failing handler ends the run; a missing one is skipped; an unknown type is
    refused. *)
Inductive herr : Type := H_Handler | H_Unknown (type : string).
Record Handlers (S : Type) : Type := mkHandlers {
  hd_Renew : option (S -> bool * S);
  hd_Restart : option (S -> bool * S);
  hd_ApplyBundle : option (Z -> S -> bool * S);
}.
Arguments mkHandlers {S}. Arguments hd_Renew {S}. Arguments hd_Restart {S}. Arguments hd_ApplyBundle {S}.

Definition handler_of {S} (h : Handlers S) (c : Command) : result herr (option (S -> bool * S)) :=
  if decide (cmd_Type c = CmdRenew) then Ok (hd_Renew h)
  else if decide (cmd_Type c = CmdRestart) then Ok (hd_Restart h)
  else if decide (cmd_Type c = CmdApplyBundle) then Ok ((fun f => f (cmd_BundleVersion c)) <$> hd_ApplyBundle h)
  else Err (H_Unknown (cmd_Type c)).

Fixpoint Process {S} (h : Handlers S) (cmds : list Command) (s : S) : result herr unit * S :=
  match cmds with
  | [] => (Ok (), s)
  | c :: cmds =>
      match handler_of h c with
      | Err e => (Err e, s)
      | Ok None => Process h cmds s
      | Ok (Some f) => let (ok, s') := f s in if ok then Process h cmds s' else (Err H_Handler, s')
      end
  end.

(** ** What the pure parts compute *)

Lemma newest_go f l : forall acc e, fold_left (newer f) l acc = Some e ->
  (acc = Some e \/ e ∈ l /\ f e = true) /\ (forall a, acc = Some a -> cr_ID a <= cr_ID e) /\ (forall x, x ∈ l -> f x = true -> cr_ID x <= cr_ID e).
Proof.
  induction l as [|y l IH]; intros acc e; cbn; [intros ->; split_and!; [by left|by intros a [= ->]|by intros x Hx%elem_of_nil]|].
  intros (Hin & Hacc & Hall)%IH. unfold newer in *. destruct (f y) eqn:Ey.
  - destruct acc as [a|]; [destruct (Z.ltb_spec (cr_ID a) (cr_ID y))|].
    + split_and!; [destruct Hin as [[= ->]|[? ?]]; right; split; [by left|done|by right|done]| |].
      * intros a' [= <-]. specialize (Hacc _ eq_refl). lia.
      * intros x [->|Hx]%elem_of_cons Hf; [by apply Hacc|by apply Hall].
    + split_and!; [destruct Hin as [?|[? ?]]; [by left|right; split; [by right|done]]|done|].
      intros x [->|Hx]%elem_of_cons Hf; [specialize (Hacc _ eq_refl); lia|by apply Hall].
    + split_and!; [destruct Hin as [[= ->]|[? ?]]; right; split; [by left|done|by right|done]|done|].
      intros x [->|Hx]%elem_of_cons Hf; [by apply Hacc|by apply Hall].
  - split_and!; [destruct Hin as [?|[? ?]]; [by left|right; split; [by right|done]]|done|].
    intros x [->|Hx]%elem_of_cons Hf; [congruence|by apply Hall].
Qed.

Lemma newest_spec f l e : newest f l = Some e -> e ∈ l /\ f e = true /\ forall x, x ∈ l -> f x = true -> cr_ID x <= cr_ID e.
Proof. intros ([?|[? ?]] & _ & ?)%newest_go; [done|by split_and!]. Qed.

Lemma keep_go_spec issued : forall result kept g,
  g ∈ (keep_go result kept issued).1 <-> g ∈ result \/ g ∈ issued /\ IsReservedGroup g = true.
Proof.
  induction issued as [|x issued IH]; intros result kept g; cbn [keep_go fst]; [set_solver|].
  unfold containsGroup. destruct (IsReservedGroup x) eqn:Ex; cbn; [|rewrite IH, elem_of_cons; naive_solver congruence].
  destruct (bool_decide _) eqn:Ec; cbn; rewrite IH, ?elem_of_app, ?list_elem_of_singleton, elem_of_cons; bool_split; naive_solver.
Qed.

Lemma reserved_mem l : GrantsReservedGroup l = true <-> exists g, g ∈ l /\ IsReservedGroup g = true.
Proof. apply existsb_elem. Qed.

(** A renewal signs exactly the desired groups and the reserved groups the live
    certificate holds: no reserved group is stripped, none is added that was neither desired
    nor held, and the change counts as a reduction exactly when an unreserved group that is
    held is not desired. *)
Theorem renewed_groups_exact issued desired :
  let groups := (keepReservedGroups issued desired).1 in
  (forall g, g ∈ groups <-> g ∈ desired \/ g ∈ issued /\ IsReservedGroup g = true) /\
  (groupsReduced issued groups = true <-> exists g, g ∈ issued /\ IsReservedGroup g = false /\ g ∉ desired).
Proof.
  cbn zeta. assert (Hk : forall g, g ∈ (keepReservedGroups issued desired).1 <-> g ∈ desired \/ g ∈ issued /\ IsReservedGroup g = true).
  { intros g. unfold keepReservedGroups. destruct (GrantsReservedGroup issued) eqn:Eg; cbn [negb fst]; [apply keep_go_spec|].
    split; [by left|]. intros [Hd|[Hi Hr]]; [done|]. exfalso. assert (GrantsReservedGroup issued = true) by (apply reserved_mem; by exists g). congruence. }
  split; [exact Hk|]. unfold groupsReduced. rewrite existsb_elem. unfold containsGroup. split.
  - intros (g & Hg & Hn%negb_true_iff%bool_decide_eq_false). rewrite Hk in Hn. exists g. split_and!; [done| |naive_solver].
    destruct (IsReservedGroup g) eqn:Er; [|done]. destruct Hn. by right.
  - intros (g & Hg & Hr & Hd). exists g. split; [done|]. apply negb_true_iff, bool_decide_eq_false. rewrite Hk. intros [?|[_ ?]]; [done|congruence].
Qed.


(** The waves of an accelerated drain widen. Within the range where the arithmetic does
    not wrap (a window below 2^63 / 100 nanoseconds, almost three years, and clocks within
    the range of the type), a host not yet admitted stays out before the start, an admitted
    host stays admitted at every later time, and after the window every host is admitted. *)
Theorem drain_wave_widens ip started window t t' :
  0 < started -> 0 < window -> window * 100 < 2 ^ 63 -> t <= t' -> - 2 ^ 63 <= t - started -> t' - started < 2 ^ 63 ->
  (t < started -> inDrainWave ip started window t = false) /\
  (inDrainWave ip started window t = true -> inDrainWave ip started window t' = true) /\
  (started + window <= t -> inDrainWave ip started window t = true).
Proof.
  intros Hs Hw Hm Ht Hlo Hhi. unfold inDrainWave. rewrite (i64_id (t - started)), (i64_id (t' - started)) by lia.
  rewrite (proj2 (Z.leb_gt started 0)), (proj2 (Z.leb_gt window 0)) by lia. cbn [orb].
  destruct (Z.ltb_spec (t - started) 0), (Z.ltb_spec (t' - started) 0), (Z.leb_spec window (t - started)), (Z.leb_spec window (t' - started));
    split_and!; intros; try done; try lia.
  rewrite i64_id in * by lia. match goal with H : (_ <=? _) = true |- _ => apply Z.leb_le in H end. apply Z.leb_le.
  etrans; [eassumption|]. apply Z.quot_le_mono; lia.
Qed.

Lemma drain_wave_widens_witness :
  (5 < 10 -> inDrainWave "10.0.0.7" 10 1000 5 = false) /\
  (inDrainWave "10.0.0.7" 10 1000 5 = true -> inDrainWave "10.0.0.7" 10 1000 2000 = true) /\
  inDrainWave "10.0.0.7" 10 1000 2000 = true.
Proof.
  destruct (drain_wave_widens "10.0.0.7" 10 1000 5 2000 ltac:(lia) ltac:(lia) ltac:(lia) ltac:(lia) ltac:(lia) ltac:(lia)) as (H1 & H2 & _).
  split; [exact H1|]. split; [exact H2|]. vm_compute. reflexivity.
Defined.

(** Beyond the range the product wraps: with a window of ten years a host admitted after a
    year is dropped again at the end of the third. *)
Lemma long_drain_window_wraps :
  let day := 24 * 3600 * 1000000000 in
  exists ip, inDrainWave ip 1 (3650 * day) (1 + 365 * day) = true /\ inDrainWave ip 1 (3650 * day) (1 + 1090 * day) = false.
Proof. exists "10.0.0.8". vm_compute. split; reflexivity. Qed.
