(* ===== verification/CoreSafety.v ===== *)
(** * Core's mesh API under concurrency

    The steps the handlers take on the shared tables, and what holds of every answer under
    faults and arbitrary interference: which template a renewal hands to the signer, when a
    host heals itself, what a heartbeat records and which commands it returns. The services
    enter through the class [CoreServices]: they keep to their own tables. *)

From S2P Require Import Prelude Db Bytes GoStrings Netip Policy AddrStore Ipam Nonce Jws Bundle DualControl Revocation Rollout Signer CoreApi.
From stdpp Require Import prelude strings list relations gmap.
From Stdlib Require Import ZArith Lia.
Open Scope Z_scope.

(** What Core may do to an enrollment row: its identity, certificate and desired groups
    stay, the issued generation never goes back, the signed groups only change with a
    larger one, and the status only changes to issued. *)
Record row_ok (a b : CRow) : Prop := mkRowOk {
  ro_id : cr_ID b = cr_ID a;
  ro_name : cr_DeviceName b = cr_DeviceName a;
  ro_ip : cr_OverlayIP b = cr_OverlayIP a;
  ro_cert : cr_CertPEM b = cr_CertPEM a;
  ro_desired : cr_DesiredGroups b = cr_DesiredGroups a;
  ro_gen : cr_GroupsGeneration b = cr_GroupsGeneration a;
  ro_issued : cr_IssuedGeneration a <= cr_IssuedGeneration b;
  ro_groups : cr_Groups b <> cr_Groups a -> cr_IssuedGeneration a < cr_IssuedGeneration b;
  ro_status : cr_Status b = cr_Status a \/ cr_Status b = StatusIssued;
}.

Definition beat_ips {X} (s : CStore X) : list string := map bt_OverlayIP (cbeats s).

Record core_step {X} (s s' : CStore X) : Prop := mkCoreStep {
  co_rows : Forall2 row_ok (crows s) (crows s');
  co_revs : c_rev s' = c_rev s;
  co_beats : NoDup (beat_ips s) -> NoDup (beat_ips s');
}.

(** A service touches its own tables and the audit log only. *)
Record quiet_step {X} (s s' : CStore X) : Prop := mkQuiet {
  qs_rows : crows s' = crows s;
  qs_beats : cbeats s' = cbeats s;
  qs_revs : c_rev s' = c_rev s;
  qs_signed : c_signed s' = c_signed s;
}.

Lemma row_ok_refl e : row_ok e e.
Proof. split; try done. by left. Qed.

Lemma rows_refl l : Forall2 row_ok l l.
Proof. induction l; constructor; [apply row_ok_refl|done]. Qed.

Lemma rows_update f g l : (forall e, f e = true -> row_ok e (g e)) -> Forall2 row_ok l (map (fun e => if f e then g e else e) l).
Proof. intros H. induction l as [|e l IH]; cbn; constructor; [|done]. destruct (f e) eqn:E; [by apply H|apply row_ok_refl]. Qed.

Lemma update_step {X} f g (s : CStore X) : (forall e, f e = true -> row_ok e (g e)) -> core_step s (update_rows f g s).
Proof. intros H. split; [by apply rows_update|done|done]. Qed.

Lemma quiet_core {X} (s s' : CStore X) : quiet_step s s' -> core_step s s'.
Proof. intros []. unfold beat_ips. split; [rewrite qs_rows0; apply rows_refl|done|]. unfold beat_ips. by rewrite qs_beats0. Qed.

Lemma status_ok e : row_ok e (with_status StatusIssued e).
Proof. split; try done. by right. Qed.
Lemma arch_ok os arch e : row_ok e (with_arch os arch e).
Proof. split; try done. by left. Qed.
Lemma prints_ok fp ca e : row_ok e (with_prints fp ca e).
Proof. split; try done. by left. Qed.
Lemma groups_ok groups gen red e : cr_IssuedGeneration e < gen -> row_ok e (with_groups groups gen red e).
Proof. intros H. split; cbn; try done; [lia|by left]. Qed.
#[export] Hint Resolve row_ok_refl status_ok arch_ok prints_ok groups_ok : ncp.

Lemma upsert_ips b l : NoDup (map bt_OverlayIP l) -> NoDup (map bt_OverlayIP (upsert_beat b l)).
Proof.
  intros Hnd. unfold upsert_beat. destruct (existsb _ _) eqn:E.
  - assert (map bt_OverlayIP (map (fun x => if bool_decide (bt_OverlayIP x = bt_OverlayIP b) then b else x) l) = map bt_OverlayIP l) as ->; [|done].
    rewrite map_map. apply map_ext. intros x. destruct (bool_decide _) eqn:Eb; [|done]. by bool_split.
  - rewrite map_app. cbn. apply NoDup_app. split_and!; [done| |apply NoDup_singleton]. intros ip Hip ->%list_elem_of_singleton.
    apply list_elem_of_fmap in Hip as (x & Hx & Hin). eapply existsb_elem_false in E; [|exact Hin]. by bool_split.
Qed.

Lemma upsert_unique b l : b ∈ upsert_beat b l /\ forall x, x ∈ upsert_beat b l -> bt_OverlayIP x = bt_OverlayIP b -> x = b.
Proof.
  unfold upsert_beat. destruct (existsb _ _) eqn:E.
  - apply existsb_elem in E as (y & Hy & Ey). split.
    + apply list_elem_of_fmap. exists y. by rewrite Ey.
    + intros x (z & -> & Hz)%list_elem_of_fmap. destruct (bool_decide (bt_OverlayIP z = bt_OverlayIP b)) eqn:Ez; [done|]. bool_split. by intros.
  - split; [apply elem_of_app; right; by left|]. intros x [Hx| ->%list_elem_of_singleton]%elem_of_app Hip; [|done].
    eapply existsb_elem_false in E; [|exact Hx]. by bool_split.
Qed.

(** ** Confined services *)

Definition confined {X A} (m : M (CStore X) coerr A) : Prop := forall T R s, wpt T R quiet_step m (fun _ _ => True) s.

(** What Core relies on of its services. *)
Class CoreServices {X} (cfg : CoreConfig X) : Prop := {
  sv_alloc f name ip method : co_AllocateSpecific cfg = Some f -> confined (f name ip method);
  sv_issue sg actor tpl : co_Signer cfg = Some sg -> confined (sg_Issue sg actor tpl);
  sv_current sg : co_Signer cfg = Some sg -> confined (sg_CurrentFingerprint sg);
  sv_breaker sg : co_Signer cfg = Some sg -> confined (sg_BreakerOpen sg);
  sv_sign b : confined (co_signBundle cfg b);
  sv_version ro ip : co_Rollout cfg = Some ro -> confined (ro_VersionFor ro ip);
  sv_blversion ro : co_Rollout cfg = Some ro -> confined (ro_BlocklistVersion ro);
  sv_command ro lane ip v : co_Rollout cfg = Some ro -> forall T R s,
    wpt T R quiet_step (ro_CommandFor ro lane ip v) (fun r _ => forall c, r = Ok (Some c) -> cmd_Type c = CmdApplyBundle) s;
  sv_gen ro lane ip : co_Rollout cfg = Some ro -> confined (ro_GenFor ro lane ip);
  sv_floor ro lane v : co_Rollout cfg = Some ro -> confined (ro_FloorCatchupGen ro lane v);
  sv_evaluate ro : co_Rollout cfg = Some ro -> confined (ro_Evaluate ro);
  sv_neb_lookup rs g os arch : co_NebulaReleases cfg = Some rs -> confined (rs_Lookup rs g os arch);
  sv_neb_gen rs sha : co_NebulaReleases cfg = Some rs -> confined (rs_GenForSHA rs sha);
  sv_pil_lookup rs g os arch : co_PilotReleases cfg = Some rs -> confined (rs_Lookup rs g os arch);
  sv_pil_gen rs sha : co_PilotReleases cfg = Some rs -> confined (rs_GenForSHA rs sha);
  sv_active d : co_CADrain cfg = Some d -> confined (cd_ActiveFingerprint d);
  sv_wave d fp : co_CADrain cfg = Some d -> confined (cd_DrainWave d fp);
  sv_cas m : co_CABundleSource cfg = Some m -> confined m;
  sv_keys m : co_ConfigKeySource cfg = Some m -> confined m;
  sv_keyver m : co_ConfigKeyVersionSource cfg = Some m -> confined m;
  sv_lhs m : co_LighthouseSource cfg = Some m -> confined m;
  sv_blocklist m : co_BlocklistSource cfg = Some m -> confined m;
}.

(** Core's own calls also always return. *)
Definition sure {X A} (m : M (CStore X) coerr A) : Prop := forall T R s, wpt T R quiet_step m (fun r _ => exists a, r = Ok a) s.

(** The same, with what the result is like. *)
Definition sure_as {X A} (P : A -> Prop) (m : M (CStore X) coerr A) : Prop := forall T R s, wpt T R quiet_step m (fun r _ => exists a, r = Ok a /\ P a) s.

Section confined_rules.
Context {X : Type}.
Abbreviation CM := (M (CStore X) coerr).

Lemma sure_ret {A} (a : A) : sure (mret a : CM A).
Proof. intros T R s. apply wp_ret. eauto. Qed.
Lemma sure_now : sure (now : CM Z).
Proof. intros T R s. apply wp_now. eauto. Qed.
Lemma sure_bind {A B} (m : CM A) (k : A -> CM B) : sure m -> (forall a, sure (k a)) -> sure (m ≫= k).
Proof. intros Hm Hk T R s. apply wp_bind. eapply wp_mono; [apply Hm|]. intros r s' _ [a ->]. apply Hk. Qed.
Lemma sure_as_bind {A B} (P : B -> Prop) (m : CM A) (k : A -> CM B) : sure m -> (forall a, sure_as P (k a)) -> sure_as P (m ≫= k).
Proof. intros Hm Hk T R s. apply wp_bind. eapply wp_mono; [apply Hm|]. intros r s' _ [a ->]. apply Hk. Qed.
Lemma sure_as_ret {A} (P : A -> Prop) (a : A) : P a -> sure_as P (mret a : CM A).
Proof. intros Ha T R s. apply wp_ret. eauto. Qed.
Lemma sure_attempt {A} (m : CM A) : confined m -> sure (attempt m).
Proof. intros Hm T R s. apply wp_attempt. eapply wp_mono; [apply Hm|]. eauto. Qed.
Lemma confined_query {A} (f : CStore X -> A) : confined (query f).
Proof. intros T R s. by apply wp_query. Qed.
Lemma sure_default {A} (d : A) (m : CM A) : confined m -> sure (or_default d m).
Proof. intros Hm. apply sure_bind; [by apply sure_attempt|]. intros; apply sure_ret. Qed.
Lemma sure_live {A} src keep (d : A) : (forall m, src = Some m -> confined m) -> sure (live_or (X := X) src keep d).
Proof. intros H. destruct src as [m|]; [|apply sure_ret]. apply sure_bind; [apply sure_attempt; by apply H|]. intros; apply sure_ret. Qed.
Lemma sure_caudit a b c : sure (caudit a b c : CM unit).
Proof. intros T R s. apply wp_ignore, wp_exec. intros s1 _. split; [eauto|]. split; [by split|eauto]. Qed.
Lemma sure_ignore (m : CM unit) : confined m -> sure (ignore m).
Proof. intros Hm T R s. apply wp_ignore. eapply wp_mono; [apply Hm|]. eauto. Qed.
End confined_rules.
#[export] Hint Resolve sure_ret sure_now sure_attempt confined_query sure_default sure_live sure_caudit sure_ignore : ncp.
#[export] Hint Resolve sv_alloc sv_issue sv_current sv_breaker sv_sign sv_version sv_blversion sv_gen sv_floor sv_evaluate sv_neb_lookup sv_neb_gen
  sv_pil_lookup sv_pil_gen sv_active sv_wave sv_cas sv_keys sv_keyver sv_lhs sv_blocklist : ncp.

(** ** The handlers *)

Section theorems.
Context {X Pub : Type} (lib : CoreLib Pub) (cfg : CoreConfig X) `{Hsv : !CoreServices cfg}.
Abbreviation CM := (M (CStore X) coerr).
Implicit Types s : CStore X.

Lemma releaseFor_sure lane src static ip os arch : (forall rs g os arch, src = Some rs -> confined (rs_Lookup rs g os arch)) ->
  sure (releaseFor cfg lane src static ip os arch).
Proof.
  intros H. unfold releaseFor. destruct (co_Rollout cfg) as [ro|] eqn:Ero; [|auto with ncp]. destruct src as [rs|]; [|auto with ncp].
  apply sure_bind; [eauto with ncp|]. intros [gen governed]. destruct governed; [|auto with ncp]. destruct (gen =? 0); [auto with ncp|].
  apply sure_bind; [eauto with ncp|auto with ncp].
Qed.

(** A bundle for the device: its identity, the certificate and its expiry, and the firewall
    of its groups. *)
Definition bundle_for (dev : CRow) (groups : list string) (pem : string) (na : Z) (b : Bundle) : Prop :=
  b_Device b = mkBDevice (cr_DeviceName dev) (cr_OverlayIP dev) groups /\ b_Certificate b = pem /\
  b_Firewall b = CompileFirewall (co_Policy cfg) groups /\ b_NotAfter b = cl_rfc3339 lib na.

Lemma assemble_sure dev groups pem na : sure_as (bundle_for dev groups pem na) (assembleBundle lib cfg dev groups pem na).
Proof.
  unfold assembleBundle. apply sure_as_bind; [apply releaseFor_sure; eauto with ncp|]. intros neb.
  apply sure_as_bind; [apply releaseFor_sure; eauto with ncp|]. intros pil.
  apply sure_as_bind. { unfold bundleVersion. destruct (co_Rollout cfg) eqn:E; [|auto with ncp]. apply sure_bind; eauto with ncp. }
  intros bv. apply sure_as_bind. { unfold blocklistVersion. destruct (co_Rollout cfg) eqn:E; eauto with ncp. }
  intros blv. apply sure_as_bind; [auto with ncp|]. intros t.
  repeat (apply sure_as_bind; [apply sure_live; eauto with ncp|intros ?]). by apply sure_as_ret.
Qed.

Context (T : Z -> Prop) (R : relation (CStore X)) (HR : forall s s', R s s' -> c_signed s' = c_signed s).

(** A later state of the run. *)
Definition past s s' : Prop := rtc (either R core_step) s s'.

#[local] Instance past_preorder : PreOrder past.
Proof. exact rtc_po. Qed.

Lemma past_R s s' : R s s' -> past s s'.
Proof. intros H. apply rtc_once. by left. Qed.
Lemma past_step s s' : core_step s s' -> past s s'.
Proof. intros H. apply rtc_once. by right. Qed.

(** A confined call: what is known after it. *)
Lemma confined_wp {A} (m : CM A) (Q : result coerr A -> CStore X -> Prop) s : confined m ->
  (forall r s', past s s' -> c_signed s' = c_signed s -> Q r s') -> wpt T R core_step m Q s.
Proof.
  intros Hm HQ. eapply wp_frame; [apply Hm|apply quiet_core|]. intros r s' Hs. apply HQ.
  - eapply rtc_mono; [|exact Hs]. intros a b [?|?]; [by left|right; by apply quiet_core].
  - clear -Hs HR. induction Hs as [|x y z [Hxy|[]] _ IH]; [done| |]; rewrite IH; [by apply HR|done].
Qed.

(** A confined call that promises something of its result. *)
Lemma promise_wp {A} (m : CM A) (P : result coerr A -> Prop) (Q : result coerr A -> CStore X -> Prop) s : confined m ->
  wpt T R quiet_step m (fun r _ => P r) s -> (forall r s', past s s' -> c_signed s' = c_signed s -> P r -> Q r s') -> wpt T R core_step m Q s.
Proof.
  intros Hm HP HQ. eapply wp_mono.
  - apply wp_conj; [|apply (confined_wp m (fun _ s' => past s s' /\ c_signed s' = c_signed s)); [exact Hm|done]].
    apply (wp_weaken T T R R quiet_step core_step m (fun r _ => P r)); [exact HP|done|done|]. intros a b [?|?]; [by left|right; by apply quiet_core].
  - intros r s' _ [Hr [Hp Hl]]. by apply HQ.
Qed.

Lemma sure_wp {A} (m : CM A) (Q : result coerr A -> CStore X -> Prop) s : sure m ->
  (forall a s', past s s' -> c_signed s' = c_signed s -> Q (Ok a) s') -> wpt T R core_step m Q s.
Proof.
  intros Hm HQ. eapply wp_mono.
  - apply wp_conj; [|apply (confined_wp m (fun _ s' => past s s' /\ c_signed s' = c_signed s)); [|done]].
    + apply (wp_weaken T T R R quiet_step core_step m (fun r _ => exists a, r = Ok a)); [apply Hm|done|done|]. intros a b [?|?]; [by left|right; by apply quiet_core].
    + intros T' R' s'. eapply wp_mono; [apply Hm|done].
  - intros r s' _ [[a ->] [Hp Hl]]. by apply HQ.
Qed.

(** One statement on the tables that leaves the ghost log alone. *)
Lemma statement_wp (f : CStore X -> CStore X) (Q : result coerr unit -> CStore X -> Prop) s :
  (forall s, core_step s (f s)) -> (forall s, c_signed (f s) = c_signed s) ->
  (forall e s', past s s' -> c_signed s' = c_signed s -> Q (Err e) s') ->
  (forall s1, past s s1 -> past s (f s1) -> c_signed (f s1) = c_signed s -> Q (Ok ()) (f s1)) ->
  wpt T R core_step (exec (fun s => ((), f s))) Q s.
Proof.
  intros Hf Hl He Ho. apply wp_exec. intros s1 Hs1. pose proof (HR _ _ Hs1) as Hlog. apply past_R in Hs1. split; [by apply He|]. split; [apply Hf|].
  apply Ho; [done|etrans; [exact Hs1|by apply past_step]|by rewrite Hl].
Qed.

Lemma caudit_wp a b c (Q : result coerr unit -> CStore X -> Prop) s : (forall s', past s s' -> c_signed s' = c_signed s -> Q (Ok ()) s') ->
  wpt T R core_step (caudit a b c) Q s.
Proof.
  intros HQ. apply wp_ignore, statement_wp; [|done|by auto|by auto]. intros s1. by apply quiet_core.
Qed.

Lemma device_wp remote (Q : result coerr (option CRow) -> CStore X -> Prop) s :
  (forall d s1, past s s1 -> c_signed s1 = c_signed s -> (forall e, d = Some e -> newest (issued_at (remote_ip remote)) (crows s1) = Some e) -> Q (Ok d) s1) ->
  wpt T R core_step (device remote) Q s.
Proof.
  intros HQ. unfold device, or_default. wp_step. wp_step. apply wp_query. intros s1 Hs1. pose proof (HR _ _ Hs1). apply past_R in Hs1. split; wp_step; by apply HQ.
Qed.

(** The blocklist read of a fingerprint. *)
Definition unrevoked (fp : string) s : Prop := co_Revocation cfg = true -> fp <> "" -> ~ blocked fp (c_rev s).

Lemma revoked_wp fp (Q : result coerr (result coerr bool) -> CStore X -> Prop) s :
  (forall b s1, past s s1 -> c_signed s1 = c_signed s -> (b = Ok false -> unrevoked fp s1) -> Q (Ok b) s1) ->
  wpt T R core_step (attempt (revoked cfg fp)) Q s.
Proof.
  intros HQ. unfold revoked. wp_step. destruct (negb (co_Revocation cfg) || _) eqn:E.
  - wp_step. apply HQ; [constructor|done|]. intros _ Hr Hfp. rewrite Hr in E. cbn in E. by bool_split.
  - wp_step. apply wp_query. intros s1 Hs1. pose proof (HR _ _ Hs1). apply past_R in Hs1. split; [by apply HQ|]. wp_step. apply HQ; [done|done|].
    intros [= Hf] _ _ Hb. apply bool_decide_eq_false in Hf. apply Hf. unfold blocked in Hb. by rewrite sort_strings_perm.
Qed.

(** *** Renewal *)

Section renewal.
(** What the signer promises of a certificate it issued for a template, and the config
    signer of a signed bundle. *)
Context (issued_by : Template -> Issued -> Prop) (signed_as : Bundle -> string -> Prop).
Context (Hissue : forall sg actor tpl s, co_Signer cfg = Some sg ->
  wpt T R quiet_step (sg_Issue sg actor tpl) (fun r _ => forall leaf, r = Ok leaf -> issued_by tpl leaf) s).
Context (Hsigned : forall b s, wpt T R quiet_step (co_signBundle cfg b) (fun r _ => forall j, r = Ok j -> signed_as b j) s).

(** The request carries a signature by the key it asks a certificate for, over its own two
    texts, of the type and key id of a renewal. *)
Definition proves_possession (body : option string) (pub : string) : Prop := exists text env req key sig h,
  body = Some text /\ cl_unmarshalEnv lib text = Some env /\ DecodeString (f_Payload env) ≫= cl_unmarshalRenew lib = Some req /\ rq_Type req = "renew" /\
  DecodeString (rq_PublicKey req) = Some pub /\ len pub = 65 /\ cl_parsePoint lib pub = Some key /\ DecodeString (f_Signature env) = Some sig /\ len sig = 64 /\
  cl_ecdsaVerify lib key (cl_sha256 lib (f_Protected env +:+ "." +:+ f_Payload env)) (of_be 0 (take_s 32 sig)) (of_be 0 (drop_s 32 sig)) = true /\
  DecodeString (f_Protected env) ≫= cl_unmarshalHeader lib = Some h /\ h_Alg h = Alg /\ h_Typ h = TypRenewRequest /\ h_Kid h = EncodeToString (cl_sha256 lib pub).

Lemma renewKey_proves body pub : renewKey lib body = Ok pub -> proves_possession body pub.
Proof.
  unfold renewKey. destruct body as [text|]; [|done]. destruct (cl_unmarshalEnv lib text) as [env|] eqn:Ee; [|done].
  destruct (DecodeString (f_Payload env) ≫= cl_unmarshalRenew lib) as [req|] eqn:Eq; [|done]. destruct (_ || _) eqn:Et; [done|].
  destruct (DecodeString (rq_PublicKey req)) as [pb|] eqn:Ep; [|done]. destruct (negb (len pb =? 65)) eqn:El; [done|].
  destruct (cl_parsePoint lib pb) as [key|] eqn:Ek; [|done]. destruct (VerifyOne _ _ _ env key) as [[hdr pl]|] eqn:Ev; [|done].
  destruct (negb (bool_decide (h_Typ hdr = _)) || _) eqn:Eh; [done|]. intros Hok. injection Hok as Hok. subst pub. apply orb_false_iff in Et as [Et _], Eh as [Eh1 Eh2]. bool_split.
  apply jws_verify_sound in Ev as (k & sig & Hk & Hsig & Hlen & Hv & Ha & Hh & _). apply list_elem_of_singleton in Hk as [= ->].
  exists text, env, req, key, sig, hdr. by split_and!.
Qed.

(** The row of the device carries the new certificate's fingerprint and issuer. *)
Definition recorded (dev : CRow) (leaf : Issued) s : Prop := forall x, x ∈ crows s -> cr_ID x = cr_ID dev ->
  cr_Fingerprint x = is_Fingerprint leaf /\ cr_CAFingerprint x = ToLower (TrimSpace (is_Issuer leaf)).

Lemma prints_recorded dev leaf s : recorded dev leaf
  (update_rows (has_id (cr_ID dev)) (with_prints (is_Fingerprint leaf) (ToLower (TrimSpace (is_Issuer leaf)))) s).
Proof.
  intros x (e & -> & He)%list_elem_of_fmap. destruct (has_id (cr_ID dev) e) eqn:E; [done|]. intros Hid. unfold has_id in E. bool_split. congruence.
Qed.

Lemma write_back_wp dev groups reduced (Q : result coerr unit -> CStore X -> Prop) s :
  (forall s', past s s' -> c_signed s' = c_signed s -> Q (Ok ()) s') -> wpt T R core_step (write_back dev groups reduced) Q s.
Proof.
  intros HQ. unfold write_back. apply wp_bind, sure_wp.
  { destruct reduced; [|auto with ncp]. apply sure_bind; [|auto with ncp]. apply sure_default, confined_query. }
  intros red s1 H1 L1. wp_step. wp_step. apply statement_wp; [|done| |].
  - intros s2. apply update_step. intros e He. bool_split. by apply groups_ok.
  - intros e s2 H2 L2. apply caudit_wp. intros s3 H3 L3. apply HQ; [etrans; [exact H1|etrans; [exact H2|exact H3]]|congruence].
  - intros s2 _ H2 L2. wp_step. apply HQ; [etrans; [exact H1|exact H2]|congruence].
Qed.

Lemma advance_beat_wp ip na (Q : result coerr unit -> CStore X -> Prop) s :
  (forall s', past s s' -> c_signed s' = c_signed s -> Q (Ok ()) s') -> wpt T R core_step (advance_beat ip na) Q s.
Proof.
  intros HQ. unfold advance_beat. wp_step. wp_step. apply statement_wp; [|done| |].
  - intros s2. split; [apply rows_refl|done|]. unfold beat_ips. cbn. rewrite map_map. erewrite map_ext; [done|]. intros b. cbn. by destruct (bool_decide (bt_OverlayIP b = ip)).
  - intros e s2 H2 L2. apply caudit_wp. intros s3 H3 L3. apply HQ; [etrans; [exact H2|exact H3]|congruence].
  - intros s2 _ H2 L2. wp_step. by apply HQ.
Qed.

(** The bundle returned is the signed one of the certificate issued for the template, and
    the row had by then recorded that certificate. *)
Definition delivers (dev : CRow) (tpl : Template) (leaf : Issued) (j : string) s s' : Prop :=
  (exists b, signed_as b j /\ bundle_for dev (tp_Groups tpl) (is_PEM leaf) (tp_NotAfter tpl) b) /\
  exists s1, past s s1 /\ past s1 s' /\ recorded dev leaf s1.

Lemma renew_record_wp dev tpl reduced leaf s :
  wpt T R core_step (renew_record lib cfg dev (tp_Groups tpl) reduced (tp_NotAfter tpl) leaf) (fun r s' => c_signed s' = c_signed s /\
    exists resp, r = Ok resp /\ forall j, resp = R_Bundle j -> delivers dev tpl leaf j s s') s.
Proof.
  unfold renew_record. apply wp_bind, (promise_wp _ (fun r => exists b, r = Ok b /\ bundle_for dev (tp_Groups tpl) (is_PEM leaf) (tp_NotAfter tpl) b)); [|apply assemble_sure|].
  { intros T' R' s'. eapply wp_mono; [apply assemble_sure|done]. }
  intros ? s1 H1 L1 (b & -> & Hb).
  wp_step. wp_step. eapply promise_wp; [apply sv_sign|apply Hsigned|]. intros [jws|e] s2 H2 L2 Hj; [|wp_step; split; [congruence|by eexists]].
  wp_step. wp_step. apply statement_wp; [intros; apply update_step; auto with ncp|done| |].
  { intros e s3 _ L3. wp_step. split; [congruence|by eexists]. }
  intros s3 _ H3 L3. set (s4 := update_rows _ _ s3) in *. assert (Hrec : recorded dev leaf s4) by apply prints_recorded. clearbody s4.
  wp_step. apply write_back_wp. intros s5 H5 L5. wp_step. apply advance_beat_wp. intros s6 H6 L6. wp_step. apply caudit_wp. intros s7 H7 L7. wp_step.
  split; [congruence|]. eexists. split; [done|]. intros j [= <-]. split; [by eauto|]. exists s4. split_and!; [|etrans; [exact H5|etrans; [exact H6|exact H7]]|done].
  etrans; [exact H1|etrans; [exact H2|exact H3]].
Qed.

Lemma delivers_from dev tpl leaf j s0 s s' : past s0 s -> delivers dev tpl leaf j s s' -> delivers dev tpl leaf j s0 s'.
Proof. intros H0 [Hb (s1 & H1 & H2 & Hr)]. split; [done|]. exists s1. split_and!; [by etrans|done|done]. Qed.

Lemma renew_sign_wp dev pub s :
  wpt T R core_step (renew_sign lib cfg dev pub) (fun r s' => exists resp, r = Ok resp /\
    (c_signed s' = c_signed s /\ (forall j, resp <> R_Bundle j) \/
     exists overlay t, ParseAddr (cr_OverlayIP dev) = Some overlay /\ T t /\
       let tpl := renew_template cfg dev overlay (keepReservedGroups (cr_Groups dev) (cr_DesiredGroups dev)).1 t pub in
       c_signed s' = c_signed s ++ [tpl] /\
       forall j, resp = R_Bundle j -> exists leaf, issued_by tpl leaf /\ delivers dev tpl leaf j s s')) s.
Proof.
  unfold renew_sign. destruct (keepReservedGroups _ _) as [groups kept]. wp_step.
  apply sure_wp. { induction kept as [|g kept IH]; cbn [for_each]; [auto with ncp|]. apply sure_bind; auto with ncp. }
  intros _ s1 H1 L1. destruct (ParseAddr _) as [overlay|]; [|wp_step; eexists; split; [done|left; by split]]. wp_step. wp_step.
  destruct (co_Signer cfg) as [sg|] eqn:Esg; [|wp_step; eexists; split; [done|left; by split]]. wp_step. apply wp_mem. intros s2 Hs2.
  set (tpl := renew_template cfg dev overlay groups t pub). assert (Hlog : c_signed (log_signed tpl s2) = c_signed s ++ [tpl]) by (cbn; by rewrite (HR _ _ Hs2), L1).
  assert (Hst : core_step s2 (log_signed tpl s2)) by (split; [apply rows_refl|done|done]). split; [exact Hst|].
  assert (H3 : past s (log_signed tpl s2)) by (etrans; [exact H1|etrans; [by apply past_R|by apply past_step]]). set (s3 := log_signed tpl s2) in *. clearbody s3.
  wp_step. wp_step. eapply promise_wp; [eauto with ncp|by apply Hissue|]. intros [leaf|e] s4 H4 L4 Hleaf.
  - eapply wp_mono; [apply (renew_record_wp dev tpl)|]. intros r s' _ (L' & resp & -> & Hrec). eexists. split; [done|]. right. exists overlay, t. cbv zeta. fold tpl.
    split_and!; [done|done|by rewrite L', L4|]. intros j Hj. exists leaf. split; [by apply Hleaf|]. eapply delivers_from; [|by apply Hrec]. by etrans.
  - wp_step. eexists. split; [done|]. right. exists overlay, t. cbv zeta. fold tpl. split_and!; [done|done|by rewrite L4|done].
Qed.

(** C17: a renewal signs only the enrolled identity of the calling tunnel. Whatever faults
    happen and whatever other processes do, [handleRenew] answers, and either hands no
    template to the signer and returns no bundle, or hands it exactly one: with the name and
    the address of the newest issued enrollment at the caller's address, read during the
    call; for a key under which the signature of the request verifies, of the type and key
    id of a renewal; with the desired groups and the reserved groups the live certificate
    holds; from five minutes before a reading of the clock, for the configured lifetime;
    after the fingerprint of that row was read as absent from the blocklist. A returned
    bundle is the signed bundle of the certificate the signer issued for that template, for
    this device, its groups and their firewall, and by then every row of the device's id had
    that certificate's fingerprint and issuer. What the signer and the config signer promise
    of their results is a parameter, so the certificate recorded, delivered and issued is
    one and the same. All writes are steps of [core_step]: the issued generation of a row
    never goes back and signed groups change only with a larger one. *)
Theorem renew_signs_the_enrolled_identity remote body s :
  wpt T R core_step (handleRenew lib cfg remote body) (fun r s' => exists resp, r = Ok resp /\
    (c_signed s' = c_signed s /\ (forall j, resp <> R_Bundle j) \/
     exists dev pub overlay t s1 s2, past s s1 /\ past s1 s2 /\ past s2 s' /\
       newest (issued_at (remote_ip remote)) (crows s1) = Some dev /\ unrevoked (cr_Fingerprint dev) s2 /\
       proves_possession body pub /\ ParseAddr (cr_OverlayIP dev) = Some overlay /\ T t /\
       let tpl := renew_template cfg dev overlay (keepReservedGroups (cr_Groups dev) (cr_DesiredGroups dev)).1 t pub in
       c_signed s' = c_signed s ++ [tpl] /\
       forall j, resp = R_Bundle j -> exists leaf, issued_by tpl leaf /\ delivers dev tpl leaf j s2 s')) s.
Proof.
  unfold handleRenew. wp_step. apply device_wp. intros [dev|] s1 H1 L1 Hdev; [|wp_step; eexists; split; [done|left; by split]].
  specialize (Hdev _ eq_refl). wp_step. apply revoked_wp. intros [[]|e] s2 H2 L2 Hrev.
  - wp_step. apply caudit_wp. intros s3 _ L3. wp_step. eexists. split; [done|left; split; [congruence|done]].
  - specialize (Hrev eq_refl). destruct (renewKey lib body) as [pub|code] eqn:Ek; [|wp_step; eexists; split; [done|left; split; [congruence|done]]].
    apply renewKey_proves in Ek.
    eapply wp_mono; [apply renew_sign_wp|]. intros r s' H3 (resp & -> & [[L3 Hn]|(overlay & t & Hp & Ht & L3 & Hrec)]); (eexists; split; [done|]);
      [left; split; [congruence|done]|]. right. exists dev, pub, overlay, t, s1, s2. split_and!; try done. congruence.
  - wp_step. apply caudit_wp. intros s3 _ L3. wp_step. eexists. split; [done|left; split; [congruence|done]].
Qed.
End renewal.

(** *** Self-heal *)

(** What the allocator promises of an address it granted. *)
Context (granted : string -> Addr -> CStore X -> Prop).
Context (Hgrant : forall f name ip method s, co_AllocateSpecific cfg = Some f ->
  wpt T R quiet_step (f name ip method) (fun r s' => r = Ok () -> granted name ip s') s).

(** The address is the device's: just granted, or already in its name. *)
Definition holds_address (name ip : string) (addr : Addr) s : Prop := granted name addr s \/ owner_of ip (c_addr s) = Some name.

Lemma heal_address_wp f e ip addr (Q : result coerr bool -> CStore X -> Prop) s : co_AllocateSpecific cfg = Some f ->
  (forall b s1, past s s1 -> c_signed s1 = c_signed s -> (b = true -> holds_address (cr_DeviceName e) ip addr s1) -> Q (Ok b) s1) ->
  wpt T R core_step (heal_address f e ip addr) Q s.
Proof.
  intros Hf HQ. unfold heal_address. wp_step. wp_step.
  assert (Hm : wpt T R core_step (f (cr_DeviceName e) addr "self-heal") (fun r s' => (past s s' /\ c_signed s' = c_signed s) /\ (r = Ok () -> granted (cr_DeviceName e) addr s')) s).
  { apply wp_conj; [by apply confined_wp; [eauto with ncp|]|]. apply (wp_weaken T T R R quiet_step core_step); [by apply Hgrant|done|done|].
    intros a b [?|?]; [by left|right; by apply quiet_core]. }
  eapply wp_mono; [exact Hm|]. intros [[]|[]] s1 _ [[H1 L1] Hg].
  - wp_step. apply HQ; [done|done|]. intros _. left. by apply Hg.
  - unfold allocationOwner, or_default. wp_step. wp_step. wp_step. apply wp_query. intros s2 Hs2. pose proof (HR _ _ Hs2). apply past_R in Hs2.
    assert (past s s2) by (etrans; [exact H1|exact Hs2]). split; wp_step; wp_step; (apply HQ; [done|congruence|]); [done|].
    intros Hb%bool_decide_eq_true. by right.
  - by wp_step; apply HQ.
  - by wp_step; apply HQ.
Qed.

Lemma heal_rows_wp e remote (Q : result coerr (option CRow) -> CStore X -> Prop) s :
  (forall d s1, past s s1 -> c_signed s1 = c_signed s -> (forall e, d = Some e -> newest (issued_at (remote_ip remote)) (crows s1) = Some e) -> Q (Ok d) s1) ->
  wpt T R core_step (heal_rows e remote) Q s.
Proof.
  intros HQ. unfold heal_rows.
  assert (Htail : forall s1, past s s1 -> c_signed s1 = c_signed s -> wpt T R core_step
    (_ ← clear_mark (cr_DeviceName e); _ ← caudit "system" "heartbeat-self-heal" (remote_ip remote); device remote) Q s1).
  { intros s1 H1 L1. unfold clear_mark. wp_step.
    assert (Hdev : forall s2, past s1 s2 -> c_signed s2 = c_signed s1 -> wpt T R core_step (_ ← caudit "system" "heartbeat-self-heal" (remote_ip remote); device remote) Q s2).
    { intros s2 H2 L2. wp_step. apply caudit_wp. intros s3 H3 L3. apply device_wp. intros d s4 H4 L4 Hd. apply HQ; [|congruence|done].
      etrans; [exact H1|etrans; [exact H2|etrans; [exact H3|exact H4]]]. }
    apply wp_ignore, statement_wp; [intros s2; by apply quiet_core|done|by auto|by auto]. }
  destruct (decide _); [wp_step; wp_step; by apply Htail|]. wp_step. apply wp_ignore, statement_wp; [|done|by auto|by auto].
  intros s1. apply update_step. intros x _. auto with ncp.
Qed.

Lemma no_heal (P : CRow -> CStore X -> Prop) s s1 : c_signed s1 = c_signed s ->
  wpt T R core_step (mret None : CM (option CRow)) (fun r s' => c_signed s' = c_signed s /\ exists d, r = Ok d /\ forall dev, d = Some dev -> P dev s') s1.
Proof. intros L1. apply wp_ret. split; [done|]. exists None. by split. Qed.

(** Self-heal fails closed. Under any faults and interference [trySelfHeal] answers,
    signs nothing, and repairs a host only when it is wired, and there is a newest enrollment
    at the caller's address whose stored certificate parses and is not yet expired, whose
    fingerprint was then read as absent from the blocklist, which holds no reserved group,
    and whose address parses, lies outside the central block, and is held by that
    enrollment's device: granted by the allocator or already in its name. The device it
    returns is the newest issued enrollment at that address. *)
Theorem self_heal_fails_closed remote s :
  wpt T R core_step (trySelfHeal lib cfg remote) (fun r s' => c_signed s' = c_signed s /\ exists d, r = Ok d /\ forall dev, d = Some dev ->
    newest (issued_at (remote_ip remote)) (crows s') = Some dev /\ co_Revocation cfg = true /\
    exists f e notAfter t addr s1 s2 s3, co_AllocateSpecific cfg = Some f /\ past s s1 /\ past s1 s2 /\ past s2 s3 /\ past s3 s' /\
      newest (at_ip (remote_ip remote)) (crows s1) = Some e /\ cl_certNotAfter lib (cr_CertPEM e) = Some notAfter /\ T t /\ t < notAfter /\
      unrevoked (cr_Fingerprint e) s2 /\ GrantsReservedGroup (cr_Groups e) = false /\ ParseAddr (remote_ip remote) = Some addr /\
      IsValid (co_Central cfg) && Contains (co_Central cfg) addr = false /\ holds_address (cr_DeviceName e) (remote_ip remote) addr s3) s.
Proof.
  unfold trySelfHeal. destruct (co_Revocation cfg) eqn:Erev; cbn [negb]; [|apply no_heal; congruence].
  destruct (co_AllocateSpecific cfg) as [f|] eqn:Ef in |- *; [|apply no_heal; congruence]. wp_step. unfold or_default. wp_step. wp_step. apply wp_query. intros s1 Hs1.
  pose proof (HR _ _ Hs1) as L1. apply past_R in Hs1. split; [wp_step; apply no_heal; congruence|]. wp_step.
  destruct (newest _ _) as [e|] eqn:En; [|apply no_heal; congruence]. destruct (cl_certNotAfter lib _) as [na|] eqn:Ena; [|apply no_heal; congruence].
  wp_step. wp_step. destruct (Z.leb_spec na t); [apply no_heal; congruence|]. wp_step. apply revoked_wp. intros b s2 H2 L2 Hrev.
  assert (H12 : past s s2) by (etrans; [exact Hs1|exact H2]). assert (L12 : c_signed s2 = c_signed s) by congruence.
  destruct b as [[]|]; [apply no_heal; congruence| |apply no_heal; congruence]. specialize (Hrev eq_refl). destruct (GrantsReservedGroup _) eqn:Eg; [apply no_heal; congruence|].
  destruct (ParseAddr _) as [addr|] eqn:Ea; [|apply no_heal; congruence]. destruct (_ && _) eqn:Ec; [apply no_heal; congruence|]. wp_step. apply heal_address_wp; [done|].
  intros ok s3 H3 L3 Hold. destruct ok; [|apply no_heal; congruence]. apply heal_rows_wp. intros d s4 H4 L4 Hd.
  split; [congruence|]. exists d. split; [done|]. intros dev ->. split_and!; [by apply Hd|done|]. exists f, e, na, t, addr, s1, s2, s3. split_and!; try done. by apply Hold.
Qed.

(** *** Commands *)

Definition near (certNotAfter t : Z) : Prop :=
  0 < co_RenewCommandThreshold cfg /\ 0 < certNotAfter /\ certNotAfter - t < co_RenewCommandThreshold cfg.

(** The host still chains to another CA than the active one, and its wave has opened. *)
Definition straggler (dev : CRow) : Prop := exists started window t active, T t /\ inDrainWave (cr_OverlayIP dev) started window t = true /\
  cr_CAFingerprint dev <> "" /\ active <> "" /\ ToLower (cr_CAFingerprint dev) <> ToLower active.

Definition pending (dev : CRow) : Prop := cr_IssuedGeneration dev < cr_GroupsGeneration dev.

(** Why a renewal is or is not commanded. *)
Definition renew_justified (dev : CRow) (cna : Z) (renew : bool) : Prop :=
  (renew = true -> (exists t, T t /\ near cna t) \/ pending dev \/ straggler dev) /\ (pending dev -> renew = true) /\
  (0 < co_RenewCommandThreshold cfg -> 0 < cna -> (forall t, T t -> near cna t) -> renew = true).

(** A refresh command, when the rollout engine is wired. *)
Definition refresh (c : option Command) : Prop := forall x, c = Some x -> cmd_Type x = CmdApplyBundle /\ is_Some (co_Rollout cfg).

(** The commands for a host: at most one renewal, then at most one refresh, each with a reason. *)
Definition commands_of (dev : CRow) (certNotAfter : Z) (cmds : list Command) : Prop := exists (renew : bool) c,
  cmds = (if renew then [mkCommand CmdRenew 0] else []) ++ match c with Some c => [c] | None => [] end /\
  renew_justified dev certNotAfter renew /\ refresh c.

Lemma straggler_wp dev (Q : result coerr bool -> CStore X -> Prop) s :
  (forall b s1, past s s1 -> c_signed s1 = c_signed s -> (b = true -> straggler dev) -> Q (Ok b) s1) ->
  wpt T R core_step (forceRenewStraggler cfg (cr_OverlayIP dev) (cr_CAFingerprint dev)) Q s.
Proof.
  intros HQ. assert (Hno : forall s1, past s s1 -> c_signed s1 = c_signed s -> wpt T R core_step (mret false) Q s1) by (intros; apply wp_ret; by apply HQ).
  unfold forceRenewStraggler. destruct (co_CADrain cfg) as [d|] eqn:Ed; [|by apply Hno]. destruct (decide _) as [|Hca]; [by apply Hno|].
  wp_step. wp_step. apply confined_wp; [eauto with ncp|]. intros [active|e] s1 H1 L1; [|by apply Hno].
  destruct (_ || _) eqn:Eo; [by apply Hno|]. apply orb_false_iff in Eo as [Ea%bool_decide_eq_false Ef%bool_decide_eq_false].
  destruct (co_Signer cfg) as [sg|] eqn:Esg; [|by apply Hno]. wp_step. apply sure_wp; [eauto with ncp|]. intros cur s2 H2 L2.
  assert (H12 : past s s2) by (etrans; [exact H1|exact H2]). destruct (negb _); [by apply Hno; [|congruence]|].
  wp_step. wp_step. apply confined_wp; [eauto with ncp|]. intros w s3 H3 L3. assert (H13 : past s s3) by (etrans; [exact H12|exact H3]).
  assert (L13 : c_signed s3 = c_signed s) by congruence. destruct w as [[[started window]|]|e]; [|by apply Hno|by apply Hno].
  wp_step. wp_step. destruct (inDrainWave _ _ _ _) eqn:Ew; cbn [negb]; [|by apply Hno]. wp_step. wp_step. apply confined_wp; [eauto with ncp|].
  intros o s4 H4 L4. wp_step. apply HQ; [etrans; [exact H13|exact H4]|congruence|]. intros _. by exists started, window, t, active.
Qed.

Definition refreshes (m : CM (option Command)) : Prop := forall s (Q : result coerr (option Command) -> CStore X -> Prop),
  (forall c s1, past s s1 -> c_signed s1 = c_signed s -> refresh c -> Q (Ok c) s1) -> wpt T R core_step m Q s.

Lemma refreshes_or m k : refreshes m -> refreshes k -> refreshes (or_else m k).
Proof.
  intros Hm Hk s Q HQ. unfold or_else. apply wp_bind, Hm. intros [c|] s1 H1 L1 Hc; [wp_step; by apply HQ|].
  apply Hk. intros c s2 H2 L2 Hc2. apply HQ; [etrans; [exact H1|exact H2]|congruence|done].
Qed.

Lemma lane_refreshes ro lane ip v : co_Rollout cfg = Some ro -> refreshes (or_default None (ro_CommandFor ro lane ip v)).
Proof.
  intros Hro s Q HQ. unfold or_default. wp_step. wp_step.
  assert (Hc : confined (ro_CommandFor ro lane ip v)) by (intros T' R' s'; eapply wp_mono; [by apply sv_command|done]).
  eapply wp_mono; [apply wp_conj; [apply (confined_wp _ (fun _ s' => past s s' /\ c_signed s' = c_signed s)); [exact Hc|done]|]|].
  - apply (wp_weaken T T R R quiet_step core_step); [by apply sv_command|done|done|]. intros a b [?|?]; [by left|right; by apply quiet_core].
  - intros r s1 _ [[H1 L1] Ht]. wp_step. apply HQ; [done|done|]. destruct r as [[c|]|e]; [|by intros x [=]..]. intros x [= <-]. split; [by apply Ht|by rewrite Hro].
Qed.

Lemma floor_refreshes ro lane src os arch v : co_Rollout cfg = Some ro -> (forall rs g os arch, src = Some rs -> confined (rs_Lookup rs g os arch)) ->
  refreshes (floor_lane ro lane src os arch v).
Proof.
  intros Hro Hsrc s Q HQ. unfold floor_lane. destruct src as [rs|]; [|wp_step; by apply HQ; [constructor| |intros x [=]]].
  wp_step. apply sure_wp; [eauto with ncp|]. intros [gen ok] s1 H1 L1. destruct ok; [|wp_step; by apply HQ; [| |intros x [=]]].
  wp_step. apply sure_wp; [eauto with ncp|]. intros v' s2 H2 L2. wp_step. apply HQ; [etrans; [exact H1|exact H2]|congruence|].
  destruct v'; [|by intros x [=]]. intros x [= <-]. split; [done|by rewrite Hro].
Qed.

Lemma apply_refreshes ip os arch b bl n p : refreshes (applyCommand cfg ip os arch b bl n p).
Proof.
  unfold applyCommand. destruct (co_Rollout cfg) as [ro|] eqn:Ero.
  - repeat (apply refreshes_or; [by apply lane_refreshes|]). apply refreshes_or; apply floor_refreshes; eauto with ncp.
  - intros s Q HQ. wp_step. by apply HQ; [constructor| |intros x [=]].
Qed.

Lemma with_refresh_wp dev b bl n p cna renew (Q : result coerr (list Command) -> CStore X -> Prop) s : renew_justified dev cna renew ->
  (forall cmds s1, past s s1 -> c_signed s1 = c_signed s -> commands_of dev cna cmds -> Q (Ok cmds) s1) ->
  wpt T R core_step (with_refresh cfg dev b bl n p renew) Q s.
Proof.
  intros Hj HQ. unfold with_refresh. wp_step. apply apply_refreshes. intros c s3 H3 L3 Hr. wp_step. apply HQ; [done|done|]. by exists renew, c.
Qed.

Lemma commandsFor_wp dev b bl n p cna (Q : result coerr (list Command) -> CStore X -> Prop) s :
  (forall cmds s1, past s s1 -> c_signed s1 = c_signed s -> commands_of dev cna cmds -> Q (Ok cmds) s1) ->
  wpt T R core_step (commandsFor cfg dev b bl n p cna) Q s.
Proof.
  intros HQ. unfold commandsFor.
  assert (Hrest : forall nr, (nr = true -> exists t, T t /\ near cna t) -> (0 < co_RenewCommandThreshold cfg -> 0 < cna -> (forall t, T t -> near cna t) -> nr = true) ->
    wpt T R core_step ((if nr || (cr_IssuedGeneration dev <? cr_GroupsGeneration dev) then mret true else forceRenewStraggler cfg (cr_OverlayIP dev) (cr_CAFingerprint dev))
      ≫= with_refresh cfg dev b bl n p) Q s).
  { intros nr Hn1 Hn2. wp_step. destruct (nr || _) eqn:Enr.
    - wp_step. eapply with_refresh_wp; [|exact HQ]. split_and!; [|done|done].
      intros _. apply orb_true_iff in Enr as [->|Hp%Z.ltb_lt]; [left; by apply Hn1|right; by left].
    - apply orb_false_iff in Enr as [-> Hp%Z.ltb_ge]. apply straggler_wp. intros renew s2 H2 L2 Hst. eapply with_refresh_wp.
      + split_and!; [intros Hr; right; right; by apply Hst|unfold pending; lia|]. intros H0 H1 Ht. discriminate (Hn2 H0 H1 Ht).
      + intros cmds s3 H3 L3 Hc. apply HQ; [etrans; [exact H2|exact H3]|congruence|done]. }
  unfold nearExpiry. wp_step. destruct (_ && _) eqn:E.
  - bool_split. wp_step. wp_step. wp_step. apply Hrest.
    + intros Hn%Z.ltb_lt. exists t. split; [done|]. by split_and!.
    + intros _ _ Hall. apply Z.ltb_lt. apply (Hall t Ht).
  - wp_step. apply Hrest; [done|]. intros. exfalso. apply andb_false_iff in E. destruct E as [E|E]; bool_split; lia.
Qed.

(** *** Heartbeats *)

Lemma commands_known dev cna cmds : commands_of dev cna cmds -> forall S (h : Handlers S) (st : S) ty, (Process h cmds st).1 <> Err (H_Unknown ty).
Proof.
  intros (renew & c & -> & _ & Hc) S h. assert (Htail : forall st ty, (Process h (match c with Some c => [c] | None => [] end) st).1 <> Err (H_Unknown ty)).
  { intros st ty. destruct c as [c|]; [|done]. destruct (Hc c eq_refl) as [Ht _]. cbn [Process]. unfold handler_of. rewrite Ht.
    rewrite !decide_False, decide_True by done. destruct (hd_ApplyBundle h) as [f|]; cbn; [|done]. by destruct (f (cmd_BundleVersion c) st) as [[] st2]. }
  intros st ty. destruct renew; [|apply Htail]. cbn [app Process]. unfold handler_of. rewrite decide_True by done.
  destruct (hd_Renew h) as [f|]; [|apply Htail]. destruct (f st) as [[] st']; [apply Htail|done].
Qed.

Lemma heal_device_wp remote (Q : result coerr (option CRow) -> CStore X -> Prop) s :
  (forall d s1, past s s1 -> c_signed s1 = c_signed s -> (forall e, d = Some e -> newest (issued_at (remote_ip remote)) (crows s1) = Some e) -> Q (Ok d) s1) ->
  wpt T R core_step (trySelfHeal lib cfg remote) Q s.
Proof.
  intros HQ. assert (Hno : forall s1, past s s1 -> c_signed s1 = c_signed s -> wpt T R core_step (mret None : CM (option CRow)) Q s1) by (intros; apply wp_ret; by apply HQ).
  unfold trySelfHeal. destruct (co_Revocation cfg); cbn [negb]; [|by apply Hno]. destruct (co_AllocateSpecific cfg) as [f|] eqn:Ef in |- *; [|by apply Hno].
  wp_step. apply sure_wp; [auto with ncp|]. intros [e|] s1 H1 L1; [|by apply Hno]. destruct (cl_certNotAfter lib _); [|by apply Hno].
  wp_step. wp_step. destruct (_ <=? t); [by apply Hno|]. wp_step. apply revoked_wp. intros b s2 H2 L2 _.
  assert (H12 : past s s2) by (etrans; [exact H1|exact H2]). assert (L12 : c_signed s2 = c_signed s) by congruence.
  destruct b as [[]|]; [by apply Hno| |by apply Hno]. destruct (GrantsReservedGroup _); [by apply Hno|].
  destruct (ParseAddr _) as [addr|]; [|by apply Hno]. destruct (_ && _); [by apply Hno|]. wp_step. apply sure_wp.
  { unfold heal_address. apply sure_bind; [eauto with ncp|]. intros [|[]]; auto with ncp. apply sure_bind; [apply sure_default; auto with ncp|auto with ncp]. }
  intros ok s3 H3 L3. assert (H13 : past s s3) by (etrans; [exact H12|exact H3]). destruct ok; [|by apply Hno; [|congruence]].
  apply heal_rows_wp. intros d s4 H4 L4 Hd. apply HQ; [etrans; [exact H13|exact H4]|congruence|done].
Qed.

Lemma reconcile_sure dev : sure (reconcileAllocation cfg dev).
Proof.
  unfold reconcileAllocation. destruct (co_AllocateSpecific cfg) as [f|] eqn:Ef in |- *; [|auto with ncp]. destruct (decide _); [auto with ncp|].
  apply sure_bind; [apply sure_default; auto with ncp|]. intros [o|]; [auto with ncp|]. destruct (ParseAddr _); [|auto with ncp]. apply sure_ignore; eauto with ncp.
Qed.

Lemma gen_of_sure src sha : (forall rs sha, src = Some rs -> confined (rs_GenForSHA rs sha)) -> sure (gen_of (X := X) src sha).
Proof. intros H. unfold gen_of. destruct src; eauto with ncp. Qed.

Lemma recordArch_wp dev req (Q : result coerr unit -> CStore X -> Prop) s :
  (forall s', past s s' -> c_signed s' = c_signed s -> Q (Ok ()) s') -> wpt T R core_step (recordArch dev req) Q s.
Proof.
  intros HQ. unfold recordArch. destruct (_ && _); [|wp_step; by apply HQ; [constructor|]]. wp_step. wp_step. apply statement_wp; [|done| |].
  - intros s1. apply update_step. auto with ncp.
  - intros e s2 H2 L2. apply caudit_wp. intros s3 H3 L3. apply HQ; [etrans; [exact H2|exact H3]|congruence].
  - intros s2 _ H2 L2. wp_step. by apply HQ.
Qed.

Lemma drive_sure ip : sure (driveRollout cfg ip).
Proof. unfold driveRollout. destruct (co_Rollout cfg) eqn:E; [|auto with ncp]. apply sure_bind; [eauto with ncp|]. intros []; auto with ncp. Qed.

(** What a heartbeat that is answered with commands has recorded. *)
Definition reported (dev : CRow) (body : option string) (cmds : list Command) s s' : Prop :=
  exists text req nebula pilot t s2, let hb := beat_of lib dev req nebula pilot t in
    body = Some text /\ cl_unmarshalHeartbeat lib text = Some req /\ hq_Type req = "heartbeat" /\ T t /\ past s s2 /\ past s2 s' /\
    hb ∈ cbeats s2 /\ (forall x, x ∈ cbeats s2 -> bt_OverlayIP x = cr_OverlayIP dev -> x = hb) /\ commands_of dev (bt_CertNotAfter hb) cmds.

Lemma beat_body_wp dev body s :
  wpt T R core_step (beat_body lib cfg dev body) (fun r s' => c_signed s' = c_signed s /\ exists resp, r = Ok resp /\
    forall cmds, resp = R_Commands cmds -> reported dev body cmds s s') s.
Proof.
  unfold beat_body. destruct body as [text|]; [|wp_step; split; [done|by eexists]]. destruct (cl_unmarshalHeartbeat lib text) as [req|] eqn:Ereq; [|wp_step; split; [done|by eexists]].
  destruct (bool_decide _) eqn:Et; cbn [negb]; [|wp_step; split; [done|by eexists]]. bool_split.
  wp_step. apply sure_wp; [apply gen_of_sure; eauto with ncp|]. intros nebula s1 H1 L1. wp_step. apply sure_wp; [apply gen_of_sure; eauto with ncp|]. intros pilot s2 H2 L2.
  wp_step. wp_step. wp_step. wp_step. set (hb := beat_of lib dev req nebula pilot t). apply statement_wp; [|done| |].
  - intros s3. split; [apply rows_refl|done|apply upsert_ips].
  - intros e s3 _ L3. wp_step. split; [congruence|by eexists].
  - intros s3 _ H3 L3. set (s4 := set_cbeats (upsert_beat hb (cbeats s3)) s3) in *.
    assert (Hin : hb ∈ cbeats s4 /\ forall x, x ∈ cbeats s4 -> bt_OverlayIP x = cr_OverlayIP dev -> x = hb) by apply upsert_unique. clearbody s4.
    wp_step. apply recordArch_wp. intros s5 H5 L5. wp_step. apply sure_wp; [apply drive_sure|]. intros _ s6 H6 L6. wp_step. apply commandsFor_wp. intros cmds s7 H7 L7 Hc.
    wp_step. split; [congruence|]. eexists. split; [done|]. intros cmds' [= <-]. exists text, req, nebula, pilot, t, s4. destruct Hin.
    split_and!; try done; [etrans; [exact H1|etrans; [exact H2|exact H3]]|etrans; [exact H5|etrans; [exact H6|exact H7]]].
Qed.

(** A heartbeat reports the enrolled identity, and its commands are justified and
    understood. Under any faults and interference [handleHeartbeat] answers and signs
    nothing. When it answers with commands: the request decoded as a heartbeat, and the only
    row of the heartbeats table at the caller's address was the report, under the name and
    address of the newest issued enrollment there (never those of the body), with the time
    Core read; the commands are at most one renewal followed by at most one refresh; a
    renewal is commanded whenever newer groups are pending or the reported expiry is near,
    and otherwise only for a host of a draining CA whose wave has opened; and the host's
    command processor never refuses one of them as unknown. *)
Theorem heartbeat_reports_the_enrolled_identity remote body s :
  wpt T R core_step (handleHeartbeat lib cfg remote body) (fun r s' => c_signed s' = c_signed s /\ exists resp, r = Ok resp /\
    forall cmds, resp = R_Commands cmds -> (exists dev s1, past s s1 /\ newest (issued_at (remote_ip remote)) (crows s1) = Some dev /\ reported dev body cmds s1 s') /\
      forall S (h : Handlers S) (st : S) ty, (Process h cmds st).1 <> Err (H_Unknown ty)) s.
Proof.
  unfold handleHeartbeat.
  assert (Hrest : forall d s1, past s s1 -> c_signed s1 = c_signed s -> (forall e, d = Some e -> newest (issued_at (remote_ip remote)) (crows s1) = Some e) ->
    wpt T R core_step (match d with None => mret (R_Error CodeAccountNotAllowed) | Some dev => _ ← reconcileAllocation cfg dev; beat_body lib cfg dev body end)
    (fun r s' => c_signed s' = c_signed s /\ exists resp, r = Ok resp /\
    forall cmds, resp = R_Commands cmds -> (exists dev s1, past s s1 /\ newest (issued_at (remote_ip remote)) (crows s1) = Some dev /\ reported dev body cmds s1 s') /\
      forall S (h : Handlers S) (st : S) ty, (Process h cmds st).1 <> Err (H_Unknown ty)) s1).
  { intros [dev|] s1 H1 L1 Hdev; [|wp_step; split; [done|by eexists]]. specialize (Hdev _ eq_refl). wp_step. apply sure_wp; [apply reconcile_sure|]. intros _ s2 H2 L2.
    eapply wp_mono; [apply beat_body_wp|]. intros r s' _ (L3 & resp & -> & Hrep). split; [congruence|]. eexists. split; [done|]. intros cmds ->.
    destruct (Hrep _ eq_refl) as (text & req & nb & pl & t & s3 & Hb & Hq & Ht & HT & H3 & H4 & Hin & Hun & Hc). split; [|by eapply commands_known].
    exists dev, s1. split_and!; [done|done|]. exists text, req, nb, pl, t, s3. split_and!; try done. etrans; [exact H2|exact H3]. }
  wp_step. apply device_wp. intros [dev|] s1 H1 L1 Hdev; wp_step.
  - wp_step. apply (Hrest (Some dev)); done.
  - apply heal_device_wp. intros d s2 H2 L2 Hd. apply (Hrest d); [etrans; [exact H1|exact H2]|congruence|done].
Qed.
End theorems.

(** ** A small deployment *)

(** The allocator of internal/ipam on the address tables of Core's store. *)
Definition co_err (e : err) : coerr := match e with IP_AddrTaken => C_AddrTaken | DbFault => C_Fault | _ => C_Service end.
Definition over_addr {X A} (m : M Store err A) : M (CStore X) coerr A := fun env n s =>
  match m (mkEnv (clk env) (fault env) (fun k a => c_addr (interfere env k (set_addr a s)))) n (c_addr s) with
  | (Ok a, n', st) => (Ok a, n', set_addr st s)
  | (Err e, n', st) => (Err (co_err e), n', set_addr st s)
  end.

(** It keeps to its tables. *)
Lemma over_addr_confined {X A} (m : M Store err A) : confined (over_addr (X := X) m).
Proof.
  intros T R s env n _ _. unfold over_addr. destruct (m _ n (c_addr s)) as [[[a|e] n'] st]; (split; [|done]); apply rtc_once; right; by split.
Qed.

Definition key65 : string := "0123456789012345678901234567890123456789012345678901234567890123k".
Definition sig64 : string := "0123456789012345678901234567890123456789012345678901234567890123".
Definition second : Z := 1000000000.

(** Toy codecs; the text of a certificate is its expiry in seconds. *)
Definition demo_core_lib : CoreLib string :=
  mkCoreLib id (fun _ _ _ _ => true) (fun _ => Some (mkHeader Alg TypRenewRequest 1 (EncodeToString key65)))
    (fun _ => Some (mkFlat "" "" (EncodeToString sig64))) (fun _ => Some (mkRenewReq "renew" "P256" (EncodeToString key65)))
    (fun _ => Some (mkHBReq "heartbeat" 1 0 "" "p" "" "n" "" "linux" "arm64" 0 "ok" [" AB"] ["K"])) Some (fun s => Some 0) (fun _ => "")
    (fun pem => (fun v => v * second) <$> Atoi pem).

Definition core_ipam (ttl : Z) : Allocator := mkAllocator (mkPool (mkPrefix (Addr4 167772160) 29) ∅ [] ttl) None None.
Definition demo_core (ttl : Z) : CoreConfig unit :=
  mkCoreConfig true (Some (fun name ip method => over_addr (AllocateSpecific (core_ipam ttl) name ip method))) PrefixZero
    (Some (mkSignerOps (fun _ tpl => mret (mkIssued "9000" "f2" " CA2")) (mret "ca2") (mret false))) (fun _ => mret "jws") None None None None None None None None None
    "ca" "" [] None (mkPrefix (Addr4 167772160) 29) "nebula1" 4242 no_tuple no_tuple (3600 * second) 0.

#[export] Instance demo_core_ok ttl : CoreServices (demo_core ttl).
Proof.
  split; try (intros; discriminate).
  - intros f name ip method [= <-]. apply over_addr_confined.
  - intros sg actor tpl [= <-] T R s. by apply wp_ret.
  - intros sg [= <-] T R s. by apply wp_ret.
  - intros sg [= <-] T R s. by apply wp_ret.
  - intros b T R s. by apply wp_ret.
Qed.

Definition demo_dev : CRow := mkCRow 1 "h1" "10.0.0.1" "issued" "500" ["web"; "lighthouse"] ["db"] 2 1 "f1" "ca1" "linux" "amd64" false 0 false.
Definition no_revs : VStore := mkVStore [] 1 [] [] [].
Definition demo_addr : Store := mkStore [] 1 [mkDevice 1 "h1" 0] 2 [mkAllocation 1 "10.0.0.1" 1 "allocated" 0 0 0 0 "token"] 2 [] None 0 [] [] [].
Definition demo_core_store : CStore unit := mkCStore [demo_dev] [] [] no_revs demo_addr tt [] [].

(** The demo signer issues one certificate, for any template, and the config signer one text. *)
Definition demo_issued (tpl : Template) (leaf : Issued) : Prop := leaf = mkIssued "9000" "f2" " CA2".
Definition demo_signed (b : Bundle) (j : string) : Prop := j = "jws".

Lemma renew_signs_the_enrolled_identity_witness :
  (let '(r, s') := run (100 * second) (handleRenew demo_core_lib (demo_core 0) "10.0.0.1:4000" (Some "")) demo_core_store in
   r = Ok (R_Bundle "jws") /\ map tp_Groups (c_signed s') = [["db"; "lighthouse"]] /\ map cr_Fingerprint (crows s') = ["f2"] /\ map cr_IssuedGeneration (crows s') = [2]) /\
  wpt (fun _ => True) eq core_step (handleRenew demo_core_lib (demo_core 0) "10.0.0.1:4000" (Some "")) (fun r s' => exists resp, r = Ok resp /\
    (c_signed s' = [] \/ exists dev overlay groups t pub, proves_possession demo_core_lib (Some "") pub /\ c_signed s' = [renew_template (demo_core 0) dev overlay groups t pub])) demo_core_store.
Proof.
  split; [vm_compute; by split_and!|].
  pose proof (renew_signs_the_enrolled_identity demo_core_lib (demo_core 0) (fun _ => True) eq (fun s s' H => match H with eq_refl => eq_refl end)
    demo_issued demo_signed ltac:(intros sg actor tpl s [= <-]; apply wp_ret; by intros leaf [= <-]) ltac:(intros b s; apply wp_ret; by intros j [= <-])
    "10.0.0.1:4000" (Some "") demo_core_store) as H.
  eapply wp_mono; [exact H|]. intros r s' _ (resp & -> & [[L _]|(dev & pub & overlay & t & s1 & s2 & _ & _ & _ & _ & _ & Hk & _ & _ & L & _)]); exists resp; (split; [done|]).
  - left. exact L.
  - right. by exists dev, overlay, (keepReservedGroups (cr_Groups dev) (cr_DesiredGroups dev)).1, t, pub.
Defined.

Lemma heartbeat_reports_the_enrolled_identity_witness :
  (let '(r, s') := run (100 * second) (handleHeartbeat demo_core_lib (demo_core 0) "10.0.0.1:4000" (Some "")) demo_core_store in
   r = Ok (R_Commands [mkCommand CmdRenew 0]) /\ map bt_DeviceName (cbeats s') = ["h1"] /\ map bt_TrustedCAs (cbeats s') = [["ab"]] /\ map cr_GOARCH (crows s') = ["arm64"]) /\
  wpt (fun _ => True) eq core_step (handleHeartbeat demo_core_lib (demo_core 0) "10.0.0.1:4000" (Some "")) (fun r s' => exists resp, r = Ok resp /\
    forall cmds, resp = R_Commands cmds -> forall S (h : Handlers S) (st : S) ty, (Process h cmds st).1 <> Err (H_Unknown ty)) demo_core_store.
Proof.
  split; [vm_compute; by split_and!|].
  pose proof (heartbeat_reports_the_enrolled_identity demo_core_lib (demo_core 0) (fun _ => True) eq (fun s s' H => match H with eq_refl => eq_refl end)
    "10.0.0.1:4000" (Some "") demo_core_store) as H.
  eapply wp_mono; [exact H|]. intros r s' _ (_ & resp & -> & Hc). exists resp. split; [done|]. intros cmds Hr. apply (Hc cmds Hr).
Defined.

(** The same host with its row no longer issued and its address reclaimed. *)
Definition reclaimed_store : CStore unit := set_addr (set_allocs [] demo_addr)
  (set_crows [mkCRow 1 "h1" "10.0.0.1" "reclaimed" "500" ["web"] ["web"] 1 1 "f1" "ca1" "linux" "amd64" false 0 false] demo_core_store).

Lemma self_heal_fails_closed_witness :
  (let '(r, s') := run (100 * second) (trySelfHeal demo_core_lib (demo_core 0) "10.0.0.1:4000") reclaimed_store in
   (exists e, r = Ok (Some e) /\ cr_Status e = StatusIssued) /\ owner_of "10.0.0.1" (c_addr s') = Some "h1") /\
  wpt (fun _ => True) eq core_step (trySelfHeal demo_core_lib (demo_core 0) "10.0.0.1:4000") (fun r s' => c_signed s' = [] /\ exists d, r = Ok d /\
    forall dev, d = Some dev -> newest (issued_at (remote_ip "10.0.0.1:4000")) (crows s') = Some dev) reclaimed_store.
Proof.
  split; [vm_compute; split; [eexists; by split|reflexivity]|].
  pose proof (self_heal_fails_closed demo_core_lib (demo_core 0) (fun _ => True) eq (fun s s' H => match H with eq_refl => eq_refl end) (fun _ _ _ => True)
    (fun f name ip m s Hf => wp_mono _ _ _ _ _ _ _ (sv_alloc f name ip m Hf _ _ _) (fun _ _ _ _ _ => I)) "10.0.0.1:4000" reclaimed_store) as H.
  eapply wp_mono; [exact H|]. intros r s' _ (L & d & -> & Hd). split; [exact L|]. exists d. split; [done|]. intros dev Hdev. apply (Hd dev Hdev).
Defined.

(** ** Where the code does not do what it says *)

(** An operator's block that lands between the check and the signature: the renewal
    completes, and the row's new fingerprint is not on the blocklist. *)
Definition blocks_f1 (s : CStore unit) : CStore unit :=
  mkCStore (crows s) (cbeats s) (cmarks s) (mkVStore [Revocation.mkRow 1 "f1" "stolen" false StateActive "op" 0 0] 2 [] [] []) (c_addr s) (c_world s) (c_audit s) (c_signed s).
Definition block_env : Env (CStore unit) := mkEnv (fun _ => 100 * second) (fun _ => false) (fun k s => if bool_decide (k = 2%nat) then blocks_f1 s else s).

Lemma revocation_can_lose_to_a_renewal :
  let '(r, _, s') := handleRenew demo_core_lib (demo_core 0) "10.0.0.1:4000" (Some "") block_env 0%nat demo_core_store in
  r = Ok (R_Bundle "jws") /\ active_fps (c_rev s') = ["f1"] /\ map cr_Fingerprint (crows s') = ["f2"].
Proof. vm_compute. by split_and!. Qed.

(** A released address in quarantine still names its last device, so the heartbeat of the
    live host re-asserts nothing, and the address is handed to another device as soon as
    the quarantine is over. *)
Lemma quarantined_address_is_handed_on :
  let released := (run second (over_addr (Release (core_ipam 60) (Addr4 167772161))) demo_core_store).2 in
  let beaten := (run (2 * second) (handleHeartbeat demo_core_lib (demo_core 60) "10.0.0.1:4000" (Some "")) released).2 in
  let later := run (3 * second) (over_addr (Allocate (core_ipam 60) "h2" "" "token")) beaten in
  map al_state (allocs (c_addr released)) = ["quarantined"] /\ map al_state (allocs (c_addr beaten)) = ["quarantined"] /\
  map bt_LastSeen (cbeats beaten) = [2 * second] /\ later.1 = Ok (Addr4 167772161) /\ owner_of "10.0.0.1" (c_addr later.2) = Some "h2".
Proof. vm_compute. by split_and!. Qed.

(** A renewal does not store the new certificate: past the expiry of the first one, a host
    whose live certificate is valid is not healed. *)
Lemma renewed_host_is_not_healed :
  let renewed := (run (400 * second) (handleRenew demo_core_lib (demo_core 0) "10.0.0.1:4000" (Some "")) demo_core_store).2 in
  let lost := update_rows (fun _ => true) (with_status "reclaimed") renewed in
  map (fun t => tp_NotAfter t) (c_signed renewed) = [3700 * second] /\
  (run (600 * second) (trySelfHeal demo_core_lib (demo_core 0) "10.0.0.1:4000") (update_rows (fun _ => true) (with_groups ["web"] 2 None) lost)).1 = Ok None.
Proof. vm_compute. by split_and!. Qed.
