(* ===== verification/Heartbeat.v ===== *)
(** * internal/heartbeat: the reporter of the host

    One beat collects a report from the host's files (its certificate, the stored bundle and the
    trust file) and from the probes of the agent, sends it, and hands the answer to the command
    processor ([Process], modelled with the Core API). The network, the certificate library and
    JSON are parameters; logging is left out, and [Run] is the beats of a list of ticks.

    Core gates the cut-over to a new config-signing key on these reports. The theorems show that
    a report never promises more than the host's verifier will keep: a reported key is one under
    which the next bundle verifies, and versions and CAs come from a bundle that verified. *)

From S2P Require Import Prelude Db GoStrings Nonce Rollout Jws Bundle CoreApi.
From stdpp Require Import prelude strings list pretty.
From Stdlib Require Import ZArith Lia.
Open Scope Z_scope.

(** What a beat reads of the files; a missing one is [None]. *)
Record HostFiles : Type := mkHostFiles { hf_HostCert : option string; hf_Trust : option string; hf_Bundle : option string }.

(** The probes of [Config]; a nil function is [None]. *)
Record Probes : Type := mkProbes {
  pr_PilotVersion : string; pr_NebulaVersion : option string; pr_NebulaSHA : option string; pr_PilotSHA : option string; pr_Health : option string;
  pr_GOOS : string; pr_GOARCH : string }.

Definition default_interval : Z := 60 * 1000000000.
Definition interval_of (interval : Z) : Z := if interval <=? 0 then default_interval else interval.

(** Sorted and without repeats, as a set of map keys is returned. *)
Definition sorted_set (l : list string) : list string := sort_strings (remove_dups l).

Lemma elem_of_sorted_set l x : x ∈ sorted_set l <-> x ∈ l.
Proof. unfold sorted_set. by rewrite sort_strings_perm, elem_of_remove_dups. Qed.

Section reporter.
Context (sha256 : string -> string).
Context {Pub : Type} `{!EqDecision Pub} (ecdsaVerify : Pub -> string -> Z -> Z -> bool).
Context (unmarshalHeader : string -> option Header) (unmarshal : string -> option Bundle) (unmarshalEnv : string -> option Flattened).
Context (parsePEM : string -> option Pub) (unmarshalTrust : string -> option TrustFile).
Context (point : Pub -> option string).                                 (* k.ECDH(), the uncompressed point *)
Context (nextCert : string -> option (option string * string)).         (* cert.UnmarshalCertificateFromPEM: the fingerprint, the rest *)
Context (certNotAfter : string -> option string).                       (* the expiry of a certificate, formatted *)

(** One element of the CA bundle may hold several certificates; the loop ends at the first that
    does not parse. *)
Fixpoint ca_certs (fuel : nat) (rest : string) : list string :=
  match fuel with
  | O => []
  | S fuel =>
      if decide (rest = "") then []
      else match nextCert rest with
      | None => []
      | Some (fp, rest) => option_list fp ++ ca_certs fuel rest
      end
  end.

Definition trustedCAFingerprints (caPEMs : list string) : list string :=
  sorted_set (flat_map (fun p => ca_certs (String.length p) p) caPEMs).

Definition key_fingerprint (k : Pub) : option string := (fun pt => EncodeToString (sha256 pt)) <$> point k.

Definition trustedConfigKeyFingerprints (pins : list Pub) (trustFile : option string) : list string :=
  sorted_set (omap key_fingerprint (TrustedSet parsePEM unmarshalTrust pins trustFile)).

(** The stored bundle, if it verifies. *)
Definition applied_bundle (pins : list Pub) (f : HostFiles) : option Bundle :=
  raw ← hf_Bundle f;
  match VerifyBundle sha256 ecdsaVerify unmarshalHeader unmarshal unmarshalEnv raw (map Some (TrustedSet parsePEM unmarshalTrust pins (hf_Trust f))) with
  | Ok b => Some b
  | Err _ => None
  end.

(** The request of a beat; [pins] is nil without [PinnedConfigPub]. *)
Definition report (pins : option (list Pub)) (pr : Probes) (f : HostFiles) : HeartbeatRequest :=
  let b := pins ≫= fun pins => applied_bundle pins f in
  mkHBReq "heartbeat" (from_option b_BundleVersion 0 b) (from_option b_BlocklistVersion 0 b)
    (default "" (hf_HostCert f ≫= certNotAfter)) (pr_PilotVersion pr) (default "" (pr_PilotSHA pr)) (default "" (pr_NebulaVersion pr)) (default "" (pr_NebulaSHA pr))
    (pr_GOOS pr) (pr_GOARCH pr) 0 (default "ok" (pr_Health pr))
    (from_option (fun b => trustedCAFingerprints (b_CABundle b)) [] b)
    (from_option (fun pins => trustedConfigKeyFingerprints pins (hf_Trust f)) [] pins).

(** ** Sending and the commands *)

Context (marshalReq : HeartbeatRequest -> string) (unmarshalResp : string -> option (list Command)).

(** [net]: the status and body of the answer, if there is one. *)
Definition send {S} (net : string -> S -> option (Z * string) * S) (req : HeartbeatRequest) (s : S) : option (list Command) * S :=
  match net (marshalReq req) s with
  | (None, s') => (None, s')
  | (Some (status, body), s') => (if negb (status =? 200) then None else unmarshalResp body, s')
  end.

Definition beat {S} (net : string -> S -> option (Z * string) * S) (h : Handlers S) (pins : option (list Pub)) (probe : S -> Probes) (files : S -> HostFiles) (s : S) : S :=
  match send net (report pins (probe s) (files s)) s with
  | (None, s') => s'
  | (Some cmds, s') => (Process h cmds s').2
  end.

(** [Run], over the ticks before the context is cancelled. *)
Fixpoint Run {S} (net : string -> S -> option (Z * string) * S) (h : Handlers S) (pins : option (list Pub)) (probe : S -> Probes) (files : S -> HostFiles) (ticks : nat) (s : S) : S :=
  let s := beat net h pins probe files s in
  match ticks with O => s | S ticks => Run net h pins probe files ticks s end.
End reporter.

(** ** What a report promises *)

Section theorems.
Context (sha256 : string -> string).
Context {Pub : Type} `{!EqDecision Pub} (ecdsaVerify : Pub -> string -> Z -> Z -> bool).
Context (marshalHeader : Header -> string) (unmarshalHeader : string -> option Header).
Context (marshal : Bundle -> string) (unmarshal : string -> option Bundle).
Context (marshalEnv : Flattened -> string) (unmarshalEnv : string -> option Flattened).
Context (parsePEM : string -> option Pub) (unmarshalTrust : string -> option TrustFile).
Context (point : Pub -> option string) (nextCert : string -> option (option string * string)) (certNotAfter : string -> option string).
Abbreviation rep := (report sha256 ecdsaVerify unmarshalHeader unmarshal unmarshalEnv parsePEM unmarshalTrust point nextCert certNotAfter).
Abbreviation trusted := (TrustedSet parsePEM unmarshalTrust).
Abbreviation fingerprint := (key_fingerprint sha256 point).

(** Two keys with different points and one fingerprint. *)
Definition key_collision (k k' : Pub) : Prop := exists x y, point k = Some x /\ point k' = Some y /\ x <> y /\ EncodeToString (sha256 x) = EncodeToString (sha256 y).

Lemma reported_key pins pr f fp : fp ∈ hq_TrustedConfigKeys (rep (Some pins) pr f) <-> exists k, k ∈ trusted pins (hf_Trust f) /\ fingerprint k = Some fp.
Proof.
  cbn. unfold trustedConfigKeyFingerprints. rewrite elem_of_sorted_set, list_elem_of_omap. done.
Qed.

(** C15: A host never confirms a config-signing key it could not verify with. If a beat reports the
    fingerprint of a key, then the verifier of the host trusts that key, whatever crash or failed
    write left its bundle and trust files apart, and a bundle the key's holder signs next
    verifies there and reads back as signed; unless another trusted key collides with it in the
    fingerprint. Conversely every key the verifier trusts is reported. Codecs that read back this
    header, bundle and envelope and an injective point encoding are assumed. *)
Theorem adoption_is_never_over_reported pins pr f pub fp signDigest parseDER keyID b jws :
  (forall k k' x, point k = Some x -> point k' = Some x -> k = k') ->
  (let h := with_alg (mkHeader "" TypBundle 1 keyID) in unmarshalHeader (marshalHeader h) = Some h) ->
  unmarshal (marshal (stamped b)) = Some (stamped b) -> envelope_reads_back sha256 marshalHeader marshal marshalEnv unmarshalEnv signDigest parseDER keyID b ->
  (forall d der rs, signDigest d = Some der -> parseDER der = Some rs -> ecdsaVerify pub d rs.1 rs.2 = true) ->
  SignBundle sha256 marshalHeader marshal marshalEnv signDigest parseDER keyID b = Some jws ->
  fingerprint pub = Some fp ->
  (fp ∈ hq_TrustedConfigKeys (rep (Some pins) pr f) ->
     (exists k, k ∈ trusted pins (hf_Trust f) /\ key_collision k pub) \/
     VerifyBundle sha256 ecdsaVerify unmarshalHeader unmarshal unmarshalEnv jws (map Some (trusted pins (hf_Trust f))) = Ok (stamped b)) /\
  (pub ∈ trusted pins (hf_Trust f) -> fp ∈ hq_TrustedConfigKeys (rep (Some pins) pr f)).
Proof.
  intros Hinj Hh Hm He Hs Hj Hfp. split; [|intros Hp; apply reported_key; by exists pub].
  intros (k & Hk & Hkf)%reported_key. destruct (decide (k = pub)) as [->|Hne].
  - right. eapply bundle_roundtrip; [exact Hh|exact Hm|exact He|exact Hs| |exact Hj]. by apply list_elem_of_fmap_2.
  - left. exists k. split; [done|]. unfold key_fingerprint in *. destruct (point k) as [x|] eqn:Ek; [|done]. destruct (point pub) as [y|] eqn:Ep; [|done].
    exists x, y. split_and!; [done|done| |cbn in *; congruence]. intros ->. by apply Hne, (Hinj k pub y).
Qed.

(** What is said of the applied configuration comes from a bundle that verified under the keys the
    host trusts now. *)
Theorem reported_versions_are_verified pins pr f :
  let r := rep (Some pins) pr f in
  hq_AppliedBundleVersion r <> 0 \/ hq_AppliedBlocklistVersion r <> 0 \/ hq_TrustedCAs r <> [] ->
  exists raw b, hf_Bundle f = Some raw /\
    VerifyBundle sha256 ecdsaVerify unmarshalHeader unmarshal unmarshalEnv raw (map Some (trusted pins (hf_Trust f))) = Ok b /\
    hq_AppliedBundleVersion r = b_BundleVersion b /\ hq_AppliedBlocklistVersion r = b_BlocklistVersion b.
Proof.
  cbn. unfold applied_bundle. destruct (hf_Bundle f) as [raw|]; [|naive_solver]. cbn.
  destruct (VerifyBundle _ _ _ _ _ _ _) as [b|e] eqn:Ev; [|naive_solver]. intros _. by exists raw, b.
Qed.

(** The walk over a CA bundle ends. If parsing consumes at least one byte, the length of the text
    is fuel enough: more changes nothing. *)
Theorem ca_walk_terminates n rest : (forall s fp r, nextCert s = Some (fp, r) -> (String.length r < String.length s)%nat) ->
  ca_certs nextCert (String.length rest + n) rest = ca_certs nextCert (String.length rest) rest.
Proof.
  intros Hs. remember (String.length rest) as m eqn:Hm. assert (Hle : (String.length rest <= m)%nat) by lia. clear Hm. revert rest n Hle.
  induction m as [|m IH]; intros rest n Hle.
  - destruct rest; [|cbn in Hle; lia]. by destruct n.
  - cbn. destruct (decide (rest = "")); [done|]. destruct (nextCert rest) as [[fp r]|] eqn:E; [|done]. f_equal. apply IH. specialize (Hs _ _ _ E). lia.
Qed.
End theorems.

(** ** A host between two keys *)

Module heartbeat_example.
Definition point7 (k : Z) : option string := Some (pretty k).
Definition no_cert (s : string) : option (option string * string) := None.
Definition beat_report (f : HostFiles) : HeartbeatRequest :=
  report toy_hash toy_verify toy_unmarshal toy_bu toy_eu toy_pem toy_tu point7 no_cert (fun _ => None) (Some [7]) (mkProbes "v1" None None None None "linux" "amd64") f.

(** The bundle with keys 7 and 9 is stored, but the process died before the trust file was written: key 9 is
    not reported; after the write it is. *)
Definition torn : HostFiles := mkHostFiles None None (Some demo_jws).
Definition whole : HostFiles := mkHostFiles None (apply_bundle toy_hash toy_verify toy_unmarshal toy_bu toy_eu toy_pem toy_tm toy_tu (delivered demo_jws) [7] None).2 (Some demo_jws).
Example torn_write_under_reports :
  length (hq_TrustedConfigKeys (beat_report torn)) = 1%nat /\ hq_AppliedBundleVersion (beat_report torn) = 1 /\ length (hq_TrustedConfigKeys (beat_report whole)) = 2%nat.
Proof. vm_compute. done. Qed.

Lemma adoption_is_never_over_reported_witness :
  default "" (key_fingerprint toy_hash point7 7) ∈ hq_TrustedConfigKeys (beat_report torn) /\
  ((exists k, k ∈ TrustedSet toy_pem toy_tu [7] (hf_Trust torn) /\ key_collision toy_hash point7 k 7) \/
   VerifyBundle toy_hash toy_verify toy_unmarshal toy_bu toy_eu demo_jws (map Some (TrustedSet toy_pem toy_tu [7] (hf_Trust torn))) = Ok (stamped demo_bundle)).
Proof.
  assert (Hin : default "" (key_fingerprint toy_hash point7 7) ∈ hq_TrustedConfigKeys (beat_report torn)) by (apply (bool_decide_unpack _); vm_compute; exact I).
  split; [exact Hin|]. revert Hin.
  apply (adoption_is_never_over_reported toy_hash toy_verify toy_marshal toy_unmarshal toy_bm toy_bu toy_em toy_eu toy_pem toy_tu point7 no_cert (fun _ => None) [7]
    (mkProbes "v1" None None None None "linux" "amd64") torn 7 (default "" (key_fingerprint toy_hash point7 7)) toy_digest toy_der "kid" demo_bundle demo_jws).
  - intros k k' x [= <-] [= H]. by apply (inj pretty) in H.
  - vm_compute. reflexivity.
  - reflexivity.
  - intros env _. apply toy_env_codec.
  - intros d der rs [= <-] [= <-]. unfold toy_verify. cbn. by rewrite Z.eqb_refl.
  - vm_compute. reflexivity.
  - reflexivity.
Defined.
End heartbeat_example.
