(* ===== verification/Fleet.v ===== *)
(** * internal/fleet: the health of the fleet from its heartbeats

    The per-device classification, its SQL twin (a predicate on a row), the summary and the
    rolled-up verdict. Durations and times are nanoseconds on 64 bits; [time.Time.Sub]
    saturates, the bind arguments of the SQL wrap. The rendered sentences (alert texts and a
    reason's detail) are not modelled. *)

From S2P Require Import Prelude Db Bytes GoStrings.
From stdpp Require Import prelude strings list sorting.
From Stdlib Require Import ZArith Lia.
Open Scope Z_scope.

(** [hb] *)
Record HRow : Type := mkHRow { hr_IP : string; hr_Name : string; hr_CertNotAfter : Z; hr_ClockOffsetMs : Z; hr_Health : string; hr_LastSeen : Z }.

Record Thresholds : Type := mkThresholds { th_ExpiryWindow : Z; th_StaleAfter : Z; th_ClockSkewMs : Z }.

Definition CondExpired : string := "expired".
Definition CondExpiring : string := "expiring".
Definition CondStale : string := "stale".
Definition CondClockSkewed : string := "clock_skewed".
Definition CondUnhealthy : string := "unhealthy".

Record conditions : Type := mkConditions { c_Expired : bool; c_Expiring : bool; c_Stale : bool; c_ClockSkewed : bool; c_Unhealthy : bool }.

Definition abs (n : Z) : Z := if n <? 0 then i64 (- n) else n.

Definition classify (certNotAfter lastSeen clockOffsetMs : Z) (health : string) (now : Z) (th : Thresholds) : conditions :=
  let expired := negb (certNotAfter =? 0) && (certNotAfter <? now) in
  mkConditions expired
    (negb expired && negb (certNotAfter =? 0) && (time_sub certNotAfter now <? th_ExpiryWindow th))
    ((0 <? th_StaleAfter th) && (th_StaleAfter th <? time_sub now lastSeen))
    ((0 <? th_ClockSkewMs th) && (th_ClockSkewMs th <? abs clockOffsetMs))
    (negb (bool_decide (health = "")) && negb (bool_decide (health = "ok"))).

Definition classify_row (now : Z) (th : Thresholds) (r : HRow) : conditions :=
  classify (hr_CertNotAfter r) (hr_LastSeen r) (hr_ClockOffsetMs r) (hr_Health r) now th.

(** [ConditionSQL]: the predicate of the WHERE clause. *)
Definition ConditionSQL (cond : string) (now : Z) (th : Thresholds) : option (HRow -> bool) :=
  if decide (cond = CondExpired) then Some (fun r => negb (hr_CertNotAfter r =? 0) && (hr_CertNotAfter r <? now))
  else if decide (cond = CondExpiring) then
    Some (fun r => negb (hr_CertNotAfter r =? 0) && (now <=? hr_CertNotAfter r) && (hr_CertNotAfter r <? i64 (now + th_ExpiryWindow th)))
  else if decide (cond = CondStale) then
    Some (if th_StaleAfter th <=? 0 then fun _ => false else fun r => hr_LastSeen r <? i64 (now - th_StaleAfter th))
  else if decide (cond = CondClockSkewed) then
    Some (if th_ClockSkewMs th <=? 0 then fun _ => false
          else fun r => (th_ClockSkewMs th <? hr_ClockOffsetMs r) || (hr_ClockOffsetMs r <? i64 (- th_ClockSkewMs th)))
  else if decide (cond = CondUnhealthy) then Some (fun r => negb (bool_decide (hr_Health r = "")) && negb (bool_decide (hr_Health r = "ok")))
  else None.

Definition conditionLink (code : string) : string :=
  if decide (code = "CERTS_EXPIRED") then "/devices?condition=" +:+ CondExpired
  else if decide (code = "CERTS_EXPIRING") then "/devices?condition=" +:+ CondExpiring
  else if decide (code = "HOSTS_STALE") then "/devices?condition=" +:+ CondStale
  else if decide (code = "CLOCK_SKEWED") then "/devices?condition=" +:+ CondClockSkewed
  else if decide (code = "HOSTS_UNHEALTHY") then "/devices?condition=" +:+ CondUnhealthy
  else "".

(** [Device], of the at-risk list. *)
Record FDevice : Type := mkFDevice { fd_Row : HRow; fd_Reasons : list string }.

(** [Report]; its alerts are rendered from the counts. *)
Record Report : Type := mkFReport {
  f_Total : Z; f_Expired : Z; f_ExpiringSoon : Z; f_Stale : Z; f_ClockSkewed : Z; f_Unhealthy : Z; f_AtRisk : list FDevice;
}.

Definition HasAlerts (r : Report) : bool := (0 <? f_Expired r) || (0 <? f_ExpiringSoon r) || (0 <? f_Stale r).

Definition one (b : bool) : Z := if b then 1 else 0.
Definition tag (b : bool) (s : string) : list string := if b then [s] else [].

(** The body of the loop of [Summarize]. *)
Definition summarize_row (now : Z) (th : Thresholds) (rep : Report) (r : HRow) : Report :=
  let c := classify_row now th r in
  let reasons := tag (c_Expired c) CondExpired ++ tag (c_Expiring c) CondExpiring ++ tag (c_Stale c) CondStale in
  mkFReport (f_Total rep) (f_Expired rep + one (c_Expired c)) (f_ExpiringSoon rep + one (c_Expiring c)) (f_Stale rep + one (c_Stale c))
    (f_ClockSkewed rep + one (c_ClockSkewed c)) (f_Unhealthy rep + one (c_Unhealthy c))
    (if decide (reasons = []) then f_AtRisk rep else f_AtRisk rep ++ [mkFDevice r reasons]).

(** Worst first; the order of equal expiries is one of those [sort.Slice] may choose. *)
Definition sooner (a b : FDevice) : Prop := hr_CertNotAfter (fd_Row a) <= hr_CertNotAfter (fd_Row b).
#[export] Instance sooner_dec a b : Decision (sooner a b).
Proof. unfold sooner. apply _. Defined.

Definition Summarize (rows : list HRow) (now : Z) (th : Thresholds) : Report :=
  let rep := fold_left (summarize_row now th) rows (mkFReport (Z.of_nat (length rows)) 0 0 0 0 0 []) in
  mkFReport (f_Total rep) (f_Expired rep) (f_ExpiringSoon rep) (f_Stale rep) (f_ClockSkewed rep) (f_Unhealthy rep) (merge_sort sooner (f_AtRisk rep)).

(** [Generate], over any store with a heartbeats table. *)
Definition Generate {St E} `{!DbError E} (beats : St -> list HRow) (now : Z) (th : Thresholds) : M St E Report :=
  rows ← query beats;
  mret (Summarize rows now th).

Inductive Severity : Type := SevInfo | SevDegraded | SevCritical.
Inductive Status : Type := StatusHealthy | StatusDegraded | StatusCritical.
Inductive AuditState : Type := AuditOK | AuditTampered | AuditUnavailable.
#[export] Instance Severity_eq_dec : EqDecision Severity.
Proof. solve_decision. Defined.
#[export] Instance Status_eq_dec : EqDecision Status.
Proof. solve_decision. Defined.
#[export] Instance AuditState_eq_dec : EqDecision AuditState.
Proof. solve_decision. Defined.

Record Reason : Type := mkReason { re_Code : string; re_Severity : Severity; re_Count : Z; re_Link : string }.
Record Health : Type := mkHealth { he_Status : Status; he_Reasons : list Reason }.

Definition sevRank (s : Severity) : Z := match s with SevCritical => 3 | SevDegraded => 2 | SevInfo => 1 end.

(** The closure [add]. *)
Definition add (b : bool) (sev : Severity) (code : string) (count : Z) : list Reason :=
  if b then [mkReason code sev count (conditionLink code)] else [].

Definition reasons (rep : Report) (audit : AuditState) (rolloutState : string) : list Reason :=
  add (bool_decide (audit = AuditTampered)) SevCritical "AUDIT_CHAIN_BROKEN" 1 ++
  add (0 <? f_Expired rep) SevCritical "CERTS_EXPIRED" (f_Expired rep) ++
  add (bool_decide (rolloutState = "rolledback")) SevCritical "ROLLOUT_ROLLEDBACK" 1 ++
  add (0 <? f_ExpiringSoon rep) SevDegraded "CERTS_EXPIRING" (f_ExpiringSoon rep) ++
  add (0 <? f_Stale rep) SevDegraded "HOSTS_STALE" (f_Stale rep) ++
  add (0 <? f_ClockSkewed rep) SevDegraded "CLOCK_SKEWED" (f_ClockSkewed rep) ++
  add (0 <? f_Unhealthy rep) SevDegraded "HOSTS_UNHEALTHY" (f_Unhealthy rep) ++
  add (bool_decide (audit = AuditUnavailable)) SevDegraded "AUDIT_CHECK_UNAVAILABLE" 1 ++
  add (bool_decide (rolloutState = "canary") || bool_decide (rolloutState = "widening")) SevInfo "ROLLOUT_IN_PROGRESS" 1.

(** The loop over the reasons with its [break]. *)
Fixpoint worst (status : Status) (rs : list Reason) : Status :=
  match rs with
  | [] => status
  | r :: rs => match re_Severity r with SevCritical => StatusCritical | SevDegraded => worst StatusDegraded rs | SevInfo => worst status rs end
  end.

(** [sort.SliceStable] *)
Fixpoint insert_reason (r : Reason) (l : list Reason) : list Reason :=
  match l with
  | [] => [r]
  | x :: l => if sevRank (re_Severity r) <? sevRank (re_Severity x) then x :: insert_reason r l else r :: x :: l
  end.
Definition stable_sort (l : list Reason) : list Reason := foldr insert_reason [] l.

Definition Rollup (rep : Report) (audit : AuditState) (rolloutState : string) : Health :=
  let rs := reasons rep audit rolloutState in
  mkHealth (worst StatusHealthy rs) (stable_sort rs).

(** ** The verdict and its drill-down agree *)

(** The clock, the thresholds and a row are away from the ends of the 64-bit range. *)
Record in_range (now : Z) (th : Thresholds) : Prop := mkInRange {
  ir_window : 0 <= now /\ now + th_ExpiryWindow th < 2 ^ 63 /\ 0 <= th_ExpiryWindow th;
  ir_stale : th_StaleAfter th <= now;
  ir_skew : th_ClockSkewMs th < 2 ^ 62;
}.
Definition row_range (r : HRow) : Prop :=
  - 2 ^ 62 <= hr_CertNotAfter r < 2 ^ 63 /\ 0 <= hr_LastSeen r < 2 ^ 63 /\ - 2 ^ 62 <= hr_ClockOffsetMs r < 2 ^ 62.

(** The condition a token names, of a classified row. *)
Definition condition_of (cond : string) (c : conditions) : bool :=
  if decide (cond = CondExpired) then c_Expired c
  else if decide (cond = CondExpiring) then c_Expiring c
  else if decide (cond = CondStale) then c_Stale c
  else if decide (cond = CondClockSkewed) then c_ClockSkewed c
  else if decide (cond = CondUnhealthy) then c_Unhealthy c else false.

Lemma sql_twin cond now th f r : in_range now th -> row_range r -> ConditionSQL cond now th = Some f -> f r = condition_of cond (classify_row now th r).
Proof.
  intros [[H1 [H2 H2']] H3 H4] (Hc & Hl & Ho). unfold ConditionSQL, condition_of, classify_row, classify. cbn.
  destruct (decide (cond = CondExpired)); [by intros [= <-]|]. destruct (decide (cond = CondExpiring)); [|destruct (decide (cond = CondStale));
    [|destruct (decide (cond = CondClockSkewed)); [|destruct (decide (cond = CondUnhealthy)); [by intros [= <-]|done]]]]; intros [= <-].
  - rewrite i64_id by lia. unfold time_sub.
    destruct (Z.eqb_spec (hr_CertNotAfter r) 0), (Z.ltb_spec (hr_CertNotAfter r) now), (Z.leb_spec now (hr_CertNotAfter r)); cbn; try done; try lia.
  - destruct (Z.leb_spec (th_StaleAfter th) 0), (Z.ltb_spec 0 (th_StaleAfter th)); cbn; try done; try lia. rewrite i64_id by lia. unfold time_sub.
    destruct (Z.ltb_spec (hr_LastSeen r) (now - th_StaleAfter th)), (Z.ltb_spec (th_StaleAfter th) (Z.max (- 2 ^ 63) (Z.min (2 ^ 63 - 1) (now - hr_LastSeen r)))); try done; lia.
  - destruct (Z.leb_spec (th_ClockSkewMs th) 0), (Z.ltb_spec 0 (th_ClockSkewMs th)); cbn; try done; try lia. rewrite i64_id by lia. unfold abs.
    destruct (Z.ltb_spec (hr_ClockOffsetMs r) 0); [rewrite i64_id by lia|];
      destruct (Z.ltb_spec (th_ClockSkewMs th) (hr_ClockOffsetMs r)), (Z.ltb_spec (hr_ClockOffsetMs r) (- th_ClockSkewMs th)); cbn; symmetry;
      first [done|exfalso; lia|apply Z.ltb_lt; lia|apply Z.ltb_ge; lia].
Qed.

(** ** Counting *)

Definition count_rows (f : HRow -> bool) (l : list HRow) : Z := Z.of_nat (length (List.filter f l)).

Lemma count_cons f r l : count_rows f (r :: l) = one (f r) + count_rows f l.
Proof. unfold count_rows. cbn. destruct (f r); cbn [length one]; lia. Qed.

(** The counter of the report a token names. *)
Definition counter (cond : string) (rep : Report) : Z :=
  if decide (cond = CondExpired) then f_Expired rep
  else if decide (cond = CondExpiring) then f_ExpiringSoon rep
  else if decide (cond = CondStale) then f_Stale rep
  else if decide (cond = CondClockSkewed) then f_ClockSkewed rep
  else if decide (cond = CondUnhealthy) then f_Unhealthy rep else 0.

Lemma counter_row cond now th rep r : counter cond (summarize_row now th rep r) = counter cond rep + one (condition_of cond (classify_row now th r)).
Proof. unfold counter, condition_of. repeat case_decide; cbn; lia. Qed.

Lemma counter_fold cond now th rows : forall rep,
  counter cond (fold_left (summarize_row now th) rows rep) = counter cond rep + count_rows (fun r => condition_of cond (classify_row now th r)) rows.
Proof.
  induction rows as [|r rows IH]; intros rep; cbn [fold_left]; [unfold count_rows; cbn; lia|]. rewrite IH, counter_row, count_cons. lia.
Qed.

Lemma counter_summarize cond now th rows : counter cond (Summarize rows now th) = count_rows (fun r => condition_of cond (classify_row now th r)) rows.
Proof.
  transitivity (counter cond (fold_left (summarize_row now th) rows (mkFReport (Z.of_nat (length rows)) 0 0 0 0 0 []))); [unfold counter; repeat case_decide; done|].
  rewrite counter_fold. unfold counter. repeat case_decide; cbn; lia.
Qed.

Lemma count_ext f g l : (forall r, r ∈ l -> f r = g r) -> count_rows f l = count_rows g l.
Proof.
  intros H. induction l as [|r l IH]; [done|]. rewrite !count_cons, IH, (H r) by set_solver. done.
Qed.

Lemma insert_reason_perm r l : insert_reason r l ≡ₚ r :: l.
Proof. induction l as [|x l IH]; [done|]. cbn. destruct (_ <? _); [|done]. rewrite IH. by constructor. Qed.

Lemma stable_sort_perm l : stable_sort l ≡ₚ l.
Proof. induction l as [|r l IH]; [done|]. cbn. by rewrite insert_reason_perm, IH. Qed.

(** The link of a reason that counts devices, and the token it carries. *)
Definition link_of (cond : string) : string := "/devices?condition=" +:+ cond.

Lemma reasons_link rep audit st r cond : r ∈ reasons rep audit st -> re_Link r = link_of cond -> cond <> "" -> re_Count r = counter cond rep /\ 0 < re_Count r.
Proof.
  unfold reasons, add, link_of, counter. rewrite !elem_of_app. intros Hr Hl Hc.
  assert (Hinj : forall c, "/devices?condition=" +:+ c = "/devices?condition=" +:+ cond -> cond = c) by (intros c Heq; cbn in Heq; by injection Heq).
  assert (Hmem : forall (b : bool) x, r ∈ (if b then [x] else []) -> b = true /\ r = x) by (intros [] x Hx; [by apply list_elem_of_singleton in Hx|by apply elem_of_nil in Hx]).
  repeat match goal with H : _ \/ _ |- _ => destruct H as [H|H] end; apply Hmem in Hr as [Hb ->]; cbn in *; try (discriminate Hl);
    apply Hinj in Hl as ->; apply Z.ltb_lt in Hb; by split.
Qed.

Lemma counter_token cond rep now th : 0 < counter cond rep -> exists f, ConditionSQL cond now th = Some f.
Proof. unfold counter, ConditionSQL. repeat case_decide; intros; first [eexists; reflexivity|lia]. Qed.

(** The verdict and its drill-down agree. With clock and thresholds away from the ends of
    the 64-bit range, for every condition token the summary counts exactly the heartbeats its
    SQL predicate selects; and every reason of the verdict that links to the device list
    names a token the list understands, which selects exactly as many devices as the reason
    counts, at least one. *)
Theorem verdict_matches_drilldown rows now th audit rolloutState : in_range now th -> Forall row_range rows ->
  let rep := Summarize rows now th in
  (forall cond f, ConditionSQL cond now th = Some f -> counter cond rep = count_rows f rows) /\
  (forall r cond, r ∈ he_Reasons (Rollup rep audit rolloutState) -> re_Link r = link_of cond -> cond <> "" ->
     exists f, ConditionSQL cond now th = Some f /\ re_Count r = count_rows f rows /\ 0 < re_Count r).
Proof.
  intros Hr Hrows. cbn zeta. rewrite Forall_forall in Hrows.
  assert (Hcount : forall cond f, ConditionSQL cond now th = Some f -> counter cond (Summarize rows now th) = count_rows f rows).
  { intros cond f Hf. rewrite counter_summarize. apply count_ext. intros r Hin. symmetry. eapply sql_twin; eauto. }
  split; [exact Hcount|]. intros r cond Hin Hl Hc. cbn in Hin. rewrite stable_sort_perm in Hin. destruct (reasons_link _ _ _ _ _ Hin Hl Hc) as [Hn Hpos].
  destruct (counter_token cond (Summarize rows now th) now th) as [f Hf]; [lia|]. exists f. split_and!; [done| |done]. rewrite Hn. by apply Hcount.
Qed.

(** ** The order of the verdict *)

Definition severe (s : Severity) (l : list Reason) : bool := existsb (fun r => bool_decide (re_Severity r = s)) l.

Lemma worst_spec l : forall st, worst st l = if severe SevCritical l then StatusCritical else if severe SevDegraded l then StatusDegraded else st.
Proof.
  induction l as [|r l IH]; intros st; [done|]. cbn [worst severe existsb]. destruct (re_Severity r) eqn:E; rewrite ?IH; unfold severe; cbn; try done.
  by destruct (existsb _ l); [|destruct (existsb _ l)].
Qed.

Definition by_rank (a b : Reason) : Prop := sevRank (re_Severity b) <= sevRank (re_Severity a).

Lemma insert_reason_sorted r l : StronglySorted by_rank l -> StronglySorted by_rank (insert_reason r l).
Proof.
  induction 1 as [|x l Hs IH Hx]; cbn; [repeat constructor|]. destruct (Z.ltb_spec (sevRank (re_Severity r)) (sevRank (re_Severity x))).
  - constructor; [done|]. rewrite insert_reason_perm. constructor; [unfold by_rank; lia|done].
  - constructor; [by constructor|]. constructor; [unfold by_rank; lia|]. eapply Forall_impl; [exact Hx|]. unfold by_rank. intros. lia.
Qed.

Lemma stable_sort_sorted l : StronglySorted by_rank (stable_sort l).
Proof. induction l as [|r l IH]; cbn; [constructor|by apply insert_reason_sorted]. Qed.

Lemma severe_app s l l' : severe s (l ++ l') = severe s l || severe s l'.
Proof. apply existsb_app. Qed.

Lemma severe_add s b sev code n : severe s (add b sev code n) = b && bool_decide (sev = s).
Proof. unfold add, severe. destruct b; cbn; [apply orb_false_r|done]. Qed.

Lemma severe_reasons rep audit st :
  severe SevCritical (reasons rep audit st) = bool_decide (audit = AuditTampered) || (0 <? f_Expired rep) || bool_decide (st = "rolledback") /\
  severe SevDegraded (reasons rep audit st) = (0 <? f_ExpiringSoon rep) || (0 <? f_Stale rep) || (0 <? f_ClockSkewed rep) || (0 <? f_Unhealthy rep) || bool_decide (audit = AuditUnavailable).
Proof.
  unfold reasons. rewrite !severe_app, !severe_add. cbn. rewrite ?andb_true_r, ?andb_false_r, ?orb_false_r. cbn. rewrite ?orb_false_r, ?orb_assoc. done.
Qed.

(** The verdict is the worst of its reasons: critical exactly when the audit chain is
    broken, a certificate has expired or a rollout was rolled back; degraded exactly when it
    is not critical and a certificate expires soon, a host is silent, skewed or unhealthy, or
    the audit check could not run; a rollout in progress alone keeps the fleet healthy. The
    reasons are listed from the most to the least severe, and none is lost. *)
Theorem verdict_is_the_worst rep audit st :
  let h := Rollup rep audit st in
  (he_Status h = StatusCritical <-> audit = AuditTampered \/ 0 < f_Expired rep \/ st = "rolledback") /\
  (he_Status h <> StatusHealthy <-> he_Status h = StatusCritical \/ 0 < f_ExpiringSoon rep \/ 0 < f_Stale rep \/ 0 < f_ClockSkewed rep \/
     0 < f_Unhealthy rep \/ audit = AuditUnavailable) /\
  StronglySorted by_rank (he_Reasons h) /\ he_Reasons h ≡ₚ reasons rep audit st.
Proof.
  cbn zeta. destruct (severe_reasons rep audit st) as [Hc Hd]. split_and!; [| |apply stable_sort_sorted|apply stable_sort_perm];
    cbn [he_Status Rollup]; rewrite worst_spec, Hc, Hd; clear Hc Hd.
  - destruct (bool_decide (audit = AuditTampered) || _ || _) eqn:E.
    + rewrite !orb_true_iff, !bool_decide_eq_true, Z.ltb_lt in E. split; [intros _; naive_solver|done].
    + rewrite !orb_false_iff, !bool_decide_eq_false, Z.ltb_ge in E. split; [by destruct (_ || _)|]. intros [|[|]]; [naive_solver|lia|naive_solver].
  - destruct (bool_decide (audit = AuditTampered) || _ || _) eqn:E; [split; [by left|done]|]. destruct (_ || bool_decide (audit = AuditUnavailable)) eqn:E2.
    + rewrite !orb_true_iff, bool_decide_eq_true, !Z.ltb_lt in E2. split; [naive_solver|done].
    + rewrite !orb_false_iff, bool_decide_eq_false, !Z.ltb_ge in E2. split; [done|]. intros [|[|[|[|[|]]]]]; try lia; naive_solver.
Qed.

(** ** Three devices *)

Definition demo_thresholds : Thresholds := mkThresholds 50 100 500.
Definition demo_rows : list HRow :=
  [mkHRow "10.0.0.1" "a" 900 0 "ok" 990; mkHRow "10.0.0.2" "b" 1020 (-700) "ok" 995; mkHRow "10.0.0.3" "c" 5000 0 "red" 10].

Lemma verdict_matches_drilldown_witness :
  (let h := Rollup (Summarize demo_rows 1000 demo_thresholds) AuditOK "canary" in
   he_Status h = StatusCritical /\
   map re_Code (he_Reasons h) = ["CERTS_EXPIRED"; "CERTS_EXPIRING"; "HOSTS_STALE"; "CLOCK_SKEWED"; "HOSTS_UNHEALTHY"; "ROLLOUT_IN_PROGRESS"]) /\
  forall cond f, ConditionSQL cond 1000 demo_thresholds = Some f -> counter cond (Summarize demo_rows 1000 demo_thresholds) = count_rows f demo_rows.
Proof.
  split; [vm_compute; by split|].
  apply (verdict_matches_drilldown demo_rows 1000 demo_thresholds AuditOK "canary").
  - split; cbn; lia.
  - repeat constructor; cbn; lia.
Defined.
