(* ===== verification/Lighthouse.v ===== *)
(** * internal/lighthouse: the registry of the fleet's lighthouses

    Registration, re-addressing and removal of lighthouses, the list the bundles carry, and
    the records of certificate rotations. The addresses column is the list its JSON text
    encodes. A transaction runs alone on SQLite; on Postgres (read committed, and nothing
    here takes a lock) other transactions may commit between its statements. Each body has
    one write, its last statement, so there a transaction is its sequence of statements. *)

From S2P Require Import Prelude Db GoStrings Bytes Nonce Jws Bundle.
From stdpp Require Import prelude strings list relations sorting.
From Stdlib Require Import ZArith Lia.
Open Scope Z_scope.

Definition StateActive : string := "active".
Definition StateRemoved : string := "removed".

Inductive lherr : Type := LH_NotFound | LH_LastActive | LH_NoAddrs | LH_NoOverlayIP | LH_AlreadyExists | LH_BadRotation | LH_Duplicated | LH_Fault.
#[export] Instance lherr_db : DbError lherr := LH_Fault.

(** [Row] *)
Record LRow : Type := mkLRow { lr_ID : Z; lr_OverlayIP : string; lr_Addrs : list string; lr_Hostname : string; lr_State : string; lr_CreatedAt : Z; lr_UpdatedAt : Z }.

(** [RotationStatus] *)
Record Rot : Type := mkRot {
  rt_Name : string; rt_LastRunAt : Z; rt_LastResult : string; rt_LastRotatedAt : Z; rt_LastError : string; rt_RunsOK : Z; rt_RunsSkip : Z; rt_RunsFail : Z;
}.

Record LStore : Type := mkLStore { lhs : list LRow; lh_seq : Z; rots : list Rot; lh_audit : list (string * string * string) }.
Definition set_lhs (l : list LRow) (n : Z) (s : LStore) : LStore := mkLStore l n (rots s) (lh_audit s).
Definition set_rots (l : list Rot) (s : LStore) : LStore := mkLStore (lhs s) (lh_seq s) l (lh_audit s).
Definition add_laudit (e : string * string * string) (s : LStore) : LStore := mkLStore (lhs s) (lh_seq s) (rots s) (lh_audit s ++ [e]).

(** [Registry] *)
Record LRegistry : Type := mkLRegistry { l_hasAudit : bool; l_postgres : bool }.

Section registry.
Context (r : LRegistry).
Abbreviation LM := (M LStore lherr).

Definition db_tx {A} (m : LM A) : LM A := if l_postgres r then m else tx m.

Definition recordAudit (actor action target : string) : LM unit :=
  if l_hasAudit r then ignore (exec (fun s => ((), add_laudit (actor, action, target) s))) else mret ().

Definition has_overlay (ip : string) (x : LRow) : bool := bool_decide (lr_OverlayIP x = ip).
Definition is_active (x : LRow) : bool := bool_decide (lr_State x = StateActive).

(** [UNIQUE(overlay_ip)] *)
Definition insert_lh (ip host : string) (addrs : list string) (t : Z) (s : LStore) : result lherr (LRow * LStore) :=
  if existsb (has_overlay ip) (lhs s) then Err LH_Duplicated
  else let row := mkLRow (lh_seq s) ip addrs host StateActive t t in Ok (row, set_lhs (lhs s ++ [row]) (lh_seq s + 1) s).

Definition Add (overlayIP hostname : string) (addrs : list string) (actor : string) : LM LRow :=
  if decide (overlayIP = "") then throw LH_NoOverlayIP
  else if decide (addrs = []) then throw LH_NoAddrs
  else
    t ← now;
    c ← attempt (exec_err (insert_lh overlayIP hostname addrs t));
    match c with
    | Err LH_Duplicated => throw LH_AlreadyExists
    | Err e => throw e
    | Ok row => _ ← recordAudit actor "lighthouse-add" overlayIP; mret row
    end.

Definition get (overlayIP : string) : LM LRow :=
  x ← query (fun s => find_first (has_overlay overlayIP) (lhs s));
  match x with Some x => mret x | None => throw LH_NotFound end.

Definition update_lh (ip : string) (g : LRow -> LRow) (s : LStore) : LStore :=
  set_lhs (map (fun x => if has_overlay ip x then g x else x) (lhs s)) (lh_seq s) s.

Definition readdress (addrs : list string) (t : Z) (x : LRow) : LRow :=
  mkLRow (lr_ID x) (lr_OverlayIP x) addrs (lr_Hostname x) StateActive (lr_CreatedAt x) t.
Definition retire (t : Z) (x : LRow) : LRow :=
  mkLRow (lr_ID x) (lr_OverlayIP x) (lr_Addrs x) (lr_Hostname x) StateRemoved (lr_CreatedAt x) t.

Definition replace_tx (overlayIP : string) (addrs : list string) : LM unit :=
  x ← query (fun s => find_first (has_overlay overlayIP) (lhs s));
  match x with
  | None => throw LH_NotFound
  | Some _ => t ← now; exec (fun s => ((), update_lh overlayIP (readdress addrs t) s))
  end.

Definition Replace (overlayIP : string) (addrs : list string) (actor : string) : LM LRow :=
  if decide (addrs = []) then throw LH_NoAddrs
  else
    _ ← db_tx (replace_tx overlayIP addrs);
    _ ← recordAudit actor "lighthouse-replace" overlayIP;
    get overlayIP.

(** The answer is whether the row changed. *)
Definition remove_tx (overlayIP : string) : LM bool :=
  x ← query (fun s => find_first (has_overlay overlayIP) (lhs s));
  match x with
  | None => throw LH_NotFound
  | Some x =>
      if decide (lr_State x = StateRemoved) then mret false
      else
        n ← query (fun s => Z.of_nat (length (List.filter is_active (lhs s))));
        if n <=? 1 then throw LH_LastActive
        else t ← now; _ ← exec (fun s => ((), update_lh overlayIP (retire t) s)); mret true
  end.

Definition Remove (overlayIP actor : string) : LM unit :=
  changed ← db_tx (remove_tx overlayIP);
  if changed : bool then recordAudit actor "lighthouse-remove" overlayIP else mret ().

Definition by_overlay (a b : LRow) : Prop := string_le (lr_OverlayIP a) (lr_OverlayIP b).
#[export] Instance by_overlay_dec a b : Decision (by_overlay a b).
Proof. unfold by_overlay. apply _. Defined.

Definition Active : LM (list Lighthouse) :=
  rows ← query (fun s => merge_sort by_overlay (List.filter is_active (lhs s)));
  mret (map (fun x => mkLighthouse (lr_OverlayIP x) (lr_Addrs x)) rows).

Definition ListRows : LM (list LRow) := query (fun s => rev (lhs s)).

(** [RecordRotation]: the read and the write are separate statements. *)
Definition bump (result errMsg : string) (t : Z) (x : Rot) : Rot :=
  mkRot (rt_Name x) t result (if decide (result = "ok") then t else rt_LastRotatedAt x) errMsg
    (rt_RunsOK x + (if decide (result = "ok") then 1 else 0)) (rt_RunsSkip x + (if decide (result = "skip") then 1 else 0))
    (rt_RunsFail x + (if decide (result = "fail") then 1 else 0)).

Definition RecordRotation (name result errMsg : string) : LM unit :=
  if decide (name = "") then throw LH_BadRotation
  else if negb (bool_decide (result ∈ ["ok"; "skip"; "fail"])) then throw LH_BadRotation
  else
    t ← now;
    let secs := t / 1000000000 in
    x ← query (fun s => find_first (fun x => bool_decide (rt_Name x = name)) (rots s));
    match x with
    | None => exec_err (fun s => if existsb (fun x => bool_decide (rt_Name x = name)) (rots s) then Err LH_Duplicated
                                 else Ok ((), set_rots (rots s ++ [bump result errMsg secs (mkRot name 0 "" 0 "" 0 0 0)]) s))
    | Some x => exec (fun s => ((), set_rots (map (fun y => if bool_decide (rt_Name y = name) then bump result errMsg secs x else y) (rots s)) s))
    end.
End registry.

(** ** Discovery is never lost *)

Definition discoverable (s : LStore) : Prop := exists x, x ∈ lhs s /\ lr_State x = StateActive.
Definition unique_ips (s : LStore) : Prop := NoDup (map lr_OverlayIP (lhs s)).

(** What a registry may do: nothing to the lighthouses; add one with a fresh address;
    re-address and activate one; retire one while another is active. *)
Inductive lh_step (s s' : LStore) : Prop :=
| ls_same : lhs s' = lhs s -> lh_step s s'
| ls_add row : lr_State row = StateActive -> lr_OverlayIP row ∉ map lr_OverlayIP (lhs s) -> lhs s' = lhs s ++ [row] -> lh_step s s'
| ls_replace ip addrs t : lhs s' = lhs (update_lh ip (readdress addrs t) s) -> lh_step s s'
| ls_retire ip t : (exists x, x ∈ lhs s /\ lr_State x = StateActive /\ lr_OverlayIP x <> ip) -> lhs s' = lhs (update_lh ip (retire t) s) -> lh_step s s'.

Lemma update_ips ip g s : (forall x, lr_OverlayIP (g x) = lr_OverlayIP x) -> map lr_OverlayIP (lhs (update_lh ip g s)) = map lr_OverlayIP (lhs s).
Proof. intros Hg. cbn. rewrite map_map. apply map_ext. intros x. destruct (has_overlay ip x); [apply Hg|done]. Qed.

Lemma lh_step_inv s s' : lh_step s s' -> (discoverable s -> discoverable s') /\ (unique_ips s -> unique_ips s').
Proof.
  unfold discoverable, unique_ips. intros [Hs|row Hst Hf Hs|ip addrs t Hs|ip t (y & Hy & Hya & Hne) Hs]; rewrite Hs.
  - done.
  - split; [intros (x & Hx & Ha); exists x; split; [apply elem_of_app; by left|done]|]. intros Hnd. rewrite map_app. apply NoDup_app.
    split_and!; [done| |apply NoDup_singleton]. by intros ip Hip ->%list_elem_of_singleton.
  - split; [|by rewrite update_ips]. intros (x & Hx & Ha). exists (if has_overlay ip x then readdress addrs t x else x). split; [|by destruct (has_overlay ip x)].
    apply list_elem_of_fmap. by exists x.
  - split; [|by rewrite update_ips]. intros _. exists y. split; [|done]. apply list_elem_of_fmap. exists y. split; [|done].
    unfold has_overlay. by rewrite bool_decide_eq_false_2.
Qed.

(** Two active rows with different addresses: one survives a removal. *)
Lemma another_active ip s : unique_ips s -> 1 < Z.of_nat (length (List.filter is_active (lhs s))) ->
  exists x, x ∈ lhs s /\ lr_State x = StateActive /\ lr_OverlayIP x <> ip.
Proof.
  unfold unique_ips. intros Hu Hn. destruct (List.filter is_active (lhs s)) as [|a [|b l]] eqn:E; cbn in Hn; [lia|lia|].
  assert (Hin : forall x, x ∈ a :: b :: l -> x ∈ lhs s /\ lr_State x = StateActive).
  { intros x Hx. rewrite <- E in Hx. apply list_elem_of_In, filter_In in Hx as [Hx Ha]. split; [by apply list_elem_of_In|]. by apply bool_decide_eq_true in Ha. }
  assert (Hab : lr_OverlayIP a <> lr_OverlayIP b).
  { assert (Hnd : NoDup (map lr_OverlayIP (List.filter is_active (lhs s)))).
    { clear -Hu. induction (lhs s) as [|x l IH]; cbn in *; [constructor|]. apply NoDup_cons in Hu as [Hx Hu]. destruct (is_active x); [|by apply IH].
      cbn. apply NoDup_cons. split; [|by apply IH]. intros (y & Hy & Hiny)%list_elem_of_fmap. apply Hx, list_elem_of_fmap. exists y. split; [done|].
      apply list_elem_of_In, filter_In in Hiny as [? _]. by apply list_elem_of_In. }
    rewrite E in Hnd. cbn in Hnd. apply NoDup_cons in Hnd as [Hnd _]. intros Heq. apply Hnd. rewrite Heq. by left. }
  destruct (decide (lr_OverlayIP a = ip)) as [<-|Ha]; [exists b|exists a]; (split; [apply Hin; set_solver|split; [apply Hin; set_solver|done]]).
Qed.

(** ** Every operation on SQLite *)

Section theorems.
Context (r : LRegistry) (Hlite : l_postgres r = false) (T : Z -> Prop).
Abbreviation R := (rtc lh_step).
Definition fit (s : LStore) : Prop := unique_ips s /\ discoverable s.

Lemma fit_step : stable lh_step fit.
Proof. intros s s' H%lh_step_inv [Hu Hd]. split; by apply H. Qed.

Lemma fit_steps : stable R fit.
Proof. intros s s' H. eapply rtc_invariant; [exact fit_step|exact H]. Qed.

Lemma laudit_wp actor action target (Q : result lherr unit -> LStore -> Prop) s : (forall s', fit s' -> Q (Ok ()) s') -> fit s ->
  wpt T R lh_step (recordAudit r actor action target) Q s.
Proof.
  intros HQ Hs. unfold recordAudit. destruct (l_hasAudit r); [|wp_step; by apply HQ]. apply wp_ignore, wp_exec. intros s1 H1.
  apply (fun H => fit_steps _ _ H Hs) in H1. split; [by apply HQ|]. split; [by apply ls_same|]. by apply HQ.
Qed.

Lemma LhAdd_wp ip host addrs actor s : fit s -> wpt T R lh_step (Add r ip host addrs actor) (fun _ s' => fit s') s.
Proof.
  intros Hs. unfold Add. destruct (decide _); [by wp_step|]. destruct (decide _); [by wp_step|]. wp_step. wp_step. wp_step. wp_step. apply wp_exec_err.
  intros s1 H1. apply (fun H => fit_steps _ _ H Hs) in H1. split; [by wp_step|]. unfold insert_lh. destruct (existsb _ _) eqn:E; [by wp_step|].
  assert (Hst : lh_step s1 (set_lhs (lhs s1 ++ [mkLRow (lh_seq s1) ip addrs host StateActive t t]) (lh_seq s1 + 1) s1)).
  { eapply ls_add; [..|done]; [done|]. cbn. intros (x & Hx & Hin)%list_elem_of_fmap. eapply existsb_elem_false in E; [|exact Hin]. unfold has_overlay in E. bool_split. congruence. }
  split; [exact Hst|]. wp_step. apply laudit_wp; [intros s2 H2; by wp_step|]. by eapply fit_step.
Qed.

Lemma Replace_wp ip addrs actor s : fit s -> wpt T R lh_step (Replace r ip addrs actor) (fun _ s' => fit s') s.
Proof.
  intros Hs. unfold Replace. destruct (decide _); [by wp_step|]. wp_step. unfold db_tx. rewrite Hlite. apply wp_tx. intros s1 H1.
  apply (fun H => fit_steps _ _ H Hs) in H1. split; [done|]. unfold replace_tx. wp_step. wp_step; [done|]. destruct (find_first _ _); [|by wp_step].
  wp_step. wp_step. wp_step; [done|]. split; [done|].
  assert (Hst : lh_step s1 (update_lh ip (readdress addrs t) s1)) by by eapply ls_replace. split; [exact Hst|].
  wp_step. apply laudit_wp; [|by eapply fit_step]. intros s2 H2. unfold get. wp_step. apply wp_query. intros s3 H3. apply (fun H => fit_steps _ _ H H2) in H3.
  split; [done|]. by destruct (find_first _ _); wp_step.
Qed.

Lemma Remove_wp ip actor s : fit s -> wpt T R lh_step (Remove r ip actor) (fun res s' => fit s') s.
Proof.
  intros Hs. unfold Remove. wp_step. unfold db_tx. rewrite Hlite. apply wp_tx. intros s1 H1. apply (fun H => fit_steps _ _ H Hs) in H1. split; [done|].
  unfold remove_tx. wp_step. wp_step; [done|]. destruct (find_first _ _) as [x|]; [|by wp_step].
  destruct (decide _); [wp_step; split; [by apply ls_same|by wp_step]|]. wp_step. wp_step; [done|]. destruct (Z.leb_spec (Z.of_nat (length (List.filter is_active (lhs s1)))) 1); [by wp_step|].
  wp_step. wp_step. wp_step. wp_step; [done|]. split; [done|]. wp_step.
  assert (Hst : lh_step s1 (update_lh ip (retire t) s1)). { eapply ls_retire; [|done]. apply another_active; [apply H1|done]. }
  split; [exact Hst|]. apply laudit_wp; [done|by eapply fit_step].
Qed.

(** Discovery is never lost. On SQLite, from a registry with unique addresses and an
    active lighthouse, under any faults and any other registries: adding, re-addressing and
    removing only take steps that leave an active lighthouse and keep the addresses unique;
    and the list the bundles carry is never empty, sorted by address. *)
Theorem discovery_is_never_lost s : fit s ->
  (forall ip host addrs actor, wpt T R lh_step (Add r ip host addrs actor) (fun _ s' => fit s') s) /\
  (forall ip addrs actor, wpt T R lh_step (Replace r ip addrs actor) (fun _ s' => fit s') s) /\
  (forall ip actor, wpt T R lh_step (Remove r ip actor) (fun _ s' => fit s') s) /\
  wpt T R lh_step Active (fun res s' => forall l, res = Ok l -> l <> [] /\ Sorted string_le (map lh_OverlayIP l)) s.
Proof.
  intros Hs. split_and!; intros; [by apply LhAdd_wp|by apply Replace_wp|by apply Remove_wp|].
  unfold Active. wp_step. apply wp_query. intros s1 H1. apply (fun H => fit_steps _ _ H Hs) in H1 as [_ (x & Hx & Ha)]. split; [done|]. wp_step. intros l [= <-]. split.
  - intros He%(f_equal length). rewrite length_map, (Permutation_length (merge_sort_Permutation by_overlay _)) in He. cbn in He.
    assert (Hin : x ∈ List.filter is_active (lhs s1)) by (apply list_elem_of_In, filter_In; split; [by apply list_elem_of_In|by apply bool_decide_eq_true]).
    destruct (List.filter is_active (lhs s1)); [by apply elem_of_nil in Hin|done].
  - rewrite map_map. cbn. assert (Hso : Sorted by_overlay (merge_sort by_overlay (List.filter is_active (lhs s1)))).
    { apply Sorted_merge_sort. intros a b. exact (string_le_total (lr_OverlayIP a) (lr_OverlayIP b)). }
    induction Hso as [|y l Hl IH Hy]; cbn; constructor; [done|]. destruct Hy; cbn; by constructor.
Qed.
End theorems.

(** ** Two lighthouses *)

Definition demo_lh (ip : string) : LRow := mkLRow 1 ip ["1.2.3.4:4242"] "" StateActive 0 0.
Definition two_lighthouses : LStore := mkLStore [demo_lh "10.0.0.2"; demo_lh "10.0.0.1"] 3 [] [].

Lemma two_fit : fit two_lighthouses.
Proof. split; [unfold unique_ips; cbn; apply NoDup_cons; split; [by intros ?%list_elem_of_singleton|apply NoDup_singleton]|]. exists (demo_lh "10.0.0.1"). split; [right; by left|done]. Qed.

Lemma discovery_is_never_lost_witness :
  (let s1 := (run 5 (Remove (mkLRegistry true false) "10.0.0.2" "op") two_lighthouses).2 in
   (run 6 Active s1).1 = Ok [mkLighthouse "10.0.0.1" ["1.2.3.4:4242"]] /\ (run 6 (Remove (mkLRegistry true false) "10.0.0.1" "op") s1).1 = Err LH_LastActive) /\
  (forall ip actor, wpt (fun _ => True) (rtc lh_step) lh_step (Remove (mkLRegistry true false) ip actor) (fun _ s' => fit s') two_lighthouses).
Proof.
  split; [vm_compute; by split|]. intros ip actor.
  apply (discovery_is_never_lost (mkLRegistry true false) eq_refl (fun _ => True) two_lighthouses two_fit).
Defined.

(** On Postgres another registry may commit its own removal between the count and the write:
    both lighthouses are retired. *)
Definition other_removes : Env LStore := mkEnv (fun _ => 5) (fun _ => false)
  (fun k s => if bool_decide (k = 3%nat) then update_lh "10.0.0.1" (retire 5) s else s).

Lemma concurrent_removals_lose_discovery :
  let '(res, _, s') := Remove (mkLRegistry true true) "10.0.0.2" "op" other_removes 0%nat two_lighthouses in
  res = Ok () /\ (run 6 (Remove (mkLRegistry true true) "10.0.0.1" "op") two_lighthouses).1 = Ok () /\ (run 6 Active s').1 = Ok [].
Proof. vm_compute. by split_and!. Qed.
