(* ===== verification/Releases.v ===== *)
(** * internal/nebularelease and internal/pilotrelease: the catalogs of binaries

    A catalog of releases (one row per generation, with its default platform) and of further
    artifacts per platform. The two packages are the same code over their own tables; the
    second module names the operations of the second. A transaction runs alone. *)

From S2P Require Import Prelude Db Bytes GoStrings.
From stdpp Require Import prelude strings list relations sorting.
From Stdlib Require Import ZArith Lia Ascii.
Open Scope Z_scope.

Inductive rlerr : Type := RL_Invalid | RL_NoGeneration | RL_Duplicated | RL_Fault.
#[export] Instance rlerr_db : DbError rlerr := RL_Fault.

(** The rows of enrollments the platform of a host is read from. *)
Record EArch : Type := mkEArch { ea_ID : Z; ea_IP : string; ea_Status : string; ea_GOOS : string; ea_GOARCH : string }.

Module NebulaRelease.

Definition StatusCandidate : string := "candidate".
Definition StatusCurrent : string := "current".
Definition StatusSuperseded : string := "superseded".
Definition DefaultGOOS : string := "linux".
Definition DefaultGOARCH : string := "amd64".

(** [Release] *)
Record Release : Type := mkRelease {
  rl_Gen : Z; rl_Version : string; rl_SHA256 : string; rl_URL : string; rl_GOOS : string; rl_GOARCH : string; rl_Status : string; rl_Note : string; rl_CreatedAt : Z;
}.
(** [Artifact] *)
Record Artifact : Type := mkArtifact { ar_ID : Z; ar_Gen : Z; ar_GOOS : string; ar_GOARCH : string; ar_SHA256 : string; ar_URL : string; ar_CreatedAt : Z }.
(** [ExcludedHost] *)
Record ExcludedHost : Type := mkExcluded { ex_IP : string; ex_GOOS : string; ex_GOARCH : string }.

Record Catalog : Type := mkCatalog { rels : list Release; rel_seq : Z; arts : list Artifact; art_seq : Z; hosts : list EArch }.
Definition set_rels (l : list Release) (n : Z) (s : Catalog) : Catalog := mkCatalog l n (arts s) (art_seq s) (hosts s).
Definition set_arts (l : list Artifact) (n : Z) (s : Catalog) : Catalog := mkCatalog (rels s) (rel_seq s) l n (hosts s).

Definition or_dflt (s d : string) : string := if decide (s = "") then d else s.
Definition normArch (goos goarch : string) : string * string :=
  (or_dflt (ToLower (TrimSpace goos)) DefaultGOOS, or_dflt (ToLower (TrimSpace goarch)) DefaultGOARCH).

Definition hex_char (c : ascii) : bool := let n := of_byte c in ((48 <=? n) && (n <=? 57)) || ((97 <=? n) && (n <=? 102)).
Definition isHex (s : string) : bool := forallb hex_char (chars s).
Definition bad_sha (sha : string) : bool := negb (len sha =? 64) || negb (isHex sha).

Abbreviation RM := (M Catalog rlerr).

Definition insert_release (version sha url goos goarch note : string) (t : Z) (s : Catalog) : Release * Catalog :=
  let r := mkRelease (rel_seq s) version sha url goos goarch StatusCandidate note t in (r, set_rels (rels s ++ [r]) (rel_seq s + 1) s).

Definition Add (version goos goarch sha256 url note : string) : RM Release :=
  let version := TrimSpace version in
  let sha := ToLower (TrimSpace sha256) in
  let url := TrimSpace url in
  let '(goos, goarch) := normArch goos goarch in
  if bool_decide (version = "") || bool_decide (sha = "") || bool_decide (url = "") then throw RL_Invalid
  else if bad_sha sha then throw RL_Invalid
  else t ← now; exec (insert_release version sha url goos goarch note t).

(** A failed read is as no row. *)
Definition Get (gen : Z) : RM (option Release) :=
  r ← attempt (query (fun s => find_first (fun r => rl_Gen r =? gen) (rels s)));
  mret (match r with Ok r => r | Err _ => None end).

Definition same_arch (a b : string * string) : bool := bool_decide (a = b).
Definition rl_arch (r : Release) : string * string := normArch (rl_GOOS r) (rl_GOARCH r).

Definition art_key (gen : Z) (arch : string * string) (a : Artifact) : bool :=
  (ar_Gen a =? gen) && bool_decide (ar_GOOS a = arch.1) && bool_decide (ar_GOARCH a = arch.2).

(** UNIQUE(version_id, goos, goarch) *)
Definition insert_artifact (gen : Z) (arch : string * string) (sha url : string) (t : Z) (s : Catalog) : result rlerr (Artifact * Catalog) :=
  if existsb (art_key gen arch) (arts s) then Err RL_Duplicated
  else let a := mkArtifact (art_seq s) gen arch.1 arch.2 sha url t in Ok (a, set_arts (arts s ++ [a]) (art_seq s + 1) s).

Definition AddArtifact (gen : Z) (goos goarch sha256 url : string) : RM Artifact :=
  let sha := ToLower (TrimSpace sha256) in
  let url := TrimSpace url in
  let arch := normArch goos goarch in
  if bool_decide (sha = "") || bool_decide (url = "") then throw RL_Invalid
  else if bad_sha sha then throw RL_Invalid
  else
    r ← Get gen;
    match r with
    | None => throw RL_Invalid
    | Some r =>
        if same_arch arch (rl_arch r) then throw RL_Invalid
        else t ← now; exec_err (insert_artifact gen arch sha url t)
    end.

Definition arch_le (a b : Artifact) : Prop :=
  ar_GOOS a = ar_GOOS b /\ string_le (ar_GOARCH a) (ar_GOARCH b) \/ ar_GOOS a <> ar_GOOS b /\ string_le (ar_GOOS a) (ar_GOOS b).
#[export] Instance arch_le_dec a b : Decision (arch_le a b).
Proof. unfold arch_le. apply _. Defined.

Definition Artifacts (gen : Z) : RM (list Artifact) := query (fun s => merge_sort arch_le (List.filter (fun a => ar_Gen a =? gen) (arts s))).

(** The platform of a host: its issued enrollment with the largest id. *)
Definition issued_host (ip : string) (e : EArch) : bool := bool_decide (ea_IP e = ip) && bool_decide (ea_Status e = "issued").
Definition later_host (ip : string) (acc : option EArch) (e : EArch) : option EArch :=
  if issued_host ip e then match acc with Some a => if ea_ID a <? ea_ID e then Some e else acc | None => Some e end else acc.
Definition archOf (ip : string) (l : list EArch) : string * string :=
  match fold_left (later_host ip) l None with Some e => normArch (ea_GOOS e) (ea_GOARCH e) | None => (DefaultGOOS, DefaultGOARCH) end.

Definition ServableFleet (gen : Z) (ips : list string) : RM (list string * list ExcludedHost) :=
  r ← Get gen;
  match r with
  | None => throw RL_NoGeneration
  | Some r =>
      as_ ← Artifacts gen;
      let set := rl_arch r :: map (fun a => normArch (ar_GOOS a) (ar_GOARCH a)) as_ in
      hs ← (if decide (ips = []) then mret [] else query hosts);
      let ok ip := bool_decide (archOf ip hs ∈ set) in
      mret (List.filter ok ips, map (fun ip => mkExcluded ip (archOf ip hs).1 (archOf ip hs).2) (List.filter (fun ip => negb (ok ip)) ips))
  end.

Definition ListReleases : RM (list Release) := query (fun s => rev (rels s)).

Definition Lookup (gen : Z) (goos goarch : string) : RM (option (string * string * string)) :=
  r ← Get gen;
  match r with
  | None => mret None
  | Some r =>
      let arch := normArch goos goarch in
      if same_arch arch (rl_arch r) then mret (Some (rl_Version r, rl_SHA256 r, rl_URL r))
      else
        a ← attempt (query (fun s => find_first (art_key gen arch) (arts s)));
        mret (match a with Ok (Some a) => Some (rl_Version r, ar_SHA256 a, ar_URL a) | _ => None end)
  end.

(** The largest generation of the rows with a digest, 0 without any. *)
Definition max_gen {A} (f : A -> bool) (g : A -> Z) (l : list A) : Z := foldr (fun x acc => if f x then Z.max (g x) acc else acc) 0 l.

Definition GenForSHA (sha256 : string) : RM Z :=
  let sha := ToLower (TrimSpace sha256) in
  if decide (sha = "") then mret 0
  else
    r ← attempt (query (fun s => max_gen (fun r => bool_decide (rl_SHA256 r = sha)) rl_Gen (rels s)));
    let gen := match r with Ok g => g | Err _ => 0 end in
    a ← attempt (query (fun s => max_gen (fun a => bool_decide (ar_SHA256 a = sha)) ar_Gen (arts s)));
    mret (match a with Ok g => if gen <? g then g else gen | Err _ => gen end).

Definition GenForVersion (version : string) : RM Z :=
  let v := TrimSpace version in
  if decide (v = "") then mret 0
  else
    r ← attempt (query (fun s => max_gen (fun r => bool_decide (rl_Version r = v)) rl_Gen (rels s)));
    mret (match r with Ok g => g | Err _ => 0 end).

Definition with_rstatus (st : string) (r : Release) : Release :=
  mkRelease (rl_Gen r) (rl_Version r) (rl_SHA256 r) (rl_URL r) (rl_GOOS r) (rl_GOARCH r) st (rl_Note r) (rl_CreatedAt r).
Definition update_status (f : Release -> bool) (st : string) (s : Catalog) : Catalog :=
  set_rels (map (fun r => if f r then with_rstatus st r else r) (rels s)) (rel_seq s) s.

Definition MarkCurrent (gen : Z) : RM unit :=
  tx (_ ← exec (fun s => ((), update_status (fun r => bool_decide (rl_Status r = StatusCurrent) && negb (rl_Gen r =? gen)) StatusSuperseded s));
      exec (fun s => ((), update_status (fun r => rl_Gen r =? gen) StatusCurrent s))).
End NebulaRelease.

Module PilotRelease.
Definition normArch := NebulaRelease.normArch.
Definition isHex := NebulaRelease.isHex.
Definition Add := NebulaRelease.Add.
Definition AddArtifact := NebulaRelease.AddArtifact.
Definition Artifacts := NebulaRelease.Artifacts.
Definition ServableFleet := NebulaRelease.ServableFleet.
Definition ListReleases := NebulaRelease.ListReleases.
Definition Get := NebulaRelease.Get.
Definition Lookup := NebulaRelease.Lookup.
Definition GenForSHA := NebulaRelease.GenForSHA.
Definition MarkCurrent := NebulaRelease.MarkCurrent.
End PilotRelease.

Import NebulaRelease.

(** ** The catalog invariant *)

(** A digest as [Add] stores it. *)
Definition good_sha (sha : string) : Prop := bad_sha sha = false /\ sha <> "".
Definition normal (arch : string * string) : Prop := normArch arch.1 arch.2 = arch.
Definition ar_arch (a : Artifact) : string * string := (ar_GOOS a, ar_GOARCH a).

Record cat_inv (s : Catalog) : Prop := mkCatInv {
  ci_gens : NoDup (map rl_Gen (rels s));
  ci_seq : 1 <= rel_seq s /\ forall r, r ∈ rels s -> 1 <= rl_Gen r < rel_seq s;
  ci_rels : forall r, r ∈ rels s -> good_sha (rl_SHA256 r) /\ normal (rl_GOOS r, rl_GOARCH r);
  ci_arts : forall a, a ∈ arts s -> good_sha (ar_SHA256 a) /\ normal (ar_arch a) /\ exists r, r ∈ rels s /\ rl_Gen r = ar_Gen a /\ rl_arch r <> ar_arch a;
  ci_keys : NoDup (map (fun a => (ar_Gen a, ar_arch a)) (arts s));
  ci_current : forall r r', r ∈ rels s -> r' ∈ rels s -> rl_Status r = StatusCurrent -> rl_Status r' = StatusCurrent -> rl_Gen r = rl_Gen r';
}.

(** What a process may do to the catalog. *)
Inductive cat_step (s s' : Catalog) : Prop :=
| ct_add version sha url arch note t : good_sha sha -> normal arch ->
    s' = (insert_release version sha url arch.1 arch.2 note t s).2 -> cat_step s s'
| ct_artifact gen arch sha url t a r : good_sha sha -> normal arch -> r ∈ rels s -> rl_Gen r = gen -> rl_arch r <> arch ->
    insert_artifact gen arch sha url t s = Ok (a, s') -> cat_step s s'
| ct_mark gen : s' = update_status (fun r => rl_Gen r =? gen) StatusCurrent
      (update_status (fun r => bool_decide (rl_Status r = StatusCurrent) && negb (rl_Gen r =? gen)) StatusSuperseded s) -> cat_step s s'
| ct_hosts l : s' = mkCatalog (rels s) (rel_seq s) (arts s) (art_seq s) l -> cat_step s s'.

(** ** Normalised platforms *)

Lemma lower_space c : is_space (lower_char c) = is_space c.
Proof. destruct c as [[] [] [] [] [] [] [] []]; reflexivity. Qed.
Lemma lower_lower c : lower_char (lower_char c) = lower_char c.
Proof. destruct c as [[] [] [] [] [] [] [] []]; reflexivity. Qed.

Lemma ToLower_idem s : ToLower (ToLower s) = ToLower s.
Proof. induction s as [|c s IH]; cbn; [done|]. by rewrite lower_lower, IH. Qed.
Lemma TrimLeft_lower s : TrimLeft (ToLower s) = ToLower (TrimLeft s).
Proof. induction s as [|c s IH]; cbn; [done|]. rewrite lower_space. by destruct (is_space c). Qed.
Lemma TrimRight_lower s : TrimRight (ToLower s) = ToLower (TrimRight s).
Proof. induction s as [|c s IH]; cbn; [done|]. rewrite IH, lower_space. destruct (TrimRight s); cbn; [by destruct (is_space c)|done]. Qed.

Lemma normal_string s d : ToLower (TrimSpace d) = d -> or_dflt (ToLower (TrimSpace (or_dflt (ToLower (TrimSpace s)) d))) d = or_dflt (ToLower (TrimSpace s)) d.
Proof.
  intros Hd. unfold or_dflt at 2 3. destruct (decide (ToLower (TrimSpace s) = "")) as [|Hne]; [rewrite Hd; unfold or_dflt; by destruct (decide _)|].
  assert (Hs : ToLower (TrimSpace (ToLower (TrimSpace s))) = ToLower (TrimSpace s)).
  { unfold TrimSpace at 1. rewrite TrimLeft_lower, TrimRight_lower, ToLower_idem. fold (TrimSpace (TrimSpace s)). by rewrite TrimSpace_idem. }
  rewrite Hs. unfold or_dflt. by rewrite decide_False.
Qed.

Lemma normArch_normal goos goarch : normal (normArch goos goarch).
Proof. unfold normal, normArch. cbn [fst snd]. f_equal; by apply normal_string. Qed.

(** ** The invariant is kept *)

Lemma status_fields (b : bool) st r : rl_Gen (if b then with_rstatus st r else r) = rl_Gen r /\ rl_SHA256 (if b then with_rstatus st r else r) = rl_SHA256 r /\
  rl_GOOS (if b then with_rstatus st r else r) = rl_GOOS r /\ rl_GOARCH (if b then with_rstatus st r else r) = rl_GOARCH r.
Proof. by destruct b. Qed.

Lemma update_gens f st s : map rl_Gen (rels (update_status f st s)) = map rl_Gen (rels s).
Proof. cbn. rewrite map_map. apply map_ext. intros r. by destruct (f r). Qed.

(** Every part but the last, under any change of statuses. *)
Lemma update_inv f st s : cat_inv s ->
  (forall r r', r ∈ rels (update_status f st s) -> r' ∈ rels (update_status f st s) -> rl_Status r = StatusCurrent -> rl_Status r' = StatusCurrent -> rl_Gen r = rl_Gen r') ->
  cat_inv (update_status f st s).
Proof.
  intros [Hg [Hs1 Hs] Hr Ha Hk _] Hc. split; [by rewrite update_gens|split; [done|]| | |done|exact Hc].
  - intros r (x & -> & Hx)%list_elem_of_fmap. destruct (status_fields (f x) st x) as (-> & _). by apply Hs.
  - intros r (x & -> & Hx)%list_elem_of_fmap. destruct (status_fields (f x) st x) as (_ & -> & -> & ->). by apply Hr.
  - intros a Hin. destruct (Ha a Hin) as (H1 & H2 & x & Hx & Hgen & Hne). split_and!; [done|done|]. exists (if f x then with_rstatus st x else x).
    split; [apply list_elem_of_fmap; by exists x|]. unfold rl_arch. destruct (status_fields (f x) st x) as (-> & _ & -> & ->). by split.
Qed.

Lemma mark_current gen s r : r ∈ rels (update_status (fun r => rl_Gen r =? gen) StatusCurrent
    (update_status (fun r => bool_decide (rl_Status r = StatusCurrent) && negb (rl_Gen r =? gen)) StatusSuperseded s)) ->
  (rl_Status r = StatusCurrent <-> rl_Gen r = gen).
Proof.
  intros (y & -> & (x & -> & Hx)%list_elem_of_fmap)%list_elem_of_fmap.
  destruct (bool_decide (rl_Status x = StatusCurrent)) eqn:E1; cbn [andb]; [destruct (rl_Gen x =? gen) eqn:E2; cbn [negb]|]; cbn.
  - rewrite E2. cbn. by bool_split.
  - rewrite E2. cbn. bool_split. done.
  - destruct (rl_Gen x =? gen) eqn:E2; cbn; bool_split; done.
Qed.

Lemma cat_step_inv s s' : cat_step s s' -> cat_inv s -> cat_inv s'.
Proof.
  intros [version sha url arch note t Hsha Hn ->|gen arch sha url t a r Hsha Hn Hr Hgen Hne Hins|gen ->|l ->] Hi.
  - destruct Hi as [Hg [Hs1 Hs] Hr Ha Hk Hc]. cbn. set (row := mkRelease _ _ _ _ _ _ _ _ _). split; cbn.
    + rewrite map_app. apply NoDup_app. split_and!; [done| |apply NoDup_singleton]. intros g (x & -> & Hx)%list_elem_of_fmap Hg2%list_elem_of_singleton.
      specialize (Hs x Hx). cbn in Hg2. lia.
    + split; [lia|]. intros x [Hx| ->%list_elem_of_singleton]%elem_of_app; [specialize (Hs x Hx); lia|cbn; lia].
    + intros x [Hx| ->%list_elem_of_singleton]%elem_of_app; [by apply Hr|]. split; [done|]. by destruct arch.
    + intros a Hin. destruct (Ha a Hin) as (? & ? & x & Hx & ?). split_and!; [done|done|]. exists x. split; [apply elem_of_app; by left|done].
    + done.
    + intros x x' [Hx| ->%list_elem_of_singleton]%elem_of_app [Hx'| ->%list_elem_of_singleton]%elem_of_app; intros H1 H2; [by apply Hc|discriminate H2|discriminate H1|done].
  - unfold insert_artifact in Hins. destruct (existsb _ _) eqn:Ek; [done|]. injection Hins as <- <-. destruct Hi as [Hg Hs Hrs Ha Hk Hc]. split; cbn; try done.
    + intros b [Hb| ->%list_elem_of_singleton]%elem_of_app; [by apply Ha|]. split_and!; [done|by destruct arch|]. exists r. split_and!; [done|done|by destruct arch].
    + rewrite map_app. apply NoDup_app. split_and!; [done| |apply NoDup_singleton]. intros k (x & -> & Hx)%list_elem_of_fmap Hk2%list_elem_of_singleton.
      eapply existsb_elem_false in Ek; [|exact Hx]. unfold art_key in Ek. unfold ar_arch in Hk2. cbn in Hk2. injection Hk2 as H1 H2 H3.
      rewrite H1, H2, H3, Z.eqb_refl, !bool_decide_eq_true_2 in Ek by done. done.
  - apply update_inv; [apply update_inv; [done|]|].
    + intros r r' (x & -> & Hx)%list_elem_of_fmap (y & -> & Hy)%list_elem_of_fmap.
      destruct (bool_decide (rl_Status x = StatusCurrent) && negb (rl_Gen x =? gen)), (bool_decide (rl_Status y = StatusCurrent) && negb (rl_Gen y =? gen));
        cbn; intros H1 H2; [discriminate H1|discriminate H1|discriminate H2|by apply (ci_current _ Hi)].
    + intros r r' H1 H2 H3 H4. apply mark_current in H1, H2. destruct H1 as [H1 _], H2 as [H2 _]. by rewrite H1, H2.
  - destruct Hi. by split.
Qed.

(** ** The operations *)

Section operations.
Context (T : Z -> Prop).
Abbreviation R := (rtc cat_step).

Lemma inv_steps s s' : R s s' -> cat_inv s -> cat_inv s'.
Proof. apply rtc_invariant, cat_step_inv. Qed.

(** A release stays, apart from its status. *)
Lemma release_stays s s' r : R s s' -> r ∈ rels s -> exists r', r' ∈ rels s' /\ rl_Gen r' = rl_Gen r /\ rl_arch r' = rl_arch r.
Proof.
  intros Hs Hr. apply (rtc_invariant _ (fun s => exists r', r' ∈ rels s /\ rl_Gen r' = rl_Gen r /\ rl_arch r' = rl_arch r)) with (2 := Hs); [|by exists r].
  clear. intros a b Hst (x & Hx & Hg & Ha). destruct Hst as [? ? ? ? ? ? _ _ ->|? ? ? ? ? ? ? _ _ _ _ _ Hins|gen ->|l ->].
  - exists x. split; [apply elem_of_app; by left|done].
  - unfold insert_artifact in Hins. destruct (existsb _ _); [done|]. injection Hins as _ <-. by exists x.
  - exists (let y := if bool_decide (rl_Status x = StatusCurrent) && negb (rl_Gen x =? gen) then with_rstatus StatusSuperseded x else x in
            if rl_Gen y =? gen then with_rstatus StatusCurrent y else y).
    split; [|cbn; destruct (_ && _); cbn; by destruct (rl_Gen x =? gen)]. cbn. apply list_elem_of_fmap. eexists. split; [reflexivity|]. apply list_elem_of_fmap. by exists x.
  - by exists x.
Qed.

Lemma good_sha_of sha : bool_decide (sha = "") = false -> bad_sha sha = false -> good_sha sha.
Proof. intros H1%bool_decide_eq_false H2. by split. Qed.

(** The catalog stays consistent. Under any faults and any other processes that
    register, extend and mark releases, [Add], [AddArtifact] and [MarkCurrent] take only
    steps of the catalog and keep its invariant: generations are unique and below the next
    one, digests are 64 lower-case hexadecimal digits, platforms are normalised, an artifact
    belongs to a release, names another platform than its default, and is the only one for
    its platform, and at most one release is current. A successful mark makes exactly its
    generation current. *)
Theorem catalog_stays_consistent s : cat_inv s ->
  (forall version os arch sha url note, wpt T R cat_step (Add version os arch sha url note) (fun _ s' => cat_inv s') s) /\
  (forall gen os arch sha url, wpt T R cat_step (AddArtifact gen os arch sha url) (fun _ s' => cat_inv s') s) /\
  (forall gen, wpt T R cat_step (MarkCurrent gen) (fun res s' => cat_inv s' /\
     (res = Ok () -> forall r, r ∈ rels s' -> rl_Status r = StatusCurrent <-> rl_Gen r = gen)) s).
Proof.
  intros Hi. split_and!; intros.
  - unfold Add. destruct (normArch os arch) as [os' arch'] eqn:En. destruct (_ || _) eqn:E1; [by wp_step|]. destruct (bad_sha _) eqn:E2; [by wp_step|].
    apply orb_false_iff in E1 as [[_ E1]%orb_false_iff _]. wp_step. wp_step. apply wp_exec. intros s1 H1. apply inv_steps in H1; [|done]. split; [done|].
    destruct (insert_release _ _ _ _ _ _ _ _) as [row s2] eqn:Er.
    assert (Hst : cat_step s1 s2). { apply (ct_add _ _ (TrimSpace version) (ToLower (TrimSpace sha)) (TrimSpace url) (os', arch') note t); [by apply good_sha_of| |cbn [fst snd]; by rewrite Er].
      rewrite <- En. apply normArch_normal. }
    split; [done|]. by eapply cat_step_inv.
  - unfold AddArtifact. destruct (_ || _) eqn:E1; [by wp_step|]. destruct (bad_sha _) eqn:E2; [by wp_step|]. apply orb_false_iff in E1 as [E1 _].
    wp_step. unfold Get. wp_step. wp_step. apply wp_query. intros s1 H1. apply inv_steps in H1; [|done]. split; [wp_step; by wp_step|]. wp_step.
    destruct (find_first _ _) as [r|] eqn:Er; [|by wp_step]. apply find_first_Some in Er as [Hr Hg%Z.eqb_eq]. destruct (same_arch _ _) eqn:Ea; [by wp_step|].
    apply bool_decide_eq_false in Ea. wp_step. wp_step. apply wp_exec_err. intros s2 H2. pose proof (inv_steps _ _ H2 H1) as Hi2. split; [done|].
    destruct (insert_artifact _ _ _ _ _ _) as [[a s3]|e] eqn:Ei; [|done]. destruct (release_stays _ _ r H2 Hr) as (r' & Hr' & Hg' & Ha').
    assert (Hst : cat_step s2 s3). { eapply (ct_artifact _ _ gen (normArch os arch) _ _ _ a r'); [by apply good_sha_of|apply normArch_normal|done|congruence|congruence|exact Ei]. }
    split; [done|]. by eapply cat_step_inv.
  - unfold MarkCurrent. apply wp_tx. intros s1 H1. apply inv_steps in H1; [|done]. split; [done|]. wp_step. wp_step; [done|]. split; [done|]. wp_step; [done|].
    split; [done|]. set (s2 := update_status _ StatusCurrent _). assert (Hst : cat_step s1 s2) by by apply (ct_mark _ _ gen). split; [done|].
    split; [by eapply cat_step_inv|]. intros _ r. apply mark_current.
Qed.
End operations.

(** ** Platforms: the catalog and Core agree *)

Lemma Get_run t gen s : run t (Get gen) s = (Ok (find_first (fun r => rl_Gen r =? gen) (rels s)), s).
Proof. done. Qed.

Lemma Lookup_run t gen os arch s : run t (Lookup gen os arch) s =
  (Ok (match find_first (fun r => rl_Gen r =? gen) (rels s) with
       | None => None
       | Some r => if same_arch (normArch os arch) (rl_arch r) then Some (rl_Version r, rl_SHA256 r, rl_URL r)
                   else match find_first (art_key gen (normArch os arch)) (arts s) with Some a => Some (rl_Version r, ar_SHA256 a, ar_URL a) | None => None end
       end), s).
Proof.
  unfold run, Lookup, Get, mbind, M_bind, attempt, query. cbn. destruct (find_first _ (rels s)) as [r|]; cbn; [|done]. destruct (same_arch _ _); cbn; [done|].
  by destruct (find_first _ (arts s)).
Qed.

(** A host is staged exactly when its binary exists. In a consistent catalog, for a
    registered generation: [ServableFleet] splits the given hosts, keeping their order, and a
    host is servable if and only if [Lookup], for the platform of the host's newest issued
    enrollment, the one Core stamps bundles by, answers with an artifact. *)
Theorem servable_iff_lookup t gen ips s : cat_inv s -> is_Some (find_first (fun r => rl_Gen r =? gen) (rels s)) ->
  exists sv ex, run t (ServableFleet gen ips) s = (Ok (sv, ex), s) /\
    sv = List.filter (fun ip => bool_decide (ip ∈ sv)) ips /\ map ex_IP ex = List.filter (fun ip => negb (bool_decide (ip ∈ sv))) ips /\
    forall ip os arch, ip ∈ ips -> normArch os arch = archOf ip (hosts s) -> (ip ∈ sv <-> exists v, run t (Lookup gen os arch) s = (Ok (Some v), s)).
Proof.
  intros Hi [r Hr]. set (set_ := rl_arch r :: map (fun a => normArch (ar_GOOS a) (ar_GOARCH a)) (merge_sort arch_le (List.filter (fun a => ar_Gen a =? gen) (arts s)))).
  set (ok := fun ip => bool_decide (archOf ip (hosts s) ∈ set_)).
  assert (Hrun : run t (ServableFleet gen ips) s = (Ok (List.filter ok ips, map (fun ip => mkExcluded ip (archOf ip (hosts s)).1 (archOf ip (hosts s)).2) (List.filter (fun ip => negb (ok ip)) ips)), s)).
  { unfold run, ServableFleet, Get, Artifacts, mbind, M_bind, attempt, query. cbn. rewrite Hr. cbn. by destruct (decide (ips = [])) as [->|]. }
  assert (Hmem : forall ip, ip ∈ ips -> bool_decide (ip ∈ List.filter ok ips) = ok ip).
  { intros ip Hip. destruct (ok ip) eqn:E; [apply bool_decide_eq_true|apply bool_decide_eq_false]; rewrite list_elem_of_In, filter_In, <- list_elem_of_In; [by split|]. intros [_ ?]. congruence. }
  exists (List.filter ok ips), (map (fun ip => mkExcluded ip (archOf ip (hosts s)).1 (archOf ip (hosts s)).2) (List.filter (fun ip => negb (ok ip)) ips)).
  split; [exact Hrun|]. split_and!.
  - apply filter_ext_in. intros ip Hip%list_elem_of_In. symmetry. by apply Hmem.
  - rewrite map_map, map_id. apply filter_ext_in. intros ip Hip%list_elem_of_In. by rewrite Hmem.
  - intros ip os arch Hip Harch. rewrite Lookup_run, Hr, list_elem_of_In, filter_In, <- list_elem_of_In. unfold ok. rewrite bool_decide_eq_true, <- Harch.
    unfold set_. rewrite elem_of_cons, list_elem_of_fmap. unfold same_arch. destruct (bool_decide (normArch os arch = rl_arch r)) eqn:E.
    + apply bool_decide_eq_true in E. split; [intros _; by eexists|intros _; split; [done|by left]].
    + apply bool_decide_eq_false in E. split.
      * intros [_ [?|(a & Ha & Hin)]]; [done|]. rewrite merge_sort_Permutation in Hin. apply list_elem_of_In, filter_In in Hin as [Hin%list_elem_of_In Hg].
        destruct (ci_arts _ Hi a Hin) as (_ & Hn & _). unfold normal in Hn. cbn in Hn. unfold ar_arch in Hn. rewrite Hn in Ha.
        destruct (find_first_is_Some (art_key gen (normArch os arch)) (arts s) a) as [b ->]; [done| |by eexists].
        unfold art_key. rewrite Hg, Ha. cbn. by rewrite !bool_decide_eq_true_2.
      * intros [v Hv]. split; [done|]. right. destruct (find_first (art_key gen _) (arts s)) as [a|] eqn:Ea; [|discriminate Hv].
        apply find_first_Some in Ea as [Hin Hk]. unfold art_key in Hk. apply andb_true_iff in Hk as [[Hg H1%bool_decide_eq_true]%andb_true_iff H2%bool_decide_eq_true].
        exists a. split; [|rewrite merge_sort_Permutation; apply list_elem_of_In, filter_In; split; [by apply list_elem_of_In|done]].
        rewrite H1, H2. symmetry. apply normArch_normal.
Qed.

(** ** Digests name generations *)

Lemma hex_char_plain c : hex_char c = true -> is_space c = false /\ lower_char c = c.
Proof. destruct c as [[] [] [] [] [] [] [] []]; vm_compute; by intros. Qed.

Lemma hex_trim s : isHex s = true -> TrimSpace s = s.
Proof.
  unfold isHex, TrimSpace. intros H. assert (Hl : TrimLeft s = s).
  { destruct s as [|c s]; [done|]. cbn in H. apply andb_true_iff in H as [Hc _]. cbn. by destruct (hex_char_plain c Hc) as [-> _]. }
  rewrite Hl. clear Hl. induction s as [|c s IH]; [done|]. cbn in H. apply andb_true_iff in H as [Hc H]. cbn. rewrite (IH H).
  destruct s; [by destruct (hex_char_plain c Hc) as [-> _]|done].
Qed.

Lemma hex_plain s : isHex s = true -> ToLower (TrimSpace s) = s.
Proof.
  intros H. rewrite hex_trim by done. unfold isHex in H. induction s as [|c s IH]; [done|]. cbn in H. apply andb_true_iff in H as [Hc H]. cbn. rewrite (IH H). by destruct (hex_char_plain c Hc) as [_ ->].
Qed.

Lemma max_gen_ge {A} (f : A -> bool) g l x : x ∈ l -> f x = true -> g x <= max_gen f g l.
Proof.
  induction l as [|y l IH]; intros Hx Hf; [by apply elem_of_nil in Hx|]. apply elem_of_cons in Hx as [->|Hx]; cbn; [rewrite Hf; lia|].
  specialize (IH Hx Hf). unfold max_gen in IH. destruct (f y); lia.
Qed.
Lemma max_gen_in {A} (f : A -> bool) g l : max_gen f g l = 0 \/ exists x, x ∈ l /\ f x = true /\ max_gen f g l = g x.
Proof.
  induction l as [|y l IH]; cbn; [by left|]. destruct (f y) eqn:E; [|destruct IH as [?|(x & ? & ? & ?)]; [by left|right; exists x; split_and!; [by right|done|done]]].
  destruct (Z.max_spec (g y) (max_gen f g l)) as [[Hlt Hm]|[Hle Hm]]; unfold max_gen in *; rewrite Hm.
  - destruct IH as [H0|(x & ? & ? & ?)]; [left; lia|right; exists x; split_and!; [by right|done|lia]].
  - right. exists y. split_and!; [by left|done|done].
Qed.

(** A generation ships a digest. *)
Definition ships (s : Catalog) (gen : Z) (sha : string) : Prop :=
  (exists r, r ∈ rels s /\ rl_Gen r = gen /\ rl_SHA256 r = sha) \/ (exists a, a ∈ arts s /\ ar_Gen a = gen /\ ar_SHA256 a = sha).

Lemma GenForSHA_run t sha s : good_sha sha -> exists g, run t (GenForSHA sha) s = (Ok g, s) /\ (forall gen, ships s gen sha -> gen <= g) /\ (g = 0 \/ ships s g sha).
Proof.
  intros [Hbad Hne]. assert (Hsha : ToLower (TrimSpace sha) = sha). { apply hex_plain. unfold bad_sha in Hbad. by apply orb_false_iff in Hbad as [_ ?%negb_false_iff]. }
  set (g1 := max_gen (fun r => bool_decide (rl_SHA256 r = sha)) rl_Gen (rels s)). set (g2 := max_gen (fun a => bool_decide (ar_SHA256 a = sha)) ar_Gen (arts s)).
  exists (if g1 <? g2 then g2 else g1). split; [unfold run, GenForSHA; rewrite Hsha, decide_False by done; done|].
  assert (H1 : forall r, r ∈ rels s -> rl_SHA256 r = sha -> rl_Gen r <= g1) by (intros r Hr Hs; apply max_gen_ge; [done|by apply bool_decide_eq_true]).
  assert (H2 : forall a, a ∈ arts s -> ar_SHA256 a = sha -> ar_Gen a <= g2) by (intros a Ha Hs; apply max_gen_ge; [done|by apply bool_decide_eq_true]).
  split.
  - intros gen [(r & Hr & <- & Hs)|(a & Ha & <- & Hs)]; [specialize (H1 r Hr Hs)|specialize (H2 a Ha Hs)]; destruct (Z.ltb_spec g1 g2); lia.
  - destruct (Z.ltb_spec g1 g2).
    + destruct (max_gen_in (fun a => bool_decide (ar_SHA256 a = sha)) ar_Gen (arts s)) as [?|(a & Ha & Hs%bool_decide_eq_true & Hg)]; [by left|]. right. right. by exists a.
    + destruct (max_gen_in (fun r => bool_decide (rl_SHA256 r = sha)) rl_Gen (rels s)) as [?|(r & Hr & Hs%bool_decide_eq_true & Hg)]; [by left|]. right. left. by exists r.
Qed.

(** The digest a host reports leads back to its generation. In a consistent catalog, if
    [Lookup] hands a host of some platform an artifact of a generation, then the artifact's
    digest is 64 hexadecimal digits, and [GenForSHA] maps it to the newest generation that
    ships this digest: never an older one, and exactly the generation of the lookup when no
    newer one ships the same binary. *)
Theorem digest_names_its_generation t gen os arch v sha url s : cat_inv s -> run t (Lookup gen os arch) s = (Ok (Some (v, sha, url)), s) ->
  good_sha sha /\ ships s gen sha /\ exists g, run t (GenForSHA sha) s = (Ok g, s) /\ gen <= g /\ ships s g sha /\ ((forall g', gen < g' -> ~ ships s g' sha) -> g = gen).
Proof.
  intros Hi. rewrite Lookup_run. intros H. destruct (find_first _ (rels s)) as [r|] eqn:Er; [|discriminate H]. apply find_first_Some in Er as [Hr Hg%Z.eqb_eq].
  assert (Hsh : good_sha sha /\ ships s gen sha).
  { destruct (same_arch _ _).
    - injection H as <- <- <-. split; [by apply (ci_rels _ Hi)|]. left. by exists r.
    - destruct (find_first (art_key _ _) _) as [a|] eqn:Ea; [|discriminate H]. injection H as <- <- <-. apply find_first_Some in Ea as [Ha Hk].
      split; [by apply (ci_arts _ Hi)|]. right. exists a. unfold art_key in Hk. apply andb_true_iff in Hk as [[Hk%Z.eqb_eq _]%andb_true_iff _]. done. }
  destruct Hsh as [Hgood Hsh]. split; [done|]. split; [done|]. destruct (GenForSHA_run t sha s Hgood) as (g & Hrun & Hge & Hin). exists g. specialize (Hge gen Hsh) as Hle.
  assert (Hgs : ships s g sha). { destruct Hin as [->|]; [|done]. exfalso. destruct (ci_seq _ Hi) as [_ Hs]. specialize (Hs r Hr). lia. }
  split_and!; [done|done|done|]. intros Hno. destruct (decide (gen < g)) as [Hlt|]; [by destruct (Hno g Hlt)|lia].
Qed.

(** ** Two generations *)

Definition sha_a : string := "aaaaaaaaaaaaaaaaaaaaaaaaaaaaaaaaaaaaaaaaaaaaaaaaaaaaaaaaaaaaaaaa".
Definition sha_b : string := "bbbbbbbbbbbbbbbbbbbbbbbbbbbbbbbbbbbbbbbbbbbbbbbbbbbbbbbbbbbbbbbb".
Definition sha_c : string := "cccccccccccccccccccccccccccccccccccccccccccccccccccccccccccccccc".
Definition demo_catalog : Catalog :=
  mkCatalog [mkRelease 1 "1.0" sha_a "u1" "linux" "amd64" StatusCurrent "" 0; mkRelease 2 "1.1" sha_b "u2" "linux" "amd64" StatusCandidate "" 0] 3
    [mkArtifact 1 2 "linux" "arm64" sha_c "u3" 0] 2
    [mkEArch 1 "10.0.0.1" "issued" "linux" "amd64"; mkEArch 2 "10.0.0.2" "issued" "Linux" "ARM64"; mkEArch 3 "10.0.0.3" "issued" "darwin" "arm64"].

Lemma demo_catalog_inv : cat_inv demo_catalog.
Proof.
  assert (Hg : forall s, bad_sha s = false -> s <> "" -> good_sha s) by done.
  split; cbn.
  - apply NoDup_cons. split; [by intros ?%list_elem_of_singleton|apply NoDup_singleton].
  - split; [lia|]. intros r Hr. repeat apply elem_of_cons in Hr as [->|Hr]; cbn; try lia. by apply elem_of_nil in Hr.
  - intros r Hr. repeat apply elem_of_cons in Hr as [->|Hr]; [split; vm_compute; by repeat split..|by apply elem_of_nil in Hr].
  - intros a ->%list_elem_of_singleton. split_and!; [by vm_compute|by vm_compute|]. eexists. split; [right; by left|]. split; [done|]. by vm_compute.
  - apply NoDup_singleton.
  - intros r r' Hr Hr'. repeat apply elem_of_cons in Hr as [->|Hr]; [| |by apply elem_of_nil in Hr]; (repeat apply elem_of_cons in Hr' as [->|Hr']; [| |by apply elem_of_nil in Hr']); by vm_compute.
Qed.

Lemma catalog_stays_consistent_witness :
  (run 9 (Add " 1.2 " "" "" sha_a "u" "") demo_catalog).1 = Ok (mkRelease 3 "1.2" sha_a "u" "linux" "amd64" StatusCandidate "" 9) /\
  (run 9 (AddArtifact 2 "LINUX" " arm64" sha_b "u") demo_catalog).1 = Err RL_Duplicated /\
  forall gen, wpt (fun _ => True) (rtc cat_step) cat_step (MarkCurrent gen) (fun res s' => cat_inv s' /\
    (res = Ok () -> forall r, r ∈ rels s' -> rl_Status r = StatusCurrent <-> rl_Gen r = gen)) demo_catalog.
Proof.
  split; [vm_compute; reflexivity|]. split; [vm_compute; reflexivity|].
  apply (catalog_stays_consistent (fun _ => True) demo_catalog demo_catalog_inv).
Defined.

Lemma servable_iff_lookup_witness :
  (run 9 (ServableFleet 2 ["10.0.0.3"; "10.0.0.2"; "10.0.0.9"]) demo_catalog).1 = Ok (["10.0.0.2"; "10.0.0.9"], [mkExcluded "10.0.0.3" "darwin" "arm64"]) /\
  exists sv ex, run 9 (ServableFleet 2 ["10.0.0.3"; "10.0.0.2"]) demo_catalog = (Ok (sv, ex), demo_catalog) /\ ("10.0.0.2" ∈ sv <-> exists v, run 9 (Lookup 2 "Linux" "ARM64") demo_catalog = (Ok (Some v), demo_catalog)).
Proof.
  split; [vm_compute; reflexivity|].
  destruct (servable_iff_lookup 9 2 ["10.0.0.3"; "10.0.0.2"] demo_catalog demo_catalog_inv ltac:(vm_compute; by eexists)) as (sv & ex & Hrun & _ & _ & Hsv).
  exists sv, ex. split; [exact Hrun|]. apply (Hsv "10.0.0.2" "Linux" "ARM64"); [right; by left|vm_compute; reflexivity].
Defined.

Lemma digest_names_its_generation_witness :
  (run 9 (GenForSHA sha_c) demo_catalog).1 = Ok 2 /\
  exists g, run 9 (GenForSHA sha_c) demo_catalog = (Ok g, demo_catalog) /\ 2 <= g.
Proof.
  split; [vm_compute; reflexivity|].
  destruct (digest_names_its_generation 9 2 "linux" "arm64" "1.1" sha_c "u3" demo_catalog demo_catalog_inv ltac:(vm_compute; reflexivity)) as (_ & _ & g & Hr & Hg & _).
  by exists g.
Defined.

(** Marking an unregistered generation succeeds and leaves no release current. *)
Lemma marking_an_unknown_generation_clears_current :
  let '(res, s') := run 9 (MarkCurrent 7) demo_catalog in res = Ok () /\ List.filter (fun r => bool_decide (rl_Status r = StatusCurrent)) (rels s') = [].
Proof. vm_compute. by split. Qed.
