(* ===== verification/Rbac.v ===== *)
(** * internal/adminapi: authorization

    The permission matrix and the step-up check every mutating handler of the admin API
    starts with (rbac.go), and the replies they write. The theorems give the matrix in
    closed form and what a passed step-up check means. *)

From S2P Require Import Prelude Bytes Db.
From stdpp Require Import prelude strings list.
From Stdlib Require Import ZArith Lia.
Open Scope Z_scope.

Inductive Permission : Type :=
| PermLighthouseManage | PermRolloutControl | PermJoinKeyManage | PermEnrollDecide | PermApprovalDecide
| PermIPAMManage | PermDeviceManage | PermPolicyManage | PermCloudTrustManage | PermUserTrustManage.
#[export] Instance Permission_eq_dec : EqDecision Permission.
Proof. solve_decision. Defined.

Definition RoleAdmin : string := "admin".
Definition RoleOperator : string := "operator".
Definition RoleViewer : string := "viewer".
Definition RoleBreakGlass : string := "break-glass".

Definition operatorPerms : list Permission :=
  [PermLighthouseManage; PermRolloutControl; PermJoinKeyManage; PermEnrollDecide; PermIPAMManage; PermDeviceManage;
   PermPolicyManage; PermCloudTrustManage; PermUserTrustManage].
Definition rolePerms (role : string) (perm : Permission) : bool :=
  if decide (role = RoleOperator) then bool_decide (perm ∈ operatorPerms) else false.

Definition roleHasPerm (role : string) (perm : Permission) : bool :=
  if decide (role = RoleAdmin) then true else rolePerms role perm.

(** [Identity]; [MFAAt] is nil for a session without MFA. *)
Record Identity : Type := mkIdentity { id_Principal : string; id_Roles : list string; id_MFAAt : option Z }.

Definition authorize (id : Identity) (perm : Permission) : bool := existsb (fun role => roleHasPerm role perm) (id_Roles id).

(** What a handler writes: a problem, the step-up challenge, or its own body. *)
Inductive reply (A : Type) : Type :=
| Problem (status : Z) (title : string)
| StepUpRequired
| Reply (status : Z) (body : A).
Arguments Problem {A}. Arguments StepUpRequired {A}. Arguments Reply {A}.

Definition mfaClockSkew : Z := 2 * 60 * 1000000000.

Section guards.
Context {St E : Type}.

Definition requireStepUp (freshness : Z) (id : Identity) : M St E bool :=
  if freshness <=? 0 then mret true
  else match id_MFAAt id with
  | None => mret false
  | Some at_ => t ← now; let age := time_sub t at_ in mret ((- mfaClockSkew <=? age) && (age <=? freshness))
  end.

(** [if !s.requirePerm(...) { return }], then the rest of the handler. *)
Definition requirePerm {A} (id : Identity) (perm : Permission) (k : M St E (reply A)) : M St E (reply A) :=
  if authorize id perm then k else mret (Problem 403 "forbidden").

Definition withStepUp {A} (freshness : Z) (id : Identity) (k : M St E (reply A)) : M St E (reply A) :=
  ok ← requireStepUp freshness id; if ok : bool then k else mret StepUpRequired.
End guards.

(** ** Theorems *)

(** The matrix: an admin may do everything, an operator everything but decide approvals,
    and no other role anything. *)
Theorem authorize_matrix id perm :
  authorize id perm = true <-> RoleAdmin ∈ id_Roles id \/ (RoleOperator ∈ id_Roles id /\ perm <> PermApprovalDecide).
Proof.
  unfold authorize. rewrite existsb_elem. split.
  - intros (role & Hin & H). unfold roleHasPerm, rolePerms in H.
    destruct (decide (role = RoleAdmin)) as [->|]; [by left|]. destruct (decide (role = RoleOperator)) as [->|]; [|done].
    right. split; [done|]. intros ->. by vm_compute in H.
  - intros [Hin|[Hin Hp]]; eexists; (split; [exact Hin|]); [done|].
    unfold roleHasPerm, rolePerms. by destruct perm; try done.
Qed.

(** A session without recent MFA: none at all, or an instant outside the window in either
    direction. *)
Definition mfa_fresh (freshness t : Z) (id : Identity) : Prop :=
  freshness <= 0 \/ exists at_, id_MFAAt id = Some at_ /\ t - freshness <= at_ <= t + mfaClockSkew.

Lemma requireStepUp_wp {St E} T (R G : relation St) freshness id (Q : result E bool -> St -> Prop) s :
  freshness < 2 ^ 63 - 1 ->
  (forall b, (b = true -> freshness <= 0 \/ exists t, T t /\ mfa_fresh freshness t id) -> Q (Ok b) s) ->
  wpt T R G (requireStepUp freshness id) Q s.
Proof.
  intros Hf HQ. unfold requireStepUp. destruct (Z.leb_spec freshness 0); [apply wp_ret, HQ; by left|].
  destruct (id_MFAAt id) as [at_|] eqn:E1; [|apply wp_ret; by apply HQ].
  wp_step. apply wp_now. intros t Ht. apply wp_ret, HQ. intros Hb. bool_split. right. exists t. split; [done|]. right. exists at_. split; [done|].
  unfold time_sub, mfaClockSkew in *. lia.
Qed.

Lemma permitted_wp {St E A} T (R G : relation St) id perm (k : M St E (reply A)) (Q : result E (reply A) -> St -> Prop) s :
  Q (Ok (Problem 403 "forbidden")) s -> (authorize id perm = true -> wpt T R G k Q s) -> wpt T R G (requirePerm id perm k) Q s.
Proof. intros H403 Hk. unfold requirePerm. destruct (authorize id perm) eqn:Ea in |- *; [by apply Hk|by apply wp_ret]. Qed.

(** Every action behind the permission and step-up guards is taken by someone who holds
    the permission, with MFA in the window at a time the clock showed. *)
Lemma guarded_wp {St E A} T (R G : relation St) id perm freshness (k : M St E (reply A)) (Q : result E (reply A) -> St -> Prop) s :
  freshness < 2 ^ 63 - 1 ->
  Q (Ok (Problem 403 "forbidden")) s -> Q (Ok StepUpRequired) s ->
  (authorize id perm = true -> (freshness <= 0 \/ exists t, T t /\ mfa_fresh freshness t id) -> wpt T R G k Q s) ->
  wpt T R G (requirePerm id perm (withStepUp freshness id k)) Q s.
Proof.
  intros Hf H403 Hup Hk. apply permitted_wp; [done|]. intros Ea.
  unfold withStepUp. apply wp_bind, requireStepUp_wp; [done|]. intros [|] Hb; [by apply Hk; auto|by apply wp_ret].
Qed.
