(* ===== verification/DeviceGroups.v ===== *)
(** * internal/adminapi: the groups of a device

    Setting one device's groups (device_groups.go) and the bulk re-group with its dry run,
    live match, dual-control routing and compare-and-set apply (device_regroup_bulk.go),
    over the tables of Core's mesh API: what is written here is what the next renewal signs.
    A groups column is the list its JSON text encodes; the proposal of a dual-control change
    is a service. Text is ASCII: a LIKE wildcard stands for one byte. The comparison of
    letters by LIKE is the database's ([ceq]: exact on Postgres, without case on SQLite). *)

From S2P Require Import Prelude Db Bytes GoStrings Netip Policy AddrStore Nonce Jws Bundle DualControl Revocation Rollout Signer CoreApi CoreSafety Rbac.
From stdpp Require Import prelude strings list relations sorting.
From Stdlib Require Import ZArith Lia Ascii.
Open Scope Z_scope.

Definition regroupMaxSet : nat := 100.
Definition regroupDCThreshold : nat := 25.
Definition regroupSampleMax : nat := 8.

(** ** Group sets *)

Fixpoint norm_go (seen gs : list string) : list string :=
  match gs with
  | [] => []
  | g :: gs =>
      let g := TrimSpace g in
      if bool_decide (g = "") || bool_decide (g ∈ seen) then norm_go seen gs else g :: norm_go (g :: seen) gs
  end.
Definition normGroups (gs : list string) : list string := norm_go [] gs.

Definition sameGroupSet (a b : list string) : bool :=
  let na := normGroups a in let nb := normGroups b in
  if negb (bool_decide (length na = length nb)) then false else forallb (fun g => bool_decide (g ∈ na)) nb.

(** Some element of [a] is missing from [b]. *)
Definition groupsDropped (a b : list string) : bool := existsb (fun g => negb (bool_decide (g ∈ b))) a.

Definition intersect (a b : list string) : list string := filter (fun g => g ∈ b) a.

Definition applyDelta (current add remove replace : list string) (hasReplace : bool) : list string :=
  if hasReplace then normGroups replace else normGroups (filter (fun g => g ∉ remove) (current ++ add)).

(** ** Name patterns *)

Definition star : ascii := "*".
Definition quest : ascii := "?".
Definition percent : ascii := "%".
Definition underscore : ascii := "_".
Definition backslash : ascii := "\".

Fixpoint globToLike (glob : string) : string :=
  match glob with
  | "" => ""
  | String c glob =>
      if decide (c = star) then String percent (globToLike glob)
      else if decide (c = quest) then String underscore (globToLike glob)
      else if bool_decide (c = percent) || bool_decide (c = underscore) || bool_decide (c = backslash) then String backslash (String c (globToLike glob))
      else String c (globToLike glob)
  end.

(** SQL's [LIKE pattern ESCAPE '\']. *)
Definition next_is (f : ascii -> bool) (k : string -> bool) (s : string) : bool :=
  match s with "" => false | String x s => f x && k s end.
Fixpoint some_suffix (k : string -> bool) (s : string) : bool :=
  k s || match s with "" => false | String _ s => some_suffix k s end.
Fixpoint like (ceq : ascii -> ascii -> bool) (pat : string) : string -> bool :=
  match pat with
  | "" => fun s => bool_decide (s = "")
  | String c pat =>
      if decide (c = percent) then some_suffix (like ceq pat)
      else if decide (c = underscore) then next_is (fun _ => true) (like ceq pat)
      else if decide (c = backslash) then
        match pat with
        | "" => fun _ => false
        | String d pat => next_is (ceq d) (like ceq pat)
        end
      else next_is (ceq c) (like ceq pat)
  end.

(** ** Requests and replies *)

Record applyEntry : Type := mkApply { ae_OverlayIP : string; ae_EnrollmentID : Z; ae_BaseGeneration : Z; ae_Target : list string }.
Record dryEntry : Type := mkDry {
  de_OverlayIP : string; de_EnrollmentID : Z; de_Name : string; de_From : list string; de_Target : list string;
  de_BaseGeneration : Z; de_WillReduce : bool; de_Elevates : bool }.
Record regroupReq : Type := mkRegroup {
  rg_NamePattern : string; rg_OverlayIPs : list string; rg_Add : list string; rg_Remove : list string; rg_Replace : list string;
  rg_IncludeStale : bool; rg_Entries : list applyEntry }.
Record candidate : Type := mkCand {
  cd_ID : Z; cd_DeviceName : string; cd_OverlayIP : string; cd_Groups : list string; cd_DesiredGroups : list string;
  cd_GroupsGeneration : Z; cd_Ephemeral : bool; cd_LastSeen : Z }.

(** The skip reasons of the dry run, and what happened to an applied entry. *)
Inductive skip : Type := S_Reserved | S_Reaped | S_Ephemeral | S_Stale | S_NoOp.
Inductive status : Type := A_Applied | A_NotFound | A_Changed | A_Reserved | A_Failed.
#[export] Instance skip_eq_dec : EqDecision skip. Proof. solve_decision. Defined.
#[export] Instance status_eq_dec : EqDecision status. Proof. solve_decision. Defined.

(** [regroupSample] is a name, an address and the reason when it is not eligible. *)
Inductive gbody : Type :=
| B_Device (ip : string) (desired : list string) (generation : Z) (pending : bool)
| B_Preview (entries : list dryEntry) (skipped : list (string * string * skip)) (capped : nat) (requires_dual_control : bool)
| B_Match (matched eligible : nat) (sample : list (string * string * option skip)) (skipped : list (skip * nat))
| B_Results (results : list (string * status))
| B_Change (id : Z).

(** The part of [Config] the handlers read, and the dual-control controller's [Propose]. *)
Record GConfig (X : Type) : Type := mkGConfig {
  gc_MFAFreshness : Z;
  gc_StaleAfter : Z;
  gc_RegroupDualControl : bool;
  gc_Propose : option (list applyEntry -> string -> M (CStore X) coerr Z);
}.
Arguments mkGConfig {X}. Arguments gc_MFAFreshness {X}. Arguments gc_StaleAfter {X}. Arguments gc_RegroupDualControl {X}. Arguments gc_Propose {X}.

Definition with_desired (groups : list string) (gen : Z) (e : CRow) : CRow :=
  mkCRow (cr_ID e) (cr_DeviceName e) (cr_OverlayIP e) (cr_Status e) (cr_CertPEM e) (cr_Groups e) groups gen
    (cr_IssuedGeneration e) (cr_Fingerprint e) (cr_CAFingerprint e) (cr_GOOS e) (cr_GOARCH e) (cr_ReductionPending e) (cr_ReductionOldNotAfter e) (cr_Ephemeral e).

(** ** Selecting devices *)

(** The join of a heartbeat and an issued enrollment at its address. *)
Definition cand_of (h : Beat) (e : CRow) : candidate :=
  mkCand (cr_ID e) (cr_DeviceName e) (cr_OverlayIP e) (cr_Groups e) (cr_DesiredGroups e) (cr_GroupsGeneration e) (cr_Ephemeral e) (bt_LastSeen h).
Definition newer_first (a b : candidate) : Prop := cd_ID b <= cd_ID a.
#[export] Instance newer_first_dec a b : Decision (newer_first a b). Proof. unfold newer_first. apply _. Defined.
#[export] Instance newer_first_trans : Transitive newer_first. Proof. intros x y z. unfold newer_first. lia. Qed.
#[export] Instance newer_first_total : Total newer_first. Proof. intros x y. unfold newer_first. lia. Qed.

Definition selected (ceq : ascii -> ascii -> bool) (pattern : string) (ips : list string) (h : Beat) : bool :=
  negb (bool_decide (bt_OverlayIP h = ""))
  && (bool_decide (pattern = "") || like ceq (globToLike pattern) (bt_DeviceName h))
  && (bool_decide (ips = []) || bool_decide (bt_OverlayIP h ∈ ips)).
Definition join_rows (beats : list Beat) (rows : list CRow) : list candidate :=
  flat_map (fun h => map (cand_of h) (filter (fun e => issued_at (bt_OverlayIP h) e = true) rows)) beats.

(** One row per address, the first in id-descending order. *)
Fixpoint dedup_ip (seen : list string) (cs : list candidate) : list candidate :=
  match cs with
  | [] => []
  | c :: cs => if bool_decide (cd_OverlayIP c ∈ seen) then dedup_ip seen cs else c :: dedup_ip (cd_OverlayIP c :: seen) cs
  end.

Definition state_reason (reaped : list string) (stale_ns now_ns : Z) (include_stale : bool) (c : candidate) : option skip :=
  if GrantsReservedGroup (cd_DesiredGroups c) then Some S_Reserved
  else if bool_decide (cd_DeviceName c ∈ reaped) then Some S_Reaped
  else if cd_Ephemeral c then Some S_Ephemeral
  else if ((cd_LastSeen c =? 0) || ((0 <? stale_ns) && (cd_LastSeen c <? i64 (now_ns - stale_ns)))) && negb include_stale then Some S_Stale
  else None.

(** The dry run's loop: entries, skips and the number over the cap. *)
Definition dry_entry (c : candidate) (target : list string) : dryEntry :=
  mkDry (cd_OverlayIP c) (cd_ID c) (cd_DeviceName c) (cd_DesiredGroups c) target (cd_GroupsGeneration c)
    (groupsDropped (cd_DesiredGroups c) target) (groupsDropped target (cd_DesiredGroups c)).
Definition dry_acc : Type := list dryEntry * list (string * string * skip) * nat.
Definition dry_one (delta : list string -> list string) (acc : dry_acc) (cc : candidate * option skip) : dry_acc :=
  let '(entries, skipped, capped) := acc in
  let '(c, reason) := cc in
  match reason with
  | Some why => (entries, skipped ++ [(cd_OverlayIP c, cd_DeviceName c, why)], capped)
  | None =>
      let target := delta (cd_DesiredGroups c) in
      if sameGroupSet (cd_DesiredGroups c) target then (entries, skipped ++ [(cd_OverlayIP c, cd_DeviceName c, S_NoOp)], capped)
      else if bool_decide (regroupMaxSet <= length entries)%nat then (entries, skipped, S capped)
      else (entries ++ [dry_entry c target], skipped, capped)
  end.

Definition dcRequired (entries : list dryEntry) : bool :=
  bool_decide (regroupDCThreshold < length entries)%nat || existsb de_Elevates entries.

(** The live match's sample: eligible names first, then the others, up to the cap. *)
Fixpoint take_sample (want : bool) (acc : list (string * string * option skip)) (cls : list (candidate * option skip)) : list (string * string * option skip) :=
  match cls with
  | [] => acc
  | (c, why) :: cls =>
      if bool_decide (regroupSampleMax <= length acc)%nat then acc
      else if Bool.eqb (bool_decide (why = None)) want then take_sample want (acc ++ [(cd_DeviceName c, cd_OverlayIP c, why)]) cls
      else take_sample want acc cls
  end.
Fixpoint count_skip (why : skip) (m : list (skip * nat)) : list (skip * nat) :=
  match m with
  | [] => [(why, 1%nat)]
  | (w, n) :: m => if decide (w = why) then (w, S n) :: m else (w, n) :: count_skip why m
  end.
Definition match_of (cls : list (candidate * option skip)) : gbody :=
  B_Match (length cls) (length (filter (fun cc => cc.2 = None) cls))
    (take_sample false (take_sample true [] cls) cls)
    (foldl (fun m cc => match cc.2 with Some why => count_skip why m | None => m end) [] cls).

(** ** The handlers *)

Section handlers.
Context {X : Type} (cfg : GConfig X) (ceq : ascii -> ascii -> bool).
Context (unmarshalGroups : string -> option (list string)) (unmarshalRegroup : string -> option regroupReq) (unmarshalEntries : string -> option (list applyEntry)).
Abbreviation CM := (M (CStore X) coerr).

(** [json.Unmarshal] of the size-limited body; a body over the limit is [None]. *)
Definition decode {A} (f : string -> option A) (body : option string) : option A := b ← body; f b.

Definition issuedAt (ip : string) : CM (option CRow) := query (fun s => newest (issued_at ip) (crows s)).

(** PATCH /admin/v1/devices/{ip}/groups, after its guards: the write is by id alone. *)
Definition set_desired (id : Identity) (ip : string) (groups : list string) (dev : CRow) : CM (reply gbody) :=
  let newGen := i64 (cr_GroupsGeneration dev + 1) in
  r ← attempt (exec (fun s => ((), update_rows (has_id (cr_ID dev)) (with_desired groups newGen) s)));
  match r with
  | Err _ => mret (Problem 500 "internal error")
  | Ok _ => _ ← caudit (id_Principal id) "device-regroup" ip; mret (Reply 200 (B_Device ip groups newGen true))
  end.

Definition handleDeviceGroupSet (id : Identity) (ip : string) (body : option string) : CM (reply gbody) :=
  requirePerm id PermDeviceManage (withStepUp (gc_MFAFreshness cfg) id (
    match ParseAddr ip with
    | None => mret (Problem 400 "bad overlay ip")
    | Some _ =>
        match decode unmarshalGroups body with
        | None => mret (Problem 400 "bad request")
        | Some gs =>
            let groups := normGroups gs in
            if GrantsReservedGroup groups then mret (Problem 400 "reserved group")
            else
              d ← attempt (issuedAt ip);
              match d with
              | Err _ => mret (Problem 500 "internal error")
              | Ok None => mret (Problem 404 "no device")
              | Ok (Some dev) =>
                  if GrantsReservedGroup (cr_Groups dev) then mret (Problem 400 "reserved device")
                  else if sameGroupSet (cr_DesiredGroups dev) groups
                  then mret (Reply 200 (B_Device ip groups (cr_GroupsGeneration dev) (cr_IssuedGeneration dev <? cr_GroupsGeneration dev)))
                  else set_desired id ip groups dev
              end
        end
    end)).

Definition regroupCandidates (pattern : string) (ips : list string) : CM (list candidate) :=
  rows ← query (fun s => merge_sort newer_first (join_rows (filter (fun h => selected ceq pattern ips h = true) (cbeats s)) (crows s)));
  mret (dedup_ip [] rows).

Definition deviceReapMarks (names : list string) : CM (list Mark) :=
  if decide (names = []) then mret []
  else query (fun s => filter (fun m => mk_Name m ∈ names /\ mk_ReapedAt m <> 0) (cmarks s)).
Definition reapedNameSet (cands : list candidate) : CM (list string) :=
  marks ← deviceReapMarks (map cd_DeviceName cands); mret (map mk_Name marks).

Definition classifyRegroup (pattern : string) (ips : list string) (includeStale : bool) : CM (list (candidate * option skip)) :=
  cands ← regroupCandidates pattern ips;
  reaped ← reapedNameSet cands;
  t ← now;
  mret (map (fun c => (c, state_reason reaped (gc_StaleAfter cfg) t includeStale c)) cands).

Definition preview (add remove replace : list string) (hasReplace : bool) (cls : list (candidate * option skip)) : gbody :=
  let '(entries, skipped, capped) := foldl (dry_one (fun current => applyDelta current add remove replace hasReplace)) ([], [], 0%nat) cls in
  B_Preview entries skipped capped (gc_RegroupDualControl cfg && dcRequired entries).

Definition regroupDryRun (req : regroupReq) : CM (reply gbody) :=
  let add := normGroups (rg_Add req) in let remove := normGroups (rg_Remove req) in
  let replace := normGroups (rg_Replace req) in let hasReplace := negb (bool_decide (rg_Replace req = [])) in
  if negb hasReplace && bool_decide (add = []) && bool_decide (remove = []) then mret (Problem 400 "no change")
  else if negb (bool_decide (intersect add remove = [])) then mret (Problem 400 "ambiguous")
  else if GrantsReservedGroup add || GrantsReservedGroup replace then mret (Problem 400 "reserved group")
  else
    cls ← attempt (classifyRegroup (rg_NamePattern req) (rg_OverlayIPs req) (rg_IncludeStale req));
    mret (match cls with
          | Err _ => Problem 500 "internal error"
          | Ok cls => Reply 200 (preview add remove replace hasReplace cls)
          end).

Definition handleDeviceRegroupMatch (id : Identity) (pattern : string) (includeStale : bool) : CM (reply gbody) :=
  requirePerm id PermDeviceManage (
    if decide (TrimSpace pattern = "") then mret (Reply 200 (B_Match 0 0 [] []))
    else
      cls ← attempt (classifyRegroup pattern [] includeStale);
      mret (match cls with Err _ => Problem 500 "internal error" | Ok cls => Reply 200 (match_of cls) end)).

(** [UPDATE ... WHERE id = ? AND groups_generation = ?]: the rows affected. *)
Definition cas_row (id gen : Z) (e : CRow) : bool := has_id id e && (cr_GroupsGeneration e =? gen).
Definition cas_desired (id gen : Z) (groups : list string) (s : CStore X) : nat * CStore X :=
  (length (filter (fun e => cas_row id gen e = true) (crows s)), update_rows (cas_row id gen) (with_desired groups (i64 (gen + 1))) s).

Definition applyRegroupOne (actor : string) (e : applyEntry) : CM status :=
  c ← attempt (issuedAt (ae_OverlayIP e));
  match c with
  | Err _ | Ok None => mret A_NotFound
  | Ok (Some cur) =>
      if negb (cr_ID cur =? ae_EnrollmentID e) || negb (cr_GroupsGeneration cur =? ae_BaseGeneration e) then mret A_Changed
      else if GrantsReservedGroup (cr_Groups cur) || GrantsReservedGroup (ae_Target e) then mret A_Reserved
      else
        r ← attempt (exec (cas_desired (ae_EnrollmentID e) (ae_BaseGeneration e) (normGroups (ae_Target e))));
        match r with
        | Err _ => mret A_Failed
        | Ok n => if decide (n = 0%nat) then mret A_Changed else _ ← caudit actor "device-regroup" (ae_OverlayIP e); mret A_Applied
        end
  end.

Fixpoint applyRegroup (actor : string) (entries : list applyEntry) : CM (list (string * status)) :=
  match entries with
  | [] => mret []
  | e :: entries => st ← applyRegroupOne actor e; rest ← applyRegroup actor entries; mret ((ae_OverlayIP e, st) :: rest)
  end.

Definition commitDeviceRegroup (proposer : string) (payload : string) : CM unit :=
  match unmarshalEntries payload with
  | None => throw C_Service
  | Some entries => _ ← applyRegroup proposer entries; mret ()
  end.

Fixpoint some_elevates (entries : list applyEntry) : CM bool :=
  match entries with
  | [] => mret false
  | e :: entries =>
      c ← attempt (issuedAt (ae_OverlayIP e));
      match c with
      | Ok (Some cur) => if groupsDropped (ae_Target e) (cr_DesiredGroups cur) then mret true else some_elevates entries
      | _ => some_elevates entries
      end
  end.
Definition applyNeedsDualControl (entries : list applyEntry) : CM bool :=
  if bool_decide (regroupDCThreshold < length entries)%nat then mret true else some_elevates entries.

Definition regroupApply (id : Identity) (req : regroupReq) : CM (reply gbody) :=
  let entries := rg_Entries req in
  if decide (entries = []) then mret (Problem 400 "no entries")
  else if bool_decide (regroupMaxSet < length entries)%nat then mret (Problem 400 "too many")
  else if existsb (fun e => GrantsReservedGroup (ae_Target e)) entries then mret (Problem 400 "reserved group")
  else
    let direct : CM (reply gbody) := results ← applyRegroup (id_Principal id) entries; mret (Reply 200 (B_Results results)) in
    match gc_Propose cfg with
    | Some propose =>
        need ← (if gc_RegroupDualControl cfg then applyNeedsDualControl entries else mret false);
        if need : bool then
          ch ← attempt (propose entries (id_Principal id));
          mret (match ch with Ok cid => Reply 202 (B_Change cid) | Err _ => Problem 500 "internal error" end)
        else direct
    | None => direct
    end.

Definition handleDeviceRegroup (id : Identity) (dryRun : bool) (body : option string) : CM (reply gbody) :=
  requirePerm id PermDeviceManage (withStepUp (gc_MFAFreshness cfg) id (
    match decode unmarshalRegroup body with
    | None => mret (Problem 400 "bad request")
    | Some req => if dryRun then regroupDryRun req else regroupApply id req
    end)).
End handlers.

(** ** Name patterns mean what they say *)

(** A glob: [*] is any text, [?] one character, anything else itself up to [ceq]. *)
Inductive glob (ceq : ascii -> ascii -> bool) : string -> string -> Prop :=
| glob_end : glob ceq "" ""
| glob_none p s : glob ceq p s -> glob ceq (String star p) s
| glob_more p x s : glob ceq (String star p) s -> glob ceq (String star p) (String x s)
| glob_one p x s : glob ceq p s -> glob ceq (String quest p) (String x s)
| glob_char c p x s : c <> star -> c <> quest -> ceq c x = true -> glob ceq p s -> glob ceq (String c p) (String x s).

Lemma some_suffix_true k s : some_suffix k s = true <-> exists pre post, s = pre +:+ post /\ k post = true.
Proof.
  induction s as [|x s IH]; cbn.
  - rewrite orb_false_r. split; [intros H; by exists "", ""|]. intros ([|] & [|] & [=] & H). done.
  - rewrite orb_true_iff, IH. split.
    + intros [H|(pre & post & -> & H)]; [by exists "", (String x s)|by exists (String x pre), post].
    + intros ([|y pre] & post & E & H); [left; by rewrite E|right]. injection E as -> ->. by exists pre, post.
Qed.

Lemma glob_star ceq p s : glob ceq (String star p) s <-> exists pre post, s = pre +:+ post /\ glob ceq p post.
Proof.
  split.
  - revert p. induction s as [|x s IH]; intros p H.
    + inversion H; subst. by exists "", "".
    + inversion H as [|? ? H3|? ? ? H3| |]; subst; [by exists "", (String x s)| |done]. apply IH in H3 as (pre & post & -> & Hp). by exists (String x pre), post.
  - intros (pre & post & -> & H). induction pre as [|x pre IH]; cbn; [by constructor|by apply glob_more].
Qed.

(** A literal character of the pattern, escaped or not, is matched as itself. *)
Lemma like_char ceq c g : c <> star -> c <> quest -> like ceq (globToLike (String c g)) = next_is (ceq c) (like ceq (globToLike g)).
Proof.
  intros H1 H2. cbn. rewrite (decide_False (P := c = star)) by done. rewrite (decide_False (P := c = quest)) by done.
  destruct (bool_decide (c = percent) || bool_decide (c = underscore) || bool_decide (c = backslash)) eqn:E; cbn.
  - done.
  - bool_split. rewrite !decide_False by done. done.
Qed.

(** The SQL pattern of a glob selects exactly the names the glob matches, whatever LIKE
    metacharacters the glob contains. *)
Theorem like_matches_the_glob ceq g s : like ceq (globToLike g) s = true <-> glob ceq g s.
Proof.
  revert s. induction g as [|c g IH]; intros s.
  - cbn. rewrite bool_decide_eq_true. split; [intros ->; constructor|]. by inversion 1.
  - destruct (decide (c = star)) as [->|Hs]; [|destruct (decide (c = quest)) as [->|Hq]].
    + change (like ceq (globToLike (String star g)) s) with (some_suffix (like ceq (globToLike g)) s). rewrite some_suffix_true, glob_star. by setoid_rewrite IH.
    + change (like ceq (globToLike (String quest g)) s) with (next_is (fun _ => true) (like ceq (globToLike g)) s).
      destruct s as [|x s]; cbn; [split; [done|by inversion 1]|]. rewrite IH. split; [by constructor|]. inversion 1; subst; done.
    + rewrite like_char by done. destruct s as [|x s]; cbn; [split; [done|]; inversion 1; subst; done|].
      rewrite andb_true_iff, IH. split; [intros [? ?]; by constructor|]. inversion 1; subst; done.
Qed.

(** ** Group sets *)

Lemma norm_go_elem seen gs g : g ∈ norm_go seen gs <-> g <> "" /\ g ∉ seen /\ exists x, x ∈ gs /\ TrimSpace x = g.
Proof.
  revert seen. induction gs as [|h gs IH]; intros seen; cbn; [split; [by intros ?%elem_of_nil|by intros (_ & _ & x & ?%elem_of_nil & _)]|].
  destruct (bool_decide (TrimSpace h = "") || bool_decide (TrimSpace h ∈ seen)) eqn:E.
  - rewrite IH. apply orb_true_iff in E as [E|E]; bool_split; set_solver.
  - bool_split. rewrite elem_of_cons, IH. destruct (decide (g = TrimSpace h)); set_solver.
Qed.

Lemma norm_elem gs g : g ∈ normGroups gs <-> g <> "" /\ exists x, x ∈ gs /\ TrimSpace x = g.
Proof. unfold normGroups. rewrite norm_go_elem. set_solver. Qed.

Lemma norm_go_nodup seen gs : NoDup (norm_go seen gs).
Proof.
  revert seen. induction gs as [|h gs IH]; intros seen; cbn; [constructor|]. destruct (_ || _); [done|]. constructor; [|done].
  rewrite norm_go_elem. set_solver.
Qed.

Lemma norm_go_fix seen gs : NoDup gs -> (forall g, g ∈ gs -> g <> "" /\ g ∉ seen /\ TrimSpace g = g) -> norm_go seen gs = gs.
Proof.
  revert seen. induction gs as [|h gs IH]; intros seen Hnd H; cbn; [done|]. apply NoDup_cons in Hnd as [Hh Hnd].
  destruct (H h) as (H1 & H2 & H3); [by left|]. rewrite H3, !bool_decide_false by done. cbn. f_equal. apply IH; [done|].
  intros g Hg. destruct (H g) as (? & ? & ?); [by right|]. split_and!; [done| |done]. intros [->|?]%elem_of_cons; done.
Qed.

(** A set as the handlers store it. *)
Definition normal (gs : list string) : Prop := normGroups gs = gs.

Lemma norm_normal gs : normal (normGroups gs).
Proof.
  apply norm_go_fix; [apply norm_go_nodup|]. intros g (H & x & _ & <-)%norm_elem. split_and!; [done|set_solver|apply TrimSpace_idem].
Qed.

Lemma normal_elem gs g : normal gs -> g ∈ gs -> g <> "" /\ TrimSpace g = g.
Proof. intros <- (H & x & _ & <-)%norm_elem. split; [done|apply TrimSpace_idem]. Qed.

(** Set equality of the normal forms. *)
Lemma sameGroupSet_true a b : sameGroupSet a b = true <-> forall g, g ∈ normGroups a <-> g ∈ normGroups b.
Proof.
  unfold sameGroupSet. destruct (bool_decide (length _ = _)) eqn:E; cbn; bool_split.
  - rewrite forallb_elem. setoid_rewrite bool_decide_eq_true. split; [|intros H g Hg; by apply H].
    intros H. assert (normGroups b ≡ₚ normGroups a) as Hp.
    { apply submseteq_length_Permutation; [|lia]. apply NoDup_submseteq; [apply norm_go_nodup|done]. }
    intros g. by rewrite Hp.
  - split; [done|]. intros H. destruct E. apply Permutation_length, NoDup_Permutation; [apply norm_go_nodup..|done].
Qed.

(** The dry run's target is (current and add) without remove, on stored sets. *)
Lemma applyDelta_elem current add remove g : normal current -> normal add ->
  g ∈ applyDelta current add remove [] false <-> (g ∈ current \/ g ∈ add) /\ g ∉ remove.
Proof.
  intros Hc Ha. unfold applyDelta. rewrite norm_elem. split.
  - intros (Hg & x & Hx & <-). apply list_elem_of_filter in Hx as [Hr Hx]. apply elem_of_app in Hx as [Hx|Hx].
    + destruct (normal_elem _ _ Hc Hx) as [_ ->]. auto.
    + destruct (normal_elem _ _ Ha Hx) as [_ ->]. auto.
  - intros [Hg Hr]. assert (g <> "" /\ TrimSpace g = g) as [? ?] by (destruct Hg as [Hg|Hg]; eauto using normal_elem).
    split; [done|]. exists g. split; [|done]. apply list_elem_of_filter. split; [done|]. by apply elem_of_app.
Qed.

Lemma unreserved_delta current add remove replace b : normal current -> normal add -> normal replace ->
  GrantsReservedGroup current = false -> GrantsReservedGroup add = false -> GrantsReservedGroup replace = false ->
  GrantsReservedGroup (applyDelta current add remove replace b) = false.
Proof.
  intros Hc Ha Hr H1 H2 H3. destruct b; [unfold applyDelta; by rewrite Hr|].
  apply not_true_iff_false. intros (g & Hg & Hres)%existsb_elem.
  assert (applyDelta current add remove replace false = applyDelta current add remove [] false) as E by done. rewrite E in Hg.
  apply applyDelta_elem in Hg as [[Hg|Hg] _]; [..|done|done].
  - eapply existsb_elem_false in H1; [|exact Hg]. congruence.
  - eapply existsb_elem_false in H2; [|exact Hg]. congruence.
Qed.

(** ** The bulk apply is a compare-and-set *)

Definition row_ids {X} (s : CStore X) : list Z := map cr_ID (crows s).

(** What the apply relies on of everybody else: rows stay, generations do not go back, and
    a row's desired groups never change without its generation. *)
Definition regrouped (r r' : CRow) : Prop :=
  cr_ID r' = cr_ID r /\ cr_GroupsGeneration r <= cr_GroupsGeneration r' /\
  (cr_GroupsGeneration r' = cr_GroupsGeneration r -> cr_DesiredGroups r' = cr_DesiredGroups r).
Record group_rely {X} (s s' : CStore X) : Prop := mkGroupRely {
  gr_rows : forall r, r ∈ crows s -> exists r', r' ∈ crows s' /\ regrouped r r';
  gr_ids : NoDup (row_ids s) -> NoDup (row_ids s');
}.

#[export] Instance group_rely_preorder {X} : PreOrder (@group_rely X).
Proof.
  split.
  - intros s. split; [|done]. intros r Hr. exists r. split; [done|]. by split_and!.
  - intros a b c [H1 I1] [H2 I2]. split; [|auto]. intros r (r1 & Hr1 & E1 & G1 & D1)%H1. apply H2 in Hr1 as (r2 & Hr2 & E2 & G2 & D2).
    exists r2. split; [done|]. split_and!; [congruence|lia|]. intros E. rewrite D2, D1 by lia. done.
Qed.

Lemma crow_unique {X} (s : CStore X) r r' : NoDup (row_ids s) -> r ∈ crows s -> r' ∈ crows s -> cr_ID r = cr_ID r' -> r = r'.
Proof. apply (keyed_unique cr_ID). Qed.

Lemma newest_in f l r : newest f l = Some r -> r ∈ l /\ f r = true.
Proof.
  unfold newest. assert (forall acc, fold_left (newer f) l acc = Some r -> acc = Some r \/ (r ∈ l /\ f r = true)) as H.
  { induction l as [|e l IH]; intros acc; cbn; [by left|]. intros [Hn|[? ?]]%IH; [|right; split; [by right|done]].
    unfold newer in Hn. destruct (f e) eqn:E; [|by left]. destruct acc as [a|]; [destruct (_ <? _); [|by left]|]; injection Hn as <-; right; (split; [by left|done]). }
  intros [?|?]%H; done.
Qed.

(** Core's own steps keep to it: a renewal never writes what the operator wants. *)
Lemma core_regroups {X} (s s' : CStore X) : core_step s s' -> group_rely s s'.
Proof.
  intros [Hrows _ _]. split.
  - intros r Hr. apply list_elem_of_lookup in Hr as [i Hi]. destruct (Forall2_lookup_l _ _ _ _ _ Hrows Hi) as (r' & Hi' & []).
    exists r'. split; [by eapply list_elem_of_lookup_2|]. split_and!; [done|lia|done].
  - unfold row_ids. intros Hnd. assert (map cr_ID (crows s') = map cr_ID (crows s)) as ->; [|done].
    induction Hrows as [|a b l l' [] _ IH]; cbn; [done|]. f_equal; [done|]. apply IH. by apply NoDup_cons in Hnd as [].
Qed.

Section apply.
Context {X : Type}.
Implicit Types s : CStore X.

(** The entry's device as the apply read it, just before the interference that leads to [s]:
    the newest issued row at the address is the entry's row, at the entry's generation, and
    its signed groups hold no reserved one. *)
Definition device_read (R : relation (CStore X)) (e : applyEntry) s : Prop := exists sr cur, R sr s /\
  newest (issued_at (ae_OverlayIP e)) (crows sr) = Some cur /\ cr_ID cur = ae_EnrollmentID e /\ cr_GroupsGeneration cur = ae_BaseGeneration e /\
  GrantsReservedGroup (cr_Groups cur) = false.

(** One write of the apply, from the dry run's snapshot [s0]: an unreserved target over the
    very groups the dry run read, in the row it read them from. *)
Definition entry_fits (R : relation (CStore X)) s0 (e : applyEntry) s : Prop :=
  GrantsReservedGroup (ae_Target e) = false /\ device_read R e s /\
  forall r r0, r ∈ crows s -> r0 ∈ crows s0 -> cr_ID r = ae_EnrollmentID e -> cr_ID r0 = ae_EnrollmentID e ->
    cr_GroupsGeneration r = ae_BaseGeneration e -> cr_GroupsGeneration r0 = ae_BaseGeneration e -> cr_DesiredGroups r = cr_DesiredGroups r0.
Definition entry_write (e : applyEntry) s : CStore X := (cas_desired (ae_EnrollmentID e) (ae_BaseGeneration e) (normGroups (ae_Target e)) s).2.

Inductive apply_step (R : relation (CStore X)) s0 (entries : list applyEntry) s : CStore X -> Prop :=
| ap_audit a b c : apply_step R s0 entries s (add_caudit (a, b, c) s)
| ap_write e : e ∈ entries -> entry_fits R s0 e s -> apply_step R s0 entries s (entry_write e s).

Lemma write_regroups e s : - 2 ^ 63 <= ae_BaseGeneration e < 2 ^ 63 - 1 -> group_rely s (entry_write e s).
Proof.
  intros Hb. assert (Hi : i64 (ae_BaseGeneration e + 1) = ae_BaseGeneration e + 1) by (apply i64_id; lia).
  split.
  - intros r Hr. exists (if cas_row (ae_EnrollmentID e) (ae_BaseGeneration e) r then with_desired (normGroups (ae_Target e)) (i64 (ae_BaseGeneration e + 1)) r else r).
    split; [apply list_elem_of_fmap; by exists r|]. destruct (cas_row _ _ r) eqn:Ec; [|by split_and!].
    unfold cas_row in Ec. bool_split. split_and!; cbn; [done|lia|lia].
  - unfold row_ids, entry_write, cas_desired, update_rows, set_crows; cbn. rewrite map_map. intros Hnd.
    erewrite map_ext; [exact Hnd|]. intros r. by destruct (cas_row _ _ r).
Qed.

Lemma apply_regroups R s0 entries s s' : Forall (fun e => - 2 ^ 63 <= ae_BaseGeneration e < 2 ^ 63 - 1) entries ->
  apply_step R s0 entries s s' -> group_rely s s'.
Proof.
  intros Hb [a b c|e He _].
  - split; [|done]. intros r Hr. exists r. by split.
  - apply write_regroups. by eapply Forall_forall in Hb.
Qed.

(** What an applied entry means. *)
Definition applied (R : relation (CStore X)) s0 entries s (e : applyEntry) s' : Prop :=
  exists s1 r, rtc (either R (apply_step R s0 entries)) s s1 /\ r ∈ crows s1 /\
    cr_ID r = ae_EnrollmentID e /\ cr_GroupsGeneration r = ae_BaseGeneration e /\ entry_fits R s0 e s1 /\
    rtc (either R (apply_step R s0 entries)) (entry_write e s1) s'.

Context (T : Z -> Prop) (R : relation (CStore X)) (HR : forall a b, R a b -> group_rely a b).
Context (s0 : CStore X) (entries : list applyEntry) (Hb : Forall (fun e => - 2 ^ 63 <= ae_BaseGeneration e < 2 ^ 63 - 1) entries).

Lemma either_regroups s s' : rtc (either R (apply_step R s0 entries)) s s' -> group_rely s s'.
Proof.
  intros H. induction H as [|a b c [Hab|Hab] _ IH]; [done|etrans; [by apply HR|done]|etrans; [by eapply apply_regroups|done]].
Qed.

Lemma still_fits e s : NoDup (row_ids s0) -> group_rely s0 s -> GrantsReservedGroup (ae_Target e) = false -> device_read R e s -> entry_fits R s0 e s.
Proof.
  intros Hnd [Hr Hi] He Hd. split_and!; [done|done|]. intros r r0 Hin Hin0 E E0 G G0. destruct (Hr _ Hin0) as (r' & Hr' & E' & _ & D).
  assert (r = r') as ->; [|by apply D; congruence]. eapply crow_unique; [by apply Hi|done|done|congruence].
Qed.

Lemma applyRegroupOne_wp actor e s : NoDup (row_ids s0) -> group_rely s0 s -> e ∈ entries ->
  wpt T R (apply_step R s0 entries) (applyRegroupOne actor e) (fun r s' => exists st, r = Ok st /\ (st = A_Applied -> applied R s0 entries s e s')) s.
Proof.
  intros Hnd Hs He. unfold applyRegroupOne, issuedAt, caudit. wp_step. wp_step. wp_step; [wp_step; by eexists|].
  destruct (newest _ _) as [cur|] eqn:En; wp_reduce; [|wp_step; by eexists].
  destruct (negb _ || negb _) eqn:E1; [wp_step; by eexists|]. destruct (GrantsReservedGroup _ || _) eqn:E2; [wp_step; by eexists|]. bool_split.
  wp_step. wp_step. wp_step; [wp_step; by eexists|].
  assert (Hfit : entry_fits R s0 e s2) by (apply still_fits; [done|etrans; [exact Hs|]; etrans; by apply HR|done|by exists s1, cur]).
  split; [by apply ap_write|]. destruct (decide _) as [|Hn]; [wp_step; by eexists|].
  destruct (filter _ (crows s2)) as [|r l] eqn:El in Hn; [done|]. assert (Hr : r ∈ r :: l) by by left. rewrite <- El in Hr. apply list_elem_of_filter in Hr as [Hc Hr].
  unfold cas_row, has_id in Hc. bool_split. wp_step. wp_step. wp_step.
  - wp_step. eexists. split; [done|]. intros _. exists s2, r. split_and!; try done.
    + eapply rtc_l; [left; exact HR0|]. apply rtc_once. by left.
    + apply rtc_once. by left.
  - split; [constructor|]. wp_step. eexists. split; [done|]. intros _. exists s2, r. split_and!; try done.
    + eapply rtc_l; [left; exact HR0|]. apply rtc_once. by left.
    + eapply rtc_l; [left; exact HR2|]. apply rtc_once. right. constructor.
Qed.

Lemma applied_widen s1 s e s' s2 : rtc (either R (apply_step R s0 entries)) s1 s -> rtc (either R (apply_step R s0 entries)) s' s2 ->
  applied R s0 entries s e s' -> applied R s0 entries s1 e s2.
Proof.
  intros H1 H2 (a & r & Ha & Hr & E1 & E2 & Hf & Hb'). exists a, r. split_and!; try done; by etrans.
Qed.

Definition outcomes s (es : list applyEntry) (results : list (string * status)) s' : Prop :=
  Forall2 (fun e res => res.1 = ae_OverlayIP e /\ (res.2 = A_Applied -> applied R s0 entries s e s')) es results.

Lemma applyRegroup_wp actor es s : NoDup (row_ids s0) -> group_rely s0 s -> (forall e, e ∈ es -> e ∈ entries) ->
  wpt T R (apply_step R s0 entries) (applyRegroup actor es) (fun r s' => exists results, r = Ok results /\ outcomes s es results s') s.
Proof.
  intros Hnd. revert s. induction es as [|e es IH]; intros s Hs Hes; cbn [applyRegroup]; [wp_step; eexists; split; [done|constructor]|].
  wp_step. eapply wp_mono; [apply applyRegroupOne_wp; [done|done|apply Hes; by left]|]. intros r s1 Hp1 (st & -> & Hst).
  wp_step. eapply wp_mono; [apply IH; [etrans; [exact Hs|by apply either_regroups]|]|].
  { intros x Hx. apply Hes. by right. }
  intros r s2 Hp2 (results & -> & Hout). wp_step. eexists. split; [done|]. constructor.
  - split; [done|]. intros Ha. eapply applied_widen; [reflexivity|exact Hp2|by apply Hst].
  - eapply Forall2_impl; [exact Hout|]. intros x res [Hip Hx]. split; [done|]. intros Ha. eapply applied_widen; [exact Hp1|reflexivity|by apply Hx].
Qed.

End apply.

(** The parts of a bulk request that only read. *)
Section reads.
Context {X : Type} (cfg : GConfig X) (ceq : ascii -> ascii -> bool) (T : Z -> Prop) (R G : relation (CStore X)).

Lemma check_wp es (Q : result coerr bool -> CStore X -> Prop) s :
  (forall b s', rtc R s s' -> Q (Ok b) s') -> wpt T R G (applyNeedsDualControl es) Q s.
Proof.
  intros HQ. unfold applyNeedsDualControl. destruct (bool_decide _); [wp_step; by apply HQ|].
  cut (forall s1, rtc R s s1 -> wpt T R G (some_elevates es) Q s1); [eauto using rtc|].
  induction es as [|e es IH]; intros s1 H1; cbn [some_elevates]; [wp_step; by apply HQ|].
  unfold issuedAt. wp_step. wp_step. wp_step; [apply IH; by eapply rtc_r|].
  match goal with |- context [newest _ (crows ?s2)] => assert (H2 : rtc R s s2) by (by eapply rtc_r) end.
  destruct (newest _ _) as [cur|]; [|by apply IH]. destruct (groupsDropped _ _); [wp_step; by apply HQ|by apply IH].
Qed.

Lemma classify_wp pattern ips stale (Q : result coerr (list (candidate * option skip)) -> CStore X -> Prop) s :
  (forall r s', Q r s') -> wpt T R G (classifyRegroup cfg ceq pattern ips stale) Q s.
Proof.
  intros HQ. eapply (wp_mono _ _ _ _ _ (fun _ _ => True)); [|auto].
  unfold classifyRegroup, regroupCandidates, reapedNameSet, deviceReapMarks. wp_step. wp_step. wp_step; [done|]. wp_step.
  wp_step. wp_step. destruct (decide _); [wp_step|wp_step; [done|]]; wp_step; wp_step; wp_step; by wp_step.
Qed.

Lemma dryRun_wp req (Q : result coerr (reply gbody) -> CStore X -> Prop) s :
  (forall resp s', (forall results, resp <> Reply 200 (B_Results results)) -> Q (Ok resp) s') -> wpt T R G (regroupDryRun cfg ceq req) Q s.
Proof.
  intros HQ. unfold regroupDryRun. set (cls := classifyRegroup _ _ _ _ _).
  destruct (_ && _); [wp_step; by apply HQ|]. destruct (negb (bool_decide (intersect _ _ = []))); [wp_step; by apply HQ|]. destruct (_ || _); [wp_step; by apply HQ|].
  wp_step. wp_step. apply classify_wp. intros [l|e] s1; wp_step; apply HQ; [|done]. unfold preview. by destruct (foldl _ _ _) as [[? ?] ?].
Qed.
End reads.

(** The steps of a bulk request: the guarded writes, and the dual-control service's own. *)
Definition bulk_step {X} (ok : Prop) (R : relation (CStore X)) (s0 : CStore X) (entries : list applyEntry) (s s' : CStore X) : Prop :=
  ok /\ (apply_step R s0 entries s s' \/ quiet_step s s').

(** Who may act: device:manage, and fresh MFA at a time the clock showed. *)
Definition may_regroup {X} (cfg : GConfig X) (T : Z -> Prop) (id : Identity) : Prop :=
  authorize id PermDeviceManage = true /\ (gc_MFAFreshness cfg <= 0 \/ exists t, T t /\ mfa_fresh (gc_MFAFreshness cfg) t id).

Section bulk.
Context {X : Type} (cfg : GConfig X) (T : Z -> Prop) (R : relation (CStore X)) (HR : forall a b, R a b -> group_rely a b).
Context (Hprop : forall propose es p, gc_Propose cfg = Some propose -> confined (propose es p)).
Context (s0 : CStore X) (Hnd : NoDup (row_ids s0)).

Lemma regroupApply_wp (ok : Prop) id req s : ok -> group_rely s0 s ->
  Forall (fun e => - 2 ^ 63 <= ae_BaseGeneration e < 2 ^ 63 - 1) (rg_Entries req) ->
  wpt T R (bulk_step ok R s0 (rg_Entries req)) (regroupApply cfg id req)
    (fun r s' => exists resp, r = Ok resp /\ forall results, resp = Reply 200 (B_Results results) -> outcomes R s0 (rg_Entries req) s (rg_Entries req) results s') s.
Proof.
  intros Hok Hs Hb. unfold regroupApply. cbv zeta. set (es := rg_Entries req) in *.
  destruct (decide _); [wp_step; by eexists|]. destruct (bool_decide _); [wp_step; by eexists|]. destruct (existsb _ _); [wp_step; by eexists|].
  set (Q := fun r s' => _). assert (Hdirect : forall s1, rtc R s s1 -> wpt T R (bulk_step ok R s0 es)
    (results ← applyRegroup (id_Principal id) es; mret (Reply 200 (B_Results results))) Q s1).
  { intros s1 H1. apply (rtc_mono _ (either R (apply_step R s0 es))) in H1; [|by left]. apply wp_bind.
    apply (wp_weaken T T R R (apply_step R s0 es)); [|done|done|intros a b [?|?]; [by left|right; split; [done|by left]]].
    eapply wp_mono; [apply applyRegroup_wp; [done|done|done|etrans; [exact Hs|by eapply either_regroups]|done]|].
    intros r s2 _ (results & -> & Hout). wp_step. eexists. split; [done|]. intros ? [= <-]. eapply Forall2_impl; [exact Hout|].
    intros e res [? He]. split; [done|]. intros Hap. eapply applied_widen; [exact H1|reflexivity|by apply He]. }
  destruct (gc_Propose cfg) as [propose|] eqn:Ep; [|by apply Hdirect].
  assert (Hneed : forall (b : bool) s1, rtc R s s1 -> wpt T R (bulk_step ok R s0 es)
    (if b then ch ← attempt (propose es (id_Principal id)); mret (match ch with Ok cid => Reply 202 (B_Change cid) | Err _ => Problem 500 "internal error" end)
     else results ← applyRegroup (id_Principal id) es; mret (Reply 200 (B_Results results))) Q s1).
  { intros [|] s1 H1; [|by apply Hdirect]. wp_step. wp_step. eapply wp_frame; [by eapply Hprop| |].
    - intros a b H. split; [done|by right].
    - intros [cid|e] s2 _; wp_step; by eexists. }
  wp_step. destruct (gc_RegroupDualControl cfg); [|wp_step; by apply (Hneed false)]. apply check_wp. intros b s1 H1. by apply Hneed.
Qed.

(** C23: a bulk re-group loses no update. Under faults and any interference in which desired
    groups only change with a larger generation, every write of a request is made for a
    caller with device:manage and fresh MFA, to the row and generation of an entry, over the
    very groups the dry run showed, never for a target that, as it was sent, names a reserved
    group, and only after the newest issued row at the entry's address was read as that row,
    at that generation and holding no reserved group; an entry reported as applied was
    written by this request. (The target is compared as sent: one with blanks around a
    reserved name is not refused.) *)
Theorem bulk_regroup_loses_no_update ceq unmarshal id dryRun body req s :
  gc_MFAFreshness cfg < 2 ^ 63 - 1 -> group_rely s0 s -> decode unmarshal body = Some req ->
  Forall (fun e => - 2 ^ 63 <= ae_BaseGeneration e < 2 ^ 63 - 1) (rg_Entries req) ->
  wpt T R (bulk_step (may_regroup cfg T id) R s0 (rg_Entries req)) (handleDeviceRegroup cfg ceq unmarshal id dryRun body)
    (fun r s' => exists resp, r = Ok resp /\ forall results, resp = Reply 200 (B_Results results) -> outcomes R s0 (rg_Entries req) s (rg_Entries req) results s') s.
Proof.
  intros Hf Hs Hreq Hb. unfold handleDeviceRegroup. apply guarded_wp; [done|by eexists|by eexists|]. intros Ha Hfr. rewrite Hreq.
  destruct dryRun; [|by apply regroupApply_wp]. apply dryRun_wp. intros resp s' Hno. eexists. split; [done|]. intros results E. by destruct (Hno results).
Qed.
End bulk.

(** ** One device *)

(** What setting one device's groups writes: a normal, unreserved, different set into the
    row read at the address, whatever that row's generation has become. *)
Inductive set_step {X} (ok : Prop) (ip : string) (s : CStore X) : CStore X -> Prop :=
| ss_audit a b c : ok -> set_step ok ip s (add_caudit (a, b, c) s)
| ss_write dev groups : ok -> issued_at ip dev = true -> GrantsReservedGroup (cr_Groups dev) = false ->
    normal groups -> GrantsReservedGroup groups = false -> sameGroupSet (cr_DesiredGroups dev) groups = false ->
    set_step ok ip s (update_rows (has_id (cr_ID dev)) (with_desired groups (i64 (cr_GroupsGeneration dev + 1))) s).

(** Setting a device's groups writes nothing unless the caller holds device:manage with fresh
    MFA, the address is one, the device is issued and holds no reserved group, and the
    normalised request names none; what is answered is the normalised request. *)
Theorem device_group_set_is_guarded {X} (cfg : GConfig X) unmarshal T (R : relation (CStore X)) id ip body s :
  gc_MFAFreshness cfg < 2 ^ 63 - 1 ->
  wpt T R (set_step (may_regroup cfg T id) ip) (handleDeviceGroupSet cfg unmarshal id ip body)
    (fun r s' => exists resp, r = Ok resp /\ forall b, resp = Reply 200 b ->
       exists gs gen pending, decode unmarshal body = Some gs /\ b = B_Device ip (normGroups gs) gen pending /\ is_Some (ParseAddr ip)) s.
Proof.
  intros Hf. unfold handleDeviceGroupSet. apply guarded_wp; [done|by eexists|by eexists|]. intros Ha Hfr.
  destruct (ParseAddr ip) eqn:Ep; [|wp_step; by eexists]. destruct (decode _ _) as [gs|] eqn:Ed; [|wp_step; by eexists]. cbv zeta.
  destruct (GrantsReservedGroup (normGroups gs)) eqn:Eg; [wp_step; by eexists|]. unfold issuedAt, set_desired, caudit. wp_step. wp_step. wp_step; [wp_step; by eexists|].
  destruct (newest _ _) as [dev|] eqn:En; wp_reduce; [|wp_step; by eexists]. apply newest_in in En as [_ Hat].
  destruct (GrantsReservedGroup (cr_Groups dev)) eqn:Er; [wp_step; by eexists|].
  destruct (sameGroupSet _ _) eqn:Es; [wp_step; eexists; split; [done|]; intros b [= <-]; by eexists _, _, _|].
  cbv zeta. wp_step. wp_step. wp_step; [wp_step; by eexists|]. split; [constructor; try done; apply norm_normal|].
  wp_step. wp_step. wp_step; [|split; [by constructor|]]; wp_step; eexists; (split; [done|]); intros b [= <-]; by eexists _, _, _.
Qed.

(** ** From the preview to the apply *)

Section preview.
Context {X : Type} (cfg : GConfig X) (ceq : ascii -> ascii -> bool).

(** The preview in closed form: the eligible candidates whose set changes, up to the cap. *)
Definition changes_set (delta : list string -> list string) (cc : candidate * option skip) : bool :=
  bool_decide (cc.2 = None) && negb (sameGroupSet (cd_DesiredGroups cc.1) (delta (cd_DesiredGroups cc.1))).
Definition entry_of (delta : list string -> list string) (cc : candidate * option skip) : dryEntry := dry_entry cc.1 (delta (cd_DesiredGroups cc.1)).

Lemma dry_entries delta cls acc : (length acc.1.1 <= regroupMaxSet)%nat ->
  (foldl (dry_one delta) acc cls).1.1 = acc.1.1 ++ take (regroupMaxSet - length acc.1.1) (map (entry_of delta) (filter (fun cc => changes_set delta cc = true) cls)).
Proof.
  revert acc. induction cls as [|[c why] cls IH]; intros [[es sk] cap] Hle; cbn [foldl fst] in *; [cbn; by rewrite take_nil, app_nil_r|].
  assert (Hone : (changes_set delta (c, why) = false /\ (dry_one delta (es, sk, cap) (c, why)).1.1 = es) \/ (changes_set delta (c, why) = true /\
    (dry_one delta (es, sk, cap) (c, why)).1.1 = if bool_decide (regroupMaxSet <= length es)%nat then es else es ++ [entry_of delta (c, why)])).
  { unfold changes_set, dry_one; cbn [fst snd]. destruct why as [why|]; [by left|]. rewrite bool_decide_true by done.
    destruct (sameGroupSet _ _); [by left|right]. split; [done|]. by destruct (bool_decide _). }
  destruct (dry_one delta (es, sk, cap) (c, why)) as [[es' sk'] cap']. cbn [fst] in Hone. destruct Hone as [[Hc ->]|[Hc ->]].
  - rewrite filter_cons_False by (by rewrite Hc). by apply IH.
  - rewrite filter_cons_True by done. cbn [map]. destruct (bool_decide (regroupMaxSet <= length es)%nat) eqn:El; bool_split.
    + rewrite IH by done. cbn [fst]. by replace (regroupMaxSet - length es)%nat with 0%nat by lia.
    + rewrite IH by (cbn [fst]; rewrite length_app; cbn; lia). cbn [fst]. rewrite length_app; cbn [length].
      replace (regroupMaxSet - length es)%nat with (S (regroupMaxSet - (length es + 1)))%nat by lia. cbn [take]. by rewrite <- app_assoc.
Qed.

Lemma newest_bound f l acc :
  match fold_left (newer f) l acc with
  | Some m => (forall r, r ∈ l -> f r = true -> cr_ID r <= cr_ID m) /\ (forall a, acc = Some a -> cr_ID a <= cr_ID m)
  | None => acc = None /\ forall r, r ∈ l -> f r = false
  end.
Proof.
  revert acc. induction l as [|e l IH]; intros acc; cbn.
  - destruct acc; [split; [by intros ? ?%elem_of_nil|by intros a [= <-]]|split; [done|by intros ? ?%elem_of_nil]].
  - specialize (IH (newer f acc e)). destruct (fold_left _ _ _) as [m|]; destruct IH as [H1 H2]; unfold newer in *.
    + assert (He : f e = true -> cr_ID e <= cr_ID m).
      { intros Ee. rewrite Ee in H2. destruct acc as [a|]; [|by apply H2]. destruct (Z.ltb_spec (cr_ID a) (cr_ID e)); [by apply H2|]. specialize (H2 a eq_refl). lia. }
      split; [intros r [->|Hr]%elem_of_cons; auto|]. intros a ->. destruct (f e); [|by apply H2].
      destruct (Z.ltb_spec (cr_ID a) (cr_ID e)); [|by apply H2]. specialize (H2 e eq_refl). lia.
    + destruct (f e) eqn:Ee; [by destruct acc as [a|]; [destruct (_ <? _)|]|]. split; [done|]. intros r [->|Hr]%elem_of_cons; auto.
Qed.

Lemma newest_max (s : CStore X) f r : NoDup (row_ids s) -> r ∈ crows s -> f r = true ->
  (forall r', r' ∈ crows s -> f r' = true -> cr_ID r' <= cr_ID r) -> newest f (crows s) = Some r.
Proof.
  intros Hnd Hr Hf Hmax. pose proof (newest_bound f (crows s) None) as H. fold (newest f (crows s)) in H.
  destruct (newest f (crows s)) as [m|] eqn:E.
  - destruct (newest_in _ _ _ E) as [Hm Hfm]. f_equal. eapply crow_unique; [done|done|done|]. destruct H as [H _]. specialize (H r Hr Hf). specialize (Hmax m Hm Hfm). lia.
  - destruct H as [_ H]. rewrite H in Hf; done.
Qed.

(** A candidate is the authoritative enrollment of its address. *)
Definition of_row (c : candidate) (r : CRow) : Prop :=
  cd_ID c = cr_ID r /\ cd_OverlayIP c = cr_OverlayIP r /\ cd_DesiredGroups c = cr_DesiredGroups r /\ cd_GroupsGeneration c = cr_GroupsGeneration r.

Lemma join_elem beats rows c : c ∈ join_rows beats rows <-> exists h r, h ∈ beats /\ r ∈ rows /\ issued_at (bt_OverlayIP h) r = true /\ c = cand_of h r.
Proof.
  unfold join_rows. rewrite list_elem_of_In, in_flat_map. setoid_rewrite <- list_elem_of_In. setoid_rewrite list_elem_of_fmap. setoid_rewrite list_elem_of_filter. naive_solver.
Qed.

Lemma dedup_nodup seen cs : NoDup (map cd_OverlayIP (dedup_ip seen cs)) /\ forall c, c ∈ dedup_ip seen cs -> cd_OverlayIP c ∉ seen.
Proof.
  revert seen. induction cs as [|c cs IH]; intros seen; cbn; [split; [constructor|by intros ? ?%elem_of_nil]|].
  destruct (bool_decide _) eqn:E; [apply IH|]. bool_split. destruct (IH (cd_OverlayIP c :: seen)) as [H1 H2]. split.
  - constructor; [|done]. intros (x & Ex & Hx)%list_elem_of_fmap. apply H2 in Hx. set_solver.
  - intros x [->|Hx]%elem_of_cons; [done|]. apply H2 in Hx. set_solver.
Qed.

Lemma dedup_first seen cs c : StronglySorted newer_first cs -> c ∈ dedup_ip seen cs -> c ∈ cs /\ forall d, d ∈ cs -> cd_OverlayIP d = cd_OverlayIP c -> cd_ID d <= cd_ID c.
Proof.
  intros Hs. revert seen. induction Hs as [|x cs Hs IH Hx]; intros seen; cbn; [by intros ?%elem_of_nil|].
  destruct (bool_decide (cd_OverlayIP x ∈ seen)) eqn:E; bool_split.
  - intros Hc. pose proof (proj2 (dedup_nodup seen cs) c Hc) as Hno. destruct (IH _ Hc) as [Hin Hmax]. split; [by right|].
    intros d [->|Hd]%elem_of_cons Hip; [|by apply Hmax]. destruct Hno. by rewrite <- Hip.
  - intros [->|Hc]%elem_of_cons.
    + split; [by left|]. intros d [->|Hd]%elem_of_cons _; [lia|]. by eapply Forall_forall in Hx.
    + pose proof (proj2 (dedup_nodup _ cs) c Hc) as Hno. destruct (IH _ Hc) as [Hin Hmax]. split; [by right|].
      intros d [->|Hd]%elem_of_cons Hip; [|by apply Hmax]. destruct Hno. rewrite <- Hip. by left.
Qed.

Definition candidates (pattern : string) (ips : list string) (s : CStore X) : list candidate :=
  dedup_ip [] (merge_sort newer_first (join_rows (filter (fun h => selected ceq pattern ips h = true) (cbeats s)) (crows s))).

Lemma regroup_candidate_row pattern ips s c : NoDup (row_ids s) -> c ∈ candidates pattern ips s ->
  exists r, newest (issued_at (cd_OverlayIP c)) (crows s) = Some r /\ of_row c r.
Proof.
  intros Hnd Hc. apply dedup_first in Hc as [Hc Hmax]; [|apply (StronglySorted_merge_sort newer_first); apply _].
  rewrite (merge_sort_Permutation newer_first) in Hc. apply join_elem in Hc as (h & r & Hh & Hr & Hat & ->). exists r. split; [|done].
  assert (Hip : cr_OverlayIP r = bt_OverlayIP h) by (unfold issued_at, at_ip in Hat; by bool_split).
  apply newest_max; [done|done|by cbn; rewrite Hip|]. intros r' Hr' Hat'. cbn in Hat'. rewrite Hip in Hat'.
  apply (Hmax (cand_of h r')); [|cbn; unfold issued_at, at_ip in *; bool_split; congruence].
  rewrite (merge_sort_Permutation newer_first). apply join_elem. by exists h, r'.
Qed.

(** ** Applying what was previewed *)

(** An entry as the console sends it back. *)
Definition to_apply (e : dryEntry) : applyEntry := mkApply (de_OverlayIP e) (de_EnrollmentID e) (de_BaseGeneration e) (de_Target e).

(** The row as an applied preview leaves it. *)
Definition retarget (es : list applyEntry) (r : CRow) : CRow :=
  match find_first (fun e => ae_EnrollmentID e =? cr_ID r) es with
  | Some e => with_desired (ae_Target e) (i64 (ae_BaseGeneration e + 1)) r
  | None => r
  end.

Lemma newest_map f g l : (forall e, f (g e) = f e) -> (forall e, cr_ID (g e) = cr_ID e) -> newest f (map g l) = g <$> newest f l.
Proof.
  intros Hf Hid. unfold newest. change (@None CRow) with (g <$> @None CRow) at 1. generalize (@None CRow) as acc.
  induction l as [|e l IH]; intros acc; cbn; [done|]. rewrite <- IH. f_equal. unfold newer. rewrite Hf. destruct (f e); [|done].
  destruct acc as [a|]; cbn; [|done]. rewrite !Hid. by destruct (_ <? _).
Qed.

Lemma retarget_same es r : cr_ID (retarget es r) = cr_ID r /\ (forall ip, issued_at ip (retarget es r) = issued_at ip r) /\ cr_Groups (retarget es r) = cr_Groups r.
Proof. unfold retarget. by destruct (find_first _ _). Qed.

(** An entry that still fits its row. *)
Definition fits (s : CStore X) (e : applyEntry) : Prop :=
  GrantsReservedGroup (ae_Target e) = false /\ normal (ae_Target e) /\
  exists r, newest (issued_at (ae_OverlayIP e)) (crows s) = Some r /\ cr_ID r = ae_EnrollmentID e /\ cr_GroupsGeneration r = ae_BaseGeneration e /\ GrantsReservedGroup (cr_Groups r) = false.

Lemma find_absent es k : k ∉ map ae_EnrollmentID es -> find_first (fun e => ae_EnrollmentID e =? k) es = None.
Proof.
  intros H. apply find_first_None. intros e He. apply Z.eqb_neq. intros <-. apply H. by apply list_elem_of_fmap_2.
Qed.

Lemma retarget_snoc es e r : ae_EnrollmentID e ∉ map ae_EnrollmentID es ->
  retarget (es ++ [e]) r = if ae_EnrollmentID e =? cr_ID r then with_desired (ae_Target e) (i64 (ae_BaseGeneration e + 1)) r else retarget es r.
Proof.
  intros He. unfold retarget. assert (forall l, find_first (fun x => ae_EnrollmentID x =? cr_ID r) (l ++ [e]) =
    match find_first (fun x => ae_EnrollmentID x =? cr_ID r) l with Some x => Some x | None => if ae_EnrollmentID e =? cr_ID r then Some e else None end) as ->.
  { induction l as [|x l IH]; cbn; [done|]. by destruct (ae_EnrollmentID x =? cr_ID r). }
  destruct (Z.eqb_spec (ae_EnrollmentID e) (cr_ID r)) as [E|]; [rewrite find_absent by (by rewrite <- E); done|by destruct (find_first _ es)].
Qed.

(** One entry, in a run without faults and interference. *)
Lemma apply_one_quiet t n actor pre e (s s' : CStore X) : NoDup (row_ids s) -> fits s e -> ae_EnrollmentID e ∉ map ae_EnrollmentID pre ->
  crows s' = map (retarget pre) (crows s) ->
  exists n' s'', applyRegroupOne actor e (quiet t) n s' = (Ok A_Applied, n', s'') /\ crows s'' = map (retarget (pre ++ [e])) (crows s).
Proof.
  intros Hnd (Hres & Hnorm & r & Hnew & Hid & Hgen & Hunres) He Hrows.
  assert (Hr : retarget pre r = r) by (unfold retarget; by rewrite find_absent by (by rewrite Hid)).
  destruct (newest_in _ _ _ Hnew) as [Hin _].
  assert (Hnew' : newest (issued_at (ae_OverlayIP e)) (crows s') = Some r).
  { rewrite Hrows, newest_map, Hnew; [by cbn; rewrite Hr| |]; intros x; apply retarget_same. }
  assert (Hcas : cas_row (ae_EnrollmentID e) (ae_BaseGeneration e) r = true) by (unfold cas_row, has_id; by rewrite Hid, Hgen, !Z.eqb_refl).
  assert (Hmem : r ∈ filter (fun x => cas_row (ae_EnrollmentID e) (ae_BaseGeneration e) x = true) (crows s')).
  { apply list_elem_of_filter. split; [done|]. rewrite Hrows. apply list_elem_of_fmap. by exists r. }
  unfold applyRegroupOne, issuedAt, attempt, query, exec, mbind, M_bind; cbn. rewrite Hnew'; cbn. rewrite Hid, Hgen, !Z.eqb_refl, Hunres, Hres; cbn.
  destruct (decide (length _ = 0%nat)) as [E|_]; [apply length_zero_iff_nil in E; rewrite E in Hmem; by apply elem_of_nil in Hmem|].
  eexists _, _. split; [reflexivity|]. cbn. rewrite Hrows, map_map. apply map_ext_in. intros x Hx. apply list_elem_of_In in Hx. rewrite retarget_snoc by done. rewrite Hnorm.
  destruct (Z.eqb_spec (ae_EnrollmentID e) (cr_ID x)) as [E|E].
  - assert (x = r) as -> by (eapply crow_unique; [done|done|done|congruence]). by rewrite Hr, Hcas.
  - unfold cas_row, has_id. rewrite (proj1 (retarget_same pre x)), (proj2 (Z.eqb_neq _ _)) by congruence. done.
Qed.

Lemma apply_all_quiet t actor es : forall n pre (s s' : CStore X), NoDup (row_ids s) -> Forall (fits s) es -> NoDup (map ae_EnrollmentID (pre ++ es)) ->
  crows s' = map (retarget pre) (crows s) ->
  exists n' s'', applyRegroup actor es (quiet t) n s' = (Ok (map (fun e => (ae_OverlayIP e, A_Applied)) es), n', s'') /\ crows s'' = map (retarget (pre ++ es)) (crows s).
Proof.
  induction es as [|e es IH]; intros n pre s s' Hnd Hfit Hids Hrows; cbn [applyRegroup].
  - exists n, s'. by rewrite app_nil_r.
  - apply Forall_cons in Hfit as [He Hes].
    assert (Hno : ae_EnrollmentID e ∉ map ae_EnrollmentID pre).
    { rewrite map_app in Hids. apply NoDup_app in Hids as (_ & H & _). intros Hin. apply (H _ Hin). by left. }
    destruct (apply_one_quiet t n actor pre e s s' Hnd He Hno Hrows) as (n1 & s1 & E1 & R1). unfold mbind, M_bind. rewrite E1.
    destruct (IH n1 (pre ++ [e]) s s1) as (n2 & s2 & E2 & R2); [done|done|by rewrite <- app_assoc|done|]. rewrite E2. exists n2, s2.
    split; [done|]. by rewrite R2, <- app_assoc.
Qed.
End preview.

Section roundtrip.
Context {X : Type} (cfg : GConfig X) (ceq : ascii -> ascii -> bool).

(** What the enrollment table satisfies: ids are a key, stored sets are normal, and a host
    with a reserved group also has one among its desired groups. *)
Record previewable (s : CStore X) : Prop := mkPreviewable {
  pv_ids : NoDup (row_ids s);
  pv_normal : forall r, r ∈ crows s -> normal (cr_DesiredGroups r);
  pv_reserved : forall r, r ∈ crows s -> GrantsReservedGroup (cr_Groups r) = true -> GrantsReservedGroup (cr_DesiredGroups r) = true;
}.

Lemma classify_quiet t pattern ips stale n (s : CStore X) : exists n' reaped,
  classifyRegroup cfg ceq pattern ips stale (quiet t) n s =
  (Ok (map (fun c => (c, state_reason reaped (gc_StaleAfter cfg) t stale c)) (candidates ceq pattern ips s)), n', s).
Proof.
  unfold classifyRegroup, regroupCandidates, reapedNameSet, deviceReapMarks, query, mbind, M_bind; cbn. fold (candidates ceq pattern ips s).
  destruct (decide (map cd_DeviceName _ = [])); cbn; eauto.
Qed.

(** Whatever the request, a previewed entry fits its row. *)
Lemma preview_fits t req s c why :
  previewable s -> GrantsReservedGroup (normGroups (rg_Add req)) = false -> GrantsReservedGroup (normGroups (rg_Replace req)) = false ->
  c ∈ candidates ceq (rg_NamePattern req) (rg_OverlayIPs req) s -> state_reason why (gc_StaleAfter cfg) t (rg_IncludeStale req) c = None ->
  forall b, fits s (to_apply (dry_entry c (applyDelta (cd_DesiredGroups c) (normGroups (rg_Add req)) (normGroups (rg_Remove req)) (normGroups (rg_Replace req)) b))).
Proof.
  intros [Hids Hnorm Hresv] Ha Hr Hc Hs b. destruct (regroup_candidate_row _ _ _ _ _ Hids Hc) as (r & Hnew & E1 & E2 & E3 & E4).
  destruct (newest_in _ _ _ Hnew) as [Hin _]. unfold state_reason in Hs. destruct (GrantsReservedGroup (cd_DesiredGroups c)) eqn:Eres; [done|].
  assert (Hn : normal (cd_DesiredGroups c)) by (rewrite E3; by apply Hnorm).
  split_and!; cbn.
  - apply unreserved_delta; try done; apply norm_normal.
  - unfold applyDelta. destruct b; apply norm_normal.
  - exists r. split_and!; [done|done|done|]. apply not_true_iff_false. intros H. apply Hresv in H; [|done]. congruence.
Qed.

Lemma nodup_transfer {A B C} (f : A -> B) (g : A -> C) l : NoDup (map f l) -> (forall x y, x ∈ l -> y ∈ l -> g x = g y -> f x = f y) -> NoDup (map g l).
Proof.
  induction l as [|x l IH]; cbn; [constructor|]. intros [Hx Hnd]%NoDup_cons H. constructor.
  - intros (y & Ey & Hy)%list_elem_of_fmap. apply Hx. apply list_elem_of_fmap. exists y. split; [|done]. apply H; [by left|by right|done].
  - apply IH; [done|]. intros; apply H; [by right|by right|done].
Qed.

Lemma candidate_ids pattern ips s : previewable s -> NoDup (map cd_ID (candidates ceq pattern ips s)).
Proof.
  intros Hp. apply (nodup_transfer cd_OverlayIP); [apply dedup_nodup|]. intros x y Hx Hy E.
  destruct (regroup_candidate_row _ _ _ _ _ (pv_ids _ Hp) Hx) as (r & Nr & Ir & Pr & _). destruct (regroup_candidate_row _ _ _ _ _ (pv_ids _ Hp) Hy) as (r' & Nr' & Ir' & Pr' & _).
  apply newest_in in Nr as [? _]. apply newest_in in Nr' as [? _]. rewrite Pr, Pr'. f_equal. eapply crow_unique; [apply Hp|done|done|congruence].
Qed.

(** What the dry run shows is what applying it does. From a consistent table and with
    nothing in between, sending a preview's entries back applies every one of them (at most
    the cap), each device's desired groups become its previewed target with the next
    generation, and no other row changes; the dry run itself writes nothing. *)
Theorem previewed_entries_apply t t' actor req entries skipped capped dc s s1 :
  previewable s -> run t (regroupDryRun cfg ceq req) s = (Ok (Reply 200 (B_Preview entries skipped capped dc)), s1) ->
  s1 = s /\ (length entries <= regroupMaxSet)%nat /\
  exists s2, run t' (applyRegroup actor (map to_apply entries)) s1 = (Ok (map (fun e => (de_OverlayIP e, A_Applied)) entries), s2) /\
    crows s2 = map (retarget (map to_apply entries)) (crows s).
Proof.
  intros Hp. unfold run, regroupDryRun. set (hasR := negb (bool_decide (rg_Replace req = []))). cbv zeta.
  destruct (negb hasR && _ && _); [done|]. destruct (negb (bool_decide (intersect _ _ = []))); [done|]. destruct (GrantsReservedGroup _ || _) eqn:Eres; [done|]. apply orb_false_iff in Eres as [Ea Er].
  destruct (classify_quiet t (rg_NamePattern req) (rg_OverlayIPs req) (rg_IncludeStale req) 0 s) as (n' & reaped & Ec). unfold attempt, mbind, M_bind. rewrite Ec. cbn [mret M_ret].
  unfold preview. set (delta := fun current => applyDelta _ _ _ _ _). set (cls := map _ (candidates _ _ _ _)).
  pose proof (dry_entries delta cls ([], [], 0%nat)) as Hdry. destruct (foldl _ _ _) as [[es sk] cap]. intros [= <- _ _ _ <-]. cbn [fst length app] in Hdry.
  rewrite Nat.sub_0_r in Hdry. specialize (Hdry ltac:(unfold regroupMaxSet; lia)). split; [done|]. split; [rewrite Hdry, length_take; lia|].
  set (sel := take regroupMaxSet (filter (fun cc => changes_set delta cc = true) cls)).
  assert (Hes : es = map (entry_of delta) sel) by (rewrite Hdry; unfold sel; by rewrite <- firstn_map).
  assert (Hsel : sel `sublist_of` cls) by (etrans; [apply sublist_take|apply sublist_filter]).
  destruct (apply_all_quiet t' actor (map to_apply es) 0 [] s s) as (n2 & s2 & E2 & R2).
  - apply Hp.
  - rewrite Hes, map_map. apply Forall_forall. intros e (cc & -> & Hcc)%list_elem_of_fmap.
    assert (Hch : changes_set delta cc = true /\ cc ∈ cls).
    { apply elem_of_take in Hcc as (i & Hi%list_elem_of_lookup_2 & _). by apply list_elem_of_filter in Hi as [? ?]. }
    destruct Hch as [Hch (c & -> & Hc)%list_elem_of_fmap]. unfold changes_set in Hch. bool_split. by eapply preview_fits.
  - cbn. rewrite Hes, !map_map. cbn. change (NoDup (map (fun cc : candidate * option skip => cd_ID cc.1) sel)).
    eapply sublist_NoDup; [|exact (fmap_sublist (fun cc : candidate * option skip => cd_ID cc.1) _ _ Hsel)].
    unfold cls. change (NoDup (map (fun cc : candidate * option skip => cd_ID cc.1) cls)). unfold cls. rewrite map_map. by apply candidate_ids.
  - rewrite <- (map_id (crows s)) at 1. apply map_ext. done.
  - rewrite E2. exists s2. split; [|done]. by rewrite map_map.
Qed.

(** ** Dual control *)

Lemma elevates_quiet t es n (s : CStore X) : exists n', some_elevates es (quiet t) n s =
  (Ok (existsb (fun e => match newest (issued_at (ae_OverlayIP e)) (crows s) with Some cur => groupsDropped (ae_Target e) (cr_DesiredGroups cur) | None => false end) es), n', s).
Proof.
  revert n. induction es as [|e es IH]; intros n; cbn [some_elevates existsb]; [by exists n|].
  unfold issuedAt, attempt, query, mbind, M_bind; cbn. destruct (newest _ _) as [cur|]; cbn; [|apply IH]. destruct (groupsDropped _ _); cbn; [eauto|apply IH].
Qed.

(** With dual control on and no fault, a request applied by one person is small and adds no
    group to any device. *)
Theorem direct_regroup_never_elevates t propose id req s results s' :
  gc_RegroupDualControl cfg = true -> gc_Propose cfg = Some propose ->
  run t (regroupApply cfg id req) s = (Ok (Reply 200 (B_Results results)), s') ->
  (length (rg_Entries req) <= regroupDCThreshold)%nat /\
  forall e cur g, e ∈ rg_Entries req -> newest (issued_at (ae_OverlayIP e)) (crows s) = Some cur -> g ∈ ae_Target e -> g ∈ cr_DesiredGroups cur.
Proof.
  intros Hdc Hp. unfold run, regroupApply. cbv zeta. destruct (decide _); [done|]. destruct (bool_decide (regroupMaxSet < _)%nat); [done|]. destruct (existsb _ _); [done|].
  rewrite Hp, Hdc. unfold applyNeedsDualControl. destruct (bool_decide (regroupDCThreshold < _)%nat) eqn:El.
  - unfold mbind, M_bind, attempt; cbn. by destruct (propose _ _ _ _ _) as [[[]]].
  - bool_split. destruct (elevates_quiet t (rg_Entries req) 0 s) as [n' E]. unfold mbind at 1, M_bind at 1. rewrite E. clear E.
    destruct (existsb _ _) eqn:Ex; [unfold mbind, M_bind, attempt; cbn; by destruct (propose _ _ _ _ _) as [[[]]]|]. intros _. split; [lia|].
    intros e cur g He Hcur Hg. eapply existsb_elem_false in Ex; [|exact He]. cbn in Ex. rewrite Hcur in Ex. unfold groupsDropped in Ex.
    eapply existsb_elem_false in Ex; [|exact Hg]. by bool_split.
Qed.
End roundtrip.

(** ** A small fleet *)

Definition exact : ascii -> ascii -> bool := fun a b => bool_decide (a = b).
Definition web_row (id : Z) (name ip : string) : CRow := mkCRow id name ip "issued" "500" ["web"] ["web"] 1 1 "f1" "ca1" "linux" "amd64" false 0 false.
Definition seen_beat (name ip : string) : Beat := mkBeat ip name "" "" 0 0 0 0 0 0 "ok" (90 * second) [] [].
Definition demo_fleet : CStore unit :=
  mkCStore [web_row 1 "web-1" "10.0.0.1"; web_row 2 "web-2" "10.0.0.2"; web_row 3 "db_1" "10.0.0.3"]
    [seen_beat "web-1" "10.0.0.1"; seen_beat "web-2" "10.0.0.2"; seen_beat "db_1" "10.0.0.3"] [] no_revs demo_addr tt [] [].
Definition operator : Identity := mkIdentity "op" [RoleOperator] (Some (99 * second)).
Definition demo_gcfg : GConfig unit := mkGConfig (600 * second) (300 * second) true (Some (fun _ _ => mret 7)).

(** Toy codecs: every body is the request at hand. *)
Definition add_db : regroupReq := mkRegroup "web-?" [] ["db"] [] [] false [].
Definition apply_req (es : list applyEntry) : regroupReq := mkRegroup "" [] [] [] [] false es.

Lemma demo_previewable : previewable demo_fleet.
Proof.
  split.
  - change (NoDup [1; 2; 3]). repeat constructor; set_solver.
  - intros r H. repeat (apply elem_of_cons in H as [->|H]; [reflexivity|]). by apply elem_of_nil in H.
  - intros r H. repeat (apply elem_of_cons in H as [->|H]; [done|]). by apply elem_of_nil in H.
Qed.

Lemma previewed_entries_apply_witness :
  exists entries skipped capped dc s1, run (100 * second) (regroupDryRun demo_gcfg exact add_db) demo_fleet = (Ok (Reply 200 (B_Preview entries skipped capped dc)), s1) /\
  map de_Target entries = [["web"; "db"]; ["web"; "db"]] /\
  exists s2, run (100 * second) (applyRegroup "op" (map to_apply entries)) s1 = (Ok (map (fun e => (de_OverlayIP e, A_Applied)) entries), s2) /\
    crows s2 = map (retarget (map to_apply entries)) (crows demo_fleet).
Proof.
  eexists _, _, _, _, _. split; [vm_compute; reflexivity|]. split; [reflexivity|].
  refine (proj2 (proj2 (previewed_entries_apply demo_gcfg exact (100 * second) (100 * second) "op" add_db _ _ _ _ demo_fleet _ demo_previewable _))).
  vm_compute. reflexivity.
Defined.

Definition db_entry : applyEntry := mkApply "10.0.0.1" 1 1 ["web"].

Lemma bulk_regroup_loses_no_update_witness :
  wpt (fun t => t = 100 * second) core_step (bulk_step (may_regroup demo_gcfg (fun t => t = 100 * second) operator) core_step demo_fleet [db_entry])
    (handleDeviceRegroup demo_gcfg exact (fun _ => Some (apply_req [db_entry])) operator false (Some ""))
    (fun r s' => exists resp, r = Ok resp /\ forall results, resp = Reply 200 (B_Results results) ->
       outcomes core_step demo_fleet [db_entry] demo_fleet [db_entry] results s') demo_fleet.
Proof.
  apply (bulk_regroup_loses_no_update demo_gcfg (fun t => t = 100 * second) core_step core_regroups
    (fun propose es p (H : Some _ = Some propose) => match H in _ = o return match o with Some f => confined (f es p) | None => True end with
       eq_refl => fun T R s => wp_ret T R quiet_step 7 _ s I end)
    demo_fleet (pv_ids _ demo_previewable) exact (fun _ => Some (apply_req [db_entry])) operator false (Some "") (apply_req [db_entry]) demo_fleet).
  - vm_compute. reflexivity.
  - reflexivity.
  - reflexivity.
  - apply Forall_singleton. vm_compute. split; [discriminate|reflexivity].
Defined.

(** ** Where the code does not do what it says *)

(** The reserved-group guard reads the target as it was sent, and the write trims it: an
    operator's bulk entry with blanks around a reserved group is applied, and the host's
    next renewal signs control-plane. *)
Definition spaced : applyEntry := mkApply "10.0.0.1" 1 1 ["web"; " control-plane "].
Lemma spaced_reserved_group_is_assigned :
  let no_dc := mkGConfig (600 * second) (300 * second) false None in
  let '(r, s1) := run (100 * second) (handleDeviceRegroup no_dc exact (fun _ => Some (apply_req [spaced])) operator false (Some "")) demo_fleet in
  let '(r', s2) := run (101 * second) (handleRenew demo_core_lib (demo_core 0) "10.0.0.1:4000" (Some "")) s1 in
  r = Ok (Reply 200 (B_Results [("10.0.0.1", A_Applied)])) /\ r' = Ok (R_Bundle "jws") /\ map tp_Groups (c_signed s2) = [["web"; GroupControlPlane]].
Proof. vm_compute. by split_and!. Qed.

(** The routing check passes over an entry it cannot read: one failed query, and a change
    that adds a group is applied without a second approver. *)
Definition flaky : Env (CStore unit) := mkEnv (fun _ => 100 * second) (fun k => bool_decide (k = 1%nat)) (fun _ s => s).
Definition elevating : applyEntry := mkApply "10.0.0.1" 1 1 ["web"; "db"].
Lemma dual_control_fails_open :
  let handler := handleDeviceRegroup demo_gcfg exact (fun _ => Some (apply_req [elevating])) operator false (Some "") in
  (run (100 * second) handler demo_fleet).1 = Ok (Reply 202 (B_Change 7)) /\
  let '(r, _, s') := handler flaky 0%nat demo_fleet in
  r = Ok (Reply 200 (B_Results [("10.0.0.1", A_Applied)])) /\ cr_DesiredGroups <$> (crows s' !! 0%nat) = Some ["web"; "db"].
Proof. vm_compute. by split_and!. Qed.

(** Setting one device's groups is not a compare-and-set: between its read and its write
    another operator's change and the host's renewal fit, both changes carry generation 2,
    and the host is never told to renew to the groups the database now wants. *)
Definition patch (groups : list string) : M (CStore unit) coerr (reply gbody) := handleDeviceGroupSet demo_gcfg (fun _ => Some groups) operator "10.0.0.1" (Some "").
Definition overtaken : Env (CStore unit) := mkEnv (fun _ => 100 * second) (fun _ => false)
  (fun k s => if bool_decide (k = 2%nat) then (run (100 * second) (handleRenew demo_core_lib (demo_core 0) "10.0.0.1:4000" (Some "")) (run (100 * second) (patch ["db"]) s).2).2 else s).
Lemma concurrent_group_sets_lose_one :
  let '(r, _, s') := patch ["ops"] overtaken 0%nat demo_fleet in
  r = Ok (Reply 200 (B_Device "10.0.0.1" ["ops"] 2 true)) /\
  (fun e => (cr_DesiredGroups e, cr_GroupsGeneration e, cr_Groups e, cr_IssuedGeneration e)) <$> (crows s' !! 0%nat) = Some (["ops"], 2, ["db"], 2) /\
  (run (101 * second) (handleHeartbeat demo_core_lib (demo_core 0) "10.0.0.1:4000" (Some "")) s').1 = Ok (R_Commands []).
Proof. vm_compute. by split_and!. Qed.
