(* ===== verification/AdminConfig.v ===== *)
(** * The declarative configuration: internal/config and its admin API

    The config store (Get, Set, SeedIfEmpty), the PUT and GET of the three configuration
    kinds with their validators and the routing of privileged changes, the committers that
    write the store at quorum, the approval endpoints, and the views of the active
    configurations (adminapi.go). They share the database with the dual-control tables, so
    the state is that of DualControl.v; the committer of device re-groups, which writes the
    enrollments only, is a parameter. JSON, SHA-256 and time formatting are parameters. A
    transaction runs alone on SQLite; on Postgres (read committed, no lock is taken) others
    may commit between its statements. *)

From S2P Require Import Prelude Db Bytes GoStrings Policy Trust DualControl Rbac.
From stdpp Require Import prelude strings list gmap relations pretty.
From Stdlib Require Import ZArith Lia Ascii.
Open Scope Z_scope.

Definition CloudTrustKind : string := "cloudtrust.publish".
Definition UserTrustKind : string := "usertrust.publish".
Definition regroupKind : string := "device.groups".

(** ** internal/config *)

Definition of_kind (kind : string) (r : ConfigRow) : bool := bool_decide (cf_Kind r = kind).

Definition ErrNoKind : derr := DC_Rejected "config: a kind is required".

Section store.
Context (postgres : bool).
Abbreviation DM := (M DStore derr).

Definition db_tx {A} (m : DM A) : DM A := if postgres then m else tx m.

Definition config_Get (kind : string) : DM (option ConfigRow) :=
  if decide (kind = "") then throw ErrNoKind else query (fun s => find_first (of_kind kind) (d_conf s)).

(** [tx.Create]; the kind is the primary key. *)
Definition create_row (row : ConfigRow) (s : DStore) : result derr (ConfigRow * DStore) :=
  if existsb (of_kind (cf_Kind row)) (d_conf s) then Err DC_Duplicated else Ok (row, set_conf (d_conf s ++ [row]) s).
Definition replace_row (row : ConfigRow) (s : DStore) : ConfigRow * DStore :=
  (row, set_conf (map (fun r => if of_kind (cf_Kind row) r then row else r) (d_conf s)) s).

Definition set_tx (kind payload actor : string) (t : Z) : DM ConfigRow :=
  cur ← query (fun s => find_first (of_kind kind) (d_conf s));
  let version := match cur with Some r => i64 (cf_Version r + 1) | None => 1 end in
  let out := mkConfigRow kind payload version t actor in
  if version =? 1 then exec_err (create_row out) else exec (replace_row out).

Definition config_Set (kind payload actor : string) : DM ConfigRow :=
  if decide (kind = "") then throw ErrNoKind
  else
    t ← now;
    out ← db_tx (set_tx kind payload actor t);
    _ ← exec (fun s => ((), add_daudit (actor, "config-set", kind, "version=" +:+ pretty (cf_Version out)) s));
    mret out.

Definition SeedIfEmpty (kind payload actor : string) : DM bool :=
  if decide (kind = "") then throw ErrNoKind
  else
    t ← now;
    db_tx (
      cur ← query (fun s => find_first (of_kind kind) (d_conf s));
      match cur with
      | Some _ => mret false
      | None => _ ← exec_err (create_row (mkConfigRow kind payload 1 t actor)); mret true
      end).
End store.

(** ** The configuration kinds *)

(** The codecs of the bodies and payloads. *)
Record ConfigLib : Type := mkConfigLib {
  jl_unmarshalString : string -> option string;
  jl_decodeCloud : string -> option CloudTrust.Config;
  jl_marshalCloud : CloudTrust.Config -> string;
  jl_decodeUser : string -> option UserTrust.Config;
  jl_marshalUser : UserTrust.Config -> string;
  jl_decodeReason : string -> option string;
  jl_sha256 : string -> string;
  jl_format : Z -> string;                       (* time.RFC3339 of unix nanoseconds *)
}.

Record configKind : Type := mkKind { publishKind : string; kind_perm : Permission; prepare : string -> option (string * bool) }.

Section kinds.
Context (lib : ConfigLib).

Definition parsePolicy (dsl : string) : option Policy :=
  match Policy.Parse dsl with
  | Err _ => None
  | Ok p => match CheckInvariants p with Ok _ => Some p | Err _ => None end
  end.
Definition parseCloud (b : string) : option CloudTrust.Config :=
  match CloudTrust.Parse (jl_decodeCloud lib) b with Some (Ok c) => Some c | _ => None end.
Definition parseUser (b : string) : option UserTrust.Config :=
  match UserTrust.Parse (jl_decodeUser lib) b with Some (Ok c) => Some c | _ => None end.

Definition preparePolicy (body : string) : option (string * bool) :=
  let dsl := default body (jl_unmarshalString lib body) in
  p ← parsePolicy dsl; Some (dsl, ContainsReservedRef p).
Definition prepareCloud (body : string) : option (string * bool) :=
  c ← parseCloud body; Some (jl_marshalCloud lib c, CloudTrust.ContainsPrivileged c).
Definition prepareUser (body : string) : option (string * bool) :=
  c ← parseUser body; Some (jl_marshalUser lib c, UserTrust.ContainsPrivileged c).

Definition configKinds (name : string) : option configKind :=
  if decide (name = "policy") then Some (mkKind PublishKind PermPolicyManage preparePolicy)
  else if decide (name = "cloudtrust") then Some (mkKind CloudTrustKind PermCloudTrustManage prepareCloud)
  else if decide (name = "usertrust") then Some (mkKind UserTrustKind PermUserTrustManage prepareUser)
  else None.

(** ** The controller [New] wires *)

Definition config_committer (postgres : bool) (kind : string) (validate : string -> bool) (ch : Change) : M DStore derr unit :=
  if negb (validate (ch_Payload ch)) then throw (DC_Rejected "invalid")
  else _ ← config_Set postgres kind (ch_Payload ch) (ch_Proposer ch); mret ().

Definition validPolicy (b : string) : bool := bool_decide (is_Some (parsePolicy b)).
Definition validCloud (b : string) : bool := bool_decide (is_Some (parseCloud b)).
Definition validUser (b : string) : bool := bool_decide (is_Some (parseUser b)).

Definition admin_controller (postgres : bool) (commitRegroup : Change -> M DStore derr unit) : Controller :=
  Register (Register (Register (Register (New true 0)
    PublishKind (config_committer postgres PublishKind validPolicy))
    CloudTrustKind (config_committer postgres CloudTrustKind validCloud))
    UserTrustKind (config_committer postgres UserTrustKind validUser))
    regroupKind commitRegroup.
End kinds.

(** ** The handlers *)

(** The API views. *)
Record ChangeView : Type := mkChangeView {
  cv_ID : Z; cv_Kind : string; cv_Target : string; cv_State : string; cv_Quorum : Z; cv_Proposer : string;
  cv_PayloadSHA : string; cv_CreatedAt : string; cv_DecidedAt : string; cv_Payload : string }.

Inductive cbody : Type :=
| CB_Change (ch : ChangeView)
| CB_Changes (l : list ChangeView)
| CB_Detail (ch : ChangeView) (signoffs : list (string * string * string))
| CB_Row (kind : string) (row : ConfigRow)
| CB_Unset (kind : string)
| CB_Unpublished
| CB_Policy (version : Z) (hash text : string) (rules : list Rule)
| CB_Cloud (version : Z) (hash : string) (cfg : CloudTrust.Config)
| CB_User (version : Z) (hash : string) (cfg : UserTrust.Config).

Definition pathID (s : string) : option Z :=
  match Atoi s with Some n => if n <=? 0 then None else Some n | None => None end.

(** [readJSON]: an empty body leaves the zero value; [None] is over the limit. *)
Definition readJSON {A} (decode : string -> option A) (zero : A) (body : option string) : option A :=
  match body with None => None | Some "" => Some zero | Some b => decode b end.

Definition mapDCErr (e : derr) : reply cbody :=
  match e with
  | DC_NotFound => Problem 404 "not found"
  | DC_SelfApproval _ => Problem 409 "self-approval not allowed"
  | DC_DuplicateActor _ => Problem 409 "already signed"
  | DC_NotPending => Problem 409 "not pending"
  | DC_Commit _ => Problem 422 "change rejected at commit"
  | _ => Problem 500 "internal error"
  end.

Section server.
Context (lib : ConfigLib) (postgres : bool) (freshness : Z) (c : Controller) (tid : nat).
Abbreviation DM := (M DStore derr).

Definition rfc3339 (ns : Z) : string := if ns =? 0 then "" else jl_format lib ns.
Definition payloadHash (payload : string) : string := jl_sha256 lib payload.

Definition changeView (ch : Change) (withPayload : bool) : ChangeView :=
  mkChangeView (ch_ID ch) (ch_Kind ch) (ch_Target ch) (ch_State ch) (ch_Quorum ch) (ch_Proposer ch) (hex (ch_PayloadHash ch))
    (rfc3339 (ch_CreatedAt ch)) (rfc3339 (ch_DecidedAt ch)) (if withPayload then ch_Payload ch else "").

Definition dc_reply (r : result derr Change) : reply cbody :=
  match r with Ok ch => Reply 200 (CB_Change (changeView ch true)) | Err e => mapDCErr e end.

Definition handleApprovals (state : string) : DM (reply cbody) :=
  r ← attempt (ListChanges state);
  mret (match r with
        | Ok l => Reply 200 (CB_Changes (map (fun ch => changeView ch false) l))
        | Err _ => Problem 500 "internal error"
        end).

Definition handleApproval (id : string) : DM (reply cbody) :=
  match pathID id with
  | None => mret (Problem 400 "bad id")
  | Some cid =>
      r ← attempt (Get cid);
      mret (match r with
            | Ok (ch, sigs) => Reply 200 (CB_Detail (changeView ch true) (map (fun g => (sg_Actor g, sg_Decision g, rfc3339 (sg_CreatedAt g))) sigs))
            | Err e => mapDCErr e
            end)
  end.

Definition handleApprove (id : Identity) (path : string) : DM (reply cbody) :=
  requirePerm id PermApprovalDecide (withStepUp freshness id (
    match pathID path with
    | None => mret (Problem 400 "bad id")
    | Some cid => r ← attempt (Approve c tid cid (id_Principal id)); mret (dc_reply r)
    end)).

Definition handleDeny (id : Identity) (path : string) (body : option string) : DM (reply cbody) :=
  requirePerm id PermApprovalDecide (
    match pathID path with
    | None => mret (Problem 400 "bad id")
    | Some cid =>
        match readJSON (jl_decodeReason lib) "" body with
        | None => mret (Problem 400 "bad request")
        | Some reason => r ← attempt (Deny c cid (id_Principal id) reason); mret (dc_reply r)
        end
    end).

(** PUT /admin/v1/config/{kind}, validated: privileged changes are proposed. *)
Definition config_write (id : Identity) (name : string) (ck : configKind) (payload : string) (privileged : bool) : DM (reply cbody) :=
  if privileged then
    ch ← attempt (Propose (jl_sha256 lib) c (publishKind ck) (name +:+ " config (privileged — needs a distinct second approver)") payload (id_Principal id));
    mret (match ch with Ok ch => Reply 202 (CB_Change (changeView ch true)) | Err _ => Problem 500 "internal error" end)
  else
    row ← attempt (config_Set postgres (publishKind ck) payload (id_Principal id));
    mret (match row with Ok row => Reply 200 (CB_Row name row) | Err _ => Problem 500 "internal error" end).

Definition handleConfigSet (id : Identity) (name : string) (body : option string) : DM (reply cbody) :=
  match configKinds lib name with
  | None => mret (Problem 404 "unknown config kind")
  | Some ck =>
      requirePerm id (kind_perm ck) (withStepUp freshness id (
        match body with
        | None => mret (Problem 400 "bad request")
        | Some "" => mret (Problem 400 "config required")
        | Some b =>
            match prepare ck b with
            | None => mret (Problem 400 "invalid config")
            | Some (payload, privileged) => config_write id name ck payload privileged
            end
        end))
  end.

Definition handleConfigGet (name : string) : DM (reply cbody) :=
  match configKinds lib name with
  | None => mret (Problem 404 "unknown config kind")
  | Some ck =>
      r ← attempt (config_Get (publishKind ck));
      mret (match r with
            | Err _ => Problem 500 "internal error"
            | Ok None => Reply 200 (CB_Unset name)
            | Ok (Some row) => Reply 200 (CB_Row name row)
            end)
  end.

(** The views of the active configurations: the stored payload, parsed. *)
Definition active {A} (kind : string) (parse : string -> option A) (view : ConfigRow -> A -> cbody) : DM (reply cbody) :=
  r ← attempt (config_Get kind);
  mret (match r with
        | Err _ => Problem 500 "internal error"
        | Ok None => Reply 200 CB_Unpublished
        | Ok (Some row) => match parse (cf_Payload row) with Some a => Reply 200 (view row a) | None => Problem 500 "internal error" end
        end).
Definition storedPolicy (b : string) : option Policy := match Policy.Parse b with Ok p => Some p | Err _ => None end.
Definition handlePolicyActive : DM (reply cbody) :=
  active PublishKind storedPolicy (fun row p => CB_Policy (cf_Version row) (hex (payloadHash (cf_Payload row))) (cf_Payload row) (Rules p)).
Definition handleCloudTrustActive : DM (reply cbody) :=
  active CloudTrustKind (parseCloud lib) (fun row cfg => CB_Cloud (cf_Version row) (hex (payloadHash (cf_Payload row))) cfg).
Definition handleUserTrustActive : DM (reply cbody) :=
  active UserTrustKind (parseUser lib) (fun row cfg => CB_User (cf_Version row) (hex (payloadHash (cf_Payload row))) cfg).
End server.

(** ** Who may put what into force *)

Section authority.
Context (lib : ConfigLib).

(** What the readers of a kind accept, and which payloads need a second person. *)
Definition valid (kind payload : string) : Prop :=
  (kind = PublishKind /\ is_Some (parsePolicy payload)) \/ (kind = CloudTrustKind /\ is_Some (parseCloud lib payload)) \/
  (kind = UserTrustKind /\ is_Some (parseUser lib payload)).
Definition privileged (kind payload : string) : Prop :=
  (kind = PublishKind /\ exists p, parsePolicy payload = Some p /\ ContainsReservedRef p = true) \/
  (kind = CloudTrustKind /\ exists cfg, parseCloud lib payload = Some cfg /\ CloudTrust.ContainsPrivileged cfg = true) \/
  (kind = UserTrustKind /\ exists cfg, parseUser lib payload = Some cfg /\ UserTrust.ContainsPrivileged cfg = true).

(** One write of the config table. *)
Definition conf_write (kind payload actor : string) (l l' : list ConfigRow) : Prop :=
  exists version t, let row := mkConfigRow kind payload version t actor in
    l' = l ++ [row] \/ l' = map (fun r => if of_kind kind r then row else r) l.

#[export] Instance admin_effects : Effects := {|
  eff_direct l l' := exists kind payload actor, valid kind payload /\ ~ privileged kind payload /\ conf_write kind payload actor l l';
  eff_commit kind payload actor l l' := valid kind payload /\ conf_write kind payload actor l l' |}.

(** Every stored configuration is valid, and a privileged one is the payload of a change
    whose commit was claimed, proposed by the recorded writer. *)
Definition config_authorized (s : DStore) : Prop :=
  forall row, row ∈ d_conf s -> valid (cf_Kind row) (cf_Payload row) /\
    (privileged (cf_Kind row) (cf_Payload row) ->
     exists ch, ch ∈ changes s /\ decided (ch_State ch) /\ ch_Kind ch = cf_Kind row /\ ch_Payload ch = cf_Payload row /\ ch_Proposer ch = cf_UpdatedBy row).

Lemma write_rows kind payload actor l l' row : conf_write kind payload actor l l' -> row ∈ l' ->
  row ∈ l \/ (cf_Kind row = kind /\ cf_Payload row = payload /\ cf_UpdatedBy row = actor).
Proof.
  intros (v & t & [->| ->]).
  - intros [?| ->%list_elem_of_singleton]%elem_of_app; [by left|by right].
  - intros (r & -> & Hr)%list_elem_of_fmap. destruct (of_kind kind r); [by right|by left].
Qed.

(** Rows with equal ids are equal. *)
Ltac the_row s x y :=
  assert (x = y) as -> by (eapply (ids_unique s); [match goal with H : dc_inv s |- _ => apply H end|done|done|
    first [done|match goal with H : same_change _ _ |- _ => let E := fresh in destruct H as [E _]; first [exact E|by repeat (destruct (by_id _ _); cbn in E)|by destruct (by_id _ _ && _)] end]]).

(** A decided change stays one. *)
Lemma decided_step t s s' ch : dc_inv s -> dc_step t s s' -> ch ∈ changes s -> decided (ch_State ch) ->
  exists ch', ch' ∈ changes s' /\ decided (ch_State ch') /\ same_change ch ch'.
Proof.
  intros Hi Hs Hin Hd. pose proof (inv_step t s s' Hs Hi) as Hi'. destruct (step_rows t s s' ch Hs Hin) as (ch' & Hin' & Hsc).
  exists ch'. split_and!; [done| |done]. destruct (decide (ch_State ch = StateCommitting)) as [Ec|Ec].
  - destruct Hs as [Hm _]. destruct Hm as [s' Hsame|c0 sg s' Hid ? ? ? ? ? ? Hch|c0 sg s' ? ? ? ? ? ? ? Hch|c0 sgs d s' Hin0 Hp ? Hch|c0 s' Hin0 Hp ? Hch|id s' ? ? Hch|c0 st d s' Hin0 Hc0 ? Hst Hch].
    + destruct Hsame as (Hch & _). rewrite Hch in Hin'. by the_row s ch' ch.
    + assert (ch ∈ changes s') by (rewrite Hch; apply elem_of_app; by left). by the_row s' ch' ch.
    + rewrite Hch in Hin'. by the_row s ch' ch.
    + rewrite Hch in Hin'. apply upd_in in Hin' as (x & Hx & ->). the_row s x ch.
      destruct (by_id (ch_ID c0) ch) eqn:E; [|done]. unfold by_id in E. bool_split. the_row s c0 ch. by rewrite Ec in Hp.
    + rewrite Hch in Hin'. apply upd_in in Hin' as (x & Hx & ->). the_row s x ch. by destruct (by_id _ ch && _); [left|].
    + rewrite Hch in Hin'. by the_row s ch' ch.
    + rewrite Hch in Hin'. apply upd_in in Hin' as (x & Hx & ->). the_row s x ch. destruct (by_id _ ch); [|done]. right. destruct Hst as [->| ->]; auto.
  - assert (ch ∈ changes s') as Hk.
    { eapply (step_keeps t s s'); [exact Hi|exact Hs|done| |by intros ?%Ec]. intros E. rewrite E in Hd. by destruct Hd as [?|[?|?]]. }
    by the_row s' ch' ch.
Qed.

Lemma authorized_step t s s' : dc_inv s -> dc_step t s s' -> config_authorized s -> config_authorized s'.
Proof.
  intros Hi Hs Ha row Hrow.
  assert (Hold : row ∈ d_conf s -> valid (cf_Kind row) (cf_Payload row) /\ (privileged (cf_Kind row) (cf_Payload row) ->
     exists ch, ch ∈ changes s' /\ decided (ch_State ch) /\ ch_Kind ch = cf_Kind row /\ ch_Payload ch = cf_Payload row /\ ch_Proposer ch = cf_UpdatedBy row)).
  { intros [Hv Hp]%Ha. split; [done|]. intros (ch & Hin & Hd & E1 & E2 & E3)%Hp. destruct (decided_step t s s' ch Hi Hs Hin Hd) as (ch' & ? & ? & Hsc).
    destruct Hsc as (_ & Ek & _ & Ep & _ & _ & Er). exists ch'. split_and!; [done|done|congruence..]. }
  pose proof Hs as [Hm Hc]. destruct Hc as [E|(kind & payload & actor & Hv & Hnp & Hw)|ch Hin Hd [Hv Hw]].
  - rewrite E in Hrow. by apply Hold.
  - destruct (write_rows _ _ _ _ _ _ Hw Hrow) as [?|(-> & -> & _)]; [by apply Hold|]. by split.
  - destruct (write_rows _ _ _ _ _ _ Hw Hrow) as [?|(-> & -> & ->)]; [by apply Hold|]. split; [done|]. intros _.
    destruct (decided_step t s s' ch Hi Hs Hin Hd) as (ch' & ? & ? & Hsc). destruct Hsc as (_ & Ek & _ & Ep & _ & _ & Er). by exists ch'.
Qed.

Context (postgres : bool) (freshness : Z) (commitRegroup : Change -> M DStore derr unit) (tid : nat).
Abbreviation dc := (admin_controller lib postgres commitRegroup).

(** The re-group committer writes neither the approvals nor the configurations. *)
Class RegroupOK : Prop := regroup_ok : forall ch T R s, wpt T R (fun s s' => same_tables s s' /\ d_conf s' = d_conf s) (commitRegroup ch) (fun _ _ => True) s.
Context {HRG : RegroupOK}.

(** A write of the store, in either database. *)
Lemma Set_wp T R (G : relation DStore) kind payload actor (Q : result derr ConfigRow -> DStore -> Prop) s :
  (forall s e, G s (add_daudit e s)) ->
  (forall s l, conf_write kind payload actor (d_conf s) l -> G s (set_conf l s)) ->
  (forall r s', Q r s') -> wpt T R G (config_Set postgres kind payload actor) Q s.
Proof.
  intros Ha Hw HQ. eapply (wp_mono _ _ _ _ _ (fun _ _ => True)); [|auto]. unfold config_Set. destruct (decide (kind = "")); [by wp_step|].
  wp_step. wp_step. assert (Htail : forall out s1, wpt T R G (_ ← exec (fun s => ((), add_daudit (actor, "config-set", kind, "version=" +:+ pretty (cf_Version out)) s)); mret out : M DStore derr ConfigRow) (fun _ _ => True) s1).
  { intros out s1. wp_step. wp_step; [done|]. split; [apply Ha|]. by wp_step. }
  assert (Hput : forall row s1, cf_Kind row = kind -> cf_Payload row = payload -> cf_UpdatedBy row = actor ->
    match create_row row s1 with Ok (_, s2) => G s1 s2 | Err _ => True end /\ G s1 (replace_row row s1).2).
  { intros [k p v u a] s1; cbn. intros -> -> ->. unfold create_row, replace_row; cbn. split; [destruct (existsb _ _); [done|]|]; apply Hw; exists v, u; auto. }
  unfold db_tx, set_tx. destruct postgres.
  - wp_step. wp_step. wp_step; [done|]. cbv zeta. set (out := mkConfigRow _ _ _ _ _). destruct (_ =? 1).
    + wp_step; [done|]. match goal with |- context [create_row out ?s1] => pose proof (proj1 (Hput out s1 eq_refl eq_refl eq_refl)) as Hcr; destruct (create_row out s1) as [[row s2]|] eqn:E end; [|done].
      split; [done|apply Htail].
    + wp_step; [done|]. cbn. split; [apply (Hput out); done|apply Htail].
  - wp_step. wp_step; [done|]. wp_step. wp_step; [done|]. cbv zeta. set (out := mkConfigRow _ _ _ _ _). destruct (_ =? 1).
    + wp_step; [done|]. match goal with |- context [create_row out ?s1] => pose proof (proj1 (Hput out s1 eq_refl eq_refl eq_refl)) as Hcr; destruct (create_row out s1) as [[row s2]|] eqn:E end; [|done].
      split; [done|]. split; [done|apply Htail].
    + wp_step; [done|]. cbn. split; [done|]. split; [apply (Hput out); done|]. apply Htail.
Qed.

Lemma committer_wp kind validate ch T R s : (forall b, validate b = true -> valid kind b) -> ch_Kind ch = kind ->
  wpt T R (committing ch) (config_committer postgres kind validate ch) (fun _ _ => True) s.
Proof.
  intros Hv Hk. unfold config_committer. destruct (validate (ch_Payload ch)) eqn:E; cbn [negb]; [|by wp_step].
  wp_step. apply Set_wp; [|intros s1 l Hw|intros [row|e] s1; [by wp_step|done]].
  - intros s1 e. split; [done|by left].
  - split; [done|]. right. rewrite Hk. split; [by apply Hv|done].
Qed.

#[export] Instance admin_committers : CommittersOK dc.
Proof.
  intros ch fn. unfold admin_controller, Register; cbn [committers]. rewrite !lookup_insert_Some.
  intros [[Hk <-]|[_ [[Hk <-]|[_ [[Hk <-]|[_ [[Hk <-]|[_ Hnone]]]]]]]] T R s; [|apply committer_wp; [|done]..|cbn in Hnone; by rewrite lookup_empty in Hnone].
  - eapply wp_weaken; [apply regroup_ok|done|done|]. intros a b [?|[? ?]]; [by left|right]. split; [done|by left].
  - intros b Hb. unfold validUser in Hb. bool_split. right. right. by split.
  - intros b Hb. unfold validCloud in Hb. bool_split. right. left. by split.
  - intros b Hb. unfold validPolicy in Hb. bool_split. left. by split.
Qed.

(** What is stored is validated: the payload the PUT derives from a body. *)
Class Roundtrips : Prop := {
  rt_cloud cfg : jl_decodeCloud lib (jl_marshalCloud lib cfg) = Some cfg;
  rt_user cfg : jl_decodeUser lib (jl_marshalUser lib cfg) = Some cfg;
}.
Context {HRT : Roundtrips}.

Lemma cloud_again b cfg : parseCloud lib b = Some cfg -> parseCloud lib (jl_marshalCloud lib cfg) = Some cfg.
Proof.
  unfold parseCloud, CloudTrust.Parse. rewrite rt_cloud. destruct (jl_decodeCloud lib b) as [c0|]; [|done].
  destruct (CloudTrust.Validate c0) eqn:E; [|done]. intros [= ->]. by rewrite E.
Qed.
Lemma user_again b cfg : parseUser lib b = Some cfg -> parseUser lib (jl_marshalUser lib cfg) = Some cfg.
Proof.
  unfold parseUser, UserTrust.Parse. rewrite rt_user. destruct (jl_decodeUser lib b) as [c0|]; [|done].
  destruct (UserTrust.Validate c0) eqn:E; [|done]. intros [= ->]. by rewrite E.
Qed.

Lemma prepared name ck b payload priv : configKinds lib name = Some ck -> prepare ck b = Some (payload, priv) ->
  valid (publishKind ck) payload /\ (privileged (publishKind ck) payload -> priv = true).
Proof.
  unfold configKinds. intros Hck. unfold valid, privileged. repeat case_decide; [..|done]; injection Hck as <-; cbn [publishKind prepare].
  - unfold preparePolicy. intros (p & Hp & [= <- <-])%bind_Some. split; [left; by eauto|]. intros [(_ & q & Hq & E)|[[? _]|[? _]]]; [congruence|done..].
  - unfold prepareCloud. intros (cfg & Hp & [= <- <-])%bind_Some. pose proof (cloud_again _ _ Hp). split; [right; left; by eauto|].
    intros [[? _]|[(_ & q & Hq & E)|[? _]]]; [done|congruence|done].
  - unfold prepareUser. intros (cfg & Hp & [= <- <-])%bind_Some. pose proof (user_again _ _ Hp). split; [right; right; by eauto|].
    intros [[? _]|[[? _]|(_ & q & Hq & E)]]; [done|done|congruence].
Qed.

(** The invariant under everybody's steps. *)
Definition governed (s : DStore) : Prop := dc_inv s /\ config_authorized s.
Lemma governed_step t s s' : dc_step t s s' -> governed s -> governed s'.
Proof. intros Hs [Hi Ha]. split; [by eapply inv_step|by eapply authorized_step]. Qed.
Lemma governed_keeps s s' : rtc (either (others tid) (dc_step tid)) s s' -> governed s -> governed s'.
Proof.
  intros H. apply (rtc_invariant (either (others tid) (dc_step tid))); [|done]. intros a b [Hab|Hab]; [|by apply (governed_step tid)].
  apply (rtc_invariant (fun s s' => exists t, t <> tid /\ dc_step t s s')); [|done]. intros x y (t & _ & Hs). by apply (governed_step t).
Qed.

(** What it gives: a stored configuration that grants a privilege was approved by at least
    two distinct people, one of them not the person it is attributed to. *)
Definition two_people_behind (s : DStore) : Prop :=
  forall row, row ∈ d_conf s -> valid (cf_Kind row) (cf_Payload row) /\
    (privileged (cf_Kind row) (cf_Payload row) ->
     exists ch actor, ch ∈ changes s /\ ch_Kind ch = cf_Kind row /\ ch_Payload ch = cf_Payload row /\
       NoDup (approvers (ch_ID ch) s) /\ (2 <= length (approvers (ch_ID ch) s))%nat /\ actor ∈ approvers (ch_ID ch) s /\ actor <> cf_UpdatedBy row).
Lemma governed_two s : governed s -> two_people_behind s.
Proof.
  intros [Hi Ha] row Hrow. destruct (Ha row Hrow) as [Hv Hp]. split; [done|]. intros (ch & Hin & Hd & E1 & E2 & E3)%Hp.
  destruct (inv_two_person s Hi ch Hin Hd) as (Hnd & Hq & actor & Hact & Hne & _). exists ch, actor. split_and!; try done; [lia|congruence].
Qed.

(** A guarded call of the controller. *)
Lemma replied_wp id perm {A} (m : M DStore derr A) (k : result derr A -> reply cbody) T s :
  authorize id perm = true -> governed s -> wpt T (others tid) (dc_step tid) m (fun _ _ => True) s ->
  wpt T (others tid) (dc_step tid) (r ← attempt m; mret (k r))
    (fun r s' => two_people_behind s' /\ forall st b, r = Ok (Reply st b) -> authorize id perm = true) s.
Proof.
  intros Hau Hg Hm. apply wp_bind, wp_attempt. eapply wp_mono; [exact Hm|]. intros r s' Hr _. apply wp_ret. split; [|done].
  apply governed_two. by eapply governed_keeps.
Qed.

Lemma admin_refused_wp {A} id perm (e : reply A) T s : governed s -> (forall st b, e <> Reply st b) ->
  wpt T (others tid) (dc_step tid) (mret e : M DStore derr (reply A)) (fun r s' => two_people_behind s' /\ forall st b, r = Ok (Reply st b) -> authorize id perm = true) s.
Proof. intros Hg He. apply wp_ret. split; [by apply governed_two|]. intros st b [= ->]. by destruct (He st b). Qed.

(** C18: nobody puts a privileged configuration into force alone. From every state in which
    it holds, whatever faults occur and whatever other requests do in between, after a PUT
    of a configuration, an approval and a veto every stored configuration is valid for its
    readers, and one that grants a reserved group or issues automatically is the payload of
    a change approved by at least two distinct people, one of them not the person it is
    attributed to; whoever got an answer held the permission. *)
Theorem privileged_config_needs_two_people T id s : freshness < 2 ^ 63 - 1 -> governed s ->
  (forall name ck body, configKinds lib name = Some ck ->
     wpt T (others tid) (dc_step tid) (handleConfigSet lib postgres freshness dc id name body)
       (fun r s' => two_people_behind s' /\ forall st b, r = Ok (Reply st b) -> authorize id (kind_perm ck) = true) s) /\
  (forall path, wpt T (others tid) (dc_step tid) (handleApprove lib freshness dc tid id path)
       (fun r s' => two_people_behind s' /\ forall st b, r = Ok (Reply st b) -> authorize id PermApprovalDecide = true) s) /\
  (forall path body, wpt T (others tid) (dc_step tid) (handleDeny lib dc id path body)
       (fun r s' => two_people_behind s' /\ forall st b, r = Ok (Reply st b) -> authorize id PermApprovalDecide = true) s).
Proof.
  intros Hf Hg. assert (Hq : 2 <= d_Quorum dc) by done. split_and!.
  - intros name ck body Hck. unfold handleConfigSet. rewrite Hck. apply guarded_wp; [done|split; [by apply governed_two|done]..|]. intros Ha _.
    destruct body as [[|x b]|]; [by apply admin_refused_wp| |by apply admin_refused_wp].
    destruct (prepare ck (String x b)) as [[payload priv]|] eqn:Ep; [|by apply admin_refused_wp]. destruct (prepared _ _ _ _ _ Hck Ep) as [Hv Hp].
    unfold config_write. destruct priv; (apply replied_wp; [done|done|]).
    + eapply wp_mono; [apply Propose_wp; [done|apply Hg]|]. done.
    + apply Set_wp; [by intros; apply dc_skip_step| |done]. intros s1 l Hw. split; [by apply st_skip|]. apply cm_direct. exists (publishKind ck), payload, (id_Principal id).
      split_and!; [done| |done]. by intros ?%Hp.
  - intros path. unfold handleApprove. apply guarded_wp; [done|split; [by apply governed_two|done]..|]. intros Ha _.
    destruct (pathID path) as [cid|]; [|by apply admin_refused_wp]. apply replied_wp; [done|done|]. eapply wp_mono; [apply Approve_wp; [apply _|apply Hg]|]. done.
  - intros path body. unfold handleDeny. apply permitted_wp; [split; [by apply governed_two|done]|]. intros Ha.
    destruct (pathID path) as [cid|]; [|by apply admin_refused_wp]. destruct (readJSON _ _ _) as [reason|]; [|by apply admin_refused_wp].
    apply replied_wp; [done|done|]. eapply wp_mono; [apply Deny_wp; apply Hg|]. done.
Qed.

(** Every stored configuration is a value its readers accept: in a state the handlers
    keep, the views of the active policy, cloud trust and user trust always answer, and never
    meet a payload their parser refuses. *)
Theorem active_config_parses t s : governed s ->
  forall h, h ∈ [handlePolicyActive lib; handleCloudTrustActive lib; handleUserTrustActive lib] -> exists b, (run t h s).1 = Ok (Reply 200 b).
Proof.
  intros [_ Ha] h Hh.
  assert (Hact : forall A kind (parse : string -> option A) view, kind <> "" -> (forall b, valid kind b -> is_Some (parse b)) ->
    exists b, (run t (active kind parse view) s).1 = Ok (Reply 200 b)).
  { intros A kind parse view Hk Hp. unfold active, config_Get. rewrite decide_False by done. unfold run, attempt, query, mbind, M_bind; cbn.
    destruct (find_first _ _) as [row|] eqn:Ef; [|by eexists]. apply find_first_Some in Ef as [Hin Hkind]. unfold of_kind in Hkind. bool_split.
    destruct (Ha row Hin) as [Hv _]. rewrite Hkind in Hv. destruct (Hp _ Hv) as [a ->]. by eexists. }
  repeat (apply elem_of_cons in Hh as [->|Hh]; [apply Hact; [done|]|]); [..|by apply elem_of_nil in Hh];
    intros b [[? [x Hx]]|[[? [x Hx]]|[? [x Hx]]]]; try done; try by exists x.
  unfold storedPolicy. unfold parsePolicy in Hx. destruct (Policy.Parse b); [by eexists|done].
Qed.
End authority.

(** ** A trust configuration by alice and bob *)

#[export] Instance AWSAccount_eq_dec : EqDecision CloudTrust.AWSAccount.
Proof. solve_decision. Defined.
#[export] Instance AWSAccount_countable : Countable CloudTrust.AWSAccount.
Proof.
  apply (inj_countable' (fun a => (CloudTrust.a_Account a, CloudTrust.a_ARNPatterns a, CloudTrust.a_Groups a, CloudTrust.a_AutoIssue a, CloudTrust.a_Netblock a))
    (fun '(a, b, c, d, e) => CloudTrust.mkAccount a b c d e)). by intros [].
Defined.
#[export] Instance CloudConfig_eq_dec : EqDecision CloudTrust.Config.
Proof. solve_decision. Defined.
#[export] Instance CloudConfig_countable : Countable CloudTrust.Config.
Proof. apply (inj_countable' (fun c => (CloudTrust.c_DefaultGroups c, CloudTrust.c_AWS c)) (fun '(a, b) => CloudTrust.mkConfig a b)). by intros []. Defined.
#[export] Instance IDPEntry_eq_dec : EqDecision UserTrust.IDPEntry.
Proof. solve_decision. Defined.
#[export] Instance IDPEntry_countable : Countable UserTrust.IDPEntry.
Proof.
  apply (inj_countable' (fun a => (UserTrust.e_Realm a, UserTrust.e_DirectoryGroup a, UserTrust.e_MeshGroups a, UserTrust.e_AutoIssue a, UserTrust.e_Netblock a))
    (fun '(a, b, c, d, e) => UserTrust.mkEntry a b c d e)). by intros [].
Defined.
#[export] Instance UserConfig_eq_dec : EqDecision UserTrust.Config.
Proof. solve_decision. Defined.
#[export] Instance UserConfig_countable : Countable UserTrust.Config.
Proof. apply (inj_countable' (fun c => (UserTrust.c_DefaultGroups c, UserTrust.c_IDPEntries c)) (fun '(a, b) => UserTrust.mkConfig a b)). by intros []. Defined.

(** A codec: the binary digits of the code of a value. *)
Fixpoint bits (p : positive) : string :=
  match p with xH => "" | xO p => String "0"%char (bits p) | xI p => String "1"%char (bits p) end.
Fixpoint unbits (s : string) : option positive :=
  match s with "" => Some xH | String c s => p ← unbits s; Some (if decide (c = "0"%char) then xO p else xI p) end.
Lemma unbits_bits p : unbits (bits p) = Some p.
Proof. induction p as [p IH|p IH|]; cbn; [by rewrite IH..|done]. Qed.
Definition to_text {A} `{Countable A} (a : A) : string := bits (encode a).
Definition of_text {A} `{Countable A} (s : string) : option A := p ← unbits s; decode p.
Lemma of_to_text {A} `{Countable A} (a : A) : of_text (to_text a) = Some a.
Proof. unfold of_text, to_text. rewrite unbits_bits. apply decode_encode. Qed.

Definition demo_lib : ConfigLib := mkConfigLib Some of_text to_text of_text to_text Some id (fun _ => "").
#[export] Instance demo_roundtrips : Roundtrips demo_lib.
Proof. split; intros; apply of_to_text. Qed.
Definition no_regroup (ch : Change) : M DStore derr unit := mret ().
#[export] Instance no_regroup_ok : RegroupOK no_regroup.
Proof. intros ch T R s. by apply wp_ret. Qed.
Abbreviation demo_admin := (admin_controller demo_lib false no_regroup).

Lemma empty_governed : governed demo_lib empty_dstore.
Proof. split; [apply inv_empty|]. intros row H. by apply elem_of_nil in H. Qed.

(** An account whose hosts are issued without review: privileged. *)
Definition auto_cfg : CloudTrust.Config := CloudTrust.mkConfig [] [CloudTrust.mkAccount "123" [] ["web"] true ""].
Definition alice : Identity := mkIdentity "alice" [RoleOperator] None.
Definition bob : Identity := mkIdentity "bob" [RoleAdmin] None.
Definition proposed_cfg : DStore := (run 5 (handleConfigSet demo_lib false 0 demo_admin alice "cloudtrust" (Some (to_text auto_cfg))) empty_dstore).2.
Definition approve_cfg : M DStore derr (reply cbody) := handleApprove demo_lib 0 demo_admin 1 bob "1".

Lemma privileged_config_needs_two_people_witness :
  d_conf proposed_cfg = [] /\ map cf_Payload (d_conf (run 6 approve_cfg proposed_cfg).2) = [to_text auto_cfg] /\
  wpt (fun _ => True) (@others (admin_effects demo_lib) 1) (@dc_step (admin_effects demo_lib) 1) (handleConfigSet demo_lib false 0 demo_admin alice "cloudtrust" (Some (to_text auto_cfg)))
    (fun r s' => two_people_behind demo_lib s' /\ forall st b, r = Ok (Reply st b) -> authorize alice PermCloudTrustManage = true) empty_dstore.
Proof.
  split_and!; [vm_compute; reflexivity|vm_compute; reflexivity|].
  exact (proj1 (privileged_config_needs_two_people demo_lib false 0 no_regroup 1 (fun _ => True) alice empty_dstore eq_refl empty_governed) "cloudtrust" _ (Some (to_text auto_cfg)) eq_refl).
Defined.

Definition plain_cfg : CloudTrust.Config := CloudTrust.mkConfig [] [CloudTrust.mkAccount "123" [] ["web"] false ""].
Definition plain_store : DStore := set_conf [mkConfigRow CloudTrustKind (to_text plain_cfg) 1 1 "alice"] empty_dstore.

Lemma active_config_parses_witness :
  governed demo_lib plain_store /\ exists b, (run 7 (handleCloudTrustActive demo_lib) plain_store).1 = Ok (Reply 200 b).
Proof.
  assert (Hg : governed demo_lib plain_store).
  { split; [by apply (inv_same empty_dstore); [|apply inv_empty]|]. intros row ->%list_elem_of_singleton. split; [right; left; split; [done|]; eexists; vm_compute; reflexivity|].
    intros [[? _]|[[_ (cfg & Hp & Hc)]|[? _]]]; [done| |done]. vm_compute in Hp. injection Hp as <-. by vm_compute in Hc. }
  split; [exact Hg|]. apply (active_config_parses demo_lib 7 plain_store Hg). right. left.
Defined.

(** ** Where the code does not do what it says *)

(** The audit append after the write fails: the approver is told the change was rejected at
    commit and not applied, the change is recorded as failed, and the configuration is in
    force. *)
Definition audit_lost : Env DStore := mkEnv (fun _ => 6) (fun k => bool_decide (k = 14%nat)) (fun _ s => s).
Lemma failed_commit_is_in_force :
  let '(r, _, s') := approve_cfg audit_lost 0%nat proposed_cfg in
  r = Ok (Problem 422 "change rejected at commit") /\ map ch_State (changes s') = [StateFailed] /\ map cf_Payload (d_conf s') = [to_text auto_cfg].
Proof. vm_compute. by split_and!. Qed.

(** The version is read without a lock: under read committed two writers store different
    payloads as the same version, and the first is answered a version nobody can see. *)
Definition stored_v1 : DStore := (run 1 (config_Set true PublishKind "a" "alice") empty_dstore).2.
Definition second_writer : Env DStore :=
  mkEnv (fun _ => 2) (fun _ => false) (fun k s => if bool_decide (k = 3%nat) then (run 2 (config_Set true PublishKind "c" "carol") s).2 else s).
Lemma concurrent_writes_share_a_version :
  let '(r, _, s') := (config_Set true PublishKind "b" "bob") second_writer 1%nat stored_v1 in
  map cf_Version (d_conf s') = [2] /\ (exists row, r = Ok row /\ cf_Version row = 2 /\ cf_Payload row = "b") /\
  exists row, (run 2 (config_Set true PublishKind "c" "carol") stored_v1).1 = Ok row /\ cf_Version row = 2 /\ cf_Payload row = "c".
Proof. vm_compute. split_and!; [done|by eexists|by eexists]. Qed.
