(* ===== verification/ConsoleOps.v ===== *)
(** * internal/adminapi: the fleet-management handlers

    The handlers of mutate_ops.go and releases_ops.go: lighthouses, staged rollouts, join keys
    and binary releases. A handler checks its permission, decodes a body and calls one or more
    of the packages modelled elsewhere, whose tables are the parts of one database ([World]); a
    call runs on its part by a lens. JSON decoding, SHA-256, randomness and time formatting are
    parameters, and durations are 64-bit nanoseconds that wrap around. Details of problem
    documents are left out.

    The theorems show that whatever requests run concurrently each part only takes the steps of
    its package and keeps its invariant, that no join key of the console grants a reserved
    group, and that a staged release goes to the live hosts whose binary exists, and to no
    others. *)

From S2P Require Import Prelude Db Parts Bytes GoStrings Policy Nonce Lighthouse JoinKey Releases Rollout Rbac AdminConfig.
From stdpp Require Import prelude strings list relations sorting pretty.
From Stdlib Require Import ZArith Lia.
Open Scope Z_scope.

Abbreviation Catalog := NebulaRelease.Catalog.

(** ** State *)

Definition AuditRow : Type := string * string * string * string.

(** The tables of each package, and the audit rows the handlers append themselves. *)
Record World : Type := mkWorld {
  w_lh : LStore; w_ro : Rollout.RStore; w_nebula : Catalog; w_pilot : Catalog; w_keys : KStore; w_audit : list AuditRow }.

Definition lh_part : Lens World LStore := mkLens w_lh (fun s w => mkWorld s (w_ro w) (w_nebula w) (w_pilot w) (w_keys w) (w_audit w)).
Definition ro_part : Lens World Rollout.RStore := mkLens w_ro (fun s w => mkWorld (w_lh w) s (w_nebula w) (w_pilot w) (w_keys w) (w_audit w)).
Definition nebula_part : Lens World Catalog := mkLens w_nebula (fun s w => mkWorld (w_lh w) (w_ro w) s (w_pilot w) (w_keys w) (w_audit w)).
Definition pilot_part : Lens World Catalog := mkLens w_pilot (fun s w => mkWorld (w_lh w) (w_ro w) (w_nebula w) s (w_keys w) (w_audit w)).
Definition keys_part : Lens World KStore := mkLens w_keys (fun s w => mkWorld (w_lh w) (w_ro w) (w_nebula w) (w_pilot w) s (w_audit w)).
Definition add_waudit (e : AuditRow) (w : World) : World := mkWorld (w_lh w) (w_ro w) (w_nebula w) (w_pilot w) (w_keys w) (w_audit w ++ [e]).

#[export] Instance lh_part_ok : LensOK lh_part. Proof. by split; intros; try destruct w. Qed.
#[export] Instance ro_part_ok : LensOK ro_part. Proof. by split; intros; try destruct w. Qed.
#[export] Instance nebula_part_ok : LensOK nebula_part. Proof. by split; intros; try destruct w. Qed.
#[export] Instance pilot_part_ok : LensOK pilot_part. Proof. by split; intros; try destruct w. Qed.
#[export] Instance keys_part_ok : LensOK keys_part. Proof. by split; intros; try destruct w. Qed.

Inductive werr : Type := W_Fault.
#[export] Instance werr_db : DbError werr := W_Fault.

(** ** Requests and views *)

Record LhBody : Type := mkLhBody { lb_OverlayIP : string; lb_Hostname : string; lb_PublicAddrs : list string }.
Record RolloutBody : Type := mkRolloutBody {
  rb_TargetVersion : Z; rb_PrevVersion : Z; rb_Hosts : list string; rb_CanarySize : Z; rb_WaveSize : Z; rb_MinHealthy : Z;
  rb_ObserveSeconds : Z; rb_MissingAfterSeconds : Z; rb_Description : string }.
Record KeyBody : Type := mkKeyBody {
  kb_Name : string; kb_Groups : list string; kb_SubRange : string; kb_MaxUses : Z; kb_TTLSeconds : Z; kb_AutoIssue : bool; kb_Ephemeral : bool; kb_QuotaPerHour : Z }.
Record KeyPatch : Type := mkKeyPatch {
  kp_Groups : option (list string); kp_SubRange : option string; kp_MaxUses : option Z; kp_QuotaPerHour : option Z;
  kp_AutoIssue : option bool; kp_Ephemeral : option bool; kp_TTLSeconds : option Z }.
Record ReleaseBody : Type := mkReleaseBody { lb_Gen : Z; lb_CanarySize : Z; lb_WaveSize : Z; lb_ObserveSeconds : Z; lb_MissingAfterSeconds : Z }.

(** What is not under the repository: the JSON decoders, the digest and [time.Format]. *)
Record OpsLib : Type := mkOpsLib {
  ol_lighthouse : string -> option LhBody; ol_addrs : string -> option (list string); ol_rollout : string -> option RolloutBody;
  ol_key : string -> option KeyBody; ol_patch : string -> option KeyPatch; ol_release : string -> option ReleaseBody;
  ol_sha256 : string -> string; ol_format : Z -> string }.

Record LighthouseView : Type := mkLighthouseView { lv_OverlayIP : string; lv_Hostname : string; lv_State : string; lv_PublicAddrs : list string }.
Record RolloutView : Type := mkRolloutView {
  ov_ID : Z; ov_Description : string; ov_TargetVersion : Z; ov_PrevVersion : Z; ov_State : string; ov_ActiveWave : Z; ov_WaveSize : Z; ov_MinHealthy : Z;
  ov_CreatedAt : string; ov_UpdatedAt : string; ov_Note : string }.
Record RolloutHostView : Type := mkRolloutHostView { hv_OverlayIP : string; hv_Wave : Z; hv_Status : string }.
Record JoinKeyView : Type := mkJoinKeyView {
  jv_Name : string; jv_Groups : list string; jv_SubRange : string; jv_MaxUses : Z; jv_UsedCount : Z; jv_AutoIssue : bool; jv_Ephemeral : bool;
  jv_QuotaPerHour : Z; jv_ExpiresAt : string; jv_State : string; jv_CreatedAt : string }.
Record ReleaseView : Type := mkReleaseView {
  ev_Gen : Z; ev_Version : string; ev_SHA256 : string; ev_URL : string; ev_Status : string; ev_Note : string; ev_CreatedAt : string }.

(** [rolloutStatus]; [None] is the answer without a rollout. *)
Definition rstatus : Type := option (bool * RolloutView * list RolloutHostView).
Record LaneView : Type := mkLaneView { ln_Releases : list ReleaseView; ln_CurrentGen : Z; ln_Rollout : rstatus }.

Inductive obody : Type :=
| OB_Lighthouse (v : LighthouseView)
| OB_LighthouseRemoved (ip : string)
| OB_Status (st : rstatus)
| OB_Started (v : RolloutView)
| OB_Step (changed : bool) (st : rstatus)
| OB_Aborted
| OB_Keys (l : list JoinKeyView)
| OB_KeyCreated (secret : string) (v : JoinKeyView)
| OB_Key (v : JoinKeyView)
| OB_KeyRevoked (name : string)
| OB_Releases (nebula pilot : LaneView).

Definition second : Z := 1000000000.
Definition seconds (n : Z) : Z := i64 (n * second).

Definition show_bool (b : bool) : string := if b then "true" else "false".
Definition show_groups (l : list string) : string := "[" +:+ String.concat " " l +:+ "]".

(** ** Error maps *)

Definition mapLighthouseErr (e : lherr) : reply obody :=
  match e with
  | LH_NotFound => Problem 404 "not found"
  | LH_AlreadyExists => Problem 409 "already exists"
  | LH_LastActive => Problem 409 "last lighthouse"
  | LH_NoAddrs | LH_NoOverlayIP => Problem 400 "invalid lighthouse"
  | _ => Problem 500 "internal error"
  end.

Definition mapRolloutErr (e : Rollout.rerr) : reply obody :=
  match e with
  | RO_NoHosts => Problem 400 "no hosts"
  | RO_ActiveExists => Problem 409 "rollout active"
  | RO_NotActive => Problem 409 "no active rollout"
  | _ => Problem 500 "internal error"
  end.

Section handlers.
Context (lib : OpsLib) (reg : LRegistry) (e : Engine) (staleAfter : Z).
Abbreviation OM := (M World werr).

(** [_, _ = s.cfg.Store.AppendAudit(...)] *)
Definition appendAudit (actor action target details : string) : OM unit :=
  ignore (exec (fun w => ((), add_waudit (actor, action, target, details) w))).

(** [if !readJSON(w, r, &b) { return }] *)
Definition withBody {B} (decode : string -> option B) (zero : B) (body : option string) (k : B -> OM (reply obody)) : OM (reply obody) :=
  match readJSON decode zero body with None => mret (Problem 400 "bad request") | Some b => k b end.

Definition ops_rfc3339 (ns : Z) : string := if ns =? 0 then "" else ol_format lib ns.

(** ** Lighthouses *)

Definition lighthouseView (r : LRow) : LighthouseView := mkLighthouseView (lr_OverlayIP r) (lr_Hostname r) (lr_State r) (lr_Addrs r).

Definition handleLighthouseAdd (id : Identity) (body : option string) : OM (reply obody) :=
  requirePerm id PermLighthouseManage (withBody (ol_lighthouse lib) (mkLhBody "" "" []) body (fun b =>
    r ← within lh_part (Lighthouse.Add reg (lb_OverlayIP b) (lb_Hostname b) (lb_PublicAddrs b) (id_Principal id));
    mret (match r with Ok row => Reply 201 (OB_Lighthouse (lighthouseView row)) | Err err => mapLighthouseErr err end))).

Definition handleLighthouseReplace (id : Identity) (ip : string) (body : option string) : OM (reply obody) :=
  requirePerm id PermLighthouseManage (withBody (ol_addrs lib) [] body (fun addrs =>
    r ← within lh_part (Lighthouse.Replace reg ip addrs (id_Principal id));
    mret (match r with Ok row => Reply 200 (OB_Lighthouse (lighthouseView row)) | Err err => mapLighthouseErr err end))).

Definition handleLighthouseRemove (id : Identity) (ip : string) : OM (reply obody) :=
  requirePerm id PermLighthouseManage (
    r ← within lh_part (Lighthouse.Remove reg ip (id_Principal id));
    mret (match r with Ok _ => Reply 200 (OB_LighthouseRemoved ip) | Err err => mapLighthouseErr err end)).

(** ** Rollouts *)

Definition rolloutView (r : Rollout) : RolloutView :=
  mkRolloutView (ro_ID r) (ro_Description r) (ro_TargetVersion r) (ro_PrevVersion r) (ro_State r) (ro_ActiveWave r) (ro_WaveSize r) (ro_MinHealthy r)
    (ops_rfc3339 (ro_CreatedAt r)) (ops_rfc3339 (ro_UpdatedAt r)) (ro_Note r).

Definition rolloutStatus (r : Rollout) (hs : list Host) : rstatus :=
  Some (active_state (ro_State r), rolloutView r, map (fun h => mkRolloutHostView (h_OverlayIP h) (h_Wave h) (h_Status h)) hs).

Definition handleRolloutCurrent : OM (reply obody) :=
  r ← within ro_part Status;
  mret (match r with
        | Ok (rr, hs) => Reply 200 (OB_Status (rolloutStatus rr hs))
        | Err RO_None => Reply 200 (OB_Status None)
        | Err _ => Problem 500 "internal error"
        end).

Definition or_default (d def : Z) : Z := if d =? 0 then def else d.

Definition handleRolloutStart (id : Identity) (body : option string) : OM (reply obody) :=
  requirePerm id PermRolloutControl (withBody (ol_rollout lib) (mkRolloutBody 0 0 [] 0 0 0 0 0 "") body (fun b =>
    if rb_TargetVersion b =? 0 then mret (Problem 400 "bad request")
    else
      let observe := or_default (seconds (rb_ObserveSeconds b)) (600 * second) in
      let missing := or_default (seconds (rb_MissingAfterSeconds b)) (180 * second) in
      r ← within ro_part (Start e (mkStartConfig "" (rb_Description b) (rb_TargetVersion b) (rb_PrevVersion b) (rb_Hosts b)
            (rb_CanarySize b) (rb_WaveSize b) (rb_MinHealthy b) observe missing (id_Principal id)));
      mret (match r with Ok rr => Reply 201 (OB_Started (rolloutView rr)) | Err err => mapRolloutErr err end))).

Definition handleRolloutStep (id : Identity) : OM (reply obody) :=
  requirePerm id PermRolloutControl (
    r ← within ro_part (Evaluate e);
    match r with
    | Err _ => mret (Problem 500 "internal error")
    | Ok changed =>
        _ ← appendAudit (id_Principal id) "rollout-step" "rollout" ("manual step, changed=" +:+ show_bool changed);
        st ← within ro_part Status;
        mret (match st with
              | Ok (rr, hs) => Reply 200 (OB_Step changed (rolloutStatus rr hs))
              | Err RO_None => Reply 200 (OB_Step changed None)
              | Err _ => Problem 500 "internal error"
              end)
    end).

Definition handleRolloutAbort (id : Identity) : OM (reply obody) :=
  requirePerm id PermRolloutControl (
    r ← within ro_part (Abort e (id_Principal id));
    mret (match r with Ok _ => Reply 200 OB_Aborted | Err err => mapRolloutErr err end)).

(** ** Join keys *)

Definition joinKeyView (k : JoinKey) : JoinKeyView :=
  mkJoinKeyView (jk_Name k) (jk_Groups k) (jk_SubRange k) (jk_MaxUses k) (jk_UsedCount k) (jk_AutoIssue k) (jk_Ephemeral k)
    (jk_QuotaPerHour k) (ops_rfc3339 (jk_ExpiresAt k)) (jk_State k) (ops_rfc3339 (jk_CreatedAt k)).

Definition handleJoinKeys : OM (reply obody) :=
  r ← within keys_part JoinKey.List;
  mret (match r with Ok l => Reply 200 (OB_Keys (map joinKeyView l)) | Err _ => Problem 500 "internal error" end).

(** [raw] are the random bytes of the secret. *)
Definition handleJoinKeyCreate (raw : string) (id : Identity) (body : option string) : OM (reply obody) :=
  requirePerm id PermJoinKeyManage (withBody (ol_key lib) (mkKeyBody "" [] "" 0 0 false false 0) body (fun b =>
    if decide (kb_Name b = "") then mret (Problem 400 "name required")
    else if GrantsReservedGroup (kb_Groups b) then mret (Problem 400 "reserved group")
    else
      t ← now;
      r ← within keys_part (JoinKey.Create (ol_sha256 lib) raw (mkParams (kb_Name b) (kb_Groups b) (kb_SubRange b) (kb_MaxUses b)
            (seconds (kb_TTLSeconds b)) (kb_AutoIssue b) (kb_Ephemeral b) (kb_QuotaPerHour b)) t);
      match r with
      | Err J_Duplicated => mret (Problem 409 "duplicate name")
      | Err _ => mret (Problem 500 "internal error")
      | Ok (secret, jk) =>
          _ ← appendAudit (id_Principal id) "joinkey-create" (kb_Name b)
                ("groups=" +:+ show_groups (jk_Groups jk) +:+ " auto_issue=" +:+ show_bool (jk_AutoIssue jk) +:+ " max_uses=" +:+ pretty (jk_MaxUses jk));
          mret (Reply 201 (OB_KeyCreated secret (joinKeyView jk)))
      end)).

Definition handleJoinKeyUpdate (id : Identity) (name : string) (body : option string) : OM (reply obody) :=
  requirePerm id PermJoinKeyManage (withBody (ol_patch lib) (mkKeyPatch None None None None None None None) body (fun b =>
    if match kp_Groups b with Some g => GrantsReservedGroup g | None => false end then mret (Problem 400 "reserved group")
    else
      let p := mkUpdate (kp_Groups b) (kp_SubRange b) (kp_MaxUses b) (kp_QuotaPerHour b) (kp_AutoIssue b) (kp_Ephemeral b) (seconds <$> kp_TTLSeconds b) in
      t ← now;
      r ← within keys_part (JoinKey.Update name p t);
      match r with
      | Err J_NotFound => mret (Problem 404 "not found")
      | Err _ => mret (Problem 500 "internal error")
      | Ok jk =>
          _ ← appendAudit (id_Principal id) "joinkey-update" name
                ("groups=" +:+ show_groups (jk_Groups jk) +:+ " auto_issue=" +:+ show_bool (jk_AutoIssue jk) +:+ " max_uses=" +:+ pretty (jk_MaxUses jk)
                 +:+ " quota_per_hour=" +:+ pretty (jk_QuotaPerHour jk) +:+ " ephemeral=" +:+ show_bool (jk_Ephemeral jk));
          mret (Reply 200 (OB_Key (joinKeyView jk)))
      end)).

Definition handleJoinKeyRevoke (id : Identity) (name : string) : OM (reply obody) :=
  requirePerm id PermJoinKeyManage (
    r ← within keys_part (JoinKey.Revoke name);
    match r with
    | Err J_NotFound => mret (Problem 404 "not found")
    | Err _ => mret (Problem 500 "internal error")
    | Ok _ =>
        _ ← appendAudit (id_Principal id) "joinkey-revoke" name "";
        mret (Reply 200 (OB_KeyRevoked name))
    end).

(** ** Releases *)

(** The two kinds: their catalog and their lane. *)
Inductive Kind : Type := KNebula | KPilot.
Definition releaseLaneName (kind : string) : option Kind :=
  if decide (kind = "nebula") then Some KNebula else if decide (kind = "pilot") then Some KPilot else None.
Definition kind_name (k : Kind) : string := match k with KNebula => "nebula" | KPilot => "pilot" end.
Definition kind_lane (k : Kind) : string := match k with KNebula => LaneNebula | KPilot => LanePilot end.
Definition kind_part (k : Kind) : Lens World Catalog := match k with KNebula => nebula_part | KPilot => pilot_part end.

Definition currentGen (k : Kind) : OM Z :=
  r ← within ro_part (match k with KNebula => CurrentNebulaGen | KPilot => CurrentPilotGen end);
  mret (match r with Ok g => g | Err _ => 0 end).

Definition listReleases (k : Kind) : OM (result rlerr (list NebulaRelease.Release)) :=
  within (kind_part k) (match k with KNebula => NebulaRelease.ListReleases | KPilot => PilotRelease.ListReleases end).

Definition releaseView (curGen : Z) (r : NebulaRelease.Release) : ReleaseView :=
  mkReleaseView (NebulaRelease.rl_Gen r) (NebulaRelease.rl_Version r) (NebulaRelease.rl_SHA256 r) (NebulaRelease.rl_URL r)
    (if NebulaRelease.rl_Gen r =? curGen then "current" else NebulaRelease.rl_Status r) (NebulaRelease.rl_Note r) (ops_rfc3339 (NebulaRelease.rl_CreatedAt r)).

(** [None] is an error. *)
Definition releaseLane (k : Kind) : OM (option LaneView) :=
  curGen ← currentGen k;
  rows ← listReleases k;
  match rows with
  | Err _ => mret None
  | Ok rows =>
      st ← within ro_part (StatusLane (kind_lane k));
      let out := mkLaneView (map (releaseView curGen) rows) curGen in
      mret (match st with
            | Ok (rr, hs) => Some (out (rolloutStatus rr hs))
            | Err RO_None => Some (out None)
            | Err _ => None
            end)
  end.

Definition handleReleasesList : OM (reply obody) :=
  nebula ← releaseLane KNebula;
  match nebula with
  | None => mret (Problem 500 "internal error")
  | Some nebula =>
      pilot ← releaseLane KPilot;
      mret (match pilot with None => Problem 500 "internal error" | Some pilot => Reply 200 (OB_Releases nebula pilot) end)
  end.

(** [ORDER BY overlay_ip ASC], the hosts seen within the stale window. *)
Definition ip_le (a b : hb) : Prop := string_le (hb_OverlayIP a) (hb_OverlayIP b).
#[export] Instance ip_le_dec a b : Decision (ip_le a b). Proof. unfold ip_le. apply _. Defined.
Definition live_beat (t : Z) (b : hb) : bool := if 0 <? staleAfter then i64 (t - staleAfter) <=? hb_LastSeen b else true.
Definition live_ips (t : Z) (s : Rollout.RStore) : list string := map hb_OverlayIP (merge_sort ip_le (List.filter (live_beat t) (beats s))).
Definition liveFleet : OM (result Rollout.rerr (list string)) :=
  t ← (if 0 <? staleAfter then now else mret 0);
  within ro_part (query (live_ips t)).

(** [(version, prev, found)] *)
Definition lookupRelease (k : Kind) (gen : Z) : OM (string * Z * bool) :=
  r ← within (kind_part k) (match k with KNebula => NebulaRelease.Get gen | KPilot => PilotRelease.Get gen end);
  prev ← currentGen k;
  mret (match r with Ok (Some r) => (NebulaRelease.rl_Version r, prev, true) | _ => ("", prev, false) end).

Definition releaseDur (sec def : Z) : Z := if sec <=? 0 then def else seconds sec.

Definition servable (k : Kind) (gen : Z) (ips : list string) : OM (result rlerr (list string * list NebulaRelease.ExcludedHost)) :=
  within (kind_part k) (match k with KNebula => NebulaRelease.ServableFleet gen ips | KPilot => PilotRelease.ServableFleet gen ips end).

Definition release_config (k : Kind) (b : ReleaseBody) (version : string) (prev : Z) (ips : list string) (actor : string) : StartConfig :=
  mkStartConfig (kind_lane k) (kind_name k +:+ " " +:+ version +:+ " (gen " +:+ pretty (lb_Gen b) +:+ ")") (lb_Gen b) prev ips
    (lb_CanarySize b) (lb_WaveSize b) 0 (releaseDur (lb_ObserveSeconds b) (600 * second)) (releaseDur (lb_MissingAfterSeconds b) (180 * second)) actor.

(** The rest of the handler once the kind and the body are known. *)
Definition stage_release (id : Identity) (k : Kind) (b : ReleaseBody) : OM (reply obody) :=
  rel ← lookupRelease k (lb_Gen b);
  let '(version, prev, found) := rel in
  if negb found then mret (Problem 400 "unknown release")
  else
    ips ← liveFleet;
    match ips with
    | Err _ => mret (Problem 500 "internal error")
    | Ok [] => mret (Problem 400 "no hosts")
    | Ok ips =>
        sv ← servable k (lb_Gen b) ips;
        match sv with
        | Err _ => mret (Problem 500 "internal error")
        | Ok ([], _) => mret (Problem 400 "no servable hosts")
        | Ok (sv, _) =>
            r ← within ro_part (Start e (release_config k b version prev sv (id_Principal id)));
            mret (match r with Ok rr => Reply 201 (OB_Started (rolloutView rr)) | Err err => mapRolloutErr err end)
        end
    end.

Definition handleReleaseRolloutStart (id : Identity) (kind : string) (body : option string) : OM (reply obody) :=
  requirePerm id PermRolloutControl (
    match releaseLaneName kind with
    | None => mret (Problem 404 "unknown release kind")
    | Some k =>
        withBody (ol_release lib) (mkReleaseBody 0 0 0 0 0) body (fun b =>
          if lb_Gen b =? 0 then mret (Problem 400 "bad request") else stage_release id k b)
    end).

Definition handleReleaseRolloutAbort (id : Identity) (kind : string) : OM (reply obody) :=
  requirePerm id PermRolloutControl (
    match releaseLaneName kind with
    | None => mret (Problem 404 "unknown release kind")
    | Some k =>
        r ← within ro_part (AbortLane e (kind_lane k) (id_Principal id));
        mret (match r with Ok _ => Reply 200 OB_Aborted | Err err => mapRolloutErr err end)
    end).
End handlers.

(** ** Steps of the database *)

Definition unreserved (groups : list string) : Prop := GrantsReservedGroup groups = false.

(** An active key's configuration may change, or the key be revoked; its identity, its secret
    and its count of uses stay. *)
Definition edited (name : string) (k k' : JoinKey) : Prop :=
  k' = k \/ (jk_Name k = name /\ jk_State k = JoinKey.active /\ (jk_State k' = JoinKey.active \/ jk_State k' = JoinKey.revoked) /\
    jk_ID k' = jk_ID k /\ jk_Name k' = jk_Name k /\ jk_SecretHash k' = jk_SecretHash k /\ jk_UsedCount k' = jk_UsedCount k /\ jk_CreatedAt k' = jk_CreatedAt k /\
    (jk_Groups k' = jk_Groups k \/ unreserved (jk_Groups k'))).

(** The console adds or edits a key; an enrollment takes a use. *)
Inductive key_step (s s' : KStore) : Prop :=
| kt_add k : unreserved (jk_Groups k) -> jk_UsedCount k = 0 -> jk_Name k ∉ map jk_Name (join_keys s) -> join_keys s' = join_keys s ++ [k] -> key_step s s'
| kt_edit name : Forall2 (edited name) (join_keys s) (join_keys s') -> key_step s s'
| kt_use : Forall2 (fun k k' => k' = k \/ k' = take_use k) (join_keys s) (join_keys s') -> key_step s s'.

Definition clean (s : KStore) : Prop := forall k, k ∈ join_keys s -> unreserved (jk_Groups k).

Lemma key_step_clean s s' : key_step s s' -> clean s -> clean s'.
Proof.
  intros [k Hk _ _ E|name H|H] Hc k' Hin.
  - rewrite E in Hin. apply elem_of_app in Hin as [?| ->%list_elem_of_singleton]; auto.
  - apply list_elem_of_lookup in Hin as [i Hi]. destruct (Forall2_lookup_r _ _ _ _ _ H Hi) as (k & Hl & [->|(_ & _ & _ & _ & _ & _ & _ & _ & [->|?])]);
      [|apply Hc|done]; try apply Hc; by eapply list_elem_of_lookup_2.
  - apply list_elem_of_lookup in Hin as [i Hi]. destruct (Forall2_lookup_r _ _ _ _ _ H Hi) as (k & Hl & [->| ->]); apply (Hc k); by eapply list_elem_of_lookup_2.
Qed.

(** One step of any package on its part. *)
Inductive w_step (w w' : World) : Prop :=
| ws_lh s : lh_step (w_lh w) s -> w' = over lh_part s w -> w_step w w'
| ws_ro s : ro_step (w_ro w) s -> w' = over ro_part s w -> w_step w w'
| ws_nebula s : Releases.cat_step (w_nebula w) s -> w' = over nebula_part s w -> w_step w w'
| ws_pilot s : Releases.cat_step (w_pilot w) s -> w' = over pilot_part s w -> w_step w w'
| ws_keys s : key_step (w_keys w) s -> w' = over keys_part s w -> w_step w w'
| ws_audit row : w' = add_waudit row w -> w_step w w'.

Record w_ok (w : World) : Prop := mkWOk {
  wo_lh : fit (w_lh w); wo_ro : ro_inv (w_ro w); wo_nebula : Releases.cat_inv (w_nebula w); wo_pilot : Releases.cat_inv (w_pilot w); wo_keys : clean (w_keys w) }.

Lemma w_step_ok w w' : w_step w w' -> w_ok w -> w_ok w'.
Proof.
  intros Hs [H1 H2 H3 H4 H5]. destruct Hs as [s Hs ->|s Hs ->|s Hs ->|s Hs ->|s Hs ->|row ->]; split; cbn; try done.
  - by eapply fit_step.
  - by eapply ro_inv_step.
  - by eapply Releases.cat_step_inv.
  - by eapply Releases.cat_step_inv.
  - by eapply key_step_clean.
Qed.

Lemma w_steps_ok : stable (rtc w_step) w_ok.
Proof. intros w w' H. by apply (rtc_invariant w_step w_ok w w' w_step_ok). Qed.

(** A part with the steps of its package. *)
Class Part {S} (L : Lens World S) (step : relation S) (inv : S -> Prop) : Prop := {
  part_ok :: LensOK L;
  part_view w w' : w_step w w' -> rtc step (view L w) (view L w');
  part_step w s s' : step s s' -> w_step (over L s w) (over L s' w);
  part_inv w : w_ok w -> inv (view L w);
  part_put w s : w_ok w -> inv s -> w_ok (over L s w) }.

Ltac part_solve :=
  split; [apply _|intros w w' [s H ->|s H ->|s H ->|s H ->|s H ->|row ->]; cbn; first [by apply rtc_once|done]
         |intros w s s' H; first [by eapply ws_lh|by eapply ws_ro|by eapply ws_nebula|by eapply ws_pilot|by eapply ws_keys]|by intros w []|by intros w s [] Hi].
#[export] Instance lh_Part : Part lh_part lh_step fit. Proof. part_solve. Qed.
#[export] Instance ro_Part : Part ro_part ro_step ro_inv. Proof. part_solve. Qed.
#[export] Instance nebula_Part : Part nebula_part Releases.cat_step Releases.cat_inv. Proof. part_solve. Qed.
#[export] Instance pilot_Part : Part pilot_part Releases.cat_step Releases.cat_inv. Proof. part_solve. Qed.
#[export] Instance keys_Part : Part keys_part key_step clean. Proof. part_solve. Qed.
#[export] Instance kind_Part k : Part (kind_part k) Releases.cat_step Releases.cat_inv. Proof. destruct k; apply _. Qed.

(** ** Refinement *)

(** A program of the console that takes only steps of the packages, whatever the others do. *)
Definition keeps {A} (m : M World werr A) : Prop := forall T w, w_ok w -> wpt T (rtc w_step) w_step m (fun _ w' => w_ok w') w.

(** The same of a package's call on its own tables. *)
Definition safe {S E A} (step : relation S) (inv : S -> Prop) (m : M S E A) : Prop :=
  forall T s, inv s -> wpt T (rtc step) step m (fun _ s' => inv s') s.

Lemma keeps_ret {A} (a : A) : keeps (mret a). Proof. intros T w Hw. by apply wp_ret. Qed.
Lemma keeps_bind {A B} (m : M World werr A) (k : A -> M World werr B) : keeps m -> (forall a, keeps (k a)) -> keeps (m ≫= k).
Proof. intros Hm Hk T w Hw. apply wp_bind. eapply wp_mono; [by apply Hm|]. intros [a|e] w' _ Hw'; [by apply Hk|done]. Qed.
Lemma keeps_now : keeps now. Proof. intros T w Hw. by apply wp_now. Qed.
Lemma keeps_audit a b c d : keeps (appendAudit a b c d).
Proof.
  intros T w Hw. apply wp_ignore, wp_exec. intros w1 H1. pose proof (w_steps_ok _ _ H1 Hw) as Hw1. split; [done|].
  assert (Hs : w_step w1 (add_waudit (a, b, c, d) w1)) by by eapply ws_audit. split; [done|]. by eapply w_step_ok.
Qed.
Lemma keeps_perm id perm (k : M World werr (reply obody)) : keeps k -> keeps (requirePerm id perm k).
Proof. intros Hk T w Hw. apply permitted_wp; [done|]. intros _. by apply Hk. Qed.
Lemma keeps_body {B} (decode : string -> option B) zero body k : (forall b, keeps (k b)) -> keeps (withBody decode zero body k).
Proof. intros Hk. unfold withBody. destruct (readJSON _ _ _); [apply Hk|apply keeps_ret]. Qed.

Lemma keeps_within {S E A} (L : Lens World S) step inv `{!Part L step inv} (m : M S E A) : safe step inv m -> keeps (within L m).
Proof.
  intros Hm T w Hw. eapply (wp_within L _ _ _ (rtc step) step).
  - intros a b H. induction H as [|x y z Hxy _ IH]; [done|]. etrans; [by apply part_view|done].
  - intros a s s' [H|H].
    + apply rtc_once. left. clear -H Part0. induction H as [|x y z Hxy _ IH]; [done|]. eapply rtc_l; [by apply part_step|done].
    + apply rtc_once. right. by apply part_step.
  - eapply wp_mono; [by apply Hm, part_inv|]. intros r s' _ Hi. by apply part_put.
Qed.

Lemma keeps_if {A} (b : bool) (m m' : M World werr A) : keeps m -> keeps m' -> keeps (if b then m else m').
Proof. by destruct b. Qed.

(** ** The calls *)

Section safe.
Context {S E : Type} (step : relation S) (inv : S -> Prop) (Hinv : stable step inv).

Lemma safe_steps : stable (rtc step) inv.
Proof. intros s s' H Hi. by apply (rtc_invariant step inv s s' Hinv). Qed.
Lemma safe_ret {A} (a : A) : safe (E := E) step inv (mret a). Proof. intros T s Hi. by apply wp_ret. Qed.
Lemma safe_throw {A} (e : E) : safe step inv (throw (A := A) e). Proof. intros T s Hi. by apply wp_throw. Qed.
Lemma safe_bind {A B} (m : M S E A) (k : A -> M S E B) : safe step inv m -> (forall a, safe step inv (k a)) -> safe step inv (m ≫= k).
Proof. intros Hm Hk T s Hi. apply wp_bind. eapply wp_mono; [by apply Hm|]. intros [a|e] s' _ Hi'; [by apply Hk|done]. Qed.
Lemma safe_attempt {A} (m : M S E A) : safe step inv m -> safe step inv (attempt m).
Proof. intros Hm T s Hi. by apply wp_attempt, Hm. Qed.
Lemma safe_query {A} `{!DbError E} (f : S -> A) : safe (E := E) step inv (query f).
Proof. intros T s Hi. apply wp_query. intros s1 H1. split; by eapply safe_steps. Qed.
End safe.

#[export] Hint Resolve keeps_ret keeps_bind keeps_now keeps_audit keeps_perm keeps_body keeps_if safe_ret safe_throw safe_bind safe_attempt safe_query : ncp.
#[export] Hint Extern 2 (stable lh_step fit) => exact fit_step : ncp.

Lemma cat_stable : stable Releases.cat_step Releases.cat_inv. Proof. intros s s'. apply cat_step_inv. Qed.
Lemma ro_stable : stable ro_step ro_inv. Proof. intros s s' H Hi. by eapply ro_inv_step. Qed.
Lemma key_stable : stable key_step clean. Proof. intros s s'. apply key_step_clean. Qed.
#[export] Hint Resolve cat_stable ro_stable key_stable : ncp.

(** A row that the update selects and changes. *)
Lemma update_edits name g s : (forall k, named_active name k = true -> edited name k (g k)) -> key_step s (update_keys (named_active name) g s).2.
Proof.
  intros Hg. apply (kt_edit _ _ name). cbn. induction (join_keys s) as [|k l IH]; cbn; [constructor|]. constructor; [|done].
  destruct (named_active name k) eqn:E; [by apply Hg|by left].
Qed.

Lemma named_active_spec name k : named_active name k = true -> jk_Name k = name /\ jk_State k = JoinKey.active.
Proof. unfold named_active, JoinKey.is_active. intros H. by bool_split. Qed.

Lemma safe_update name g s T : clean s -> (forall k, named_active name k = true -> edited name k (g k)) ->
  wpt T (rtc key_step) key_step (E := jerr) (exec (update_keys (named_active name) g)) (fun _ s' => clean s') s.
Proof.
  intros Hc Hg. apply wp_exec. intros s1 H1. pose proof (safe_steps _ _ key_stable _ _ H1 Hc) as Hc1. split; [done|].
  pose proof (update_edits name g s1 Hg) as Hs. destruct (update_keys _ _ s1) as [n s2]. split; [done|]. by eapply key_step_clean.
Qed.

Lemma Create_safe sha256 raw p t : unreserved (p_Groups p) -> safe key_step clean (JoinKey.Create sha256 raw p t).
Proof.
  intros Hp T s Hc. unfold JoinKey.Create. apply wp_bind, wp_exec_err. intros s1 H1. pose proof (safe_steps _ _ key_stable _ _ H1 Hc) as Hc1. split; [done|].
  destruct (existsb _ _) eqn:Ee; [done|]. set (jk := mkJoinKey _ _ _ _ _ _ _ _ _ _ _ _ _).
  assert (Hs : key_step s1 (set_keys (join_keys s1 ++ [jk]) (jk_seq s1 + 1) s1)).
  { apply (kt_add _ _ jk); [done|done| |done]. intros (k & Hk & Hin)%list_elem_of_fmap_1. apply existsb_elem_false with (x := k) in Ee; [|done].
    apply orb_false_iff in Ee as [Ee _]. bool_split. by apply Ee. }
  split; [done|]. apply wp_ret. by eapply key_step_clean.
Qed.

Lemma Revoke_safe name : safe key_step clean (JoinKey.Revoke name).
Proof.
  intros T s Hc. unfold JoinKey.Revoke. apply wp_bind. eapply wp_mono; [apply safe_update; [done|]|].
  - intros k [Hn Ha]%named_active_spec. right. cbn. split_and!; auto.
  - intros [n|err] s' _ Hc'; [|done]. by destruct (n =? 0); [apply wp_throw|apply wp_ret].
Qed.

Lemma Update_safe name p t : match u_Groups p with Some g => unreserved g | None => True end -> safe key_step clean (JoinKey.Update name p t).
Proof.
  intros Hp. unfold JoinKey.Update. apply safe_bind.
  - destruct (no_fields p); [apply safe_ret|]. intros T s Hc. apply wp_bind. eapply wp_mono; [apply safe_update; [done|]|].
    + intros k [Hn Ha]%named_active_spec. right. cbn. split_and!; auto. destruct (u_Groups p); auto.
    + intros [n|err] s' _ Hc'; [|done]. by destruct (n =? 0); [apply wp_throw|apply wp_ret].
  - intros _. apply safe_bind; [apply safe_query, key_stable|]. intros [jk|]; [apply safe_ret|apply safe_throw].
Qed.

(** ** The fleet-management requests *)

(** The mutations of mutate_ops.go and releases_ops.go: lighthouses, rollouts, join keys and
    binary releases. The console's other mutations are modelled with their packages
    (DeviceGroups, AdminConfig, IpamConsole) and are not requests here. *)
Inductive fleet_request : Type :=
| RqLighthouseAdd (body : option string) | RqLighthouseReplace (ip : string) (body : option string) | RqLighthouseRemove (ip : string)
| RqRolloutStart (body : option string) | RqRolloutStep | RqRolloutAbort
| RqKeyCreate (raw : string) (body : option string) | RqKeyUpdate (name : string) (body : option string) | RqKeyRevoke (name : string)
| RqReleaseStart (kind : string) (body : option string) | RqReleaseAbort (kind : string).

Definition perm_of (rq : fleet_request) : Permission :=
  match rq with
  | RqLighthouseAdd _ | RqLighthouseReplace _ _ | RqLighthouseRemove _ => PermLighthouseManage
  | RqKeyCreate _ _ | RqKeyUpdate _ _ | RqKeyRevoke _ => PermJoinKeyManage
  | _ => PermRolloutControl
  end.

Definition serve (lib : OpsLib) (reg : LRegistry) (e : Engine) (staleAfter : Z) (id : Identity) (rq : fleet_request) : M World werr (reply obody) :=
  match rq with
  | RqLighthouseAdd body => handleLighthouseAdd lib reg id body
  | RqLighthouseReplace ip body => handleLighthouseReplace lib reg id ip body
  | RqLighthouseRemove ip => handleLighthouseRemove reg id ip
  | RqRolloutStart body => handleRolloutStart lib e id body
  | RqRolloutStep => handleRolloutStep lib e id
  | RqRolloutAbort => handleRolloutAbort e id
  | RqKeyCreate raw body => handleJoinKeyCreate lib raw id body
  | RqKeyUpdate name body => handleJoinKeyUpdate lib id name body
  | RqKeyRevoke name => handleJoinKeyRevoke id name
  | RqReleaseStart kind body => handleReleaseRolloutStart lib e staleAfter id kind body
  | RqReleaseAbort kind => handleReleaseRolloutAbort e id kind
  end.

Section requests.
Context (lib : OpsLib) (reg : LRegistry) (e : Engine) (staleAfter : Z) (Hlite : l_postgres reg = false).

Lemma lh_keeps {A B} (m : M LStore lherr A) (f : result lherr A -> B) : safe lh_step fit m -> keeps (r ← within lh_part m; mret (f r)).
Proof. intros Hm. apply keeps_bind; [by eapply keeps_within; [apply _|]|]. intros r. apply keeps_ret. Qed.

Lemma ro_keeps {A B} (m : M Rollout.RStore Rollout.rerr A) (f : result Rollout.rerr A -> B) : safe ro_step ro_inv m -> keeps (r ← within ro_part m; mret (f r)).
Proof. intros Hm. apply keeps_bind; [by eapply keeps_within; [apply _|]|]. intros r. apply keeps_ret. Qed.

Lemma StatusLane_safe lane : safe ro_step ro_inv (StatusLane lane).
Proof.
  unfold StatusLane, current. apply safe_bind; [apply safe_query, ro_stable|]. intros [r|]; [|apply safe_throw].
  apply safe_bind; [apply safe_query, ro_stable|]. intros hs. apply safe_ret.
Qed.

Lemma completed_safe lane : safe ro_step ro_inv (currentCompletedGen lane).
Proof. apply safe_bind; [apply safe_attempt, safe_query, ro_stable|]. intros r. apply safe_ret. Qed.

Lemma Get_safe gen : safe Releases.cat_step Releases.cat_inv (NebulaRelease.Get gen).
Proof. apply safe_bind; [apply safe_attempt, safe_query, cat_stable|]. intros r. apply safe_ret. Qed.

Lemma Servable_safe gen ips : safe Releases.cat_step Releases.cat_inv (NebulaRelease.ServableFleet gen ips).
Proof.
  apply safe_bind; [apply Get_safe|]. intros [r|]; [|apply safe_throw]. apply safe_bind; [apply safe_query, cat_stable|]. intros as_.
  apply safe_bind; [destruct (decide _); [apply safe_ret|apply safe_query, cat_stable]|]. intros hs. apply safe_ret.
Qed.

Lemma currentGen_keeps k : keeps (currentGen k).
Proof. apply keeps_bind; [eapply keeps_within; [apply _|]; destruct k; apply completed_safe|]. intros r. apply keeps_ret. Qed.

Lemma stage_keeps id k b : keeps (stage_release lib e staleAfter id k b).
Proof.
  unfold stage_release, lookupRelease. apply keeps_bind.
  - apply keeps_bind; [eapply (keeps_within (kind_part k)); [apply _|]; destruct k; apply Get_safe|]. intros r. apply keeps_bind; [apply currentGen_keeps|]. intros prev. apply keeps_ret.
  - intros [[version prev] found]. apply keeps_if; [apply keeps_ret|]. apply keeps_bind.
    + unfold liveFleet. apply keeps_bind; [by destruct (0 <? _); [apply keeps_now|apply keeps_ret]|]. intros t. eapply keeps_within; [apply _|]. apply safe_query, ro_stable.
    + intros [ips|]; [|apply keeps_ret]. destruct ips as [|ip ips]; [apply keeps_ret|]. apply keeps_bind.
      * unfold servable. eapply (keeps_within (kind_part k)); [apply _|]. destruct k; apply Servable_safe.
      * intros [[[|x sv] ex]|]; [apply keeps_ret| |apply keeps_ret]. apply ro_keeps. intros T s. apply Start_wp.
Qed.

Lemma serve_keeps id rq : keeps (serve lib reg e staleAfter id rq).
Proof.
  destruct rq; cbn [serve]; apply keeps_perm; try (apply keeps_body; intros b).
  - apply lh_keeps. intros T s. by apply LhAdd_wp.
  - apply lh_keeps. intros T s. by apply Replace_wp.
  - apply lh_keeps. intros T s. by apply Remove_wp.
  - apply keeps_if; [apply keeps_ret|]. apply ro_keeps. intros T s. apply Start_wp.
  - apply keeps_bind; [eapply keeps_within; [apply _|]; intros T s; apply evaluate_lanes_wp|]. intros [changed|]; [|apply keeps_ret].
    apply keeps_bind; [apply keeps_audit|]. intros _. apply ro_keeps, StatusLane_safe.
  - apply ro_keeps. intros T s. apply AbortLane_wp.
  - destruct (decide _); [apply keeps_ret|]. destruct (GrantsReservedGroup (kb_Groups b)) eqn:Eg; [apply keeps_ret|]. apply keeps_bind; [apply keeps_now|]. intros t.
    apply keeps_bind; [eapply keeps_within; [apply _|]; by apply Create_safe|]. intros [[secret jk]|[]]; try apply keeps_ret. apply keeps_bind; [apply keeps_audit|]. intros _. apply keeps_ret.
  - destruct (match kp_Groups b with Some g => _ | None => _ end) eqn:Eg; [apply keeps_ret|]. apply keeps_bind; [apply keeps_now|]. intros t.
    apply keeps_bind; [eapply keeps_within; [apply _|]; apply Update_safe; cbn; by destruct (kp_Groups b)|]. intros [jk|[]]; try apply keeps_ret.
    apply keeps_bind; [apply keeps_audit|]. intros _. apply keeps_ret.
  - apply keeps_bind; [eapply keeps_within; [apply _|]; apply Revoke_safe|]. intros [?|[]]; try apply keeps_ret. apply keeps_bind; [apply keeps_audit|]. intros _. apply keeps_ret.
  - destruct (releaseLaneName kind) as [k|]; [|apply keeps_ret]. apply keeps_body. intros b. apply keeps_if; [apply keeps_ret|apply stage_keeps].
  - destruct (releaseLaneName kind) as [k|]; [|apply keeps_ret]. apply ro_keeps. intros T s. apply AbortLane_wp.
Qed.

(** C20: the fleet-management requests cannot break what the packages promise. On SQLite,
    whatever one of the eleven lighthouse, rollout, join-key and release mutations says,
    whatever faults occur and whatever other such requests, enrollments and rollout
    evaluations do meanwhile, it moves the database only by steps of the packages and keeps
    their invariants: an active lighthouse remains, a lane has one running rollout at a time
    and its waves stay in order, the catalogs stay consistent, no join key grants a reserved
    group, and a key's secret, name and uses are never edited. Without the permission nothing
    happens. (On Postgres two concurrent removals can retire the last two lighthouses.) *)
Theorem console_requests_refine T id rq w : w_ok w ->
  wpt T (rtc w_step) w_step (serve lib reg e staleAfter id rq) (fun _ w' => w_ok w') w /\
  (authorize id (perm_of rq) = false -> forall env n, serve lib reg e staleAfter id rq env n w = (Ok (Problem 403 "forbidden"), n, w)).
Proof.
  intros Hw. split; [by apply serve_keeps|]. intros Ha env n.
  destruct rq; cbn in Ha |- *; unfold handleLighthouseAdd, handleLighthouseReplace, handleLighthouseRemove, handleRolloutStart, handleRolloutStep, handleRolloutAbort,
    handleJoinKeyCreate, handleJoinKeyUpdate, handleJoinKeyRevoke, handleReleaseRolloutStart, handleReleaseRolloutAbort, requirePerm; by rewrite Ha.
Qed.
End requests.

(** ** A staged release goes to the live hosts that can run it *)

(** A call on a part, alone. *)
Lemma alone_within {S E A} (L : Lens World S) `{!LensOK L} T (m : M S E A) (Q : result werr (result E A) -> World -> Prop) w :
  wpt T eq (fun _ _ => True) m (fun r s' => Q (Ok r) (over L s' w)) (view L w) -> wpt T eq (fun _ _ => True) (within L m) Q w.
Proof.
  apply (wp_within L T eq (fun _ _ => True) eq (fun _ _ => True)); [by intros a b <-|]. intros a s s' _. apply rtc_once. by right.
Qed.

Section staging.
Context (T : Z -> Prop).
Abbreviation alone := (wpt T eq (fun _ _ => True)).

Lemma Get_alone gen (Q : result rlerr (option NebulaRelease.Release) -> Catalog -> Prop) s :
  Q (Ok None) s -> Q (Ok (find_first (fun r => NebulaRelease.rl_Gen r =? gen) (NebulaRelease.rels s))) s -> alone (NebulaRelease.Get gen) Q s.
Proof. intros H1 H2. unfold NebulaRelease.Get. wp_step. wp_step. wp_step; wp_step; done. Qed.

Lemma Servable_alone gen ips s :
  alone (NebulaRelease.ServableFleet gen ips) (fun o s' => s' = s /\ forall sv ex, o = Ok (sv, ex) -> run 0 (NebulaRelease.ServableFleet gen ips) s = (Ok (sv, ex), s) /\
    is_Some (find_first (fun r => NebulaRelease.rl_Gen r =? gen) (NebulaRelease.rels s))) s.
Proof.
  unfold NebulaRelease.ServableFleet at 1. wp_step. apply Get_alone; [wp_step; done|]. destruct (find_first _ _) as [r|] eqn:Er; [|wp_step; done].
  wp_step. unfold NebulaRelease.Artifacts. wp_step; [done|]. wp_step.
  assert (Hrun : forall hs, (ips = [] /\ hs = [] \/ ips <> [] /\ hs = NebulaRelease.hosts s) -> forall sv ex,
    sv = List.filter (fun ip => bool_decide (NebulaRelease.archOf ip hs ∈ NebulaRelease.rl_arch r :: map (fun a => NebulaRelease.normArch (NebulaRelease.ar_GOOS a) (NebulaRelease.ar_GOARCH a))
           (merge_sort NebulaRelease.arch_le (List.filter (fun a => NebulaRelease.ar_Gen a =? gen) (NebulaRelease.arts s))))) ips ->
    ex = map (fun ip => NebulaRelease.mkExcluded ip (NebulaRelease.archOf ip hs).1 (NebulaRelease.archOf ip hs).2) (List.filter (fun ip => negb (bool_decide
           (NebulaRelease.archOf ip hs ∈ NebulaRelease.rl_arch r :: map (fun a => NebulaRelease.normArch (NebulaRelease.ar_GOOS a) (NebulaRelease.ar_GOARCH a))
           (merge_sort NebulaRelease.arch_le (List.filter (fun a => NebulaRelease.ar_Gen a =? gen) (NebulaRelease.arts s)))))) ips) ->
    run 0 (NebulaRelease.ServableFleet gen ips) s = (Ok (sv, ex), s)).
  { intros hs Hhs sv ex -> ->. unfold run, NebulaRelease.ServableFleet, NebulaRelease.Get, NebulaRelease.Artifacts, mbind, M_bind, attempt, query. cbn. rewrite Er. cbn.
    destruct Hhs as [[-> ->]|[Hne ->]]; [done|]. by destruct (decide (ips = [])). }
  destruct (decide (ips = [])) as [Hn|Hn].
  - wp_step. wp_step. split; [done|]. intros sv ex [= <- <-]. split; [by apply (Hrun []); [left|..]|by eexists].
  - wp_step; [done|]. wp_step. split; [done|]. intros sv ex [= <- <-]. split; [by apply (Hrun (NebulaRelease.hosts s)); [right|..]|by eexists].
Qed.
End staging.

(** The binary of a host: what Core looks up for the platform of its newest enrollment. *)
Definition has_binary (gen : Z) (s : Catalog) (ip : string) : Prop :=
  let arch := NebulaRelease.archOf ip (NebulaRelease.hosts s) in exists v, run 0 (NebulaRelease.Lookup gen arch.1 arch.2) s = (Ok (Some v), s).

Lemma archOf_normal ip l : normal (NebulaRelease.archOf ip l).
Proof. unfold NebulaRelease.archOf. destruct (fold_left _ _ _); [apply normArch_normal|done]. Qed.

(** The rollout a request started, on lane [k], to generation [gen]. *)
Definition staged (staleAfter : Z) (k : Kind) (gen : Z) (w w' : World) (r : Rollout) : Prop :=
  exists t rows, rollouts (w_ro w') = rollouts (w_ro w) ++ [r] /\ rhosts (w_ro w') = rhosts (w_ro w) ++ rows /\
    (forall h, h ∈ rows -> h_RolloutID h = ro_ID r) /\
    ro_Lane r = kind_lane k /\ ro_TargetVersion r = gen /\ ro_State r = StateCanary /\
    NoDup (h_OverlayIP <$> rows) /\
    (forall ip, ip ∈ h_OverlayIP <$> rows <-> ip ∈ live_ips staleAfter t (w_ro w) /\ has_binary gen (view (kind_part k) w) ip).

Definition others_same (w w' : World) : Prop :=
  w_lh w' = w_lh w /\ w_nebula w' = w_nebula w /\ w_pilot w' = w_pilot w /\ w_keys w' = w_keys w /\ w_audit w' = w_audit w.

(** The generation a lane has settled on. *)
Definition settled (k : Kind) (s : Rollout.RStore) : Z :=
  match find_first (completed_on (kind_lane k)) (rev (rollouts s)) with Some r => ro_TargetVersion r | None => 0 end.

Section stage.
Context (lib : OpsLib) (e : Engine) (staleAfter : Z) (T : Z -> Prop).
Abbreviation alone := (wpt T eq (fun _ _ => True)).

Lemma currentGen_alone k (Q : result werr Z -> World -> Prop) w : Q (Ok 0) w -> Q (Ok (settled k (w_ro w))) w -> alone (currentGen k) Q w.
Proof.
  intros H1 H2. unfold currentGen. apply wp_bind, (alone_within ro_part).
  assert (Hc : alone (currentCompletedGen (kind_lane k)) (fun r s' => s' = w_ro w /\ (r = Ok 0 \/ r = Ok (settled k (w_ro w)))) (w_ro w)).
  { unfold currentCompletedGen. wp_step. wp_step. wp_step; wp_step; (split; [done|]); [by left|]. right. unfold settled. by destruct (find_first _ _). }
  replace (match k with KNebula => CurrentNebulaGen | KPilot => CurrentPilotGen end) with (currentCompletedGen (kind_lane k)) by (by destruct k).
  eapply wp_mono; [exact Hc|]. intros r s' _ [-> Hr]. rewrite (over_view (L := ro_part)). apply wp_ret. destruct Hr as [->| ->]; done.
Qed.

Lemma lookup_alone k gen (Q : result werr (string * Z * bool) -> World -> Prop) w :
  (forall version prev (found : bool), prev = 0 \/ prev = settled k (w_ro w) -> Q (Ok (version, prev, found)) w) -> alone (lookupRelease k gen) Q w.
Proof.
  intros HQ. unfold lookupRelease. apply wp_bind, (alone_within (kind_part k)).
  replace (match k with KNebula => NebulaRelease.Get gen | KPilot => PilotRelease.Get gen end) with (NebulaRelease.Get gen) by (by destruct k).
  apply Get_alone; rewrite over_view; apply wp_bind, currentGen_alone; apply wp_ret; [apply HQ; by left|apply HQ; by right|..]; destruct (find_first _ _); apply HQ; auto.
Qed.

Lemma liveFleet_alone (Q : result werr (result Rollout.rerr (list string)) -> World -> Prop) w :
  (forall err, Q (Ok (Err err)) w) -> (forall t, Q (Ok (Ok (live_ips staleAfter t (w_ro w)))) w) -> alone (liveFleet staleAfter) Q w.
Proof.
  intros H1 H2. unfold liveFleet.
  assert (Hq : forall t, alone (within ro_part (query (live_ips staleAfter t))) Q w).
  { intros t. apply (alone_within ro_part). wp_step; rewrite (over_view (L := ro_part)); auto. }
  apply wp_bind. destruct (0 <? staleAfter); [apply wp_now; intros t _|apply wp_ret]; apply Hq.
Qed.

Lemma servable_alone k gen ips (Q : result werr (result rlerr (list string * list NebulaRelease.ExcludedHost)) -> World -> Prop) w : w_ok w ->
  (forall err, Q (Ok (Err err)) w) ->
  (forall sv ex, sv = List.filter (fun ip => bool_decide (ip ∈ sv)) ips -> (forall ip, ip ∈ sv <-> ip ∈ ips /\ has_binary gen (view (kind_part k) w) ip) -> Q (Ok (Ok (sv, ex))) w) ->
  alone (servable k gen ips) Q w.
Proof.
  intros Hw H1 H2. unfold servable. apply (alone_within (kind_part k)).
  replace (match k with KNebula => NebulaRelease.ServableFleet gen ips | KPilot => PilotRelease.ServableFleet gen ips end) with (NebulaRelease.ServableFleet gen ips) by (by destruct k).
  eapply wp_mono; [apply Servable_alone|]. intros [[sv ex]|err] s' _ [-> Hs]; rewrite over_view; [|apply H1]. destruct (Hs sv ex eq_refl) as [Hrun Hsome].
  assert (Hi : Releases.cat_inv (view (kind_part k) w)) by (by apply part_inv).
  destruct (servable_iff_lookup 0 gen ips _ Hi Hsome) as (sv' & ex' & Hrun' & Hsv & _ & Hiff). rewrite Hrun in Hrun'. injection Hrun' as <- <-. apply H2; [done|].
  assert (Hin : forall ip, ip ∈ sv -> ip ∈ ips) by (intros ip; rewrite Hsv at 1; intros [? _]%list_elem_of_In%filter_In; by apply list_elem_of_In).
  intros ip. split.
  - intros Hip. split; [by apply Hin|]. unfold has_binary. apply (Hiff ip); [by apply Hin|apply archOf_normal|done].
  - intros [Hip Hb]. apply (Hiff ip (NebulaRelease.archOf ip (NebulaRelease.hosts (view (kind_part k) w))).1 (NebulaRelease.archOf ip (NebulaRelease.hosts (view (kind_part k) w))).2);
      [done|apply archOf_normal|exact Hb].
Qed.

Definition stage_post (k : Kind) (gen : Z) (w : World) (o : result werr (reply obody)) (w' : World) : Prop :=
  others_same w w' /\
  match o with
  | Ok (Reply _ (OB_Started v)) => exists r, v = rolloutView lib r /\ staged staleAfter k gen w w' r /\ (ro_PrevVersion r = 0 \/ ro_PrevVersion r = settled k (w_ro w))
  | _ => w' = w
  end.

Lemma others_refl w : others_same w w. Proof. by split_and!. Qed.

Lemma mapRollout_problem err : exists st title, mapRolloutErr err = Problem st title.
Proof. by destruct err; do 2 eexists. Qed.

Lemma stage_alone id k b w : w_ok w -> alone (stage_release lib e staleAfter id k b) (stage_post k (lb_Gen b) w) w.
Proof.
  intros Hw. unfold stage_release. apply wp_bind, lookup_alone. intros version prev found Hprev.
  assert (Hno : forall st title, stage_post k (lb_Gen b) w (Ok (Problem st title)) w) by (intros; split; [apply others_refl|done]).
  destruct found; cbn [negb]; [|apply wp_ret, Hno]. apply wp_bind, liveFleet_alone; [intros err; apply wp_ret, Hno|]. intros t.
  destruct (live_ips staleAfter t (w_ro w)) as [|ip0 ips0] eqn:El; [apply wp_ret, Hno|]. rewrite <- El.
  apply wp_bind, servable_alone; [done|intros err; apply wp_ret, Hno|]. intros sv ex _ Hiff. destruct sv as [|x sv0] eqn:Es; [apply wp_ret, Hno|]. rewrite <- Es in *.
  apply wp_bind, (alone_within ro_part). set (cfg := release_config _ _ _ _ _ _). eapply wp_mono; [apply (start_every_branch T e cfg), (wo_ro _ Hw)|].
  intros [r|err] s' _ Hp; apply wp_ret.
  - destruct Hp as (_ & t' & rows & _ & -> & Hro & Hrh & Hid & Hpart & Hnd & _). split; [by split_and!|]. eexists. split; [reflexivity|]. split; [|exact Hprev].
    exists t, rows. split_and!; [exact Hro|exact Hrh|exact Hid|by destruct k|done|done|by rewrite Hpart|]. intros ip. rewrite Hpart. apply Hiff.
  - destruct Hp as [-> _]. rewrite (over_view (L := ro_part)). destruct (mapRollout_problem err) as (st & title & ->). apply Hno.
Qed.
End stage.

(** A staged release goes to the live hosts that can run it. When a request to roll out a
    generation succeeds, the caller may control rollouts, the rollout is a canary on the lane
    of that kind with that target, and its hosts are, each once, exactly the hosts with a
    recent heartbeat for whose platform Core finds a binary of that generation: no host is
    staged that could never converge, and none that could is left out. Otherwise, whatever
    failed, nothing has changed. *)
Theorem staged_hosts_are_served lib e staleAfter T id kind body w : w_ok w ->
  wpt T eq (fun _ _ => True) (handleReleaseRolloutStart lib e staleAfter id kind body) (fun o w' => others_same w w' /\
    match o with
    | Ok (Reply _ (OB_Started v)) => authorize id PermRolloutControl = true /\
        exists k b r, releaseLaneName kind = Some k /\ readJSON (ol_release lib) (mkReleaseBody 0 0 0 0 0) body = Some b /\ v = rolloutView lib r /\
          staged staleAfter k (lb_Gen b) w w' r /\ (ro_PrevVersion r = 0 \/ ro_PrevVersion r = settled k (w_ro w))
    | _ => w' = w
    end) w.
Proof.
  intros Hw. apply permitted_wp; [split; [apply others_refl|done]|]. intros Ha. destruct (releaseLaneName kind) as [k|]; [|apply wp_ret; split; [apply others_refl|done]].
  unfold withBody. destruct (readJSON _ _ body) as [b|]; [|apply wp_ret; split; [apply others_refl|done]]. destruct (lb_Gen b =? 0); [apply wp_ret; split; [apply others_refl|done]|].
  eapply wp_mono; [by apply stage_alone|]. intros o w' _ [Ho Hp]. split; [done|]. destruct o as [[| |st []]|]; try done. split; [done|]. destruct Hp as (r & ? & ? & ?). by exists k, b, r.
Qed.

(** ** A created key opens *)

(** The lookup of a row just appended. *)
Lemma lookup_new sha secret jk n t s : jk_SecretHash jk = sha secret -> jk_State jk = JoinKey.active -> jk_UsedCount jk = 0 -> jk_ExpiresAt jk = 0 \/ t < jk_ExpiresAt jk ->
  (forall k, k ∈ join_keys s -> jk_SecretHash k <> sha secret) ->
  let s' := set_keys (join_keys s ++ [jk]) n s in run t (JoinKey.Lookup sha secret t) s' = (Ok jk, s').
Proof.
  intros Hh Ha Hu He Hno s'. unfold run, JoinKey.Lookup, query, mbind, M_bind. cbn [fault quiet interfere].
  assert (Hrow : lookup_row sha secret s' = Some jk).
  { unfold lookup_row. cbn. clear s'. induction (join_keys s) as [|k l IH]; cbn; [unfold JoinKey.is_active; by rewrite !bool_decide_eq_true_2 by done|].
    rewrite bool_decide_eq_false_2 by (apply Hno; left). cbn. apply IH. intros k' Hk'. apply Hno. by right. }
  rewrite Hrow. unfold check_key. replace (negb (jk_ExpiresAt jk =? 0) && (jk_ExpiresAt jk <=? t)) with false by lia. rewrite Hu.
  by replace ((0 <? jk_MaxUses jk) && (jk_MaxUses jk <=? 0)) with false by lia.
Qed.

(** A key the console created is the key its secret opens: after a reply with a secret the
    table holds one more row, the one shown, and looking the secret up at the time of the
    request finds it, usable and granting nothing reserved. After any other reply the keys are as
    they were. *)
Theorem created_key_opens lib raw T id body w :
  wpt T eq (fun _ _ => True) (handleJoinKeyCreate lib raw id body) (fun o w' =>
    match o with
    | Ok (Reply _ (OB_KeyCreated secret v)) => exists t k, T t /\ join_keys (w_keys w') = join_keys (w_keys w) ++ [k] /\ v = joinKeyView lib k /\
        unreserved (jk_Groups k) /\ run t (JoinKey.Lookup (ol_sha256 lib) secret t) (w_keys w') = (Ok k, w_keys w')
    | _ => w_keys w' = w_keys w
    end) w.
Proof.
  apply permitted_wp; [done|]. intros _. unfold withBody. destruct (readJSON _ _ body) as [b|]; [|by apply wp_ret]. destruct (decide _); [by apply wp_ret|].
  destruct (GrantsReservedGroup (kb_Groups b)) eqn:Eg; [by apply wp_ret|]. apply wp_bind, wp_now. intros t Ht. apply wp_bind, (alone_within keys_part).
  unfold JoinKey.Create. wp_step. wp_step; [by apply wp_ret|]. destruct (existsb _ _) eqn:Ee; [by apply wp_ret|]. set (jk := mkJoinKey _ _ _ _ _ _ _ _ _ _ _ _ _). split; [done|]. apply wp_ret.
  apply wp_bind.
  assert (Hrun : run t (JoinKey.Lookup (ol_sha256 lib) (secretPrefix +:+ EncodeToString raw) t) (set_keys (join_keys (w_keys w) ++ [jk]) (jk_seq (w_keys w) + 1) (w_keys w))
    = (Ok jk, set_keys (join_keys (w_keys w) ++ [jk]) (jk_seq (w_keys w) + 1) (w_keys w))).
  { apply lookup_new; [done|done|done|cbn; destruct (0 <? seconds _) eqn:Et; bool_split; lia|]. intros k Hk. apply existsb_elem_false with (x := k) in Ee; [|done].
    apply orb_false_iff in Ee as [_ Ee]. by bool_split. }
  unfold appendAudit. wp_step. wp_step; [|split; [done|]]; apply wp_ret; exists t, jk; by split_and!.
Qed.

(** ** Requests on a small fleet *)

Module console.
Definition lib : OpsLib := mkOpsLib (fun _ => Some (mkLhBody "10.0.0.7" "lh7" ["5.6.7.8:4242"])) (fun _ => Some ["9.9.9.9:4242"])
  (fun _ => Some (mkRolloutBody 2 1 ["10.0.0.1"; "10.0.0.2"] 1 1 0 (-1) 0 "")) (fun _ => Some (mkKeyBody "vms" ["web"] "" 5 9223372037 false false 0))
  (fun _ => Some (mkKeyPatch (Some ["control-plane"]) None None None None None None)) (fun _ => Some (mkReleaseBody 2 1 1 0 0)) demo_sha1 (fun _ => "").
Definition reg : LRegistry := mkLRegistry true false.
Definition ops : Identity := mkIdentity "olga" [RoleOperator] None.
Definition viewer : Identity := mkIdentity "vic" [RoleViewer] None.
Definition body : option string := Some "{}".

(** Three hosts, settled on generation 2 of nebula. *)
Definition fleet : World := mkWorld two_lighthouses demo_done demo_catalog demo_catalog demo_keys [].

Lemma evaluations_reach e lane ts s : ro_reach s -> ro_reach (evaluations e lane ts s).
Proof.
  revert s. induction ts as [|t ts IH]; intros s Hs; cbn; [done|]. apply IH, ro_run_reach; [|done]. apply evaluateLane_wp; [by apply ro_reach_inv|done].
Qed.

Lemma fleet_ok : w_ok fleet.
Proof.
  split; [exact two_fit|apply ro_reach_inv, (evaluations_reach demo_engine LaneNebula [30; 31; 32]), demo_fleet_reach|exact demo_catalog_inv|exact demo_catalog_inv|].
  intros k ->%list_elem_of_singleton. reflexivity.
Qed.

Definition started : M World werr (reply obody) := handleReleaseRolloutStart lib demo_engine 0 ops "nebula" body.

(** Of the three live hosts two run a platform generation 2 ships. *)
Lemma staged_hosts_are_served_witness :
  h_OverlayIP <$> List.filter (fun h => h_RolloutID h =? 2) (rhosts (w_ro (run 100 started fleet).2)) = ["10.0.0.1"; "10.0.0.2"] /\
  wpt (fun _ => True) eq (fun _ _ => True) started (fun o w' => others_same fleet w' /\
    match o with
    | Ok (Reply _ (OB_Started v)) => authorize ops PermRolloutControl = true /\
        exists k b r, releaseLaneName "nebula" = Some k /\ readJSON (ol_release lib) (mkReleaseBody 0 0 0 0 0) body = Some b /\ v = rolloutView lib r /\
          staged 0 k (lb_Gen b) fleet w' r /\ (ro_PrevVersion r = 0 \/ ro_PrevVersion r = settled k (w_ro fleet))
    | _ => w' = fleet
    end) fleet.
Proof.
  split; [vm_compute; reflexivity|]. apply (staged_hosts_are_served lib demo_engine 0 (fun _ => True) ops "nebula" body fleet fleet_ok).
Defined.

(** An attempt to edit a key into the control plane is refused. *)
Lemma console_requests_refine_witness :
  (run 100 (serve lib reg demo_engine 0 ops (RqKeyUpdate "laptops" body)) fleet).1 = Ok (Problem 400 "reserved group") /\
  (run 100 (serve lib reg demo_engine 0 viewer RqRolloutAbort) fleet).1 = Ok (Problem 403 "forbidden") /\
  wpt (fun _ => True) (rtc w_step) w_step (serve lib reg demo_engine 0 ops (RqKeyUpdate "laptops" body)) (fun _ w' => w_ok w') fleet.
Proof.
  split; [vm_compute; reflexivity|]. split; [vm_compute; reflexivity|].
  apply (console_requests_refine lib reg demo_engine 0 eq_refl (fun _ => True) ops (RqKeyUpdate "laptops" body) fleet fleet_ok).
Defined.

(** ** What the handlers let through *)

(** A negative observation window is taken as it is: the rollout is undone by the first
    evaluation, one nanosecond after its start and before any host could converge. *)
Example negative_window_rolls_back :
  let w1 := (run 100 (handleRolloutStart lib demo_engine ops body) fleet).2 in
  let w2 := (run 101 (handleRolloutStep lib demo_engine ops) w1).2 in
  ro_ObserveWindow <$> latest LanePolicy (rollouts (w_ro w1)) = Some (- second) /\
  ro_State <$> latest LanePolicy (rollouts (w_ro w2)) = Some StateRolledBack /\
  releaseDur (-1) (600 * second) = 600 * second.
Proof. vm_compute. repeat split. Qed.

(** A lifetime of 292 years wraps around to a negative duration: the key never expires. *)
Example long_lifetime_never_expires :
  let w1 := (run 100 (handleJoinKeyCreate lib "raw" ops body) fleet).2 in
  jk_ExpiresAt <$> find_first (fun k => bool_decide (jk_Name k = "vms")) (join_keys (w_keys w1)) = Some 0.
Proof. vm_compute. reflexivity. Qed.

(** A failed read of the settled generation is taken as none: the request succeeds, the
    rollout's previous generation is 0 where the lane had settled on 2, and after an abort the
    canary is commanded to apply generation 0, which no catalog has. *)
Definition one_fault : Env World := mkEnv (fun _ => 100) (fun k => bool_decide (k = 1%nat)) (fun _ w => w).
Example lost_floor_is_rolled_back_to :
  let w1 := (started one_fault 0%nat fleet).2 in
  let w2 := (run 101 (handleReleaseRolloutAbort demo_engine ops "nebula") w1).2 in
  (exists v, (started one_fault 0%nat fleet).1.1 = Ok (Reply 201 (OB_Started v)) /\ ov_PrevVersion v = 0) /\ settled KNebula (w_ro fleet) = 2 /\
  (run 102 (NebulaCommandFor "10.0.0.1" 2) (w_ro w2)).1 = Ok (Some (mkCommand CmdApplyBundle 0)) /\
  (run 102 (NebulaRelease.Get 0) (w_nebula w2)).1 = Ok None.
Proof. vm_compute. split_and!; [by eexists|done..]. Qed.
End console.
