(* ===== verification/AdminQueries.v ===== *)
(** * internal/adminapi: the lists of the console

    The keyset-paginated lists (devices, audit log, enrollments), the provenance of a device
    (device_provenance.go), the fleet's group map and the policy diff built on it. They only
    read; the state is the columns they read. Rows come back in the order of the query's
    ORDER BY. The walk over the heartbeats carries fuel ([Q_Fuel] when it runs out); the
    theorems show that one more than the number of heartbeats is enough. *)

From S2P Require Import Prelude Db Bytes GoStrings Policy PolicyAnalysis DualControl Fleet CoreApi DeviceGroups Rbac.
From stdpp Require Import prelude strings list sorting gmap.
From Stdlib Require Import ZArith Lia Ascii.
Open Scope Z_scope.

Inductive qerr : Type := Q_Fault | Q_Fuel.
#[export] Instance qerr_db : DbError qerr := Q_Fault.

(** [deviceHB] *)
Record HB : Type := mkHB { h_Row : HRow; h_PilotVersion : string; h_NebulaVersion : string; h_Applied : Z }.
Definition h_IP (h : HB) : string := hr_IP (h_Row h).

(** The columns of enrollments the views read ([enrollProv], [EnrollmentView]). *)
Record ERow : Type := mkERow {
  er_ID : Z; er_EnrollmentID : string; er_DeviceName : string; er_PubkeyHash : string; er_Method : string; er_JoinKeyID : Z;
  er_Groups : list string; er_Status : string; er_Ephemeral : bool; er_OverlayIP : string; er_CreatedAt : Z; er_DecidedAt : Z; er_Approver : string;
  er_AttestProvider : string; er_AttestAccount : string; er_AttestPrincipal : string; er_AttestRegion : string; er_VerifiedAt : Z;
  er_DesiredGroups : list string; er_GroupsGeneration : Z; er_IssuedGeneration : Z; er_ReductionPending : bool }.

Record ARow : Type := mkARow { ar_Seq : Z; ar_TS : Z; ar_Actor : string; ar_Action : string; ar_Target : string; ar_Details : string }.

Record QStore : Type := mkQStore {
  q_beats : list HB; q_enrollments : list ERow; q_keys : list (Z * string); q_marks : list Mark; q_audit : list ARow; q_config : list ConfigRow }.

(** ** ORDER BY *)

Definition desc {A} (key : A -> Z) (a b : A) : Prop := key b <= key a.
#[export] Instance desc_dec {A} (key : A -> Z) a b : Decision (desc key a b). Proof. unfold desc. apply _. Defined.
#[export] Instance desc_trans {A} (key : A -> Z) : Transitive (desc key). Proof. intros x y z. unfold desc. lia. Qed.
#[export] Instance desc_total {A} (key : A -> Z) : Total (desc key). Proof. intros x y. unfold desc. lia. Qed.
Definition by_ip (a b : HB) : Prop := string_le (h_IP a) (h_IP b).
#[export] Instance by_ip_dec a b : Decision (by_ip a b). Proof. unfold by_ip. apply _. Defined.
#[export] Instance by_ip_trans : Transitive by_ip. Proof. intros x y z. unfold by_ip. apply string_le_trans. Qed.
#[export] Instance by_ip_total : Total by_ip. Proof. intros x y. apply string_le_total. Qed.

(** ** Request parameters *)

Definition queryInt (v : string) (def min max : Z) : Z :=
  if decide (v = "") then def
  else match Atoi v with
  | None => def
  | Some n => if n <? min then def else if max <? n then max else n
  end.

(** ** Provenance *)

(** The authoritative enrollment of an address, as the first row of the id-descending
    list. *)
Definition at_addr (ip : string) (e : ERow) : bool := bool_decide (er_OverlayIP e = ip).
Definition issued (e : ERow) : bool := bool_decide (er_Status e = StatusIssued).
Definition latest (rows : list ERow) (ip : string) : option ERow := find_first (at_addr ip) rows.

(** One row per address: the loops over [seen]. *)
Fixpoint dedup_rows (seen : list string) (rows : list ERow) : list ERow :=
  match rows with
  | [] => []
  | e :: rows => if bool_decide (er_OverlayIP e ∈ seen) then dedup_rows seen rows else e :: dedup_rows (er_OverlayIP e :: seen) rows
  end.

Definition in_scope (provider account joinKey : string) (names : list (Z * string)) (e : ERow) : bool :=
  (bool_decide (provider = "") || bool_decide (er_AttestProvider e = provider)) &&
  (bool_decide (account = "") || bool_decide (er_AttestAccount e = account)) &&
  (bool_decide (joinKey = "") || bool_decide (default "" (snd <$> find_first (fun k => k.1 =? er_JoinKeyID e) names) = joinKey)).

(** [Device] *)
Record Device : Type := mkDevice {
  d_OverlayIP : string; d_Name : string; d_PilotVersion : string; d_NebulaVersion : string; d_CertNotAfter : string; d_Applied : Z; d_ClockOffsetMs : Z;
  d_Health : string; d_LastSeen : string; d_Stale : bool; d_Attest : option (string * string * string * string); d_JoinKeyName : string;
  d_Groups : list string; d_DesiredGroups : list string; d_Pending : bool; d_Reduction : bool; d_Ephemeral : bool; d_Reaped : option (string * string) }.

Inductive qbody : Type :=
| QB_Devices (devices : list Device) (next_after : option string)
| QB_Audit (entries : list ARow) (next_before : option Z)
| QB_Enrollments (rows : list (ERow * string)) (next_before : option Z)
| QB_Diff (active : option Z) (diff : DiffResult) (hosts : list string) (count total : Z) (truncated warning : bool).

Section queries.
Context (ceq : ascii -> ascii -> bool) (format : Z -> string) (th : Thresholds).
Abbreviation QM := (M QStore qerr).

Definition rfc3339 (ns : Z) : string := if ns =? 0 then "" else format ns.

Definition deviceProvenance (ips : list string) : QM (list ERow) :=
  if decide (ips = []) then mret []
  else query (fun s => merge_sort (desc er_ID) (filter (fun e => er_OverlayIP e ∈ ips /\ issued e = true) (q_enrollments s))).

Definition deviceReapMarks (names : list string) : QM (list Mark) :=
  if decide (names = []) then mret [] else query (fun s => filter (fun m => mk_Name m ∈ names /\ mk_ReapedAt m <> 0) (q_marks s)).

Definition joinKeyNameMap : QM (list (Z * string)) := query q_keys.

(** The authoritative rows of the fleet. *)
Definition authoritative (s : QStore) : list ERow :=
  dedup_rows [] (merge_sort (desc er_ID) (filter (fun e => issued e = true /\ er_OverlayIP e <> "") (q_enrollments s))).

Definition overlayIPsForScope (provider account joinKey : string) (names : list (Z * string)) : QM (list string) :=
  rows ← query authoritative;
  mret (map er_OverlayIP (filter (fun e => in_scope provider account joinKey names e = true) rows)).

(** Reserved groups are not keys; the hosts of a group in id-descending order. *)
Definition group_keys (rows : list ERow) : list string := filter (fun g => IsReservedGroup g = false) (flat_map er_Groups rows).
Definition hosts_of (rows : list ERow) (g : string) : list string :=
  flat_map (fun e => map (fun _ => er_OverlayIP e) (filter (fun x => x = g) (er_Groups e))) rows.
Definition fleetGroupMap : QM (gmap string (list string) * list string) :=
  rows ← query authoritative;
  mret (list_to_map (map (fun g => (g, hosts_of rows g)) (remove_dups (group_keys rows))), sort_strings (map er_OverlayIP rows)).

(** ** The device list *)

Definition after (cursor : string) (h : HB) : bool := bool_decide (cursor = "") || negb (String.leb (h_IP h) cursor).

(** The inner loop: rows kept so far, until the page is full. *)
Fixpoint keep_rows (limit : nat) (allowed : HB -> bool) (kept rows : list HB) : list HB * bool :=
  match rows with
  | [] => (kept, false)
  | h :: rows =>
      if negb (allowed h) then keep_rows limit allowed kept rows
      else let kept := kept ++ [h] in if decide (length kept = limit) then (kept, true) else keep_rows limit allowed kept rows
  end.

Definition page_rows (limit : nat) (cond : HB -> bool) (cursor : string) (s : QStore) : list HB :=
  take limit (filter (fun h => after cursor h && cond h = true) (merge_sort by_ip (q_beats s))).

Fixpoint walk (fuel : nat) (limit : nat) (cond allowed : HB -> bool) (cursor : string) (kept : list HB) : QM (list HB * bool) :=
  match fuel with
  | O => throw Q_Fuel
  | S fuel =>
      rows ← query (page_rows limit cond cursor);
      match last rows with
      | None => mret (kept, false)
      | Some h =>
          let '(kept, hitLimit) := keep_rows limit allowed kept rows in
          if hitLimit || bool_decide (length rows < limit)%nat then mret (kept, hitLimit) else walk fuel limit cond allowed (h_IP h) kept
      end
  end.

Definition name_of (names : list (Z * string)) (id : Z) : string := default "" (snd <$> find_first (fun k => k.1 =? id) names).

Definition device_of (prov : list ERow) (marks : list Mark) (names : list (Z * string)) (now_ns : Z) (h : HB) : Device :=
  let p := latest prov (h_IP h) in
  let from {A} (d : A) (f : ERow -> A) := match p with Some e => f e | None => d end in
  let r := h_Row h in
  mkDevice (h_IP h) (hr_Name r) (h_PilotVersion h) (h_NebulaVersion h) (rfc3339 (hr_CertNotAfter r)) (h_Applied h) (hr_ClockOffsetMs r)
    (hr_Health r) (rfc3339 (hr_LastSeen r)) ((0 <? th_StaleAfter th) && (hr_LastSeen r <? i64 (now_ns - th_StaleAfter th)))
    (from None (fun e => if decide (er_AttestProvider e <> "") then Some (er_AttestProvider e, er_AttestAccount e, er_AttestPrincipal e, er_AttestRegion e) else None))
    (from "" (fun e => if bool_decide (er_AttestProvider e = "") && negb (er_JoinKeyID e =? 0) then name_of names (er_JoinKeyID e) else ""))
    (from [] er_Groups) (from [] er_DesiredGroups) (from false (fun e => er_IssuedGeneration e <? er_GroupsGeneration e))
    (from false er_ReductionPending) (from false er_Ephemeral)
    ((fun m => (rfc3339 (mk_ReapedAt m), mk_Reason m)) <$> find_first (fun m => bool_decide (mk_Name m = hr_Name r)) (rev marks)).

(** After the walk: the page's rows with their provenance. *)
Definition enrich (kept : list HB) (hitLimit : bool) (names : option (list (Z * string))) : QM (reply qbody) :=
  prov ← deviceProvenance (map h_IP kept);
  names ← (match names with
           | Some m => mret m
           | None => if existsb (fun h => match latest prov (h_IP h) with Some e => negb (er_JoinKeyID e =? 0) | None => false end) kept then joinKeyNameMap else mret []
           end);
  marks ← deviceReapMarks (map (fun h => hr_Name (h_Row h)) kept);
  t ← now;
  let out := map (device_of prov marks names t) kept in
  mret (Reply 200 (QB_Devices out (if hitLimit : bool then d_OverlayIP <$> last out else None))).

(** [s.fail] on any error of the queries; fuel is not an answer. *)
Definition or_fail {A} (m : QM A) (k : A -> QM (reply qbody)) : QM (reply qbody) :=
  r ← attempt m;
  match r with Ok a => k a | Err Q_Fuel => throw Q_Fuel | Err Q_Fault => mret (Problem 500 "internal error") end.

Definition handleDevices (fuel : nat) (limit_ after_ provider account joinKey condition pattern : string) : QM (reply qbody) :=
  let limit := Z.to_nat (queryInt limit_ 200 1 2000) in
  let scoped := negb (bool_decide (provider = "") && bool_decide (account = "") && bool_decide (joinKey = "")) in
  cond ← (if decide (condition = "") then mret (Some (fun _ => true)) else t ← now; mret (ConditionSQL condition t th));
  match cond with
  | None => mret (Problem 400 "bad condition")
  | Some cond =>
      let sel h := cond (h_Row h) && (bool_decide (pattern = "") || like ceq (globToLike pattern) (hr_Name (h_Row h))) in
      let list_page allowed names := or_fail (walk fuel limit sel allowed after_ []) (fun r => or_fail (enrich r.1 r.2 names) mret) in
      if scoped then
        or_fail (if decide (joinKey = "") then mret None else m ← joinKeyNameMap; mret (Some m)) (fun names =>
        or_fail (overlayIPsForScope provider account joinKey (default [] names)) (fun allow =>
          if decide (allow = []) then mret (Reply 200 (QB_Devices [] None)) else list_page (fun h => bool_decide (h_IP h ∈ allow)) names))
      else list_page (fun _ => true) None
  end.

(** ** The audit log and the enrollments: newest first *)

Definition page_desc {A} (key : A -> Z) (limit : nat) (before : Z) (rows : list A) : list A :=
  take limit (filter (fun a => before <= 0 \/ key a < before) (merge_sort (desc key) rows)).
Definition next_before {A} (key : A -> Z) (limit : nat) (page : list A) : option Z :=
  if decide (length page = limit) then key <$> last page else None.

Definition handleAudit (limit_ before_ : string) : QM (reply qbody) :=
  let limit := Z.to_nat (queryInt limit_ 50 1 500) in
  let before := queryInt before_ 0 0 (2 ^ 62) in
  or_fail (query (fun s => page_desc ar_Seq limit before (q_audit s))) (fun rows => mret (Reply 200 (QB_Audit rows (next_before ar_Seq limit rows)))).

Definition handleEnrollments (status_ limit_ before_ : string) : QM (reply qbody) :=
  let status := if decide (status_ = "") then "pending" else status_ in
  let limit := Z.to_nat (queryInt limit_ 200 1 2000) in
  let before := queryInt before_ 0 0 (2 ^ 62) in
  or_fail (query (fun s => page_desc er_ID limit before (filter (fun e => er_Status e = status) (q_enrollments s)))) (fun es =>
  or_fail (if existsb (fun e => negb (er_JoinKeyID e =? 0)) es then joinKeyNameMap else mret []) (fun names =>
    mret (Reply 200 (QB_Enrollments (map (fun e => (e, if er_JoinKeyID e =? 0 then "" else name_of names (er_JoinKeyID e))) es) (next_before er_ID limit es))))).

(** ** POST /admin/v1/policy/diff *)

Definition maxDraftRules : nat := 4096.
Definition maxBlastHosts : nat := 200.

Definition activePolicy : QM (result unit (option (Z * Policy))) :=
  row ← query (fun s => find_first (fun r => bool_decide (cf_Kind r = PublishKind)) (q_config s));
  mret (match row with
        | None => Ok None
        | Some row => match Parse (cf_Payload row) with Ok p => Ok (Some (cf_Version row, p)) | Err _ => Err () end
        end).

Definition handlePolicyDiff (policy : option string) : QM (reply qbody) :=
  match policy with
  | None => mret (Problem 400 "bad request")
  | Some text =>
      match Parse text with
      | Err _ => mret (Problem 400 "invalid policy")
      | Ok draft =>
          if bool_decide (maxDraftRules < length (Rules draft))%nat then mret (Problem 400 "policy too large")
          else
            or_fail activePolicy (fun a =>
              match a with
              | Err _ => mret (Problem 500 "internal error")
              | Ok a =>
                  let diff := FlowDiff (match a with Some (_, p) => p | None => mkPolicy 0 [] end) draft in
                  or_fail fleetGroupMap (fun gm =>
                    let blast := BlastRadius diff gm.1 gm.2 in
                    mret (Reply 200 (QB_Diff (fst <$> a) diff (take maxBlastHosts (Hosts blast)) (b_Count blast) (PolicyAnalysis.Total blast)
                      (bool_decide (maxBlastHosts < length (Hosts blast))%nat) (negb (is_ok (CheckInvariants draft))))))
              end)
      end
  end.
End queries.

(** ** Every device is listed exactly once *)

Lemma filter_rejects {A} (P : A -> Prop) `{!forall x, Decision (P x)} (l : list A) : (forall x, x ∈ l -> ~ P x) -> filter P l = [].
Proof. intros Hl. induction l as [|x l IH]; [done|]. rewrite filter_cons_False by (apply Hl; by left). apply IH. intros; apply Hl; by right. Qed.
Lemma filter_keeps {A} (P : A -> Prop) `{!forall x, Decision (P x)} (l : list A) : (forall x, x ∈ l -> P x) -> filter P l = l.
Proof. intros Hl. induction l as [|x l IH]; [done|]. rewrite filter_cons_True by (apply Hl; by left). f_equal. apply IH. intros; apply Hl; by right. Qed.
Lemma filter_both {A} (f g : A -> bool) (l : list A) : filter (fun x => f x = true) (filter (fun x => g x = true) l) = filter (fun x => f x && g x = true) l.
Proof. rewrite list_filter_filter. apply list_filter_iff. intros x. rewrite andb_true_iff. tauto. Qed.

Section paging.
Context (limit : nat) (Hlimit : (0 < limit)%nat).

(** The heartbeats in the order of the list: strictly ascending addresses. *)
Definition strictly (l : list HB) : Prop := StronglySorted by_ip l /\ NoDup (map h_IP l).

Lemma strictly_filter (f : HB -> Prop) `{!forall h, Decision (f h)} l : strictly l -> strictly (filter f l).
Proof.
  intros [Hs Hn]. split.
  - clear Hn. induction Hs as [|h l Hs IH Hh]; [constructor|]. rewrite filter_cons. destruct (decide (f h)); [|done]. constructor; [done|].
    apply Forall_forall. intros x [_ Hx]%list_elem_of_filter. by eapply Forall_forall in Hh.
  - eapply sublist_NoDup; [exact Hn|]. apply (fmap_sublist h_IP), sublist_filter.
Qed.

Lemma strictly_app l1 l2 x y : strictly (l1 ++ l2) -> x ∈ l1 -> y ∈ l2 -> String.leb (h_IP x) (h_IP y) = true /\ String.leb (h_IP y) (h_IP x) = false.
Proof.
  intros [Hs Hn] Hx Hy. assert (Hle : by_ip x y).
  { clear Hn. induction l1 as [|z l1 IH]; [by apply elem_of_nil in Hx|]. cbn in Hs. apply StronglySorted_inv in Hs as [Hs Hz].
    apply elem_of_cons in Hx as [->|Hx]; [|by apply IH]. eapply Forall_forall in Hz; [exact Hz|]. apply elem_of_app. by right. }
  split; [done|]. apply not_true_iff_false. intros Hge. rewrite map_app in Hn. apply NoDup_app in Hn as (_ & Hdis & _).
  apply (Hdis (h_IP x)); [by apply list_elem_of_fmap_2|]. assert (h_IP x = h_IP y) as -> by (by apply (anti_symm string_le)). by apply list_elem_of_fmap_2.
Qed.

(** The rows beyond the last one of a prefix: the rest of the list. *)
Lemma after_prefix pre h rest : strictly (pre ++ [h] ++ rest) -> h_IP h <> "" -> filter (fun x => after (h_IP h) x = true) (pre ++ [h] ++ rest) = rest.
Proof.
  intros Hl Hne.
  assert (Hafter : forall x, after (h_IP h) x = negb (String.leb (h_IP x) (h_IP h))) by (intros x; unfold after; by rewrite bool_decide_false).
  rewrite app_assoc, filter_app, (filter_rejects _ (pre ++ [h])), filter_keeps; [done| |].
  - intros x Hx. rewrite Hafter. destruct (strictly_app (pre ++ [h]) rest h x) as [_ ->]; [by rewrite <- app_assoc|apply elem_of_app; right; by left|done|done].
  - intros x Hx. rewrite Hafter. apply elem_of_app in Hx as [Hx| ->%list_elem_of_singleton].
    + destruct (strictly_app pre ([h] ++ rest) x h) as [-> _]; [done|done|by left|done].
    + by destruct (string_le_total (h_IP h) (h_IP h)) as [->| ->].
Qed.

(** A larger cursor only shrinks the list. *)
Lemma after_later c h (l : list HB) : String.leb (h_IP h) c = false \/ c = "" -> h_IP h <> "" ->
  filter (fun x => after (h_IP h) x = true) (filter (fun x => after c x = true) l) = filter (fun x => after (h_IP h) x = true) l.
Proof.
  intros Hc Hne. rewrite filter_both. apply list_filter_iff. intros x. rewrite andb_true_iff. unfold after. rewrite (bool_decide_false (h_IP h = "")) by done.
  destruct Hc as [Hc| ->]; [|by rewrite bool_decide_true by done; intuition]. cbn [orb]. split; [tauto|]. intros Hx. split; [done|]. apply orb_true_iff. right.
  apply negb_true_iff in Hx. apply negb_true_iff, not_true_iff_false. intros Hxc. apply not_true_iff_false in Hx. apply Hx.
  destruct (string_le_total (h_IP x) (h_IP h)) as [|Hhx]; [done|]. exfalso. apply not_true_iff_false in Hc. apply Hc. by eapply string_le_trans.
Qed.

Lemma keep_spec allowed rows : forall kept, (length kept < limit)%nat ->
  keep_rows limit allowed kept rows = (kept ++ take (limit - length kept) (filter (fun h => allowed h = true) rows),
    bool_decide (limit - length kept <= length (filter (fun h => allowed h = true) rows))%nat).
Proof.
  induction rows as [|h rows IH]; intros kept Hk; cbn [keep_rows].
  - cbn. rewrite take_nil, app_nil_r. by rewrite bool_decide_false by lia.
  - destruct (allowed h) eqn:Ea; cbn [negb]; [rewrite filter_cons_True by done|rewrite filter_cons_False by (by rewrite Ea); by apply IH].
    destruct (decide (length (kept ++ [h]) = limit)) as [E|E]; rewrite length_app in E; cbn in E.
    + replace (limit - length kept)%nat with 1%nat by lia. cbn [take]. by rewrite take_0, bool_decide_true by (cbn; lia).
    + rewrite IH by (rewrite length_app; cbn; lia). rewrite length_app. cbn [length]. replace (limit - length kept)%nat with (S (limit - (length kept + 1)))%nat by lia.
      cbn [take]. rewrite <- app_assoc. cbn [app]. f_equal. apply bool_decide_ext. lia.
Qed.

(** The rows a cursor and a condition leave. *)
Definition remaining (cond : HB -> bool) (cursor : string) (s : QStore) : list HB :=
  filter (fun h => after cursor h && cond h = true) (merge_sort by_ip (q_beats s)).

(** The heartbeats table: addresses are a key, and not empty. *)
Record beats_ok (s : QStore) : Prop := mkBeatsOk { bo_key : NoDup (map h_IP (q_beats s)); bo_ip : forall h, h ∈ q_beats s -> h_IP h <> "" }.

Lemma sorted_strictly s : beats_ok s -> strictly (merge_sort by_ip (q_beats s)).
Proof. intros [Hk _]. split; [apply (StronglySorted_merge_sort by_ip); apply _|]. by rewrite (merge_sort_Permutation by_ip). Qed.

Lemma remaining_next cond cursor s pre h rest : beats_ok s -> remaining cond cursor s = pre ++ [h] ++ rest -> remaining cond (h_IP h) s = rest.
Proof.
  intros Hok E. unfold remaining in *. set (L := merge_sort by_ip (q_beats s)) in *.
  assert (Hst : strictly (pre ++ [h] ++ rest)) by (rewrite <- E; apply strictly_filter; by apply sorted_strictly).
  assert (Hh : h ∈ pre ++ [h] ++ rest) by (apply elem_of_app; right; by left). rewrite <- E in Hh. apply list_elem_of_filter in Hh as [Hc Hin]. bool_split.
  assert (Hne : h_IP h <> "") by (apply (bo_ip s Hok); unfold L in Hin; by rewrite (merge_sort_Permutation by_ip) in Hin).
  transitivity (filter (fun x => after (h_IP h) x = true) (filter (fun x => after cursor x = true) (filter (fun x => cond x = true) L))).
  { rewrite after_later; [by rewrite filter_both| |done].
  unfold after in *. match goal with H : bool_decide (cursor = "") || _ = true |- _ => apply orb_true_iff in H as [H|H] end; bool_split; auto. }
  rewrite (filter_both (after cursor)), E. by apply after_prefix.
Qed.

Lemma walk_spec cond allowed t fuel : forall cursor kept n s, beats_ok s -> (length kept < limit)%nat -> (length (remaining cond cursor s) < fuel)%nat ->
  let X := filter (fun h => allowed h = true) (remaining cond cursor s) in
  exists n', walk fuel limit cond allowed cursor kept (quiet t) n s = (Ok (kept ++ take (limit - length kept) X, bool_decide (limit - length kept <= length X)%nat), n', s).
Proof.
  induction fuel as [|fuel IH]; intros cursor kept n s Hok Hk Hf; [lia|]. cbv zeta. cbn [walk]. unfold mbind, M_bind, query, page_rows; cbn [interfere quiet fault].
  fold (remaining cond cursor s). set (F := remaining cond cursor s) in *. set (X := filter _ F).
  set (A := filter (fun h => allowed h = true) (take limit F)). set (B := filter (fun h => allowed h = true) (drop limit F)).
  assert (HX : X = A ++ B) by (unfold X, A, B; rewrite <- filter_app; by rewrite take_drop). clearbody X.
  destruct (last (take limit F)) as [h|] eqn:El.
  - destruct (proj1 (last_Some _ _) El) as [pre Ep]. rewrite keep_spec by done. fold A. destruct (bool_decide (limit - length kept <= length A)%nat) eqn:Eh; bool_split; cbn [orb].
    + eexists. rewrite HX, take_app_le by done. by rewrite (bool_decide_true (_ <= _)%nat) by (rewrite length_app; lia).
    + destruct (bool_decide (length (take limit F) < limit)%nat) eqn:Es; bool_split; rewrite length_take in Es.
      * assert (B = []) as HB by (unfold B; by rewrite drop_ge by lia). rewrite HB, app_nil_r in HX. subst X. eexists. by rewrite (bool_decide_false (_ <= _)%nat) by lia.
      * assert (Hnext : remaining cond (h_IP h) s = drop limit F) by (eapply (remaining_next _ cursor s pre); [done|]; fold F; rewrite <- (take_drop limit F) at 1; by rewrite Ep, <- app_assoc).
        destruct (IH (h_IP h) (kept ++ take (limit - length kept) A) (S n) s Hok) as [n' E].
        { rewrite length_app, length_take. lia. }
        { rewrite Hnext, length_drop. lia. }
        cbv zeta in E. rewrite Hnext in E. fold B in E. exists n'. rewrite E, HX, !length_app, length_take. rewrite <- app_assoc, (take_ge A), (take_app_ge A B) by lia.
        replace (limit - (length kept + _))%nat with (limit - length kept - length A)%nat by lia. do 4 f_equal. apply bool_decide_ext. lia.
  - apply last_None in El. assert (F = []) as E by (destruct F; [done|]; destruct limit; [lia|done]).
    assert (X = []) as -> by (rewrite HX; unfold A, B; by rewrite E, take_nil, drop_nil). exists (S n). rewrite take_nil, app_nil_r. by rewrite bool_decide_false by (cbn; lia).
Qed.
End paging.

Section device_list.
Context (ceq : ascii -> ascii -> bool) (format : Z -> string) (th : Thresholds) (t : Z) (s : QStore).
Context (limit_ provider account joinKey condition pattern : string).
Abbreviation fuel := (S (length (q_beats s))).
Abbreviation limit := (Z.to_nat (queryInt limit_ 200 1 2000)).

Lemma limit_pos : (0 < limit)%nat.
Proof.
  enough (1 <= queryInt limit_ 200 1 2000) by lia. unfold queryInt. destruct (decide _); [done|]. destruct (Atoi limit_) as [m|]; [|done].
  destruct (Z.ltb_spec m 1); [done|]. destruct (Z.ltb_spec 2000 m); lia.
Qed.

(** The devices a request asks for. *)
Definition asked_names : list (Z * string) := if decide (joinKey = "") then [] else q_keys s.
Definition asked_scope (h : HB) : bool :=
  bool_decide (provider = "") && bool_decide (account = "") && bool_decide (joinKey = "") ||
  bool_decide (h_IP h ∈ map er_OverlayIP (filter (fun e => in_scope provider account joinKey asked_names e = true) (authoritative s))).
Definition asked (cond : HRow -> bool) (h : HB) : bool :=
  cond (h_Row h) && (bool_decide (pattern = "") || like ceq (globToLike pattern) (hr_Name (h_Row h))) && asked_scope h.
Definition asked_cond : option (HRow -> bool) := if decide (condition = "") then Some (fun _ => true) else ConditionSQL condition t th.

Lemma remaining_short cond cursor : (length (remaining cond cursor s) <= length (q_beats s))%nat.
Proof.
  unfold remaining. rewrite <- (Permutation_length (merge_sort_Permutation by_ip (q_beats s))). apply submseteq_length, sublist_submseteq, sublist_filter.
Qed.

Lemma enrich_quiet kept hit names n : exists n' devs,
  enrich format th kept hit names (quiet t) n s = (Ok (Reply 200 (QB_Devices devs (if hit then last (map h_IP kept) else None))), n', s) /\ map d_OverlayIP devs = map h_IP kept.
Proof.
  unfold enrich, deviceProvenance, deviceReapMarks, joinKeyNameMap, query, mbind, M_bind. destruct (decide (map h_IP kept = [])), names as [names|], (decide (map _ kept = [])); cbn;
  try (destruct (existsb _ _); cbn); eexists _, _; (split; [do 3 f_equal; destruct hit; [by rewrite <- fmap_last, map_map|done]|by rewrite map_map]).
Qed.

Lemma page_quiet allowed sel names after_ n : beats_ok s -> let X := filter (fun h => allowed h = true) (remaining sel after_ s) in exists n' devs,
  or_fail (walk fuel limit sel allowed after_ []) (fun r => or_fail (enrich format th r.1 r.2 names) mret) (quiet t) n s =
    (Ok (Reply 200 (QB_Devices devs (if bool_decide (limit <= length X)%nat then last (map h_IP (take limit X)) else None))), n', s) /\ map d_OverlayIP devs = map h_IP (take limit X).
Proof.
  intros Hok X. unfold or_fail at 1, attempt at 1, mbind at 1, M_bind at 1.
  destruct (walk_spec limit limit_pos sel allowed t fuel after_ [] n s Hok) as [n1 E]; [apply limit_pos|pose proof (remaining_short sel after_); lia|].
  rewrite E. cbv zeta. cbn [length app]. rewrite !Nat.sub_0_r. fold X. cbn [fst snd]. unfold or_fail, attempt, mbind, M_bind.
  destruct (enrich_quiet (take limit X) (bool_decide (limit <= length X)%nat) names n1) as (n2 & devs & E2 & Hd). rewrite E2. eauto.
Qed.

Lemma allowed_remaining sel allowed cursor : filter (fun h => allowed h = true) (remaining sel cursor s) = remaining (fun h => sel h && allowed h) cursor s.
Proof. unfold remaining. rewrite filter_both. apply list_filter_iff. intros h. rewrite !andb_true_iff. tauto. Qed.

Lemma remaining_ext f g cursor : (forall h, f h = g h) -> remaining f cursor s = remaining g cursor s.
Proof. intros E. apply list_filter_iff. intros h. by rewrite E. Qed.

(** One page: the first [limit] of the devices beyond the cursor, and a cursor when it is full. *)
Lemma devices_page cond cursor n : beats_ok s -> asked_cond = Some cond -> let X := remaining (asked cond) cursor s in exists n' devs,
  handleDevices ceq format th fuel limit_ cursor provider account joinKey condition pattern (quiet t) n s =
    (Ok (Reply 200 (QB_Devices devs (if bool_decide (limit <= length X)%nat then last (map h_IP (take limit X)) else None))), n', s) /\ map d_OverlayIP devs = map h_IP (take limit X).
Proof.
  intros Hok Hc X. unfold asked_cond in Hc. unfold handleDevices.
  set (sel h := cond (h_Row h) && (bool_decide (pattern = "") || like ceq (globToLike pattern) (hr_Name (h_Row h)))).
  assert (HX : forall allowed, (forall h, allowed h = asked_scope h) -> X = filter (fun h => allowed h = true) (remaining sel cursor s)).
  { intros allowed Ha. rewrite allowed_remaining. apply remaining_ext. intros h. unfold asked, sel. by rewrite Ha. }
  assert (Hcond : forall (k : option (HRow -> bool) -> M QStore qerr (reply qbody)) n,
    ((if decide (condition = "") then mret (Some (fun _ => true)) else t ← now; mret (ConditionSQL condition t th) : M QStore qerr _) ≫= k) (quiet t) n s = k (Some cond) (quiet t) (if decide (condition = "") then n else S n) s).
  { intros k m. destruct (decide (condition = "")); rewrite <- Hc; reflexivity. }
  rewrite Hcond. fold sel. generalize (if decide (condition = "") then n else S n); intros n0.
  destruct (bool_decide (provider = "") && bool_decide (account = "") && bool_decide (joinKey = "")) eqn:Es; cbn [negb].
  - rewrite (HX (fun _ => true)) by (intros h; unfold asked_scope; by rewrite Es). by apply page_quiet.
  - set (allow := map er_OverlayIP (filter (fun e => in_scope provider account joinKey asked_names e = true) (authoritative s))).
    assert (HXs : X = filter (fun h => bool_decide (h_IP h ∈ allow) = true) (remaining sel cursor s)) by (apply HX; intros h; unfold asked_scope; by rewrite Es).
    assert (Hgo : forall names m, exists n' devs, (if decide (allow = []) then mret (Reply 200 (QB_Devices [] None))
        else or_fail (walk fuel limit sel (fun h => bool_decide (h_IP h ∈ allow)) cursor []) (fun r => or_fail (enrich format th r.1 r.2 names) mret)) (quiet t) m s =
      (Ok (Reply 200 (QB_Devices devs (if bool_decide (limit <= length X)%nat then last (map h_IP (take limit X)) else None))), n', s) /\ map d_OverlayIP devs = map h_IP (take limit X)).
    { intros names m. rewrite HXs. destruct (decide (allow = [])) as [Ea|Ea]; [|by apply page_quiet].
      rewrite filter_rejects by (intros h _; rewrite Ea; by rewrite bool_decide_false by apply not_elem_of_nil).
      rewrite bool_decide_false by (cbn; pose proof limit_pos; lia). exists m, []. by rewrite take_nil. }
    unfold asked_names in allow. unfold or_fail at 1, overlayIPsForScope, joinKeyNameMap, query, attempt, mbind, M_bind.
    destruct (decide (joinKey = "")) as [Ej|Ej]; cbn; apply Hgo.
Qed.

(** The console's loop over the pages. *)
Fixpoint crawl (calls : nat) (cursor : string) : M QStore qerr (list string) :=
  match calls with
  | O => throw Q_Fuel
  | S calls =>
      r ← handleDevices ceq format th fuel limit_ cursor provider account joinKey condition pattern;
      match r with
      | Reply _ (QB_Devices devs (Some c)) => rest ← crawl calls c; mret (map d_OverlayIP devs ++ rest)
      | Reply _ (QB_Devices devs None) => mret (map d_OverlayIP devs)
      | _ => throw Q_Fault
      end
  end.

Lemma crawl_spec cond calls : beats_ok s -> asked_cond = Some cond -> forall cursor n, (length (remaining (asked cond) cursor s) < calls)%nat ->
  exists n', crawl calls cursor (quiet t) n s = (Ok (map h_IP (remaining (asked cond) cursor s)), n', s).
Proof.
  intros Hok Hc. pose proof limit_pos as Hl. induction calls as [|calls IH]; intros cursor n Hn; [lia|]. cbn [crawl]. unfold mbind, M_bind.
  destruct (devices_page cond cursor n Hok Hc) as (n1 & devs & E & Hd). rewrite E. set (X := remaining (asked cond) cursor s) in *.
  destruct (bool_decide (limit <= length X)%nat) eqn:Ef; bool_split; [|exists n1; by rewrite Hd, take_ge by lia].
  destruct (last (take limit X)) as [h|] eqn:El; [|apply last_None, (f_equal length) in El; rewrite length_take in El; cbn in El; lia].
  replace (last (map h_IP (take limit X))) with (Some (h_IP h)) by (change (Some (h_IP h)) with (h_IP <$> Some h); rewrite <- El; symmetry; apply fmap_last).
  destruct (proj1 (last_Some _ _) El) as [pre Ep].
  assert (Hnext : remaining (asked cond) (h_IP h) s = drop limit X) by (eapply (remaining_next _ cursor s pre); [done|]; fold X; rewrite <- (take_drop limit X) at 1; by rewrite Ep, <- app_assoc).
  destruct (IH (h_IP h) n1) as [n2 E2]; [rewrite Hnext, length_drop; lia|]. exists n2. rewrite E2, Hnext, Hd. by rewrite <- map_app, take_drop.
Qed.
End device_list.

(** Following next_after from the first page lists every device that the filters ask for,
    whatever the page size: no device is skipped and none is repeated, also when the scope filter
    empties whole pages of heartbeats, and one call more than there are heartbeats is
    enough (the walk inside a call likewise never needs more). *)
Theorem device_pages_cover ceq format th t s limit_ provider account joinKey condition pattern cond :
  beats_ok s -> asked_cond th t condition = Some cond ->
  exists ips n', crawl ceq format th s limit_ provider account joinKey condition pattern (S (length (q_beats s))) "" (quiet t) 0%nat s = (Ok ips, n', s) /\
    NoDup ips /\ (forall ip, ip ∈ ips <-> exists h, h ∈ q_beats s /\ h_IP h = ip /\ asked ceq s provider account joinKey pattern cond h = true).
Proof.
  intros Hok Hc. pose proof (remaining_short s (asked ceq s provider account joinKey pattern cond) "") as Hlen.
  destruct (crawl_spec ceq format th t s limit_ provider account joinKey condition pattern cond (S (length (q_beats s))) Hok Hc "" 0%nat) as [n' E]; [lia|].
  eexists _, n'. split; [exact E|]. split; [unfold remaining; eapply strictly_filter; by apply sorted_strictly|]. intros ip.
  split; [intros (h & -> & Hh)%list_elem_of_fmap_1|intros (h & Hh & <- & Ha); apply list_elem_of_fmap_2].
  - apply list_elem_of_filter in Hh as [Ha Hin]. rewrite (merge_sort_Permutation by_ip) in Hin. bool_split. eauto.
  - apply list_elem_of_filter. rewrite (merge_sort_Permutation by_ip). split; [by rewrite Ha|done].
Qed.

Definition demo_beat (ip name : string) : HB := mkHB (mkHRow ip name 0 0 "ok" 5) "1.0" "1.9" 1.
Definition demo_enrolled (id : Z) (ip account : string) : ERow :=
  mkERow id "e" "n" "h" "aws" 0 ["web"] StatusIssued false ip 1 2 "op" "aws" account "p" "r" 3 [] 0 0 false.
Definition demo_fleet : QStore :=
  mkQStore [demo_beat "10.0.0.3" "c"; demo_beat "10.0.0.1" "a"; demo_beat "10.0.0.2" "b"]
    [demo_enrolled 1 "10.0.0.1" "acct"; demo_enrolled 2 "10.0.0.2" "other"; demo_enrolled 3 "10.0.0.3" "acct"] [] [] [] [].
Definition demo_th : Thresholds := mkThresholds 10 10 10.

(** Pages of one device, of the two devices of an account among three. *)
Lemma device_pages_cover_witness :
  (crawl Ascii.eqb (fun _ => "t") demo_th demo_fleet "1" "aws" "acct" "" "" "" 4 "" (quiet 9) 0%nat demo_fleet).1.1 = Ok ["10.0.0.1"; "10.0.0.3"] /\
  exists ips n', crawl Ascii.eqb (fun _ => "t") demo_th demo_fleet "1" "aws" "acct" "" "" "" 4 "" (quiet 9) 0%nat demo_fleet = (Ok ips, n', demo_fleet) /\
    NoDup ips /\ (forall ip, ip ∈ ips <-> exists h, h ∈ q_beats demo_fleet /\ h_IP h = ip /\ asked Ascii.eqb demo_fleet "aws" "acct" "" "" (fun _ => true) h = true).
Proof.
  split; [vm_compute; reflexivity|]. apply (device_pages_cover Ascii.eqb (fun _ => "t") demo_th 9 demo_fleet "1" "aws" "acct" "" "" "" (fun _ => true)); [|reflexivity].
  split; [refine (bool_decide_unpack _ _); vm_compute; exact I|]. intros h Hh. change (h_IP h ≠ "").
  assert (Forall (fun h => h_IP h ≠ "") (q_beats demo_fleet)) as HF by (repeat constructor; discriminate). by eapply Forall_forall in HF.
Defined.
