(* ===== verification/AdminAuth.v ===== *)
(** * internal/adminauth: who a request of the console comes from

    Logins by an external identity provider become sessions; sessions and bearer tokens become
    the [Identity] the handlers authorize. The identity providers themselves (the OIDC and SAML
    libraries, GitHub's API), SHA-256, HMAC, JSON and [url.Parse] are parameters. Times are unix
    nanoseconds. A request is the part of it that the package reads; a response is its cookies
    and its [reply]. *)

From S2P Require Import Prelude Db Bytes GoStrings Nonce Trust DualControl Jws Rbac AdminConfig.
From stdpp Require Import prelude strings list relations sorting gmap.
From Stdlib Require Import ZArith Lia Ascii QArith.
Open Scope Z_scope.

Inductive auerr : Type := AU_NoSession | AU_NoToken | AU_NameRequired | AU_Rand | AU_Duplicated | AU_Fault.
#[export] Instance auerr_db : DbError auerr := AU_Fault.
#[export] Instance auerr_eq_dec : EqDecision auerr. Proof. solve_decision. Defined.

(** [Session] *)
Record Session : Type := mkSession {
  se_ID : string; se_Principal : string; se_Roles : string; se_IdP : string; se_Subject : string; se_Email : string; se_Name : string;
  se_CSRFToken : string; se_MFAAt : Z; se_CreatedAt : Z; se_ExpiresAt : Z }.

(** [AdminToken] *)
Record AdminToken : Type := mkToken {
  tk_ID : string; tk_Name : string; tk_Principal : string; tk_Roles : string; tk_CreatedBy : string;
  tk_CreatedAt : Z; tk_ExpiresAt : Z; tk_LastUsedAt : Z; tk_RevokedAt : Z }.

Record AuthStore : Type := mkAuthStore { sessions : list Session; tokens : list AdminToken }.
Definition set_sessions (l : list Session) (s : AuthStore) : AuthStore := mkAuthStore l (tokens s).
Definition set_tokens (l : list AdminToken) (s : AuthStore) : AuthStore := mkAuthStore (sessions s) l.

(** ** What a login yields *)

(** [Subject] *)
Record Subject : Type := mkSubject { su_ID : string; su_Name : string; su_Email : string; su_Groups : list string; su_MFAAt : option Z }.

Definition Subject_Principal (s : Subject) : string :=
  if decide (su_Email s <> "") then su_Email s else if decide (su_Name s <> "") then su_Name s else su_ID s.

Definition orDefault (s def : string) : string := if decide (s = "") then def else s.
Definition unixNano (t : option Z) : Z := default 0 t.
Definition mfaPtr (ns : Z) : option Z := if ns =? 0 then None else Some ns.

(** [RoleMapper]: a lookup of an absent group is nil. *)
Record RoleMapper : Type := mkRoleMapper { GroupRoles : gmap string (list string); DefaultRoles : list string }.
Definition Roles (m : RoleMapper) (groups : list string) : list string :=
  sort_strings (remove_dups (DefaultRoles m ++ flat_map (fun g => default [] (GroupRoles m !! g)) groups)).

(** cmd/harbor: the flags. [None] is [fatalf]. *)
Definition parseCSV (s : string) : list string := filter (fun p => p <> "") (map TrimSpace (Split "," s)).
Fixpoint parse_pairs (pairs : list string) (out : gmap string (list string)) : option (gmap string (list string)) :=
  match pairs with
  | [] => Some out
  | p :: pairs =>
      let p := TrimSpace p in
      if decide (p = "") then parse_pairs pairs out
      else let '(group, roles, ok) := Cut "=" p in
           if ok : bool then parse_pairs pairs (<[TrimSpace group := parseCSV roles]> out) else None
  end.
Definition parseRoleMap (s : string) : option (gmap string (list string)) := parse_pairs (Split ";" s) ∅.

(** *** OIDC claims *)

(** The values of a decoded JSON claim. *)
Inductive claim : Type := C_Str (s : string) | C_Num (q : Q) | C_Strs (l : list string) | C_List (l : list claim) | C_Other.
Abbreviation Claims := (gmap string claim).

Definition stringClaim (claims : Claims) (key : string) : string := match claims !! key with Some (C_Str s) => s | _ => "" end.
Definition stringSliceClaim (claims : Claims) (key : string) : list string :=
  match claims !! key with
  | Some (C_Strs l) => l
  | Some (C_Str s) => if decide (s = "") then [] else [s]
  | Some (C_List l) => omap (fun e => match e with C_Str s => Some s | _ => None end) l
  | _ => []
  end.
Definition mfaMethods : list string := ["mfa"; "otp"; "hwk"; "swk"; "pop"; "fpt"; "face"; "iris"].
Definition mfaFromClaims (claims : Claims) : option Z :=
  if negb (existsb (fun m => bool_decide (m ∈ mfaMethods)) (stringSliceClaim claims "amr")) then None
  else match claims !! "auth_time" with
  | Some (C_Num at_) => if Qle_bool at_ 0 then None else Some (i64 (i64 (Z.quot (Qnum at_) (Zpos (Qden at_))) * 1000000000))
  | _ => None
  end.

(** The verified ID token: subject, nonce and claims (when they decode). *)
Record IDToken : Type := mkIDToken { it_Subject : string; it_Nonce : string; it_Claims : option Claims }.

(** [OIDCAuthenticator.Exchange]: [fetch] is the code exchange and the verifier. *)
Definition OIDC_Exchange (fetch : string -> string -> option IDToken) (groupsClaim : string) (code nonce verifier : string) : option Subject :=
  idt ← fetch code verifier;
  if decide (it_Nonce idt <> nonce) then None
  else claims ← it_Claims idt;
       Some (mkSubject (it_Subject idt) (stringClaim claims "name") (stringClaim claims "email") (stringSliceClaim claims groupsClaim) (mfaFromClaims claims)).

(** *** GitHub *)

Record ghEmail : Type := mkGhEmail { ge_Email : string; ge_Primary : bool; ge_Verified : bool }.
(** What the API answers for one access token; [None] is an error. *)
Record ghAPI : Type := mkGhAPI { gh_user : option (string * string * string); gh_emails : option (list ghEmail); gh_teams : option (list (string * string)) }.

Fixpoint github_groups (seen : list string) (teams : list (string * string)) : list string :=
  match teams with
  | [] => []
  | (org, slug) :: teams =>
      if decide (org = "") then github_groups seen teams
      else (org +:+ "/" +:+ slug) :: (if decide (org ∈ seen) then github_groups seen teams else org :: github_groups (org :: seen) teams)
  end.

(** [GitHubAuthenticator.Exchange]; the user is (login, decimal id, name). *)
Definition GitHub_Exchange (fetch : string -> option ghAPI) (code nonce verifier : string) : option Subject :=
  api ← fetch code;
  u ← gh_user api;
  let '(login, id, name) := u in
  let verifiedEmail := match gh_emails api with
    | Some es => default "" (ge_Email <$> find_first (fun e => ge_Primary e && ge_Verified e) es)
    | None => "" end in
  teams ← gh_teams api;
  Some (mkSubject ("github:" +:+ id) (orDefault name login) verifiedEmail (github_groups [] teams) None).

(** *** SAML assertions *)

Record Attribute : Type := mkAttribute { at_Name : string; at_FriendlyName : string; at_Values : list string }.
Record Assertion : Type := mkAssertion {
  as_NameID : option string; as_Attributes : list Attribute;            (* of all statements, in order *)
  as_Authn : list (option string * Z); as_IssueInstant : Z }.           (* class reference and instant *)

Definition Contains (s sub : string) : bool := bool_decide (is_Some (Index s sub)).
Definition attrValues (a : Attribute) : list string := filter (fun v => v <> "") (at_Values a).
Definition matchAttr (a : Attribute) (names : list string) : bool :=
  let n := ToLower (at_Name a) in let fn := ToLower (at_FriendlyName a) in
  existsb (fun want => bool_decide (fn = want) || bool_decide (n = want) || HasSuffix n ("/" +:+ want) || HasSuffix n (":" +:+ want)) names.
Definition isEmailAttr (a : Attribute) : bool := matchAttr a ["email"; "emailaddress"; "mail"].
Definition isNameAttr (a : Attribute) : bool := matchAttr a ["name"; "displayname"; "givenname"; "cn"].
Definition isMFAClaim (v : string) : bool :=
  let v := ToLower v in Contains v "multifactor" || Contains v "multipleauthn" || Contains v "mobiletwofactor".
Definition attrIsAMR (a : Attribute) : bool :=
  Contains (ToLower (at_Name a)) "authnmethodsreferences" || Contains (ToLower (at_FriendlyName a)) "authnmethodsreferences".
Definition authnInstant (a : Assertion) : Z := match as_Authn a with (_, t) :: _ => t | [] => as_IssueInstant a end.
Definition samlMFA (a : Assertion) : option Z :=
  match find_first (fun st => match st.1 with Some ref => isMFAClaim ref | None => false end) (as_Authn a) with
  | Some st => Some st.2
  | None => if existsb (fun at_ => attrIsAMR at_ && existsb isMFAClaim (attrValues at_)) (as_Attributes a) then Some (authnInstant a) else None
  end.

(** The switch over one attribute. *)
Definition subject_attr (groupsAttr : string) (s : Subject) (a : Attribute) : Subject :=
  let vals := attrValues a in
  if bool_decide (at_Name a = groupsAttr) || bool_decide (at_FriendlyName a = groupsAttr)
  then mkSubject (su_ID s) (su_Name s) (su_Email s) (su_Groups s ++ vals) (su_MFAAt s)
  else match vals with
  | [] => s
  | v :: _ =>
      if isEmailAttr a && bool_decide (su_Email s = "") then mkSubject (su_ID s) (su_Name s) v (su_Groups s) (su_MFAAt s)
      else if isNameAttr a && bool_decide (su_Name s = "") then mkSubject (su_ID s) v (su_Email s) (su_Groups s) (su_MFAAt s)
      else s
  end.
Definition subjectFrom (groupsAttr : string) (a : Assertion) : Subject :=
  let s := foldl (subject_attr groupsAttr) (mkSubject (default "" (as_NameID a)) "" "" [] None) (as_Attributes a) in
  let email := if bool_decide (su_Email s = "") && Contains (su_ID s) "@" then su_ID s else su_Email s in
  mkSubject (su_ID s) (su_Name s) email (su_Groups s) (samlMFA a).

(** ** Sessions *)

Definition SessionCookie : string := "harbor_session".
Definition CSRFCookie : string := "harbor_csrf".
Definition loginCookie : string := "harbor_login".
Definition tokenPrefix : string := "harbor_".
Definition minute : Z := 60 * 1000000000.

Definition has_session (id : string) (r : Session) : bool := bool_decide (se_ID r = id).
Definition has_token (id : string) (r : AdminToken) : bool := bool_decide (tk_ID r = id).
Definition create_session (row : Session) (s : AuthStore) : result auerr (unit * AuthStore) :=
  if existsb (has_session (se_ID row)) (sessions s) then Err AU_Duplicated else Ok ((), set_sessions (sessions s ++ [row]) s).
Definition create_token (row : AdminToken) (s : AuthStore) : result auerr (unit * AuthStore) :=
  if existsb (has_token (tk_ID row)) (tokens s) then Err AU_Duplicated else Ok ((), set_tokens (tokens s ++ [row]) s).
Definition with_last_used (t : Z) (r : AdminToken) : AdminToken :=
  mkToken (tk_ID r) (tk_Name r) (tk_Principal r) (tk_Roles r) (tk_CreatedBy r) (tk_CreatedAt r) (tk_ExpiresAt r) t (tk_RevokedAt r).
Definition with_revoked (t : Z) (r : AdminToken) : AdminToken :=
  mkToken (tk_ID r) (tk_Name r) (tk_Principal r) (tk_Roles r) (tk_CreatedBy r) (tk_CreatedAt r) (tk_ExpiresAt r) (tk_LastUsedAt r) t.
Definition newest_token (a b : AdminToken) : Prop := tk_CreatedAt b <= tk_CreatedAt a.
#[export] Instance newest_token_dec a b : Decision (newest_token a b). Proof. unfold newest_token. apply _. Defined.

(** The request: method, the headers and cookies that are read, and the parameters of the
    login routes. *)
Record Request : Type := mkRequest {
  rq_Method : string; rq_Authorization : string; rq_CSRF : string; rq_DevActor : string;
  rq_Cookies : list (string * string); rq_Query : list (string * string); rq_Form : option (list (string * string)) }.
Definition param (l : list (string * string)) (k : string) : string := default "" (snd <$> find_first (fun p => bool_decide (p.1 = k)) l).
Definition cookie (r : Request) (k : string) : option string := snd <$> find_first (fun p => bool_decide (p.1 = k)) (rq_Cookies r).

(** A Set-Cookie header; a negative [ck_MaxAge] deletes, 0 leaves it to [Expires]. *)
Record Cookie : Type := mkCookie { ck_Name : string; ck_Value : string; ck_Path : string; ck_MaxAge : Z; ck_HttpOnly : bool; ck_Secure : bool }.
Inductive abody : Type := AB_Redirect (location : string) | AB_NoContent | AB_Providers (l : list string).
Abbreviation resp := (list Cookie * reply abody)%type.

(** [loginState], [samlLoginState] *)
Record loginState : Type := mkLogin { ls_Provider : string; ls_State : string; ls_Nonce : string; ls_Verifier : string; ls_ReturnTo : string }.
Record samlLoginState : Type := mkSamlLogin { sl_RequestID : string; sl_RelayState : string; sl_ReturnTo : string }.

(** [Authenticator]: the code-flow providers. *)
Record Authenticator : Type := mkAuthenticator {
  au_Name : string;
  au_AuthURL : string -> string -> string -> bool -> string;
  au_Exchange : string -> string -> string -> option Subject }.

(** [SAMLAuthenticator] over the SAML library: building a request (its id and the redirect for
    a relay state) and verifying a response against the ids of the requests it may answer. *)
Record SAML : Type := mkSAML {
  sm_Name : string; sm_GroupsAttr : string; sm_Secure : bool; sm_Key : string;
  sm_makeRequest : bool -> option (string * (string -> option string));
  sm_ParseResponse : list (string * string) -> list string -> option Assertion }.

(** The library functions the package calls. *)
Record AuthLib : Type := mkAuthLib {
  al_sha256 : string -> string;
  al_hmac : string -> string -> string;
  al_marshalRoles : list string -> string;
  al_unmarshalRoles : string -> list string;                  (* [] when it does not decode *)
  al_marshalLogin : loginState -> string;
  al_unmarshalLogin : string -> option loginState;
  al_marshalSaml : samlLoginState -> string;
  al_unmarshalSaml : string -> option samlLoginState;
  al_urlParse : string -> option (string * string) }.         (* scheme and host *)

(** [Config] and [Service] *)
Record Service : Type := mkService {
  sv_Auths : list Authenticator; sv_Flows : list SAML; sv_Mapper : RoleMapper; sv_TTL : Z; sv_Secure : bool; sv_Key : string }.

Section adminauth.
Context (lib : AuthLib).
Abbreviation AM := (M AuthStore auerr).

Definition hashToken (token : string) : string := hex (al_sha256 lib token).

(** [rnd] gives the tokens [randToken] draws, in order. *)
Definition Mint (rnd : nat -> option string) (subj : Subject) (idp : string) (roles : list string) (ttl : Z) : AM (string * string) :=
  match rnd 0%nat, rnd 1%nat with
  | Some token, Some csrf =>
      t ← now;
      _ ← exec_err (create_session (mkSession (hashToken token) (Subject_Principal subj) (al_marshalRoles lib roles) idp (su_ID subj) (su_Email subj) (su_Name subj)
                                      csrf (unixNano (su_MFAAt subj)) t (i64 (t + ttl))));
      mret (token, csrf)
  | _, _ => throw AU_Rand
  end.

Definition revokeID (id : string) : AM unit := exec (fun s => ((), set_sessions (filter (fun r => has_session id r = false) (sessions s)) s)).

Definition Lookup (token : string) : AM Session :=
  if decide (token = "") then throw AU_NoSession
  else
    row ← query (fun s => find_first (has_session (hashToken token)) (sessions s));
    match row with
    | None => throw AU_NoSession
    | Some row =>
        t ← now;
        if se_ExpiresAt row <=? t then _ ← ignore (revokeID (se_ID row)); throw AU_NoSession else mret row
    end.

Definition Revoke (token : string) : AM unit := if decide (token = "") then mret () else revokeID (hashToken token).

Definition GC : AM nat :=
  t ← now;
  exec (fun s => (length (filter (fun r => se_ExpiresAt r <= t) (sessions s)), set_sessions (filter (fun r => ~ se_ExpiresAt r <= t) (sessions s)) s)).

(** ** Bearer tokens *)

Definition TokenMint (rnd : nat -> option string) (name principal : string) (roles : list string) (createdBy : string) (ttl : Z) : AM (string * AdminToken) :=
  if decide (TrimSpace name = "") then throw AU_NameRequired
  else match rnd 0%nat with
  | None => throw AU_Rand
  | Some secret =>
      let token := tokenPrefix +:+ secret in
      t ← now;
      let row := mkToken (hashToken token) name (if decide (principal = "") then "token:" +:+ name else principal) (al_marshalRoles lib roles) createdBy t
                   (if 0 <? ttl then i64 (t + ttl) else 0) 0 0 in
      _ ← exec_err (create_token row); mret (token, row)
  end.

Definition TokenLookup (token : string) : AM AdminToken :=
  if decide (token = "") then throw AU_NoToken
  else
    row ← query (fun s => find_first (has_token (hashToken token)) (tokens s));
    match row with
    | None => throw AU_NoToken
    | Some row =>
        t ← now;
        if negb (tk_RevokedAt row =? 0) || (negb (tk_ExpiresAt row =? 0) && (tk_ExpiresAt row <=? t)) then throw AU_NoToken
        else
          _ ← (if minute <? i64 (t - tk_LastUsedAt row)
               then ignore (exec (fun s => ((), set_tokens (map (fun r => if has_token (tk_ID row) r then with_last_used t r else r) (tokens s)) s)))
               else mret ());
          mret row
    end.

Definition TokenList : AM (list AdminToken) := query (fun s => merge_sort newest_token (tokens s)).

Definition revocable (name : string) (r : AdminToken) : bool := bool_decide (tk_Name r = name) && (tk_RevokedAt r =? 0).
Definition TokenRevoke (name : string) : AM nat :=
  t ← now;
  exec (fun s => (length (filter (fun r => revocable name r = true) (tokens s)),
                  set_tokens (map (fun r => if revocable name r then with_revoked t r else r) (tokens s)) s)).

Definition Active (r : AdminToken) (t : Z) : bool := (tk_RevokedAt r =? 0) && ((tk_ExpiresAt r =? 0) || (t <? tk_ExpiresAt r)).

(** ** Who a request comes from *)

Definition bearerToken (r : Request) : string :=
  let h := rq_Authorization r in
  if (7 <? String.length h)%nat && EqualFold (String.substring 0 7 h) "Bearer " then TrimSpace (drop_chars 7 h) else "".

Definition TokenIdentify (r : Request) : AM (option Identity) :=
  let tok := bearerToken r in
  if decide (tok = "") then mret None
  else row ← attempt (TokenLookup tok);
       mret (match row with Ok row => Some (mkIdentity (tk_Principal row) (al_unmarshalRoles lib (tk_Roles row)) None) | Err _ => None end).

Definition session_identity (row : Session) : Identity := mkIdentity (se_Principal row) (al_unmarshalRoles lib (se_Roles row)) (mfaPtr (se_MFAAt row)).
Definition SessionIdentify (r : Request) : AM (option Identity) :=
  match cookie r SessionCookie with
  | None => mret None
  | Some c => row ← attempt (Lookup c); mret (match row with Ok row => Some (session_identity row) | Err _ => None end)
  end.

Definition DevIdentify (roles : list string) (mfa : bool) (r : Request) : AM (option Identity) :=
  if decide (rq_DevActor r = "") then mret None
  else
    let roles := match roles with [] => [RoleAdmin] | _ => roles end in
    if mfa then t ← now; mret (Some (mkIdentity (rq_DevActor r) roles (Some t))) else mret (Some (mkIdentity (rq_DevActor r) roles None)).

(** [ChainProvider]; a nil provider is skipped. *)
Fixpoint ChainIdentify (ps : list (option (Request -> AM (option Identity)))) (r : Request) : AM (option Identity) :=
  match ps with
  | [] => mret None
  | None :: ps => ChainIdentify ps r
  | Some p :: ps => id ← p r; match id with Some id => mret (Some id) | None => ChainIdentify ps r end
  end.

Definition authMiddleware {A} (provider : option (Request -> AM (option Identity))) (r : Request) (next : Identity -> AM (reply A)) : AM (reply A) :=
  match provider with
  | None => mret (Problem 401 "unauthenticated")
  | Some p => id ← p r; match id with Some id => next id | None => mret (Problem 401 "unauthenticated") end
  end.

Definition isSafeMethod (m : string) : bool := bool_decide (m ∈ ["GET"; "HEAD"; "OPTIONS"]).

Definition CSRF {A} (r : Request) (next : AM (reply A)) : AM (reply A) :=
  if isSafeMethod (rq_Method r) then next
  else if decide (rq_CSRF r = "") then mret (Problem 403 "csrf")
  else match cookie r SessionCookie with
  | None => mret (Problem 403 "csrf")
  | Some c =>
      sess ← attempt (Lookup c);
      match sess with
      | Err _ => mret (Problem 403 "csrf")
      | Ok sess => if decide (rq_CSRF r = se_CSRFToken sess) then next else mret (Problem 403 "csrf")
      end
  end.

(** cmd/harbor/serve.go: the API behind the two wrappers. The human path is the session when
    login is configured, else the development header when it is enabled, else nothing. *)
Inductive human : Type := H_Session | H_Dev (roles : list string) (mfa : bool) | H_None.
Definition human_provider (h : human) : option (Request -> AM (option Identity)) :=
  match h with H_Session => Some SessionIdentify | H_Dev roles mfa => Some (DevIdentify roles mfa) | H_None => None end.
Definition serveAPI {A} (h : human) (r : Request) (next : Identity -> AM (reply A)) : AM (reply A) :=
  let api := authMiddleware (Some (ChainIdentify [Some TokenIdentify; human_provider h])) r next in
  match h with H_Session => CSRF r api | _ => api end.
End adminauth.

(** ** Signed login-state cookies *)

Definition signer_encode (hmac : string -> string -> string) (key payload : string) : string :=
  EncodeToString payload +:+ "." +:+ EncodeToString (hmac key payload).
Definition signer_decode (hmac : string -> string -> string) (key s : string) : option string :=
  let '(body, sig, ok) := Cut "." s in
  if negb ok then None
  else payload ← DecodeString body;
       gotMAC ← DecodeString sig;
       if decide (gotMAC = hmac key payload) then Some payload else None.

(** ** The login flow *)

Definition foldsIntoHost : list ascii := ["\"%char; ascii_of_nat 0; ascii_of_nat 9; ascii_of_nat 10; ascii_of_nat 13].
Definition ContainsAny (p : string) (cs : list ascii) : bool := existsb (fun c => bool_decide (c ∈ cs)) (chars p).

Section login.
Context (lib : AuthLib) (sv : Service).
Abbreviation AM := (M AuthStore auerr).

Definition safeReturnTo (p : string) : string :=
  if bool_decide (p = "") || negb (HasPrefix p "/") || HasPrefix p "//" then "/"
  else if ContainsAny p foldsIntoHost then "/"
  else match al_urlParse lib p with
  | None => "/"
  | Some (scheme, host) => if bool_decide (scheme <> "") || bool_decide (host <> "") then "/" else p
  end.

(** [New]: the maps by name keep the last of equal names. *)
Definition byName (name : string) : option Authenticator := find_first (fun a => bool_decide (au_Name a = name)) (rev (sv_Auths sv)).
Definition flows (name : string) : option SAML := find_first (fun a => bool_decide (sm_Name a = name)) (rev (sv_Flows sv)).
Definition providers : list string := map au_Name (sv_Auths sv) ++ map sm_Name (sv_Flows sv).

Definition setSessionCookies (token csrf : string) : list Cookie :=
  [mkCookie SessionCookie token "/" 0 true (sv_Secure sv); mkCookie CSRFCookie csrf "/" 0 false (sv_Secure sv)].
Definition setLoginCookie (ls : loginState) : list Cookie :=
  [mkCookie loginCookie (signer_encode (al_hmac lib) (sv_Key sv) (al_marshalLogin lib ls)) "/admin/v1/auth/" 600 true (sv_Secure sv)].
Definition readLoginCookie (r : Request) : option loginState :=
  c ← cookie r loginCookie; payload ← signer_decode (al_hmac lib) (sv_Key sv) c; al_unmarshalLogin lib payload.
Definition clearCookie (name : string) : list Cookie := [mkCookie name "" "/" (-1) true (sv_Secure sv)].

(** *** SAML *)

Definition cookieName (a : SAML) : string := "harbor_saml_login_" +:+ sm_Name a.
Definition saml_setCookie (a : SAML) (ls : samlLoginState) : list Cookie :=
  [mkCookie (cookieName a) (signer_encode (al_hmac lib) (sm_Key a) (al_marshalSaml lib ls)) "/admin/v1/auth/" 600 true (sm_Secure a)].
Definition saml_readCookie (a : SAML) (r : Request) : option samlLoginState :=
  c ← cookie r (cookieName a); payload ← signer_decode (al_hmac lib) (sm_Key a) c; al_unmarshalSaml lib payload.
Definition saml_clearCookie (a : SAML) : list Cookie := [mkCookie (cookieName a) "" "/admin/v1/auth/" (-1) true (sm_Secure a)].

Definition StartLogin (a : SAML) (rnd : nat -> option string) (returnTo : string) (forceReauth : bool) : resp :=
  match sm_makeRequest a forceReauth with
  | None => ([], Problem 500 "saml")
  | Some (id, redirect) =>
      match rnd 0%nat with
      | None => ([], Problem 500 "saml")
      | Some relay =>
          (saml_setCookie a (mkSamlLogin id relay returnTo),
           match redirect relay with None => Problem 500 "saml" | Some url => Reply 302 (AB_Redirect url) end)
      end
  end.

(** *** The code flow *)

Definition handleProviders : resp := ([], Reply 200 (AB_Providers providers)).

Definition handleLogin (rnd : nat -> option string) (r : Request) : resp :=
  let name := let n := param (rq_Query r) "provider" in if decide (n = "") then default "" (head providers) else n in
  let returnTo := safeReturnTo (param (rq_Query r) "return_to") in
  let forceReauth := bool_decide (param (rq_Query r) "step_up" ∈ ["1"; "true"]) in
  match flows name with
  | Some f => StartLogin f rnd returnTo forceReauth
  | None =>
      match byName name with
      | None => ([], Problem 400 "unknown provider")
      | Some auth =>
          match rnd 0%nat, rnd 1%nat, rnd 2%nat with
          | Some state, Some nonce, Some verifier =>
              (setLoginCookie (mkLogin (au_Name auth) state nonce verifier returnTo), Reply 302 (AB_Redirect (au_AuthURL auth state nonce verifier forceReauth)))
          | _, _, _ => ([], Problem 500 "internal error")
          end
      end
  end.

Definition CompleteLogin (rnd : nat -> option string) (idp : string) (subj : Subject) (returnTo : string) : AM resp :=
  r ← attempt (Mint lib rnd subj idp (Roles (sv_Mapper sv) (su_Groups subj)) (sv_TTL sv));
  mret (match r with
        | Err _ => ([], Problem 500 "internal error")
        | Ok (token, csrf) => (setSessionCookies token csrf, Reply 302 (AB_Redirect (safeReturnTo returnTo)))
        end).

Definition cleared (cs : list Cookie) (m : AM resp) : AM resp := r ← m; mret (cs ++ r.1, r.2).

Definition handleCallback (rnd : nat -> option string) (r : Request) : AM resp :=
  cleared (clearCookie loginCookie) (
    match readLoginCookie r with
    | None => mret ([], Problem 400 "no login in progress")
    | Some ls =>
        let st := param (rq_Query r) "state" in
        if decide (param (rq_Query r) "error" <> "") then mret ([], Problem 401 "login failed")
        else if bool_decide (st = "") || bool_decide (st <> ls_State ls) then mret ([], Problem 400 "bad state")
        else match byName (ls_Provider ls) with
        | None => mret ([], Problem 400 "unknown provider")
        | Some auth =>
            match au_Exchange auth (param (rq_Query r) "code") (ls_Nonce ls) (ls_Verifier ls) with
            | None => mret ([], Problem 401 "login failed")
            | Some subj => CompleteLogin rnd (au_Name auth) subj (ls_ReturnTo ls)
            end
        end
    end).

Definition acs (a : SAML) (rnd : nat -> option string) (r : Request) : AM resp :=
  cleared (saml_clearCookie a) (
    match saml_readCookie a r with
    | None => mret ([], Problem 400 "no login in progress")
    | Some ls =>
        if decide (sl_RequestID ls = "") then mret ([], Problem 400 "no login in progress")
        else match rq_Form r with
        | None => mret ([], Problem 400 "bad request")
        | Some form =>
            let rs := param form "RelayState" in
            if bool_decide (rs = "") || bool_decide (rs <> sl_RelayState ls) then mret ([], Problem 400 "bad relaystate")
            else match sm_ParseResponse a form [sl_RequestID ls] with
            | None => mret ([], Problem 401 "login failed")
            | Some assertion => CompleteLogin rnd (sm_Name a) (subjectFrom (sm_GroupsAttr a) assertion) (sl_ReturnTo ls)
            end
        end
    end).

(** The seam of the enrollment portal. *)
Definition ValidateACS (a : SAML) (form : list (string * string)) (requestID : string) : option Subject :=
  if decide (requestID = "") then None else subjectFrom (sm_GroupsAttr a) <$> sm_ParseResponse a form [requestID].
Definition AuthnRedirect (a : SAML) (relayState : string) : option (string * string) :=
  q ← sm_makeRequest a false; url ← q.2 relayState; Some (url, q.1).

Definition handleLogout (r : Request) : AM resp :=
  _ ← (match cookie r SessionCookie with Some c => ignore (Revoke lib c) | None => mret () end);
  mret (clearCookie SessionCookie ++ clearCookie CSRFCookie, Reply 204 AB_NoContent).
End login.

(** ** Every session comes from a login *)

Section origin.
Context (lib : AuthLib) (sv : Service).
Abbreviation AM := (M AuthStore auerr).

(** A configured provider vouched for the subject: by exchanging a code, or with an assertion
    that answers a request of ours. *)
Definition vouched (idp : string) (subj : Subject) : Prop :=
  (exists a code nonce verifier, a ∈ sv_Auths sv /\ au_Name a = idp /\ au_Exchange a code nonce verifier = Some subj) \/
  (exists a form id as_, a ∈ sv_Flows sv /\ sm_Name a = idp /\ id <> "" /\ sm_ParseResponse a form [id] = Some as_ /\ subj = subjectFrom (sm_GroupsAttr a) as_).

Definition session_row (token csrf idp : string) (subj : Subject) (t : Z) : Session :=
  mkSession (hashToken lib token) (Subject_Principal subj) (al_marshalRoles lib (Roles (sv_Mapper sv) (su_Groups subj))) idp (su_ID subj) (su_Email subj) (su_Name subj)
    csrf (unixNano (su_MFAAt subj)) t (i64 (t + sv_TTL sv)).
Definition from_login (row : Session) : Prop := exists token csrf idp subj t, vouched idp subj /\ row = session_row token csrf idp subj t.

(** What anybody may do to the two tables between two statements of a request. *)
Inductive auth_step (s : AuthStore) : AuthStore -> Prop :=
| st_login row : from_login row -> existsb (has_session (se_ID row)) (sessions s) = false -> auth_step s (set_sessions (sessions s ++ [row]) s)
| st_drop (P : Session -> bool) : auth_step s (set_sessions (filter (fun r => P r = true) (sessions s)) s)
| st_mint row : existsb (has_token (tk_ID row)) (tokens s) = false -> tk_RevokedAt row = 0 -> auth_step s (set_tokens (tokens s ++ [row]) s)
| st_used id t : auth_step s (set_tokens (map (fun r => if has_token id r then with_last_used t r else r) (tokens s)) s)
| st_revoke name t : auth_step s (set_tokens (map (fun r => if revocable name r then with_revoked t r else r) (tokens s)) s).
Definition others_auth : relation AuthStore := rtc auth_step.

Record auth_inv (s : AuthStore) : Prop := mkAuthInv {
  ai_login : forall row, row ∈ sessions s -> from_login row;
  ai_sessions : NoDup (map se_ID (sessions s));
  ai_tokens : NoDup (map tk_ID (tokens s)) }.

Lemma map_same_ids {A} (key : A -> string) (f : A -> A) l : (forall r, key (f r) = key r) -> map key (map f l) = map key l.
Proof. intros Hf. rewrite map_map. by apply map_ext. Qed.

Lemma unused_id {A} (key : A -> string) (row : A) l : existsb (fun r => bool_decide (key r = key row)) l = false -> NoDup (map key l) -> NoDup (map key (l ++ [row])).
Proof.
  intros Hu Hn. rewrite map_app. apply NoDup_app. split_and!; [done| |apply NoDup_singleton]. intros x Hx ->%list_elem_of_singleton.
  apply list_elem_of_fmap_1 in Hx as (r & E & Hr). apply existsb_elem_false with (x := r) in Hu; [|done]. bool_split. by symmetry in E.
Qed.

Lemma auth_inv_step s s' : auth_step s s' -> auth_inv s -> auth_inv s'.
Proof.
  intros Hs [Hl Hsn Ht]. destruct Hs as [row Hr Hu|P|row Hu Hz|id t|name t]; split; cbn; try done.
  - intros r [?| ->%list_elem_of_singleton]%elem_of_app; [by apply Hl|done].
  - by apply unused_id.
  - intros r [_ ?]%list_elem_of_filter. by apply Hl.
  - eapply sublist_NoDup; [exact Hsn|]. apply (fmap_sublist se_ID), sublist_filter.
  - by apply unused_id.
  - rewrite map_same_ids; [done|]. intros r. by destruct (has_token id r).
  - rewrite map_same_ids; [done|]. intros r. by destruct (revocable name r).
Qed.

Lemma auth_inv_others : stable others_auth auth_inv.
Proof. intros s s' Hs Hi. by apply (rtc_invariant auth_step auth_inv s s' auth_inv_step). Qed.

(** What a request itself does to the tables: it drops expired sessions and stamps the use of
    a token; it makes neither. *)
Inductive request_step (s : AuthStore) : AuthStore -> Prop :=
| rs_expire (P : Session -> bool) : request_step s (set_sessions (filter (fun r => P r = true) (sessions s)) s)
| rs_used id t : request_step s (set_tokens (map (fun r => if has_token id r then with_last_used t r else r) (tokens s)) s).

Lemma request_auth s s' : request_step s s' -> auth_step s s'.
Proof. intros []; [apply st_drop|apply st_used]. Qed.

(** *** Lookups, among any interference that keeps to these steps *)

Section lookups.
Context (T : Z -> Prop) (R : relation AuthStore) (HR : forall s s', R s s' -> others_auth s s').
Context (G : relation AuthStore) (HG : forall s s', request_step s s' -> G s s').

(** A later state of the request. *)
Definition later : relation AuthStore := rtc (either R request_step).
#[local] Instance later_preorder : PreOrder later.
Proof. exact rtc_po. Qed.
Lemma later_R s s' : R s s' -> later s s'.
Proof. intros H. apply rtc_once. by left. Qed.
Lemma later_step s s' : request_step s s' -> later s s'.
Proof. intros H. apply rtc_once. by right. Qed.
Lemma inv_R s s' : R s s' -> auth_inv s -> auth_inv s'.
Proof. intros H Hi. eapply auth_inv_others; [by apply HR|done]. Qed.
Lemma inv_request s s' : request_step s s' -> auth_inv s -> auth_inv s'.
Proof. intros H. by apply auth_inv_step, request_auth. Qed.

Lemma revokeID_wp id (Q : result auerr unit -> AuthStore -> Prop) s : auth_inv s -> (forall r s', auth_inv s' -> later s s' -> Q r s') -> wpt T R G (revokeID id) Q s.
Proof.
  intros Hi HQ. apply wp_exec. intros s1 H1. assert (Hi1 : auth_inv s1) by (by eapply inv_R). apply later_R in H1. split; [by apply HQ|].
  assert (Hd : request_step s1 (set_sessions (filter (fun r => has_session id r = false) (sessions s1)) s1)).
  { rewrite (list_filter_iff _ (fun r => negb (has_session id r) = true)) by (intros r; by rewrite negb_true_iff). apply rs_expire. }
  split; [by apply HG|]. apply HQ; [by eapply inv_request|]. etrans; [exact H1|by apply later_step].
Qed.

(** A session that was in the table during the request, under the digest of the presented
    token, unexpired at a time the clock showed. *)
Definition seen_session (s s' : AuthStore) (token : string) (row : Session) : Prop :=
  token <> "" /\ se_ID row = hashToken lib token /\ (exists st, later s st /\ later st s' /\ row ∈ sessions st) /\ exists t, T t /\ t < se_ExpiresAt row.

Lemma Lookup_wp token (Q : result auerr Session -> AuthStore -> Prop) s : auth_inv s ->
  (forall e s', auth_inv s' -> later s s' -> Q (Err e) s') ->
  (forall row s', auth_inv s' -> later s s' -> seen_session s s' token row -> from_login row -> Q (Ok row) s') -> wpt T R G (Lookup lib token) Q s.
Proof.
  intros Hi He Hok. unfold Lookup. destruct (decide (token = "")) as [|Hne]; [by apply wp_throw, He|]. wp_step. apply wp_query. intros s1 H1.
  assert (Hi1 : auth_inv s1) by (by eapply inv_R). apply later_R in H1. split; [by apply He|]. destruct (find_first _ _) as [row|] eqn:Ef; [|by apply wp_throw, He].
  apply find_first_Some in Ef as [Hin Hid]. unfold has_session in Hid. bool_split. wp_step. apply wp_now. intros t Ht. wp_reduce.
  destruct (Z.leb_spec (se_ExpiresAt row) t).
  - wp_step. apply wp_ignore, revokeID_wp; [done|]. intros _ s2 Hi2 H2. apply wp_throw, He; [done|by etrans].
  - apply wp_ret, Hok; [done|done| |by apply (ai_login s1)]. split_and!; [done|done|by exists s1|by exists t].
Qed.

(** A token that was in the table during the request, neither revoked nor expired. *)
Definition seen_token (s s' : AuthStore) (token : string) (row : AdminToken) : Prop :=
  tk_ID row = hashToken lib token /\ tk_RevokedAt row = 0 /\ (exists st, later s st /\ later st s' /\ row ∈ tokens st) /\
  exists t, T t /\ (tk_ExpiresAt row = 0 \/ t < tk_ExpiresAt row).

Lemma TokenLookup_wp token (Q : result auerr AdminToken -> AuthStore -> Prop) s : auth_inv s ->
  (forall e s', auth_inv s' -> later s s' -> Q (Err e) s') ->
  (forall row s', auth_inv s' -> later s s' -> seen_token s s' token row -> Q (Ok row) s') -> wpt T R G (TokenLookup lib token) Q s.
Proof.
  intros Hi He Hok. unfold TokenLookup. destruct (decide (token = "")) as [|Hne]; [by apply wp_throw, He|]. wp_step. apply wp_query. intros s1 H1.
  assert (Hi1 : auth_inv s1) by (by eapply inv_R). apply later_R in H1. split; [by apply He|]. destruct (find_first _ _) as [row|] eqn:Ef; [|by apply wp_throw, He].
  apply find_first_Some in Ef as [Hin Hid]. unfold has_token in Hid. bool_split. wp_step. apply wp_now. intros t Ht. wp_reduce.
  destruct (negb (tk_RevokedAt row =? 0) || _) eqn:Ed; [by apply wp_throw, He|]. apply orb_false_iff in Ed as [Er Ex].
  assert (Hlive : forall s', later s1 s' -> seen_token s s' token row).
  { intros s' Hs'. split_and!; [done|by bool_split|by exists s1|]. exists t. split; [done|]. apply andb_false_iff in Ex as [Ex|Ex]; bool_split; [by left|right; lia]. }
  apply wp_bind. destruct (minute <? _); [|by apply wp_ret, wp_ret, Hok; [..|apply Hlive]]. apply wp_ignore, wp_exec. intros s2 H2.
  assert (Hi2 : auth_inv s2) by (by eapply inv_R). apply later_R in H2. split; [apply wp_ret, Hok; [done|by etrans|by apply Hlive]|].
  split; [apply HG, rs_used|]. apply wp_ret, Hok; [eapply inv_request; [apply rs_used|done]|..].
  - etrans; [exact H1|]. etrans; [exact H2|]. apply later_step, rs_used.
  - apply Hlive. etrans; [exact H2|]. apply later_step, rs_used.
Qed.
End lookups.

Section calls.
Context (T : Z -> Prop).
Abbreviation wpa m Q s := (wpt T others_auth auth_step m Q s).

Lemma Complete_wp rnd idp subj returnTo (Q : result auerr resp -> AuthStore -> Prop) s : auth_inv s -> vouched idp subj ->
  (forall s', auth_inv s' -> Q (Ok ([], Problem 500 "internal error")) s') ->
  (forall token csrf s', auth_inv s' -> Q (Ok (setSessionCookies sv token csrf, Reply 302 (AB_Redirect (safeReturnTo lib returnTo)))) s') ->
  wpa (CompleteLogin lib sv rnd idp subj returnTo) Q s.
Proof.
  intros Hi Hv He Hok. unfold CompleteLogin. apply wp_bind, wp_attempt. unfold Mint. destruct (rnd 0%nat) as [token|]; [|by apply wp_throw, wp_ret, He].
  destruct (rnd 1%nat) as [csrf|]; [|by apply wp_throw, wp_ret, He]. wp_step. apply wp_now. intros t Ht. wp_reduce. apply wp_bind, wp_exec_err. intros s1 H1.
  assert (Hi1 : auth_inv s1) by (by eapply auth_inv_others). split; [by apply wp_ret, He|].
  fold (session_row token csrf idp subj t). unfold create_session. destruct (existsb _ _) eqn:Ee; [by apply wp_ret, He|].
  assert (Hs : auth_step s1 (set_sessions (sessions s1 ++ [session_row token csrf idp subj t]) s1)).
  { apply st_login; [|done]. by exists token, csrf, idp, subj, t. }
  split; [exact Hs|]. apply wp_ret, wp_ret, Hok. by eapply auth_inv_step.
Qed.

Lemma cleared_wp cs (m : AM resp) (Q : result auerr resp -> AuthStore -> Prop) s :
  wpa m (fun r s' => Q (match r with Ok x => Ok (cs ++ x.1, x.2) | Err e => Err e end) s') s -> wpa (cleared cs m) Q s.
Proof. intros H. unfold cleared. apply wp_bind. eapply wp_mono; [exact H|]. intros [x|e] s' _ HQ; [by apply wp_ret|done]. Qed.

(** A completed callback: it carries a login state we signed, answers the attempt that made
    it, and the provider exchanged the code under that attempt's nonce and verifier. *)
Definition callback_bound (r : Request) (loc : string) : Prop :=
  exists c payload ls auth subj, cookie r loginCookie = Some c /\ signer_decode (al_hmac lib) (sv_Key sv) c = Some payload /\ al_unmarshalLogin lib payload = Some ls /\
    ls_State ls <> "" /\ param (rq_Query r) "state" = ls_State ls /\ byName sv (ls_Provider ls) = Some auth /\
    au_Exchange auth (param (rq_Query r) "code") (ls_Nonce ls) (ls_Verifier ls) = Some subj /\ loc = safeReturnTo lib (ls_ReturnTo ls).
Definition acs_bound (a : SAML) (r : Request) (loc : string) : Prop :=
  exists c payload ls form as_, cookie r (cookieName a) = Some c /\ signer_decode (al_hmac lib) (sm_Key a) c = Some payload /\ al_unmarshalSaml lib payload = Some ls /\
    rq_Form r = Some form /\ sl_RelayState ls <> "" /\ param form "RelayState" = sl_RelayState ls /\ sl_RequestID ls <> "" /\
    sm_ParseResponse a form [sl_RequestID ls] = Some as_ /\ loc = safeReturnTo lib (sl_ReturnTo ls).

Lemma not_done_wp (st : Z) title (P : string -> Prop) s (cs : list Cookie) : auth_inv s ->
  wpa (mret ([], Problem st title)) (fun (r : result auerr resp) s' => auth_inv s' /\ forall cs' loc, match r with Ok x => Ok (cs ++ x.1, x.2) | Err e => Err e end = Ok (cs', Reply 302 (AB_Redirect loc)) -> P loc) s.
Proof. intros Hi. apply wp_ret. by split. Qed.

Lemma byName_vouched name auth code nonce verifier subj : byName sv name = Some auth -> au_Exchange auth code nonce verifier = Some subj -> vouched (au_Name auth) subj.
Proof. intros Hb Hx. apply find_first_Some in Hb as [Hin _]. left. exists auth, code, nonce, verifier. split_and!; [by apply list_elem_of_In, in_rev, list_elem_of_In|done..]. Qed.

(** Every console session comes from a login that a configured identity provider vouched
    for, under any faults and interleaving of logins, logouts and expiry: its principal, roles
    and MFA instant are those of that subject. A callback only completes for the attempt whose
    signed state cookie it carries (state and nonce, or relay state and request id), and it
    only redirects to the validated return path. *)
Theorem sessions_come_from_logins rnd r s : auth_inv s ->
  wpa (handleCallback lib sv rnd r) (fun o s' => auth_inv s' /\ forall cs loc, o = Ok (cs, Reply 302 (AB_Redirect loc)) -> callback_bound r loc) s /\
  (forall a, a ∈ sv_Flows sv -> wpa (acs lib sv a rnd r) (fun o s' => auth_inv s' /\ forall cs loc, o = Ok (cs, Reply 302 (AB_Redirect loc)) -> acs_bound a r loc) s) /\
  wpa (handleLogout lib sv r) (fun _ s' => auth_inv s') s /\
  (forall token, wpa (Lookup lib token) (fun _ s' => auth_inv s') s).
Proof.
  intros Hi. split_and!.
  - unfold handleCallback. apply cleared_wp. unfold readLoginCookie. destruct (cookie r loginCookie) as [c|] eqn:Ec; [|by apply not_done_wp]. cbn [mbind option_bind].
    destruct (signer_decode _ _ c) as [payload|] eqn:Ep; [|by apply not_done_wp]. cbn [mbind option_bind]. destruct (al_unmarshalLogin lib payload) as [ls|] eqn:El; [|by apply not_done_wp].
    destruct (decide _); [by apply not_done_wp|]. destruct (bool_decide (_ = "") || _) eqn:Es; [by apply not_done_wp|]. apply orb_false_iff in Es as [Es1 Es2]. bool_split.
    apply dec_stable in Es2. destruct (byName sv (ls_Provider ls)) as [auth|] eqn:Eb; [|by apply not_done_wp]. destruct (au_Exchange _ _ _ _) as [subj|] eqn:Ex; [|by apply not_done_wp].
    apply Complete_wp; [done|by eapply byName_vouched|done|]. intros token csrf s' Hi'. split; [done|]. intros cs loc [= <- <-].
    exists c, payload, ls, auth, subj. split_and!; try done. by rewrite <- Es2.
  - intros a Ha. unfold acs. apply cleared_wp. unfold saml_readCookie. destruct (cookie r (cookieName a)) as [c|] eqn:Ec; [|by apply not_done_wp]. cbn [mbind option_bind].
    destruct (signer_decode _ _ c) as [payload|] eqn:Ep; [|by apply not_done_wp]. cbn [mbind option_bind]. destruct (al_unmarshalSaml lib payload) as [ls|] eqn:El; [|by apply not_done_wp].
    destruct (decide _) as [|Hid]; [by apply not_done_wp|]. destruct (rq_Form r) as [form|] eqn:Efm; [|by apply not_done_wp].
    destruct (bool_decide (_ = "") || _) eqn:Es; [by apply not_done_wp|]. apply orb_false_iff in Es as [Es1 Es2]. bool_split. apply dec_stable in Es2.
    destruct (sm_ParseResponse _ _ _) as [as_|] eqn:Ex; [|by apply not_done_wp].
    apply Complete_wp; [done|right; by exists a, form, (sl_RequestID ls), as_|done|]. intros token csrf s' Hi'. split; [done|]. intros cs loc [= <- <-].
    exists c, payload, ls, form, as_. split_and!; try done. by rewrite <- Es2.
  - unfold handleLogout. apply wp_bind. destruct (cookie r SessionCookie) as [c|]; [|by apply wp_ret, wp_ret]. apply wp_ignore. unfold Revoke.
    destruct (decide _); [by apply wp_ret, wp_ret|]. apply (revokeID_wp T others_auth (fun _ _ H => H) auth_step request_auth); [done|]. intros _ s' Hi' _. by apply wp_ret.
  - intros token. by apply (Lookup_wp T others_auth (fun _ _ H => H) auth_step request_auth).
Qed.

End calls.

(** *** Who a handler is run for *)

Section requests.
Context (T : Z -> Prop) (R : relation AuthStore) (HR : forall s s', R s s' -> others_auth s s').
Abbreviation wpr m Q s := (wpt T R request_step m Q s).

(** The codec of the roles column. *)
Context (Hroles : forall l, al_unmarshalRoles lib (al_marshalRoles lib l) = l).

Definition from_token (s s' : AuthStore) (r : Request) (id : Identity) : Prop :=
  exists row, seen_token T R s s' (bearerToken r) row /\ id = mkIdentity (tk_Principal row) (al_unmarshalRoles lib (tk_Roles row)) None.

(** The identity of a provider's subject. *)
Definition subject_identity (subj : Subject) : Identity :=
  mkIdentity (Subject_Principal subj) (Roles (sv_Mapper sv) (su_Groups subj)) (mfaPtr (unixNano (su_MFAAt subj))).
Definition from_session (s s' : AuthStore) (r : Request) (id : Identity) : Prop :=
  exists c row idp subj, cookie r SessionCookie = Some c /\ seen_session T R s s' c row /\ id = session_identity lib row /\
    vouched idp subj /\ id = subject_identity subj.
Definition csrf_ok (s s' : AuthStore) (r : Request) : Prop :=
  isSafeMethod (rq_Method r) = true \/
  exists c row, cookie r SessionCookie = Some c /\ seen_session T R s s' c row /\ rq_CSRF r = se_CSRFToken row /\ rq_CSRF r <> "".

Lemma seen_session_wide s0 s s' s1 c row : later R s0 s -> later R s' s1 -> seen_session T R s s' c row -> seen_session T R s0 s1 c row.
Proof. intros H0 H1 (? & ? & (st & ? & ? & ?) & ?). split_and!; [done|done| |done]. exists st. split_and!; [| |done]; (etrans; [|done]); done. Qed.

Lemma seen_token_wide s0 s s' s1 tok row : later R s0 s -> later R s' s1 -> seen_token T R s s' tok row -> seen_token T R s0 s1 tok row.
Proof. intros H0 H1 (? & ? & (st & ? & ? & ?) & ?). split_and!; [done|done| |done]. exists st. split_and!; [| |done]; (etrans; [|done]); done. Qed.

Lemma csrf_wide s s' s1 r : later R s' s1 -> csrf_ok s s' r -> csrf_ok s s1 r.
Proof. intros H1 [?|(c & row & ? & Hs & ?)]; [by left|right]. exists c, row. split_and!; [done| |naive_solver..]. eapply seen_session_wide; [constructor|done|done]. Qed.

Lemma session_genuine s s' r c row : cookie r SessionCookie = Some c -> seen_session T R s s' c row -> from_login row -> from_session s s' r (session_identity lib row).
Proof.
  intros Hc Hs (token & csrf & idp & subj & t & Hv & ->). exists c, (session_row token csrf idp subj t), idp, subj. split_and!; try done.
  unfold session_identity, subject_identity. cbn. by rewrite Hroles.
Qed.

Definition authentic (s s' : AuthStore) (r : Request) (id : Identity) : Prop := from_token s s' r id \/ from_session s s' r id.

Lemma authentic_wide s0 s s' r id : later R s0 s -> authentic s s' r id -> authentic s0 s' r id.
Proof.
  intros H0 [(row & Hs & ?)|(c & row & idp & subj & ? & Hs & ?)]; [left|right].
  - exists row. split; [|done]. by eapply seen_token_wide; [exact H0|constructor|].
  - exists c, row, idp, subj. split_and!; [done| |naive_solver..]. by eapply seen_session_wide; [exact H0|constructor|].
Qed.

Lemma session_wp r (Q : result auerr (option Identity) -> AuthStore -> Prop) s : auth_inv s ->
  (forall s', auth_inv s' -> later R s s' -> Q (Ok None) s') ->
  (forall id s', auth_inv s' -> later R s s' -> from_session s s' r id -> Q (Ok (Some id)) s') -> wpr (SessionIdentify lib r) Q s.
Proof.
  intros Hi Hn Hs. unfold SessionIdentify. destruct (cookie r SessionCookie) as [c|] eqn:Ec; [|apply wp_ret, Hn; [done|constructor]].
  apply wp_bind, wp_attempt, (Lookup_wp T R HR request_step (fun _ _ H => H)); [done|by intros; apply wp_ret, Hn|].
  intros row s' Hi' Hl Hrow Hlog. apply wp_ret, Hs; [done|done|]. by eapply session_genuine.
Qed.

Lemma token_wp r (Q : result auerr (option Identity) -> AuthStore -> Prop) s : auth_inv s ->
  (forall s', auth_inv s' -> later R s s' -> Q (Ok None) s') ->
  (forall id s', auth_inv s' -> later R s s' -> from_token s s' r id -> Q (Ok (Some id)) s') -> wpr (TokenIdentify lib r) Q s.
Proof.
  intros Hi Hn Hs. unfold TokenIdentify. destruct (decide _); [apply wp_ret, Hn; [done|constructor]|].
  apply wp_bind, wp_attempt, (TokenLookup_wp T R HR request_step (fun _ _ H => H)); [done|by intros; apply wp_ret, Hn|].
  intros row s' Hi' Hl Hrow. apply wp_ret, Hs; [done|done|]. by exists row.
Qed.

Lemma chain_wp {A} r (next : Identity -> AM (reply A)) (Q : result auerr (reply A) -> AuthStore -> Prop) s : auth_inv s ->
  (forall s', auth_inv s' -> later R s s' -> Q (Ok (Problem 401 "unauthenticated")) s') ->
  (forall id s', auth_inv s' -> later R s s' -> authentic s s' r id -> wpr (next id) Q s') ->
  wpr (authMiddleware (Some (ChainIdentify [Some (TokenIdentify lib); Some (SessionIdentify lib)])) r next) Q s.
Proof.
  intros Hi H401 Hn. unfold authMiddleware. cbn [ChainIdentify]. apply wp_bind, wp_bind, token_wp; [done| |].
  - intros s1 Hi1 H1. apply wp_bind, session_wp; [done| |].
    + intros s2 Hi2 H2. apply wp_ret, wp_ret, H401; [done|by etrans].
    + intros id s2 Hi2 H2 Hs. apply wp_ret, Hn; [done|by etrans|]. eapply authentic_wide; [exact H1|by right].
  - intros id s1 Hi1 H1 Ht. apply wp_ret, Hn; [done|done|by left].
Qed.

(** C19: a handler of the console only runs for a genuine identity. With login configured,
    under faults and any interference that keeps to logins, logouts, expiry, and minting and
    revoking tokens: the identity a handler runs for is that of a bearer token whose row was
    in the table during the request, neither revoked nor expired at a reading of the clock, or
    of the session of the request's cookie, whose row was in the table during the request and
    unexpired, and which has the principal and MFA instant of a subject that a configured
    identity provider vouched for, with the roles the role map gives that subject's groups. A
    request that changes state carries the CSRF secret of such a session row, so one with a
    bearer token alone is refused. The request itself adds neither session nor token. *)
Theorem requests_are_authenticated r s : auth_inv s ->
  wpr (serveAPI lib H_Session r (fun id => mret (Reply 200 id)))
    (fun o s' => auth_inv s' /\ forall id, o = Ok (Reply 200 id) -> authentic s s' r id /\ csrf_ok s s' r) s.
Proof.
  intros Hi. unfold serveAPI. cbn [human_provider].
  assert (Hapi : forall s0, auth_inv s0 -> later R s s0 -> csrf_ok s s0 r ->
    wpr (authMiddleware (Some (ChainIdentify [Some (TokenIdentify lib); Some (SessionIdentify lib)])) r (fun id => mret (Reply 200 id)))
    (fun o s' => auth_inv s' /\ forall id, o = Ok (Reply 200 id) -> authentic s s' r id /\ csrf_ok s s' r) s0).
  { intros s0 Hi0 H0 Hcs. apply chain_wp; [done|done|]. intros id s' Hi' H' Hg. apply wp_ret. split; [done|]. intros ? [= <-].
    split; [by eapply authentic_wide|by eapply csrf_wide]. }
  unfold CSRF. destruct (isSafeMethod (rq_Method r)) eqn:Em; [by apply Hapi; [|constructor|left]|]. destruct (decide (rq_CSRF r = "")) as [|Hne]; [by apply wp_ret|].
  destruct (cookie r SessionCookie) as [c|] eqn:Ec; [|by apply wp_ret].
  apply wp_bind, wp_attempt, (Lookup_wp T R HR request_step (fun _ _ H => H)); [done|by intros; apply wp_ret|].
  intros row s' Hi' Hl Hrow _. destruct (decide _) as [Hcs|]; [|by apply wp_ret]. apply Hapi; [done|done|right]. by exists c, row.
Qed.
End requests.
End origin.

(** ** Roles *)

Lemma Roles_elem m groups r : r ∈ Roles m groups <-> r ∈ DefaultRoles m \/ exists g rs, g ∈ groups /\ GroupRoles m !! g = Some rs /\ r ∈ rs.
Proof.
  unfold Roles. rewrite sort_strings_perm, elem_of_remove_dups, elem_of_app, (list_elem_of_In (flat_map _ _)), in_flat_map. split; (intros [?|H]; [by left|right]).
  - destruct H as (g & Hg & Hr). exists g. destruct (GroupRoles m !! g) as [rs|]; [|done]. exists rs. by rewrite !list_elem_of_In.
  - destruct H as (g & rs & Hg & E & Hr). exists g. rewrite E. by rewrite !list_elem_of_In in *.
Qed.

(** Authority comes from the role map alone: whoever a session authorizes to decide
    approvals is in a group the map gives the admin role (or everybody is), and with an empty
    role map and no default role a login authorizes nothing. *)
Theorem authority_is_mapped lib sv T R s s' r id perm : from_session lib sv T R s s' r id -> authorize id perm = true ->
  exists idp subj role, vouched sv idp subj /\ Subject_Principal subj = id_Principal id /\ (role = RoleAdmin \/ (role = RoleOperator /\ perm <> PermApprovalDecide)) /\
    (role ∈ DefaultRoles (sv_Mapper sv) \/ exists g rs, g ∈ su_Groups subj /\ GroupRoles (sv_Mapper sv) !! g = Some rs /\ role ∈ rs).
Proof.
  intros (c & row & idp & subj & _ & _ & _ & Hv & ->) Ha. apply authorize_matrix in Ha. cbn in Ha.
  destruct Ha as [Ha|[Ha Hp]]; apply Roles_elem in Ha; exists idp, subj; [exists RoleAdmin|exists RoleOperator]; split_and!; auto.
Qed.

(** ** Tokens *)

(** A revoked token: no step brings it back. *)
Definition dead (lib : AuthLib) (token : string) (s : AuthStore) : Prop := exists r, r ∈ tokens s /\ tk_ID r = hashToken lib token /\ tk_RevokedAt r <> 0.

Lemma dead_mapped lib token s (f : AdminToken -> AdminToken) :
  (forall r, tk_ID (f r) = tk_ID r /\ (tk_RevokedAt r <> 0 -> tk_RevokedAt (f r) <> 0)) -> dead lib token s -> dead lib token (set_tokens (map f (tokens s)) s).
Proof. intros Hf (r & Hin & Hid & Hr). exists (f r). split; [by apply list_elem_of_fmap_2|]. rewrite <- Hid. split; [apply Hf|by apply Hf]. Qed.

Lemma dead_step lib sv token s s' : auth_step lib sv s s' -> dead lib token s -> dead lib token s'.
Proof.
  intros Hs Hd. destruct Hs as [row Hr Hu|P|row Hu Hz|id t|name t]; try done.
  - destruct Hd as (r & Hin & Hr). exists r. split; [apply elem_of_app; by left|done].
  - apply dead_mapped; [|done]. intros r. by destruct (has_token id r).
  - apply dead_mapped; [|done]. intros r. destruct (revocable name r) eqn:Er; [|done]. unfold revocable in Er. by bool_split.
Qed.

Lemma dead_others lib sv token : stable (others_auth lib sv) (dead lib token).
Proof. intros s s' Hs. apply (rtc_invariant (auth_step lib sv) (dead lib token) s s'); [|done]. intros a b. apply dead_step. Qed.

(** The rows keep their id and name. *)
Lemma token_kept lib sv s s' row : others_auth lib sv s s' -> row ∈ tokens s -> exists row', row' ∈ tokens s' /\ tk_ID row' = tk_ID row /\ tk_Name row' = tk_Name row.
Proof.
  intros Hs. revert row. induction Hs as [s|s s1 s' Hs _ IH]; intros row Hin; [by exists row|].
  assert (exists row1, row1 ∈ tokens s1 /\ tk_ID row1 = tk_ID row /\ tk_Name row1 = tk_Name row) as (row1 & H1 & <- & <-); [|by apply IH].
  destruct Hs as [new Hr Hu|P|new Hu Hz|id t|name t]; [by exists row..| | |].
  - exists row. split; [apply elem_of_app; by left|done].
  - exists (if has_token id row then with_last_used t row else row). split; [by apply (list_elem_of_fmap_2 (fun r => if has_token id r then with_last_used t r else r))|]. by destruct (has_token id row).
  - exists (if revocable name row then with_revoked t row else row). split; [by apply (list_elem_of_fmap_2 (fun r => if revocable name r then with_revoked t r else r))|]. by destruct (revocable name row).
Qed.

(** A revoked admin token never authenticates again: after [TokenRevoke] of its name
    succeeded the token is dead, it stays dead whatever others do, and no request that carries
    it resolves to an identity, under any faults. *)
Theorem revoked_token_stays_revoked lib sv (T : Z -> Prop) token row s : (forall t, T t -> t <> 0) -> auth_inv lib sv s ->
  row ∈ tokens s -> tk_ID row = hashToken lib token ->
  wpt T (others_auth lib sv) (auth_step lib sv) (TokenRevoke (tk_Name row)) (fun o s' => forall n, o = Ok n -> dead lib token s') s /\
  (forall s1 s2 r, dead lib token s1 -> auth_inv lib sv s1 -> others_auth lib sv s1 s2 -> bearerToken r = token ->
     wpt T (others_auth lib sv) (auth_step lib sv) (TokenIdentify lib r) (fun o _ => o = Ok None) s2).
Proof.
  intros HT Hi Hrow Hid. split.
  - unfold TokenRevoke. wp_step. apply wp_now. intros t Ht. wp_reduce. apply wp_exec. intros s1 H1. split; [done|]. split; [apply st_revoke|]. intros n _.
    destruct (token_kept lib sv s s1 row H1 Hrow) as (row1 & Hin & Hid1 & Hn1). rewrite <- Hn1.
    exists (if revocable (tk_Name row1) row1 then with_revoked t row1 else row1). split; [by apply (list_elem_of_fmap_2 (fun r => if revocable (tk_Name row1) r then with_revoked t r else r))|].
    destruct (revocable (tk_Name row1) row1) eqn:Er; cbn; split; try (by rewrite Hid1, Hid); [by apply HT|].
    unfold revocable in Er. rewrite bool_decide_true in Er by done. cbn in Er. by apply Z.eqb_neq.
  - intros s1 s2 r Hd Hi1 H12 <-. unfold TokenIdentify. destruct (decide _) as [|Hne]; [by apply wp_ret|]. apply wp_bind, wp_attempt.
    unfold TokenLookup. rewrite decide_False by done. wp_step. apply wp_query. intros s3 H23.
    assert (Hd3 : dead lib (bearerToken r) s3) by (eapply dead_others; [exact H23|]; by eapply dead_others).
    assert (Hi3 : auth_inv lib sv s3) by (eapply auth_inv_others; [exact H23|]; by eapply auth_inv_others).
    split; [by apply wp_ret|]. destruct (find_first _ _) as [x|] eqn:Ef; [|by apply wp_throw, wp_ret]. apply find_first_Some in Ef as [Hx Hxid]. unfold has_token in Hxid. bool_split.
    destruct Hd3 as (d & Hdin & Hdid & Hdr). assert (x = d) as ->.
    { apply (keyed_unique tk_ID (tokens s3)); [exact (ai_tokens _ _ _ Hi3)|done|done|]. by rewrite Hxid, Hdid. }
    wp_step. apply wp_now. intros t Ht. wp_reduce. rewrite (proj2 (Z.eqb_neq _ _) Hdr). cbn [negb orb]. by apply wp_throw, wp_ret.
Qed.

(** A machine token never passes step-up MFA. Whatever the token and the faults, the
    identity it resolves to carries no MFA instant, so where step-up is enforced an approval
    made with it is refused without a statement on the approvals tables. *)
Theorem tokens_never_approve lib env n s r id n' s' : TokenIdentify lib r env n s = (Ok (Some id), n', s') ->
  forall (clib : ConfigLib) freshness c tid path T R (d : DStore), 0 < freshness ->
    wpt T R (fun _ _ => False) (handleApprove clib freshness c tid id path) (fun o d' => d' = d /\ (o = Ok (Problem 403 "forbidden") \/ o = Ok StepUpRequired)) d.
Proof.
  intros Hid clib freshness c tid path T R d Hf. assert (Hmfa : id_MFAAt id = None).
  { unfold TokenIdentify in Hid. destruct (decide _); [done|]. unfold mbind, M_bind, attempt in Hid. destruct (TokenLookup _ _ _ _ _) as [[[row|e] n1] s1]; [|done]. by injection Hid as <-. }
  unfold handleApprove, requirePerm. destruct (authorize id PermApprovalDecide); [|by apply wp_ret; auto].
  unfold withStepUp, requireStepUp. rewrite Hmfa. destruct (Z.leb_spec freshness 0); [lia|]. by apply wp_bind, wp_ret, wp_ret; auto.
Qed.

(** ** The signed cookies *)

Lemma Cut_dotless a b : dotless a -> Cut "." (a +:+ String "." b) = (a, b, true).
Proof.
  unfold dotless. induction a as [|x a IH]; intros Ha; [done|]. cbn [chars] in Ha. apply not_elem_of_cons in Ha as [Hx Ha].
  change (String x a +:+ String "." b) with (String x (a +:+ String "." b)). cbn [Cut]. rewrite decide_False by (intros ->; by apply Hx). by rewrite IH.
Qed.

(** The login-state cookie round trips, and a cookie is accepted only when it carries the
    MAC of the very payload it decodes to: with an empty or missing tag it is refused unless
    that is the MAC. *)
Theorem login_cookie_roundtrip hmac key payload s :
  signer_decode hmac key (signer_encode hmac key payload) = Some payload /\
  (signer_decode hmac key s = Some payload <-> exists body sig, Cut "." s = (body, sig, true) /\ DecodeString body = Some payload /\ DecodeString sig = Some (hmac key payload)).
Proof.
  unfold signer_decode, signer_encode. split.
  - change (EncodeToString payload +:+ "." +:+ ?t) with (EncodeToString payload +:+ String "." t). rewrite Cut_dotless by apply encode_dotless. cbn [negb].
    rewrite !Nonce.decode_encode. cbn [mbind option_bind]. by rewrite decide_True.
  - destruct (Cut "." s) as [[body sig] [|]]; cbn [negb].
    + split.
      * intros H. exists body, sig. split; [done|]. destruct (DecodeString body) as [p|]; [|done]. cbn in H. destruct (DecodeString sig) as [m|]; [|done]. cbn in H.
        destruct (decide (m = hmac key p)) as [->|]; [|done]. by injection H as ->.
      * intros (b & g & [= <- <-] & -> & ->). cbn. by rewrite decide_True.
    + split; [done|]. by intros (b & g & ? & _).
Qed.

(** ** Where a login may send the browser *)

Lemma safe_cases lib p : safeReturnTo lib p = "/" \/ (safeReturnTo lib p = p /\ HasPrefix p "/" = true /\ HasPrefix p "//" = false /\ ContainsAny p foldsIntoHost = false /\ al_urlParse lib p = Some ("", "")).
Proof.
  unfold safeReturnTo. destruct (bool_decide (p = "") || negb (HasPrefix p "/") || HasPrefix p "//") eqn:E1; [by left|]. destruct (ContainsAny p foldsIntoHost) eqn:E2; [by left|].
  destruct (al_urlParse lib p) as [[scheme host]|]; [|by left]. destruct (bool_decide (scheme <> "") || _) eqn:E3; [by left|]. right. apply orb_false_iff in E1 as [[E1 E4]%orb_false_iff E5].
  apply orb_false_iff in E3 as [E3 E6]. bool_split. apply dec_stable in E3. apply dec_stable in E6. subst. done.
Qed.

(** A login only ever redirects to a path of the console itself: the validated target
    starts with one slash, has no second one, no backslash or control character a browser folds
    into a host, and [url.Parse] finds neither a scheme nor a host in it (or it is the root);
    validating it again changes nothing. *)
Theorem return_path_is_local lib p : let q := safeReturnTo lib p in
  HasPrefix q "/" = true /\ HasPrefix q "//" = false /\ ContainsAny q foldsIntoHost = false /\ (q = "/" \/ al_urlParse lib q = Some ("", "")) /\ safeReturnTo lib q = q.
Proof.
  cbv zeta. destruct (safe_cases lib p) as [->|(E & H1 & H2 & H3 & H4)].
  - split_and!; try done; [by left|]. destruct (safe_cases lib "/") as [->|[-> _]]; done.
  - rewrite E. split_and!; auto.
Qed.

(** ** A login *)

#[export] Instance loginState_eq_dec : EqDecision loginState. Proof. solve_decision. Defined.
#[export] Instance loginState_countable : Countable loginState.
Proof.
  apply (inj_countable' (fun l => (ls_Provider l, ls_State l, ls_Nonce l, ls_Verifier l, ls_ReturnTo l)) (fun '(a, b, c, d, e) => mkLogin a b c d e)). by intros [].
Defined.
#[export] Instance samlLoginState_eq_dec : EqDecision samlLoginState. Proof. solve_decision. Defined.
#[export] Instance samlLoginState_countable : Countable samlLoginState.
Proof. apply (inj_countable' (fun l => (sl_RequestID l, sl_RelayState l, sl_ReturnTo l)) (fun '(a, b, c) => mkSamlLogin a b c)). by intros []. Defined.

Definition roles_of_text (s : string) : list string := default [] (of_text s).
Definition demo_alib : AuthLib :=
  mkAuthLib id (fun k p => k +:+ p) to_text roles_of_text to_text of_text to_text of_text (fun _ => Some ("", "")).
Lemma demo_roles l : al_unmarshalRoles demo_alib (al_marshalRoles demo_alib l) = l.
Proof. change (default [] (of_text (to_text l)) = l). by rewrite of_to_text. Qed.

(** The provider answers the code "c" of the attempt with nonce "n1" for ann, an admin. *)
Definition ann : Subject := mkSubject "u1" "Ann" "ann@acme" ["harbor-admins"] (Some 3).
Definition demo_idp : Authenticator :=
  mkAuthenticator "oidc" (fun state nonce _ _ => "https://idp/?state=" +:+ state +:+ "&nonce=" +:+ nonce)
    (fun code nonce _ => if decide (code = "c" /\ nonce = "n1") then Some ann else None).
Definition demo_service : Service :=
  mkService [demo_idp] [] (mkRoleMapper {["harbor-admins" := ["admin"]]} ["viewer"]) 100 true "k".
Definition draw (l : list string) (k : nat) : option string := l !! k.
Definition login_request : Request := mkRequest "GET" "" "" "" [] [("provider", "oidc"); ("return_to", "/devices")] None.
Definition login_cookie : string := match (handleLogin demo_alib demo_service (draw ["st"; "n1"; "v"]) login_request).1 with [c] => ck_Value c | _ => "" end.
Definition callback_request : Request := mkRequest "GET" "" "" "" [(loginCookie, login_cookie)] [("state", "st"); ("code", "c")] None.
Definition empty_auth : AuthStore := mkAuthStore [] [].
Definition signed_in : AuthStore := (run 10 (handleCallback demo_alib demo_service (draw ["tok"; "csrf"]) callback_request) empty_auth).2.
Definition console (method : string) : Request := mkRequest method "" "csrf" "" [(SessionCookie, "tok")] [] None.

Lemma empty_auth_inv : auth_inv demo_alib demo_service empty_auth.
Proof. split; cbn; [by intros row ?%elem_of_nil|constructor|constructor]. Qed.
Lemma signed_in_row : sessions signed_in = [session_row demo_alib demo_service "tok" "csrf" "oidc" ann 10].
Proof. vm_compute. reflexivity. Qed.
Lemma ann_vouched : vouched demo_service "oidc" ann.
Proof. left. exists demo_idp, "c", "n1", "v". split_and!; [by left|done|done]. Qed.
Lemma signed_in_inv : auth_inv demo_alib demo_service signed_in.
Proof.
  split; [|rewrite signed_in_row; apply NoDup_singleton|constructor]. rewrite signed_in_row. intros row ->%list_elem_of_singleton.
  exists "tok", "csrf", "oidc", ann, 10. split; [apply ann_vouched|done].
Qed.

Lemma sessions_come_from_logins_witness :
  (run 10 (handleCallback demo_alib demo_service (draw ["tok"; "csrf"]) callback_request) empty_auth).1 =
    Ok (clearCookie demo_service loginCookie ++ setSessionCookies demo_service "tok" "csrf", Reply 302 (AB_Redirect "/devices")) /\
  wpt (fun _ => True) (others_auth demo_alib demo_service) (auth_step demo_alib demo_service) (handleCallback demo_alib demo_service (draw ["tok"; "csrf"]) callback_request)
    (fun o s' => auth_inv demo_alib demo_service s' /\ forall cs loc, o = Ok (cs, Reply 302 (AB_Redirect loc)) -> callback_bound demo_alib demo_service callback_request loc) empty_auth.
Proof.
  split; [vm_compute; reflexivity|].
  exact (proj1 (sessions_come_from_logins demo_alib demo_service (fun _ => True) (draw ["tok"; "csrf"]) callback_request empty_auth empty_auth_inv)).
Defined.

Lemma requests_are_authenticated_witness :
  (run 20 (serveAPI demo_alib H_Session (console "POST") (fun id => mret (Reply 200 id))) signed_in).1 = Ok (Reply 200 (mkIdentity "ann@acme" ["admin"; "viewer"] (Some 3))) /\
  wpt (fun t => t = 20) eq request_step (serveAPI demo_alib H_Session (console "POST") (fun id => mret (Reply 200 id)))
    (fun o s' => auth_inv demo_alib demo_service s' /\ forall id, o = Ok (Reply 200 id) ->
       authentic demo_alib demo_service (fun t => t = 20) eq signed_in s' (console "POST") id /\
       csrf_ok demo_alib (fun t => t = 20) eq signed_in s' (console "POST")) signed_in.
Proof.
  split; [vm_compute; reflexivity|].
  refine (requests_are_authenticated demo_alib demo_service (fun t => t = 20) eq _ demo_roles (console "POST") signed_in signed_in_inv).
  intros s s' <-. constructor.
Defined.

Lemma authority_is_mapped_witness :
  exists idp subj role, vouched demo_service idp subj /\ Subject_Principal subj = "ann@acme" /\ (role = RoleAdmin \/ (role = RoleOperator /\ PermApprovalDecide <> PermApprovalDecide)) /\
    (role ∈ DefaultRoles (sv_Mapper demo_service) \/ exists g rs, g ∈ su_Groups subj /\ GroupRoles (sv_Mapper demo_service) !! g = Some rs /\ role ∈ rs).
Proof.
  apply (authority_is_mapped demo_alib demo_service (fun _ => True) eq signed_in signed_in (console "POST") (mkIdentity "ann@acme" ["admin"; "viewer"] (Some 3)) PermApprovalDecide); [|reflexivity].
  exists "tok", (session_row demo_alib demo_service "tok" "csrf" "oidc" ann 10), "oidc", ann.
  split; [reflexivity|]. split; [|split; [vm_compute; reflexivity|split; [apply ann_vouched|vm_compute; reflexivity]]].
  split; [done|]. split; [reflexivity|]. split; [|exists 20; split; [exact I|vm_compute; reflexivity]].
  exists signed_in. split; [constructor|]. split; [constructor|]. rewrite signed_in_row. by left.
Defined.

Definition ci_token : AuthStore := (run 5 (TokenMint demo_alib (draw ["s3"]) "ci" "" ["admin"] "root" 0) empty_auth).2.
Definition ci_request (method : string) : Request := mkRequest method "bearer harbor_s3" "" "" [] [] None.
Definition ci_row : AdminToken := mkToken (hashToken demo_alib "harbor_s3") "ci" "token:ci" (to_text ["admin"]) "root" 5 0 0 0.

Lemma revoked_token_stays_revoked_witness :
  tokens ci_token = [ci_row] /\
  wpt (fun t => 0 < t) (others_auth demo_alib demo_service) (auth_step demo_alib demo_service) (TokenRevoke "ci") (fun o s' => forall n, o = Ok n -> dead demo_alib "harbor_s3" s') ci_token.
Proof.
  assert (Et : tokens ci_token = [ci_row]) by (vm_compute; reflexivity). split; [exact Et|].
  apply (revoked_token_stays_revoked demo_alib demo_service (fun t => 0 < t) "harbor_s3" ci_row ci_token); [lia| |rewrite Et; by left|reflexivity].
  split; [intros row Hrow; vm_compute in Hrow; by apply elem_of_nil in Hrow|constructor|rewrite Et; apply NoDup_singleton].
Defined.

Lemma tokens_never_approve_witness :
  wpt (fun _ => True) (fun _ _ => True) (fun _ _ => False) (handleApprove demo_lib 60 demo_admin 1 (mkIdentity "token:ci" ["admin"] None) "1")
    (fun o d' => d' = empty_dstore /\ (o = Ok (Problem 403 "forbidden") \/ o = Ok StepUpRequired)) empty_dstore.
Proof.
  refine (tokens_never_approve demo_alib (quiet 6) 0 ci_token (ci_request "POST") (mkIdentity "token:ci" ["admin"] None) 2 ci_token _ demo_lib 60 _ 1 _ (fun _ => True) (fun _ _ => True) empty_dstore _).
  - vm_compute. reflexivity.
  - lia.
Defined.

(** ** Where the code does not do what it says *)

(** With login configured the CSRF wrapper sits in front of the API and knows sessions only: a
    request of a valid bearer token that changes state is refused, though the token is
    accepted on reads. *)
Lemma csrf_refuses_bearer_tokens :
  (run 6 (serveAPI demo_alib H_Session (ci_request "GET") (fun id => mret (Reply 200 id))) ci_token).1 = Ok (Reply 200 (mkIdentity "token:ci" ["admin"] None)) /\
  (run 6 (serveAPI demo_alib H_Session (ci_request "POST") (fun id => mret (Reply 200 id))) ci_token).1 = Ok (Problem 403 "csrf").
Proof. vm_compute. by split. Qed.

Lemma cleared_ok cs (m : M AuthStore auerr resp) env n s cs' rep n' s' : cleared cs m env n s = (Ok (cs', rep), n', s') ->
  exists cs0, cs' = cs ++ cs0 /\ m env n s = (Ok (cs0, rep), n', s').
Proof.
  unfold cleared, mbind, M_bind. destruct (m env n s) as [[[[cs0 rep0]|e] n1] s1]; [|done]. intros H. injection H as <- <- <- <-. by exists cs0.
Qed.

(** The callback deletes the login cookie under the path "/"; it was set under
    "/admin/v1/auth/", which is a different cookie, so the signed state stays with the
    browser. *)
Lemma login_cookie_is_not_cleared :
  map (fun c => (ck_Name c, ck_Path c)) (handleLogin demo_alib demo_service (draw ["st"; "n1"; "v"]) login_request).1 = [(loginCookie, "/admin/v1/auth/")] /\
  forall lib sv rnd r env n s cs rep n' s', handleCallback lib sv rnd r env n s = (Ok (cs, rep), n', s') -> (forall c, c ∈ cs -> ck_Path c = "/").
Proof.
  split; [vm_compute; reflexivity|]. intros lib sv rnd r env n s cs rep n' s' H c Hc. apply cleared_ok in H as (cs0 & -> & E).
  apply elem_of_app in Hc as [->%list_elem_of_singleton|Hc0]; [done|].
  destruct (readLoginCookie lib sv r) as [ls|]; [|by injection E as <- _ _ _; apply elem_of_nil in Hc0]. destruct (decide _); [by injection E as <- _ _ _; apply elem_of_nil in Hc0|].
  cbv zeta in E. destruct (bool_decide (param _ _ = "") || _); [by injection E as <- _ _ _; apply elem_of_nil in Hc0|]. destruct (byName sv _) as [auth|]; [|by injection E as <- _ _ _; apply elem_of_nil in Hc0].
  destruct (au_Exchange _ _ _ _) as [subj|]; [|by injection E as <- _ _ _; apply elem_of_nil in Hc0]. unfold CompleteLogin, mbind, M_bind, attempt in E.
  destruct (Mint _ _ _ _ _ _ env n s) as [[[[tok csrf]|e] n1] s1]; injection E as <- _ _ _; [|by apply elem_of_nil in Hc0].
  by repeat (apply elem_of_cons in Hc0 as [->|Hc0]; [done|]); apply elem_of_nil in Hc0.
Qed.

(** The comment on the GitHub e-mail says the principal falls back to the attested login; it
    falls back to the display name, which the user chooses: the same account is two people to
    dual control. *)
Definition gh_account (name : string) : ghAPI := mkGhAPI (Some ("mallory", "7", name)) None (Some [("acme", "ops")]).
Lemma github_principal_is_self_chosen :
  (Subject_Principal <$> GitHub_Exchange (fun _ => Some (gh_account "bob@acme")) "c" "" "") = Some "bob@acme" /\
  (Subject_Principal <$> GitHub_Exchange (fun _ => Some (gh_account "")) "c" "" "") = Some "mallory".
Proof. vm_compute. by split. Qed.
