(* ===== verification/Gateway.v ===== *)
(** * internal/gateway and the gateway side of internal/collect

    The public enrollment gateway: nonces, the vetting and publishing of enroll requests, the
    one-time poll; and the API over its local queue that Core pulls from. The parsers are those
    of the enrollment consumer, so that what the gateway vets can be compared with what Core
    verifies again. The rate limiter is a parameter (its answer per key), random bytes are
    arguments. A body over its size limit is [None]. *)

From S2P Require Import Prelude Db Bytes GoStrings Nonce Queue Jws Bundle Enrollment.
From stdpp Require Import prelude strings list relations.
From Stdlib Require Import ZArith Lia.
Open Scope Z_scope.

Definition CodeInvalidRequest : string := "invalid_request".
Definition CodeUnsupportedVersion : string := "unsupported_version".
Definition CodeInvalidSignature : string := "invalid_signature".
Definition CodeInvalidNonce : string := "invalid_nonce".
Definition CodeNonceExpired : string := "nonce_expired".
Definition CodeRateLimited : string := "rate_limited".
Definition CodeNotFound : string := "not_found".
Definition CodeGone : string := "gone".
Definition CodeInternal : string := "internal".
Definition MethodAzureIMDS : string := "azure-imds".
Definition ProtocolVersion : Z := 1.
Definition maxBindingLen : Z := 128.
Definition defaultTicketTTL : Z := 5 * 60 * second.

(** What the endpoints answer. *)
Inductive gwbody : Type :=
| G_Nonce (nonce : string) (expires : Z)
| G_Accepted (enrollmentID retrievalSecret : string) (expires : Z)
| G_Poll (status bundle reason : string).
Inductive gwreply : Type := GError (code : string) | GReply (status : Z) (b : gwbody).

Definition knownMethod (m : string) : bool := bool_decide (m ∈ [MethodToken; MethodAWSSigV4; MethodAzureIMDS; MethodOIDC]).

Section gateway.
Context {Pub : Type} (lib : Lib Pub) (d : Durable) (nonces : Keyring).
(** The protocol version and the curve of the same payload. *)
Context (meta : string -> option (Z * string)).
Context (ticketTTL : Z) (allow : string -> bool).
Abbreviation GM := (M QStore qerr).
Abbreviation hmac := (lb_hmac lib).
Abbreviation sha256 := (lb_sha256 lib).

(** GET /v1/nonce; a keyring always has a key. *)
Definition handleNonce (binding : string) : GM gwreply :=
  if bool_decide (binding = "") || (maxBindingLen <? len binding) then mret (GError CodeInvalidRequest)
  else t ← now; match Nonce.Mint hmac nonces (t / second) binding with
                | Some (n, exp) => mret (GReply 200 (G_Nonce n exp))
                | None => throw Q_Fault
                end.

(** Steps 1 to 3 and the key: the request the body carries. *)
Definition parse (body : option string) : result string (Flattened * EnrollRequest * string * Pub) :=
  match body with
  | None => Err CodeInvalidRequest
  | Some body =>
      match lb_unmarshalEnv lib body with
      | None => Err CodeInvalidRequest
      | Some env =>
          if bool_decide (f_Protected env = "") || bool_decide (f_Payload env = "") then Err CodeInvalidRequest
          else match DecodeString (f_Payload env) with
          | None => Err CodeInvalidRequest
          | Some pl =>
              match lb_unmarshalRequest lib pl, meta pl with
              | Some req, Some (version, curve) =>
                  if negb (version =? ProtocolVersion) then Err CodeUnsupportedVersion
                  else if negb (bool_decide (q_Type req = "enroll")) || bool_decide (q_Nonce req = "") || negb (bool_decide (curve = "P256")) || negb (knownMethod (q_Method req))
                  then Err CodeInvalidRequest
                  else match DecodeString (q_PublicKey req) with
                  | None => Err CodeInvalidRequest
                  | Some pubBytes =>
                      if negb (len pubBytes =? 65) then Err CodeInvalidRequest
                      else match lb_parsePoint lib pubBytes with
                      | None => Err CodeInvalidRequest
                      | Some pub => Ok (env, req, pubBytes, pub)
                      end
                  end
              | _, _ => Err CodeInvalidRequest
              end
          end
      end
  end.

Definition possession (env : Flattened) (pub : Pub) (hash : string) : bool :=
  match VerifyOne sha256 (lb_ecdsaVerify lib) (lb_unmarshalHeader lib) env pub with
  | Ok (hdr, _) => bool_decide (h_Typ hdr = TypEnrollRequest) && bool_decide (h_Kid hdr = hash)
  | Err _ => false
  end.

(** POST /v1/enroll; [rid] and [rsecret] are the 16 and 32 random bytes of the ticket. *)
Definition handleEnroll (ip rid rsecret : string) (body : option string) : GM gwreply :=
  if negb (allow ("ip:" +:+ ip)) then mret (GError CodeRateLimited)
  else match parse body with
  | Err code => mret (GError code)
  | Ok (env, req, pubBytes, pub) =>
      let hash := PubkeyHash lib pubBytes in
      if negb (allow ("pk:" +:+ hash)) then mret (GError CodeRateLimited)
      else if negb (possession env pub hash) then mret (GError CodeInvalidSignature)
      else
        t ← now;
        match Nonce.Verify hmac nonces (t / second) (q_Nonce req) hash with
        | Err N_Expired => mret (GError CodeNonceExpired)
        | Err _ => mret (GError CodeInvalidNonce)
        | Ok _ =>
            let enrollmentID := EncodeToString rid in
            let secret := EncodeToString rsecret in
            received ← now;
            p ← attempt (Publish hmac d (mkCandidate enrollmentID hash (default "" body) (sha256 secret) received));
            match p with
            | Err _ => mret (GError CodeInternal)
            | Ok _ => t' ← now; mret (GReply 202 (G_Accepted enrollmentID secret (i64 (t' + (if ticketTTL <=? 0 then defaultTicketTTL else ticketTTL)))))
            end
        end
  end.

(** GET /v1/enroll/{id} *)
Definition handlePoll (hasResults : bool) (tid : nat) (id authorization : string) : GM gwreply :=
  if negb hasResults then mret (GError CodeNotFound)
  else
    let secret := TrimPrefix authorization "Bearer " in
    if bool_decide (secret = "") || bool_decide (secret = authorization) then mret (GError CodeInvalidRequest)
    else
      r ← attempt (GetResult sha256 tid id secret);
      mret (match r with
            | Err Q_ResultNotFound => GError CodeNotFound
            | Err Q_ResultGone => GError CodeGone
            | Err _ => GError CodeInternal
            | Ok p =>
                if decide (p_Status p = "issued") then GReply 200 (G_Poll "issued" (p_Bundle p) "")
                else if decide (p_Status p = "denied") then GReply 200 (G_Poll "denied" "" (p_Reason p))
                else GReply 202 (G_Poll "pending" "" "")
            end).
End gateway.

(** ** internal/collect: the gateway's side *)

Definition defaultClaim : Z := 64.
Definition maxClaim : Z := 512.
Definition defaultLeaseTTL : Z := 60 * second.
Definition collectMaxBody : Z := 2 ^ 20.

(** [Result] *)
Record CResult : Type := mkCResult { cr_EID : string; cr_RStatus : string; cr_SecretHash : string; cr_Bundle : string; cr_Reason : string; cr_ExpiresAt : Z }.

Inductive hreply : Type := H_Status (status : Z) | H_Claim (l : list Leased) | H_Pending (ids : list string).

Section server.
Context (hmac : string -> string -> string) (d : Durable).
Abbreviation GM := (M QStore qerr).

(** [ClaimRequest] is the limit and the lease in milliseconds. *)
Definition handleClaim (req : option (Z * Z)) : GM hreply :=
  match req with
  | None => mret (H_Status 400)
  | Some (limit, leaseMs) =>
      let limit := if (limit <=? 0) || (maxClaim <? limit) then defaultClaim else limit in
      let lease := let l := i64 (leaseMs * 1000000) in if l <=? 0 then defaultLeaseTTL else l in
      r ← attempt (Claim hmac d (Z.to_nat limit) lease);
      mret (match r with Err _ => H_Status 500 | Ok leased => H_Claim leased end)
  end.

Fixpoint put_results (l : list CResult) : GM unit :=
  match l with
  | [] => mret ()
  | r :: l => _ ← PutResult (cr_EID r) (cr_RStatus r) (cr_SecretHash r) (cr_Bundle r) (cr_Reason r) (cr_ExpiresAt r); put_results l
  end.
Definition handleResults (req : option (list CResult)) : GM hreply :=
  match req with
  | None => mret (H_Status 400)
  | Some l => r ← attempt (put_results l); mret (match r with Err _ => H_Status 500 | Ok _ => H_Status 204 end)
  end.

Definition handlePending : GM hreply :=
  r ← attempt PendingResultIDs; mret (match r with Err _ => H_Status 500 | Ok ids => H_Pending ids end).

Definition handleAck (req : option (list Z * list Z)) : GM hreply :=
  match req with
  | None => mret (H_Status 400)
  | Some (ack, nack) =>
      r ← attempt (_ ← for_each ack Ack; for_each nack (Nack d));
      mret (match r with Err _ => H_Status 500 | Ok _ => H_Status 204 end)
  end.
End server.

(** ** What the gateway lets through *)

Section vetting.
Context {X Pub : Type} (lib : Lib Pub) (d : Durable) (nonces : Keyring) (meta : string -> option (Z * string)).
Context (ticketTTL : Z) (allow : string -> bool).

(** A candidate that carries an enroll request signed by its own key, with a nonce minted for
    that key that was fresh at [t]. *)
Definition vetted (c : Candidate) (t : Z) : Prop :=
  exists env req pubBytes pub, parse lib meta (Some (c_RequestJWS c)) = Ok (env, req, pubBytes, pub) /\ c_PubkeyHash c = PubkeyHash lib pubBytes /\
    possession lib env pub (c_PubkeyHash c) = true /\ Nonce.Verify (lb_hmac lib) nonces (t / second) (q_Nonce req) (c_PubkeyHash c) = Ok ().

(** The only write of the endpoint. *)
Definition publishes (T : Z -> Prop) (secret : string) (s s' : QStore) : Prop :=
  exists c t, T t /\ vetted c t /\ c_RetrievalSecretHash c = lb_sha256 lib secret /\
    (forall it, it ∈ items s -> it_EnrollmentID it <> c_EnrollmentID c) /\ s' = set_items (items s ++ [new_item (lb_hmac lib) d c (it_seq s)]) (it_seq s + 1) s.

(** Core's second look at such a candidate: everything but the nonce's age and its single use
    is settled. *)
Lemma vetted_verifies (sv : Services X) (cfg : Config Pub) c t : vetted c t ->
  exists req pubBytes, forall env n s, verify lib sv cfg c env n s =
    (t ← now;
     match Nonce.Verify (lb_hmac lib) (cf_Nonces cfg) (t / second) (q_Nonce req) (c_PubkeyHash c) with
     | Err _ => throw E_Nonce
     | Ok _ => match sv_Replay sv with
               | None => mret (req, pubBytes)
               | Some observe => first ← observe (q_Nonce req); if first : bool then mret (req, pubBytes) else throw E_Replay
               end
     end) env n s.
Proof.
  intros (env & req & pubBytes & pub & Hp & Hh & Hpos & _). exists req, pubBytes. intros e n s. unfold parse in Hp. unfold verify.
  destruct (lb_unmarshalEnv lib (c_RequestJWS c)) as [env'|]; [|done]. destruct (bool_decide (f_Protected env' = "") || _) eqn:E1; [done|]. apply orb_false_iff in E1 as [_ E1]. bool_split.
  rewrite decide_False by done. destruct (DecodeString (f_Payload env')) as [pl|]; [|done]. cbn [mbind option_bind]. destruct (lb_unmarshalRequest lib pl) as [req'|]; [|done].
  destruct (meta pl) as [[version curve]|]; [|done]. destruct (negb (version =? _)); [done|].
  destruct (negb (bool_decide (q_Type req' = "enroll")) || bool_decide (q_Nonce req' = "")) eqn:E2; [done|]. cbn [orb] in Hp. destruct (negb (bool_decide (curve = "P256")) || _); [done|].
  destruct (DecodeString (q_PublicKey req')) as [pb|]; [|done]. destruct (negb (len pb =? 65)); [done|]. destruct (lb_parsePoint lib pb) as [pub'|]; [|done]. injection Hp as -> -> -> ->.
  unfold possession in Hpos. destruct (VerifyOne _ _ _ _ _) as [[hdr pl']|]; [|done]. bool_split. rewrite <- Hh. rewrite !bool_decide_true by done. reflexivity.
Qed.

(** C21: the gateway publishes only vetted candidates: whatever faults and concurrent requests
    occur, the one write of an enroll request appends a candidate that carries a request signed
    with the enrolled key and a nonce minted for that key and still fresh, stores the hash of
    the retrieval secret only, and a ticket is handed out only after that write. For such a
    candidate Core's verification comes down to the nonce's age and its single use: the two
    sides parse and check the signature alike. *)
Theorem gateway_publishes_vetted_candidates T R ip rid rsecret body s (sv : Services X) (cfg : Config Pub) :
  let secret := EncodeToString rsecret in
  wpt T R (publishes T secret) (handleEnroll lib d nonces meta ticketTTL allow ip rid rsecret body)
    (fun o s' => forall b, o = Ok (GReply 202 b) -> exists exp s0 s1, b = G_Accepted (EncodeToString rid) secret exp /\ publishes T secret s0 s1) s /\
  (forall s0 s1, publishes T secret s0 s1 -> exists c req pubBytes, items s1 = items s0 ++ [new_item (lb_hmac lib) d c (it_seq s0)] /\ forall env n st,
     verify lib sv cfg c env n st =
       (t ← now;
        match Nonce.Verify (lb_hmac lib) (cf_Nonces cfg) (t / second) (q_Nonce req) (c_PubkeyHash c) with
        | Err _ => throw E_Nonce
        | Ok _ => match sv_Replay sv with
                  | None => mret (req, pubBytes)
                  | Some observe => first ← observe (q_Nonce req); if first : bool then mret (req, pubBytes) else throw E_Replay
                  end
        end) env n st).
Proof.
  intros secret. split.
  - unfold handleEnroll. destruct (negb (allow _)); [by apply wp_ret|]. destruct (parse lib meta body) as [[[[env req] pubBytes] pub]|code] eqn:Ep; [|by apply wp_ret].
    destruct body as [body|]; [|done]. destruct (negb (allow _)); [by apply wp_ret|]. destruct (possession lib env pub (PubkeyHash lib pubBytes)) eqn:Epos; cbn [negb]; [|by apply wp_ret].
    wp_step. apply wp_now. intros t Ht. wp_reduce. destruct (Nonce.Verify _ _ _ _ _) as [[]|e] eqn:En; [|by destruct e; apply wp_ret].
    wp_step. apply wp_now. intros rt Hrt. wp_reduce. set (c := mkCandidate _ _ _ _ _).
    assert (Hv : vetted c t) by (by exists env, req, pubBytes, pub).
    apply wp_bind, wp_attempt. unfold Publish. wp_step. apply wp_query. intros s1 _. split; [by apply wp_ret|]. destruct (q_maxDepth d <=? _); [by apply wp_throw, wp_ret|].
    apply wp_exec_err. intros s2 _. split; [by apply wp_ret|]. destruct (existsb _ (items s2)) eqn:Ee; [by apply wp_ret|].
    assert (Hpub : publishes T secret s2 (set_items (items s2 ++ [new_item (lb_hmac lib) d c (it_seq s2)]) (it_seq s2 + 1) s2)).
    { exists c, t. split_and!; [done|done|done| |done]. intros it Hit Heq. rewrite existsb_elem_false in Ee. specialize (Ee it Hit). by rewrite bool_decide_true in Ee. }
    split; [exact Hpub|]. wp_step. apply wp_now. intros t' Ht'. apply wp_ret. intros b [= <-]. by eexists _, s2, _.
  - intros s0 s1 (c & t & _ & Hv & _ & _ & ->). destruct (vetted_verifies sv cfg c t Hv) as (req & pubBytes & E). by exists c, req, pubBytes.
Qed.
End vetting.
