(* ===== verification/Collector.v ===== *)
(** * internal/collect: the pull loop of Core

    Core claims candidates from a gateway over HTTP, processes them, ships the results back
    and then acks; a second lane carries admin decisions. The state is Core's ([cs_core], any
    type), the capture sink, a ghost log of everything ever captured, and the queue of the
    gateway at the other end. A request can be lost before it arrives or its answer after it
    took effect. The processor and the resolver are services. *)

From S2P Require Import Prelude Db Bytes Netip Nonce Queue Enrollment EnrollmentSafety Gateway.
From stdpp Require Import prelude strings list relations gmap.
From Stdlib Require Import ZArith Lia.
Open Scope Z_scope.

Inductive cerr : Type :=
| C_Proc (terminal : bool)     (* an error of the processor, and enrollment.Terminal of it *)
| C_Status                     (* a reply that is not 2xx *)
| C_Decode                     (* a reply that does not decode *)
| C_Net.
#[export] Instance cerr_db : DbError cerr := C_Net.

Record CState (X : Type) : Type := mkCState { cs_core : X; sink : list CResult; captured : list CResult; cs_gw : QStore }.
Arguments mkCState {X}. Arguments cs_core {X}. Arguments sink {X}. Arguments captured {X}. Arguments cs_gw {X}.

Section state.
Context {X : Type}.
Implicit Types s : CState X.
Definition set_core (x : X) s : CState X := mkCState x (sink s) (captured s) (cs_gw s).
Definition set_gw (q : QStore) s : CState X := mkCState (cs_core s) (sink s) (captured s) q.
Definition set_sink (l : list CResult) s : CState X := mkCState (cs_core s) l (captured s) (cs_gw s).

(** [CaptureSink] *)
Definition sink_put (r : CResult) s : CState X := mkCState (cs_core s) (sink s ++ [r]) (captured s ++ [r]) (cs_gw s).
Definition Drain : M (CState X) cerr (list CResult) := mem (fun s => (sink s, set_sink [] s)).

(** ** HTTP to the gateway *)

(** What the gateway's handler sees of the others. *)
Definition zoom (env : Env (CState X)) (s : CState X) : Env QStore :=
  mkEnv (clk env) (fault env) (fun k q => cs_gw (interfere env k (set_gw q s))).

Definition remote {A} (h : M QStore qerr A) : M (CState X) cerr A := fun env n s =>
  let s1 := interfere env n s in
  if fault env n then (Err C_Net, S n, s1)                             (* the request is lost *)
  else match h (zoom env s1) (S n) (cs_gw s1) with
       | (r, n', q) =>
           if fault env n' then (Err C_Net, S n', set_gw q s1)         (* the answer is lost *)
           else (match r with Ok a => Ok a | Err _ => Err C_Net end, S n', set_gw q s1)
       end.
End state.

(** ** The collector *)

(** [Gateway] registration data and the configuration; [cl_claimSize] and [cl_resultsSize] are
    the lengths of the JSON documents. *)
Record Collector (X : Type) : Type := mkCollector {
  cl_Batch : Z; cl_LeaseTTL : Z; cl_DeliveryTTL : Z;
  cl_proc : Candidate -> M (CState X) cerr unit;
  cl_resolver : option (string -> M (CState X) cerr (option (string * string * string)));
  cl_claimSize : list Leased -> Z; cl_resultsSize : list CResult -> Z }.
Arguments mkCollector {X}. Arguments cl_Batch {X}. Arguments cl_LeaseTTL {X}. Arguments cl_DeliveryTTL {X}. Arguments cl_proc {X}.
Arguments cl_resolver {X}. Arguments cl_claimSize {X}. Arguments cl_resultsSize {X}.

(** [New]: the defaults. *)
Definition NewCollector {X} (batch leaseTTL deliveryTTL : Z) proc resolver claimSize resultsSize : Collector X :=
  mkCollector (if batch <=? 0 then defaultClaim else batch) (if leaseTTL <=? 0 then defaultLeaseTTL else leaseTTL)
    (if deliveryTTL <=? 0 then 24 * 3600 * 1000000000 else deliveryTTL) proc resolver claimSize resultsSize.

Section collector.
Context {X : Type} (hmac : string -> string -> string) (d : Durable) (c : Collector X).
Abbreviation CM := (M (CState X) cerr).

(** [post] with no output: any 2xx. *)
Definition post_unit (h : M QStore qerr hreply) : CM unit :=
  r ← remote h; match r with H_Status st => if (200 <=? st) && (st <? 300) then mret () else throw C_Status | _ => mret () end.

(** The response is cut at the body limit, and a cut document does not decode. *)
Definition post_claim : CM (list Leased) :=
  r ← remote (handleClaim hmac d (Some (cl_Batch c, cl_LeaseTTL c / 1000000)));
  match r with
  | H_Claim l => if collectMaxBody <? cl_claimSize c l then throw C_Decode else mret l
  | _ => throw C_Status
  end.

(** The gateway refuses a request body over the limit. *)
Definition post_results (l : list CResult) : CM unit :=
  post_unit (handleResults (if collectMaxBody <? cl_resultsSize c l then None else Some l)).

(** The loop over the batch: the leases to ack and to nack. *)
Fixpoint process_batch (l : list Leased) : CM (list Z * list Z) :=
  match l with
  | [] => mret ([], [])
  | x :: l =>
      r ← attempt (cl_proc c (l_Candidate x));
      rest ← process_batch l;
      mret (match r with
            | Ok _ | Err (C_Proc true) => (l_ID x :: rest.1, rest.2)
            | Err _ => (rest.1, l_ID x :: rest.2)
            end)
  end.

Definition CollectOnce : CM Z :=
  leased ← post_claim;
  if decide (leased = []) then mret 0
  else
    _ ← Drain;
    ids ← process_batch leased;
    results ← Drain;
    _ ← (if decide (results = []) then mret () else post_results results);
    _ ← post_unit (handleAck d (Some ids));
    mret (Z.of_nat (length leased)).

(** The decided ones of the pending ids. *)
Fixpoint resolve_each (resolve : string -> CM (option (string * string * string))) (ids : list string) : CM (list CResult) :=
  match ids with
  | [] => mret []
  | id :: ids =>
      r ← attempt (resolve id);
      match r with
      | Ok (Some (status, bundle, reason)) =>
          t ← now; rest ← resolve_each resolve ids; mret (mkCResult id status "" bundle reason (i64 (t + cl_DeliveryTTL c)) :: rest)
      | _ => resolve_each resolve ids
      end
  end.

Definition ReconcileOnce : CM Z :=
  match cl_resolver c with
  | None => mret 0
  | Some resolve =>
      r ← remote handlePending;
      match r with
      | H_Pending ids =>
          results ← resolve_each resolve ids;
          if decide (results = []) then mret 0 else _ ← post_results results; mret (Z.of_nat (length results))
      | _ => throw C_Status
      end
  end.
End collector.

(** ** Results reach the gateway before a lease is acked *)

(** Queue steps that lose nothing: the items stay by id, and the results with what they say (a
    poll only counts the reads). *)
Definition item_stays (q q' : QStore) : Prop := forall it, it ∈ items q -> exists it', it' ∈ items q' /\ it_ID it' = it_ID it.
Definition same_result (r r' : qresult) : Prop :=
  rs_EnrollmentID r' = rs_EnrollmentID r /\ rs_Status r' = rs_Status r /\ rs_Bundle r' = rs_Bundle r /\ rs_Reason r' = rs_Reason r /\
  rs_ExpiresAt r' = rs_ExpiresAt r.
Definition rows_stay (q q' : QStore) : Prop := forall r, r ∈ results q -> exists r', r' ∈ results q' /\ same_result r r'.
Definition q_keeps (q q' : QStore) : Prop := item_stays q q' /\ rows_stay q q'.

(** The gateway holds what was shipped: its status, bundle, reason and expiry. *)
Definition delivered (c : CResult) (q : QStore) : Prop :=
  exists r, r ∈ results q /\ rs_EnrollmentID r = cr_EID c /\ rs_Status r = cr_RStatus c /\ rs_Bundle r = cr_Bundle c /\
    rs_Reason r = cr_Reason c /\ rs_ExpiresAt r = cr_ExpiresAt c.

(** The last result of its enrollment in a batch. *)
Definition latest (l : list CResult) (c : CResult) : Prop := exists l1 l2, l = l1 ++ c :: l2 /\ cr_EID c ∉ (cr_EID <$> l2).

#[export] Instance item_stays_refl : Reflexive item_stays. Proof. intros q it Hit. by exists it. Qed.
#[export] Instance item_stays_trans : Transitive item_stays. Proof. intros a b c H1 H2 it (it1 & Hi1 & <-)%H1. by apply H2. Qed.
#[export] Instance rows_stay_refl : Reflexive rows_stay. Proof. intros q r Hr. by exists r. Qed.
#[export] Instance rows_stay_trans : Transitive rows_stay.
Proof. intros a b c H1 H2 r (r1 & Hr1 & Hs1)%H1. destruct (H2 r1 Hr1) as (r2 & Hr2 & Hs2). exists r2. split; [done|]. unfold same_result in *. naive_solver congruence. Qed.
#[export] Instance q_keeps_refl : Reflexive q_keeps. Proof. by intros q. Qed.
#[export] Instance q_keeps_trans : Transitive q_keeps. Proof. intros a b c [H1 H2] [H3 H4]. split; by etrans. Qed.

Lemma delivered_stays c q q' : rows_stay q q' -> delivered c q -> delivered c q'.
Proof. intros Hk (r & Hr & ?). destruct (Hk r Hr) as (r' & Hr' & Hs). exists r'. split; [done|]. unfold same_result in *. naive_solver congruence. Qed.

Lemma rtc_trans_refl {A} (R : relation A) `{!Reflexive R, !Transitive R} x y : rtc R x y -> R x y.
Proof. induction 1 as [|x y z H _ IH]; [done|by etrans]. Qed.

Lemma update_keeps f g q : (forall it, it_ID (g it) = it_ID it) -> q_keeps q (update_items f g q).
Proof.
  intros Hg. split; [|by intros r Hr; exists r]. intros it Hit. exists (if f it then g it else it). split; [|by destruct (f it)]. by apply (list_elem_of_fmap_2 (fun it => if f it then g it else it)).
Qed.

(** A poll is a step of the others. *)
Lemma consume_keeps tid id q : q_keeps q (consume tid id q).2.
Proof.
  unfold consume. set (q' := set_results _ _ q).
  assert (Hk : q_keeps q q').
  { split; [by intros it Hit; exists it|]. intros r Hr. exists (read_row id r). split; [by apply list_elem_of_fmap_2|].
    unfold read_row. by destruct (unread id r). }
  by destruct (_ =? 0).
Qed.

Section gateway_calls.
Context (T : Z -> Prop) (hmac : string -> string -> string) (d : Durable).

Lemma claim_rows_keeps ttl rows : forall q, wpt T q_keeps q_keeps (claim_rows hmac d ttl rows) (fun _ _ => True) q.
Proof.
  induction rows as [|it rows IH]; intros q; cbn [claim_rows]; [by apply wp_ret|]. destruct (decide _).
  - apply wp_bind, wp_ignore, wp_exec. intros q1 _. split; [apply IH|]. split; [by apply update_keeps|apply IH].
  - wp_step. apply wp_now. intros t _. wp_reduce. apply wp_bind, wp_attempt, wp_exec. intros q1 _.
    assert (Hr : forall q2 (n : result qerr Z), wpt T q_keeps q_keeps (out ← claim_rows hmac d ttl rows; mret (match n with Ok n => if n =? 0 then out else mkLeased (it_ID it) (candidate_of it) (it_Attempts it + 1) :: out | Err _ => out end)) (fun _ _ => True) q2).
    { intros q2 m. apply wp_bind. eapply wp_mono; [apply IH|]. intros [out|e] q3 _ _; [by apply wp_ret|done]. }
    split; [exact (Hr q1 (Err Q_Fault))|]. split; [by apply update_keeps|exact (Hr _ (Ok _))].
Qed.

Lemma handleClaim_keeps req q : wpt T q_keeps q_keeps (handleClaim hmac d req) (fun _ _ => True) q.
Proof.
  unfold handleClaim. destruct req as [[limit lease]|]; [|by apply wp_ret]. apply wp_bind, wp_attempt. unfold Claim. wp_step. apply wp_now. intros t _. wp_reduce.
  apply wp_bind, wp_exec. intros q1 _. split; [by apply wp_ret|]. split; [by apply update_keeps|]. apply wp_bind, wp_query. intros q2 _. split; [by apply wp_ret|].
  eapply wp_mono; [apply claim_rows_keeps|]. intros [l|e] q3 _ _; by apply wp_ret.
Qed.

Lemma upsert_delivers c q :
  let q' := upsert_result (cr_EID c) (cr_RStatus c) (cr_SecretHash c) (cr_Bundle c) (cr_Reason c) (cr_ExpiresAt c) q in
  item_stays q q' /\ delivered c q' /\ forall c', cr_EID c' <> cr_EID c -> delivered c' q -> delivered c' q'.
Proof.
  unfold upsert_result. destruct (existsb _ _) eqn:Ex; (split; [by intros it Hit; exists it|]).
  - set (put := put_row (cr_EID c) (cr_RStatus c) (cr_Bundle c) (cr_Reason c) (cr_ExpiresAt c)). split.
    + apply existsb_elem in Ex as (x & Hx & Hid). exists (put x). split; [by apply list_elem_of_fmap_2|]. unfold put, put_row. rewrite Hid. by bool_split.
    + intros c' Hne (x & Hx & Hid & Hrest). exists (put x). split; [by apply list_elem_of_fmap_2|]. unfold put, put_row.
      rewrite bool_decide_false by congruence. done.
  - split; [eexists; split; [apply elem_of_app; right; by left|done]|].
    intros c' _ (x & Hx & Hrest). exists x. split; [|done]. apply elem_of_app. by left.
Qed.

Lemma put_results_delivers l : forall (D : list CResult) q, (forall c, c ∈ D -> delivered c q) ->
  wpt T q_keeps item_stays (put_results l) (fun o q' => o = Ok () ->
    (forall c, c ∈ D -> cr_EID c ∉ (cr_EID <$> l) -> delivered c q') /\ forall c, latest l c -> delivered c q') q.
Proof.
  induction l as [|x l IH]; intros D q HD; cbn [put_results].
  { apply wp_ret. intros _. split; [auto|]. by intros c ([|] & l2 & Hl & _). }
  apply wp_bind, wp_exec. intros q1 Hq1. split; [done|].
  destruct (upsert_delivers x q1) as (Hit & Hx & Hother). split; [done|].
  eapply wp_mono; [apply (IH (x :: List.filter (fun c => negb (bool_decide (cr_EID c = cr_EID x))) D))|].
  - intros c [->|Hc]%elem_of_cons; [done|]. apply list_elem_of_In, filter_In in Hc as [Hc%list_elem_of_In Hne]. bool_split.
    apply Hother; [done|]. eapply delivered_stays; [apply Hq1|by apply HD].
  - intros o q2 _ Ho Hok. destruct (Ho Hok) as [HD2 Hl2]. split.
    + intros c Hc Hn. cbn in Hn. apply not_elem_of_cons in Hn as [Hne Hn]. apply HD2; [|done]. right.
      apply list_elem_of_In, filter_In. split; [by apply list_elem_of_In|]. by rewrite bool_decide_false.
    + intros c ([|y l1] & l2 & [= -> ->] & Hc); [apply HD2; [by left|done]|]. apply Hl2. by exists l1, l2.
Qed.

Lemma handleResults_delivers req q : wpt T q_keeps item_stays (handleResults req) (fun o q' => forall rep, o = Ok rep ->
  rep = H_Status 400 \/ rep = H_Status 500 \/ (rep = H_Status 204 /\ exists l, req = Some l /\ forall c, latest l c -> delivered c q')) q.
Proof.
  unfold handleResults. destruct req as [l|]; [|apply wp_ret; intros rep [= <-]; by left]. apply wp_bind, wp_attempt.
  eapply wp_mono; [apply (put_results_delivers l []); by intros c ?%elem_of_nil|].
  intros [[]|e] q' _ Ho; apply wp_ret; intros rep [= <-]; right; [right|by left]. split; [done|]. exists l. split; [done|]. by apply Ho.
Qed.

Lemma handleAck_rows req q : wpt T q_keeps rows_stay (handleAck d req) (fun _ _ => True) q.
Proof.
  assert (Hnack : forall nack q, wpt T q_keeps rows_stay (for_each nack (Nack d)) (fun _ _ => True) q).
  { induction nack as [|i nack IH]; intros q0; cbn [for_each]; [by apply wp_ret|]. apply wp_bind. unfold Nack. apply wp_bind, wp_query. intros q1 _. split; [done|].
    destruct (find_first _ _); [|by apply wp_throw]. destruct (_ <=? _); (apply wp_exec; intros q2 _; split; [done|]; split; [by intros r Hr; exists r|apply IH]). }
  assert (Hack : forall ack nack q, wpt T q_keeps rows_stay (_ ← for_each ack Ack; for_each nack (Nack d)) (fun _ _ => True) q).
  { induction ack as [|i ack IH]; intros nack q0; cbn [for_each]; [apply wp_bind, wp_ret, Hnack|]. apply wp_bind_assoc, wp_bind. unfold Ack. apply wp_exec. intros q1 _. split; [done|].
    split; [by intros r Hr; exists r|apply IH]. }
  unfold handleAck. destruct req as [[ack nack]|]; [|by apply wp_ret]. apply wp_bind, wp_attempt. eapply wp_mono; [apply Hack|]. intros [u|e] q' _ _; by apply wp_ret.
Qed.
End gateway_calls.

Section delivery.
Context {X : Type} (T : Z -> Prop) (hmac : string -> string -> string) (d : Durable) (c : Collector X).

(** What the others do: publish, poll, work on Core; nobody else uses the sink. *)
Definition others_keep (s s' : CState X) : Prop := q_keeps (cs_gw s) (cs_gw s') /\ sink s' = sink s /\ captured s' = captured s.
#[export] Instance others_keep_refl : Reflexive others_keep. Proof. by intros s. Qed.
#[export] Instance others_keep_trans : Transitive others_keep.
Proof. intros a b e (H1 & H2 & H3) (H4 & H5 & H6). split_and!; [by etrans|congruence|congruence]. Qed.

(** The processor works on Core and captures results. *)
Definition proc_step (s s' : CState X) : Prop := cs_gw s' = cs_gw s /\ exists l, sink s' = sink s ++ l /\ captured s' = captured s ++ l.
Class ProcOK : Prop := proc_ok : forall cand s, wpt T others_keep proc_step (cl_proc c cand) (fun _ _ => True) s.
Context {PO : ProcOK}.

Abbreviation any := (fun _ _ : CState X => True).

Lemma wp_remote {A} (Gq : relation QStore) (h : M QStore qerr A) (Qq : result qerr A -> QStore -> Prop) (Q : result cerr A -> CState X -> Prop) s :
  (forall q, wpt T q_keeps Gq h Qq q) ->
  (forall s1, others_keep s s1 -> Q (Err C_Net) s1) ->
  (forall s1 r q, others_keep s s1 -> rtc (either q_keeps Gq) (cs_gw s1) q -> Qq r q ->
     Q (Err C_Net) (set_gw q s1) /\ Q (match r with Ok a => Ok a | Err _ => Err C_Net end) (set_gw q s1)) ->
  wpt T others_keep any (remote h) Q s.
Proof.
  intros Hh Hlost Hdone env n HR HT. unfold remote. set (s1 := interfere env n s). assert (H1 : others_keep s s1) by apply HR.
  destruct (fault env n); [split; [by apply rtc_either_l|by apply Hlost]|].
  assert (HRz : respects q_keeps (zoom env s1)) by (intros k q; apply (HR k (set_gw q s1))).
  specialize (Hh (cs_gw s1) (zoom env s1) (S n) HRz HT). destruct (h (zoom env s1) (S n) (cs_gw s1)) as [[r n'] q]. destruct Hh as [Hrtc HQ].
  destruct (Hdone s1 r q H1 Hrtc HQ). destruct (fault env n'); (split; [by apply (rtc_either_lr others_keep any s s1)|done]).
Qed.

Lemma kept_rtc q q' : rtc (either q_keeps q_keeps) q q' -> q_keeps q q'.
Proof. intros H. apply (rtc_trans_refl q_keeps). apply (rtc_mono (either q_keeps q_keeps)); [by intros a b [?|?]|done]. Qed.
Lemma items_rtc q q' : rtc (either q_keeps item_stays) q q' -> item_stays q q'.
Proof. intros H. apply (rtc_trans_refl item_stays). apply (rtc_mono (either q_keeps item_stays)); [by intros a b [[? _]|?]|done]. Qed.
Lemma rows_rtc q q' : rtc (either q_keeps rows_stay) q q' -> rows_stay q q'.
Proof. intros H. apply (rtc_trans_refl rows_stay). apply (rtc_mono (either q_keeps rows_stay)); [by intros a b [[_ ?]|?]|done]. Qed.

(** Up to the ack: nothing is lost at the gateway, and [caught] is what was captured since. *)
Definition caught (s0 s : CState X) (l : list CResult) : Prop := item_stays (cs_gw s0) (cs_gw s) /\ captured s = captured s0 ++ l.

Lemma caught_others s0 s s' l : caught s0 s l -> others_keep s s' -> caught s0 s' l.
Proof. intros [H1 H2] ([H3 _] & _ & H4). split; [by etrans|]. by rewrite H4. Qed.

Lemma batch_wp leased s0 (Q : result cerr (list Z * list Z) -> CState X -> Prop) : forall s, caught s0 s (sink s) ->
  (forall e s', caught s0 s' (sink s') -> Q (Err e) s') -> (forall ids s', caught s0 s' (sink s') -> Q (Ok ids) s') -> wpt T others_keep any (process_batch c leased) Q s.
Proof.
  revert Q. induction leased as [|x l IH]; intros Q s Hc He Hok; cbn [process_batch]; [by apply wp_ret, Hok|]. apply wp_bind, wp_attempt.
  apply (wp_frame_inv T others_keep proc_step any (fun s => caught s0 s (sink s))); [apply (proc_ok (l_Candidate x) s)| | |done|].
  - intros a b (Hk & Hs & Hcap) Ha. rewrite Hs. by apply (caught_others s0 a).
  - intros a b [Hk Hcap] (Hg & r & Hs & Hcp). split; [done|]. split; [by rewrite Hg|]. by rewrite Hs, Hcp, Hcap, app_assoc.
  - intros r s' Hc'. apply wp_bind, IH; [done|done|]. intros ids s'' Hc''. apply wp_ret. destruct r as [u|[[]| | |]]; by apply Hok.
Qed.

(** C22: a lease is acked only after its batch's results are at the gateway. Whatever requests
    and answers are lost, while others publish, poll and work on Core, after a collect cycle every
    candidate that was in the gateway's queue is still in it, or the gateway holds, for every
    enrollment the processor captured a result of during the cycle, the last such result with its
    status, bundle, reason and expiry. (A candidate that stays is delivered again, but a decision
    Core has already recorded is not shipped a second time: [lost_shipment_loses_the_bundle].) *)
Theorem results_ship_before_ack s0 :
  wpt T others_keep any (CollectOnce hmac d c) (fun _ s' =>
    (exists l, captured s' = captured s0 ++ l /\
       (item_stays (cs_gw s0) (cs_gw s') \/ forall c, latest l c -> delivered c (cs_gw s')))) s0.
Proof.
  assert (Hkept : forall l s', caught s0 s' l -> exists l, captured s' = captured s0 ++ l /\ (item_stays (cs_gw s0) (cs_gw s') \/ forall c, latest l c -> delivered c (cs_gw s'))).
  { intros l s' [Hi Hcap]. exists l. split; [done|by left]. }
  assert (Hstart : forall s1, others_keep s0 s1 -> caught s0 s1 []) by (intros s1 (Hk & _ & Hcap); split; [apply Hk|by rewrite app_nil_r]).
  unfold CollectOnce. apply wp_bind. unfold post_claim. apply wp_bind. apply (wp_remote q_keeps _ (fun _ _ => True)); [apply handleClaim_keeps|by intros; eapply Hkept, Hstart|].
  intros s1 r q H1 Hq _. assert (Hc : caught s0 (set_gw q s1) []) by (split; [etrans; [apply H1|by apply kept_rtc in Hq as [? _]]|rewrite app_nil_r; apply H1]).
  split; [by eapply Hkept|]. destruct r as [rep|e]; [|by eapply Hkept]. destruct rep as [st|leased|ids]; [by apply wp_throw; eapply Hkept| |by apply wp_throw; eapply Hkept].
  destruct (_ <? _); [by apply wp_throw; eapply Hkept|]. apply wp_ret. destruct (decide (leased = [])); [by apply wp_ret; eapply Hkept|].
  apply wp_bind, wp_mem. intros s2 H2. split; [done|]. apply wp_bind, (batch_wp leased s0).
  { change (sink (set_sink [] s2)) with (@nil CResult). exact (caught_others s0 (set_gw q s1) s2 [] Hc H2). }
  { intros e s' Hc'. by eapply Hkept. }
  intros ids s3 Hc3. apply wp_bind, wp_mem. intros s4 H4. split; [done|]. set (res := sink s4).
  assert (Hc4 : caught s0 (set_sink [] s4) res) by (unfold res; rewrite (proj1 (proj2 H4)); exact (caught_others s0 s3 s4 _ Hc3 H4)).
  assert (Hack : forall s5, caught s0 s5 res -> (forall c, latest res c -> delivered c (cs_gw s5)) ->
    wpt T others_keep any (_ ← post_unit (handleAck d (Some ids)); mret (Z.of_nat (length leased))) (fun _ s' =>
      exists l, captured s' = captured s0 ++ l /\ (item_stays (cs_gw s0) (cs_gw s') \/ forall c, latest l c -> delivered c (cs_gw s'))) s5).
  { intros s5 Hc5 Hrows. apply wp_bind. unfold post_unit. apply wp_bind. apply (wp_remote rows_stay _ (fun _ _ => True)); [apply handleAck_rows| |].
    - intros s6 H6. exists res. split; [apply (caught_others s0 s5 s6 res Hc5 H6)|]. right. intros x Hx. eapply delivered_stays; [apply H6|by apply Hrows].
    - intros s6 o q6 H6 Hq6 _. assert (Hend : exists l, captured (set_gw q6 s6) = captured s0 ++ l /\ (item_stays (cs_gw s0) q6 \/ forall c, latest l c -> delivered c q6)).
      { exists res. split; [apply (caught_others s0 s5 s6 res Hc5 H6)|]. right. intros x Hx. eapply delivered_stays; [apply (rows_rtc _ _ Hq6)|].
        eapply delivered_stays; [apply H6|by apply Hrows]. }
      split; [done|]. destruct o as [[st|l|l]|e]; [|by apply wp_ret, wp_ret|by apply wp_ret, wp_ret|done]. by destruct (_ && _); [apply wp_ret, wp_ret|apply wp_throw]. }
  apply wp_bind. destruct (decide (res = [])) as [En|En]; [apply wp_ret, Hack; [done|]; rewrite En; by intros x ([|] & l2 & Hl & _)|].
  unfold post_results, post_unit. set (req := if _ <? _ then None else Some res).
  apply wp_bind. apply (wp_remote item_stays _ _ _ _ (handleResults_delivers T req)); [intros s5 H5; eapply Hkept, caught_others; [exact Hc4|exact H5]|].
  intros s5 o q5 H5 Hq5 Hrep.
  assert (Hc5 : caught s0 (set_gw q5 s5) res) by (destruct (caught_others s0 _ s5 res Hc4 H5) as [Hk Hcap]; split; [etrans; [exact Hk|by apply items_rtc]|done]).
  split; [by eapply Hkept|]. destruct o as [rep|e]; [|by eapply Hkept]. destruct (Hrep rep eq_refl) as [->|[->|(-> & l & Hl & Hrows)]]; [by apply wp_throw; eapply Hkept..|].
  apply wp_ret, Hack; [done|]. unfold req in Hl. destruct (_ <? _); [done|]. by injection Hl as <-.
Qed.
End delivery.

(** ** With the enrollment consumer as the processor *)

(** [enrollment.Consumer] with the capture sink: the results of one call, which are those of a
    result store that is empty before it. *)
Definition captured_of (q : QStore) : list CResult :=
  map (fun r => mkCResult (rs_EnrollmentID r) (rs_Status r) (rs_SecretHash r) (rs_Bundle r) (rs_Reason r) (rs_ExpiresAt r)) (results q).
Definition consumer_proc {X Pub} (lib : Lib Pub) (sv : Services X) (cfg : Config Pub) (cand : Candidate) : M (CState (EStore X)) cerr unit := fun env n s =>
  let env' := mkEnv (clk env) (fault env) (fun k e => cs_core (interfere env k (set_core e s))) in
  match Process lib sv cfg 0 cand env' n (set_res empty_queue (cs_core s)) with
  | (r, n', e) =>
      let l := captured_of (res e) in
      (match r with Ok _ => Ok () | Err e => Err (C_Proc (terminal e)) end, n',
       mkCState (set_res empty_queue e) (sink s ++ l) (captured s ++ l) (cs_gw s))
  end.
#[export] Instance consumer_proc_ok {X Pub} T (lib : Lib Pub) (sv : Services X) cfg b l dt res cs rs : ProcOK T (mkCollector b l dt (consumer_proc lib sv cfg) res cs rs).
Proof.
  intros cand s env n HR HT. cbn [cl_proc]. unfold consumer_proc. destruct (Process _ _ _ _ _ _ _ _) as [[r n'] e]. split; [|done].
  apply rtc_once. right. split; [done|]. by eexists.
Qed.

Definition demo_collector : Collector (EStore (list Addr)) :=
  NewCollector 0 0 0 (consumer_proc EnrollmentSafety.demo_ok EnrollmentSafety.demo_services EnrollmentSafety.demo_cfg) None (fun _ => 0) (fun _ => 0).
Definition waiting : CState (EStore (list Addr)) :=
  mkCState (EnrollmentSafety.demo_estore true) [] [] (run demo_at (Publish Queue.demo_hmac Queue.demo_durable demo_cand) empty_queue).2.
Definition collect : M (CState (EStore (list Addr))) cerr Z := CollectOnce Queue.demo_hmac Queue.demo_durable demo_collector.

Definition lost (k : nat) : Env (CState (EStore (list Addr))) := mkEnv (fun _ => demo_at) (fun n => bool_decide (n = k)) (fun _ s => s).

Lemma results_ship_before_ack_witness :
  map rs_Status (results (cs_gw (run demo_at collect waiting).2)) = ["issued"] /\ items (cs_gw (run demo_at collect waiting).2) = [] /\
  wpt (fun _ => True) others_keep (fun _ _ => True) collect (fun _ s' =>
    (exists l, captured s' = captured waiting ++ l /\
       (item_stays (cs_gw waiting) (cs_gw s') \/ forall c, latest l c -> delivered c (cs_gw s')))) waiting.
Proof.
  split_and!; [vm_compute; reflexivity|vm_compute; reflexivity|].
  exact (results_ship_before_ack (fun _ => True) Queue.demo_hmac Queue.demo_durable demo_collector (PO := consumer_proc_ok _ _ _ _ _ _ _ _ _ _) waiting).
Defined.

(** ** Where the code does not do what it says *)

(** The request that ships the results is lost. Core has issued the certificate; the gateway
    redelivers the candidate after its lease, the consumer finds it already recorded and returns
    without writing a result, the collector has nothing to ship and acks. The gateway has no
    result and no candidate left, and no pending row that the reconcile lane would look at: the
    host is never answered. *)
Definition after_loss : CState (EStore (list Addr)) := let '(_, _, s) := collect (lost 23) 0%nat waiting in s.
Definition redelivered : CState (EStore (list Addr)) := (run (demo_at + 61 * second) collect after_loss).2.
Lemma lost_shipment_loses_the_bundle :
  (collect (lost 23) 0%nat waiting).1.1 = Err C_Net /\ map en_EnrollmentID (enrolls (cs_core after_loss)) = ["genesis-fp0"; "enr-1"] /\
  map en_Status (enrolls (cs_core after_loss)) = [StatusIssued; StatusIssued] /\
  (run (demo_at + 61 * second) collect after_loss).1 = Ok 1 /\
  items (cs_gw redelivered) = [] /\ results (cs_gw redelivered) = [] /\
  (run (demo_at + 62 * second) (handlePoll EnrollmentSafety.demo_ok true 0 "enr-1" "Bearer s") (cs_gw redelivered)).1 = Ok (GError CodeNotFound) /\
  (run (demo_at + 62 * second) handlePending (cs_gw redelivered)).1 = Ok (H_Pending []).
Proof. vm_compute. by split_and!. Qed.

(** The JSON of a claim holds every request in base64: a lower bound of its length. *)
Definition json_floor (l : list Leased) : Z := foldr (fun x n => 4 * ((len (c_RequestJWS (l_Candidate x)) + 2) / 3) + n) 0 l.

(** The gateway accepts bodies of 16 KiB and hands out 64 candidates by default; 49 of full
    size already exceed the megabyte the collector reads, so the answer is cut and does not
    decode: the cycle fails before anything is processed, every time the leases expire. *)
Lemma large_batches_wedge_collection {X} hmac d (c : Collector X) l : json_floor l <= cl_claimSize c l ->
  49 <= Z.of_nat (length l) -> Forall (fun x => len (c_RequestJWS (l_Candidate x)) = 16384) l ->
  forall env n s n' s', remote (handleClaim hmac d (Some (cl_Batch c, cl_LeaseTTL c / 1000000))) env n s = (Ok (H_Claim l), n', s') ->
    CollectOnce hmac d c env n s = (Err C_Decode, n', s').
Proof.
  intros Hsize Hlen Hall env n s n' s' E. assert (Hf : json_floor l = 21848 * Z.of_nat (length l)).
  { clear -Hall. induction Hall as [|x l Hx _ IH]; [done|]. cbn [json_floor foldr]. fold (json_floor l). rewrite IH, Hx. change ((16384 + 2) / 3) with 5462. cbn [length]. lia. }
  unfold CollectOnce, post_claim, mbind, M_bind. rewrite E. destruct (Z.ltb_spec collectMaxBody (cl_claimSize c l)) as [|Hle]; [done|].
  unfold collectMaxBody in Hle. lia.
Qed.
