(* ===== verification/GatewayReg.v ===== *)
(** * internal/gatewayreg, internal/gatewayhealth and the collector's health record

    The registry of the gateways Core polls, the table with the health of each, and
    [recordHealth], which decides when a cycle's outcome is persisted. A transaction runs alone
    on SQLite; on Postgres nothing takes a lock and other transactions may commit between its
    statements. PEM and X.509 parsing is a parameter ([certOK]). *)

From S2P Require Import Prelude Db Bytes GoStrings.
From stdpp Require Import prelude strings list relations sorting gmap.
From Stdlib Require Import ZArith Lia.
Open Scope Z_scope.

Definition StateActive : string := "active".
Definition StateRemoved : string := "removed".

Inductive gwerr : Type := GW_NoName | GW_NoURL | GW_BadCert | GW_AlreadyExists | GW_Duplicated | GW_Fault.
#[export] Instance gwerr_db : DbError gwerr := GW_Fault.

(** [Row] *)
Record GRow : Type := mkGRow { gr_ID : Z; gr_Name : string; gr_URL : string; gr_CertPEM : string; gr_State : string; gr_CreatedAt : Z; gr_UpdatedAt : Z }.

(** [Health] *)
Record Health : Type := mkHealth { ht_LastAttemptAt : Z; ht_LastSuccessAt : Z; ht_LastError : string; ht_LastErrorAt : Z; ht_Failures : Z; ht_UpdatedAt : Z }.

(** The tables, and the collector's memory of what it recorded. *)
Record GStore : Type := mkGStore {
  gws : list GRow; gw_seq : Z; gw_audit : list (string * string * string);
  health : gmap string Health; healthFails : gmap string Z; healthOK : gmap string bool; healthWrote : gmap string Z }.
Definition set_gws (l : list GRow) (n : Z) (s : GStore) : GStore := mkGStore l n (gw_audit s) (health s) (healthFails s) (healthOK s) (healthWrote s).
Definition add_gaudit (e : string * string * string) (s : GStore) : GStore :=
  mkGStore (gws s) (gw_seq s) (gw_audit s ++ [e]) (health s) (healthFails s) (healthOK s) (healthWrote s).
Definition set_health (m : gmap string Health) (s : GStore) : GStore := mkGStore (gws s) (gw_seq s) (gw_audit s) m (healthFails s) (healthOK s) (healthWrote s).
Definition set_memory (fails : gmap string Z) (ok : gmap string bool) (wrote : gmap string Z) (s : GStore) : GStore :=
  mkGStore (gws s) (gw_seq s) (gw_audit s) (health s) fails ok wrote.

(** [Registry] *)
Record GRegistry : Type := mkGRegistry { g_hasAudit : bool; g_postgres : bool; g_certOK : string -> bool }.

Section registry.
Context (r : GRegistry).
Abbreviation GM := (M GStore gwerr).

Definition gdb_tx {A} (m : GM A) : GM A := if g_postgres r then m else tx m.
Definition recordAudit (actor action target : string) : GM unit :=
  if g_hasAudit r then ignore (exec (fun s => ((), add_gaudit (actor, action, target) s))) else mret ().

Definition has_name (n : string) (x : GRow) : bool := bool_decide (gr_Name x = n).
Definition insert_gw (name url cert : string) (t : Z) (s : GStore) : result gwerr (GRow * GStore) :=
  if existsb (has_name name) (gws s) then Err GW_Duplicated
  else let row := mkGRow (gw_seq s) name url cert StateActive t t in Ok (row, set_gws (gws s ++ [row]) (gw_seq s + 1) s).
Definition reactivate (url cert : string) (t : Z) (x : GRow) : GRow := mkGRow (gr_ID x) (gr_Name x) url cert StateActive (gr_CreatedAt x) t.
Definition deactivate (t : Z) (x : GRow) : GRow := mkGRow (gr_ID x) (gr_Name x) (gr_URL x) (gr_CertPEM x) StateRemoved (gr_CreatedAt x) t.
Definition update_gw (name : string) (g : GRow -> GRow) (s : GStore) : GStore := set_gws (map (fun x => if has_name name x then g x else x) (gws s)) (gw_seq s) s.

Definition add_tx (name url cert : string) (t : Z) : GM GRow :=
  x ← query (fun s => find_first (has_name name) (gws s));
  match x with
  | None => exec_err (insert_gw name url cert t)
  | Some x =>
      if decide (gr_State x = StateActive) then throw GW_AlreadyExists
      else exec (fun s => (reactivate url cert t x, update_gw name (reactivate url cert t) s))
  end.

Definition Add (name url cert actor : string) : GM GRow :=
  let name := TrimSpace name in let url := TrimSpace url in
  if decide (name = "") then throw GW_NoName
  else if decide (url = "") then throw GW_NoURL
  else if negb (g_certOK r cert) then throw GW_BadCert
  else t ← now; row ← gdb_tx (add_tx name url cert t); _ ← recordAudit actor "gateway-add" name; mret row.

(** The answer is whether the row changed. *)
Definition remove_tx (name : string) : GM bool :=
  x ← query (fun s => find_first (has_name name) (gws s));
  match x with
  | None => mret false
  | Some x =>
      if decide (gr_State x = StateRemoved) then mret false
      else t ← now; _ ← exec (fun s => ((), update_gw name (deactivate t) s)); mret true
  end.

Definition Remove (name actor : string) : GM unit :=
  let name := TrimSpace name in
  if decide (name = "") then throw GW_NoName
  else changed ← gdb_tx (remove_tx name); if changed : bool then recordAudit actor "gateway-remove" name else mret ().

Definition gw_by_name (a b : GRow) : Prop := string_le (gr_Name a) (gr_Name b).
#[export] Instance gw_by_name_dec a b : Decision (gw_by_name a b). Proof. unfold gw_by_name. apply _. Defined.

Definition Active : GM (list GRow) := query (fun s => merge_sort gw_by_name (filter (fun x => gr_State x = StateActive) (gws s))).
Definition ListRows : GM (list GRow) := query (fun s => rev (gws s)).

(** ** Health *)

Definition errMax : nat := 500.
Definition healthHeartbeat : Z := 15 * 1000000000.

(** [Store.Record]: the upsert by gateway name. *)
Definition Record_ (gateway : string) (ok : bool) (lastErr : string) (failures at_ : Z) : GM unit :=
  let lastErr := String.substring 0 errMax lastErr in
  exec (fun s =>
    let row := match health s !! gateway with
      | None => if ok then mkHealth at_ at_ "" 0 failures at_ else mkHealth at_ 0 lastErr at_ failures at_
      | Some h => if ok then mkHealth at_ at_ "" (ht_LastErrorAt h) failures at_ else mkHealth at_ (ht_LastSuccessAt h) lastErr at_ failures at_
      end in
    ((), set_health (<[gateway := row]> (health s)) s)).

Definition HealthList : GM (gmap string Health) := query health.

(** [Collector.recordHealth]; [None] is a clean cycle. The maps are the collector's own. *)
Definition recordHealth (name : string) (cycleErr : option string) : GM unit :=
  let ok := match cycleErr with None => true | Some _ => false end in
  fails ← mem (fun s =>
    let n := if ok then 0 else default 0 (healthFails s !! name) + 1 in
    (n, set_memory (<[name := n]> (healthFails s)) (healthOK s) (healthWrote s) s));
  prev ← mem (fun s => ((healthOK s !! name, default 0 (healthWrote s !! name)), s));
  t ← now;
  _ ← (if bool_decide (prev.1 <> Some ok) || (healthHeartbeat <=? time_sub t prev.2)
       then _ ← ignore (Record_ name ok (default "" cycleErr) fails t);
            mem (fun s => ((), set_memory (healthFails s) (healthOK s) (<[name := t]> (healthWrote s)) s))
       else mret ());
  mem (fun s => ((), set_memory (healthFails s) (<[name := ok]> (healthOK s)) (healthWrote s) s)).
End registry.

(** ** Every registered gateway can be dialled *)

Section invariant.
Context (r : GRegistry).

Definition dialable (x : GRow) : Prop := gr_Name x <> "" /\ TrimSpace (gr_Name x) = gr_Name x /\ gr_URL x <> "" /\ g_certOK r (gr_CertPEM x) = true.
Record reg_inv (s : GStore) : Prop := mkRegInv { ri_names : NoDup (map gr_Name (gws s)); ri_ok : forall x, x ∈ gws s -> dialable x }.
Definition keeps_reg (s s' : GStore) : Prop := reg_inv s -> reg_inv s'.

Lemma reg_update name g s : (forall x, gr_Name (g x) = gr_Name x) -> (forall x, x ∈ gws s -> gr_Name x = name -> dialable x -> dialable (g x)) -> reg_inv s -> reg_inv (update_gw name g s).
Proof.
  intros Hn Hg [Hd Ho]. split; cbn.
  - rewrite map_map, (map_ext _ gr_Name); [done|]. intros x. by destruct (has_name name x).
  - intros y (x & -> & Hx)%list_elem_of_fmap_1. unfold has_name. case_bool_decide; [apply Hg; auto|auto].
Qed.

Lemma reg_insert name url cert t s row s' : dialable (mkGRow 0 name url cert StateActive t t) -> insert_gw name url cert t s = Ok (row, s') -> reg_inv s -> reg_inv s' /\ row ∈ gws s'.
Proof.
  intros Hd E [Hn Ho]. unfold insert_gw in E. destruct (existsb _ _) eqn:Ee; [done|]. injection E as <- <-. split; [split; cbn|cbn; apply elem_of_app; right; by left].
  - rewrite map_app. apply NoDup_app. split_and!; [done| |apply NoDup_singleton]. intros x Hx ->%list_elem_of_singleton. apply list_elem_of_fmap_1 in Hx as (y & E & Hy).
    apply existsb_elem_false with (x := y) in Ee; [|done]. unfold has_name in Ee. bool_split. by apply Ee.
  - intros x [?| ->%list_elem_of_singleton]%elem_of_app; [by apply Ho|exact Hd].
Qed.

(** A transaction, alone or interleaved, is a sequence of steps. *)
Lemma gdb_wp {A} T (m : M GStore gwerr A) (Q : result gwerr A -> GStore -> Prop) s : reg_inv s ->
  (forall R, (forall a b, R a b -> keeps_reg a b) -> forall s1, reg_inv s1 -> wpt T R keeps_reg m (fun o s' => Q o s' /\ reg_inv s') s1) ->
  (forall s1, reg_inv s1 -> forall e, Q (Err e) s1) -> wpt T keeps_reg keeps_reg (gdb_tx r m) Q s.
Proof.
  intros Hi Hm He. unfold gdb_tx. destruct (g_postgres r).
  - eapply wp_mono; [by apply Hm|]. by intros o s' _ [? _].
  - apply wp_tx. intros s1 H1. assert (Hi1 : reg_inv s1) by (by apply H1). split; [by apply He|].
    eapply (wp_weaken T T eq eq keeps_reg (fun _ _ => True)); [eapply wp_mono; [apply (Hm eq); [by intros a b -> ?|done]|]|done|done|].
    + intros [a|e] s2 _ [HQ Hi2]; [split; [by intros _|done]|by apply He].
    + intros a b [->|_]; [by left|by right].
Qed.
End invariant.
Section registry_theorems.
Context (r : GRegistry).

Lemma gw_audit_wp T actor action target s (Q : result gwerr unit -> GStore -> Prop) : reg_inv r s -> (forall s', reg_inv r s' -> Q (Ok ()) s') ->
  wpt T (keeps_reg r) (keeps_reg r) (recordAudit r actor action target) Q s.
Proof.
  intros Hi HQ. unfold recordAudit. destruct (g_hasAudit r); [|by apply wp_ret, HQ]. apply wp_ignore, wp_exec. intros s1 H1. split; [by apply HQ, H1|]. split; [by intros [? ?]|].
  apply HQ. destruct (H1 Hi). by split.
Qed.

(** C40: every registered gateway can be dialled: whatever add and remove requests run
    concurrently, on either database, names are unique and not blank, every row has a URL and a
    certificate that parses (the pin of the connection), and an added gateway is the row that
    was asked for. *)
Theorem registered_gateways_are_dialable T s : reg_inv r s ->
  (forall name url cert actor, wpt T (keeps_reg r) (keeps_reg r) (Add r name url cert actor)
     (fun o s' => reg_inv r s' /\ forall row, o = Ok row -> dialable r row /\ gr_Name row = TrimSpace name /\ gr_URL row = TrimSpace url /\ gr_CertPEM row = cert /\ gr_State row = StateActive) s) /\
  (forall name actor, wpt T (keeps_reg r) (keeps_reg r) (Remove r name actor) (fun _ s' => reg_inv r s') s) /\
  wpt T (keeps_reg r) (keeps_reg r) Active (fun o s' => forall rows, o = Ok rows -> forall row, row ∈ rows -> dialable r row /\ gr_State row = StateActive) s.
Proof.
  intros Hi. split_and!.
  - intros name url cert actor. unfold Add. destruct (decide (TrimSpace name = "")); [by apply wp_throw|]. destruct (decide (TrimSpace url = "")); [by apply wp_throw|].
    destruct (g_certOK r cert) eqn:Ec; cbn [negb]; [|by apply wp_throw]. wp_step. apply wp_now. intros t _. wp_reduce.
    assert (Hd : forall id created, dialable r (mkGRow id (TrimSpace name) (TrimSpace url) cert StateActive created t)) by (intros; split_and!; [done|apply TrimSpace_idem|done|done]).
    apply wp_bind, gdb_wp; [done| |done]. intros R HR s1 Hi1. unfold add_tx. apply wp_bind, wp_query. intros s2 H2. assert (Hi2 : reg_inv r s2) by (by apply (HR s1)). split; [done|].
    assert (Hdone : forall row s', reg_inv r s' -> dialable r row -> gr_Name row = TrimSpace name -> gr_URL row = TrimSpace url -> gr_CertPEM row = cert -> gr_State row = StateActive ->
      wpt T (keeps_reg r) (keeps_reg r) (_ ← recordAudit r actor "gateway-add" (TrimSpace name); mret row) (fun o s' => reg_inv r s' /\ forall row, o = Ok row ->
        dialable r row /\ gr_Name row = TrimSpace name /\ gr_URL row = TrimSpace url /\ gr_CertPEM row = cert /\ gr_State row = StateActive) s' /\ reg_inv r s').
    { intros row s' Hi' H3 H4 H5 H6 H7. split; [|done]. apply wp_bind, gw_audit_wp; [done|]. intros s'' Hi''. apply wp_ret. split; [done|]. by intros ? [= <-]. }
    destruct (find_first _ _) as [x|] eqn:Ef.
    + destruct (decide _); [by apply wp_throw|]. apply find_first_Some in Ef as [Hx Hn]. unfold has_name in Hn. bool_split.
      apply wp_exec. intros s3 H3. assert (Hi3 : reg_inv r s3) by (by apply (HR s2)). split; [done|].
      assert (Hk : keeps_reg r s3 (update_gw (TrimSpace name) (reactivate (TrimSpace url) cert t) s3)).
      { intros Hi0. apply reg_update; [done| |done]. intros y _ Hy (H4 & H5 & _). by split_and!. }
      split; [done|]. apply Hdone; [by apply Hk|unfold dialable; cbn; rewrite Hn; split_and!; [done|apply TrimSpace_idem|done|done]|done..].
    + apply wp_exec_err. intros s3 H3. assert (Hi3 : reg_inv r s3) by (by apply (HR s2)). split; [done|]. destruct (insert_gw _ _ _ _ s3) as [[row s4]|e] eqn:Ei; [|done].
      destruct (reg_insert r _ _ _ _ _ _ _ (Hd 0 t) Ei Hi3) as [Hi4 _]. split; [by intros _|]. unfold insert_gw in Ei. destruct (existsb _ _); [done|]. injection Ei as <- <-. by apply Hdone.
  - intros name actor. unfold Remove. destruct (decide _); [by apply wp_throw|]. apply wp_bind, gdb_wp; [done| |done]. intros R HR s1 Hi1. unfold remove_tx. apply wp_bind, wp_query.
    intros s2 H2. assert (Hi2 : reg_inv r s2) by (by apply (HR s1)). split; [done|].
    assert (Hq : forall (b : bool) s', reg_inv r s' -> wpt T (keeps_reg r) (keeps_reg r) (if b then recordAudit r actor "gateway-remove" (TrimSpace name) else mret ()) (fun _ s' => reg_inv r s') s' /\ reg_inv r s').
    { intros b s' Hi'. split; [|done]. destruct b; [by apply gw_audit_wp|by apply wp_ret]. }
    destruct (find_first _ _) as [x|]; [|by apply wp_ret, (Hq false)]. destruct (decide _); [by apply wp_ret, (Hq false)|]. wp_step. apply wp_now. intros t _. wp_reduce. apply wp_bind, wp_exec.
    intros s3 H3. assert (Hi3 : reg_inv r s3) by (by apply (HR s2)). split; [done|].
    assert (Hk : keeps_reg r s3 (update_gw (TrimSpace name) (deactivate t) s3)) by (intros Hi0; apply reg_update; [done|by intros y _ _|done]).
    split; [done|]. by apply wp_ret, (Hq true), Hk.
  - apply wp_query. intros s1 H1. split; [done|]. intros rows [= <-] row Hrow. rewrite (merge_sort_Permutation gw_by_name) in Hrow. apply list_elem_of_filter in Hrow as [Hs Hin].
    split; [|done]. by apply (ri_ok r s1 (H1 Hi)).
Qed.
End registry_theorems.

(** ** The health record is recent *)

(** What the collector remembers of a gateway is what it last wrote. *)
Definition remembered (name : string) (s : GStore) : Prop :=
  forall ok, healthOK s !! name = Some ok -> exists w h, healthWrote s !! name = Some w /\ health s !! name = Some h /\ ht_LastAttemptAt h = w /\
    (ht_LastError h = "" <-> ok = true) /\ (ok = true -> healthFails s !! name = Some 0).

(** With the database up, after every cycle the health row of the gateway shows the state of
    that cycle and was written less than a heartbeat ago, the failures in a row are counted
    exactly, and other gateways' rows are untouched. *)
Theorem health_is_recent name cycleErr t s : remembered name s -> cycleErr <> Some "" ->
  let s' := (run t (recordHealth name cycleErr) s).2 in
  remembered name s' /\
  (exists h, health s' !! name = Some h /\ t - healthHeartbeat < ht_LastAttemptAt h /\ (ht_LastError h = "" <-> cycleErr = None)) /\
  healthFails s' !! name = Some (match cycleErr with None => 0 | Some _ => default 0 (healthFails s !! name) + 1 end) /\
  (forall other, other <> name -> health s' !! other = health s !! other).
Proof.
  intros Hrem Hmsg s'. subst s'. unfold run, recordHealth, Record_, ignore, attempt, exec, mem, now, mbind, M_bind; cbn [interfere fault quiet clk].
  set (ok := match cycleErr with None => true | Some _ => false end). set (n := if ok then 0 else _).
  assert (Hok : ok = true <-> cycleErr = None) by (unfold ok; by destruct cycleErr).
  assert (Herr : forall e, cycleErr = Some e -> String.substring 0 errMax e <> "") by (intros [|x e] ->; [done|]; cbn; done).
  destruct (bool_decide _ || _) eqn:Ew; cbn.
  - set (row := match health s !! name with None => _ | Some h => _ end).
    assert (Hrow : ht_LastAttemptAt row = t /\ (ht_LastError row = "" <-> ok = true)).
    { unfold row. destruct (health s !! name), ok eqn:Eo; cbn; split; try done; (split; [|done]); unfold ok in Eo; destruct cycleErr as [e|]; try done; cbn; intros H; by destruct (Herr e eq_refl). }
    destruct Hrow as [Hat He]. split_and!.
    + intros o. cbn. rewrite lookup_insert_eq. intros [= <-]. exists t, row. rewrite !lookup_insert_eq. split_and!; try done. intros E. unfold n. by rewrite E.
    + exists row. rewrite lookup_insert_eq. split_and!; [done|unfold healthHeartbeat; lia|]. by rewrite He.
    + rewrite lookup_insert_eq. f_equal. unfold n, ok. by destruct cycleErr.
    + intros other Ho. by rewrite lookup_insert_ne by done.
  - apply orb_false_iff in Ew as [E1 E2]. bool_split. apply dec_stable in E1. destruct (Hrem ok E1) as (w & h & Hw & Hh & Hat & He & Hf). cbn in E2. rewrite Hw in E2. cbn in E2.
    split_and!.
    + intros o. cbn. rewrite lookup_insert_eq. intros [= <-]. exists w, h. rewrite lookup_insert_eq. split_and!; try done; try apply He. intros E. unfold n. by rewrite E.
    + exists h. split_and!; [done|unfold time_sub, healthHeartbeat in *; lia|]. by rewrite He.
    + rewrite lookup_insert_eq. f_equal. unfold n, ok. by destruct cycleErr.
    + done.
Qed.

(** ** A gateway *)

Definition demo_reg (postgres : bool) : GRegistry := mkGRegistry true postgres (fun c => bool_decide (c <> "")).
Definition no_gateways : GStore := mkGStore [] 1 [] ∅ ∅ ∅ ∅.

Lemma registered_gateways_are_dialable_witness :
  wpt (fun _ => True) (keeps_reg (demo_reg true)) (keeps_reg (demo_reg true)) (Add (demo_reg true) " gw1 " "https://gw:9443" "PEM" "ops")
    (fun o s' => reg_inv (demo_reg true) s' /\ forall row, o = Ok row ->
       dialable (demo_reg true) row /\ gr_Name row = "gw1" /\ gr_URL row = "https://gw:9443" /\ gr_CertPEM row = "PEM" /\ gr_State row = StateActive) no_gateways.
Proof.
  apply (proj1 (registered_gateways_are_dialable (demo_reg true) (fun _ => True) no_gateways ltac:(split; [constructor|by intros x ?%elem_of_nil])) " gw1 " "https://gw:9443" "PEM" "ops").
Defined.

Lemma health_is_recent_witness :
  (run 5 (recordHealth "gw1" (Some "timeout")) no_gateways).2.(health) !! "gw1" = Some (mkHealth 5 0 "timeout" 5 1 5) /\
  remembered "gw1" (run 5 (recordHealth "gw1" (Some "timeout")) no_gateways).2.
Proof.
  split; [vm_compute; reflexivity|]. refine (proj1 (health_is_recent "gw1" (Some "timeout") 5 no_gateways _ _)); [intros ok H; vm_compute in H; discriminate|discriminate].
Defined.

(** On Postgres two requests that add a removed gateway again both succeed, although an active
    gateway may not be added: the one that commits first is told that its address and pin are in
    force, and the other one's replace them. *)
Definition removed_gw : GStore := (run 2 (Remove (demo_reg true) "gw1" "ops") (run 1 (Add (demo_reg true) "gw1" "https://old" "PEM0" "ops") no_gateways).2).2.
Definition other_add : Env GStore :=
  mkEnv (fun _ => 3) (fun _ => false) (fun k s => if bool_decide (k = 2%nat) then (run 3 (Add (demo_reg true) "gw1" "https://b" "PEMB" "bob") s).2 else s).
Lemma concurrent_reactivations_both_succeed :
  let '(o, _, s') := Add (demo_reg true) "gw1" "https://a" "PEMA" "alice" other_add 0%nat removed_gw in
  (exists row, o = Ok row /\ gr_URL row = "https://a") /\ map gr_URL (gws s') = ["https://a"] /\
  exists row, (run 3 (Add (demo_reg true) "gw1" "https://b" "PEMB" "bob") removed_gw).1 = Ok row /\ gr_URL row = "https://b".
Proof. vm_compute. split_and!; [by eexists|done|by eexists]. Qed.
