(* ===== verification/Dashboards.v ===== *)
(** * What operators see: the gateway, CA and config-key panes and the audit verifier

    The read-only handlers of internal/adminapi over the gateway registry, the two rotation
    registries (gateways.go, ca.go, configkey.go) and internal/auditverify, which re-verifies the
    audit chain and moves the alarm counters. Time formatting, the conversion of a duration to
    seconds (float64) and percentages are parameters.

    The theorems compose them with what feeds them: the status of a gateway with the collector's
    record of its cycles, the trusted rows of a pane with the trust bundle, and the tamper alarm
    with the audit log. *)

From S2P Require Import Prelude Db Bytes GoStrings AuditChain Rotation GatewayReg Rbac.
From stdpp Require Import prelude strings list relations sorting gmap.
From Stdlib Require Import ZArith Lia.
Open Scope Z_scope.

(** [summary[status]++; summary["total"]++], from zeros. *)
Definition bump (k : string) (m : gmap string Z) : gmap string Z := <[k := default 0 (m !! k) + 1]> m.
Definition summarize (statuses : list string) (sts : list string) : gmap string Z :=
  fold_left (fun m st => bump "total" (bump st m)) sts (list_to_map (map (fun st => (st, 0)) ("total" :: statuses))).

Lemma bump_lookup k k' m : default 0 (bump k m !! k') = default 0 (m !! k') + (if decide (k = k') then 1 else 0).
Proof. unfold bump. destruct (decide (k = k')) as [->|]; [by rewrite lookup_insert_eq|rewrite lookup_insert_ne by done; lia]. Qed.

(** Each count is the number of rows with that status. *)
Lemma summarize_counts statuses sts st : "total" ∉ sts -> st <> "total" ->
  default 0 (summarize statuses sts !! st) = Z.of_nat (length (filter (fun x => x = st) sts)) /\ default 0 (summarize statuses sts !! "total") = Z.of_nat (length sts).
Proof.
  intros Hno Hst. unfold summarize. set (m0 := list_to_map _ : gmap string Z).
  assert (Hz : forall k, default 0 (m0 !! k) = 0).
  { intros k. destruct (m0 !! k) as [z|] eqn:E; [|done]. apply elem_of_list_to_map_2 in E. apply list_elem_of_fmap_1 in E as (x & [= <- <-] & _). done. }
  assert (Hg : forall m, default 0 (fold_left (fun m st => bump "total" (bump st m)) sts m !! st) = default 0 (m !! st) + Z.of_nat (length (filter (fun x => x = st) sts)) /\
    default 0 (fold_left (fun m st => bump "total" (bump st m)) sts m !! "total") = default 0 (m !! "total") + Z.of_nat (length sts)).
  { clear Hz. clear m0. induction sts as [|x sts IH]; intros m; cbn [fold_left length]; [rewrite filter_nil; cbn; lia|].
    apply not_elem_of_cons in Hno as [Hx Hno]. destruct (IH Hno (bump "total" (bump x m))) as [-> ->]. rewrite !bump_lookup, filter_cons.
    destruct (decide ("total" = st)); [congruence|]. destruct (decide (x = "total")); [congruence|]. destruct (decide ("total" = "total")); [|done].
    destruct (decide (x = st)); cbn [length]; lia. }
  destruct (Hg m0) as [-> ->]. rewrite !Hz. lia.
Qed.

(** ** Gateways *)

Definition gatewayDownAfter : Z := 60 * 1000000000.

Record gatewayView : Type := mkGatewayView {
  gv_Name : string; gv_URL : string; gv_Status : string; gv_LastSuccessAt : string; gv_SecondsSinceSuccess : Z; gv_ConsecutiveFailures : Z; gv_LastError : string }.

Section panes.
Context (format : Z -> string) (seconds : Z -> Z) (percent : Z -> Z -> string).

Definition rfc3339 (ns : Z) : string := if ns =? 0 then "" else format ns.

Definition gateway_view (t : Z) (health : gmap string Health) (gw : GRow) : gatewayView :=
  match health !! gr_Name gw with
  | Some h =>
      if 0 <? ht_LastSuccessAt h then
        let since := time_sub t (ht_LastSuccessAt h) in
        let status := if gatewayDownAfter <? since then "down" else if 0 <? ht_Failures h then "degraded" else "healthy" in
        mkGatewayView (gr_Name gw) (gr_URL gw) status (rfc3339 (ht_LastSuccessAt h)) (seconds since) (ht_Failures h) (ht_LastError h)
      else mkGatewayView (gr_Name gw) (gr_URL gw) "down" "" (-1) (ht_Failures h) (ht_LastError h)
  | None => mkGatewayView (gr_Name gw) (gr_URL gw) "unknown" "" (-1) 0 ""
  end.

Definition handleGateways : M GStore gwerr (reply (list gatewayView * gmap string Z)) :=
  rows ← attempt GatewayReg.Active;
  match rows with
  | Err _ => mret (Problem 500 "internal error")
  | Ok rows =>
      h ← attempt HealthList;
      match h with
      | Err _ => mret (Problem 500 "internal error")
      | Ok h =>
          t ← now;
          let out := map (gateway_view t h) rows in
          mret (Reply 200 (out, summarize ["healthy"; "degraded"; "down"; "unknown"] (map gv_Status out)))
      end
  end.

(** ** CAs and config keys *)

Record keyDeletionView : Type := mkKeyDeletion { kd_Date : string; kd_SecondsRemaining : Z }.
Record forceRenewView : Type := mkForceRenew { fr_WindowSeconds : Z; fr_StartedAt : string }.
Record caView : Type := mkCaView {
  cw_ID : Z; cw_Name : string; cw_State : string; cw_Fingerprint : string; cw_NotAfter : string; cw_IsActive : bool; cw_Trusted : bool; cw_LiveDeps : Z;
  cw_ForceRenew : option forceRenewView; cw_KeyDeletion : option keyDeletionView }.
Record configKeyView : Type := mkConfigKeyView {
  kw_ID : Z; kw_Name : string; kw_State : string; kw_Fingerprint : string; kw_IsActive : bool; kw_Trusted : bool; kw_HasBackend : bool; kw_CreatedAt : string;
  kw_KeyDeletion : option keyDeletionView }.

Definition lifecycle : list string := [StateStaged; Rotation.StateActive; StateDraining; StateRetired].

Definition key_deletion (t : Z) (c : Key) : option keyDeletionView :=
  if y_KeyDeletionScheduledAt c =? 0 then None
  else Some (mkKeyDeletion (rfc3339 (y_KeyDeletionDate c)) (seconds (i64 (y_KeyDeletionDate c - t)))).

Definition ca_view (t deps : Z) (c : Key) : caView :=
  mkCaView (y_ID c) (y_Name c) (y_State c) (y_Fingerprint c) (if y_NotAfter c =? 0 then "" else rfc3339 (y_NotAfter c))
    (bool_decide (y_State c = Rotation.StateActive)) (bool_decide (y_State c <> StateRetired)) deps
    (if negb (y_ForceRenewStartedAt c =? 0) && (0 <? y_ForceRenewWindowNS c)
     then Some (mkForceRenew (seconds (y_ForceRenewWindowNS c)) (rfc3339 (y_ForceRenewStartedAt c))) else None)
    (key_deletion t c).

Section ca_pane.
Context (parseLeaf : string -> option (string * Z)).

Fixpoint ca_views (t : Z) (rows : list Key) : M RStore rerr (list caView) :=
  match rows with
  | [] => mret []
  | c :: rows =>
      n ← attempt (CA.LiveDependents parseLeaf (y_Fingerprint c));
      rest ← ca_views t rows;
      mret (ca_view t (match n with Ok n => n | Err _ => -1 end) c :: rest)
  end.

Definition handleCAs : M RStore rerr (reply (list caView * gmap string Z)) :=
  rows ← attempt Rotation.List;
  match rows with
  | Err _ => mret (Problem 500 "internal error")
  | Ok rows =>
      t ← now;
      out ← ca_views t rows;
      mret (Reply 200 (out, summarize lifecycle (map cw_State out)))
  end.
End ca_pane.

Definition config_key_view (t : Z) (c : Key) : configKeyView :=
  mkConfigKeyView (y_ID c) (y_Name c) (y_State c) (y_Fingerprint c) (bool_decide (y_State c = Rotation.StateActive)) (bool_decide (y_State c <> StateRetired))
    (bool_decide (y_KMSKeyID c <> "")) (if y_CreatedAt c =? 0 then "" else rfc3339 (y_CreatedAt c)) (key_deletion t c).

Definition handleConfigKeys : M RStore rerr (reply (list configKeyView * gmap string Z)) :=
  rows ← attempt ConfigKey.List;
  match rows with
  | Err _ => mret (Problem 500 "internal error")
  | Ok rows =>
      t ← now;
      let out := map (config_key_view t) rows in
      mret (Reply 200 (out, summarize lifecycle (map kw_State out)))
  end.

(** The body of an adoption reply: the key, the counts, whether all live hosts adopted. *)
Record adoptionView : Type := mkAdoptionView {
  av_ID : Z; av_Name : string; av_Fingerprint : string; av_State : string; av_Adopted : Z; av_Live : Z; av_FullyAdopted : bool; av_Percent : string;
  av_Laggards : list string; av_Stale : list string }.

Definition adoption_view (k : Key) (ad : Adoption) : adoptionView :=
  mkAdoptionView (y_ID k) (y_Name k) (y_Fingerprint k) (y_State k) (ad_Adopted ad) (ad_Live ad) (FullyAdopted ad)
    (if 0 <? ad_Live ad then percent (ad_Adopted ad) (ad_Live ad) else "100") (ad_Laggards ad) (ad_Stale ad).

(** GET /ca/{id}/adoption and GET /config-key/{id}/adoption: one body, two registries. *)
Definition adoption_reply (title : string) (status : string -> Z -> M RStore rerr Adoption) (staleAfter : Z) (path : string) : M RStore rerr (reply adoptionView) :=
  match Atoi path with
  | None => mret (Problem 400 "bad id")
  | Some id =>
      r ← attempt (Rotation.Get id);
      match r with
      | Err R_NotFound => mret (Problem 404 title)
      | Err _ => mret (Problem 500 "internal error")
      | Ok target =>
          ad ← attempt (status (y_Fingerprint target) staleAfter);
          mret (match ad with Ok ad => Reply 200 (adoption_view target ad) | Err _ => Problem 500 "internal error" end)
      end
  end.
Definition handleCAAdoption := adoption_reply "no such CA" CA.AdoptionStatus.
Definition handleConfigKeyAdoption := adoption_reply "no such config key" ConfigKey.AdoptionStatus.
End panes.

(** ** The audit verifier *)

(** The metrics of a process. *)
Record Metrics : Type := mkMetrics { m_runs : Z; m_failures : Z; m_tampered : Z; m_rows : Z; m_lastSuccess : Z }.

Section verifier.
Context (sha256 : string -> string).

Definition verifyOnce (m : Metrics) : M AStore aerr Metrics :=
  let m := mkMetrics (m_runs m + 1) (m_failures m) (m_tampered m) (m_rows m) (m_lastSuccess m) in
  r ← attempt (VerifyAudit sha256);
  match r with
  | Ok (n, None) => t ← now; mret (mkMetrics (m_runs m) (m_failures m) (m_tampered m) n (t / 1000000000))
  | Ok (_, Some _) => mret (mkMetrics (m_runs m) (m_failures m + 1) (m_tampered m + 1) (m_rows m) (m_lastSuccess m))
  | Err _ => mret (mkMetrics (m_runs m) (m_failures m + 1) (m_tampered m) (m_rows m) (m_lastSuccess m))
  end.

(** [Run] until its context ends: once, and then at each of [n] ticks. *)
Fixpoint ticks (n : nat) (m : Metrics) : M AStore aerr Metrics :=
  match n with O => mret m | S n => m ← verifyOnce m; ticks n m end.
Definition Run (n : nat) (m : Metrics) : M AStore aerr Metrics := m ← verifyOnce m; ticks n m.
End verifier.

Definition NewVerifier (interval : Z) : Z := if interval <=? 0 then 3600 * 1000000000 else interval.

(** ** The gateway pane follows the collector *)

(** A cycle of the collector: when it ended, and its error. *)
Definition cycle : Type := Z * option string.
Definition good (c : cycle) : bool := match c.2 with None => true | Some _ => false end.

Definition collected (name : string) (l : list cycle) (s : GStore) : GStore := fold_left (fun s c => (run c.1 (recordHealth name c.2) s).2) l s.

Fixpoint chronological (t0 : Z) (l : list cycle) : Prop :=
  match l with [] => True | c :: l => t0 <= c.1 /\ 0 < c.1 /\ chronological c.1 l end.

Definition last_success (ls : Z) (l : list cycle) : Z := fold_left (fun ls c => if good c then c.1 else ls) l ls.

(** Nothing is known of a gateway before its first cycle. *)
Definition unseen (name : string) (s : GStore) : Prop :=
  health s !! name = None /\ healthOK s !! name = None /\ healthFails s !! name = None.

(** What the row and the collector's memory hold after a last cycle, given the last success. *)
Definition tracked (name : string) (c : cycle) (ls : Z) (s : GStore) : Prop :=
  exists w h n, healthOK s !! name = Some (good c) /\ healthWrote s !! name = Some w /\ health s !! name = Some h /\ healthFails s !! name = Some n /\
    0 <= n /\ 0 < w /\ w <= c.1 /\ 0 <= ht_LastSuccessAt h <= ls /\ ls < ht_LastSuccessAt h + healthHeartbeat /\ (0 < ls -> 0 < ht_LastSuccessAt h) /\
    (if good c then ht_Failures h = 0 /\ ht_LastSuccessAt h = w /\ ls = c.1 else 0 < ht_Failures h /\ 0 < n).

Lemma recordHealth_run name err t s :
  let ok := match err with None => true | Some _ => false end in
  let n := if ok then 0 else default 0 (healthFails s !! name) + 1 in
  let lastErr := String.substring 0 errMax (default "" err) in
  let row := match health s !! name with
    | None => if ok then mkHealth t t "" 0 n t else mkHealth t 0 lastErr t n t
    | Some h => if ok then mkHealth t t "" (ht_LastErrorAt h) n t else mkHealth t (ht_LastSuccessAt h) lastErr t n t
    end in
  let wr := bool_decide (healthOK s !! name <> Some ok) || (healthHeartbeat <=? time_sub t (default 0 (healthWrote s !! name))) in
  (run t (recordHealth name err) s).2 = mkGStore (gws s) (gw_seq s) (gw_audit s) (if wr then <[name := row]> (health s) else health s)
    (<[name := n]> (healthFails s)) (<[name := ok]> (healthOK s)) (if wr then <[name := t]> (healthWrote s) else healthWrote s).
Proof.
  intros ok n lastErr row wr. unfold run, recordHealth, Record_, ignore, attempt, exec, mem, now, mbind, M_bind; cbn [interfere fault quiet clk].
  change (match err with Some _ => false | None => true end) with ok. fold n. cbn [fst snd healthOK healthWrote set_memory]. fold wr. by destruct wr.
Qed.

(** The first cycle is always written. *)
Lemma tracked_first name c s : unseen name s -> 0 < c.1 -> tracked name c (if good c then c.1 else 0) (run c.1 (recordHealth name c.2) s).2.
Proof.
  destruct c as [t err]. intros (Hh & Ho & Hf) Ht. cbn in Ht. rewrite recordHealth_run, Ho. rewrite bool_decide_eq_true_2 by done. cbn [orb].
  exists t. cbn [health healthOK healthWrote healthFails]. rewrite !lookup_insert_eq, Hh, Hf. unfold good, healthHeartbeat. cbn [fst snd default].
  destruct err; eexists _, _; split_and!; try done; cbn; lia.
Qed.

Lemma tracked_next name c0 ls c s : tracked name c0 ls s -> c0.1 <= c.1 -> ls <= c0.1 -> 0 < c.1 ->
  tracked name c (if good c then c.1 else ls) (run c.1 (recordHealth name c.2) s).2.
Proof.
  intros (w & h & n & Ho & Hw & Hh & Hf & Hn & Hw0 & Hwt & HLS & Hbeat & Hpos & Hst) Ht Hls H0. destruct c as [t err]. cbn [fst snd] in *. rewrite recordHealth_run, Ho, Hw, Hh, Hf.
  cbn [default]. set (ok := match err with None => true | Some _ => false end). set (n' := if ok then 0 else n + 1).
  assert (Hg : good (t, err) = ok) by done. rewrite Hg. unfold tracked. rewrite Hg. cbn [fst snd]. unfold healthHeartbeat in *.
  destruct (bool_decide (Some (good c0) <> Some ok)) eqn:Ed; cbn [orb health healthOK healthWrote healthFails].
  - exists t. rewrite !lookup_insert_eq. destruct ok eqn:Eo; unfold n'; eexists _, _; split_and!; try done; cbn; lia.
  - apply bool_decide_eq_false, dec_stable in Ed. injection Ed as Ed. rewrite Ed in Hst. match goal with |- context [?a <=? ?b] => destruct (a <=? b) eqn:Et end; bool_split; cbn [from_option] in Et.
    + exists t. rewrite !lookup_insert_eq. destruct ok eqn:Eo; unfold n'; eexists _, _; split_and!; try done; cbn; lia.
    + exists w, h. rewrite !lookup_insert_eq, Hw, Hh. destruct ok eqn:Eo; unfold n'; eexists; split_and!; try done; unfold time_sub, id in *; lia.
Qed.

Lemma tracked_all name l c0 ls s : tracked name c0 ls s -> ls <= c0.1 -> chronological c0.1 l ->
  tracked name (default c0 (last l)) (last_success ls l) (collected name l s) /\ last_success ls l <= (default c0 (last l)).1.
Proof.
  revert c0 ls s. induction l as [|c l IH]; intros c0 ls s Ht Hls Hc; [done|]. destruct Hc as (H1 & H2 & Hc). rewrite last_cons.
  cbn [collected last_success fold_left]. destruct (IH c (if good c then c.1 else ls) (run c.1 (recordHealth name c.2) s).2) as [IH1 IH2].
  - by eapply tracked_next.
  - destruct (good c); lia.
  - done.
  - by destruct (last l).
Qed.

Lemma last_success_of ls l : last_success ls l = ls \/ exists c, c ∈ l /\ c.2 = None /\ last_success ls l = c.1.
Proof.
  revert ls. induction l as [|c l IH]; intros ls; [by left|]. cbn. destruct (IH (if good c then c.1 else ls)) as [E|(c' & ? & ? & ?)].
  - unfold last_success in *. rewrite E. unfold good. destruct (c.2) eqn:Ec; [by left|]. right. exists c. split; [by left|done].
  - right. exists c'. split; [by right|done].
Qed.

Lemma last_success_ge t0 ls l c : chronological t0 l -> ls <= t0 -> c ∈ l -> c.2 = None -> c.1 <= last_success ls l.
Proof.
  assert (Hmono : forall t0 ls l, chronological t0 l -> ls <= t0 -> ls <= last_success ls l).
  { clear. intros t0 ls l. revert t0 ls. induction l as [|c l IH]; intros t0 ls Hc Hl; [done|]. destruct Hc as (H1 & H2 & Hc). cbn. etrans; [|apply (IH c.1); [done|]]; destruct (good c); lia. }
  revert t0 ls. induction l as [|c' l IH]; intros t0 ls Hc Hl Hin Hn; [by apply elem_of_nil in Hin|]. destruct Hc as (H1 & H2 & Hc). cbn. apply elem_of_cons in Hin as [->|Hin].
  - unfold good at 2. rewrite Hn. apply (Hmono c'.1); [done|lia].
  - apply (IH c'.1); [done| |done|done]. destruct (good c'); lia.
Qed.

Section gateway_pane.
Context (format : Z -> string) (seconds : Z -> Z).

Lemma handleGateways_run t s : exists rows, Permutation rows (filter (fun x => gr_State x = GatewayReg.StateActive) (gws s)) /\
  let out := map (gateway_view format seconds t (health s)) rows in
  run t (handleGateways format seconds) s = (Ok (Reply 200 (out, summarize ["healthy"; "degraded"; "down"; "unknown"] (map gv_Status out))), s).
Proof.
  exists (merge_sort gw_by_name (filter (fun x => gr_State x = GatewayReg.StateActive) (gws s))). split; [apply merge_sort_Permutation|done].
Qed.

Lemma gateway_view_name t h gw : gv_Name (gateway_view format seconds t h gw) = gr_Name gw.
Proof. unfold gateway_view. destruct (h !! gr_Name gw) as [x|]; [|done]. by destruct (0 <? _). Qed.

(** The gateway pane follows the collector. After any history of collect cycles of a
    gateway, recorded at most once per heartbeat while nothing changes, a pane opened within 45
    seconds of the last cycle lists the gateway, and shows it healthy exactly when that cycle
    succeeded: a healthy gateway never flaps to down for want of a write, and a failing one is
    never shown healthy. A failing one is degraded while a success is at most 45 seconds old,
    and down when there was none for a minute. *)
Theorem gateway_pane_is_accurate l t err t' s gw : let name := gr_Name gw in
  gw ∈ gws s -> gr_State gw = GatewayReg.StateActive -> unseen name s -> chronological 0 (l ++ [(t, err)]) -> t <= t' <= t + 45 * 1000000000 ->
  exists views summary, (run t' (handleGateways format seconds) (collected name (l ++ [(t, err)]) s)).1 = Ok (Reply 200 (views, summary)) /\
    exists v, v ∈ views /\ gv_Name v = name /\ (gv_Status v = "healthy" <-> err = None) /\
      (forall e, err = Some e -> (exists c, c ∈ l /\ c.2 = None /\ t' - c.1 <= 45 * 1000000000) -> gv_Status v = "degraded") /\
      (forall e, err = Some e -> (forall c, c ∈ l -> c.2 = None -> gatewayDownAfter < t' - c.1) -> gv_Status v = "down").
Proof.
  intros name Hgw Hact Hun Hc Ht'. set (L := l ++ [(t, err)]) in *. set (s' := collected name L s).
  assert (Hgws : forall k u, gws (collected name k u) = gws u).
  { induction k as [|c k IH]; intros u; [done|]. cbn [collected fold_left]. etrans; [apply IH|]. by rewrite recordHealth_run. }
  destruct (handleGateways_run t' s') as (rows & Hp & Hrun). do 2 eexists. split; [by rewrite Hrun|]. exists (gateway_view format seconds t' (health s') gw).
  split; [apply list_elem_of_fmap_2; rewrite Hp; apply list_elem_of_filter; split; [done|]; unfold s'; by rewrite Hgws|]. split; [apply gateway_view_name|].
  assert (Htr : tracked name (t, err) (last_success 0 L) s').
  { destruct L as [|c0 L'] eqn:EL; [by destruct l|]. destruct Hc as (H1 & H2 & Hc). unfold s'. cbn [collected fold_left last_success].
    destruct (tracked_all name L' c0 (if good c0 then c0.1 else 0) (run c0.1 (recordHealth name c0.2) s).2) as [Htr _]; [by apply tracked_first|destruct (good c0); lia|done|].
    assert (Hl : default c0 (last L') = (t, err)). { assert (last (c0 :: L') = Some (t, err)) as Hl by (rewrite <- EL; apply last_snoc). rewrite last_cons in Hl. by destruct (last L'); injection Hl. }
    unfold cycle in *. rewrite Hl in Htr. exact Htr. }
  destruct Htr as (w & h & n & _ & _ & Hh & _ & Hn & Hw0 & Hwt & HLS & Hbeat & Hpos & Hst). unfold gateway_view. fold name. rewrite Hh. cbn [fst] in *.
  unfold healthHeartbeat, gatewayDownAfter in *. unfold good in Hst. cbn [snd fst] in Hst.
  assert (Hsub : (60 * 1000000000 <? time_sub t' (ht_LastSuccessAt h)) = (60 * 1000000000 <? t' - ht_LastSuccessAt h)) by (unfold time_sub; lia).
  rewrite Hsub.
  assert (Hls : last_success 0 L = if good (t, err) then t else last_success 0 l) by (unfold L, last_success; rewrite fold_left_app; done).
  destruct err as [e|]; cbn [good snd fst] in Hls.
  - assert (Hd : (0 <? ht_Failures h) = true) by lia. rewrite Hd. split_and!.
    + split; [|done]. repeat match goal with |- context [if ?b then _ else _] => destruct b end; intros Hx; discriminate Hx.
    + intros e' _ (c & Hin & Hcn & Hrec). assert (Hge : c.1 <= last_success 0 L) by (apply (last_success_ge 0); [done|done|apply elem_of_app; by left|done]).
      assert (0 < c.1). { clear -Hc Hin. unfold L in Hc. revert Hc. generalize 0 at 1. induction l as [|x l IH]; intros t0 Hc; [by apply elem_of_nil in Hin|]. destruct Hc as (? & ? & Hc).
        apply elem_of_cons in Hin as [->|Hin]; [done|by eapply IH]. }
      rewrite (proj2 (Z.ltb_lt 0 _)) by lia. by rewrite (proj2 (Z.ltb_ge _ _)) by lia.
    + intros e' _ Hall. destruct (0 <? ht_LastSuccessAt h) eqn:Ep; [|done]. bool_split. rewrite (proj2 (Z.ltb_lt _ _)); [done|].
      destruct (last_success_of 0 l) as [E|(c & Hin & Hcn & E)]; [lia|]. specialize (Hall c Hin Hcn). lia.
  - destruct Hst as (Hf & Hlw & Hlt). rewrite Hf. rewrite (proj2 (Z.ltb_lt 0 _)) by lia. rewrite (proj2 (Z.ltb_ge _ _)) by lia. by split_and!.
Qed.
End gateway_pane.

(** ** The CA pane and the trust bundle *)

Section ca_pane_theorems.
Context (format : Z -> string) (seconds : Z -> Z) (parseLeaf : string -> option (string * Z)) (T : Z -> Prop).
Abbreviation alone := (wpt T eq (fun _ _ => True)).

Lemma LiveDependents_alone fp s : alone (CA.LiveDependents parseLeaf fp) (fun o s' => s' = s /\ (forall n, o = Ok n -> 0 <= n)) s.
Proof. unfold CA.LiveDependents. wp_step. wp_step; [done|]. wp_step. wp_step; [done|]. wp_step. wp_step. wp_step. split; [done|]. intros n [= <-]. lia. Qed.

Definition shows (t : Z) (c : Key) (v : caView) : Prop := exists n, -1 <= n /\ v = ca_view format seconds t n c.

Lemma ca_views_alone t rows s : alone (ca_views format seconds parseLeaf t rows) (fun o s' => s' = s /\ exists l, o = Ok l /\ Forall2 (shows t) rows l) s.
Proof.
  induction rows as [|c rows IH]; cbn [ca_views]; [apply wp_ret; split; [done|by exists []]|]. apply wp_bind, wp_attempt. eapply wp_mono; [apply LiveDependents_alone|].
  intros n s' _ [-> Hn]. apply wp_bind. eapply wp_mono; [exact IH|]. intros o s' _ [-> (l & -> & Hl)]. apply wp_ret. split; [done|]. eexists. split; [done|].
  constructor; [|done]. eexists. split; [|reflexivity]. destruct n as [n|]; [specialize (Hn n eq_refl)|]; lia.
Qed.

Lemma shown_row t rows l v : Forall2 (shows t) rows l -> v ∈ l -> exists c, c ∈ rows /\ shows t c v.
Proof. intros H [i Hi]%list_elem_of_lookup. destruct (Forall2_lookup_r _ _ _ _ _ H Hi) as (c & Hc & Hs). exists c. split; [by eapply list_elem_of_lookup_2|done]. Qed.

Lemma shown_ids t rows l : Forall2 (shows t) rows l -> map cw_ID l = map y_ID rows.
Proof. induction 1 as [|c v rows l (n & _ & ->) _ IH]; cbn; [done|]. by rewrite IH. Qed.

(** The CA pane shows the registry as the signers and bundles see it. Whatever reads fail, a
    pane that is shown lists every CA once; the trusted ones are those whose certificates the
    trust bundle distributes, at most one is the active signing CA, it is trusted, and a count of
    dependents that could not be read is -1 and never a false 0 or a guess. *)
Theorem ca_pane_matches_the_bundle s : r_inv s ->
  alone (handleCAs format seconds parseLeaf) (fun o s' => s' = s /\ forall st views summary, o = Ok (Reply st (views, summary)) ->
    Permutation (map cw_ID views) (map y_ID (krows s)) /\
    (forall v, v ∈ views -> cw_Trusted v = true -> exists c bundle, c ∈ krows s /\ cw_ID v = y_ID c /\ run 0 TrustBundle s = (Ok bundle, s) /\ y_PEM c ∈ bundle) /\
    (forall c, c ∈ krows s -> y_State c <> StateRetired -> exists v, v ∈ views /\ cw_ID v = y_ID c /\ cw_Trusted v = true) /\
    (forall v v', v ∈ views -> v' ∈ views -> cw_IsActive v = true -> cw_IsActive v' = true -> cw_ID v = cw_ID v') /\
    (forall v, v ∈ views -> (cw_IsActive v = true -> cw_Trusted v = true) /\ -1 <= cw_LiveDeps v)) s.
Proof.
  intros Hi. unfold handleCAs. apply wp_bind, wp_attempt, wp_query. intros ? <-. split; [by apply wp_ret|]. apply wp_bind, wp_now. intros t Ht.
  apply wp_bind. eapply wp_mono; [apply ca_views_alone|]. intros o s' _ [-> (l & -> & Hl)]. apply wp_ret. split; [done|]. intros st views summary [= <- <- <-].
  assert (Hv : forall v, v ∈ l -> exists c n, c ∈ krows s /\ -1 <= n /\ v = ca_view format seconds t n c).
  { intros v Hin. destruct (shown_row t _ l v Hl Hin) as (c & Hc & n & Hn & ->). exists c, n. split; [by apply list_elem_of_In, in_rev, list_elem_of_In|done]. }
  split_and!.
  - rewrite (shown_ids t _ l Hl), map_rev. symmetry. apply Permutation_rev.
  - intros v Hin Htr. destruct (Hv v Hin) as (c & n & Hc & _ & ->). cbn in Htr. bool_split. exists c. eexists. split_and!; [done|done|reflexivity|].
    unfold sort_strings. rewrite merge_sort_Permutation. apply list_elem_of_fmap_2. apply list_elem_of_In, filter_In. split; [by apply list_elem_of_In|]. unfold in_state. by rewrite bool_decide_eq_false_2.
  - intros c Hc Hs. assert (Hc' : c ∈ rev (krows s)) by (apply list_elem_of_In, in_rev; rewrite rev_involutive; by apply list_elem_of_In).
    apply list_elem_of_lookup in Hc' as [i Hi']. destruct (Forall2_lookup_l _ _ _ _ _ Hl Hi') as (v & Hlv & n & _ & ->). eexists. split; [by eapply list_elem_of_lookup_2|]. split; [done|]. cbn. by apply bool_decide_eq_true.
  - intros v v' Hin Hin' Ha Ha'. destruct (Hv v Hin) as (c & n & Hc & _ & ->). destruct (Hv v' Hin') as (c' & n' & Hc' & _ & ->). cbn in *. bool_split. by apply (ri_one _ Hi).
  - intros v Hin. destruct (Hv v Hin) as (c & n & Hc & Hn & ->). cbn. split; [|done]. intros Ha. bool_split. apply bool_decide_eq_true. by rewrite Ha.
Qed.
End ca_pane_theorems.

(** ** The tamper alarm *)

Section alarm.
Context (sha256 : string -> string) (T : Z -> Prop).
Abbreviation R := (rtc (append_step sha256)).

Lemma chain_stable s s' : R s s' -> chain_ok sha256 s -> chain_ok sha256 s'.
Proof. intros H. by apply rtc_invariant with (2 := H), append_chain. Qed.

Lemma verifyOnce_wp m s : chain_ok sha256 s ->
  wpt T R (append_step sha256) (verifyOnce sha256 m) (fun o s' => chain_ok sha256 s' /\ exists m', o = Ok m' /\ m_tampered m' = m_tampered m /\ m_runs m' = m_runs m + 1) s.
Proof.
  intros Hok. unfold verifyOnce, VerifyAudit. apply wp_bind, wp_attempt, wp_bind, wp_query. intros s1 H1. pose proof (chain_stable _ _ H1 Hok) as Hok1.
  split; [apply wp_ret; split; [done|by eexists]|]. apply wp_ret. unfold chain_ok in Hok1. rewrite Hok1. apply wp_bind, wp_now. intros t _. apply wp_ret. split; [done|by eexists].
Qed.

Lemma ticks_wp n m s : chain_ok sha256 s ->
  wpt T R (append_step sha256) (ticks sha256 n m) (fun o s' => chain_ok sha256 s' /\ exists m', o = Ok m' /\ m_tampered m' = m_tampered m /\ m_runs m' = m_runs m + Z.of_nat n) s.
Proof.
  revert m s. induction n as [|n IH]; intros m s Hok; cbn [ticks]; [apply wp_ret; split; [done|]; exists m; split_and!; [done|done|lia]|].
  apply wp_bind. eapply wp_mono; [by apply verifyOnce_wp|]. intros o s' _ (Hok' & m' & -> & Ht & Hr). eapply wp_mono; [by apply IH|].
  intros o' s'' _ (Hok'' & m'' & -> & Ht' & Hr'). split; [done|]. exists m''. split_and!; [done|congruence|lia].
Qed.

(** The tamper alarm is exact. On a log that writers only append to, however long the verifier
    runs and whatever reads fail, the tamper counter does not move. And one run that reads a
    log that does not verify moves it, together with the failure counter; a run that cannot read
    moves only the latter, and a clean one records the number of rows. *)
Theorem tamper_alarm_is_exact m s :
  (chain_ok sha256 s -> forall n, wpt T R (append_step sha256) (Run sha256 n m)
     (fun o _ => exists m', o = Ok m' /\ m_tampered m' = m_tampered m /\ m_runs m' = m_runs m + 1 + Z.of_nat n) s) /\
  ((verify_rows sha256 genesisPrev 1 s).2 = None ->
     wpt T eq (fun _ _ => True) (verifyOnce sha256 m) (fun o _ => exists m', o = Ok m' /\ m_tampered m' = m_tampered m /\
       (m_failures m' = m_failures m -> m_rows m' = Z.of_nat (length s))) s) /\
  ((verify_rows sha256 genesisPrev 1 s).2 <> None -> forall t, exists m', run t (verifyOnce sha256 m) s = (Ok m', s) /\
     m_tampered m' = m_tampered m + 1 /\ m_failures m' = m_failures m + 1 /\ m_rows m' = m_rows m /\ m_lastSuccess m' = m_lastSuccess m).
Proof.
  split_and!.
  - intros Hok n. unfold Run. apply wp_bind. eapply wp_mono; [by apply verifyOnce_wp|]. intros o s' _ (Hok' & m' & -> & Ht & Hr). eapply wp_mono; [by apply ticks_wp|].
    intros o' s'' _ (_ & m'' & -> & Ht' & Hr'). exists m''. split_and!; [done|congruence|lia].
  - destruct (verify_rows sha256 genesisPrev 1 s) as [k x] eqn:Hv. cbn. intros ->. pose proof Hv as Hn. apply verify_count in Hn. unfold verifyOnce, VerifyAudit. apply wp_bind, wp_attempt, wp_bind, wp_query. intros ? <-.
    split; [apply wp_ret; eexists; split_and!; [done|done|cbn [m_failures m_rows]; lia]|]. apply wp_ret. rewrite Hv. apply wp_bind, wp_now. intros t _. apply wp_ret. eexists. split_and!; [done|done|cbn [m_failures m_rows]; lia].
  - intros Hv t. unfold run, verifyOnce, VerifyAudit, attempt, query, mbind, M_bind. cbn -[verify_rows genesisPrev]. destruct (verify_rows sha256 genesisPrev 1 s) as [n [x|]] eqn:E; [|done]. eexists. by split_and!.
Qed.
End alarm.

(** ** A gateway that fails and recovers *)

Module panes_example.
Definition gw : GRow := mkGRow 1 "gw1" "https://gw:9443" "PEM" GatewayReg.StateActive 0 0.
Definition one : GStore := mkGStore [gw] 2 [] ∅ ∅ ∅ ∅.
Definition sec : Z := 1000000000.
Definition history : list cycle := [(1 * sec, None); (11 * sec, None); (21 * sec, Some "timeout")].

Lemma gateway_pane_is_accurate_witness :
  exists views summary, (run (50 * sec) (handleGateways (fun _ => "") id) (collected "gw1" (history ++ [(31 * sec, Some "timeout")]) one)).1 = Ok (Reply 200 (views, summary)) /\
    exists v, v ∈ views /\ gv_Name v = "gw1" /\ gv_Status v = "degraded".
Proof.
  destruct (gateway_pane_is_accurate (fun _ => "") id history (31 * sec) (Some "timeout") (50 * sec) one gw) as (views & summary & Hrun & v & Hin & Hn & _ & Hd & _).
  - left.
  - reflexivity.
  - split_and!; reflexivity.
  - vm_compute. split_and!; try discriminate; try reflexivity; exact I.
  - vm_compute. split; discriminate.
  - exists views, summary. split; [exact Hrun|]. exists v. split_and!; [exact Hin|exact Hn|]. apply (Hd "timeout" eq_refl). exists (11 * sec, None). split; [right; left|]. split; [reflexivity|]. vm_compute. discriminate.
Defined.
End panes_example.
