(* ===== verification/IpamConsole.v ===== *)
(** * internal/adminapi: the address-plan handlers

    The handlers of ipam_ops.go over the netblock registry and the allocation tables of
    AddrStore.v: listing the blocks with their utilisation, carving, editing and removing a
    block, the placement suggestion and the allocations inside a block. JSON decoding, time
    formatting and the percentage (float64) are parameters. Netip.v parses IPv4 text only: an
    IPv6 prefix, which the registry would refuse as a bad CIDR, is refused as unparsable, with
    the same status and the other title.

    The theorems show that the utilisation the console shows is the one the metrics export, and
    that every request keeps the address plan. *)

From S2P Require Import Prelude Db Bytes GoStrings Netip AddrStore NetblockPlace NetblockRegistry Ipam Rbac AdminConfig AdminQueries.
From stdpp Require Import prelude strings list gmap relations sorting.
From Stdlib Require Import ZArith Lia.
Open Scope Z_scope.

(** [NetblockView], [AllocationView] *)
Record NetblockView : Type := mkNetblockView {
  nv_Name : string; nv_CIDR : string; nv_Kind : string; nv_Description : string; nv_Protected : bool; nv_Capacity : Z; nv_Allocated : Z; nv_Used : Z;
  nv_Pct : string; nv_CreatedAt : string; nv_CreatedBy : string }.
Record AllocationView : Type := mkAllocationView { lw_IP : string; lw_Device : string; lw_Method : string; lw_AllocatedAt : string }.

Inductive nbody : Type :=
| NBo_Blocks (l : list NetblockView) (pool : string)
| NBo_Block (v : NetblockView)
| NBo_Removed (name : string)
| NBo_Suggest (prefix : Z) (cidr : string)
| NBo_Allocations (name cidr : string) (l : list AllocationView).

Record NbCreate : Type := mkNbCreate { nc_Name : string; nc_CIDR : string; nc_Description : string }.
Record NbPatch : Type := mkNbPatch { np_CIDR : option string; np_Description : option string }.

Record IpamLib : Type := mkIpamLib {
  il_create : string -> option NbCreate; il_patch : string -> option NbPatch; il_format : Z -> string; il_percent : Z -> Z -> string }.

Definition netblockHostCapacity (p : Prefix) : Z :=
  let bits := p_bits p in
  if negb (IsValid p) || (bits <? 0) || (32 <? bits) then 0
  else let total := Z.shiftl 1 (32 - bits) in if total <=? 1 then 0 else total - 1.

Definition mapNetblockErr (e : err) : reply nbody :=
  match e with
  | NB_NotFound => Problem 404 "not found"
  | NB_Exists => Problem 409 "already exists"
  | NB_Overlap => Problem 409 "overlap"
  | NB_Protected => Problem 409 "protected"
  | NB_Stranded => Problem 422 "would strand allocations"
  | NB_PoolFull => Problem 409 "pool full"
  | NB_BadCIDR | NB_OutOfPool | NB_NoName | NB_ReservedKind | NB_BadPrefixLen => Problem 400 "invalid netblock"
  | _ => Problem 500 "internal error"
  end.

Section handlers.
Context (lib : IpamLib) (pool : Prefix) (reg : option Registry) (staleAfter freshness : Z).
Abbreviation IM := (M Store err).

Definition ipam_rfc3339 (ns : Z) : string := if ns =? 0 then "" else il_format lib ns.
Definition pctOf (allocated capacity : Z) : string := if capacity <=? 0 then "0" else il_percent lib allocated capacity.
Definition poolString : string := if IsValid pool then PrefixString pool else "".

(** ** Store reads *)

Definition allocationIPs : IM (list Addr) :=
  t ← now;
  ips ← query (fun s => al_ip <$> List.filter (live_row t) (allocs s));
  mret (omap ParseAddr ips).

Definition freshOverlayIPs : IM (list Addr) :=
  t ← now;
  ips ← query (fun s => (List.filter (fun h : string * Z => t - staleAfter <=? h.2) (heartbeats s)).*1);
  mret (omap ParseAddr ips).

(** The loop over the live addresses: allocated, used. *)
Fixpoint tally_block (p : Prefix) (fresh ips : list Addr) (acc : Z * Z) : Z * Z :=
  match ips with
  | [] => acc
  | a :: ips => tally_block p fresh ips (if IsValid p && Contains p a then (acc.1 + 1, acc.2 + if bool_decide (a ∈ fresh) then 1 else 0) else acc)
  end.

Definition block_view (ips fresh : list Addr) (row : Netblock) : NetblockView :=
  let p := nb_Prefix row in
  let '(allocated, used) := tally_block p fresh ips (0, 0) in
  mkNetblockView (nb_name row) (nb_cidr row) (nb_kind row) (nb_description row) (nb_protected row) (netblockHostCapacity p) allocated used
    (pctOf allocated (netblockHostCapacity p)) (ipam_rfc3339 (nb_created_at row)) (nb_created_by row).

(** One row, for the replies of create and update: best effort. *)
Definition netblockView (row : Netblock) : IM NetblockView :=
  ips ← attempt allocationIPs;
  match ips with
  | Err _ => mret (block_view [] [] row)
  | Ok ips => fresh ← attempt freshOverlayIPs; mret (block_view ips (match fresh with Ok l => l | Err _ => [] end) row)
  end.

(** [LEFT JOIN devices], [ORDER BY a.ip ASC] *)
Definition alloc_le (a b : Allocation) : Prop := string_le (al_ip a) (al_ip b).
#[export] Instance alloc_le_dec a b : Decision (alloc_le a b). Proof. unfold alloc_le. apply _. Defined.
Definition device_name (s : Store) (a : Allocation) : string := default "" (dev_name <$> find_first (fun d => dev_id d =? al_device_id a) (devices s)).
Definition inside (rng : Prefix) (a : Allocation) : bool :=
  match ParseAddr (al_ip a) with Some ip => IsValid rng && Contains rng ip | None => false end.
Definition allocationsIn (rng : Prefix) : IM (list AllocationView) :=
  rows ← query (fun s => map (fun a => (a, device_name s a)) (merge_sort alloc_le (allocs s)));
  mret (map (fun x : Allocation * string => mkAllocationView (al_ip x.1) x.2 (al_method x.1) (ipam_rfc3339 (al_allocated_at x.1)))
          (List.filter (fun x : Allocation * string => inside rng x.1) rows)).

(** ** The handlers *)

Definition ipamConfigured (k : Registry -> IM (reply nbody)) : IM (reply nbody) :=
  match reg with None => mret (Problem 503 "ipam not configured") | Some r => k r end.

(** [_, _ = s.cfg.Store.AppendAudit(...)] *)
Definition append_audit (actor action target details : string) : IM unit :=
  ignore (exec (fun s => ((), add_audit (mkAudit actor action target details) s))).

Definition handleNetblocks : IM (reply nbody) :=
  match reg with
  | None => mret (Reply 200 (NBo_Blocks [] poolString))
  | Some _ =>
      rows ← attempt NetblockRegistry.List;
      match rows with
      | Err _ => mret (Problem 500 "internal error")
      | Ok rows =>
          ips ← attempt allocationIPs;
          match ips with
          | Err _ => mret (Problem 500 "internal error")
          | Ok ips =>
              fresh ← attempt freshOverlayIPs;
              mret (match fresh with
                    | Err _ => Problem 500 "internal error"
                    | Ok fresh => Reply 200 (NBo_Blocks (map (block_view ips fresh) rows) poolString)
                    end)
          end
      end
  end.

Definition handleNetblockCreate (id : Identity) (body : option string) : IM (reply nbody) :=
  requirePerm id PermIPAMManage (withStepUp freshness id (ipamConfigured (fun r =>
    match readJSON (il_create lib) (mkNbCreate "" "" "") body with
    | None => mret (Problem 400 "bad request")
    | Some b =>
        if decide (nc_Name b = "") then mret (Problem 400 "name required")
        else match ParsePrefix (nc_CIDR b) with
        | None => mret (Problem 400 "invalid cidr")
        | Some cidr =>
            row ← attempt (NetblockRegistry.Add r (nc_Name b) cidr (nc_Description b) (id_Principal id));
            match row with
            | Err e => mret (mapNetblockErr e)
            | Ok row =>
                _ ← append_audit (id_Principal id) "netblock-create" (nb_name row) ("cidr=" +:+ nb_cidr row);
                v ← netblockView row;
                mret (Reply 201 (NBo_Block v))
            end
        end
    end))).

Definition handleNetblockUpdate (id : Identity) (name : string) (body : option string) : IM (reply nbody) :=
  requirePerm id PermIPAMManage (withStepUp freshness id (ipamConfigured (fun r =>
    match readJSON (il_patch lib) (mkNbPatch None None) body with
    | None => mret (Problem 400 "bad request")
    | Some b =>
        cur ← attempt (NetblockRegistry.Get name);
        match cur with
        | Err e => mret (mapNetblockErr e)
        | Ok cur =>
            match (match np_CIDR b with None => Some (nb_Prefix cur) | Some c => ParsePrefix c end) with
            | None => mret (Problem 400 "invalid cidr")
            | Some cidr =>
                row ← attempt (NetblockRegistry.Update r name cidr (default (nb_description cur) (np_Description b)) (id_Principal id));
                match row with
                | Err e => mret (mapNetblockErr e)
                | Ok row =>
                    _ ← append_audit (id_Principal id) "netblock-update" (nb_name row) ("cidr=" +:+ nb_cidr row);
                    v ← netblockView row;
                    mret (Reply 200 (NBo_Block v))
                end
            end
        end
    end))).

Definition handleNetblockRemove (id : Identity) (name : string) : IM (reply nbody) :=
  requirePerm id PermIPAMManage (withStepUp freshness id (ipamConfigured (fun r =>
    res ← attempt (NetblockRegistry.Remove r name (id_Principal id));
    match res with
    | Err e => mret (mapNetblockErr e)
    | Ok _ => _ ← append_audit (id_Principal id) "netblock-remove" name ""; mret (Reply 200 (NBo_Removed name))
    end))).

Definition handleNetblockSuggest (prefix_ : string) : IM (reply nbody) :=
  ipamConfigured (fun r =>
    let prefix := queryInt prefix_ 0 0 32 in
    if bool_decide (prefix_ = "") || (prefix =? 0) then mret (Problem 400 "prefix required")
    else p ← attempt (RegistrySuggest r prefix);
         mret (match p with Ok p => Reply 200 (NBo_Suggest prefix (PrefixString p)) | Err e => mapNetblockErr e end)).

Definition handleIPAMAllocations (name : string) : IM (reply nbody) :=
  ipamConfigured (fun r =>
    if decide (name = "") then mret (Problem 400 "netblock required")
    else
      row ← attempt (NetblockRegistry.Get name);
      match row with
      | Err e => mret (mapNetblockErr e)
      | Ok row =>
          rows ← attempt (allocationsIn (nb_Prefix row));
          mret (match rows with Err _ => Problem 500 "internal error" | Ok l => Reply 200 (NBo_Allocations name (nb_cidr row) l) end)
      end).
End handlers.

(** ** What the panes count *)

Lemma block_tally_counts p fresh ips acc : tally_block p fresh ips acc =
  (acc.1 + Z.of_nat (length (List.filter (fun a => IsValid p && Contains p a) ips)),
   acc.2 + Z.of_nat (length (List.filter (fun a => bool_decide (a ∈ fresh)) (List.filter (fun a => IsValid p && Contains p a) ips)))).
Proof.
  revert acc. induction ips as [|a ips IH]; intros [x y]; cbn; [f_equal; lia|]. rewrite IH. destruct (IsValid p && Contains p a); cbn [fst snd length List.filter]; [|done].
  destruct (bool_decide (a ∈ fresh)); cbn [length]; f_equal; lia.
Qed.

Lemma capacity_mirrors p : IsValid p = true -> netblockHostCapacity p = hostCapacity p.
Proof. intros H. unfold netblockHostCapacity, hostCapacity. by rewrite H. Qed.

(** One block: the console's numbers are the gauges of the metrics. *)
Lemma view_is_gauge lib ips fresh row : IsValid (nb_Prefix row) = true ->
  let v := block_view lib ips fresh row in gauges ips fresh (nb_name row, nb_Prefix row) = Some (nv_Name v, nv_Capacity v, nv_Allocated v, nv_Used v).
Proof.
  intros Hv v. subst v. unfold gauges, block_view. cbn [fst snd]. rewrite Hv. cbn [negb]. rewrite block_tally_counts. cbn [fst snd nv_Name nv_Capacity nv_Allocated nv_Used].
  rewrite capacity_mirrors, Hv by done. cbn [andb]. by rewrite !Z.add_0_l.
Qed.

Lemma handleNetblocks_run lib pool r staleAfter t s :
  run t (handleNetblocks lib pool (Some r) staleAfter) s =
  (Ok (Reply 200 (NBo_Blocks (map (block_view lib (live_at t (allocs s)) (omap ParseAddr (List.filter (fun h : string * Z => t - staleAfter <=? h.2) (heartbeats s)).*1)) (rev (netblocks s)))
     (poolString pool))), s).
Proof. reflexivity. Qed.

(** The console and the metrics agree. At any time, in any plan, each block the console lists
    is shown with exactly the capacity, allocated and used counts that the scrape at that
    time exports for its name, and the used addresses are among the allocated ones. *)
Theorem console_matches_metrics lib pool r staleAfter t s row : plan_inv r s -> row ∈ netblocks s ->
  exists views gs s', run t (handleNetblocks lib pool (Some r) staleAfter) s = (Ok (Reply 200 (NBo_Blocks views (poolString pool))), s) /\
    run t (Collect NetblockCIDRs staleAfter) s = (Ok gs, s') /\
    exists v, v ∈ views /\ nv_Name v = nb_name row /\ nv_Used v <= nv_Allocated v /\ (nv_Name v, nv_Capacity v, nv_Allocated v, nv_Used v) ∈ gs.
Proof.
  intros [Hok Hco] Hin. set (ips := live_at t (allocs s)). set (fresh := omap ParseAddr (List.filter (fun h : string * Z => t - staleAfter <=? h.2) (heartbeats s)).*1).
  assert (Hc : exists s', run t (Collect NetblockCIDRs staleAfter) s = (Ok (omap (gauges ips fresh) (omap (fun kv : string * Netblock =>
      let p := nb_Prefix kv.2 in if IsValid p then Some (kv.1, p) else None) (map_to_list (c_rows (build_cache (rev (netblocks s))))))), s')).
  { unfold run, Collect, NetblockCIDRs, snapshot, LiveAddrs, freshAddrs, NetblockRegistry.List, attempt, mem, query, mbind, M_bind, now, mret, M_ret. cbn [fault quiet interfere clk].
    destruct (cache s) as [c|] eqn:Ec; cbn; [rewrite (Hco c Ec); eexists; reflexivity|]. rewrite Z.eqb_refl. eexists. reflexivity. }
  destruct Hc as [s' Hc]. do 3 eexists. split; [apply handleNetblocks_run|]. split; [exact Hc|]. fold ips fresh. exists (block_view lib ips fresh row).
  assert (Hv : IsValid (nb_Prefix row) = true) by (eapply row_ok_valid, po_rows; done).
  assert (Hg := view_is_gauge lib ips fresh row Hv). cbn zeta in Hg. split_and!.
  - apply list_elem_of_fmap_2, list_elem_of_In. rewrite <- in_rev. by apply list_elem_of_In.
  - unfold block_view. by destruct (tally_block _ _ _ _).
  - unfold block_view. rewrite block_tally_counts. cbn. pose proof (filter_length_le (fun a => bool_decide (a ∈ fresh)) (List.filter (fun a => IsValid (nb_Prefix row) && Contains (nb_Prefix row) a) ips)). lia.
  - apply list_elem_of_omap. exists (nb_name row, nb_Prefix row). split; [|exact Hg]. apply list_elem_of_omap. exists (nb_name row, row). cbn. rewrite Hv. split; [|done].
    apply elem_of_map_to_list. destruct (plan_cache r (netblocks s) (nb_name row) Hok) as [-> _].
    destruct (find_first_is_Some (named_row (nb_name row)) (netblocks s) row Hin) as [x Hx]; [by apply bool_decide_eq_true|]. rewrite Hx. f_equal.
    apply find_named in Hx as [Hx Hn]. by eapply names_unique; [apply Hok|..].
Qed.

(** ** Requests keep the plan *)

Lemma parse_fields_octets s val dig fs l : 0 <= val <= 255 -> Forall (fun x => 0 <= x <= 255) fs -> parse_fields s val dig fs = Some l -> Forall (fun x => 0 <= x <= 255) l.
Proof.
  revert val dig fs. induction s as [|c s IH]; intros val dig fs Hv Hf; cbn.
  - destruct (_ || _); [done|]. intros [= <-]. change (rev fs ++ [val]) with (rev (val :: fs)). apply Forall_forall. intros x Hx%list_elem_of_In%in_rev%list_elem_of_In. revert x Hx. apply Forall_forall. by constructor.
  - destruct (digit c) as [d|] eqn:Ed.
    + destruct (_ && _); [done|]. destruct (255 <? _) eqn:E; [done|]. bool_split. apply IH; [|done]. unfold digit in Ed. destruct (_ && _) eqn:Er; [|done]. bool_split. injection Ed as <-. lia.
    + destruct (decide _); [|done]. destruct (_ || _); [done|]. apply IH; [lia|by constructor].
Qed.

Lemma ParsePrefix_wf s p : ParsePrefix s = Some p -> prefix_wf p.
Proof.
  unfold ParsePrefix, ParseAddr. destruct (cut_last _ s) as [[ips bs]|]; [|done]. destruct (parse_fields ips 0 0 []) as [l|] eqn:El; [|done].
  apply parse_fields_octets in El; [|lia|constructor]. destruct l as [|a [|b [|c [|d [|]]]]]; try done. apply Forall_cons in El as [Ha [Hb [Hc [Hd _]%Forall_cons]%Forall_cons]%Forall_cons].
  destruct (negb _); [done|]. destruct (Atoi bs) as [bits|]; [|done]. destruct (_ || _) eqn:E; [done|]. apply orb_false_iff in E as [E1 E2]. bool_split. intros [= <-]. cbn in E2.
  unfold PrefixFrom. split; cbn; [unfold addr4_ok; lia|]. split; [repeat case_match; lia|done].
Qed.

Section requests.
Context (lib : IpamLib) (pool : Prefix) (r : Registry) (staleAfter freshness : Z) `{!ListerOK r}.

(** A reply that leaves the plan as it was, or moved by one step of the registry. *)
Definition replans (s s' : Store) : Prop :=
  allocs s' = allocs s /\ cache_ok s' /\ (netblocks s' = netblocks s \/ exists t, plan_step r (live_of r t s) (netblocks s) (netblocks s')).

Lemma replans_same s : cache_ok s -> replans s s. Proof. intros H. by split_and!; [| |left]. Qed.

Lemma refines_replans {A} s (res : result err A) s' : refines r s res s' -> replans s s'.
Proof. intros (H1 & H2 & [H3|[_ H3]]); split_and!; auto. Qed.

(** Reading and auditing move nothing of the plan. *)
Lemma reads_alone row s : solo (netblockView lib staleAfter row) (fun o s' => s' = s /\ exists v, o = Ok v) s.
Proof.
  unfold netblockView, allocationIPs, freshOverlayIPs. wp_step. wp_step. wp_step. wp_step. wp_step. wp_step; [wp_step; by split; [|eexists]|]. wp_step. wp_step. wp_step.
  wp_step. wp_step. wp_step. wp_step; wp_step; [by split; [|eexists]|]. wp_step. by split; [|eexists].
Qed.

Lemma report_alone a b c row f s s0 : replans s0 s ->
  solo (_ ← append_audit a b (nb_name row) c; v ← netblockView lib staleAfter row; mret (f v : reply nbody)) (fun _ s' => replans s0 s') s.
Proof.
  intros Hs. unfold append_audit. wp_step. wp_step. wp_step; [|split; [done|]]; wp_step; (eapply wp_mono; [apply reads_alone|]); intros o s' _ [-> [v ->]]; by wp_step.
Qed.

Lemma guarded_alone id (k : Registry -> M Store err (reply nbody)) s : freshness < 2 ^ 63 - 1 -> cache_ok s -> solo (k r) (fun _ s' => replans s s') s ->
  solo (requirePerm id PermIPAMManage (withStepUp freshness id (ipamConfigured (Some r) k))) (fun _ s' => replans s s') s.
Proof. intros Hf Hc Hk. by apply guarded_wp; [done|apply replans_same..|]. Qed.

(** Every address-plan request, alone with any faults, is at most one step of the plan: a
    fitting block carved, an unprotected one moved without stranding a live address, or an empty
    one dropped; the allocations stay, and so do the plan's invariants. *)
Theorem ipam_requests_keep_the_plan id name body s : freshness < 2 ^ 63 - 1 -> plan_inv r s ->
  let keeps m := solo m (fun (_ : result err (reply nbody)) s' => replans s s' /\ plan_inv r s') s in
  keeps (handleNetblockCreate lib (Some r) staleAfter freshness id body) /\ keeps (handleNetblockUpdate lib (Some r) staleAfter freshness id name body) /\
  keeps (handleNetblockRemove (Some r) freshness id name).
Proof.
  intros Hf [Hok Hco] keeps.
  assert (Hinv : forall m, solo m (fun (_ : result err (reply nbody)) s' => replans s s') s -> keeps m).
  { intros m Hm. eapply wp_mono; [exact Hm|]. intros o s' _ Hr. split; [done|]. destruct Hr as (_ & Hc & [Hn|[t Hp]]); (split; [|done]); [by rewrite Hn|by eapply plan_step_ok]. }
  split_and!; apply Hinv, guarded_alone; try done.
  - destruct (readJSON _ _ body) as [b|]; [|wp_step; by apply replans_same]. destruct (decide _); [wp_step; by apply replans_same|].
    destruct (ParsePrefix _) as [cidr|] eqn:Ep; [|wp_step; by apply replans_same]. apply wp_bind, wp_attempt. eapply wp_mono; [apply Add_refines; [by eapply ParsePrefix_wf|done]|].
    intros [row|e] s' _ Hr%refines_replans; [by apply report_alone|by wp_step].
  - destruct (readJSON _ _ body) as [b|]; [|wp_step; by apply replans_same]. apply wp_bind, wp_attempt, solo_Get; [wp_step; by apply replans_same|].
    destruct (find_first _ _) as [cur|] eqn:Ef; [|wp_step; by apply replans_same]. destruct (find_named _ _ _ Ef) as [Hin _].
    assert (Hwf : forall cidr, match np_CIDR b with None => Some (nb_Prefix cur) | Some c => ParsePrefix c end = Some cidr -> prefix_wf cidr).
    { intros cidr. destruct (np_CIDR b); [apply ParsePrefix_wf|]. intros [= <-]. destruct (row_ok_prefix r cur (po_rows _ _ Hok cur Hin)) as [Hm _].
      apply masked4_valid4 in Hm as (v & bits & -> & Hv & Hb). split_and!; cbn; done || lia. }
    destruct (match np_CIDR b with None => _ | Some _ => _ end) as [cidr|] eqn:Ec; [|wp_step; by apply replans_same]. specialize (Hwf cidr eq_refl).
    apply wp_bind, wp_attempt. eapply wp_mono; [by apply Update_refines|]. intros [row|e] s' _ Hr%refines_replans; [by apply report_alone|by wp_step].
  - apply wp_bind, wp_attempt. eapply wp_mono; [by apply Remove_refines|]. intros [row|e] s' _ Hr%refines_replans; [|by wp_step].
    unfold append_audit. wp_step. wp_step. wp_step; [|split; [done|]]; by wp_step.
Qed.
End requests.

(** ** Editing a description *)

Lemma own_range_fits r rows row : plan_ok r rows -> row ∈ rows -> refuse_cidr r rows (nb_Prefix row) (nb_name row) = None /\ Masked (nb_Prefix row) = nb_Prefix row /\ nb_cidr row = PrefixString (nb_Prefix row).
Proof.
  intros Hok Hin. pose proof (po_rows _ _ Hok row Hin) as Hrow. destruct (row_ok_prefix r row Hrow) as (Hm & Hc & Hp & Hr). assert (HM : Masked (nb_Prefix row) = nb_Prefix row) by by apply Masked_id.
  split; [|by split]. unfold refuse_cidr. rewrite HM, (row_ok_valid r row Hrow), Hp. assert (H4 : Is4 (p_ip (nb_Prefix row)) = true) by (by apply masked4_valid4 in Hm as (v & bits & -> & _)).
  rewrite H4. cbn [negb orb]. assert (E1 : existsb (Contains (nb_Prefix row)) (r_reserved r) = false) by (apply existsb_elem_false; auto). rewrite E1.
  assert (E2 : existsb (row_overlaps (nb_Prefix row) (nb_name row)) rows = false).
  { apply existsb_elem_false. intros y Hy. unfold row_overlaps. destruct (decide _) as [|Hne]; [done|]. rewrite (po_disjoint _ _ Hok row y) by (done || congruence). by rewrite andb_false_r || case_match. }
  by rewrite E2.
Qed.

(** A request that names no range keeps them all: alone, an edit of the description never
    moves a block, and is never refused for its range: not as overlapping, outside the pool, or
    stranding the hosts that live in it. *)
Theorem description_edit_keeps_ranges lib r staleAfter freshness id name body b s `{!ListerOK r} : freshness < 2 ^ 63 - 1 -> plan_ok r (netblocks s) ->
  readJSON (il_patch lib) (mkNbPatch None None) body = Some b -> np_CIDR b = None ->
  solo (handleNetblockUpdate lib (Some r) staleAfter freshness id name body) (fun o s' =>
    map (fun n => (nb_name n, nb_cidr n)) (netblocks s') = map (fun n => (nb_name n, nb_cidr n)) (netblocks s) /\
    forall st title, o = Ok (Problem st title) -> (st, title) ∈ [(403, "forbidden"); (404, "not found"); (409, "protected"); (500, "internal error")]) s.
Proof.
  intros Hf Hok Hb Hn. apply guarded_wp; [done|split; [done|]; intros st title [= <- <-]; left|by split|]. intros _ _. unfold ipamConfigured. rewrite Hb.
  assert (H500 : (500, "internal error") ∈ [(403, "forbidden"); (404, "not found"); (409, "protected"); (500, "internal error")]) by (do 3 right; left).
  apply wp_bind, wp_attempt, solo_Get; [wp_step; split; [done|]; by intros st title [= <- <-]|].
  destruct (find_first _ _) as [cur|] eqn:Ef; [|wp_step; split; [done|]; intros st title [= <- <-]; right; left]. destruct (find_named _ _ _ Ef) as [Hin Hname]. rewrite Hn.
  destruct (own_range_fits r _ cur Hok Hin) as (Hfits & HM & Hc). rewrite Hname in Hfits.
  apply wp_bind, wp_attempt. eapply wp_mono; [by apply Update_run|]. cbn. intros res s' _ [[-> ->]|(t & Ht)]; [wp_step; split; [done|]; by intros st title [= <- <-]|].
  unfold refuse_update in Ht. rewrite Ef, Hfits, HM in Ht. destruct (nb_protected cur); [destruct Ht as [-> ->]; wp_step; split; [done|]; intros st title [= <- <-]; do 2 right; left|].
  assert (Es : existsb (strands (nb_Prefix cur) (nb_Prefix cur)) (live_of r t s) = false).
  { apply existsb_elem_false. intros a _. unfold strands. by destruct (IsValid (nb_Prefix cur)), (Contains (nb_Prefix cur) a). }
  rewrite Es in Ht. destruct Ht as (row & Hrow & -> & ->). injection Hrow as <-.
  assert (Hrows : map (fun n => (nb_name n, nb_cidr n)) (with_block name (PrefixString (nb_Prefix cur)) (Some (default (nb_description cur) (np_Description b))) (netblocks s)) =
    map (fun n => (nb_name n, nb_cidr n)) (netblocks s)).
  { unfold with_block. rewrite map_map. apply map_ext_in. intros n Hnin%list_elem_of_In. destruct (named_row name n) eqn:En; [|done]. unfold named_row in En. bool_split. cbn. f_equal.
    assert (n = cur) as -> by (eapply names_unique; [apply Hok|done|done|congruence]). by rewrite <- Hc. }
  unfold append_audit. wp_step. wp_step. wp_step; [|split; [done|]]; wp_step; (eapply wp_mono; [apply reads_alone|]); intros o s' _ [-> [v ->]]; wp_step; (split; [exact Hrows|done]).
Qed.

(** ** A small plan *)

Module ipam_console.
Definition lib : IpamLib := mkIpamLib (fun _ => Some (mkNbCreate "db" "10.44.2.0/24" "databases")) (fun _ => Some (mkNbPatch None (Some "frontend"))) (fun _ => "") (fun _ _ => "").
Definition ops : Identity := mkIdentity "olga" [RoleOperator] None.
Definition body : option string := Some "{}".
Definition web : Netblock := mkNetblock 3 "web" "10.44.1.0/27" KindNamed "web tier" false 7 "alice".

Lemma console_matches_metrics_witness :
  exists views gs s', run 9 (handleNetblocks lib demo_pool (Some demo_reg) 100) demo_store = (Ok (Reply 200 (NBo_Blocks views (poolString demo_pool))), demo_store) /\
    run 9 (Collect NetblockCIDRs 100) demo_store = (Ok gs, s') /\
    exists v, v ∈ views /\ nv_Name v = "web" /\ nv_Used v <= nv_Allocated v /\ (nv_Name v, nv_Capacity v, nv_Allocated v, nv_Used v) ∈ gs.
Proof.
  apply (console_matches_metrics lib demo_pool demo_reg 100 9 demo_store web demo_inv). vm_compute. right. right. left.
Defined.

(** Two requests on the block web at once: one moves it to another range and succeeds, the
    other edits only its description. The second read the row first and writes that range back:
    the move is lost, although a request without a range is to leave it unchanged. *)
Definition mover : Env Store := mkEnv (fun _ => 9) (fun _ => false)
  (fun k s => if decide (k = 1%nat) then (run 8 (NetblockRegistry.Update demo_reg "web" (mkPrefix (ip4 10 44 3 0) 27) "web tier" "bob") s).2 else s).
Example description_edit_reverts_a_move :
  (run 8 (NetblockRegistry.Update demo_reg "web" (mkPrefix (ip4 10 44 3 0) 27) "web tier" "bob") demo_store).1 = Ok (mkNetblock 3 "web" "10.44.3.0/27" KindNamed "web tier" false 7 "alice") /\
  let '(o, _, s') := handleNetblockUpdate lib (Some demo_reg) 100 0 ops "web" body mover 0%nat demo_store in
  (exists v, o = Ok (Reply 200 (NBo_Block v)) /\ nv_CIDR v = "10.44.1.0/27") /\ find_first (named_row "web") (netblocks s') = Some (mkNetblock 3 "web" "10.44.1.0/27" KindNamed "frontend" false 7 "alice").
Proof. split; [vm_compute; reflexivity|]. vm_compute. split; [by eexists|done]. Qed.
End ipam_console.
