(* ===== verification/SsoPortal.v ===== *)
(** * internal/gateway/ssoportal.go: the SSO enrollment portal

    The gateway runs the identity provider's browser flow and hands the laptop an assertion
    bound to its key. The state is the in-memory session store; each handler touches it once,
    under its mutex, so a handler is one step. The SAML library, [url.Parse], [net.ParseIP],
    the cryptography and the codecs are parameters; the random state token is an argument.
    Times are unix nanoseconds; every reading of the clock is an argument of its own. *)

From S2P Require Import Prelude Db Bytes GoStrings Nonce Gateway AdminAuth Jws.
From stdpp Require Import prelude strings list gmap relations.
From Stdlib Require Import ZArith Lia.
Open Scope Z_scope.

Definition defaultSSOSessionTTL : Z := 5 * 60 * 1000000000.
Definition defaultAssertionTTL : Z := 3 * 60 * 1000000000.
Definition maxPubkeyHashLen : Z := 128.
Definition maxLoopbackRedirect : Z := 512.
Definition ssoSessionStateMaxLen : Z := 128.

(** What the code reads of a [*url.URL]. *)
Record URL : Type := mkURL { u_Scheme : string; u_User : bool; u_Hostname : string }.

Record ssoSession : Type := mkSession { ss_pubkeyHash : string; ss_nonce : string; ss_redirect : string; ss_requestID : string; ss_expires : Z }.
Abbreviation ssoSessions := (gmap string ssoSession).

Record PortalLib (Priv : Type) : Type := mkPortalLib {
  pl_urlParse : string -> option URL;
  pl_loopbackIP : string -> bool;                          (* net.ParseIP(host) is a loopback address *)
  pl_withQuery : string -> list (string * string) -> option string;
  pl_hmac : string -> string -> string;
  pl_sign : Priv -> Assertion -> option string }.         (* ssoassert.Sign *)
Arguments mkPortalLib {Priv}. Arguments pl_urlParse {Priv}. Arguments pl_loopbackIP {Priv}. Arguments pl_withQuery {Priv}.
Arguments pl_hmac {Priv}. Arguments pl_sign {Priv}.

(** [SSOConfig]; [None] is a nil pointer. *)
Record SSOConfig (Priv : Type) : Type := mkSSOConfig {
  so_SAML : option SAML; so_SigningKey : option Priv; so_Issuer : string; so_SessionTTL : Z; so_AssertionTTL : Z }.
Arguments mkSSOConfig {Priv}. Arguments so_SAML {Priv}. Arguments so_SigningKey {Priv}. Arguments so_Issuer {Priv}.
Arguments so_SessionTTL {Priv}. Arguments so_AssertionTTL {Priv}.

(** An error, the redirect to the provider, and the redirect to Pilot, with the assertion it carries. *)
Inductive preply : Type := P_Error (code : string) | P_IdP (location : string) | P_Pilot (location : string) (a : Assertion).

Definition or_ttl (ttl dflt : Z) : Z := if ttl <=? 0 then dflt else ttl.

(** ** The session store *)

Definition gcLocked (now : Z) (m : ssoSessions) : ssoSessions := filter (fun kv => now <= ss_expires kv.2) m.
(** [now] dates the expiry, [swept] is read under the lock for the sweep. *)
Definition put (now swept ttl : Z) (state : string) (sess : ssoSession) (m : ssoSessions) : ssoSessions :=
  <[state := mkSession (ss_pubkeyHash sess) (ss_nonce sess) (ss_redirect sess) (ss_requestID sess) (now + ttl)]> (gcLocked swept m).
Definition take (now : Z) (state : string) (m : ssoSessions) : option ssoSession * ssoSessions :=
  match m !! state with
  | None => (None, m)
  | Some sess => (if ss_expires sess <? now then None else Some sess, delete state m)
  end.

Section portal.
Context {Priv : Type} (lib : PortalLib Priv) (nonces : Keyring) (cfg : option (SSOConfig Priv)).

Definition enabled : option (SSOConfig Priv * SAML * Priv) :=
  c ← cfg; saml ← so_SAML c; key ← so_SigningKey c; Some (c, saml, key).

Definition isLoopbackRedirect (raw : string) : bool :=
  match pl_urlParse lib raw with
  | None => false
  | Some u =>
      if negb (bool_decide (u_Scheme u = "http")) && negb (bool_decide (u_Scheme u = "https")) then false
      else if u_User u then false
      else if decide (u_Hostname u = "localhost") then true
      else pl_loopbackIP lib (u_Hostname u)
  end.

(** GET /v1/sso/start; the clock is read to verify the nonce, to date the session and to sweep the store. *)
Definition handleSSOStart (verified now swept : Z) (state : string) (q : list (string * string)) (m : ssoSessions) : preply * ssoSessions :=
  match enabled with
  | None => (P_Error CodeNotFound, m)
  | Some (c, saml, _) =>
      let pubkeyHash := param q "pubkey_hash" in
      let nonceVal := param q "nonce" in
      let redirect := param q "redirect" in
      if bool_decide (pubkeyHash = "") || (maxPubkeyHashLen <? len pubkeyHash) then (P_Error CodeInvalidRequest, m)
      else if decide (nonceVal = "") then (P_Error CodeInvalidRequest, m)
      else if bool_decide (redirect = "") || (maxLoopbackRedirect <? len redirect) then (P_Error CodeInvalidRequest, m)
      else if negb (isLoopbackRedirect redirect) then (P_Error CodeInvalidRequest, m)
      else match Nonce.Verify (pl_hmac lib) nonces (verified / second) nonceVal pubkeyHash with
           | Err _ => (P_Error CodeInvalidNonce, m)
           | Ok _ =>
               match AuthnRedirect saml state with
               | None => (P_Error CodeInternal, m)
               | Some (url, requestID) =>
                   (P_IdP url, put now swept (or_ttl (so_SessionTTL c) defaultSSOSessionTTL) state (mkSession pubkeyHash nonceVal redirect requestID 0) m)
               end
           end
  end.

(** POST /v1/sso/acs; [None] is a form that does not parse. The session is taken at [taken], the
    assertion dated at [now]. *)
Definition handleSSOACS (taken now : Z) (form : option (list (string * string))) (m : ssoSessions) : preply * ssoSessions :=
  match enabled with
  | None => (P_Error CodeNotFound, m)
  | Some (c, saml, key) =>
      match form with
      | None => (P_Error CodeInvalidRequest, m)
      | Some form =>
          let state := param form "RelayState" in
          if bool_decide (state = "") || (ssoSessionStateMaxLen <? len state) then (P_Error CodeInvalidRequest, m)
          else match take taken state m with
               | (None, m') => (P_Error CodeInvalidRequest, m')
               | (Some sess, m') =>
                   match ValidateACS saml form (ss_requestID sess) with
                   | None => (P_Error CodeInvalidSignature, m')
                   | Some subj =>
                       let issuer := if decide (so_Issuer c = "") then sm_Name saml else so_Issuer c in
                       let a := mkAssertion (su_ID subj) (su_Email subj) issuer (su_Groups subj) (ss_pubkeyHash sess) (ss_nonce sess)
                                  (now / second) ((now + or_ttl (so_AssertionTTL c) defaultAssertionTTL) / second) in
                       match pl_sign lib key a with
                       | None => (P_Error CodeInternal, m')
                       | Some token =>
                           match pl_withQuery lib (ss_redirect sess) [("assertion", token); ("state", state)] with
                           | None => (P_Error CodeInternal, m')
                           | Some loc => (P_Pilot loc a, m')
                           end
                       end
                   end
               end
      end
  end.

(** ** The portal over time

    [started]: the sessions put, with the token and the times of the nonce check and of the
    dating; [issued]: the assertions handed out, with the token of their session, the times the
    session was taken and the assertion dated, and the form that was posted. State tokens are
    fresh; nothing is assumed of the clocks. *)
Record started : Type := mkStarted { st_state : string; st_verified : Z; st_at : Z; st_query : list (string * string); st_sess : ssoSession }.
Record issued : Type := mkIssued { is_state : string; is_taken : Z; is_at : Z; is_form : list (string * string); is_loc : string; is_a : Assertion }.
Record Portal : Type := mkPortal { po_m : ssoSessions; po_started : list started; po_issued : list issued }.
Implicit Types (p : Portal).

Inductive portal_step : Portal -> Portal -> Prop :=
| pp_start verified now swept state q p url sess m : state ∉ (st_state <$> po_started p) ->
    handleSSOStart verified now swept state q (po_m p) = (P_IdP url, m) -> m !! state = Some sess ->
    portal_step p (mkPortal m (mkStarted state verified now q sess :: po_started p) (po_issued p))
| pp_start_refused verified now swept state q p code m : handleSSOStart verified now swept state q (po_m p) = (P_Error code, m) -> portal_step p (mkPortal m (po_started p) (po_issued p))
| pp_acs taken now form p loc a m : handleSSOACS taken now (Some form) (po_m p) = (P_Pilot loc a, m) ->
    portal_step p (mkPortal m (po_started p) (mkIssued (param form "RelayState") taken now form loc a :: po_issued p))
| pp_acs_refused taken now form p code m : handleSSOACS taken now form (po_m p) = (P_Error code, m) -> portal_step p (mkPortal m (po_started p) (po_issued p)).

(** What a start that was accepted had proved. *)
Definition vetted (x : started) : Prop :=
  Nonce.Verify (pl_hmac lib) nonces (st_verified x / second) (ss_nonce (st_sess x)) (ss_pubkeyHash (st_sess x)) = Ok () /\
  isLoopbackRedirect (ss_redirect (st_sess x)) = true /\
  (exists c saml key, enabled = Some (c, saml, key) /\ ss_expires (st_sess x) = st_at x + or_ttl (so_SessionTTL c) defaultSSOSessionTTL).

(** What an assertion handed out rests on. *)
Definition bound (x : started) (i : issued) : Prop :=
  as_PubkeyHash (is_a i) = ss_pubkeyHash (st_sess x) /\ as_Nonce (is_a i) = ss_nonce (st_sess x) /\
  is_taken i <= ss_expires (st_sess x) /\ as_IssuedAt (is_a i) = is_at i / second /\
  exists c saml key subj token, enabled = Some (c, saml, key) /\ as_ExpiresAt (is_a i) = (is_at i + or_ttl (so_AssertionTTL c) defaultAssertionTTL) / second /\
    ValidateACS saml (is_form i) (ss_requestID (st_sess x)) = Some subj /\
    as_Subject (is_a i) = su_ID subj /\ as_IdPGroups (is_a i) = su_Groups subj /\
    pl_sign lib key (is_a i) = Some token /\
    pl_withQuery lib (ss_redirect (st_sess x)) [("assertion", token); ("state", is_state i)] = Some (is_loc i).

Definition portal_inv p : Prop :=
  (forall x, x ∈ po_started p -> vetted x) /\
  (forall state sess, po_m p !! state = Some sess -> state ∉ (is_state <$> po_issued p) /\
     exists x, x ∈ po_started p /\ st_state x = state /\ st_sess x = sess) /\
  NoDup (is_state <$> po_issued p) /\
  (forall i, i ∈ po_issued p -> exists x, x ∈ po_started p /\ st_state x = is_state i /\ bound x i).

Lemma take_Some now state m sess m' : take now state m = (Some sess, m') -> m !! state = Some sess /\ now <= ss_expires sess /\ m' = delete state m.
Proof. unfold take. destruct (m !! state) as [x|]; [|done]. destruct (_ <? _) eqn:E; [done|]. intros [= <- <-]. bool_split. done. Qed.
Lemma take_sub now state m r m' : take now state m = (r, m') -> m' ⊆ m.
Proof. unfold take. destruct (m !! state); intros [= _ <-]; [apply delete_subseteq|done]. Qed.

(** The branch of a start that puts a session. *)
Lemma start_inv verified now swept state q m url m' : handleSSOStart verified now swept state q m = (P_IdP url, m') ->
  exists x, m' !! state = Some (st_sess x) /\ vetted x /\ st_state x = state /\ st_verified x = verified /\ st_at x = now /\ forall k, k <> state -> m' !! k = gcLocked swept m !! k.
Proof.
  unfold handleSSOStart. destruct enabled as [[[c saml] key]|] eqn:He; [|done]. destruct (_ || _); [done|]. destruct (decide _); [done|].
  destruct (_ || _); [done|]. destruct (isLoopbackRedirect _) eqn:Hlb; [|done]. cbn [negb].
  destruct (Nonce.Verify _ _ _ _ _) as [[]|] eqn:Hn; [|done]. destruct (AuthnRedirect saml state) as [[u rid]|]; [|done]. intros [= _ <-].
  exists (mkStarted state verified now q (mkSession (param q "pubkey_hash") (param q "nonce") (param q "redirect") rid (now + or_ttl (so_SessionTTL c) defaultSSOSessionTTL))). unfold put. split; [apply lookup_insert_eq|].
  split; [|split_and!; [done..|intros k Hk; by rewrite lookup_insert_ne]]. split; [exact Hn|]. split; [exact Hlb|]. by exists c, saml, key.
Qed.
Lemma start_refused verified now swept state q m code m' : handleSSOStart verified now swept state q m = (P_Error code, m') -> m' = m.
Proof. unfold handleSSOStart. intros H. repeat (case_match; simplify_eq; try done). Qed.

(** The branch of a callback that hands out an assertion. *)
Lemma acs_inv taken now form m loc a m' : handleSSOACS taken now (Some form) m = (P_Pilot loc a, m') ->
  exists sess, m !! param form "RelayState" = Some sess /\ m' = delete (param form "RelayState") m /\
    forall x, st_sess x = sess -> bound x (mkIssued (param form "RelayState") taken now form loc a).
Proof.
  unfold handleSSOACS. destruct enabled as [[[c saml] key]|] eqn:He; [|done]. destruct (_ || _); [done|].
  destruct (take _ _ _) as [[sess|] m1] eqn:Ht; [|done]. apply take_Some in Ht as (Hm & Hexp & ->).
  destruct (ValidateACS _ _ _) as [subj|] eqn:Hv; [|done]. destruct (pl_sign _ _ _) as [token|] eqn:Hs; [|done].
  destruct (pl_withQuery _ _ _) as [l|] eqn:Hl; [|done]. intros [= <- <- <-]. exists sess. split; [done|]. split; [done|].
  intros x <-. split_and!; [done..|]. exists c, saml, key, subj, token. done.
Qed.
Lemma acs_refused taken now form m code m' : handleSSOACS taken now form m = (P_Error code, m') -> m' ⊆ m.
Proof.
  unfold handleSSOACS. destruct enabled as [[[c saml] key]|]; [|intros [= _ <-]; done]. destruct form as [form|]; [|intros [= _ <-]; done].
  destruct (_ || _); [intros [= _ <-]; done|]. destruct (take _ _ _) as [r m1] eqn:Ht. apply take_sub in Ht.
  destruct r as [sess|]; [|by intros [= _ <-]]. destruct (ValidateACS _ _ _); [|by intros [= _ <-]]. destruct (pl_sign _ _ _); [|by intros [= _ <-]].
  destruct (pl_withQuery _ _ _); [done|by intros [= _ <-]].
Qed.

Lemma portal_sub p m : portal_inv p -> m ⊆ po_m p -> portal_inv (mkPortal m (po_started p) (po_issued p)).
Proof. intros (H1 & H2 & H3) Hs. split; [done|]. split; [|done]. cbn. intros state sess Hm. apply H2. by eapply lookup_weaken. Qed.

Lemma portal_step_inv p p' : portal_step p p' -> portal_inv p -> portal_inv p'.
Proof.
  destruct 1 as [verified now swept state q p url sess m Hfresh H Hm|verified now swept state q p code m H|taken now form p loc a m H|taken now form p code m H]; intros Hp.
  - apply start_inv in H as (x & Hx & Hvet & Hst & Hver & Hat & Hrest). rewrite Hm in Hx. injection Hx as ->. destruct Hp as (H1 & H2 & H3 & H4).
    set (x' := mkStarted state verified now q (st_sess x)). assert (Hvet' : vetted x') by (unfold vetted in *; by rewrite Hver, Hat in Hvet).
    split; [intros y [->|Hy]%elem_of_cons; auto|]. split; [|split; [done|]].
    + cbn. intros k sess Hk. destruct (decide (k = state)) as [->|Hne].
      * rewrite Hm in Hk. injection Hk as <-. split; [|exists x'; split; [constructor|done]].
        intros ([? ? ? ? ? ?] & E & Hi)%list_elem_of_fmap. cbn in E. subst. destruct (H4 _ Hi) as (y & Hy & Hys & _). cbn in Hys.
        apply Hfresh. rewrite <- Hys. by apply list_elem_of_fmap_2.
      * rewrite Hrest in Hk by done. unfold gcLocked in Hk. apply map_lookup_filter_Some in Hk as [Hk _].
        destruct (H2 k sess Hk) as (Hn & y & Hy & Hys). split; [done|]. exists y. split; [by constructor|done].
    + cbn. intros i Hi. destruct (H4 i Hi) as (y & Hy & Hb). exists y. split; [by constructor|done].
  - apply start_refused in H as ->. by apply portal_sub.
  - apply acs_inv in H as (sess & Hm & -> & Hb). destruct Hp as (H1 & H2 & H3 & H4). destruct (H2 _ _ Hm) as (Hn & x & Hx & Hxs & Hxe).
    split; [done|]. split; [|split].
    + cbn. intros k s' [Hne Hk]%lookup_delete_Some. destruct (H2 k s' Hk) as [Hn' Hy]. split; [|done]. rewrite not_elem_of_cons. done.
    + cbn. by constructor.
    + cbn. intros i [->|Hi]%elem_of_cons; [|by apply H4]. exists x. split; [done|]. split; [done|]. by apply Hb.
  - apply acs_refused in H. by apply portal_sub.
Qed.

(** C29: an assertion of the portal is bound to one device and handed out once: in every history
    with fresh state tokens, each assertion carries the key hash and the nonce of a session
    whose start proved that nonce fresh for that key, goes to that session's loopback redirect,
    names the subject of a response that answers that session's request, is dated by the
    portal's clock for the configured time, comes of a session taken before it expired, and no
    session yields two. *)
Theorem assertions_bind_one_device p : rtc portal_step (mkPortal ∅ [] []) p ->
  NoDup (is_state <$> po_issued p) /\
  forall i, i ∈ po_issued p -> exists x, x ∈ po_started p /\ st_state x = is_state i /\ vetted x /\ bound x i.
Proof.
  intros Hr. assert (Hp : portal_inv p).
  { eapply rtc_invariant; [apply portal_step_inv|exact Hr|]. split; [intros x Hx; by apply elem_of_nil in Hx|].
    split; [intros ? ? Hm; cbn in Hm; by rewrite lookup_empty in Hm|]. split; [constructor|intros i Hi; by apply elem_of_nil in Hi]. }
  destruct Hp as (H1 & _ & H3 & H4). split; [done|]. intros i Hi. destruct (H4 i Hi) as (x & Hx & Hs & Hb). exists x. auto.
Qed.
End portal.

(** ** One login *)

Module sso_example.
Definition saml : SAML := mkSAML "corp" "groups" false "" (fun _ => Some ("req-1", fun rs => Some ("https://idp/?RelayState=" +:+ rs)))
  (fun form ids => if decide ((ids = ["req-1"]) /\ param form "SAMLResponse" = "signed") then Some (AdminAuth.mkAssertion (Some "alice") [] [] 0) else None).
Definition plib : PortalLib Z := mkPortalLib
  (fun u => if decide (u = "http://127.0.0.1:9/cb") then Some (mkURL "http" false "127.0.0.1") else None)
  (fun h => bool_decide (h = "127.0.0.1"))
  (fun u q => Some (u +:+ "?" +:+ param q "assertion" +:+ "&" +:+ param q "state"))
  (fun k m => be 32 (len k + len m)) (fun k a => Some (as_Nonce a)).
Definition pcfg : option (SSOConfig Z) := Some (mkSSOConfig (Some saml) (Some 7) "" 0 0).
Definition ring : Keyring := mkKeyring ["0123456789abcdef"] (300 * second) (60 * second).
Definition hour : Z := 3600 * second.
Definition nonce : string := default "" (fst <$> Nonce.Mint (pl_hmac plib) ring 3600 "pkh").
Definition query : list (string * string) := [("pubkey_hash", "pkh"); ("nonce", nonce); ("redirect", "http://127.0.0.1:9/cb")].
Definition form : list (string * string) := [("RelayState", "st"); ("SAMLResponse", "signed")].
Definition after_start : ssoSessions := (handleSSOStart plib ring pcfg hour (hour + 1) (hour + 2) "st" query ∅).2.
Definition after_acs : preply * ssoSessions := handleSSOACS plib pcfg (hour + 60 * second) (hour + 61 * second) (Some form) after_start.
Definition signed : Assertion := mkAssertion "alice" "" "corp" [] "pkh" nonce 3661 3841.
Definition sess : ssoSession := mkSession "pkh" nonce "http://127.0.0.1:9/cb" "req-1" (hour + 1 + 300 * second).
End sso_example.
Import sso_example.

(** Posting the same response again finds no session. *)
Lemma second_post_is_refused : handleSSOACS plib pcfg (hour + 61 * second) (hour + 61 * second) (Some form) after_acs.2 = (P_Error CodeInvalidRequest, ∅).
Proof. by vm_compute. Qed.

Lemma assertions_bind_one_device_witness : exists loc p,
  rtc (portal_step plib ring pcfg) (mkPortal ∅ [] []) p /\ po_issued p = [mkIssued "st" (hour + 60 * second) (hour + 61 * second) form loc signed] /\
  exists x, x ∈ po_started p /\ st_state x = "st" /\ vetted plib ring pcfg x /\ bound plib pcfg x (mkIssued "st" (hour + 60 * second) (hour + 61 * second) form loc signed).
Proof.
  set (loc := "http://127.0.0.1:9/cb?" +:+ nonce +:+ "&st"). set (i := mkIssued "st" (hour + 60 * second) (hour + 61 * second) form loc signed).
  set (p := mkPortal ∅ [mkStarted "st" hour (hour + 1) query sess] [i]). exists loc, p.
  assert (Hr : rtc (portal_step plib ring pcfg) (mkPortal ∅ [] []) p).
  { eapply rtc_l; [|apply rtc_once].
    - apply (pp_start plib ring pcfg hour (hour + 1) (hour + 2) "st" query (mkPortal ∅ [] []) "https://idp/?RelayState=st" sess after_start); [apply not_elem_of_nil|by vm_compute|by vm_compute].
    - apply (pp_acs plib ring pcfg (hour + 60 * second) (hour + 61 * second) form (mkPortal after_start [mkStarted "st" hour (hour + 1) query sess] []) loc signed ∅). by vm_compute. }
  split; [exact Hr|]. split; [done|]. destruct (assertions_bind_one_device plib ring pcfg p Hr) as [_ H]. apply (H i). by left.
Defined.
