(* ===== verification/HostFs.v ===== *)
(** * Files of a host, with faults and crashes; internal/binverify

    The updaters of Pilot work on files. A computation [FM E A] runs on a file system under a
    [Host], which says of every operation whether it succeeds, fails or is where the process
    dies; a write that fails or dies may leave any prefix of its data. A rename is atomic.
    Operations that were done stay done: the model is of a process that dies (a panic, a kill,
    a restart by the service manager), not of a disk cache that loses completed writes.
    [cwp] is a Hoare logic with a crash condition. SHA-256 is a parameter. *)

From S2P Require Import Prelude Bytes GoStrings DualControl.
From stdpp Require Import prelude strings list gmap.
From Stdlib Require Import ZArith Lia.
Open Scope Z_scope.

Record file : Type := mkFile { contents : string; mode : Z }.
Abbreviation Files := (gmap string file).

(** [fs.ErrNotExist], any other error of the system, and the two refusals of [binverify]. *)
Inductive oserr : Type := O_NotExist | O_IO | O_EmptyDigest | O_Mismatch.

Inductive event : Type :=
| E_Ok
| E_Err (torn : option nat)
| E_Crash (torn : option nat).

(** Operations that only look, and operations that change something. *)
Inductive opkind : Type := K_Read | K_Write.

Record Host : Type := mkHost { h_clk : nat -> Z; h_ev : nat -> opkind -> event; h_umask : Z }.

(** A computation returns, dies, or is replaced by [syscall.Exec]. *)
Inductive outcome (E A : Type) : Type :=
| Returned (r : result E A)
| Crashed
| Replaced (argv : list string).
Arguments Returned {E A} r. Arguments Crashed {E A}. Arguments Replaced {E A} argv.

Definition FM (E A : Type) : Type := Host -> nat -> Files -> outcome E A * nat * Files.

#[export] Instance fm_ret {E} : MRet (FM E) := fun A a _ n s => (Returned (Ok a), n, s).
#[export] Instance fm_bind {E} : MBind (FM E) := fun A B k m h n s =>
  match m h n s with
  | (Returned (Ok a), n, s) => k a h n s
  | (Returned (Err e), n, s) => (Returned (Err e), n, s)
  | (Crashed, n, s) => (Crashed, n, s)
  | (Replaced v, n, s) => (Replaced v, n, s)
  end.

Section monad.
Context {E A : Type}.

(** [return a, err] *)
Definition give (r : result E A) : FM E A := fun _ n s => (Returned r, n, s).
Definition fail_with (e : E) : FM E A := give (Err e).
Definition clock : FM E Z := fun h n s => (Returned (Ok (h_clk h n)), S n, s).
End monad.

Section errors.
Context {E A : Type}.
(** [x, err := m()] where the caller goes on with both. *)
Definition caught {E'} (m : FM E A) : FM E' (result E A) := fun h n s =>
  match m h n s with
  | (Returned r, n, s) => (Returned (Ok r), n, s)
  | (Crashed, n, s) => (Crashed, n, s)
  | (Replaced v, n, s) => (Replaced v, n, s)
  end.
(** [if err := m(); err != nil { return fmt.Errorf(...) }] *)
Definition wrap {E'} (f : E -> E') (m : FM E A) : FM E' A :=
  caught m ≫= fun r => give (match r with Ok a => Ok a | Err e => Err (f e) end).
(** [_ = m()] *)
Definition dropped {E'} (m : FM E A) : FM E' unit := caught m ≫= fun _ => mret ().
(** [if err := m(); err != nil { cleanup; return err }] *)
Definition or_clean {E'} (m : FM E A) (f : E -> E') (cleanup : FM E' unit) : FM E' A :=
  caught m ≫= fun r => match r with Ok a => mret a | Err e => cleanup ≫= fun _ => fail_with (f e) end.
End errors.

(** ** Package os *)

(** One operation: its result, and what a failing or interrupted one leaves. *)
Definition op {A} (kd : opkind) (f : Host -> Files -> result oserr A * Files) (torn : Host -> nat -> Files -> Files) : FM oserr A := fun h n s =>
  match h_ev h n kd with
  | E_Ok => (Returned (f h s).1, S n, (f h s).2)
  | E_Err None => (Returned (Err O_IO), S n, s)
  | E_Err (Some k) => (Returned (Err O_IO), S n, torn h k s)
  | E_Crash None => (Crashed, S n, s)
  | E_Crash (Some k) => (Crashed, S n, torn h k s)
  end.
Definition intact : Host -> nat -> Files -> Files := fun _ _ s => s.

(** The first bytes of a string. *)
Definition cut (k : nat) (s : string) : string := String.substring 0 k s.

Definition perms (h : Host) (p : string) (perm : Z) (s : Files) : Z :=
  match s !! p with Some f => mode f | None => Z.land perm (Z.lnot (h_umask h)) end.

(** [os.ReadFile], and [os.Open] with the reads that follow. *)
Definition ReadFile (p : string) : FM oserr string :=
  op K_Read (fun _ s => (match s !! p with Some f => Ok (contents f) | None => Err O_NotExist end, s)) intact.
Definition Stat (p : string) : FM oserr unit :=
  op K_Read (fun _ s => (match s !! p with Some _ => Ok () | None => Err O_NotExist end, s)) intact.
(** [os.WriteFile]: create or truncate, write, close; an existing file keeps its mode. *)
Definition WriteFile (p data : string) (perm : Z) : FM oserr unit :=
  op K_Write (fun h s => (Ok (), <[p := mkFile data (perms h p perm s)]> s))
     (fun h k s => <[p := mkFile (cut k data) (perms h p perm s)]> s).
(** [os.OpenFile] with [O_CREATE|O_WRONLY|O_TRUNC]. *)
Definition OpenTrunc (p : string) (perm : Z) : FM oserr unit :=
  op K_Write (fun h s => (Ok (), <[p := mkFile "" (perms h p perm s)]> s)) intact.
(** The writes of [io.Copy] to a file just truncated. *)
Definition WriteTo (p data : string) : FM oserr unit :=
  op K_Write (fun h s => (Ok (), <[p := mkFile data (perms h p 0 s)]> s)) (fun h k s => <[p := mkFile (cut k data) (perms h p 0 s)]> s).
Definition CloseFile : FM oserr unit := op K_Write (fun _ s => (Ok (), s)) intact.
Definition Chmod (p : string) (perm : Z) : FM oserr unit :=
  op K_Write (fun _ s => match s !! p with Some f => (Ok (), <[p := mkFile (contents f) perm]> s) | None => (Err O_NotExist, s) end) intact.
Definition Rename (a b : string) : FM oserr unit :=
  op K_Write (fun _ s => match s !! a with Some f => (Ok (), <[b := f]> (delete a s)) | None => (Err O_NotExist, s) end) intact.
Definition Remove (p : string) : FM oserr unit :=
  op K_Write (fun _ s => match s !! p with Some _ => (Ok (), delete p s) | None => (Err O_NotExist, s) end) intact.

(** 0o755 and 0o600 *)
Definition m755 : Z := 493.
Definition m600 : Z := 384.

(** ** internal/binverify *)

Section binverify.
Context (sha256 : string -> string).
Definition hexsum (data : string) : string := hex (sha256 data).

Definition FileSHA256 (path : string) : FM oserr string := c ← ReadFile path; mret (hexsum c).
Definition SHA256 (path expectedHex : string) : FM oserr unit :=
  let want := ToLower (TrimSpace expectedHex) in
  if decide (want = "") then fail_with O_EmptyDigest
  else got ← FileSHA256 path; if decide (got = want) then mret () else fail_with O_Mismatch.
End binverify.

(** ** [copyFile] of pilotupdate and nebulaupdate *)
Definition copyFile (src dst : string) : FM oserr unit :=
  c ← ReadFile src;
  let tmp := dst +:+ ".tmp" in
  _ ← OpenTrunc tmp m755;
  _ ← or_clean (WriteTo tmp c) id (_ ← dropped CloseFile; dropped (Remove tmp));
  _ ← or_clean CloseFile id (dropped (Remove tmp));
  _ ← or_clean (Chmod tmp m755) id (dropped (Remove tmp));
  or_clean (Rename tmp dst) id (dropped (Remove tmp)).

(** ** Replacing a binary: [swap] of pilotupdate and [install] of nebulaupdate *)
Inductive stage : Type := St_Write | St_Chmod | St_Verify | St_Keep | St_Install.

Definition swap_in (sha256 : string -> string) {E} (err : stage -> E) (path lastGood data : string) : FM E unit :=
  let tmp := path +:+ ".new" in
  _ ← wrap (fun _ => err St_Write) (WriteFile tmp data m755);
  _ ← or_clean (Chmod tmp m755) (fun _ => err St_Chmod) (dropped (Remove tmp));
  _ ← or_clean (SHA256 sha256 tmp (hexsum sha256 data)) (fun _ => err St_Verify) (dropped (Remove tmp));
  st ← caught (Stat path);
  _ ← match st with
      | Ok _ => or_clean (copyFile path lastGood) (fun _ => err St_Keep) (dropped (Remove tmp))
      | Err _ => mret ()
      end;
  or_clean (Rename tmp path) (fun _ => err St_Install) (dropped (Remove tmp)).

(** ** Hoare logic with a crash condition

    [cwp H C X m Q s]: under any host of [H], [m] run from [s] returns with [Q], dies in a state
    of [C], or is replaced with [X]. *)
Definition cwp {E A} (H : Host -> Prop) (C : Files -> Prop) (X : list string -> Files -> Prop) (m : FM E A) (Q : result E A -> Files -> Prop) (s : Files) : Prop :=
  forall h n, H h ->
  match m h n s with
  | (Returned r, _, s') => Q r s'
  | (Crashed, _, s') => C s'
  | (Replaced v, _, s') => X v s'
  end.

(** The hosts whose reads do not fail. *)
Definition reads_ok (h : Host) : Prop := forall n k, h_ev h n K_Read <> E_Err k.
Definition sure (H : Host -> Prop) : Prop := forall h, H h -> reads_ok h.

Section logic.
Context {E A : Type} (HP : Host -> Prop) (C : Files -> Prop) (X : list string -> Files -> Prop).
Implicit Types (s : Files) (Q : result E A -> Files -> Prop).

Lemma cwp_ret a Q s : Q (Ok a) s -> cwp HP C X (mret a : FM E A) Q s.
Proof. intros H h n _. exact H. Qed.
Lemma cwp_fail e Q s : Q (Err e) s -> cwp HP C X (fail_with e : FM E A) Q s.
Proof. intros H h n _. exact H. Qed.
Lemma cwp_give r Q s : Q r s -> cwp HP C X (give r : FM E A) Q s.
Proof. intros H h n _. exact H. Qed.
Lemma cwp_clock (Q : result E Z -> Files -> Prop) s : (forall h n, HP h -> Q (Ok (h_clk h n)) s) -> cwp HP C X clock Q s.
Proof. intros H h n Ht. by apply H. Qed.

Lemma cwp_bind {B} (m : FM E B) (k : B -> FM E A) Q s :
  cwp HP C X m (fun r s' => match r with Ok b => cwp HP C X (k b) Q s' | Err e => Q (Err e) s' end) s ->
  cwp HP C X (m ≫= k) Q s.
Proof.
  intros H h n Ht. unfold mbind, fm_bind. specialize (H h n Ht). destruct (m h n s) as [[[[b|e]| |v] n'] s']; [apply H, Ht|exact H..].
Qed.

Lemma cwp_caught {E'} (m : FM E A) (Q : result E' (result E A) -> Files -> Prop) s :
  cwp HP C X m (fun r s' => Q (Ok r) s') s -> cwp HP C X (caught m) Q s.
Proof. intros H h n Ht. unfold caught. specialize (H h n Ht). by destruct (m h n s) as [[[r| |v] n'] s']. Qed.

Lemma cwp_mono (m : FM E A) Q Q' s : cwp HP C X m Q s -> (forall r s', Q r s' -> Q' r s') -> cwp HP C X m Q' s.
Proof. intros H HQ h n Ht. specialize (H h n Ht). destruct (m h n s) as [[[r| |v] n'] s']; auto. Qed.

Lemma cwp_crash (C' : Files -> Prop) (m : FM E A) Q s : cwp HP C' X m Q s -> (forall s', C' s' -> C s') -> cwp HP C X m Q s.
Proof. intros H HQ h n Ht. specialize (H h n Ht). destruct (m h n s) as [[[r| |v] n'] s']; auto. Qed.
End logic.

Section rules.
Context (HP : Host -> Prop) (C : Files -> Prop) (X : list string -> Files -> Prop).
Implicit Types (s : Files).

Lemma cwp_wrap {E E' A} (f : E -> E') (m : FM E A) (Q : result E' A -> Files -> Prop) s :
  cwp HP C X m (fun r s' => Q (match r with Ok a => Ok a | Err e => Err (f e) end) s') s -> cwp HP C X (wrap f m) Q s.
Proof. intros H. unfold wrap. apply cwp_bind, cwp_caught. eapply cwp_mono; [exact H|]. intros r s' HQ. by apply cwp_give. Qed.

Lemma cwp_dropped {E E' A} (m : FM E A) (Q : result E' unit -> Files -> Prop) s :
  cwp HP C X m (fun _ s' => Q (Ok ()) s') s -> cwp HP C X (dropped m) Q s.
Proof. intros H. unfold dropped. apply cwp_bind, cwp_caught. eapply cwp_mono; [exact H|]. intros r s' HQ. by apply cwp_ret. Qed.

Lemma cwp_or_clean {E E' A} (m : FM E A) (f : E -> E') (clean : FM E' unit) (Q : result E' A -> Files -> Prop) s :
  cwp HP C X m (fun r s' => match r with Ok a => Q (Ok a) s'
                           | Err e => cwp HP C X clean (fun r s'' => Q (Err (match r with Ok _ => f e | Err e' => e' end)) s'') s' end) s ->
  cwp HP C X (or_clean m f clean) Q s.
Proof.
  intros H. unfold or_clean. apply cwp_bind, cwp_caught. eapply cwp_mono; [exact H|]. intros [a|e] s' HQ; [by apply cwp_ret|].
  apply cwp_bind. eapply cwp_mono; [exact HQ|]. intros [[]|e'] s'' HQ'; [by apply cwp_give|done].
Qed.

(** An operation: the state before, the torn states and the state after. *)
Lemma cwp_op {A} kd f torn (Q : result oserr A -> Files -> Prop) s :
  C s -> (forall h k, C (torn h k s)) -> Q (Err O_IO) s -> (forall h k, Q (Err O_IO) (torn h k s)) -> (forall h, Q (f h s).1 (f h s).2) ->
  cwp HP C X (op kd f torn) Q s.
Proof. intros H1 H2 H3 H4 H5 h n _. unfold op. destruct (h_ev h n kd) as [|[k|]|[k|]]; auto. Qed.

(** The operations that leave a file system as it is when they do not succeed. *)
Lemma cwp_op_intact {A} kd f (Q : result oserr A -> Files -> Prop) s :
  C s -> Q (Err O_IO) s -> (forall h, Q (f h s).1 (f h s).2) -> cwp HP C X (op kd f intact) Q s.
Proof. intros. by apply cwp_op. Qed.

(** An operation that only looks fails only where reads can. *)
Lemma cwp_look {A} f (Q : result oserr A -> Files -> Prop) s :
  C s -> (~ sure HP -> Q (Err O_IO) s) -> (forall h, Q (f h s).1 (f h s).2) -> cwp HP C X (op K_Read f intact) Q s.
Proof.
  intros H1 H2 H3 h n Hh. unfold op, intact. destruct (h_ev h n K_Read) as [|k|[k|]] eqn:Ev; [done| |done..].
  assert (~ sure HP) as Hn; [|by destruct k; apply H2]. intros Hs. by eapply (Hs h Hh).
Qed.

Lemma cwp_ReadFile p (Q : result oserr string -> Files -> Prop) s : C s -> (~ sure HP -> Q (Err O_IO) s) ->
  match s !! p with Some f => Q (Ok (contents f)) s | None => Q (Err O_NotExist) s end -> cwp HP C X (ReadFile p) Q s.
Proof. intros HC HI HQ. apply cwp_look; [done..|]. intros h. cbn. by destruct (s !! p). Qed.
Lemma cwp_Stat p (Q : result oserr unit -> Files -> Prop) s : C s -> (~ sure HP -> Q (Err O_IO) s) ->
  match s !! p with Some _ => Q (Ok ()) s | None => Q (Err O_NotExist) s end -> cwp HP C X (Stat p) Q s.
Proof. intros HC HI HQ. apply cwp_look; [done..|]. intros h. cbn. by destruct (s !! p). Qed.
Lemma cwp_Chmod p m (Q : result oserr unit -> Files -> Prop) s : C s -> Q (Err O_IO) s ->
  match s !! p with Some f => Q (Ok ()) (<[p := mkFile (contents f) m]> s) | None => Q (Err O_NotExist) s end -> cwp HP C X (Chmod p m) Q s.
Proof. intros HC HI HQ. apply cwp_op_intact; [done..|]. intros h. cbn. by destruct (s !! p). Qed.
Lemma cwp_Rename a b (Q : result oserr unit -> Files -> Prop) s : C s -> Q (Err O_IO) s ->
  match s !! a with Some f => Q (Ok ()) (<[b := f]> (delete a s)) | None => Q (Err O_NotExist) s end -> cwp HP C X (Rename a b) Q s.
Proof. intros HC HI HQ. apply cwp_op_intact; [done..|]. intros h. cbn. by destruct (s !! a). Qed.
Lemma cwp_Remove p (Q : result oserr unit -> Files -> Prop) s : C s -> Q (Err O_IO) s ->
  match s !! p with Some f => Q (Ok ()) (delete p s) | None => Q (Err O_NotExist) s end -> cwp HP C X (Remove p) Q s.
Proof. intros HC HI HQ. apply cwp_op_intact; [done..|]. intros h. cbn. by destruct (s !! p). Qed.
End rules.

(** ** Frames

    [off ns s s']: [s'] agrees with [s] but for the names in [ns]. *)
Definition off (ns : list string) (s s' : Files) : Prop := forall p, p ∉ ns -> s' !! p = s !! p.

Lemma off_refl ns s : off ns s s.
Proof. done. Qed.
Lemma off_insert ns p f s s' : p ∈ ns -> off ns s s' -> off ns s (<[p := f]> s').
Proof. intros Hp H q Hq. rewrite lookup_insert_ne by (intros ->; done). by apply H. Qed.
Lemma off_delete ns p s s' : p ∈ ns -> off ns s s' -> off ns s (delete p s').
Proof. intros Hp H q Hq. rewrite lookup_delete_ne by (intros ->; done). by apply H. Qed.
Lemma off_trans ns s1 s2 s3 : off ns s1 s2 -> off ns s2 s3 -> off ns s1 s3.
Proof. intros H1 H2 p Hp. by rewrite H2, H1. Qed.
Lemma off_weaken ns ns' s s' : ns ⊆ ns' -> off ns s s' -> off ns' s s'.
Proof. intros Hs H p Hp. apply H. set_solver. Qed.
#[export] Hint Resolve off_refl : ncp.

(** A string is not itself with something more. *)
Lemma suffix_ne (p a : string) : a <> "" -> p +:+ a <> p.
Proof. intros Ha H. apply (f_equal String.length) in H. rewrite str_app_length in H. destruct a; [done|cbn in H; lia]. Qed.
Lemma suffixes_ne (p a b : string) : a <> b -> p +:+ a <> p +:+ b.
Proof. intros Ha H. by apply str_app_inj in H as [_ ?]. Qed.

Section files.
Context (HP : Host -> Prop) (C : Files -> Prop) (X : list string -> Files -> Prop).

(** A write of a name alone: any contents may be left, on success those asked for. *)
Lemma cwp_WriteFile p data perm (Q : result oserr unit -> Files -> Prop) (s : Files) :
  (forall s1, off [p] s s1 -> C s1) -> (forall s1, off [p] s s1 -> Q (Err O_IO) s1) ->
  (forall m, (forall f, s !! p = Some f -> m = mode f) -> Q (Ok ()) (<[p := mkFile data m]> s)) -> cwp HP C X (WriteFile p data perm) Q s.
Proof.
  intros HC HI HQ. apply cwp_op; [by apply HC|intros; by apply HC, off_insert; [set_solver|]|by apply HI|intros; by apply HI, off_insert; [set_solver|]|].
  intros h. apply HQ. intros f Hf. unfold perms. by rewrite Hf.
Qed.

Lemma cwp_Remove_own p (Q : result oserr unit -> Files -> Prop) (s s0 : Files) : off [p] s0 s ->
  (forall s1, off [p] s0 s1 -> C s1) -> (forall r s1, off [p] s0 s1 -> Q r s1) -> cwp HP C X (Remove p) Q s.
Proof.
  intros Ho HC HQ. apply cwp_Remove; [by apply HC|by apply HQ|]. destruct (s !! p); apply HQ; [|done]. apply off_delete; [set_solver|done].
Qed.

(** [copyFile] dies or fails with only its staging file touched; it succeeds with the
    destination an executable copy of the source. *)
Lemma copyFile_cwp src dst (Q : result oserr unit -> Files -> Prop) (s : Files) :
  src <> dst +:+ ".tmp" ->
  (forall s1, off [dst +:+ ".tmp"] s s1 -> C s1) -> (forall e s1, off [dst +:+ ".tmp"] s s1 -> Q (Err e) s1) ->
  (forall f s1, s !! src = Some f -> off [dst +:+ ".tmp"; dst] s s1 -> s1 !! dst = Some (mkFile (contents f) m755) -> Q (Ok ()) s1) ->
  cwp HP C X (copyFile src dst) Q s.
Proof.
  intros Hne HC HE HQ. unfold copyFile. set (tmp := dst +:+ ".tmp") in *.
  assert (Hclean : forall e (s1 : Files), off [tmp] s s1 -> cwp HP C X (dropped (Remove tmp) : FM oserr unit) (fun r s2 => Q (Err (match r with Ok _ => e | Err e' => e' end)) s2) s1).
  { intros e s1 H1. apply cwp_dropped. eapply cwp_Remove_own; [exact H1|done|]. intros. by apply HE. }
  assert (Hin : tmp ∈ [tmp]) by set_solver.
  apply cwp_bind, cwp_ReadFile; [by apply HC|intros _; by apply HE|]. destruct (s !! src) as [f|] eqn:Hs; [|by apply HE].
  apply cwp_bind, cwp_op_intact; [by apply HC|by apply HE|]. intros h. cbn. set (s1 := <[tmp := _]> s). assert (H1 : off [tmp] s s1) by by apply off_insert.
  apply cwp_bind, cwp_or_clean, cwp_op; [by apply HC|intros; by apply HC, off_insert| | |].
  - apply cwp_bind, cwp_dropped, cwp_op_intact; [by apply HC|by apply Hclean|intros; by apply Hclean].
  - intros. assert (Hk : off [tmp] s (<[tmp := mkFile (cut k (contents f)) (perms h0 tmp 0 s1)]> s1)) by by apply off_insert.
    apply cwp_bind, cwp_dropped, cwp_op_intact; [by apply HC|by apply Hclean|intros; by apply Hclean].
  - intros h'. cbn. set (s2 := <[tmp := _]> s1). assert (H2 : off [tmp] s s2) by by apply off_insert.
    apply cwp_bind, cwp_or_clean, cwp_op_intact; [by apply HC|by apply Hclean|]. intros _. cbn.
    apply cwp_bind, cwp_or_clean, cwp_Chmod; [by apply HC|by apply Hclean|]. unfold s2 at 1. rewrite lookup_insert_eq.
    cbn [contents]. set (s3 := <[tmp := _]> s2). assert (H3 : off [tmp] s s3) by by apply off_insert.
    apply cwp_or_clean, cwp_Rename; [by apply HC|by apply Hclean|]. unfold s3 at 1. rewrite lookup_insert_eq. apply (HQ f); [done| |by rewrite lookup_insert_eq].
    apply off_insert; [set_solver|]. apply off_delete; [set_solver|]. eapply off_weaken; [|exact H3]. set_solver.
Qed.
End files.

(** The computations that only look at the files. *)
Definition looks {E A} (m : FM E A) : Prop := forall HP (C : Files -> Prop) X (Q : result E A -> Files -> Prop) (s : Files),
  C s -> (forall r, Q r s) -> cwp HP C X m Q s.
Lemma looks_bind {E A B} (m : FM E A) (k : A -> FM E B) : looks m -> (forall a, looks (k a)) -> looks (m ≫= k).
Proof. intros Hm Hk HP C X Q s HC HQ. apply cwp_bind, Hm; [done|]. intros [a|e]; [by apply Hk|done]. Qed.
Lemma looks_give {E A} (r : result E A) : looks (give r).
Proof. intros HP C X Q s HC HQ. by apply cwp_give. Qed.
Lemma looks_ret {E A} (a : A) : looks (mret a : FM E A).
Proof. intros HP C X Q s HC HQ. by apply cwp_ret. Qed.
Lemma looks_caught {E E' A} (m : FM E A) : looks m -> looks (caught m : FM E' (result E A)).
Proof. intros Hm HP C X Q s HC HQ. apply cwp_caught, Hm; [done|]. intros; apply HQ. Qed.
Lemma looks_clock {E} : looks (clock : FM E Z).
Proof. intros HP C X Q s HC HQ. apply cwp_clock. intros; apply HQ. Qed.
Lemma looks_ReadFile p : looks (ReadFile p).
Proof. intros HP C X Q s HC HQ. apply cwp_ReadFile; [done..|]. by destruct (s !! p). Qed.
Lemma looks_FileSHA256 sha256 p : looks (FileSHA256 sha256 p).
Proof. apply looks_bind; [apply looks_ReadFile|]. intros; apply looks_ret. Qed.
Lemma looks_SHA256 sha256 p d : looks (SHA256 sha256 p d).
Proof.
  unfold SHA256. destruct (decide _); [apply looks_give|]. apply looks_bind; [apply looks_FileSHA256|]. intros a.
  destruct (decide _); [apply looks_ret|apply looks_give].
Qed.
#[export] Hint Resolve looks_give looks_ret looks_caught looks_clock looks_ReadFile looks_FileSHA256 looks_SHA256 : ncp.

(** ** What replacing a binary does to the files *)

(** Names made of one path and different endings are different. *)
Ltac names :=
  first [assumption|apply suffix_ne; discriminate
        |apply suffixes_ne; discriminate|rewrite !str_app_assoc; apply suffixes_ne; discriminate
        |rewrite !str_app_assoc; apply suffix_ne; discriminate
        |rewrite !str_app_assoc; apply not_eq_sym, suffix_ne; discriminate|apply not_eq_sym, suffix_ne; discriminate].
Ltac notin := repeat (apply not_elem_of_cons; split; [names|]); apply not_elem_of_nil.
Ltac isin := repeat first [apply list_elem_of_here|apply list_elem_of_further].

Section replacing.
Context (sha256 : string -> string) (HP : Host -> Prop) (C : Files -> Prop) (X : list string -> Files -> Prop).

(** What a swap that did not install may have changed, and what one that did has. *)
Definition kept (self : string) (s s1 : Files) : Prop :=
  s1 !! (self +:+ ".last-good") = s !! (self +:+ ".last-good") \/
  exists f, s !! self = Some f /\ s1 !! (self +:+ ".last-good") = Some (mkFile (contents f) m755).
Definition staged (self : string) (s s1 : Files) : Prop :=
  off [self +:+ ".new"; (self +:+ ".last-good") +:+ ".tmp"; self +:+ ".last-good"] s s1 /\ kept self s s1.
Definition swapped (self data : string) (s s1 : Files) : Prop :=
  off [self +:+ ".new"; (self +:+ ".last-good") +:+ ".tmp"; self +:+ ".last-good"; self] s s1 /\ kept self s s1 /\
  s1 !! self = Some (mkFile data m755) /\
  (sure HP -> forall f, s !! self = Some f -> s1 !! (self +:+ ".last-good") = Some (mkFile (contents f) m755)).

Lemma swap_cwp {E} (err : stage -> E) self data (Q : result E unit -> Files -> Prop) (s : Files) :
  (forall s1, staged self s s1 -> C s1) -> (forall e s1, staged self s s1 -> Q (Err e) s1) -> (forall s1, swapped self data s s1 -> Q (Ok ()) s1) ->
  cwp HP C X (swap_in sha256 err self (self +:+ ".last-good") data) Q s.
Proof.
  intros HC HE HQ. unfold swap_in. set (new := self +:+ ".new") in *. set (lg := self +:+ ".last-good") in *.
  assert (Hnl : lg <> new) by names. assert (Hns : self <> new) by names.
  assert (Hnew : forall s1 : Files, off [new] s s1 -> staged self s s1).
  { intros s1 H1. split; [eapply off_weaken; [|exact H1]; set_solver|]. left. apply H1. notin. }
  assert (Hstep : forall s1 s2 : Files, staged self s s1 -> off [new] s1 s2 -> staged self s s2).
  { intros s1 s2 [H1 H2] H3. split; [eapply off_trans; [exact H1|]; eapply off_weaken; [|exact H3]; set_solver|].
    unfold kept in *. rewrite (H3 (self +:+ ".last-good")) by notin. done. }
  assert (Hclean : forall e (s1 : Files), staged self s s1 -> cwp HP C X (dropped (Remove new) : FM E unit)
            (fun r s2 => Q (Err (match r with Ok _ => e | Err e' => e' end)) s2) s1).
  { intros e s1 H1. apply cwp_dropped. eapply cwp_Remove_own; [apply off_refl| |]; intros; [apply HC|apply HE]; by eapply Hstep. }
  apply cwp_bind, cwp_wrap, cwp_WriteFile; [intros; by apply HC, Hnew|intros; by apply HE, Hnew|]. intros m _.
  set (s1 := <[new := _]> s). assert (H1 : off [new] s s1) by (apply off_insert; [set_solver|done]).
  apply cwp_bind, cwp_or_clean, cwp_Chmod; [by apply HC, Hnew|by apply Hclean, Hnew|]. unfold s1 at 1. rewrite lookup_insert_eq. cbn [contents].
  set (s2 := <[new := _]> s1). assert (H2 : off [new] s s2) by (apply off_insert; [set_solver|done]).
  assert (Hn2 : s2 !! new = Some (mkFile data m755)) by apply lookup_insert_eq. clearbody s2.
  apply cwp_bind, cwp_or_clean, looks_SHA256; [by apply HC, Hnew|]. intros [[]|e]; [|by apply Hclean, Hnew].
  assert (Hself : s2 !! self = s !! self) by (apply H2; notin).
  assert (Hinst : forall s3 : Files, staged self s s3 -> s3 !! new = Some (mkFile data m755) ->
            (sure HP -> forall f, s !! self = Some f -> s3 !! lg = Some (mkFile (contents f) m755)) ->
            cwp HP C X (or_clean (Rename new self) (fun _ => err St_Install) (dropped (Remove new))) Q s3).
  { intros s3 [H3 K3] Hn3 Hl3. apply cwp_or_clean, cwp_Rename; [by apply HC|by apply Hclean|]. rewrite Hn3. apply HQ.
    assert (Hl : (<[self := mkFile data m755]> (delete new s3)) !! lg = s3 !! lg).
    { rewrite lookup_insert_ne by names. apply lookup_delete_ne. names. }
    split; [|split; [|split]].
    - apply off_insert; [isin|]. apply off_delete; [isin|]. eapply off_weaken; [|exact H3]. set_solver.
    - unfold kept in *. fold lg in K3 |- *. rewrite Hl. exact K3.
    - apply lookup_insert_eq.
    - fold lg. rewrite Hl. exact Hl3. }
  apply cwp_bind, cwp_caught, cwp_Stat; [by apply HC, Hnew| |].
  - intros Hns'. apply cwp_bind, cwp_ret, Hinst; [by apply Hnew|done|done].
  - rewrite Hself. destruct (s !! self) as [f|] eqn:Hf.
    2: { apply cwp_bind, cwp_ret, Hinst; [by apply Hnew|done|done]. }
    assert (Htmp : forall s3 : Files, off [lg +:+ ".tmp"] s2 s3 -> staged self s s3).
    { intros s3 H3. split; [|left; rewrite H3 by (unfold lg; notin); apply H2; notin].
      eapply off_trans; [eapply off_weaken; [|exact H2]|eapply off_weaken; [|exact H3]]; set_solver. }
    apply cwp_bind, cwp_or_clean, copyFile_cwp.
    + unfold lg. rewrite str_app_assoc. apply not_eq_sym, suffix_ne. discriminate.
    + intros s3 H3. by apply HC, Htmp.
    + intros e s3 H3. by apply Hclean, Htmp.
    + intros f' s3 Hf' H3 Hl3. assert (f' = f) as -> by congruence. apply Hinst.
      * split; [|right; eauto]. eapply off_trans; [eapply off_weaken; [|exact H2]|eapply off_weaken; [|exact H3]]; set_solver.
      * rewrite H3; [done|]. unfold lg, new. notin.
      * intros _ f' [= <-]. done.
Qed.
End replacing.

(** ** Hosts on which nothing fails

    Under such a host a triple with the crash condition [False] says that the computation
    returns. *)
Definition calm (h : Host) : Prop := forall n k, h_ev h n k = E_Ok.
Definition smooth (HP : Host -> Prop) : Prop := forall h, HP h -> calm h.
Abbreviation returns HP := (cwp HP (fun _ => False) (fun _ _ => False)).

Section calm.
Context (HP : Host -> Prop) (Hcalm : smooth HP).
Implicit Types (s : Files).

Lemma returns_op {A} kd f torn (Q : result oserr A -> Files -> Prop) s :
  (forall h, Q (f h s).1 (f h s).2) -> returns HP (op kd f torn) Q s.
Proof. intros HQ h n Hh. unfold op. rewrite (Hcalm h Hh). apply HQ. Qed.

Lemma returns_ReadFile p f (Q : result oserr string -> Files -> Prop) s : s !! p = Some f -> Q (Ok (contents f)) s -> returns HP (ReadFile p) Q s.
Proof. intros Hf HQ. apply returns_op. intros h. cbn. by rewrite Hf. Qed.

Lemma returns_copyFile src dst f (Q : result oserr unit -> Files -> Prop) s : s !! src = Some f ->
  (forall s1, off [dst +:+ ".tmp"; dst] s s1 -> s1 !! dst = Some (mkFile (contents f) m755) -> Q (Ok ()) s1) ->
  returns HP (copyFile src dst) Q s.
Proof.
  intros Hs HQ. unfold copyFile. set (tmp := dst +:+ ".tmp") in *. apply cwp_bind. eapply returns_ReadFile; [exact Hs|].
  apply cwp_bind, returns_op. intros h. cbn. apply cwp_bind, cwp_or_clean, returns_op. intros h'. cbn.
  apply cwp_bind, cwp_or_clean, returns_op. intros _. cbn. apply cwp_bind, cwp_or_clean, returns_op. intros _. cbn. rewrite lookup_insert_eq. cbn.
  apply cwp_or_clean, returns_op. intros _. cbn. rewrite lookup_insert_eq. cbn. apply HQ; [|apply lookup_insert_eq].
  apply off_insert; [set_solver|]. apply off_delete; [set_solver|]. do 3 (apply off_insert; [set_solver|]). done.
Qed.

Lemma returns_SHA256 sha256 p f d (Q : result oserr unit -> Files -> Prop) s : s !! p = Some f ->
  Q (if decide (ToLower (TrimSpace d) = "") then Err O_EmptyDigest
     else if decide (hexsum sha256 (contents f) = ToLower (TrimSpace d)) then Ok () else Err O_Mismatch) s ->
  returns HP (SHA256 sha256 p d) Q s.
Proof.
  intros Hf HQ. unfold SHA256. destruct (decide _); [by apply cwp_fail|]. apply cwp_bind, cwp_bind. eapply returns_ReadFile; [exact Hf|].
  apply cwp_ret. destruct (decide _); [by apply cwp_ret|by apply cwp_fail].
Qed.

(** Replacing a binary that is there, when nothing fails. *)
Lemma returns_swap sha256 {E} (err : stage -> E) self data f (Q : result E unit -> Files -> Prop) s : s !! self = Some f ->
  ToLower (TrimSpace (hexsum sha256 data)) = hexsum sha256 data -> hexsum sha256 data <> "" ->
  (forall s1, off [self +:+ ".new"; (self +:+ ".last-good") +:+ ".tmp"; self +:+ ".last-good"; self] s s1 -> s1 !! self = Some (mkFile data m755) ->
     s1 !! (self +:+ ".last-good") = Some (mkFile (contents f) m755) -> Q (Ok ()) s1) ->
  returns HP (swap_in sha256 err self (self +:+ ".last-good") data) Q s.
Proof.
  intros Hf Hlow Hne HQ. unfold swap_in. set (new := self +:+ ".new"). set (lg := self +:+ ".last-good") in *.
  apply cwp_bind, cwp_wrap, returns_op. intros h. cbn [fst snd]. apply cwp_bind, cwp_or_clean, returns_op. intros _. rewrite lookup_insert_eq. cbn [fst snd contents].
  set (s1 := <[new := mkFile data m755]> _). assert (H1 : off [new] s s1) by (apply off_insert; [isin|]; apply off_insert; [isin|done]).
  assert (Hn1 : s1 !! new = Some (mkFile data m755)) by apply lookup_insert_eq. clearbody s1.
  apply cwp_bind, cwp_or_clean. eapply returns_SHA256; [exact Hn1|]. cbn [contents]. rewrite Hlow, decide_False, decide_True by done.
  assert (Hf1 : s1 !! self = Some f) by (rewrite H1; [done|unfold new; notin]).
  apply cwp_bind, cwp_caught, returns_op. intros _. cbn [fst snd]. rewrite Hf1.
  apply cwp_bind, cwp_or_clean. eapply returns_copyFile; [exact Hf1|]. intros s2 H2 Hl2.
  apply cwp_or_clean, returns_op. intros _. cbn [fst snd]. assert (Hn2 : s2 !! new = Some (mkFile data m755)) by (rewrite H2; [done|unfold lg, new; notin]).
  rewrite Hn2. cbn [fst snd]. apply HQ.
  - apply off_insert; [isin|]. apply off_delete; [isin|]. eapply off_trans; [eapply off_weaken; [|exact H1]|eapply off_weaken; [|exact H2]]; set_solver.
  - apply lookup_insert_eq.
  - rewrite lookup_insert_ne by names. rewrite lookup_delete_ne by names. exact Hl2.
Qed.
End calm.

(** [m] run on [h] leaves [s']. *)
Definition leaves {E A} (m : FM E A) (h : Host) (s s' : Files) : Prop := exists n, (m h n s).2 = s'.
Lemma cwp_leaves {E A} HP (C : Files -> Prop) (m : FM E A) h s s' :
  cwp HP C (fun _ => C) m (fun _ => C) s -> HP h -> leaves m h s s' -> C s'.
Proof. intros Hm Hh [n <-]. specialize (Hm h n Hh). by destruct (m h n s) as [[[r| |v] n'] s']. Qed.
