(* ===== verification/PilotUpdate.v ===== *)
(** * internal/pilotupdate: the self-update of Pilot

    The manager fetches the pinned binary, arms a pending-revert marker, swaps the binary on
    disk and re-executes; [CheckRevert] at startup undoes an update that was not confirmed in
    time. The state is the files next to the binary. SHA-256, the JSON codec of the marker and
    the download are parameters. Times are unix nanoseconds. *)

From S2P Require Import Prelude Db Bytes GoStrings DualControl Releases HostFs.
From stdpp Require Import prelude strings list gmap pretty relations.
From Stdlib Require Import ZArith Lia Ascii.
Open Scope Z_scope.

Inductive puerr : Type :=
| PU_Pidfile | PU_Write | PU_Chmod | PU_Verify | PU_KeepLastGood | PU_Install | PU_NoLastGood | PU_Copy
| PU_WriteMarker | PU_ReadMarker | PU_ParseMarker | PU_Unreadable | PU_RevertFailed | PU_Confirm
| PU_NoUrl | PU_Fetch | PU_Status | PU_Body | PU_TooLarge | PU_Sha | PU_Exec | PU_EmptyArgv.

Record marker : Type := mkMarker { mk_Version : string; mk_SHA : string; mk_Deadline : Z }.

(** [NebulaPID] is what the function answers when it is called ([None]: no function); [Get] is
    the answer of the server: no answer, or a status and a body that may not read to its end. *)
Record Config : Type := mkConfig {
  SelfPath : string; NebulaPidPath : string; NebulaPID : option Z; Args : list string;
  ReExec : option (list string -> FM puerr unit);
  Get : string -> option (Z * option string);
  MaxBytes : Z; ConfirmWithin : Z }.

Definition defaultMaxBytes : Z := Z.shiftl 256 20.
Definition adoptFlag : string := "-adopt-nebula-pid".

(** ** The command line of the new pilot *)

Fixpoint TrimDashes (s : string) : string :=
  match s with String c r => if decide (c = "-"%char) then TrimDashes r else s | "" => "" end.

(** The separate form skips the next argument too. *)
Fixpoint stripAdoptFlag (args : list string) : list string :=
  match args with
  | [] => []
  | a :: rest =>
      let base := TrimDashes a in
      if decide (base = "adopt-nebula-pid") then match rest with [] => [] | _ :: rest => stripAdoptFlag rest end
      else if HasPrefix base "adopt-nebula-pid=" then stripAdoptFlag rest
      else a :: stripAdoptFlag rest
  end.

Definition reexecArgv (origArgs : list string) (self : string) (pid : Z) : list string :=
  let rest := if (1 <? length origArgs)%nat then stripAdoptFlag (tail origArgs) else [] in
  let argv := self :: rest in
  if 0 <? pid then argv ++ [adoptFlag; pretty pid] else argv.

(** [syscall.Exec] does not return when it succeeds. *)
Definition exec_process (argv : list string) : FM puerr unit := fun h n s =>
  match h_ev h n K_Write with
  | E_Ok => (Replaced argv, S n, s)
  | E_Err _ => (Returned (Err PU_Exec), S n, s)
  | E_Crash _ => (Crashed, S n, s)
  end.
Definition realReExec (argv : list string) : FM puerr unit :=
  match argv with [] => fail_with PU_EmptyArgv | _ => exec_process argv end.

(** [New]: the defaults. *)
Definition NewPilot (cfg : Config) : Config :=
  mkConfig (SelfPath cfg) (NebulaPidPath cfg) (NebulaPID cfg) (Args cfg)
    (Some (default realReExec (ReExec cfg))) (Get cfg)
    (if MaxBytes cfg <=? 0 then defaultMaxBytes else MaxBytes cfg)
    (if ConfirmWithin cfg <=? 0 then 90 * 1000000000 else ConfirmWithin cfg).

(** [os.Remove], where a file that is not there is no error. *)
Definition remove_if_there (p : string) : FM oserr unit :=
  caught (Remove p) ≫= fun r => match r with Ok _ | Err O_NotExist => mret () | Err e => fail_with e end.

(** [for i := 0; i < n+1; i++ { if err = m(); err == nil { return nil } }; return err] *)
Fixpoint retry {E} (n : nat) (m : FM E unit) : FM E unit :=
  caught m ≫= fun r => match r, n with Ok _, _ => mret () | Err e, O => fail_with e | Err _, S n => retry n m end.

(** ** swap.go *)

Section pilotupdate.
Context (sha256 : string -> string) (marshal : marker -> string) (unmarshal : string -> option marker).

(** The steps of [swap], as its errors name them. *)
Definition pu_stage (st : stage) : puerr :=
  match st with St_Write => PU_Write | St_Chmod => PU_Chmod | St_Verify => PU_Verify | St_Keep => PU_KeepLastGood | St_Install => PU_Install end.
Definition swap : string -> string -> string -> FM puerr unit := swap_in sha256 pu_stage.

Definition restore (lastGood path : string) : FM puerr unit :=
  _ ← wrap (fun _ => PU_NoLastGood) (Stat lastGood);
  wrap (fun _ => PU_Copy) (copyFile lastGood path).

Definition restoreRetry (lastGood path : string) : FM puerr unit := retry 2 (restore lastGood path).

Definition sameContents (a b : string) : FM oserr bool :=
  sa ← FileSHA256 sha256 a; sb ← FileSHA256 sha256 b; mret (bool_decide (sa = sb)).

(** ** pilotupdate.go *)
Section manager.
Context (cfg : Config).

Definition markerPath : string := SelfPath cfg +:+ ".pending-update".
Definition lastGood : string := SelfPath cfg +:+ ".last-good".
Definition quarantinePath : string := SelfPath cfg +:+ ".quarantine".

Definition reExec (argv : list string) : FM puerr unit := default realReExec (ReExec cfg) argv.

Definition writeMarker (mk : marker) : FM puerr unit := wrap (fun _ => PU_WriteMarker) (WriteFile markerPath (marshal mk) m600).
Definition readMarker : FM puerr (option marker) :=
  caught (ReadFile markerPath) ≫= fun r => match r with
  | Err O_NotExist => mret None
  | Err _ => fail_with PU_ReadMarker
  | Ok b => match unmarshal b with None => fail_with PU_ParseMarker | Some mk => mret (Some mk) end
  end.
Definition clearMarker : FM oserr unit := remove_if_there markerPath.
Definition clearMarkerRetry : FM oserr unit := retry 2 clearMarker.

(** The lines of the quarantine file, as a set; any read error is the empty set. *)
Definition quarantine_lines (b : string) : gset string :=
  list_to_set (List.filter (fun l => negb (bool_decide (l = ""))) (TrimSpace <$> Split newline b)).
Definition readQuarantine {E} : FM E (gset string) :=
  caught (ReadFile quarantinePath) ≫= fun r => mret (match r with Ok b => quarantine_lines b | Err _ => ∅ end).
Definition isQuarantined (sha : string) : FM puerr bool := q ← readQuarantine; mret (bool_decide (sha ∈ q)).
(** [strings.Join(shas, "\n") + "\n"] of the sorted set. *)
Definition quarantine_text (q : gset string) : string :=
  String.concat (String newline "") (sort_strings (elements q)) +:+ String newline "".
Definition addQuarantine (sha : string) : FM oserr unit :=
  q ← readQuarantine;
  if decide (sha ∈ q) then mret () else WriteFile quarantinePath (quarantine_text ({[sha]} ∪ q)) m600.
Definition clearQuarantine : FM oserr unit := remove_if_there quarantinePath.

Definition Apply (data version : string) : FM puerr unit :=
  let pid := default 0 (NebulaPID cfg) in
  if pid <=? 0 then mret () else
  _ ← (if decide (NebulaPidPath cfg <> "") then wrap (fun _ => PU_Pidfile) (WriteFile (NebulaPidPath cfg) (pretty pid) m600) else mret ());
  t ← clock;
  _ ← writeMarker (mkMarker version (hexsum sha256 data) (t + ConfirmWithin cfg));
  _ ← or_clean (swap (SelfPath cfg) lastGood data) id
        (_ ← dropped clearMarker; if decide (NebulaPidPath cfg <> "") then dropped (Remove (NebulaPidPath cfg)) else mret ());
  reExec (reexecArgv (Args cfg) (SelfPath cfg) pid).

(** [io.ReadAll(io.LimitReader(body, m))] *)
Definition limited (m : Z) (body : string) : string := if len body <=? m then body else cut (Z.to_nat m) body.

Definition fetch (url wantSHA : string) : result puerr string :=
  match Get cfg url with
  | None => Err PU_Fetch
  | Some (status, body) =>
      if negb (status =? 200) then Err PU_Status
      else match body with
           | None => Err PU_Body
           | Some body =>
               let data := limited (MaxBytes cfg + 1) body in
               if MaxBytes cfg <? len data then Err PU_TooLarge
               else if decide (hexsum sha256 data = wantSHA) then Ok data else Err PU_Sha
           end
  end.

Definition Sync (desiredVersion desiredSHA url : string) : FM puerr bool :=
  let sha := ToLower (TrimSpace desiredSHA) in
  if decide (sha = "") then mret false
  else cur ← caught (SHA256 sha256 (SelfPath cfg) sha);
    match cur with
    | Ok _ => mret false
    | Err _ =>
        q ← isQuarantined sha;
        if (q : bool) then mret false
        else if decide (url = "") then fail_with PU_NoUrl
        else match fetch url sha with
             | Err e => fail_with e
             | Ok data => _ ← Apply data desiredVersion; mret true
             end
    end.

Definition CheckRevert : FM puerr bool :=
  r ← caught readMarker;
  match r with
  | Err _ => _ ← dropped clearMarker; fail_with PU_Unreadable
  | Ok None => mret false
  | Ok (Some mk) =>
      t ← clock;
      if t <? mk_Deadline mk then mret false
      else
        _ ← (if decide (mk_SHA mk <> "") then dropped (addQuarantine (mk_SHA mk)) else mret ());
        same ← caught (sameContents (SelfPath cfg) lastGood);
        match same with
        | Ok true => _ ← dropped clearMarker; mret false
        | _ =>
            _ ← wrap (fun _ => PU_RevertFailed) (restoreRetry lastGood (SelfPath cfg));
            _ ← dropped clearMarker;
            mret true
        end
  end.

Definition Confirm (version : string) : FM puerr unit :=
  mk ← readMarker;
  match mk with
  | None => mret ()
  | Some mk =>
      if decide (version <> "" /\ mk_Version mk <> version) then mret ()
      else
        _ ← wrap (fun _ => PU_Confirm) clearMarkerRetry;
        dropped clearQuarantine
  end.

Definition Pending : FM puerr bool := r ← caught readMarker; mret (match r with Ok (Some _) => true | _ => false end).
End manager.
End pilotupdate.

(** A pidfile that parses is consumed. *)
Definition ReadAdoptPID (path : string) : FM puerr Z :=
  caught (ReadFile path) ≫= fun r => match r with
  | Err _ => mret 0
  | Ok b => match Atoi (TrimSpace b) with
            | None => mret 0
            | Some pid => if pid <=? 0 then mret 0 else _ ← dropped (Remove path); mret pid
            end
  end.

(** ** What the operations do to the files *)

Section effects.
Context (HP : Host -> Prop) (C : Files -> Prop) (X : list string -> Files -> Prop).

Lemma cwp_remove_if_there p (Q : result oserr unit -> Files -> Prop) (s s0 : Files) : off [p] s0 s ->
  (forall s1, off [p] s0 s1 -> C s1) -> (forall r s1, off [p] s0 s1 -> Q r s1) -> cwp HP C X (remove_if_there p) Q s.
Proof.
  intros H0 HC HQ. apply cwp_bind, cwp_caught. eapply cwp_Remove_own; [exact H0|done|].
  intros r s1 H1. destruct r as [[]|[]]; [apply cwp_ret|apply cwp_ret|apply cwp_fail..]; by apply HQ.
Qed.

(** An invariant that the failing tries keep. *)
Lemma cwp_retry {E} (I : Files -> Prop) n (m : FM E unit) (Q : result E unit -> Files -> Prop) (s : Files) : I s ->
  (forall s1, I s1 -> cwp HP C X m (fun r s2 => match r with Ok _ => Q (Ok ()) s2 | Err _ => I s2 end) s1) ->
  (forall e s1, I s1 -> Q (Err e) s1) -> cwp HP C X (retry n m) Q s.
Proof.
  intros HI Hm HE. revert s HI. induction n as [|n IH]; intros s HI; cbn [retry]; apply cwp_bind, cwp_caught; (eapply cwp_mono; [by apply Hm|]);
    intros [[]|e] s1 H1; [by apply cwp_ret|apply cwp_fail; by apply HE|by apply cwp_ret|by apply IH].
Qed.

End effects.

(** ** The invariants of the files *)

Section invariant.
Context (sha256 : string -> string) (unmarshal : string -> option marker) (self : string).
Abbreviation lg := (self +:+ ".last-good").
Abbreviation mkp := (self +:+ ".pending-update").
Abbreviation qp := (self +:+ ".quarantine").
Implicit Types (s : Files) (G : gset string).

(** An executable file whose digest is in [G]. *)
Definition good_bin G s (p : string) : Prop := exists f, s !! p = Some f /\ mode f = m755 /\ hexsum sha256 (contents f) ∈ G.

(** The kept binary, where there is one. *)
Definition lg_ok G s : Prop := forall f, s !! lg = Some f -> good_bin G s lg.

(** A binary on trial: the marker names it, and a binary is kept to go back to. *)
Definition on_trial s : Prop := exists f mf mk, s !! self = Some f /\ mode f = m755 /\
  s !! mkp = Some mf /\ unmarshal (contents mf) = Some mk /\ mk_SHA mk = hexsum sha256 (contents f) /\ is_Some (s !! lg).

(** [G] holds the digests of confirmed binaries. *)
Definition guarded G s : Prop := lg_ok G s /\ (good_bin G s self \/ on_trial s).

Lemma good_bin_ext G s s1 p : s1 !! p = s !! p -> good_bin G s p -> good_bin G s1 p.
Proof. intros E (f & Hf & H). exists f. by rewrite E. Qed.
Lemma lg_ok_ext G s s1 : s1 !! lg = s !! lg -> lg_ok G s -> lg_ok G s1.
Proof. intros E H f Hf. rewrite E in Hf. eapply good_bin_ext; eauto. Qed.
Lemma guarded_ext G s s1 : s1 !! lg = s !! lg -> s1 !! self = s !! self -> s1 !! mkp = s !! mkp -> guarded G s -> guarded G s1.
Proof.
  intros E1 E2 E3 [H1 H2]. split; [by eapply lg_ok_ext|]. destruct H2 as [H2|(f & mf & mk & H2)]; [left; by eapply good_bin_ext|].
  right. exists f, mf, mk. by rewrite E1, E2, E3.
Qed.
Lemma guarded_mono G G' s : G ⊆ G' -> guarded G s -> guarded G' s.
Proof.
  assert (Hb : forall p, G ⊆ G' -> good_bin G s p -> good_bin G' s p) by (intros p HG (f & H1 & H2 & H3); exists f; set_solver).
  intros HG [H1 H2]. split; [intros f Hf; by apply Hb; [|eapply H1]|]. destruct H2; [left; by apply Hb|by right].
Qed.
Lemma guarded_good G s : lg_ok G s -> good_bin G s self -> guarded G s.
Proof. split; auto. Qed.

(** A copy of a good binary is good. *)
Lemma copy_good G s s1 p q f : good_bin G s p -> s !! p = Some f -> s1 !! q = Some (mkFile (contents f) m755) -> good_bin G s1 q.
Proof. intros (f' & Hf' & _ & HG) Hf H1. rewrite Hf in Hf'. injection Hf' as <-. by eexists. Qed.

Lemma staged_lg G s s1 : lg_ok G s -> good_bin G s self -> kept self s s1 -> lg_ok G s1.
Proof. intros Hl Hs [E|(f & Hf & H1)]; [by eapply lg_ok_ext|]. intros f' _. by eapply copy_good. Qed.

Lemma staged_good G s s1 : lg_ok G s -> good_bin G s self -> staged self s s1 -> lg_ok G s1 /\ good_bin G s1 self.
Proof. intros Hl Hs [Ho Hk]. split; [by eapply staged_lg|]. eapply good_bin_ext; [|done]. apply Ho. notin. Qed.

(** Writing or removing a file apart from the three. *)
Definition apart (p : string) : Prop := p <> self /\ p <> lg /\ p <> mkp.

Lemma guarded_off G s s1 p : apart p -> off [p] s s1 -> guarded G s -> guarded G s1.
Proof. intros (H1 & H2 & H3) Ho. apply guarded_ext; apply Ho, not_elem_of_cons; (split; [done|apply not_elem_of_nil]). Qed.
Lemma good_off G s s1 p q : p <> q -> off [p] s s1 -> good_bin G s q -> good_bin G s1 q.
Proof. intros H Ho. apply good_bin_ext, Ho, not_elem_of_cons. split; [done|apply not_elem_of_nil]. Qed.
Lemma lg_off G s s1 p : p <> lg -> off [p] s s1 -> lg_ok G s -> lg_ok G s1.
Proof. intros H Ho. apply lg_ok_ext, Ho, not_elem_of_cons. split; [done|apply not_elem_of_nil]. Qed.

(** Both, for a confirmed binary: what an update in preparation keeps. *)
Definition settled G s : Prop := lg_ok G s /\ good_bin G s self.
Lemma settled_off G s s1 p : p <> self -> p <> lg -> off [p] s s1 -> settled G s -> settled G s1.
Proof. intros H1 H2 Ho [Hl Hs]. split; [by eapply lg_off|by eapply good_off]. Qed.
Lemma settled_guarded G s : settled G s -> guarded G s.
Proof. intros []. by apply guarded_good. Qed.
Lemma apart_q : apart qp.
Proof. repeat split; names. Qed.
End invariant.

Section lifecycle.
Context (sha256 : string -> string) (marshal : marker -> string).
Context (HP : Host -> Prop) (self pidp : string) (Hpid : apart self pidp).
Abbreviation lg := (self +:+ ".last-good").
Abbreviation mkp := (self +:+ ".pending-update").
Implicit Types (s : Files) (G : gset string).

(** A manager of this binary, with the real re-exec. *)
Definition manages (cfg : Config) : Prop := SelfPath cfg = self /\ NebulaPidPath cfg = pidp /\ (ReExec cfg = None \/ ReExec cfg = Some realReExec).

Lemma realReExec_cwp C X argv (Q : result puerr unit -> Files -> Prop) s :
  C s -> X argv s -> (forall e, Q (Err e) s) -> cwp HP C X (realReExec argv) Q s.
Proof.
  intros HC HX HE. destruct argv as [|a l]; [by apply cwp_fail|]. intros h n _. cbn. unfold exec_process.
  by destruct (h_ev h n K_Write).
Qed.

(** [Apply] from a settled state: settled until the swap, and what the swap establishes after. *)
Lemma Apply_cwp G (J : Files -> Prop) cfg data version s : manages cfg -> settled sha256 self G s ->
  (forall s1 s2 mf dl, settled sha256 self G s1 -> s1 !! mkp = Some mf ->
     contents mf = marshal (mkMarker version (hexsum sha256 data) dl) -> swapped HP self data s1 s2 -> J s2) ->
  cwp HP (fun s' => settled sha256 self G s' \/ J s') (fun _ => J) (Apply sha256 marshal cfg data version)
    (fun _ s' => settled sha256 self G s' \/ J s') s.
Proof.
  intros (Hself & Hpp & Hre) Hs HJ. unfold Apply. destruct (_ <=? 0); [apply cwp_ret; by left|].
  destruct Hpid as (Hp1 & Hp2 & Hp3).
  assert (Hrm : forall s1, settled sha256 self G s1 -> cwp HP (fun s' => settled sha256 self G s' \/ J s') (fun _ => J)
            (_ ← dropped (clearMarker cfg); if decide (NebulaPidPath cfg <> "") then dropped (Remove (NebulaPidPath cfg)) else mret () : FM puerr unit)
            (fun _ s' => settled sha256 self G s') s1).
  { intros s1 H1. apply cwp_bind, cwp_dropped. unfold clearMarker, markerPath. rewrite Hself.
    assert (Hm : forall s2, off [mkp] s1 s2 -> settled sha256 self G s2) by (intros; eapply settled_off; [| |done|done]; names).
    eapply cwp_remove_if_there; [apply off_refl|intros; left; by apply Hm|]. intros _ s2 H2. apply Hm in H2. rewrite Hpp.
    destruct (decide _); [|by apply cwp_ret]. apply cwp_dropped. eapply cwp_Remove_own; [apply off_refl| |];
      intros; [left|]; eapply settled_off; [| |done|done| | |done|done]; done. }
  apply cwp_bind. eapply (cwp_mono _ _ _ _ (fun _ s1 => settled sha256 self G s1)).
  { rewrite Hpp. clear Hrm. destruct (decide (pidp <> "")); [|by apply cwp_ret].
    assert (Ho : forall s1, off [pidp] s s1 -> settled sha256 self G s1) by (intros; eapply settled_off; [| |done|done]; done).
    apply cwp_wrap, cwp_WriteFile; [intros; left; by apply Ho|intros; by apply Ho|]. intros. apply Ho, off_insert; [isin|done]. }
  clear s Hs. intros [[]|e] s Hs; [|by left]. apply cwp_bind, cwp_clock. intros h n _. apply cwp_bind. unfold writeMarker, markerPath. rewrite Hself.
  assert (Hm : forall s2, off [mkp] s s2 -> settled sha256 self G s2) by (intros; eapply settled_off; [| |done|done]; names).
  apply cwp_wrap, cwp_WriteFile; [intros; left; by apply Hm|intros; left; by apply Hm|]. intros m _. set (s1 := <[mkp := _]> s).
  assert (H1 : settled sha256 self G s1) by (apply Hm, off_insert; [isin|done]).
  assert (Hst : forall s2, staged self s1 s2 -> settled sha256 self G s2) by (intros s2 H2; destruct H1; by eapply staged_good).
  apply cwp_bind, cwp_or_clean. unfold lastGood. rewrite Hself. apply swap_cwp.
  - intros s2 H2. left. by apply Hst.
  - intros e s2 H2. apply Hst, Hrm in H2. eapply cwp_mono; [exact H2|]. intros r s3 H3. by left.
  - intros s2 H2. assert (J s2) as H3. { eapply (HJ s1 s2); [done|apply lookup_insert_eq|done|done]. }
    unfold reExec. destruct Hre as [-> | ->]; cbn [default from_option id]; (apply realReExec_cwp; [by right|done|by right]).
Qed.

Lemma isQuarantined_looks cfg sha : looks (isQuarantined cfg sha).
Proof. repeat (apply looks_bind; [auto with ncp|intros]); auto with ncp. Qed.

Lemma fetch_sha cfg url want data : fetch sha256 cfg url want = Ok data -> hexsum sha256 data = want.
Proof.
  unfold fetch. destruct (Get cfg url) as [[st [body|]]|]; [|destruct (negb _); done|done]. destruct (negb _); [done|]. destruct (_ <? _); [done|].
  destruct (decide _); [by intros [= <-]|done].
Qed.

(** [Sync] only touches the files through [Apply], of data with the pinned digest. *)
Lemma Sync_cwp C X cfg version sha url (I : Files -> Prop) s : I s -> (forall s, I s -> C s) ->
  (forall data s, I s -> hexsum sha256 data = ToLower (TrimSpace sha) ->
     cwp HP C X (Apply sha256 marshal cfg data version) (fun _ s' => C s') s) ->
  cwp HP C X (Sync sha256 marshal cfg version sha url) (fun _ s' => C s') s.
Proof.
  intros Hs HIC HA. unfold Sync. destruct (decide _); [by apply cwp_ret, HIC|].
  apply cwp_bind, looks_caught; [apply looks_SHA256|by apply HIC|]. intros [[[]|e]|e]; [by apply cwp_ret, HIC| |by apply HIC].
  apply cwp_bind, isQuarantined_looks; [by apply HIC|]. intros [[]|e']; [by apply cwp_ret, HIC| |by apply HIC].
  destruct (decide _); [by apply cwp_fail, HIC|]. destruct (fetch _ _ _ _) as [data|e'] eqn:Ef; [|by apply cwp_fail, HIC].
  apply cwp_bind. eapply cwp_mono; [apply HA; [done|by eapply fetch_sha]|]. intros [[]|e'] s' H'; [by apply cwp_ret|done].
Qed.
End lifecycle.

Section startup.
Context (unmarshal : string -> option marker).
Context (HP : Host -> Prop) (C : Files -> Prop) (X : list string -> Files -> Prop) (cfg : Config).
Abbreviation self := (SelfPath cfg).
Abbreviation lg := (self +:+ ".last-good").
Abbreviation mkp := (self +:+ ".pending-update").
Abbreviation qp := (self +:+ ".quarantine").
Implicit Types (s : Files) (G : gset string).

Lemma readMarker_cwp (Q : result puerr (option marker) -> Files -> Prop) s : C s -> (~ sure HP -> Q (Err PU_ReadMarker) s) ->
  match s !! mkp with
  | None => Q (Ok None) s
  | Some mf => match unmarshal (contents mf) with Some mk => Q (Ok (Some mk)) s | None => Q (Err PU_ParseMarker) s end
  end -> cwp HP C X (readMarker unmarshal cfg) Q s.
Proof.
  intros HC HI HQ. apply cwp_bind, cwp_caught, cwp_ReadFile; [done|intros; by apply cwp_fail, HI|]. unfold markerPath.
  destruct (s !! mkp) as [mf|]; [|by apply cwp_ret]. destruct (unmarshal _); [by apply cwp_ret|by apply cwp_fail].
Qed.

Lemma clearMarker_cwp (Q : result oserr unit -> Files -> Prop) s : (forall s1, off [mkp] s s1 -> C s1) -> (forall r s1, off [mkp] s s1 -> Q r s1) ->
  cwp HP C X (clearMarker cfg) Q s.
Proof. intros. by eapply cwp_remove_if_there; [apply off_refl|..]. Qed.

Lemma addQuarantine_cwp sha (Q : result oserr unit -> Files -> Prop) s : (forall s1, off [qp] s s1 -> C s1) -> (forall r s1, off [qp] s s1 -> Q r s1) ->
  cwp HP C X (addQuarantine cfg sha) Q s.
Proof.
  intros HC HQ. apply cwp_bind. assert (Hl : looks (readQuarantine cfg : FM oserr (gset string))).
  { apply looks_bind; auto with ncp. }
  apply Hl; [by apply HC|]. intros [q|e]; [|by apply HQ]. destruct (decide _); [by apply cwp_ret, HQ|].
  apply cwp_WriteFile; [done|intros; by apply HQ|]. intros. apply HQ, off_insert; [isin|done].
Qed.

Lemma restoreRetry_cwp (Q : result puerr unit -> Files -> Prop) s :
  (forall s1, off [self +:+ ".tmp"] s s1 -> C s1) -> (forall e s1, off [self +:+ ".tmp"] s s1 -> Q (Err e) s1) ->
  (forall f s1, s !! lg = Some f -> off [self +:+ ".tmp"; self] s s1 -> s1 !! self = Some (mkFile (contents f) m755) -> Q (Ok ()) s1) ->
  cwp HP C X (restoreRetry lg self) Q s.
Proof.
  intros HC HE HQ. apply (cwp_retry _ _ _ (off [self +:+ ".tmp"] s)); [done| |done]. intros s1 H1.
  apply cwp_bind, cwp_wrap, cwp_Stat; [by apply HC|done|]. destruct (s1 !! lg); [|done].
  assert (Hlg : lg ∉ [self +:+ ".tmp"; self]) by notin.
  apply cwp_wrap, copyFile_cwp; [names|intros; by eapply HC, off_trans|intros; by eapply off_trans|].
  intros f' s2 Hf' H2 Hs. apply (HQ f'); [|eapply off_trans; [eapply off_weaken; [|exact H1]; set_solver|done]|done].
  rewrite <- Hf'. symmetry. apply H1. set_solver.
Qed.

Lemma Confirm_cwp version s : C s -> (forall s1, is_Some (s !! mkp) -> off [mkp; qp] s s1 -> s1 !! mkp = s !! mkp \/ s1 !! mkp = None -> C s1) ->
  cwp HP C X (Confirm unmarshal cfg version) (fun _ s1 => C s1) s.
Proof.
  intros HC0 HC. apply cwp_bind, readMarker_cwp; [done..|]. destruct (s !! mkp) as [mf|] eqn:Hmk; [|by apply cwp_ret].
  destruct (unmarshal _) as [mk|]; [|done]. destruct (decide _); [by apply cwp_ret|].
  set (I := fun s1 : Files => off [mkp; qp] s s1 /\ (s1 !! mkp = s !! mkp \/ s1 !! mkp = None)).
  assert (HI : forall s1, I s1 -> C s1). { intros s1 [H1 H2]. apply HC; [eauto|done|]. by rewrite <- Hmk. }
  assert (Hrm : forall p s1 (Q : result oserr unit -> Files -> Prop), p = mkp \/ p = qp -> I s1 -> (forall r s2, I s2 -> Q r s2) -> cwp HP C X (remove_if_there p) Q s1).
  { intros p s1 Q Hp [H1 H2] HQ. apply cwp_bind, cwp_caught.
    assert (Hd : I (delete p s1)). { split; [apply off_delete; [destruct Hp as [-> | ->]; set_solver|done]|].
      destruct Hp as [-> | ->]; [right; apply lookup_delete_eq|]. by rewrite lookup_delete_ne by names. }
    apply cwp_Remove; [by apply HI|by apply cwp_fail, HQ|]. destruct (s1 !! p); apply cwp_ret; by apply HQ. }
  apply cwp_bind, cwp_wrap, (cwp_retry _ _ _ I); [by split; [|left]| | ].
  - intros s1 H1. apply Hrm; [by left|done|]. intros [[]|e] s2 H2; [|done]. apply cwp_dropped, Hrm; [by right|done|]. intros _ s3 H3. by apply HI.
  - intros e s1 H1. by apply HI.
Qed.
Context (sha256 : string -> string).

Lemma sameContents_cwp a b (Q : result oserr bool -> Files -> Prop) s : C s -> (forall r, r <> Ok true -> Q r s) ->
  ((exists f g, s !! a = Some f /\ s !! b = Some g /\ hexsum sha256 (contents f) = hexsum sha256 (contents g)) -> Q (Ok true) s) ->
  cwp HP C X (sameContents sha256 a b) Q s.
Proof.
  intros HC HQ HT. apply cwp_bind, cwp_bind, cwp_ReadFile; [done|intros _; by apply HQ|]. destruct (s !! a) as [f|] eqn:Ha; [|by apply HQ].
  apply cwp_ret, cwp_bind, cwp_bind, cwp_ReadFile; [done|intros _; by apply HQ|]. destruct (s !! b) as [g|] eqn:Hb; [|by apply HQ].
  apply cwp_ret, cwp_ret. destruct (bool_decide _) eqn:E; [|by apply HQ]. apply bool_decide_eq_true in E. apply HT. eauto 6.
Qed.

(** What [CheckRevert] may change: the marker and the quarantine; the binary only to a copy of
    the kept one, and only where the marker reads. *)
Lemma CheckRevert_cwp (I : Files -> Prop) s : I s -> (forall s, I s -> C s) ->
  (forall s s1, I s -> off [qp] s s1 -> I s1) -> (forall s s1, I s -> off [self +:+ ".tmp"] s s1 -> I s1) ->
  (forall s s1, I s -> (s !! mkp = None -> False) -> (sure HP -> forall mf, s !! mkp = Some mf -> unmarshal (contents mf) = None) -> off [mkp] s s1 -> C s1) ->
  (forall s s1 f g, I s -> s !! self = Some f -> s !! lg = Some g -> hexsum sha256 (contents f) = hexsum sha256 (contents g) -> off [mkp] s s1 -> C s1) ->
  (forall s s1 f, I s -> s !! lg = Some f -> off [mkp; self +:+ ".tmp"; self] s s1 -> s1 !! self = Some (mkFile (contents f) m755) -> C s1) ->
  (~ sure HP -> forall s s1, I s -> off [mkp] s s1 -> C s1) ->
  cwp HP C X (CheckRevert sha256 unmarshal cfg) (fun _ s1 => C s1) s.
Proof.
  intros Hs HIC Hq Ht Hbad Hsame Hrev Hun. unfold CheckRevert.
  assert (Hclear : forall (k : bool) s1, (forall s2, off [mkp] s1 s2 -> C s2) ->
            cwp HP C X (_ ← dropped (clearMarker cfg); mret k : FM puerr bool) (fun _ s1 => C s1) s1).
  { intros k s1 H1. apply cwp_bind, cwp_dropped, clearMarker_cwp; [done|]. intros. by apply cwp_ret, H1. }
  assert (Hclear' : forall s1, (forall s2, off [mkp] s1 s2 -> C s2) ->
            cwp HP C X (_ ← dropped (clearMarker cfg); fail_with PU_Unreadable : FM puerr bool) (fun _ s1 => C s1) s1).
  { intros s1 H1. apply cwp_bind, cwp_dropped, clearMarker_cwp; [done|]. intros. by apply cwp_fail, H1. }
  apply cwp_bind, cwp_caught, readMarker_cwp; [by apply HIC|intros Hn; apply Hclear'; intros s2; by apply Hun|].
  destruct (s !! mkp) as [mf|] eqn:Hmk; [|by apply cwp_ret, HIC]. destruct (unmarshal (contents mf)) as [mk|] eqn:Hu.
  2: { apply Hclear'. intros s2. apply Hbad; [done|congruence|]. intros _ mf' [= <-]%(eq_trans (eq_sym Hmk)). done. }
  apply cwp_bind, cwp_clock. intros h n _. destruct (_ <? _); [by apply cwp_ret, HIC|]. apply cwp_bind. eapply (cwp_mono _ _ _ _ (fun _ s1 => I s1)).
  { destruct (decide _); [|by apply cwp_ret]. apply cwp_dropped, addQuarantine_cwp; [intros; by eapply HIC, Hq|intros; by eapply Hq]. }
  clear s Hs Hmk. intros [[]|e] s Hs; [|by apply HIC]. apply cwp_bind, cwp_caught, sameContents_cwp; [by apply HIC| |].
  2: { intros (f & g & Hf & Hg & E). apply Hclear. intros s2. by apply (Hsame s s2 f g). }
  intros r Hr. assert (Hgo : cwp HP C X (_ ← wrap (fun _ => PU_RevertFailed) (restoreRetry lg self); _ ← dropped (clearMarker cfg); mret true : FM puerr bool) (fun _ s1 => C s1) s).
  { apply cwp_bind, cwp_wrap, restoreRetry_cwp; [intros; by eapply HIC, Ht|intros; by eapply HIC, Ht|]. intros f s1 Hf H1 Hc. apply Hclear.
    intros s2 H2. apply (Hrev s s2 f); [done..| |].
    - eapply off_trans; [eapply off_weaken; [|exact H1]|eapply off_weaken; [|exact H2]]; set_solver.
    - rewrite H2; [done|]. notin. }
  destruct r as [[]|e]; [done|exact Hgo|exact Hgo].
Qed.

End startup.

(** ** The life of a host *)

Section host.
Context (sha256 : string -> string) (marshal : marker -> string) (unmarshal : string -> option marker).
Context (self pidp : string).
Abbreviation mkp := (self +:+ ".pending-update").
Implicit Types (s : Files) (G V : gset string).

Definition digest_of s (p : string) : gset string := match s !! p with Some f => {[hexsum sha256 (contents f)]} | None => ∅ end.

(** The operations of Pilot, each run to its end or cut short by a crash at any point, on
    any hosts and with any pinned versions. [V]: the digests ever pinned. *)
Inductive pilot_step : Files * gset string -> Files * gset string -> Prop :=
| ps_sync cfg h v sha url s s' V : manages self pidp cfg ->
    leaves (Sync sha256 marshal cfg v sha url) h s s' -> pilot_step (s, V) (s', {[ToLower (TrimSpace sha)]} ∪ V)
| ps_start cfg h s s' V : manages self pidp cfg -> leaves (CheckRevert sha256 unmarshal cfg) h s s' -> pilot_step (s, V) (s', V)
| ps_confirm cfg h v s s' V : manages self pidp cfg -> leaves (Confirm unmarshal cfg v) h s s' -> pilot_step (s, V) (s', V)
| ps_adopt h s s' V : leaves (ReadAdoptPID pidp) h s s' -> pilot_step (s, V) (s', V).

(** The same where reads do not fail and an update starts from a confirmed binary. [G]: the
    digests of the confirmed binaries; removing the marker confirms. [valid] are the version
    strings the codec of the marker preserves. *)
Inductive trial_step (valid : string -> Prop) : Files * gset string -> Files * gset string -> Prop :=
| ts_sync cfg h v sha url s s' G : manages self pidp cfg -> reads_ok h -> valid v -> good_bin sha256 G s self ->
    leaves (Sync sha256 marshal cfg v sha url) h s s' -> trial_step valid (s, G) (s', G)
| ts_start cfg h s s' G : manages self pidp cfg -> reads_ok h -> leaves (CheckRevert sha256 unmarshal cfg) h s s' -> trial_step valid (s, G) (s', G)
| ts_confirm cfg h v s s' G : manages self pidp cfg -> leaves (Confirm unmarshal cfg v) h s s' ->
    trial_step valid (s, G) (s', if decide (s' !! mkp = None) then digest_of s self ∪ G else G)
| ts_adopt h s s' G : leaves (ReadAdoptPID pidp) h s s' -> trial_step valid (s, G) (s', G).

Lemma ReadAdoptPID_off h s s' : leaves (ReadAdoptPID pidp) h s s' -> off [pidp] s s'.
Proof.
  intros Hl. eapply (cwp_leaves (fun _ => True) (off [pidp] s)); [|done|exact Hl].
  apply cwp_bind, cwp_caught, looks_ReadFile; [done|]. intros [b|e]; [|by apply cwp_ret]. destruct (Atoi _); [|by apply cwp_ret].
  destruct (_ <=? 0); [by apply cwp_ret|]. apply cwp_bind, cwp_dropped. eapply cwp_Remove_own; [apply off_refl|done|]. intros. by apply cwp_ret.
Qed.

Lemma off2 p q s s1 : off [p] s s1 -> p <> q -> s1 !! q = s !! q.
Proof. intros Ho Hn. apply Ho, not_elem_of_cons. split; [done|apply not_elem_of_nil]. Qed.

Context (Hpid : apart self pidp).

Lemma settled_mono V V' s : V ⊆ V' -> settled sha256 self V s -> settled sha256 self V' s.
Proof.
  assert (Hb : forall p, V ⊆ V' -> good_bin sha256 V s p -> good_bin sha256 V' s p) by (intros p HG (f & H1 & H2 & H3); exists f; set_solver).
  intros HV [H1 H2]. split; [intros f Hf; by apply Hb; [|eapply H1]|by apply Hb].
Qed.

(** A kept binary copied over the installed one. *)
Lemma restored_settled V s s1 f : lg_ok sha256 self V s -> s !! (self +:+ ".last-good") = Some f ->
  off [mkp; self +:+ ".tmp"; self] s s1 -> s1 !! self = Some (mkFile (contents f) m755) -> settled sha256 self V s1.
Proof.
  intros Hl Hf Ho Hc. split; [eapply lg_ok_ext; [|done]; apply Ho; notin|]. eapply copy_good; [by eapply Hl|done|done].
Qed.

Lemma pilot_step_settled x y : pilot_step x y -> settled sha256 self x.2 x.1 -> settled sha256 self y.2 y.1.
Proof.
  destruct 1 as [cfg h v sha url s s' V Hm Hl|cfg h s s' V Hm Hl|cfg h v s s' V Hm Hl|h s s' V Hl]; cbn; intros Hs.
  - set (V' := {[ToLower (TrimSpace sha)]} ∪ V). apply (settled_mono _ V') in Hs; [|set_solver].
    eapply (cwp_leaves (fun _ => True)); [|done|exact Hl]. apply (Sync_cwp _ _ _ _ _ _ _ _ _ (settled sha256 self V')); [done|done|].
    intros data s1 H1 Hd. eapply cwp_mono.
    + eapply cwp_crash; [eapply (Apply_cwp _ _ _ self pidp Hpid V' (settled sha256 self V')); [done|done|]|by intros s2 [?|?]].
      intros s2 s3 mf dl [Hl2 Hs2] _ _ (Ho & Hk & Hn & _). split; [by eapply staged_lg|]. eexists. split; [exact Hn|]. split; [done|]. cbn. set_solver.
    + intros r s2 [?|?]; done.
  - destruct Hm as (Hself & _). eapply (cwp_leaves (fun _ => True)); [|done|exact Hl].
    apply (CheckRevert_cwp _ _ _ _ _ _ (settled sha256 self V)); [done|done|..]; rewrite ?Hself; intros;
      try (eapply settled_off; [| |done|done]; names). by eapply restored_settled; [by destruct H| | |].
  - destruct Hm as (Hself & _). eapply (cwp_leaves (fun _ => True)); [|done|exact Hl]. apply Confirm_cwp; [done|]. rewrite Hself. intros s1 _ Ho _.
    destruct Hs as [H1 H2]. split; [eapply lg_ok_ext; [|done]|eapply good_bin_ext; [|done]]; apply Ho; notin.
  - destruct Hpid as (Hp1 & Hp2 & _). apply ReadAdoptPID_off in Hl. by eapply settled_off.
Qed.

Lemma trial_step_guarded valid x y :
  (forall v data dl, valid v -> unmarshal (marshal (mkMarker v (hexsum sha256 data) dl)) = Some (mkMarker v (hexsum sha256 data) dl)) ->
  trial_step valid x y -> guarded sha256 unmarshal self x.2 x.1 -> guarded sha256 unmarshal self y.2 y.1.
Proof.
  intros Hcodec. destruct 1 as [cfg h v sha url s s' G Hm Hr Hv Hg Hl|cfg h s s' G Hm Hr Hl|cfg h v s s' G Hm Hl|h s s' G Hl]; cbn; intros Hs.
  - assert (Hset : settled sha256 self G s) by (by destruct Hs). eapply (cwp_leaves reads_ok); [|done|exact Hl].
    apply (Sync_cwp _ _ _ _ _ _ _ _ _ (settled sha256 self G)); [done|by apply settled_guarded|]. intros data s1 H1 _. eapply cwp_mono.
    + eapply cwp_crash; [eapply (Apply_cwp _ _ _ self pidp Hpid G (guarded sha256 unmarshal self G)); [done|done|]|by intros s2 [H2|H2]; [apply settled_guarded|]].
      intros s2 s3 mf dl [Hl2 (f & Hf & Hmode & HG)] Hmk Hc (Ho & Hk & Hn & Hc3). assert (Hlg : s3 !! (self +:+ ".last-good") = Some (mkFile (contents f) m755)) by (apply Hc3; [by intros ?|done]).
      split; [by eapply staged_lg; [|by exists f|]|]. right. exists (mkFile data m755), mf, (mkMarker v (hexsum sha256 data) dl).
      split; [done|]. split; [done|]. split; [rewrite Ho; [done|notin]|]. split; [by rewrite Hc, Hcodec|]. split; [done|]. rewrite Hlg. eauto.
    + intros r s2 [H2|H2]; [by apply settled_guarded|done].
  - destruct Hm as (Hself & _). eapply (cwp_leaves reads_ok); [|done|exact Hl].
    assert (Hsure : sure reads_ok) by (intros ?; done). pose proof (apart_q self) as Hq.
    apply (CheckRevert_cwp _ _ _ _ _ _ (guarded sha256 unmarshal self G)); [done|done|..]; rewrite ?Hself.
    + intros s1 s2 H1 Ho. by eapply guarded_off.
    + intros s1 s2 H1 Ho. eapply guarded_off; [|done|done]. repeat split; names.
    + intros s1 s2 [Hl1 [Hg|(f & mf & mk & _ & _ & Hmk & Hu & _)]] _ Hbad Ho; [|exfalso; by rewrite (Hbad Hsure mf Hmk) in Hu].
      apply settled_guarded. eapply settled_off; [| |done|done]; names.
    + intros s1 s2 f g [Hl1 H1] Hf Hg E Ho. apply settled_guarded. eapply (settled_off _ _ _ s1 s2 mkp); [names|names|done|]. split; [done|].
      destruct (Hl1 g Hg) as (g' & Hg' & _ & HG). rewrite Hg in Hg'. injection Hg' as <-.
      exists f. rewrite E. split; [done|]. split; [|done]. destruct H1 as [(f' & Hf' & Hm & _)|(f' & ? & ? & Hf' & Hm & _)]; congruence.
    + intros s1 s2 f [Hl1 _] Hf Ho Hc. apply settled_guarded. by eapply restored_settled.
    + intros Hn. by destruct Hn.
  - destruct Hm as (Hself & _).
    set (C := fun s' : Files => guarded sha256 unmarshal self (if decide (s' !! mkp = None) then digest_of s self ∪ G else G) s'). fold (C s').
    eapply (cwp_leaves (fun _ => True)); [|done|exact Hl]. apply Confirm_cwp; [unfold C; destruct (decide _); [eapply guarded_mono; [|done]; set_solver|done]|].
    rewrite Hself. intros s1 [mf Hmf] Ho Hmk. assert (E1 : s1 !! (self +:+ ".last-good") = s !! (self +:+ ".last-good")) by (apply Ho; notin).
    assert (E2 : s1 !! self = s !! self) by (apply Ho; notin). unfold C. destruct (decide (s1 !! mkp = None)) as [Hn|Hn].
    + eapply (guarded_mono _ _ _ G (digest_of s self ∪ G)) in Hs; [|set_solver]. destruct Hs as [Hl1 H1]. split; [by eapply lg_ok_ext|]. left.
      eapply good_bin_ext; [exact E2|]. destruct H1 as [H1|(f & ? & ? & Hf & Hmode & _)]; [done|]. exists f. split; [done|]. split; [done|].
      unfold digest_of. rewrite Hf. set_solver.
    + destruct Hmk as [Hmk|Hmk]; [|done]. by eapply guarded_ext.
  - apply ReadAdoptPID_off in Hl. by eapply guarded_off.
Qed.
End host.

(** ** The quarantine file *)

Definition plain_line (x : string) : Prop := TrimSpace x = x /\ x <> "" /\ newline ∉ chars x.

Lemma quarantine_lines_elem b x : x ∈ quarantine_lines b <-> x <> "" /\ exists l, l ∈ Split newline b /\ x = TrimSpace l.
Proof.
  unfold quarantine_lines. rewrite elem_of_list_to_set, list_elem_of_In, filter_In, <- list_elem_of_In, list_elem_of_fmap, negb_true_iff, bool_decide_eq_false.
  naive_solver.
Qed.

Lemma quarantine_lines_plain b x : x ∈ quarantine_lines b -> plain_line x.
Proof.
  intros [Hx (l & Hl & ->)]%quarantine_lines_elem. split; [apply TrimSpace_idem|]. split; [done|]. intros H%TrimSpace_chars. by eapply Split_no_sep.
Qed.

(** Reading back a quarantine that was written. *)
Lemma quarantine_roundtrip (q : gset string) : (forall x, x ∈ q -> plain_line x) -> q <> ∅ -> quarantine_lines (quarantine_text q) = q.
Proof.
  intros Hq Hne. assert (Hel : forall x, x ∈ sort_strings (elements q) <-> x ∈ q) by (intros x; by rewrite sort_strings_perm, elem_of_elements).
  assert (Hs : Split newline (quarantine_text q) = sort_strings (elements q) ++ [""]).
  { apply Split_concat; [|intros E; apply Hne; apply set_eq; intros x; rewrite <- Hel, E; set_solver].
    apply Forall_forall. intros x Hx%Hel. by destruct (Hq x Hx) as (_ & _ & ?). }
  apply set_eq. intros x. rewrite quarantine_lines_elem, Hs. setoid_rewrite elem_of_app. setoid_rewrite Hel. split.
  - intros [Hx (l & [Hl| ->%list_elem_of_singleton] & ->)]; [|done]. by destruct (Hq l Hl) as (-> & _ & _).
  - intros Hx. destruct (Hq x Hx) as (H1 & H2 & _). split; [done|]. exists x. eauto.
Qed.

(** The hexadecimal digits of a digest are such a line. *)
Lemma hex_digit_char n : (n < 16)%N -> NebulaRelease.hex_char (hex_digit n) = true.
Proof.
  intros Hn. unfold NebulaRelease.hex_char, hex_digit, of_byte. rewrite N_ascii_embedding by (destruct (n <? 10)%N eqn:E; lia).
  destruct (n <? 10)%N eqn:E; [apply N.ltb_lt in E|apply N.ltb_ge in E]; apply orb_true_iff; [left|right]; apply andb_true_iff; split; apply Z.leb_le; lia.
Qed.
Lemma hex_isHex s : NebulaRelease.isHex (hex s) = true.
Proof.
  unfold NebulaRelease.isHex. induction s as [|c s IH]; [done|]. cbn [hex chars forallb]. pose proof (N_ascii_bounded c).
  rewrite !hex_digit_char, IH; [done|by apply N.mod_lt|by apply N.Div0.div_lt_upper_bound].
Qed.
Lemma isHex_no_newline s : NebulaRelease.isHex s = true -> newline ∉ chars s.
Proof. intros H Hn. unfold NebulaRelease.isHex in H. rewrite forallb_elem in H. by specialize (H newline Hn). Qed.
Lemma hexsum_plain sha256 d : sha256 d <> "" -> plain_line (hexsum sha256 d) /\ ToLower (TrimSpace (hexsum sha256 d)) = hexsum sha256 d.
Proof.
  intros Hd. pose proof (hex_isHex (sha256 d)) as Hh. fold (hexsum sha256 d) in Hh. split; [|by apply Releases.hex_plain].
  split; [by apply Releases.hex_trim|]. split; [|by apply isHex_no_newline]. unfold hexsum. by destruct (sha256 d).
Qed.

(** ** An update that failed is undone *)

Section undo.
Context (sha256 : string -> string) (unmarshal : string -> option marker) (Hsha : forall d, sha256 d <> "").
Context (cfg : Config).
Abbreviation self := (SelfPath cfg).
Abbreviation lg := (self +:+ ".last-good").
Abbreviation mkp := (self +:+ ".pending-update").
Abbreviation qp := (self +:+ ".quarantine").
Implicit Types (s : Files) (G : gset string).

Lemma returns_addQuarantine HP sha (Q : result oserr unit -> Files -> Prop) s : smooth HP -> plain_line sha ->
  (forall s1 qf, off [qp] s s1 -> s1 !! qp = Some qf -> sha ∈ quarantine_lines (contents qf) -> Q (Ok ()) s1) ->
  returns HP (addQuarantine cfg sha) Q s.
Proof.
  intros Hc Hsh HQ. apply cwp_bind, cwp_bind, cwp_caught, (returns_op _ Hc). intros h. cbn [fst snd]. apply cwp_ret. unfold quarantinePath.
  set (q := match _ with Ok b => quarantine_lines b | Err _ => ∅ end).
  assert (Hq : forall x, x ∈ q -> plain_line x). { subst q. destruct (s !! qp); [intros x; apply quarantine_lines_plain|set_solver]. }
  destruct (decide (sha ∈ q)) as [Hin|Hin].
  - apply cwp_ret. subst q. destruct (s !! qp) as [qf|] eqn:E; [|set_solver]. by apply (HQ s qf).
  - apply (returns_op _ Hc). intros h'. cbn [fst snd]. eapply HQ; [apply off_insert; [isin|done]|apply lookup_insert_eq|].
    cbn [contents]. rewrite quarantine_roundtrip; [set_solver|intros x [->%elem_of_singleton|Hx]%elem_of_union; auto|set_solver].
Qed.

Lemma CheckRevert_returns HP G s f g mf mk : smooth HP -> (forall h k, HP h -> mk_Deadline mk <= h_clk h k) ->
  lg_ok sha256 self G s -> s !! self = Some f -> s !! lg = Some g -> hexsum sha256 (contents f) ∉ G ->
  s !! mkp = Some mf -> unmarshal (contents mf) = Some mk -> mk_SHA mk = hexsum sha256 (contents f) ->
  returns HP (CheckRevert sha256 unmarshal cfg)
    (fun r s' => r = Ok true /\ settled sha256 self G s' /\ s' !! mkp = None /\
                 exists qf, s' !! qp = Some qf /\ hexsum sha256 (contents f) ∈ quarantine_lines (contents qf)) s.
Proof.
  intros Hc Hdl Hl Hf Hg HnG Hmk Hu Hsh. destruct (hexsum_plain sha256 (contents f) (Hsha _)) as [Hpl _].
  unfold CheckRevert, clearMarker, lastGood. apply cwp_bind, cwp_caught, cwp_bind, cwp_caught. eapply returns_ReadFile; [done|exact Hmk|]. rewrite Hu. apply cwp_ret.
  apply cwp_bind, cwp_clock. intros h n Hh. rewrite (proj2 (Z.ltb_ge _ _)) by auto. apply cwp_bind. rewrite decide_True by (rewrite Hsh; apply Hpl).
  apply cwp_dropped, returns_addQuarantine; [done|by rewrite Hsh|]. intros s1 qf H1 Hq Hin. rewrite Hsh in Hin.
  assert (E1 : s1 !! self = Some f) by (rewrite H1; [done|notin]). assert (E2 : s1 !! lg = Some g) by (rewrite H1; [done|notin]).
  assert (E3 : s1 !! mkp = Some mf) by (rewrite H1; [done|notin]). apply (lg_ok_ext _ _ _ _ s1) in Hl; [|by rewrite E2].
  apply cwp_bind, cwp_caught, cwp_bind, cwp_bind. eapply returns_ReadFile; [done|exact E1|].
  apply cwp_ret, cwp_bind, cwp_bind. eapply returns_ReadFile; [done|exact E2|]. apply cwp_ret, cwp_ret.
  destruct (Hl g E2) as (g' & Hg' & _ & HG). rewrite E2 in Hg'. injection Hg' as <-. rewrite bool_decide_false by (intros E; by rewrite E in HnG).
  apply cwp_bind, cwp_wrap, cwp_bind, cwp_caught, cwp_bind, cwp_wrap, (returns_op _ Hc). intros _. cbn [fst snd]. rewrite E2.
  apply cwp_wrap. eapply returns_copyFile; [done|exact E2|]. intros s2 H2 Hc2. apply cwp_ret.
  apply cwp_bind, cwp_dropped, cwp_bind, cwp_caught, (returns_op _ Hc). intros _. unfold markerPath.
  rewrite (H2 mkp) by notin. rewrite E3. cbn [fst snd]. apply cwp_ret, cwp_ret. split; [done|]. split; [|split].
  - eapply (restored_settled _ _ _ s1); [done|exact E2| |by rewrite lookup_delete_ne by names]. apply off_delete; [isin|]. eapply off_weaken; [|exact H2]. set_solver.
  - apply lookup_delete_eq.
  - exists qf. split; [|done]. rewrite lookup_delete_ne by names. rewrite H2 by notin. done.
Qed.

Lemma Sync_quarantined HP marshal cfg' G s f qf d v url : smooth HP -> SelfPath cfg' = self -> good_bin sha256 G s self -> s !! self = Some f ->
  hexsum sha256 d ∉ G -> s !! qp = Some qf -> hexsum sha256 d ∈ quarantine_lines (contents qf) ->
  returns HP (Sync sha256 marshal cfg' v (hexsum sha256 d) url) (fun r s' => r = Ok false /\ s' = s) s.
Proof.
  intros Hc Hself (f' & Hf' & _ & HG) Hf HnG Hq Hin. rewrite Hf in Hf'. injection Hf' as <-.
  destruct (hexsum_plain sha256 d (Hsha _)) as [Hpl Hlow]. unfold Sync. rewrite Hlow, Hself. rewrite decide_False by apply Hpl.
  apply cwp_bind, cwp_caught. eapply returns_SHA256; [done|exact Hf|]. rewrite Hlow. rewrite decide_False by apply Hpl.
  rewrite decide_False by (intros E; by rewrite E in HG). apply cwp_bind, cwp_bind, cwp_bind, cwp_caught. unfold quarantinePath. rewrite Hself.
  eapply returns_ReadFile; [done|exact Hq|]. apply cwp_ret, cwp_ret. rewrite bool_decide_true by done. by apply cwp_ret.
Qed.
End undo.

(** ** Concrete hosts *)

Module example.
Definition sha (d : string) : string := be 32 (of_be 0 d).

(** A codec of markers: the bits of their number. *)
Fixpoint bits (p : positive) : string :=
  match p with xH => "" | xO p => String "0" (bits p) | xI p => String "1" (bits p) end.
Fixpoint number (s : string) : positive :=
  match s with "" => xH | String c s => if decide (c = "0"%char) then xO (number s) else xI (number s) end.
Definition marsh (mk : marker) : string := bits (encode (mk_Version mk, mk_SHA mk, mk_Deadline mk)).
Definition unmarsh (s : string) : option marker := (fun x => mkMarker x.1.1 x.1.2 x.2) <$> decode (number s).

Lemma number_bits p : number (bits p) = p.
Proof. induction p as [p IH|p IH|]; cbn; by rewrite ?IH. Qed.
Lemma unmarsh_marsh mk : unmarsh (marsh mk) = Some mk.
Proof. unfold unmarsh, marsh. rewrite number_bits, decode_encode. by destruct mk. Qed.
Lemma sha_nonempty d : sha d <> "".
Proof. intros H. apply (f_equal String.length) in H. unfold sha in H. by rewrite be_length in H. Qed.

Definition cfg (pid : option Z) : Config :=
  NewPilot (mkConfig "/p" "/n" pid ["pilot"; "supervise"] None
    (fun u => if decide (u = "u3") then Some (200, Some "v3") else if decide (u = "u4") then Some (200, Some "v4") else None) 0 1000).
(** Nothing fails before operation [i], which answers [e]; the clock stands at [t]. *)
Definition at_op (i : nat) (e : event) (t : Z) : Host := mkHost (fun _ => t) (fun n _ => if decide (n = i) then e else E_Ok) 0.
Definition fine (t : Z) : Host := mkHost (fun _ => t) (fun _ _ => E_Ok) 0.
Definition bin (c : string) : file := mkFile c m755.
Definition pin (c : string) : string := hexsum sha c.
Definition after {E A} (m : FM E A) (h : Host) (s : Files) : Files := (m h 0%nat s).2.
Definition result_of {E A} (m : FM E A) (h : Host) (s : Files) : outcome E A := (m h 0%nat s).1.1.

Definition ours : gset string := {[pin "v1"; pin "v2"]}.
Definition disk : Files := {[ "/p" := bin "v2"; "/p.last-good" := bin "v1" ]}.
Definition first : Files := {[ "/p" := bin "v1" ]}.
Definition sync3 (pid : Z) : FM puerr bool := Sync sha marsh (cfg (Some pid)) "3" (pin "v3") "u3".
Definition sync4 : FM puerr bool := Sync sha marsh (cfg (Some 7)) "4" (pin "v4") "u4".
Definition start : FM puerr bool := CheckRevert sha unmarsh (cfg None).
End example.

Import example.

(** C24: the pilot binary is never missing, never partial and never anything but a binary that was
    pinned: whatever operation fails and wherever the process dies, in any sequence of update
    checks, startups, confirmations and adoptions, the file at its path is executable and its
    digest is the original's or one that an update check was asked for. *)
Theorem pilot_always_runs sha256 marshal unmarshal self pidp s0 V0 s V :
  apart self pidp -> settled sha256 self V0 s0 ->
  rtc (pilot_step sha256 marshal unmarshal self pidp) (s0, V0) (s, V) ->
  good_bin sha256 V s self.
Proof.
  intros Hp H0 Hr. enough (settled sha256 self (s, V).2 (s, V).1) as [_ H] by exact H.
  eapply (rtc_invariant _ (fun x => settled sha256 self x.2 x.1)); [by intros; eapply pilot_step_settled|exact Hr|done].
Qed.

Lemma disk_settled : settled sha "/p" ours disk.
Proof.
  assert (Hv : forall p c, disk !! p = Some (bin c) -> c = "v1" \/ c = "v2" -> good_bin sha ours disk p).
  { intros p c Hc Hv. exists (bin c). split; [done|]. split; [done|]. unfold ours, pin. destruct Hv as [-> | ->]; set_solver. }
  split; [intros f _|]; eapply Hv; [by vm_compute|by left|by vm_compute|by right].
Qed.
Lemma p_apart : apart "/p" "/n".
Proof. by repeat split. Qed.
Lemma cfg_manages pid : manages "/p" "/n" (cfg pid).
Proof. repeat split. by right. Qed.

Lemma pilot_always_runs_witness :
  let s1 := after (sync3 7) (at_op 16 (E_Crash None) 0) disk in
  let s2 := after start (at_op 9 (E_Err (Some 1%nat)) 5000) s1 in
  s1 !! "/p" = Some (bin "v3") /\ good_bin sha ({[ToLower (TrimSpace (pin "v3"))]} ∪ ours) s2 "/p".
Proof.
  intros s1 s2. split; [by vm_compute|]. eapply (pilot_always_runs sha marsh unmarsh "/p" "/n" disk ours); [exact p_apart|exact disk_settled|].
  eapply rtc_l; [|apply rtc_once].
  - eapply (ps_sync _ _ _ _ _ (cfg (Some 7)) _ "3" (pin "v3") "u3" disk s1); [apply cfg_manages|]. by exists 0%nat.
  - eapply (ps_start _ _ _ _ _ (cfg None) _ s1 s2); [apply cfg_manages|]. by exists 0%nat.
Defined.

(** While reads do not fail and updates start from a confirmed binary, the way back is never
    lost: at every point, crashes and failing writes included, the installed binary is a
    confirmed one, or the marker of its trial is armed with its digest and a confirmed
    executable is kept to return to. *)
Theorem confirmed_pilot_is_kept sha256 marshal unmarshal (valid : string -> Prop) self pidp s0 G0 s G :
  (forall v data dl, valid v -> unmarshal (marshal (mkMarker v (hexsum sha256 data) dl)) = Some (mkMarker v (hexsum sha256 data) dl)) ->
  apart self pidp -> guarded sha256 unmarshal self G0 s0 ->
  rtc (trial_step sha256 marshal unmarshal self pidp valid) (s0, G0) (s, G) ->
  good_bin sha256 G s self \/
  on_trial sha256 unmarshal self s /\ good_bin sha256 G s (self +:+ ".last-good").
Proof.
  intros Hc Hp H0 Hr. assert (Hg : guarded sha256 unmarshal self (s, G).2 (s, G).1).
  { eapply (rtc_invariant _ (fun x => guarded sha256 unmarshal self x.2 x.1)); [by intros; eapply trial_step_guarded|exact Hr|done]. }
  destruct Hg as [Hl [Hg|Ht]]; [by left|]. right. split; [done|]. destruct Ht as (f & mf & mk & _ & _ & _ & _ & _ & [g Hg]). by eapply Hl.
Qed.

Lemma confirmed_pilot_is_kept_witness :
  let s1 := after (sync3 7) (fine 0) disk in
  (good_bin sha ours s1 "/p" \/ on_trial sha unmarsh "/p" s1 /\ good_bin sha ours s1 "/p.last-good") /\
  s1 !! "/p" = Some (bin "v3") /\ s1 !! "/p.last-good" = Some (bin "v2").
Proof.
  intros s1. split; [|by vm_compute]. eapply (confirmed_pilot_is_kept sha marsh unmarsh (fun _ => True) "/p" "/n" disk ours);
    [intros; apply unmarsh_marsh|exact p_apart|apply settled_guarded, disk_settled|]. apply rtc_once.
  eapply (ts_sync _ _ _ _ _ _ (cfg (Some 7)) (fine 0) "3" (pin "v3") "u3" disk s1); [apply cfg_manages|done|done|apply disk_settled|]. by exists 0%nat.
Defined.

(** C25: an update that was not confirmed is undone at the first startup after its deadline.
    On a guarded host (the installed binary is on trial: its marker is in place and names it,
    and the kept binary is a confirmed one), when no file operation fails at that startup,
    the binary is a confirmed one again, the marker is gone, and the bad digest is in the
    quarantine file; and as long as that file and the binary stay as they are, every check
    for that digest in which nothing fails leaves the host alone. (A later confirmation of
    another version clears the quarantine. That a failing read, a failing stat or a second
    update on trial can leave the guarded states is shown below.) *)
Theorem failed_update_is_undone sha256 unmarshal cfg G s f mf mk :
  (forall d, sha256 d <> "") -> guarded sha256 unmarshal (SelfPath cfg) G s ->
  s !! SelfPath cfg = Some f -> hexsum sha256 (contents f) ∉ G ->
  s !! (SelfPath cfg +:+ ".pending-update") = Some mf -> unmarshal (contents mf) = Some mk ->
  forall h n, calm h -> (forall k, mk_Deadline mk <= h_clk h k) ->
  exists n' s', CheckRevert sha256 unmarshal cfg h n s = (Returned (Ok true), n', s') /\
    settled sha256 (SelfPath cfg) G s' /\ s' !! (SelfPath cfg +:+ ".pending-update") = None /\
    (exists qf, s' !! (SelfPath cfg +:+ ".quarantine") = Some qf /\ hexsum sha256 (contents f) ∈ quarantine_lines (contents qf)) /\
    forall s2, s2 !! SelfPath cfg = s' !! SelfPath cfg -> s2 !! (SelfPath cfg +:+ ".quarantine") = s' !! (SelfPath cfg +:+ ".quarantine") ->
    forall marshal cfg' v url h' m, SelfPath cfg' = SelfPath cfg -> calm h' ->
      exists m', Sync sha256 marshal cfg' v (hexsum sha256 (contents f)) url h' m s2 = (Returned (Ok false), m', s2).
Proof.
  intros Hsha [Hl Hg] Hf HnG Hmk Hu h n Hc Hdl. destruct Hg as [(f' & Hf' & _ & HG)|(f' & mf' & mk' & Hf' & _ & Hmk' & Hu' & Hsh & [g Hlg])].
  { rewrite Hf in Hf'. by injection Hf' as <-. }
  rewrite Hf in Hf'. injection Hf' as <-. rewrite Hmk in Hmk'. injection Hmk' as <-. rewrite Hu in Hu'. injection Hu' as <-.
  pose proof (CheckRevert_returns sha256 unmarshal Hsha cfg (fun h => calm h /\ forall k, mk_Deadline mk <= h_clk h k) G s f g mf mk
    ltac:(by intros ? []) ltac:(by intros ? ? []) Hl Hf Hlg HnG Hmk Hu Hsh h n ltac:(done)) as Hw.
  destruct (CheckRevert sha256 unmarshal cfg h n s) as [[[r| |v] n'] s']; [|done..]. destruct Hw as (-> & Hset & Hno & qf & Hq & Hin).
  exists n', s'. split; [done|]. split; [done|]. split; [done|]. split; [by exists qf|]. intros s2 E2 Eq2 marshal cfg' v url h' m Hself Hc'.
  destruct Hset as [_ Hgood]. assert (Hgood2 : good_bin sha256 G s2 (SelfPath cfg)) by (eapply good_bin_ext; [exact E2|exact Hgood]).
  rewrite <- Eq2 in Hq. clear Hgood E2 Eq2. rename Hgood2 into Hgood.
  pose proof Hgood as (f1 & Hf1 & _). pose proof (Sync_quarantined sha256 Hsha cfg calm marshal cfg' G s2 f1 qf (contents f) v url
    ltac:(by intros ?) Hself Hgood Hf1 HnG Hq Hin h' m Hc') as Hw.
  destruct (Sync _ _ _ _ _ _ h' m s2) as [[[r| |w] m'] s'']; [|done..]. destruct Hw as [-> ->]. by exists m'.
Qed.

Lemma failed_update_is_undone_witness :
  let s1 := after (sync3 7) (fine 0) disk in
  exists n' s', start (fine 1000) 0%nat s1 = (Returned (Ok true), n', s') /\ settled sha "/p" ours s' /\
    s' !! "/p.pending-update" = None /\ result_of (sync3 7) (fine 2000) s' = Returned (Ok false).
Proof.
  intros s1. assert (Hg : guarded sha unmarsh "/p" ours s1).
  { eapply (trial_step_guarded sha marsh unmarsh "/p" "/n" p_apart (fun _ => True) (disk, ours) (s1, ours));
      [intros; apply unmarsh_marsh| |apply settled_guarded, disk_settled].
    eapply (ts_sync _ _ _ _ _ _ (cfg (Some 7)) (fine 0) "3" (pin "v3") "u3" disk s1); [apply cfg_manages|done|done|apply disk_settled|]. by exists 0%nat. }
  destruct (failed_update_is_undone sha unmarsh (cfg None) ours s1 (bin "v3")
              (mkFile (marsh (mkMarker "3" (pin "v3") 1000)) m600) (mkMarker "3" (pin "v3") 1000)
              sha_nonempty Hg ltac:(by vm_compute) ltac:(by vm_compute) ltac:(by vm_compute) ltac:(apply unmarsh_marsh)
              (fine 1000) 0%nat ltac:(done) ltac:(by intros; cbn)) as (n' & s' & H1 & H2 & H3 & _ & H4).
  exists n', s'. split; [exact H1|]. split; [exact H2|]. split; [exact H3|].
  clear H1 H2 H3 Hg. specialize (H4 s' eq_refl eq_refl marsh (cfg (Some 7)) "3" "u3" (fine 2000) 0%nat eq_refl (fun _ _ => eq_refl)). destruct H4 as [m' H5].
  change (sync3 7 (fine 2000) 0%nat s' = (Returned (Ok false), m', s')) in H5. unfold result_of. by rewrite H5.
Defined.

(** The flag is not accumulated: re-executing a re-executed pilot gives the command line of the
    first with the new process id. *)
Lemma strip_app l l' : Forall (fun a => TrimDashes a <> "adopt-nebula-pid" /\ HasPrefix (TrimDashes a) "adopt-nebula-pid=" = false) l ->
  stripAdoptFlag (l ++ l') = l ++ stripAdoptFlag l'.
Proof. induction 1 as [|a l [H1 H2] _ IH]; [done|]. cbn. by rewrite decide_False, H2, IH. Qed.

Lemma strip_clean n l : (length l <= n)%nat -> Forall (fun a => TrimDashes a <> "adopt-nebula-pid" /\ HasPrefix (TrimDashes a) "adopt-nebula-pid=" = false) (stripAdoptFlag l).
Proof.
  revert l. induction n as [|n IH]; intros [|a l]; cbn; [constructor|lia|constructor|]. intros Hn.
  destruct (decide _); [destruct l; [constructor|apply IH; cbn in Hn; lia]|]. destruct (HasPrefix _ _) eqn:E; [apply IH; lia|]. constructor; [done|apply IH; lia].
Qed.

Theorem reexec_does_not_accumulate args self p q : 0 < p -> 0 < q ->
  reexecArgv (reexecArgv args self p) self q = reexecArgv args self q.
Proof.
  intros Hp Hq. unfold reexecArgv. rewrite (proj2 (Z.ltb_lt 0 p) Hp), (proj2 (Z.ltb_lt 0 q) Hq).
  set (rest := if (1 <? length args)%nat then stripAdoptFlag (tail args) else []).
  assert (Hc : Forall (fun a => TrimDashes a <> "adopt-nebula-pid" /\ HasPrefix (TrimDashes a) "adopt-nebula-pid=" = false) rest).
  { subst rest. destruct (_ <? _)%nat; [by eapply strip_clean|constructor]. }
  assert (Hs : stripAdoptFlag (rest ++ [adoptFlag; pretty p]) = rest) by (rewrite strip_app by done; apply app_nil_r).
  clearbody rest. transitivity (self :: stripAdoptFlag (rest ++ [adoptFlag; pretty p]) ++ [adoptFlag; pretty q]); [by destruct rest|by rewrite Hs].
Qed.

Lemma reexec_does_not_accumulate_witness :
  reexecArgv (reexecArgv ["pilot"; "--adopt-nebula-pid"; "3"; "supervise"; "-adopt-nebula-pid=4"] "/p" 7) "/p" 8 = ["/p"; "supervise"; "-adopt-nebula-pid"; "8"].
Proof. rewrite reexec_does_not_accumulate by lia. reflexivity. Defined.

(** ** What the model showed *)

(** A crash between arming the marker and keeping the last-good binary leaves a marker for an
    update that never happened; at the next startup after its deadline the confirmed binary is
    replaced by the one before it. *)
Lemma crash_before_swap_downgrades :
  let s1 := after (sync3 7) (at_op 6 (E_Crash None) 0) disk in
  s1 !! "/p" = Some (bin "v2") /\ s1 !! "/p.last-good" = Some (bin "v1") /\
  result_of start (fine 1000) s1 = Returned (Ok true) /\ after start (fine 1000) s1 !! "/p" = Some (bin "v1").
Proof. by vm_compute. Qed.

(** One failing read of the marker at startup removes it: the binary on trial stays, with nothing
    to revert it. *)
Lemma failed_marker_read_disarms :
  let s1 := after (sync3 7) (fine 0) disk in let s2 := after start (at_op 0 (E_Err None) 500) s1 in
  s2 !! "/p" = Some (bin "v3") /\ s2 !! "/p.pending-update" = None /\ result_of start (fine 5000) s2 = Returned (Ok false).
Proof. by vm_compute. Qed.

(** A failing stat of the installed binary skips keeping it: the first update of a host is then
    installed with nothing to go back to, and the revert fails. *)
Lemma failed_stat_keeps_nothing :
  let s1 := after (sync3 7) (at_op 8 (E_Err None) 0) first in
  s1 !! "/p" = Some (bin "v3") /\ s1 !! "/p.last-good" = None /\ result_of start (fine 1000) s1 = Returned (Err PU_RevertFailed).
Proof. by vm_compute. Qed.

(** An update check while one is on trial replaces the last-good binary by the one on trial:
    when both fail, no confirmed binary is left. *)
Lemma update_on_trial_loses_the_good_one :
  let s1 := after (sync3 7) (fine 0) first in let s2 := after sync4 (fine 60) s1 in
  s2 !! "/p" = Some (bin "v4") /\ s2 !! "/p.last-good" = Some (bin "v3") /\
  after start (fine 5000) s2 !! "/p" = Some (bin "v3") /\ after start (fine 5000) s2 !! "/p.pending-update" = None.
Proof. by vm_compute. Qed.

(** A deferred update is reported as begun. *)
Lemma deferred_update_is_reported_begun :
  result_of (sync3 0) (fine 0) disk = Returned (Ok true) /\ after (sync3 0) (fine 0) disk = disk.
Proof. by vm_compute. Qed.

(** A failing exec is an error with the new binary installed and its marker armed. *)
Lemma failed_exec_leaves_the_new_binary :
  let s1 := after (sync3 7) (at_op 16 (E_Err None) 0) disk in
  result_of (sync3 7) (at_op 16 (E_Err None) 0) disk = Returned (Err PU_Exec) /\ s1 !! "/p" = Some (bin "v3").
Proof. by vm_compute. Qed.
