(* ===== verification/NebulaUpdate.v ===== *)
(** * internal/nebulaupdate: the version of the nebula binary on a host

    The manager reads the pinned version out of the host's signed bundle, fetches and installs
    it, restarts nebula and reverts to the kept binary when the new one does not come up. The
    state is the host's files and the in-memory quarantine. The restart and the health gate
    are services, given by their answers; the download, SHA-256, ECDSA and the codecs of the
    bundle are parameters. *)

From S2P Require Import Prelude Db Bytes GoStrings Nonce Policy Jws Bundle DualControl Releases HostFs PilotUpdate.
From stdpp Require Import prelude strings list gmap relations.
From Stdlib Require Import ZArith Lia.
Open Scope Z_scope.

Inductive nuerr : Type :=
| NU_NoUrl | NU_Fetch | NU_Status | NU_Body | NU_TooLarge | NU_Sha
| NU_Write | NU_Chmod | NU_Verify | NU_KeepLastGood | NU_Install
| NU_NoLastGood | NU_Restore | NU_CouldNotRevert | NU_Reverted | NU_Cancelled.

(** [nu_Restart] and [nu_Healthy] are the answers of the two functions ([None]: not set),
    [nu_cancelled] is [ctx.Err() != nil] after the gate. *)
Record NConfig (Pub : Type) : Type := mkNConfig {
  nu_Bundle : string; nu_Trust : string; nu_Pinned : list Pub; nu_Path : string;
  nu_Restart : option bool; nu_Healthy : option bool; nu_cancelled : bool;
  nu_Get : string -> option (Z * option string); nu_MaxBytes : Z }.
Arguments mkNConfig {Pub}. Arguments nu_Bundle {Pub}. Arguments nu_Trust {Pub}. Arguments nu_Pinned {Pub}. Arguments nu_Path {Pub}.
Arguments nu_Restart {Pub}. Arguments nu_Healthy {Pub}. Arguments nu_cancelled {Pub}. Arguments nu_Get {Pub}. Arguments nu_MaxBytes {Pub}.

(** 128 << 20 *)
Definition nebulaMaxBytes : Z := Z.shiftl 128 20.

(** [New]: the defaults. *)
Definition NewNebula {Pub} (c : NConfig Pub) : NConfig Pub :=
  mkNConfig (nu_Bundle c) (nu_Trust c) (nu_Pinned c) (nu_Path c) (nu_Restart c) (nu_Healthy c) (nu_cancelled c) (nu_Get c)
    (if nu_MaxBytes c <=? 0 then nebulaMaxBytes else nu_MaxBytes c).

Record desiredVer : Type := mkDesired { dv_version : string; dv_sha : string; dv_url : string }.

(** What [Sync] returns, the quarantine after it and the restarts it asked for. *)
Record Synced : Type := mkSynced { sy_result : result nuerr bool; sy_quarantine : gset string; sy_restarts : nat }.

Section nebulaupdate.
Context (sha256 : string -> string).
Context {Pub : Type} `{!EqDecision Pub} (ecdsaVerify : Pub -> string -> Z -> Z -> bool) (unmarshalHeader : string -> option Header).
Context (unmarshal : string -> option Bundle) (unmarshalEnv : string -> option Flattened).
Context (parsePEM : string -> option Pub) (unmarshalTrust : string -> option TrustFile).
Context (m : NConfig Pub).

(** The bundle that verifies against the pinned and the learned keys. *)
Definition verified (raw : string) (trust : option string) : option Bundle :=
  match VerifyBundle sha256 ecdsaVerify unmarshalHeader unmarshal unmarshalEnv raw (map Some (TrustedSet parsePEM unmarshalTrust (nu_Pinned m) trust)) with
  | Ok b => Some b | Err _ => None end.

Definition desired : FM nuerr (option desiredVer) :=
  r ← caught (ReadFile (nu_Bundle m));
  match r with
  | Err _ => mret None
  | Ok raw =>
      t ← caught (ReadFile (nu_Trust m));
      mret ((fun b => mkDesired (b_Nebula b).1.1 (b_Nebula b).1.2 (b_Nebula b).2) <$>
            verified raw (match t with Ok f => Some f | Err _ => None end))
  end.

Definition nfetch (url wantSHA : string) : result nuerr string :=
  match nu_Get m url with
  | None => Err NU_Fetch
  | Some (status, body) =>
      if negb (status =? 200) then Err NU_Status
      else match body with
           | None => Err NU_Body
           | Some body =>
               let data := limited (nu_MaxBytes m + 1) body in
               if nu_MaxBytes m <? len data then Err NU_TooLarge
               else if decide (hexsum sha256 data = wantSHA) then Ok data else Err NU_Sha
           end
  end.

Definition nu_stage (st : stage) : nuerr :=
  match st with St_Write => NU_Write | St_Chmod => NU_Chmod | St_Verify => NU_Verify | St_Keep => NU_KeepLastGood | St_Install => NU_Install end.
Definition install (data : string) : FM nuerr unit := swap_in sha256 nu_stage (nu_Path m) (nu_Path m +:+ ".last-good") data.

Definition revertLastGood : FM nuerr unit :=
  let lastGood := nu_Path m +:+ ".last-good" in
  _ ← wrap (fun _ => NU_NoLastGood) (Stat lastGood);
  _ ← dropped (copyFile (nu_Path m) (nu_Path m +:+ ".failed"));
  wrap (fun _ => NU_Restore) (copyFile lastGood (nu_Path m)).

Definition count_restart : nat := match nu_Restart m with Some _ => 1 | None => 0 end.

(** [Sync] with the quarantine [q]; the mutex makes it run alone. *)
Definition NSync (q : gset string) : FM nuerr Synced :=
  d ← desired;
  match d with
  | None => mret (mkSynced (Ok false) q 0)
  | Some want =>
      if decide (dv_sha want = "") then mret (mkSynced (Ok false) q 0)
      else cur ← caught (SHA256 sha256 (nu_Path m) (dv_sha want));
        match cur with
        | Ok _ => mret (mkSynced (Ok false) q 0)
        | Err _ =>
            if decide (dv_sha want ∈ q) then mret (mkSynced (Ok false) q 0)
            else if decide (dv_url want = "") then mret (mkSynced (Err NU_NoUrl) q 0)
            else match nfetch (dv_url want) (dv_sha want) with
                 | Err e => mret (mkSynced (Err e) q 0)
                 | Ok data =>
                     i ← caught (install data);
                     match i with
                     | Err e => mret (mkSynced (Err e) q 0)
                     | Ok _ =>
                         match nu_Healthy m with
                         | Some false =>
                             if nu_cancelled m then mret (mkSynced (Err NU_Cancelled) q count_restart)
                             else r ← caught revertLastGood;
                               match r with
                               | Err _ => mret (mkSynced (Err NU_CouldNotRevert) q count_restart)
                               | Ok _ => mret (mkSynced (Err NU_Reverted) ({[dv_sha want]} ∪ q) (count_restart + count_restart))
                               end
                         | _ => mret (mkSynced (Ok true) q count_restart)
                         end
                     end
                 end
        end
  end.
End nebulaupdate.

(** ** Safety *)

Section safety.
Context (sha256 : string -> string).
Context {Pub : Type} `{!EqDecision Pub} (ecdsaVerify : Pub -> string -> Z -> Z -> bool) (unmarshalHeader : string -> option Header).
Context (unmarshal : string -> option Bundle) (unmarshalEnv : string -> option Flattened).
Context (parsePEM : string -> option Pub) (unmarshalTrust : string -> option TrustFile).
Abbreviation verified' := (verified sha256 ecdsaVerify unmarshalHeader unmarshal unmarshalEnv parsePEM unmarshalTrust).
Abbreviation NSync' := (NSync sha256 ecdsaVerify unmarshalHeader unmarshal unmarshalEnv parsePEM unmarshalTrust).
Implicit Types (s : Files) (V : gset string).

(** The bundle on disk verifies, with the learned keys or without them, and pins [sha]. *)
Definition pins (m : NConfig Pub) s (sha : string) : Prop :=
  exists bf tr b, s !! nu_Bundle m = Some bf /\ (tr = contents <$> s !! nu_Trust m \/ tr = None) /\
    verified' m (contents bf) tr = Some b /\ sha = (b_Nebula b).1.2.

(** The binary is an executable with a digest of [V], or missing where [P] allows it; so is the kept one. *)
Definition nsafe (path : string) (P : Prop) V s : Prop := lg_ok sha256 path V s /\ (good_bin sha256 V s path \/ P /\ s !! path = None).

Lemma nsafe_ext path P V s s1 : s1 !! path = s !! path -> s1 !! (path +:+ ".last-good") = s !! (path +:+ ".last-good") -> nsafe path P V s -> nsafe path P V s1.
Proof.
  intros E1 E2 [Hl H]. split; [by eapply lg_ok_ext|]. destruct H as [H|[HP H]]; [left; by eapply good_bin_ext|right; by rewrite E1].
Qed.
Lemma nsafe_mono path P V V' s : V ⊆ V' -> nsafe path P V s -> nsafe path P V' s.
Proof.
  assert (Hb : forall p, V ⊆ V' -> good_bin sha256 V s p -> good_bin sha256 V' s p) by (intros p HG (f & H1 & H2 & H3); exists f; set_solver).
  intros HV [Hl H]. split; [intros f Hf; by apply Hb; [|eapply Hl]|]. destruct H as [H|H]; [left; by apply Hb|by right].
Qed.
Lemma nsafe_kept path P V s s1 : nsafe path P V s -> kept path s s1 -> lg_ok sha256 path V s1.
Proof.
  intros [Hl [Hg|[_ Hn]]] Hk; [by eapply staged_lg|]. destruct Hk as [E|(f & Hf & _)]; [by eapply lg_ok_ext|congruence].
Qed.

Section cwp.
Context (HP : Host -> Prop) (C : Files -> Prop) (X : list string -> Files -> Prop) (m : NConfig Pub).
Abbreviation path := (nu_Path m).

Lemma desired_cwp (Q : result nuerr (option desiredVer) -> Files -> Prop) s : C s ->
  (forall d, (forall want, d = Some want -> pins m s (dv_sha want)) -> Q (Ok d) s) ->
  cwp HP C X (desired sha256 ecdsaVerify unmarshalHeader unmarshal unmarshalEnv parsePEM unmarshalTrust m) Q s.
Proof.
  intros HC HQ. apply cwp_bind, cwp_caught, cwp_ReadFile; [done|intros _; by apply cwp_ret, HQ|].
  destruct (s !! nu_Bundle m) as [bf|] eqn:Hb; [|by apply cwp_ret, HQ].
  assert (Hgo : forall tr, tr = contents <$> s !! nu_Trust m \/ tr = None ->
            Q (Ok ((fun b => mkDesired (b_Nebula b).1.1 (b_Nebula b).1.2 (b_Nebula b).2) <$> verified' m (contents bf) tr)) s).
  { intros tr Htr. apply HQ. intros want Hw. destruct (verified' m (contents bf) tr) as [b|] eqn:Hv; [|done]. injection Hw as <-. exists bf, tr, b. done. }
  apply cwp_bind, cwp_caught, cwp_ReadFile; [done|intros _; apply cwp_ret, Hgo; by right|].
  destruct (s !! nu_Trust m) eqn:Ht; apply cwp_ret, Hgo; [by left|by right].
Qed.

Lemma nfetch_sha url want data : nfetch sha256 m url want = Ok data -> hexsum sha256 data = want.
Proof.
  unfold nfetch. destruct (nu_Get m url) as [[st [body|]]|]; [|destruct (negb _); done|done]. destruct (negb _); [done|]. destruct (_ <? _); [done|].
  destruct (decide _); [by intros [= <-]|done].
Qed.

(** Reverting copies the kept binary over the installed one, or leaves it. *)
Lemma revertLastGood_cwp P V s : (forall s1, nsafe path P V s1 -> C s1) -> nsafe path P V s ->
  cwp HP C X (revertLastGood m) (fun _ s1 => nsafe path P V s1) s.
Proof.
  intros HC Hs. assert (Ht : forall s s1 p, p <> path -> p <> path +:+ ".last-good" -> off [p] s s1 -> nsafe path P V s -> nsafe path P V s1).
  { intros s0 s1 p H1 H2 Ho. apply nsafe_ext; apply Ho, not_elem_of_cons; (split; [done|apply not_elem_of_nil]). }
  assert (Hl : forall s1, nsafe path P V s1 -> cwp HP C X (wrap (fun _ => NU_Restore) (copyFile (path +:+ ".last-good") path)) (fun _ s1 => nsafe path P V s1) s1).
  { intros s1 H1. apply cwp_wrap, copyFile_cwp; [names|intros; apply HC; eapply Ht; [| |done|done]; names|intros; eapply Ht; [| |done|done]; names|].
    intros g s2 Hg H2 Hc. assert (E : s2 !! (path +:+ ".last-good") = s1 !! (path +:+ ".last-good")) by (apply H2; notin). destruct H1 as [H1 _].
    split; [by eapply lg_ok_ext|]. left. eapply copy_good; [by eapply H1|done|done]. }
  apply cwp_bind, cwp_wrap, cwp_Stat; [by apply HC|done|]. destruct (s !! (path +:+ ".last-good")); [|done].
  apply cwp_bind, cwp_dropped, copyFile_cwp.
  - rewrite str_app_assoc. apply not_eq_sym, suffix_ne. discriminate.
  - intros s1 H1. apply HC. eapply Ht; [| |done|done]; names.
  - intros e s1 H1. apply Hl. eapply Ht; [| |done|done]; names.
  - intros f0 s1 _ H1 _. apply Hl. eapply nsafe_ext; [| |done]; apply H1; notin.
Qed.

Lemma NSync_cwp P V q s : (forall s1, nsafe path P V s1 -> C s1) -> nsafe path P V s -> (forall sha, pins m s sha -> sha ∈ V) ->
  cwp HP C X (NSync' m q) (fun _ s1 => C s1) s.
Proof.
  intros HC Hs HV. apply cwp_bind, desired_cwp; [by apply HC|]. intros [want|] Hw; [|by apply cwp_ret, HC]. specialize (HV _ (Hw _ eq_refl)).
  destruct (decide _); [by apply cwp_ret, HC|]. apply cwp_bind, looks_caught; [apply looks_SHA256|by apply HC|].
  intros [[[]|e]|e]; [by apply cwp_ret, HC| |by apply HC]. destruct (decide _); [by apply cwp_ret, HC|]. destruct (decide _); [by apply cwp_ret, HC|].
  destruct (nfetch _ _ _) as [data|e'] eqn:Ef; [|by apply cwp_ret, HC]. apply nfetch_sha in Ef.
  assert (Hst : forall s1, staged path s s1 -> nsafe path P V s1).
  { intros s1 [Ho Hk]. split; [by eapply nsafe_kept|]. destruct Hs as [_ [Hg|[HP' Hn]]]; [left; eapply good_bin_ext; [|done]|right; split; [done|rewrite <- Hn]]; apply Ho; notin. }
  apply cwp_bind, cwp_caught, swap_cwp; [intros; by apply HC, Hst|intros; by apply cwp_ret, HC, Hst|].
  intros s1 (Ho & Hk & Hn & _). assert (Hs1 : nsafe path P V s1).
  { split; [by eapply nsafe_kept|]. left. eexists. split; [exact Hn|]. split; [done|]. cbn. by rewrite Ef. }
  destruct (nu_Healthy m) as [[]|]; [by apply cwp_ret, HC| |by apply cwp_ret, HC]. destruct (nu_cancelled m); [by apply cwp_ret, HC|].
  apply cwp_bind, cwp_caught. eapply cwp_mono; [by eapply revertLastGood_cwp|]. intros [[]|e'] s2 H2; by apply cwp_ret, HC.
Qed.
End cwp.

(** The life of the files: checks of any managers of the binary under any host, and other
    programs writing elsewhere. [V]: the original digests and those pinned by bundles that verified. *)
Inductive nebula_step (path : string) : Files * gset string -> Files * gset string -> Prop :=
| ns_sync m q h s s' V V' : nu_Path m = path -> V ⊆ V' -> (forall sha, pins m s sha -> sha ∈ V') -> (forall sha, sha ∈ V' -> sha ∈ V \/ pins m s sha) ->
    leaves (NSync' m q) h s s' -> nebula_step path (s, V) (s', V')
| ns_other s s' V : s' !! path = s !! path -> s' !! (path +:+ ".last-good") = s !! (path +:+ ".last-good") -> nebula_step path (s, V) (s', V).

Lemma nebula_step_safe path P x y : nebula_step path x y -> nsafe path P x.2 x.1 -> nsafe path P y.2 y.1.
Proof.
  destruct 1 as [m q h s s' V V' <- HV Hp _ Hl|s s' V E1 E2]; cbn; intros Hs; [|by eapply nsafe_ext].
  eapply (cwp_leaves (fun _ => True)); [|done|exact Hl]. eapply NSync_cwp; [done|by eapply nsafe_mono|done].
Qed.

(** C26: nebula's binary is only ever what a trusted key pinned: in any sequence of update checks,
    crashing or failing anywhere, and of other programs' writes, the file at its path is an
    executable whose digest is an original one or one pinned by a bundle that verified against
    the trusted keys, and it is missing only when it was from the start. *)
Theorem nebula_is_always_pinned path s0 V0 s V :
  nsafe path (s0 !! path = None) V0 s0 -> rtc (nebula_step path) (s0, V0) (s, V) ->
  good_bin sha256 V s path \/ s !! path = None /\ s0 !! path = None.
Proof.
  intros H0 Hr. enough (nsafe path (s0 !! path = None) (s, V).2 (s, V).1) as [_ [?|[? ?]]] by auto.
  eapply (rtc_invariant _ (fun x => nsafe path (s0 !! path = None) x.2 x.1)); [by intros; eapply nebula_step_safe|exact Hr|done].
Qed.

(** ** A binary that does not come up *)

Definition family (path : string) : list string :=
  [path +:+ ".new"; (path +:+ ".last-good") +:+ ".tmp"; path +:+ ".last-good"; (path +:+ ".failed") +:+ ".tmp"; path +:+ ".failed"; path +:+ ".tmp"; path].

Lemma desired_returns HP m (Q : result nuerr (option desiredVer) -> Files -> Prop) s bf b : smooth HP -> s !! nu_Bundle m = Some bf ->
  verified' m (contents bf) (contents <$> s !! nu_Trust m) = Some b ->
  Q (Ok (Some (mkDesired (b_Nebula b).1.1 (b_Nebula b).1.2 (b_Nebula b).2))) s ->
  returns HP (desired sha256 ecdsaVerify unmarshalHeader unmarshal unmarshalEnv parsePEM unmarshalTrust m) Q s.
Proof.
  intros Hc Hb Hv HQ. apply cwp_bind, cwp_caught. eapply returns_ReadFile; [done|exact Hb|].
  apply cwp_bind, cwp_caught, (returns_op _ Hc). intros _. cbn [fst snd]. destruct (s !! nu_Trust m); cbn in Hv; rewrite Hv; by apply cwp_ret.
Qed.

Lemma revertLastGood_returns HP (m : NConfig Pub) s f g : smooth HP -> s !! nu_Path m = Some f -> s !! (nu_Path m +:+ ".last-good") = Some g ->
  returns HP (revertLastGood m) (fun r s' => r = Ok () /\ off (family (nu_Path m)) s s' /\ s' !! nu_Path m = Some (mkFile (contents g) m755)) s.
Proof.
  intros Hc Hf Hg. apply cwp_bind, cwp_wrap, (returns_op _ Hc). intros _. cbn [fst snd]. rewrite Hg. apply cwp_bind, cwp_dropped.
  eapply returns_copyFile; [done|exact Hf|]. intros s1 H1 _. assert (Hg1 : s1 !! (nu_Path m +:+ ".last-good") = Some g) by (rewrite H1; [done|notin]).
  apply cwp_wrap. eapply returns_copyFile; [done|exact Hg1|]. intros s2 H2 Hc2. split; [done|]. split; [|done].
  eapply off_trans; [eapply off_weaken; [|exact H1]|eapply off_weaken; [|exact H2]]; set_solver.
Qed.

(** A nebula that does not come up is taken back: when nothing fails, the check reports it,
    the binary that ran before is installed again and restarted, and the digest is quarantined,
    so that the next check of the same bundle leaves the host alone. *)
Theorem bad_nebula_is_reverted (m : NConfig Pub) q s f bf b data :
  (forall d, sha256 d <> "") -> nu_Bundle m ∉ family (nu_Path m) -> nu_Trust m ∉ family (nu_Path m) ->
  s !! nu_Path m = Some f -> s !! nu_Bundle m = Some bf -> verified' m (contents bf) (contents <$> s !! nu_Trust m) = Some b ->
  hexsum sha256 (contents f) <> (b_Nebula b).1.2 -> (b_Nebula b).1.2 ∉ q -> (b_Nebula b).2 <> "" ->
  nfetch sha256 m (b_Nebula b).2 (b_Nebula b).1.2 = Ok data ->
  nu_Healthy m = Some false -> nu_cancelled m = false ->
  forall h n, calm h -> exists n' s',
    NSync' m q h n s = (Returned (Ok (mkSynced (Err NU_Reverted) ({[(b_Nebula b).1.2]} ∪ q) (count_restart m + count_restart m))), n', s') /\
    s' !! nu_Path m = Some (mkFile (contents f) m755) /\
    forall h' k, calm h' -> exists k',
      NSync' m ({[(b_Nebula b).1.2]} ∪ q) h' k s' = (Returned (Ok (mkSynced (Ok false) ({[(b_Nebula b).1.2]} ∪ q) 0)), k', s').
Proof.
  intros Hsha Hbf Htf Hf Hb Hv Hne Hq Hurl Hfetch Hh Hcan h n Hc. pose proof (nfetch_sha m _ _ _ Hfetch) as Hd.
  destruct (hexsum_plain sha256 data (Hsha _)) as [(_ & Hnz & _) Hlow]. set (sha := (b_Nebula b).1.2) in *. rewrite Hd in Hnz, Hlow.
  assert (Hsame : forall HP s0 f0 q0, smooth HP -> s0 !! nu_Bundle m = Some bf -> s0 !! nu_Trust m = s !! nu_Trust m -> s0 !! nu_Path m = Some f0 ->
            contents f0 = contents f -> sha ∈ q0 -> returns HP (NSync' m q0) (fun r s1 => r = Ok (mkSynced (Ok false) q0 0) /\ s1 = s0) s0).
  { intros HP s0 f0 q0 Hs0 Hb0 Ht0 Hf0 Hc0 Hin. apply cwp_bind. eapply desired_returns; [done|exact Hb0|by rewrite Ht0|]. cbn [dv_sha dv_url]. fold sha.
    rewrite decide_False by done. apply cwp_bind, cwp_caught. eapply returns_SHA256; [done|exact Hf0|]. rewrite Hlow, decide_False by done.
    rewrite Hc0, decide_False by done. rewrite decide_True by done. by apply cwp_ret. }
  assert (Hrun : returns calm (NSync' m q) (fun r s' => r = Ok (mkSynced (Err NU_Reverted) ({[sha]} ∪ q) (count_restart m + count_restart m)) /\
            off (family (nu_Path m)) s s' /\ s' !! nu_Path m = Some (mkFile (contents f) m755)) s).
  { assert (Hs : smooth calm) by (intros ?; done). apply cwp_bind. eapply desired_returns; [done|exact Hb|done|]. cbn [dv_sha dv_url]. fold sha.
    rewrite decide_False by done. apply cwp_bind, cwp_caught. eapply returns_SHA256; [done|exact Hf|]. rewrite Hlow, decide_False by done.
    rewrite !decide_False by done. rewrite Hfetch. apply cwp_bind, cwp_caught. eapply returns_swap; [done|exact Hf|by rewrite Hd|by rewrite Hd|].
    intros s1 H1 Hn1 Hl1. rewrite Hh, Hcan. apply cwp_bind, cwp_caught. eapply cwp_mono; [by eapply revertLastGood_returns|].
    intros r s2 (-> & H2 & Hc2). apply cwp_ret. split; [done|]. split; [|done]. eapply off_trans; [eapply off_weaken; [|exact H1]|exact H2]. set_solver. }
  specialize (Hrun h n Hc). destruct (NSync' m q h n s) as [[[r| |v] n'] s']; [|done..]. destruct Hrun as (-> & Ho & Hp). exists n', s'.
  split; [done|]. split; [done|]. intros h' k Hc'.
  pose proof (Hsame calm s' _ ({[sha]} ∪ q) ltac:(by intros ?) ltac:(by rewrite Ho) ltac:(by rewrite Ho) Hp eq_refl ltac:(set_solver) h' k Hc') as Hw.
  destruct (NSync' m _ h' k s') as [[[r| |v] k'] s'']; [|done..]. destruct Hw as [-> ->]. by exists k'.
Qed.
End safety.

(** ** A host with one bundle *)

Module nexample.
Import example.
Definition nb : Bundle :=
  let b := stamped demo_bundle in
  mkBundle (b_ProtocolVersion b) (b_Type b) (b_BundleVersion b) (b_BlocklistVersion b) (b_IssuedAt b) (b_Device b) (b_Certificate b)
    (b_CABundle b) (b_ConfigSigningKeys b) (b_ConfigKeyVersion b) (b_Firewall b) (b_Lighthouses b) (b_Blocklist b)
    (b_TunDev b) (b_ListenPort b) ("1.9", pin "n2", "u") (b_Pilot b) (b_NotAfter b).
Definition bu (s : string) : option Bundle := Some nb.
Definition raw : string := default "" (SignBundle sha toy_marshal toy_bm toy_em toy_digest toy_der "kid" nb).
Definition man (healthy : option bool) : NConfig Z :=
  NewNebula (mkNConfig "/d/bundle" "/d/trust" [7] "/nebula" (Some true) healthy false (fun u => if decide (u = "u") then Some (200, Some "n2") else None) 0).
Definition ndisk : Files := {[ "/nebula" := bin "n1"; "/d/bundle" := mkFile raw m600 ]}.
Definition nsync (healthy : option bool) (q : gset string) : FM nuerr Synced :=
  NSync sha toy_verify toy_unmarshal bu toy_eu toy_pem toy_tu (man healthy) q.

Lemma raw_verifies healthy tr : tr = None -> verified sha toy_verify toy_unmarshal bu toy_eu toy_pem toy_tu (man healthy) raw tr = Some nb.
Proof. intros ->. destruct healthy as [[]|]; vm_compute; reflexivity. Qed.
End nexample.
Import example nexample.

Lemma bad_nebula_is_reverted_witness : exists n' s',
  nsync (Some false) ∅ (fine 0) 0%nat ndisk = (Returned (Ok (mkSynced (Err NU_Reverted) ({[pin "n2"]} ∪ ∅) 2)), n', s') /\
  s' !! "/nebula" = Some (bin "n1").
Proof.
  destruct (bad_nebula_is_reverted sha toy_verify toy_unmarshal bu toy_eu toy_pem toy_tu (man (Some false)) ∅ ndisk (bin "n1") (mkFile raw m600) nb "n2"
    sha_nonempty ltac:(apply (bool_decide_unpack _); by vm_compute) ltac:(apply (bool_decide_unpack _); by vm_compute) ltac:(by vm_compute) ltac:(by vm_compute) ltac:(by apply raw_verifies)
    ltac:(by vm_compute) ltac:(set_solver) ltac:(by vm_compute) ltac:(by vm_compute) eq_refl eq_refl (fine 0) 0%nat (fun _ _ => eq_refl)) as (n' & s' & H1 & H2 & _).
  exists n', s'. split; [exact H1|exact H2].
Defined.

Lemma nebula_is_always_pinned_witness :
  let s1 := after (nsync (Some true) ∅) (at_op 9 (E_Crash None) 0) ndisk in
  let s2 := after (nsync (Some true) ∅) (fine 0) s1 in
  s1 !! "/nebula" = Some (bin "n1") /\ s2 !! "/nebula" = Some (bin "n2") /\ (good_bin sha {[pin "n1"; pin "n2"]} s2 "/nebula" \/ s2 !! "/nebula" = None /\ ndisk !! "/nebula" = None).
Proof.
  intros s1 s2. split; [by vm_compute|]. split; [by vm_compute|].
  assert (Hp : forall s sha', s = ndisk \/ s = s1 -> pins sha toy_verify toy_unmarshal bu toy_eu toy_pem toy_tu (man (Some true)) s sha' <-> sha' = pin "n2").
  { intros s sha' Hs. assert (E : s !! "/d/bundle" = Some (mkFile raw m600) /\ s !! "/d/trust" = None) by (destruct Hs as [-> | ->]; by vm_compute).
    destruct E as [E1 E2]. split.
    - intros (bf & tr & b & Hb & Htr & Hv & ->). cbn [nu_Bundle man NewNebula] in Hb. rewrite E1 in Hb. injection Hb as <-. cbn [nu_Trust man NewNebula] in Htr.
      rewrite E2 in Htr. assert (tr = None) as -> by (by destruct Htr). rewrite raw_verifies in Hv by done. by injection Hv as <-.
    - intros ->. exists (mkFile raw m600), None, nb. split; [exact E1|]. split; [by right|]. split; [by apply raw_verifies|done]. }
  eapply (nebula_is_always_pinned sha toy_verify toy_unmarshal bu toy_eu toy_pem toy_tu "/nebula" ndisk {[pin "n1"]}).
  { split; [by intros f Hf|]. left. exists (bin "n1"). split; [by vm_compute|]. split; [done|]. unfold pin. set_solver. }
  apply (rtc_l _ _ (s1, {[pin "n1"; pin "n2"]})); [|apply rtc_once].
  - eapply (ns_sync _ _ _ _ _ _ _ "/nebula" (man (Some true)) ∅ (at_op 9 (E_Crash None) 0)); [done|set_solver|..|by exists 0%nat];
      intros sha'; rewrite Hp by auto; set_solver.
  - eapply (ns_sync _ _ _ _ _ _ _ "/nebula" (man (Some true)) ∅ (fine 0)); [done|set_solver|..|by exists 0%nat];
      intros sha'; rewrite Hp by auto; set_solver.
Defined.
