(* ===== verification/HostState.v ===== *)
(** * internal/enrollclient, internal/hostkey, internal/drift: the files a host's identity lives in

    What Pilot does with a bundle it received: enrollment, renewal with a fresh key, the
    config refresh with its host binding and blocklist guard, and the drift monitor that
    re-asserts the signed configuration. The state is the host's files, with faults and
    crashes. Nebula's certificates and keys, the cryptography, the codecs and the
    answers of the servers are parameters. *)

From S2P Require Import Prelude Db Bytes GoStrings Nonce Policy Jws Bundle NebulaConfig DualControl HostFs PilotUpdate NebulaUpdate.
From stdpp Require Import prelude strings list gmap relations.
From Stdlib Require Import ZArith Lia.
Open Scope Z_scope.

Inductive hserr : Type :=
| HS_File | HS_KeyExists | HS_KeyParse | HS_NoPin | HS_Net | HS_Status | HS_Decode | HS_Bundle (e : buerr)
| HS_CAParse | HS_LeafParse | HS_LeafVerify | HS_NotOurKey | HS_NoNetworks | HS_WrongHost | HS_Rollback | HS_Render | HS_Expired.

(** internal/paths: the layout of the base directory. *)
Record Layout : Type := mkLayout { l_Base : string }.
Section layout.
Context (l : Layout).
Definition under (name : string) : string := l_Base l +:+ "/" +:+ name.
Definition HostKey : string := under "host.key".
Definition HostPub : string := under "host.pub".
Definition HostCert : string := under "host.crt".
Definition CABundle : string := under "ca.crt".
Definition ConfigFile : string := under "config.yml".
Definition EnrollTicket : string := under "enroll-ticket.json".
Definition BundleFile : string := under "bundle.json".
Definition ConfigSigningTrust : string := under "config-signing-trust.json".
End layout.

(** The configuration of a bundle, as the enrollment client and the drift monitor render it. *)
Definition render_config (l : Layout) (b : Bundle) : option string := RenderNebulaConfig b (CABundle l) (HostCert l) (HostKey l).

(** A key pair: its two PEM texts and the public point. *)
Record KeyPair : Type := mkKeyPair { kp_privPEM : string; kp_pubPEM : string; kp_pub : string }.
(** What is read of a parsed certificate. *)
Record Leaf : Type := mkLeaf { lf_PublicKey : string; lf_Networks : list string }.

Record HostLib (Pub : Type) : Type := mkHostLib {
  hl_sha256 : string -> string;
  hl_ecdsaVerify : Pub -> string -> Z -> Z -> bool;
  hl_unmarshalHeader : string -> option Header;
  hl_unmarshal : string -> option Bundle;
  hl_unmarshalEnv : string -> option Flattened;
  hl_parsePEM : string -> option Pub;
  hl_marshalTrust : TrustFile -> string;
  hl_unmarshalTrust : string -> option TrustFile;
  hl_leaf : string -> option Leaf;                          (* cert.UnmarshalCertificateFromPEM *)
  hl_pool : string -> option (Z -> string -> bool);         (* cert.NewCAPoolFromPEM, VerifyCertificate *)
  hl_loadKey : string -> option KeyPair;                    (* a P256 private key PEM *)
  hl_bundleOf : string -> option string;                    (* the bundle field of a JSON answer *)
  hl_ticket : string -> option (string * string * Z);
  hl_marshalTicket : string * string * Z -> string }.
Arguments mkHostLib {Pub}. Arguments hl_sha256 {Pub}. Arguments hl_ecdsaVerify {Pub}. Arguments hl_unmarshalHeader {Pub}. Arguments hl_unmarshal {Pub}.
Arguments hl_unmarshalEnv {Pub}. Arguments hl_parsePEM {Pub}. Arguments hl_marshalTrust {Pub}. Arguments hl_unmarshalTrust {Pub}. Arguments hl_leaf {Pub}.
Arguments hl_pool {Pub}. Arguments hl_loadKey {Pub}. Arguments hl_bundleOf {Pub}. Arguments hl_ticket {Pub}. Arguments hl_marshalTicket {Pub}.

(** 0o644 *)
Definition m644 : Z := 420.

(** ** internal/hostkey *)

(** [O_CREATE|O_WRONLY|O_EXCL], the write and the sync. *)
Definition OpenExcl (p : string) (perm : Z) : FM oserr bool :=
  op K_Write (fun h s => match s !! p with Some _ => (Ok false, s) | None => (Ok true, <[p := mkFile "" (perms h p perm s)]> s) end) intact.

Definition WritePrivateKey (kp : KeyPair) (path : string) : FM hserr unit :=
  made ← wrap (fun _ => HS_File) (OpenExcl path m600);
  if (made : bool) then _ ← wrap (fun _ => HS_File) (WriteTo path (kp_privPEM kp)); wrap (fun _ => HS_File) CloseFile
  else fail_with HS_KeyExists.
Definition WritePrivateKeyAtomic (kp : KeyPair) (path : string) : FM hserr unit :=
  let tmp := path +:+ ".new" in
  _ ← wrap (fun _ => HS_File) (WriteFile tmp (kp_privPEM kp) m600);
  wrap (fun _ => HS_File) (Rename tmp path).
Definition WritePublicKey (kp : KeyPair) (path : string) : FM hserr unit := wrap (fun _ => HS_File) (WriteFile path (kp_pubPEM kp) m644).

Section host.
Context {Pub : Type} `{!EqDecision Pub} (lib : HostLib Pub) (l : Layout).

Definition LoadKey (path : string) : FM hserr KeyPair :=
  raw ← wrap (fun _ => HS_File) (ReadFile path);
  match hl_loadKey lib raw with Some kp => mret kp | None => fail_with HS_KeyParse end.

(** [loadOrGenerate]; [fresh] is the pair [Generate] would return. *)
Definition loadOrGenerate (fresh : KeyPair) : FM hserr KeyPair :=
  st ← caught (Stat (HostKey l));
  match st with
  | Ok _ => LoadKey (HostKey l)
  | Err _ =>
      _ ← WritePrivateKey fresh (HostKey l);
      _ ← WritePublicKey fresh (HostPub l);
      mret fresh
  end.

(** ** The trust file (internal/bundle/trust.go) *)

Definition read_opt {E} (p : string) : FM E (option string) :=
  r ← caught (ReadFile p); mret (match r with Ok c => Some c | Err _ => None end).

Definition PersistTrust (version : Z) (keyPEMs : list string) : FM hserr unit :=
  if decide (keyPEMs = []) then mret ()
  else cur ← read_opt (ConfigSigningTrust l);
    if version <? (LoadTrustFile (hl_parsePEM lib) (hl_unmarshalTrust lib) cur).1 then mret ()
    else let tmp := ConfigSigningTrust l +:+ ".tmp" in
      _ ← wrap (fun _ => HS_File) (OpenTrunc tmp m644);
      _ ← wrap (fun _ => HS_File) (WriteTo tmp (hl_marshalTrust lib (mkTrust version keyPEMs)));
      _ ← wrap (fun _ => HS_File) CloseFile;
      _ ← wrap (fun _ => HS_File) CloseFile;
      wrap (fun _ => HS_File) (Rename tmp (ConfigSigningTrust l)).

(** [bundle.Verify] against the live trusted set. *)
Definition verify_with (pins : list Pub) (trust : option string) (raw : string) : result buerr Bundle :=
  VerifyBundle (hl_sha256 lib) (hl_ecdsaVerify lib) (hl_unmarshalHeader lib) (hl_unmarshal lib) (hl_unmarshalEnv lib) raw
    (map Some (TrustedSet (hl_parsePEM lib) (hl_unmarshalTrust lib) pins trust)).
Definition check (pins : list Pub) (raw : string) : FM hserr Bundle :=
  t ← read_opt (ConfigSigningTrust l);
  match verify_with pins t raw with Ok b => mret b | Err e => fail_with (HS_Bundle e) end.

(** ** Applying a bundle *)

Definition join_pem (pems : list string) : string := String.concat (String newline "") pems.

Definition verifyCert (b : Bundle) (pub : string) : FM hserr unit :=
  match hl_pool lib (join_pem (b_CABundle b)) with
  | None => fail_with HS_CAParse
  | Some verify =>
      match hl_leaf lib (b_Certificate b) with
      | None => fail_with HS_LeafParse
      | Some leaf =>
          t ← clock;
          if negb (verify t (b_Certificate b)) then fail_with HS_LeafVerify
          else if decide (lf_PublicKey leaf = pub) then mret () else fail_with HS_NotOurKey
      end
  end.

Definition write_file (p data : string) : FM hserr unit := wrap (fun _ => HS_File) (WriteFile p data m644).
Definition render_and_write (b : Bundle) : FM hserr unit :=
  match render_config l b with None => fail_with HS_Render | Some cfg => write_file (ConfigFile l) cfg end.

Definition writeArtifacts (b : Bundle) (raw : string) : FM hserr unit :=
  _ ← write_file (CABundle l) (join_pem (b_CABundle b));
  _ ← write_file (HostCert l) (b_Certificate b);
  _ ← write_file (BundleFile l) raw;
  _ ← PersistTrust (b_ConfigKeyVersion b) (b_ConfigSigningKeys b);
  render_and_write b.

Definition writeConfigArtifacts (b : Bundle) (raw : string) : FM hserr unit :=
  _ ← write_file (CABundle l) (join_pem (b_CABundle b));
  _ ← write_file (BundleFile l) raw;
  _ ← PersistTrust (b_ConfigKeyVersion b) (b_ConfigSigningKeys b);
  render_and_write b.

(** ** Renewal and config refresh; [answer] is the response of Core to the request ([None]: none). *)

Definition bundle_answer (answer : option (Z * string)) : result hserr string :=
  match answer with
  | None => Err HS_Net
  | Some (code, body) => if negb (code =? 200) then Err HS_Status else match hl_bundleOf lib body with None => Err HS_Decode | Some raw => Ok raw end
  end.

(** [Renew]; [newKP] is the pair generated for it, [ask] what Core answers to its signed request. *)
Definition Renew (pins : option (list Pub)) (newKP : KeyPair) (ask : KeyPair -> option (Z * string)) : FM hserr string :=
  match pins with
  | None => fail_with HS_NoPin
  | Some pins =>
      raw ← give (bundle_answer (ask newKP));
      b ← check pins raw;
      _ ← verifyCert b (kp_pub newKP);
      _ ← WritePrivateKeyAtomic newKP (HostKey l);
      _ ← WritePublicKey newKP (HostPub l);
      _ ← writeArtifacts b raw;
      mret (bd_OverlayIP (b_Device b))
  end.

Definition overlayIPFromCert : FM hserr string :=
  pem ← wrap (fun _ => HS_File) (ReadFile (HostCert l));
  match hl_leaf lib pem with
  | None => fail_with HS_LeafParse
  | Some leaf => match lf_Networks leaf with [] => fail_with HS_NoNetworks | ip :: _ => mret ip end
  end.

Definition appliedBlocklistVersion (pins : list Pub) : FM hserr (option Z) :=
  r ← caught (ReadFile (BundleFile l));
  match r with
  | Err _ => mret None
  | Ok raw => b ← caught (check pins raw); mret (match b with Ok b => Some (b_BlocklistVersion b) | Err _ => None end)
  end.

Definition FetchConfig (pins : option (list Pub)) (answer : option (Z * string)) : FM hserr string :=
  match pins with
  | None => fail_with HS_NoPin
  | Some pins =>
      raw ← give (bundle_answer answer);
      b ← check pins raw;
      myIP ← overlayIPFromCert;
      if negb (bool_decide (bd_OverlayIP (b_Device b) = myIP)) then fail_with HS_WrongHost
      else applied ← appliedBlocklistVersion pins;
        if match applied with Some v => b_BlocklistVersion b <? v | None => false end then fail_with HS_Rollback
        else _ ← writeConfigArtifacts b raw; mret (bd_OverlayIP (b_Device b))
  end.

(** ** Finishing an enrollment *)

(** The answers to the polls in order; running out of them is the timeout. *)
Inductive pollAnswer : Type := PA_None | PA_Answer (code : Z) (decoded : option (string * string * string)).   (* status, bundle, reason *)
Fixpoint poll (answers : list pollAnswer) : result hserr (string * string * string) :=
  match answers with
  | [] => Ok ("", "pending", "")
  | PA_None :: _ => Err HS_Net
  | PA_Answer code dec :: rest =>
      if code =? 200 then
        match dec with
        | None => Err HS_Decode
        | Some (st, bun, reason) => if decide (st = "issued") then Ok (bun, "issued", "") else Ok ("", st, reason)
        end
      else if code =? 404 then poll rest
      else if code =? 202 then Ok ("", "pending", "")
      else if code =? 410 then Err HS_Expired
      else Err HS_Status
  end.

Definition saveTicket (t : string * string * Z) : FM oserr unit := WriteFile (EnrollTicket l) (hl_marshalTicket lib t) m600.
Definition loadTicket : FM hserr (option (string * string * Z)) :=
  r ← caught (ReadFile (EnrollTicket l));
  mret (match r with
        | Err _ => None
        | Ok raw => match hl_ticket lib raw with
                    | Some (eid, sec, ms) => if bool_decide (eid = "") || bool_decide (sec = "") then None else Some (eid, sec, ms)
                    | None => None
                    end
        end).

(** The status, the overlay address and the reason. *)
Definition finishEnroll (pins : list Pub) (pub : string) (answers : list pollAnswer) : FM hserr (string * string * string) :=
  p ← give (poll answers);
  match p with
  | (raw, st, reason) =>
      if decide (st <> "issued") then
        _ ← (if decide (st = "denied") then dropped (Remove (EnrollTicket l)) else mret ());
        mret (st, "", reason)
      else
        b ← check pins raw;
        _ ← verifyCert b pub;
        _ ← writeArtifacts b raw;
        _ ← dropped (Remove (EnrollTicket l));
        mret ("issued", bd_OverlayIP (b_Device b), "")
  end.

(** ** internal/drift *)

(** [Sync] of the drift monitor; whether it reverted. The reload is a service whose error is only logged. *)
Definition DriftSync (pins : list Pub) : FM hserr bool :=
  r ← caught (ReadFile (BundleFile l));
  match r with
  | Err O_NotExist => mret false
  | Err _ => fail_with HS_File
  | Ok raw =>
      b ← check pins raw;
      match render_config l b with
      | None => fail_with HS_Render
      | Some want =>
          g ← caught (ReadFile (ConfigFile l));
          match g with
          | Err O_NotExist => if decide (want = "") then mret false else _ ← write_file (ConfigFile l) want; mret true
          | Err _ => fail_with HS_File
          | Ok got => if decide (got = want) then mret false else _ ← write_file (ConfigFile l) want; mret true
          end
      end
  end.
End host.

(** ** Lemmas *)

Ltac unlayout := unfold HostKey, HostPub, HostCert, CABundle, ConfigFile, EnrollTicket, BundleFile, ConfigSigningTrust, under in *.
(** Different files of a layout have different names. *)
Ltac apart := unlayout; first [names|rewrite ?str_app_assoc; apply suffixes_ne; vm_compute; discriminate].
Ltac aparts := repeat (apply not_elem_of_cons; split; [apart|]); apply not_elem_of_nil.

Section effects.
Context {Pub : Type} `{!EqDecision Pub} (lib : HostLib Pub) (l : Layout).
Context (HP : Host -> Prop) (C : Files -> Prop) (X : list string -> Files -> Prop).
Implicit Types (s : Files).
Abbreviation tf := (ConfigSigningTrust l).

Lemma looks_read_opt {E} p : looks (read_opt p : FM E (option string)).
Proof. apply looks_bind; auto with ncp. Qed.

Lemma cwp_read_opt {E} p (Q : result E (option string) -> Files -> Prop) s : C s ->
  (~ sure HP -> Q (Ok None) s) -> Q (Ok (contents <$> s !! p)) s -> cwp HP C X (read_opt p) Q s.
Proof.
  intros HC HN HQ. apply cwp_bind, cwp_caught, cwp_ReadFile; [done|intros Hn; by apply cwp_ret, HN|].
  destruct (s !! p); by apply cwp_ret.
Qed.

(** The bundle verifies against the trusted keys on disk; where reads can fail, maybe against the pins alone. *)
Lemma cwp_check pins raw (Q : result hserr Bundle -> Files -> Prop) s : C s -> (forall e, Q (Err e) s) ->
  (forall b tr, (tr = contents <$> s !! tf \/ (~ sure HP /\ tr = None)) -> verify_with lib pins tr raw = Ok b -> Q (Ok b) s) ->
  cwp HP C X (check lib l pins raw) Q s.
Proof.
  intros HC HE HQ. assert (Hgo : forall tr, tr = contents <$> s !! tf \/ (~ sure HP /\ tr = None) ->
    cwp HP C X (match verify_with lib pins tr raw with Ok b => mret b | Err e => fail_with (HS_Bundle e) end) Q s).
  { intros tr Htr. destruct (verify_with _ _ _ _) eqn:Ev; [apply cwp_ret; by eapply HQ|by apply cwp_fail]. }
  apply cwp_bind, cwp_read_opt; [done|intros Hn; apply Hgo; by right|apply Hgo; by left].
Qed.

Lemma cwp_write_file p data (Q : result hserr unit -> Files -> Prop) s :
  (forall s1, off [p] s s1 -> C s1) -> (forall s1, off [p] s s1 -> Q (Err HS_File) s1) ->
  (forall s1 f, off [p] s s1 -> s1 !! p = Some f -> contents f = data -> Q (Ok ()) s1) -> cwp HP C X (write_file p data) Q s.
Proof.
  intros HC HE HQ. apply cwp_wrap, cwp_WriteFile; [done..|]. intros m _. eapply HQ; [apply off_insert; [isin|done]|apply lookup_insert_eq|done].
Qed.

Lemma cwp_PersistTrust v keys (Q : result hserr unit -> Files -> Prop) s :
  (forall s1, off [tf +:+ ".tmp"; tf] s s1 -> C s1) -> (forall r s1, off [tf +:+ ".tmp"; tf] s s1 -> Q r s1) -> cwp HP C X (PersistTrust lib l v keys) Q s.
Proof.
  intros HC HQ. set (I := fun s1 => off [tf +:+ ".tmp"; tf] s s1). unfold PersistTrust. destruct (decide _); [by apply cwp_ret, HQ|].
  apply cwp_bind, looks_read_opt; [by apply HC|]. intros [cur|e]; [|by apply HQ]. destruct (_ <? _); [by apply cwp_ret, HQ|].
  apply cwp_bind, cwp_wrap, cwp_op_intact; [by apply HC|by apply HQ|]. intros h. cbn [fst snd].
  set (s1 := <[_ := _]> s). assert (H1 : I s1) by (apply off_insert; [isin|done]).
  apply cwp_bind, cwp_wrap, cwp_op; [by apply HC|intros; apply HC, off_insert; [isin|done]|by apply HQ|intros; apply HQ, off_insert; [isin|done]|]. intros h'. cbn [fst snd].
  set (s2 := <[_ := _]> s1). assert (H2 : I s2) by (apply off_insert; [isin|done]).
  apply cwp_bind, cwp_wrap, cwp_op_intact; [by apply HC|by apply HQ|]. intros _. apply cwp_bind, cwp_wrap, cwp_op_intact; [by apply HC|by apply HQ|]. intros _.
  apply cwp_wrap, cwp_Rename; [by apply HC|by apply HQ|]. destruct (_ !! _); [|by apply HQ]. apply HQ, off_insert; [isin|]. apply off_delete; [isin|done].
Qed.

Lemma cwp_verifyCert b pub (Q : result hserr unit -> Files -> Prop) s : C s -> (forall e, Q (Err e) s) ->
  (forall leaf verify t, hl_pool lib (join_pem (b_CABundle b)) = Some verify -> hl_leaf lib (b_Certificate b) = Some leaf ->
     verify t (b_Certificate b) = true -> lf_PublicKey leaf = pub -> Q (Ok ()) s) ->
  cwp HP C X (verifyCert lib b pub) Q s.
Proof.
  intros HC HE HQ. unfold verifyCert. destruct (hl_pool _ _) as [v|]; [|by apply cwp_fail]. destruct (hl_leaf _ _) as [leaf|]; [|by apply cwp_fail].
  apply cwp_bind, cwp_clock. intros h n _. destruct (v _ _) eqn:Ev; [|by apply cwp_fail]. cbn [negb]. destruct (decide _); [|by apply cwp_fail].
  apply cwp_ret. by eapply HQ.
Qed.
End effects.

(** A step of a sequence of writes that only counts when all of them succeed. *)
Definition done_or {E A} (P : A -> Files -> Prop) (r : result E A) (s : Files) : Prop := match r with Ok a => P a s | Err _ => True end.

Section identity.
Context {Pub : Type} `{!EqDecision Pub} (lib : HostLib Pub) (l : Layout).
Implicit Types (s : Files).
Abbreviation any := (fun _ : Host => True).
Abbreviation T1 := (fun _ : Files => True).
Abbreviation T2 := (fun (_ : list string) (_ : Files) => True).

(** The files hold [b] and its certificate. *)
Definition holds s (b : Bundle) (raw : string) : Prop :=
  contents <$> s !! CABundle l = Some (join_pem (b_CABundle b)) /\ contents <$> s !! HostCert l = Some (b_Certificate b) /\
  contents <$> s !! BundleFile l = Some raw /\ contents <$> s !! ConfigFile l = render_config l b /\ is_Some (render_config l b).

Lemma writeArtifacts_done b raw s :
  cwp any T1 T2 (writeArtifacts lib l b raw)
    (done_or (fun _ s' => holds s' b raw /\ forall p, p ∈ [HostKey l; HostPub l] -> s' !! p = s !! p)) s.
Proof.
  apply cwp_bind, cwp_write_file; [done..|]. intros s1 f1 H1 F1 D1. apply cwp_bind, cwp_write_file; [done..|]. intros s2 f2 H2 F2 D2.
  apply cwp_bind, cwp_write_file; [done..|]. intros s3 f3 H3 F3 D3. apply cwp_bind, cwp_PersistTrust; [done|]. intros [[]|e] s4 H4; [|done].
  unfold render_and_write. destruct (render_config l b) as [cfg|] eqn:Er; [|by apply cwp_fail].
  apply cwp_write_file; [done..|]. intros s5 f5 H5 F5 D5. split.
  - split; [|split; [|split; [|split]]].
    + rewrite H5, H4, H3, H2, F1 by aparts. cbn. by rewrite D1.
    + rewrite H5, H4, H3, F2 by aparts. cbn. by rewrite D2.
    + rewrite H5, H4, F3 by aparts. cbn. by rewrite D3.
    + rewrite F5, Er. cbn. by rewrite D5.
    + rewrite Er. eauto.
  - intros p Hp. rewrite H5, H4, H3, H2, H1; [done|..]; (apply elem_of_cons in Hp as [->|Hp]; [aparts|apply list_elem_of_singleton in Hp as ->; aparts]).
Qed.

(** A renewal that reports success leaves one identity: the key on disk is the new one, the
    certificate is bound to it and verifies under the CAs it came with, and certificate, CAs,
    bundle and configuration all come from one bundle that verified against trusted keys. *)
Theorem renewed_identity_matches pins kp ask h n s ip n' s' :
  Renew lib l (Some pins) kp ask h n s = (Returned (Ok ip), n', s') ->
  exists raw b leaf verify t tr, bundle_answer lib (ask kp) = Ok raw /\ (tr = contents <$> s !! ConfigSigningTrust l \/ tr = None) /\
    verify_with lib pins tr raw = Ok b /\ holds s' b raw /\ ip = bd_OverlayIP (b_Device b) /\
    contents <$> s' !! HostKey l = Some (kp_privPEM kp) /\
    hl_leaf lib (b_Certificate b) = Some leaf /\ lf_PublicKey leaf = kp_pub kp /\
    hl_pool lib (join_pem (b_CABundle b)) = Some verify /\ verify t (b_Certificate b) = true.
Proof.
  intros E. assert (Hw : cwp any T1 T2 (Renew lib l (Some pins) kp ask) (done_or (fun ip s' => exists raw b leaf verify t tr,
    bundle_answer lib (ask kp) = Ok raw /\ (tr = contents <$> s !! ConfigSigningTrust l \/ tr = None) /\ verify_with lib pins tr raw = Ok b /\
    holds s' b raw /\ ip = bd_OverlayIP (b_Device b) /\ contents <$> s' !! HostKey l = Some (kp_privPEM kp) /\
    hl_leaf lib (b_Certificate b) = Some leaf /\ lf_PublicKey leaf = kp_pub kp /\
    hl_pool lib (join_pem (b_CABundle b)) = Some verify /\ verify t (b_Certificate b) = true)) s).
  { unfold Renew. apply cwp_bind, cwp_give. destruct (bundle_answer lib (ask kp)) as [raw|e]; [|done].
    apply cwp_bind, cwp_check; [done..|]. intros b tr Htr Hv. apply cwp_bind, cwp_verifyCert; [done..|]. intros leaf verify t Hpool Hleaf Hver Hpub.
    apply cwp_bind, cwp_bind, cwp_wrap, cwp_WriteFile; [done..|]. intros m _. apply cwp_wrap, cwp_Rename; [done..|]. rewrite lookup_insert_eq.
    set (s1 := <[HostKey l := _]> _). assert (K1 : s1 !! HostKey l = Some (mkFile (kp_privPEM kp) m)) by apply lookup_insert_eq. clearbody s1.
    apply cwp_bind, cwp_write_file; [done..|]. intros s2 f2 H2 _ _. apply cwp_bind. eapply cwp_mono; [apply writeArtifacts_done|].
    intros [[]|e] s3 H3; [|done]. destruct H3 as [Hh Hk]. apply cwp_ret. exists raw, b, leaf, verify, t, tr.
    rewrite Hk, H2, K1 by (try aparts; isin). split_and!; try done. destruct Htr as [?|[_ ?]]; [by left|by right]. }
  specialize (Hw h n I). by rewrite E in Hw.
Qed.

(** ** The config refresh *)

(** What a refresh may have put into the files: a bundle for this host's own address, not
    behind the one applied. *)
Definition acceptable (pins : list Pub) s (raw : string) (b : Bundle) : Prop :=
  verify_with lib pins (contents <$> s !! ConfigSigningTrust l) raw = Ok b /\
  (exists cf leaf nets, s !! HostCert l = Some cf /\ hl_leaf lib (contents cf) = Some leaf /\ lf_Networks leaf = bd_OverlayIP (b_Device b) :: nets) /\
  (forall bf b0, s !! BundleFile l = Some bf -> verify_with lib pins (contents <$> s !! ConfigSigningTrust l) (contents bf) = Ok b0 ->
     b_BlocklistVersion b0 <= b_BlocklistVersion b).
Definition config_files : list string := [CABundle l; BundleFile l; ConfigSigningTrust l +:+ ".tmp"; ConfigSigningTrust l; ConfigFile l].

Lemma overlayIP_cwp C X HP (Q : result hserr string -> Files -> Prop) s : C s -> (forall e, Q (Err e) s) ->
  (forall ip, (exists cf leaf nets, s !! HostCert l = Some cf /\ hl_leaf lib (contents cf) = Some leaf /\ lf_Networks leaf = ip :: nets) -> Q (Ok ip) s) ->
  cwp HP C X (overlayIPFromCert lib l) Q s.
Proof.
  intros HC HE HQ. apply cwp_bind, cwp_wrap, cwp_ReadFile; [done|intros _; apply HE|]. destruct (s !! HostCert l) as [cf|] eqn:Ec; [|apply HE].
  destruct (hl_leaf _ _) as [leaf|] eqn:El; [|by apply cwp_fail]. destruct (lf_Networks leaf) as [|ip nets] eqn:En; [by apply cwp_fail|].
  apply cwp_ret, HQ. by exists cf, leaf, nets.
Qed.

Lemma applied_cwp C X HP pins (Q : result hserr (option Z) -> Files -> Prop) s : sure HP -> C s ->
  (forall v, (forall bf b0, s !! BundleFile l = Some bf -> verify_with lib pins (contents <$> s !! ConfigSigningTrust l) (contents bf) = Ok b0 ->
     v = Some (b_BlocklistVersion b0)) -> Q (Ok v) s) -> cwp HP C X (appliedBlocklistVersion lib l pins) Q s.
Proof.
  intros Hs HC HQ. apply cwp_bind, cwp_caught, cwp_ReadFile; [done|done|]. destruct (s !! BundleFile l) as [bf|] eqn:Eb; [|by apply cwp_ret, HQ].
  apply cwp_bind, cwp_caught, cwp_bind, cwp_read_opt; [done|done|].
  destruct (verify_with lib pins (contents <$> s !! ConfigSigningTrust l) (contents bf)) as [b|e] eqn:Ev; [apply cwp_ret|apply cwp_fail]; apply cwp_ret, HQ;
    intros bf' b0 [= <-] Hv; congruence.
Qed.

Lemma writeConfigArtifacts_cwp HP X b raw s :
  cwp HP (off config_files s) X (writeConfigArtifacts lib l b raw) (fun _ => off config_files s) s.
Proof.
  assert (Hw : forall p s0 s1, p ∈ config_files -> off config_files s s0 -> off [p] s0 s1 -> off config_files s s1).
  { intros p s0 s1 Hp H0 H1. eapply off_trans; [exact H0|]. eapply off_weaken; [|exact H1]. set_solver. }
  apply cwp_bind, cwp_write_file; [intros; eapply Hw; [|apply off_refl|done]; isin|intros; eapply Hw; [|apply off_refl|done]; isin|].
  intros s1 f1 H1 _ _. apply (Hw _ s) in H1; [|isin|done].
  apply cwp_bind, cwp_write_file; [intros; eapply Hw; [|done|done]; isin|intros; eapply Hw; [|done|done]; isin|].
  intros s2 f2 H2 _ _. apply (Hw _ s1) in H2; [|isin|done].
  assert (Ht : forall s3, off [ConfigSigningTrust l +:+ ".tmp"; ConfigSigningTrust l] s2 s3 -> off config_files s s3).
  { intros s3 H3. eapply off_trans; [exact H2|]. eapply off_weaken; [|exact H3]. set_solver. }
  apply cwp_bind, cwp_PersistTrust; [done|]. intros [[]|e] s3 H3%Ht; [|done]. unfold render_and_write.
  destruct (render_config _ _); [|by apply cwp_fail]. apply cwp_write_file; intros; (eapply Hw; [|done|done]); isin.
Qed.

(** C28: one config refresh stays within the host's own configuration. When no read fails, whatever
    write fails and wherever the process dies, key, certificate and every other file are as they
    were, and the configuration files changed only for a bundle that verified against the trusted
    keys, is made for the address in this host's own certificate and whose blocklist version is not
    behind that of the stored bundle, where the stored bundle verifies. When it does not (a crash cut
    its last write short) the version guard is open: [torn_bundle_allows_blocklist_rollback]. *)
Theorem config_refresh_is_bound pins answer h s s' : reads_ok h ->
  leaves (FetchConfig lib l (Some pins) answer) h s s' ->
  s' = s \/ (off config_files s s' /\ exists raw b, bundle_answer lib answer = Ok raw /\ acceptable pins s raw b).
Proof.
  intros Hr Hl. set (Post := fun s' => s' = s \/ (off config_files s s' /\ exists raw b, bundle_answer lib answer = Ok raw /\ acceptable pins s raw b)).
  eapply (cwp_leaves reads_ok Post); [|exact Hr|exact Hl]. assert (Hsure : sure reads_ok) by (intros ?; done). assert (H0 : Post s) by by left.
  unfold FetchConfig. apply cwp_bind, cwp_give. destruct (bundle_answer lib answer) as [raw|e] eqn:Ea; [|done].
  apply cwp_bind, cwp_check; [done..|]. intros b tr Htr Hv. destruct Htr as [-> | [Hn _]]; [|done].
  apply cwp_bind, overlayIP_cwp; [done..|]. intros ip Hip. destruct (bool_decide _) eqn:Eip; [|by apply cwp_fail]. apply bool_decide_eq_true in Eip as <-.
  cbn [negb]. apply cwp_bind, applied_cwp; [done|done|]. intros v Hver. destruct (match v with Some _ => _ | None => _ end) eqn:Ev; [by apply cwp_fail|].
  assert (Hacc : acceptable pins s raw b).
  { split; [done|]. split; [done|]. intros bf b0 Hbf Hb0. rewrite (Hver bf b0 Hbf Hb0) in Ev. apply Z.ltb_ge in Ev. done. }
  apply cwp_bind. eapply cwp_mono; [eapply cwp_crash; [apply writeConfigArtifacts_cwp|]|].
  - intros s1 H1. right. split; [done|]. by exists raw, b.
  - intros r s1 H1. assert (Post s1) by (right; split; [done|by exists raw, b]). destruct r as [[]|e]; [by apply cwp_ret|done].
Qed.

(** ** The drift monitor *)

Lemma DriftSync_off HP X pins s : cwp HP (off [ConfigFile l] s) X (DriftSync lib l pins) (fun _ => off [ConfigFile l] s) s.
Proof.
  assert (Hw : forall want, cwp HP (off [ConfigFile l] s) X (_ ← write_file (ConfigFile l) want; mret true : FM hserr bool) (fun _ => off [ConfigFile l] s) s).
  { intros want. apply cwp_bind, cwp_write_file; [done..|]. intros. by apply cwp_ret. }
  apply cwp_bind, looks_caught; [auto with ncp|done|]. intros [[raw|[]]|e]; try (by apply cwp_ret); try (by apply cwp_fail); [|done].
  apply cwp_bind, cwp_check; [done|done|]. intros b tr _ _. destruct (render_config _ _) as [want|]; [|by apply cwp_fail].
  apply cwp_bind, looks_caught; [auto with ncp|done|]. intros [[got|[]]|e]; try (by apply cwp_fail); [| |done]; (destruct (decide _); [by apply cwp_ret|apply Hw]).
Qed.

Lemma returns_check HP pins raw b (Q : result hserr Bundle -> Files -> Prop) s : smooth HP ->
  verify_with lib pins (contents <$> s !! ConfigSigningTrust l) raw = Ok b -> Q (Ok b) s -> returns HP (check lib l pins raw) Q s.
Proof.
  intros Hs Hv HQ. apply cwp_bind, cwp_bind, cwp_caught, (returns_op _ Hs). intros _. cbn [fst snd].
  destruct (s !! ConfigSigningTrust l); cbn in Hv; apply cwp_ret; rewrite Hv; by apply cwp_ret.
Qed.

Lemma drift_returns pins s bf b want : s !! BundleFile l = Some bf ->
  verify_with lib pins (contents <$> s !! ConfigSigningTrust l) (contents bf) = Ok b -> render_config l b = Some want ->
  forall h n, calm h -> exists n' s', DriftSync lib l pins h n s = (Returned (Ok (negb (bool_decide (contents <$> s !! ConfigFile l = Some want)))), n', s') /\
    contents <$> s' !! ConfigFile l = Some want /\ off [ConfigFile l] s s'.
Proof.
  intros Hb Hv Hr h n Hc. assert (Hne : want <> "") by by eapply Render_nonempty. assert (Hw : returns calm (DriftSync lib l pins)
    (fun r s' => r = Ok (negb (bool_decide (contents <$> s !! ConfigFile l = Some want))) /\ contents <$> s' !! ConfigFile l = Some want /\ off [ConfigFile l] s s') s).
  { assert (Hs : smooth calm) by (intros ?; done).
    assert (Hwr : contents <$> s !! ConfigFile l <> Some want -> returns calm (_ ← write_file (ConfigFile l) want; mret true : FM hserr bool)
      (fun r s' => r = Ok (negb (bool_decide (contents <$> s !! ConfigFile l = Some want))) /\ contents <$> s' !! ConfigFile l = Some want /\ off [ConfigFile l] s s') s).
    { intros Hd. apply cwp_bind, cwp_wrap, (returns_op _ Hs). intros h'. cbn [fst snd]. apply cwp_ret. rewrite bool_decide_false by done.
      split; [done|]. rewrite lookup_insert_eq. split; [done|]. apply off_insert; [isin|done]. }
    apply cwp_bind, cwp_caught. eapply returns_ReadFile; [done|exact Hb|]. apply cwp_bind. eapply returns_check; [done|exact Hv|]. rewrite Hr.
    apply cwp_bind, cwp_caught, (returns_op _ Hs). intros _. cbn [fst snd]. destruct (s !! ConfigFile l) as [cf|] eqn:Ef; cbn [fmap option_fmap option_map] in Hwr |- *.
    - destruct (decide (contents cf = want)) as [E|E]; [|apply Hwr; congruence]. apply cwp_ret. rewrite Ef. cbn. by rewrite E, bool_decide_true.
    - rewrite decide_False by done. by apply Hwr. }
  specialize (Hw h n Hc). destruct (DriftSync lib l pins h n s) as [[[r| |v] n'] s']; [|done..]. destruct Hw as (-> & H1 & H2). by exists n', s'.
Qed.
(** The signed configuration is re-asserted: a check of the monitor touches no file but the
    configuration, and when nothing fails it returns with the configuration equal to the
    rendering of the stored bundle, reporting a revert exactly when it was not; whatever an
    editor or an interrupted write left there, one check repairs it. *)
Theorem drift_is_reverted pins s bf b want : s !! BundleFile l = Some bf ->
  verify_with lib pins (contents <$> s !! ConfigSigningTrust l) (contents bf) = Ok b -> render_config l b = Some want ->
  forall h n, calm h -> exists n' s', DriftSync lib l pins h n s = (Returned (Ok (negb (bool_decide (contents <$> s !! ConfigFile l = Some want)))), n', s') /\
    contents <$> s' !! ConfigFile l = Some want /\ off [ConfigFile l] s s'.
Proof. intros Hb Hv Hr h n Hc. by eapply drift_returns. Qed.

End identity.

(** ** A host and its servers *)

Module hexample.
Import example nexample.
Definition K1 : KeyPair := mkKeyPair "k1" "p1" "P1".
Definition K2 : KeyPair := mkKeyPair "k2" "p2" "P2".
(** A bundle by its text: the certificate, the overlay address and the blocklist version. *)
Definition mk (cert ip : string) (bv : Z) : Bundle :=
  let b := stamped demo_bundle in
  mkBundle (b_ProtocolVersion b) (b_Type b) (b_BundleVersion b) bv (b_IssuedAt b) (mkBDevice "h" ip []) cert
    ["ca"] [] (b_ConfigKeyVersion b) None [] [] "" 0 ("", "", "") ("", "", "") (b_NotAfter b).
Definition known : list (string * Bundle) := [("B1", mk "c1" "10.0.0.1" 5); ("B2", mk "c2" "10.0.0.1" 7); ("B3", mk "c1" "10.0.0.1" 3); ("B4", mk "c1" "10.0.0.9" 9)].
Definition sign (name : string) : string := default "" (SignBundle sha toy_marshal (fun _ => name) toy_em toy_digest toy_der "kid" demo_bundle).
Definition hlib : HostLib Z := mkHostLib sha toy_verify toy_unmarshal
  (fun s => snd <$> find_first (fun x => bool_decide (x.1 = s)) known) toy_eu toy_pem toy_tm toy_tu
  (fun c => if decide (c = "c1") then Some (mkLeaf "P1" ["10.0.0.1"]) else if decide (c = "c2") then Some (mkLeaf "P2" ["10.0.0.1"]) else None)
  (fun _ => Some (fun _ _ => true))
  (fun k => if decide (k = "k1") then Some K1 else if decide (k = "k2") then Some K2 else None)
  (fun body => Some (sign body)) (fun _ => None) (fun _ => "").
Definition lay : Layout := mkLayout "/d".
Definition cfg : string := default "" (render_config lay (mk "c1" "10.0.0.1" 5)).
Definition f644 (c : string) : file := mkFile c m644.
Definition host1 : Files := {[ "/d/host.key" := mkFile "k1" m600; "/d/host.crt" := f644 "c1"; "/d/bundle.json" := f644 (sign "B1"); "/d/config.yml" := f644 cfg ]}.
Definition renew2 : FM hserr string := Renew hlib lay (Some [7]) K2 (fun _ => Some (200, "B2")).
Definition fetch_ (name : string) : FM hserr string := FetchConfig hlib lay (Some [7]) (Some (200, name)).
End hexample.
Import example nexample hexample.

Lemma renewed_identity_matches_witness : exists n' s' raw b,
  renew2 (fine 0) 0%nat host1 = (Returned (Ok "10.0.0.1"), n', s') /\ holds lay s' b raw /\ contents <$> s' !! "/d/host.key" = Some "k2".
Proof.
  destruct (renew2 (fine 0) 0%nat host1) as [[o n'] s'] eqn:E. assert (o = Returned (Ok "10.0.0.1")) as ->.
  { change o with ((o, n', s').1.1). rewrite <- E. by vm_compute. }
  destruct (renewed_identity_matches hlib lay [7] K2 (fun _ => Some (200, "B2")) (fine 0) 0%nat host1 "10.0.0.1" n' s' E) as (raw & b & leaf & verify & t & tr & H1 & H2 & H3 & H4 & H5 & H6 & _).
  exists n', s', raw, b. split; [done|]. split; [exact H4|exact H6].
Defined.

Lemma config_refresh_is_bound_witness :
  let s' := after (fetch_ "B2") (at_op 5 (E_Crash (Some 1%nat)) 0) host1 in
  s' = host1 \/ (off (config_files lay) host1 s' /\ exists raw b, bundle_answer hlib (Some (200, "B2")) = Ok raw /\ acceptable hlib lay [7] host1 raw b).
Proof.
  intros s'. apply (config_refresh_is_bound hlib lay [7] (Some (200, "B2")) (at_op 5 (E_Crash (Some 1%nat)) 0) host1 s').
  - intros n k. cbn. by destruct (decide _).
  - by exists 0%nat.
Defined.

Lemma drift_is_reverted_witness : exists n' s',
  DriftSync hlib lay [7] (fine 0) 0%nat (<["/d/config.yml" := f644 "edited"]> host1) = (Returned (Ok true), n', s') /\
  contents <$> s' !! "/d/config.yml" = Some cfg.
Proof.
  destruct (drift_is_reverted hlib lay [7] (<["/d/config.yml" := f644 "edited"]> host1) (f644 (sign "B1")) (mk "c1" "10.0.0.1" 5) cfg
    ltac:(by vm_compute) ltac:(by vm_compute) ltac:(by vm_compute) (fine 0) 0%nat (fun _ _ => eq_refl)) as (n' & s' & H1 & H2 & _).
  exists n', s'. split; [exact H1|exact H2].
Defined.

Module published.
Import rendered.
Definition lib : HostLib Z := mkHostLib toy_hash toy_verify toy_unmarshal (fun _ => Some (stamped bundle)) toy_eu toy_pem toy_tm toy_tu
  (fun _ => None) (fun _ => None) (fun _ => None) (fun _ => None) (fun _ => None) (fun _ => "").
Definition jws : string := default "" (SignBundle toy_hash toy_marshal toy_bm toy_em toy_digest toy_der "kid" bundle).
Definition edited : Files := {[ "/d/bundle.json" := f644 jws; "/d/config.yml" := f644 "firewall: off" ]}.

End published.

(** ** What the model showed *)

(** A crash between the key and the certificate of a renewal leaves a key and a certificate that
    do not belong together. *)
Lemma crash_in_renewal_splits_identity :
  let s' := after renew2 (at_op 4 (E_Crash None) 0) host1 in
  contents <$> s' !! "/d/host.key" = Some "k2" /\ contents <$> s' !! "/d/host.crt" = Some "c1" /\
  lf_PublicKey <$> hl_leaf hlib "c1" = Some "P1" /\ kp_pub <$> hl_loadKey hlib "k2" = Some "P2".
Proof. by vm_compute. Qed.

(** An older blocklist is refused, but after a write of the stored bundle was cut short the same
    bundle is applied. *)
Lemma torn_bundle_allows_blocklist_rollback :
  let s1 := after (fetch_ "B2") (at_op 5 (E_Crash (Some 1%nat)) 0) host1 in
  result_of (fetch_ "B3") (fine 0) host1 = Returned (Err HS_Rollback) /\
  result_of (fetch_ "B3") (fine 0) s1 = Returned (Ok "10.0.0.1") /\ contents <$> after (fetch_ "B3") (fine 0) s1 !! "/d/bundle.json" = Some (sign "B3").
Proof. by vm_compute. Qed.

(** A crash in the first write of the host key leaves a file that no later run can load or replace. *)
Lemma torn_key_wedges_enrollment :
  let s1 := after (loadOrGenerate hlib lay K1) (at_op 2 (E_Crash (Some 1%nat)) 0) ∅ in
  contents <$> s1 !! "/d/host.key" = Some "k" /\ result_of (loadOrGenerate hlib lay K2) (fine 0) s1 = Returned (Err HS_KeyParse) /\
  after (loadOrGenerate hlib lay K2) (fine 0) s1 = s1.
Proof. by vm_compute. Qed.
