(* ===== verification/Supervisor.v ===== *)
(** * internal/supervisor, internal/reconcile: the nebula subprocess

    The supervisor as a state machine. Its goroutine ([Run] with [runOnce], [adoptOnce],
    [stop] and [stopPID]) is cut at the points where it waits or where another goroutine,
    the operating system or the clock can act; what those do is an event of its own:
    requesting a restart, cancelling the context, replacing the binary, a process's
    exit, time passing. A run is a list of events; a trace is any interleaving. Times are
    nanoseconds, the zero time is 0. A process is known by its pid, the bytes it runs,
    whether this supervisor forked it and the last signal it was sent. Signals only ask:
    when a process goes away is an event of the operating system. Starting the child is two
    steps, the fork and recording it, since other goroutines can look in between. Logging is
    not modelled. *)

From S2P Require Import Prelude Bytes GoStrings DualControl Policy Bundle NebulaConfig.
From stdpp Require Import prelude strings list gmap relations.
From Stdlib Require Import ZArith Lia.
Open Scope Z_scope.

Definition second : Z := 1000000000.
Definition millisecond : Z := 1000000.

(** The fields of [Supervisor] that configure it. *)
Record Config : Type := mkConfig {
  c_ExpectedSHA256 : string; c_AdoptPID : Z;
  c_MinBackoff : Z; c_MaxBackoff : Z; c_StableAfter : Z; c_GracePeriod : Z;
}.

Definition or_default (v d : Z) : Z := if v <=? 0 then d else v.

Definition defaults (c : Config) : Config :=
  mkConfig (c_ExpectedSHA256 c) (c_AdoptPID c) (or_default (c_MinBackoff c) second) (or_default (c_MaxBackoff c) (30 * second))
    (or_default (c_StableAfter c) (60 * second)) (or_default (c_GracePeriod c) (10 * second)).

Definition nextBackoff (cur max : Z) : Z := let n := i64 (cur * 2) in if max <? n then max else n.

(** What [runOnce] and [adoptOnce] return. *)
Inductive runerr : Type := R_Exited | R_Start | R_Intentional | R_Cancelled.

Inductive stopping : Type := For_Restart | For_Shutdown.
#[export] Instance runerr_eq_dec : EqDecision runerr. Proof. solve_decision. Defined.
#[export] Instance stopping_eq_dec : EqDecision stopping. Proof. solve_decision. Defined.
Definition stop_err (w : stopping) : runerr := match w with For_Restart => R_Intentional | For_Shutdown => R_Cancelled end.

(** Where the goroutine is. [start] is when [Run] called [runOnce]. *)
Inductive phase : Type :=
| Ph_Init
| Ph_Adopted (pid : Z)                                     (* the select of adoptOnce *)
| Ph_StopPID (pid : Z) (deadline : Z) (w : stopping)
| Ph_Top
| Ph_Exec (seen : option string) (start : Z)               (* the digest of these bytes was checked *)
| Ph_Forked (pid : Z) (start : Z)                          (* cmd.Start returned, setCmd has not run *)
| Ph_Wait (pid : Z) (start : Z)                            (* the select of runOnce *)
| Ph_Stop (pid : Z) (start : Z) (deadline : Z) (w : stopping)
| Ph_Reap (pid : Z) (start : Z) (w : stopping)             (* killed; waiting for done *)
| Ph_Returned (start : Z) (e : runerr)
| Ph_Sleep (until : Z)
| Ph_Done (ok : bool).

#[export] Instance phase_eq_dec : EqDecision phase. Proof. solve_decision. Defined.

Inductive signal : Type := SIGTERM | SIGKILL.
Record Proc : Type := mkProc { pr_image : string; pr_forked : bool; pr_signal : option signal }.

Record State : Type := mkState {
  ph : phase; backoff : Z; restartCh : bool;
  cmd : option Z; adoptedPid : Z; startedAt : Z;
  procs : gmap Z Proc; disk : option string; clock : Z; cancelled : bool;
}.

(** [processAlive] *)
Definition processAlive (pid : Z) (s : State) : bool := (0 <? pid) && bool_decide (is_Some (procs s !! pid)).

Definition to (p : phase) (s : State) : State :=
  mkState p (backoff s) (restartCh s) (cmd s) (adoptedPid s) (startedAt s) (procs s) (disk s) (clock s) (cancelled s).
Definition set_backoff (b : Z) (s : State) : State :=
  mkState (ph s) b (restartCh s) (cmd s) (adoptedPid s) (startedAt s) (procs s) (disk s) (clock s) (cancelled s).
Definition set_restart (r : bool) (s : State) : State :=
  mkState (ph s) (backoff s) r (cmd s) (adoptedPid s) (startedAt s) (procs s) (disk s) (clock s) (cancelled s).
Definition set_procs (m : gmap Z Proc) (s : State) : State :=
  mkState (ph s) (backoff s) (restartCh s) (cmd s) (adoptedPid s) (startedAt s) m (disk s) (clock s) (cancelled s).

(** [terminate], [forceKill] and their twins for an adopted pid: the signal reaches the
    process if it is still there. *)
Definition Kill (pid : Z) (sg : signal) (s : State) : State :=
  set_procs (alter (fun p => mkProc (pr_image p) (pr_forked p) (Some sg)) pid (procs s)) s.
Definition terminate (pid : Z) : State -> State := Kill pid SIGTERM.
Definition forceKill (pid : Z) : State -> State := Kill pid SIGKILL.
Definition terminatePID (pid : Z) : State -> State := Kill pid SIGTERM.
Definition forceKillPID (pid : Z) : State -> State := Kill pid SIGKILL.

Definition setCmd (c : option Z) (s : State) : State :=
  mkState (ph s) (backoff s) (restartCh s) c (adoptedPid s) (match c with Some _ => clock s | None => 0 end) (procs s) (disk s) (clock s) (cancelled s).

Definition setAdopted (pid : Z) (s : State) : State :=
  mkState (ph s) (backoff s) (restartCh s) (cmd s) pid
    (if negb (pid =? 0) then clock s else if bool_decide (cmd s = None) then 0 else startedAt s) (procs s) (disk s) (clock s) (cancelled s).

Inductive event : Type :=
(* the supervisor's goroutine *)
| E_Adopt | E_Poll | E_TakeRestart | E_TakeCancel | E_StopTick | E_Deadline | E_Top | E_Start (pid : option Z) | E_SetCmd | E_Child | E_Next | E_Wake
(* everybody else *)
| E_Restart | E_Cancel | E_Exit (pid : Z) | E_Swap (content : option string) | E_Clock (t : Z).

Section supervisor.
Context (sha256 : string -> string) (cfg : Config).
Abbreviation c := (defaults cfg).

(** [adoptOnce] returned; [Run] looks at the context. *)
Definition adopt_return (s : State) : State :=
  let s := setAdopted 0 s in if cancelled s then to (Ph_Done true) s else to Ph_Top (set_backoff (c_MinBackoff c) s).

Definition child_return (start : Z) (e : runerr) (s : State) : State := to (Ph_Returned start e) (setCmd None s).

(** [binverify.SHA256] of the file: the expected digest is trimmed and in any case. *)
Definition binverify (expectedHex : string) (content : option string) : bool :=
  let want := ToLower (TrimSpace expectedHex) in
  negb (bool_decide (want = "")) && match content with Some b => bool_decide (hex (sha256 b) = want) | None => false end.
Definition digest_ok (content : option string) : bool := bool_decide (c_ExpectedSHA256 c = "") || binverify (c_ExpectedSHA256 c) content.

(** [Run]: before the loop, at its top, after [runOnce] and in the pause. *)
Definition Run_step (e : event) (s : State) : option State :=
  match ph s, e with
  | Ph_Init, E_Adopt =>
      Some (if 0 <? c_AdoptPID c then
              if processAlive (c_AdoptPID c) s then to (Ph_Adopted (c_AdoptPID c)) (setAdopted (c_AdoptPID c) s)
              else if cancelled s then to (Ph_Done true) s else to Ph_Top (set_backoff (c_MinBackoff c) s)
            else to Ph_Top (set_backoff (c_MinBackoff c) s))
  | Ph_Top, E_Top =>
      Some (if cancelled s then to (Ph_Done true) s
            else if digest_ok (disk s) then to (Ph_Exec (disk s) (clock s)) s else to (Ph_Done false) s)
  | Ph_Returned start e, E_Next =>
      Some (if cancelled s then to (Ph_Done true) s
            else match e with
                 | R_Intentional => to Ph_Top (set_backoff (c_MinBackoff c) s)
                 | _ => let b := if c_StableAfter c <=? clock s - start then c_MinBackoff c else backoff s in
                        to (Ph_Sleep (clock s + b)) (set_backoff b s)
                 end)
  | Ph_Sleep _, E_TakeCancel => if cancelled s then Some (to (Ph_Done true) s) else None
  | Ph_Sleep until, E_Wake => if until <=? clock s then Some (to Ph_Top (set_backoff (nextBackoff (backoff s) (c_MaxBackoff c)) s)) else None
  | _, _ => None
  end.

(** [runOnce]: the start of the process, recording it, and the select. *)
Definition runOnce_step (e : event) (s : State) : option State :=
  match ph s, e with
  | Ph_Exec _ start, E_Start pid =>
      match pid, disk s with
      | Some pid, Some content =>
          if (0 <? pid) && bool_decide (procs s !! pid = None) then
            Some (to (Ph_Forked pid start) (set_procs (<[pid := mkProc content true None]> (procs s)) s))
          else None
      | _, _ => Some (to (Ph_Returned start R_Start) s)
      end
  | Ph_Forked pid start, E_SetCmd => Some (to (Ph_Wait pid start) (setCmd (Some pid) s))
  | Ph_Wait pid start, E_Child => if bool_decide (procs s !! pid = None) then Some (child_return start R_Exited s) else None
  | Ph_Wait pid start, E_TakeRestart =>
      if restartCh s then Some (to (Ph_Stop pid start (clock s + c_GracePeriod c) For_Restart) (terminate pid (set_restart false s))) else None
  | Ph_Wait pid start, E_TakeCancel =>
      if cancelled s then Some (to (Ph_Stop pid start (clock s + c_GracePeriod c) For_Shutdown) (terminate pid s)) else None
  | _, _ => None
  end.

(** [stop]: the process was asked to stop; it is reaped, if need be after a kill. *)
Definition stop_step (e : event) (s : State) : option State :=
  match ph s, e with
  | Ph_Stop pid start _ w, E_Child => if bool_decide (procs s !! pid = None) then Some (child_return start (stop_err w) s) else None
  | Ph_Stop pid start deadline w, E_Deadline => if deadline <=? clock s then Some (to (Ph_Reap pid start w) (forceKill pid s)) else None
  | Ph_Reap pid start w, E_Child => if bool_decide (procs s !! pid = None) then Some (child_return start (stop_err w) s) else None
  | _, _ => None
  end.

(** [adoptOnce]: the select. *)
Definition adoptOnce_step (e : event) (s : State) : option State :=
  match ph s, e with
  | Ph_Adopted pid, E_Poll => Some (if processAlive pid s then s else adopt_return s)
  | Ph_Adopted pid, E_TakeRestart =>
      if restartCh s then Some (to (Ph_StopPID pid (clock s + c_GracePeriod c) For_Restart) (terminatePID pid (set_restart false s))) else None
  | Ph_Adopted pid, E_TakeCancel =>
      if cancelled s then Some (to (Ph_StopPID pid (clock s + c_GracePeriod c) For_Shutdown) (terminatePID pid s)) else None
  | _, _ => None
  end.

(** [stopPID]: an adopted process can only be polled; after the kill nobody waits for it. *)
Definition stopPID_step (e : event) (s : State) : option State :=
  match ph s, e with
  | Ph_StopPID pid _ _, E_StopTick => Some (if processAlive pid s then s else adopt_return s)
  | Ph_StopPID pid deadline _, E_Deadline => if deadline <=? clock s then Some (adopt_return (forceKillPID pid s)) else None
  | _, _ => None
  end.

(** [Restart], for any goroutine: a request that is pending already coalesces. *)
Definition Restart (s : State) : State := set_restart true s.

Definition step (e : event) (s : State) : option State :=
  match e with
  | E_Restart => Some (Restart s)
  | E_Cancel => Some (mkState (ph s) (backoff s) (restartCh s) (cmd s) (adoptedPid s) (startedAt s) (procs s) (disk s) (clock s) true)
  | E_Exit pid => Some (set_procs (delete pid (procs s)) s)
  | E_Swap content => Some (mkState (ph s) (backoff s) (restartCh s) (cmd s) (adoptedPid s) (startedAt s) (procs s) content (clock s) (cancelled s))
  | E_Clock t => if clock s <? t then Some (mkState (ph s) (backoff s) (restartCh s) (cmd s) (adoptedPid s) (startedAt s) (procs s) (disk s) t (cancelled s)) else None
  | _ =>
      match ph s with
      | Ph_Init | Ph_Top | Ph_Returned _ _ | Ph_Sleep _ => Run_step e s
      | Ph_Exec _ _ | Ph_Forked _ _ | Ph_Wait _ _ => runOnce_step e s
      | Ph_Stop _ _ _ _ | Ph_Reap _ _ _ => stop_step e s
      | Ph_Adopted _ => adoptOnce_step e s
      | Ph_StopPID _ _ _ => stopPID_step e s
      | Ph_Done _ => None
      end
  end.

Fixpoint run_events (l : list event) (s : State) : option State :=
  match l with [] => Some s | e :: l => s' ← step e s; run_events l s' end.
End supervisor.

(** ** The reads of other goroutines *)

(** [Health] *)
Record Health : Type := mkHealth { h_Running : bool; h_Pid : Z; h_StartedAt : Z; h_Uptime : Z }.

Definition HealthOf (s : State) : Health :=
  match cmd s with
  | Some pid => mkHealth true pid (startedAt s) (clock s - startedAt s)
  | None => if adoptedPid s =? 0 then mkHealth false 0 0 0 else mkHealth true (adoptedPid s) (startedAt s) (clock s - startedAt s)
  end.

Definition Healthy (h : Health) (minUptime : Z) : bool := h_Running h && (minUptime <=? h_Uptime h).

(** The error of [Reload]; a signal that fails is [None] of the operating system's answer. *)
Inductive reloaderr : Type := ErrNotRunning | ErrReloadUnsupported | ErrSignal.

Definition Reload (signal : Z -> result reloaderr unit) (s : State) : result reloaderr unit :=
  match cmd s with
  | Some pid => signal pid
  | None => if adoptedPid s =? 0 then Err ErrNotRunning else signal (adoptedPid s)
  end.

(** [WaitHealthy] over the states it sees at its polls, each with whether the wait after
    it ends with the context's cancellation; [None] while it waits. *)
Fixpoint wait_loop (notBefore minUptime deadline : Z) (polls : list (State * bool)) : option bool :=
  match polls with
  | [] => None
  | (s, ctx_done) :: polls =>
      let h := HealthOf s in
      if h_Running h && (notBefore <? h_StartedAt h) && (minUptime <=? h_Uptime h) then Some true
      else if deadline <=? clock s then Some false
      else if (ctx_done : bool) then Some false
      else wait_loop notBefore minUptime deadline polls
  end.

Definition poll_interval (minUptime : Z) : Z := Z.min (Z.max (Z.quot minUptime 4) (100 * millisecond)) (2 * second).

Definition WaitHealthy (notBefore minUptime timeout begin : Z) (polls : list (State * bool)) : option bool :=
  wait_loop notBefore minUptime (begin + timeout) polls.

(** ** internal/reconcile *)

Inductive ChangeKind : Type := NoChange | ReloadOnly | RestartRequired.

(** [reflect.DeepEqual] tells apart what the model does not (a nil and an empty list), so
    it is a parameter. *)
Definition Classify (deepEqual : Values -> Values -> bool) (oldV newV : Values) : ChangeKind :=
  if deepEqual oldV newV then NoChange
  else if negb (bool_decide (v_ListenHost oldV = v_ListenHost newV)) || negb (v_ListenPort oldV =? v_ListenPort newV) || negb (bool_decide (v_TunDev oldV = v_TunDev newV))
  then RestartRequired else ReloadOnly.

(** What [Apply] does to the controller: the kind, the error, whether a reload and a restart were asked for. *)
Definition Apply (deepEqual : Values -> Values -> bool) (reload restart : result reloaderr unit) (oldV newV : Values) : ChangeKind * result reloaderr unit * bool * bool :=
  match Classify deepEqual oldV newV with
  | NoChange => (NoChange, Ok (), false, false)
  | ReloadOnly =>
      match reload with
      | Err ErrReloadUnsupported => (ReloadOnly, restart, true, true)
      | r => (ReloadOnly, r, true, false)
      end
  | RestartRequired => (RestartRequired, restart, false, true)
  end.

(** ** Invariants of every interleaving *)

Definition child_of (p : phase) : option Z :=
  match p with Ph_Wait pid _ | Ph_Stop pid _ _ _ | Ph_Reap pid _ _ => Some pid | _ => None end.
(** The child [runOnce] has started, recorded or not. *)
Definition forked_of (p : phase) : option Z := match p with Ph_Forked pid _ => Some pid | _ => child_of p end.
(** The process asked to stop, and how. *)
Definition asked (p : phase) : option (Z * signal) :=
  match p with Ph_Stop pid _ _ _ | Ph_StopPID pid _ _ => Some (pid, SIGTERM) | Ph_Reap pid _ _ => Some (pid, SIGKILL) | _ => None end.
Definition adopted_of (p : phase) : Z := match p with Ph_Adopted pid | Ph_StopPID pid _ _ => pid | _ => 0 end.

(** Before [Run]: nothing forked, no child recorded. *)
Definition initial (s : State) : Prop :=
  ph s = Ph_Init /\ cmd s = None /\ adoptedPid s = 0 /\ startedAt s = 0 /\ 0 < clock s /\ forall q p, procs s !! q = Some p -> pr_forked p = false.

Section invariants.
Context (sha256 : string -> string) (cfg : Config).
Abbreviation c := (defaults cfg).

Definition stepped (s s' : State) : Prop := exists e, step sha256 cfg e s = Some s'.

Record inv (s : State) : Prop := mkInv {
  i_cmd : cmd s = child_of (ph s);
  i_adopted : adoptedPid s = adopted_of (ph s);
  i_adopt : adopted_of (ph s) <> 0 -> adopted_of (ph s) = c_AdoptPID c /\ 0 < c_AdoptPID c;
  i_child : forall q p, procs s !! q = Some p -> pr_forked p = true -> forked_of (ph s) = Some q;
  i_asked : forall q sg p, asked (ph s) = Some (q, sg) -> procs s !! q = Some p -> pr_signal p = Some sg;
  i_started : 0 <= startedAt s <= clock s;
  i_clock : 0 < clock s;
}.

Lemma initial_inv s : initial s -> inv s.
Proof. intros (H1 & H2 & H3 & H4 & H5 & H6). split; rewrite ?H1; cbn; try done; [|lia]. intros q p Hq Hf. rewrite (H6 q p Hq) in Hf. done. Qed.

(** Unfold a step, and the setters of a state. *)
Ltac open_step := unfold step, Run_step, runOnce_step, stop_step, adoptOnce_step, stopPID_step, Restart.
Ltac open_step_in H := unfold step, Run_step, runOnce_step, stop_step, adoptOnce_step, stopPID_step, Restart in H.
Ltac unset := unfold Restart, adopt_return, child_return, terminate, forceKill, terminatePID, forceKillPID, Kill, to, set_backoff, set_restart, set_procs, setCmd, setAdopted in *; cbn in *.

Ltac step_cases H :=
  repeat match type of H with
  | None = Some _ => discriminate H
  | context [match ph ?s with _ => _ end] => destruct (ph s) eqn:?
  | context [if ?b then _ else _] => destruct b eqn:?
  | context [match ?x with _ => _ end] => destruct x eqn:?
  | Some _ = Some _ => injection H as <-
  end.

(** A process of the next state: one of this state, perhaps with a signal, or the child just
    forked. *)
Ltac proc_case Hq :=
  rewrite ?lookup_insert_Some, ?lookup_delete_Some, ?lookup_alter_Some in Hq;
  repeat match type of Hq with _ \/ _ => destruct Hq as [Hq|Hq] | _ /\ _ => destruct Hq as [? Hq] | exists _, _ => destruct Hq as (? & ? & Hq) end; subst.
Ltac forked_case H4 := intros q p Hq Hf; proc_case Hq; cbn in *; first [done | specialize (H4 _ _ ltac:(eassumption) Hf); congruence].
Ltac asked_case H7 := intros q sg p Ha Hq; first [discriminate Ha | injection Ha as <- <- | idtac]; proc_case Hq; cbn in *; first [done | congruence | by eapply H7].

Lemma sup_step_inv s s' : stepped s s' -> inv s -> inv s'.
Proof.
  intros [e H] [H1 H2 H3 H4 H7 H5 H6]. destruct e; open_step_in H; step_cases H; bool_split.
  all: try (by split).
  all: unset; repeat match goal with E : ph _ = _ |- _ => rewrite E in * end; cbn in *.
  all: repeat case_match; bool_split.
  all: match goal with E : ph ?x = _ |- inv ?x => split; by rewrite ?E | _ => split; cbn in *; try done; try lia; try congruence; try forked_case H4; try asked_case H7 end.
Qed.

Lemma sup_steps_inv s s' : rtc stepped s s' -> inv s -> inv s'.
Proof. induction 1; eauto using sup_step_inv. Qed.

(** C27: there is one nebula at a time. Whatever crashes, restarts, swaps and signals
    interleave, at most one process this supervisor forked is alive; from the moment it is
    recorded until it is gone [Health] and [Reload] see it and no other, the one exception
    being the instant between its fork and its recording, when [Health] still reports
    nothing running; a child is only ever forked when no earlier one is alive; and [Run]
    never returns, cleanly or with an error, while a process it forked is alive. *)
Theorem one_child_at_a_time s0 s : initial s0 -> rtc stepped s0 s ->
  (forall q q' p p', procs s !! q = Some p -> procs s !! q' = Some p' -> pr_forked p = true -> pr_forked p' = true -> q = q') /\
  (forall q p, procs s !! q = Some p -> pr_forked p = true ->
     (h_Running (HealthOf s) = true /\ h_Pid (HealthOf s) = q) \/ (exists start, ph s = Ph_Forked q start /\ h_Running (HealthOf s) = false)) /\
  (forall pid s' q p, step sha256 cfg (E_Start (Some pid)) s = Some s' -> procs s !! q = Some p -> pr_forked p = false) /\
  (forall ok q p, ph s = Ph_Done ok -> procs s !! q = Some p -> pr_forked p = false).
Proof.
  intros Hi Hs. destruct (sup_steps_inv _ _ Hs (initial_inv _ Hi)) as [H1 H2 H3 H4 H7 H5 H6]. split_and!.
  - intros q q' p p' Hq Hq' Hf Hf'. specialize (H4 _ _ Hq Hf) as E1. specialize (H4 _ _ Hq' Hf'). congruence.
  - intros q p Hq Hf. specialize (H4 _ _ Hq Hf). unfold HealthOf. rewrite H1, H2. destruct (ph s); cbn in *; try discriminate H4; injection H4 as ->; [right|by left..]. by eexists.
  - intros pid s' q p Hst Hq. destruct (pr_forked p) eqn:Ef; [|done]. specialize (H4 _ _ Hq Ef). open_step_in Hst. destruct (ph s); cbn in *; done.
  - intros ok q p Hd Hq. destruct (pr_forked p) eqn:Ef; [|done]. specialize (H4 _ _ Hq Ef). rewrite Hd in H4. done.
Qed.

(** ** The digest *)

(** Steps that do not replace the binary between its check and its execution. *)
Definition guarded (s s' : State) : Prop :=
  exists e, step sha256 cfg e s = Some s' /\ forall content seen start, e = E_Swap content -> ph s <> Ph_Exec seen start.

Definition checked (s : State) : Prop :=
  (forall seen start, ph s = Ph_Exec seen start -> disk s = seen /\ digest_ok sha256 cfg seen = true) /\
  (forall q p, procs s !! q = Some p -> pr_forked p = true -> digest_ok sha256 cfg (Some (pr_image p)) = true).

Ltac images H2 := intros q p Hq Hf; proc_case Hq; cbn in *; try (by eapply H2).

Lemma checked_step s s' : guarded s s' -> checked s -> checked s'.
Proof.
  intros (e & H & Hsw) [H1 H2]. destruct e; open_step_in H; step_cases H; bool_split; unset; repeat case_match.
  all: match goal with |- checked ?x => try (is_var x; by split) end.
  all: split; cbn; [intros sn st Heq; try discriminate Heq; try congruence; try (by eapply H1); try (by injection Heq as <- <-)|images H2].
  - by destruct (H1 _ _ eq_refl) as [<- Hd].
  - exfalso. by apply (Hsw _ sn st eq_refl).
Qed.

Lemma checked_steps s s' : rtc guarded s s' -> checked s -> checked s'.
Proof. induction 1; eauto using checked_step. Qed.

(** Only the pinned binary runs. With an expected digest, along every interleaving in
    which nobody replaces the file between the check and the execution, every process the
    supervisor forks runs bytes whose digest is the expected one (trimmed and in lower
    case), however often the file was replaced in between; and when the check fails, [Run]
    stops with an error instead of running the file. *)
Theorem only_the_pinned_binary_runs s0 s : c_ExpectedSHA256 cfg <> "" -> initial s0 -> rtc guarded s0 s ->
  (forall q p, procs s !! q = Some p -> pr_forked p = true -> hex (sha256 (pr_image p)) = ToLower (TrimSpace (c_ExpectedSHA256 cfg))) /\
  (ph s = Ph_Top -> cancelled s = false -> (forall b, disk s = Some b -> hex (sha256 b) <> ToLower (TrimSpace (c_ExpectedSHA256 cfg))) ->
     step sha256 cfg E_Top s = Some (to (Ph_Done false) s)).
Proof.
  intros He (H1 & _ & _ & _ & _ & H6) Hs. assert (Hc : checked s).
  { apply (checked_steps _ _ Hs). split; [by rewrite H1|intros q p Hq Hf; rewrite (H6 _ _ Hq) in Hf; done]. }
  destruct Hc as [_ Hp]. split.
  - intros q p Hq Hf. specialize (Hp q p Hq Hf). unfold digest_ok, binverify in Hp. cbn [c_ExpectedSHA256 defaults] in Hp. rewrite bool_decide_eq_false_2 in Hp by done.
    cbn [orb] in Hp. by bool_split.
  - intros Ht Hca Hd. open_step. rewrite Ht, Hca. unfold digest_ok, binverify. cbn [c_ExpectedSHA256 defaults]. rewrite bool_decide_eq_false_2 by done. cbn [orb].
    destruct (disk s) as [b|]; [|by rewrite andb_false_r]. rewrite (bool_decide_eq_false_2 (hex _ = _)) by by apply Hd. by rewrite andb_false_r.
Qed.

(** ** Backoff *)

Definition bounded_pause (s : State) : Prop :=
  match ph s with
  | Ph_Init | Ph_Adopted _ | Ph_StopPID _ _ _ | Ph_Done _ => True
  | _ => Z.min (c_MinBackoff c) (c_MaxBackoff c) <= backoff s <= Z.max (c_MinBackoff c) (c_MaxBackoff c)
  end.

Lemma nextBackoff_exact cur max : 0 <= cur < 2 ^ 62 -> nextBackoff cur max = Z.min (2 * cur) max.
Proof. intros H. unfold nextBackoff. rewrite i64_id by lia. destruct (max <? cur * 2) eqn:E; bool_split; lia. Qed.

Lemma or_default_pos v d : 0 < d -> 0 < or_default v d.
Proof. unfold or_default. destruct (v <=? 0) eqn:E; bool_split; lia. Qed.

Section pause.
Context (Hmin : c_MinBackoff c < 2 ^ 62) (Hmax : c_MaxBackoff c < 2 ^ 62).

Lemma bounded_step s s' : stepped s s' -> bounded_pause s -> bounded_pause s'.
Proof.
  assert (0 < c_MinBackoff c) by by apply or_default_pos. assert (0 < c_MaxBackoff c) by by apply or_default_pos.
  intros [e He] Hb. destruct e; open_step_in He; step_cases He; bool_split; unfold adopt_return, child_return; repeat case_match;
    unfold bounded_pause in *; cbn in *; repeat match goal with E : ph _ = _ |- _ => rewrite E in * end; try done; try lia.
  all: try (repeat case_match; done).
  rewrite nextBackoff_exact by lia. lia.
Qed.

Lemma bounded_steps s s' : rtc stepped s s' -> bounded_pause s -> bounded_pause s'.
Proof. induction 1; eauto using bounded_step. Qed.

(** A crash loop is damped: in every reachable state of the fork loop the pause lies
    between the two configured ones, without overflow, and after [k] short runs in a row
    it is the smaller of [MinBackoff * 2^k] and [MaxBackoff]. *)
Theorem crash_loop_is_damped s0 s k : initial s0 -> rtc stepped s0 s -> c_MinBackoff c <= c_MaxBackoff c ->
  bounded_pause s /\ Nat.iter k (fun b => nextBackoff b (c_MaxBackoff c)) (c_MinBackoff c) = Z.min (c_MinBackoff c * 2 ^ Z.of_nat k) (c_MaxBackoff c).
Proof.
  intros (H1 & _) Hs Hle. assert (0 < c_MinBackoff c) by by apply or_default_pos. split.
  - apply (bounded_steps _ _ Hs). by unfold bounded_pause; rewrite H1.
  - induction k as [|k IH]; [cbn [Nat.iter nat_rect Z.of_nat]; rewrite Z.pow_0_r; lia|].
    change (Nat.iter (S k) ?f ?x) with (f (Nat.iter k f x)). rewrite IH, Nat2Z.inj_succ, Z.pow_succ_r by lia.
    assert (0 < 2 ^ Z.of_nat k) by (apply Z.pow_pos_nonneg; lia). rewrite nextBackoff_exact by nia. nia.
Qed.
End pause.

(** ** The health gate *)

(** Steps that leave the binary alone. *)
Definition same_disk (s s' : State) : Prop := exists e, step sha256 cfg e s = Some s' /\ forall content, e <> E_Swap content.

Definition new_child (new : string) (t : Z) (s : State) : Prop :=
  inv s /\ ph s <> Ph_Init /\ disk s = Some new /\
  (startedAt s <= t \/ exists pid, cmd s = Some pid /\ forall p, procs s !! pid = Some p -> pr_image p = new /\ pr_forked p = true) /\
  (forall pid start p, ph s = Ph_Forked pid start -> procs s !! pid = Some p -> pr_image p = new /\ pr_forked p = true).

Lemma new_child_step new t s s' : 0 <= t -> same_disk s s' -> new_child new t s -> new_child new t s'.
Proof.
  intros Ht (e & H & Hns) (Hi & Hph & Hd & Hc & Hfk). split; [apply (sup_step_inv s s'); [by exists e|done]|]. pose proof (i_cmd _ Hi) as Hcmd.
  destruct e; open_step_in H; step_cases H; bool_split; unset; repeat case_match; bool_split; try (by destruct (Hns content)); cbn in *; try congruence.
  all: split; [congruence|]; split; [congruence|]; split; [first [left; lia | exact Hc | idtac] | intros pid1 start1 p1 Heq1 Hp1; first [discriminate Heq1 | congruence | idtac]].
  all: try (destruct Hc as [?|(pid' & Hp1 & Hp2)]; [by left|right; exists pid'; split; [done|]; intros p1 Hq; proc_case Hq; cbn in *; by eauto]).
  all: try (injection Heq1 as <- <-).
  all: try (proc_case Hp1; cbn in *; naive_solver).
  - destruct Hc as [?|(pid' & Hp1 & Hp2)]; [by left|congruence].
  - right. exists pid. split; [done|]. intros p Hp. by eapply Hfk.
Qed.

Lemma new_child_steps new t s s' : 0 <= t -> rtc same_disk s s' -> new_child new t s -> new_child new t s'.
Proof. intros Ht. induction 1; eauto using new_child_step. Qed.

Lemma wait_true notBefore minUptime deadline polls : wait_loop notBefore minUptime deadline polls = Some true ->
  exists s b, (s, b) ∈ polls /\ h_Running (HealthOf s) = true /\ notBefore < h_StartedAt (HealthOf s) /\ minUptime <= h_Uptime (HealthOf s).
Proof.
  induction polls as [|[s b] polls IH]; [done|]. cbn [wait_loop]. cbv zeta. case_match eqn:E1.
  - intros _. bool_split. exists s, b. split_and!; try done. by left.
  - repeat case_match; try done. intros (s' & b' & Hin & H')%IH. exists s', b'. split; [by right|done].
Qed.

Lemma wait_ends notBefore minUptime deadline polls s b : (s, b) ∈ polls -> deadline <= clock s -> wait_loop notBefore minUptime deadline polls <> None.
Proof.
  induction polls as [|[s' b'] polls IH]; [by intros ?%elem_of_nil|]. intros [[= -> ->]|Hin]%elem_of_cons Hc; cbn [wait_loop]; cbv zeta; repeat case_match; try done; bool_split.
  - lia.
  - by apply IH.
Qed.

(** The health gate judges the new binary. After the updater replaced the file (with
    [new]) and noted the time before it asked for a restart, a gate that answers yes has
    seen a child which was forked after that time, which therefore runs the new bytes and
    not the old process still winding down or an adopted one, and which has stayed up
    for the required time; and the gate always answers, within [timeout / interval + 2]
    polls. (The replacement must not fall between the fork of a child and its recording:
    [ph s0] is not [Ph_Forked].) *)
Theorem health_gate_judges_the_new_binary si s0 new restartedAt minUptime timeout begin polls :
  initial si -> rtc stepped si s0 -> ph s0 <> Ph_Init -> (forall pid start, ph s0 <> Ph_Forked pid start) -> disk s0 = Some new -> clock s0 <= restartedAt ->
  (forall s b, (s, b) ∈ polls -> rtc same_disk s0 s) ->
  (WaitHealthy restartedAt minUptime timeout begin polls = Some true ->
     exists s b pid, (s, b) ∈ polls /\ cmd s = Some pid /\ (forall p, procs s !! pid = Some p -> pr_image p = new /\ pr_forked p = true) /\
       restartedAt < startedAt s /\ minUptime <= clock s - startedAt s) /\
  (0 <= timeout -> timeout / poll_interval minUptime + 1 < Z.of_nat (length polls) ->
   (forall i s b, polls !! i = Some (s, b) -> begin + Z.of_nat i * poll_interval minUptime <= clock s) ->
   WaitHealthy restartedAt minUptime timeout begin polls <> None).
Proof.
  intros Hini Hs0 Hph Hnf Hd Hclk Hp. pose proof (sup_steps_inv _ _ Hs0 (initial_inv _ Hini)) as Hi. split.
  - intros (s & b & Hin & Hr & Hst & Hup)%wait_true. exists s, b.
    destruct (new_child_steps new restartedAt s0 s) as (Hi1 & _ & _ & Hc & _); [pose proof (i_clock _ Hi); lia|by eapply Hp|split_and!; try done; [left; pose proof (i_started _ Hi); lia|]; intros pid start p Hf; by destruct (Hnf pid start)|].
    unfold HealthOf in *. destruct Hc as [Hle|(pid & Hcmd & Himg)].
    + destruct (cmd s); cbn in *; [lia|]. destruct (_ =? 0); cbn in *; [done|lia].
    + rewrite Hcmd in *. cbn in *. exists pid. by split_and!.
  - intros Ht Hlen Hsp. set (q := poll_interval minUptime) in *. assert (Hq : 0 < q) by (unfold q, poll_interval, second, millisecond; lia).
    pose proof (Z.div_pos timeout q Ht Hq) as Hpos. destruct (lookup_lt_is_Some_2 polls (Z.to_nat (timeout / q + 1))) as [[s b] Hl]; [lia|].
    specialize (Hsp _ _ _ Hl). rewrite Z2Nat.id in Hsp by lia. eapply wait_ends; [by eapply list_elem_of_lookup_2|].
    pose proof (Z.mod_pos_bound timeout q Hq). pose proof (Z.div_mod timeout q ltac:(lia)). nia.
Qed.

(** ** Shutdown *)

(** Steps of the goroutine left until [Run] returns, once the context is cancelled. *)
Definition rank (p : phase) : nat :=
  match p with
  | Ph_Done _ => 0 | Ph_Top | Ph_Returned _ _ | Ph_StopPID _ _ _ => 1 | Ph_Sleep _ | Ph_Reap _ _ _ | Ph_Adopted _ => 2
  | Ph_Stop _ _ _ _ => 3 | Ph_Wait _ _ => 4 | Ph_Forked _ _ => 5 | Ph_Exec _ _ => 6 | Ph_Init => 7
  end.

(** What others do. *)
Definition outside (e : event) : bool :=
  match e with E_Restart | E_Cancel | E_Exit _ | E_Swap _ | E_Clock _ => true | _ => false end.

Lemma rank_step e s s' : cancelled s = true -> step sha256 cfg e s = Some s' ->
  cancelled s' = true /\ (if outside e then ph s' = ph s else (s' = s \/ (rank (ph s') < rank (ph s))%nat)).
Proof.
  intros Hca H. destruct e; open_step_in H; step_cases H; bool_split; unset; repeat case_match; bool_split; cbn in *; try congruence.
  all: (split; [done|]); first [done | by left | right; cbn; rewrite ?Heqp; cbn; lia].
Qed.

(** The steps of a run that move the goroutine on: those that are not an idle poll. *)
Fixpoint moves (l : list event) (s : State) : nat :=
  match l with
  | [] => 0
  | e :: l => match step sha256 cfg e s with
              | Some s' => (if bool_decide (ph s' = ph s) then 0 else 1) + moves l s'
              | None => 0
              end
  end.

Lemma moves_bound l : forall s, cancelled s = true -> (moves l s <= rank (ph s))%nat.
Proof.
  induction l as [|e l IH]; intros s Hca; cbn [moves]; [lia|]. destruct (step sha256 cfg e s) as [s'|] eqn:E; [|lia].
  destruct (rank_step e s s' Hca E) as [Hca' Hr]. specialize (IH s' Hca'). destruct (outside e).
  - rewrite bool_decide_eq_true_2 by done. rewrite <- Hr. lia.
  - destruct Hr as [->|Hr]; [rewrite bool_decide_eq_true_2 by done; lia|]. rewrite bool_decide_eq_false_2 by (intros Heq; rewrite Heq in Hr; lia). lia.
Qed.

(** What a stopping supervisor can be waiting for: the grace period of a process it has sent
    SIGTERM, or the exit of one it has sent SIGKILL. *)
Definition waits (s : State) : Prop :=
  (exists pid p, procs s !! pid = Some p /\ pr_signal p = Some SIGTERM /\
     ((exists start deadline w, ph s = Ph_Stop pid start deadline w /\ clock s < deadline) \/ (exists deadline w, ph s = Ph_StopPID pid deadline w /\ clock s < deadline))) \/
  (exists pid start w p, ph s = Ph_Reap pid start w /\ procs s !! pid = Some p /\ pr_signal p = Some SIGKILL).

(** A step of the goroutine that moves it on. *)
Definition can_move (s : State) : Prop := exists e s', outside e = false /\ step sha256 cfg e s = Some s' /\ ph s' <> ph s.

Ltac moves_by ev := right; left; exists ev; open_step.

(** C38: shutdown completes. Once the context is cancelled, whatever anybody else does, the
    goroutine of [Run] moves at most seven times more; and it is never stuck: in every
    reachable state either [Run] has returned and no process it forked is alive, or it can
    move at once, or it is waiting for the grace period of a process it has asked to stop
    with SIGTERM to pass, or for the exit of one it has sent SIGKILL. *)
Theorem shutdown_completes s0 s : initial s0 -> rtc stepped s0 s -> cancelled s = true ->
  (forall l, (moves l s <= 7)%nat) /\
  ((exists ok, ph s = Ph_Done ok /\ forall q p, procs s !! q = Some p -> pr_forked p = false) \/ can_move s \/ waits s).
Proof.
  intros Hini Hs Hca. split; [intros l; etrans; [by apply moves_bound|destruct (ph s); cbn; lia]|].
  destruct (sup_steps_inv _ _ Hs (initial_inv _ Hini)) as [H1 H2 H3 H4 H7 H5 H6]. destruct (ph s) eqn:Ep; cbn in *.
  - moves_by E_Adopt. rewrite Ep. eexists. split; [done|]. split; [done|]. by repeat case_match.
  - moves_by E_TakeCancel. rewrite Ep, Hca. eexists. by split_and!.
  - destruct (procs s !! pid) as [p|] eqn:Epid.
    + destruct (Z.leb_spec deadline (clock s)) as [Hle|Hlt].
      * moves_by E_Deadline. rewrite Ep. rewrite (proj2 (Z.leb_le _ _) Hle). eexists. split; [done|]. split; [done|]. unfold adopt_return. by case_match.
      * right. right. left. exists pid, p. split; [done|]. split; [by eapply H7|]. right. by exists deadline, w.
    + moves_by E_StopTick. rewrite Ep. eexists. split; [done|]. split; [done|]. unfold processAlive. rewrite bool_decide_eq_false_2 by (rewrite Epid; by intros []).
      rewrite andb_false_r. unfold adopt_return. by case_match.
  - moves_by E_Top. rewrite Ep, Hca. eexists. by split_and!.
  - moves_by (E_Start None). rewrite Ep. eexists. by split_and!.
  - moves_by E_SetCmd. rewrite Ep. eexists. by split_and!.
  - moves_by E_TakeCancel. rewrite Ep, Hca. eexists. by split_and!.
  - destruct (procs s !! pid) as [p|] eqn:Epid.
    + destruct (Z.leb_spec deadline (clock s)) as [Hle|Hlt].
      * moves_by E_Deadline. rewrite Ep. rewrite (proj2 (Z.leb_le _ _) Hle). eexists. by split_and!.
      * right. right. left. exists pid, p. split; [done|]. split; [by eapply H7|]. left. by exists start, deadline, w.
    + moves_by E_Child. rewrite Ep, bool_decide_eq_true_2 by done. eexists. by split_and!.
  - destruct (procs s !! pid) as [p|] eqn:Epid.
    + right. right. right. exists pid, start, w, p. split; [done|]. split; [done|by eapply H7].
    + moves_by E_Child. rewrite Ep, bool_decide_eq_true_2 by done. eexists. by split_and!.
  - moves_by E_Next. rewrite Ep, Hca. eexists. by split_and!.
  - moves_by E_TakeCancel. rewrite Ep, Hca. eexists. by split_and!.
  - left. exists ok. split; [done|]. intros q p Hq. destruct (pr_forked p) eqn:Ef; [|done]. specialize (H4 _ _ Hq Ef). done.
Qed.
End invariants.

(** ** Choosing between reload and restart *)

(** A change is applied with the weakest sufficient action: nothing for equal values, a
    restart exactly when the listening socket or the device changes, otherwise a reload,
    and a restart in its place where the platform has no reload; any other error of the
    reload is reported and nothing is restarted. *)
Theorem apply_is_minimal deepEqual reload restart oldV newV : (forall v w, deepEqual v w = true -> v = w) ->
  let '(kind, err, reloaded, restarted) := Apply deepEqual reload restart oldV newV in
  (v_ListenHost oldV <> v_ListenHost newV \/ v_ListenPort oldV <> v_ListenPort newV \/ v_TunDev oldV <> v_TunDev newV -> kind = RestartRequired /\ restarted = true /\ reloaded = false) /\
  (kind = NoChange -> oldV = newV /\ reloaded = false /\ restarted = false /\ err = Ok ()) /\
  (kind = ReloadOnly -> reloaded = true /\ (restarted = true <-> reload = Err ErrReloadUnsupported) /\ (restarted = false -> err = reload)).
Proof.
  intros Hde. unfold Apply, Classify. destruct (deepEqual oldV newV) eqn:Ed; [apply Hde in Ed as ->; naive_solver|].
  destruct (_ || _) eqn:E.
  - naive_solver.
  - bool_split. destruct reload as [[]|[]]; naive_solver.
Qed.

(** ** Concrete runs *)

Module supervised.
Definition sha (b : string) : string := "h:" +:+ b.
Definition conf : Config := mkConfig (" " +:+ hex (sha "v1")) 0 0 0 0 0.
Definition adopting : Config := mkConfig "" 77 0 0 0 0.
Definition start (d : string) : State := mkState Ph_Init 0 false None 0 0 {[ 77 := mkProc "old" false None ]} (Some d) 1 false.

(** A crash, the pause, a second child, a requested restart, shutdown. *)
Definition life : list event :=
  [E_Adopt; E_Top; E_Start (Some 100); E_SetCmd; E_Clock (2 * second); E_Exit 100; E_Child; E_Next; E_Clock (4 * second); E_Wake; E_Top; E_Start (Some 101); E_SetCmd;
   E_Restart; E_Restart; E_TakeRestart; E_Exit 101; E_Child; E_Next; E_Top; E_Start (Some 102); E_SetCmd; E_Cancel; E_TakeCancel; E_Clock (20 * second); E_Deadline; E_Exit 102; E_Child; E_Next].

Example life_ends : (fun s => (ph s, backoff s, procs s)) <$> run_events sha conf life (start "v1") = Some (Ph_Done true, second, {[ 77 := mkProc "old" false None ]}).
Proof. vm_compute. reflexivity. Qed.

Lemma start_initial d : initial (start d).
Proof.
  split_and!; try done. intros q p Hq. cbn in Hq. apply lookup_singleton_Some in Hq as [_ <-]. done.
Qed.

Lemma run_stepped h c l : forall s s', run_events h c l s = Some s' -> rtc (stepped h c) s s'.
Proof.
  induction l as [|e l IH]; intros s s'; [intros [= ->]; constructor|]. cbn [run_events]. destruct (step h c e s) as [s1|] eqn:E; [|done].
  intros H. eapply rtc_l; [by exists e|by apply IH].
Qed.

Lemma run_guarded h c l : (forall content, E_Swap content ∉ l) -> forall s s', run_events h c l s = Some s' -> rtc (guarded h c) s s' /\ rtc (same_disk h c) s s'.
Proof.
  induction l as [|e l IH]; intros Hl s s'; [intros [= ->]; split; constructor|]. cbn [run_events]. destruct (step h c e s) as [s1|] eqn:E; [|done].
  intros H. assert (He : forall content, e <> E_Swap content) by (intros content ->; apply (Hl content); by left).
  destruct (IH ltac:(intros content Hin; apply (Hl content); by right) _ _ H) as [H1 H2].
  split; (eapply rtc_l; [|done]); exists e; (split; [done|]); [intros content seen st Heq; by apply He in Heq|done].
Qed.

Definition at_ (l : list event) (s : State) : State := default s (run_events sha conf l s).

Lemma one_child_at_a_time_witness :
  let s := at_ (take 12 life) (start "v1") in
  (forall q p, procs s !! q = Some p -> pr_forked p = true -> (h_Running (HealthOf s) = true /\ h_Pid (HealthOf s) = q) \/ (exists st, ph s = Ph_Forked q st /\ h_Running (HealthOf s) = false)) /\
  ph s = Ph_Forked 101 (4 * second).
Proof.
  intros s. split; [|vm_compute; reflexivity].
  destruct (one_child_at_a_time sha conf (start "v1") s (start_initial _)) as (_ & H & _); [|exact H].
  apply (run_stepped sha conf (take 12 life)). vm_compute. reflexivity.
Defined.

Lemma only_the_pinned_binary_runs_witness :
  let s := at_ (take 13 life) (start "v1") in
  (forall q p, procs s !! q = Some p -> pr_forked p = true -> hex (sha (pr_image p)) = hex (sha "v1")) /\
  (ph s = Ph_Top -> cancelled s = false -> (forall b, disk s = Some b -> hex (sha b) <> hex (sha "v1")) -> step sha conf E_Top s = Some (to (Ph_Done false) s)).
Proof.
  apply (only_the_pinned_binary_runs sha conf (start "v1")); [done|apply start_initial|]. apply (run_guarded sha conf (take 13 life)); [|vm_compute; reflexivity].
  intros content Hin. cbn in Hin. set_solver.
Defined.

(** The updater replaced the file while the first child was up, and asked for a restart. *)
Definition before_update : list event := [E_Adopt; E_Top; E_Start (Some 100); E_SetCmd; E_Clock (2 * second); E_Swap (Some "v2"); E_Restart].
Definition after_update : list event := [E_TakeRestart; E_Exit 100; E_Child; E_Next; E_Top; E_Clock (3 * second); E_Start (Some 101); E_SetCmd; E_Clock (40 * second)].
Definition unpinned : Config := mkConfig "" 0 0 0 0 0.
Definition updated : State := default (start "v1") (run_events sha unpinned before_update (start "v1")).
Definition settled : State := default updated (run_events sha unpinned after_update updated).

Lemma health_gate_judges_the_new_binary_witness :
  WaitHealthy (2 * second) (30 * second) (90 * second) (2 * second) [(updated, false); (settled, false)] = Some true /\
  exists s b pid, (s, b) ∈ [(updated, false); (settled, false)] /\ cmd s = Some pid /\ (forall p, procs s !! pid = Some p -> pr_image p = "v2" /\ pr_forked p = true) /\
    2 * second < startedAt s /\ 30 * second <= clock s - startedAt s.
Proof.
  split; [vm_compute; reflexivity|].
  apply (health_gate_judges_the_new_binary sha unpinned (start "v1") updated "v2" (2 * second) (30 * second) (90 * second) (2 * second) [(updated, false); (settled, false)]).
  - apply start_initial.
  - apply (run_stepped sha unpinned before_update). vm_compute. reflexivity.
  - done.
  - done.
  - reflexivity.
  - vm_compute. discriminate.
  - intros s b Hin. apply elem_of_cons in Hin as [[= -> ->]|Hin]; [constructor|]. apply list_elem_of_singleton in Hin as [= -> ->].
    apply (run_guarded sha unpinned after_update); [|vm_compute; reflexivity]. intros content Hin. cbn in Hin. set_solver.
  - vm_compute. reflexivity.
Defined.

Lemma shutdown_completes_witness :
  let s := at_ (take 25 life) (start "v1") in
  ph s = Ph_Stop 102 (4 * second) (14 * second) For_Shutdown /\ pr_signal <$> procs s !! 102 = Some (Some SIGTERM) /\
  (forall l, (moves sha conf l s <= 7)%nat).
Proof.
  intros s. split; [vm_compute; reflexivity|]. split; [vm_compute; reflexivity|].
  destruct (shutdown_completes sha conf (start "v1") s) as [H _].
  - apply start_initial.
  - apply (run_stepped sha conf (take 25 life)). vm_compute. reflexivity.
  - vm_compute. reflexivity.
  - exact H.
Defined.

Lemma crash_loop_is_damped_witness : Nat.iter 4 (fun b => nextBackoff b (30 * second)) second = 16 * second.
Proof.
  exact (proj2 (crash_loop_is_damped sha conf ltac:(vm_compute; reflexivity) ltac:(vm_compute; reflexivity) (start "v1") (start "v1") 4 (start_initial "v1") (rtc_refl _ _) ltac:(vm_compute; discriminate))).
Defined.

(** ** What the model showed *)

(** An adopted process that outlives its grace period is killed but not waited for: the
    next nebula is started while it is still alive. *)
Example killed_adopted_overlaps :
  (fun s => (cmd s, bool_decide (is_Some (procs s !! 77)), bool_decide (is_Some (procs s !! 100)))) <$>
    run_events sha adopting [E_Adopt; E_Restart; E_TakeRestart; E_Clock (11 * second); E_Deadline; E_Top; E_Start (Some 100); E_SetCmd] (start "v1") = Some (Some 100, true, true).
Proof. vm_compute. reflexivity. Qed.

(** A file replaced between the check and the execution runs unchecked. *)
Example swap_after_check_runs :
  procs <$> run_events sha conf [E_Adopt; E_Top; E_Swap (Some "evil"); E_Start (Some 100); E_SetCmd] (start "v1") =
    Some {[ 77 := mkProc "old" false None; 100 := mkProc "evil" true None ]}.
Proof. vm_compute. reflexivity. Qed.

(** With a pinned digest a self-update ends the supervisor: the restart the updater asks
    for finds a file of another digest. *)
Example update_ends_pinned_supervisor :
  (fun s => ph s) <$> run_events sha conf [E_Adopt; E_Top; E_Start (Some 100); E_SetCmd; E_Swap (Some "v2"); E_Restart; E_TakeRestart; E_Exit 100; E_Child; E_Next; E_Top] (start "v1") =
    Some (Ph_Done false).
Proof. vm_compute. reflexivity. Qed.

(** A restart asked for while nothing runs is kept and cycles the next, fresh child. *)
Example stale_restart_cycles_a_fresh_child :
  (fun s => ph s) <$> run_events sha conf [E_Adopt; E_Top; E_Start (Some 100); E_SetCmd; E_Exit 100; E_Child; E_Next; E_Restart; E_Clock (3 * second); E_Wake; E_Top; E_Start (Some 101); E_SetCmd; E_TakeRestart] (start "v1") =
    Some (Ph_Stop 101 (3 * second) (13 * second) For_Restart).
Proof. vm_compute. reflexivity. Qed.
End supervised.
