(* ===== verification/PilotAgent.v ===== *)
(** * cmd/pilot, internal/nebulaboot, internal/pilotsetup: the host agent

    What `pilot supervise` does around the components it wires together: materializing the
    embedded nebula on first boot, disabling the statistics listener when its port is
    taken, the debounced health it reports, the pilot version it converges on; and
    `pilot init`. Files carry faults and crashes as in HostFs; the embedded bytes, the
    sockets, YAML and the cryptography are parameters. Directories are not modelled:
    creating one is an operation that can fail. *)

From S2P Require Import Prelude Db Bytes GoStrings Netip Nonce Policy Jws Bundle NebulaConfig Supervisor DualControl HostFs PilotUpdate NebulaUpdate HostState.
From stdpp Require Import prelude strings list gmap relations.
From Stdlib Require Import ZArith Lia Ascii.
Open Scope Z_scope.

(** ** internal/nebulaboot *)

Inductive nberr : Type := NB_Stat | NB_Mkdir | NB_Write | NB_Chmod | NB_Verify | NB_Install | NB_Wintun.

Definition MkdirAll : FM oserr unit := op K_Write (fun _ s => (Ok (), s)) intact.

Section nebulaboot.
Context (sha256 : string -> string).

Definition Materialize (path data : string) : FM nberr bool :=
  if decide (data = "") then mret false
  else
    st ← caught (Stat path);
    match st with
    | Ok _ => mret false
    | Err O_NotExist =>
        _ ← wrap (fun _ => NB_Mkdir) MkdirAll;
        let tmp := path +:+ ".embed" in
        _ ← wrap (fun _ => NB_Write) (WriteFile tmp data m755);
        _ ← or_clean (Chmod tmp m755) (fun _ => NB_Chmod) (dropped (Remove tmp));
        _ ← or_clean (SHA256 sha256 tmp (hexsum sha256 data)) (fun _ => NB_Verify) (dropped (Remove tmp));
        _ ← or_clean (Rename tmp path) (fun _ => NB_Install) (dropped (Remove tmp));
        mret true
    | Err _ => fail_with NB_Stat
    end.

(** [MaterializeWintun]; the driver's path is derived from the binary's directory. *)
Definition MaterializeWintun (wintunPath data : string) : FM nberr bool :=
  if decide (data = "") then mret false else wrap (fun _ => NB_Wintun) (Materialize wintunPath data).

Definition MaterializeEmbedded (path wintunPath embedded embeddedWintun : string) : FM nberr bool :=
  wrote ← Materialize path embedded;
  _ ← MaterializeWintun wintunPath embeddedWintun;
  mret wrote.
End nebulaboot.

(** ** cmd/pilot/statsport.go *)

Definition MaxScanTokenSize : Z := 65536.
Definition cr : ascii := Ascii.ascii_of_nat 13.

(** [dropCR] of bufio *)
Fixpoint dropCR (s : string) : string :=
  match s with
  | "" => ""
  | String ch "" => if decide (ch = cr) then "" else s
  | String ch s => String ch (dropCR s)
  end.

(** The tokens of a [bufio.Scanner]: lines without their end; it stops at a line that does
    not fit its buffer. *)
Fixpoint scan (pieces : list string) : list string :=
  match pieces with
  | [] => []
  | [last] => if decide (last = "") then [] else if MaxScanTokenSize <=? len last then [] else [dropCR last]
  | p :: pieces => if MaxScanTokenSize <=? len p then [] else dropCR p :: scan pieces
  end.
Definition Scan (text : string) : list string := scan (Split newline text).

(** A top-level key: the line is not empty and not indented. *)
Definition top (line : string) : bool :=
  match line with
  | "" => false
  | String ch _ => negb (bool_decide (ch = " "%char)) && negb (bool_decide (ch = Ascii.ascii_of_nat 9))
  end.

Fixpoint stats_listen (inStats : bool) (lines : list string) : string :=
  match lines with
  | [] => ""
  | line :: lines =>
      if top line then stats_listen (HasPrefix line "stats:") lines
      else if inStats && HasPrefix (TrimSpace line) "listen:" then TrimSpace (TrimPrefix (TrimSpace line) "listen:")
      else stats_listen inStats lines
  end.
Definition statsListenAddr (cfg : string) : string := stats_listen false (Scan cfg).

Fixpoint strip_lines (skipping : bool) (lines : list string) : list string :=
  match lines with
  | [] => []
  | line :: lines =>
      let skipping := if top line then HasPrefix line "stats:" else skipping in
      if skipping then strip_lines skipping lines else line :: strip_lines skipping lines
  end.
Definition unlines (lines : list string) : string := String.concat "" (map (fun l => l +:+ nl) lines).
Definition stripStatsBlock (cfg : string) : string := unlines (strip_lines false (Scan cfg)).

(** [free] is whether the address can be bound. *)
Definition disableStatsOnPortConflict (free : string -> bool) (configPath : string) : FM oserr unit :=
  r ← caught (ReadFile configPath);
  match r with
  | Err _ => mret ()
  | Ok b =>
      let listen := statsListenAddr b in
      if decide (listen = "") then mret ()
      else if free listen then mret ()
      else dropped (WriteFile configPath (stripStatsBlock b) m644)
  end.

(** ** cmd/pilot/main.go *)

Definition minUptime : Z := 30 * second.
Definition unhealthyAfter : Z := 90 * second.

(** One call of the function [nebulaHealthFn] returns: the health it reads and its (up to)
    two readings of the clock; the answer and the new [badSince], 0 when unset. *)
Definition nebulaHealth (badSince : Z) (h : Health) (now1 now2 : Z) : string * Z :=
  if Healthy h minUptime then ("ok", 0)
  else
    let badSince := if badSince =? 0 then now1 else badSince in
    (if unhealthyAfter <=? now2 - badSince then "unhealthy" else "ok", badSince).

(** [cachedFileSHA]: the cache is the digest with the time and size it was computed for. *)
Definition cachedFileSHA (hexsum : string -> string) (cache : string * Z * Z) (stat : option (Z * Z)) (read : option string) : string * (string * Z * Z) :=
  match stat with
  | None => ("", cache)
  | Some (modTime, size) =>
      let '(sha, t, n) := cache in
      if negb (bool_decide (sha = "")) && (modTime =? t) && (size =? n) then (sha, cache)
      else match read with
           | None => ("", cache)
           | Some b => (hexsum b, (hexsum b, modTime, size))
           end
  end.

Definition splitCSV (s : string) : list string := filter (fun p => p <> "") (map TrimSpace (Split "," s)).

Definition mesh_char (i : nat) (ch : ascii) : bool :=
  let n := Z.of_N (N_of_ascii ch) in
  (97 <=? n) && (n <=? 122) || (65 <=? n) && (n <=? 90) || (48 <=? n) && (n <=? 57) || bool_decide (0 < i)%nat && ((n =? 95) || (n =? 45)).
Fixpoint mesh_chars (i : nat) (s : string) : bool :=
  match s with "" => true | String ch s => mesh_char i ch && mesh_chars (S i) s end.
Definition validMeshID (s : string) : bool := negb (bool_decide (s = "")) && negb (32 <? len s) && mesh_chars 0 s.

Section pilot.
Context {Pub : Type} `{!EqDecision Pub} (lib : HostLib Pub) (l : Layout).

(** The desired pilot and the warning. *)
Definition desiredPilot (pinned : list Pub) (ovVer ovSHA ovURL : string) : FM hserr (string * string * string * option hserr) :=
  if decide (ovVer <> "" /\ ovSHA <> "" /\ ovURL <> "") then mret (ovVer, ovSHA, ovURL, None)
  else
    r ← caught (ReadFile (BundleFile l));
    match r with
    | Err O_NotExist => mret ("", "", "", None)
    | Err _ => mret ("", "", "", Some HS_File)
    | Ok raw =>
        b ← caught (check lib l pinned raw);
        match b with
        | Err e => mret ("", "", "", Some e)
        | Ok b => mret (b_Pilot b, None)
        end
    end.

(** ** internal/pilotsetup *)

(** [Init]; [fresh] is the pair [Generate] would return, [values] what the values file
    unmarshals to ([None] when it does not parse); the result is whether a key was made. *)
Definition zero_values : Values := mkValues "" "" "" false 0 [] "" 0 "" 0 0 "" "" "" [] [] [].
Definition init_values (v : Values) (amLighthouse : bool) (tunDev : string) (listenPort : Z) : Values :=
  Defaults (mkValues (CABundle l) (HostCert l) (HostKey l) (v_AmLighthouse v || amLighthouse) (v_LighthouseInterval v) (v_Lighthouses v)
    (v_ListenHost v) (if listenPort =? 0 then v_ListenPort v else listenPort) (if decide (tunDev = "") then v_TunDev v else tunDev)
    (v_MTU v) (v_StatsPort v) (v_StatsSubsystem v) (v_LogLevel v) (v_LogFormat v) (v_Blocklist v) (v_Inbound v) (v_Outbound v)).

(** [Layout.Ensure] *)
Definition Ensure : FM hserr unit := if decide (l_Base l = "") then fail_with HS_File else wrap (fun _ => HS_File) MkdirAll.

Definition Init (fresh : KeyPair) (unmarshalYAML : string -> option Values) (valuesPath : string) (amLighthouse : bool) (tunDev : string) (listenPort : Z) : FM hserr bool :=
  _ ← Ensure;
  st ← caught (Stat (HostKey l));
  made ← match st with
         | Err O_NotExist =>
             _ ← WritePrivateKey fresh (HostKey l);
             _ ← WritePublicKey fresh (HostPub l);
             mret true
         | Err _ => fail_with HS_File
         | Ok _ => mret false
         end;
  v ← (if decide (valuesPath = "") then mret zero_values
       else raw ← wrap (fun _ => HS_File) (ReadFile valuesPath);
            match unmarshalYAML raw with Some v => mret v | None => fail_with HS_Decode end);
  match Render (init_values v amLighthouse tunDev listenPort) with
  | None => fail_with HS_Render
  | Some cfg => _ ← wrap (fun _ => HS_File) (WriteFile (ConfigFile l) cfg m644); mret made
  end.
End pilot.

(** ** First boot *)

Section boot.
Context (sha256 : string -> string) (path data : string).

(** What a first boot may have done to the files. *)
Definition booted (s s' : Files) : Prop :=
  off [path +:+ ".embed"; path] s s' /\ (s' !! path = s !! path \/ (s !! path = None /\ s' !! path = Some (mkFile data m755))).

Lemma booted_tmp (s s' : Files) : off [path +:+ ".embed"] s s' -> booted s s'.
Proof. intros H. split; [eapply off_weaken; [|exact H]; set_solver|]. left. apply H. notin. Qed.

Lemma Materialize_cwp HP (s : Files) : cwp HP (booted s) (fun _ => booted s) (Materialize sha256 path data)
  (fun r s' => booted s s' /\ (r = Ok true -> s !! path = None /\ s' !! path = Some (mkFile data m755))) s.
Proof.
  assert (H0 : booted s s) by (by apply booted_tmp). unfold Materialize. destruct (decide _); [by apply cwp_ret|].
  apply cwp_bind, cwp_caught, cwp_Stat; [done|intros _; by apply cwp_fail|]. destruct (s !! path) as [f|] eqn:Ep; [by apply cwp_ret|].
  set (tmp := path +:+ ".embed").
  assert (Hclean : forall (Q : result nberr unit -> Files -> Prop) (s1 : Files), off [tmp] s s1 -> (forall r s2, booted s s2 -> Q r s2) ->
    cwp HP (booted s) (fun _ => booted s) (dropped (Remove tmp) : FM nberr unit) Q s1).
  { intros Q s1 H1 HQ. apply cwp_dropped. eapply cwp_Remove_own; [exact H1|apply booted_tmp|]. intros r s2 H2. by apply HQ, booted_tmp. }
  apply cwp_bind, cwp_wrap, cwp_op_intact; [done|done|]. intros h. cbn [fst snd].
  apply cwp_bind, cwp_wrap, cwp_WriteFile; [intros; by apply booted_tmp|intros; split; [by apply booted_tmp|done]|]. intros m _.
  set (s1 := <[tmp := _]> s). assert (H1 : off [tmp] s s1) by (apply off_insert; [isin|done]).
  apply cwp_bind, cwp_or_clean, cwp_Chmod; [by apply booted_tmp|by apply Hclean; [|intros; split]|]. unfold s1 at 1. rewrite lookup_insert_eq. cbn [contents].
  set (s2 := <[tmp := _]> s1). assert (H2 : off [tmp] s s2) by (apply off_insert; [isin|done]). assert (Ht : s2 !! tmp = Some (mkFile data m755)) by apply lookup_insert_eq.
  clearbody s2. apply cwp_bind, cwp_or_clean, looks_SHA256; [by apply booted_tmp|]. intros [[]|e]; [|by apply Hclean; [|intros; split]].
  apply cwp_bind, cwp_or_clean, cwp_Rename; [by apply booted_tmp|by apply Hclean; [|intros; split]|]. rewrite Ht. apply cwp_ret. rewrite lookup_insert_eq.
  split; [|done]. split; [|right; by rewrite lookup_insert_eq]. apply off_insert; [isin|]. apply off_delete; [isin|]. eapply off_weaken; [|exact H2]. set_solver.
Qed.

(** A fresh host gets a whole binary or none. Whatever fails and wherever the process
    dies, the binary's path is as it was, or was empty and now holds exactly the embedded
    bytes, executable; a binary that is there is never touched; and on a host where
    nothing fails the embedded binary is in place when the call returns. *)
Theorem first_boot_is_whole (s s' : Files) h : leaves (Materialize sha256 path data) h s s' ->
  booted s s' /\
  (calm h -> s !! path = None -> data <> "" -> sha256 data <> "" -> s' !! path = Some (mkFile data m755)).
Proof.
  intros Hl. split; [eapply (cwp_leaves (fun _ => True) (booted s)); [|done|exact Hl]; eapply cwp_mono; [apply Materialize_cwp|by intros r s1 []]|].
  intros Hc Hp Hd Hne. destruct Hl as [n <-]. destruct (hexsum_plain sha256 data Hne) as [(_ & Hnz & _) Hlow].
  assert (Hr : returns calm (Materialize sha256 path data) (fun _ s' => s' !! path = Some (mkFile data m755)) s).
  { assert (Hs : smooth calm) by (intros ?; done). unfold Materialize. rewrite decide_False by done.
    apply cwp_bind, cwp_caught, (returns_op _ Hs). intros _. cbn [fst snd]. rewrite Hp. apply cwp_bind, cwp_wrap, (returns_op _ Hs). intros _. cbn [fst snd].
    apply cwp_bind, cwp_wrap, (returns_op _ Hs). intros h'. cbn [fst snd]. apply cwp_bind, cwp_or_clean, (returns_op _ Hs). intros _. rewrite lookup_insert_eq. cbn [fst snd contents].
    apply cwp_bind, cwp_or_clean. eapply (returns_SHA256 _ Hs); [apply lookup_insert_eq|]. cbn [contents]. rewrite Hlow, decide_False, decide_True by done.
    apply cwp_bind, cwp_or_clean, (returns_op _ Hs). intros _. cbn [fst snd]. rewrite lookup_insert_eq. cbn [fst snd]. apply cwp_ret, lookup_insert_eq. }
  specialize (Hr h n Hc). by destruct (Materialize sha256 path data h n s) as [[[r| |v] n'] s1].
Qed.
End boot.

(** ** The statistics listener *)

Definition scannable (line : string) : Prop := clean line /\ cr ∉ chars line /\ len line < MaxScanTokenSize.

Lemma dropCR_plain s : cr ∉ chars s -> dropCR s = s.
Proof.
  induction s as [|ch s IH]; [done|]. cbn [chars]. intros [Hc Hs]%not_elem_of_cons. cbn [dropCR]. rewrite IH by done. destruct s; [|done]. by rewrite decide_False.
Qed.

Lemma unlines_concat ls : ls <> [] -> unlines ls = String.concat nl ls +:+ nl.
Proof.
  unfold unlines. induction ls as [|x ls IH]; [done|]. intros _. destruct ls as [|y ls]; [done|]. cbn [map] in IH |- *.
  change (String.concat "" ((x +:+ nl) :: (y +:+ nl) :: map (fun l => l +:+ nl) ls)) with ((x +:+ nl) +:+ "" +:+ String.concat "" ((y +:+ nl) :: map (fun l => l +:+ nl) ls)).
  rewrite IH by done. change (String.concat nl (x :: y :: ls)) with (x +:+ nl +:+ String.concat nl (y :: ls)). by rewrite !string_app_assoc.
Qed.

(** The scanner gives back the lines a text was made of. *)
Lemma scan_unlines ls : Forall scannable ls -> Scan (unlines ls) = ls.
Proof.
  intros H. unfold Scan. destruct ls as [|l0 ls0] eqn:E; [done|]. rewrite <- E in *. rewrite unlines_concat by by rewrite E. unfold nl. rewrite Split_concat; [|eapply Forall_impl; [done|]; by intros l []|by rewrite E].
  clear E. induction H as [|x ls (Hc & Hr & Hl) Hls IH]; [done|]. cbn [app scan].
  assert (Hx : MaxScanTokenSize <=? len x = false) by (apply Z.leb_gt; done). destruct (ls ++ [""]) as [|y r] eqn:E; [by destruct ls|].
  rewrite Hx, dropCR_plain by done. by rewrite IH.
Qed.

(** A line the stripper keeps when it is not skipping. *)
Definition ordinary (line : string) : Prop := top line = true -> HasPrefix line "stats:" = false.

Lemma strip_ordinary ls rest : Forall ordinary ls -> strip_lines false (ls ++ rest) = ls ++ strip_lines false rest.
Proof.
  induction 1 as [|x ls Hx Hls IH]; [done|]. cbn [app strip_lines]. destruct (top x) eqn:E; [rewrite Hx by done|]; by rewrite IH.
Qed.

Lemma strip_block ls line rest : Forall (fun x => top x = false) ls -> top line = true -> HasPrefix line "stats:" = false ->
  strip_lines true (ls ++ line :: rest) = strip_lines false (line :: rest).
Proof. induction 1 as [|x ls Hx Hls IH]; intros Ht Hp; cbn [app strip_lines]; [by rewrite Ht, Hp|]. rewrite Hx. by apply IH. Qed.

Lemma listen_ordinary ls rest : Forall ordinary ls -> stats_listen false (ls ++ rest) = stats_listen false rest.
Proof.
  induction 1 as [|x ls Hx Hls IH]; [done|]. cbn [app stats_listen]. destruct (top x) eqn:E; [rewrite Hx by done|]; by rewrite IH.
Qed.

(** The firewall section, from its first list on. *)
Definition rule_section (v : Values) : list string :=
  "  outbound:" :: concat (map rule_lines (v_Outbound v)) ++ "  inbound:" :: concat (map rule_lines (v_Inbound v)) ++ concat (map rule_lines (stats_rule v)).

Lemma config_lines_split v : config_lines v = before_stats v ++ stats_block v ++ after_stats v ++ rule_section v.
Proof. unfold config_lines, head_lines, rule_section. by rewrite <- !app_assoc. Qed.

Ltac ordinary_line := intros Ht; first [discriminate Ht | reflexivity].

Lemma rules_ordinary l : Forall ordinary (concat (map rule_lines l)).
Proof. apply Forall_concat, Forall_map, Forall_true. intros r. repeat (apply Forall_cons_2 || apply Forall_nil_2); ordinary_line. Qed.

Lemma before_ordinary v : Forall ordinary (before_stats v).
Proof.
  unfold before_stats, list_lines. repeat (apply Forall_app_2 || apply Forall_cons_2 || apply Forall_nil_2); try ordinary_line;
    try (apply Forall_map, Forall_true; intros x; ordinary_line).
  case_match; [done|]. apply Forall_cons_2; [ordinary_line|]. apply Forall_map, Forall_true. intros x. ordinary_line.
Qed.

Lemma after_ordinary v : Forall ordinary (after_stats v ++ rule_section v).
Proof.
  unfold after_stats, rule_section. repeat (apply Forall_cons_2 || apply Forall_nil_2 || apply rules_ordinary || apply Forall_app_2); ordinary_line.
Qed.

Lemma after_before_stats v : "  outbound:" ∉ before_stats v /\ "  outbound:" ∉ after_stats v.
Proof. pose proof (head_no_outbound v) as H. unfold head_lines in H. set_solver. Qed.

Lemma carries_tail pre rest out inb : Forall clean (pre ++ "  outbound:" :: rest) -> "  outbound:" ∉ pre ->
  carries (unlines (pre ++ "  outbound:" :: rest)) out inb <-> concat (map rule_block out) ++ "  inbound:" :: concat (map rule_block inb) ++ [""] = rest ++ [""].
Proof.
  intros Hc Hn. unfold carries. rewrite unlines_concat by by destruct pre. unfold nl. rewrite Split_concat by (done || by destruct pre).
  rewrite <- app_assoc. cbn [app]. split.
  - intros (h & Hh & Heq). symmetry. exact (first_line_inj _ _ _ _ _ Hn Hh Heq).
  - intros <-. by exists pre.
Qed.

Lemma disable_calm free p (s : Files) f h n : calm h -> s !! p = Some f ->
  disableStatsOnPortConflict free p h n s =
    (let listen := statsListenAddr (contents f) in
     if decide (listen = "") then (Returned (Ok ()), S n, s)
     else if free listen then (Returned (Ok ()), S n, s)
     else (Returned (Ok ()), S (S n), <[p := mkFile (stripStatsBlock (contents f)) (mode f)]> s)).
Proof.
  intros Hc Hf. unfold disableStatsOnPortConflict, mbind, fm_bind, caught, ReadFile, op. rewrite Hc. cbn [fst snd]. rewrite Hf. cbv zeta.
  destruct (decide _); [done|]. destruct (free _); [done|]. unfold dropped, WriteFile, op, mbind, fm_bind, caught. rewrite Hc. cbn [fst snd]. unfold perms. by rewrite Hf.
Qed.

(** ** A metrics port never sinks the tunnel *)

Section stats.
Context (b : Bundle) (ca cert key : string).
Abbreviation v := (bundle_values b ca cert key).

Lemma bundle_stats : v_StatsPort v = 4280 /\ v_StatsSubsystem v = "node".
Proof. unfold bundle_values. by destruct (b_Firewall b). Qed.

Lemma stats_block_lines : exists rest, stats_block v = "stats:" :: rest /\ Forall (fun x => top x = false) rest /\
  forall tail, stats_listen true (rest ++ tail) = "0.0.0.0:4280".
Proof.
  destruct bundle_stats as [H1 H2]. unfold stats_block. rewrite H1, H2. cbn [Z.eqb]. eexists. split; [reflexivity|]. split; [by repeat apply Forall_cons_2|].
  intros tail. vm_compute. reflexivity.
Qed.

Lemma stats_lines_of cfg : RenderNebulaConfig b ca cert key = Some cfg -> Forall scannable (config_lines v) ->
  statsListenAddr cfg = "0.0.0.0:4280" /\
  stripStatsBlock cfg = unlines (before_stats v ++ after_stats v ++ rule_section v) /\
  statsListenAddr (stripStatsBlock cfg) = "" /\ (forall out inb, carries (stripStatsBlock cfg) out inb <-> carries cfg out inb) /\
  (forall free p (s : Files) f h n, calm h -> s !! p = Some f -> contents f = cfg ->
     exists n', disableStatsOnPortConflict free p h n s =
       (Returned (Ok ()), n', if free "0.0.0.0:4280" then s else <[p := mkFile (stripStatsBlock cfg) (mode f)]> s)) /\
  (forall free p (s : Files) f h n, calm h -> s !! p = Some f -> contents f = stripStatsBlock cfg ->
     exists n', disableStatsOnPortConflict free p h n s = (Returned (Ok ()), n', s)).
Proof.
  intros Hr Hs. assert (Hcfg : cfg = unlines (config_lines v)).
  { unfold RenderNebulaConfig, Render in Hr.  destruct (decide _); [done|]. apply (inj Some) in Hr as <-. symmetry. apply unlines_concat. by unfold config_lines, head_lines, before_stats. }
  rewrite config_lines_split in Hcfg, Hs. destruct stats_block_lines as (block & Hb & Htop & Hlisten).
  destruct (after_before_stats v) as [Hnb Hna].
  assert (Hs' : Forall scannable (before_stats v ++ after_stats v ++ rule_section v)) by (rewrite !Forall_app in *; naive_solver).
  assert (Haddr : statsListenAddr cfg = "0.0.0.0:4280").
  { unfold statsListenAddr. rewrite Hcfg, scan_unlines by done. rewrite listen_ordinary by apply before_ordinary. rewrite Hb. apply Hlisten. }
  assert (Hstrip : stripStatsBlock cfg = unlines (before_stats v ++ after_stats v ++ rule_section v)).
  { unfold stripStatsBlock. rewrite Hcfg, scan_unlines by done. f_equal. rewrite strip_ordinary by apply before_ordinary. f_equal. rewrite Hb. cbn [app strip_lines top].
    unfold after_stats at 1. cbn [app]. rewrite strip_block by done. rewrite <- (app_nil_r (after_stats v ++ rule_section v)) at 2.
    change ("logging:" :: ?x) with (after_stats v ++ rule_section v) at 1.
    rewrite <- (app_nil_r (after_stats v ++ rule_section v)) at 1. by rewrite strip_ordinary by apply after_ordinary. }
  assert (Hnone : statsListenAddr (stripStatsBlock cfg) = "").
  { unfold statsListenAddr. rewrite Hstrip, scan_unlines by done. rewrite listen_ordinary by apply before_ordinary.
    rewrite <- (app_nil_r (after_stats v ++ rule_section v)). by rewrite listen_ordinary by apply after_ordinary. }
  split_and!; try done.
  - intros out inb. rewrite Hstrip, Hcfg. unfold rule_section. rewrite !app_assoc. rewrite !carries_tail; [done|..].
    + rewrite <- !app_assoc. eapply Forall_impl; [exact Hs|]. by intros l [].
    + rewrite <- app_assoc. apply head_no_outbound.
    + rewrite <- app_assoc. eapply Forall_impl; [exact Hs'|]. by intros l [].
    + rewrite elem_of_app. naive_solver.
  - intros free p s f h n Hc Hf Hcf. exists (if free "0.0.0.0:4280" then S n else S (S n)). rewrite (disable_calm free p s f h n Hc Hf), Hcf, Haddr. cbv zeta. rewrite decide_False by done. by destruct (free _).
  - intros free p s f h n Hc Hf Hcf. exists (S n). by rewrite (disable_calm free p s f h n Hc Hf), Hcf, Hnone.
Qed.

(** A metrics port never sinks the tunnel. For the configuration of every bundle, the
    address the agent probes is the one nebula's listener would bind; when it is taken,
    the rewritten configuration has no listener left and is otherwise the same text, line
    for line, with the same firewall rules; when it is free, or the configuration has no
    listener, nothing is written. *)
Theorem stats_conflict_fails_open cfg : RenderNebulaConfig b ca cert key = Some cfg -> Forall scannable (config_lines v) ->
  statsListenAddr cfg = "0.0.0.0:4280" /\
  stripStatsBlock cfg = unlines (before_stats v ++ after_stats v ++ rule_section v) /\
  statsListenAddr (stripStatsBlock cfg) = "" /\ (forall out inb, carries (stripStatsBlock cfg) out inb <-> carries cfg out inb) /\
  (forall free p (s : Files) f h n, calm h -> s !! p = Some f -> contents f = cfg ->
     exists n', disableStatsOnPortConflict free p h n s =
       (Returned (Ok ()), n', if free "0.0.0.0:4280" then s else <[p := mkFile (stripStatsBlock cfg) (mode f)]> s)) /\
  (forall free p (s : Files) f h n, calm h -> s !! p = Some f -> contents f = stripStatsBlock cfg ->
     exists n', disableStatsOnPortConflict free p h n s = (Returned (Ok ()), n', s)).
Proof. intros Hr Hs. by apply stats_lines_of. Qed.
End stats.

(** The listener comes back while its port is still taken: the drift monitor's next check
    writes the configuration with the listener again. *)
Theorem drift_restores_the_listener {Pub} `{!EqDecision Pub} (lib : HostLib Pub) (l : Layout) pins (s : Files) bf b want m :
  s !! BundleFile l = Some bf -> verify_with lib pins (contents <$> s !! ConfigSigningTrust l) (contents bf) = Ok b ->
  render_config l b = Some want -> Forall scannable (config_lines (bundle_values b (CABundle l) (HostCert l) (HostKey l))) ->
  s !! ConfigFile l = Some (mkFile (stripStatsBlock want) m) ->
  forall h n, calm h -> exists n' s', DriftSync lib l pins h n s = (Returned (Ok true), n', s') /\
    contents <$> s' !! ConfigFile l = Some want /\ statsListenAddr want = "0.0.0.0:4280".
Proof.
  intros Hb Hv Hr Hs Hcf h n Hc. destruct (stats_lines_of b _ _ _ want Hr Hs) as (Ha & _ & Hn & _).
  destruct (drift_returns lib l pins s bf b want Hb Hv Hr h n Hc) as (n' & s' & HD & Hcfg & _). exists n', s'. split_and!; [|done|done].
  rewrite HD. rewrite Hcf. cbn. rewrite bool_decide_eq_false_2; [done|]. intros [= E]. rewrite E in Hn. congruence.
Qed.

(** ** The health a host reports *)

Definition beat : Type := Health * Z * Z.
Definition bad (b : beat) : Prop := Healthy b.1.1 minUptime = false.

(** The answers of consecutive beats, the last one's, and [badSince] after it. *)
Definition after_beats (l : list beat) : string * Z :=
  fold_left (fun st b => nebulaHealth st.2 b.1.1 b.1.2 b.2) l ("ok", 0).

(** The beats of the run of bad ones at the end of a history, newest first. *)
Fixpoint newest_bad (l : list beat) : list beat :=
  match l with
  | [] => []
  | b :: l => if Healthy b.1.1 minUptime then [] else b :: newest_bad l
  end.
Definition bad_run (l : list beat) : list beat := newest_bad (reverse l).

Lemma bad_run_snoc l x : bad_run (l ++ [x]) = if Healthy x.1.1 minUptime then [] else x :: bad_run l.
Proof. unfold bad_run. by rewrite reverse_snoc. Qed.

Lemma bad_run_in l b : last (bad_run l) = Some b -> b ∈ l.
Proof.
  intros El. apply last_Some_elem_of in El. unfold bad_run in El. rewrite <- elem_of_reverse. revert El.
  induction (reverse l) as [|y r IH]; cbn; [done|]. destruct (Healthy _ _); [by intros ?%elem_of_nil|]. rewrite !elem_of_cons. naive_solver.
Qed.

Lemma last_cons_default {A} (x : A) l : last (x :: l) = Some (default x (last l)).
Proof. revert x. induction l as [|y l IH]; intros x; [done|]. change (last (x :: y :: l)) with (last (y :: l)). by rewrite IH. Qed.

Lemma after_beats_snoc l x : after_beats (l ++ [x]) = nebulaHealth (after_beats l).2 x.1.1 x.1.2 x.2.
Proof. unfold after_beats. by rewrite fold_left_app. Qed.

Lemma badSince_exact l : Forall (fun b : beat => 0 < b.1.2) l -> (after_beats l).2 = default 0 ((fun b : beat => b.1.2) <$> last (bad_run l)).
Proof.
  induction l as [|x l IH] using rev_ind; intros Hl; [done|]. apply Forall_app in Hl as [Hl Hx%Forall_singleton]. specialize (IH Hl).
  rewrite after_beats_snoc, bad_run_snoc. unfold nebulaHealth. destruct (Healthy x.1.1 minUptime); [done|]. cbn [snd].
  rewrite last_cons_default, IH. destruct (last (bad_run l)) as [b|] eqn:El; cbn; [|done].
  pose proof (bad_run_in l b El) as Hin. rewrite Forall_forall in Hl. specialize (Hl b Hin). destruct (b.1.2 =? 0) eqn:E; bool_split; lia.
Qed.

(** Health is debounced by wall-clock time. After any history of beats, the last one
    reports "unhealthy" exactly when it and every beat before it, back to one at least
    ninety seconds of clock time earlier, found the data plane down or up for less than
    thirty seconds: one healthy beat starts the window anew, so a restart that recovers
    within it is never reported, whatever the interval of the beats. *)
Theorem health_is_debounced (l : list beat) (x : beat) : Forall (fun b : beat => 0 < b.1.2) (l ++ [x]) ->
  (after_beats (l ++ [x])).1 = "unhealthy" <->
  exists first run, bad_run (l ++ [x]) = run /\ last run = Some first /\ unhealthyAfter <= x.2 - first.1.2.
Proof.
  intros Hl. apply Forall_app in Hl as [Hl Hx%Forall_singleton]. pose proof (badSince_exact l Hl) as Hs.
  rewrite after_beats_snoc, bad_run_snoc. unfold nebulaHealth. rewrite Hs. destruct (Healthy x.1.1 minUptime); [split; [done|]; by intros (f & r & <- & ? & _)|].
  cbv zeta. cbn [fst]. assert (Hsince : (if default 0 ((fun b : beat => b.1.2) <$> last (bad_run l)) =? 0 then x.1.2 else default 0 ((fun b : beat => b.1.2) <$> last (bad_run l))) =
    (default x (last (bad_run l))).1.2).
  { destruct (last (bad_run l)) as [b|] eqn:El; cbn; [|done]. pose proof (bad_run_in l b El) as Hin. rewrite Forall_forall in Hl. specialize (Hl b Hin). destruct (b.1.2 =? 0) eqn:E; bool_split; lia. }
  rewrite Hsince. destruct (unhealthyAfter <=? _) eqn:E; bool_split.
  - split; [intros _|done]. exists (default x (last (bad_run l))), (x :: bad_run l). rewrite last_cons_default. by split_and!.
  - split; [done|]. intros (f & r & <- & Hf & Hle). rewrite last_cons_default in Hf. injection Hf as <-. lia.
Qed.

(** ** The reported digest *)

(** The answers of consecutive calls: what [Stat] and the read see at each. *)
Fixpoint sha_answers (hexsum : string -> string) (cache : string * Z * Z) (obs : list (Z * Z * string)) : list string :=
  match obs with
  | [] => []
  | (t, n, c) :: obs => let (a, cache) := cachedFileSHA hexsum cache (Some (t, n)) (Some c) in a :: sha_answers hexsum cache obs
  end.

(** As long as a change of the bytes shows in the file's time or size, every answer is the
    digest of the bytes that are there. *)
Theorem cached_digest_is_current hexsum obs : (forall c, hexsum c <> "") ->
  (forall t n c c', (t, n, c) ∈ obs -> (t, n, c') ∈ obs -> c = c') ->
  sha_answers hexsum ("", 0, 0) obs = map (fun o => hexsum o.2) obs.
Proof.
  intros Hne Hdet. assert (Hgo : forall obs' cache, (forall o, o ∈ obs' -> o ∈ obs) ->
    (cache.1.1 = "" \/ exists c, (cache.1.2, cache.2, c) ∈ obs /\ cache.1.1 = hexsum c) -> sha_answers hexsum cache obs' = map (fun o => hexsum o.2) obs').
  { induction obs' as [|[[t n] c] obs' IH]; intros [[sha t0] n0] Hin Hc; [done|]. cbn [sha_answers map snd fst] in *. unfold cachedFileSHA.
    assert (Ho : (t, n, c) ∈ obs) by (apply Hin; left). destruct (negb _ && _ && _) eqn:E.
    - bool_split. destruct Hc as [->|(c0 & Hc0 & ->)]; [done|]. rewrite (Hdet t n c c0 Ho); [|by subst]. f_equal. rewrite <- (Hdet t n c c0 Ho) by by subst.
      apply IH; [set_solver|]. right. exists c. split; by subst.
    - f_equal. apply IH; [set_solver|]. right. by exists c. }
  apply Hgo; [done|by left].
Qed.

(** ** What the pilot converges on *)

Section agent.
Context {Pub : Type} `{!EqDecision Pub} (lib : HostLib Pub) (l : Layout).
Implicit Types (s : Files).

(** The pilot a host moves to is the operator's full override or the one of a bundle that
    verified against trusted keys; anything unreadable or unverified is no target. *)
Theorem desired_pilot_is_verified pinned ovVer ovSHA ovURL h n s ver sha url warn n' s' : reads_ok h ->
  desiredPilot lib l pinned ovVer ovSHA ovURL h n s = (Returned (Ok (ver, sha, url, warn)), n', s') ->
  s' = s /\ ((ovVer <> "" /\ ovSHA <> "" /\ ovURL <> "" /\ (ver, sha, url) = (ovVer, ovSHA, ovURL)) \/ (ver, sha, url) = ("", "", "") \/
    exists f b, s !! BundleFile l = Some f /\ verify_with lib pinned (contents <$> s !! ConfigSigningTrust l) (contents f) = Ok b /\ (ver, sha, url) = b_Pilot b).
Proof.
  intros Hr E. set (P := fun (r : result hserr (string * string * string * option hserr)) s1 => s1 = s /\ forall ver sha url warn, r = Ok (ver, sha, url, warn) ->
    (ovVer <> "" /\ ovSHA <> "" /\ ovURL <> "" /\ (ver, sha, url) = (ovVer, ovSHA, ovURL)) \/ (ver, sha, url) = ("", "", "") \/
    exists f b, s !! BundleFile l = Some f /\ verify_with lib pinned (contents <$> s !! ConfigSigningTrust l) (contents f) = Ok b /\ (ver, sha, url) = b_Pilot b).
  assert (Hw : cwp reads_ok (fun _ => True) (fun _ _ => True) (desiredPilot lib l pinned ovVer ovSHA ovURL) P s).
  { assert (Hempty : forall w, cwp reads_ok (fun _ => True) (fun _ _ => True) (mret ("", "", "", w) : FM hserr _) P s)
      by (intros w; apply cwp_ret; split; [done|]; intros ? ? ? ? [= <- <- <- _]; right; by left).
    unfold desiredPilot. destruct (decide _) as [(H1 & H2 & H3)|]; [apply cwp_ret; split; [done|]; intros ? ? ? ? [= <- <- <- _]; by left|].
    apply cwp_bind, cwp_caught, cwp_ReadFile; [done|intros _; apply Hempty|]. destruct (s !! BundleFile l) as [f|] eqn:Ef; [|apply Hempty].
    apply cwp_bind, cwp_caught, cwp_check; [done|intros e; apply Hempty|]. intros b tr Htr Hv. destruct Htr as [->|[Hn _]]; [|exfalso; apply Hn; by intros ?].
    apply cwp_ret. split; [done|]. intros v0 s0 u0 w0 [= Hb _]. right. right. exists f, b. split_and!; [done|done|]. by rewrite <- Hb. }
  specialize (Hw h n Hr). rewrite E in Hw. destruct Hw as [-> Hw]. split; [done|]. by eapply Hw.
Qed.

(** ** Host setup *)

(** The last steps of [Init]. *)
Definition init_config (made : bool) (cfg : option string) : FM hserr bool :=
  match cfg with
  | None => fail_with HS_Render
  | Some cfg => _ ← wrap (fun _ => HS_File) (WriteFile (ConfigFile l) cfg m644); mret made
  end.

Section init.
Context (fresh : KeyPair) (unmarshalYAML : string -> option Values) (amLighthouse : bool) (tunDev : string) (listenPort : Z).
Abbreviation init := (Init l fresh unmarshalYAML "" amLighthouse tunDev listenPort).
Abbreviation rendered := (Render (init_values l zero_values amLighthouse tunDev listenPort)).

Definition identity_kept s s1 : Prop :=
  off [HostKey l; HostPub l; ConfigFile l] s s1 /\ forall f, s !! HostKey l = Some f -> s1 !! HostKey l = Some f /\ s1 !! HostPub l = s !! HostPub l.

Lemma init_config_kept HP made cfg s s1 : identity_kept s s1 -> cwp HP (identity_kept s) (fun _ => identity_kept s) (init_config made cfg) (fun _ => identity_kept s) s1.
Proof.
  intros [H1 H2]. assert (Hcfg : forall s2, off [ConfigFile l] s1 s2 -> identity_kept s s2).
  { intros s2 H. split; [eapply off_trans; [exact H1|]; eapply off_weaken; [|exact H]; set_solver|]. intros f Hf. destruct (H2 f Hf) as [H3 H4]. rewrite !H by aparts. done. }
  destruct cfg as [cfg|]; [|by apply cwp_fail]. apply cwp_bind, cwp_wrap, cwp_WriteFile; [done|done|]. intros m _. apply cwp_ret, Hcfg. apply off_insert; [isin|done].
Qed.

Lemma Init_kept HP s : cwp HP (identity_kept s) (fun _ => identity_kept s) init (fun _ => identity_kept s) s.
Proof.
  assert (H0 : identity_kept s s) by by split. unfold Init, Ensure. apply cwp_bind. destruct (decide _); [by apply cwp_fail|].
  apply cwp_wrap, cwp_op_intact; [done|done|]. intros h. cbn [fst snd]. apply cwp_bind, cwp_caught, cwp_Stat; [done|intros _; by apply cwp_bind, cwp_fail|].
  destruct (s !! HostKey l) as [f|] eqn:Ek.
  { apply cwp_bind, cwp_ret. apply cwp_bind, cwp_ret. by apply init_config_kept. }
  assert (Hnew : forall s1, off [HostKey l; HostPub l] s s1 -> identity_kept s s1).
  { intros s1 H1. split; [eapply off_weaken; [|exact H1]; set_solver|]. intros f Hf. congruence. }
  assert (Hkey : forall s1, off [HostKey l] s s1 -> identity_kept s s1) by (intros s1 H1; apply Hnew; eapply off_weaken; [|exact H1]; set_solver).
  apply cwp_bind, cwp_bind. unfold WritePrivateKey. apply cwp_bind, cwp_wrap, cwp_op_intact; [done|done|]. intros h'. cbn [fst snd]. rewrite Ek. cbn [fst snd].
  set (s1 := <[HostKey l := _]> s). assert (H1 : off [HostKey l] s s1) by (apply off_insert; [isin|done]).
  apply cwp_bind, cwp_wrap, cwp_op; [by apply Hkey|intros; apply Hkey, off_insert; [isin|done]|by apply Hkey|intros; apply Hkey, off_insert; [isin|done]|]. intros h2. cbn [fst snd].
  set (s2 := <[HostKey l := _]> s1). assert (H2 : off [HostKey l] s s2) by (apply off_insert; [isin|done]).
  apply cwp_wrap, cwp_op_intact; [by apply Hkey|by apply Hkey|]. intros h3. cbn [fst snd].
  assert (Hpub : forall s3, off [HostPub l] s2 s3 -> identity_kept s s3).
  { intros s3 H3. apply Hnew. eapply off_trans; [eapply off_weaken; [|exact H2]|eapply off_weaken; [|exact H3]]; set_solver. }
  apply cwp_bind, cwp_wrap, cwp_WriteFile; [done|done|]. intros m _. apply cwp_ret. apply cwp_bind, cwp_ret. apply init_config_kept, Hpub. apply off_insert; [isin|done].
Qed.

Lemma Init_returns s cfg : l_Base l <> "" -> rendered = Some cfg ->
  returns calm init (fun r s1 => r = Ok (bool_decide (s !! HostKey l = None)) /\ contents <$> s1 !! ConfigFile l = Some cfg /\
    (s !! HostKey l = None -> contents <$> s1 !! HostKey l = Some (kp_privPEM fresh))) s.
Proof.
  intros Hb Hcfg. assert (Hs : smooth calm) by (intros ?; done). unfold Init, Ensure. apply cwp_bind. rewrite decide_False by done.
  apply cwp_wrap, (returns_op _ Hs). intros h. cbn [fst snd]. apply cwp_bind, cwp_caught, (returns_op _ Hs). intros h1. cbn [fst snd].
  destruct (s !! HostKey l) as [f|] eqn:Ek.
  - apply cwp_bind, cwp_ret. apply cwp_bind, cwp_ret. rewrite Hcfg. apply cwp_bind, cwp_wrap, (returns_op _ Hs). intros h2. cbn [fst snd]. apply cwp_ret.
    rewrite lookup_insert_eq. by split_and!.
  - apply cwp_bind, cwp_bind. unfold WritePrivateKey. apply cwp_bind, cwp_wrap, (returns_op _ Hs). intros h'. cbn [fst snd]. rewrite Ek. cbn [fst snd].
    apply cwp_bind, cwp_wrap, (returns_op _ Hs). intros h2. cbn [fst snd]. apply cwp_wrap, (returns_op _ Hs). intros h3. cbn [fst snd].
    apply cwp_bind, cwp_wrap, (returns_op _ Hs). intros h4. cbn [fst snd]. apply cwp_ret. apply cwp_bind, cwp_ret. rewrite Hcfg.
    apply cwp_bind, cwp_wrap, (returns_op _ Hs). intros h5. cbn [fst snd]. apply cwp_ret. rewrite lookup_insert_eq. split_and!; [done|done|]. intros _.
    rewrite !lookup_insert_ne by (unlayout; apply suffixes_ne; discriminate). by rewrite lookup_insert_eq.
Qed.

(** Setting up a host never replaces its identity. Whatever fails and wherever the
    process dies, `pilot init` leaves an existing host key exactly as it is and touches
    only the key pair and the configuration; and where nothing fails it returns, having
    made a key exactly when there was none, with the configuration rendered. *)
Theorem init_keeps_the_identity s : l_Base l <> "" ->
  (forall s' h, leaves init h s s' -> identity_kept s s') /\
  (forall h n, calm h -> exists n' s' cfg, init h n s = (Returned (Ok (bool_decide (s !! HostKey l = None))), n', s') /\
     rendered = Some cfg /\ contents <$> s' !! ConfigFile l = Some cfg /\ (s !! HostKey l = None -> contents <$> s' !! HostKey l = Some (kp_privPEM fresh))).
Proof.
  intros Hb. split.
  - intros s' h Hl. eapply (cwp_leaves (fun _ => True) (identity_kept s)); [apply Init_kept|done|exact Hl].
  - intros h n Hc. destruct (rendered) as [cfg|] eqn:Er.
    + pose proof (Init_returns s cfg Hb Er h n Hc) as Hw. destruct (init h n s) as [[[r| |v] n'] s1]; [|done..]. destruct Hw as (-> & H1 & H2). by exists n', s1, cfg.
    + exfalso. unfold Render, init_values in Er. cbn in Er. destruct (decide _) as [Hd|]; [|done]. unlayout.
      destruct Hd as [Hd|[Hd|Hd]]; apply (f_equal String.length) in Hd; rewrite !str_app_length in Hd; cbn in Hd; lia.
Qed.
End init.
End agent.

(** A mesh id is one path segment and one service instance name: never empty, no
    separator, no dot and no leading dash. *)
Theorem mesh_ids_are_path_segments s : validMeshID s = true ->
  s <> "" /\ "/"%char ∉ chars s /\ "."%char ∉ chars s /\ (forall r, s <> String "-" r) /\ len s <= 32.
Proof.
  unfold validMeshID. intros H. bool_split.
  assert (Hc : forall i t, mesh_chars i t = true -> forall ch, ch ∈ chars t -> ch <> "/"%char /\ ch <> "."%char).
  { intros i t. revert i. induction t as [|x t IH]; intros i Ht ch; [by intros ?%elem_of_nil|]. cbn in Ht. apply andb_true_iff in Ht as [Hx Ht].
    cbn [chars]. intros [->|Hin]%elem_of_cons; [|by eapply IH]. split; intros ->; by destruct i. }
  split_and!; try done.
  - intros Hin. by apply (Hc _ _ H0) in Hin as [? _].
  - intros Hin. by apply (Hc _ _ H0) in Hin as [_ ?].
  - intros r ->. done.
Qed.

(** ** A host's life *)

Module agent_example.
Import example nexample hexample rendered published.

Lemma first_boot_is_whole_witness :
  booted "/n" "elf" ∅ (after (Materialize sha "/n" "elf") (at_op 3 (E_Crash (Some 1%nat)) 0) ∅) /\
  (calm (fine 0) -> (∅ : Files) !! "/n" = None -> "elf" <> "" -> sha "elf" <> "" -> after (Materialize sha "/n" "elf") (fine 0) ∅ !! "/n" = Some (mkFile "elf" m755)).
Proof.
  split.
  - apply (first_boot_is_whole sha "/n" "elf" ∅ _ (at_op 3 (E_Crash (Some 1%nat)) 0)). by exists 0%nat.
  - apply (first_boot_is_whole sha "/n" "elf" ∅ _ (fine 0)). by exists 0%nat.
Defined.

Definition paths_of (f : string -> string -> string -> option string) : option string := f "/d/ca.crt" "/d/host.crt" "/d/host.key".
Definition text_of : string := default "" (paths_of (RenderNebulaConfig bundle)).

Lemma bundle_scannable : Forall scannable (config_lines (bundle_values bundle "/d/ca.crt" "/d/host.crt" "/d/host.key")).
Proof.
  assert (H : forallb (fun x => bool_decide (newline ∉ chars x) && bool_decide (cr ∉ chars x) && (len x <? MaxScanTokenSize))
    (config_lines (bundle_values bundle "/d/ca.crt" "/d/host.crt" "/d/host.key")) = true) by (vm_compute; reflexivity).
  apply Forall_forall. intros x Hx. apply forallb_elem with (x := x) in H; [|done]. bool_split. done.
Qed.

Lemma stats_conflict_fails_open_witness :
  statsListenAddr text_of = "0.0.0.0:4280" /\ statsListenAddr (stripStatsBlock text_of) = "" /\ forall out inb, carries (stripStatsBlock text_of) out inb <-> carries text_of out inb.
Proof.
  destruct (stats_conflict_fails_open bundle "/d/ca.crt" "/d/host.crt" "/d/host.key" text_of ltac:(vm_compute; reflexivity) bundle_scannable) as (H1 & _ & H2 & H3 & _).
  split; [exact H1|]. split; [exact H2|exact H3].
Defined.

(** Down at the first beat, up again for a moment, then down for good. *)
Definition up (u : Z) : Health := mkHealth true 7 0 u.
Definition down : Health := mkHealth false 0 0 0.
Definition history : list beat := [(down, 1 * second, 1 * second); (up (40 * second), 60 * second, 60 * second); (down, 80 * second, 80 * second); (up second, 130 * second, 130 * second)].

Lemma health_is_debounced_witness :
  (after_beats history).1 = "ok" /\
  ((after_beats (history ++ [(down, 170 * second, 170 * second)])).1 = "unhealthy" <->
   exists first run, bad_run (history ++ [(down, 170 * second, 170 * second)]) = run /\ last run = Some first /\ unhealthyAfter <= 170 * second - first.1.2).
Proof.
  split; [vm_compute; reflexivity|]. apply (health_is_debounced history (down, 170 * second, 170 * second)).
  repeat (apply Forall_cons_2 || apply Forall_nil_2); vm_compute; reflexivity.
Defined.

Lemma init_keeps_the_identity_witness :
  (forall s' h, leaves (Init lay K2 (fun _ => None) "" false "" 0) h host1 s' -> identity_kept lay host1 s') /\
  (forall h n, calm h -> exists n' s' cfg, Init lay K2 (fun _ => None) "" false "" 0 h n host1 = (Returned (Ok false), n', s') /\
     Render (init_values lay zero_values false "" 0) = Some cfg /\ contents <$> s' !! ConfigFile lay = Some cfg /\
     (host1 !! HostKey lay = None -> contents <$> s' !! HostKey lay = Some (kp_privPEM K2))).
Proof. apply (init_keeps_the_identity lay K2 (fun _ => None) false "" 0 host1). done. Defined.

(** The listener was disabled because its port is taken; one check later it is back. *)
Definition conflicted : Files := {[ "/d/bundle.json" := f644 jws; "/d/config.yml" := f644 (stripStatsBlock text_of) ]}.

Lemma drift_restores_the_listener_witness : exists n' s',
  DriftSync lib lay [7] (fine 0) 0%nat conflicted = (Returned (Ok true), n', s') /\ contents <$> s' !! ConfigFile lay = Some text_of /\ statsListenAddr text_of = "0.0.0.0:4280".
Proof.
  apply (drift_restores_the_listener lib lay [7] conflicted (f644 jws) (stamped bundle) text_of m644).
  - reflexivity.
  - vm_compute. reflexivity.
  - vm_compute. reflexivity.
  - exact bundle_scannable.
  - reflexivity.
  - done.
Defined.
End agent_example.
